(* ===== verification/_CoqProject ===== *)
-Q . S2P
Prelude.v
Errno.v
Effects.v
External.v
FileFlags.v
VMRange.v
VMMapOptions.v
VMFreeSpace.v
VMRemap.v
VMEpc.v
Platform.v
PageTracker.v
VMArea.v
ChunkManager.v
PlatformChunk.v
VMAreaFacts.v
ChunkManagerFacts.v
ChunkProtect.v
ChunkMerge.v
ChunkMmap.v
ChunkFault.v
VMChunk.v
ShmManager.v
VMManager.v
MemUtil.v
SysVShm.v
PlatformManager.v
VMManagerFacts.v
VMManagerMunmap.v
VMManagerExit.v
VMManagerProtect.v
VMManagerMmap.v
VMKept.v
VMLifetime.v
VMSystem.v
SysVShmFacts.v
SysVShmCalls.v
SysVShmSystem.v
SysVShmRuns.v
RangeLock.v
FileTable.v
SigSet.v
TermStatus.v
SigQueues.v
SigDelivery.v
Process.v
ProcessTree.v
ProcessFacts.v
ProcessSpawn.v
ProcessReap.v
ProcessExit.v
ProcessGroup.v
ProcessWait.v
ProcessSleep.v
ProcessCalls.v
ProcessWake.v
ProcessSystem.v
ProcessRaces.v
ProcessGuarantees.v
Futex.v
RwLock.v
RwLockFutex.v
Events.v
Channel.v
InitStack.v
Flock.v
Rlimit.v
