(* ===== verification/Prelude.v ===== *)
(** Verification of the Occlum LibOS.

    * The program

    Occlum is a library operating system for SGX enclaves. An application in the
    enclave enters it through system calls ([src/libos/src/syscall]); memory
    ([vm]), files ([fs]), signals ([signal]), processes and futexes ([process]),
    scheduling, IPC and sockets are implemented inside, on top of calls to the
    untrusted host. The parts modelled here decide in enclave memory alone, so
    their correctness does not depend on the host. Paths below are under
    [src/libos/src] unless they start with [crates].

    * The files

    - [Prelude]: machine integers, alignment ([prelude.rs]), vectors, tactics,
      the hint database [occlum].
    - [Errno]: [crates/errno/src/errno.rs], and [Result] for fallible code with
      a separate constructor for panics.
    - [External]: interfaces of third-party crates, as classes with their laws.
    - [VMRange]: [vm/vm_range.rs], [vm/vm_layout.rs]; half-open ranges of page
      addresses, [subtract] and [intersect].
    - [VMMapOptions]: [vm/vm_util.rs] up to [VMRemapParser], [vm/vm_perms.rs];
      the options of a mapping, their validation, what fills new memory.
    - [VMFreeSpace]: [vm/free_space_manager.rs]; the list of free ranges.
    - [VMRemap]: [vm/vm_util.rs] from [VMRemapSizeType] on, the flags of
      [vm/process_vm.rs], and [VMManager::mremap] from the parsed request on,
      for any [mmap] and [munmap] of the manager.
    - [Effects]: the state and error monad of stateful code, with its laws.
    - [VMEpc]: [vm/vm_epc.rs]; the enclave's memory and the SGX calls that commit,
      trim and protect it, and the files behind mappings, as the interface [Enclave].
    - [FileFlags]: [AccessMode] of [fs/file_ops/file_flags.rs].
    - [Platform], [PlatformChunk], [PlatformManager]: which calls of the enclave can
      fail ([platform_fault], [read_fails]), and that every operation on an enclave
      whose calls may fail either does what it does on one whose calls succeed,
      or panics and has such a cause ([agrees]).
    - [PageTracker]: [vm/page_tracker.rs]; which pages are committed, globally
      and per area.
    - [VMArea], [VMAreaFacts]: [vm/vm_area.rs]; mapped areas with pages, file
      and owner; cutting, merging, page faults.
    - [ChunkManager]: [vm/vm_chunk_manager.rs]; the areas and the free list of
      one chunk. Its theorems are in [ChunkManagerFacts] (invariant, address map,
      [munmap]), [ChunkProtect] ([mprotect]), [ChunkMerge] ([merge_all_vmas]),
      [ChunkMmap] ([mmap]) and [ChunkFault] (page faults, process exit, [mremap],
      and the examples).
    - [VMChunk], [ShmManager], [VMManager]: [vm/chunk.rs], [vm/shm_manager.rs],
      [vm/vm_manager.rs] and the chunk lists of [vm/process_vm.rs]; the chunks
      of user space, the processes that list them, and every method of the
      manager. A chunk is a range and the identity of its lock; the object
      behind each lock is in the store [vs_cells]. Theorems: [VMManagerFacts] (the
      invariant [vm_wf], what a process has mapped [pmap], and exchanging
      chunks [switch], which every method is), [VMManagerMunmap],
      [VMManagerExit], [VMManagerProtect] ([mprotect], page faults),
      [VMManagerMmap], and [VMSystem] (all calls of all processes).
      [VMLifetime] has executions in which chunks are freed too early. [vm_wf]
      is relative to a set [K] of chunks that no process lists; [VMKept] has the
      operations on those.
    - [MemUtil]: [util/mem_util.rs]; the checks of user pointers, and the copies
      of strings and arrays of strings from user memory.
    - [SysVShm]: [ipc/shm.rs], [ipc/syscalls.rs], the shutdown of
      [vm/user_space_vm.rs]; segments are chunks that the table of segments
      keeps. Theorems: [SysVShmFacts] and [SysVShmCalls] (invariant, each call),
      [SysVShmSystem] (all memory and shared-memory calls of all processes),
      [SysVShmRuns] (examples, and executions that go wrong).
    - [RangeLock]: [fs/locks/range_lock/], the lock operations of
      [fs/inode_file.rs]; several processes on one file are the step relation
      [lock_step], with every range that [fcntl] accepts.
    - [FileTable]: [fs/file_table.rs], [fs/file_ops/dup.rs].
    - [SigSet]: signal numbers, sets, masks, actions, dispositions and the
      alternate stack of [signal/].
    - [SigQueues]: [signal/sig_queues.rs], [signal/do_sigpending.rs], the tests
      of [signal/do_sigtimedwait.rs].
    - [TermStatus]: [process/term_status.rs].
    - [SigDelivery]: [signal/do_sigreturn.rs], the CPU context and
      floating-point areas of [syscall/mod.rs].
    - [Process]: numbers ([process/thread/id.rs]), processes and threads
      ([process/process/], [process/thread/]), tables ([process/table.rs]), groups
      ([process/pgrp.rs]), [spawn], [clone], [wait4], [exit], [exit_group],
      [setpgid], [execve]. The objects that the code shares through [Arc] are
      in stores, by address; calls to other parts are the list [ps_log].
      Theorems: [ProcessTree] and [ProcessFacts] (the invariant [wf]: tree of
      processes, groups, threads), [ProcessSpawn], [ProcessReap],
      [ProcessExit], [ProcessGroup], [ProcessWait] (what each call does and
      that it keeps [wf]), [ProcessSleep], [ProcessCalls] and [ProcessWake]
      (threads asleep in [wait4], [sys_ok]), [ProcessSystem] (all calls of all
      threads, [execve] included, as steps that do not overlap) and
      [ProcessGuarantees]. [ProcessRaces] has executions that go wrong.
    - [Futex]: [process/do_futex.rs]; threads on the buckets are the step
      relation [futex_step].
    - [RwLock]: [util/sync/rw_lock/inner.rs]; threads are the step relation
      [rw_step], one step per atomic access, over the interface [FutexAt];
      [RwLockFutex] shows that [Futex] is such an interface.
    - [Events]: [events/waiter_queue.rs], [events/notifier.rs].
    - [Channel]: [fs/channel.rs]; threads are the step relation [channel_step], one
      step per access to shared state (a transfer is one step per slice), over waiter queues and the interface
      [RingBuffers] of the [ringbuf] crate. The end point's own observer is the
      first that is registered at its notifier and lives as long, so that a
      broadcast always reaches it; other observers are left out.
    - [InitStack]: [process/do_spawn/init_stack.rs], [aux_vec.rs]; memory is a
      function from addresses to bytes, as in [MemUtil].
    - [Flock]: [fs/locks/flock.rs], [fs/file_ops/flock.rs]; threads are the step
      relation [flock_step].
    - [Rlimit]: [misc/rlimit.rs].

    A Rust method [T::f] is the definition [T_f], a function that mutates
    [self] returns the new value, locks and reference counts are dropped where
    one thread holds the object for the whole operation, and what an operation
    sends to other parts (events broadcast, threads woken) is returned as a list.

    * What the theorems show

    - Memory. Ranges: [subtract] and [intersect] partition a range. Options:
      every outcome of the builder. Free space: the list refines a set of free
      addresses; allocation follows the requested address policy and fails only
      when it must, freeing coalesces, and allocating then freeing restores the
      list. [mremap]: the parsed [mmap] and [munmap] turn the old range into the
      new one for every flag, and the bytes of the new mapping. Pages: the two
      levels of page tracking agree after every commit. Chunks: the state of a
      chunk is a map from addresses to permissions, owner, file and file offset
      ([view]); [mmap], [munmap], [mprotect], page faults and process exit are
      the pointwise updates of this map they should be, and keep areas and free
      list a partition of the chunk ([cm_wf]). User space: the manager refines
      a map from processes and addresses to what is mapped ([vm_refinement]); no
      two processes share an address and every address is free or in exactly one
      chunk ([memory_isolation]); nobody changes the memory of another
      process ([no_interference]); the last exit leaves the initial free list
      ([exit_leaves_clean]). These are about orderly runs ([call_ok]): requests as the
      [mmap] system call makes them, no shared file mapping under the POSIX
      shared-memory feature, [MAP_FIXED] within one chunk, and exits while other
      processes have memory in the default chunks they list; [VMLifetime] and
      [fixed_mmap_maps_part] show what happens otherwise. The runs are those in which no call
      panicked so far, on an enclave whose instructions, host calls and files may
      fail; [vm_refinement] and the theorems of the chunk say that only such a
      failure makes the next call panic.
    - Shared memory. The manager and the table of segments together refine what
      each process has mapped and an abstract table of segments
      ([sysv_refinement]); segments are apart from all other memory
      ([sysv_isolation]), a call panics only if the platform fails ([sysv_panic_cause])
      and the shutdown finds all memory free ([sysv_shutdown]), in orderly runs as
      above, in which segments have at most [SHMMAX] bytes and no identifier is
      given out twice ([shm_call_ok]); [SysVShmRuns] shows that the code makes sure of neither,
      and what follows.
    - User pointers and new programs. A copied array of strings is what the
      pointers point to, all of it user memory ([clone_cstrings_spec]); the
      initial stack is aligned, in its area, and read back by the same copies
      ([do_init_spec]).
    - Locks of the LibOS, and channels. The readers-writer lock excludes
      ([rw_lock_exclusive]) and loses no wake-up ([rw_lock_no_lost_wakeup]); a
      channel is a reliable byte stream, also between the slices of a call, and a call
      stops early only at a full or empty buffer ([channel_fifo]); no wake-up is lost
      ([channel_no_lost_wakeup]).
    - File locks. Whole-file locks exclude, and who sleeps waits for a lock that
      conflicts ([flock_safe]). Range locks: each operation changes exactly the requested bytes of the caller;
      in every reachable state no two processes hold conflicting locks and every
      sleeper is queued on a lock that conflicts with its request. Ranges may be empty,
      as the one from the largest offset on is.
    - Limits. [prlimit] keeps soft limits below hard limits and room in the
      address space ([do_prlimit_spec]).
    - Files. Descriptors are the lowest free ones, each operation touches only
      the slots it names, the count of open files is right.
    - Signals. Set operations mean what they say, [SIGKILL] and [SIGSTOP] stay
      unblocked and unhandled through [sigprocmask] and [sigaction]; delivery
      order, first-in first-out of real-time signals over any history,
      termination of delivery with the causes of its panics, a pending [SIGKILL] kills
      unless 32 handlers are running, and [sigreturn] undoes the call of a handler.
    - Futexes. Wake and requeue are operations on one queue per address, in
      order, without loss or duplication; a sleeping thread that was not woken is
      always in a queue.
    - Processes. In every state reached by spawning, cloning, waiting, exiting,
      moving to groups and reaping, the tables agree with the objects
      ([process_tables_sound]) and no call panics ([process_calls_no_panic]); a
      thread in [wait4] misses no exit ([wait4_misses_no_exit]), gets the status
      of the child that exits ([wait4_returns_exit_status]) and does not block
      the system ([wait4_no_deadlock]); numbers in use are not given again
      ([alloc_first_free]). These are about orderly runs: calls that do not overlap,
      no [execve] or [vfork], and one thread of a process in [wait4] at a time.
      [process_calls_no_panic] also has a panic for each condition but that on [vfork]
      when it is dropped, and [ProcessRaces] shows what else happens then.
    - Where the code does something else than it means to, the theorem states
      what it does: [mremap_mmap_failure], [mremap_fixed_shrink_panics],
      [mremap_new_contents], [merge_leaks_private_file],
      [parse_mremap_options_spec], [track_page_chunk_forgets],
      [default_chunk_use_after_free], [shared_chunk_double_free],
      [fixed_mmap_maps_part],
      [FileTable_del_all_spec], [empty_lock_not_released],
      [handler_mask_spec], [sigreturn_blocks_sigkill], [small_stack_panics],
      [futex_stale_item], [wait4_siblings], [execve_removes_new_process],
      [execve_frees_id], [setpgid_own_group_lost], [clone_accepts_unsupported],
      [vfork_group_wait_panics], [shmat_twice_leaks], [shmids_collide],
      [shmget_size_unchecked], [pop_eof_before_data], [broadcast_stops].

    * Bounds and fuel

    [usize] and [u64] are integers below [2^64] with wrap-around written out
    ([+64], [-64]); the release build does not check overflow. Addresses of the
    free list are below [2^62] ([addr_limit]), far above any enclave. Loops over
    a vector that change it take fuel: one round per lock is enough for placing
    and releasing locks ([set_lock_spec], [unlock_spec]), one per pending signal
    for delivery ([deliver_signal_terminates]), 64 for iterating over a signal
    set; for the cursor loops over [n] areas, [3n+1] rounds for [munmap] and
    [2n+2] for [mprotect], which cut areas as they go, and [n+1] for merging and
    for process exit; 2 for [mmap_with_addr], whose parts lie in one chunk or in
    none; one more than the numbers in use for giving a number, one more than
    the children for the reaping of the idle process; the size of user memory for
    copies of strings, which end before unless a string has no end. The theorems
    prove that the fuel is enough. The readers-writer lock has fewer than
    [2^31 - 1] threads, and queues of waiters fewer than [2^64] elements. Tables stay below [2^32]
    entries, since descriptors are [u32].

    * Not modelled

    Threads asleep in the host can be woken by it at any time with an error.
    Host calls and what only forwards to them (sockets, host files, time, block
    devices, attestation), ELF loading, assembly entry code, and the file system
    crates, which are submodules. User memory is read as an argument; messages
    and logging are dropped. The order in which a hash set or map is iterated, the
    random bytes of a new stack and the answers of [try_lock] are arguments
    ([VMEnv], [ShmEnv], [AuxOrder]). A new process is modelled from its group
    on, and its stack; ELF files and the copies of files and signal state are
    made before. [vfork] switches CPU contexts and is left out, as is the
    stopping of threads for it. The construction of an address space needs the ELF
    files, and [brk], which moves the end of the heap it lays out, is left out with
    it. [sigtimedwait] and [sigsuspend] sleep in pollers, which wait for
    host events; what they test is in [SigQueues]. CPU sets are handed to the
    host; robust lists and the untrusted-memory buffers are read from memory that
    others write at the same time.

    In [RwLock], [Channel] and [Flock] a step is one access, with sequentially
    consistent memory: weaker orderings are not modelled. Elsewhere atomic steps
    are operations under one lock, and races between the lock acquisitions of one
    operation are outside the models, but for the executions of [ProcessRaces], which
    cut calls in two. *)

From Stdlib Require Export ZArith Lia ZifyBool.
From stdpp Require Export base list gmap numbers decidable.

#[global] Open Scope Z_scope.
#[export] Set Warnings "-clear-no-such-hyp".

Create HintDb occlum.

(** * Machine integers

    The LibOS is built with [cargo build --release]: [usize] arithmetic wraps
    modulo [2^64] and [debug_assert!] compiles to nothing. A [usize] or [u64]
    is an integer [x] with [0 <= x < 2^64]. *)

Definition u64_modulus : Z := 2 ^ 64.
Definition u64_ones : Z := Z.ones 64.

Definition is_u64 (x : Z) : Prop := 0 <= x < u64_modulus.

Definition wrap64 (x : Z) : Z := x mod u64_modulus.
Definition add64 (x y : Z) : Z := wrap64 (x + y).
Definition sub64 (x y : Z) : Z := wrap64 (x - y).
Definition mul64 (x y : Z) : Z := wrap64 (x * y).
Definition not64 (x : Z) : Z := Z.lxor x u64_ones.

(** [usize::checked_add]. *)
Definition checked_add64 (x y : Z) : option Z :=
  if x + y <? u64_modulus then Some (x + y) else None.

(** [usize::is_power_of_two]. *)
Definition is_power_of_two (x : Z) : bool :=
  (0 <? x) && (x =? 2 ^ Z.log2 x).

(** [prelude.rs]: [align_down] and [align_up]. *)
Definition align_down (addr align : Z) : Z :=
  Z.land addr (not64 (sub64 align 1)).

Definition align_up (addr align : Z) : Z :=
  align_down (add64 addr (sub64 align 1)) align.

Declare Scope usize_scope.
Delimit Scope usize_scope with usize.
Notation "x +64 y" := (add64 x y) (at level 50, left associativity) : usize_scope.
Notation "x -64 y" := (sub64 x y) (at level 50, left associativity) : usize_scope.
Notation "x *64 y" := (mul64 x y) (at level 40, left associativity) : usize_scope.
#[global] Open Scope usize_scope.

(** * Tactics *)

(** Turn boolean tests of the code into the propositions they decide. *)
Ltac boolprop :=
  repeat match goal with
  | H : (_ && _) = true |- _ => apply andb_true_iff in H; destruct H
  | H : (_ || _) = false |- _ => apply orb_false_iff in H; destruct H
  | H : (_ && _) = false |- _ => apply andb_false_iff in H
  | H : (_ || _) = true |- _ => apply orb_true_iff in H
  | H : negb _ = true |- _ => apply negb_true_iff in H
  | H : negb _ = false |- _ => apply negb_false_iff in H
  | H : (_ <? _) = true |- _ => apply Z.ltb_lt in H
  | H : (_ <? _) = false |- _ => apply Z.ltb_ge in H
  | H : (_ <=? _) = true |- _ => apply Z.leb_le in H
  | H : (_ <=? _) = false |- _ => apply Z.leb_gt in H
  | H : (_ =? _) = true |- _ => apply Z.eqb_eq in H
  | H : (_ =? _) = false |- _ => apply Z.eqb_neq in H
  | H : bool_decide _ = true |- _ => apply bool_decide_eq_true in H
  | H : bool_decide _ = false |- _ => apply bool_decide_eq_false in H
  end.

(** Case analysis on the first [if] or [match] of the goal (of a hypothesis
    with [case_in]), with its equation. *)
Ltac case_if :=
  match goal with
  | |- context [if ?b then _ else _] => destruct b eqn:?
  end.

Ltac case_in H :=
  match type of H with
  | context [if ?b then _ else _] => destruct b eqn:?
  | context [match ?b with _ => _ end] => destruct b eqn:?
  end; simplify_eq/=.

Ltac unfold64 :=
  unfold add64, sub64, mul64, wrap64, is_u64, u64_modulus in *.

(** * Arithmetic lemmas *)

Lemma u64_modulus_eq : u64_modulus = 18446744073709551616.
Proof. reflexivity. Qed.

Lemma wrap64_small x : is_u64 x -> wrap64 x = x.
Proof. unfold64. intros. by apply Z.mod_small. Qed.

Lemma wrap64_range x : is_u64 (wrap64 x).
Proof. unfold64. by apply Z.mod_pos_bound. Qed.

Lemma add64_small x y : 0 <= x + y < u64_modulus -> x +64 y = x + y.
Proof. apply wrap64_small. Qed.

Lemma sub64_small x y : 0 <= x - y < u64_modulus -> x -64 y = x - y.
Proof. apply wrap64_small. Qed.

Lemma sub64_add_l x y : is_u64 y -> (x + y) -64 x = y.
Proof. intros Hy. unfold sub64. by rewrite Z.add_simpl_l, wrap64_small. Qed.

Lemma mul64_small x y : 0 <= x * y < u64_modulus -> x *64 y = x * y.
Proof. apply wrap64_small. Qed.

Lemma checked_add64_Some x y z :
  checked_add64 x y = Some z <-> z = x + y /\ x + y < u64_modulus.
Proof.
  unfold checked_add64. case_if; boolprop; split.
  - by intros [= <-].
  - by intros [-> _].
  - done.
  - intros [_ ?]; lia.
Qed.

Lemma is_power_of_two_iff x :
  is_power_of_two x = true <-> exists k, 0 <= k /\ x = 2 ^ k.
Proof.
  unfold is_power_of_two. split.
  - intros H. boolprop. exists (Z.log2 x). split; [apply Z.log2_nonneg | done].
  - intros (k & Hk & ->). rewrite Z.log2_pow2 by done.
    apply andb_true_iff. split; [|by apply Z.eqb_eq].
    apply Z.ltb_lt. by apply Z.pow_pos_nonneg.
Qed.

Lemma pow2_lt_inv k : 0 <= k -> 2 ^ k < u64_modulus -> k < 64.
Proof. intros Hk H. unfold u64_modulus in H. apply Z.pow_lt_mono_r_iff in H; lia. Qed.

Lemma not64_spec x k :
  0 <= k < 64 -> Z.testbit (not64 x) k = negb (Z.testbit x k).
Proof.
  intros Hk. unfold not64, u64_ones. rewrite Z.lxor_spec, Z.ones_spec_low by lia.
  apply xorb_true_r.
Qed.

Lemma testbit_u64_high x k : is_u64 x -> 64 <= k -> Z.testbit x k = false.
Proof.
  intros Hx Hk. destruct (decide (x = 0)) as [->|]; [apply Z.bits_0|].
  apply Z.bits_above_log2; [unfold64; lia|].
  assert (Z.log2 x < 64); [|lia].
  apply Z.log2_lt_pow2; unfold64; lia.
Qed.

Lemma land_not64 x y : is_u64 x -> Z.land x (not64 y) = Z.ldiff x y.
Proof.
  intros Hx. apply Z.bits_inj'. intros k Hk.
  rewrite Z.land_spec, Z.ldiff_spec.
  destruct (decide (k < 64)).
  - by rewrite not64_spec by lia.
  - by rewrite (testbit_u64_high x) by (auto; lia).
Qed.

Lemma align_down_eq addr k :
  is_u64 addr -> 0 <= k < 64 -> align_down addr (2 ^ k) = addr / 2 ^ k * 2 ^ k.
Proof.
  intros Ha Hk. unfold align_down.
  assert (0 < 2 ^ k) by (apply Z.pow_pos_nonneg; lia).
  assert (2 ^ k < 2 ^ 64) by (apply Z.pow_lt_mono_r; lia).
  rewrite sub64_small by (unfold u64_modulus; lia).
  rewrite land_not64 by done.
  replace (2 ^ k - 1) with (Z.ones k) by (rewrite Z.ones_equiv; lia).
  rewrite Z.ldiff_ones_r, Z.shiftl_mul_pow2, Z.shiftr_div_pow2 by lia. done.
Qed.

Lemma align_down_spec addr k :
  is_u64 addr -> 0 <= k < 64 ->
  let a := align_down addr (2 ^ k) in
  a mod 2 ^ k = 0 /\ a <= addr < a + 2 ^ k /\ 0 <= a.
Proof.
  intros Ha Hk a. subst a. rewrite align_down_eq by done.
  assert (0 < 2 ^ k) by (apply Z.pow_pos_nonneg; lia).
  pose proof (Z.div_mod addr (2 ^ k)). pose proof (Z.mod_pos_bound addr (2 ^ k)).
  assert (0 <= addr / 2 ^ k) by (apply Z.div_pos; unfold64; lia).
  split; [apply Z.mod_mul; lia | nia].
Qed.

(** [align_up] is the least multiple of the alignment that is not below the
    address, as long as the rounding does not overflow. *)
Lemma align_up_spec addr k :
  0 <= addr -> 0 <= k < 64 -> addr + 2 ^ k <= u64_modulus ->
  let a := align_up addr (2 ^ k) in
  a mod 2 ^ k = 0 /\ addr <= a < addr + 2 ^ k.
Proof.
  intros Ha Hk Hov a. subst a. unfold align_up.
  assert (0 < 2 ^ k) by (apply Z.pow_pos_nonneg; lia).
  assert (2 ^ k < 2 ^ 64) by (apply Z.pow_lt_mono_r; lia).
  rewrite (sub64_small (2 ^ k)), add64_small by (unfold u64_modulus in *; lia).
  destruct (align_down_spec (addr + (2 ^ k - 1)) k) as (? & ? & ?); [unfold64; lia|lia|].
  split; [done|lia].
Qed.

Lemma mod0_add_l m x y : 0 < m -> x mod m = 0 -> (x + y) mod m = y mod m.
Proof. intros Hm Hx. by rewrite Z.add_mod, Hx, Z.add_0_l, Z.mod_mod by lia. Qed.

Lemma multiple_gap m x y : 0 < m -> x mod m = 0 -> y mod m = 0 -> x < y -> x + m <= y.
Proof.
  intros Hm Hx Hy Hlt. apply Z.mod_divide in Hx as [p ->]; [|lia].
  apply Z.mod_divide in Hy as [q ->]; [|lia].
  assert (p < q) by nia. nia.
Qed.

Lemma align_up_least addr k b :
  0 <= addr -> 0 <= k < 64 -> addr + 2 ^ k <= u64_modulus ->
  addr <= b -> b mod 2 ^ k = 0 -> align_up addr (2 ^ k) <= b.
Proof.
  intros Ha Hk Hov Hb Hmod. destruct (align_up_spec addr k) as [Hm Hr]; [done..|].
  destruct (Z.le_gt_cases (align_up addr (2 ^ k)) b) as [|Hgt]; [done|].
  assert (0 < 2 ^ k) by (apply Z.pow_pos_nonneg; lia).
  pose proof (multiple_gap (2 ^ k) b _ ltac:(lia) Hmod Hm Hgt). lia.
Qed.

(** * Vectors

    [Vec::remove], [Vec::insert] and [Vec::swap]; the index is in range where
    they are used (an index out of range panics, see the callers). *)

Definition vec_remove {A} (i : nat) (l : list A) : list A := take i l ++ drop (S i) l.
Definition vec_insert {A} (i : nat) (x : A) (l : list A) : list A := take i l ++ x :: drop i l.

Lemma vec_remove_middle {A} (l1 l2 : list A) x :
  vec_remove (length l1) (l1 ++ x :: l2) = l1 ++ l2.
Proof.
  unfold vec_remove. rewrite take_app_length.
  by replace (S (length l1)) with (length l1 + 1)%nat by lia; rewrite drop_app_add.
Qed.

Lemma vec_insert_middle {A} (l1 l2 : list A) x :
  vec_insert (length l1) x (l1 ++ l2) = l1 ++ x :: l2.
Proof. unfold vec_insert. by rewrite take_app_length, drop_app_length. Qed.

Lemma list_insert_middle {A} (l1 l2 : list A) x y :
  <[length l1 := y]> (l1 ++ x :: l2) = l1 ++ y :: l2.
Proof. by rewrite <- (Nat.add_0_r (length l1)), insert_app_r. Qed.

Lemma list_lookup_split {A} (l : list A) i x :
  l !! i = Some x -> exists l1 l2, l = l1 ++ x :: l2 /\ length l1 = i.
Proof.
  intros Hi. exists (take i l), (drop (S i) l).
  split; [by rewrite take_drop_middle|].
  rewrite length_take. apply lookup_lt_Some in Hi. lia.
Qed.

Lemma list_last_default {A} (l : list A) x d d' : List.last (x :: l) d = List.last (x :: l) d'.
Proof. revert x. induction l as [|y l IH]; intros x; [done|]. apply (IH y). Qed.

Lemma list_last_snoc {A} (l : list A) x d : List.last (l ++ [x]) d = x.
Proof. apply List.last_last. Qed.

Lemma list_removelast_snoc {A} (l : list A) x : removelast (l ++ [x]) = l.
Proof. apply List.removelast_last. Qed.

Lemma list_snoc_cases {A} (l : list A) : l = [] \/ exists l' x, l = l' ++ [x].
Proof. induction l using rev_ind; eauto. Qed.

(** * Signed 64-bit integers ([i64], [off_t]) *)

Definition i64_min : Z := - 2 ^ 63.
Definition i64_max : Z := 2 ^ 63 - 1.
Definition is_i64 (x : Z) : Prop := i64_min <= x <= i64_max.

(** [x as i64] *)
Definition as_i64 (x : Z) : Z := (x + 2 ^ 63) mod 2 ^ 64 - 2 ^ 63.

(** [i64::checked_add] *)
Definition checked_add_i64 (x y : Z) : option Z :=
  if (i64_min <=? x + y) && (x + y <=? i64_max) then Some (x + y) else None.

Lemma as_i64_id x : is_i64 x -> as_i64 x = x.
Proof. unfold is_i64, i64_min, i64_max, as_i64. intros. rewrite Z.mod_small; lia. Qed.

Lemma as_i64_range x : is_i64 (as_i64 x).
Proof.
  unfold is_i64, i64_min, i64_max, as_i64.
  pose proof (Z.mod_pos_bound (x + 2 ^ 63) (2 ^ 64) eq_refl). lia.
Qed.

(** * Vectors *)

(** [iter().position(p)] *)
Fixpoint position {A} (p : A -> bool) (l : list A) : option nat :=
  match l with
  | [] => None
  | x :: l => if p x then Some 0%nat else S <$> position p l
  end.

(** [VecDeque::swap(i, j)], with both indices in range. *)
Definition vec_swap {A} (i j : nat) (l : list A) : list A :=
  match l !! i, l !! j with
  | Some x, Some y => <[i := y]> (<[j := x]> l)
  | _, _ => l
  end.

Lemma vec_swap_next {A} (l1 l2 : list A) x y :
  vec_swap (length l1) (S (length l1)) (l1 ++ x :: y :: l2) = l1 ++ y :: x :: l2.
Proof.
  unfold vec_swap. induction l1 as [|z l1 IH]; [done|]. cbn [length app]. simpl in *.
  rewrite <- IH. destruct ((l1 ++ x :: y :: l2) !! length l1); [|done].
  by destruct ((l1 ++ x :: y :: l2) !! S (length l1)).
Qed.

Lemma position_Some {A} (p : A -> bool) l i :
  position p l = Some i ->
  exists l1 x l2, l = l1 ++ x :: l2 /\ length l1 = i /\ p x = true /\ Forall (fun y => p y = false) l1.
Proof.
  revert i. induction l as [|y l IH]; intros i; simpl; [done|].
  destruct (p y) eqn:Hp.
  - intros [= <-]. by exists [], y, l.
  - destruct (position p l) as [j|]; simpl; [|done]. intros [= <-].
    destruct (IH j eq_refl) as (l1 & x & l2 & -> & <- & Hx & Hl1).
    exists (y :: l1), x, l2. split_and!; auto.
Qed.

Lemma position_None {A} (p : A -> bool) l :
  position p l = None -> Forall (fun y => p y = false) l.
Proof.
  induction l as [|y l IH]; simpl; [done|]. destruct (p y) eqn:Hp; [done|].
  destruct (position p l); simpl; [done|]. intros _. auto.
Qed.

(** Two neighbours in the middle of a vector, by index. *)
Section neighbours.
Context {A : Type} (l1 l2 : list A) (x y : A).
Lemma lookup_first : (l1 ++ x :: y :: l2) !! length l1 = Some x.
Proof. by apply list_lookup_middle. Qed.
Lemma lookup_second : (l1 ++ x :: y :: l2) !! (length l1 + 1)%nat = Some y.
Proof. rewrite lookup_app_r by lia. by replace (length l1 + 1 - length l1)%nat with 1%nat by lia. Qed.
Lemma insert_second z : <[(length l1 + 1)%nat := z]> (l1 ++ x :: y :: l2) = l1 ++ x :: z :: l2.
Proof.
  rewrite insert_app_r_alt by lia. by replace (length l1 + 1 - length l1)%nat with 1%nat by lia.
Qed.
Lemma swap_neighbours :
  vec_swap (length l1) (length l1 + 1) (l1 ++ x :: y :: l2) = l1 ++ y :: x :: l2.
Proof. rewrite Nat.add_1_r. apply vec_swap_next. Qed.
Lemma remove_first : vec_remove (length l1) (l1 ++ x :: y :: l2) = l1 ++ y :: l2.
Proof. apply vec_remove_middle. Qed.
Lemma remove_second : vec_remove (length l1 + 1) (l1 ++ x :: y :: l2) = l1 ++ x :: l2.
Proof.
  replace (l1 ++ x :: y :: l2) with ((l1 ++ [x]) ++ y :: l2) by (rewrite <- app_assoc; done).
  replace (length l1 + 1)%nat with (length (l1 ++ [x])) by (rewrite length_app; done).
  by rewrite vec_remove_middle, <- app_assoc.
Qed.
Lemma insert_third z :
  vec_insert (length l1 + 1 + 1) z (l1 ++ x :: y :: l2) = l1 ++ x :: y :: z :: l2.
Proof.
  replace (l1 ++ x :: y :: l2) with ((l1 ++ [x; y]) ++ l2) by (rewrite <- app_assoc; done).
  replace (length l1 + 1 + 1)%nat with (length (l1 ++ [x; y])) by (rewrite length_app; simpl; lia).
  by rewrite vec_insert_middle, <- app_assoc.
Qed.
End neighbours.
