(* ===== verification/Errno.v ===== *)
(** Error codes: [src/libos/crates/errno/src/errno.rs], and the shape of a
    fallible Rust computation used by every other file.

    [Errno] is the enum with its discriminants; [Errno_from] is
    [impl From<u32> for Errno], whose body is a range check followed by a
    [transmute] of the low byte. *)

From stdpp Require Import strings.
From S2P Require Import Prelude.

(** * The enum *)

Inductive Errno : Type :=
| EPERM | ENOENT | ESRCH | EINTR | EIO | ENXIO | E2BIG | ENOEXEC | EBADF
| ECHILD | EAGAIN | ENOMEM | EACCES | EFAULT | ENOTBLK | EBUSY | EEXIST
| EXDEV | ENODEV | ENOTDIR | EISDIR | EINVAL | ENFILE | EMFILE | ENOTTY
| ETXTBSY | EFBIG | ENOSPC | ESPIPE | EROFS | EMLINK | EPIPE | EDOM
| ERANGE | EDEADLK | ENAMETOOLONG | ENOLCK | ENOSYS | ENOTEMPTY | ELOOP
| ENOMSG | EIDRM | ECHRNG | EL2NSYNC | EL3HLT | EL3RST | ELNRNG | EUNATCH
| ENOCSI | EL2HLT | EBADE | EBADR | EXFULL | ENOANO | EBADRQC | EBADSLT
| EDEADLOCK | EBFONT | ENOSTR | ENODATA | ETIME | ENOSR | ENONET | ENOPKG
| EREMOTE | ENOLINK | EADV | ESRMNT | ECOMM | EPROTO | EMULTIHOP | EDOTDOT
| EBADMSG | EOVERFLOW | ENOTUNIQ | EBADFD | EREMCHG | ELIBACC | ELIBBAD
| ELIBSCN | ELIBMAX | ELIBEXEC | EILSEQ | ERESTART | ESTRPIPE | EUSERS
| ENOTSOCK | EDESTADDRREQ | EMSGSIZE | EPROTOTYPE | ENOPROTOOPT
| EPROTONOSUPPORT | ESOCKTNOSUPPORT | EOPNOTSUPP | EPFNOSUPPORT
| EAFNOSUPPORT | EADDRINUSE | EADDRNOTAVAIL | ENETDOWN | ENETUNREACH
| ENETRESET | ECONNABORTED | ECONNRESET | ENOBUFS | EISCONN | ENOTCONN
| ESHUTDOWN | ETOOMANYREFS | ETIMEDOUT | ECONNREFUSED | EHOSTDOWN
| EHOSTUNREACH | EALREADY | EINPROGRESS | ESTALE | EUCLEAN | ENOTNAM
| ENAVAIL | EISNAM | EREMOTEIO | EDQUOT | ENOMEDIUM | EMEDIUMTYPE
| ECANCELED | ENOKEY | EKEYEXPIRED | EKEYREVOKED | EKEYREJECTED
| EOWNERDEAD | ENOTRECOVERABLE | ERFKILL | EHWPOISON.

(** The discriminants, as in [Errno::EPERM as u32]. *)
Definition Errno_as_u32 (e : Errno) : Z :=
  match e with
  | EPERM => 1 | ENOENT => 2 | ESRCH => 3 | EINTR => 4 | EIO => 5
  | ENXIO => 6 | E2BIG => 7 | ENOEXEC => 8 | EBADF => 9 | ECHILD => 10
  | EAGAIN => 11 | ENOMEM => 12 | EACCES => 13 | EFAULT => 14
  | ENOTBLK => 15 | EBUSY => 16 | EEXIST => 17 | EXDEV => 18 | ENODEV => 19
  | ENOTDIR => 20 | EISDIR => 21 | EINVAL => 22 | ENFILE => 23
  | EMFILE => 24 | ENOTTY => 25 | ETXTBSY => 26 | EFBIG => 27
  | ENOSPC => 28 | ESPIPE => 29 | EROFS => 30 | EMLINK => 31 | EPIPE => 32
  | EDOM => 33 | ERANGE => 34 | EDEADLK => 35 | ENAMETOOLONG => 36
  | ENOLCK => 37 | ENOSYS => 38 | ENOTEMPTY => 39 | ELOOP => 40
  | ENOMSG => 42 | EIDRM => 43 | ECHRNG => 44 | EL2NSYNC => 45
  | EL3HLT => 46 | EL3RST => 47 | ELNRNG => 48 | EUNATCH => 49
  | ENOCSI => 50 | EL2HLT => 51 | EBADE => 52 | EBADR => 53 | EXFULL => 54
  | ENOANO => 55 | EBADRQC => 56 | EBADSLT => 57 | EDEADLOCK => 58
  | EBFONT => 59 | ENOSTR => 60 | ENODATA => 61 | ETIME => 62 | ENOSR => 63
  | ENONET => 64 | ENOPKG => 65 | EREMOTE => 66 | ENOLINK => 67
  | EADV => 68 | ESRMNT => 69 | ECOMM => 70 | EPROTO => 71
  | EMULTIHOP => 72 | EDOTDOT => 73 | EBADMSG => 74 | EOVERFLOW => 75
  | ENOTUNIQ => 76 | EBADFD => 77 | EREMCHG => 78 | ELIBACC => 79
  | ELIBBAD => 80 | ELIBSCN => 81 | ELIBMAX => 82 | ELIBEXEC => 83
  | EILSEQ => 84 | ERESTART => 85 | ESTRPIPE => 86 | EUSERS => 87
  | ENOTSOCK => 88 | EDESTADDRREQ => 89 | EMSGSIZE => 90 | EPROTOTYPE => 91
  | ENOPROTOOPT => 92 | EPROTONOSUPPORT => 93 | ESOCKTNOSUPPORT => 94
  | EOPNOTSUPP => 95 | EPFNOSUPPORT => 96 | EAFNOSUPPORT => 97
  | EADDRINUSE => 98 | EADDRNOTAVAIL => 99 | ENETDOWN => 100
  | ENETUNREACH => 101 | ENETRESET => 102 | ECONNABORTED => 103
  | ECONNRESET => 104 | ENOBUFS => 105 | EISCONN => 106 | ENOTCONN => 107
  | ESHUTDOWN => 108 | ETOOMANYREFS => 109 | ETIMEDOUT => 110
  | ECONNREFUSED => 111 | EHOSTDOWN => 112 | EHOSTUNREACH => 113
  | EALREADY => 114 | EINPROGRESS => 115 | ESTALE => 116 | EUCLEAN => 117
  | ENOTNAM => 118 | ENAVAIL => 119 | EISNAM => 120 | EREMOTEIO => 121
  | EDQUOT => 122 | ENOMEDIUM => 123 | EMEDIUMTYPE => 124
  | ECANCELED => 125 | ENOKEY => 126 | EKEYEXPIRED => 127
  | EKEYREVOKED => 128 | EKEYREJECTED => 129 | EOWNERDEAD => 130
  | ENOTRECOVERABLE => 131 | ERFKILL => 132 | EHWPOISON => 133
  end.

(** Every variant, in declaration order. *)
Definition Errno_all : list Errno :=
[EPERM; ENOENT; ESRCH; EINTR; EIO; ENXIO; E2BIG; ENOEXEC; EBADF; ECHILD;
   EAGAIN; ENOMEM; EACCES; EFAULT; ENOTBLK; EBUSY; EEXIST; EXDEV; ENODEV;
   ENOTDIR; EISDIR; EINVAL; ENFILE; EMFILE; ENOTTY; ETXTBSY; EFBIG; ENOSPC;
   ESPIPE; EROFS; EMLINK; EPIPE; EDOM; ERANGE; EDEADLK; ENAMETOOLONG;
   ENOLCK; ENOSYS; ENOTEMPTY; ELOOP; ENOMSG; EIDRM; ECHRNG; EL2NSYNC;
   EL3HLT; EL3RST; ELNRNG; EUNATCH; ENOCSI; EL2HLT; EBADE; EBADR; EXFULL;
   ENOANO; EBADRQC; EBADSLT; EDEADLOCK; EBFONT; ENOSTR; ENODATA; ETIME;
   ENOSR; ENONET; ENOPKG; EREMOTE; ENOLINK; EADV; ESRMNT; ECOMM; EPROTO;
   EMULTIHOP; EDOTDOT; EBADMSG; EOVERFLOW; ENOTUNIQ; EBADFD; EREMCHG;
   ELIBACC; ELIBBAD; ELIBSCN; ELIBMAX; ELIBEXEC; EILSEQ; ERESTART;
   ESTRPIPE; EUSERS; ENOTSOCK; EDESTADDRREQ; EMSGSIZE; EPROTOTYPE;
   ENOPROTOOPT; EPROTONOSUPPORT; ESOCKTNOSUPPORT; EOPNOTSUPP; EPFNOSUPPORT;
   EAFNOSUPPORT; EADDRINUSE; EADDRNOTAVAIL; ENETDOWN; ENETUNREACH;
   ENETRESET; ECONNABORTED; ECONNRESET; ENOBUFS; EISCONN; ENOTCONN;
   ESHUTDOWN; ETOOMANYREFS; ETIMEDOUT; ECONNREFUSED; EHOSTDOWN;
   EHOSTUNREACH; EALREADY; EINPROGRESS; ESTALE; EUCLEAN; ENOTNAM; ENAVAIL;
   EISNAM; EREMOTEIO; EDQUOT; ENOMEDIUM; EMEDIUMTYPE; ECANCELED; ENOKEY;
   EKEYEXPIRED; EKEYREVOKED; EKEYREJECTED; EOWNERDEAD; ENOTRECOVERABLE;
   ERFKILL; EHWPOISON].

Abbreviation ERRNO_MIN := (Errno_as_u32 EPERM : Z).
Abbreviation ERRNO_MAX := (Errno_as_u32 EHWPOISON : Z).

(** [Errno::EWOULDBLOCK]. *)
Abbreviation EWOULDBLOCK := (EAGAIN : Errno).

(** The outcome of [Errno::from]: a variant, a panic, or a byte that is the
    discriminant of no variant, for which [core::mem::transmute] is undefined
    behaviour. *)
Inductive from_outcome : Type :=
| FromVariant (e : Errno)
| FromPanic
| FromInvalidDiscriminant.

(** [core::mem::transmute::<u8, Errno>]: the variant with that discriminant. *)
Definition transmute_u8_Errno (b : Z) : option Errno :=
  list_find (fun e => Errno_as_u32 e = b) Errno_all ≫= (fun p => Some p.2).

(** [impl From<u32> for Errno]. *)
Definition Errno_from (raw_errno : Z) : from_outcome :=
  if (raw_errno <? ERRNO_MIN) || (ERRNO_MAX <? raw_errno) then FromPanic
  else match transmute_u8_Errno (raw_errno mod 256) with
       | Some e => FromVariant e
       | None => FromInvalidDiscriminant
       end.

(** [Errno::as_str]. *)
Definition Errno_as_str (e : Errno) : string :=
  match e with
  | EPERM => "Operation not permitted"
  | ENOENT => "No such file or directory"
  | ESRCH => "No such process"
  | EINTR => "Interrupted system call"
  | EIO => "I/O error"
  | ENXIO => "No such device or address"
  | E2BIG => "Argument list too long"
  | ENOEXEC => "Exec format error"
  | EBADF => "Bad file number"
  | ECHILD => "No child processes"
  | EAGAIN => "Try again"
  | ENOMEM => "Out of memory"
  | EACCES => "Permission denied"
  | EFAULT => "Bad address"
  | ENOTBLK => "Block device required"
  | EBUSY => "Device or resource busy"
  | EEXIST => "File exists"
  | EXDEV => "Cross-device link"
  | ENODEV => "No such device"
  | ENOTDIR => "Not a directory"
  | EISDIR => "Is a directory"
  | EINVAL => "Invalid argument"
  | ENFILE => "File table overflow"
  | EMFILE => "Too many open files"
  | ENOTTY => "Not a typewriter"
  | ETXTBSY => "Text file busy"
  | EFBIG => "File too large"
  | ENOSPC => "No space left on device"
  | ESPIPE => "Illegal seek"
  | EROFS => "Read-only file system"
  | EMLINK => "Too many links"
  | EPIPE => "Broken pipe"
  | EDOM => "Math argument out of domain of func"
  | ERANGE => "Math result not representable"
  | EDEADLK => "Resource deadlock would occur"
  | ENAMETOOLONG => "File name too long"
  | ENOLCK => "No record locks available"
  | ENOSYS => "Function not implemented"
  | ENOTEMPTY => "Directory not empty"
  | _ => "Unknown error"
  end%string.

(** * Fallible computations

    [Result<T>] carries the [Errno] that [Error::errno] returns; messages,
    locations and backtraces are dropped. [Panic] is a Rust panic ([unwrap],
    [expect], [unreachable!], [assert!], an index out of range). *)

Inductive Result (A : Type) : Type :=
| Ok (a : A)
| Err (e : Errno)
| Panic.
Arguments Ok {A} a.
Arguments Err {A} e.
Arguments Panic {A}.

#[export] Instance Result_ret : MRet Result := fun A a => Ok a.
#[export] Instance Result_bind : MBind Result := fun A B f m =>
  match m with Ok a => f a | Err e => Err e | Panic => Panic end.

(** [Option::ok_or_else]. *)
Definition ok_or {A} (o : option A) (e : Errno) : Result A :=
  match o with Some a => Ok a | None => Err e end.

(** [Option::unwrap] and [Result::unwrap]. *)
Definition unwrap_option {A} (o : option A) : Result A :=
  match o with Some a => Ok a | None => Panic end.
Definition unwrap_result {A} (r : Result A) : Result A :=
  match r with Ok a => Ok a | _ => Panic end.

(** [ResultExt::errno] and [ResultExt::has_errno] of [result.rs]. *)
Definition Result_errno {A} (r : Result A) : option Errno :=
  match r with Err e => Some e | _ => None end.

(** * Facts *)

Lemma bind_Ok_inv {A B} (f : A -> Result B) (m : Result A) b :
  (m ≫= f) = Ok b -> exists a, m = Ok a /\ f a = Ok b.
Proof. destruct m; simpl; [eauto|done|done]. Qed.

Lemma Errno_all_complete e : e ∈ Errno_all.
Proof.
  apply list_elem_of_In. unfold Errno_all.
  destruct e; cbv; repeat (first [left; reflexivity | right]).
Qed.

Lemma transmute_as_u32 e : transmute_u8_Errno (Errno_as_u32 e) = Some e.
Proof. destruct e; reflexivity. Qed.

#[export] Instance Errno_as_u32_inj : Inj (=) (=) Errno_as_u32.
Proof.
  intros e1 e2 H. pose proof (transmute_as_u32 e1) as H1.
  rewrite H, transmute_as_u32 in H1. by simplify_eq.
Qed.

#[export] Instance Errno_eq_dec : EqDecision Errno.
Proof.
  intros e1 e2. destruct (decide (Errno_as_u32 e1 = Errno_as_u32 e2)) as [H|H].
  - left. by apply (inj Errno_as_u32).
  - right. by intros ->.
Defined.

Definition Result_has_errno {A} (r : Result A) (errno : Errno) : bool :=
  bool_decide (Result_errno r = Some errno).

Lemma Errno_as_u32_range e : 1 <= Errno_as_u32 e <= 133.
Proof. destruct e; cbv; split; discriminate. Qed.

Lemma transmute_as_u32_inv b e : transmute_u8_Errno b = Some e -> Errno_as_u32 e = b.
Proof.
  unfold transmute_u8_Errno. intros ([i x] & Hf & [= <-])%bind_Some.
  by apply list_find_Some in Hf as (_ & ? & _).
Qed.

(** The bytes between the two bounds that are the discriminant of a variant. *)
Lemma transmute_None b : 1 <= b <= 133 -> transmute_u8_Errno b = None -> b = 41.
Proof.
  intros Hb HN. destruct (decide (b = 41)) as [|Hne]; [done|].
  assert (Hall : Forall (fun b => b = 41 \/ is_Some (transmute_u8_Errno b)) (seqZ 1 133)).
  { apply (bool_decide_unpack _). vm_compute. exact I. }
  rewrite Forall_forall in Hall.
  destruct (Hall b) as [|[e He]]; [apply list_elem_of_In, elem_of_seqZ; lia|done|congruence].
Qed.

(** [Errno::from] inverts [as u32] on every variant, panics exactly outside
    [ERRNO_MIN..=ERRNO_MAX], and for the one remaining raw value, 41, the byte
    handed to [transmute] is the discriminant of no variant. *)
Theorem Errno_from_spec (raw : Z) (Hraw : 0 <= raw < 2 ^ 32) :
  match Errno_from raw with
  | FromVariant e => Errno_as_u32 e = raw
  | FromPanic => raw < ERRNO_MIN \/ ERRNO_MAX < raw
  | FromInvalidDiscriminant => raw = 41
  end /\ (forall e, Errno_as_u32 e = raw -> Errno_from raw = FromVariant e).
Proof.
  unfold Errno_from. change ERRNO_MIN with 1 in *. change ERRNO_MAX with 133 in *.
  case_if; boolprop.
  - split; [lia|]. intros e He. pose proof (Errno_as_u32_range e). lia.
  - rewrite Z.mod_small by lia. destruct (transmute_u8_Errno raw) as [e|] eqn:He.
    + split; [by apply transmute_as_u32_inv|]. intros e' <-.
      by rewrite transmute_as_u32 in He; simplify_eq.
    + split; [apply transmute_None; [lia|done]|]. intros e' <-.
      by rewrite transmute_as_u32 in He.
Qed.

Lemma Errno_from_spec_witness :
  Errno_from 41 = FromInvalidDiscriminant /\ Errno_from 110 = FromVariant ETIMEDOUT.
Proof.
  split; [reflexivity|].
  apply (Errno_from_spec 110); [lia | reflexivity].
Defined.

(** * Automation for fallible code *)

Lemma bind_Ok {A B} (m : Result A) (f : A -> Result B) b :
  m ≫= f = Ok b <-> exists a, m = Ok a /\ f a = Ok b.
Proof. destruct m; naive_solver. Qed.

Lemma ok_or_Ok {A} (o : option A) e a : ok_or o e = Ok a <-> o = Some a.
Proof. destruct o; naive_solver. Qed.

Ltac res_inv H :=
  repeat match type of H with
  | mbind _ _ = Ok _ => let x := fresh "x" in let Hx := fresh "Hx" in
      apply bind_Ok in H as (x & Hx & H)
  end.
