(* ===== verification/Effects.v ===== *)
(** Stateful fallible code: [&mut self] methods that return [Result].

    A computation takes the state and returns the outcome together with the
    state it leaves. The state survives an error, as the mutations made before
    a [?] do in the source. *)

From S2P Require Import Prelude Errno.

Definition M (S A : Type) : Type := S -> Result A * S.

#[export] Instance M_ret {S} : MRet (M S) := fun A a s => (Ok a, s).
#[export] Instance M_bind {S} : MBind (M S) := fun A B f c s =>
  match c s with
  | (Ok a, s') => f a s'
  | (Err e, s') => (Err e, s')
  | (Panic, s') => (Panic, s')
  end.

(** A computation without effects, and the three outcomes. *)
Definition lift {S A} (r : Result A) : M S A := fun s => (r, s).
Definition ok {S A} (a : A) : M S A := lift (Ok a).
Definition fail_with {S A} (e : Errno) : M S A := lift (Err e).
Definition panic {S A} : M S A := lift Panic.

(** Reading and writing the state. *)
Definition get {S} : M S S := fun s => (Ok s, s).
Definition put {S} (s' : S) : M S unit := fun _ => (Ok tt, s').
Definition modify {S} (f : S -> S) : M S unit := fun s => (Ok tt, f s).

(** [.unwrap()] and [.expect(..)]: an error is a panic. *)
Definition unwrapM {S A} (c : M S A) : M S A := fun s =>
  match c s with (Err _, s') => (Panic, s') | p => p end.

(** A [Result] inspected instead of propagated; a panic is not caught. *)
Definition attempt {S A} (c : M S A) : M S (Result A) := fun s =>
  match c s with (Panic, s') => (Panic, s') | (r, s') => (Ok r, s') end.

(** [.map_err(|_| errno!(e))] *)
Definition map_err {S A} (e : Errno) (c : M S A) : M S A := fun s =>
  match c s with (Err _, s') => (Err e, s') | p => p end.

(** [for x in l { f(x)? }] *)
Fixpoint for_each {S A} (f : A -> M S unit) (l : list A) : M S unit :=
  match l with
  | [] => ok tt
  | x :: l => f x ≫= fun _ => for_each f l
  end.

(** [(lo..hi).step_by(step)] *)
Definition range_step_by (lo hi step : Z) : list Z :=
  (fun i => lo + Z.of_nat i * step) <$> seq 0 (Z.to_nat ((hi - lo + step - 1) / step)).

(** * Running computations *)

Lemma bind_ok {S A B} (c : M S A) (k : A -> M S B) s a s' :
  c s = (Ok a, s') -> (c ≫= k) s = k a s'.
Proof. intros H. unfold mbind, M_bind. by rewrite H. Qed.

Lemma bind_ok_inv {S A B} (c : M S A) (k : A -> M S B) s b s'' :
  (c ≫= k) s = (Ok b, s'') -> exists a s', c s = (Ok a, s') /\ k a s' = (Ok b, s'').
Proof. unfold mbind, M_bind. destruct (c s) as [[a|e|] s']; naive_solver. Qed.

Lemma bind_assoc {S A B C} (c : M S A) (k : A -> M S B) (h : B -> M S C) s :
  ((c ≫= k) ≫= h) s = (c ≫= fun a => k a ≫= h) s.
Proof. unfold mbind, M_bind. by destruct (c s) as [[a|e|] s']. Qed.

(** [triple P c Q]: from a state in [P], [c] ends in an outcome and state in [Q]. *)
Definition triple {S A} (P : S -> Prop) (c : M S A) (Q : Result A -> S -> Prop) : Prop :=
  forall s, P s -> Q (c s).1 (c s).2.

Lemma triple_conseq {S A} (P P' : S -> Prop) (c : M S A) (Q Q' : Result A -> S -> Prop) :
  (forall s, P' s -> P s) -> (forall r s, Q r s -> Q' r s) -> triple P c Q -> triple P' c Q'.
Proof. unfold triple. eauto. Qed.

Lemma triple_bind {S A B} (P : S -> Prop) (R : A -> S -> Prop) (Q : Result B -> S -> Prop)
    (c : M S A) (k : A -> M S B) :
  triple P c (fun r s => match r with
                         | Ok a => R a s | Err e => Q (Err e) s | Panic => Q Panic s end) ->
  (forall a, triple (R a) (k a) Q) -> triple P (c ≫= k) Q.
Proof.
  intros Hc Hk s Hs. specialize (Hc s Hs). unfold mbind, M_bind.
  destruct (c s) as [[a|e|] s']; simpl in *; [by apply Hk|done..].
Qed.

Lemma triple_lift {S A} (P : S -> Prop) (r : Result A) (Q : Result A -> S -> Prop) :
  (forall s, P s -> Q r s) -> triple P (lift r) Q.
Proof. by unfold triple. Qed.

(** A loop keeps an invariant that every round keeps. *)
Lemma triple_for_each {S A} (I : list A -> S -> Prop) (f : A -> M S unit) (l : list A)
    (Q : Result unit -> S -> Prop) :
  (forall x l', triple (I (x :: l')) (f x)
     (fun r s => match r with Ok _ => I l' s | Err e => Q (Err e) s | Panic => Q Panic s end)) ->
  (forall s, I [] s -> Q (Ok tt) s) ->
  triple (I l) (for_each f l) Q.
Proof.
  intros Hf HQ. induction l as [|x l IH]; simpl.
  - apply triple_lift, HQ.
  - apply (triple_bind _ (fun _ => I l)); [apply Hf|]. intros ?. apply IH.
Qed.

Lemma for_each_app {S A} (f : A -> M S unit) (l1 l2 : list A) s :
  for_each f (l1 ++ l2) s = (for_each f l1 ≫= fun _ => for_each f l2) s.
Proof.
  revert s. induction l1 as [|x l1 IH]; intros s; [done|].
  cbn [app for_each]. unfold mbind, M_bind. destruct (f x s) as [[a|e|] s']; [|done..].
  apply IH.
Qed.

#[export] Hint Resolve triple_lift : occlum.

(** [no_panic c]: the computation ends with a value or an error from any state. *)
Definition no_panic {S A} (c : M S A) : Prop := forall s, (c s).1 <> Panic.

Lemma no_panic_lift {S A} (r : Result A) : r <> Panic -> no_panic (S := S) (lift r).
Proof. by intros ? s. Qed.

Lemma no_panic_modify {S} (f : S -> S) : no_panic (modify f).
Proof. by intros s. Qed.

Lemma no_panic_bind {S A B} (c : M S A) (k : A -> M S B) :
  no_panic c -> (forall a, no_panic (k a)) -> no_panic (c ≫= k).
Proof.
  intros Hc Hk s. specialize (Hc s). unfold mbind, M_bind.
  destruct (c s) as [[a|e|] s']; simpl in *; [apply Hk|done..].
Qed.

Lemma no_panic_for_each {S A} (f : A -> M S unit) l :
  (forall x, no_panic (f x)) -> no_panic (for_each f l).
Proof.
  intros Hf. induction l; simpl; [by apply no_panic_lift|]. by apply no_panic_bind.
Qed.

Lemma no_panic_if {S A} (b : bool) (c d : M S A) :
  no_panic c -> no_panic d -> no_panic (if b then c else d).
Proof. by destruct b. Qed.

#[export] Hint Resolve no_panic_modify no_panic_bind no_panic_for_each no_panic_if : occlum.
#[export] Hint Extern 1 (no_panic (ok _)) => by apply no_panic_lift : occlum.
