(* ===== verification/External.v ===== *)
(** Interfaces of the code the LibOS calls but does not contain.

    Each class states the operations the sources use of a third-party crate and
    what the crate documents about them; definitions that use the crate take
    the class as an argument. The instances show that the interfaces can be
    implemented and let concrete examples compute. *)

From Stdlib Require Import Sorted.
From S2P Require Import Prelude Errno.

(** * The bitflags crate

    [bitflags! { pub struct F : u32 { const A = 1; ... } }] generates
    [F::from_bits], which accepts the bits that are a union of declared flags,
    [F::from_bits_truncate], which drops all others, [F::contains], which tests
    that all bits of the argument are set, and [F::remove], which clears them. The first argument of
    [bf_from_bits] and [bf_from_bits_truncate] is the union of the declared flags. *)
Class Bitflags := {
  bf_from_bits : Z -> Z -> option Z;
  bf_from_bits_truncate : Z -> Z -> Z;
  bf_contains : Z -> Z -> bool;
  bf_remove : Z -> Z -> Z;
  bf_from_bits_law all bits :
    bf_from_bits all bits = if Z.ldiff bits all =? 0 then Some bits else None;
  bf_from_bits_truncate_law all bits : bf_from_bits_truncate all bits = Z.land bits all;
  bf_contains_law self other :
    bf_contains self other = (Z.land self other =? other);
  bf_remove_law self other : bf_remove self other = Z.ldiff self other;
}.

Definition bitflags_bits : Bitflags := {|
  bf_from_bits all bits := if Z.ldiff bits all =? 0 then Some bits else None;
  bf_from_bits_truncate all bits := Z.land bits all;
  bf_contains self other := Z.land self other =? other;
  bf_remove self other := Z.ldiff self other;
  bf_from_bits_law all bits := eq_refl;
  bf_from_bits_truncate_law all bits := eq_refl;
  bf_contains_law self other := eq_refl;
  bf_remove_law self other := eq_refl;
|}.

(** * The bitvec crate

    A [BitVec] is a growable sequence of bits; [bv_bits] is what iterating over
    it yields. [bv_fill_range v i n b] is [v[i..i + n].fill(b)],
    [bv_copy_range v i w j n] is [v[i..i + n].copy_from_bitslice(&w[j..j + n])]
    and [bv_split_off v i] the vector [v.split_off(i)] returns; the callers check
    the bounds, outside which these panic. *)
Class BitVecs := {
  BitVec : Type;
  bv_bits : BitVec -> list bool;
  bv_repeat : bool -> nat -> BitVec;
  bv_fill : BitVec -> bool -> BitVec;
  bv_fill_range : BitVec -> nat -> nat -> bool -> BitVec;
  bv_copy_range : BitVec -> nat -> BitVec -> nat -> nat -> BitVec;
  bv_split_off : BitVec -> nat -> BitVec;
  bv_truncate : BitVec -> nat -> BitVec;
  bv_all : BitVec -> bool;
  bv_any : BitVec -> bool;
  bv_not_any : BitVec -> bool;
  bv_repeat_law b n : bv_bits (bv_repeat b n) = replicate n b;
  bv_fill_law v b : bv_bits (bv_fill v b) = replicate (length (bv_bits v)) b;
  bv_fill_range_law v i n b :
    (i + n <= length (bv_bits v))%nat ->
    bv_bits (bv_fill_range v i n b)
    = take i (bv_bits v) ++ replicate n b ++ drop (i + n) (bv_bits v);
  bv_copy_range_law v i w j n :
    (i + n <= length (bv_bits v))%nat -> (j + n <= length (bv_bits w))%nat ->
    bv_bits (bv_copy_range v i w j n)
    = take i (bv_bits v) ++ take n (drop j (bv_bits w)) ++ drop (i + n) (bv_bits v);
  bv_split_off_law v i :
    (i <= length (bv_bits v))%nat -> bv_bits (bv_split_off v i) = drop i (bv_bits v);
  bv_truncate_law v n : bv_bits (bv_truncate v n) = take n (bv_bits v);
  bv_all_law v : bv_all v = forallb (fun b => b) (bv_bits v);
  bv_any_law v : bv_any v = existsb (fun b => b) (bv_bits v);
  bv_not_any_law v : bv_not_any v = negb (existsb (fun b => b) (bv_bits v));
}.

#[refine] Definition bitvec_list : BitVecs := {|
  BitVec := list bool;
  bv_bits v := v;
  bv_repeat b n := replicate n b;
  bv_fill v b := replicate (length v) b;
  bv_fill_range v i n b := take i v ++ replicate n b ++ drop (i + n) v;
  bv_copy_range v i w j n := take i v ++ take n (drop j w) ++ drop (i + n) v;
  bv_split_off v i := drop i v;
  bv_truncate v n := take n v;
  bv_all v := forallb (fun b => b) v;
  bv_any v := existsb (fun b => b) v;
  bv_not_any v := negb (existsb (fun b => b) v);
|}.
Proof. all: reflexivity. Defined.

(** * Red-black trees of the intrusive-collections crate

    An [RBTree] keeps its elements ordered by a key; elements with equal keys are
    kept in the order of their insertion. [rb_iter] is the in-order iteration and
    a cursor is a position in it. [rb_insert] returns the tree and the position
    of the new element; [rb_remove] and [rb_replace] are [CursorMut::remove] and
    [replace_with] at a position; [rb_upper_bound] is [upper_bound(Included(k))],
    the last element whose key is at most [k]. *)
Definition key_sorted {A} (key : A -> Z) (l : list A) : Prop :=
  StronglySorted (fun x y => key x <= key y) l.

Class RBTrees := {
  RBTree : Type -> Type;
  rb_iter {A} : RBTree A -> list A;
  rb_new {A} : RBTree A;
  rb_insert {A} : (A -> Z) -> A -> RBTree A -> RBTree A * nat;
  rb_remove {A} : nat -> RBTree A -> RBTree A;
  rb_replace {A} : nat -> A -> RBTree A -> RBTree A;
  rb_upper_bound {A} : (A -> Z) -> Z -> RBTree A -> option nat;
  rb_new_law {A} : rb_iter (@rb_new A) = [];
  rb_insert_law {A} (key : A -> Z) x t :
    key_sorted key (rb_iter t) ->
    let (t', n) := rb_insert key x t in
    (n <= length (rb_iter t))%nat /\ rb_iter t' = vec_insert n x (rb_iter t)
    /\ Forall (fun y => key y <= key x) (take n (rb_iter t))
    /\ Forall (fun y => key x < key y) (drop n (rb_iter t));
  rb_remove_law {A} n (t : RBTree A) :
    (n < length (rb_iter t))%nat -> rb_iter (rb_remove n t) = vec_remove n (rb_iter t);
  rb_replace_law {A} n x (t : RBTree A) :
    (n < length (rb_iter t))%nat -> rb_iter (rb_replace n x t) = <[n := x]> (rb_iter t);
  rb_upper_bound_law {A} (key : A -> Z) k t :
    key_sorted key (rb_iter t) ->
    match rb_upper_bound key k t with
    | Some n => (n < length (rb_iter t))%nat
                /\ Forall (fun y => key y <= k) (take (S n) (rb_iter t))
                /\ Forall (fun y => k < key y) (drop (S n) (rb_iter t))
    | None => Forall (fun y => k < key y) (rb_iter t)
    end;
}.

(** The number of leading elements with a property. *)
Fixpoint leading {A} (p : A -> bool) (l : list A) : nat :=
  match l with
  | x :: l => if p x then S (leading p l) else 0%nat
  | [] => 0%nat
  end.

Lemma leading_spec {A} (key : A -> Z) k l :
  key_sorted key l ->
  let n := leading (fun y => key y <=? k) l in
  (n <= length l)%nat /\ Forall (fun y => key y <= k) (take n l)
  /\ Forall (fun y => k < key y) (drop n l).
Proof.
  unfold key_sorted. induction l as [|x l IH]; intros Hs; simpl; [done|].
  apply StronglySorted_inv in Hs as [Hs Hx]. destruct (IH Hs) as (Hle & Ht & Hd).
  destruct (key x <=? k) eqn:Hk; boolprop; simpl.
  - split_and!; [lia|by constructor|done].
  - split_and!; [lia|constructor|]. constructor; [lia|].
    eapply List.Forall_impl; [|done]. intros y ?. simpl in *. lia.
Qed.

#[refine] Definition rbtree_list : RBTrees := {|
  RBTree A := list A;
  rb_iter A l := l;
  rb_new A := [];
  rb_insert A key x l :=
    let n := leading (fun y => key y <=? key x) l in (vec_insert n x l, n);
  rb_remove A n l := vec_remove n l;
  rb_replace A n x l := <[n := x]> l;
  rb_upper_bound A key k l :=
    match leading (fun y => key y <=? k) l with 0%nat => None | S n => Some n end;
|}.
Proof.
  - done.
  - intros A key x l Hl. destruct (leading_spec key (key x) l Hl) as (? & ? & ?).
    split_and!; auto.
  - done.
  - done.
  - intros A key k l Hl. destruct (leading_spec key k l Hl) as (Hle & Ht & Hd).
    destruct (leading _ l) as [|n]; [by rewrite drop_0 in Hd|]. auto.
Defined.
