(* ===== verification/FileFlags.v ===== *)
(** How an open file may be accessed: [AccessMode] of
    [src/libos/src/fs/file_ops/file_flags.rs]. *)

From S2P Require Import Prelude Errno.

Inductive AccessMode := O_RDONLY | O_WRONLY | O_RDWR.

Definition AccessMode_readable (self : AccessMode) : bool :=
  match self with O_RDONLY | O_RDWR => true | _ => false end.

Definition AccessMode_writable (self : AccessMode) : bool :=
  match self with O_WRONLY | O_RDWR => true | _ => false end.

Definition AccessMode_from_u32 (flags : Z) : Result AccessMode :=
  let bits := Z.land flags 3 in
  if 2 <? bits then Err EINVAL
  else Ok (if bits =? 0 then O_RDONLY else if bits =? 1 then O_WRONLY else O_RDWR).
