(* ===== verification/VMRange.v ===== *)
(** Address ranges and layouts: [src/libos/src/vm/vm_range.rs] and
    [src/libos/src/vm/vm_layout.rs].

    A [VMRange] is a half-open interval of page-aligned addresses. Every other
    part of the memory manager computes with [intersect] and [subtract], so the
    theorems say what the two mean as sets of addresses. *)

From S2P Require Import Prelude Errno.

(** [vm/mod.rs]: [pub const PAGE_SIZE: usize = 4096]. *)
Definition PAGE_SIZE : Z := 4096.

(** * Layouts *)

Record VMLayout := mkVMLayout { layout_size : Z; layout_align : Z }.

Definition VMLayout_new (size align : Z) : Result VMLayout :=
  if negb (is_power_of_two align) then Err EINVAL
  else Ok (mkVMLayout size align).

Definition VMLayout_add (self more_space : VMLayout) : VMLayout :=
  if layout_size more_space =? 0 then self
  else mkVMLayout
         (align_up (layout_size self) (layout_align more_space) +64 layout_size more_space)
         (Z.max (layout_align self) (layout_align more_space)).

Definition VMLayout_extend (self new_space : VMLayout) : VMLayout :=
  if layout_size new_space =? 0 then self
  else
    let align := Z.max (layout_align self) (layout_align new_space) in
    mkVMLayout (align_up (Z.max (layout_size self) (layout_size new_space)) align) align.

(** * Ranges *)

Record VMRange := mkVMRange { vm_start : Z; vm_end : Z }.

#[export] Instance VMRange_eq_dec : EqDecision VMRange.
Proof. solve_decision. Defined.

(** [a ∈ r]: the address [a] lies in the range [r]. *)
#[export] Instance VMRange_elem_of : ElemOf Z VMRange :=
  fun a r => vm_start r <= a < vm_end r.

Definition VMRange_new (start end_ : Z) : Result VMRange :=
  if negb (start mod PAGE_SIZE =? 0) || negb (end_ mod PAGE_SIZE =? 0) || (end_ <? start)
  then Err EINVAL
  else Ok (mkVMRange start end_).

Definition VMRange_new_with_size (start size : Z) : Result VMRange :=
  end_ ← ok_or (checked_add64 start size) EINVAL;
  VMRange_new start end_.

Definition VMRange_new_empty (start : Z) : Result VMRange :=
  if negb (start mod PAGE_SIZE =? 0) then Err EINVAL
  else Ok (mkVMRange start start).

(** The [debug_assert!]s of [from_unchecked] are not compiled in. *)
Definition VMRange_from_unchecked (start end_ : Z) : VMRange := mkVMRange start end_.

Definition VMRange_new_with_layout (layout : VMLayout) (min_start : Z) : VMRange :=
  let start := align_up min_start (layout_align layout) in
  let end_ := align_up (start +64 layout_size layout) PAGE_SIZE in
  VMRange_from_unchecked start end_.

Definition VMRange_size (self : VMRange) : Z := vm_end self -64 vm_start self.

Definition VMRange_resize (self : VMRange) (new_size : Z) : VMRange :=
  mkVMRange (vm_start self) (vm_start self +64 new_size).

Abbreviation VMRange_set_start self new_start := (mkVMRange new_start (vm_end self)).

Abbreviation VMRange_set_end self new_end := (mkVMRange (vm_start self) new_end).

Definition VMRange_empty (self : VMRange) : bool := vm_start self =? vm_end self.

Definition VMRange_is_superset_of (self other : VMRange) : bool :=
  (vm_start self <=? vm_start other) && (vm_end other <=? vm_end self).

Definition VMRange_contains (self : VMRange) (addr : Z) : bool :=
  (vm_start self <=? addr) && (addr <? vm_end self).

Definition VMRange_overlap_with (self other : VMRange) : bool :=
  Z.max (vm_start self) (vm_start other) <? Z.min (vm_end self) (vm_end other).

Definition VMRange_intersect (self other : VMRange) : option VMRange :=
  let intersection_start := Z.max (vm_start self) (vm_start other) in
  let intersection_end := Z.min (vm_end self) (vm_end other) in
  if intersection_end <=? intersection_start then None
  else Some (VMRange_from_unchecked intersection_start intersection_end).

Definition VMRange_subtract (self other : VMRange) : list VMRange :=
  if VMRange_size self =? 0 then []
  else match VMRange_intersect self other with
       | None => [self]
       | Some intersection =>
           let self_start := vm_start self in
           let self_end := vm_end self in
           let inter_start := vm_start intersection in
           let inter_end := vm_end intersection in
           match self_start <? inter_start, inter_end <? self_end with
           | false, false => []
           | false, true => [VMRange_from_unchecked inter_end self_end]
           | true, false => [VMRange_from_unchecked self_start inter_start]
           | true, true => [VMRange_from_unchecked self_start inter_start;
                            VMRange_from_unchecked inter_end self_end]
           end
       end.

Definition VMRange_is_contiguous_with (self other : VMRange) : bool :=
  (vm_start self =? vm_end other) || (vm_end self =? vm_start other).

(** * Well-formedness *)

(** What [VMRange::new] checks, and that both ends are [usize]. *)
Definition page_aligned (a : Z) : Prop := a mod PAGE_SIZE = 0.

Record VMRange_wf (r : VMRange) : Prop := {
  wf_start_nonneg : 0 <= vm_start r;
  wf_ordered : vm_start r <= vm_end r;
  wf_end_u64 : vm_end r < u64_modulus;
  wf_start_aligned : page_aligned (vm_start r);
  wf_end_aligned : page_aligned (vm_end r);
}.

Ltac vmrange_unfold :=
  unfold elem_of, VMRange_elem_of, VMRange_from_unchecked in *; cbn [vm_start vm_end] in *.

Lemma VMRange_size_wf r : VMRange_wf r -> VMRange_size r = vm_end r - vm_start r.
Proof. intros []. apply sub64_small. lia. Qed.

Lemma VMRange_contains_spec r a : VMRange_contains r a = true <-> a ∈ r.
Proof. unfold VMRange_contains. vmrange_unfold. split; intros; boolprop; lia. Qed.

Lemma VMRange_intersect_Some s o i :
  VMRange_intersect s o = Some i ->
  i = mkVMRange (Z.max (vm_start s) (vm_start o)) (Z.min (vm_end s) (vm_end o)) /\
  vm_start i < vm_end i.
Proof. unfold VMRange_intersect. case_if; intros [= <-]; boolprop. vmrange_unfold. split; [done|lia]. Qed.

Lemma VMRange_wf_intersect s o i :
  VMRange_wf s -> VMRange_wf o -> VMRange_intersect s o = Some i -> VMRange_wf i.
Proof.
  intros [] [] [-> ?]%VMRange_intersect_Some; simpl in *.
  destruct (Z.max_spec (vm_start s) (vm_start o)) as [[? ->]|[? ->]];
    destruct (Z.min_spec (vm_end s) (vm_end o)) as [[? ->]|[? ->]];
    constructor; simpl; auto; lia.
Qed.

(** ** Properties *)

(** [VMRange::new_with_size] accepts exactly the page-aligned,
    non-overflowing requests: it returns a range iff the start and the size are
    multiples of the page size and their sum is a [usize], the range is then
    well-formed and spans exactly [start, start + size), and every refusal is
    [EINVAL]. *)
Theorem VMRange_new_with_size_spec (start size : Z) :
  is_u64 start -> is_u64 size ->
  match VMRange_new_with_size start size with
  | Ok r => VMRange_wf r /\ vm_start r = start /\ vm_end r = start + size
            /\ VMRange_size r = size
  | Err e => e = EINVAL /\ (~ page_aligned start \/ ~ page_aligned size
                            \/ u64_modulus <= start + size)
  | Panic => False
  end.
Proof.
  intros [? ?] [? ?]. unfold VMRange_new_with_size, checked_add64, page_aligned.
  case_if; boolprop; simpl; [|split; [done|lia]].
  unfold VMRange_new. case_if; boolprop.
  - split; [done|]. unfold PAGE_SIZE in *.
    destruct (decide (start mod 4096 = 0)) as [Hs|]; [|tauto].
    rewrite mod0_add_l in * by lia. lia.
  - assert (VMRange_wf (mkVMRange start (start + size))) by (constructor; simpl; auto; lia).
    repeat split; simpl; auto. rewrite VMRange_size_wf by done. simpl. lia.
Qed.

Lemma VMRange_new_with_size_spec_witness :
  exists r, VMRange_new_with_size 8192 4096 = Ok r /\ VMRange_size r = 4096.
Proof.
  exists (mkVMRange 8192 12288). split; [reflexivity|].
  pose proof (VMRange_new_with_size_spec 8192 4096 ltac:(unfold64; lia) ltac:(unfold64; lia)).
  simpl in *. apply H.
Defined.

(** Membership in a list of ranges. *)
Definition in_ranges (a : Z) (l : list VMRange) : Prop := exists r, r ∈ l /\ a ∈ r.

Lemma in_ranges_nil a : in_ranges a [] <-> False.
Proof. unfold in_ranges. set_solver. Qed.

Lemma in_ranges_cons a r l : in_ranges a (r :: l) <-> a ∈ r \/ in_ranges a l.
Proof. unfold in_ranges. set_solver. Qed.

Lemma in_ranges_app a l1 l2 : in_ranges a (l1 ++ l2) <-> in_ranges a l1 \/ in_ranges a l2.
Proof. unfold in_ranges. set_solver. Qed.

Ltac in_ranges_simpl :=
  rewrite ?in_ranges_app, ?in_ranges_cons, ?in_ranges_nil in *.

(** [VMRange::intersect] is set intersection and agrees with
    [overlap_with]: it returns a range exactly when the two ranges share an
    address, the returned range is well-formed and non-empty, and it holds
    exactly the shared addresses. *)
Lemma VMRange_intersect_spec (s o : VMRange) :
  VMRange_wf s -> VMRange_wf o ->
  match VMRange_intersect s o with
  | Some i => VMRange_overlap_with s o = true /\ VMRange_wf i /\ vm_start i < vm_end i
              /\ forall a, a ∈ i <-> a ∈ s /\ a ∈ o
  | None => VMRange_overlap_with s o = false /\ forall a, ~ (a ∈ s /\ a ∈ o)
  end.
Proof.
  intros Hs Ho. destruct (VMRange_intersect s o) as [i|] eqn:Hi.
  - pose proof (VMRange_wf_intersect _ _ _ Hs Ho Hi).
    apply VMRange_intersect_Some in Hi as [-> ?]. unfold VMRange_overlap_with.
    vmrange_unfold. split_and!; [lia|done|lia|]. intros a. vmrange_unfold. lia.
  - unfold VMRange_intersect in Hi. case_in Hi. unfold VMRange_overlap_with.
    split; [lia|]. intros a. vmrange_unfold. lia.
Qed.

(** A list of ranges in address order, each non-empty, with no overlap. *)
Inductive ranges_ordered : Z -> list VMRange -> Prop :=
| ranges_ordered_nil lo : ranges_ordered lo []
| ranges_ordered_cons lo r l :
    lo <= vm_start r -> vm_start r < vm_end r ->
    ranges_ordered (vm_end r) l -> ranges_ordered lo (r :: l).
#[export] Hint Constructors ranges_ordered : occlum.

(** [VMRange::subtract] is set difference: the result is at most two
    non-empty, well-formed, ordered and disjoint ranges, which hold exactly the
    addresses of [self] that are not in [other]. *)
Lemma VMRange_subtract_spec (s o : VMRange) :
  VMRange_wf s -> VMRange_wf o ->
  let l := VMRange_subtract s o in
  (length l <= 2)%nat /\ Forall VMRange_wf l /\ ranges_ordered (vm_start s) l
  /\ forall a, in_ranges a l <-> a ∈ s /\ ~ a ∈ o.
Proof.
  intros Hs Ho. unfold VMRange_subtract. rewrite VMRange_size_wf by done.
  destruct (vm_end s - vm_start s =? 0) eqn:He.
  { split_and!; auto with occlum arith. intros a. in_ranges_simpl. vmrange_unfold. lia. }
  destruct (VMRange_intersect s o) as [i|] eqn:Hi; cycle 1.
  { pose proof (VMRange_intersect_spec s o Hs Ho) as Hn. rewrite Hi in Hn. destruct Hn as [_ Hn].
    destruct Hs. split_and!; simpl; auto with lia.
    - repeat constructor; auto.
    - constructor; auto with occlum lia.
    - intros a. in_ranges_simpl. specialize (Hn a). tauto. }
  pose proof (VMRange_wf_intersect _ _ _ Hs Ho Hi) as Hwi.
  apply VMRange_intersect_Some in Hi as [-> ?]. destruct Hs, Hwi.
  repeat case_if; vmrange_unfold;
    (split_and!; [simpl; lia | repeat constructor; simpl; auto; lia
     | repeat (constructor; simpl); lia
     | intros a; in_ranges_simpl; vmrange_unfold; lia ]).
Qed.

Definition ranges_size (l : list VMRange) : Z := foldr (fun r n => VMRange_size r + n) 0 l.

Definition range_list (o : option VMRange) : list VMRange :=
  match o with Some r => [r] | None => [] end.

Lemma VMRange_partition_size s o :
  VMRange_wf s -> VMRange_wf o ->
  ranges_size (range_list (VMRange_intersect s o)) + ranges_size (VMRange_subtract s o)
  = VMRange_size s.
Proof.
  intros Hs Ho. unfold VMRange_subtract. rewrite VMRange_size_wf by done.
  destruct (VMRange_intersect s o) as [i|] eqn:Hi.
  - pose proof (VMRange_wf_intersect _ _ _ Hs Ho Hi) as Hwi.
    unfold ranges_size; cbn [range_list foldr]. rewrite (VMRange_size_wf i) by done.
    apply VMRange_intersect_Some in Hi as [-> ?]. destruct Hs, Hwi. vmrange_unfold.
    repeat case_if; cbn [foldr]; unfold VMRange_size; vmrange_unfold;
      rewrite ?sub64_small by lia; lia.
  - case_if; unfold ranges_size; cbn [range_list foldr]; [lia|].
    rewrite VMRange_size_wf by done. lia.
Qed.

(** [subtract] and [intersect] partition a range. Every address of [self]
    is either in the intersection with [other] or in exactly the pieces that
    [subtract] returns (at most two, well-formed, non-empty, in address order
    and disjoint), and the sizes add up to the size of [self]. *)
Theorem VMRange_partition (s o : VMRange) :
  VMRange_wf s -> VMRange_wf o ->
  let inter := range_list (VMRange_intersect s o) in
  let rest := VMRange_subtract s o in
  (length rest <= 2)%nat /\ Forall VMRange_wf (inter ++ rest)
  /\ ranges_ordered (vm_start s) rest
  /\ (forall a, in_ranges a inter <-> a ∈ s /\ a ∈ o)
  /\ (forall a, in_ranges a rest <-> a ∈ s /\ ~ a ∈ o)
  /\ ranges_size inter + ranges_size rest = VMRange_size s.
Proof.
  intros Hs Ho inter rest.
  destruct (VMRange_subtract_spec s o Hs Ho) as (Hl & Hw & Hord & Hin).
  pose proof (VMRange_intersect_spec s o Hs Ho) as Hi.
  split_and!; [done| |done| |done|].
  - apply Forall_app. split; [|done]. subst inter.
    destruct (VMRange_intersect s o); simpl; [|done]. constructor; [apply Hi|done].
  - intros a. subst inter. destruct (VMRange_intersect s o); simpl.
    + rewrite in_ranges_cons, in_ranges_nil. destruct Hi as (_ & _ & _ & Hi).
      rewrite Hi. tauto.
    + rewrite in_ranges_nil. specialize (proj2 Hi a). tauto.
  - by apply VMRange_partition_size.
Qed.

Lemma VMRange_partition_witness :
  VMRange_wf (mkVMRange 0 12288) /\ VMRange_wf (mkVMRange 4096 8192) /\
  ~ in_ranges 5000 (VMRange_subtract (mkVMRange 0 12288) (mkVMRange 4096 8192)).
Proof.
  assert (H1 : VMRange_wf (mkVMRange 0 12288)) by (constructor; by vm_compute).
  assert (H2 : VMRange_wf (mkVMRange 4096 8192)) by (constructor; by vm_compute).
  split_and!; [done..|]. intros H.
  apply (VMRange_partition _ _ H1 H2) in H as [_ H]. apply H. by vm_compute.
Defined.
