(* ===== verification/VMMapOptions.v ===== *)
(** The arguments of a mapping request: [src/libos/src/vm/vm_util.rs] (the part
    before [VMRemapParser]) and [src/libos/src/vm/vm_perms.rs].

    [VMMapOptionsBuilder::build] validates a request; [VMInitializer::init_slice]
    fills the memory of a new mapping. Files are identified by the address of
    their [Arc]; what reading a file or user memory returns is a parameter. *)

From stdpp Require Import strings.
From S2P Require Import Prelude Errno External VMRange.

(** * Permissions *)

Definition VMPerms := Z.
Abbreviation VMPerms_NONE := (0 : VMPerms).
Abbreviation VMPerms_READ := (1 : VMPerms).
Abbreviation VMPerms_WRITE := (2 : VMPerms).
Abbreviation VMPerms_EXEC := (4 : VMPerms).
Abbreviation VMPerms_DEFAULT := (Z.lor VMPerms_READ VMPerms_WRITE : VMPerms).
Abbreviation VMPerms_ALL := (Z.lor VMPerms_DEFAULT VMPerms_EXEC : VMPerms).
Abbreviation VMPerms_GROWSDOWN := (16777216 : VMPerms).

(** [VMPerms::all()]: the union of the declared flags. *)
Definition VMPerms_all : Z := Z.lor VMPerms_ALL VMPerms_GROWSDOWN.

Section perms.
Context {BF : Bitflags}.

Definition VMPerms_from_u32 (bits : Z) : Result VMPerms :=
  perms ← ok_or (bf_from_bits VMPerms_all bits) EINVAL;
  Ok (if negb (perms =? VMPerms_NONE) then Z.lor perms VMPerms_READ else perms).

Definition VMPerms_can_read (self : VMPerms) : bool := bf_contains self VMPerms_READ.
Definition VMPerms_can_write (self : VMPerms) : bool := bf_contains self VMPerms_WRITE.
Definition VMPerms_can_execute (self : VMPerms) : bool := bf_contains self VMPerms_EXEC.
Definition VMPerms_is_default (self : VMPerms) : bool := self =? VMPerms_DEFAULT.

Definition VMPerms_display (self : VMPerms) : string :=
  ((if VMPerms_can_read self then "r" else "-") ++
   (if VMPerms_can_write self then "w" else "-") ++
   (if VMPerms_can_execute self then "x" else "-"))%string.

End perms.

(** * What initialises a mapping *)

(** [FileRef = Arc<dyn File>], compared with [Arc::ptr_eq]. *)
Definition FileRef := Z.

Record FileBacked := mkFileBacked { fb_file : FileRef; fb_offset : Z; fb_write_back : bool }.

Definition FileBacked_set_offset (self : FileBacked) (offset : Z) : FileBacked :=
  mkFileBacked (fb_file self) offset (fb_write_back self).

Definition FileBacked_writeback_file (self : FileBacked) : option (FileRef * Z) :=
  if fb_write_back self then Some (fb_file self, fb_offset self) else None.

Inductive VMInitializer :=
| DoNothing
| FillZeros
| CopyFrom (range : VMRange)
| InitFileBacked (file : FileBacked)
| ElfSpecific (elf_file : FileRef)
| CopyOldAndReadNew (old_range : VMRange) (file : FileRef) (offset : Z)
                    (new_writeback_file : FileBacked).

Definition VMInitializer_backed_file (self : VMInitializer) : option FileBacked :=
  match self with
  | ElfSpecific elf_file => Some (mkFileBacked elf_file 0 false)
  | InitFileBacked file => Some file
  | CopyOldAndReadNew _ _ _ new_writeback_file => Some new_writeback_file
  | _ => None
  end.

Definition zeros (n : nat) : list Z := replicate n 0.

Section init_slice.
(** [range.as_slice()]: the bytes of user memory in a range. *)
Variable as_slice : VMRange -> list Z.
(** [File::read_at(offset, buf)]: the number of bytes read, and the buffer. *)
Variable read_at : FileRef -> Z -> list Z -> Result (nat * list Z).

(** [buf[len..].fill(0)] after a read of [len] bytes; the slice index panics
    when [len] exceeds the buffer. *)
Definition zero_tail (p : nat * list Z) : Result (list Z) :=
  if (length p.2 <? p.1)%nat then Panic
  else Ok (take p.1 p.2 ++ zeros (length p.2 - p.1)).

(** [read_at(..).cause_err(|_| errno!(EACCES, ..))?] *)
Definition read_or_eacces (file : FileRef) (offset : Z) (buf : list Z) : Result (nat * list Z) :=
  match read_at file offset buf with
  | Ok p => Ok p
  | Err _ => Err EACCES
  | Panic => Panic
  end.

(** The new contents of [buf]. *)
Definition VMInitializer_init_slice (self : VMInitializer) (buf : list Z) : Result (list Z) :=
  match self with
  | DoNothing | ElfSpecific _ => Ok buf
  | FillZeros => Ok (zeros (length buf))
  | CopyFrom range =>
      let src_slice := as_slice range in
      let copy_len := Nat.min (length buf) (length src_slice) in
      Ok (take copy_len src_slice ++ zeros (length buf - copy_len))
  | InitFileBacked file =>
      p ← read_or_eacces (fb_file file) (fb_offset file) buf;
      zero_tail p
  | CopyOldAndReadNew old_range file offset _ =>
      let src_slice := as_slice old_range in
      let copy_len := length src_slice in
      if (length buf <? copy_len)%nat then Panic
      else
        p ← read_or_eacces file offset (drop copy_len buf);
        rest ← zero_tail p;
        Ok (src_slice ++ rest)
  end.

End init_slice.

(** * Mapping requests *)

Inductive VMMapAddr :=
| Any
| Hint (addr : Z)
| Need (addr : Z)
| Force (addr : Z).

Abbreviation VMMapAddr_is_force self := (match self with Force _ => true | _ => false end).

Inductive PagePolicy := ReserveOnly | CommitNow | CommitOnDemand.

Record VMMapOptions := mkVMMapOptions {
  opt_size : Z;
  opt_align : Z;
  opt_perms : VMPerms;
  opt_addr : VMMapAddr;
  opt_initializer : VMInitializer;
  opt_page_policy : PagePolicy;
}.

(** The builder that [derive_builder] declares: one optional field each. *)
Record VMMapOptionsBuilder := mkBuilder {
  b_size : option Z;
  b_align : option Z;
  b_perms : option VMPerms;
  b_addr : option VMMapAddr;
  b_initializer : option VMInitializer;
  b_page_policy : option PagePolicy;
}.

Definition VMMapOptionsBuilder_build (self : VMMapOptionsBuilder) : Result VMMapOptions :=
  size ← ok_or (b_size self) EINVAL;
  if size =? 0 then Err EINVAL else
  let size := align_up size PAGE_SIZE in
  let align := default PAGE_SIZE (b_align self) in
  if (align =? 0) || negb (is_power_of_two align) then Err EINVAL else
  perms ← ok_or (b_perms self) EINVAL;
  addr ← match default Any (b_addr self) with
         | Any => Ok Any
         | Hint addr => Ok (Hint (align_down addr PAGE_SIZE))
         | Need addr => if negb (addr mod align =? 0) then Err EINVAL else Ok (Need addr)
         | Force addr => if negb (addr mod align =? 0) then Err EINVAL else Ok (Force addr)
         end;
  let initializer := default DoNothing (b_initializer self) in
  let page_policy :=
    match initializer with
    | CopyFrom _ => CommitNow
    | CopyOldAndReadNew _ _ _ _ => CommitNow
    | _ => default CommitOnDemand (b_page_policy self)
    end in
  Ok (mkVMMapOptions size align perms addr initializer page_policy).

Definition VMMapOptions_is_shared (self : VMMapOptions) : bool :=
  match VMInitializer_backed_file (opt_initializer self) with
  | Some backed_file => fb_write_back backed_file
  | None => false
  end.

(** * Properties *)

Lemma PAGE_SIZE_pow2 : PAGE_SIZE = 2 ^ 12.
Proof. reflexivity. Qed.

Lemma align_up_page_spec x :
  0 <= x -> x + PAGE_SIZE <= u64_modulus ->
  page_aligned (align_up x PAGE_SIZE) /\ x <= align_up x PAGE_SIZE < x + PAGE_SIZE.
Proof.
  intros Hx Hov. unfold page_aligned. rewrite PAGE_SIZE_pow2 in *.
  apply align_up_spec; lia.
Qed.

Lemma align_up_page_overflow x :
  is_u64 x -> u64_modulus < x + PAGE_SIZE -> align_up x PAGE_SIZE = 0.
Proof.
  intros Hx Hov. unfold align_up. rewrite PAGE_SIZE_pow2 in *.
  rewrite (sub64_small (2 ^ 12)) by (unfold u64_modulus; lia).
  assert (Hadd : x +64 (2 ^ 12 - 1) = x + (2 ^ 12 - 1) - u64_modulus).
  { unfold64. symmetry. apply (Z.mod_unique_pos _ _ 1); lia. }
  rewrite Hadd, align_down_eq by (unfold64; lia).
  rewrite Z.div_small by (unfold64; lia). lia.
Qed.

Lemma page_align_down_spec h :
  is_u64 h -> page_aligned (align_down h PAGE_SIZE) /\ align_down h PAGE_SIZE <= h < align_down h PAGE_SIZE + PAGE_SIZE.
Proof.
  intros Hh. unfold page_aligned. rewrite PAGE_SIZE_pow2. destruct (align_down_spec h 12) as (? & ? & ?); [done|lia|].
  split; [done|lia].
Qed.

(** The requests that are granted: a size that is not zero and permissions are given, the alignment, a page
    when none is given, is a power of two, and a fixed address is a multiple of it. *)
Definition acceptable (b : VMMapOptionsBuilder) (size : Z) (perms : VMPerms) : Prop :=
  b_size b = Some size /\ size <> 0 /\ b_perms b = Some perms
  /\ (exists k, 0 <= k /\ default PAGE_SIZE (b_align b) = 2 ^ k)
  /\ match b_addr b with
     | Some (Need a) | Some (Force a) => a mod default PAGE_SIZE (b_align b) = 0
     | _ => True
     end.

(** C39: [VMMapOptionsBuilder::build] validates a mapping request. It grants exactly the requests that give a
    size that is not zero and permissions, with an alignment that is a power of two and a multiple
    of it as a fixed address; all others are [EINVAL] and nothing panics. What it grants has the
    size rounded up to whole pages, the given permissions, alignment (by default a page), fixed address and
    initializer (by default none), a hint rounded down to its page, and the given page policy (by default on
    demand) except that a mapping that copies existing memory is committed at once. The rounding
    of the size is not overflow-checked: a size in the last page below [2^64] gives a mapping of size zero. *)
Theorem VMMapOptions_build_spec (b : VMMapOptionsBuilder) :
  (forall size, b_size b = Some size -> is_u64 size) -> (forall h, b_addr b = Some (Hint h) -> is_u64 h) ->
  ((forall size perms, ~ acceptable b size perms) /\ VMMapOptionsBuilder_build b = Err EINVAL)
  \/ (exists size perms o, acceptable b size perms /\ VMMapOptionsBuilder_build b = Ok o
       /\ (if size + PAGE_SIZE <=? u64_modulus
           then page_aligned (opt_size o) /\ size <= opt_size o < size + PAGE_SIZE
           else opt_size o = 0)
       /\ opt_perms o = perms /\ opt_align o = default PAGE_SIZE (b_align b)
       /\ match b_addr b with
          | Some (Hint h) => exists a, opt_addr o = Hint a /\ page_aligned a /\ a <= h < a + PAGE_SIZE
          | given => opt_addr o = default Any given
          end
       /\ opt_initializer o = default DoNothing (b_initializer b)
       /\ opt_page_policy o = match b_initializer b with
                              | Some (CopyFrom _) | Some (CopyOldAndReadNew _ _ _ _) => CommitNow
                              | _ => default CommitOnDemand (b_page_policy b)
                              end).
Proof.
  intros Hu Hh. unfold VMMapOptionsBuilder_build, acceptable.
  destruct (b_size b) as [size|]; cbn; [|left; split; [naive_solver|done]]. specialize (Hu size eq_refl).
  destruct (Z.eqb_spec size 0) as [->|Hnz]; cbn; [left; split; [naive_solver|done]|].
  set (align := default PAGE_SIZE (b_align b)). pose proof (is_power_of_two_iff align) as Hp.
  destruct (is_power_of_two align); cbn; rewrite ?orb_false_r, ?orb_true_r;
    [|left; split; [|done]; intros ? ? (_ & _ & _ & Hk & _); by apply Hp in Hk].
  destruct (proj1 Hp eq_refl) as (k & Hk & Hal). assert (align <> 0) by (rewrite Hal; lia).
  rewrite (proj2 (Z.eqb_neq align 0)) by done.
  destruct (b_perms b) as [p|]; cbn; [|left; split; [naive_solver|done]].
  assert (Hsz : if size + PAGE_SIZE <=? u64_modulus
    then page_aligned (align_up size PAGE_SIZE) /\ size <= align_up size PAGE_SIZE < size + PAGE_SIZE
    else align_up size PAGE_SIZE = 0).
  { case_if; boolprop; [apply align_up_page_spec|apply align_up_page_overflow]; auto; unfold64; lia. }
  destruct (b_addr b) as [[|h|a|a]|]; cbn;
    try (destruct (Z.eqb_spec (a mod align) 0); cbn; [|left; split; [naive_solver|done]]); right;
    do 3 eexists; (split; [split_and!; eauto|]); (split; [reflexivity|]); cbn; split_and!; try done;
    try (by destruct (b_initializer b) as [[]|]).
  eexists. split; [done|]. by apply page_align_down_spec, Hh.
Qed.

Definition example_builder : VMMapOptionsBuilder :=
  mkBuilder (Some 5000) None (Some VMPerms_DEFAULT) (Some (Hint 70000)) None None.

(** The same request for an address that is not a multiple of the page size. *)
Definition unaligned_builder : VMMapOptionsBuilder :=
  mkBuilder (Some 5000) None (Some VMPerms_DEFAULT) (Some (Force 70000)) None None.

Lemma VMMapOptions_build_spec_witness :
  (exists o, VMMapOptionsBuilder_build example_builder = Ok o /\ page_aligned (opt_size o)
     /\ opt_perms o = VMPerms_DEFAULT /\ exists a, opt_addr o = Hint a /\ page_aligned a)
  /\ forall size perms, ~ acceptable unaligned_builder size perms.
Proof.
  split.
  - destruct (VMMapOptions_build_spec example_builder) as [[_ H]|(size & perms & o & Ha & Ho & Hs & Hp & _ & Hh & _)].
    + intros ? [= <-]. unfold64. lia.
    + intros ? [= <-]. unfold64. lia.
    + vm_compute in H. discriminate H.
    + exists o. destruct Ha as ([= <-] & _ & [= <-] & _). destruct Hh as (a & Ha & Hal & _).
      split_and!; [exact Ho|apply Hs|exact Hp|exists a; split; [exact Ha|exact Hal]].
  - destruct (VMMapOptions_build_spec unaligned_builder) as [[H _]|(size & perms & o & _ & Ho & _)].
    + intros ? [= <-]. unfold64. lia.
    + intros ? [=].
    + exact H.
    + vm_compute in Ho. discriminate Ho.
Defined.

(** ** Initialising memory *)

Section init_slice_properties.
Variable as_slice : VMRange -> list Z.
Variable read_at : FileRef -> Z -> list Z -> Result (nat * list Z).

(** The contract of [File::read_at]: what is read depends on the file, the
    offset and the length of the buffer only; it is no longer than the buffer,
    is stored at the front of the buffer, and the rest is left alone. *)
Variable contents : FileRef -> Z -> nat -> Result (list Z).
Definition read_at_contract : Prop :=
  forall file offset buf,
    read_at file offset buf =
    match contents file offset (length buf) with
    | Ok data => Ok (length data, data ++ drop (length data) buf)
    | Err e => Err e
    | Panic => Panic
    end /\
    (forall data, contents file offset (length buf) = Ok data ->
                  (length data <= length buf)%nat).

Hypothesis Hread : read_at_contract.

Lemma read_zero_tail file offset buf :
  (p ← read_or_eacces read_at file offset buf; zero_tail p) =
  match contents file offset (length buf) with
  | Ok data => Ok (data ++ zeros (length buf - length data))
  | Err _ => Err EACCES
  | Panic => Panic
  end.
Proof.
  destruct (Hread file offset buf) as [Hr Hl]. unfold read_or_eacces. rewrite Hr.
  destruct (contents file offset (length buf)) as [data| |]; simpl; [|done..].
  specialize (Hl data eq_refl). unfold zero_tail. simpl.
  rewrite length_app, length_drop.
  destruct (Nat.ltb_spec (length data + (length buf - length data)) (length data)); [lia|].
  rewrite take_app_length. do 2 f_equal. unfold zeros. f_equal. lia.
Qed.

(** Initialisers that define the whole buffer. *)
Definition initializes (i : VMInitializer) : bool :=
  match i with DoNothing | ElfSpecific _ => false | _ => true end.

(** The bytes an initialiser asks for, as a function of the buffer length. *)
Definition init_contents (i : VMInitializer) (n : nat) : Result (list Z) :=
  match i with
  | DoNothing | ElfSpecific _ | FillZeros => Ok (zeros n)
  | CopyFrom range =>
      Ok (take n (as_slice range) ++ zeros (n - length (as_slice range)))
  | InitFileBacked f =>
      match contents (fb_file f) (fb_offset f) n with
      | Ok data => Ok (data ++ zeros (n - length data))
      | Err _ => Err EACCES
      | Panic => Panic
      end
  | CopyOldAndReadNew old_range file offset _ =>
      let old := as_slice old_range in
      if (n <? length old)%nat then Panic
      else match contents file offset (n - length old) with
           | Ok data => Ok (old ++ data ++ zeros (n - length old - length data))
           | Err _ => Err EACCES
           | Panic => Panic
           end
  end.

Lemma bind_assoc_Result {A B C} (m : Result A) (f : A -> Result B) (g : B -> Result C) :
  (m ≫= f) ≫= g = m ≫= (fun x => f x ≫= g).
Proof. by destruct m. Qed.

Lemma contents_length file offset n data :
  contents file offset n = Ok data -> (length data <= n)%nat.
Proof.
  intros Hc. destruct (Hread file offset (zeros n)) as [_ Hl].
  unfold zeros in Hl. rewrite length_replicate in Hl. by apply Hl.
Qed.

Lemma length_zeros n : length (zeros n) = n.
Proof. apply length_replicate. Qed.

Lemma init_contents_length i n out : init_contents i n = Ok out -> length out = n.
Proof.
  destruct i as [| |r|f| |r f off w]; simpl.
  1,2,5: intros [= <-]; by rewrite length_zeros.
  - intros [= <-]. rewrite length_app, length_take, length_zeros. lia.
  - destruct (contents (fb_file f) (fb_offset f) n) as [data| |] eqn:Hc; [|done..].
    intros [= <-]. pose proof (contents_length _ _ _ _ Hc).
    rewrite length_app, length_zeros. lia.
  - destruct (Nat.ltb_spec n (length (as_slice r))); [done|].
    destruct (contents f off _) as [data| |] eqn:Hc; [|done..].
    intros [= <-]. pose proof (contents_length _ _ _ _ Hc).
    rewrite !length_app, length_zeros. lia.
Qed.

(** no stale memory. After [VMInitializer::init_slice] with any initialiser
    other than the two that deliberately do nothing, the buffer holds exactly
    the bytes copied from the source range or read from the file, padded with
    zeros, whatever it held before; its length is unchanged; a failing read is
    reported as [EACCES]; and it panics only when the range to copy is longer
    than the buffer or the file does. *)
Theorem VMInitializer_init_slice_spec (i : VMInitializer) (buf : list Z) :
  initializes i = true ->
  VMInitializer_init_slice as_slice read_at i buf = init_contents i (length buf) /\
  forall out, VMInitializer_init_slice as_slice read_at i buf = Ok out -> length out = length buf.
Proof.
  intros Hi.
  assert (Heq : VMInitializer_init_slice as_slice read_at i buf = init_contents i (length buf)).
  { destruct i as [| |r|f| |r f off w]; try done; simpl.
    - do 2 f_equal.
      + destruct (Nat.le_gt_cases (length buf) (length (as_slice r))).
        * by rewrite Nat.min_l.
        * rewrite Nat.min_r, !take_ge by lia. done.
      + unfold zeros. f_equal. lia.
    - apply read_zero_tail.
    - case_if; [done|]. rewrite <- bind_assoc_Result, read_zero_tail, length_drop.
      by destruct (contents f off (length buf - length (as_slice r))). }
  split; [done|]. rewrite Heq. intros out Ho. by apply init_contents_length in Ho.
Qed.

End init_slice_properties.

(** A file whose bytes are all 7 and which ends three bytes after the offset. *)
Definition example_contents (file : FileRef) (offset : Z) (n : nat) : Result (list Z) :=
  Ok (replicate (Nat.min n 3) 7).
Definition example_read_at (file : FileRef) (offset : Z) (buf : list Z) : Result (nat * list Z) :=
  let data := replicate (Nat.min (length buf) 3) 7 in
  Ok (length data, data ++ drop (length data) buf).

Lemma example_read_at_contract : read_at_contract example_read_at example_contents.
Proof.
  intros file offset buf. split; [done|].
  intros data [= <-]. rewrite length_replicate. lia.
Qed.

Lemma VMInitializer_init_slice_spec_witness :
  VMInitializer_init_slice (fun _ => []) example_read_at
    (InitFileBacked (mkFileBacked 1 0 false)) [9; 9; 9; 9; 9] = Ok [7; 7; 7; 0; 0].
Proof.
  rewrite (proj1 (VMInitializer_init_slice_spec (fun _ => []) example_read_at example_contents
    example_read_at_contract (InitFileBacked (mkFileBacked 1 0 false)) [9; 9; 9; 9; 9] eq_refl)).
  reflexivity.
Defined.
