(* ===== verification/VMFreeSpace.v ===== *)
(** Free memory: [src/libos/src/vm/free_space_manager.rs].

    The free space of a chunk, or of the whole user space, is a vector of ranges
    kept in address order. The theorems relate it to the set of free addresses:
    allocation takes exactly the returned range out of the set and fails only
    when nothing fits, freeing puts a range back, and because the vector is a
    canonical representation of the set (no two ranges touch), freeing what was
    allocated restores the very same vector. *)

From S2P Require Import Prelude Errno VMRange VMMapOptions.

(** * The free list *)

(** [VMFreeSpaceManager { free_manager: Vec<VMRange> }]. *)
Abbreviation VMFreeSpaceManager := (list VMRange) (only parsing).

Definition FreeSpace_new (initial_free_range : VMRange) : VMFreeSpaceManager :=
  [initial_free_range].

Definition FreeSpace_free_size (self : VMFreeSpaceManager) : Z :=
  foldl (fun acc free_range => acc +64 VMRange_size free_range) 0 self.

(** The [for] loop of [find_free_range_internal]: [idx] is the index of the head
    of [free_list], [best] is [(result_free_range, result_idx)]. *)
Fixpoint find_loop (size align : Z) (addr : VMMapAddr) (free_list : list VMRange)
    (idx : nat) (best : option (VMRange * nat)) : Result (option (VMRange * nat)) :=
  match free_list with
  | [] => Ok best
  | free_range :: rest =>
      let continue best := find_loop size align addr rest (S idx) best in
      if VMRange_size free_range <? size then continue best
      else match addr with
      | Any =>
          let start := align_up (vm_start free_range) align in
          let end_ := start +64 size in
          if vm_end free_range <? end_ then continue best
          else Ok (Some (mkVMRange start end_, idx))
      | Hint addr =>
          if VMRange_contains free_range addr && (size <=? vm_end free_range -64 addr)
          then Ok (Some (mkVMRange addr (addr +64 size), idx))
          else if match best with
                  | None => true
                  | Some (b, _) => VMRange_size free_range <? VMRange_size b
                  end
          then
            let start := align_up (vm_start free_range) align in
            let end_ := start +64 size in
            if vm_end free_range <? end_ then continue best
            else continue (Some (mkVMRange start end_, idx))
          else continue best
      | Need addr | Force addr =>
          if addr <? vm_start free_range then Err ENOMEM
          else if negb (VMRange_contains free_range addr) then continue best
          else if vm_end free_range -64 addr <? size then Err ENOMEM
          else Ok (Some (mkVMRange addr (addr +64 size), idx))
      end
  end.

Definition free_list_update_range (self : VMFreeSpaceManager) (index : nat) (range : VMRange)
    : Result VMFreeSpaceManager :=
  free_range ← unwrap_option (self !! index);
  match VMRange_subtract free_range range with
  | [] => Ok (vec_remove index self)
  | r0 :: more =>
      let free_list := <[index := r0]> self in
      match more with
      | [r1] => Ok (vec_insert (index + 1) r1 free_list)
      | _ => Ok free_list
      end
  end.

(** The check of a user-provided address before the loop. *)
Definition addr_aligned (addr : VMMapAddr) (align : Z) : bool :=
  match addr with
  | Any => true
  | Hint addr | Need addr | Force addr => addr mod align =? 0
  end.

(** The allocated range and the new free list; on [Err] the list is unchanged. *)
Definition find_free_range_internal (self : VMFreeSpaceManager) (size align : Z)
    (addr : VMMapAddr) : Result (VMRange * VMFreeSpaceManager) :=
  if negb (addr_aligned addr align) then Err EINVAL
  else
    result ← find_loop size align addr self 0 None;
    match result with
    | None => Err ENOMEM
    | Some (result_free_range, index) =>
        self' ← free_list_update_range self index result_free_range;
        Ok (result_free_range, self')
    end.

(** The [while] loop of [add_range_back_to_free_manager]: the dirty range goes
    between two neighbours. *)
Fixpoint add_back_between (free_list : list VMRange) (dirty_range : VMRange) : list VMRange :=
  match free_list with
  | left_range :: ((right_range :: rest) as tl) =>
      if (vm_end left_range <=? vm_start dirty_range) &&
         (vm_end dirty_range <=? vm_start right_range)
      then match VMRange_is_contiguous_with dirty_range left_range,
                 VMRange_is_contiguous_with dirty_range right_range with
           | true, true => VMRange_set_end left_range (vm_end right_range) :: rest
           | true, false => VMRange_set_end left_range (vm_end dirty_range) :: tl
           | false, true => left_range :: VMRange_set_start right_range (vm_start dirty_range) :: rest
           | false, false => left_range :: dirty_range :: tl
           end
      else left_range :: add_back_between tl dirty_range
  | _ => free_list
  end.

Definition add_range_back_to_free_manager (self : VMFreeSpaceManager) (dirty_range : VMRange)
    : VMFreeSpaceManager :=
  match self with
  | [] => [dirty_range]
  | head_range :: tl =>
      match vm_end dirty_range ?= vm_start head_range with
      | Eq => VMRange_set_start head_range (vm_start dirty_range) :: tl
      | Lt => dirty_range :: self
      | Gt =>
          let tail_range := List.last self head_range in
          match vm_start dirty_range ?= vm_end tail_range with
          | Eq => removelast self ++ [VMRange_set_end tail_range (vm_end dirty_range)]
          | Gt => self ++ [dirty_range]
          | Lt => add_back_between self dirty_range
          end
      end
  end.

Definition FreeSpace_is_free_range (self : VMFreeSpaceManager) (request_range : VMRange) : bool :=
  existsb (fun free_range => VMRange_is_superset_of free_range request_range) self.

(** * The invariant *)

(** Non-empty ranges above [lo], in address order, no two of which touch. *)
Inductive coalesced : Z -> list VMRange -> Prop :=
| coalesced_nil lo : coalesced lo []
| coalesced_cons lo r l :
    lo < vm_start r -> vm_start r < vm_end r ->
    coalesced (vm_end r) l -> coalesced lo (r :: l).
#[export] Hint Constructors coalesced : occlum.

(** Addresses are far from the end of the 64-bit space, so that rounding up an
    address and adding a size do not wrap. *)
Definition addr_limit : Z := 2 ^ 62.

Definition free_ok (l : VMFreeSpaceManager) : Prop :=
  coalesced (-1) l /\ Forall VMRange_wf l /\ Forall (fun r => vm_end r <= addr_limit) l.

Lemma coalesced_weaken lo lo' l : coalesced lo l -> lo' <= lo -> coalesced lo' l.
Proof. destruct 1; constructor; auto; lia. Qed.

Lemma coalesced_above lo l a : coalesced lo l -> in_ranges a l -> lo < a.
Proof.
  induction 1 as [|lo r l ? ? ? IH]; intros Ha; in_ranges_simpl; [done|].
  destruct Ha as [Ha|Ha]; [vmrange_unfold; lia|]. specialize (IH Ha). lia.
Qed.

Lemma coalesced_nonempty lo l r : coalesced lo l -> r ∈ l -> vm_start r < vm_end r.
Proof. induction 1; intros Hin; set_solver. Qed.

Lemma coalesced_app lo l1 l2 :
  coalesced lo (l1 ++ l2) <->
  coalesced lo l1 /\ coalesced (foldl (fun _ r => vm_end r) lo l1) l2.
Proof.
  revert lo. induction l1 as [|r l1 IH]; intros lo; simpl.
  - split; [auto with occlum|tauto].
  - split.
    + inversion 1; subst. destruct (IH (vm_end r)) as [IH1 _].
      destruct IH1; auto with occlum.
    + intros [H1 H2]. inversion H1; subst. constructor; auto. by apply IH.
Qed.

Lemma coalesced_end_ge lo l : coalesced lo l -> lo <= foldl (fun _ r => vm_end r) lo l.
Proof. induction 1; simpl; lia. Qed.

Lemma coalesced_below lo l a :
  coalesced lo l -> in_ranges a l -> a < foldl (fun _ r => vm_end r) lo l.
Proof.
  induction 1 as [|lo r l Hlo Hne Hc IH]; intros Ha; in_ranges_simpl; [done|]. simpl.
  destruct Ha as [Ha|Ha]; [|auto].
  assert (vm_end r <= foldl (fun _ r => vm_end r) (vm_end r) l) by by apply coalesced_end_ge.
  vmrange_unfold. lia.
Qed.

Lemma coalesced_lookup_lt lo l i j r1 r2 :
  coalesced lo l -> l !! i = Some r1 -> l !! j = Some r2 -> (i < j)%nat ->
  vm_end r1 < vm_start r2.
Proof.
  intros Hc. revert i j. induction Hc as [|lo r l Hlo Hne Hc IH]; intros i j Hi Hj Hij; [done|].
  destruct j as [|j]; [lia|]. destruct i as [|i]; simplify_eq/=; [|eapply IH; eauto; lia].
  eapply coalesced_above; [exact Hc|]. exists r2. split; [by eapply list_elem_of_lookup_2|].
  assert (vm_start r2 < vm_end r2)
    by (eapply coalesced_nonempty; eauto; by eapply list_elem_of_lookup_2).
  vmrange_unfold. lia.
Qed.

(** The vector is determined by the set of free addresses. *)
Lemma coalesced_head_start lo lo' r1 l1 r2 l2 :
  coalesced lo (r1 :: l1) -> coalesced lo' (r2 :: l2) ->
  (forall a, in_ranges a (r1 :: l1) <-> in_ranges a (r2 :: l2)) ->
  vm_start r2 <= vm_start r1.
Proof.
  intros H1 H2 Heq. inversion H1; inversion H2; subst.
  assert (Hin : in_ranges (vm_start r1) (r2 :: l2)).
  { apply Heq. in_ranges_simpl. left. vmrange_unfold. lia. }
  in_ranges_simpl. destruct Hin as [Hin|Hin]; [vmrange_unfold; lia|].
  eapply coalesced_above in Hin; [|eassumption]. lia.
Qed.

Lemma coalesced_head_end lo lo' r1 l1 r2 l2 :
  coalesced lo (r1 :: l1) -> coalesced lo' (r2 :: l2) -> vm_start r1 = vm_start r2 ->
  (forall a, in_ranges a (r1 :: l1) <-> in_ranges a (r2 :: l2)) ->
  vm_end r2 <= vm_end r1.
Proof.
  intros H1 H2 Hs Heq. inversion H1; inversion H2; subst.
  destruct (Z.le_gt_cases (vm_end r2) (vm_end r1)) as [|Hgt]; [done|].
  assert (Hin : in_ranges (vm_end r1) (r1 :: l1)).
  { apply Heq. in_ranges_simpl. left. vmrange_unfold. lia. }
  in_ranges_simpl. destruct Hin as [Hin|Hin]; [vmrange_unfold; lia|].
  eapply coalesced_above in Hin; [|eassumption]. lia.
Qed.

Lemma coalesced_canonical lo lo' l1 l2 :
  coalesced lo l1 -> coalesced lo' l2 ->
  (forall a, in_ranges a l1 <-> in_ranges a l2) -> l1 = l2.
Proof.
  revert lo lo' l2. induction l1 as [|r1 l1 IH]; intros lo lo' [|r2 l2] H1 H2 Heq; [done| | |].
  - inversion H2; subst. destruct (Heq (vm_start r2)) as [_ Hf]. exfalso.
    rewrite in_ranges_nil in Hf. apply Hf. in_ranges_simpl. left. vmrange_unfold. lia.
  - inversion H1; subst. destruct (Heq (vm_start r1)) as [Hf _]. exfalso.
    rewrite in_ranges_nil in Hf. apply Hf. in_ranges_simpl. left. vmrange_unfold. lia.
  - assert (Hs : vm_start r1 = vm_start r2).
    { apply Z.le_antisymm; eapply coalesced_head_start; eauto. intros a. by rewrite Heq. }
    assert (He : vm_end r1 = vm_end r2).
    { apply Z.le_antisymm; eapply coalesced_head_end; eauto. intros a. by rewrite Heq. }
    destruct r1 as [s1 e1], r2 as [s2 e2]; simpl in *; subst.
    inversion H1; inversion H2; subst. f_equal. eapply IH; eauto.
    intros a. specialize (Heq a). rewrite !in_ranges_cons in Heq. vmrange_unfold.
    split; intros Ha; pose proof Ha as Hlo; eapply coalesced_above in Hlo; try eassumption;
      simpl in *; destruct Heq as [Hq1 Hq2];
      [destruct Hq1 as [?|?] | destruct Hq2 as [?|?]]; auto; lia.
Qed.

(** * Finding a range *)

(** [a] is a place for [size] bytes inside the free range [fr]. *)
Definition fits (fr : VMRange) (size align a : Z) : Prop :=
  vm_start fr <= a /\ a + size <= vm_end fr /\ a mod align = 0.

Section find.
Variables (size align k : Z).
Hypothesis Hsize : 0 < size.
Hypothesis Hk : 0 <= k <= 62.
Hypothesis Halign : align = 2 ^ k.

Definition limited (l : list VMRange) : Prop :=
  Forall VMRange_wf l /\ Forall (fun r => vm_end r <= addr_limit) l.

Lemma align_le_limit : 0 < align <= addr_limit.
Proof.
  rewrite Halign. unfold addr_limit. split; [apply Z.pow_pos_nonneg; lia|].
  apply Z.pow_le_mono_r; lia.
Qed.

(** Inside one free range: rounding the start up finds the lowest place. *)
Lemma align_up_in_range fr :
  VMRange_wf fr -> vm_end fr <= addr_limit -> size <= vm_end fr - vm_start fr ->
  let a := align_up (vm_start fr) align in
  a mod align = 0 /\ vm_start fr <= a /\ a +64 size = a + size /\
  (forall b, fits fr size align b -> a <= b).
Proof.
  intros [] Hlim Hsz a. pose proof align_le_limit as Hal.
  assert (addr_limit * 4 = u64_modulus) by reflexivity.
  destruct (align_up_spec (vm_start fr) k) as [Hm Hr]; [lia|lia|rewrite <- Halign; lia|].
  rewrite <- Halign in *. fold a in Hm, Hr. split_and!; [done|lia| |].
  - apply add64_small. lia.
  - intros b (? & ? & ?). subst a. rewrite Halign in *. apply align_up_least; auto; lia.
Qed.

(** One iteration of the loop: the lowest place in a free range, if any. *)
Definition place (fr : VMRange) : option VMRange :=
  if VMRange_size fr <? size then None
  else let start := align_up (vm_start fr) align in
       if vm_end fr <? start +64 size then None
       else Some (mkVMRange start (start +64 size)).

Lemma place_spec fr :
  VMRange_wf fr -> vm_end fr <= addr_limit ->
  match place fr with
  | Some r => exists a, r = mkVMRange a (a + size) /\ fits fr size align a /\
                        forall b, fits fr size align b -> a <= b
  | None => forall b, ~ fits fr size align b
  end.
Proof.
  intros Hfr Hlim. unfold place. rewrite VMRange_size_wf by done.
  destruct (vm_end fr - vm_start fr <? size) eqn:Hsz; [intros b (? & ? & ?); lia|].
  destruct (align_up_in_range fr) as (Hm & Hge & Hadd & Hmin); [done|lia|lia|].
  simpl in *. rewrite Hadd. case_if.
  - intros b Hb. specialize (Hmin b Hb). destruct Hb. lia.
  - eexists. split_and!; [done|split_and!; auto; lia|done].
Qed.

(** The first free range of the list that has a place for the request. *)
Inductive first_fit (l : list VMRange) (idx : nat) : option (VMRange * nat) -> Prop :=
| first_fit_none :
    (forall fr a, fr ∈ l -> ~ fits fr size align a) -> first_fit l idx None
| first_fit_some i fr a :
    l !! i = Some fr -> fits fr size align a ->
    (forall b, fits fr size align b -> a <= b) ->
    (forall j fr' b, (j < i)%nat -> l !! j = Some fr' -> ~ fits fr' size align b) ->
    first_fit l idx (Some (mkVMRange a (a + size), (idx + i)%nat)).

Lemma first_fit_skip fr l idx o :
  (forall b, ~ fits fr size align b) -> first_fit l (S idx) o -> first_fit (fr :: l) idx o.
Proof.
  intros Hno [Hall|i fr' a Hi Hf Hmin Hfst].
  - constructor. intros fr' a [->|?]%elem_of_cons; auto.
  - replace (S idx + i)%nat with (idx + S i)%nat by lia. econstructor; eauto.
    intros [|j] fr'' b Hj Hl; simplify_eq/=; [auto|]. eapply Hfst; eauto; lia.
Qed.

Lemma first_fit_here fr l idx a :
  fits fr size align a -> (forall b, fits fr size align b -> a <= b) ->
  first_fit (fr :: l) idx (Some (mkVMRange a (a + size), idx)).
Proof.
  intros Hf Hmin. rewrite <- (Nat.add_0_r idx) at 2. apply (first_fit_some _ _ 0 fr); auto. lia.
Qed.

Lemma find_loop_any_cons fr l idx :
  find_loop size align Any (fr :: l) idx None =
  match place fr with
  | Some r => Ok (Some (r, idx))
  | None => find_loop size align Any l (S idx) None
  end.
Proof. unfold place. simpl. by repeat case_if. Qed.

Lemma find_any_loop l idx :
  limited l ->
  exists o, find_loop size align Any l idx None = Ok o /\ first_fit l idx o.
Proof.
  revert idx. induction l as [|fr l IH]; intros idx [Hwf Hlim].
  { eexists. split; [done|]. constructor. set_solver. }
  apply Forall_cons_iff in Hwf as [Hfr Hwf']. apply Forall_cons_iff in Hlim as [Hfl Hlim'].
  rewrite find_loop_any_cons. pose proof (place_spec fr Hfr Hfl) as Hp.
  destruct (place fr) as [r|].
  - destruct Hp as (a & -> & Hf & Hmin). eauto using first_fit_here.
  - destruct (IH (S idx)) as (o & -> & Ho); [by split|]. eauto using first_fit_skip.
Qed.

(** Whether the block at a given address is inside a free range. *)
Definition holds (fr : VMRange) (a : Z) : Prop := vm_start fr <= a /\ a + size <= vm_end fr.

Lemma find_loop_need_cons a fr l idx best :
  VMRange_wf fr -> is_u64 a ->
  find_loop size align (Need a) (fr :: l) idx best =
  if vm_end fr - vm_start fr <? size then find_loop size align (Need a) l (S idx) best
  else if a <? vm_start fr then Err ENOMEM
  else if vm_end fr <=? a then find_loop size align (Need a) l (S idx) best
  else if vm_end fr - a <? size then Err ENOMEM
  else Ok (Some (mkVMRange a (a + size), idx)).
Proof.
  intros Hfr Ha. cbn [find_loop]. rewrite VMRange_size_wf by done. destruct Hfr.
  destruct (vm_end fr - vm_start fr <? size); [done|].
  destruct (a <? vm_start fr) eqn:Hlt; [done|]. unfold VMRange_contains.
  destruct (vm_end fr <=? a) eqn:Hend.
  { replace ((vm_start fr <=? a) && (a <? vm_end fr)) with false by lia. done. }
  replace ((vm_start fr <=? a) && (a <? vm_end fr)) with true by lia. simpl.
  unfold is_u64 in *. rewrite sub64_small by lia.
  destruct (vm_end fr - a <? size) eqn:Hs; [done|]. by rewrite add64_small by lia.
Qed.

(** A fixed address: the block there is free, or the request fails. *)
Lemma find_need_loop a l lo idx :
  is_u64 a -> coalesced lo l -> Forall VMRange_wf l ->
  (exists i fr, l !! i = Some fr /\ holds fr a /\
     find_loop size align (Need a) l idx None = Ok (Some (mkVMRange a (a + size), (idx + i)%nat)))
  \/ ((forall fr, fr ∈ l -> ~ holds fr a) /\
      (find_loop size align (Need a) l idx None = Ok None \/
       find_loop size align (Need a) l idx None = Err ENOMEM)).
Proof.
  intros Ha Hc Hwf. revert idx. induction Hc as [lo|lo fr l Hlo Hne Hc IH]; intros idx.
  { right. split; [set_solver|]. by left. }
  apply Forall_cons_iff in Hwf as [Hfr Hwf]. rewrite find_loop_need_cons by done.
  assert (Hskip : ~ holds fr a ->
    (exists i fr', (fr :: l) !! i = Some fr' /\ holds fr' a /\
       find_loop size align (Need a) l (S idx) None = Ok (Some (mkVMRange a (a + size), (idx + i)%nat)))
    \/ ((forall fr', fr' ∈ fr :: l -> ~ holds fr' a) /\
        (find_loop size align (Need a) l (S idx) None = Ok None \/
         find_loop size align (Need a) l (S idx) None = Err ENOMEM))).
  { intros Hno. destruct (IH Hwf (S idx)) as [(i & fr' & ? & ? & ->)|[Hn ?]].
    - left. exists (S i), fr'. split_and!; auto. do 3 f_equal. lia.
    - right. split; [|done]. intros fr' [->|?]%elem_of_cons; auto. }
  assert (Hlater : forall fr', fr' ∈ l -> vm_end fr < vm_start fr').
  { intros fr' Hin. eapply coalesced_above; [exact Hc|]. exists fr'. split; [done|].
    assert (Hord : vm_start fr' < vm_end fr') by (eapply coalesced_nonempty; eauto).
    vmrange_unfold. lia. }
  unfold holds in *. repeat case_if.
  - apply Hskip. lia.
  - right. split; [|by right]. intros fr' [->|Hin]%elem_of_cons; [lia|].
    specialize (Hlater fr' Hin). lia.
  - apply Hskip. lia.
  - right. split; [|by right]. intros fr' [->|Hin]%elem_of_cons; [lia|].
    specialize (Hlater fr' Hin). lia.
  - left. exists 0%nat, fr. split_and!; [done|lia|lia|]. do 3 f_equal. lia.
Qed.

Lemma find_force_loop a l idx best :
  find_loop size align (Force a) l idx best = find_loop size align (Need a) l idx best.
Proof.
  revert idx best. induction l as [|fr l IH]; intros idx best; [done|].
  simpl. by rewrite !IH.
Qed.

Lemma find_loop_hint_cons h fr l idx best :
  VMRange_wf fr -> is_u64 h ->
  find_loop size align (Hint h) (fr :: l) idx best =
  if (vm_start fr <=? h) && (h + size <=? vm_end fr)
  then Ok (Some (mkVMRange h (h + size), idx))
  else find_loop size align (Hint h) l (S idx)
         (match best, place fr with
          | None, Some r => Some (r, idx)
          | Some (b, _), Some r => if VMRange_size fr <? VMRange_size b then Some (r, idx) else best
          | _, None => best
          end).
Proof.
  intros Hfr Hh. cbn [find_loop]. unfold place. rewrite VMRange_size_wf by done. destruct Hfr.
  destruct (vm_end fr - vm_start fr <? size) eqn:Hsz.
  { replace ((vm_start fr <=? h) && (h + size <=? vm_end fr)) with false by lia.
    by destruct best as [[]|]. }
  unfold VMRange_contains, is_u64 in *.
  destruct ((vm_start fr <=? h) && (h + size <=? vm_end fr)) eqn:Hhold.
  { rewrite sub64_small, add64_small by lia.
    by replace ((vm_start fr <=? h) && (h <? vm_end fr) && (size <=? vm_end fr - h)) with true by lia. }
  destruct ((vm_start fr <=? h) && (h <? vm_end fr)) eqn:Hin; simpl.
  - rewrite sub64_small by lia. replace (size <=? vm_end fr - h) with false by lia.
    destruct best as [[b n]|]; repeat case_if; done.
  - destruct best as [[b n]|]; repeat case_if; done.
Qed.

Lemma place_size fr r : VMRange_wf fr -> vm_end fr <= addr_limit -> place fr = Some r ->
  VMRange_size r = size /\ size <= VMRange_size fr.
Proof.
  intros Hfr Hlim Hp. pose proof (place_spec fr Hfr Hlim) as Hs. rewrite Hp in Hs.
  destruct Hs as (a & -> & (? & ? & _) & _). rewrite (VMRange_size_wf fr) by done.
  destruct Hfr. unfold VMRange_size; simpl. rewrite sub64_small by lia. lia.
Qed.

(** Once a place is recorded it is only replaced by the hinted address. *)
Lemma find_hint_loop_best h l idx b n :
  is_u64 h -> limited l -> VMRange_size b = size ->
  (exists i fr, l !! i = Some fr /\ holds fr h /\
     find_loop size align (Hint h) l idx (Some (b, n)) =
       Ok (Some (mkVMRange h (h + size), (idx + i)%nat)))
  \/ ((forall fr, fr ∈ l -> ~ holds fr h) /\
      find_loop size align (Hint h) l idx (Some (b, n)) = Ok (Some (b, n))).
Proof.
  intros Hh Hl Hb. revert idx. induction l as [|fr l IH]; intros idx.
  { right. split; [set_solver|done]. }
  destruct Hl as [Hwf Hlim]. apply Forall_cons_iff in Hwf as [Hfr Hwf'].
  apply Forall_cons_iff in Hlim as [Hfl Hlim'].
  rewrite find_loop_hint_cons by done. unfold holds in *.
  destruct ((vm_start fr <=? h) && (h + size <=? vm_end fr)) eqn:Hhold.
  { left. exists 0%nat, fr. split_and!; [done|lia|lia|]. do 3 f_equal. lia. }
  assert (Hkeep : match place fr with
    | Some r => if VMRange_size fr <? VMRange_size b then Some (r, idx) else Some (b, n)
    | None => Some (b, n) end = Some (b, n)).
  { destruct (place fr) as [r|] eqn:Hp; [|done].
    pose proof (place_size fr r Hfr Hfl Hp). rewrite Hb. case_if; [lia|done]. }
  rewrite Hkeep. destruct (IH ltac:(by split) (S idx)) as [(i & fr' & ? & ? & ->)|[Hn ->]].
  - left. exists (S i), fr'. split_and!; auto; try lia. do 3 f_equal. lia.
  - right. split; [|done]. intros fr' [->|?]%elem_of_cons; [lia|auto].
Qed.

(** A hint that cannot be honoured is the same as no address at all. *)
Lemma find_hint_loop h l idx :
  is_u64 h -> limited l ->
  (exists i fr, l !! i = Some fr /\ holds fr h /\
     find_loop size align (Hint h) l idx None = Ok (Some (mkVMRange h (h + size), (idx + i)%nat)))
  \/ ((forall fr, fr ∈ l -> ~ holds fr h) /\
      find_loop size align (Hint h) l idx None = find_loop size align Any l idx None).
Proof.
  intros Hh Hl. revert idx. induction l as [|fr l IH]; intros idx.
  { right. split; [set_solver|done]. }
  destruct Hl as [Hwf Hlim]. apply Forall_cons_iff in Hwf as [Hfr Hwf'].
  apply Forall_cons_iff in Hlim as [Hfl Hlim'].
  rewrite find_loop_hint_cons, find_loop_any_cons by done. unfold holds in *.
  destruct ((vm_start fr <=? h) && (h + size <=? vm_end fr)) eqn:Hhold.
  { left. exists 0%nat, fr. split_and!; [done|lia|lia|]. do 3 f_equal. lia. }
  assert (Hcons : forall P : Prop, ((forall fr', fr' ∈ l -> ~ (vm_start fr' <= h /\ h + size <= vm_end fr'))
      /\ P) -> (forall fr', fr' ∈ fr :: l -> ~ (vm_start fr' <= h /\ h + size <= vm_end fr')) /\ P).
  { intros P [Hn ?]. split; [|done]. intros fr' [->|?]%elem_of_cons; [lia|auto]. }
  destruct (place fr) as [r|] eqn:Hp.
  - destruct (find_hint_loop_best h l (S idx) r idx) as [(i & fr' & ? & ? & ->)|[Hn ->]];
      [done|by split|by apply (place_size fr)| |].
    + left. exists (S i), fr'. unfold holds in *. split_and!; auto; try lia. do 3 f_equal. lia.
    + right. by apply Hcons.
  - destruct (IH ltac:(by split) (S idx)) as [(i & fr' & ? & ? & ->)|[Hn ->]].
    + left. exists (S i), fr'. split_and!; auto; try lia. do 3 f_equal. lia.
    + right. by apply Hcons.
Qed.
End find.

(** * Taking a range out *)

Lemma subtract_inside fr r :
  VMRange_wf fr -> vm_start fr <= vm_start r -> vm_start r < vm_end r -> vm_end r <= vm_end fr ->
  VMRange_subtract fr r =
    (if vm_start fr <? vm_start r then [mkVMRange (vm_start fr) (vm_start r)] else []) ++
    (if vm_end r <? vm_end fr then [mkVMRange (vm_end r) (vm_end fr)] else []).
Proof.
  intros Hfr Hs Hne He. unfold VMRange_subtract, VMRange_intersect.
  rewrite VMRange_size_wf by done. destruct Hfr.
  rewrite Z.max_r, Z.min_r by lia.
  replace (vm_end fr - vm_start fr =? 0) with false by lia.
  replace (vm_end r <=? vm_start r) with false by lia. simpl.
  by repeat case_if.
Qed.

Lemma update_range_eq l1 fr l2 r :
  VMRange_wf fr -> vm_start fr <= vm_start r -> vm_start r < vm_end r -> vm_end r <= vm_end fr ->
  free_list_update_range (l1 ++ fr :: l2) (length l1) r =
    Ok (l1 ++ VMRange_subtract fr r ++ l2).
Proof.
  intros Hfr Hs Hne He. unfold free_list_update_range.
  rewrite list_lookup_middle by done. simpl. rewrite subtract_inside by done.
  repeat case_if; simpl.
  - rewrite list_insert_middle.
    replace (l1 ++ mkVMRange (vm_start fr) (vm_start r) :: l2)
      with ((l1 ++ [mkVMRange (vm_start fr) (vm_start r)]) ++ l2) by by rewrite <- app_assoc.
    replace (length l1 + 1)%nat with (length (l1 ++ [mkVMRange (vm_start fr) (vm_start r)]))
      by (rewrite length_app; simpl; lia).
    by rewrite vec_insert_middle, <- app_assoc.
  - by rewrite list_insert_middle.
  - by rewrite list_insert_middle.
  - by rewrite vec_remove_middle.
Qed.

Lemma coalesced_carve lo l1 fr l2 r :
  VMRange_wf fr -> vm_start fr <= vm_start r -> vm_start r < vm_end r -> vm_end r <= vm_end fr ->
  coalesced lo (l1 ++ fr :: l2) -> coalesced lo (l1 ++ VMRange_subtract fr r ++ l2).
Proof.
  intros Hfr Hs Hne He. rewrite !coalesced_app. intros [H1 H2]. split; [done|].
  inversion H2; subst. rewrite subtract_inside by done.
  repeat case_if; simpl; repeat (constructor; simpl; try lia); auto.
  all: eapply coalesced_weaken; eauto; lia.
Qed.

(** The set of free addresses after a range was taken out. *)
Lemma in_ranges_carve lo l1 fr l2 r a :
  VMRange_wf fr -> VMRange_wf r ->
  vm_start fr <= vm_start r -> vm_start r < vm_end r -> vm_end r <= vm_end fr ->
  coalesced lo (l1 ++ fr :: l2) ->
  in_ranges a (l1 ++ VMRange_subtract fr r ++ l2) <->
  in_ranges a (l1 ++ fr :: l2) /\ ~ a ∈ r.
Proof.
  intros Hfr Hr Hs Hne He Hc.
  destruct (VMRange_subtract_spec fr r Hfr Hr) as (_ & _ & _ & Hsub).
  assert (Hout : a ∈ r -> ~ in_ranges a l1 /\ ~ in_ranges a l2).
  { intros Har. apply coalesced_app in Hc as [Hc1 Hc2]. inversion Hc2; subst. split; intros Hin.
    - pose proof (coalesced_below _ _ _ Hc1 Hin). vmrange_unfold. lia.
    - eapply coalesced_above in Hin; [|eassumption]. vmrange_unfold. lia. }
  in_ranges_simpl. rewrite Hsub. assert (Hdec : a ∈ r \/ ~ a ∈ r) by (vmrange_unfold; lia).
  vmrange_unfold. tauto.
Qed.

Lemma limited_carve l1 fr l2 r :
  VMRange_wf r -> vm_start fr <= vm_start r -> vm_start r < vm_end r -> vm_end r <= vm_end fr ->
  limited (l1 ++ fr :: l2) -> limited (l1 ++ VMRange_subtract fr r ++ l2).
Proof.
  intros Hr Hs Hne He. unfold limited. rewrite !Forall_app, !Forall_cons_iff.
  intros ((? & Hfr & ?) & ? & ? & ?).
  destruct (VMRange_subtract_spec fr r Hfr Hr) as (_ & Hw & _ & _).
  split_and!; auto. rewrite subtract_inside by done.
  repeat case_if; repeat constructor; simpl; lia.
Qed.

Lemma update_range_spec l i fr r :
  free_ok l -> l !! i = Some fr -> VMRange_wf r ->
  vm_start fr <= vm_start r -> vm_start r < vm_end r -> vm_end r <= vm_end fr ->
  exists l', free_list_update_range l i r = Ok l' /\ free_ok l' /\
    forall a, in_ranges a l' <-> in_ranges a l /\ ~ a ∈ r.
Proof.
  intros (Hc & Hl) Hi Hr Hs Hne He.
  destruct (list_lookup_split _ _ _ Hi) as (l1 & l2 & -> & <-).
  assert (Hfr : VMRange_wf fr).
  { destruct Hl as [Hwf _]. rewrite Forall_app, Forall_cons_iff in Hwf. tauto. }
  eexists. split; [by apply update_range_eq|]. split.
  - split; [by apply coalesced_carve | by apply limited_carve].
  - intros a. by apply in_ranges_carve with (-1).
Qed.

(** * Requests *)

(** What [VMMapOptionsBuilder::build] establishes, with an alignment below the
    address limit. *)
Definition request_ok (size align : Z) (addr : VMMapAddr) : Prop :=
  0 < size /\ page_aligned size /\ is_power_of_two align = true /\ align <= addr_limit /\
  match addr with
  | Any => True
  | Hint a | Need a | Force a => is_u64 a /\ page_aligned a
  end.

(** All [size] bytes from [a] on are free. *)
Definition block_free (l : VMFreeSpaceManager) (a size : Z) : Prop :=
  forall x, a <= x < a + size -> in_ranges x l.

Lemma request_align size align addr :
  request_ok size align addr -> exists k, 0 <= k <= 62 /\ align = 2 ^ k.
Proof.
  intros (_ & _ & Hp & Hlim & _). apply is_power_of_two_iff in Hp as (k & Hk & ->).
  exists k. split; [|done]. unfold addr_limit in Hlim.
  apply Z.pow_le_mono_r_iff in Hlim; lia.
Qed.

Lemma free_ok_limited l : free_ok l -> limited l.
Proof. intros (_ & ?). done. Qed.

(** A block of free addresses lies in a single free range. *)
Lemma block_free_holds lo l a size :
  coalesced lo l -> 0 < size ->
  block_free l a size <-> exists fr, fr ∈ l /\ holds size fr a.
Proof.
  intros Hc Hsz. split; cycle 1.
  { intros (fr & Hin & ? & ?) x Hx. exists fr. split; [done|]. vmrange_unfold. lia. }
  intros Hb. induction Hc as [lo|lo fr l Hlo Hne Hc IH].
  { destruct (Hb a) as (? & ? & _); [lia|]. set_solver. }
  destruct (decide (vm_end fr <= a)) as [Hge|Hlt].
  - destruct IH as (fr' & ? & ?).
    { intros x Hx. specialize (Hb x Hx). in_ranges_simpl. destruct Hb as [Hb|]; [|done].
      vmrange_unfold. lia. }
    exists fr'. split; [set_solver|done].
  - exists fr. split; [set_solver|]. split.
    + specialize (Hb a ltac:(lia)). in_ranges_simpl. destruct Hb as [Hb|Hb]; [vmrange_unfold; lia|].
      eapply coalesced_above in Hb; [|eassumption]. lia.
    + destruct (decide (a + size <= vm_end fr)) as [|Hgt]; [done|].
      specialize (Hb (vm_end fr) ltac:(lia)). in_ranges_simpl. destruct Hb as [Hb|Hb]; [vmrange_unfold; lia|].
      eapply coalesced_above in Hb; [|eassumption]. lia.
Qed.

Lemma page_aligned_start fr size k a :
  VMRange_wf fr -> 0 <= k -> 0 < size -> fits fr size (2 ^ k) a ->
  (forall b, fits fr size (2 ^ k) b -> a <= b) -> page_aligned a.
Proof.
  intros [_ _ _ Hfs _] Hk Hsz (H1 & H2 & H3) Hmin. unfold page_aligned in *. rewrite PAGE_SIZE_pow2 in *.
  destruct (decide (12 <= k)) as [Hge|Hlt].
  - replace k with ((k - 12) + 12) in H3 by lia. rewrite Z.pow_add_r in H3 by lia.
    apply Z.mod_divide in H3 as [q ->]; [|apply Z.neq_mul_0; split; apply Z.pow_nonzero; lia].
    rewrite Z.mul_assoc. apply Z.mod_mul. lia.
  - assert (Hsm : vm_start fr mod 2 ^ k = 0).
    { replace 12 with ((12 - k) + k) in Hfs by lia.
      rewrite Z.pow_add_r in Hfs by lia.
      apply Z.mod_divide in Hfs as [q ->];
        [|apply Z.neq_mul_0; split; apply Z.pow_nonzero; lia].
      rewrite Z.mul_assoc. apply Z.mod_mul, Z.pow_nonzero; lia. }
    assert (a <= vm_start fr) by (apply Hmin; split_and!; auto; lia).
    by replace a with (vm_start fr) by lia.
Qed.

(** The range that the loop selects, whatever kind of address was asked for. *)
Lemma find_loop_sound l size align addr r i :
  free_ok l -> request_ok size align addr -> addr_aligned addr align = true ->
  find_loop size align addr l 0 None = Ok (Some (r, i)) ->
  exists fr a, l !! i = Some fr /\ fits fr size align a /\ page_aligned a /\
               r = mkVMRange a (a + size).
Proof.
  intros Hl Hreq Hal. destruct (request_align _ _ _ Hreq) as (k & Hk & ->).
  pose proof (free_ok_limited _ Hl) as Hlim. destruct Hl as (Hc & Hwf & _).
  pose proof (proj1 Hreq) as Hs.
  assert (Hany : find_loop size (2 ^ k) Any l 0 None = Ok (Some (r, i)) ->
    exists fr a, l !! i = Some fr /\ fits fr size (2 ^ k) a /\ page_aligned a /\
                 r = mkVMRange a (a + size)).
  { destruct (find_any_loop size (2 ^ k) k ltac:(apply Hreq) Hk eq_refl l 0 Hlim) as (o & -> & Ho).
    intros [= ->]. inversion Ho as [|i' fr a Hi Hf Hmin]; simplify_eq/=. exists fr, a.
    split_and!; auto. apply (page_aligned_start fr size k); auto; [|lia].
    eapply Forall_lookup_1; eauto. }
  assert (Hneed : forall a, addr_aligned (Need a) (2 ^ k) = true -> is_u64 a -> page_aligned a ->
    find_loop size (2 ^ k) (Need a) l 0 None = Ok (Some (r, i)) ->
    exists fr a, l !! i = Some fr /\ fits fr size (2 ^ k) a /\ page_aligned a /\
                 r = mkVMRange a (a + size)).
  { intros a Haa Hau Hap.
    destruct (find_need_loop size (2 ^ k) k Hs Hk a l (-1) 0) as [(i' & fr & Hi & [? ?] & ->)|[_ [->| ->]]];
      [done..| |done|done].
    intros [= <- <-]. exists fr, a. simpl in *. boolprop. split_and!; auto. by split_and!. }
  destruct addr as [|a|a|a]; [done| | |]; destruct Hreq as (_ & _ & _ & _ & Hau & Hap).
  - destruct (find_hint_loop size (2 ^ k) k Hs Hk eq_refl a l 0)
      as [(i' & fr & Hi & [? ?] & ->)|[_ ->]]; [done..| |done].
    intros [= <- <-]. exists fr, a. simpl in *. boolprop. split_and!; auto. by split_and!.
  - by apply Hneed.
  - rewrite find_force_loop. by apply Hneed.
Qed.

(** * Putting a range back *)

Definition ranges_disjoint (r : VMRange) (l : list VMRange) : Prop :=
  forall a, a ∈ r -> ~ in_ranges a l.

Lemma ranges_disjoint_cons r fr l :
  vm_start r < vm_end r -> vm_start fr < vm_end fr -> ranges_disjoint r (fr :: l) ->
  (vm_end r <= vm_start fr \/ vm_end fr <= vm_start r) /\ ranges_disjoint r l.
Proof.
  intros Hr Hfr Hd. split.
  - destruct (decide (vm_end r <= vm_start fr)) as [|H1]; [by left|].
    destruct (decide (vm_end fr <= vm_start r)) as [|H2]; [by right|].
    exfalso. apply (Hd (vm_start r `max` vm_start fr)).
    + vmrange_unfold. lia.
    + in_ranges_simpl. left. vmrange_unfold. lia.
  - intros a Ha Hin. apply (Hd a Ha). in_ranges_simpl. by right.
Qed.

(** Adding [r] to [l] gave [l']: same invariant, union of the addresses. *)
Definition adds_range (lo : Z) (r : VMRange) (l l' : list VMRange) : Prop :=
  coalesced lo l' /\ limited l' /\ (forall a, in_ranges a l' <-> a ∈ r \/ in_ranges a l) /\
  ranges_size l' = VMRange_size r + ranges_size l.

Lemma adds_range_skip lo r fr l l' :
  lo < vm_start fr -> vm_start fr < vm_end fr -> VMRange_wf fr -> vm_end fr <= addr_limit ->
  adds_range (vm_end fr) r l l' -> adds_range lo r (fr :: l) (fr :: l').
Proof.
  intros Hlo Hne Hwf Hlim (Hc & [Hw Hl] & Hin & Hsz). split_and!; [by constructor| | |].
  - split; by constructor.
  - intros a. in_ranges_simpl. rewrite Hin. tauto.
  - unfold ranges_size in *. cbn [foldr]. rewrite Hsz. lia.
Qed.

(** Membership in a list is decidable, so it can be put to [lia] as an inequality. *)
Lemma in_ranges_arith a l : exists z, in_ranges a l <-> 0 <= z.
Proof.
  induction l as [|r l [z IH]].
  - exists (-1). rewrite in_ranges_nil. lia.
  - destruct (decide (vm_start r <= a < vm_end r)).
    + exists 0. rewrite in_ranges_cons. vmrange_unfold. lia.
    + exists z. rewrite in_ranges_cons, IH. vmrange_unfold. lia.
Qed.

(** One neighbour less, or one more, around the dirty range. *)
Ltac adds_range_solve :=
  split_and!;
  [ repeat (constructor; cbn [vm_start vm_end] in *; try lia); auto
  | split; rewrite ?Forall_cons_iff; cbn [vm_start vm_end]; split_and!; auto; lia
  | intros a; in_ranges_simpl; vmrange_unfold;
    repeat match goal with
    | |- context [in_ranges a ?l] => destruct (in_ranges_arith a l) as [? ->]
    end; lia
  | unfold ranges_size; cbn [foldr]; rewrite !VMRange_size_wf by done;
    cbn [vm_start vm_end]; lia ].

Lemma VMRange_wf_join r1 r2 :
  VMRange_wf r1 -> VMRange_wf r2 -> vm_start r1 <= vm_end r2 ->
  VMRange_wf (mkVMRange (vm_start r1) (vm_end r2)).
Proof. intros [] [] ?. by constructor. Qed.

(** The dirty range between two neighbours. *)
Lemma add_back_here lo left right rest r :
  coalesced lo (left :: right :: rest) -> limited (left :: right :: rest) ->
  VMRange_wf r -> vm_start r < vm_end r -> vm_end r <= addr_limit ->
  vm_end left <= vm_start r -> vm_end r <= vm_start right ->
  adds_range lo r (left :: right :: rest) (add_back_between (left :: right :: rest) r).
Proof.
  intros Hc Hl Hr Hne Hlim H1 H2. cbn [add_back_between].
  replace ((vm_end left <=? vm_start r) && (vm_end r <=? vm_start right)) with true by lia.
  inversion Hc as [|? ? ? Hlo Hnl Hc']; subst. inversion Hc' as [|? ? ? Hlr Hnr Hc'']; subst.
  destruct Hl as [Hw Hlm]. rewrite !Forall_cons_iff in Hw, Hlm.
  destruct Hw as (Hwl & Hwr & Hw), Hlm as (Hll & Hlr' & Hlm).
  pose proof (VMRange_wf_join left right Hwl Hwr ltac:(lia)).
  pose proof (VMRange_wf_join left r Hwl Hr ltac:(lia)).
  pose proof (VMRange_wf_join r right Hr Hwr ltac:(lia)).
  unfold VMRange_is_contiguous_with.
  destruct ((vm_start r =? vm_end left) || _) eqn:Hcl, ((vm_start r =? vm_end right) || _) eqn:Hcr;
    adds_range_solve.
Qed.

Lemma add_back_between_spec lo left l r :
  coalesced lo (left :: l) -> limited (left :: l) -> ranges_disjoint r (left :: l) ->
  VMRange_wf r -> vm_start r < vm_end r -> vm_end r <= addr_limit ->
  vm_end left <= vm_start r -> vm_start r < vm_end (List.last (left :: l) left) ->
  adds_range lo r (left :: l) (add_back_between (left :: l) r).
Proof.
  revert lo left. induction l as [|right l IH]; intros lo left Hc Hl Hd Hr Hne Hlim Hle Hlast.
  { simpl in Hlast. lia. }
  destruct (decide (vm_end r <= vm_start right)) as [|Hgt]; [by apply add_back_here|].
  cbn [add_back_between].
  replace ((vm_end left <=? vm_start r) && (vm_end r <=? vm_start right)) with false by lia.
  inversion Hc as [|? ? ? Hlo Hnl Hc']; subst. inversion Hc' as [|? ? ? Hlr Hnr Hc'']; subst.
  destruct Hl as [Hw Hlm]. apply Forall_cons_iff in Hw as [Hwl Hw], Hlm as [Hll Hlm].
  apply ranges_disjoint_cons in Hd as [_ Hd]; [|done..].
  pose proof (ranges_disjoint_cons _ _ _ Hne Hnr Hd) as [Hside _].
  apply adds_range_skip; auto. apply IH; auto; [by split|lia|].
  by rewrite (list_last_default l right right left).
Qed.

(** The dirty range at the end. *)
Lemma add_back_snoc lo l last r :
  coalesced lo (l ++ [last]) -> limited (l ++ [last]) -> VMRange_wf r ->
  vm_start r < vm_end r -> vm_end r <= addr_limit ->
  (vm_end last = vm_start r ->
     adds_range lo r (l ++ [last]) (l ++ [VMRange_set_end last (vm_end r)])) /\
  (vm_end last < vm_start r -> adds_range lo r (l ++ [last]) ((l ++ [last]) ++ [r])).
Proof.
  intros Hc Hl Hr Hne Hlim. revert lo Hc Hl.
  induction l as [|fr l IH]; intros lo Hc [Hw Hlm]; cbn [app] in *;
    inversion Hc as [|? ? ? Hlo Hn Hc']; subst; apply Forall_cons_iff in Hw as [Hwl Hw], Hlm as [Hll Hlm].
  - split; intros Hle; pose proof (VMRange_wf_join last r Hwl Hr ltac:(lia));
      adds_range_solve.
  - destruct (IH (vm_end fr) Hc' ltac:(by split)) as [IH1 IH2].
    split; intros Hle; by apply adds_range_skip; auto.
Qed.

Lemma add_back_spec l r :
  free_ok l -> VMRange_wf r -> vm_start r < vm_end r -> vm_end r <= addr_limit ->
  ranges_disjoint r l -> adds_range (-1) r l (add_range_back_to_free_manager l r).
Proof.
  intros (Hc & Hl) Hr Hne Hlim Hd. unfold add_range_back_to_free_manager.
  destruct l as [|head tl].
  { pose proof (wf_start_nonneg _ Hr). adds_range_solve. }
  inversion Hc as [|? ? ? Hlo Hn Hc']; subst.
  pose proof Hl as [Hw Hlm]. apply Forall_cons_iff in Hw as [Hwh Hw], Hlm as [Hlh Hlm].
  pose proof (wf_start_nonneg _ Hr).
  destruct (ranges_disjoint_cons _ _ _ Hne Hn Hd) as [Hside _].
  destruct (Z.compare_spec (vm_end r) (vm_start head)) as [Heq|Hlt|Hgt].
  - pose proof (VMRange_wf_join r head Hr Hwh ltac:(lia)). adds_range_solve.
  - adds_range_solve.
  - destruct (list_snoc_cases (head :: tl)) as [|(l & last & Hsn)]; [done|].
    destruct (add_back_snoc (-1) l last r) as [H1 H2]; rewrite <- ?Hsn; auto.
    assert (Hlast : List.last (head :: tl) head = last) by (rewrite Hsn; apply list_last_snoc).
    destruct (Z.compare_spec (vm_start r) (vm_end (List.last (head :: tl) head))) as [Heq|Hlt|Hgt'];
      rewrite Hlast in *.
    + rewrite Hsn, list_removelast_snoc in *. by apply H1.
    + apply add_back_between_spec; auto; [lia|by rewrite Hlast].
    + rewrite Hsn in *. apply H2. lia.
Qed.

(** The total size does not overflow below the address limit. *)
Lemma free_size_eq l : free_ok l -> FreeSpace_free_size l = ranges_size l.
Proof.
  intros (Hc & Hl). unfold FreeSpace_free_size.
  cut (forall lo acc, coalesced lo l -> limited l -> 0 <= acc <= lo + 1 ->
    foldl (fun acc r => acc +64 VMRange_size r) acc l = acc + ranges_size l).
  { intros H. rewrite (H (-1)); [lia|done|done|lia]. }
  clear Hc Hl. induction l as [|r l IH]; intros lo acc Hc [Hw Hl] Hacc; [simpl; lia|].
  inversion Hc as [|? ? ? Hlo Hne Hc']; subst.
  apply Forall_cons_iff in Hw as [Hwr Hw], Hl as [Hlr Hl].
  unfold ranges_size in *. cbn [foldl foldr]. rewrite (VMRange_size_wf r Hwr).
  assert (addr_limit < u64_modulus) by reflexivity.
  rewrite add64_small by lia. rewrite (IH (vm_end r)); [lia|done|by split|lia].
Qed.

(** * Allocation *)

Lemma alloc_sound l size align addr r l' :
  free_ok l -> request_ok size align addr ->
  find_free_range_internal l size align addr = Ok (r, l') ->
  VMRange_wf r /\ VMRange_size r = size /\ vm_end r = vm_start r + size /\
  vm_end r <= addr_limit /\ vm_start r mod align = 0 /\
  (forall a, a ∈ r -> in_ranges a l) /\
  free_ok l' /\ forall a, in_ranges a l' <-> in_ranges a l /\ ~ a ∈ r.
Proof.
  intros Hl Hreq. unfold find_free_range_internal.
  destruct (addr_aligned addr align) eqn:Hal; simpl; [|done].
  destruct (find_loop size align addr l 0 None) as [[[r' i]|]| |] eqn:Hf; simpl; try done.
  destruct (find_loop_sound l size align addr r' i) as (fr & a & Hi & (H1 & H2 & H3) & Hp & ->); auto.
  pose proof Hl as (_ & Hw & Hlm). pose proof (Forall_lookup_1 _ _ _ _ Hw Hi) as Hfr.
  pose proof (Forall_lookup_1 _ _ _ _ Hlm Hi) as Hfl. cbv beta in Hfl.
  destruct Hreq as (Hs & Hps & _).
  assert (Hr : VMRange_wf (mkVMRange a (a + size))).
  { destruct Hfr. constructor; cbn [vm_start vm_end]; [lia..|done|].
    unfold page_aligned in *. by rewrite Z.add_mod, Hp, Hps by done. }
  destruct (update_range_spec l i fr (mkVMRange a (a + size))) as (l2 & -> & Hl2 & Hin);
    cbn [vm_start vm_end]; auto; [lia|].
  simpl. intros [= <- <-]. rewrite (VMRange_size_wf _ Hr). cbn [vm_start vm_end].
  split_and!; auto; [lia|lia|]. intros x Hx. exists fr.
  split; [by apply list_elem_of_lookup_2 with i|vmrange_unfold; lia].
Qed.

(** The loop never indexes out of range, so the update after it succeeds. *)
Lemma alloc_of_loop l size align addr :
  free_ok l -> request_ok size align addr -> addr_aligned addr align = true ->
  match find_loop size align addr l 0 None with
  | Ok (Some (r, _)) => exists l', find_free_range_internal l size align addr = Ok (r, l')
  | Ok None => find_free_range_internal l size align addr = Err ENOMEM
  | Err e => find_free_range_internal l size align addr = Err e
  | Panic => find_free_range_internal l size align addr = Panic
  end.
Proof.
  intros Hl Hreq Hal. unfold find_free_range_internal. rewrite Hal. simpl.
  destruct (find_loop size align addr l 0 None) as [[[r i]|]| |] eqn:Hf; simpl; try done.
  destruct (find_loop_sound l size align addr r i) as (fr & a & Hi & (H1 & H2 & _) & _ & ->); auto.
  unfold free_list_update_range. rewrite Hi. simpl.
  destruct (VMRange_subtract fr _) as [|? [|? [|]]]; simpl; eauto.
Qed.

Lemma fits_block_free l fr size align a :
  fr ∈ l -> fits fr size align a -> block_free l a size.
Proof. intros Hin (? & ? & _) x Hx. exists fr. split; [done|vmrange_unfold; lia]. Qed.

(** Without an address the lowest place is taken, and [ENOMEM] means there is none. *)
Lemma alloc_any l size align :
  free_ok l -> request_ok size align Any ->
  match find_free_range_internal l size align Any with
  | Ok (r, _) => block_free l (vm_start r) size /\
      forall b, b mod align = 0 -> block_free l b size -> vm_start r <= b
  | Err e => e = ENOMEM /\ forall b, b mod align = 0 -> ~ block_free l b size
  | Panic => False
  end.
Proof.
  intros Hl Hreq. pose proof (alloc_of_loop l size align Any Hl Hreq eq_refl) as Hloop.
  destruct (request_align _ _ _ Hreq) as (k & Hk & Hal). pose proof (proj1 Hreq) as Hs.
  pose proof (proj1 Hl) as Hc.
  destruct (find_any_loop size align k Hs Hk Hal l 0) as (o & Ho & Hfirst);
    [by apply free_ok_limited|]. rewrite Ho in Hloop.
  destruct Hfirst as [Hnone|i fr a Hi Hf Hmin Hfst].
  - rewrite Hloop. split; [done|]. intros b Hb Hfree.
    apply (block_free_holds _ _ _ _ Hc Hs) in Hfree as (fr & Hin & ? & ?).
    apply (Hnone fr b Hin). by split_and!.
  - destruct Hloop as (l' & ->). cbn [vm_start].
    split; [eapply fits_block_free, Hf; by eapply list_elem_of_lookup_2|]. intros b Hb Hfree.
    apply (block_free_holds _ _ _ _ Hc Hs) in Hfree as (fr' & Hin & Hb1 & Hb2).
    apply list_elem_of_lookup in Hin as [j Hj].
    assert (Hfb : fits fr' size align b) by by split_and!.
    destruct (Nat.lt_trichotomy j i) as [Hji|[->|Hij]].
    + exfalso. by apply (Hfst j fr' b).
    + simplify_eq. by apply Hmin.
    + pose proof (coalesced_lookup_lt _ _ _ _ _ _ Hc Hi Hj Hij). destruct Hf. lia.
Qed.

Lemma alloc_need l size align a :
  free_ok l -> request_ok size align (Need a) -> a mod align = 0 ->
  (block_free l a size /\
     exists l', find_free_range_internal l size align (Need a) = Ok (mkVMRange a (a + size), l'))
  \/ (~ block_free l a size /\ find_free_range_internal l size align (Need a) = Err ENOMEM).
Proof.
  intros Hl Hreq Ha. pose proof (alloc_of_loop l size align (Need a) Hl Hreq) as Hloop.
  destruct (request_align _ _ _ Hreq) as (k & Hk & Hal). pose proof (proj1 Hreq) as Hs.
  pose proof Hl as (Hc & Hw & _). specialize (Hloop ltac:(simpl; lia)).
  rewrite (block_free_holds _ _ _ _ Hc Hs).
  destruct (find_need_loop size align k Hs Hk a l (-1) 0)
    as [(i & fr & Hi & Hh & Hf)|[Hno Hf]]; [apply Hreq|done|done| |].
  - left. rewrite Hf in Hloop. split; [|done]. exists fr.
    split; [by eapply list_elem_of_lookup_2|done].
  - right. split; [intros (fr & ? & ?); by eapply Hno|]. by destruct Hf as [Hf|Hf]; rewrite Hf in Hloop.
Qed.

Lemma alloc_free_inverse l size align addr r l' :
  free_ok l -> request_ok size align addr ->
  find_free_range_internal l size align addr = Ok (r, l') ->
  add_range_back_to_free_manager l' r = l /\ ranges_size l = size + ranges_size l'.
Proof.
  intros Hl Hreq Hf.
  destruct (alloc_sound _ _ _ _ _ _ Hl Hreq Hf) as (Hr & Hsz & He & Hlim & _ & Hsub & Hl' & Hin).
  pose proof (proj1 Hreq) as Hs.
  destruct (add_back_spec l' r) as (Hc & Hlm & Hin' & Hsum); auto; [lia| |].
  { intros a Ha Hal. by apply Hin in Hal as [_ ?]. }
  assert (Heq : add_range_back_to_free_manager l' r = l).
  { eapply coalesced_canonical; [exact Hc|apply Hl|]. intros a. rewrite Hin', Hin.
    assert (a ∈ r \/ ~ a ∈ r) by (vmrange_unfold; lia). specialize (Hsub a). tauto. }
  rewrite Heq, Hsz in Hsum. done.
Qed.

(** * Theorems *)

(** What an allocation promises in terms of the set of free addresses only. *)
Definition fit_at (free : Z -> Prop) (size align b : Z) : Prop :=
  b mod align = 0 /\ forall x, b <= x < b + size -> free x.

Definition alloc_policy (free : Z -> Prop) (size align : Z) (addr : VMMapAddr) (start : Z) : Prop :=
  match addr with
  | Any => forall b, fit_at free size align b -> start <= b
  | Hint h => (fit_at free size align h -> start = h) /\
              (~ fit_at free size align h -> forall b, fit_at free size align b -> start <= b)
  | Need a | Force a => start = a
  end.

Definition alloc_fails (free : Z -> Prop) (size align : Z) (addr : VMMapAddr) (e : Errno) : Prop :=
  match addr with
  | Any => e = ENOMEM /\ forall b, ~ fit_at free size align b
  | Hint h => if h mod align =? 0 then e = ENOMEM /\ forall b, ~ fit_at free size align b
              else e = EINVAL
  | Need a | Force a => if a mod align =? 0 then e = ENOMEM /\ ~ fit_at free size align a
                        else e = EINVAL
  end.

(** The specification depends on which addresses are free only. *)
#[export] Instance fit_at_proper :
  Proper (pointwise_relation Z iff ==> eq ==> eq ==> eq ==> iff) fit_at.
Proof.
  intros f g Hfg ? size -> ? align -> ? b ->. unfold fit_at.
  split; intros [? H]; (split; [done|]); intros x Hx; apply Hfg, H, Hx.
Qed.

#[export] Instance alloc_policy_proper :
  Proper (pointwise_relation Z iff ==> eq ==> eq ==> eq ==> eq ==> iff) alloc_policy.
Proof.
  intros f g Hfg ? size -> ? align -> ? addr -> ? start ->. unfold alloc_policy.
  destruct addr; try done; by setoid_rewrite Hfg.
Qed.

#[export] Instance alloc_fails_proper :
  Proper (pointwise_relation Z iff ==> eq ==> eq ==> eq ==> eq ==> iff) alloc_fails.
Proof.
  intros f g Hfg ? size -> ? align -> ? addr -> ? e ->. unfold alloc_fails.
  destruct addr; try case_match; try done; setoid_rewrite Hfg; done.
Qed.

Lemma alloc_force_eq l size align a :
  find_free_range_internal l size align (Force a) = find_free_range_internal l size align (Need a).
Proof. unfold find_free_range_internal. simpl. by rewrite find_force_loop. Qed.

Lemma alloc_unaligned l size align addr :
  addr_aligned addr align = false -> find_free_range_internal l size align addr = Err EINVAL.
Proof. intros Hal. unfold find_free_range_internal. by rewrite Hal. Qed.

Lemma alloc_hint l size align h :
  free_ok l -> request_ok size align (Hint h) -> h mod align = 0 ->
  (block_free l h size /\
     exists l', find_free_range_internal l size align (Hint h) = Ok (mkVMRange h (h + size), l'))
  \/ (~ block_free l h size /\
      find_free_range_internal l size align (Hint h) = find_free_range_internal l size align Any).
Proof.
  intros Hl Hreq Ha. pose proof (alloc_of_loop l size align (Hint h) Hl Hreq) as Hloop.
  destruct (request_align _ _ _ Hreq) as (k & Hk & Hal). pose proof (proj1 Hreq) as Hs.
  pose proof Hl as (Hc & _). specialize (Hloop ltac:(simpl; lia)).
  rewrite (block_free_holds _ _ _ _ Hc Hs).
  destruct (find_hint_loop size align k Hs Hk Hal h l 0)
    as [(i & fr & Hi & Hh & Hf)|[Hno Hf]]; [apply Hreq|by apply free_ok_limited| |].
  - left. rewrite Hf in Hloop. split; [|done]. exists fr.
    split; [by eapply list_elem_of_lookup_2|done].
  - right. split; [intros (fr & ? & ?); by eapply Hno|].
    unfold find_free_range_internal. simpl. by rewrite Hf, Ha, Z.eqb_refl.
Qed.

Lemma alloc_policy_ok l size align addr r l' :
  free_ok l -> request_ok size align addr ->
  find_free_range_internal l size align addr = Ok (r, l') ->
  alloc_policy (fun a => in_ranges a l) size align addr (vm_start r).
Proof.
  intros Hl Hreq Hf.
  assert (Hreq' : request_ok size align Any) by (destruct Hreq as (? & ? & ? & ? & _); by split_and!).
  assert (Hany : find_free_range_internal l size align Any = Ok (r, l') ->
    forall b, fit_at (fun a => in_ranges a l) size align b -> vm_start r <= b).
  { intros Ha b [? ?]. pose proof (alloc_any l size align Hl Hreq') as Hp. rewrite Ha in Hp.
    by apply Hp. }
  destruct (addr_aligned addr align) eqn:Hal; [|rewrite alloc_unaligned in Hf; done].
  destruct addr as [|h|a|a]; simpl in *; [auto| | |].
  - destruct (alloc_hint l size align h) as [[Hb (l2 & H)]|[Hb H]]; auto; [lia| |];
      rewrite H in Hf; simplify_eq/=; (split; [|auto; intros []; split; auto; lia]); [done|].
    intros [_ ?]. by exfalso.
  - destruct (alloc_need l size align a) as [[_ (l2 & H)]|[_ H]]; auto; [lia| |];
      rewrite H in Hf; by simplify_eq/=.
  - rewrite alloc_force_eq in Hf.
    destruct (alloc_need l size align a) as [[_ (l2 & H)]|[_ H]]; auto; [lia| |];
      rewrite H in Hf; by simplify_eq/=.
Qed.

Lemma alloc_fails_ok l size align addr :
  free_ok l -> request_ok size align addr ->
  match find_free_range_internal l size align addr with
  | Ok _ => True
  | Err e => alloc_fails (fun a => in_ranges a l) size align addr e
  | Panic => False
  end.
Proof.
  intros Hl Hreq.
  assert (Hreq' : request_ok size align Any) by (destruct Hreq as (? & ? & ? & ? & _); by split_and!).
  pose proof (alloc_any l size align Hl Hreq') as Hany. unfold alloc_fails, fit_at.
  destruct (addr_aligned addr align) eqn:Hal; cycle 1.
  { rewrite alloc_unaligned by done. destruct addr; simpl in *; try done; by rewrite Hal. }
  destruct addr as [|h|a|a]; simpl in Hal; rewrite ?Hal.
  - destruct (find_free_range_internal l size align Any) as [[]| |]; [done| |done].
    split; [apply Hany|]. intros b [? ?]. by apply (proj2 Hany b).
  - destruct (alloc_hint l size align h) as [[_ (l2 & ->)]|[_ ->]]; auto; [lia|].
    destruct (find_free_range_internal l size align Any) as [[]| |]; [done| |done].
    split; [apply Hany|]. intros b [? ?]. by apply (proj2 Hany b).
  - destruct (alloc_need l size align a) as [[_ (l2 & ->)]|[Hb ->]]; auto; [lia|].
    split; [done|]. intros [_ ?]. by apply Hb.
  - rewrite alloc_force_eq.
    destruct (alloc_need l size align a) as [[_ (l2 & ->)]|[Hb ->]]; auto; [lia|].
    split; [done|]. intros [_ ?]. by apply Hb.
Qed.

(** C23: [find_free_range_internal] refines an allocator over the plain set of
    free addresses. On success the range is page-aligned, has the requested size
    and alignment, was entirely free, and exactly its addresses leave the set; the
    list invariant (sorted, coalesced, page-aligned) is kept. The place is the
    lowest one for [Any], the hinted address for [Hint] if it is free and the
    lowest place otherwise, and the given address for [Need] and [Force]. It fails
    only with [EINVAL] for a misaligned address and with [ENOMEM] when no place
    (for [Need]/[Force]: not that place) is free, and it never panics. *)
Theorem find_free_range_refines (l : VMFreeSpaceManager) (size align : Z) (addr : VMMapAddr) :
  free_ok l -> request_ok size align addr ->
  let free a := in_ranges a l in
  match find_free_range_internal l size align addr with
  | Ok (r, l') =>
      VMRange_wf r /\ vm_end r = vm_start r + size /\
      fit_at free size align (vm_start r) /\
      alloc_policy free size align addr (vm_start r) /\
      free_ok l' /\ (forall a, in_ranges a l' <-> free a /\ ~ a ∈ r)
  | Err e => alloc_fails free size align addr e
  | Panic => False
  end.
Proof.
  intros Hl Hreq free. pose proof (alloc_fails_ok l size align addr Hl Hreq) as Hfail.
  destruct (find_free_range_internal l size align addr) as [[r l']| |] eqn:Hf; [|done..].
  pose proof (alloc_policy_ok _ _ _ _ _ _ Hl Hreq Hf).
  destruct (alloc_sound _ _ _ _ _ _ Hl Hreq Hf) as (Hr & _ & He & _ & Hm & Hsub & Hl' & Hin).
  split_and!; auto. split; [done|]. intros x Hx. apply Hsub. vmrange_unfold. lia.
Qed.

(** A free list with a gap at [0x3000, 0x5000). *)
Definition example_free : VMFreeSpaceManager :=
  [mkVMRange 4096 12288; mkVMRange 20480 65536].

Lemma example_free_ok : free_ok example_free.
Proof.
  unfold free_ok, example_free. split_and!; repeat constructor; simpl; try lia; done.
Qed.

Lemma find_free_range_refines_witness :
  find_free_range_internal example_free 16384 8192 Any
    = Ok (mkVMRange 24576 40960,
          [mkVMRange 4096 12288; mkVMRange 20480 24576; mkVMRange 40960 65536])
  /\ alloc_policy (fun a => in_ranges a example_free) 16384 8192 Any 24576.
Proof.
  split; [reflexivity|].
  refine (proj1 (proj2 (proj2 (proj2 (find_free_range_refines example_free 16384 8192 Any _ _))))).
  - exact example_free_ok.
  - unfold request_ok. split_and!; done.
Defined.

(** C24: Putting back a range none of whose addresses is free keeps the list
    invariant (neighbours are merged, so no two ranges touch) and adds exactly
    the addresses of the range to the free set. The accounting of [free_size]
    follows: it grows by the size of the range, with no overflow. *)
Theorem add_range_back_spec (l : VMFreeSpaceManager) (dirty : VMRange) :
  free_ok l -> VMRange_wf dirty -> vm_start dirty < vm_end dirty -> vm_end dirty <= addr_limit ->
  ranges_disjoint dirty l ->
  let l' := add_range_back_to_free_manager l dirty in
  free_ok l' /\ (forall a, in_ranges a l' <-> a ∈ dirty \/ in_ranges a l) /\
  FreeSpace_free_size l' = FreeSpace_free_size l + VMRange_size dirty.
Proof.
  intros Hl Hr Hne Hlim Hd l'. destruct (add_back_spec l dirty) as (Hc & Hlm & Hin & Hsz); auto.
  assert (Hl' : free_ok l') by by split.
  split_and!; [done|done|]. rewrite !free_size_eq by done. fold l' in Hsz. lia.
Qed.

Lemma add_range_back_spec_witness :
  add_range_back_to_free_manager example_free (mkVMRange 12288 20480) = [mkVMRange 4096 65536]
  /\ free_ok (add_range_back_to_free_manager example_free (mkVMRange 12288 20480)).
Proof.
  split; [reflexivity|]. apply (add_range_back_spec example_free (mkVMRange 12288 20480)).
  - exact example_free_ok.
  - constructor; simpl; done.
  - simpl. lia.
  - simpl. unfold addr_limit. lia.
  - intros a Ha. unfold example_free. in_ranges_simpl. vmrange_unfold. lia.
Defined.

(** Freeing what was just allocated is the inverse of the allocation: the
    very same vector comes back, and [free_size] had dropped by exactly the
    size of the request. *)
Theorem alloc_free_roundtrip (l l' : VMFreeSpaceManager) (size align : Z) (addr : VMMapAddr) (r : VMRange) :
  free_ok l -> request_ok size align addr ->
  find_free_range_internal l size align addr = Ok (r, l') ->
  add_range_back_to_free_manager l' r = l /\
  FreeSpace_free_size l' = FreeSpace_free_size l - size.
Proof.
  intros Hl Hreq Hf. destruct (alloc_free_inverse _ _ _ _ _ _ Hl Hreq Hf) as [? Hsz].
  destruct (alloc_sound _ _ _ _ _ _ Hl Hreq Hf) as (_ & _ & _ & _ & _ & _ & Hl' & _).
  split; [done|]. rewrite !free_size_eq by done. lia.
Qed.

Lemma alloc_free_roundtrip_witness :
  add_range_back_to_free_manager [mkVMRange 4096 12288; mkVMRange 24576 65536]
    (mkVMRange 20480 24576) = example_free /\ FreeSpace_free_size
    [mkVMRange 4096 12288; mkVMRange 24576 65536] = FreeSpace_free_size example_free - 4096.
Proof.
  apply (alloc_free_roundtrip example_free _ 4096 4096 (Need 20480)).
  - exact example_free_ok.
  - unfold request_ok. split_and!; done.
  - reflexivity.
Defined.

(** [is_free_range] decides whether every address of a non-empty range is free. *)
Theorem is_free_range_spec (l : VMFreeSpaceManager) (r : VMRange) :
  free_ok l -> vm_start r < vm_end r ->
  FreeSpace_is_free_range l r = true <-> forall a, a ∈ r -> in_ranges a l.
Proof.
  intros (Hc & _) Hne. unfold FreeSpace_is_free_range.
  rewrite existsb_exists. unfold VMRange_is_superset_of.
  pose proof (block_free_holds (-1) l (vm_start r) (vm_end r - vm_start r) Hc ltac:(lia)) as Hb.
  unfold holds, block_free in Hb. split.
  - intros (fr & Hin & Hs) a Ha. exists fr. split; [by apply list_elem_of_In|].
    vmrange_unfold. lia.
  - intros Ha. destruct (proj1 Hb) as (fr & Hin & Hh).
    { intros x Hx. apply Ha. vmrange_unfold. lia. }
    exists fr. split; [by apply list_elem_of_In|lia].
Qed.

Lemma is_free_range_spec_witness :
  FreeSpace_is_free_range example_free (mkVMRange 8192 24576) = false <->
  ~ forall a, a ∈ mkVMRange 8192 24576 -> in_ranges a example_free.
Proof.
  rewrite <- (is_free_range_spec example_free (mkVMRange 8192 24576) example_free_ok).
  - vm_compute. split; [intros _ [=]|done].
  - simpl. lia.
Defined.
