(* ===== verification/VMRemap.v ===== *)
(** [mremap]: the request types of [src/libos/src/vm/vm_util.rs] and
    [process_vm.rs], [VMRemapParser::parse], and the part of
    [VMManager::mremap] that carries the parsed request out.

    A [mremap] becomes one optional [mmap] followed by one optional [munmap]. The
    theorems show that the two together turn the old range into the new one, on
    every combination of flags and sizes, and what the copied bytes are. *)

From stdpp Require Import base list.
From S2P Require Import Prelude Errno VMRange VMMapOptions.

(** * Requests *)

Inductive VMRemapSizeType := Same | Shrinking | Growing.

Definition VMRemapSizeType_new (old_size new_size : Z) : VMRemapSizeType :=
  if new_size =? old_size then Same
  else if new_size <? old_size then Shrinking
  else Growing.

Inductive MRemapFlags :=
| RemapNone
| MayMove
| FixedAddr (new_addr : Z).

Definition MRemapFlags_from_raw (raw_flags new_addr : Z) : Result MRemapFlags :=
  if raw_flags =? 0 then Ok RemapNone
  else if raw_flags =? 1 then Ok MayMove
  else if raw_flags =? 3 then Ok (FixedAddr new_addr)
  else Err EINVAL.

Definition MRemapFlags_new_addr (self : MRemapFlags) : option Z :=
  match self with FixedAddr new_addr => Some new_addr | _ => None end.

Record VMRemapOptions := mkVMRemapOptions {
  ro_old_addr : Z;
  ro_old_size : Z;
  ro_new_size : Z;
  ro_flags : MRemapFlags;
}.

Definition VMRemapOptions_new (old_addr old_size new_size : Z) (flags : MRemapFlags)
    : Result VMRemapOptions :=
  if negb (old_addr mod PAGE_SIZE =? 0) then Err EINVAL
  else if old_size =? 0 then Err EINVAL
  else
    let old_size := align_up old_size PAGE_SIZE in
    if match MRemapFlags_new_addr flags with
       | Some new_addr => negb (new_addr mod PAGE_SIZE =? 0)
       | None => false
       end
    then Err EINVAL
    else if new_size =? 0 then Err EINVAL
    else
      let new_size := align_up new_size PAGE_SIZE in
      Ok (mkVMRemapOptions old_addr old_size new_size flags).

Record VMRemapResult := mkVMRemapResult {
  rr_mmap_options : option VMMapOptions;
  rr_mmap_result_addr : option Z;
  rr_munmap_args : option (Z * Z);
  rr_may_move : bool;
}.

(** The fields of a [VMArea] that [parse] reads. *)
Record RemapVma := mkRemapVma {
  rv_range : VMRange;
  rv_perms : VMPerms;
  rv_file_backed : option FileBacked;
}.

(** [VMArea::writeback_file] *)
Definition RemapVma_writeback_file (self : RemapVma) : option (FileRef * Z) :=
  match rv_file_backed self with
  | Some file => FileBacked_writeback_file file
  | None => None
  end.

(** * Parsing *)

(** [VMMapOptionsBuilder::default().size(..).addr(..).perms(..).initializer(..).build()] *)
Definition remap_mmap (size : Z) (addr : VMMapAddr) (perms : VMPerms) (initializer : VMInitializer)
    : Result VMMapOptions :=
  VMMapOptionsBuilder_build
    (mkBuilder (Some size) None (Some perms) (Some addr) (Some initializer) None).

(** The initializer of a moved file-backed mapping. *)
Definition remap_copy_and_read (vma : RemapVma) (old_range : VMRange) (backed_file : FileRef)
    (offset : Z) : Result VMInitializer :=
  let copy_end := vm_end (rv_range vma) in
  copy_range ← VMRange_new (vm_start old_range) copy_end;
  let reread_file_start_offset := copy_end -64 vm_start (rv_range vma) in
  let new_writeback_file := mkFileBacked backed_file offset true in
  Ok (CopyOldAndReadNew copy_range backed_file reread_file_start_offset new_writeback_file).

Section parse.
(** [VMRemapParser::is_free_range] of the manager that parses. *)
Variable is_free_range : VMRange -> bool.

(** [(need_mmap, ret_addr)] *)
Definition parse_mmap (flags : MRemapFlags) (size_type : VMRemapSizeType)
    (old_addr old_size new_size : Z) (old_range : VMRange) (vma : RemapVma)
    : Result (option VMMapOptions * option Z) :=
  let perms := rv_perms vma in
  match flags, size_type, RemapVma_writeback_file vma with
  | RemapNone, Growing, None =>
      mmap_opts ← remap_mmap (new_size -64 old_size) (Need (vm_end old_range)) perms DoNothing;
      Ok (Some mmap_opts, Some old_addr)
  | RemapNone, Growing, Some (backed_file, offset) =>
      let initializer :=
        InitFileBacked (mkFileBacked backed_file (offset +64 VMRange_size (rv_range vma)) true) in
      mmap_opts ← remap_mmap (new_size -64 old_size) (Need (vm_end old_range)) perms initializer;
      Ok (Some mmap_opts, Some old_addr)
  | MayMove, Growing, None =>
      preferred_new_range ← VMRange_new_with_size (old_addr +64 old_size) (new_size -64 old_size);
      if is_free_range preferred_new_range then
        mmap_ops ← remap_mmap (VMRange_size preferred_new_range)
                              (Need (vm_start preferred_new_range)) perms DoNothing;
        Ok (Some mmap_ops, Some old_addr)
      else
        mmap_ops ← remap_mmap new_size Any perms (CopyFrom old_range);
        Ok (Some mmap_ops, None)
  | MayMove, Growing, Some (backed_file, offset) =>
      preferred_new_range ← VMRange_new_with_size (old_addr +64 old_size) (new_size -64 old_size);
      if is_free_range preferred_new_range then
        let initializer :=
          InitFileBacked (mkFileBacked backed_file (offset +64 VMRange_size (rv_range vma)) true) in
        mmap_ops ← remap_mmap (VMRange_size preferred_new_range)
                              (Need (vm_start preferred_new_range)) perms initializer;
        Ok (Some mmap_ops, Some old_addr)
      else
        initializer ← remap_copy_and_read vma old_range backed_file offset;
        mmap_ops ← remap_mmap new_size Any perms initializer;
        Ok (Some mmap_ops, None)
  | FixedAddr new_addr, _, None =>
      mmap_opts ← remap_mmap new_size (Force new_addr) perms (CopyFrom old_range);
      Ok (Some mmap_opts, Some new_addr)
  | FixedAddr new_addr, _, Some (backed_file, offset) =>
      initializer ← remap_copy_and_read vma old_range backed_file offset;
      mmap_opts ← remap_mmap new_size (Force new_addr) perms initializer;
      Ok (Some mmap_opts, Some new_addr)
  | _, _, _ => Ok (None, Some old_addr)
  end.

(** [need_munmap] *)
Definition parse_munmap (flags : MRemapFlags) (size_type : VMRemapSizeType)
    (old_addr old_size new_size : Z) (old_range : VMRange) (ret_addr : option Z)
    : Result (option (Z * Z)) :=
  match flags, size_type with
  | RemapNone, Shrinking | MayMove, Shrinking =>
      Ok (Some (old_addr +64 new_size, old_size -64 new_size))
  | MayMove, Growing =>
      match ret_addr with
      | None => Ok (Some (old_addr, old_size))
      | Some _ => Ok None
      end
  | FixedAddr new_addr, _ =>
      new_range ← VMRange_new_with_size new_addr new_size;
      if VMRange_overlap_with new_range old_range then Err EINVAL
      else Ok (Some (old_addr, old_size))
  | _, _ => Ok None
  end.

Definition VMRemapParser_parse (options : VMRemapOptions) (vma : RemapVma) : Result VMRemapResult :=
  let old_addr := ro_old_addr options in
  let old_size := ro_old_size options in
  old_range ← VMRange_new_with_size old_addr old_size;
  let new_size := ro_new_size options in
  let flags := ro_flags options in
  let size_type := VMRemapSizeType_new old_size new_size in
  if match RemapVma_writeback_file vma with
     | Some _ => negb (bool_decide (old_range = rv_range vma))
     | None => false
     end
  then Err EINVAL
  else
    '(need_mmap, ret_addr) ← parse_mmap flags size_type old_addr old_size new_size old_range vma;
    need_munmap ← parse_munmap flags size_type old_addr old_size new_size old_range ret_addr;
    let may_move := match flags with MayMove => true | _ => false end in
    Ok (mkVMRemapResult need_mmap ret_addr need_munmap may_move).
End parse.

(** * Carrying the request out *)

Section apply.
Context {St : Type}.
(** [VMManager::mmap] and [VMManager::munmap] on the state of the manager. *)
Variable mmap : VMMapOptions -> St -> Result Z * St.
Variable munmap : Z -> Z -> St -> Result unit * St.

(** The [munmap] that follows, with [expect]. *)
Definition mremap_munmap (res : VMRemapResult) (ret_addr : Z) (s : St) : Result Z * St :=
  match rr_munmap_args res with
  | Some (munmap_addr, munmap_size) =>
      let (r, s) := munmap munmap_addr munmap_size s in
      (_ ← unwrap_result r; Ok ret_addr, s)
  | None => (Ok ret_addr, s)
  end.

(** [VMManager::mremap] from the parsed request on. *)
Definition mremap_apply (old_addr : Z) (res : VMRemapResult) (s : St) : Result Z * St :=
  match rr_mmap_options res with
  | Some mmap_options =>
      let (mmap_addr, s) := mmap mmap_options s in
      match mmap_addr, rr_may_move res with
      | Err _, true => (Err EAGAIN, s)
      | Panic, _ => (Panic, s)
      | _, _ =>
          match rr_mmap_result_addr res with
          | None =>
              match unwrap_result mmap_addr with
              | Ok ret_addr => mremap_munmap res ret_addr s
              | Err e => (Err e, s)
              | Panic => (Panic, s)
              end
          | Some ret_addr => mremap_munmap res ret_addr s
          end
      end
  | None => mremap_munmap res old_addr s
  end.
End apply.

(** * Lemmas *)

Lemma VMRange_new_with_size_Ok start size r :
  is_u64 start -> is_u64 size -> VMRange_new_with_size start size = Ok r ->
  r = mkVMRange start (start + size) /\ start + size < u64_modulus.
Proof.
  intros ? ?. unfold VMRange_new_with_size, checked_add64, VMRange_new.
  destruct (start + size <? u64_modulus) eqn:?; simpl; [|done].
  case_if; [done|]. intros [= <-]. split; [done|lia].
Qed.

Lemma align_up_page_id x : is_u64 x -> page_aligned x -> align_up x PAGE_SIZE = x.
Proof.
  intros [? ?] Hx. unfold page_aligned in Hx.
  assert (x + PAGE_SIZE <= u64_modulus).
  { apply multiple_gap; try done. }
  destruct (align_up_page_spec x) as [Hal Hr]; [lia|lia|]. unfold page_aligned in Hal.
  destruct (decide (align_up x PAGE_SIZE = x)) as [|Hne]; [done|].
  pose proof (multiple_gap PAGE_SIZE x (align_up x PAGE_SIZE) eq_refl Hx Hal ltac:(lia)). lia.
Qed.

Lemma remap_mmap_Ok size addr perms initializer o :
  remap_mmap size addr perms initializer = Ok o -> is_u64 size -> page_aligned size ->
  (forall h, addr <> Hint h) ->
  opt_size o = size /\ opt_addr o = addr /\ opt_initializer o = initializer /\ opt_perms o = perms.
Proof.
  intros Hb Hu Hp Hh. unfold remap_mmap, VMMapOptionsBuilder_build in Hb. simpl in Hb.
  rewrite align_up_page_id in Hb by done.
  case_in Hb. destruct addr as [|h|a|a]; simpl in Hb; [|by destruct (Hh h)| |];
    try case_in Hb; by simplify_eq/=.
Qed.

Lemma page_aligned_sub x y : page_aligned x -> page_aligned y -> page_aligned (x - y).
Proof.
  unfold page_aligned. intros Hx Hy. by rewrite Zminus_mod, Hx, Hy.
Qed.

(** A request as [VMRemapOptions::new] builds it. *)
Record remap_ok (o : VMRemapOptions) : Prop := {
  ro_addr_u64 : is_u64 (ro_old_addr o);
  ro_addr_aligned : page_aligned (ro_old_addr o);
  ro_old_pos : 0 < ro_old_size o < u64_modulus;
  ro_old_aligned : page_aligned (ro_old_size o);
  ro_new_pos : 0 < ro_new_size o < u64_modulus;
  ro_new_aligned : page_aligned (ro_new_size o);
  ro_fixed : match ro_flags o with
             | FixedAddr a => is_u64 a /\ page_aligned a
             | _ => True
             end;
}.

Definition flags_u64 (flags : MRemapFlags) : Prop :=
  match flags with FixedAddr a => is_u64 a | _ => True end.

Lemma VMRemapOptions_new_ok old_addr old_size new_size flags o :
  is_u64 old_addr -> 0 <= old_size -> old_size + PAGE_SIZE <= u64_modulus ->
  0 <= new_size -> new_size + PAGE_SIZE <= u64_modulus -> flags_u64 flags ->
  VMRemapOptions_new old_addr old_size new_size flags = Ok o -> remap_ok o.
Proof.
  intros Ha Ho Ho' Hn Hn' Hf Hnew. unfold VMRemapOptions_new in Hnew.
  destruct (old_addr mod PAGE_SIZE =? 0) eqn:Hal; simpl in Hnew; [|done].
  destruct (old_size =? 0) eqn:Hos; [done|].
  match type of Hnew with (if ?b then _ else _) = _ => destruct b eqn:Hfa; [done|] end.
  destruct (new_size =? 0) eqn:Hns; [done|]. injection Hnew as <-.
  destruct (align_up_page_spec old_size Ho Ho') as [? ?].
  destruct (align_up_page_spec new_size Hn Hn') as [? ?].
  unfold PAGE_SIZE in *. constructor; simpl; unfold page_aligned, PAGE_SIZE; try done; try lia.
  destruct flags; simpl in *; [done..|]. boolprop. by split.
Qed.

(** The shapes of the [mmap] half. *)
Inductive mmap_plan (o : VMRemapOptions) : option VMMapOptions -> option Z -> Prop :=
| plan_keep :
    (forall a, ro_flags o <> FixedAddr a) -> ro_new_size o <= ro_old_size o ->
    mmap_plan o None (Some (ro_old_addr o))
| plan_extend opts :
    (forall a, ro_flags o <> FixedAddr a) -> ro_old_size o < ro_new_size o ->
    opt_addr opts = Need (ro_old_addr o + ro_old_size o) ->
    opt_size opts = ro_new_size o - ro_old_size o ->
    mmap_plan o (Some opts) (Some (ro_old_addr o))
| plan_move opts :
    ro_flags o = MayMove -> ro_old_size o < ro_new_size o ->
    opt_addr opts = Any -> opt_size opts = ro_new_size o ->
    mmap_plan o (Some opts) None
| plan_fixed opts a :
    ro_flags o = FixedAddr a -> opt_addr opts = Force a -> opt_size opts = ro_new_size o ->
    mmap_plan o (Some opts) (Some a).

Lemma size_type_cases old_size new_size :
  match VMRemapSizeType_new old_size new_size with
  | Same => new_size = old_size
  | Shrinking => new_size < old_size
  | Growing => old_size < new_size
  end.
Proof. unfold VMRemapSizeType_new. repeat case_if; lia. Qed.

Lemma parse_mmap_plan is_free o vma old_range m ret :
  remap_ok o -> old_range = mkVMRange (ro_old_addr o) (ro_old_addr o + ro_old_size o) ->
  ro_old_addr o + ro_old_size o < u64_modulus ->
  parse_mmap is_free (ro_flags o) (VMRemapSizeType_new (ro_old_size o) (ro_new_size o))
    (ro_old_addr o) (ro_old_size o) (ro_new_size o) old_range vma = Ok (m, ret) ->
  mmap_plan o m ret.
Proof.
  intros Ho -> Hlt Hp. pose proof (size_type_cases (ro_old_size o) (ro_new_size o)) as Hst.
  destruct Ho as [[Ha1 Ha2] Haa [Ho1 Ho2] Hoa [Hn1 Hn2] Hna Hfix].
  unfold parse_mmap in Hp.
  destruct (ro_flags o) as [| |a] eqn:Hfl,
    (VMRemapSizeType_new (ro_old_size o) (ro_new_size o)) eqn:Hty;
    try (injection Hp as <- <-; apply plan_keep; [by rewrite Hfl|lia]);
    destruct (RemapVma_writeback_file vma) as [[f off]|]; res_inv Hp; simplify_eq/=;
    repeat match goal with
    | H : VMRange_new_with_size _ _ = Ok _ |- _ =>
        rewrite add64_small, sub64_small in H by lia;
        apply VMRange_new_with_size_Ok in H as [-> ?]; [|unfold is_u64; lia..];
        case_in Hp; res_inv Hp; simplify_eq/=
    end;
    repeat match goal with
    | H : remap_mmap _ _ _ _ = Ok _ |- _ =>
        unfold VMRange_size in H; cbn [vm_start vm_end] in H;
        rewrite ?sub64_add_l, ?sub64_small in H by (unfold is_u64; lia);
        apply remap_mmap_Ok in H as (? & ? & _ & _);
          [|unfold is_u64; lia|try done; try (by apply page_aligned_sub)|done]
    end.
  all: (apply plan_extend || apply plan_move || (eapply plan_fixed));
    try done; try lia; by rewrite Hfl.
Qed.

(** What the two halves map and unmap; [chosen] is where [mmap] puts a mapping
    without an address. *)
Definition mmap_range (m : option VMMapOptions) (chosen : Z) : VMRange :=
  match m with
  | None => mkVMRange 0 0
  | Some opts =>
      let a := match opt_addr opts with Any => chosen | Hint a | Need a | Force a => a end in
      mkVMRange a (a + opt_size opts)
  end.

Definition munmap_range (args : option (Z * Z)) : VMRange :=
  match args with
  | None => mkVMRange 0 0
  | Some (addr, size) => mkVMRange addr (addr + size)
  end.

Lemma parse_inv is_free o vma res :
  remap_ok o -> VMRemapParser_parse is_free o vma = Ok res ->
  let old_range := mkVMRange (ro_old_addr o) (ro_old_addr o + ro_old_size o) in
  let ty := VMRemapSizeType_new (ro_old_size o) (ro_new_size o) in
  ro_old_addr o + ro_old_size o < u64_modulus /\
  (RemapVma_writeback_file vma <> None -> rv_range vma = old_range) /\
  parse_mmap is_free (ro_flags o) ty (ro_old_addr o) (ro_old_size o) (ro_new_size o) old_range vma
    = Ok (rr_mmap_options res, rr_mmap_result_addr res) /\
  parse_munmap (ro_flags o) ty (ro_old_addr o) (ro_old_size o) (ro_new_size o) old_range
    (rr_mmap_result_addr res) = Ok (rr_munmap_args res) /\
  rr_may_move res = (match ro_flags o with MayMove => true | _ => false end).
Proof.
  intros Ho Hp. unfold VMRemapParser_parse in Hp. apply bind_Ok in Hp as (r & Hr & Hp).
  apply VMRange_new_with_size_Ok in Hr as [-> Hlt]; [|apply Ho|destruct Ho; unfold is_u64; lia].
  match type of Hp with (if ?b then _ else _) = _ => destruct b eqn:Hw; [done|] end.
  res_inv Hp. destruct x as [m ret]. apply bind_Ok in Hp as (args & Hargs & Hp). injection Hp as <-.
  simpl. split_and!; auto. destruct (RemapVma_writeback_file vma); [|done]. intros _.
  apply negb_false_iff, bool_decide_eq_true in Hw. by rewrite Hw.
Qed.

(** What is mapped afterwards is the new range, and the old range is not
    overwritten before it is copied. *)
Lemma remap_plan_ranges is_free o vma res chosen :
  remap_ok o -> VMRemapParser_parse is_free o vma = Ok res ->
  (rr_mmap_result_addr res = None ->
   chosen + ro_new_size o <= ro_old_addr o \/ ro_old_addr o + ro_old_size o <= chosen) ->
  let old := mkVMRange (ro_old_addr o) (ro_old_addr o + ro_old_size o) in
  let new_addr := default chosen (rr_mmap_result_addr res) in
  let new := mkVMRange new_addr (new_addr + ro_new_size o) in
  forall a, ((a ∈ old \/ a ∈ mmap_range (rr_mmap_options res) chosen)
              /\ ~ a ∈ munmap_range (rr_munmap_args res) <-> a ∈ new)
            /\ ~ (a ∈ old /\ a ∈ mmap_range (rr_mmap_options res) chosen).
Proof.
  intros Ho Hp Hch old new_addr new a.
  destruct (parse_inv _ _ _ _ Ho Hp) as (Hlt & _ & Hm & Hu & _).
  apply parse_mmap_plan in Hm; [|done..].
  pose proof (size_type_cases (ro_old_size o) (ro_new_size o)) as Hst.
  destruct Ho as [[Ha1 Ha2] _ [Ho1 Ho2] _ [Hn1 Hn2] _ Hfix].
  unfold parse_munmap in Hu. subst old new new_addr.
  destruct Hm as [Hnf Hle|opts Hnf Hlt' Had Hsz|opts Hfl Hlt' Had Hsz|opts na Hfl Had Hsz];
    unfold mmap_range; rewrite ?Had, ?Hsz.
  - destruct (ro_flags o) as [| |na]; [| |by destruct (Hnf na)];
      destruct (VMRemapSizeType_new (ro_old_size o) (ro_new_size o)); try lia;
      injection Hu as <-; rewrite ?add64_small, ?sub64_small by lia;
      unfold munmap_range; vmrange_unfold; cbn [default from_option id]; lia.
  - destruct (ro_flags o) as [| |na]; [| |by destruct (Hnf na)];
      destruct (VMRemapSizeType_new (ro_old_size o) (ro_new_size o)); try lia;
      injection Hu as <-; unfold munmap_range; vmrange_unfold; simpl; lia.
  - rewrite Hfl in Hu. destruct (VMRemapSizeType_new (ro_old_size o) (ro_new_size o)); try lia.
    injection Hu as <-. specialize (Hch eq_refl). unfold munmap_range. vmrange_unfold. simpl. lia.
  - rewrite Hfl in Hu, Hfix. apply bind_Ok in Hu as (nr & Hnr & Hu).
    apply VMRange_new_with_size_Ok in Hnr as [-> ?]; [|apply Hfix|unfold is_u64; lia].
    unfold VMRange_overlap_with in Hu. cbn [vm_start vm_end] in Hu.
    destruct (_ <? _) eqn:Hov; [done|]. injection Hu as <-.
    unfold munmap_range. vmrange_unfold. simpl. lia.
Qed.

Lemma remap_mmap_err size addr perms initializer :
  match remap_mmap size addr perms initializer with
  | Ok _ => True | Err e => e = EINVAL | Panic => False end.
Proof.
  unfold remap_mmap, VMMapOptionsBuilder_build. simpl. case_if; [done|].
  destruct addr; simpl; repeat case_if; done.
Qed.

Lemma new_with_size_err start size :
  match VMRange_new_with_size start size with
  | Ok _ => True | Err e => e = EINVAL | Panic => False end.
Proof.
  unfold VMRange_new_with_size, checked_add64, VMRange_new.
  case_if; simpl; [case_if|]; done.
Qed.

(** Sequencing steps whose only error is [EINVAL]. *)
Definition only_einval {A} (r : Result A) : Prop :=
  match r with Ok _ => True | Err e => e = EINVAL | Panic => False end.

Lemma only_einval_bind {A B} (r : Result A) (f : A -> Result B) :
  only_einval r -> (forall a, only_einval (f a)) -> only_einval (r ≫= f).
Proof. destruct r; simpl; auto. Qed.

Lemma parse_only_einval is_free o vma : only_einval (VMRemapParser_parse is_free o vma).
Proof.
  assert (Hcr : forall r f off, only_einval (remap_copy_and_read vma r f off)).
  { intros. unfold remap_copy_and_read, VMRange_new. by case_if. }
  unfold VMRemapParser_parse. apply only_einval_bind; [apply new_with_size_err|]. intros old_range.
  generalize (VMRemapSizeType_new (ro_old_size o) (ro_new_size o)) as ty. intros ty.
  match goal with |- only_einval (if ?b then _ else _) => destruct b; [done|] end.
  apply only_einval_bind.
  - unfold parse_mmap. destruct (ro_flags o), ty, (RemapVma_writeback_file vma) as [[]|];
      repeat first [done | apply remap_mmap_err | apply new_with_size_err | apply Hcr
                   | intros ? | apply only_einval_bind | case_if].
  - intros [m ret]. apply only_einval_bind; [|done].
    unfold parse_munmap. destruct (ro_flags o), ty, ret; try done;
      (apply only_einval_bind; [apply new_with_size_err|intros ?; by case_if]).
Qed.

(** C31: [mremap] is one [mmap] followed by one [munmap], and together they turn
    the old range into the new one. For every flag and every change of size, what
    is mapped after both steps, among the old range and what [mmap] added, is
    exactly the [new_size] bytes from the returned address; the [mmap] never
    touches the old range, whose bytes are still to be copied. A refused request
    is [EINVAL], nothing panics. *)
Theorem mremap_parse_spec (is_free : VMRange -> bool) (old_addr old_size new_size : Z)
    (flags : MRemapFlags) (o : VMRemapOptions) (vma : RemapVma) (chosen : Z) :
  is_u64 old_addr -> 0 <= old_size -> old_size + PAGE_SIZE <= u64_modulus ->
  0 <= new_size -> new_size + PAGE_SIZE <= u64_modulus -> flags_u64 flags ->
  VMRemapOptions_new old_addr old_size new_size flags = Ok o ->
  match VMRemapParser_parse is_free o vma with
  | Ok res =>
      let old := mkVMRange old_addr (old_addr + ro_old_size o) in
      let mapped := mmap_range (rr_mmap_options res) chosen in
      let unmapped := munmap_range (rr_munmap_args res) in
      let new_addr := default chosen (rr_mmap_result_addr res) in
      (* [mmap] without an address finds a place outside of what is mapped *)
      (rr_mmap_result_addr res = None ->
       chosen + ro_new_size o <= old_addr \/ old_addr + ro_old_size o <= chosen) ->
      forall a,
        ((a ∈ old \/ a ∈ mapped) /\ ~ a ∈ unmapped
          <-> a ∈ mkVMRange new_addr (new_addr + ro_new_size o))
        /\ ~ (a ∈ old /\ a ∈ mapped)
  | Err e => e = EINVAL
  | Panic => False
  end.
Proof.
  intros Ha Ho Ho' Hn Hn' Hf Hnew.
  assert (Hok : remap_ok o) by by eapply VMRemapOptions_new_ok; [..|exact Hnew].
  assert (Hoa : ro_old_addr o = old_addr).
  { unfold VMRemapOptions_new in Hnew. repeat (case_in Hnew; try done). }
  pose proof (parse_only_einval is_free o vma) as He.
  destruct (VMRemapParser_parse is_free o vma) as [res| |] eqn:Hp; [|done..].
  simpl. intros Hch a. rewrite <- Hoa in *. by eapply remap_plan_ranges.
Qed.

(** A three-page anonymous mapping at [0x10000]. *)
Definition example_vma : RemapVma := mkRemapVma (mkVMRange 65536 77824) VMPerms_DEFAULT None.

Lemma mremap_parse_spec_witness :
  exists o res,
    VMRemapOptions_new 65536 12288 20000 MayMove = Ok o /\
    VMRemapParser_parse (fun _ => false) o example_vma = Ok res /\
    rr_mmap_result_addr res = None /\
    forall a, (a ∈ mkVMRange 65536 77824 \/ a ∈ mmap_range (rr_mmap_options res) 131072)
      /\ ~ a ∈ munmap_range (rr_munmap_args res) <-> a ∈ mkVMRange 131072 151552.
Proof.
  eexists _, _. split; [reflexivity|]. split; [vm_compute; reflexivity|]. split; [reflexivity|].
  intros a.
  refine (proj1 (mremap_parse_spec (fun _ => false) 65536 12288 20000 MayMove _ example_vma 131072
    _ _ _ _ _ _ eq_refl _ a)); try (vm_compute; done); try (unfold64; unfold PAGE_SIZE; lia).
  intros _. right. vm_compute. done.
Defined.

(** Whether the mapping ends up at another address. *)
Definition remap_moved (o : VMRemapOptions) (res : VMRemapResult) : bool :=
  negb (bool_decide (rr_mmap_result_addr res = Some (ro_old_addr o))).

(** A fixed target overlaps the old range when it is the old address. *)
Lemma fixed_not_old is_free o vma res a :
  remap_ok o -> VMRemapParser_parse is_free o vma = Ok res -> ro_flags o = FixedAddr a ->
  a <> ro_old_addr o.
Proof.
  intros Ho Hp Hfl ->. destruct (parse_inv _ _ _ _ Ho Hp) as (_ & _ & _ & Hu & _).
  rewrite Hfl in Hu. destruct Ho as [Ha _ Hos _ Hns _ _]. simpl in Hu.
  apply bind_Ok in Hu as (nr & Hnr & Hu).
  apply VMRange_new_with_size_Ok in Hnr as [-> ?]; [|done|unfold is_u64; lia].
  unfold VMRange_overlap_with in Hu. cbn [vm_start vm_end] in Hu.
  destruct (_ <? _) eqn:Hov; [done|]. lia.
Qed.

(** The initializer of the mapping that replaces the old one, or extends it. *)
Definition remap_initializer (o : VMRemapOptions) (vma : RemapVma) (moved : bool) : VMInitializer :=
  let old := mkVMRange (ro_old_addr o) (ro_old_addr o + ro_old_size o) in
  match RemapVma_writeback_file vma, moved with
  | None, false => DoNothing
  | None, true => CopyFrom old
  | Some (f, off), false => InitFileBacked (mkFileBacked f (off +64 ro_old_size o) true)
  | Some (f, off), true => CopyOldAndReadNew old f (ro_old_size o) (mkFileBacked f off true)
  end.

Lemma remap_mmap_init size addr perms initializer o :
  remap_mmap size addr perms initializer = Ok o -> opt_initializer o = initializer.
Proof.
  unfold remap_mmap, VMMapOptionsBuilder_build. simpl. intros Hb.
  case_in Hb. destruct addr; simpl in Hb; try case_in Hb; by simplify_eq/=.
Qed.

Lemma remap_copy_and_read_Ok vma a size f off i :
  rv_range vma = mkVMRange a (a + size) -> is_u64 size ->
  remap_copy_and_read vma (rv_range vma) f off = Ok i ->
  i = CopyOldAndReadNew (mkVMRange a (a + size)) f size (mkFileBacked f off true).
Proof.
  intros Hr Hs. unfold remap_copy_and_read, VMRange_new. rewrite Hr. cbn [vm_start vm_end].
  rewrite sub64_add_l by done. case_if; [done|]. by intros [= <-].
Qed.

Lemma parse_initializer is_free o vma res opts :
  remap_ok o -> VMRemapParser_parse is_free o vma = Ok res -> rr_mmap_options res = Some opts ->
  opt_initializer opts = remap_initializer o vma (remap_moved o res).
Proof.
  intros Ho Hp Hopts. pose proof (fun a => fixed_not_old _ _ _ _ a Ho Hp) as Hfix.
  destruct (parse_inv _ _ _ _ Ho Hp) as (Hlt & Hwb & Hm & _ & _). rewrite Hopts in Hm.
  pose proof (size_type_cases (ro_old_size o) (ro_new_size o)) as Hst.
  destruct Ho as [[Ha1 Ha2] Haa [Ho1 Ho2] Hoa [Hn1 Hn2] Hna Hfa].
  unfold parse_mmap in Hm. unfold remap_initializer, remap_moved.
  assert (Hsz : RemapVma_writeback_file vma <> None -> VMRange_size (rv_range vma) = ro_old_size o).
  { intros Hw. rewrite Hwb by done. apply sub64_add_l. unfold is_u64. lia. }
  destruct (RemapVma_writeback_file vma) as [[f off]|];
    [rewrite Hsz in Hm by done; rewrite <- Hwb in * by done|];
  destruct (ro_flags o) as [| |a] eqn:Hfl,
    (VMRemapSizeType_new (ro_old_size o) (ro_new_size o)) eqn:Hty; try done;
    res_inv Hm; try (case_in Hm; res_inv Hm); injection Hm as -> <-.
  all: try (rewrite bool_decide_eq_true_2 by done);
    try (rewrite bool_decide_eq_false_2 by (intros [= ?]; by eapply Hfix)); simpl.
  all: repeat match goal with
    | H : remap_mmap _ _ _ _ = Ok _ |- _ => apply remap_mmap_init in H; rewrite H
    | H : remap_copy_and_read _ _ _ _ = Ok _ |- _ =>
        eapply remap_copy_and_read_Ok in H; [|by apply Hwb|unfold is_u64; lia]
    end; subst; try rewrite Hwb by done; done.
Qed.

(** The bytes of a moved mapping. A moved anonymous mapping starts with the
    old bytes, cut at the new size, and zeros follow. A moved file mapping keeps
    the old bytes, and what follows is read from the file at offset [old_size]:
    the offset at which the file was mapped does not enter, although the part that
    an in-place growth adds is read at [offset + old_size]. The two agree exactly
    when the mapping began at offset zero. *)
Theorem mremap_new_contents (is_free : VMRange -> bool) (o : VMRemapOptions) (vma : RemapVma)
    (res : VMRemapResult) (opts : VMMapOptions)
    (as_slice : VMRange -> list Z) (read_at : FileRef -> Z -> list Z -> Result (nat * list Z))
    (buf : list Z) :
  remap_ok o -> VMRemapParser_parse is_free o vma = Ok res -> rr_mmap_options res = Some opts ->
  let old := mkVMRange (ro_old_addr o) (ro_old_addr o + ro_old_size o) in
  length (as_slice old) = Z.to_nat (ro_old_size o) ->
  match RemapVma_writeback_file vma, remap_moved o res with
  | None, true =>
      length buf = Z.to_nat (ro_new_size o) ->
      VMInitializer_init_slice as_slice read_at (opt_initializer opts) buf
      = Ok (take (Z.to_nat (ro_new_size o)) (as_slice old)
              ++ zeros (Z.to_nat (ro_new_size o) - Z.to_nat (ro_old_size o)))
  | None, false => opt_initializer opts = DoNothing
  | Some (f, off), true =>
      length buf = Z.to_nat (ro_new_size o) -> ro_old_size o <= ro_new_size o ->
      VMInitializer_init_slice as_slice read_at (opt_initializer opts) buf
      = (p ← read_or_eacces read_at f (ro_old_size o) (drop (Z.to_nat (ro_old_size o)) buf);
         rest ← zero_tail p; Ok (as_slice old ++ rest))
  | Some (f, off), false =>
      VMInitializer_init_slice as_slice read_at (opt_initializer opts) buf
      = (p ← read_or_eacces read_at f (off +64 ro_old_size o) buf; zero_tail p)
  end.
Proof.
  intros Ho Hp Hopts old Hlen. rewrite (parse_initializer _ _ _ _ _ Ho Hp Hopts).
  unfold remap_initializer. fold old.
  destruct (RemapVma_writeback_file vma) as [[f off]|], (remap_moved o res); try done;
    intros Hb; simpl; rewrite Hlen.
  - intros Hle. destruct (Nat.ltb_spec (length buf) (Z.to_nat (ro_old_size o))); [lia|done].
  - rewrite Hb. do 2 f_equal.
    + destruct (decide (ro_new_size o <= ro_old_size o)).
      * by rewrite Nat.min_l by lia.
      * rewrite Nat.min_r, !take_ge by (rewrite ?Hlen; lia). done.
    + f_equal. lia.
Qed.

(** One page of a file, mapped at file offset [4096]. *)
Definition example_file_vma : RemapVma :=
  mkRemapVma (mkVMRange 65536 69632) VMPerms_DEFAULT (Some (mkFileBacked 7 4096 true)).

(** A file whose byte at [i] is [i / 4096]. *)
Definition page_number_read_at (_ : FileRef) (offset : Z) (buf : list Z) : Result (nat * list Z) :=
  Ok (length buf, replicate (length buf) (offset / 4096)).

(** Growing it to two pages: the second page should be the file's page 2, and is page 1. *)
Lemma mremap_new_contents_witness :
  exists o res opts,
    VMRemapOptions_new 65536 4096 8192 MayMove = Ok o /\
    VMRemapParser_parse (fun _ => false) o example_file_vma = Ok res /\
    rr_mmap_options res = Some opts /\
    VMInitializer_init_slice (fun _ => replicate (Z.to_nat 4096) 1) page_number_read_at
      (opt_initializer opts) (zeros (Z.to_nat 8192)) = Ok (replicate (Z.to_nat 8192) 1).
Proof.
  do 3 eexists. split; [reflexivity|]. split; [vm_compute; reflexivity|]. split; [reflexivity|].
  etransitivity.
  - refine (mremap_new_contents (fun _ => false) (mkVMRemapOptions 65536 4096 8192 MayMove)
      example_file_vma _ _ _ _ _ _ eq_refl eq_refl _ _ _).
    + constructor; try (unfold64; simpl; lia); done.
    + reflexivity.
    + reflexivity.
    + simpl. lia.
  - vm_compute. reflexivity.
Defined.

(** Moving a shared file mapping to a fixed address while shrinking it
    panics: the initializer copies all of the old range into a buffer that is
    shorter. The parser accepts the request. *)
Theorem mremap_fixed_shrink_panics (is_free : VMRange -> bool) (o : VMRemapOptions) (vma : RemapVma)
    (res : VMRemapResult) (opts : VMMapOptions) (as_slice : VMRange -> list Z)
    (read_at : FileRef -> Z -> list Z -> Result (nat * list Z)) (buf : list Z) (new_addr : Z) :
  remap_ok o -> VMRemapParser_parse is_free o vma = Ok res -> rr_mmap_options res = Some opts ->
  RemapVma_writeback_file vma <> None -> ro_flags o = FixedAddr new_addr ->
  ro_new_size o < ro_old_size o ->
  (forall r, length (as_slice r) = Z.to_nat (vm_end r - vm_start r)) ->
  length buf = Z.to_nat (ro_new_size o) ->
  VMInitializer_init_slice as_slice read_at (opt_initializer opts) buf = Panic.
Proof.
  intros Ho Hp Hopts Hwb Hfl Hlt Hlen Hb. rewrite (parse_initializer _ _ _ _ _ Ho Hp Hopts).
  pose proof (fixed_not_old _ _ _ _ _ Ho Hp Hfl) as Hne.
  destruct (parse_inv _ _ _ _ Ho Hp) as (Hlt' & _ & Hm & _).
  apply parse_mmap_plan in Hm; [|done..].
  assert (Hmv : remap_moved o res = true).
  { unfold remap_moved. destruct Hm as [Hnf|? Hnf| |? ? Hf]; try by destruct (Hnf new_addr).
    - congruence.
    - rewrite Hfl in Hf. injection Hf as <-. rewrite bool_decide_eq_false_2; [done|congruence]. }
  unfold remap_initializer. rewrite Hmv. destruct (RemapVma_writeback_file vma) as [[f off]|]; [|done].
  simpl. rewrite Hlen, Hb. cbn [vm_start vm_end]. destruct Ho as [_ _ ? _ ? _ _].
  destruct (Nat.ltb_spec (Z.to_nat (ro_new_size o))
    (Z.to_nat (ro_old_addr o + ro_old_size o - ro_old_addr o))); [done|lia].
Qed.

Definition example_file_vma2 : RemapVma :=
  mkRemapVma (mkVMRange 65536 73728) VMPerms_DEFAULT (Some (mkFileBacked 7 0 true)).

Lemma mremap_fixed_shrink_panics_witness :
  exists res opts,
    VMRemapParser_parse (fun _ => false)
      (mkVMRemapOptions 65536 8192 4096 (FixedAddr 131072)) example_file_vma2 = Ok res /\
    rr_mmap_options res = Some opts /\
    VMInitializer_init_slice (fun r => zeros (Z.to_nat (vm_end r - vm_start r))) page_number_read_at
      (opt_initializer opts) (zeros (Z.to_nat 4096)) = Panic.
Proof.
  do 2 eexists. split; [vm_compute; reflexivity|]. split; [reflexivity|].
  refine (mremap_fixed_shrink_panics (fun _ => false)
    (mkVMRemapOptions 65536 8192 4096 (FixedAddr 131072)) example_file_vma2 _ _ _ _ _ 131072
    _ eq_refl eq_refl _ eq_refl _ _ _).
  - constructor; try (unfold64; simpl; lia); done.
  - done.
  - simpl. lia.
  - intros r. apply length_zeros.
  - apply length_zeros.
Defined.

(** How a failing [mmap] is reported. With [MREMAP_MAYMOVE] the error
    becomes [EAGAIN] and nothing is unmapped. Otherwise the error is dropped: an
    in-place growth that found no room returns success with the old address and
    nothing mapped, and a move to a fixed address unmaps the old range and returns
    the new address, where nothing is mapped. *)
Theorem mremap_mmap_failure {St : Type} (mmap : VMMapOptions -> St -> Result Z * St)
    (munmap : Z -> Z -> St -> Result unit * St) (is_free : VMRange -> bool)
    (o : VMRemapOptions) (vma : RemapVma) (res : VMRemapResult) (opts : VMMapOptions)
    (e : Errno) (s s' : St) :
  remap_ok o -> VMRemapParser_parse is_free o vma = Ok res -> rr_mmap_options res = Some opts ->
  mmap opts s = (Err e, s') ->
  mremap_apply mmap munmap (ro_old_addr o) res s =
  match ro_flags o with
  | MayMove => (Err EAGAIN, s')
  | RemapNone => (Ok (ro_old_addr o), s')
  | FixedAddr new_addr =>
      match munmap (ro_old_addr o) (ro_old_size o) s' with
      | (Ok tt, s'') => (Ok new_addr, s'')
      | (_, s'') => (Panic, s'')
      end
  end.
Proof.
  intros Ho Hp Hopts Hmm. unfold mremap_apply. rewrite Hopts, Hmm.
  destruct (parse_inv _ _ _ _ Ho Hp) as (_ & _ & Hm & Hu & ->). rewrite Hopts in Hm.
  revert Hm Hu. generalize (VMRemapSizeType_new (ro_old_size o) (ro_new_size o)) as ty.
  intros ty Hm Hu. unfold parse_mmap, parse_munmap, mremap_munmap in *.
  destruct (ro_flags o) as [| |a]; [|done|].
  - destruct ty; try done. injection Hu as <-.
    destruct (RemapVma_writeback_file vma) as [[]|]; res_inv Hm; by injection Hm as -> <-.
  - res_inv Hu. destruct (VMRange_overlap_with _ _); [done|]. injection Hu as <-.
    destruct (RemapVma_writeback_file vma) as [[]|]; res_inv Hm; injection Hm as -> <-;
      by destruct (munmap _ _ _) as [[[]| |] ?].
Qed.

(** A growth in place by one page when [mmap] has no memory: success is returned. *)
Lemma mremap_mmap_failure_witness :
  exists res opts,
    VMRemapParser_parse (fun _ => true)
      (mkVMRemapOptions 65536 12288 16384 RemapNone) example_vma = Ok res /\
    rr_mmap_options res = Some opts /\
    mremap_apply (fun _ s => (Err ENOMEM, s)) (fun _ _ s => (Ok tt, s)) 65536 res tt
      = (Ok 65536, tt).
Proof.
  do 2 eexists. split; [vm_compute; reflexivity|]. split; [reflexivity|].
  refine (mremap_mmap_failure (fun _ s => (Err ENOMEM, s)) _ (fun _ => true)
    (mkVMRemapOptions 65536 12288 16384 RemapNone) example_vma _ _ ENOMEM tt tt
    _ eq_refl eq_refl eq_refl).
  constructor; try (unfold64; simpl; lia); done.
Defined.
