(* ===== verification/VMEpc.v ===== *)
(** Enclave memory: [src/libos/src/vm/vm_epc.rs].

    The enclave page cache is reached through SGX instructions and host calls,
    which the class [Enclave] takes as operations on an abstract memory. The
    allocators [ReservedMem] and [UserRegionMem] and the EDMM calls are written
    out on top of it. *)

From S2P Require Import Prelude Errno Effects External FileFlags VMRange VMMapOptions.

(** What the callers read of the metadata of a file. *)
Record Metadata := mkMetadata {
  md_size : Z;
  md_inode : Z;
  md_is_file : bool;   (* [type_ == FileType::File] *)
}.

(** * The platform

    [Mem] is the state of the enclave's memory and of the files behind it;
    [rsgx_is_supported_EDMM] says whether pages can be committed on demand.
    [as_slice] and [set_slice] read and write the bytes of a range of user
    memory. [do_eaccept], [do_eacceptcopy] and [do_emodpe] are the instructions
    (the first argument is the [flags] field of the security information),
    [sgx_mm_modify_ocall] and [occlum_ocall_mprotect] the host calls; the latter
    returns the status of the call and the value of [mprotect]. The file
    operations are those of the trait [File]: each of them may fail, and a file
    that does not implement [access_mode] or [metadata] reports an error. *)
Class Platform := {
  Mem : Type;
  rsgx_is_supported_EDMM : bool;
  SGX_EMA_PAGE_TYPE_REG : Z;
  SGX_EMA_PROT_NONE : Z;
}.

Class Enclave {PL : Platform} := {
  as_slice : Mem -> VMRange -> list Z;
  set_slice : VMRange -> list Z -> Mem -> Mem;
  do_eaccept : Z -> Z -> Mem -> Z * Mem;
  do_eacceptcopy : Z -> Z -> list Z -> Mem -> Z * Mem;
  do_emodpe : Z -> Z -> Mem -> Mem;
  sgx_mm_modify_ocall : Z -> Z -> Z -> Z -> Mem -> Z * Mem;
  occlum_ocall_mprotect : Z -> Z -> Z -> Mem -> (Z * Z) * Mem;
  sgx_alloc_rsrv_mem : Z -> Mem -> Z * Mem;
  sgx_free_rsrv_mem : Z -> Z -> Mem -> Z * Mem;
  emm_alloc : Z -> M Mem Z;
  emm_dealloc : Z -> Z -> M Mem unit;
  file_read_at : Mem -> FileRef -> Z -> list Z -> Result (nat * list Z);
  file_write_at : FileRef -> Z -> list Z -> M Mem nat;
  file_metadata : FileRef -> Mem -> Result Metadata;
  file_access_mode : FileRef -> Result AccessMode;
}.

(** [USER_SPACE_VM_MANAGER.gap_range()]: fixed when the user space is allocated. *)
Class UserSpace := { user_space_gap : option VMRange }.

Inductive SGXPlatform := WithEDMM | NoEDMM.

Inductive EPCMemType := Reserved | UserRegion.

#[export] Instance EPCMemType_eq_dec : EqDecision EPCMemType.
Proof. solve_decision. Defined.

Definition SGX_SUCCESS : Z := 0.
Abbreviation SGX_EMA_STATE_PENDING := (8 : Z).
Abbreviation SGX_EMA_STATE_PR := (32 : Z).

(** [AlignedZeroPage::new_page_aligned_vec]: whole pages of zeros. *)
Definition new_page_aligned_vec (size : Z) : list Z :=
  zeros (Z.to_nat (size / PAGE_SIZE * PAGE_SIZE)).

Section epc.
Context {BF : Bitflags} {PL : Platform} {EN : Enclave}.

(** [file.access_mode().unwrap().readable()] and [.writable()]. *)
Definition file_can_read (file : FileRef) : Result bool :=
  mode ← unwrap_result (file_access_mode file); Ok (AccessMode_readable mode).
Definition file_can_write (file : FileRef) : Result bool :=
  mode ← unwrap_result (file_access_mode file); Ok (AccessMode_writable mode).

(** The files that are known to be open for reading, and for writing. *)
Definition file_readable (file : FileRef) : bool :=
  match file_access_mode file with Ok mode => AccessMode_readable mode | _ => false end.
Definition file_writable (file : FileRef) : bool :=
  match file_access_mode file with Ok mode => AccessMode_writable mode | _ => false end.

(** [if let Some((file_ref, _)) = writeback_file { !file_ref.access_mode().unwrap()
    .writable() && new_perms.can_write() }] *)
Definition write_denied (writeback_file : option (FileRef * Z)) (new_perms : VMPerms) : Result bool :=
  match writeback_file with
  | Some (file_ref, _) =>
      writable ← file_can_write file_ref;
      Ok (negb writable && VMPerms_can_write new_perms)
  | None => Ok false
  end.

Definition SGXPlatform_new : SGXPlatform :=
  if rsgx_is_supported_EDMM then WithEDMM else NoEDMM.

Definition sec_info_for_modify_permission (new_perms : VMPerms) : Z :=
  Z.lor (Z.lor new_perms SGX_EMA_PAGE_TYPE_REG) SGX_EMA_STATE_PR.
Definition sec_info_for_commit_memory : Z :=
  Z.lor (Z.lor VMPerms_DEFAULT SGX_EMA_PAGE_TYPE_REG) SGX_EMA_STATE_PENDING.
Definition sec_info_for_commit_with_data (protection : VMPerms) : Z :=
  Z.lor protection SGX_EMA_PAGE_TYPE_REG.

(** A host call or instruction that reports failure by a non-zero value. *)
Definition check_ret (e : Errno) (call : Mem -> Z * Mem) : M Mem unit := fun m =>
  let (ret, m') := call m in ((if negb (ret =? 0) then Err e else Ok tt), m').

Definition EDMM_commit_memory (start_addr size : Z) : M Mem unit :=
  for_each (fun page => check_ret EFAULT (do_eaccept sec_info_for_commit_memory page))
    (range_step_by start_addr (start_addr +64 size) PAGE_SIZE).

Definition EDMM_modify_page (curr_perms new_perms : VMPerms) (page : Z) : M Mem unit :=
  let si := sec_info_for_modify_permission new_perms in
  _ ← (if negb (Z.lor new_perms curr_perms =? curr_perms)
       then modify (do_emodpe si page) else ok tt);
  if negb (new_perms =? VMPerms_ALL) then check_ret EFAULT (do_eaccept si page) else ok tt.

Definition EDMM_modify_permissions (addr length : Z) (curr_perms new_perms : VMPerms) : M Mem unit :=
  if curr_perms =? new_perms then ok tt else
  let flags_from := Z.lor curr_perms SGX_EMA_PAGE_TYPE_REG in
  let flags_to := Z.lor new_perms SGX_EMA_PAGE_TYPE_REG in
  _ ← check_ret EFAULT (sgx_mm_modify_ocall addr length flags_from flags_to);
  _ ← for_each (EDMM_modify_page curr_perms new_perms)
        (range_step_by addr (addr +64 length) PAGE_SIZE);
  if new_perms =? VMPerms_NONE then
    let none := Z.lor SGX_EMA_PAGE_TYPE_REG SGX_EMA_PROT_NONE in
    check_ret EFAULT (sgx_mm_modify_ocall addr length none none)
  else ok tt.

(** The page of [data] that is copied to [dest_page]. *)
Definition data_page (addr : Z) (data : list Z) (dest_page : Z) : list Z :=
  take (Z.to_nat PAGE_SIZE) (drop (Z.to_nat (dest_page - addr)) data).

Definition EDMM_commit_with_data (addr : Z) (data : list Z) (perm : VMPerms) : M Mem unit :=
  let size := Z.of_nat (length data) in
  _ ← for_each (fun dest_page =>
        check_ret EFAULT (do_eacceptcopy (sec_info_for_commit_with_data perm) dest_page
                                         (data_page addr data dest_page)))
      (range_step_by addr (addr +64 size) PAGE_SIZE);
  EDMM_modify_permissions addr size VMPerms_DEFAULT perm.

(** ** [impl EPCAllocator for UserRegionMem] *)

Definition UserRegionMem_commit_memory (start_addr size : Z) (perms : option VMPerms) : M Mem unit :=
  match perms with
  | Some perms =>
      if negb (perms =? VMPerms_DEFAULT) then
        if size =? PAGE_SIZE
        then EDMM_commit_with_data start_addr (new_page_aligned_vec PAGE_SIZE) perms
        else EDMM_commit_with_data start_addr (new_page_aligned_vec size) perms
      else EDMM_commit_memory start_addr size
  | None => EDMM_commit_memory start_addr size
  end.

Definition UserRegionMem_commit_memory_with_data (start_addr : Z) (data : list Z)
    (new_perms : VMPerms) : M Mem unit :=
  EDMM_commit_with_data start_addr data new_perms.

Definition UserRegionMem_modify_permission (addr length : Z) (curr_perms new_perms : VMPerms)
    : M Mem unit :=
  let new_perms := bf_remove new_perms VMPerms_GROWSDOWN in
  EDMM_modify_permissions addr length curr_perms new_perms.

Definition UserRegionMem_alloc (size : Z) : M Mem Z := emm_alloc size.
Definition UserRegionMem_free (addr size : Z) : M Mem unit :=
  if addr =? 0 then panic else emm_dealloc addr size.

(** ** [impl EPCAllocator for ReservedMem] *)

Definition ReservedMem_alloc (size : Z) : M Mem Z := fun m =>
  let (ptr, m') := sgx_alloc_rsrv_mem size m in
  ((if ptr =? 0 then Err ENOMEM else Ok ptr), m').

Definition ReservedMem_free (addr size : Z) : M Mem unit := fun m =>
  let (ret, m') := sgx_free_rsrv_mem addr size m in
  ((if ret =? 0 then Ok tt else Panic), m').

Definition ReservedMem_modify_permission (addr length : Z) (curr_perms new_perms : VMPerms)
    : M Mem unit :=
  let new_perms := bf_remove new_perms VMPerms_GROWSDOWN in
  if rsgx_is_supported_EDMM then
    unwrapM (EDMM_modify_permissions addr length curr_perms new_perms)
  else fun m =>
    let '(ret, ret_val, m') := occlum_ocall_mprotect addr length new_perms m in
    ((if negb (ret =? SGX_SUCCESS) || negb (ret_val =? 0) then Err ENOMEM else Ok tt), m').

(** [epc_allocator().modify_permission(..)] *)
Definition EPCMemType_modify_permission (self : EPCMemType) (addr length : Z)
    (curr_perms new_perms : VMPerms) : M Mem unit :=
  match self with
  | Reserved => ReservedMem_modify_permission addr length curr_perms new_perms
  | UserRegion => UserRegionMem_modify_permission addr length curr_perms new_perms
  end.

(** The EDMM calls report every failure as [EFAULT]. *)
Lemma check_ret_no_panic e call : no_panic (check_ret e call).
Proof. intros m. unfold check_ret. destruct (call m) as [ret m']. simpl. by case_if. Qed.

Lemma EDMM_modify_permissions_no_panic addr length curr_perms new_perms :
  no_panic (EDMM_modify_permissions addr length curr_perms new_perms).
Proof. unfold EDMM_modify_permissions, EDMM_modify_page. auto 20 using check_ret_no_panic with occlum. Qed.

Lemma EDMM_commit_with_data_no_panic addr data perm :
  no_panic (EDMM_commit_with_data addr data perm).
Proof.
  unfold EDMM_commit_with_data.
  auto using check_ret_no_panic, EDMM_modify_permissions_no_panic with occlum.
Qed.

Lemma UserRegionMem_commit_memory_no_panic start size perms :
  no_panic (UserRegionMem_commit_memory start size perms).
Proof.
  unfold UserRegionMem_commit_memory, EDMM_commit_memory.
  destruct perms; auto using check_ret_no_panic, EDMM_commit_with_data_no_panic with occlum.
Qed.

(** ** The user space *)

Definition SGXPlatform_alloc_user_space (self : SGXPlatform) (init_size max_size : Z)
    : M Mem (VMRange * option VMRange) :=
  if match self with WithEDMM => init_size <? max_size | NoEDMM => false end then
    let user_region_size := max_size -64 init_size in
    reserved_mem_start_addr ← ReservedMem_alloc init_size;
    user_region_start_addr ← UserRegionMem_alloc user_region_size;
    total_user_space_range ← lift (VMRange_new reserved_mem_start_addr
                                     (user_region_start_addr +64 user_region_size));
    gap_range ← lift (VMRange_new (reserved_mem_start_addr +64 init_size) user_region_start_addr);
    ok (total_user_space_range, Some gap_range)
  else
    reserved_mem_start_addr ← ReservedMem_alloc max_size;
    total_user_space_range ← lift (VMRange_new reserved_mem_start_addr
                                     (reserved_mem_start_addr +64 max_size));
    ok (total_user_space_range, None).

Definition SGXPlatform_free_user_space (user_space_range : VMRange) (gap_range : option VMRange)
    : M Mem unit :=
  let user_space_ranges :=
    match gap_range with
    | Some gap_range => VMRange_subtract user_space_range gap_range
    | None => [user_space_range]
    end in
  match user_space_ranges with
  | [reserved_mem; user_region_mem] =>
      _ ← unwrapM (ReservedMem_free (vm_start reserved_mem) (VMRange_size reserved_mem));
      unwrapM (UserRegionMem_free (vm_start user_region_mem) (VMRange_size user_region_mem))
  | reserved_mem :: _ =>
      unwrapM (ReservedMem_free (vm_start reserved_mem) (VMRange_size reserved_mem))
  | [] => panic
  end.

Definition EPCMemType_new {US : UserSpace} (range : VMRange) : EPCMemType :=
  if rsgx_is_supported_EDMM then
    match user_space_gap with
    | Some gap_range => if vm_end range <=? vm_start gap_range then Reserved else UserRegion
    | None => Reserved
    end
  else Reserved.

End epc.

(** A platform on which every instruction and host call succeeds: bytes by
    address, empty regular files. *)
Definition flat_slice (m : Z -> Z) (r : VMRange) : list Z :=
  (fun i => m (vm_start r + Z.of_nat i)) <$> seq 0 (Z.to_nat (vm_end r - vm_start r)).

Definition flat_write (r : VMRange) (bs : list Z) (m : Z -> Z) : Z -> Z := fun a =>
  if VMRange_contains r a then default 0 (bs !! Z.to_nat (a - vm_start r)) else m a.

Definition flat_platform : Platform := {|
  Mem := Z -> Z;
  rsgx_is_supported_EDMM := true;
  SGX_EMA_PAGE_TYPE_REG := 512;
  SGX_EMA_PROT_NONE := 0;
|}.
#[local] Existing Instance flat_platform.

Definition flat_enclave_reading (read : FileRef -> Z -> list Z -> nat * list Z)
    : Enclave := {|
  as_slice := flat_slice;
  set_slice := flat_write;
  do_eaccept _ _ m := (0, m);
  do_eacceptcopy _ dest data m := (0, flat_write (mkVMRange dest (dest + PAGE_SIZE)) data m);
  do_emodpe _ _ m := m;
  sgx_mm_modify_ocall _ _ _ _ m := (0, m);
  occlum_ocall_mprotect _ _ _ m := (0, 0, m);
  sgx_alloc_rsrv_mem _ m := (2 ^ 28, m);
  sgx_free_rsrv_mem _ _ m := (0, m);
  emm_alloc _ := ok (2 ^ 32);
  emm_dealloc _ _ := ok tt;
  file_read_at _ file offset buf := Ok (read file offset buf);
  file_write_at _ _ buf := ok (length buf);
  file_metadata file _ := Ok (mkMetadata 0 file true);
  file_access_mode _ := Ok O_RDWR;
|}.

(** All files are empty. *)
Definition flat_enclave : Enclave := flat_enclave_reading (fun _ _ buf => (0%nat, buf)).
