(* ===== verification/Platform.v ===== *)
(** Platforms that fail and platforms that do not.

    Instructions, host calls and file operations can fail. The memory manager answers
    every such failure but a failed read with a panic, so that what it does on any
    platform is either what it does on a platform that never fails or a panic. This file
    has the relation between the two runs and the platform without failures that
    belongs to a given one. *)

From S2P Require Import Prelude Errno Effects External FileFlags VMRange VMMapOptions VMEpc.

(** * Platforms

    What the types of the source say of every platform: a file is read into the
    slice that is passed, and a slice has the length of its range. *)
Class EnclaveLaws {PL : Platform} {EN : Enclave} : Prop := {
  rel_read file offset buf m n buf' :
    file_read_at m file offset buf = Ok (n, buf') -> (n <= length buf')%nat /\ length buf' = length buf;
  rel_slice m r : length (as_slice m r) = Z.to_nat (vm_end r - vm_start r);
}.

(** A platform that does not fail: instructions, host calls and file writes succeed,
    and every file has an access mode and metadata. *)
Class ReliableEnclave {PL : Platform} {EN : Enclave} : Prop := {
  rel_laws :: EnclaveLaws;
  rel_eaccept flags page m : (do_eaccept flags page m).1 = 0;
  rel_eacceptcopy flags page data m : (do_eacceptcopy flags page data m).1 = 0;
  rel_modify addr len from to m : (sgx_mm_modify_ocall addr len from to m).1 = 0;
  rel_mprotect addr len prot m : (occlum_ocall_mprotect addr len prot m).1 = (0, 0);
  rel_write file offset data m : exists n m', file_write_at file offset data m = (Ok n, m');
  rel_read_panic file offset buf m : file_read_at m file offset buf <> Panic;
  rel_metadata file m : exists md, file_metadata file m = Ok md;
  rel_access file : exists mode, file_access_mode file = Ok mode;
}.

#[export] Instance flat_enclave_laws : EnclaveLaws (EN := flat_enclave).
Proof.
  constructor; simpl.
  - intros file offset buf m n buf' [= <- <-]. split; [lia|done].
  - intros m r. unfold flat_slice. by rewrite length_fmap, length_seq.
Qed.

#[export] Instance flat_enclave_reliable : ReliableEnclave (EN := flat_enclave).
Proof. constructor; simpl; try done; [apply flat_enclave_laws|..]; intros; eauto. Qed.

(** What can go wrong outside the LibOS, apart from failed reads. A file without access
    mode or metadata is one whose type does not implement these methods of [File]. *)
Inductive platform_fault {PL : Platform} {EN : Enclave} : Prop :=
| eaccept_fails flags page m : (do_eaccept flags page m).1 <> 0 -> platform_fault
| eacceptcopy_fails flags page data m : (do_eacceptcopy flags page data m).1 <> 0 -> platform_fault
| modify_fails addr len from to m : (sgx_mm_modify_ocall addr len from to m).1 <> 0 -> platform_fault
| mprotect_fails addr len prot m : (occlum_ocall_mprotect addr len prot m).1 <> (0, 0) -> platform_fault
| write_fails file offset data m :
    (forall n, (file_write_at file offset data m).1 <> Ok n) -> platform_fault
| read_panics file offset buf m : file_read_at m file offset buf = Panic -> platform_fault
| no_metadata file m : (forall md, file_metadata file m <> Ok md) -> platform_fault
| no_access_mode file : (forall mode, file_access_mode file <> Ok mode) -> platform_fault.

(** Reads of the file can fail. *)
Definition read_fails {PL : Platform} {EN : Enclave} (file : FileRef) : Prop :=
  exists m offset buf e, file_read_at m file offset buf = Err e.

(** Why the pages of an area, mapped from a file or not, could not be committed. *)
Definition commit_fault {PL : Platform} {EN : Enclave} (file : option FileRef) : Prop :=
  platform_fault \/ exists f, file = Some f /\ read_fails f.

(** The platform on which each failing operation reports success instead. *)
Definition total_enclave {PL : Platform} (EN : Enclave) : Enclave := {|
  as_slice := as_slice;
  set_slice := set_slice;
  do_eaccept flags page m := (0, (do_eaccept flags page m).2);
  do_eacceptcopy flags page data m := (0, (do_eacceptcopy flags page data m).2);
  do_emodpe := do_emodpe;
  sgx_mm_modify_ocall addr len from to m := (0, (sgx_mm_modify_ocall addr len from to m).2);
  occlum_ocall_mprotect addr len prot m := (0, 0, (occlum_ocall_mprotect addr len prot m).2);
  sgx_alloc_rsrv_mem := sgx_alloc_rsrv_mem;
  sgx_free_rsrv_mem := sgx_free_rsrv_mem;
  emm_alloc := emm_alloc;
  emm_dealloc := emm_dealloc;
  file_read_at m file offset buf :=
    match file_read_at m file offset buf with Panic => Err EINVAL | r => r end;
  file_write_at file offset data m :=
    match file_write_at file offset data m with (Ok n, m') => (Ok n, m') | (_, m') => (Ok 0%nat, m') end;
  file_metadata file m :=
    match file_metadata file m with Ok md => Ok md | _ => Ok (mkMetadata 0 0 true) end;
  file_access_mode file :=
    match file_access_mode file with Ok mode => Ok mode | _ => Ok O_RDONLY end;
|}.

#[export] Instance total_enclave_reliable {PL : Platform} {EN : Enclave} {EL : EnclaveLaws} :
  ReliableEnclave (EN := total_enclave EN).
Proof.
  constructor; simpl; try done.
  - constructor; simpl; [|apply rel_slice]. intros file offset buf m n buf' H. apply (rel_read file offset buf m n).
    by destruct (file_read_at _ _ _ _).
  - intros file offset data m. destruct (file_write_at _ _ _ _) as [[n|e|] m']; eauto.
  - intros file offset buf m. by destruct (file_read_at _ _ _ _).
  - intros file m. destruct (file_metadata _ _); eauto.
  - intros file. destruct (file_access_mode _); eauto.
Qed.

Lemma reliable_no_fault {PL : Platform} {EN : Enclave} {RE : ReliableEnclave} : ~ platform_fault.
Proof.
  intros []; [by apply H, rel_eaccept|by apply H, rel_eacceptcopy|by apply H, rel_modify|by apply H, rel_mprotect|..].
  - destruct (rel_write file offset data m) as (n & m' & Hw). by apply (H n); rewrite Hw.
  - by apply (rel_read_panic file offset buf m).
  - destruct (rel_metadata file m) as [md Hmd]. by apply (H md).
  - destruct (rel_access file) as [mode Hm]. by apply (H mode).
Qed.

Lemma commit_fault_total {PL : Platform} {EN : Enclave} {EL : EnclaveLaws} file :
  commit_fault (EN := total_enclave EN) file -> commit_fault file.
Proof.
  intros [HF|(f & Hf & m & offset & buf & e & Hr)]; [by destruct (reliable_no_fault HF)|]. simpl in Hr.
  destruct (file_read_at m f offset buf) eqn:Hrd; [done|right|left; by eapply read_panics].
  exists f. split; [done|]. by exists m, offset, buf, e0.
Qed.

Lemma file_writable_total {PL : Platform} {EN : Enclave} file :
  file_writable (EN := total_enclave EN) file = file_writable file.
Proof. unfold file_writable. simpl. by destruct (file_access_mode file). Qed.

(** Computations that succeed from every state. *)
Definition succeeds {S A} (c : M S A) : Prop := forall s, exists a s', c s = (Ok a, s').

Section succeeds.
Context {S : Type}.
Lemma succeeds_bind {A B} (c : M S A) (k : A -> M S B) :
  succeeds c -> (forall a, succeeds (k a)) -> succeeds (c ≫= k).
Proof.
  intros Hc Hk s. destruct (Hc s) as (a & s' & Ha). destruct (Hk a s') as (b & s'' & Hb).
  exists b, s''. by rewrite (bind_ok _ _ _ _ _ Ha).
Qed.
Lemma succeeds_ok {A} (a : A) : succeeds (S := S) (ok a).
Proof. intros s. by eexists _, _. Qed.
Lemma succeeds_modify (f : S -> S) : succeeds (modify f).
Proof. intros s. by eexists _, _. Qed.
Lemma succeeds_if {A} (b : bool) (c d : M S A) :
  succeeds c -> succeeds d -> succeeds (if b then c else d).
Proof. by destruct b. Qed.
Lemma succeeds_for_each {A} (f : A -> M S unit) l :
  (forall x, succeeds (f x)) -> succeeds (for_each f l).
Proof. intros Hf. induction l; simpl; [apply succeeds_ok|]. by apply succeeds_bind. Qed.
Lemma succeeds_unwrapM {A} (c : M S A) : succeeds c -> succeeds (unwrapM c).
Proof. intros Hc s. destruct (Hc s) as (a & s' & H). exists a, s'. unfold unwrapM. by rewrite H. Qed.
End succeeds.
#[export] Hint Resolve succeeds_bind succeeds_ok succeeds_modify succeeds_if succeeds_for_each
  succeeds_unwrapM : occlum.

(** * Two runs of the same code *)

(** The run [c] does what [c'] does, or panics because of [F]. *)
Definition agrees {S A} (F : Prop) (c c' : M S A) : Prop :=
  forall s, c s = c' s \/ ((c s).1 = Panic /\ F).

(** The run [c] does what [c'] does, or does not succeed because of [F]. *)
Definition agrees_ok {S A} (F : Prop) (c c' : M S A) : Prop :=
  forall s, c s = c' s \/ ((forall a, (c s).1 <> Ok a) /\ F).

Definition agrees_result {A} (F : Prop) (r r' : Result A) : Prop := r = r' \/ (r = Panic /\ F).

Section agrees.
Context {S : Type} {F : Prop}.

Lemma agrees_refl {A} (c : M S A) : agrees F c c.
Proof. intros s. by left. Qed.

Lemma agrees_lift {A} (r r' : Result A) : agrees_result F r r' -> agrees (S := S) F (lift r) (lift r').
Proof. intros [-> |[-> HF]] s; [by left|by right]. Qed.

Lemma agrees_bind {A B} (c c' : M S A) (k k' : A -> M S B) :
  agrees F c c' -> (forall a, agrees F (k a) (k' a)) -> agrees F (c ≫= k) (c' ≫= k').
Proof.
  intros Hc Hk s. unfold mbind, M_bind. destruct (Hc s) as [<- |[Hp HF]].
  - destruct (c s) as [[a|e|] s']; [apply Hk|by left..].
  - right. by destruct (c s) as [[a|e|] s'].
Qed.

Lemma agrees_for_each {A} (f f' : A -> M S unit) l :
  (forall x, agrees F (f x) (f' x)) -> agrees F (for_each f l) (for_each f' l).
Proof.
  intros Hf. induction l as [|x l IH]; simpl; [apply agrees_refl|]. by apply agrees_bind.
Qed.

Lemma agrees_attempt {A} (c c' : M S A) : agrees F c c' -> agrees F (attempt c) (attempt c').
Proof.
  intros Hc s. unfold attempt. destruct (Hc s) as [<- |[Hp HF]]; [by left|]. right.
  by destruct (c s) as [[a|e|] s'].
Qed.

Lemma agrees_map_err {A} e (c c' : M S A) : agrees F c c' -> agrees F (map_err e c) (map_err e c').
Proof.
  intros Hc s. unfold map_err. destruct (Hc s) as [<- |[Hp HF]]; [by left|]. right.
  by destruct (c s) as [[a|e'|] s'].
Qed.

Lemma agrees_unwrapM {A} (c c' : M S A) : agrees_ok F c c' -> agrees F (unwrapM c) (unwrapM c').
Proof.
  intros Hc s. unfold unwrapM. destruct (Hc s) as [<- |[Hp HF]]; [by left|]. right.
  destruct (c s) as [[a|e|] s']; [|done..]. by destruct (Hp a).
Qed.

Lemma agrees_weaken {A} (c c' : M S A) : agrees F c c' -> agrees_ok F c c'.
Proof. intros Hc s. destruct (Hc s) as [<- |[Hp HF]]; [by left|]. right. rewrite Hp. by split. Qed.

Lemma agrees_ok_bind {A B} (c c' : M S A) (k k' : A -> M S B) :
  agrees_ok F c c' -> (forall a, agrees_ok F (k a) (k' a)) -> agrees_ok F (c ≫= k) (c' ≫= k').
Proof.
  intros Hc Hk s. unfold mbind, M_bind. destruct (Hc s) as [<- |[Hp HF]].
  - destruct (c s) as [[a|e|] s']; [apply Hk|by left..].
  - right. destruct (c s) as [[a|e|] s']; [by destruct (Hp a)|done..].
Qed.

Lemma agrees_ok_for_each {A} (f f' : A -> M S unit) l :
  (forall x, agrees_ok F (f x) (f' x)) -> agrees_ok F (for_each f l) (for_each f' l).
Proof.
  intros Hf. induction l as [|x l IH]; simpl; [apply agrees_weaken, agrees_refl|]. by apply agrees_ok_bind.
Qed.

End agrees.

Lemma agrees_result_bind {A B} (F : Prop) (r r' : Result A) (k k' : A -> Result B) :
  agrees_result F r r' -> (forall a, agrees_result F (k a) (k' a)) -> agrees_result F (r ≫= k) (r' ≫= k').
Proof.
  intros [<- |[-> HF]] Hk; [|by right]. destruct r as [a|e|]; [apply Hk|by left..].
Qed.

Create HintDb agree.

(** Follow the structure that the two runs share. *)
Ltac agree_step :=
  lazymatch goal with
  | |- agrees _ ?c ?c => apply agrees_refl
  | |- agrees_ok _ ?c ?c => apply agrees_weaken, agrees_refl
  | |- agrees_result _ ?c ?c => by left
  | |- agrees _ (mbind _ _) (mbind _ _) => apply agrees_bind; [|intros ?]
  | |- agrees_ok _ (mbind _ _) (mbind _ _) => apply agrees_ok_bind; [|intros ?]
  | |- agrees_result _ (mbind _ _) (mbind _ _) => apply agrees_result_bind; [|intros ?]
  | |- agrees _ (for_each _ _) (for_each _ _) => apply agrees_for_each; intros ?
  | |- agrees_ok _ (for_each _ _) (for_each _ _) => apply agrees_ok_for_each; intros ?
  | |- agrees _ (attempt _) (attempt _) => apply agrees_attempt
  | |- agrees _ (map_err _ _) (map_err _ _) => apply agrees_map_err
  | |- agrees _ (unwrapM _) (unwrapM _) => apply agrees_unwrapM
  | |- agrees _ (lift _) (lift _) => apply agrees_lift
  | |- agrees _ (match ?x with _ => _ end) (match ?x with _ => _ end) => destruct x
  | |- agrees_ok _ (match ?x with _ => _ end) (match ?x with _ => _ end) => destruct x
  | |- agrees_result _ (match ?x with _ => _ end) (match ?x with _ => _ end) => destruct x
  | |- agrees _ (let _ := _ in _) _ => cbv zeta
  end.
(** The later files add the wrappers of their states. *)
Ltac agree_hook := fail.
Ltac agree :=
  repeat first [solve [auto 1 with agree nocore] | solve [apply agrees_weaken; auto 1 with agree nocore]
               | agree_step | agree_hook | progress cbv beta zeta].
