(* ===== verification/PageTracker.v ===== *)
(** Commit status of user pages: [src/libos/src/vm/page_tracker.rs].

    A tracker holds one bit per page of a range. The global manager maps the
    start of every 4 MB page chunk to a global tracker, which is dropped once all
    pages of the chunk are committed; each area has a tracker of its own. The
    theorems say that the two levels together represent one set of committed
    pages, and that an area's tracker agrees with it. *)

From S2P Require Import Prelude Errno Effects External VMRange VMMapOptions VMEpc.

(** * Data *)

Abbreviation MB := (1024 * 1024 : Z).
Definition PAGE_CHUNK_UNIT : Z := 4 * MB.
Abbreviation PAGE_CHUNK_PAGE_NUM := (PAGE_CHUNK_UNIT / PAGE_SIZE : Z).

Inductive TrackerType := GlobalTracker | VMATracker.

Section types.
Context {BV : BitVecs}.

Record PageTracker := mkPageTracker {
  pt_type : TrackerType;
  pt_range : VMRange;
  pt_inner : BitVec;
  pt_fully_committed : bool;
}.

Record GlobalPageChunk := mkGlobalPageChunk {
  gpc_fully_committed : bool;
  gpc_tracker : option PageTracker;
}.

End types.

(** [PageChunkManager::inner]; its [range] is never read. *)
Abbreviation PageChunkManager := (gmap Z GlobalPageChunk) (only parsing).

(** The state the page operations work on: enclave memory and
    [USER_SPACE_PAGE_CHUNK_MANAGER]. *)
Record World {BV : BitVecs} {PL : Platform} := mkWorld {
  w_mem : Mem;
  w_pcm : PageChunkManager;
}.
Arguments World BV PL : clear implicits.

(** * Operations *)

Definition get_page_chunk_start_addr (addr : Z) : Z := align_down addr PAGE_CHUNK_UNIT.

Section tracker.
Context {BF : Bitflags} {BV : BitVecs} {PL : Platform} {EN : Enclave}.

(** An operation of enclave memory, and one of the page chunk manager. *)
Definition on_mem {A} (c : M Mem A) : M (World BV PL) A := fun w =>
  let (r, m) := c (w_mem w) in (r, mkWorld _ _ m (w_pcm w)).
Definition insert_page_chunk (addr : Z) (c : GlobalPageChunk) : M (World BV PL) unit := fun w =>
  (Ok tt, mkWorld _ _ (w_mem w) (<[addr := c]> (w_pcm w))).

(** [v[i]] *)
Definition bv_index (v : BitVec) (i : Z) : Result bool :=
  unwrap_option (bv_bits v !! Z.to_nat i).

Definition bv_len (v : BitVec) : Z := Z.of_nat (length (bv_bits v)).

Definition PageChunkManager_is_committed (self : PageChunkManager) (mem_addr : Z) : Result bool :=
  let page_start_addr := align_down mem_addr PAGE_SIZE in
  let page_chunk_start_addr := get_page_chunk_start_addr page_start_addr in
  match self !! page_chunk_start_addr with
  | Some global_page_chunk =>
      match gpc_tracker global_page_chunk with
      | Some page_tracker =>
          let page_id := (page_start_addr -64 page_chunk_start_addr) / PAGE_SIZE in
          bv_index (pt_inner page_tracker) page_id
      | None => Ok true
      end
  | None => Ok false
  end.

Definition GlobalPageChunk_new (tracker : PageTracker) : GlobalPageChunk :=
  mkGlobalPageChunk false (Some tracker).

Definition PageTracker_new_global_tracker (start_addr : Z) : Result PageTracker :=
  range ← VMRange_new_with_size start_addr PAGE_CHUNK_UNIT;
  let inner := bv_repeat false (Z.to_nat PAGE_CHUNK_PAGE_NUM) in
  Ok (mkPageTracker GlobalTracker range inner false).

Definition PageTracker_is_fully_committed (self : PageTracker) : bool := pt_fully_committed self.

Definition PageTracker_is_reserved_only (self : PageTracker) : bool :=
  negb (pt_fully_committed self) && bv_not_any (pt_inner self).

Definition PageTracker_is_partially_committed (self : PageTracker) : bool :=
  negb (pt_fully_committed self) && bv_any (pt_inner self).

(** ** [get_ranges]

    One round of the loop: the markers [start] and [end] and the ranges found
    so far. [unreachable!] is the panic when only one marker is set. *)
Definition get_ranges_step (self : PageTracker) (committed : bool) (len : Z)
    (st : option Z * option Z * list VMRange) (i : Z) : Result (option Z * option Z * list VMRange) :=
  let '(start, end_, ret) := st in
  let tracker_start_addr := vm_start (pt_range self) in
  b ← bv_index (pt_inner self) i;
  if eqb b committed then
    match start, end_ with
    | None, None =>
        if i =? len - 1 then
          committed_range ← unwrap_result (VMRange_new_with_size
                              (tracker_start_addr +64 i *64 PAGE_SIZE) PAGE_SIZE);
          Ok (Some i, Some i, ret ++ [committed_range])
        else Ok (Some i, Some i, ret)
    | Some s, Some e =>
        if i =? len - 1 then
          committed_range ← unwrap_result (VMRange_new_with_size
                              (tracker_start_addr +64 s *64 PAGE_SIZE)
                              (PAGE_SIZE *64 (i -64 s +64 1)));
          Ok (Some s, Some i, ret ++ [committed_range])
        else Ok (Some s, Some i, ret)
    | _, _ => Panic
    end
  else
    match start, end_ with
    | None, None => Ok (None, None, ret)
    | Some s, Some e =>
        committed_range ← unwrap_result (VMRange_new_with_size
                            (tracker_start_addr +64 s *64 PAGE_SIZE)
                            (PAGE_SIZE *64 (e -64 s +64 1)));
        Ok (None, None, ret ++ [committed_range])
    | _, _ => Panic
    end.

Fixpoint get_ranges_loop (self : PageTracker) (committed : bool) (len : Z)
    (st : option Z * option Z * list VMRange) (idx : list Z)
    : Result (option Z * option Z * list VMRange) :=
  match idx with
  | [] => Ok st
  | i :: idx => st ← get_ranges_step self committed len st i;
               get_ranges_loop self committed len st idx
  end.

Definition PageTracker_get_ranges (self : PageTracker) (committed : bool) : Result (list VMRange) :=
  if PageTracker_is_fully_committed self then
    Ok (if committed then [pt_range self] else [])
  else if PageTracker_is_reserved_only self then
    Ok (if committed then [] else [pt_range self])
  else
    let len := bv_len (pt_inner self) in
    st ← get_ranges_loop self committed len (None, None, [])
           (Z.of_nat <$> seq 0 (length (bv_bits (pt_inner self))));
    Ok st.2.

(** ** Updates *)

Definition PageTracker_split_for_new_range (self : PageTracker) (new_range : VMRange)
    : Result PageTracker :=
  let new_start := vm_start new_range in
  let page_num := VMRange_size new_range / PAGE_SIZE in
  let split_idx := (new_start -64 vm_start (pt_range self)) / PAGE_SIZE in
  if bv_len (pt_inner self) <? split_idx then Panic else
  let new_inner := bv_truncate (bv_split_off (pt_inner self) (Z.to_nat split_idx))
                               (Z.to_nat page_num) in
  Ok (mkPageTracker (pt_type self) new_range new_inner
        (if bv_all new_inner then true else pt_fully_committed self)).

(** [self.inner[i..i + n].fill(true)] and the update of [fully_committed]; a
    slice out of range panics. *)
Definition commit_bits (self : PageTracker) (i n : Z) : Result PageTracker :=
  if bv_len (pt_inner self) <? i + n then Panic else
  let inner := bv_fill_range (pt_inner self) (Z.to_nat i) (Z.to_nat n) true in
  Ok (mkPageTracker (pt_type self) (pt_range self) inner
        (if bv_all inner then true else pt_fully_committed self)).

Definition PageTracker_commit_pages_common (self : PageTracker) (start_addr size : Z)
    : Result PageTracker :=
  range ← unwrap_result (VMRange_new_with_size start_addr size);
  match VMRange_intersect (pt_range self) range with
  | Some intersection_range =>
      let page_start_id :=
        (vm_start intersection_range -64 vm_start (pt_range self)) / PAGE_SIZE in
      let page_num := VMRange_size intersection_range / PAGE_SIZE in
      commit_bits self page_start_id page_num
  | None => Panic
  end.

Definition PageTracker_set_committed_pages_for_vma_tracker (self vma_tracker : PageTracker)
    : Result PageTracker :=
  let global_tracker := self in
  match VMRange_intersect (pt_range global_tracker) (pt_range vma_tracker) with
  | Some intersection_range =>
      let vma_tracker_page_id :=
        (vm_start intersection_range -64 vm_start (pt_range vma_tracker)) / PAGE_SIZE in
      let global_tracker_page_id :=
        (vm_start intersection_range -64 vm_start (pt_range global_tracker)) / PAGE_SIZE in
      let page_num := VMRange_size intersection_range / PAGE_SIZE in
      if (bv_len (pt_inner vma_tracker) <? vma_tracker_page_id + page_num)
         || (bv_len (pt_inner global_tracker) <? global_tracker_page_id + page_num)
      then Panic else
      let inner := bv_copy_range (pt_inner vma_tracker) (Z.to_nat vma_tracker_page_id)
                     (pt_inner global_tracker) (Z.to_nat global_tracker_page_id)
                     (Z.to_nat page_num) in
      Ok (mkPageTracker (pt_type vma_tracker) (pt_range vma_tracker) inner
            (if bv_all inner then true else pt_fully_committed vma_tracker))
  | None => Panic
  end.

(** The page chunk is not tracked yet: the read lock is released and a fresh
    entry is inserted under the write lock. *)
Definition track_page_chunk (page_chunk_addr : Z) : M (World BV PL) unit :=
  global_page_tracker ← lift (PageTracker_new_global_tracker page_chunk_addr);
  insert_page_chunk page_chunk_addr (GlobalPageChunk_new global_page_tracker).

(** One page chunk of the loop of [get_committed_pages_from_global_tracker]. *)
Definition get_committed_pages_of_chunk (vma_tracker : PageTracker) (page_chunk_addr : Z)
    : M (World BV PL) PageTracker :=
  w ← get;
  match w_pcm w !! page_chunk_addr with
  | Some page_chunk =>
      if gpc_fully_committed page_chunk then
        lift (PageTracker_commit_pages_common vma_tracker page_chunk_addr PAGE_CHUNK_UNIT)
      else
        global_tracker ← lift (unwrap_option (gpc_tracker page_chunk));
        lift (PageTracker_set_committed_pages_for_vma_tracker global_tracker vma_tracker)
  | None =>
      _ ← track_page_chunk page_chunk_addr;
      ok vma_tracker
  end.

Fixpoint get_committed_pages_loop (vma_tracker : PageTracker) (chunks : list Z)
    : M (World BV PL) PageTracker :=
  match chunks with
  | [] => ok vma_tracker
  | c :: chunks => vma_tracker ← get_committed_pages_of_chunk vma_tracker c;
                   get_committed_pages_loop vma_tracker chunks
  end.

(** The page chunks that [lo..hi] touches: [(get_page_chunk_start_addr(lo)..hi)
    .step_by(PAGE_CHUNK_UNIT)]. *)
Definition page_chunks_of (lo hi : Z) : list Z :=
  range_step_by (get_page_chunk_start_addr lo) hi PAGE_CHUNK_UNIT.

Definition PageTracker_get_committed_pages_from_global_tracker (self : PageTracker)
    : M (World BV PL) PageTracker :=
  get_committed_pages_loop self (page_chunks_of (vm_start (pt_range self)) (vm_end (pt_range self))).

Definition PageTracker_new_vma_tracker (vm_range : VMRange) (epc_type : EPCMemType)
    : M (World BV PL) PageTracker :=
  let page_num := VMRange_size vm_range / PAGE_SIZE in
  match epc_type with
  | UserRegion =>
      let new_vma_tracker :=
        mkPageTracker VMATracker vm_range (bv_repeat false (Z.to_nat page_num)) false in
      if negb (page_num =? 0)
      then PageTracker_get_committed_pages_from_global_tracker new_vma_tracker
      else ok new_vma_tracker
  | Reserved =>
      ok (mkPageTracker VMATracker vm_range (bv_repeat true (Z.to_nat page_num)) true)
  end.

(** One page chunk of [set_committed_pages_for_global_tracker]. The entry exists
    when the flag is written back, since it was just read; its lock is the only
    one taken in between. *)
Definition set_committed_pages_of_chunk (commit_start_addr commit_size page_chunk_addr : Z)
    : M (World BV PL) unit :=
  w ← get;
  page_chunk ← lift (unwrap_option (w_pcm w !! page_chunk_addr));
  match gpc_tracker page_chunk with
  | Some global_page_tracker =>
      global_tracker ← lift (PageTracker_commit_pages_common global_page_tracker
                               commit_start_addr commit_size);
      _ ← insert_page_chunk page_chunk_addr
            (mkGlobalPageChunk (gpc_fully_committed page_chunk) (Some global_tracker));
      if pt_fully_committed global_tracker
      then insert_page_chunk page_chunk_addr (mkGlobalPageChunk true None)
      else ok tt
  | None => ok tt
  end.

Definition PageTracker_set_committed_pages_for_global_tracker (commit_start_addr commit_size : Z)
    : M (World BV PL) unit :=
  let commit_end_addr := commit_start_addr +64 commit_size in
  for_each (set_committed_pages_of_chunk commit_start_addr commit_size)
    (page_chunks_of commit_start_addr commit_end_addr).

Definition PageTracker_commit_whole (self : PageTracker) (perms : VMPerms)
    : M (World BV PL) PageTracker :=
  if PageTracker_is_fully_committed self then ok self else
  let start := vm_start (pt_range self) in
  let size := VMRange_size (pt_range self) in
  _ ← (if PageTracker_is_reserved_only self then
         on_mem (unwrapM (UserRegionMem_commit_memory start size (Some perms)))
       else
         uncommitted_ranges ← lift (PageTracker_get_ranges self false);
         for_each (fun range => on_mem (unwrapM (UserRegionMem_commit_memory
                     (vm_start range) (VMRange_size range) (Some perms)))) uncommitted_ranges);
  let self := mkPageTracker (pt_type self) (pt_range self) (bv_fill (pt_inner self) true) true in
  _ ← PageTracker_set_committed_pages_for_global_tracker start size;
  ok self.

Definition PageTracker_commit_range (self : PageTracker) (range : VMRange)
    (new_perms : option VMPerms) : M (World BV PL) PageTracker :=
  _ ← on_mem (UserRegionMem_commit_memory (vm_start range) (VMRange_size range) new_perms);
  self ← lift (PageTracker_commit_pages_common self (vm_start range) (VMRange_size range));
  _ ← PageTracker_set_committed_pages_for_global_tracker (vm_start range) (VMRange_size range);
  ok self.

Definition PageTracker_commit_memory_with_data (self : PageTracker) (range : VMRange)
    (data : list Z) (new_perms : VMPerms) : M (World BV PL) PageTracker :=
  _ ← on_mem (UserRegionMem_commit_memory_with_data (vm_start range) data new_perms);
  self ← lift (PageTracker_commit_pages_common self (vm_start range) (VMRange_size range));
  _ ← PageTracker_set_committed_pages_for_global_tracker (vm_start range) (VMRange_size range);
  ok self.

End tracker.

(** * Page arithmetic *)

Ltac pages :=
  unfold page_aligned, PAGE_CHUNK_UNIT, PAGE_SIZE, u64_modulus in *;
  Z.to_euclidean_division_equations; lia.

Lemma PAGE_CHUNK_UNIT_pow2 : PAGE_CHUNK_UNIT = 2 ^ 22.
Proof. reflexivity. Qed.

Lemma get_page_chunk_start_addr_eq a :
  is_u64 a -> get_page_chunk_start_addr a = a / PAGE_CHUNK_UNIT * PAGE_CHUNK_UNIT.
Proof.
  intros Ha. unfold get_page_chunk_start_addr. rewrite PAGE_CHUNK_UNIT_pow2.
  apply align_down_eq; [done|lia].
Qed.

Lemma align_down_page a : is_u64 a -> page_aligned a -> align_down a PAGE_SIZE = a.
Proof.
  intros Ha Hp. rewrite PAGE_SIZE_pow2, align_down_eq by (auto; lia).
  change (2 ^ 12) with PAGE_SIZE. pages.
Qed.

Lemma elem_of_range_step_by lo hi step x :
  0 < step ->
  x ∈ range_step_by lo hi step <-> lo <= x < hi /\ (x - lo) mod step = 0.
Proof.
  intros Hs. unfold range_step_by. rewrite list_elem_of_fmap. setoid_rewrite elem_of_seq.
  split.
  - intros (i & -> & _ & Hi). replace (lo + Z.of_nat i * step - lo) with (Z.of_nat i * step) by lia.
    split; [|by apply Z.mod_mul; lia].
    assert (Z.of_nat i < (hi - lo + step - 1) / step) by lia.
    assert (Z.of_nat i + 1 <= (hi - lo + step - 1) / step) by lia.
    pose proof (Z.mul_div_le (hi - lo + step - 1) step Hs). nia.
  - intros [Hx Hm]. apply Z.mod_divide in Hm as [q Hq]; [|lia].
    assert (0 <= q) by nia. exists (Z.to_nat q). split; [rewrite Z2Nat.id by lia; nia|].
    split; [lia|]. assert (q < (hi - lo + step - 1) / step); [|lia].
    assert (q + 1 <= (hi - lo + step - 1) / step); [|lia].
    apply Z.div_le_lower_bound; nia.
Qed.

(** The page chunks that a range touches. *)
Lemma elem_of_page_chunks_of lo hi c :
  is_u64 lo ->
  c ∈ page_chunks_of lo hi
  <-> c mod PAGE_CHUNK_UNIT = 0 /\ lo < c + PAGE_CHUNK_UNIT /\ c < hi /\ 0 <= c.
Proof.
  intros Hlo. unfold page_chunks_of.
  rewrite elem_of_range_step_by, get_page_chunk_start_addr_eq by (auto; pages).
  unfold is_u64 in *. pages.
Qed.

(** * Runs of pages

    What [get_ranges] computes: the maximal runs of pages whose bit is
    [committed], for the bits of the pages from address [addr] on. *)

(** Prepend the pages [s, a) to the runs [l] of the pages from [a] on. *)
Definition attach (s a : Z) (l : list VMRange) : list VMRange :=
  match l with
  | r :: l' => if vm_start r =? a then mkVMRange s (vm_end r) :: l' else mkVMRange s a :: l
  | [] => [mkVMRange s a]
  end.

Fixpoint page_runs (committed : bool) (addr : Z) (bits : list bool) : list VMRange :=
  match bits with
  | [] => []
  | b :: bits =>
      let rest := page_runs committed (addr + PAGE_SIZE) bits in
      if eqb b committed then attach addr (addr + PAGE_SIZE) rest else rest
  end.

(** Ranges in address order with a gap between any two: maximal runs. *)
Inductive ranges_separated : Z -> list VMRange -> Prop :=
| separated_nil lo : ranges_separated lo []
| separated_cons lo r l :
    lo <= vm_start r -> vm_start r < vm_end r ->
    ranges_separated (vm_end r + PAGE_SIZE) l -> ranges_separated lo (r :: l).
#[export] Hint Constructors ranges_separated : occlum.

Lemma ranges_separated_weaken lo lo' l :
  lo' <= lo -> ranges_separated lo l -> ranges_separated lo' l.
Proof. intros ? H. inversion H; subst; constructor; auto; lia. Qed.

Lemma attach_attach s a b l : attach s a (attach a b l) = attach s b l.
Proof.
  destruct l as [|r l]; simpl; [by rewrite Z.eqb_refl|].
  destruct (vm_start r =? b); simpl; by rewrite Z.eqb_refl.
Qed.

Definition range_pages (r : VMRange) : Prop := page_aligned (vm_start r) /\ page_aligned (vm_end r).

Lemma attach_separated s a l :
  s < a -> page_aligned s -> page_aligned a -> Forall range_pages l -> ranges_separated a l ->
  ranges_separated s (attach s a l) /\ Forall range_pages (attach s a l).
Proof.
  intros Hs Hps Hpa Hp Hl. inversion Hl as [|? r l' Hr Hne Hl']; subst; simpl.
  { split; [constructor; simpl; auto with occlum lia|]. by repeat constructor. }
  inversion Hp as [|? ? [Hrs Hre] Hp']; subst.
  case_if; boolprop; (split; [|by repeat constructor]).
  - constructor; simpl; auto; lia.
  - constructor; simpl; try lia. constructor; auto. pages.
Qed.

Lemma page_runs_separated committed addr bits :
  page_aligned addr ->
  ranges_separated addr (page_runs committed addr bits)
  /\ Forall range_pages (page_runs committed addr bits).
Proof.
  revert addr. induction bits as [|b bits IH]; intros addr Ha; simpl; [auto with occlum|].
  assert (Ha' : page_aligned (addr + PAGE_SIZE)) by pages.
  destruct (IH _ Ha') as [Hs Hf]. case_if; [|].
  - apply attach_separated; auto. pages.
  - split; [|done]. eapply ranges_separated_weaken; [|done]. pages.
Qed.

Lemma in_ranges_attach s a l x :
  s <= a -> ranges_separated a l ->
  in_ranges x (attach s a l) <-> s <= x < a \/ in_ranges x l.
Proof.
  intros Hs Hl. inversion Hl as [|? r l' Hr Hne _]; subst; simpl.
  - in_ranges_simpl. vmrange_unfold. lia.
  - case_if; boolprop; in_ranges_simpl; vmrange_unfold; [|tauto].
    split; [intros [?|?]; [|tauto]|intros [?|[?|?]]; [left..|tauto]]; lia.
Qed.

(** An address is in a run iff the bit of its page has the wanted value. *)
Lemma in_ranges_page_runs committed addr bits x :
  page_aligned addr ->
  in_ranges x (page_runs committed addr bits)
  <-> addr <= x /\ bits !! Z.to_nat ((x - addr) / PAGE_SIZE) = Some committed.
Proof.
  revert addr. induction bits as [|b bits IH]; intros addr Ha.
  { simpl. rewrite in_ranges_nil, lookup_nil. naive_solver. }
  assert (Ha' : page_aligned (addr + PAGE_SIZE)) by pages.
  pose proof (proj1 (page_runs_separated committed _ bits Ha')) as Hsep.
  cbn [page_runs].
  assert (Hlk : addr <= x ->
     (b :: bits) !! Z.to_nat ((x - addr) / PAGE_SIZE)
     = if decide (x < addr + PAGE_SIZE) then Some b
       else bits !! Z.to_nat ((x - (addr + PAGE_SIZE)) / PAGE_SIZE)).
  { intros Hx. case_decide.
    - by replace (Z.to_nat ((x - addr) / PAGE_SIZE)) with 0%nat by pages.
    - replace (Z.to_nat ((x - addr) / PAGE_SIZE))
        with (S (Z.to_nat ((x - (addr + PAGE_SIZE)) / PAGE_SIZE))) by pages. done. }
  destruct (decide (addr <= x)) as [Hx|Hx].
  - rewrite Hlk by done. case_if.
    + apply eqb_prop in Heqb0 as ->. rewrite in_ranges_attach, IH by (auto; pages).
      case_decide; [naive_solver lia|]. naive_solver lia.
    + apply eqb_false_iff in Heqb0. rewrite IH by done. case_decide; naive_solver lia.
  - case_if; rewrite ?in_ranges_attach, IH by (auto; pages); naive_solver pages.
Qed.

Lemma new_with_size_Ok start size :
  page_aligned start -> page_aligned size -> 0 <= size -> start + size < u64_modulus ->
  VMRange_new_with_size start size = Ok (mkVMRange start (start + size)).
Proof.
  intros Hs Hz H0 Hlt. unfold VMRange_new_with_size, checked_add64.
  case_if; boolprop; [|lia]. cbn [ok_or mbind Result_bind]. unfold VMRange_new.
  case_if; boolprop; [|done]. pages.
Qed.

(** * Well-formed trackers *)

Section tracker_facts.
Context {BF : Bitflags} {BV : BitVecs} {PL : Platform} {EN : Enclave}.

Abbreviation bits t := (bv_bits (pt_inner t)) (only parsing).

Record tracker_wf (t : PageTracker) : Prop := {
  tw_range : VMRange_wf (pt_range t);
  tw_len : Z.of_nat (length (bits t)) * PAGE_SIZE = vm_end (pt_range t) - vm_start (pt_range t);
  tw_full : bits t <> [] -> pt_fully_committed t = forallb (fun b => b) (bits t);
}.

(** ** [get_ranges] *)

Section get_ranges.
Context (t : PageTracker) (committed : bool).
Context (Hwf : tracker_wf t).

Abbreviation page_addr i := (vm_start (pt_range t) + i * PAGE_SIZE) (only parsing).
Abbreviation len := (bv_len (pt_inner t)) (only parsing).

Lemma tracker_run_range s n :
  0 <= s -> 0 <= n -> s + n <= len ->
  unwrap_result (VMRange_new_with_size (vm_start (pt_range t) +64 s *64 PAGE_SIZE) (PAGE_SIZE *64 n))
  = Ok (mkVMRange (page_addr s) (page_addr (s + n))).
Proof.
  intros Hs Hn Hl. destruct Hwf as [[] Hlen _]. unfold bv_len in Hl.
  rewrite (mul64_small s), (mul64_small PAGE_SIZE), add64_small by pages.
  rewrite new_with_size_Ok by pages. simpl. f_equal. f_equal. lia.
Qed.

Lemma tracker_index pre b suf :
  bits t = pre ++ b :: suf -> bv_index (pt_inner t) (Z.of_nat (length pre)) = Ok b.
Proof. intros H. unfold bv_index. by rewrite Nat2Z.id, H, list_lookup_middle. Qed.

Lemma get_ranges_step_spec pre b suf st ret :
  bits t = pre ++ b :: suf ->
  let i := Z.of_nat (length pre) in
  let a := page_addr i in
  (st = (None, None, ret) ->
   get_ranges_step t committed len st i
   = Ok (if eqb b committed
         then (Some i, Some i, if i =? len - 1 then ret ++ [mkVMRange a (a + PAGE_SIZE)] else ret)
         else (None, None, ret)))
  /\ (forall s, 0 <= s < i -> st = (Some s, Some (i - 1), ret) ->
      get_ranges_step t committed len st i
      = Ok (if eqb b committed
            then (Some s, Some i,
                  if i =? len - 1 then ret ++ [mkVMRange (page_addr s) (a + PAGE_SIZE)] else ret)
            else (None, None, ret ++ [mkVMRange (page_addr s) a]))).
Proof.
  intros Hb i a. assert (Hi : i + 1 <= len).
  { subst i. unfold bv_len. rewrite Hb, length_app. simpl. lia. }
  assert (Hlen : len < 2 ^ 53).
  { destruct Hwf as [[] Hlen _]. unfold bv_len. pages. }
  pose proof (tracker_index _ _ _ Hb) as Hix. fold i in Hix.
  split; [intros ->|intros s Hs ->]; unfold get_ranges_step; rewrite Hix;
    cbn [mbind Result_bind]; case_if; try done.
  - case_if; [|done].
    replace PAGE_SIZE with (PAGE_SIZE *64 1) at 2 by (by vm_compute).
    rewrite tracker_run_range by lia. cbn [mbind Result_bind]. subst a. do 5 f_equal. lia.
  - case_if; [|done].
    rewrite (sub64_small i s), (add64_small (i - s)) by (unfold u64_modulus; lia).
    rewrite tracker_run_range by lia. cbn [mbind Result_bind]. subst a. do 5 f_equal. lia.
  - rewrite (sub64_small (i - 1) s), (add64_small (i - 1 - s)) by (unfold u64_modulus; lia).
    rewrite tracker_run_range by lia. cbn [mbind Result_bind]. subst a. do 5 f_equal. lia.
Qed.

Lemma get_ranges_loop_spec suf : forall pre ret st,
  bits t = pre ++ suf ->
  let i := Z.of_nat (length pre) in
  let run st := get_ranges_loop t committed len st (Z.of_nat <$> seq (length pre) (length suf)) in
  (st = (None, None, ret) ->
   exists st', run st = Ok st' /\ st'.2 = ret ++ page_runs committed (page_addr i) suf)
  /\ (forall s, 0 <= s < i -> suf <> [] -> st = (Some s, Some (i - 1), ret) ->
      exists st', run st = Ok st'
        /\ st'.2 = ret ++ attach (page_addr s) (page_addr i) (page_runs committed (page_addr i) suf)).
Proof.
  induction suf as [|b suf IH]; intros pre ret st Hb i run.
  { split; [|done]. intros ->. eexists. split; [done|]. by rewrite app_nil_r. }
  assert (Hb' : bits t = (pre ++ [b]) ++ suf) by (by rewrite <- app_assoc).
  assert (Hlast : i = len - 1 <-> suf = []).
  { subst i. unfold bv_len. rewrite Hb, length_app. destruct suf; simpl; split; intros; try lia; done. }
  assert (Hnext : page_addr i + PAGE_SIZE = page_addr (Z.of_nat (length (pre ++ [b]))))
    by (subst i; rewrite length_app; simpl; lia).
  assert (Hi' : Z.of_nat (length (pre ++ [b])) = i + 1) by (subst i; rewrite length_app; simpl; lia).
  pose proof (get_ranges_step_spec pre b suf st ret Hb) as [Hstep1 Hstep2].
  unfold run. cbn [length seq fmap list_fmap get_ranges_loop page_runs].
  replace (S (length pre)) with (length (pre ++ [b])) by (rewrite length_app; simpl; lia).
  split; [intros ->; rewrite Hstep1 by done|intros s Hs _ ->; rewrite (Hstep2 s) by done];
    cbn [mbind Result_bind]; fold i; rewrite Hnext;
    (destruct (eqb b committed) eqn:Heq; [destruct (i =? len - 1) eqn:Hl; boolprop|]).
  - apply Hlast in Hl as ->. simpl. eexists. split; [done|]. by rewrite <- Hnext.
  - destruct (IH _ ret (Some i, Some i, ret) Hb') as [_ IH2].
    apply (IH2 i); [lia| |repeat f_equal; lia]. intros ->. by apply Hl, Hlast.
  - by apply (IH _ ret (None, None, ret) Hb').
  - apply Hlast in Hl as ->. simpl. eexists. split; [done|]. by rewrite Z.eqb_refl, <- Hnext.
  - destruct (IH _ ret (Some s, Some i, ret) Hb') as [_ IH2]. rewrite attach_attach.
    apply IH2; [lia| |repeat f_equal; lia]. intros ->. by apply Hl, Hlast.
  - destruct (IH _ (ret ++ [mkVMRange (page_addr s) (page_addr i)])
                (None, None, ret ++ [mkVMRange (page_addr s) (page_addr i)]) Hb') as [IH1 _].
    destruct IH1 as (st' & Hrun & Hst); [done|]. exists st'. split; [done|].
    rewrite Hst, <- app_assoc. f_equal. rewrite <- Hnext.
    assert (page_aligned (page_addr i + PAGE_SIZE)) as Hp by (destruct Hwf as [[] _ _]; pages).
    destruct (page_runs_separated committed _ suf Hp) as [Hsep _].
    inversion Hsep as [|? r l Hr]; simpl; [done|]. case_if; [|done]. pages.
Qed.

End get_ranges.

Lemma page_runs_all (c d : bool) l addr :
  l <> [] -> Forall (eq c) l ->
  page_runs d addr l
  = if eqb c d then [mkVMRange addr (addr + Z.of_nat (length l) * PAGE_SIZE)] else [].
Proof.
  intros Hne Hall. revert addr. induction l as [|b l IH]; intros addr; [done|].
  apply Forall_cons_iff in Hall as [<- Hall']. cbn [page_runs]. destruct l as [|b' l].
  - by destruct (eqb c d).
  - rewrite IH by done. destruct (eqb c d); [|done]. simpl. rewrite Z.eqb_refl.
    do 2 f_equal. lia.
Qed.

Lemma forallb_id_Forall l : forallb (fun b => b) l = true <-> Forall (eq true) l.
Proof.
  induction l as [|[] l IH]; simpl; rewrite ?Forall_cons_iff; naive_solver.
Qed.

Lemma existsb_id_Forall l : existsb (fun b => b) l = false <-> Forall (eq false) l.
Proof. induction l as [|[] l IH]; simpl; rewrite ?Forall_cons_iff; naive_solver. Qed.

(** [get_ranges] computes the maximal runs of pages. *)
Lemma get_ranges_runs t committed :
  tracker_wf t -> bits t <> [] ->
  PageTracker_get_ranges t committed
  = Ok (page_runs committed (vm_start (pt_range t)) (bits t)).
Proof.
  intros Hwf Hne. unfold PageTracker_get_ranges, PageTracker_is_fully_committed,
    PageTracker_is_reserved_only. destruct (Hwf) as [_ Hlen Hfull]. specialize (Hfull Hne).
  assert (Hr : mkVMRange (vm_start (pt_range t))
     (vm_start (pt_range t) + Z.of_nat (length (bits t)) * PAGE_SIZE) = pt_range t).
  { destruct (pt_range t); simpl in *. f_equal. lia. }
  destruct (pt_fully_committed t) eqn:Hf.
  { symmetry in Hfull. apply forallb_id_Forall in Hfull.
    rewrite (page_runs_all true) by done. rewrite Hr. by destruct committed. }
  cbn [negb andb]. rewrite bv_not_any_law. destruct (existsb (fun b => b) (bits t)) eqn:Hany;
    cbn [negb]; cycle 1.
  { apply existsb_id_Forall in Hany.
    rewrite (page_runs_all false) by done. rewrite Hr. by destruct committed. }
  edestruct (get_ranges_loop_spec t committed Hwf (bits t) [] [] (None, None, []) eq_refl)
    as [(st' & Hrun & Hst) _]; [done|]. simpl in Hrun. rewrite Hrun. simpl.
  by rewrite Hst, Z.add_0_r.
Qed.

(** ** Trackers as sets of pages

    [tracks t P]: the bit of each page of [t] is [P] at the page's address. *)

Definition page_index (t : PageTracker) (a : Z) : nat :=
  Z.to_nat ((a - vm_start (pt_range t)) / PAGE_SIZE).

Definition tracks (t : PageTracker) (P : Z -> bool) : Prop :=
  forall a, page_aligned a -> a ∈ pt_range t -> bits t !! page_index t a = Some (P a).

Lemma tracks_proper t P Q :
  (forall a, page_aligned a -> a ∈ pt_range t -> P a = Q a) -> tracks t P -> tracks t Q.
Proof. intros HPQ Ht a Ha Hin. rewrite <- HPQ by done. by apply Ht. Qed.

Lemma lookup_splice {A} (l m : list A) (i k : nat) :
  (i + length m <= length l)%nat ->
  (take i l ++ m ++ drop (i + length m) l) !! k
  = if decide (i <= k < i + length m)%nat then m !! (k - i)%nat else l !! k.
Proof.
  intros Hl. destruct (decide (k < i)%nat) as [Hk|Hk].
  { rewrite lookup_app_l, lookup_take_lt by (rewrite ?length_take; lia).
    case_decide; [lia|done]. }
  rewrite lookup_app_r by (rewrite length_take; lia). rewrite length_take, Nat.min_l by lia.
  case_decide.
  - by rewrite lookup_app_l by lia.
  - rewrite lookup_app_r, lookup_drop by lia. f_equal. lia.
Qed.

Lemma if_true_or (b f : bool) : (f = true -> b = true) -> (if b then true else f) = b.
Proof. destruct b, f; naive_solver. Qed.

(** The slots of a well-formed tracker that belong to a sub-range. *)
Lemma page_index_range t r :
  tracker_wf t -> VMRange_wf r -> vm_start (pt_range t) <= vm_start r -> vm_end r <= vm_end (pt_range t) ->
  let i := (vm_start r -64 vm_start (pt_range t)) / PAGE_SIZE in
  let n := VMRange_size r / PAGE_SIZE in
  0 <= i /\ 0 <= n /\ i + n <= bv_len (pt_inner t)
  /\ (forall a, page_aligned a -> a ∈ pt_range t ->
      Z.to_nat i <= page_index t a < Z.to_nat i + Z.to_nat n <-> a ∈ r)%nat
  /\ (forall a, a ∈ r -> Z.to_nat ((a - vm_start r) / PAGE_SIZE) = (page_index t a - Z.to_nat i)%nat)
  /\ i = (vm_start r - vm_start (pt_range t)) / PAGE_SIZE.
Proof.
  intros [[] Hlen _] Hr Hs He i n. destruct (Hr).
  assert (Hi : i = (vm_start r - vm_start (pt_range t)) / PAGE_SIZE)
    by (subst i; rewrite sub64_small by lia; done).
  assert (Hn : n = (vm_end r - vm_start r) / PAGE_SIZE)
    by (subst n; rewrite VMRange_size_wf by done; done).
  rewrite Hi, Hn. clearbody i n. unfold bv_len, page_index.
  split_and!; [pages|pages|pages| | |done]; vmrange_unfold.
  - intros a Ha Hin. split; intros; pages.
  - intros a Hin. pages.
Qed.

(** A tracker stays well-formed when the slots of a sub-range are overwritten. *)
Lemma splice_wf t inner i m :
  tracker_wf t -> bits t <> [] -> (i + length m <= length (bits t))%nat ->
  bv_bits inner = take i (bits t) ++ m ++ drop (i + length m) (bits t) ->
  (Forall (eq true) (bits t) -> Forall (eq true) m) ->
  tracker_wf (mkPageTracker (pt_type t) (pt_range t) inner
                (if bv_all inner then true else pt_fully_committed t)).
Proof.
  intros [Hwr Hlen Hfull] Hne Hl Hb Hm.
  constructor; cbn [pt_range pt_inner pt_fully_committed]; [done| |intros _].
  - rewrite Hb, !length_app, length_take, length_drop, <- Hlen. f_equal. lia.
  - rewrite bv_all_law, Hb. apply if_true_or. rewrite Hfull by done.
    rewrite !forallb_id_Forall, !Forall_app. intros Hf. split_and!; auto.
    + by apply Forall_take.
    + by apply Forall_drop.
Qed.

Lemma tracker_nonempty t :
  tracker_wf t -> vm_start (pt_range t) < vm_end (pt_range t) -> bits t <> [].
Proof. intros [_ Hlen _] Hlt Hnil. rewrite Hnil in Hlen. simpl in Hlen. lia. Qed.

Lemma commit_bits_spec t P r :
  tracker_wf t -> tracks t P -> VMRange_wf r -> vm_start r < vm_end r ->
  vm_start (pt_range t) <= vm_start r -> vm_end r <= vm_end (pt_range t) ->
  exists t', commit_bits t ((vm_start r -64 vm_start (pt_range t)) / PAGE_SIZE)
               (VMRange_size r / PAGE_SIZE) = Ok t'
    /\ tracker_wf t' /\ pt_range t' = pt_range t
    /\ tracks t' (fun a => P a || bool_decide (a ∈ r)).
Proof.
  intros Hwf Ht Hr Hne Hs He.
  destruct (page_index_range t r Hwf Hr Hs He) as (Hi & Hn & Hin & Hidx & _).
  set (i := (_ -64 _) / _) in *. set (n := VMRange_size r / _) in *. clearbody i n.
  unfold commit_bits. case_if; boolprop; [lia|]. eexists. split; [reflexivity|].
  assert (Hbits : bv_bits (bv_fill_range (pt_inner t) (Z.to_nat i) (Z.to_nat n) true)
    = take (Z.to_nat i) (bits t) ++ replicate (Z.to_nat n) true
      ++ drop (Z.to_nat i + length (replicate (Z.to_nat n) true)) (bits t)).
  { rewrite length_replicate. apply bv_fill_range_law. unfold bv_len in *. lia. }
  unfold bv_len in *. split_and!; [|done|].
  - apply (splice_wf t _ (Z.to_nat i) (replicate (Z.to_nat n) true));
      [done| |rewrite length_replicate; lia|done|].
    + apply tracker_nonempty; [done|lia].
    + intros _. by apply Forall_replicate.
  - intros a Ha Hina. cbn [pt_range pt_inner] in *. unfold page_index. cbn [pt_range].
    rewrite Hbits, lookup_splice by (rewrite length_replicate; lia). rewrite length_replicate.
    specialize (Hidx a Ha Hina). unfold page_index in Hidx. case_decide as Hd.
    + rewrite lookup_replicate_2 by lia.
      by rewrite bool_decide_eq_true_2, orb_true_r by tauto.
    + rewrite bool_decide_eq_false_2, orb_false_r by tauto. by apply Ht.
Qed.

(** The intersection of two ranges that meet. *)
Lemma VMRange_intersect_meet s o :
  VMRange_wf s -> VMRange_wf o -> vm_start s < vm_end o -> vm_start o < vm_end s ->
  vm_start s < vm_end s -> vm_start o < vm_end o ->
  exists r, VMRange_intersect s o = Some r /\ VMRange_wf r /\ vm_start r < vm_end r
    /\ vm_start s <= vm_start r /\ vm_end r <= vm_end s
    /\ vm_start o <= vm_start r /\ vm_end r <= vm_end o
    /\ forall a, a ∈ r <-> a ∈ s /\ a ∈ o.
Proof.
  intros Hs Ho ? ? ? ?. destruct (VMRange_intersect s o) as [r|] eqn:Hi.
  - exists r. pose proof (VMRange_wf_intersect _ _ _ Hs Ho Hi).
    apply VMRange_intersect_Some in Hi as [-> ?]. simpl in *.
    split_and!; auto; try lia. intros a. vmrange_unfold. lia.
  - unfold VMRange_intersect in Hi. case_in Hi. lia.
Qed.

(** Committing the pages of a range that meets the tracker's. *)
Lemma commit_pages_common_spec t P s n :
  tracker_wf t -> tracks t P ->
  page_aligned s -> page_aligned n -> 0 <= s -> 0 < n -> s + n < u64_modulus ->
  s < vm_end (pt_range t) -> vm_start (pt_range t) < s + n ->
  vm_start (pt_range t) < vm_end (pt_range t) ->
  exists t', PageTracker_commit_pages_common t s n = Ok t'
    /\ tracker_wf t' /\ pt_range t' = pt_range t
    /\ tracks t' (fun a => P a || bool_decide (a ∈ mkVMRange s (s + n))).
Proof.
  intros Hwf Ht Hs Hn Hs0 Hn0 Hsn Hlt1 Hlt2 Hne. unfold PageTracker_commit_pages_common.
  rewrite new_with_size_Ok by (auto; lia). cbn [unwrap_result mbind Result_bind].
  assert (Hwr : VMRange_wf (mkVMRange s (s + n))).
  { constructor; simpl; try done; try lia. pages. }
  destruct (VMRange_intersect_meet (pt_range t) (mkVMRange s (s + n)))
    as (r & -> & Hr & Hrne & ? & ? & _ & _ & Hin); simpl; auto using tw_range; try lia.
  destruct (commit_bits_spec t P r Hwf Ht Hr) as (t' & -> & Hwf' & Hrg & Htr); try lia.
  exists t'. split_and!; auto. eapply tracks_proper; [|done]. intros a Ha Hina.
  rewrite Hrg in Hina. simpl. f_equal. apply bool_decide_ext. rewrite Hin. tauto.
Qed.

(** Copying the bits of a global tracker into an area's tracker. *)
Lemma set_committed_pages_for_vma_tracker_spec g t P Q :
  tracker_wf g -> tracker_wf t -> tracks g Q -> tracks t P ->
  vm_start (pt_range g) < vm_end (pt_range t) -> vm_start (pt_range t) < vm_end (pt_range g) ->
  vm_start (pt_range g) < vm_end (pt_range g) -> vm_start (pt_range t) < vm_end (pt_range t) ->
  (forall a, a ∈ pt_range g -> P a = false) ->
  exists t', PageTracker_set_committed_pages_for_vma_tracker g t = Ok t'
    /\ tracker_wf t' /\ pt_range t' = pt_range t
    /\ tracks t' (fun a => if bool_decide (a ∈ pt_range g) then Q a else P a).
Proof.
  intros Hwg Hwt Hg Ht Hlt1 Hlt2 Hng Hnt HP. unfold PageTracker_set_committed_pages_for_vma_tracker.
  destruct (VMRange_intersect_meet (pt_range g) (pt_range t))
    as (r & -> & Hr & Hrne & Hg1 & Hg2 & Ht1 & Ht2 & Hin); auto using tw_range; try lia.
  destruct (page_index_range g r Hwg Hr Hg1 Hg2) as (Hgi & Hgn & Hgin & Hgx & Hgix & _).
  destruct (page_index_range t r Hwt Hr Ht1 Ht2) as (Hti & Htn & Htin & Htix & Htix' & _).
  set (j := (_ -64 vm_start (pt_range g)) / _) in *.
  set (i := (_ -64 vm_start (pt_range t)) / _) in *.
  set (n := VMRange_size r / _) in *. clearbody i j n.
  case_if; boolprop; [lia|]. eexists. split; [reflexivity|]. unfold bv_len in *.
  set (m := take (Z.to_nat n) (drop (Z.to_nat j) (bits g))).
  assert (Hm : length m = Z.to_nat n) by (subst m; rewrite length_take, length_drop; lia).
  assert (Hbits : bv_bits (bv_copy_range (pt_inner t) (Z.to_nat i) (pt_inner g) (Z.to_nat j) (Z.to_nat n))
    = take (Z.to_nat i) (bits t) ++ m ++ drop (Z.to_nat i + length m) (bits t)).
  { rewrite Hm. apply bv_copy_range_law; lia. }
  split_and!; [|done|].
  - apply (splice_wf t _ (Z.to_nat i) m); [done|by apply tracker_nonempty|rewrite Hm; lia|done|].
    intros Hall. exfalso. (* a page of the intersection has bit false *)
    assert (Hst : vm_start r ∈ pt_range t /\ vm_start r ∈ pt_range g) by (vmrange_unfold; lia).
    specialize (Ht (vm_start r) (wf_start_aligned _ Hr) (proj1 Hst)).
    rewrite HP in Ht by apply Hst. rewrite List.Forall_forall in Hall.
    apply list_elem_of_lookup_2, list_elem_of_In, Hall in Ht. done.
  - intros a Ha Hina. cbn [pt_range pt_inner] in *. unfold page_index at 1. cbn [pt_range].
    rewrite Hbits, lookup_splice by (rewrite Hm; lia). rewrite Hm.
    specialize (Htix a Ha Hina). fold (page_index t a). case_decide as Hd.
    + assert (Hr' : a ∈ r) by tauto. apply Hin in Hr' as Hrr.
      rewrite bool_decide_eq_true_2 by tauto. subst m.
      rewrite lookup_take_lt, lookup_drop by lia. rewrite <- (Hg a Ha) by tauto. f_equal.
      specialize (Hgix a Hr'). specialize (Htix' a Hr').
      specialize (proj2 (Hgx a Ha (proj1 Hrr)) Hr'). lia.
    + rewrite bool_decide_eq_false_2 by (intros ?; apply Hd, Htix, Hin; done). by apply Ht.
Qed.

(** ** The global manager *)

Definition chunk_range (c : Z) : VMRange := mkVMRange c (c + PAGE_CHUNK_UNIT).

Record page_chunk_wf (c : Z) (pc : GlobalPageChunk) : Prop := {
  pc_nonneg : 0 <= c;
  pc_aligned : c mod PAGE_CHUNK_UNIT = 0;
  pc_bound : c + PAGE_CHUNK_UNIT < u64_modulus;
  pc_tracker :
    match gpc_tracker pc with
    | Some t => gpc_fully_committed pc = false /\ tracker_wf t /\ pt_range t = chunk_range c
                /\ pt_fully_committed t = false
    | None => gpc_fully_committed pc = true
    end;
}.

Definition pcm_wf (g : PageChunkManager) : Prop := map_Forall page_chunk_wf g.

(** The set of committed pages that the manager represents. *)
Definition committed_in (g : PageChunkManager) (a : Z) : bool :=
  match PageChunkManager_is_committed g a with Ok b => b | _ => false end.

(** The part of that set in one chunk. *)
Definition chunk_committed (pc : option GlobalPageChunk) (a : Z) : bool :=
  match pc with
  | Some pc => match gpc_tracker pc with
               | Some t => default false (bits t !! page_index t a)
               | None => true
               end
  | None => false
  end.

Definition chunk_of (a : Z) : Z := a / PAGE_CHUNK_UNIT * PAGE_CHUNK_UNIT.

Lemma is_committed_spec g a :
  pcm_wf g -> is_u64 a -> page_aligned a ->
  PageChunkManager_is_committed g a = Ok (chunk_committed (g !! chunk_of a) a).
Proof.
  intros Hg Ha Hp. unfold PageChunkManager_is_committed, chunk_committed.
  rewrite align_down_page, get_page_chunk_start_addr_eq by done. fold (chunk_of a).
  destruct (g !! chunk_of a) as [pc|] eqn:Hpc; [|done].
  destruct (Hg _ _ Hpc) as [? ? ? Ht]. destruct (gpc_tracker pc) as [t|]; [|done].
  destruct Ht as (_ & Hwf & Hr & _). unfold page_index. rewrite Hr. simpl.
  assert (Hin : chunk_of a <= a < chunk_of a + PAGE_CHUNK_UNIT)
    by (unfold chunk_of, is_u64 in *; pages).
  rewrite sub64_small by (unfold is_u64 in *; lia). unfold bv_index.
  destruct (bits t !! _) eqn:Hl; [done|].
  apply lookup_ge_None in Hl. destruct Hwf as [_ Hlen _]. rewrite Hr in Hlen. simpl in Hlen. pages.
Qed.

Lemma committed_in_spec g a :
  pcm_wf g -> is_u64 a -> page_aligned a ->
  committed_in g a = chunk_committed (g !! chunk_of a) a.
Proof. intros. unfold committed_in. by rewrite is_committed_spec. Qed.

Lemma chunk_tracks g c pc t :
  pcm_wf g -> g !! c = Some pc -> gpc_tracker pc = Some t ->
  tracks t (fun a => committed_in g a).
Proof.
  intros Hg Hc Ht a Ha Hin. destruct (Hg _ _ Hc) as [? ? ? Hw]. rewrite Ht in Hw.
  destruct Hw as (_ & Hwf & Hr & _). rewrite Hr in Hin.
  assert (Hca : chunk_of a = c) by (unfold chunk_of, chunk_range in *; vmrange_unfold; pages).
  rewrite committed_in_spec; [|done|unfold is_u64, chunk_range in *; vmrange_unfold; pages|done].
  rewrite Hca, Hc. simpl. rewrite Ht. simpl.
  destruct (bits t !! page_index t a) eqn:Hl; [done|].
  apply lookup_ge_None in Hl. destruct Hwf as [_ Hlen _]. unfold page_index in Hl.
  rewrite Hr in *. unfold chunk_range in *. vmrange_unfold. pages.
Qed.

(** Replacing the entry of one chunk by one that represents the set [Q] there. *)
Lemma pcm_insert g c pc (Q : Z -> bool) :
  pcm_wf g -> page_chunk_wf c pc ->
  (forall a, page_aligned a -> a ∈ chunk_range c -> chunk_committed (Some pc) a = Q a) ->
  pcm_wf (<[c := pc]> g)
  /\ forall a, is_u64 a -> page_aligned a ->
     committed_in (<[c := pc]> g) a = if decide (chunk_of a = c) then Q a else committed_in g a.
Proof.
  intros Hg Hpc HQ. assert (Hg' : pcm_wf (<[c := pc]> g)) by (by apply map_Forall_insert_2).
  split; [done|]. intros a Ha Hp. rewrite !committed_in_spec by done. case_decide as Hd.
  - subst c. rewrite lookup_insert_eq. apply HQ; [done|].
    unfold chunk_range, chunk_of, is_u64 in *. vmrange_unfold. pages.
  - by rewrite lookup_insert_ne.
Qed.

Lemma full_tracker_bit t P a :
  tracker_wf t -> pt_fully_committed t = true -> tracks t P ->
  page_aligned a -> a ∈ pt_range t -> P a = true.
Proof.
  intros Hwf Hf Ht Ha Hin. specialize (Ht a Ha Hin). rewrite (tw_full _ Hwf) in Hf.
  - apply forallb_id_Forall in Hf. rewrite List.Forall_forall in Hf.
    symmetry. apply Hf, list_elem_of_In. by eapply list_elem_of_lookup_2.
  - intros Hnil. by rewrite Hnil in Ht.
Qed.

Lemma chunk_of_range a c :
  is_u64 a -> c mod PAGE_CHUNK_UNIT = 0 -> chunk_of a = c <-> a ∈ chunk_range c.
Proof. intros Ha Hc. unfold chunk_of, chunk_range, is_u64 in *. vmrange_unfold. pages. Qed.

Lemma set_committed_pages_of_chunk_spec w s n c :
  pcm_wf (w_pcm w) -> is_Some (w_pcm w !! c) ->
  page_aligned s -> page_aligned n -> 0 <= s -> 0 < n -> s + n < u64_modulus ->
  s < c + PAGE_CHUNK_UNIT -> c < s + n ->
  exists w', set_committed_pages_of_chunk s n c w = (Ok tt, w')
    /\ w_mem w' = w_mem w /\ pcm_wf (w_pcm w')
    /\ (forall c', is_Some (w_pcm w' !! c') <-> is_Some (w_pcm w !! c'))
    /\ forall a, is_u64 a -> page_aligned a ->
       committed_in (w_pcm w') a
       = committed_in (w_pcm w) a
         || bool_decide (a ∈ mkVMRange s (s + n) /\ chunk_of a = c).
Proof.
  intros Hg [pc Hc] Hs Hn Hs0 Hn0 Hsn Hlt1 Hlt2. destruct (Hg _ _ Hc) as [Hc0 Hca Hcb Hpc].
  unfold set_committed_pages_of_chunk. rewrite (bind_ok _ _ _ w w) by done.
  rewrite Hc. cbn [unwrap_option]. rewrite (bind_ok _ _ _ pc w) by done.
  destruct (gpc_tracker pc) as [t|] eqn:Ht; cycle 1.
  { eexists. split; [reflexivity|]. split_and!; auto. intros a Ha Hp.
    rewrite committed_in_spec by done. destruct (decide (chunk_of a = c)) as [->|Hne].
    - by rewrite Hc; simpl; rewrite Ht.
    - rewrite bool_decide_eq_false_2, orb_false_r by tauto. done. }
  destruct Hpc as (Hpf & Hwf & Hr & Hnf). pose proof (chunk_tracks _ _ _ _ Hg Hc Ht) as Htr.
  destruct (commit_pages_common_spec t _ s n Hwf Htr) as (t' & Ht' & Hwf' & Hr' & Htr');
    try done; try (rewrite Hr; simpl; pages).
  rewrite (bind_ok _ _ _ t' w) by (unfold lift; by rewrite Ht').
  erewrite bind_ok by reflexivity.
  set (Q a := committed_in (w_pcm w) a || bool_decide (a ∈ mkVMRange s (s + n))).
  set (pc' := if pt_fully_committed t' then mkGlobalPageChunk true None
              else mkGlobalPageChunk (gpc_fully_committed pc) (Some t')).
  assert (Hpc' : page_chunk_wf c pc').
  { constructor; auto. subst pc'. destruct (pt_fully_committed t') eqn:Hf; simpl; auto.
    split_and!; auto. congruence. }
  assert (HQ : forall a, page_aligned a -> a ∈ chunk_range c -> chunk_committed (Some pc') a = Q a).
  { intros a Ha Hin. rewrite <- Hr, <- Hr' in Hin. subst pc'.
    destruct (pt_fully_committed t') eqn:Hf; simpl.
    - symmetry. by eapply (full_tracker_bit t').
    - by rewrite (Htr' a Ha Hin). }
  destruct (pcm_insert _ c pc' Q Hg Hpc' HQ) as [Hg' Hcom].
  exists (mkWorld _ _ (w_mem w) (<[c := pc']> (w_pcm w))). split_and!; auto.
  - subst pc'. destruct (pt_fully_committed t'); [|done].
    unfold insert_page_chunk. simpl. by rewrite insert_insert_eq.
  - intros c'. simpl. destruct (decide (c = c')) as [->|Hne];
      [rewrite lookup_insert_eq, Hc; naive_solver | by rewrite lookup_insert_ne].
  - intros a Ha Hp. simpl. rewrite Hcom by done. case_decide as Hd.
    + subst Q. simpl. f_equal. apply bool_decide_ext. tauto.
    + rewrite bool_decide_eq_false_2, orb_false_r by tauto. done.
Qed.

(** Every chunk that a range touches has an entry. *)
Definition covered (g : PageChunkManager) (r : VMRange) : Prop :=
  forall c, c ∈ page_chunks_of (vm_start r) (vm_end r) -> is_Some (g !! c).

Lemma set_committed_loop_spec s n cs : forall w,
  pcm_wf (w_pcm w) ->
  page_aligned s -> page_aligned n -> 0 <= s -> 0 < n -> s + n < u64_modulus ->
  (forall c, c ∈ cs -> is_Some (w_pcm w !! c) /\ s < c + PAGE_CHUNK_UNIT /\ c < s + n) ->
  exists w', for_each (set_committed_pages_of_chunk s n) cs w = (Ok tt, w')
    /\ w_mem w' = w_mem w /\ pcm_wf (w_pcm w')
    /\ (forall c', is_Some (w_pcm w' !! c') <-> is_Some (w_pcm w !! c'))
    /\ forall a, is_u64 a -> page_aligned a ->
       committed_in (w_pcm w') a
       = committed_in (w_pcm w) a
         || bool_decide (a ∈ mkVMRange s (s + n) /\ chunk_of a ∈ cs).
Proof.
  induction cs as [|c cs IH]; intros w Hg Hs Hn Hs0 Hn0 Hsn Hcs.
  { exists w. split_and!; auto. intros a _ _.
    rewrite bool_decide_eq_false_2, orb_false_r by (intros [_ ?%elem_of_nil]; done). done. }
  destruct (Hcs c) as (Hc & ? & ?); [by left|].
  destruct (set_committed_pages_of_chunk_spec w s n c) as (w1 & Hw1 & Hm1 & Hg1 & Hd1 & Hc1); auto.
  destruct (IH w1) as (w2 & Hw2 & Hm2 & Hg2 & Hd2 & Hc2); auto.
  { intros c' Hc'. rewrite Hd1. apply Hcs. by right. }
  exists w2. simpl. erewrite bind_ok by exact Hw1. split_and!; auto; [congruence| |].
  - intros c'. by rewrite Hd2, Hd1.
  - intros a Ha Hp. rewrite Hc2, Hc1, <- orb_assoc by done. f_equal.
    rewrite <- bool_decide_or. apply bool_decide_ext. rewrite elem_of_cons. tauto.
Qed.

Lemma range_chunk_of r a :
  VMRange_wf r -> a ∈ r -> chunk_of a ∈ page_chunks_of (vm_start r) (vm_end r).
Proof.
  intros [] Ha. apply elem_of_page_chunks_of; [unfold is_u64; lia|].
  unfold chunk_of in *. vmrange_unfold. pages.
Qed.

(** Syncing a committed range to the global manager adds exactly its pages. *)
Lemma set_committed_pages_for_global_tracker_spec w r :
  pcm_wf (w_pcm w) -> VMRange_wf r -> vm_start r < vm_end r -> covered (w_pcm w) r ->
  exists w', PageTracker_set_committed_pages_for_global_tracker (vm_start r) (VMRange_size r) w
             = (Ok tt, w')
    /\ w_mem w' = w_mem w /\ pcm_wf (w_pcm w')
    /\ (forall c', is_Some (w_pcm w' !! c') <-> is_Some (w_pcm w !! c'))
    /\ forall a, is_u64 a -> page_aligned a ->
       committed_in (w_pcm w') a = committed_in (w_pcm w) a || bool_decide (a ∈ r).
Proof.
  intros Hg Hr Hne Hcov. destruct (Hr). unfold PageTracker_set_committed_pages_for_global_tracker.
  rewrite VMRange_size_wf, add64_small by (auto; lia).
  replace (vm_start r + (vm_end r - vm_start r)) with (vm_end r) by lia.
  destruct (set_committed_loop_spec (vm_start r) (vm_end r - vm_start r)
    (page_chunks_of (vm_start r) (vm_end r)) w) as (w' & Hw' & Hm & Hg' & Hd & Hc); auto; try pages.
  { intros c Hc. split; [by apply Hcov|].
    apply elem_of_page_chunks_of in Hc; [|unfold is_u64; lia]. lia. }
  exists w'. split_and!; auto. intros a Ha Hp. rewrite Hc by done. f_equal.
  replace (mkVMRange _ _) with r by (destruct r; simpl; f_equal; lia).
  apply bool_decide_ext. split; [tauto|]. auto using range_chunk_of.
Qed.

(** ** Trackers of areas *)

(** [coherent g t]: the area's tracker agrees with the global manager, which has
    entries for the chunks it may commit. *)
Record coherent (g : PageChunkManager) (t : PageTracker) : Prop := {
  co_wf : tracker_wf t;
  co_tracks : tracks t (committed_in g);
  co_covered : covered g (pt_range t);
}.

Lemma VMRange_wf_u64 r a : VMRange_wf r -> a ∈ r -> is_u64 a.
Proof. intros [] ?. unfold is_u64. vmrange_unfold. lia. Qed.

Lemma fresh_page_chunk c :
  0 <= c -> c mod PAGE_CHUNK_UNIT = 0 -> c + PAGE_CHUNK_UNIT < u64_modulus ->
  exists gt, PageTracker_new_global_tracker c = Ok gt
    /\ page_chunk_wf c (GlobalPageChunk_new gt)
    /\ forall a, chunk_committed (Some (GlobalPageChunk_new gt)) a = false.
Proof.
  intros Hc0 Hca Hcb. unfold PageTracker_new_global_tracker.
  rewrite new_with_size_Ok by pages. cbn [mbind Result_bind]. eexists. split; [done|].
  split.
  - constructor; auto. simpl. split_and!; auto. constructor; simpl; rewrite ?bv_repeat_law.
    + constructor; simpl; pages.
    + rewrite length_replicate. pages.
    + intros _. by vm_compute.
  - intros a. simpl. rewrite bv_repeat_law.
    destruct (replicate _ _ !! _) as [b|] eqn:Hl; [|done]. by apply lookup_replicate in Hl as [-> _].
Qed.

Lemma get_committed_pages_of_chunk_spec w t P c :
  pcm_wf (w_pcm w) -> tracker_wf t -> tracks t P ->
  vm_start (pt_range t) < vm_end (pt_range t) ->
  (forall a, a ∈ chunk_range c -> P a = false) ->
  c mod PAGE_CHUNK_UNIT = 0 -> 0 <= c -> c + PAGE_CHUNK_UNIT < u64_modulus ->
  vm_start (pt_range t) < c + PAGE_CHUNK_UNIT -> c < vm_end (pt_range t) ->
  exists t' w', get_committed_pages_of_chunk t c w = (Ok t', w')
    /\ w_mem w' = w_mem w /\ pcm_wf (w_pcm w')
    /\ (forall c', is_Some (w_pcm w' !! c') <-> c' = c \/ is_Some (w_pcm w !! c'))
    /\ (forall a, is_u64 a -> page_aligned a -> committed_in (w_pcm w') a = committed_in (w_pcm w) a)
    /\ tracker_wf t' /\ pt_range t' = pt_range t
    /\ tracks t' (fun a => P a || committed_in (w_pcm w) a && bool_decide (chunk_of a = c)).
Proof.
  intros Hg Hwf Ht Hne HP Hca Hc0 Hcb Hm1 Hm2. unfold get_committed_pages_of_chunk.
  rewrite (bind_ok _ _ _ w w) by done.
  assert (Hcha : forall a, a ∈ pt_range t -> chunk_of a = c <-> a ∈ chunk_range c)
    by (intros a Ha; apply chunk_of_range; [eapply VMRange_wf_u64; [apply Hwf|done]|done]).
  destruct (w_pcm w !! c) as [pc|] eqn:Hc.
  - assert (Hdom : forall c', is_Some (w_pcm w !! c') <-> c' = c \/ is_Some (w_pcm w !! c')).
    { intros c'. split; [tauto|]. intros [->|?]; [by rewrite Hc|done]. }
    destruct (Hg _ _ Hc) as [_ _ _ Hpc]. destruct (gpc_tracker pc) as [gt|] eqn:Hgt.
    + destruct Hpc as (-> & Hwg & Hrg & _). cbn [unwrap_option]. erewrite bind_ok by done.
      pose proof (chunk_tracks _ _ _ _ Hg Hc Hgt) as Hgtr.
      destruct (set_committed_pages_for_vma_tracker_spec gt t P _ Hwg Hwf Hgtr Ht)
        as (t' & Ht' & Hwf' & Hr' & Htr'); rewrite ?Hrg; simpl; try done; try pages.
      exists t', w. unfold lift. rewrite Ht'. split_and!; auto.
      eapply tracks_proper; [|done]. intros a Ha Hin. rewrite Hr' in Hin. rewrite Hrg. simpl.
      specialize (Hcha a Hin). case_bool_decide as Hd.
      * rewrite (HP a Hd), bool_decide_eq_true_2 by tauto. by rewrite andb_true_r.
      * rewrite bool_decide_eq_false_2 by tauto. by rewrite andb_false_r, orb_false_r.
    + rewrite Hpc. destruct (commit_pages_common_spec t P c PAGE_CHUNK_UNIT Hwf Ht)
        as (t' & Ht' & Hwf' & Hr' & Htr'); try done; try pages.
      exists t', w. unfold lift. rewrite Ht'. split_and!; auto.
      eapply tracks_proper; [|done]. intros a Ha Hin. rewrite Hr' in Hin. simpl. f_equal.
      specialize (Hcha a Hin). fold (chunk_range c).
      rewrite committed_in_spec; [|done|eapply VMRange_wf_u64; [apply Hwf|done]|done].
      repeat case_bool_decide; try tauto.
      * match goal with H : chunk_of a = c |- _ => rewrite H, Hc end. simpl. by rewrite Hgt.
      * by rewrite andb_false_r.
  - destruct (fresh_page_chunk c Hc0 Hca Hcb) as (gt & Hgt & Hpc & Hnew).
    erewrite (bind_ok (track_page_chunk c)) by (unfold track_page_chunk; by rewrite Hgt).
    eexists t, _. split; [reflexivity|]. simpl.
    destruct (pcm_insert _ c _ (fun _ => false) Hg Hpc) as [Hg' Hcom]; [auto|].
    assert (Hold : forall a, is_u64 a -> page_aligned a -> chunk_of a = c ->
        committed_in (w_pcm w) a = false)
      by (intros a Ha Hp <-; rewrite committed_in_spec by done; by rewrite Hc).
    split_and!; auto.
    + intros c'. destruct (decide (c' = c)) as [->|]; [rewrite lookup_insert_eq; naive_solver|].
      rewrite lookup_insert_ne by done. naive_solver.
    + intros a Ha Hp. rewrite Hcom by done. case_decide; [symmetry; auto|done].
    + eapply tracks_proper; [|done]. intros a Ha Hin. simpl. case_bool_decide.
      * rewrite Hold; [by rewrite orb_false_r|eapply VMRange_wf_u64; [apply Hwf|done]|done..].
      * by rewrite andb_false_r, orb_false_r.
Qed.

Lemma get_committed_pages_loop_spec cs : forall w t P,
  pcm_wf (w_pcm w) -> tracker_wf t -> tracks t P ->
  vm_start (pt_range t) < vm_end (pt_range t) -> NoDup cs ->
  (forall c, c ∈ cs -> (forall a, a ∈ chunk_range c -> P a = false)
     /\ c mod PAGE_CHUNK_UNIT = 0 /\ 0 <= c /\ c + PAGE_CHUNK_UNIT < u64_modulus
     /\ vm_start (pt_range t) < c + PAGE_CHUNK_UNIT /\ c < vm_end (pt_range t)) ->
  exists t' w', get_committed_pages_loop t cs w = (Ok t', w')
    /\ w_mem w' = w_mem w /\ pcm_wf (w_pcm w')
    /\ (forall c', is_Some (w_pcm w' !! c') <-> c' ∈ cs \/ is_Some (w_pcm w !! c'))
    /\ (forall a, is_u64 a -> page_aligned a -> committed_in (w_pcm w') a = committed_in (w_pcm w) a)
    /\ tracker_wf t' /\ pt_range t' = pt_range t
    /\ tracks t' (fun a => P a || committed_in (w_pcm w) a && bool_decide (chunk_of a ∈ cs)).
Proof.
  induction cs as [|c cs IH]; intros w t P Hg Hwf Ht Hne Hnd Hcs.
  { exists t, w. split_and!; auto.
    - intros c'. rewrite elem_of_nil. tauto.
    - eapply tracks_proper; [|done]. intros a _ _. cbv beta.
      rewrite bool_decide_eq_false_2 by apply not_elem_of_nil. by rewrite andb_false_r, orb_false_r. }
  apply list.NoDup_cons in Hnd as [Hnin Hnd].
  destruct (Hcs c) as (HP & Hca & Hc0 & Hcb & Hm1 & Hm2); [by left|].
  destruct (get_committed_pages_of_chunk_spec w t P c)
    as (t1 & w1 & Hrun1 & Hmem1 & Hg1 & Hd1 & Hc1 & Hwf1 & Hr1 & Ht1); auto.
  destruct (IH w1 t1 _ Hg1 Hwf1 Ht1) as (t2 & w2 & Hrun2 & Hmem2 & Hg2 & Hd2 & Hc2 & Hwf2 & Hr2 & Ht2);
    auto; [by rewrite Hr1| |].
  { intros c' Hc'. rewrite Hr1. destruct (Hcs c') as (HP' & Hca' & ?); [by right|].
    split_and!; try tauto. intros a Ha. simpl. rewrite (HP' a Ha). simpl.
    rewrite bool_decide_eq_false_2; [by rewrite andb_false_r|]. intros Hx.
    assert (c = c') as ->; [|done]. subst c. apply chunk_of_range; [|done..].
    unfold is_u64. unfold chunk_range in Ha. vmrange_unfold. lia. }
  exists t2, w2. simpl. erewrite bind_ok by exact Hrun1. split_and!; auto; try congruence.
  - intros c'. rewrite Hd2, Hd1, elem_of_cons. tauto.
  - intros a Ha Hp. by rewrite Hc2, Hc1.
  - eapply tracks_proper; [|done]. intros a Ha Hin. rewrite Hr2, Hr1 in Hin. simpl.
    rewrite Hc1 by eauto using VMRange_wf_u64, tw_range.
    rewrite <- orb_assoc, <- andb_orb_distrib_r, <- bool_decide_or. do 2 f_equal.
    apply bool_decide_ext. rewrite elem_of_cons. tauto.
Qed.

Lemma NoDup_range_step_by lo hi step : 0 < step -> NoDup (range_step_by lo hi step).
Proof.
  intros Hs. unfold range_step_by. apply NoDup_fmap_2; [|apply NoDup_seq].
  intros i j Hij. nia.
Qed.

(** A new tracker of an area. *)
Lemma new_vma_tracker_coherent w r :
  pcm_wf (w_pcm w) -> VMRange_wf r -> vm_start r < vm_end r ->
  vm_end r + PAGE_CHUNK_UNIT <= u64_modulus ->
  exists t w', PageTracker_new_vma_tracker r UserRegion w = (Ok t, w')
    /\ w_mem w' = w_mem w /\ pcm_wf (w_pcm w')
    /\ (forall c, is_Some (w_pcm w !! c) -> is_Some (w_pcm w' !! c))
    /\ (forall a, is_u64 a -> page_aligned a -> committed_in (w_pcm w') a = committed_in (w_pcm w) a)
    /\ pt_range t = r /\ coherent (w_pcm w') t.
Proof.
  intros Hg Hr Hne Hb. destruct (Hr). unfold PageTracker_new_vma_tracker.
  rewrite VMRange_size_wf by done. case_if; boolprop; [|pages].
  set (t0 := mkPageTracker _ _ _ _).
  assert (Hbits : bits t0 = replicate (Z.to_nat ((vm_end r - vm_start r) / PAGE_SIZE)) false)
    by (subst t0; simpl; apply bv_repeat_law).
  assert (Hwf0 : tracker_wf t0).
  { constructor; [done| |]; rewrite Hbits; [rewrite length_replicate; simpl; pages|].
    intros Hnil. simpl. destruct (Z.to_nat _) as [|k]; [done|]. done. }
  assert (Ht0 : tracks t0 (fun _ => false)).
  { intros a Ha Hin. rewrite Hbits. apply lookup_replicate_2. unfold page_index. simpl in *.
    vmrange_unfold. pages. }
  unfold PageTracker_get_committed_pages_from_global_tracker.
  destruct (get_committed_pages_loop_spec (page_chunks_of (vm_start r) (vm_end r)) w t0 _ Hg Hwf0 Ht0)
    as (t & w' & Hrun & Hm & Hg' & Hd & Hc & Hwf & Hrt & Ht); auto.
  { apply NoDup_range_step_by. pages. }
  { intros c Hc. apply elem_of_page_chunks_of in Hc; [|unfold is_u64; lia]. simpl.
    split_and!; auto; lia. }
  exists t, w'. split_and!; auto; [intros c ?; rewrite Hd; auto|].
  constructor; auto.
  - intros a Ha Hin. assert (Hin' : a ∈ r) by (by rewrite Hrt in Hin).
    rewrite (Ht a Ha Hin), Hc by eauto using VMRange_wf_u64.
    rewrite bool_decide_eq_true_2 by auto using range_chunk_of. by rewrite andb_true_r.
  - intros c Hcs. rewrite Hrt in Hcs. simpl in Hcs. rewrite Hd. by left.
Qed.

(** A tracker of other pages stays coherent when [r] is committed. *)
Lemma coherent_commit g g' t (r : VMRange) :
  coherent g t -> (forall c, is_Some (g !! c) -> is_Some (g' !! c)) ->
  (forall a, is_u64 a -> page_aligned a ->
     committed_in g' a = committed_in g a || bool_decide (a ∈ r)) ->
  (forall a, a ∈ pt_range t -> ~ a ∈ r) -> coherent g' t.
Proof.
  intros [Hwf Ht Hcov] Hd Hc Hdis. constructor; [done| |].
  - eapply tracks_proper; [|done]. intros a Ha Hin. rewrite Hc by eauto using VMRange_wf_u64, tw_range.
    rewrite bool_decide_eq_false_2 by auto. by rewrite orb_false_r.
  - intros c Hin. auto.
Qed.

Lemma covered_sub g r r' :
  VMRange_wf r -> VMRange_wf r' -> VMRange_is_superset_of r r' = true -> covered g r -> covered g r'.
Proof.
  intros [] [] Hsup Hcov c Hc. unfold VMRange_is_superset_of in Hsup. boolprop. apply Hcov.
  apply elem_of_page_chunks_of in Hc; [|unfold is_u64; lia].
  apply elem_of_page_chunks_of; [unfold is_u64; lia|]. lia.
Qed.

(** The tracker part of [commit_range] and [commit_memory_with_data]. *)
Lemma commit_tracker_spec w t r :
  pcm_wf (w_pcm w) -> coherent (w_pcm w) t -> VMRange_wf r -> vm_start r < vm_end r ->
  VMRange_is_superset_of (pt_range t) r = true ->
  exists t' w',
    PageTracker_commit_pages_common t (vm_start r) (VMRange_size r) = Ok t'
    /\ PageTracker_set_committed_pages_for_global_tracker (vm_start r) (VMRange_size r) w = (Ok tt, w')
    /\ w_mem w' = w_mem w /\ pcm_wf (w_pcm w')
    /\ (forall c, is_Some (w_pcm w !! c) -> is_Some (w_pcm w' !! c))
    /\ (forall a, is_u64 a -> page_aligned a ->
        committed_in (w_pcm w') a = committed_in (w_pcm w) a || bool_decide (a ∈ r))
    /\ pt_range t' = pt_range t /\ coherent (w_pcm w') t'.
Proof.
  intros Hg [Hwf Ht Hcov] Hr Hne Hsup. destruct (Hr). pose proof Hsup as Hsup'.
  unfold VMRange_is_superset_of in Hsup'. boolprop.
  destruct (set_committed_pages_for_global_tracker_spec w r) as (w' & Hw' & Hm & Hg' & Hd & Hc);
    eauto using covered_sub, tw_range.
  destruct (commit_pages_common_spec t _ (vm_start r) (VMRange_size r) Hwf Ht)
    as (t' & Ht' & Hwf' & Hr' & Htr'); rewrite ?VMRange_size_wf by done; try lia; try pages.
  rewrite VMRange_size_wf in * by done.
  exists t', w'. split_and!; auto; [intros c ?; by apply Hd|].
  constructor; [done| |].
  - eapply tracks_proper; [|done]. intros a Ha Hin. rewrite Hr' in Hin. cbv beta.
    rewrite Hc by eauto using VMRange_wf_u64, tw_range. f_equal. apply bool_decide_ext.
    vmrange_unfold. lia.
  - intros c Hc'. rewrite Hr' in Hc'. apply Hd. auto.
Qed.

(** * Properties *)

(** the two-level bookkeeping is one set of pages. Creating the tracker of a
    user region never fails, leaves the set of pages that the global manager
    reports as committed unchanged, and copies it: the bit of each page of the new
    tracker is the answer of [is_committed] for that page, and the tracker calls
    itself fully committed exactly when all its pages are. *)
Theorem new_vma_tracker_spec (w : World BV PL) (r : VMRange) :
  pcm_wf (w_pcm w) -> VMRange_wf r -> vm_start r < vm_end r ->
  vm_end r + PAGE_CHUNK_UNIT <= u64_modulus ->
  exists t w', PageTracker_new_vma_tracker r UserRegion w = (Ok t, w')
    /\ pt_range t = r /\ coherent (w_pcm w') t /\ pcm_wf (w_pcm w') /\ w_mem w' = w_mem w
    /\ (forall a, page_aligned a -> a ∈ r ->
         Ok <$> bits t !! page_index t a = Some (PageChunkManager_is_committed (w_pcm w) a))
    /\ (forall a, is_u64 a -> page_aligned a ->
         PageChunkManager_is_committed (w_pcm w') a = PageChunkManager_is_committed (w_pcm w) a)
    /\ (PageTracker_is_fully_committed t = true
        <-> forall a, page_aligned a -> a ∈ r -> PageChunkManager_is_committed (w_pcm w) a = Ok true).
Proof.
  intros Hg Hr Hne Hb.
  destruct (new_vma_tracker_coherent w r Hg Hr Hne Hb) as (t & w' & Hrun & Hm & Hg' & _ & Hc & Hrt & Hco).
  assert (Heq : forall g a, pcm_wf g -> is_u64 a -> page_aligned a ->
      PageChunkManager_is_committed g a = Ok (committed_in g a))
    by (intros; unfold committed_in; by rewrite is_committed_spec).
  destruct (Hco) as [Hwf Ht _]. rewrite <- Hrt in *.
  exists t, w'. split_and!; auto.
  - intros a Ha Hin. rewrite (Ht a Ha Hin), Hc, Heq by eauto using VMRange_wf_u64. done.
  - intros a Ha Hp. rewrite !Heq, Hc by done. done.
  - unfold PageTracker_is_fully_committed. split.
    + intros Hf a Ha Hin. rewrite Heq, <- Hc by eauto using VMRange_wf_u64. f_equal.
      by eapply full_tracker_bit.
    + intros Hall. rewrite (tw_full _ Hwf) by (by apply tracker_nonempty).
      apply forallb_id_Forall, Forall_lookup. intros i b Hi.
      set (a := vm_start (pt_range t) + Z.of_nat i * PAGE_SIZE).
      apply lookup_lt_Some in Hi as Hlt. destruct (Hr), (Hwf) as [_ Hlen _].
      assert (Ha : page_aligned a) by (subst a; pages).
      assert (Hin : a ∈ pt_range t) by (subst a; vmrange_unfold; pages).
      specialize (Ht a Ha Hin). specialize (Hall a Ha Hin).
      rewrite Heq, <- Hc in Hall by eauto using VMRange_wf_u64. injection Hall as Hall.
      rewrite Hall in Ht. replace (page_index t a) with i in Ht by (unfold page_index; subst a; pages).
      congruence.
Qed.

(** committing part of an area updates both levels alike. If the hardware
    accepts the pages, the global manager then reports exactly the old pages and
    those of the range, the area's tracker agrees with it again, and so does the
    tracker of every other area; if the hardware refuses, the error is returned
    and nothing is recorded. No outcome is a panic. *)
Theorem commit_range_spec (w : World BV PL) (t : PageTracker) (r : VMRange) (perms : option VMPerms) :
  pcm_wf (w_pcm w) -> coherent (w_pcm w) t -> VMRange_wf r -> vm_start r < vm_end r ->
  VMRange_is_superset_of (pt_range t) r = true ->
  match PageTracker_commit_range t r perms w with
  | (Ok t', w') =>
      pcm_wf (w_pcm w') /\ pt_range t' = pt_range t /\ coherent (w_pcm w') t'
      /\ (forall a, is_u64 a -> page_aligned a ->
           committed_in (w_pcm w') a = committed_in (w_pcm w) a || bool_decide (a ∈ r))
      /\ (forall t2, coherent (w_pcm w) t2 ->
           (forall a, a ∈ pt_range t2 -> ~ a ∈ pt_range t) -> coherent (w_pcm w') t2)
  | (Err _, w') => w_pcm w' = w_pcm w
  | (Panic, _) => False
  end.
Proof.
  intros Hg Hco Hr Hne Hsup. unfold PageTracker_commit_range, on_mem.
  pose proof (UserRegionMem_commit_memory_no_panic (vm_start r) (VMRange_size r) perms (w_mem w)).
  unfold mbind at 1, M_bind at 1.
  destruct (UserRegionMem_commit_memory _ _ _ _) as [[[]|e|] m]; simpl in *; [|done..].
  set (w1 := mkWorld _ _ m (w_pcm w)).
  destruct (commit_tracker_spec w1 t r Hg Hco Hr Hne Hsup)
    as (t' & w' & Ht' & Hw' & Hm & Hg' & Hd & Hc & Hrt & Hco').
  rewrite (bind_ok _ _ _ t' w1) by (unfold lift; by rewrite Ht').
  erewrite bind_ok by exact Hw'. simpl. split_and!; auto.
  intros t2 Hco2 Hdis. eapply coherent_commit; [exact Hco2|exact Hd|exact Hc|].
  intros a Ha Har. apply (Hdis a Ha). unfold VMRange_is_superset_of in Hsup. boolprop.
  vmrange_unfold. lia.
Qed.

(** inserting an entry for a chunk is not idempotent. [track_page_chunk] is what
    a thread does after it found no entry and released the read lock; if another
    thread has tracked the chunk and committed pages meanwhile, the insertion
    makes [is_committed] answer [false] for every page of the chunk, so that
    trackers of areas with committed pages there disagree with the manager. *)
Theorem track_page_chunk_forgets (w : World BV PL) (c a : Z) :
  pcm_wf (w_pcm w) -> is_Some (w_pcm w !! c) -> page_aligned a -> a ∈ chunk_range c ->
  exists w', track_page_chunk c w = (Ok tt, w')
    /\ PageChunkManager_is_committed (w_pcm w') a = Ok false
    /\ forall t, coherent (w_pcm w) t -> a ∈ pt_range t ->
       PageChunkManager_is_committed (w_pcm w) a = Ok true -> ~ coherent (w_pcm w') t.
Proof.
  intros Hg [pc Hc] Hp Hin. destruct (Hg _ _ Hc) as [Hc0 Hca Hcb _].
  destruct (fresh_page_chunk c Hc0 Hca Hcb) as (gt & Hgt & Hpc & Hnew).
  destruct (pcm_insert _ c _ (fun _ => false) Hg Hpc) as [Hg' Hcom]; [auto|].
  assert (Ha : is_u64 a) by (unfold is_u64, chunk_range in *; vmrange_unfold; lia).
  assert (Hfalse : committed_in (<[c:=GlobalPageChunk_new gt]> (w_pcm w)) a = false).
  { rewrite Hcom by done. rewrite decide_True; [done|]. by apply chunk_of_range. }
  eexists. split; [unfold track_page_chunk; by rewrite Hgt|]. simpl. split.
  - rewrite is_committed_spec by done. by rewrite <- committed_in_spec, Hfalse.
  - intros t [_ Ht _] Hat Htrue [_ Ht' _]. specialize (Ht a Hp Hat). specialize (Ht' a Hp Hat).
    unfold committed_in in Ht. rewrite Htrue in Ht. congruence.
Qed.

(** C38: [get_ranges] returns the maximal runs of committed (or uncommitted) pages.
    It computes the same list as the recursive definition [page_runs]: the ranges
    are non-empty, page-aligned, in address order with a gap of at least a page
    between two of them, and hold exactly the addresses whose page has the
    requested status. *)
Theorem get_ranges_spec (t : PageTracker) (committed : bool) :
  tracker_wf t -> vm_start (pt_range t) < vm_end (pt_range t) ->
  exists l, PageTracker_get_ranges t committed = Ok l
    /\ l = page_runs committed (vm_start (pt_range t)) (bits t)
    /\ ranges_separated (vm_start (pt_range t)) l
    /\ Forall range_pages l
    /\ (forall a, in_ranges a l <-> a ∈ pt_range t /\ bits t !! page_index t a = Some committed).
Proof.
  intros Hwf Hne. pose proof (tracker_nonempty t Hwf Hne).
  eexists. split; [by apply get_ranges_runs|]. split; [done|].
  destruct (Hwf) as [[] Hlen _].
  destruct (page_runs_separated committed (vm_start (pt_range t)) (bits t)) as [Hs Hf]; [done|].
  split_and!; auto. intros a. rewrite in_ranges_page_runs by done. fold (page_index t a).
  split; [|intros [? ?]; vmrange_unfold; auto with lia]. intros [Ha Hl]. split; [|done].
  apply lookup_lt_Some in Hl. unfold page_index in Hl. vmrange_unfold. pages.
Qed.

End tracker_facts.

(** ** Witnesses *)

#[local] Existing Instances flat_platform flat_enclave.

Definition example_region : VMRange := mkVMRange (2 ^ 28) (2 ^ 28 + 8192).
Definition empty_world : World bitvec_list flat_platform :=
  mkWorld bitvec_list flat_platform (fun _ : Z => 0) ∅.

Lemma example_region_wf : VMRange_wf example_region.
Proof. constructor; by vm_compute. Qed.

Lemma empty_world_wf : pcm_wf (w_pcm empty_world).
Proof. apply map_Forall_empty. Qed.

Lemma new_vma_tracker_spec_witness :
  exists t w', PageTracker_new_vma_tracker example_region UserRegion empty_world = (Ok t, w')
    /\ PageTracker_is_fully_committed t = false.
Proof.
  destruct (new_vma_tracker_spec empty_world example_region empty_world_wf example_region_wf
    ltac:(by vm_compute) ltac:(by vm_compute)) as (t & w' & Hrun & _ & _ & _ & _ & _ & _ & Hf).
  exists t, w'. split; [done|]. apply not_true_iff_false. intros Ht.
  specialize (proj1 Hf Ht (2 ^ 28) ltac:(by vm_compute) ltac:(by vm_compute)). by vm_compute.
Defined.

Lemma commit_range_spec_witness :
  exists (t : PageTracker (BV := bitvec_list)) (w : World bitvec_list flat_platform) t' w', coherent (w_pcm w) t
    /\ PageTracker_commit_range t (mkVMRange (2 ^ 28) (2 ^ 28 + 4096))
         (Some VMPerms_DEFAULT) w = (Ok t', w')
    /\ committed_in (w_pcm w') (2 ^ 28) = true.
Proof.
  destruct (new_vma_tracker_coherent empty_world example_region empty_world_wf
    example_region_wf ltac:(by vm_compute) ltac:(by vm_compute))
    as (t & w & Hrun & _ & Hg & _ & _ & Hr & Hco).
  assert (Hw : VMRange_wf (mkVMRange (2 ^ 28) (2 ^ 28 + 4096))) by (constructor; by vm_compute).
  pose proof (commit_range_spec w t _ (Some VMPerms_DEFAULT) Hg Hco Hw
    ltac:(by vm_compute) ltac:(rewrite Hr; by vm_compute)) as H.
  destruct (PageTracker_commit_range t _ _ w) as [[t'|e|] w'] eqn:E; [| |done].
  - exists t, w, t', w'. split_and!; auto. destruct H as (_ & _ & _ & H & _).
    rewrite H by (by vm_compute). apply orb_true_iff. right. apply bool_decide_eq_true.
    by vm_compute.
  - exfalso. vm_compute in Hrun. injection Hrun as <- <-. vm_compute in E. discriminate.
Defined.

Lemma track_page_chunk_forgets_witness :
  exists w w' : World bitvec_list flat_platform, track_page_chunk (2 ^ 28) w = (Ok tt, w')
    /\ PageChunkManager_is_committed (w_pcm w) (2 ^ 28) = Ok true
    /\ PageChunkManager_is_committed (w_pcm w') (2 ^ 28) = Ok false.
Proof.
  destruct (pcm_insert (w_pcm empty_world) (2 ^ 28) (mkGlobalPageChunk true None) (fun _ => true))
    as [Hg _]; [apply empty_world_wf|constructor; by vm_compute|done|].
  set (w := mkWorld bitvec_list flat_platform (w_mem empty_world)
              (<[2 ^ 28 := mkGlobalPageChunk true None]> ∅)).
  destruct (track_page_chunk_forgets w (2 ^ 28) (2 ^ 28)) as (w' & Hrun & Hf & _);
    [exact Hg|by vm_compute; eauto|by vm_compute|by vm_compute|].
  exists w, w'. split_and!; [done|by vm_compute|done].
Defined.

Definition example_tracker : PageTracker (BV := bitvec_list) :=
  mkPageTracker (BV := bitvec_list) VMATracker (mkVMRange 8192 24576) [false; true; true; false] false.

Lemma get_ranges_spec_witness :
  PageTracker_get_ranges example_tracker true = Ok [mkVMRange 12288 20480].
Proof.
  destruct (get_ranges_spec example_tracker true) as (l & -> & -> & _).
  - constructor; [constructor; by vm_compute|by vm_compute|done].
  - by vm_compute.
  - reflexivity.
Defined.
