(* ===== verification/VMArea.v ===== *)
(** Memory areas: [src/libos/src/vm/vm_area.rs].

    An area is a range of user memory with its permissions, the file behind it,
    the processes that may access it and the commit status of its pages. *)

From S2P Require Import Prelude Errno Effects External FileFlags VMRange VMMapOptions VMEpc PageTracker.

(** * Data *)

Abbreviation COMMIT_SIZE_UNIT := (4096 : Z).
Abbreviation PF_NUM_THRESHOLD := (3 : Z).

Definition wrap32 (x : Z) : Z := x mod 2 ^ 32.

Inductive VMAccess :=
| Private (pid : Z)
| Shared (pid_table : gmap Z Z).

#[export] Instance VMAccess_eq_dec : EqDecision VMAccess.
Proof. solve_decision. Defined.

Record VMArea {BV : BitVecs} := mkVMArea {
  va_range : VMRange;
  va_perms : VMPerms;
  va_file_backed : option FileBacked;
  va_access : VMAccess;
  va_pages : option PageTracker;
  va_epc_type : EPCMemType;
  va_pf_count : Z;
}.

Section area.
Context {BF : Bitflags} {BV : BitVecs} {PL : Platform} {EN : Enclave} {US : UserSpace}.

Abbreviation VM := (M (World BV PL)) (only parsing).

(** The fields that the methods assign. *)
Definition set_va_range (self : VMArea) (range : VMRange) : VMArea :=
  mkVMArea _ range (va_perms self) (va_file_backed self) (va_access self) (va_pages self)
    (va_epc_type self) (va_pf_count self).
Definition set_va_pages (self : VMArea) (pages : option PageTracker) : VMArea :=
  mkVMArea _ (va_range self) (va_perms self) (va_file_backed self) (va_access self) pages
    (va_epc_type self) (va_pf_count self).
Definition set_va_file_backed (self : VMArea) (file : option FileBacked) : VMArea :=
  mkVMArea _ (va_range self) (va_perms self) file (va_access self) (va_pages self)
    (va_epc_type self) (va_pf_count self).
Definition set_va_access (self : VMArea) (access : VMAccess) : VMArea :=
  mkVMArea _ (va_range self) (va_perms self) (va_file_backed self) access (va_pages self)
    (va_epc_type self) (va_pf_count self).
Definition set_va_pf_count (self : VMArea) (n : Z) : VMArea :=
  mkVMArea _ (va_range self) (va_perms self) (va_file_backed self) (va_access self) (va_pages self)
    (va_epc_type self) n.
Definition VMArea_set_perms (self : VMArea) (new_perms : VMPerms) : VMArea :=
  mkVMArea _ (va_range self) new_perms (va_file_backed self) (va_access self) (va_pages self)
    (va_epc_type self) (va_pf_count self).

(** * Construction *)

(** [(!pages.is_fully_committed()).then_some(pages)] *)
Definition pages_unless_full (pages : PageTracker) : option PageTracker :=
  if negb (PageTracker_is_fully_committed pages) then Some pages else None.

Definition VMArea_new (range : VMRange) (perms : VMPerms) (file_backed : option FileBacked)
    (pid : Z) : VM VMArea :=
  let epc_type := EPCMemType_new range in
  pages ← match epc_type with
          | Reserved => ok None
          | UserRegion =>
              pages ← unwrapM (PageTracker_new_vma_tracker range UserRegion);
              ok (pages_unless_full pages)
          end;
  ok (mkVMArea _ range perms file_backed (Private pid) pages epc_type 0).

Definition VMArea_new_with_page_tracker (range : VMRange) (perms : VMPerms)
    (file_backed : option FileBacked) (access : VMAccess) (pages : option PageTracker) : VMArea :=
  mkVMArea _ range perms file_backed access pages (EPCMemType_new range) 0.

Definition VMArea_inherits_file_from (vma : VMArea) (new_range : VMRange) (new_perms : VMPerms)
    (access : VMAccess) : Result VMArea :=
  let new_backed_file :=
    match va_file_backed vma with
    | Some file =>
        let file_offset := fb_offset file in
        let new_start_offset := vm_start new_range -64 vm_start (va_range vma) in
        let new_file_offset := file_offset +64 new_start_offset in
        Some (FileBacked_set_offset file new_file_offset)
    | None => None
    end in
  new_pages ← match va_pages vma with
              | Some pages =>
                  pages ← PageTracker_split_for_new_range pages new_range;
                  Ok (pages_unless_full pages)
              | None => Ok None
              end;
  Ok (VMArea_new_with_page_tracker new_range new_perms new_backed_file access new_pages).

(** * Queries *)

Definition VMArea_get_private_pid (self : VMArea) : option Z :=
  match va_access self with Private pid => Some pid | Shared _ => None end.

Definition VMArea_belong_to (self : VMArea) (target_pid : Z) : bool :=
  match va_access self with
  | Private pid => pid =? target_pid
  | Shared pid_table => bool_decide (is_Some (pid_table !! target_pid))
  end.

Definition VMArea_exclusive_by (self : VMArea) (target_pid : Z) : bool :=
  match va_access self with
  | Private pid => pid =? target_pid
  | Shared pid_table =>
      (Z.of_nat (size pid_table) =? 1)
      && bool_decide (is_Some (pid_table !! target_pid))
      && bool_decide (pid_table !! target_pid = Some 1)
  end.

(** [pid]: unreachable for a shared area. *)
Definition VMArea_pid (self : VMArea) : Result Z :=
  match va_access self with Private pid => Ok pid | Shared _ => Panic end.

Definition VMArea_is_fully_committed (self : VMArea) : bool :=
  match va_pages self with None => true | Some _ => false end.

Definition VMArea_is_reserved_only (self : VMArea) : bool :=
  match va_pages self with Some pages => PageTracker_is_reserved_only pages | None => false end.

Definition VMArea_is_partially_committed (self : VMArea) : bool :=
  match va_pages self with Some pages => PageTracker_is_partially_committed pages | None => false end.

Definition VMArea_backed_file (self : VMArea) : option (FileRef * Z) :=
  match va_file_backed self with Some file => Some (fb_file file, fb_offset file) | None => None end.

Definition VMArea_writeback_file (self : VMArea) : option (FileRef * Z) :=
  match va_file_backed self with Some file => FileBacked_writeback_file file | None => None end.

Definition VMArea_is_shared (self : VMArea) : bool :=
  match va_access self with Private _ => false | Shared _ => true end.

Definition VMArea_size (self : VMArea) : Z := VMRange_size (va_range self).

(** [self.pages()]: the tracker of an area that has one. *)
Definition VMArea_pages (self : VMArea) : VM PageTracker := lift (unwrap_option (va_pages self)).

Definition VMArea_is_the_same_to (self other : VMArea) : bool :=
  if negb (bool_decide (va_range self = va_range other)) then false else
  if negb (va_perms self =? va_perms other) then false else
  if negb (bool_decide (va_access self = va_access other)) then false else
  match VMArea_writeback_file self, VMArea_writeback_file other with
  | None, None => true
  | Some (self_file, self_offset), Some (other_file, other_offset) =>
      (self_file =? other_file) && (self_offset =? other_offset)
  | _, _ => false
  end.

Definition VMArea_can_merge_vmas (left right : VMArea) : bool :=
  if (VMArea_size left =? 0) || (VMArea_size right =? 0) then false else
  if negb (vm_end (va_range left) =? vm_start (va_range right)) then false else
  if negb (va_perms left =? va_perms right) then false else
  match VMArea_get_private_pid left, VMArea_get_private_pid right with
  | Some left_pid, Some right_pid =>
      if negb (left_pid =? right_pid) then false else
      match VMArea_writeback_file left, VMArea_writeback_file right with
      | None, None => true
      | Some (left_file, left_offset), Some (right_file, right_offset) =>
          (left_file =? right_file) && (left_offset <? right_offset)
          && (right_offset -64 left_offset =? VMArea_size left)
      | _, _ => false
      end
  | _, _ => false
  end.

(** * Splitting and resizing *)

(** [iter().map(f).collect()] for an [f] that can panic. *)
Fixpoint map_result {A B} (f : A -> Result B) (l : list A) : Result (list B) :=
  match l with
  | [] => Ok []
  | x :: l => y ← f x; ys ← map_result f l; Ok (y :: ys)
  end.

Definition VMArea_subtract (self : VMArea) (other : VMRange) : Result (list VMArea) :=
  map_result (fun range => VMArea_inherits_file_from self range (va_perms self) (va_access self))
    (VMRange_subtract (va_range self) other).

Definition VMArea_intersect (self : VMArea) (other : VMRange) : Result (option VMArea) :=
  match VMRange_intersect (va_range self) other with
  | None => Ok None
  | Some new_range =>
      new_vma ← VMArea_inherits_file_from self new_range (va_perms self) (va_access self);
      Ok (Some new_vma)
  end.

Definition VMArea_set_file_offset (file : FileBacked) (new_start_offset old_start_offset : Z)
    : FileBacked :=
  let offset := fb_offset file in
  if old_start_offset <? new_start_offset
  then FileBacked_set_offset file (offset +64 (new_start_offset -64 old_start_offset))
  else FileBacked_set_offset file (offset -64 (old_start_offset -64 new_start_offset)).

Definition VMArea_set_start (self : VMArea) (new_start : Z) : VM VMArea :=
  let old_start := vm_start (va_range self) in
  if new_start =? old_start then ok self else
  let self := set_va_range self (VMRange_set_start (va_range self) new_start) in
  pages ← (if new_start <? old_start then
             pages ← unwrapM (PageTracker_new_vma_tracker (va_range self) (va_epc_type self));
             ok (pages_unless_full pages)
           else match va_pages self with
                | Some pages =>
                    pages ← lift (PageTracker_split_for_new_range pages (va_range self));
                    ok (if PageTracker_is_fully_committed pages then None else Some pages)
                | None => ok None
                end);
  let self := set_va_pages self pages in
  ok (match va_file_backed self with
      | Some file => set_va_file_backed self (Some (VMArea_set_file_offset file new_start old_start))
      | None => self
      end).

Definition VMArea_set_end (self : VMArea) (new_end : Z) : VM VMArea :=
  let self := set_va_range self (VMRange_set_end (va_range self) new_end) in
  pages ← (if 0 <? VMRange_size (va_range self) then
             pages ← unwrapM (PageTracker_new_vma_tracker (va_range self) (va_epc_type self));
             ok (pages_unless_full pages)
           else ok None);
  ok (set_va_pages self pages).

(** * Sharing *)

Definition VMArea_mark_shared (self : VMArea) : VMArea :=
  match va_access self with
  | Private pid => set_va_access self (Shared {[ pid := 1 ]})
  | Shared _ => self
  end.

Definition VMArea_attach_shared_process (self : VMArea) (pid : Z) : Result VMArea :=
  match va_access self with
  | Private _ => Err EINVAL
  | Shared pid_table =>
      Ok (set_va_access self (Shared
            (match pid_table !! pid with
             | Some ref_ctr => <[pid := wrap32 (ref_ctr + 1)]> pid_table
             | None => <[pid := 1]> pid_table
             end)))
  end.

Definition VMArea_detach_shared_process (self : VMArea) (pid : Z) (force_detach : bool)
    : Result (bool * VMArea) :=
  match va_access self with
  | Private _ => Err EINVAL
  | Shared pid_table =>
      let pid_table :=
        match pid_table !! pid with
        | Some ref_ctr =>
            let ref_ctr := wrap32 (ref_ctr - 1) in
            if (ref_ctr =? 0) || force_detach then delete pid pid_table
            else <[pid := ref_ctr]> pid_table
        | None => pid_table
        end in
      Ok (bool_decide (pid_table = ∅), set_va_access self (Shared pid_table))
  end.

(** * Memory *)

Definition VMArea_modify_permission_force (self : VMArea) (protect_range : option VMRange)
    (current_perms new_perms : VMPerms) : VM unit :=
  let protect_range := default (va_range self) protect_range in
  on_mem (unwrapM (EPCMemType_modify_permission (va_epc_type self) (vm_start protect_range)
                     (VMRange_size protect_range) current_perms new_perms)).

(** Filling a range with zeros. *)
Definition fill_zeros (range : VMRange) : VM unit :=
  on_mem (fun m => (Ok tt, set_slice range (zeros (length (as_slice m range))) m)).

(** [metadata().unwrap().size] *)
Definition file_len (file : FileRef) : VM Z := on_mem (fun m =>
  ((metadata ← unwrap_result (file_metadata file m); Ok (md_size metadata)), m)).

(** [file.write_at(offset, &slice[..len])], with the slice of [range]. *)
Definition write_file_from (file : FileRef) (offset : Z) (range : VMRange) (len : Z) : VM nat :=
  on_mem (fun m =>
    let slice := as_slice m range in
    if Z.of_nat (length slice) <? len then (Panic, m)
    else file_write_at file offset (take (Z.to_nat len) slice) m).

Definition VMArea_flush_and_clean_internal (self : VMArea) (target_range : VMRange)
    (need_flush : bool) (file : option FileRef) (file_offset : option Z) : VM unit :=
  _ ← (if negb (VMPerms_is_default (va_perms self))
       then VMArea_modify_permission_force self (Some target_range) (va_perms self) VMPerms_DEFAULT
       else ok tt);
  _ ← (if need_flush then
         file ← lift (unwrap_option file);
         file_offset ← lift (unwrap_option file_offset);
         let file_offset := file_offset +64 (vm_start target_range -64 vm_start (va_range self)) in
         len ← file_len file;
         if file_offset <? len then
           let effective_mem_len := Z.min (VMRange_size target_range) (len -64 file_offset) in
           _ ← unwrapM (write_file_from file file_offset target_range effective_mem_len);
           ok tt
         else ok tt
       else ok tt);
  fill_zeros target_range.

Definition VMArea_flush_and_clean_memory (self : VMArea) : VM unit :=
  p ← lift match VMArea_writeback_file self with
           | None => Ok (false, None, None)
           | Some (file_handle, offset) =>
               writable ← file_can_write file_handle;
               Ok (if negb writable then (false, None, None)
                   else (true, Some file_handle, Some offset))
           end;
  let '(need_flush, file, file_offset) := p in
  if VMArea_is_fully_committed self then
    VMArea_flush_and_clean_internal self (va_range self) need_flush file file_offset
  else
    pages ← VMArea_pages self;
    ranges ← lift (PageTracker_get_ranges pages true);
    for_each (fun range => VMArea_flush_and_clean_internal self range need_flush file file_offset)
      ranges.

Definition VMArea_modify_permissions_for_committed_pages (self : VMArea)
    (curr_perms new_perms : VMPerms) : VM unit :=
  if VMArea_is_fully_committed self then
    VMArea_modify_permission_force self None curr_perms new_perms
  else if VMArea_is_partially_committed self then
    pages ← VMArea_pages self;
    ranges ← lift (PageTracker_get_ranges pages true);
    for_each (fun range => VMArea_modify_permission_force self (Some range) curr_perms new_perms)
      ranges
  else ok tt.

Definition VMArea_flush_file (self : VMArea) (file : FileRef) (file_offset : Z) : VM unit :=
  file_len ← file_len file;
  if file_len <=? file_offset then ok tt else
  if VMArea_is_fully_committed self then
    let effective_mem_len := Z.min (VMRange_size (va_range self)) (file_len -64 file_offset) in
    _ ← write_file_from file file_offset (va_range self) effective_mem_len;
    ok tt
  else
    pages ← VMArea_pages self;
    ranges ← lift (PageTracker_get_ranges pages true);
    let vm_range_start := vm_start (va_range self) in
    (fix loop (ranges : list VMRange) : VM unit :=
       match ranges with
       | [] => ok tt
       | range :: ranges =>
           let file_offset := file_offset +64 (vm_start range -64 vm_range_start) in
           if file_len <=? file_offset then ok tt else
           let effective_mem_len := Z.min (VMRange_size range) (file_len -64 file_offset) in
           _ ← write_file_from file file_offset range effective_mem_len;
           loop ranges
       end) ranges.

Definition VMArea_flush_committed_backed_file_with_cond (self : VMArea)
    (cond_fn : FileRef -> bool) : VM unit :=
  match VMArea_writeback_file self with
  | None => ok tt
  | Some (file, file_offset) =>
      file_writable ← lift match file_access_mode file with
                           | Ok ac => Ok (AccessMode_writable ac)
                           | Err _ => Ok false   (* [unwrap_or_default] *)
                           | Panic => Panic
                           end;
      if negb file_writable then ok tt else
      if negb (cond_fn file) then ok tt else
      unwrapM (VMArea_flush_file self file file_offset)
  end.

Definition VMArea_flush_committed_backed_file (self : VMArea) : VM unit :=
  VMArea_flush_committed_backed_file_with_cond self (fun _ => true).

(** * Initialisation and page faults *)

Definition VMArea_init_file_backed_mem (self : VMArea) (target_range : VMRange) (file : FileRef)
    (file_offset : Z) (new_perm : VMPerms) : VM unit :=
  readable ← lift (file_can_read file);
  if negb readable then fail_with EBADF else
  _ ← file_len file;
  _ ← on_mem (fun m =>
        match file_read_at m file file_offset (as_slice m target_range) with
        | Ok (_, buf) => (Ok tt, set_slice target_range buf m)
        | Err _ => (Err EACCES, m)
        | Panic => (Panic, m)
        end);
  if negb (VMPerms_is_default new_perm)
  then VMArea_modify_permission_force self (Some target_range) VMPerms_DEFAULT new_perm
  else ok tt.

Definition VMArea_init_memory_for_page_fault (self : VMArea) (target_range : VMRange) : VM VMArea :=
  let perms := va_perms self in
  match VMArea_backed_file self with
  | Some (file, offset) =>
      let init_file_offset := offset +64 (vm_start target_range -64 vm_start (va_range self)) in
      data ← on_mem (fun m =>
               match file_read_at m file init_file_offset
                       (new_page_aligned_vec (VMRange_size target_range)) with
               | Ok (_, buf) => (Ok buf, m)
               | Err _ => (Err EACCES, m)
               | Panic => (Panic, m)
               end);
      pages ← VMArea_pages self;
      pages ← PageTracker_commit_memory_with_data pages target_range data perms;
      ok (set_va_pages self (Some pages))
  | None =>
      pages ← VMArea_pages self;
      pages ← PageTracker_commit_range pages target_range (Some perms);
      ok (set_va_pages self (Some pages))
  end.

Definition VMArea_init_memory_internal (self : VMArea) (target_range : VMRange)
    (initializer : option VMInitializer) : VM VMArea :=
  let perms := va_perms self in
  match initializer with
  | Some (InitFileBacked file) =>
      let init_file_offset :=
        fb_offset file +64 (vm_start target_range -64 vm_start (va_range self)) in
      _ ← VMArea_init_file_backed_mem self target_range (fb_file file) init_file_offset perms;
      ok self
  | Some DoNothing =>
      _ ← (if negb (VMPerms_is_default perms)
           then VMArea_modify_permission_force self (Some target_range) VMPerms_DEFAULT perms
           else ok tt);
      ok self
  | Some FillZeros =>
      _ ← fill_zeros target_range;
      _ ← (if negb (VMPerms_is_default perms)
           then VMArea_modify_permission_force self (Some target_range) VMPerms_DEFAULT perms
           else ok tt);
      ok self
  | Some _ => panic
  | None => VMArea_init_memory_for_page_fault self target_range
  end.

(** [options.initializer().init_slice(range.as_slice_mut())?] *)
Definition init_slice_of (initializer : VMInitializer) (range : VMRange) : VM unit :=
  on_mem (fun m =>
    match VMInitializer_init_slice (as_slice m) (file_read_at m) initializer (as_slice m range) with
    | Ok bytes => (Ok tt, set_slice range bytes m)
    | Err e => (Err e, m)
    | Panic => (Panic, m)
    end).

Definition PagePolicy_is_commit_now (p : PagePolicy) : bool :=
  match p with CommitNow => true | _ => false end.

Definition VMArea_init_memory (self : VMArea) (options : VMMapOptions) : VM VMArea :=
  vm_area ← (if negb (VMArea_is_fully_committed self)
                && PagePolicy_is_commit_now (opt_page_policy options) then
               pages ← VMArea_pages self;
               _ ← PageTracker_commit_whole pages VMPerms_DEFAULT;
               ok (set_va_pages self None)
             else ok self);
  if VMArea_is_partially_committed vm_area then
    pages ← VMArea_pages vm_area;
    ranges ← lift (PageTracker_get_ranges pages true);
    _ ← for_each (fun range =>
          _ ← VMArea_init_memory_internal vm_area range (Some (opt_initializer options)); ok tt) ranges;
    ok vm_area
  else if VMArea_is_fully_committed vm_area then
    _ ← init_slice_of (opt_initializer options) (va_range vm_area);
    _ ← (if negb (VMPerms_is_default (opt_perms options))
         then VMArea_modify_permission_force vm_area None VMPerms_DEFAULT (va_perms vm_area)
         else ok tt);
    ok vm_area
  else ok vm_area.

(** [iter().skip_while(p)] *)
Fixpoint skip_while {A} (p : A -> bool) (l : list A) : list A :=
  match l with
  | [] => []
  | x :: l' => if p x then skip_while p l' else l
  end.

Fixpoint commit_once_loop (self : VMArea) (pf_addr commit_once_size total_commit_size : Z)
    (ranges : list VMRange) : VM (Z * VMArea) :=
  match ranges with
  | [] => ok (total_commit_size, self)
  | range :: ranges =>
      let range :=
        if total_commit_size =? 0 then
          let range := VMRange_set_start range (align_down pf_addr PAGE_SIZE) in
          VMRange_resize range (Z.min (VMRange_size range) commit_once_size)
        else if commit_once_size <? VMRange_size range +64 total_commit_size then
          VMRange_resize range (commit_once_size -64 total_commit_size)
        else range in
      self ← VMArea_init_memory_internal self range None;
      let total_commit_size := total_commit_size +64 VMRange_size range in
      if commit_once_size <=? total_commit_size then ok (total_commit_size, self)
      else commit_once_loop self pf_addr commit_once_size total_commit_size ranges
  end.

Definition VMArea_commit_once_for_page_fault (self : VMArea) (pf_addr : Z) : VM (Z * VMArea) :=
  pages ← VMArea_pages self;
  uncommitted_ranges ← lift (PageTracker_get_ranges pages false);
  let commit_once_size := COMMIT_SIZE_UNIT in
  p ← commit_once_loop self pf_addr commit_once_size 0
        (skip_while (fun range => negb (VMRange_contains range pf_addr)) uncommitted_ranges);
  let '(total_commit_size, self) := p in
  pages ← VMArea_pages self;
  ok (total_commit_size,
      if PageTracker_is_fully_committed pages then set_va_pages self None else self).

Fixpoint commit_whole_loop (self : VMArea) (ranges : list VMRange) : VM VMArea :=
  match ranges with
  | [] => ok self
  | range :: ranges =>
      self ← unwrapM (VMArea_init_memory_internal self range None);
      commit_whole_loop self ranges
  end.

Definition VMArea_commit_current_vma_whole (self : VMArea) : VM VMArea :=
  pages ← VMArea_pages self;
  uncommitted_ranges ← lift (PageTracker_get_ranges pages false);
  self ← commit_whole_loop self uncommitted_ranges;
  ok (set_va_pages self None).

(** [exception::check_rw_bit], bit 1 of the error code. *)
Abbreviation PF_EXCEPTION_RW_BIT := (2 : Z).
Definition check_rw_bit (errcd : Z) : bool :=
  Z.land errcd PF_EXCEPTION_RW_BIT =? PF_EXCEPTION_RW_BIT.

Definition VMArea_handle_page_fault (self : VMArea) (rip pf_addr errcd : Z) (kernel_triggers : bool)
    : VM VMArea :=
  if (va_perms self =? VMPerms_NONE)
     || (negb (check_rw_bit errcd) && negb (bf_contains (va_perms self) VMPerms_READ))
  then fail_with EACCES else
  if check_rw_bit errcd && negb (bf_contains (va_perms self) VMPerms_WRITE)
  then fail_with EACCES else
  if (rip =? pf_addr) && negb (bf_contains (va_perms self) VMPerms_EXEC)
  then fail_with EACCES else
  if VMArea_is_fully_committed self then ok self else
  match va_epc_type self with
  | Reserved => fail_with EINVAL
  | UserRegion =>
      if kernel_triggers || (PF_NUM_THRESHOLD <=? va_pf_count self)
      then VMArea_commit_current_vma_whole self
      else
        let self := set_va_pf_count self (va_pf_count self +64 1) in
        p ← unwrapM (VMArea_commit_once_for_page_fault self pf_addr);
        ok p.2
  end.

End area.
