(* ===== verification/ChunkManager.v ===== *)
(** The areas of a chunk: [src/libos/src/vm/vm_chunk_manager.rs].

    A chunk manager keeps the areas of a 32 MB chunk in a red-black tree between
    two empty sentries and the rest of the chunk in a free list. *)

From S2P Require Import Prelude Errno Effects External VMRange VMMapOptions VMFreeSpace VMRemap.
From S2P Require Import VMEpc PageTracker VMArea.

Section chunk_manager.
Context {BF : Bitflags} {BV : BitVecs} {PL : Platform} {EN : Enclave} {US : UserSpace} {RB : RBTrees}.

Record ChunkManager := mkChunkManager {
  cm_range : VMRange;
  cm_free_size : Z;
  cm_vmas : RBTree VMArea;
  cm_free_manager : VMFreeSpaceManager;
}.

(** [impl KeyAdapter for VMAAdapter] *)
Definition vma_key (v : VMArea) : Z := vm_start (va_range v).

(** The state of a method: the manager and the memory behind it. *)
Definition CState : Type := ChunkManager * World BV PL.
Abbreviation CM := (M CState) (only parsing).

Definition on_world {A} (c : M (World BV PL) A) : CM A := fun s =>
  let (r, w) := c s.2 in (r, (s.1, w)).
Definition self : CM ChunkManager := fun s => (Ok s.1, s).
Definition set_vmas (t : RBTree VMArea) : CM unit := fun s =>
  (Ok tt, (mkChunkManager (cm_range s.1) (cm_free_size s.1) t (cm_free_manager s.1), s.2)).
Definition set_free (free_size : Z) (free_manager : VMFreeSpaceManager) : CM unit := fun s =>
  (Ok tt, (mkChunkManager (cm_range s.1) free_size (cm_vmas s.1) free_manager, s.2)).

(** Operations of a cursor; a position past the last element is the null cursor. *)
Definition cursor_get (c : nat) : CM (option VMArea) :=
  cm ← self; ok (rb_iter (cm_vmas cm) !! c).
Definition cursor_upper_bound (k : Z) : CM nat :=
  cm ← self; ok (default (length (rb_iter (cm_vmas cm))) (rb_upper_bound vma_key k (cm_vmas cm))).
Definition cursor_remove (c : nat) : CM unit :=
  cm ← self; set_vmas (rb_remove c (cm_vmas cm)).
Definition cursor_replace_with (c : nat) (v : VMArea) : CM unit :=
  cm ← self; set_vmas (rb_replace c v (cm_vmas cm)).
(** The cursor keeps pointing at its element. *)
Definition cursor_insert (c : nat) (v : VMArea) : CM nat :=
  cm ← self;
  let (t, n) := rb_insert vma_key v (cm_vmas cm) in
  _ ← set_vmas t;
  ok (if (n <=? c)%nat then S c else c).

(** [free_manager.add_range_back_to_free_manager(range); free_size += size] *)
Definition add_range_back (range : VMRange) : CM unit :=
  cm ← self;
  set_free (cm_free_size cm +64 VMRange_size range)
    (add_range_back_to_free_manager (cm_free_manager cm) range).

Definition ChunkManager_from (addr size : Z) : M (World BV PL) ChunkManager :=
  range ← lift (VMRange_new addr (addr +64 size));
  let start := vm_start range in
  let end_ := vm_end range in
  start_range ← lift (VMRange_new_empty start);
  start_sentry ← VMArea_new start_range 0 None 0;
  end_range ← lift (VMRange_new_empty end_);
  end_sentry ← VMArea_new end_range 0 None 0;
  let (t, _) := rb_insert vma_key start_sentry rb_new in
  let (t, _) := rb_insert vma_key end_sentry t in
  ok (mkChunkManager range (VMRange_size range) t (FreeSpace_new range)).

Definition ChunkManager_is_empty (self : ChunkManager) : bool :=
  Z.of_nat (length (rb_iter (cm_vmas self))) =? 2.

(** The loop visits each element once: it moves on or removes. *)
Fixpoint clean_vmas_loop (pid : Z) (fuel : nat) (c : nat) : CM unit :=
  match fuel with
  | O => panic
  | S fuel =>
      cur ← cursor_get c;
      match cur with
      | None => ok tt
      | Some vma =>
          if negb (VMArea_belong_to vma pid) || (VMArea_size vma =? 0)
          then clean_vmas_loop pid fuel (S c)
          else
            _ ← on_world (unwrapM (VMArea_flush_and_clean_memory vma));
            _ ← add_range_back (va_range vma);
            _ ← cursor_remove c;
            clean_vmas_loop pid fuel c
      end
  end.

Definition ChunkManager_clean_vmas_with_pid (pid : Z) : CM unit :=
  cm ← self;
  clean_vmas_loop pid (S (length (rb_iter (cm_vmas cm)))) 0.

(** Unmapping the part [intersection_vma] of the area at the cursor: where the
    cursor goes. *)
Definition munmap_part (vma intersection_vma : VMArea) (c : nat) : CM nat :=
  _ ← on_world (VMArea_flush_and_clean_memory intersection_vma);
  c ← (if bool_decide (va_range vma = va_range intersection_vma) then
         _ ← cursor_remove c; ok c
       else
         remain_vmas ← lift (VMArea_subtract vma (va_range intersection_vma));
         match remain_vmas with
         | [remain] => _ ← cursor_replace_with c remain; ok (S c)
         | [vma_left_part; vma_right_part] =>
             _ ← cursor_replace_with c vma_left_part;
             cursor_insert c vma_right_part
         | _ => panic
         end);
  _ ← add_range_back (va_range intersection_vma);
  ok c.

(** One area may be split in two, both of which are visited again. *)
Fixpoint munmap_loop (current_pid : Z) (range : VMRange) (fuel : nat) (c : nat) : CM unit :=
  match fuel with
  | O => panic
  | S fuel =>
      cur ← cursor_get c;
      match cur with
      | None => ok tt
      | Some vma =>
          if negb (vm_start (va_range vma) <=? vm_end range) then ok tt else
          if (VMArea_size vma =? 0) || negb (VMArea_belong_to vma current_pid)
          then munmap_loop current_pid range fuel (S c)
          else
            inter ← lift (VMArea_intersect vma range);
            match inter with
            | None => munmap_loop current_pid range fuel (S c)
            | Some intersection_vma =>
                c ← munmap_part vma intersection_vma c;
                munmap_loop current_pid range fuel c
            end
      end
  end.

Definition ChunkManager_munmap_range (current_pid : Z) (range : VMRange) : CM unit :=
  cm ← self;
  let bound := Z.max (vm_start range) (vm_start (cm_range cm)) in
  c ← cursor_upper_bound bound;
  munmap_loop current_pid range (3 * length (rb_iter (cm_vmas cm)) + 1) c.

Definition ChunkManager_munmap (current_pid addr size : Z) : CM unit :=
  if size =? 0 then fail_with EINVAL else
  let size := align_up size PAGE_SIZE in
  munmap_range ← lift (VMRange_new addr (addr +64 size));
  cm ← self;
  match VMRange_intersect munmap_range (cm_range cm) with
  | None => ok tt
  | Some effective_munmap_range =>
      if VMRange_empty effective_munmap_range then ok tt
      else ChunkManager_munmap_range current_pid effective_munmap_range
  end.

Definition ChunkManager_mmap (current_pid : Z) (options : VMMapOptions) : CM Z :=
  let addr := opt_addr options in
  let size := opt_size options in
  let align := opt_align options in
  _ ← match addr with
      | Force addr => ChunkManager_munmap current_pid addr size
      | _ => ok tt
      end;
  cm ← self;
  p ← lift (find_free_range_internal (cm_free_manager cm) size align addr);
  let '(new_range, free_manager) := p in
  _ ← set_free (cm_free_size cm) free_manager;
  let new_addr := vm_start new_range in
  new_vma ← on_world (attempt (
    new_vma ← VMArea_new new_range (opt_perms options)
                (VMInitializer_backed_file (opt_initializer options)) current_pid;
    VMArea_init_memory new_vma options));
  match new_vma with
  | Ok new_vma =>
      cm ← self;
      _ ← set_free (cm_free_size cm -64 VMArea_size new_vma) (cm_free_manager cm);
      let (t, _) := rb_insert vma_key new_vma (cm_vmas cm) in
      _ ← set_vmas t;
      ok new_addr
  | Err error =>
      range ← lift (unwrap_result (VMRange_new_with_size new_addr size));
      cm ← self;
      _ ← set_free (cm_free_size cm) (add_range_back_to_free_manager (cm_free_manager cm) range);
      fail_with error
  | Panic => panic
  end.

(** Each round merges the next area into the current one or moves on. *)
Fixpoint merge_loop (fuel : nat) (c : nat) : CM unit :=
  match fuel with
  | O => panic
  | S fuel =>
      cur ← cursor_get c;
      match cur with
      | None => ok tt
      | Some vma_a =>
          if VMArea_size vma_a =? 0 then merge_loop fuel (S c) else
          next ← cursor_get (S c);
          vma_b ← lift (unwrap_option next);
          if VMArea_can_merge_vmas vma_a vma_b then
            new_vma ← on_world (VMArea_set_end vma_a (vm_end (va_range vma_b)));
            _ ← cursor_replace_with c new_vma;
            _ ← cursor_remove (S c);
            merge_loop fuel c
          else merge_loop fuel (S c)
      end
  end.

Definition ChunkManager_merge_all_vmas : CM unit :=
  cm ← self;
  merge_loop (S (length (rb_iter (cm_vmas cm)))) 0.

Definition ChunkManager_is_free_range (self : ChunkManager) (request_range : VMRange) : bool :=
  FreeSpace_is_free_range (cm_free_manager self) request_range.

(** The search for the area that contains the old range of a [mremap]. *)
Fixpoint find_containing (current_pid : Z) (old_range : VMRange) (l : list VMArea) : option VMArea :=
  match l with
  | [] => None
  | vma :: l' =>
      if negb (vm_start (va_range vma) <=? vm_end old_range) then Some vma
      else if VMArea_belong_to vma current_pid && VMRange_is_superset_of (va_range vma) old_range
      then Some vma
      else find_containing current_pid old_range l'
  end.

(** What [parse] reads of an area. *)
Definition remap_vma_of (v : VMArea) : RemapVma :=
  mkRemapVma (va_range v) (va_perms v) (va_file_backed v).

Definition ChunkManager_parse_mremap_options (current_pid : Z) (options : VMRemapOptions)
    : CM VMRemapResult :=
  old_range ← lift (VMRange_new_with_size (ro_old_addr options) (ro_old_size options));
  _ ← ChunkManager_merge_all_vmas;
  c ← cursor_upper_bound (vm_start old_range);
  cm ← self;
  match find_containing current_pid old_range (drop c (rb_iter (cm_vmas cm))) with
  | None => fail_with EFAULT
  | Some containing_vma =>
      lift (VMRemapParser_parse (ChunkManager_is_free_range cm) options (remap_vma_of containing_vma))
  end.

(** Protecting part of an area cuts it in two or three. *)
Definition mprotect_split (current_pid : Z) (protect_range : VMRange) (new_perms : VMPerms)
    (containing_vma intersection_vma : VMArea) (c : nat) : CM (option nat) :=
  let old_perms := va_perms containing_vma in
  remain_vmas ← lift (VMArea_subtract containing_vma (va_range intersection_vma));
  match remain_vmas with
  | [_; _] =>
      let old_end := vm_end (va_range containing_vma) in
      let protect_end := vm_end protect_range in
      new_vma ← lift (VMArea_inherits_file_from containing_vma protect_range new_perms
                        (Private current_pid));
      _ ← on_world (VMArea_modify_permissions_for_committed_pages new_vma old_perms new_perms);
      range ← lift (unwrap_result (VMRange_new protect_end old_end));
      new_vma2 ← lift (VMArea_inherits_file_from containing_vma range old_perms (Private current_pid));
      containing_vma ← on_world (VMArea_set_end containing_vma (vm_start protect_range));
      _ ← cursor_replace_with c containing_vma;
      c ← cursor_insert c new_vma;
      _ ← cursor_insert c new_vma2;
      ok None
  | [remain_vma] =>
      new_vma ← lift (VMArea_inherits_file_from containing_vma (va_range intersection_vma) new_perms
                        (Private current_pid));
      _ ← on_world (VMArea_modify_permissions_for_committed_pages new_vma old_perms new_perms);
      containing_vma ← on_world
        (if vm_start (va_range remain_vma) =? vm_start (va_range containing_vma)
         then VMArea_set_end containing_vma (vm_end (va_range remain_vma))
         else VMArea_set_start containing_vma (vm_start (va_range remain_vma)));
      _ ← cursor_replace_with c containing_vma;
      c ← cursor_insert c new_vma;
      ok (Some (S c))
  | _ => panic
  end.

Fixpoint mprotect_loop (current_pid : Z) (protect_range : VMRange) (new_perms : VMPerms)
    (fuel : nat) (c : nat) : CM unit :=
  match fuel with
  | O => panic
  | S fuel =>
      let loop := mprotect_loop current_pid protect_range new_perms fuel in
      cur ← cursor_get c;
      match cur with
      | None => ok tt
      | Some containing_vma =>
          if negb (vm_start (va_range containing_vma) <=? vm_end protect_range) then ok tt else
          if negb (VMArea_belong_to containing_vma current_pid) then loop (S c) else
          let old_perms := va_perms containing_vma in
          if new_perms =? old_perms then loop (S c) else
          inter ← lift (VMArea_intersect containing_vma protect_range);
          match inter with
          | None => loop (S c)
          | Some intersection_vma =>
              denied ← lift (write_denied (VMArea_writeback_file intersection_vma) new_perms);
              if (denied : bool) then fail_with EACCES
              else if bool_decide (va_range intersection_vma = va_range containing_vma) then
                let containing_vma := VMArea_set_perms containing_vma new_perms in
                _ ← on_world (VMArea_modify_permissions_for_committed_pages containing_vma
                                old_perms new_perms);
                _ ← cursor_replace_with c containing_vma;
                loop (S c)
              else
                next ← mprotect_split current_pid protect_range new_perms containing_vma
                         intersection_vma c;
                match next with Some c => loop c | None => ok tt end
          end
      end
  end.

Definition ChunkManager_mprotect (current_pid addr size : Z) (new_perms : VMPerms) : CM unit :=
  protect_range ← lift (VMRange_new_with_size addr size);
  cm ← self;
  match rb_upper_bound vma_key (vm_start protect_range) (cm_vmas cm) with
  | None => fail_with ENOMEM
  | Some c => mprotect_loop current_pid protect_range new_perms
                (2 * length (rb_iter (cm_vmas cm)) + 2) c
  end.

Definition ChunkManager_msync_by_range (sync_range : VMRange) : CM unit :=
  cm ← self;
  if negb (VMRange_is_superset_of (cm_range cm) sync_range) then fail_with ENOMEM else
  for_each (fun vma =>
    inter ← lift (VMArea_intersect vma sync_range);
    match inter with
    | None => ok tt
    | Some vma => on_world (VMArea_flush_committed_backed_file vma)
    end) (rb_iter (cm_vmas cm)).

Definition ChunkManager_msync_by_file (sync_file : FileRef) : CM unit :=
  cm ← self;
  for_each (fun vma => on_world (VMArea_flush_committed_backed_file_with_cond vma
                                   (fun file => file =? sync_file)))
    (rb_iter (cm_vmas cm)).

(** The element of [upper_bound(Included(addr))]. *)
Definition vma_upper_bound (self : ChunkManager) (addr : Z) : option (nat * VMArea) :=
  c ← rb_upper_bound vma_key addr (cm_vmas self);
  v ← rb_iter (cm_vmas self) !! c;
  Some (c, v).

Definition ChunkManager_find_mmap_region (self : ChunkManager) (current_pid addr : Z)
    : Result VMRange :=
  match vma_upper_bound self addr with
  | None => Err ESRCH
  | Some (_, vma) =>
      if negb (VMArea_belong_to vma current_pid) || negb (VMRange_contains (va_range vma) addr)
      then Err ESRCH
      else Ok (va_range vma)
  end.

Definition ChunkManager_handle_page_fault (current_pid rip pf_addr errcd : Z)
    (kernel_triggers : bool) : CM unit :=
  cm ← self;
  match vma_upper_bound cm pf_addr with
  | None => fail_with ENOMEM
  | Some (c, vma) =>
      pid ← lift (VMArea_pid vma);
      if negb (pid =? current_pid) || negb (VMRange_contains (va_range vma) pf_addr)
      then fail_with ENOMEM
      else
        vma ← on_world (VMArea_handle_page_fault vma rip pf_addr errcd kernel_triggers);
        cursor_replace_with c vma
  end.

End chunk_manager.
