(* ===== verification/PlatformChunk.v ===== *)
(** The code from the EPC allocators up to the chunk managers on a platform that can
    fail, compared with the same code on the platform without failures. *)

From S2P Require Import Prelude Errno Effects External FileFlags VMRange VMMapOptions VMFreeSpace VMRemap.
From S2P Require Import VMEpc Platform PageTracker VMArea ChunkManager.

(** * Without failures *)

Section reliable.
Context {BF : Bitflags} {PL : Platform} {EN : Enclave} {REL : ReliableEnclave}.

Lemma succeeds_check_ret e call : (forall m, (call m).1 = 0) -> succeeds (check_ret e call).
Proof.
  intros H m. specialize (H m). unfold check_ret. destruct (call m) as [ret m']. simpl in H. subst.
  by eexists _, _.
Qed.

Lemma succeeds_EDMM_modify_permissions addr len cur new :
  succeeds (EDMM_modify_permissions addr len cur new).
Proof.
  unfold EDMM_modify_permissions, EDMM_modify_page.
  auto 20 using succeeds_check_ret, rel_modify, rel_eaccept with occlum.
Qed.

Lemma succeeds_modify_permission epc addr len cur new :
  succeeds (EPCMemType_modify_permission epc addr len cur new).
Proof.
  destruct epc; simpl; unfold ReservedMem_modify_permission, UserRegionMem_modify_permission;
    auto using succeeds_EDMM_modify_permissions.
  apply succeeds_if; [auto using succeeds_EDMM_modify_permissions with occlum|].
  intros m. pose proof (rel_mprotect addr len (bf_remove new VMPerms_GROWSDOWN) m) as H.
  destruct (occlum_ocall_mprotect _ _ _ m) as [[ret val] m']. simpl in H. injection H as -> ->.
  by eexists _, _.
Qed.

Lemma succeeds_commit_with_data addr data perms : succeeds (EDMM_commit_with_data addr data perms).
Proof.
  unfold EDMM_commit_with_data.
  auto 20 using succeeds_check_ret, rel_eacceptcopy, succeeds_EDMM_modify_permissions with occlum.
Qed.

Lemma succeeds_commit_memory start size perms :
  succeeds (UserRegionMem_commit_memory start size perms).
Proof.
  unfold UserRegionMem_commit_memory, EDMM_commit_memory.
  destruct perms; auto 20 using succeeds_check_ret, rel_eaccept, succeeds_commit_with_data with occlum.
Qed.

End reliable.

Section platform.
Context {BF : Bitflags} {BV : BitVecs} {PL : Platform} {EN : Enclave} {US : UserSpace} {RB : RBTrees}.
Abbreviation TE := (total_enclave EN) (only parsing).
Abbreviation same c c' := (agrees platform_fault c c') (only parsing).
Abbreviation same_ok c c' := (agrees_ok platform_fault c c') (only parsing).

(** * Enclave memory *)

Lemma check_ret_agrees e (call call' : Mem -> Z * Mem) :
  (forall m, call' m = (0, (call m).2)) -> (forall m, (call m).1 <> 0 -> platform_fault) ->
  same_ok (check_ret e call) (check_ret e call').
Proof.
  intros Hcall HF m. unfold check_ret. rewrite Hcall. specialize (HF m). destruct (call m) as [ret m']. simpl in *.
  destruct (Z.eqb_spec ret 0); [by left|]. right. split; [done|by apply HF].
Qed.

Lemma eaccept_agrees e flags page :
  same_ok (check_ret e (do_eaccept flags page)) (check_ret e (do_eaccept (Enclave := TE) flags page)).
Proof. apply check_ret_agrees; [done|]. intros m. apply eaccept_fails. Qed.

Lemma eacceptcopy_agrees e flags page data :
  same_ok (check_ret e (do_eacceptcopy flags page data))
          (check_ret e (do_eacceptcopy (Enclave := TE) flags page data)).
Proof. apply check_ret_agrees; [done|]. intros m. apply eacceptcopy_fails. Qed.

Lemma modify_ocall_agrees e addr len from to :
  same_ok (check_ret e (sgx_mm_modify_ocall addr len from to))
          (check_ret e (sgx_mm_modify_ocall (Enclave := TE) addr len from to)).
Proof. apply check_ret_agrees; [done|]. intros m. apply modify_fails. Qed.

Lemma emodpe_agrees flags page : same_ok (modify (do_emodpe flags page)) (modify (do_emodpe (Enclave := TE) flags page)).
Proof. intros m. by left. Qed.
#[local] Hint Resolve eaccept_agrees eacceptcopy_agrees modify_ocall_agrees emodpe_agrees : agree.

Lemma commit_memory_agrees start size : same_ok (EDMM_commit_memory start size) (EDMM_commit_memory (EN := TE) start size).
Proof. unfold EDMM_commit_memory. agree. Qed.

Lemma modify_permissions_agrees addr len cur new :
  same_ok (EDMM_modify_permissions addr len cur new) (EDMM_modify_permissions (EN := TE) addr len cur new).
Proof. unfold EDMM_modify_permissions, EDMM_modify_page. agree. Qed.
#[local] Hint Resolve commit_memory_agrees modify_permissions_agrees : agree.

Lemma commit_with_data_agrees addr data perm :
  same_ok (EDMM_commit_with_data addr data perm) (EDMM_commit_with_data (EN := TE) addr data perm).
Proof. unfold EDMM_commit_with_data. agree. Qed.
#[local] Hint Resolve commit_with_data_agrees : agree.

Lemma user_commit_agrees start size perms :
  same_ok (UserRegionMem_commit_memory start size perms) (UserRegionMem_commit_memory (EN := TE) start size perms).
Proof. unfold UserRegionMem_commit_memory. agree. Qed.

Lemma modify_permission_agrees t addr len cur new :
  same_ok (EPCMemType_modify_permission t addr len cur new) (EPCMemType_modify_permission (EN := TE) t addr len cur new).
Proof.
  destruct t; simpl; [|unfold UserRegionMem_modify_permission; agree].
  unfold ReservedMem_modify_permission. cbv zeta. destruct rsgx_is_supported_EDMM.
  - apply agrees_weaken. agree.
  - intros m. simpl. pose proof (mprotect_fails addr len (bf_remove new VMPerms_GROWSDOWN) m) as HF.
    destruct (occlum_ocall_mprotect _ _ _ m) as [[ret v] m']. simpl in *.
    destruct (Z.eqb_spec ret SGX_SUCCESS) as [-> |?]; destruct (Z.eqb_spec v 0) as [-> |?]; simpl; [by left|..];
      right; (split; [done|apply HF; unfold SGX_SUCCESS in *; congruence]).
Qed.
#[local] Hint Resolve user_commit_agrees modify_permission_agrees : agree.

(** Committing pages of user memory works unless the platform fails. *)
Lemma agrees_ok_cause {S A} (F : Prop) (c c' : M S A) s :
  agrees_ok F c c' -> succeeds c' -> (exists a s', c s = (Ok a, s')) \/ F.
Proof. intros Hc Hs. destruct (Hc s) as [-> |[_ HF]]; [left; apply Hs|by right]. Qed.

Lemma user_commit_cause {EL : EnclaveLaws} start size perms m :
  (exists m', UserRegionMem_commit_memory start size perms m = (Ok tt, m')) \/ platform_fault.
Proof.
  destruct (agrees_ok_cause _ _ _ m (user_commit_agrees start size perms)) as [([] & ? & ?)|?]; eauto.
  apply succeeds_commit_memory.
Qed.

Lemma user_commit_data_cause {EL : EnclaveLaws} start data perms m :
  (exists m', UserRegionMem_commit_memory_with_data start data perms m = (Ok tt, m')) \/ platform_fault.
Proof.
  destruct (agrees_ok_cause _ _ _ m (commit_with_data_agrees start data perms)) as [([] & ? & ?)|?]; eauto.
  apply succeeds_commit_with_data.
Qed.

(** * Page trackers *)

Lemma on_mem_agrees {A} (c c' : M Mem A) : same c c' -> same (on_mem (BV := BV) c) (on_mem c').
Proof.
  intros H w. unfold on_mem. destruct (H (w_mem w)) as [<- |[Hp HF]]; [by left|]. right.
  by destruct (c (w_mem w)).
Qed.
Lemma on_mem_agrees_ok {A} (c c' : M Mem A) : same_ok c c' -> same_ok (on_mem (BV := BV) c) (on_mem c').
Proof.
  intros H w. unfold on_mem. destruct (H (w_mem w)) as [<- |[Hp HF]]; [by left|]. right.
  by destruct (c (w_mem w)).
Qed.
Lemma on_mem_eq {A} (c c' : M Mem A) : (forall m, c m = c' m) -> same (on_mem (BV := BV) c) (on_mem c').
Proof. intros H. apply on_mem_agrees. intros m. by left. Qed.
#[local] Hint Resolve on_mem_agrees on_mem_agrees_ok agrees_unwrapM : agree.

Lemma commit_whole_agrees t perms :
  same (PageTracker_commit_whole t perms) (PageTracker_commit_whole (EN := TE) t perms).
Proof. unfold PageTracker_commit_whole. agree; apply on_mem_agrees; agree. Qed.

Lemma commit_range_agrees t r perms :
  same_ok (PageTracker_commit_range t r perms) (PageTracker_commit_range (EN := TE) t r perms).
Proof. unfold PageTracker_commit_range. agree. apply on_mem_agrees_ok. agree. Qed.

Lemma commit_memory_with_data_agrees t r data perms :
  same_ok (PageTracker_commit_memory_with_data t r data perms)
          (PageTracker_commit_memory_with_data (EN := TE) t r data perms).
Proof.
  unfold PageTracker_commit_memory_with_data, UserRegionMem_commit_memory_with_data. agree.
  apply on_mem_agrees_ok. agree.
Qed.
#[local] Hint Resolve commit_whole_agrees commit_range_agrees commit_memory_with_data_agrees : agree.

(** * Files *)

Lemma file_can_read_agrees file : agrees_result platform_fault (file_can_read file) (file_can_read (EN := TE) file).
Proof.
  pose proof (no_access_mode file) as HF. unfold file_can_read. simpl.
  destruct (file_access_mode file); [by left|right..]; (split; [done|by apply HF]).
Qed.
Lemma file_can_write_agrees file : agrees_result platform_fault (file_can_write file) (file_can_write (EN := TE) file).
Proof.
  pose proof (no_access_mode file) as HF. unfold file_can_write. simpl.
  destruct (file_access_mode file); [by left|right..]; (split; [done|by apply HF]).
Qed.
#[local] Hint Resolve file_can_read_agrees file_can_write_agrees : agree.

Lemma write_denied_agrees wb new : agrees_result platform_fault (write_denied wb new) (write_denied (EN := TE) wb new).
Proof. unfold write_denied. agree. Qed.

Lemma metadata_agrees file m :
  agrees_result platform_fault (unwrap_result (file_metadata file m))
    (unwrap_result (file_metadata (Enclave := TE) file m)).
Proof.
  pose proof (no_metadata file m) as HF. simpl.
  destruct (file_metadata file m); [by left|right..]; (split; [done|by apply HF]).
Qed.

Lemma file_len_agrees file : same (file_len (BV := BV) file) (file_len (EN := TE) file).
Proof.
  apply on_mem_agrees. intros m.
  destruct (metadata_agrees file m) as [-> |[Hp HF]]; [by left|]. right. cbv beta. rewrite Hp. by split.
Qed.

Lemma write_file_agrees file offset r len :
  same_ok (write_file_from (BV := BV) file offset r len) (write_file_from (EN := TE) file offset r len).
Proof.
  apply on_mem_agrees_ok. intros m. simpl. destruct (_ <? _); [by left|].
  pose proof (write_fails file offset (take (Z.to_nat len) (as_slice m r)) m) as HF.
  destruct (file_write_at _ _ _ m) as [[n|e|] m']; [by left|right..]; (split; [done|by apply HF]).
Qed.

Lemma read_agrees m file offset buf :
  agrees_result platform_fault (file_read_at m file offset buf) (file_read_at (Enclave := TE) m file offset buf).
Proof.
  pose proof (read_panics file offset buf m) as HF. simpl.
  destruct (file_read_at m file offset buf); [by left..|]. right. split; [done|by apply HF].
Qed.
#[local] Hint Resolve write_denied_agrees file_len_agrees write_file_agrees : agree.

(** * Areas *)

Lemma modify_permission_force_agrees v r cur new :
  same (VMArea_modify_permission_force v r cur new) (VMArea_modify_permission_force (EN := TE) v r cur new).
Proof. unfold VMArea_modify_permission_force. cbv zeta. apply on_mem_agrees. agree. Qed.

Lemma fill_zeros_agrees r : same (fill_zeros (BV := BV) r) (fill_zeros (EN := TE) r).
Proof. intros w. by left. Qed.
#[local] Hint Resolve modify_permission_force_agrees fill_zeros_agrees : agree.

Lemma flush_internal_agrees v r nf file off :
  same (VMArea_flush_and_clean_internal v r nf file off) (VMArea_flush_and_clean_internal (EN := TE) v r nf file off).
Proof. unfold VMArea_flush_and_clean_internal. agree. Qed.
#[local] Hint Resolve flush_internal_agrees : agree.

Lemma flush_and_clean_agrees v : same (VMArea_flush_and_clean_memory v) (VMArea_flush_and_clean_memory (EN := TE) v).
Proof. unfold VMArea_flush_and_clean_memory. agree. Qed.

Lemma modify_committed_agrees v cur new :
  same (VMArea_modify_permissions_for_committed_pages v cur new)
       (VMArea_modify_permissions_for_committed_pages (EN := TE) v cur new).
Proof. unfold VMArea_modify_permissions_for_committed_pages. agree. Qed.

Lemma flush_file_agrees v file off : same_ok (VMArea_flush_file v file off) (VMArea_flush_file (EN := TE) v file off).
Proof.
  unfold VMArea_flush_file. apply agrees_ok_bind; [by apply agrees_weaken, file_len_agrees|]. intros len.
  destruct (len <=? off); [by agree|]. destruct (VMArea_is_fully_committed v); [by agree|].
  apply agrees_ok_bind; [by agree|]. intros t. apply agrees_ok_bind; [by agree|]. intros l. cbv zeta.
  induction l as [|r l IH]; [by agree|]. agree.
Qed.
#[local] Hint Resolve flush_and_clean_agrees modify_committed_agrees flush_file_agrees : agree.

Lemma flush_with_cond_agrees v cond :
  same (VMArea_flush_committed_backed_file_with_cond v cond)
       (VMArea_flush_committed_backed_file_with_cond (EN := TE) v cond).
Proof.
  unfold VMArea_flush_committed_backed_file_with_cond. destruct (VMArea_writeback_file v) as [[f o]|]; [|by agree].
  apply agrees_bind; [|intros []; agree]. apply agrees_lift. pose proof (no_access_mode f) as HF. simpl.
  destruct (file_access_mode f); [by left..|right]. split; [done|by apply HF].
Qed.

Lemma init_file_backed_agrees v r file off perms :
  same (VMArea_init_file_backed_mem v r file off perms) (VMArea_init_file_backed_mem (EN := TE) v r file off perms).
Proof.
  unfold VMArea_init_file_backed_mem. agree. apply on_mem_agrees. intros m. cbv beta.
  destruct (read_agrees m file off (as_slice m r)) as [Hr|[-> HF]]; [|by right]. left.
  change (as_slice (Enclave := TE)) with as_slice. by rewrite <- Hr.
Qed.
#[local] Hint Resolve flush_with_cond_agrees init_file_backed_agrees : agree.

Lemma init_for_page_fault_agrees v r :
  same_ok (VMArea_init_memory_for_page_fault v r) (VMArea_init_memory_for_page_fault (EN := TE) v r).
Proof.
  unfold VMArea_init_memory_for_page_fault. agree. apply agrees_weaken, on_mem_agrees. intros m. cbv beta.
  lazymatch goal with |- context [file_read_at m ?f ?o ?b] => destruct (read_agrees m f o b) as [<- |[-> HF]] end;
    [by left|by right].
Qed.

Lemma init_internal_agrees v r i :
  same (VMArea_init_memory_internal v r (Some i)) (VMArea_init_memory_internal (EN := TE) v r (Some i)).
Proof. unfold VMArea_init_memory_internal. agree. Qed.

Lemma init_slice_reads sl (rd rd' : FileRef -> Z -> list Z -> Result (nat * list Z)) i buf :
  (forall f o b, agrees_result platform_fault (rd f o b) (rd' f o b)) ->
  agrees_result platform_fault (VMInitializer_init_slice sl rd i buf) (VMInitializer_init_slice sl rd' i buf).
Proof.
  intros H. assert (Hr : forall f o b, agrees_result platform_fault (read_or_eacces rd f o b) (read_or_eacces rd' f o b)).
  { intros f o b. unfold read_or_eacces. destruct (H f o b) as [-> |[-> HF]]; [by left|by right]. }
  unfold VMInitializer_init_slice. destruct i; agree.
Qed.

Lemma init_slice_agrees i r : same (init_slice_of (BV := BV) i r) (init_slice_of (EN := TE) i r).
Proof.
  apply on_mem_agrees. intros m. cbv beta.
  change (as_slice (Enclave := TE)) with as_slice. change (set_slice (Enclave := TE)) with set_slice.
  destruct (init_slice_reads (as_slice m) _ _ i (as_slice m r) (read_agrees m)) as [-> |[-> HF]]; [by left|by right].
Qed.
#[local] Hint Resolve init_for_page_fault_agrees init_internal_agrees init_slice_agrees : agree.

Lemma init_memory_agrees v o : same (VMArea_init_memory v o) (VMArea_init_memory (EN := TE) v o).
Proof. unfold VMArea_init_memory. agree. Qed.

Lemma commit_once_loop_agrees v pf once total l :
  same_ok (commit_once_loop v pf once total l) (commit_once_loop (EN := TE) v pf once total l).
Proof. revert v total. induction l as [|r l IH]; intros v total; simpl; agree. Qed.
#[local] Hint Resolve init_memory_agrees commit_once_loop_agrees : agree.

Lemma commit_once_agrees v pf :
  same_ok (VMArea_commit_once_for_page_fault v pf) (VMArea_commit_once_for_page_fault (EN := TE) v pf).
Proof. unfold VMArea_commit_once_for_page_fault. agree. Qed.

Lemma commit_whole_loop_agrees v l : same (commit_whole_loop v l) (commit_whole_loop (EN := TE) v l).
Proof. revert v. induction l as [|r l IH]; intros v; simpl; agree. Qed.
#[local] Hint Resolve commit_once_agrees commit_whole_loop_agrees : agree.

Lemma area_fault_agrees v rip pf errcd kt :
  same (VMArea_handle_page_fault v rip pf errcd kt) (VMArea_handle_page_fault (EN := TE) v rip pf errcd kt).
Proof. unfold VMArea_handle_page_fault, VMArea_commit_current_vma_whole. agree. Qed.
#[local] Hint Resolve area_fault_agrees : agree.

(** * Chunk managers *)

Lemma on_world_agrees {A} (c c' : M (World BV PL) A) : same c c' -> same (on_world c) (on_world c').
Proof.
  intros H s. unfold on_world. destruct (H s.2) as [<- |[Hp HF]]; [by left|]. right. by destruct (c s.2).
Qed.
Ltac agree_hook ::= apply on_world_agrees.

Lemma clean_vmas_agrees pid : same (ChunkManager_clean_vmas_with_pid pid) (ChunkManager_clean_vmas_with_pid (EN := TE) pid).
Proof.
  unfold ChunkManager_clean_vmas_with_pid. agree. generalize 0%nat as c.
  generalize (S (length (rb_iter (cm_vmas a)))) as fuel.
  induction fuel as [|fuel IH]; intros c; simpl; agree.
Qed.

Lemma munmap_range_agrees pid r : same (ChunkManager_munmap_range pid r) (ChunkManager_munmap_range (EN := TE) pid r).
Proof.
  unfold ChunkManager_munmap_range. agree. generalize (3 * length (rb_iter (cm_vmas a)) + 1)%nat as fuel.
  intros fuel. revert a0. induction fuel as [|fuel IH]; intros c; simpl; [by agree|]. unfold munmap_part. agree.
Qed.
#[local] Hint Resolve munmap_range_agrees : agree.

Lemma chunk_munmap_agrees pid addr size :
  same (ChunkManager_munmap pid addr size) (ChunkManager_munmap (EN := TE) pid addr size).
Proof. unfold ChunkManager_munmap. agree. Qed.
#[local] Hint Resolve chunk_munmap_agrees : agree.

Lemma chunk_mmap_agrees pid o : same (ChunkManager_mmap pid o) (ChunkManager_mmap (EN := TE) pid o).
Proof. unfold ChunkManager_mmap. agree. Qed.

Lemma chunk_mprotect_agrees pid addr size new :
  same (ChunkManager_mprotect pid addr size new) (ChunkManager_mprotect (EN := TE) pid addr size new).
Proof.
  unfold ChunkManager_mprotect. agree. generalize (2 * length (rb_iter (cm_vmas a0)) + 2)%nat as fuel. intros fuel.
  revert n. induction fuel as [|fuel IH]; intros c; simpl; [by agree|]. unfold mprotect_split. agree.
Qed.

Lemma msync_range_agrees r : same (ChunkManager_msync_by_range r) (ChunkManager_msync_by_range (EN := TE) r).
Proof. unfold ChunkManager_msync_by_range, VMArea_flush_committed_backed_file. agree. Qed.

Lemma msync_file_agrees file : same (ChunkManager_msync_by_file file) (ChunkManager_msync_by_file (EN := TE) file).
Proof. unfold ChunkManager_msync_by_file. agree. Qed.

Lemma chunk_fault_agrees pid rip pf errcd kt :
  same (ChunkManager_handle_page_fault pid rip pf errcd kt)
       (ChunkManager_handle_page_fault (EN := TE) pid rip pf errcd kt).
Proof. unfold ChunkManager_handle_page_fault. agree. Qed.

End platform.

#[export] Hint Resolve metadata_agrees write_denied_agrees file_can_read_agrees fill_zeros_agrees flush_and_clean_agrees
  modify_committed_agrees flush_with_cond_agrees init_memory_agrees area_fault_agrees clean_vmas_agrees
  munmap_range_agrees chunk_munmap_agrees chunk_mmap_agrees chunk_mprotect_agrees msync_range_agrees
  msync_file_agrees chunk_fault_agrees : agree.
