(* ===== verification/VMAreaFacts.v ===== *)
(** Theorems about memory areas ([VMArea]): construction, splitting, page faults
    and merging keep the page bookkeeping and the file behind each address. *)

From S2P Require Import Prelude Errno Effects External VMRange VMMapOptions VMEpc Platform PageTracker VMArea.
From S2P Require Import ChunkManager PlatformChunk.

Section facts.
Context {BF : Bitflags} {BV : BitVecs} {PL : Platform} {EN : Enclave} {US : UserSpace}.

Abbreviation bits t := (bv_bits (pt_inner t)) (only parsing).

(** * Trackers of sub-ranges *)

(** The tracker of a sub-range has the bits of its pages. *)
Lemma split_for_new_range_coherent g t r :
  coherent g t -> VMRange_wf r -> vm_start r < vm_end r ->
  VMRange_is_superset_of (pt_range t) r = true ->
  exists t', PageTracker_split_for_new_range t r = Ok t' /\ pt_range t' = r /\ coherent g t'.
Proof.
  intros [Hwf Ht Hcov] Hr Hne Hsup. pose proof Hsup as Hsup'.
  unfold VMRange_is_superset_of in Hsup'. boolprop. destruct (Hr).
  destruct (page_index_range t r Hwf Hr) as (Hi & Hn & Hin & Hidx & Hidx' & Hieq); try lia.
  set (i := (_ -64 _) / _) in *. set (n := VMRange_size r / PAGE_SIZE) in *.
  unfold PageTracker_split_for_new_range. fold i n. unfold bv_len in *. case_if; boolprop; [lia|].
  set (inner := bv_truncate _ _).
  assert (Hbits : bv_bits inner = take (Z.to_nat n) (drop (Z.to_nat i) (bits t))).
  { subst inner. rewrite bv_truncate_law, bv_split_off_law by lia. done. }
  assert (Hlen : length (bv_bits inner) = Z.to_nat n)
    by (rewrite Hbits, length_take, length_drop; lia).
  assert (Hnn : n = (vm_end r - vm_start r) / PAGE_SIZE)
    by (subst n; rewrite VMRange_size_wf by done; done).
  eexists. split; [reflexivity|]. split; [done|]. constructor.
  - constructor; cbn [pt_range pt_inner pt_fully_committed].
    + done.
    + rewrite Hlen. pages.
    + intros Hnn'. rewrite bv_all_law, Hbits. apply if_true_or.
      rewrite (tw_full _ Hwf) by (apply tracker_nonempty; [done|lia]).
      rewrite !forallb_id_Forall. intros Hf. by apply Forall_take, Forall_drop.
  - intros a Ha Hina. cbn [pt_range pt_inner] in *. unfold page_index. cbn [pt_range].
    rewrite (Hidx' a Hina), Hbits.
    assert (Hint : a ∈ pt_range t) by (vmrange_unfold; lia).
    specialize (proj2 (Hidx a Ha Hint) Hina). intros Hx.
    rewrite lookup_take_lt, lookup_drop by lia.
    rewrite <- (Ht a Ha Hint). f_equal. lia.
  - cbn [pt_range]. eapply covered_sub; [apply Hwf|done..].
Qed.

(** * Well-formed areas *)

(** The area does not straddle the gap between the two parts of user space. *)
Definition off_gap (r : VMRange) : Prop :=
  match user_space_gap with
  | Some gap => VMRange_wf gap /\ (vm_end r <= vm_start gap \/ vm_end gap <= vm_start r)
  | None => True
  end.

Record area_wf (g : PageChunkManager) (v : VMArea) : Prop := {
  aw_range : VMRange_wf (va_range v);
  aw_nonempty : vm_start (va_range v) < vm_end (va_range v);
  aw_bound : vm_end (va_range v) + PAGE_CHUNK_UNIT <= u64_modulus;
  aw_gap : off_gap (va_range v);
  aw_epc : va_epc_type v = EPCMemType_new (va_range v);
  aw_offset : forall fb, va_file_backed v = Some fb -> is_u64 (fb_offset fb);
  aw_pages :
    match va_pages v with
    | Some t => va_epc_type v = UserRegion /\ coherent g t /\ pt_range t = va_range v
                /\ pt_fully_committed t = false
    | None => va_epc_type v = UserRegion ->
              forall a, page_aligned a -> a ∈ va_range v -> committed_in g a = true
    end;
}.

Lemma off_gap_sub r r' :
  VMRange_is_superset_of r r' = true -> off_gap r -> off_gap r'.
Proof.
  unfold off_gap, VMRange_is_superset_of. intros Hs Hg. boolprop.
  destruct user_space_gap; [|done]. destruct Hg as [? ?]. split; [done|lia].
Qed.

Lemma EPCMemType_new_sub r r' :
  off_gap r -> vm_start r < vm_end r -> vm_start r' < vm_end r' ->
  VMRange_is_superset_of r r' = true -> EPCMemType_new r' = EPCMemType_new r.
Proof.
  unfold off_gap, VMRange_is_superset_of, EPCMemType_new. intros Hg Hr Hr' Hs. boolprop.
  destruct rsgx_is_supported_EDMM; [|done]. destruct user_space_gap as [gap|]; [|done].
  destruct Hg as [[] Hg]. repeat case_if; boolprop; try done; lia.
Qed.

(** The pages of a coherent tracker that calls itself full are committed. *)
Lemma pages_unless_full_spec g t :
  coherent g t ->
  match pages_unless_full t with
  | Some t' => t' = t /\ pt_fully_committed t = false
  | None => forall a, page_aligned a -> a ∈ pt_range t -> committed_in g a = true
  end.
Proof.
  intros [Hwf Ht _]. unfold pages_unless_full, PageTracker_is_fully_committed.
  destruct (pt_fully_committed t) eqn:Hf; simpl; [|done].
  intros a Ha Hin. by eapply full_tracker_bit.
Qed.

(** [va_pages] of a new or resized area: what [new_vma_tracker] returns. *)
Lemma new_pages_spec (w : World BV PL) r epc :
  pcm_wf (w_pcm w) -> VMRange_wf r -> vm_start r < vm_end r ->
  vm_end r + PAGE_CHUNK_UNIT <= u64_modulus ->
  exists t w', unwrapM (PageTracker_new_vma_tracker r epc) w = (Ok t, w')
    /\ w_mem w' = w_mem w /\ pcm_wf (w_pcm w')
    /\ (forall c, is_Some (w_pcm w !! c) -> is_Some (w_pcm w' !! c))
    /\ (forall a, is_u64 a -> page_aligned a -> committed_in (w_pcm w') a = committed_in (w_pcm w) a)
    /\ match pages_unless_full t with
       | Some t' => epc = UserRegion /\ coherent (w_pcm w') t' /\ pt_range t' = r
                    /\ pt_fully_committed t' = false
       | None => epc = UserRegion ->
                 forall a, page_aligned a -> a ∈ r -> committed_in (w_pcm w') a = true
       end.
Proof.
  intros Hg Hr Hne Hb. destruct epc.
  - eexists _, w. split; [reflexivity|]. split_and!; auto. done.
  - destruct (new_vma_tracker_coherent w r Hg Hr Hne Hb)
      as (t & w' & Hrun & Hm & Hg' & Hd & Hc & Hrt & Hco).
    exists t, w'. unfold unwrapM. rewrite Hrun. split_and!; auto.
    pose proof (pages_unless_full_spec _ _ Hco) as Hp.
    destruct (pages_unless_full t) as [t'|]; [destruct Hp as [-> ?]; auto|].
    intros _. by rewrite <- Hrt.
Qed.

(** A new area is well-formed, and creating it changes neither memory nor the
    set of committed pages. *)
Lemma VMArea_new_spec (w : World BV PL) r perms file pid :
  pcm_wf (w_pcm w) -> VMRange_wf r -> vm_start r < vm_end r ->
  vm_end r + PAGE_CHUNK_UNIT <= u64_modulus -> off_gap r ->
  (forall fb, file = Some fb -> is_u64 (fb_offset fb)) ->
  exists v w', VMArea_new r perms file pid w = (Ok v, w')
    /\ w_mem w' = w_mem w /\ pcm_wf (w_pcm w') /\ area_wf (w_pcm w') v
    /\ (forall c, is_Some (w_pcm w !! c) -> is_Some (w_pcm w' !! c))
    /\ (forall a, is_u64 a -> page_aligned a -> committed_in (w_pcm w') a = committed_in (w_pcm w) a)
    /\ va_range v = r /\ va_perms v = perms /\ va_file_backed v = file /\ va_access v = Private pid
    /\ va_pf_count v = 0.
Proof.
  intros Hg Hr Hne Hb Hgap Hoff. unfold VMArea_new. destruct (EPCMemType_new r) eqn:He.
  - eexists _, w. split; [reflexivity|]. split_and!; auto. by constructor.
  - destruct (new_pages_spec w r UserRegion Hg Hr Hne Hb) as (t & w' & Hrun & Hm & Hg' & Hd & Hc & Hp).
    eexists _, w'. split.
    { erewrite bind_ok by (erewrite bind_ok by exact Hrun; reflexivity). reflexivity. }
    split_and!; auto. constructor; auto.
Qed.

(** * Splitting *)

(** The file and offset behind an address of the area. *)
Definition file_pos (v : VMArea) (a : Z) : option (FileRef * Z * bool) :=
  match va_file_backed v with
  | Some fb => Some (fb_file fb, fb_offset fb +64 (a -64 vm_start (va_range v)), fb_write_back fb)
  | None => None
  end.

Lemma add64_sub64_shift off s ns a :
  (off +64 (ns -64 s)) +64 (a -64 ns) = off +64 (a -64 s).
Proof.
  unfold add64, sub64, wrap64, u64_modulus.
  rewrite !Zplus_mod_idemp_r, Zplus_mod_idemp_l. f_equal. lia.
Qed.

(** An area made of a sub-range is well-formed and has the same file, offset and
    commit status behind every address. *)
Lemma inherits_file_from_spec g v r perms access :
  area_wf g v -> VMRange_wf r -> vm_start r < vm_end r ->
  VMRange_is_superset_of (va_range v) r = true ->
  exists v', VMArea_inherits_file_from v r perms access = Ok v'
    /\ area_wf g v' /\ va_range v' = r /\ va_perms v' = perms /\ va_access v' = access
    /\ va_epc_type v' = va_epc_type v
    /\ forall a, file_pos v' a = file_pos v a.
Proof.
  intros [Hw Hne Hb Hgap Hepc Hoff Hp] Hr Hrne Hsup. pose proof Hsup as Hsup'.
  unfold VMRange_is_superset_of in Hsup'. boolprop.
  assert (Hepc' : EPCMemType_new r = va_epc_type v) by (rewrite Hepc; by apply EPCMemType_new_sub).
  unfold VMArea_inherits_file_from.
  assert (Hpages : exists p, match va_pages v with
      | Some pages => pages ← PageTracker_split_for_new_range pages r; Ok (pages_unless_full pages)
      | None => Ok None
      end = Ok p /\ match p with
      | Some t => va_epc_type v = UserRegion /\ coherent g t /\ pt_range t = r
                  /\ pt_fully_committed t = false
      | None => va_epc_type v = UserRegion ->
                forall a, page_aligned a -> a ∈ r -> committed_in g a = true
      end).
  { destruct (va_pages v) as [t|].
    - destruct Hp as (Hu & Hco & Hrt & Hf). rewrite <- Hrt in Hsup.
      destruct (split_for_new_range_coherent g t r Hco Hr Hrne Hsup) as (t' & -> & Hrt' & Hco').
      eexists. split; [reflexivity|]. pose proof (pages_unless_full_spec _ _ Hco') as Hpu.
      destruct (pages_unless_full t') as [t''|]; [destruct Hpu as [-> ?]; auto|].
      intros _. by rewrite <- Hrt'.
    - eexists. split; [reflexivity|]. intros Hu a Ha Hin. apply Hp; auto. vmrange_unfold. lia. }
  destruct Hpages as (p & -> & Hp'). cbn [mbind Result_bind]. eexists. split; [reflexivity|].
  split_and!; auto.
  - constructor; cbn [va_range va_epc_type va_pages VMArea_new_with_page_tracker]; auto; try lia.
    + by eapply off_gap_sub.
    + intros fb. destruct (va_file_backed v); intros [= <-]. apply wrap64_range.
    + by rewrite Hepc'.
  - intros a. unfold file_pos. cbn [va_file_backed va_range VMArea_new_with_page_tracker].
    destruct (va_file_backed v); [|done]. simpl. by rewrite add64_sub64_shift.
Qed.

Lemma map_result_spec {A B} (R : A -> B -> Prop) (f : A -> Result B) l :
  (forall x, x ∈ l -> exists y, f x = Ok y /\ R x y) ->
  exists ys, map_result f l = Ok ys /\ Forall2 R l ys.
Proof.
  induction l as [|x l IH]; intros H; simpl; [by eauto|].
  destruct (H x) as (y & -> & Hy); [by left|]. simpl.
  destruct IH as (ys & -> & Hys); [intros; apply H; by right|]. simpl. eauto.
Qed.

(** [v'] is the part of [v] with the range [r]. *)
Definition area_part (g : PageChunkManager) (v : VMArea) (r : VMRange) (v' : VMArea) : Prop :=
  area_wf g v' /\ va_range v' = r /\ va_perms v' = va_perms v /\ va_access v' = va_access v
  /\ forall a, file_pos v' a = file_pos v a.

Lemma inherits_part g v r :
  area_wf g v -> VMRange_wf r -> vm_start r < vm_end r ->
  VMRange_is_superset_of (va_range v) r = true ->
  exists v', VMArea_inherits_file_from v r (va_perms v) (va_access v) = Ok v' /\ area_part g v r v'.
Proof.
  intros. destruct (inherits_file_from_spec g v r (va_perms v) (va_access v)) as (v' & ? & ?); auto.
  exists v'. unfold area_part. naive_solver.
Qed.

Lemma ranges_ordered_elem lo l r :
  ranges_ordered lo l -> r ∈ l -> lo <= vm_start r /\ vm_start r < vm_end r.
Proof.
  induction 1 as [|lo r' l Hlo Hne Hl IH]; intros Hin; [by apply elem_of_nil in Hin|].
  apply elem_of_cons in Hin as [->|Hin]; [done|]. specialize (IH Hin). lia.
Qed.

Lemma subtract_subrange s o r :
  VMRange_wf s -> VMRange_wf o -> r ∈ VMRange_subtract s o ->
  VMRange_wf r /\ vm_start r < vm_end r /\ VMRange_is_superset_of s r = true.
Proof.
  intros Hs Ho Hr. destruct (VMRange_subtract_spec s o Hs Ho) as (_ & Hwf & Hord & Hin).
  rewrite List.Forall_forall in Hwf. pose proof (Hwf r (proj1 (list_elem_of_In _ _) Hr)) as Hwr.
  destruct (ranges_ordered_elem _ _ _ Hord Hr). split_and!; auto.
  assert (vm_end r - 1 ∈ s) by (apply Hin; exists r; split; [done|vmrange_unfold; lia]).
  unfold VMRange_is_superset_of. vmrange_unfold. lia.
Qed.

(** Both operations of an area at once. *)
Lemma VMArea_split (g : PageChunkManager) (v : VMArea) (o : VMRange) :
  area_wf g v -> VMRange_wf o ->
  exists inter rest,
    VMArea_intersect v o = Ok inter /\ VMArea_subtract v o = Ok rest
    /\ va_range <$> inter = VMRange_intersect (va_range v) o
    /\ va_range <$> rest = VMRange_subtract (va_range v) o
    /\ Forall (fun v' => area_part g v (va_range v') v') (option_list inter ++ rest).
Proof.
  intros Hv Ho. pose proof (aw_range _ _ Hv) as Hr.
  assert (Hi : exists inter, VMArea_intersect v o = Ok inter
      /\ va_range <$> inter = VMRange_intersect (va_range v) o
      /\ Forall (fun v' => area_part g v (va_range v') v') (option_list inter)).
  { unfold VMArea_intersect. destruct (VMRange_intersect (va_range v) o) as [r|] eqn:Hi.
    - pose proof (VMRange_wf_intersect _ _ _ Hr Ho Hi) as Hwr.
      pose proof (VMRange_intersect_Some _ _ _ Hi) as [Hreq Hne].
      destruct (inherits_part g v r Hv Hwr Hne) as (v' & -> & Hp).
      { rewrite Hreq. unfold VMRange_is_superset_of. simpl. lia. }
      exists (Some v'). destruct (Hp) as (_ & Hrv & _). split_and!; [done|by simpl; rewrite Hrv|].
      constructor; [|done]. by rewrite Hrv.
    - exists None. done. }
  destruct Hi as (inter & Hi & Hir & Hip).
  destruct (map_result_spec (area_part g v)
    (fun range => VMArea_inherits_file_from v range (va_perms v) (va_access v))
    (VMRange_subtract (va_range v) o)) as (rest & Hs & Hrest).
  { intros r Hin. destruct (subtract_subrange _ _ _ Hr Ho Hin) as (? & ? & ?). by apply inherits_part. }
  exists inter, rest. split_and!; auto.
  - clear -Hrest. induction Hrest as [|r v' l l' Hp _ IH]; [done|]. rewrite fmap_cons, IH.
    f_equal. apply Hp.
  - apply Forall_app. split; [done|]. clear -Hrest.
    induction Hrest as [|r v' l l' Hp _ IH]; constructor; auto.
    destruct Hp as (? & Hrv & ?). by rewrite Hrv.
Qed.

(** splitting an area at a range loses nothing. [intersect] and [subtract] never
    panic; their results have the ranges that [VMRange] computes, keep the
    permissions and access, are well-formed (page trackers included) and have
    the same file, file offset and write-back flag behind every address. *)
Theorem VMArea_split_spec (g : PageChunkManager) (v : VMArea) (o : VMRange) :
  area_wf g v -> VMRange_wf o ->
  exists inter rest,
    VMArea_intersect v o = Ok inter /\ VMArea_subtract v o = Ok rest
    /\ va_range <$> inter = VMRange_intersect (va_range v) o
    /\ va_range <$> rest = VMRange_subtract (va_range v) o
    /\ Forall (fun v' => area_part g v (va_range v') v') (option_list inter ++ rest).
Proof. apply VMArea_split. Qed.

(** * Page faults *)

(** The access that faulted is one the permissions of the area allow. *)
Definition access_allowed (v : VMArea) (rip pf_addr errcd : Z) : bool :=
  negb (va_perms v =? VMPerms_NONE)
  && (if check_rw_bit errcd then bf_contains (va_perms v) VMPerms_WRITE
      else bf_contains (va_perms v) VMPerms_READ)
  && implb (rip =? pf_addr) (bf_contains (va_perms v) VMPerms_EXEC).

(** [g'] has committed the pages of [P] in addition to those of [g]. *)
Definition commits (g g' : PageChunkManager) (P : Z -> bool) : Prop :=
  pcm_wf g' /\ (forall c, is_Some (g !! c) -> is_Some (g' !! c))
  /\ forall a, is_u64 a -> page_aligned a -> committed_in g' a = committed_in g a || P a.

Lemma commits_refl g : pcm_wf g -> commits g g (fun _ => false).
Proof. intros. split_and!; auto. intros. by rewrite orb_false_r. Qed.

Lemma commits_trans g1 g2 g3 P Q :
  commits g1 g2 P -> commits g2 g3 Q -> commits g1 g3 (fun a => P a || Q a).
Proof.
  intros (_ & Hd1 & H1) (Hg & Hd2 & H2). split_and!; auto.
  intros a Ha Hp. by rewrite H2, H1, orb_assoc.
Qed.

Lemma commits_ext g g' P Q :
  (forall a, is_u64 a -> page_aligned a -> committed_in g a || P a = committed_in g a || Q a) ->
  commits g g' P -> commits g g' Q.
Proof. intros HPQ (Hg & Hd & H). split_and!; auto. intros. rewrite <- HPQ; auto. Qed.

(** What committing pages of an area means for its tracker [t]. *)
Definition committed_area (g g' : PageChunkManager) (v v' : VMArea) (P : Z -> bool) : Prop :=
  commits g g' P /\ exists t', v' = set_va_pages v (Some t') /\ coherent g' t'
                             /\ pt_range t' = va_range v.

(** Why pages of the area could not be committed. *)
Abbreviation area_fault v := (commit_fault (fst <$> VMArea_backed_file v)) (only parsing).

Lemma init_memory_for_page_fault_spec {EL : EnclaveLaws} (w : World BV PL) v t r :
  pcm_wf (w_pcm w) -> va_pages v = Some t -> coherent (w_pcm w) t -> pt_range t = va_range v ->
  VMRange_wf r -> vm_start r < vm_end r -> VMRange_is_superset_of (va_range v) r = true ->
  match VMArea_init_memory_for_page_fault v r w with
  | (Ok v', w') => committed_area (w_pcm w) (w_pcm w') v v' (fun a => bool_decide (a ∈ r))
  | (_, w') => w_pcm w' = w_pcm w /\ area_fault v
  end.
Proof.
  intros Hg Hp Hco Hrt Hr Hne Hsup. rewrite <- Hrt in Hsup.
  unfold VMArea_init_memory_for_page_fault, VMArea_pages. rewrite Hp. cbn [unwrap_option].
  assert (Hcommit : forall (c : M Mem unit), (exists m, c (w_mem w) = (Ok tt, m)) \/ platform_fault ->
    match (_ ← on_mem c;
           pages ← lift (PageTracker_commit_pages_common t (vm_start r) (VMRange_size r));
           _ ← PageTracker_set_committed_pages_for_global_tracker (vm_start r) (VMRange_size r);
           ok pages) w with
    | (Ok t', w') => commits (w_pcm w) (w_pcm w') (fun a => bool_decide (a ∈ r))
                     /\ coherent (w_pcm w') t' /\ pt_range t' = va_range v
    | (_, w') => w_pcm w' = w_pcm w /\ area_fault v
    end).
  { intros c Hcause. unfold on_mem. unfold mbind at 1, M_bind at 1.
    destruct (c (w_mem w)) as [[[]|e|] m]; [|split; [done|]; left; destruct Hcause as [[? ?]|?]; done..].
    destruct (commit_tracker_spec (mkWorld _ _ m (w_pcm w)) t r Hg Hco Hr Hne Hsup)
      as (t' & w' & Ht' & Hw' & Hm & Hg' & Hd & Hc & Hrt' & Hco').
    rewrite (bind_ok _ _ _ t' (mkWorld _ _ m (w_pcm w))) by (unfold lift; by rewrite Ht').
    erewrite bind_ok by exact Hw'. simpl. unfold commits. split_and!; auto. congruence. }
  destruct (VMArea_backed_file v) as [[file off]|].
  - set (rd := on_mem _). destruct (rd w) as [rr w1] eqn:Hrd.
    assert (Hw1 : w1 = w /\ ((exists data, rr = Ok data) \/ commit_fault (Some file))).
    { subst rd. unfold on_mem in Hrd. destruct (file_read_at _ _ _ _) as [[n b]|e|] eqn:Hread;
        injection Hrd as <- <-; (split; [by destruct w|]); [by left; eauto|..]; right.
      - right. exists file. split; [done|]. by repeat eexists.
      - left. by eapply read_panics. }
    destruct Hw1 as [-> Hread]. unfold mbind at 1, M_bind at 1. rewrite Hrd.
    destruct rr as [data|e|]; [|split; [done|]; destruct Hread as [[? ?]|?]; done..].
    rewrite (bind_ok _ _ _ t w) by done.
    specialize (Hcommit (UserRegionMem_commit_memory_with_data (vm_start r) data (va_perms v))
      (user_commit_data_cause _ _ _ _)).
    unfold PageTracker_commit_memory_with_data. unfold mbind at 1, M_bind at 1.
    destruct ((_ ← on_mem _; _) w) as [[t'|e|] w']; [|done..].
    destruct Hcommit as (? & ? & ?). split; [done|]. exists t'. auto.
  - rewrite (bind_ok _ _ _ t w) by done.
    specialize (Hcommit (UserRegionMem_commit_memory (vm_start r) (VMRange_size r) (Some (va_perms v)))
      (user_commit_cause _ _ _ _)).
    unfold PageTracker_commit_range. unfold mbind at 1, M_bind at 1.
    destruct ((_ ← on_mem _; _) w) as [[t'|e|] w']; [|done..].
    destruct Hcommit as (? & ? & ?). split; [done|]. exists t'. auto.
Qed.

Lemma set_va_pages_twice v p q : set_va_pages (set_va_pages v p) q = set_va_pages v q.
Proof. done. Qed.

Lemma commit_whole_loop_spec {EL : EnclaveLaws} ranges : forall (w : World BV PL) v t,
  pcm_wf (w_pcm w) -> va_pages v = Some t -> coherent (w_pcm w) t -> pt_range t = va_range v ->
  (forall r, r ∈ ranges -> VMRange_wf r /\ vm_start r < vm_end r
                        /\ VMRange_is_superset_of (va_range v) r = true) ->
  match commit_whole_loop v ranges w with
  | (Ok v', w') => committed_area (w_pcm w) (w_pcm w') v v'
                     (fun a => existsb (fun r => VMRange_contains r a) ranges)
  | (Err _, _) => False
  | (Panic, _) => area_fault v
  end.
Proof.
  induction ranges as [|r ranges IH]; intros w v t Hg Hp Hco Hrt Hranges; simpl.
  { split; [by apply commits_refl|]. exists t. split_and!; auto. destruct v; simpl in *; by subst. }
  destruct (Hranges r) as (Hr & Hne & Hsup); [by left|].
  pose proof (init_memory_for_page_fault_spec w v t r Hg Hp Hco Hrt Hr Hne Hsup) as Hstep.
  unfold mbind, M_bind, unwrapM, VMArea_init_memory_internal.
  destruct (VMArea_init_memory_for_page_fault v r w) as [[v1|e|] w1]; [|apply Hstep..].
  destruct Hstep as (Hc1 & t1 & -> & Hco1 & Hrt1).
  specialize (IH w1 (set_va_pages v (Some t1)) t1 (proj1 Hc1) eq_refl Hco1 Hrt1).
  destruct (commit_whole_loop _ ranges w1) as [[v'|e|] w'].
  - destruct IH as (Hc2 & t2 & -> & Hco2 & Hrt2); [intros; apply Hranges; by right|].
    split; [|by exists t2]. eapply commits_ext; [|eapply commits_trans; [exact Hc1|exact Hc2]].
    intros a Ha Hpa. simpl. f_equal. f_equal.
    destruct (VMRange_contains r a) eqn:Hx; case_bool_decide as Hin; auto.
    + by apply VMRange_contains_spec in Hx.
    + by apply VMRange_contains_spec in Hin; congruence.
  - apply IH. intros; apply Hranges; by right.
  - apply IH. intros; apply Hranges; by right.
Qed.

Lemma ranges_separated_elem lo l r :
  ranges_separated lo l -> r ∈ l -> lo <= vm_start r /\ vm_start r < vm_end r.
Proof.
  induction 1 as [|lo r' l Hlo Hne Hl IH]; intros Hin; [by apply elem_of_nil in Hin|].
  apply elem_of_cons in Hin as [->|Hin]; [done|]. specialize (IH Hin). pages.
Qed.

(** The uncommitted ranges of a tracker are sub-ranges of its range. *)
Lemma get_ranges_subranges t committed :
  tracker_wf t -> vm_start (pt_range t) < vm_end (pt_range t) ->
  exists l, PageTracker_get_ranges t committed = Ok l
    /\ (forall r, r ∈ l -> VMRange_wf r /\ vm_start r < vm_end r
                        /\ VMRange_is_superset_of (pt_range t) r = true)
    /\ forall a, in_ranges a l <-> a ∈ pt_range t /\ bits t !! page_index t a = Some committed.
Proof.
  intros Hwf Hne. pose proof (tracker_nonempty t Hwf Hne) as Hbits.
  eexists. split; [by apply get_ranges_runs|].
  destruct (Hwf) as [[] Hlen _].
  destruct (page_runs_separated committed (vm_start (pt_range t)) (bits t)) as [Hs Hf]; [done|].
  assert (Hin : forall a, in_ranges a (page_runs committed (vm_start (pt_range t)) (bits t))
      <-> a ∈ pt_range t /\ bits t !! page_index t a = Some committed).
  { intros a. rewrite in_ranges_page_runs by done. fold (page_index t a).
    split; [|intros [? ?]; vmrange_unfold; auto with lia]. intros [Ha Hl]. split; [|done].
    apply lookup_lt_Some in Hl. unfold page_index in Hl. vmrange_unfold. pages. }
  split; [|done]. intros r Hr. destruct (ranges_separated_elem _ _ _ Hs Hr) as [Hlo Hrne].
  rewrite List.Forall_forall in Hf. destruct (Hf r (proj1 (list_elem_of_In _ _) Hr)) as [Hps Hpe].
  assert (vm_end r - 1 ∈ pt_range t)
    by (apply Hin; exists r; split; [done|vmrange_unfold; lia]).
  split_and!; [|done|unfold VMRange_is_superset_of; vmrange_unfold; lia].
  constructor; auto; vmrange_unfold; lia.
Qed.

Lemma existsb_in_ranges l a : existsb (fun r => VMRange_contains r a) l = true <-> in_ranges a l.
Proof.
  rewrite existsb_exists. unfold in_ranges. setoid_rewrite VMRange_contains_spec.
  setoid_rewrite <- list_elem_of_In. done.
Qed.

(** Committing the whole area. *)
Lemma commit_current_vma_whole_spec {EL : EnclaveLaws} (w : World BV PL) v t :
  pcm_wf (w_pcm w) -> area_wf (w_pcm w) v -> va_pages v = Some t ->
  match VMArea_commit_current_vma_whole v w with
  | (Ok v', w') => v' = set_va_pages v None
                   /\ commits (w_pcm w) (w_pcm w') (fun a => bool_decide (a ∈ va_range v))
  | (Err _, _) => False
  | (Panic, _) => area_fault v
  end.
Proof.
  intros Hg Hv Hp. pose proof (aw_pages _ _ Hv) as Hpg. rewrite Hp in Hpg.
  destruct Hpg as (Hu & Hco & Hrt & _). destruct (Hco) as [Hwf Htr _].
  destruct (get_ranges_subranges t false Hwf) as (l & Hl & Hsub & Hin);
    [rewrite Hrt; apply Hv|].
  unfold VMArea_commit_current_vma_whole, VMArea_pages. rewrite Hp. cbn [unwrap_option].
  rewrite (bind_ok _ _ _ t w) by done.
  rewrite (bind_ok _ _ _ l w) by (unfold lift; by rewrite Hl).
  pose proof (commit_whole_loop_spec l w v t Hg Hp Hco Hrt) as Hloop. rewrite <- Hrt in Hloop.
  unfold mbind, M_bind. destruct (commit_whole_loop v l w) as [[v'|e|] w']; [|by apply Hloop..].
  destruct Hloop as (Hc & t' & -> & _ & _); [done|]. simpl. split; [done|].
  eapply commits_ext; [|exact Hc]. intros a Ha Hpa. simpl.
  destruct (existsb _ l) eqn:He.
  - apply existsb_in_ranges, Hin in He as [He _].
    by rewrite bool_decide_eq_true_2 by (by rewrite <- Hrt).
  - case_bool_decide as Hain; [|done]. rewrite <- Hrt in Hain.
    rewrite orb_true_r, orb_false_r. destruct (committed_in (w_pcm w) a) eqn:Hca; [done|].
    exfalso. apply not_true_iff_false in He. apply He, existsb_in_ranges, Hin.
    split; [done|]. rewrite (Htr a Hpa Hain). by rewrite Hca.
Qed.

Lemma skip_while_Some {A} (p : A -> bool) l x l' :
  skip_while p l = x :: l' -> p x = false /\ x ∈ l.
Proof.
  induction l as [|y l IH]; simpl; [done|]. destruct (p y) eqn:Hp.
  - intros H. destruct (IH H). split; [done|by right].
  - intros [= -> ->]. split; [done|by left].
Qed.

Lemma skip_while_nil {A} (p : A -> bool) l : skip_while p l = [] -> forall x, x ∈ l -> p x = true.
Proof.
  induction l as [|y l IH]; simpl; intros H x Hx; [by apply elem_of_nil in Hx|].
  destruct (p y) eqn:Hp; [|done]. apply elem_of_cons in Hx as [->|Hx]; auto.
Qed.

(** The page that a faulting address belongs to. *)
Definition page_of (a : Z) : Z := align_down a PAGE_SIZE.

Lemma page_of_spec a : is_u64 a -> page_aligned (page_of a) /\ page_of a <= a < page_of a + PAGE_SIZE.
Proof.
  intros Ha. destruct (align_down_spec a 12) as (? & ? & ?); [done|lia|]. by split.
Qed.

Lemma page_of_in r a : VMRange_wf r -> a ∈ r -> page_of a ∈ r /\ page_of a + PAGE_SIZE <= vm_end r.
Proof.
  intros Hr Ha. destruct (page_of_spec a) as [Hp Hb]; [by eapply VMRange_wf_u64|].
  destruct Hr. vmrange_unfold. pages.
Qed.

Lemma page_index_page_of t a :
  tracker_wf t -> a ∈ pt_range t -> page_index t (page_of a) = page_index t a.
Proof.
  intros Hwf Ha. destruct (page_of_spec a) as [Hp Hb]; [eapply VMRange_wf_u64; [apply Hwf|done]|].
  destruct Hwf as [[] _ _]. unfold page_index. vmrange_unfold. pages.
Qed.

Lemma commit_once_for_page_fault_spec {EL : EnclaveLaws} (w : World BV PL) v t pf :
  pcm_wf (w_pcm w) -> va_pages v = Some t -> coherent (w_pcm w) t -> pt_range t = va_range v ->
  pf ∈ va_range v ->
  match VMArea_commit_once_for_page_fault v pf w with
  | (Ok (_, v'), w') =>
      commits (w_pcm w) (w_pcm w') (fun a => bool_decide (a = page_of pf))
      /\ exists t', coherent (w_pcm w') t' /\ pt_range t' = va_range v
                  /\ v' = set_va_pages v (pages_unless_full t')
  | _ => area_fault v
  end.
Proof.
  intros Hg Hp Hco Hrt Hpf. destruct (Hco) as [Hwf Htr _]. rewrite <- Hrt in *.
  assert (Hne : vm_start (pt_range t) < vm_end (pt_range t)) by (vmrange_unfold; lia).
  destruct (get_ranges_subranges t false Hwf Hne) as (l & Hl & Hsub & Hin).
  pose proof (page_index_page_of t pf Hwf Hpf) as Hix.
  destruct (page_of_in _ _ (tw_range _ Hwf) Hpf) as [Hpin Hpend].
  destruct (page_of_spec pf) as [Hpal Hpb]; [by eapply VMRange_wf_u64; [apply Hwf|]|].
  unfold VMArea_commit_once_for_page_fault, VMArea_pages. rewrite Hp. cbn [unwrap_option].
  rewrite (bind_ok _ _ _ t w) by done. rewrite (bind_ok _ _ _ l w) by (unfold lift; by rewrite Hl).
  destruct (skip_while _ l) as [|r rest] eqn:Hskip; cbn [commit_once_loop].
  { (* the page has been committed meanwhile *)
    rewrite (bind_ok _ _ _ (0, v) w) by done. rewrite Hp. cbn [unwrap_option].
    erewrite bind_ok by reflexivity. simpl. split.
    - eapply commits_ext; [|by apply commits_refl]. intros a Ha Hpa. simpl.
      case_bool_decide as Heq; [subst a|done]. rewrite orb_true_r, orb_false_r.
      destruct (committed_in (w_pcm w) (page_of pf)) eqn:Hca; [done|]. exfalso.
      assert (in_ranges pf l) as (r & Hrl & Hra).
      { apply Hin. split; [done|]. by rewrite <- Hix, (Htr _ Hpal Hpin), Hca. }
      pose proof (skip_while_nil _ _ Hskip r Hrl) as Hno. apply negb_true_iff in Hno.
      apply VMRange_contains_spec in Hra. congruence.
    - exists t. split_and!; auto. unfold pages_unless_full.
      destruct (PageTracker_is_fully_committed t); [done|]. destruct v; simpl in *. by subst. }
  apply skip_while_Some in Hskip as [Hc Hrl]. apply negb_false_iff, VMRange_contains_spec in Hc.
  destruct (Hsub r Hrl) as (Hr & Hrne & Hrsup).
  destruct (page_of_in r pf Hr Hc) as [Hpr Hpre]. fold (page_of pf).
  unfold VMRange_is_superset_of in Hrsup. boolprop. destruct (Hr), (tw_range _ Hwf).
  set (page := mkVMRange (page_of pf) (page_of pf + PAGE_SIZE)).
  assert (Hpage : VMRange_resize (VMRange_set_start r (page_of pf))
     (Z.min (VMRange_size (VMRange_set_start r (page_of pf))) COMMIT_SIZE_UNIT) = page).
  { unfold VMRange_resize, VMRange_size, page. cbn [vm_start vm_end].
    vmrange_unfold. rewrite sub64_small by lia.
    replace (Z.min _ _) with PAGE_SIZE by pages.
    rewrite add64_small by (unfold PAGE_SIZE in *; lia). done. }
  rewrite Hpage. change (0 =? 0) with true. cbv iota.
  assert (Hpwf : VMRange_wf page) by (constructor; simpl; vmrange_unfold; pages).
  assert (Hstep := init_memory_for_page_fault_spec w v t page Hg Hp Hco Hrt Hpwf
    ltac:(simpl; pages) ltac:(unfold VMRange_is_superset_of; rewrite <- Hrt; simpl; vmrange_unfold; lia)).
  unfold VMArea_init_memory_internal, mbind, M_bind.
  destruct (VMArea_init_memory_for_page_fault v page w) as [[v1|e|] w1]; [|apply Hstep..].
  destruct Hstep as (Hc1 & t1 & -> & Hco1 & Hrt1).
  assert (Hsize : VMRange_size page = PAGE_SIZE)
    by (rewrite VMRange_size_wf by done; simpl; lia).
  rewrite Hsize. change (COMMIT_SIZE_UNIT <=? 0 +64 PAGE_SIZE) with true. simpl. split.
  - eapply commits_ext; [|exact Hc1]. intros a Ha Hpa. cbv beta. f_equal. apply bool_decide_ext.
    unfold page. vmrange_unfold. split; intros; pages.
  - exists t1. rewrite Hrt1, Hrt. split_and!; auto. unfold pages_unless_full.
    by destruct (PageTracker_is_fully_committed t1).
Qed.

(** An area whose range does not meet the committed pages stays well-formed. *)
Lemma area_wf_commits g g' (v : VMArea) (P : Z -> bool) :
  area_wf g v -> commits g g' P ->
  (forall a, page_aligned a -> a ∈ va_range v -> P a = true -> committed_in g a = true) ->
  area_wf g' v.
Proof.
  intros [Hr Hne Hb Hgap Hepc Hoff Hp] (Hg' & Hd & Hc) HP. constructor; auto.
  destruct (va_pages v) as [t|].
  - destruct Hp as (Hu & [Hwf Htr Hcov] & Hrt & Hf). split_and!; auto. constructor; auto.
    + eapply tracks_proper; [|done]. intros a Ha Hin. rewrite Hrt in Hin.
      rewrite Hc by eauto using VMRange_wf_u64.
      destruct (P a) eqn:HPa; [|by rewrite orb_false_r]. by rewrite (HP a Ha Hin HPa).
    + intros c Hin. auto.
  - intros Hu a Ha Hin. rewrite Hc by eauto using VMRange_wf_u64. by rewrite Hp.
Qed.

(** The guards of [handle_page_fault] refuse exactly the accesses that the
    permissions do not allow. *)
Lemma handle_page_fault_guards v rip pf_addr errcd kernel_triggers :
  VMArea_handle_page_fault v rip pf_addr errcd kernel_triggers
  = if access_allowed v rip pf_addr errcd then
      if VMArea_is_fully_committed v then ok v else
      match va_epc_type v with
      | Reserved => fail_with EINVAL
      | UserRegion =>
          if kernel_triggers || (PF_NUM_THRESHOLD <=? va_pf_count v)
          then VMArea_commit_current_vma_whole v
          else
            p ← unwrapM (VMArea_commit_once_for_page_fault
                           (set_va_pf_count v (va_pf_count v +64 1)) pf_addr);
            ok p.2
      end
    else fail_with EACCES.
Proof.
  unfold VMArea_handle_page_fault, access_allowed.
  destruct (va_perms v =? VMPerms_NONE), (check_rw_bit errcd), (rip =? pf_addr),
    (bf_contains (va_perms v) VMPerms_WRITE), (bf_contains (va_perms v) VMPerms_READ),
    (bf_contains (va_perms v) VMPerms_EXEC); reflexivity.
Qed.

(** The area that page-fault handling leaves. *)
Lemma area_wf_set_pages g g' v n p P :
  area_wf g v -> commits g g' P -> va_epc_type v = UserRegion ->
  match p with
  | Some t => coherent g' t /\ pt_range t = va_range v /\ pt_fully_committed t = false
  | None => forall a, page_aligned a -> a ∈ va_range v -> committed_in g' a = true
  end ->
  area_wf g' (set_va_pages (set_va_pf_count v n) p).
Proof.
  intros [Hr Hne Hb Hgap Hepc Hoff _] _ Hu Hp. constructor; auto. simpl. destruct p; naive_solver.
Qed.

(** A page fault commits the faulting page and nothing it should not. An access
    that the permissions forbid is refused with [EACCES] and changes nothing.
    Otherwise the page of the faulting address is committed afterwards; a user
    fault commits only that page for the first three faults and the whole area
    from then on, as a fault of the LibOS does at once; the area keeps its range,
    permissions, file and owner, its page tracker stays coherent, and so does
    every other area. The LibOS panics only if the hardware or the file fails. *)
Lemma area_page_fault {EL : EnclaveLaws} (w : World BV PL) (v : VMArea) (rip pf errcd : Z) (kt : bool) :
  pcm_wf (w_pcm w) -> area_wf (w_pcm w) v -> pf ∈ va_range v ->
  match VMArea_handle_page_fault v rip pf errcd kt w with
  | (Ok v', w') =>
      access_allowed v rip pf errcd = true /\ area_wf (w_pcm w') v'
      /\ va_range v' = va_range v /\ va_perms v' = va_perms v
      /\ va_file_backed v' = va_file_backed v /\ va_access v' = va_access v
      /\ (va_epc_type v = UserRegion -> committed_in (w_pcm w') (page_of pf) = true)
      /\ commits (w_pcm w) (w_pcm w')
           (fun a => negb (VMArea_is_fully_committed v)
                     && (if kt || (PF_NUM_THRESHOLD <=? va_pf_count v)
                         then bool_decide (a ∈ va_range v) else bool_decide (a = page_of pf)))
      /\ (forall v2, area_wf (w_pcm w) v2 ->
           (forall a, a ∈ va_range v2 -> ~ a ∈ va_range v) -> area_wf (w_pcm w') v2)
  | (Err e, w') => e = EACCES /\ access_allowed v rip pf errcd = false /\ w' = w
  | (Panic, _) => access_allowed v rip pf errcd = true /\ VMArea_is_fully_committed v = false /\ area_fault v
  end.
Proof.
  intros Hg Hv Hpf. rewrite handle_page_fault_guards.
  destruct (access_allowed v rip pf errcd); [|done].
  destruct (page_of_in _ _ (aw_range _ _ Hv) Hpf) as [Hpin _].
  destruct (page_of_spec pf) as [Hpal _]; [by eapply VMRange_wf_u64; [apply Hv|]|].
  assert (Hu64 : is_u64 (page_of pf)) by (eapply VMRange_wf_u64; [apply Hv|done]).
  pose proof (aw_pages _ _ Hv) as Hp. unfold VMArea_is_fully_committed.
  destruct (va_pages v) as [t|] eqn:Hpg; cycle 1.
  { simpl. split_and!; auto. by apply commits_refl. }
  destruct Hp as (Hu & Hco & Hrt & Hf). rewrite Hu. simpl.
  destruct (kt || (PF_NUM_THRESHOLD <=? va_pf_count v)).
  - pose proof (commit_current_vma_whole_spec w v t Hg Hv Hpg) as Hwhole.
    destruct (VMArea_commit_current_vma_whole v w) as [[v'|e|] w']; [|done..].
    destruct Hwhole as (-> & Hc).
    assert (Hall : forall a, page_aligned a -> a ∈ va_range v -> committed_in (w_pcm w') a = true).
    { intros a Ha Hin. destruct Hc as (_ & _ & Hc). rewrite Hc by eauto using VMRange_wf_u64, aw_range.
      by rewrite bool_decide_eq_true_2, orb_true_r. }
    split_and!; auto.
    + by apply (area_wf_set_pages (w_pcm w) _ v (va_pf_count v) None _ Hv Hc).
    + intros v2 Hv2 Hdis. eapply area_wf_commits; [done|exact Hc|].
      intros a _ Hin Ht. apply bool_decide_eq_true in Ht. by destruct (Hdis a Hin).
  - set (v1 := set_va_pf_count v (va_pf_count v +64 1)).
    pose proof (commit_once_for_page_fault_spec w v1 t pf Hg Hpg Hco Hrt Hpf) as Honce.
    unfold mbind, M_bind, unwrapM.
    destruct (VMArea_commit_once_for_page_fault v1 pf w) as [[[n v']|e|] w']; [|done..].
    destruct Honce as (Hc & t' & Hco' & Hrt' & ->). simpl.
    split_and!; auto.
    + apply (area_wf_set_pages (w_pcm w) _ v _ _ _ Hv Hc Hu).
      pose proof (pages_unless_full_spec _ _ Hco') as Hpu. rewrite Hrt' in Hpu.
      destruct (pages_unless_full t') as [t2|]; [destruct Hpu as [-> ?]; auto|done].
    + intros _. destruct Hc as (_ & _ & Hc).
      by rewrite Hc, bool_decide_eq_true_2, orb_true_r.
    + intros v2 Hv2 Hdis. eapply area_wf_commits; [done|exact Hc|].
      intros a _ Hin Ht. apply bool_decide_eq_true in Ht as ->. by destruct (Hdis _ Hin).
Qed.

(** * Merging *)

Lemma sub64_eq_add x y z : is_u64 x -> is_u64 y -> x -64 y = z -> x = y +64 z.
Proof.
  intros Hx Hy <-. unfold add64, sub64, wrap64. rewrite Zplus_mod_idemp_r.
  replace (y + (x - y)) with x by lia. symmetry. apply wrap64_small, Hx.
Qed.

(** Moving the end of an area. *)
Lemma set_end_spec (w : World BV PL) v new_end :
  pcm_wf (w_pcm w) -> area_wf (w_pcm w) v -> page_aligned new_end ->
  vm_start (va_range v) < new_end -> new_end + PAGE_CHUNK_UNIT <= u64_modulus ->
  off_gap (mkVMRange (vm_start (va_range v)) new_end) ->
  exists v' w', VMArea_set_end v new_end w = (Ok v', w')
    /\ w_mem w' = w_mem w /\ area_wf (w_pcm w') v'
    /\ commits (w_pcm w) (w_pcm w') (fun _ => false)
    /\ va_range v' = mkVMRange (vm_start (va_range v)) new_end
    /\ va_perms v' = va_perms v /\ va_access v' = va_access v
    /\ va_file_backed v' = va_file_backed v.
Proof.
  intros Hg Hv Hal Hle Hb Hgap. destruct (Hv) as [Hr Hne _ Hgap0 Hepc Hoff _]. destruct (Hr).
  set (r := mkVMRange (vm_start (va_range v)) new_end).
  assert (Hwr : VMRange_wf r) by (constructor; simpl; auto; pages).
  assert (Hepc' : EPCMemType_new r = va_epc_type v).
  { rewrite Hepc. destruct (Z_le_gt_dec (vm_end (va_range v)) new_end); [symmetry|];
      apply EPCMemType_new_sub; auto; unfold VMRange_is_superset_of; simpl; lia. }
  unfold VMArea_set_end.
  assert (Hsz : (0 <? VMRange_size (va_range (set_va_range v (VMRange_set_end (va_range v) new_end)))) = true)
    by (change ((0 <? VMRange_size r) = true); rewrite VMRange_size_wf by done; simpl; lia).
  rewrite Hsz.
  destruct (new_pages_spec w r (va_epc_type v) Hg Hwr) as (t & w' & Hrun & Hm & Hg' & Hd & Hc & Hp);
    [done..|].
  eexists _, w'. split; [erewrite bind_ok by (erewrite bind_ok by exact Hrun; reflexivity); reflexivity|].
  split_and!; auto.
  - constructor; auto.
  - split_and!; auto. intros a Ha Hpa. rewrite orb_false_r. auto.
Qed.

(** Shrinking an area to its part below [new_end]. *)
Lemma set_end_part (w : World BV PL) v new_end :
  pcm_wf (w_pcm w) -> area_wf (w_pcm w) v -> page_aligned new_end ->
  vm_start (va_range v) < new_end -> new_end <= vm_end (va_range v) ->
  exists v' w', VMArea_set_end v new_end w = (Ok v', w') /\ w_mem w' = w_mem w
    /\ commits (w_pcm w) (w_pcm w') (fun _ => false)
    /\ area_part (w_pcm w') v (mkVMRange (vm_start (va_range v)) new_end) v'.
Proof.
  intros Hg Hv Hal Hlt Hle. pose proof (aw_bound _ _ Hv).
  destruct (set_end_spec w v new_end) as (v' & w' & Hrun & Hm & Hv' & Hc & Hr & Hp & Ha & Hf); auto; [lia| |].
  { eapply off_gap_sub; [|apply Hv]. unfold VMRange_is_superset_of. simpl. lia. }
  exists v', w'. split_and!; auto. split_and!; auto.
  intros a. unfold file_pos. by rewrite Hf, Hr.
Qed.

(** Shrinking an area to its part from [new_start] on. *)
Lemma set_start_part (w : World BV PL) v new_start :
  area_wf (w_pcm w) v -> page_aligned new_start ->
  vm_start (va_range v) < new_start -> new_start < vm_end (va_range v) ->
  exists v', VMArea_set_start v new_start w = (Ok v', w)
    /\ area_part (w_pcm w) v (mkVMRange new_start (vm_end (va_range v))) v'.
Proof.
  intros Hv Hal Hgt Hlt. set (r := mkVMRange new_start (vm_end (va_range v))).
  destruct (aw_range _ _ Hv) as [].
  destruct (inherits_file_from_spec (w_pcm w) v r (va_perms v) (va_access v))
    as (v' & Hin & [] & Hr & _ & _ & He & Hf); auto;
    [constructor; simpl; auto; lia|unfold VMRange_is_superset_of; simpl; lia|].
  assert (Hrun : exists u, VMArea_set_start v new_start w = (Ok u, w)
    /\ va_range u = r /\ va_perms u = va_perms v /\ va_access u = va_access v
    /\ va_file_backed u = va_file_backed v' /\ va_pages u = va_pages v' /\ va_epc_type u = va_epc_type v).
  { unfold VMArea_set_start, VMArea_inherits_file_from in *.
    destruct (Z.eqb_spec new_start (vm_start (va_range v))); [lia|].
    destruct (Z.ltb_spec new_start (vm_start (va_range v))); [lia|]. cbn [set_va_range va_pages].
    change (va_range (set_va_range v (VMRange_set_start (va_range v) new_start))) with r.
    unfold VMArea_set_file_offset. destruct (Z.ltb_spec (vm_start (va_range v)) new_start); [|lia].
    destruct (va_pages v) as [t|].
    - destruct (PageTracker_split_for_new_range t r) as [t'| |] eqn:Ht; simplify_eq/=.
      rewrite (bind_ok _ _ _ (pages_unless_full t') w);
        [destruct (va_file_backed v) eqn:Hfb; eexists; (split; [reflexivity|]); by split_and!|].
      rewrite (bind_ok _ _ _ t' w) by done. unfold pages_unless_full. by destruct (PageTracker_is_fully_committed t').
    - simplify_eq/=. rewrite (bind_ok _ _ _ None w) by done.
      destruct (va_file_backed v) eqn:Hfb; eexists; (split; [reflexivity|]); by split_and!. }
  destruct Hrun as (u & Hrun & Hur & Hup & Hua & Huf & Hupg & Hue).
  exists u. split; [done|]. split_and!; auto.
  - constructor; rewrite ?Hur, ?Hue, ?Hupg, ?Huf, <- ?He, <- ?Hr; auto.
  - intros a. rewrite <- Hf. unfold file_pos. by rewrite Huf, Hur, Hr.
Qed.

(** Merging two areas keeps what backs them. When [can_merge_vmas] accepts two
    neighbours, the left area extended to the end of the right one is well-formed,
    covers both ranges and has the permissions and the owner of both; behind
    every address it has the same write-back file and offset as before, on both
    sides of the seam. *)
Lemma merge_areas (w : World BV PL) (left right : VMArea) :
  pcm_wf (w_pcm w) -> area_wf (w_pcm w) left -> area_wf (w_pcm w) right ->
  off_gap (mkVMRange (vm_start (va_range left)) (vm_end (va_range right))) ->
  VMArea_can_merge_vmas left right = true ->
  exists v w', VMArea_set_end left (vm_end (va_range right)) w = (Ok v, w')
    /\ area_wf (w_pcm w') v /\ commits (w_pcm w) (w_pcm w') (fun _ => false)
    /\ (forall a, a ∈ va_range v <-> a ∈ va_range left \/ a ∈ va_range right)
    /\ va_perms v = va_perms left /\ va_perms v = va_perms right
    /\ va_access v = va_access left /\ va_access v = va_access right
    /\ (forall file off, VMArea_writeback_file right = Some (file, off) ->
         forall a, file_pos v a = file_pos right a)
    /\ (forall a, file_pos v a = file_pos left a)
    /\ va_range v = mkVMRange (vm_start (va_range left)) (vm_end (va_range right))
    /\ va_file_backed v = va_file_backed left.
Proof.
  intros Hg Hl Hr Hgap Hm. unfold VMArea_can_merge_vmas in Hm.
  destruct ((_ || _)) eqn:E1 in Hm; [done|]. destruct (negb _) eqn:E2 in Hm; [done|].
  destruct (negb (va_perms left =? _)) eqn:E3 in Hm; [done|].
  destruct (VMArea_get_private_pid left) as [p1|] eqn:P1; [|done].
  destruct (VMArea_get_private_pid right) as [p2|] eqn:P2; [|done].
  destruct (negb (p1 =? p2)) eqn:E4 in Hm; [done|]. boolprop. subst p2.
  unfold VMArea_get_private_pid in *. destruct (va_access left) as [q|] eqn:A1; [|done].
  destruct (va_access right) as [q'|] eqn:A2; [|done]. simplify_eq.
  destruct (set_end_spec w left (vm_end (va_range right)))
    as (v & w' & Hrun & _ & Hv & Hc & Hrv & Hpv & Hav & Hfv); auto;
    [apply Hr|pose proof (aw_nonempty _ _ Hr); pose proof (aw_nonempty _ _ Hl); lia|apply Hr|].
  exists v, w'. split_and!; auto; try congruence.
  - intros a. rewrite Hrv. destruct (Hl) as [[] ? _ _ _ _ _], (Hr) as [[] ? _ _ _ _ _].
    vmrange_unfold. lia.
  - intros file off Hwb a. rewrite Hwb in Hm. unfold file_pos. rewrite Hfv, Hrv. simpl.
    unfold VMArea_writeback_file, FileBacked_writeback_file in *.
    destruct (va_file_backed left) as [fl|] eqn:Hfl; [|done].
    destruct (va_file_backed right) as [fr|] eqn:Hfr; [|done].
    destruct (fb_write_back fl) eqn:Wl; [|done]. destruct (fb_write_back fr) eqn:Wr; [|done].
    simplify_eq. apply andb_true_iff in Hm as [[Hf _]%andb_true_iff Ho2]. boolprop.
    rewrite Hf. do 3 f_equal.
    apply sub64_eq_add in Ho2; [|by apply (aw_offset _ _ Hr)|by apply (aw_offset _ _ Hl)].
    rewrite Ho2. unfold VMArea_size, VMRange_size. rewrite E2. symmetry. apply add64_sub64_shift.
  - intros a. unfold file_pos. by rewrite Hfv, Hrv.
Qed.

End facts.

(** * Witnesses *)

Definition example_space : UserSpace := {| user_space_gap := Some (mkVMRange (2 ^ 27) (2 ^ 27 + 4096)) |}.

Section witnesses.
#[local] Existing Instances bitflags_bits bitvec_list flat_platform flat_enclave example_space.

Definition example_file : FileBacked := mkFileBacked 7 4096 true.

(** The area of [example_region] that [VMArea::new] makes in the empty world. *)
Lemma example_area :
  exists (v : VMArea) (w : World bitvec_list flat_platform),
    VMArea_new example_region VMPerms_DEFAULT (Some example_file) 1 empty_world = (Ok v, w)
    /\ pcm_wf (w_pcm w) /\ area_wf (w_pcm w) v /\ va_range v = example_region
    /\ va_perms v = VMPerms_DEFAULT /\ va_file_backed v = Some example_file.
Proof.
  destruct (VMArea_new_spec empty_world example_region VMPerms_DEFAULT (Some example_file) 1)
    as (v & w & Hrun & _ & Hg & Hv & _ & _ & Hr & Hp & Hf & _ & _).
  - apply empty_world_wf.
  - apply example_region_wf.
  - by vm_compute.
  - by vm_compute.
  - split; [constructor; by vm_compute|right; by vm_compute].
  - intros fb [= <-]. by vm_compute.
  - exists v, w. split_and!; done.
Defined.

Lemma VMArea_split_spec_witness :
  exists (v : VMArea) g rest,
    area_wf g v /\ VMArea_subtract v (mkVMRange (2 ^ 28) (2 ^ 28 + 4096)) = Ok rest
    /\ va_range <$> rest = [mkVMRange (2 ^ 28 + 4096) (2 ^ 28 + 8192)].
Proof.
  destruct example_area as (v & w & _ & _ & Hv & Hr & _).
  destruct (VMArea_split_spec (w_pcm w) v (mkVMRange (2 ^ 28) (2 ^ 28 + 4096)) Hv)
    as (inter & rest & _ & Hs & _ & Hrest & _); [constructor; by vm_compute|].
  exists v, (w_pcm w), rest. split_and!; auto. rewrite Hrest, Hr. by vm_compute.
Defined.

Definition is_ok {A} (r : Result A) : bool := match r with Ok _ => true | _ => false end.

End witnesses.
