(* ===== verification/ChunkManagerFacts.v ===== *)
(** Theorems about chunk managers: the areas and the free list stay a partition of
    the chunk, and [mmap], [munmap], [mprotect] and page faults are updates of a
    map from addresses to what is mapped there. *)

From Stdlib Require Import Sorted.
From S2P Require Import Prelude Errno Effects External VMRange VMMapOptions VMFreeSpace VMRemap.
From S2P Require Import VMEpc Platform PageTracker VMArea ChunkManager PlatformChunk VMAreaFacts.

Section reliable.
Context {BF : Bitflags} {BV : BitVecs} {PL : Platform} {EN : Enclave} {REL : ReliableEnclave} {US : UserSpace}.

(** Computations that succeed and leave the page chunk manager alone. *)
Definition mem_only {A} (c : M (World BV PL) A) : Prop :=
  forall w, exists a w', c w = (Ok a, w') /\ w_pcm w' = w_pcm w.

Lemma mem_only_on_mem {A} (c : M Mem A) : succeeds c -> mem_only (on_mem c).
Proof.
  intros Hc w. destruct (Hc (w_mem w)) as (a & m & H). unfold on_mem. rewrite H. by eexists _, _.
Qed.
Lemma mem_only_bind {A B} (c : M (World BV PL) A) (k : A -> M (World BV PL) B) :
  mem_only c -> (forall a, mem_only (k a)) -> mem_only (c ≫= k).
Proof.
  intros Hc Hk w. destruct (Hc w) as (a & w' & Ha & Hw). destruct (Hk a w') as (b & w'' & Hb & Hw').
  exists b, w''. rewrite (bind_ok _ _ _ _ _ Ha). split; [done|congruence].
Qed.
Lemma mem_only_ok {A} (a : A) : mem_only (ok a).
Proof. intros w. by eexists _, _. Qed.
Lemma mem_only_if {A} (b : bool) (c d : M (World BV PL) A) :
  mem_only c -> mem_only d -> mem_only (if b then c else d).
Proof. by destruct b. Qed.
Lemma mem_only_for_each {A} (f : A -> M (World BV PL) unit) l :
  (forall x, x ∈ l -> mem_only (f x)) -> mem_only (for_each f l).
Proof.
  induction l as [|x l IH]; intros Hf; simpl; [apply mem_only_ok|].
  apply mem_only_bind; [apply Hf; by left|]. intros _. apply IH. intros. apply Hf. by right.
Qed.
Lemma mem_only_unwrapM {A} (c : M (World BV PL) A) : mem_only c -> mem_only (unwrapM c).
Proof.
  intros Hc w. destruct (Hc w) as (a & w' & H & ?). exists a, w'. unfold unwrapM. by rewrite H.
Qed.

Lemma mem_only_modify_permission_force v r cur new :
  mem_only (VMArea_modify_permission_force v r cur new).
Proof. apply mem_only_on_mem. auto using succeeds_modify_permission with occlum. Qed.

Lemma mem_only_fill_zeros r : mem_only (fill_zeros r).
Proof. apply mem_only_on_mem. intros m. by eexists _, _. Qed.

Lemma mem_only_write_file file offset r len :
  VMRange_wf r -> 0 <= len <= VMRange_size r -> mem_only (write_file_from file offset r len).
Proof.
  intros Hr Hlen. apply mem_only_on_mem. intros m. cbv zeta. rewrite rel_slice.
  rewrite VMRange_size_wf in Hlen by done. case_if; boolprop; [lia|].
  destruct (rel_write file offset (take (Z.to_nat len) (as_slice m r)) m) as (n & m' & H). eauto.
Qed.

#[local] Hint Resolve mem_only_bind mem_only_ok mem_only_if mem_only_modify_permission_force
  mem_only_fill_zeros : occlum.

Lemma mem_only_file_len f : mem_only (file_len f).
Proof. apply mem_only_on_mem. intros m. destruct (rel_metadata f m) as [md ->]. by eexists _, _. Qed.

Lemma file_can_read_ok f : file_can_read f = Ok (file_readable f).
Proof. unfold file_can_read, file_readable. by destruct (rel_access f) as [mode ->]. Qed.
Lemma file_can_write_ok f : file_can_write f = Ok (file_writable f).
Proof. unfold file_can_write, file_writable. by destruct (rel_access f) as [mode ->]. Qed.
Lemma write_denied_ok wb new :
  write_denied wb new =
  Ok match wb with Some (f, _) => negb (file_writable f) && VMPerms_can_write new | None => false end.
Proof. destruct wb as [[f o]|]; [|done]. unfold write_denied. by rewrite file_can_write_ok. Qed.

Lemma mem_only_lift_Some {A} (o : option A) : is_Some o -> mem_only (lift (unwrap_option o)).
Proof. intros [a ->] w. by eexists _, _. Qed.

Lemma mem_only_flush_internal v r nf file off :
  VMRange_wf r -> (nf = true -> is_Some file /\ is_Some off) ->
  mem_only (VMArea_flush_and_clean_internal v r nf file off).
Proof.
  intros Hr Hnf. unfold VMArea_flush_and_clean_internal.
  apply mem_only_bind; [auto with occlum|]. intros _.
  apply mem_only_bind; [|intros _; auto with occlum].
  destruct nf; [|auto with occlum]. destruct (Hnf eq_refl) as [Hf Ho].
  apply mem_only_bind; [by apply mem_only_lift_Some|]. intros f.
  apply mem_only_bind; [by apply mem_only_lift_Some|]. intros o. cbv zeta.
  apply mem_only_bind; [apply mem_only_file_len|]. intros len.
  apply mem_only_if; [|auto with occlum]. apply mem_only_bind; [|auto with occlum].
  apply mem_only_unwrapM, mem_only_write_file; [done|].
  rewrite VMRange_size_wf by done. destruct Hr. pose proof (wrap64_range (len - (o +64 (vm_start r -64 vm_start (va_range v))))).
  unfold is_u64, sub64 in *. lia.
Qed.

(** Flushing and cleaning an area succeeds and changes no bookkeeping. *)
Lemma mem_only_flush_and_clean g v : area_wf g v -> mem_only (VMArea_flush_and_clean_memory v).
Proof.
  intros Hv. unfold VMArea_flush_and_clean_memory.
  set (c := match VMArea_writeback_file v with None => _ | Some _ => _ end).
  assert (exists x, c = Ok x /\ (x.1.1 = true -> is_Some x.1.2 /\ is_Some x.2)) as (x & -> & Hx).
  { subst c. destruct (VMArea_writeback_file v) as [[f o]|]; [|by eexists].
    rewrite file_can_write_ok. destruct (file_writable f); eexists; split; simpl; eauto. done. }
  destruct x as [[nf file] off]. simpl in Hx. intros w. rewrite (bind_ok _ _ _ (nf, file, off) w) by done. revert w.
  destruct (va_pages v) as [t|] eqn:Hp; unfold VMArea_is_fully_committed; rewrite Hp; cycle 1.
  { apply mem_only_flush_internal; [apply Hv|done]. }
  pose proof (aw_pages _ _ Hv) as Hpg. rewrite Hp in Hpg. destruct Hpg as (_ & [Hwf _ _] & Hrt & _).
  destruct (get_ranges_subranges t true Hwf) as (l & Hl & Hsub & _); [rewrite Hrt; apply Hv|].
  assert (Hloop : mem_only (for_each (fun range =>
      VMArea_flush_and_clean_internal v range nf file off) l)).
  { apply mem_only_for_each. intros r Hr. by apply mem_only_flush_internal; [apply Hsub|]. }
  intros w. unfold VMArea_pages. rewrite Hp. cbn [unwrap_option].
  rewrite (bind_ok _ _ _ t w) by done. rewrite (bind_ok _ _ _ l w) by (unfold lift; by rewrite Hl).
  apply Hloop.
Qed.

End reliable.

(** * Lists of areas *)

Section lists.
Context {BF : Bitflags} {BV : BitVecs} {PL : Platform} {EN : Enclave} {US : UserSpace}.

(** Disjoint areas in address order between [lo] and [hi]. *)
Fixpoint areas_ordered (lo : Z) (l : list VMArea) (hi : Z) : Prop :=
  match l with
  | [] => lo <= hi
  | v :: l => lo <= vm_start (va_range v) /\ vm_start (va_range v) <= vm_end (va_range v)
              /\ areas_ordered (vm_end (va_range v)) l hi
  end.

Definition in_areas (a : Z) (l : list VMArea) : Prop := in_ranges a (va_range <$> l).

Definition areas_size (l : list VMArea) : Z :=
  foldr (fun v n => vm_end (va_range v) - vm_start (va_range v) + n) 0 l.

Lemma in_areas_cons a v l : in_areas a (v :: l) <-> a ∈ va_range v \/ in_areas a l.
Proof. unfold in_areas. rewrite fmap_cons. apply in_ranges_cons. Qed.

Lemma in_areas_app a l1 l2 : in_areas a (l1 ++ l2) <-> in_areas a l1 \/ in_areas a l2.
Proof. unfold in_areas. rewrite fmap_app. apply in_ranges_app. Qed.

Lemma in_areas_nil a : in_areas a [] <-> False.
Proof. apply in_ranges_nil. Qed.

Lemma areas_size_app l1 l2 : areas_size (l1 ++ l2) = areas_size l1 + areas_size l2.
Proof. induction l1 as [|v l1 IH]; simpl; [done|]. rewrite IH. lia. Qed.

Lemma areas_ordered_le lo l hi : areas_ordered lo l hi -> lo <= hi.
Proof. revert lo. induction l as [|v l IH]; simpl; intros lo; [done|]. intros (? & ? & H%IH). lia. Qed.

Lemma areas_ordered_app lo l1 l2 hi :
  areas_ordered lo (l1 ++ l2) hi
  <-> exists mid, areas_ordered lo l1 mid /\ areas_ordered mid l2 hi.
Proof.
  revert lo. induction l1 as [|v l1 IH]; intros lo; simpl.
  - split; [intros H; exists lo; split; [lia|done]|].
    intros (mid & Hle & H). destruct l2 as [|v l2]; simpl in *; [lia|]. naive_solver lia.
  - rewrite IH. naive_solver.
Qed.

Lemma areas_ordered_weaken lo lo' l hi hi' :
  lo' <= lo -> hi <= hi' -> areas_ordered lo l hi -> areas_ordered lo' l hi'.
Proof.
  revert lo lo'. induction l as [|v l IH]; intros lo lo' H1 H2; simpl; [lia|].
  intros (? & ? & ?). split_and!; [lia|done|]. by eapply IH; [|done|].
Qed.

Lemma areas_ordered_bound lo l hi a :
  areas_ordered lo l hi -> in_areas a l -> lo <= a < hi.
Proof.
  revert lo. induction l as [|v l IH]; intros lo; simpl.
  - intros _ []%in_areas_nil.
  - intros (? & ? & Hl) [Ha|Ha]%in_areas_cons.
    + pose proof (areas_ordered_le _ _ _ Hl). vmrange_unfold. lia.
    + specialize (IH _ Hl Ha). lia.
Qed.

(** Replacing one area by a list of areas inside it. *)
Lemma areas_ordered_replace lo l1 v l2 hi ps :
  areas_ordered lo (l1 ++ v :: l2) hi ->
  areas_ordered (vm_start (va_range v)) ps (vm_end (va_range v)) ->
  areas_ordered lo (l1 ++ ps ++ l2) hi.
Proof.
  intros (mid & H1 & H2)%areas_ordered_app Hps. simpl in H2. destruct H2 as (? & ? & H2).
  apply areas_ordered_app. exists mid. split; [done|]. apply areas_ordered_app.
  exists (vm_end (va_range v)). split; [|done]. by eapply areas_ordered_weaken; [| |exact Hps].
Qed.

(** What is mapped at an address. *)
Fixpoint area_at (l : list VMArea) (a : Z) : option VMArea :=
  match l with
  | [] => None
  | v :: l => if VMRange_contains (va_range v) a then Some v else area_at l a
  end.

(** Permissions, owner, and the file, offset and write-back flag of an address. *)
Definition Cell : Type := VMPerms * VMAccess * option (FileRef * Z * bool).

Definition cell (v : VMArea) (a : Z) : Cell :=
  (va_perms v, va_access v, file_pos v a).

Definition view (l : list VMArea) (a : Z) : option Cell :=
  (fun v => cell v a) <$> area_at l a.

Lemma area_at_app l1 l2 a :
  area_at (l1 ++ l2) a = match area_at l1 a with Some v => Some v | None => area_at l2 a end.
Proof. induction l1 as [|v l1 IH]; simpl; [done|]. by case_if. Qed.

Lemma area_at_None l a : area_at l a = None <-> ~ in_areas a l.
Proof.
  induction l as [|v l IH]; simpl; [rewrite in_areas_nil; tauto|].
  rewrite in_areas_cons, <- VMRange_contains_spec. destruct (VMRange_contains _ _); [|rewrite IH]; naive_solver.
Qed.

Lemma area_at_Some l a v : area_at l a = Some v -> v ∈ l /\ a ∈ va_range v.
Proof.
  induction l as [|v' l IH]; simpl; [done|]. case_if.
  - intros [= ->]. split; [by left|]. by apply VMRange_contains_spec.
  - intros H. destruct (IH H). split; [by right|done].
Qed.

Lemma in_areas_elem v l a : v ∈ l -> a ∈ va_range v -> in_areas a l.
Proof. intros Hv Ha. exists (va_range v). split; [|done]. by apply list_elem_of_fmap_2. Qed.

Lemma area_at_middle lo l1 v l2 hi a :
  areas_ordered lo (l1 ++ v :: l2) hi -> a ∈ va_range v -> area_at (l1 ++ v :: l2) a = Some v.
Proof.
  intros (mid & H1 & H2)%areas_ordered_app Ha. simpl in H2. rewrite area_at_app.
  destruct (area_at l1 a) as [v'|] eqn:H.
  - exfalso. apply area_at_Some in H as [Hl Hin]. apply (in_areas_elem _ _ _ Hl) in Hin.
    pose proof (areas_ordered_bound _ _ _ _ H1 Hin). vmrange_unfold. lia.
  - simpl. apply VMRange_contains_spec in Ha. by rewrite Ha.
Qed.

Lemma areas_ordered_starts lo l hi lo' :
  areas_ordered lo l hi -> lo' <= lo -> Forall (fun u => lo' <= vm_start (va_range u)) l.
Proof.
  revert lo. induction l as [|u l IH]; intros lo; simpl; [constructor|].
  intros (? & ? & H) Hle. constructor; [lia|]. eapply IH; [exact H|lia].
Qed.

Lemma areas_ordered_ends lo l hi :
  areas_ordered lo l hi -> Forall (fun u => vm_end (va_range u) <= hi) l.
Proof.
  revert lo. induction l as [|u l IH]; intros lo; simpl; [constructor|].
  intros (? & ? & H). constructor; [by apply areas_ordered_le in H|by eapply IH].
Qed.

Lemma areas_ordered_nonneg lo l hi :
  areas_ordered lo l hi -> Forall (fun u => vm_start (va_range u) <= vm_end (va_range u)) l.
Proof.
  revert lo. induction l as [|u l IH]; intros lo; simpl; [constructor|].
  intros (? & ? & H). constructor; [done|by eapply IH].
Qed.

(** The areas around an area. *)
Lemma areas_ordered_around lo l1 v l2 hi :
  areas_ordered lo (l1 ++ v :: l2) hi ->
  areas_ordered lo l1 (vm_start (va_range v)) /\ areas_ordered (vm_end (va_range v)) l2 hi
  /\ lo <= vm_start (va_range v) <= vm_end (va_range v) /\ vm_end (va_range v) <= hi.
Proof.
  intros (mid & H1 & H2)%areas_ordered_app. simpl in H2. destruct H2 as (? & ? & H2).
  pose proof (areas_ordered_le _ _ _ H1). pose proof (areas_ordered_le _ _ _ H2).
  split_and!; auto; try lia. by eapply areas_ordered_weaken; [| |exact H1].
Qed.

Lemma areas_ordered_disjoint lo l1 v l2 hi a :
  areas_ordered lo (l1 ++ v :: l2) hi -> a ∈ va_range v -> ~ in_areas a l1 /\ ~ in_areas a l2.
Proof.
  intros (H1 & H2 & _)%areas_ordered_around Ha. split; intros Hin;
    [eapply areas_ordered_bound in Hin; [|exact H1]|eapply areas_ordered_bound in Hin; [|exact H2]];
    vmrange_unfold; lia.
Qed.

Lemma areas_ordered_sorted lo l hi : areas_ordered lo l hi -> key_sorted vma_key l.
Proof.
  revert lo. induction l as [|v l IH]; intros lo; simpl; [constructor|].
  intros (? & ? & H). constructor; [by eapply IH|].
  eapply List.Forall_impl; [|by apply (areas_ordered_starts _ _ _ (vm_start (va_range v)) H)].
  by intros.
Qed.

Lemma areas_size_bound lo l hi : areas_ordered lo l hi -> 0 <= areas_size l <= hi - lo.
Proof.
  revert lo. induction l as [|v l IH]; intros lo; simpl; [lia|].
  intros (? & ? & H%IH). lia.
Qed.

Lemma view_app l1 l2 a :
  view (l1 ++ l2) a = match view l1 a with Some c => Some c | None => view l2 a end.
Proof. unfold view. rewrite area_at_app. by destruct (area_at l1 a). Qed.

Lemma view_None l a : view l a = None <-> ~ in_areas a l.
Proof. unfold view. rewrite fmap_None. apply area_at_None. Qed.

Lemma view_middle lo l1 v l2 hi a :
  areas_ordered lo (l1 ++ v :: l2) hi -> a ∈ va_range v -> view (l1 ++ v :: l2) a = Some (cell v a).
Proof. intros H Ha. unfold view. by erewrite area_at_middle. Qed.

(** Outside an area, replacing it by areas inside it changes nothing; inside it,
    they are what is seen. *)
Lemma view_replace lo l1 v l2 hi ps a :
  areas_ordered lo (l1 ++ v :: l2) hi ->
  areas_ordered (vm_start (va_range v)) ps (vm_end (va_range v)) ->
  view (l1 ++ ps ++ l2) a
  = if bool_decide (a ∈ va_range v) then view ps a else view (l1 ++ v :: l2) a.
Proof.
  intros Hord Hps. rewrite !view_app. change (v :: l2) with ([v] ++ l2). rewrite view_app.
  case_bool_decide as Ha.
  - destruct (areas_ordered_disjoint _ _ _ _ _ _ Hord Ha) as [H1 H2].
    apply view_None in H1, H2. rewrite H1, H2. by destruct (view ps a).
  - assert (Hn : view ps a = None).
    { apply view_None. intros Hin. eapply areas_ordered_bound in Hin; [|exact Hps].
      vmrange_unfold. lia. }
    assert (Hv : view [v] a = None).
    { apply view_None. rewrite in_areas_cons, in_areas_nil. tauto. }
    by rewrite Hn, Hv.
Qed.

End lists.

(** * Cutting an area *)

Section cutting.
Context {BF : Bitflags} {BV : BitVecs} {PL : Platform} {EN : Enclave} {US : UserSpace}.

Lemma subtract_of_subset s i :
  VMRange_wf s -> vm_start s <= vm_start i -> vm_start i < vm_end i -> vm_end i <= vm_end s ->
  VMRange_subtract s i
  = (if vm_start s <? vm_start i then [mkVMRange (vm_start s) (vm_start i)] else [])
    ++ (if vm_end i <? vm_end s then [mkVMRange (vm_end i) (vm_end s)] else []).
Proof.
  intros Hs H1 H2 H3. unfold VMRange_subtract, VMRange_intersect. rewrite VMRange_size_wf by done.
  rewrite Z.max_r, Z.min_r by lia. destruct (Z.eqb_spec (vm_end s - vm_start s) 0); [lia|].
  destruct (Z.leb_spec (vm_end i) (vm_start i)); [lia|]. unfold VMRange_from_unchecked.
  cbn [vm_start vm_end]. by destruct (_ <? _), (_ <? _).
Qed.

Definition is_part (g : PageChunkManager) (v p : VMArea) : Prop := area_part g v (va_range p) p.

(** [ps] is what remains of [v] without [i]. *)
Record area_rest (g : PageChunkManager) (v i : VMArea) (ps : list VMArea) : Prop := {
  ar_parts : Forall (is_part g v) ps;
  ar_ranges : va_range <$> ps
    = (if vm_start (va_range v) <? vm_start (va_range i)
       then [mkVMRange (vm_start (va_range v)) (vm_start (va_range i))] else [])
      ++ (if vm_end (va_range i) <? vm_end (va_range v)
          then [mkVMRange (vm_end (va_range i)) (vm_end (va_range v))] else []);
  ar_ordered : areas_ordered (vm_start (va_range v)) ps (vm_end (va_range v));
  ar_in : forall a, in_areas a ps <-> a ∈ va_range v /\ ~ a ∈ va_range i;
  ar_size : areas_size ps = vm_end (va_range v) - vm_start (va_range v)
                            - (vm_end (va_range i) - vm_start (va_range i));
  ar_length : (length ps <= 2)%nat;
  ar_empty : ps = [] <-> va_range v = va_range i;
}.

(** Cutting a range out of an area. *)
Lemma area_cut g v range i :
  area_wf g v -> VMRange_wf range -> VMArea_intersect v range = Ok (Some i) ->
  is_part g v i /\ (forall a, a ∈ va_range i <-> a ∈ va_range v /\ a ∈ range)
  /\ vm_start (va_range v) <= vm_start (va_range i) /\ vm_end (va_range i) <= vm_end (va_range v)
  /\ exists ps, VMArea_subtract v (va_range i) = Ok ps /\ area_rest g v i ps.
Proof.
  intros Hv Hr Hi. pose proof (aw_range _ _ Hv) as Hvr.
  destruct (VMArea_split g v range Hv Hr) as (i' & ? & Hi' & _ & Hir & _ & Hp).
  rewrite Hi in Hi'. injection Hi' as <-. apply Forall_app in Hp as [Hp _].
  apply Forall_cons_iff in Hp as [Hp _]. simpl in Hir. symmetry in Hir.
  pose proof (VMRange_intersect_spec _ range Hvr Hr) as Hspec. rewrite Hir in Hspec.
  destruct Hspec as (_ & Hiw & Hne & Hin). apply VMRange_intersect_Some in Hir as [Hir _].
  assert (vm_start (va_range v) <= vm_start (va_range i) /\ vm_end (va_range i) <= vm_end (va_range v))
    as [Hs He] by (rewrite Hir; simpl; lia).
  split_and!; auto.
  destruct (VMArea_split g v (va_range i) Hv Hiw) as (? & ps & _ & Hps & _ & Hpr & Hpp).
  exists ps. split; [done|]. apply Forall_app in Hpp as [_ Hpp].
  destruct (VMRange_subtract_spec _ _ Hvr Hiw) as (_ & _ & _ & Hsub). rewrite <- Hpr in Hsub.
  rewrite subtract_of_subset in Hpr by done.
  assert (Hcases : areas_ordered (vm_start (va_range v)) ps (vm_end (va_range v))
    /\ areas_size ps = vm_end (va_range v) - vm_start (va_range v)
                       - (vm_end (va_range i) - vm_start (va_range i))
    /\ (length ps <= 2)%nat /\ (ps = [] <-> va_range v = va_range i)).
  { clear -Hpr Hne Hs He. revert Hpr.
    destruct (va_range v) as [s e], (va_range i) as [s' e']; cbn [vm_start vm_end] in *.
    destruct (Z.ltb_spec s s'), (Z.ltb_spec e' e); destruct ps as [|p [|p' [|]]]; try done;
      simpl; intros Heq; simplify_eq; repeat match goal with
      | H : va_range _ = _ |- _ => rewrite H; clear H end; simpl;
      (split_and!; try lia); split; intros Heq; simplify_eq; try done; try lia.
    f_equal; lia. }
  destruct Hcases as (? & ? & ? & ?). by constructor.
Qed.

(** Parts of an area show what the area showed. *)
Lemma view_parts g v ps a :
  Forall (is_part g v) ps -> in_areas a ps -> view ps a = Some (cell v a).
Proof.
  intros Hp Hin. unfold view. destruct (area_at ps a) as [p|] eqn:Hat.
  - apply area_at_Some in Hat as [Hat _]. rewrite List.Forall_forall in Hp.
    destruct (Hp p) as (_ & _ & H1 & H2 & H3); [by apply list_elem_of_In|].
    simpl. unfold cell. by rewrite H1, H2, H3.
  - by apply area_at_None in Hat.
Qed.

End cutting.

(** * Cursors *)

Section cursors.
Context {BF : Bitflags} {BV : BitVecs} {PL : Platform} {EN : Enclave} {US : UserSpace} {RB : RBTrees}.

(** Where an element goes is determined by the keys around it. *)
Lemma rb_insert_at {A} (key : A -> Z) x t pre suf :
  key_sorted key (rb_iter t) -> rb_iter t = pre ++ suf ->
  Forall (fun y => key y <= key x) pre -> Forall (fun y => key x < key y) suf ->
  exists t', rb_insert key x t = (t', length pre) /\ rb_iter t' = pre ++ x :: suf.
Proof.
  intros Hs Ht Hpre Hsuf. pose proof (rb_insert_law key x t Hs) as Hlaw.
  destruct (rb_insert key x t) as [t' n]. destruct Hlaw as (Hn & Ht' & Hle & Hgt).
  rewrite Ht in *. assert (n = length pre) as ->.
  { destruct (Nat.lt_trichotomy n (length pre)) as [Hlt|[|Hlt]]; [|done|]; exfalso.
    - destruct (lookup_lt_is_Some_2 pre n Hlt) as [y Hy].
      pose proof (Forall_lookup_1 _ _ _ _ Hpre Hy) as H1.
      assert (Hd : drop n (pre ++ suf) !! 0%nat = Some y)
        by (rewrite lookup_drop, Nat.add_0_r; by apply lookup_app_l_Some).
      pose proof (Forall_lookup_1 _ _ _ _ Hgt Hd) as H2. simpl in *. lia.
    - rewrite length_app in Hn. destruct suf as [|y suf]; simpl in Hn; [lia|].
      apply Forall_cons_iff in Hsuf as [H1 _].
      assert (Hd : take n (pre ++ y :: suf) !! length pre = Some y)
        by (rewrite lookup_take_lt by done; by apply list_lookup_middle).
      pose proof (Forall_lookup_1 _ _ _ _ Hle Hd) as H2. simpl in *. lia. }
  exists t'. split; [done|]. by rewrite Ht', vec_insert_middle.
Qed.

Abbreviation vmas cm := (rb_iter (cm_vmas cm)) (only parsing).

Lemma cursor_get_middle cm (w : World BV PL) pre v suf :
  vmas cm = pre ++ v :: suf -> cursor_get (length pre) (cm, w) = (Ok (Some v), (cm, w)).
Proof. intros H. unfold cursor_get. rewrite (bind_ok _ _ _ cm (cm, w)) by done. by rewrite H, list_lookup_middle. Qed.

Lemma cursor_get_end cm (w : World BV PL) pre :
  vmas cm = pre -> cursor_get (length pre) (cm, w) = (Ok None, (cm, w)).
Proof. intros H. unfold cursor_get. rewrite (bind_ok _ _ _ cm (cm, w)) by done. by rewrite H, lookup_ge_None_2. Qed.

Lemma on_world_ok {A} (c : M (World BV PL) A) cm w a w' :
  c w = (Ok a, w') -> on_world c (cm, w) = (Ok a, (cm, w')).
Proof. intros H. unfold on_world. simpl. by rewrite H. Qed.

Lemma lift_ok {S A} (r : Result A) (a : A) (s : S) : r = Ok a -> lift r s = (Ok a, s).
Proof. by intros ->. Qed.

(** The manager with other areas. *)
Definition with_vmas (cm : ChunkManager) (t : RBTree VMArea) : ChunkManager :=
  mkChunkManager (cm_range cm) (cm_free_size cm) t (cm_free_manager cm).

Lemma cursor_remove_middle cm (w : World BV PL) pre v suf :
  vmas cm = pre ++ v :: suf ->
  exists t, cursor_remove (length pre) (cm, w) = (Ok tt, (with_vmas cm t, w)) /\ rb_iter t = pre ++ suf.
Proof.
  intros H. exists (rb_remove (length pre) (cm_vmas cm)). split; [reflexivity|]. rewrite rb_remove_law.
  - rewrite H. apply vec_remove_middle.
  - rewrite H, length_app. simpl. lia.
Qed.

Lemma cursor_replace_middle cm (w : World BV PL) pre v suf v' :
  vmas cm = pre ++ v :: suf ->
  exists t, cursor_replace_with (length pre) v' (cm, w) = (Ok tt, (with_vmas cm t, w))
    /\ rb_iter t = pre ++ v' :: suf.
Proof.
  intros H. exists (rb_replace (length pre) v' (cm_vmas cm)). split; [reflexivity|]. rewrite rb_replace_law.
  - rewrite H. apply list_insert_middle.
  - rewrite H, length_app. simpl. lia.
Qed.

Lemma cursor_insert_at cm (w : World BV PL) c pre suf lo hi v' :
  vmas cm = pre ++ suf -> areas_ordered lo (pre ++ v' :: suf) hi ->
  vm_start (va_range v') < vm_end (va_range v') ->
  exists t, cursor_insert c v' (cm, w)
            = (Ok (if (length pre <=? c)%nat then S c else c), (with_vmas cm t, w))
    /\ rb_iter t = pre ++ v' :: suf.
Proof.
  intros Hcm Hord Hne. pose proof (areas_ordered_around _ _ _ _ _ Hord) as (H1 & H2 & H3 & H4).
  assert (Hs : key_sorted vma_key (vmas cm)).
  { rewrite Hcm. eapply areas_ordered_sorted. apply areas_ordered_app.
    exists (vm_start (va_range v')). split; [exact H1|].
    eapply (areas_ordered_weaken _ _ _ hi hi); [| |exact H2]; lia. }
  destruct (rb_insert_at vma_key v' (cm_vmas cm) pre suf Hs Hcm) as (t & Hins & Ht).
  - pose proof (areas_ordered_ends _ _ _ H1) as He. pose proof (areas_ordered_nonneg _ _ _ H1) as Hn.
    rewrite List.Forall_forall in *. intros u Hu. specialize (He u Hu). specialize (Hn u Hu).
    unfold vma_key. simpl in *. lia.
  - eapply List.Forall_impl; [|by apply (areas_ordered_starts _ _ _ (vm_end (va_range v')) H2)].
    intros u. unfold vma_key. simpl. lia.
  - exists t. split; [|done]. unfold cursor_insert. rewrite (bind_ok _ _ _ cm (cm, w)) by done.
    by rewrite Hins.
Qed.

(** Replacing the element at the cursor by [v1], and inserting [v2] after it. *)
Lemma cursor_split_after cm (w : World BV PL) pre v suf lo hi v1 v2 :
  vmas cm = pre ++ v :: suf -> areas_ordered lo (pre ++ v1 :: v2 :: suf) hi ->
  vm_start (va_range v2) < vm_end (va_range v2) ->
  exists t1 t2, cursor_replace_with (length pre) v1 (cm, w) = (Ok tt, (with_vmas cm t1, w))
    /\ cursor_insert (length pre) v2 (with_vmas cm t1, w) = (Ok (length pre), (with_vmas cm t2, w))
    /\ rb_iter t2 = pre ++ v1 :: v2 :: suf.
Proof.
  intros Hv Hord Hne. destruct (cursor_replace_middle cm w pre v suf v1 Hv) as (t1 & Hr & Ht1).
  destruct (cursor_insert_at (with_vmas cm t1) w (length pre) (pre ++ [v1]) suf lo hi v2)
    as (t2 & Hi & Ht2); [simpl; by rewrite Ht1, <- app_assoc|by rewrite <- app_assoc|done|].
  exists t1, t2. split_and!; [done| |by rewrite Ht2, <- app_assoc]. rewrite Hi, length_app. simpl.
  by destruct (Nat.leb_spec (length pre + 1) (length pre)); [lia|].
Qed.

End cursors.

(** * The invariant *)

Section invariant.
Context {BF : Bitflags} {BV : BitVecs} {PL : Platform} {EN : Enclave} {US : UserSpace} {RB : RBTrees}.

Definition sentry (x : Z) (v : VMArea) : Prop :=
  va_range v = mkVMRange x x /\ va_access v = Private 0.

(** An area of one process. *)
Definition owned (v : VMArea) : Prop := exists pid, va_access v = Private pid /\ pid <> 0.

Abbreviation vmas cm := (rb_iter (cm_vmas cm)) (only parsing).

(** The areas between two sentries are well-formed, belong to processes, lie in
    the chunk in address order, and the free list has the rest of the chunk. *)
Record cm_wf (g : PageChunkManager) (cm : ChunkManager) : Prop := {
  cw_range : VMRange_wf (cm_range cm);
  cw_bound : vm_end (cm_range cm) <= addr_limit;
  cw_gap : off_gap (cm_range cm);
  cw_ends : exists s l e, vmas cm = s :: l ++ [e]
    /\ sentry (vm_start (cm_range cm)) s /\ sentry (vm_end (cm_range cm)) e
    /\ Forall (area_wf g) l /\ Forall owned l;
  cw_ordered : areas_ordered (vm_start (cm_range cm)) (vmas cm) (vm_end (cm_range cm));
  cw_free_ok : free_ok (cm_free_manager cm);
  cw_free : forall a, in_ranges a (cm_free_manager cm)
                      <-> a ∈ cm_range cm /\ ~ in_areas a (vmas cm);
  cw_size : cm_free_size cm
            = vm_end (cm_range cm) - vm_start (cm_range cm) - areas_size (vmas cm);
}.

Lemma sentry_empty x v : sentry x v -> vm_start (va_range v) = vm_end (va_range v).
Proof. intros [-> _]. done. Qed.

(** An area of a process is not one of the sentries. *)
Lemma owned_middle g cm pre v suf :
  cm_wf g cm -> vmas cm = pre ++ v :: suf -> owned v ->
  area_wf g v /\ exists s l1 l2 e, pre = s :: l1 /\ suf = l2 ++ [e]
    /\ sentry (vm_start (cm_range cm)) s /\ sentry (vm_end (cm_range cm)) e
    /\ Forall (area_wf g) (l1 ++ l2) /\ Forall owned (l1 ++ l2).
Proof.
  intros Hcm Hv (pid & Hpid & Hne). destruct (cw_ends _ _ Hcm) as (s & l & e & Hl & Hs & He & Hwf & Hown).
  rewrite Hv in Hl. symmetry in Hl.
  destruct pre as [|s' l1]; injection Hl as -> Hl; [destruct Hs; congruence|].
  destruct (list_snoc_cases suf) as [->|(l2 & e' & ->)].
  - apply app_inj_tail in Hl as [_ ->]. destruct He. congruence.
  - rewrite app_comm_cons, app_assoc in Hl. apply app_inj_tail in Hl as [-> ->].
    rewrite Forall_app, Forall_cons_iff in Hwf, Hown.
    split; [apply Hwf|]. exists s', l1, l2, e'. rewrite !Forall_app. naive_solver.
Qed.

(** Replacing an area by areas inside it and giving the rest back. *)
Lemma cm_wf_replace g cm pre v suf ps free' fsize' t' :
  cm_wf g cm -> vmas cm = pre ++ v :: suf -> owned v ->
  areas_ordered (vm_start (va_range v)) ps (vm_end (va_range v)) ->
  Forall (area_wf g) ps -> Forall owned ps -> rb_iter t' = pre ++ ps ++ suf ->
  free_ok free' ->
  (forall a, in_ranges a free'
             <-> in_ranges a (cm_free_manager cm) \/ (a ∈ va_range v /\ ~ in_areas a ps)) ->
  fsize' = cm_free_size cm + (vm_end (va_range v) - vm_start (va_range v) - areas_size ps) ->
  cm_wf g (mkChunkManager (cm_range cm) fsize' t' free').
Proof.
  intros Hcm Hv Hvo Hps Hpw Hpo Ht Hfo' Hf' Hfs.
  destruct (owned_middle _ _ _ _ _ Hcm Hv Hvo) as (_ & s & l1 & l2 & e & Hpre & Hsuf & Hs & He & Hw & Ho).
  destruct Hcm as [Hr Hb Hgap _ Hord Hfo Hf Hsz]. rewrite Hv in Hord.
  constructor; cbn [cm_range cm_vmas cm_free_manager cm_free_size]; auto; rewrite Ht.
  - rewrite !Forall_app in *. exists s, (l1 ++ ps ++ l2), e. rewrite !Forall_app. subst pre suf.
    rewrite <- !app_assoc. naive_solver.
  - by eapply areas_ordered_replace.
  - intros a. rewrite Hf', Hf, Hv. rewrite !in_areas_app, !in_areas_cons.
    pose proof (areas_ordered_disjoint _ _ _ _ _ a Hord) as Hdis.
    pose proof (areas_ordered_bound _ _ _ a Hps) as Hpin.
    pose proof (areas_ordered_bound _ _ _ a Hord) as Hrange.
    rewrite in_areas_app, in_areas_cons in Hrange.
    change (vm_start (va_range v) <= a < vm_end (va_range v)) with (a ∈ va_range v) in Hpin.
    change (vm_start (cm_range cm) <= a < vm_end (cm_range cm)) with (a ∈ cm_range cm) in Hrange.
    clear -Hdis Hpin Hrange. destruct (decide (a ∈ va_range v)); tauto.
  - rewrite Hfs, Hsz, Hv, !areas_size_app. simpl. lia.
Qed.

End invariant.

(** * Unmapping *)

Section munmap.
Context {BF : Bitflags} {BV : BitVecs} {PL : Platform} {EN : Enclave} {REL : ReliableEnclave} {US : UserSpace}
  {RB : RBTrees}.

Abbreviation vmas cm := (rb_iter (cm_vmas cm)) (only parsing).

Lemma is_part_owned g v ps : owned v -> Forall (is_part g v) ps -> Forall owned ps.
Proof.
  intros (pid & Hpid & Hne). apply List.Forall_impl. intros p (_ & _ & _ & Ha & _).
  exists pid. by rewrite Ha.
Qed.

Lemma is_part_wf g v ps : Forall (is_part g v) ps -> Forall (area_wf g) ps.
Proof. apply List.Forall_impl. by intros p []. Qed.

(** Giving the range of a cut back to the free list. *)
Lemma cm_wf_cut g cm pre v suf i ps t :
  cm_wf g cm -> vmas cm = pre ++ v :: suf -> owned v -> is_part g v i ->
  vm_start (va_range v) <= vm_start (va_range i) -> vm_end (va_range i) <= vm_end (va_range v) ->
  area_rest g v i ps -> rb_iter t = pre ++ ps ++ suf ->
  cm_wf g (mkChunkManager (cm_range cm) (cm_free_size cm +64 VMRange_size (va_range i)) t
             (add_range_back_to_free_manager (cm_free_manager cm) (va_range i))).
Proof.
  intros Hcm Hv Ho (Hi & _) Hs He Hps Ht.
  pose proof (cw_ordered _ _ Hcm) as Hord. rewrite Hv in Hord.
  pose proof (areas_ordered_around _ _ _ _ _ Hord) as (H1 & H2 & _).
  pose proof (areas_size_bound _ _ _ H1). pose proof (areas_size_bound _ _ _ H2).
  pose proof (cw_size _ _ Hcm) as Hsz. rewrite Hv, areas_size_app in Hsz. simpl in Hsz.
  pose proof (cw_bound _ _ Hcm). pose proof (aw_nonempty _ _ Hi). pose proof (wf_start_nonneg _ (cw_range _ _ Hcm)).
  assert (addr_limit < u64_modulus) by reflexivity.
  destruct (add_back_spec (cm_free_manager cm) (va_range i)) as (Hc & [Hw Hl] & Hin & _);
    [apply Hcm|apply Hi|done|lia| |].
  { intros a Ha Hf. apply (cw_free _ _ Hcm) in Hf as [_ Hf]. apply Hf. rewrite Hv.
    rewrite in_areas_app, in_areas_cons. right. left. vmrange_unfold. lia. }
  eapply (cm_wf_replace g cm pre v suf ps); eauto using is_part_owned, is_part_wf, ar_parts, ar_ordered.
  - done.
  - intros a. rewrite Hin, (ar_in _ _ _ _ Hps).
    assert (a ∈ va_range i -> a ∈ va_range v) by (vmrange_unfold; lia).
    destruct (decide (a ∈ va_range i)); tauto.
  - rewrite (VMRange_size_wf (va_range i)) by apply Hi. rewrite add64_small by lia.
    rewrite (ar_size _ _ _ _ Hps). lia.
Qed.

(** The cursor work of one round. *)
Lemma munmap_cursor_spec g cm (w : World BV PL) pre v suf i ps :
  cm_wf g cm -> vmas cm = pre ++ v :: suf -> area_rest g v i ps ->
  VMArea_subtract v (va_range i) = Ok ps ->
  exists j t,
    (if bool_decide (va_range v = va_range i) then
       _ ← cursor_remove (length pre); ok (length pre)
     else
       remain_vmas ← lift (VMArea_subtract v (va_range i));
       match remain_vmas with
       | [remain] => _ ← cursor_replace_with (length pre) remain; ok (S (length pre))
       | [vma_left_part; vma_right_part] =>
           _ ← cursor_replace_with (length pre) vma_left_part;
           cursor_insert (length pre) vma_right_part
       | _ => panic
       end) (cm, w) = (Ok (length pre + j)%nat, (with_vmas cm t, w))
    /\ (j <= length ps)%nat /\ rb_iter t = pre ++ ps ++ suf.
Proof.
  intros Hcm Hv Hps Hsub. case_bool_decide as Heq.
  { apply (ar_empty _ _ _ _ Hps) in Heq as ->. destruct (cursor_remove_middle cm w pre v suf Hv) as (t & Hr & Ht).
    exists 0%nat, t. rewrite Nat.add_0_r, (bind_ok _ _ _ _ _ Hr). split_and!; [done|simpl; lia|done]. }
  rewrite (bind_ok _ _ _ ps (cm, w)) by (unfold lift; by rewrite Hsub).
  pose proof (ar_length _ _ _ _ Hps) as Hlen. pose proof (ar_empty _ _ _ _ Hps) as Hemp.
  destruct ps as [|p [|q [|]]]; simpl in Hlen; [naive_solver| | |lia].
  - destruct (cursor_replace_middle cm w pre v suf p Hv) as (t & Hr & Ht).
    exists 1%nat, t. rewrite Nat.add_1_r, (bind_ok _ _ _ _ _ Hr). split_and!; [done|simpl; lia|done].
  - pose proof (cw_ordered _ _ Hcm) as Hord. rewrite Hv in Hord.
    pose proof (areas_ordered_replace _ _ _ _ _ _ Hord (ar_ordered _ _ _ _ Hps)) as Hord'.
    pose proof (ar_parts _ _ _ _ Hps) as Hparts. rewrite !Forall_cons_iff in Hparts.
    destruct Hparts as (_ & (Hq & _) & _). apply aw_nonempty in Hq.
    destruct (cursor_split_after cm w pre v suf _ _ p q Hv Hord' Hq) as (t & t' & Hr & Hi & Ht').
    exists 0%nat, t'. rewrite Nat.add_0_r, (bind_ok _ _ _ _ _ Hr), Hi. by split_and!; [|lia|].
Qed.

(** One round unmaps the part and nothing else. *)
Lemma munmap_part_spec cm (w : World BV PL) pre v suf range i :
  cm_wf (w_pcm w) cm -> vmas cm = pre ++ v :: suf -> owned v -> VMRange_wf range ->
  VMArea_intersect v range = Ok (Some i) ->
  exists j cm' w' ps,
    munmap_part v i (length pre) (cm, w) = (Ok (length pre + j)%nat, (cm', w'))
    /\ w_pcm w' = w_pcm w /\ cm_wf (w_pcm w) cm' /\ cm_range cm' = cm_range cm
    /\ (j <= length ps)%nat /\ area_rest (w_pcm w) v i ps /\ vmas cm' = pre ++ ps ++ suf
    /\ forall a, view (vmas cm') a
                 = if bool_decide (a ∈ va_range v /\ a ∈ range) then None else view (vmas cm) a.
Proof.
  intros Hcm Hv Ho Hr Hi. destruct (owned_middle _ _ _ _ _ Hcm Hv Ho) as [Hvw _].
  destruct (area_cut _ _ _ _ Hvw Hr Hi) as (Hpi & Hin & Hs & He & ps & Hsub & Hps).
  destruct (mem_only_flush_and_clean (w_pcm w) i ltac:(apply Hpi) w) as ([] & w' & Hf & Hw').
  destruct (munmap_cursor_spec _ cm w' _ _ _ _ _ Hcm Hv Hps Hsub) as (j & t & Hcur & Hj & Ht).
  eexists j, _, w', ps. split; [|split_and!; [done|by eapply (cm_wf_cut (w_pcm w) cm pre v suf i ps t)|done|done|done|exact Ht|]].
  - unfold munmap_part. rewrite (bind_ok _ _ _ tt (cm, w')) by (unfold on_world; simpl; by rewrite Hf).
    rewrite (bind_ok _ _ _ _ _ Hcur). done.
  - intros a. cbn [cm_vmas]. rewrite Ht, Hv. pose proof (cw_ordered _ _ Hcm) as Hord. rewrite Hv in Hord.
    rewrite (view_replace _ _ _ _ _ _ _ Hord (ar_ordered _ _ _ _ Hps)).
    clear Hcur. repeat case_bool_decide; try tauto.
    + apply view_None. rewrite (ar_in _ _ _ _ Hps), Hin. tauto.
    + rewrite (view_middle _ _ _ _ _ _ Hord) by done.
      eapply view_parts; [apply Hps|]. rewrite (ar_in _ _ _ _ Hps), Hin. tauto.
Qed.

(** What is mapped at [a] after the process [pid] unmapped [r]. *)
Definition unmap_at (pid : Z) (r : VMRange) (a : Z) (c : option Cell) : option Cell :=
  match c with
  | Some c => if bool_decide (c.1.2 = Private pid) && bool_decide (a ∈ r) then None else Some c
  | None => None
  end.

Lemma belongs_owned g cm v pid :
  cm_wf g cm -> v ∈ vmas cm -> pid <> 0 -> VMArea_belong_to v pid = true ->
  owned v /\ va_access v = Private pid.
Proof.
  intros Hcm Hin Hpid Hb. destruct (cw_ends _ _ Hcm) as (s & l & e & Hl & [_ Hs] & [_ He] & _ & Ho).
  rewrite Hl, elem_of_cons, elem_of_app, list_elem_of_singleton in Hin.
  unfold VMArea_belong_to in Hb. destruct Hin as [->|[Hin| ->]].
  - rewrite Hs in Hb. boolprop. lia.
  - rewrite List.Forall_forall in Ho. destruct (Ho v) as (p & Hp & Hne); [by apply list_elem_of_In|].
    rewrite Hp in Hb. boolprop. subst. split; [|done]. by exists pid.
  - rewrite He in Hb. boolprop. lia.
Qed.

(** Rounds a list of areas takes. *)
Definition munmap_weight (range : VMRange) (l : list VMArea) : nat :=
  foldr (fun v n =>
    ((match VMRange_intersect (va_range v) range with Some _ => 3 | None => 1 end) + n)%nat) 0%nat l.

Lemma munmap_weight_app r l1 l2 :
  munmap_weight r (l1 ++ l2) = (munmap_weight r l1 + munmap_weight r l2)%nat.
Proof. induction l1 as [|v l1 IH]; simpl; [done|]. rewrite IH. lia. Qed.

Lemma munmap_weight_le r l : (munmap_weight r l <= 3 * length l)%nat.
Proof. induction l as [|v l IH]; simpl; [done|]. case_match; lia. Qed.

Lemma munmap_weight_rest range l :
  (forall p, p ∈ l -> VMRange_intersect (va_range p) range = None) -> munmap_weight range l = length l.
Proof.
  induction l as [|v l IH]; intros H; simpl; [done|].
  rewrite (H v) by (by left). rewrite IH; [done|]. intros. apply H. by right.
Qed.

Lemma area_rest_weight g v i ps range :
  VMRange_wf range -> area_rest g v i ps ->
  (forall a, a ∈ va_range i <-> a ∈ va_range v /\ a ∈ range) -> (munmap_weight range ps <= 2)%nat.
Proof.
  intros Hr Hps Hi. rewrite munmap_weight_rest; [apply Hps|]. intros p Hp.
  pose proof (ar_parts _ _ _ _ Hps) as Hparts. rewrite List.Forall_forall in Hparts.
  destruct (Hparts p) as (Hpw & _); [by apply list_elem_of_In|].
  pose proof (VMRange_intersect_spec _ range (aw_range _ _ Hpw) Hr) as Hspec.
  destruct (VMRange_intersect (va_range p) range) as [r|]; [|done].
  destruct Hspec as (_ & _ & Hne & Hin). exfalso.
  destruct (proj1 (Hin (vm_start r))) as [H1 H2]; [vmrange_unfold; lia|].
  destruct (proj1 (ar_in _ _ _ _ Hps (vm_start r))) as [H3 H4]; [by eapply in_areas_elem|].
  apply H4, Hi. done.
Qed.

Lemma VMArea_intersect_cases g v range :
  area_wf g v -> VMRange_wf range ->
  exists i, VMArea_intersect v range = Ok i /\ va_range <$> i = VMRange_intersect (va_range v) range.
Proof. intros Hv Hr. destruct (VMArea_split g v range Hv Hr) as (i & _ & H & _ & Hi & _). eauto. Qed.

(** Updating the map [f] where the areas [rest] are. *)
Definition updated_in (rest : list VMArea) (T : Z -> option Cell -> option Cell)
    (f : Z -> option Cell) (a : Z) : option Cell :=
  match area_at rest a with Some _ => T a (f a) | None => f a end.

Lemma updated_in_skip v suf T f a :
  (a ∈ va_range v -> ~ in_areas a suf /\ T a (f a) = f a) ->
  updated_in (v :: suf) T f a = updated_in suf T f a.
Proof.
  intros H. unfold updated_in. simpl. destruct (VMRange_contains (va_range v) a) eqn:Hc; [|done].
  apply VMRange_contains_spec in Hc. destruct (H Hc) as [Hs Hu]. apply area_at_None in Hs. by rewrite Hs.
Qed.

(** One step updates the area [v]; the pieces [ps] of it that are visited again
    are left alone. *)
Lemma updated_in_step v ps suf T f f' a :
  (a ∈ va_range v -> f' a = T a (f a) /\ T a (f' a) = f' a) -> (~ a ∈ va_range v -> f' a = f a) ->
  (in_areas a ps -> a ∈ va_range v) ->
  updated_in (ps ++ suf) T f' a = updated_in (v :: suf) T f a.
Proof.
  intros Hf Hf' Hps. unfold updated_in. simpl. destruct (VMRange_contains (va_range v) a) eqn:Hc.
  - apply VMRange_contains_spec in Hc. destruct (Hf Hc) as [H1 H2]. rewrite <- H1. by destruct (area_at _ _).
  - assert (Hn : ~ a ∈ va_range v) by (rewrite <- VMRange_contains_spec; congruence).
    rewrite area_at_app. assert (area_at ps a = None) as -> by (apply area_at_None; tauto).
    by rewrite Hf'.
Qed.

Lemma unmap_at_outside pid r a c : ~ a ∈ r -> unmap_at pid r a c = c.
Proof.
  intros Ha. destruct c as [c|]; [|done]. simpl.
  by rewrite (bool_decide_eq_false_2 (a ∈ r)), andb_false_r.
Qed.

Lemma unmap_at_other pid r a (c : Cell) : c.1.2 <> Private pid -> unmap_at pid r a (Some c) = Some c.
Proof. intros Hc. simpl. by rewrite bool_decide_eq_false_2. Qed.

Lemma munmap_weight_drop r j l : (munmap_weight r (drop j l) <= munmap_weight r l)%nat.
Proof. rewrite <- (take_drop j l) at 2. rewrite munmap_weight_app. lia. Qed.

(** Where a cursor from [upper_bound] starts. *)
Lemma upper_bound_split g cm k :
  cm_wf g cm -> vm_start (cm_range cm) <= k ->
  exists pre v suf, vmas cm = pre ++ v :: suf
    /\ rb_upper_bound vma_key k (cm_vmas cm) = Some (length pre)
    /\ vm_start (va_range v) <= k /\ Forall (fun u => k < vm_start (va_range u)) suf.
Proof.
  intros Hcm Hk. pose proof (areas_ordered_sorted _ _ _ (cw_ordered _ _ Hcm)) as Hs.
  pose proof (rb_upper_bound_law vma_key k (cm_vmas cm) Hs) as Hlaw.
  destruct (rb_upper_bound vma_key k (cm_vmas cm)) as [n|].
  - destruct Hlaw as (Hn & Hle & Hgt). destruct (lookup_lt_is_Some_2 _ _ Hn) as [v Hv].
    exists (take n (vmas cm)), v, (drop (S n) (vmas cm)).
    rewrite (take_drop_middle _ _ _ Hv), length_take_le by lia. split_and!; auto.
    rewrite (take_S_r _ _ _ Hv) in Hle. apply Forall_app in Hle as [_ Hle].
    by apply Forall_cons_iff in Hle as [Hle _].
  - destruct (cw_ends _ _ Hcm) as (s & l & e & Hl & [Hsr _] & _). rewrite Hl in Hlaw.
    apply Forall_cons_iff in Hlaw as [Hlt _]. unfold vma_key in Hlt. rewrite Hsr in Hlt. simpl in Hlt. lia.
Qed.

Lemma view_range g cm a : cm_wf g cm -> ~ a ∈ cm_range cm -> view (vmas cm) a = None.
Proof.
  intros Hcm Ha. apply view_None. intros Hin. apply Ha.
  by apply (areas_ordered_bound _ _ _ _ (cw_ordered _ _ Hcm)) in Hin.
Qed.

(** An area with addresses has a size. *)
Lemma VMArea_size_in g cm v a :
  cm_wf g cm -> v ∈ vmas cm -> a ∈ va_range v -> VMArea_size v <> 0.
Proof.
  intros Hcm Hv Ha. apply list_elem_of_split in Hv as (l1 & l2 & Hl).
  pose proof (cw_ordered _ _ Hcm) as Hord. rewrite Hl in Hord.
  apply areas_ordered_around in Hord as (_ & _ & ? & ?).
  pose proof (cw_range _ _ Hcm) as []. unfold VMArea_size, VMRange_size. vmrange_unfold.
  rewrite sub64_small; lia.
Qed.

Lemma elem_of_middle {A} (l l1 l2 : list A) x : l = l1 ++ x :: l2 -> x ∈ l.
Proof. intros ->. rewrite elem_of_app. right. by left. Qed.

(** The computation [c] unmaps the areas [rest]. *)
Definition unmaps (pid : Z) (range : VMRange) (c : M CState unit) cm (w : World BV PL) rest : Prop :=
  exists cm' w', c (cm, w) = (Ok tt, (cm', w'))
    /\ w_pcm w' = w_pcm w /\ cm_wf (w_pcm w) cm' /\ cm_range cm' = cm_range cm
    /\ forall a, view (vmas cm') a = updated_in rest (unmap_at pid range) (view (vmas cm)) a.

(** With [fuel] the loop unmaps all areas from the cursor on. *)
Definition unmaps_from (pid : Z) (range : VMRange) (fuel : nat) : Prop :=
  forall cm (w : World BV PL) pre rest,
  cm_wf (w_pcm w) cm -> vmas cm = pre ++ rest -> (munmap_weight range rest < fuel)%nat ->
  unmaps pid range (munmap_loop pid range fuel (length pre)) cm w rest.

Lemma munmap_skip pid range fuel cm (w : World BV PL) pre v suf :
  unmaps_from pid range fuel -> cm_wf (w_pcm w) cm -> vmas cm = pre ++ v :: suf ->
  (munmap_weight range (v :: suf) < S fuel)%nat ->
  (forall a, a ∈ va_range v -> unmap_at pid range a (view (vmas cm) a) = view (vmas cm) a) ->
  unmaps pid range (munmap_loop pid range fuel (S (length pre))) cm w (v :: suf).
Proof.
  intros IH Hcm Hv Hfuel Hv'. pose proof (cw_ordered _ _ Hcm) as Hord. rewrite Hv in Hord.
  destruct (IH cm w (pre ++ [v]) suf) as (cm' & w' & Hrun & Hw & Hcm' & Hrg & Hvw); auto.
  { by rewrite <- app_assoc. } { simpl in Hfuel. case_match; lia. }
  exists cm', w'. rewrite length_app, Nat.add_1_r in Hrun. split_and!; auto. intros a. rewrite Hvw.
  symmetry. apply updated_in_skip. intros Ha.
  split; [by apply (areas_ordered_disjoint _ _ _ _ _ a Hord)|by apply Hv'].
Qed.

Lemma munmap_cut pid range fuel cm (w : World BV PL) pre v suf i :
  unmaps_from pid range fuel -> cm_wf (w_pcm w) cm -> vmas cm = pre ++ v :: suf ->
  (munmap_weight range (v :: suf) < S fuel)%nat -> VMRange_wf range ->
  owned v -> va_access v = Private pid -> VMArea_intersect v range = Ok (Some i) ->
  unmaps pid range (c ← munmap_part v i (length pre); munmap_loop pid range fuel c) cm w (v :: suf).
Proof.
  intros IH Hcm Hv Hfuel Hr Ho Hacc Hi. pose proof (cw_ordered _ _ Hcm) as Hord. rewrite Hv in Hord.
  destruct (owned_middle _ _ _ _ _ Hcm Hv Ho) as [Hvw _].
  destruct (area_cut _ _ _ _ Hvw Hr Hi) as (_ & Hin & _).
  destruct (VMArea_intersect_cases _ _ _ Hvw Hr) as (i' & Hi' & Hir).
  rewrite Hi in Hi'. injection Hi' as <-. simpl in Hir.
  destruct (munmap_part_spec cm w pre v suf range i Hcm Hv Ho Hr Hi)
    as (j & cm1 & w1 & ps & Hrun & Hw1 & Hcm1 & Hrg1 & Hj & Hps & Hv1 & Hview1).
  unfold unmaps. rewrite (bind_ok _ _ _ _ _ Hrun).
  destruct (IH cm1 w1 (pre ++ take j ps) (drop j ps ++ suf)) as (cm' & w' & Hrun' & Hw & Hcm' & Hrg & Hvw').
  - by rewrite Hw1.
  - by rewrite Hv1, <- app_assoc, (app_assoc (take j ps)), take_drop.
  - rewrite munmap_weight_app. simpl in Hfuel. rewrite <- Hir in Hfuel.
    pose proof (munmap_weight_drop range j ps).
    pose proof (area_rest_weight _ _ _ _ _ Hr Hps Hin). lia.
  - exists cm', w'. rewrite length_app, length_take_le in Hrun' by done. rewrite Hw1 in *.
    split_and!; auto; [congruence|]. intros a. rewrite Hvw'. apply updated_in_step.
    + intros Ha. rewrite !Hview1, Hv, (view_middle _ _ _ _ _ _ Hord) by done.
      unfold unmap_at. simpl. rewrite (bool_decide_eq_true_2 (va_access v = _)) by done.
      repeat case_bool_decide; tauto.
    + intros Ha. rewrite Hview1, bool_decide_eq_false_2; tauto.
    + intros Ha. apply (ar_in _ _ _ _ Hps). rewrite <- (take_drop j ps), in_areas_app. by right.
Qed.

(** The effect of the loop on the areas [rest] it still has to visit. *)
Lemma munmap_loop_spec pid range fuel : pid <> 0 -> VMRange_wf range -> unmaps_from pid range fuel.
Proof.
  intros Hpid Hr. induction fuel as [|fuel IH]; intros cm w pre rest Hcm Hv Hfuel; [lia|].
  unfold unmaps. cbn [munmap_loop]. destruct rest as [|v suf].
  { rewrite app_nil_r in Hv. rewrite (bind_ok _ _ _ _ _ (cursor_get_end cm w pre Hv)).
    by exists cm, w. }
  rewrite (bind_ok _ _ _ _ _ (cursor_get_middle cm w pre v suf Hv)).
  pose proof (cw_ordered _ _ Hcm) as Hord. rewrite Hv in Hord.
  pose proof (fun a => view_middle _ _ _ _ _ a Hord) as Hview. rewrite <- Hv in Hview.
  destruct (Z.leb_spec (vm_start (va_range v)) (vm_end range)) as [Hle|Hgt]; cbn [negb]; cycle 1.
  { exists cm, w. split_and!; auto. intros a. unfold updated_in.
    destruct (area_at (v :: suf) a) as [u|] eqn:Hat; [|done]. symmetry. apply unmap_at_outside.
    apply area_at_Some in Hat as [Hu Ha]. apply (in_areas_elem _ _ a) in Hu; [|done].
    pose proof (areas_ordered_around _ _ _ _ _ Hord) as (_ & Hsuf & ?).
    apply in_areas_cons in Hu as [Hu|Hu]; [|eapply areas_ordered_bound in Hu; [|exact Hsuf]];
      vmrange_unfold; lia. }
  destruct (VMArea_size v =? 0) eqn:Hsize; cbn [orb].
  { boolprop. apply munmap_skip; auto. intros a Ha. exfalso.
    by eapply (VMArea_size_in _ cm v); eauto using elem_of_middle. }
  destruct (VMArea_belong_to v pid) eqn:Hb; cbn [negb]; cycle 1.
  { apply munmap_skip; auto. intros a Ha. rewrite Hview by done. apply unmap_at_other. simpl. intros Hacc.
    unfold VMArea_belong_to in Hb. rewrite Hacc in Hb. boolprop. lia. }
  destruct (belongs_owned _ _ v pid Hcm) as [Ho Hacc]; eauto using elem_of_middle.
  destruct (owned_middle _ _ _ _ _ Hcm Hv Ho) as [Hvw _].
  destruct (VMArea_intersect_cases _ _ _ Hvw Hr) as (i & Hi & Hir).
  rewrite (bind_ok _ _ _ i (cm, w)) by (unfold lift; by rewrite Hi).
  destruct i as [i|]; [by eapply munmap_cut|]. apply munmap_skip; auto.
  intros a Ha. apply unmap_at_outside. intros Ha'.
  pose proof (VMRange_intersect_spec _ range (aw_range _ _ Hvw) Hr) as Hspec. rewrite <- Hir in Hspec.
  destruct Hspec as [_ Hn]. by apply (Hn a).
Qed.

(** [c] makes the address map of the chunk the one with [r] unmapped. *)
Definition unmaps_range (pid : Z) (r : VMRange) (c : M CState unit) cm (w : World BV PL) : Prop :=
  exists cm' w', c (cm, w) = (Ok tt, (cm', w'))
    /\ w_pcm w' = w_pcm w /\ cm_wf (w_pcm w) cm' /\ cm_range cm' = cm_range cm
    /\ forall a, view (vmas cm') a = unmap_at pid r a (view (vmas cm) a).

(** The areas before the cursor are below the range. *)
Lemma updated_in_rest g cm pre v suf bound T (r : VMRange) a :
  cm_wf g cm -> vmas cm = pre ++ v :: suf -> vm_start (va_range v) <= bound ->
  (a ∈ r -> a ∈ cm_range cm -> bound <= a) -> (~ a ∈ r -> T a (view (vmas cm) a) = view (vmas cm) a) ->
  T a None = None ->
  updated_in (v :: suf) T (view (vmas cm)) a = T a (view (vmas cm) a).
Proof.
  intros Hcm Hv Hle Hb Hout Hn. unfold updated_in. destruct (area_at (v :: suf) a) eqn:Hat; [done|].
  destruct (decide (a ∈ r)) as [Ha|Ha]; [|by rewrite Hout].
  assert (Hva : view (vmas cm) a = None); [|by rewrite Hva].
  apply view_None. apply area_at_None in Hat. rewrite Hv, in_areas_app. intros [Hin|Hin]; [|done].
  pose proof (cw_ordered _ _ Hcm) as Hord. rewrite Hv in Hord.
  apply areas_ordered_around in Hord as (Hpre & _ & ? & ?).
  pose proof (areas_ordered_bound _ _ _ _ Hpre Hin).
  assert (a ∈ cm_range cm) by (vmrange_unfold; lia). specialize (Hb Ha H2). lia.
Qed.

Lemma munmap_range_unmaps pid range cm (w : World BV PL) :
  pid <> 0 -> VMRange_wf range -> cm_wf (w_pcm w) cm ->
  unmaps_range pid range (ChunkManager_munmap_range pid range) cm w.
Proof.
  intros Hpid Hr Hcm. unfold unmaps_range, ChunkManager_munmap_range. rewrite (bind_ok _ _ _ cm (cm, w)) by done.
  set (bound := Z.max (vm_start range) (vm_start (cm_range cm))).
  destruct (upper_bound_split _ cm bound Hcm) as (pre & v & suf & Hv & Hub & Hle & _); [lia|].
  assert (Hc : cursor_upper_bound bound (cm, w) = (Ok (length pre), (cm, w)))
    by (unfold cursor_upper_bound; rewrite (bind_ok _ _ _ cm (cm, w)) by done; by rewrite Hub).
  rewrite (bind_ok _ _ _ _ _ Hc).
  destruct (munmap_loop_spec pid range (3 * length (vmas cm) + 1) Hpid Hr cm w pre (v :: suf) Hcm Hv)
    as (cm' & w' & Hrun & Hw & Hcm' & Hrg & Hview).
  { pose proof (munmap_weight_le range (v :: suf)). rewrite Hv, length_app. lia. }
  exists cm', w'. split_and!; auto. intros a. rewrite Hview.
  apply (updated_in_rest _ _ _ _ _ bound _ range _ Hcm Hv Hle); auto using unmap_at_outside.
  intros. subst bound. vmrange_unfold. lia.
Qed.

Lemma VMRange_new_Ok s e r :
  VMRange_new s e = Ok r -> 0 <= s -> e < u64_modulus -> r = mkVMRange s e /\ VMRange_wf r.
Proof.
  unfold VMRange_new. case_if; intros [= <-] Hs He; boolprop. split; [done|].
  constructor; simpl; auto; lia.
Qed.

Lemma VMRange_new_cases s e :
  VMRange_new s e = Err EINVAL \/ exists r, VMRange_new s e = Ok r.
Proof. unfold VMRange_new. case_if; eauto. Qed.

(** Unmapping a range is unmapping its part in the chunk. *)
Lemma unmap_at_inter g cm pid r i a :
  cm_wf g cm -> (a ∈ cm_range cm -> a ∈ i <-> a ∈ r) ->
  unmap_at pid i a (view (vmas cm) a) = unmap_at pid r a (view (vmas cm) a).
Proof.
  intros Hcm Hi. unfold unmap_at. destruct (view (vmas cm) a) eqn:Hva; [|done].
  destruct (decide (a ∈ cm_range cm)) as [Ha|Ha]; [|by rewrite (view_range _ _ _ Hcm) in Hva].
  by rewrite (bool_decide_ext _ _ (Hi Ha)).
Qed.

Lemma munmap_unmaps pid addr size r cm (w : World BV PL) :
  pid <> 0 -> is_u64 addr -> size <> 0 -> cm_wf (w_pcm w) cm ->
  VMRange_new addr (addr +64 align_up size PAGE_SIZE) = Ok r ->
  unmaps_range pid r (ChunkManager_munmap pid addr size) cm w.
Proof.
  intros Hpid Ha Hs Hcm Hnew. unfold unmaps_range, ChunkManager_munmap.
  destruct (Z.eqb_spec size 0); [done|]. rewrite Hnew.
  pose proof (wrap64_range (addr + align_up size PAGE_SIZE)) as Hwr.
  apply VMRange_new_Ok in Hnew as [_ Hr]; [|by apply Ha|apply Hwr].
  rewrite (bind_ok _ _ _ r (cm, w)) by done. rewrite (bind_ok _ _ _ cm (cm, w)) by done.
  pose proof (VMRange_intersect_spec _ _ Hr (cw_range _ _ Hcm)) as Hspec.
  destruct (VMRange_intersect r (cm_range cm)) as [i|].
  - destruct Hspec as (_ & Hiw & Hne & Hin).
    destruct (VMRange_empty i) eqn:He; [unfold VMRange_empty in He; boolprop; lia|].
    destruct (munmap_range_unmaps pid i cm w Hpid Hiw Hcm) as (cm' & w' & Hrun & Hw & Hcm' & Hrg & Hview).
    exists cm', w'. split_and!; auto. intros a. rewrite Hview. eapply unmap_at_inter; [done|].
    rewrite Hin. tauto.
  - exists cm, w. split_and!; auto. intros a. destruct Hspec as [_ Hn].
    rewrite <- (unmap_at_inter _ _ pid r (mkVMRange 0 0) a Hcm); [|specialize (Hn a)].
    + symmetry. apply unmap_at_outside. vmrange_unfold. lia.
    + split; [vmrange_unfold; lia|tauto].
Qed.

Lemma munmap_reliable (pid addr size : Z) (cm : ChunkManager) (w : World BV PL) :
  pid <> 0 -> is_u64 addr -> cm_wf (w_pcm w) cm ->
  match VMRange_new addr (addr +64 align_up size PAGE_SIZE) with
  | Ok r => if size =? 0 then ChunkManager_munmap pid addr size (cm, w) = (Err EINVAL, (cm, w))
            else unmaps_range pid r (ChunkManager_munmap pid addr size) cm w
  | _ => ChunkManager_munmap pid addr size (cm, w) = (Err EINVAL, (cm, w))
  end.
Proof.
  intros Hpid Ha Hcm. destruct (VMRange_new_cases addr (addr +64 align_up size PAGE_SIZE)) as [Hn|[r Hn]];
    rewrite Hn; unfold ChunkManager_munmap at 1; destruct (Z.eqb_spec size 0); try done.
  - by rewrite Hn.
  - by apply munmap_unmaps.
Qed.

End munmap.

Section any_platform.
Context {BF : Bitflags} {BV : BitVecs} {PL : Platform} {EN : Enclave} {EL : EnclaveLaws} {US : UserSpace}
  {RB : RBTrees}.

(** C26: [munmap] removes exactly the given range, rounded up to pages, from the
    address map of the calling process. It succeeds whenever the arguments make
    a range, leaves the areas of other processes and every other address (its
    permissions, owner, file and file offset) as they were, keeps the areas
    and the free list a partition of the chunk, and does not change the set of
    committed pages. Otherwise it fails with [EINVAL] and changes nothing. On any
    platform: the call panics only if an instruction, a host call or a file
    operation can fail. *)
Theorem ChunkManager_munmap_spec (pid addr size : Z) (cm : ChunkManager) (w : World BV PL) :
  pid <> 0 -> is_u64 addr -> cm_wf (w_pcm w) cm ->
  match VMRange_new addr (addr +64 align_up size PAGE_SIZE) with
  | Ok r => if size =? 0 then ChunkManager_munmap pid addr size (cm, w) = (Err EINVAL, (cm, w))
            else unmaps_range pid r (ChunkManager_munmap pid addr size) cm w
                 \/ ((ChunkManager_munmap pid addr size (cm, w)).1 = Panic /\ platform_fault)
  | _ => ChunkManager_munmap pid addr size (cm, w) = (Err EINVAL, (cm, w))
  end.
Proof.
  intros Hpid Ha Hcm. pose proof (munmap_reliable (EN := total_enclave EN) pid addr size cm w Hpid Ha Hcm) as H.
  unfold ChunkManager_munmap at 1 4. unfold ChunkManager_munmap at 1 3 in H.
  destruct (VMRange_new_cases addr (addr +64 align_up size PAGE_SIZE)) as [Hn|[r Hn]]; rewrite Hn in *.
  { by destruct (size =? 0). }
  destruct (size =? 0); [done|].
  destruct (chunk_munmap_agrees pid addr size (cm, w)) as [Heq|Hp]; [left|by right].
  unfold unmaps_range in *. by rewrite Heq.
Qed.

End any_platform.
