(* ===== verification/ChunkProtect.v ===== *)
(** Changing the permissions of a range of a chunk: [mprotect] splits areas but
    is an update of the address map. *)

From S2P Require Import Prelude Errno Effects External VMRange VMMapOptions VMFreeSpace VMRemap.
From S2P Require Import VMEpc Platform PageTracker VMArea VMAreaFacts ChunkManager PlatformChunk ChunkManagerFacts.

Section mprotect.
Context {BF : Bitflags} {BV : BitVecs} {PL : Platform} {EN : Enclave} {REL : ReliableEnclave} {US : UserSpace}
  {RB : RBTrees}.

Abbreviation vmas cm := (rb_iter (cm_vmas cm)) (only parsing).
Abbreviation keeps g g' := (commits g g' (fun _ => false)) (only parsing).

Lemma mem_only_modify_permissions g v cur new :
  area_wf g v -> mem_only (VMArea_modify_permissions_for_committed_pages v cur new).
Proof.
  intros Hv. unfold VMArea_modify_permissions_for_committed_pages.
  apply mem_only_if; [apply mem_only_modify_permission_force|].
  unfold VMArea_is_partially_committed, VMArea_pages.
  destruct (va_pages v) as [t|] eqn:Hp; [|apply mem_only_ok].
  pose proof (aw_pages _ _ Hv) as Hpg. rewrite Hp in Hpg. destruct Hpg as (_ & [Hwf _ _] & Hrt & _).
  destruct (get_ranges_subranges t true Hwf) as (l & Hl & _); [rewrite Hrt; apply Hv|].
  apply mem_only_if; [|apply mem_only_ok]. intros w.
  rewrite (bind_ok _ _ _ t w) by done. rewrite (bind_ok _ _ _ l w) by (unfold lift; by rewrite Hl).
  apply mem_only_for_each. intros. apply mem_only_modify_permission_force.
Qed.

Lemma cm_wf_keeps g g' cm : cm_wf g cm -> keeps g g' -> cm_wf g' cm.
Proof.
  intros [] Hk. constructor; auto. destruct cw_ends as (s & l & e & Hl & Hs & He & Hw & Ho).
  exists s, l, e. split_and!; auto. eapply List.Forall_impl; [|exact Hw].
  intros v Hv. by apply (area_wf_commits _ _ _ _ Hv Hk).
Qed.

Lemma area_wf_keeps g g' (v : VMArea) : area_wf g v -> keeps g g' -> area_wf g' v.
Proof. intros Hv Hk. by apply (area_wf_commits _ _ _ _ Hv Hk). Qed.

(** What is mapped at [a] after the process [pid] protected [r] with [perms]. *)
Definition protect_at (pid : Z) (r : VMRange) (perms : VMPerms) (a : Z) (c : option Cell) : option Cell :=
  match c with
  | Some (p, acc, f) =>
      if bool_decide (acc = Private pid) && bool_decide (a ∈ r) then Some (perms, acc, f)
      else Some (p, acc, f)
  | None => None
  end.

Lemma protect_at_outside pid r perms a c : ~ a ∈ r -> protect_at pid r perms a c = c.
Proof.
  intros Ha. destruct c as [[[p acc] f]|]; [|done]. simpl.
  by rewrite (bool_decide_eq_false_2 (a ∈ r)), andb_false_r.
Qed.

Lemma protect_at_idem pid r perms a c :
  protect_at pid r perms a (protect_at pid r perms a c) = protect_at pid r perms a c.
Proof. destruct c as [[[p acc] f]|]; [|done]. simpl. case_match eqn:E; simpl; by rewrite E. Qed.

(** [p] is a part of [v] with the permissions that protecting [r] gives it. *)
Record protected_part (g : PageChunkManager) (v : VMArea) (r : VMRange) (new : VMPerms) (p : VMArea) : Prop := {
  pp_wf : area_wf g p;
  pp_access : va_access p = va_access v;
  pp_file : forall a, file_pos p a = file_pos v a;
  pp_perms : forall a, a ∈ va_range p -> va_perms p = if bool_decide (a ∈ r) then new else va_perms v;
}.

(** The parts [ps] of [v] in place of [v]. *)
Record tiling (g : PageChunkManager) (v : VMArea) (r : VMRange) (new : VMPerms) (ps : list VMArea) : Prop := {
  ti_parts : Forall (protected_part g v r new) ps;
  ti_ordered : areas_ordered (vm_start (va_range v)) ps (vm_end (va_range v));
  ti_in : forall a, in_areas a ps <-> a ∈ va_range v;
  ti_size : areas_size ps = vm_end (va_range v) - vm_start (va_range v);
}.

Lemma view_tiling g v r new ps a pid :
  tiling g v r new ps -> va_access v = Private pid -> a ∈ va_range v ->
  view ps a = protect_at pid r new a (Some (cell v a)).
Proof.
  intros Ht Hacc Ha. apply (ti_in _ _ _ _ _ Ht) in Ha. unfold view.
  destruct (area_at ps a) as [p|] eqn:Hat; [|by apply area_at_None in Hat].
  apply area_at_Some in Hat as [Hp Hin]. pose proof (ti_parts _ _ _ _ _ Ht) as Hparts.
  rewrite List.Forall_forall in Hparts. destruct (Hparts p) as [_ H1 H2 H3]; [by apply list_elem_of_In|].
  simpl. unfold cell. rewrite H1, H2, (H3 a Hin), Hacc.
  rewrite (bool_decide_eq_true_2 (Private pid = _)) by done. simpl. by case_bool_decide.
Qed.

Lemma cm_wf_tiling g cm pre v suf r new ps t :
  cm_wf g cm -> vmas cm = pre ++ v :: suf -> owned v -> tiling g v r new ps ->
  rb_iter t = pre ++ ps ++ suf -> cm_wf g (with_vmas cm t).
Proof.
  intros Hcm Hv (pid & Hacc & Hne) Ht Hit.
  eapply (cm_wf_replace g cm pre v suf ps); eauto; try apply Ht.
  - by exists pid.
  - eapply List.Forall_impl; [|apply Ht]. by intros p [].
  - eapply List.Forall_impl; [|apply Ht]. intros p []. exists pid. split; [congruence|done].
  - apply Hcm.
  - intros a. rewrite (ti_in _ _ _ _ _ Ht). tauto.
  - rewrite (ti_size _ _ _ _ _ Ht). lia.
Qed.

(** Replacing an area by a tiling updates the address map. *)
Lemma view_tiled g cm pre v suf r new ps t pid a :
  cm_wf g cm -> vmas cm = pre ++ v :: suf -> va_access v = Private pid -> tiling g v r new ps ->
  rb_iter t = pre ++ ps ++ suf ->
  view (rb_iter t) a = if bool_decide (a ∈ va_range v) then protect_at pid r new a (view (vmas cm) a)
                       else view (vmas cm) a.
Proof.
  intros Hcm Hv Hacc Ht Hit. pose proof (cw_ordered _ _ Hcm) as Hord. rewrite Hv in Hord.
  rewrite Hit, Hv, (view_replace _ _ _ _ _ _ _ Hord (ti_ordered _ _ _ _ _ Ht)).
  case_bool_decide; [|done]. rewrite (view_middle _ _ _ _ _ _ Hord) by done. by eapply view_tiling.
Qed.

(** A part inside the range, made with the new permissions. *)
Lemma inherits_protected g v r new pid r' :
  area_wf g v -> va_access v = Private pid -> VMRange_wf r' -> vm_start r' < vm_end r' ->
  VMRange_is_superset_of (va_range v) r' = true -> VMRange_is_superset_of r r' = true ->
  exists p, VMArea_inherits_file_from v r' new (Private pid) = Ok p
    /\ protected_part g v r new p /\ va_range p = r' /\ va_perms p = new.
Proof.
  intros Hv Hacc Hr' Hne Hsv Hsr.
  destruct (inherits_file_from_spec g v r' new (Private pid)) as (p & Hrun & Hp & Hpr & Hpp & Hpa & _ & Hpf); auto.
  exists p. split_and!; auto. constructor; auto; [congruence|]. intros a Ha.
  rewrite bool_decide_eq_true_2; [done|]. unfold VMRange_is_superset_of in Hsr. boolprop.
  rewrite Hpr in Ha. vmrange_unfold. lia.
Qed.

(** A part outside the range, with the old permissions. *)
Lemma part_protected g v r new r' p :
  area_part g v r' p -> vm_end r' <= vm_start r \/ vm_end r <= vm_start r' -> protected_part g v r new p.
Proof.
  intros (Hp & Hpr & Hpp & Hpa & Hpf) Hd. constructor; auto. intros a Ha.
  rewrite bool_decide_eq_false_2; [done|]. rewrite Hpr in Ha. vmrange_unfold. lia.
Qed.

Lemma protected_part_keeps g g' v r new p : protected_part g v r new p -> keeps g g' -> protected_part g' v r new p.
Proof. intros [] Hk. constructor; auto. by eapply area_wf_keeps. Qed.

(** Two parts that meet. *)
Lemma tiling_two g v r new p q m :
  protected_part g v r new p -> protected_part g v r new q ->
  va_range p = mkVMRange (vm_start (va_range v)) m -> va_range q = mkVMRange m (vm_end (va_range v)) ->
  tiling g v r new [p; q].
Proof.
  intros Hp Hq Hpr Hqr. pose proof (aw_nonempty _ _ (pp_wf _ _ _ _ _ Hp)) as H1.
  pose proof (aw_nonempty _ _ (pp_wf _ _ _ _ _ Hq)) as H2. rewrite Hpr in H1. rewrite Hqr in H2. simpl in H1, H2.
  constructor; [by rewrite !Forall_cons_iff| | |]; simpl; rewrite ?Hpr, ?Hqr; simpl; try lia.
  intros a. rewrite !in_areas_cons, in_areas_nil, Hpr, Hqr. vmrange_unfold. lia.
Qed.

Lemma tiling_three g v r new p q u m n :
  protected_part g v r new p -> protected_part g v r new q -> protected_part g v r new u ->
  va_range p = mkVMRange (vm_start (va_range v)) m -> va_range q = mkVMRange m n ->
  va_range u = mkVMRange n (vm_end (va_range v)) -> tiling g v r new [p; q; u].
Proof.
  intros Hp Hq Hu Hpr Hqr Hur. pose proof (aw_nonempty _ _ (pp_wf _ _ _ _ _ Hp)) as H1.
  pose proof (aw_nonempty _ _ (pp_wf _ _ _ _ _ Hq)) as H2.
  pose proof (aw_nonempty _ _ (pp_wf _ _ _ _ _ Hu)) as H3.
  rewrite Hpr in H1. rewrite Hqr in H2. rewrite Hur in H3. simpl in H1, H2, H3.
  constructor; [by rewrite !Forall_cons_iff| | |]; simpl; rewrite ?Hpr, ?Hqr, ?Hur; simpl; try lia.
  intros a. rewrite !in_areas_cons, in_areas_nil, Hpr, Hqr, Hur. vmrange_unfold. lia.
Qed.

(** Where the loop goes on after a split. *)
Definition split_next (pre ps : list VMArea) (v : VMArea) (range : VMRange) (new : VMPerms)
    (next : option nat) : Prop :=
  match next with
  | None => vm_end range < vm_end (va_range v)
  | Some k => exists j, k = (length pre + j)%nat /\ (j <= length ps)%nat
              /\ (length (drop j ps) <= 1)%nat /\ Forall (fun p => va_perms p = new) (drop j ps)
  end.

Definition splits (pid : Z) (range : VMRange) (new : VMPerms) cm (w : World BV PL) pre v i suf : Prop :=
  exists next t w' ps,
    mprotect_split pid range new v i (length pre) (cm, w) = (Ok next, (with_vmas cm t, w'))
    /\ keeps (w_pcm w) (w_pcm w') /\ tiling (w_pcm w') v range new ps
    /\ rb_iter t = pre ++ ps ++ suf /\ split_next pre ps v range new next.

(** Protecting the middle of an area. *)
Lemma mprotect_split_middle pid range new cm (w : World BV PL) pre v i suf p q :
  pcm_wf (w_pcm w) -> cm_wf (w_pcm w) cm -> vmas cm = pre ++ v :: suf -> owned v ->
  va_access v = Private pid -> VMRange_wf range -> va_range i = range ->
  vm_start (va_range v) < vm_start range -> vm_start range < vm_end range ->
  vm_end range < vm_end (va_range v) -> VMArea_subtract v (va_range i) = Ok [p; q] ->
  splits pid range new cm w pre v i suf.
Proof.
  intros Hg Hcm Hv Ho Hacc Hr Hi Hlt Hne Hgt Hsub.
  destruct (owned_middle _ _ _ _ _ Hcm Hv Ho) as [Hvw _]. destruct (aw_range _ _ Hvw), (Hr).
  destruct (inherits_protected (w_pcm w) v range new pid range) as (n & Hn & Hnp & Hnr & Hnn); auto;
    [unfold VMRange_is_superset_of; simpl; lia..|].
  destruct (mem_only_modify_permissions (w_pcm w) n (va_perms v) new (pp_wf _ _ _ _ _ Hnp) w)
    as ([] & w1 & Hm & Hw1).
  set (r2 := mkVMRange (vm_end range) (vm_end (va_range v))).
  assert (Hnew : VMRange_new (vm_end range) (vm_end (va_range v)) = Ok r2).
  { unfold VMRange_new. case_if; boolprop; [|done]. unfold page_aligned in *. lia. }
  destruct (inherits_part (w_pcm w) v r2) as (n2 & Hn2 & Hn2p); auto;
    [constructor; simpl; auto; lia|unfold VMRange_is_superset_of; simpl; lia|].
  rewrite <- Hw1 in Hg. assert (Hvw1 : area_wf (w_pcm w1) v) by (by rewrite Hw1).
  destruct (set_end_part w1 v (vm_start range) Hg Hvw1) as (v' & w2 & Hend & _ & Hk & Hv'p); auto; [lia|].
  rewrite Hw1 in Hk. assert (Ht : tiling (w_pcm w2) v range new [v'; n; n2]).
  { apply (tiling_three _ _ _ _ _ _ _ (vm_start range) (vm_end range));
      [..|by apply Hv'p|by destruct range|apply Hn2p].
    - eapply part_protected; [exact Hv'p|]. simpl. lia.
    - by eapply protected_part_keeps.
    - eapply protected_part_keeps; [|exact Hk]. eapply part_protected; [exact Hn2p|]. simpl. lia. }
  pose proof (cw_ordered _ _ Hcm) as Hord. rewrite Hv in Hord.
  pose proof (areas_ordered_replace _ _ _ _ _ _ Hord (ti_ordered _ _ _ _ _ Ht)) as Hord3.
  assert (Hne2 : vm_start (va_range n) < vm_end (va_range n)) by (by rewrite Hnr).
  pose proof (ti_parts _ _ _ _ _ Ht) as Hps. rewrite !Forall_cons_iff in Hps.
  assert (Hord2 : areas_ordered (vm_start (cm_range cm)) (pre ++ [v'; n] ++ suf) (vm_end (cm_range cm))).
  { pose proof (areas_ordered_replace (vm_start (cm_range cm)) (pre ++ [v'; n]) n2 suf (vm_end (cm_range cm)) []) as H.
    rewrite <- !app_assoc in H. apply H; [done|]. simpl. pose proof (aw_nonempty _ _ (pp_wf _ _ _ _ _ (proj1 (proj2 (proj2 Hps))))). lia. }
  destruct (cursor_split_after cm w2 pre v suf _ _ v' n Hv Hord2 Hne2) as (t1 & t2 & Hc1 & Hc2 & Ht2).
  destruct (cursor_insert_at (with_vmas cm t2) w2 (length pre) (pre ++ [v'; n]) suf
    (vm_start (cm_range cm)) (vm_end (cm_range cm)) n2)
    as (t3 & Hc3 & Ht3); [simpl; by rewrite Ht2, <- app_assoc|rewrite <- app_assoc; exact Hord3|by apply Hps|].
  exists None, t3, w2, [v'; n; n2]. split_and!; auto; [|by rewrite Ht3, <- app_assoc].
  unfold mprotect_split. rewrite Hsub, (bind_ok _ _ _ [p; q] (cm, w)) by done.
  rewrite Hn, (bind_ok _ _ _ n (cm, w)) by done. rewrite (bind_ok _ _ _ tt (cm, w1)) by by apply on_world_ok.
  rewrite Hnew, (bind_ok _ _ _ r2 (cm, w1)) by done. rewrite <- Hacc, Hn2, (bind_ok _ _ _ n2 (cm, w1)) by done.
  rewrite (bind_ok _ _ _ v' (cm, w2)) by by apply on_world_ok.
  rewrite (bind_ok _ _ _ _ _ Hc1), (bind_ok _ _ _ _ _ Hc2), (bind_ok _ _ _ _ _ Hc3). done.
Qed.

(** Protecting the upper part of an area. *)
Lemma mprotect_split_right pid range new cm (w : World BV PL) pre v i suf p :
  pcm_wf (w_pcm w) -> cm_wf (w_pcm w) cm -> vmas cm = pre ++ v :: suf -> owned v ->
  va_access v = Private pid -> area_wf (w_pcm w) i -> VMRange_is_superset_of range (va_range i) = true ->
  vm_start (va_range i) = vm_start range ->
  vm_start (va_range v) < vm_start (va_range i) -> vm_end (va_range i) = vm_end (va_range v) ->
  va_range p = mkVMRange (vm_start (va_range v)) (vm_start (va_range i)) ->
  VMArea_subtract v (va_range i) = Ok [p] ->
  splits pid range new cm w pre v i suf.
Proof.
  intros Hg Hcm Hv Ho Hacc Hi Hsr His Hlt Hend Hp Hsub.
  destruct (owned_middle _ _ _ _ _ Hcm Hv Ho) as [Hvw _]. destruct (aw_range _ _ Hvw), (aw_range _ _ Hi).
  pose proof (aw_nonempty _ _ Hi).
  destruct (inherits_protected (w_pcm w) v range new pid (va_range i)) as (n & Hn & Hnp & Hnr & Hnn); auto;
    [apply Hi|unfold VMRange_is_superset_of; lia|].
  destruct (mem_only_modify_permissions (w_pcm w) n (va_perms v) new (pp_wf _ _ _ _ _ Hnp) w)
    as ([] & w1 & Hm & Hw1).
  rewrite <- Hw1 in Hg. assert (Hvw1 : area_wf (w_pcm w1) v) by (by rewrite Hw1).
  destruct (set_end_part w1 v (vm_start (va_range i)) Hg Hvw1) as (v' & w2 & Hse & _ & Hk & Hv'p); auto; [lia|].
  rewrite Hw1 in Hk. assert (Ht : tiling (w_pcm w2) v range new [v'; n]).
  { eapply tiling_two; [| |by apply Hv'p|].
    - eapply part_protected; [exact Hv'p|]. simpl. lia.
    - by eapply protected_part_keeps.
    - rewrite Hnr, <- Hend. by destruct (va_range i). }
  pose proof (cw_ordered _ _ Hcm) as Hord. rewrite Hv in Hord.
  pose proof (areas_ordered_replace _ _ _ _ _ _ Hord (ti_ordered _ _ _ _ _ Ht)) as Hord2.
  destruct (cursor_split_after cm w2 pre v suf _ _ v' n Hv Hord2) as (t1 & t2 & Hc1 & Hc2 & Ht2);
    [by rewrite Hnr|].
  exists (Some (S (length pre))), t2, w2, [v'; n]. split_and!; auto; cycle 1.
  { exists 1%nat. split_and!; simpl; [lia..|]. by repeat constructor. }
  unfold mprotect_split. rewrite Hsub, (bind_ok _ _ _ [p] (cm, w)) by done.
  rewrite Hn, (bind_ok _ _ _ n (cm, w)) by done. rewrite (bind_ok _ _ _ tt (cm, w1)) by by apply on_world_ok.
  rewrite Hp. cbn [vm_start vm_end]. rewrite Z.eqb_refl.
  rewrite (bind_ok _ _ _ v' (cm, w2)) by by apply on_world_ok.
  by rewrite (bind_ok _ _ _ _ _ Hc1), (bind_ok _ _ _ _ _ Hc2).
Qed.

(** Protecting the lower part of an area. *)
Lemma mprotect_split_left pid range new cm (w : World BV PL) pre v i suf p :
  pcm_wf (w_pcm w) -> cm_wf (w_pcm w) cm -> vmas cm = pre ++ v :: suf -> owned v ->
  va_access v = Private pid -> area_wf (w_pcm w) i -> VMRange_is_superset_of range (va_range i) = true ->
  vm_end (va_range i) = vm_end range ->
  vm_start (va_range v) = vm_start (va_range i) -> vm_end (va_range i) < vm_end (va_range v) ->
  va_range p = mkVMRange (vm_end (va_range i)) (vm_end (va_range v)) ->
  VMArea_subtract v (va_range i) = Ok [p] ->
  splits pid range new cm w pre v i suf.
Proof.
  intros Hg Hcm Hv Ho Hacc Hi Hsr Hie Hst Hlt Hp Hsub.
  destruct (owned_middle _ _ _ _ _ Hcm Hv Ho) as [Hvw _]. destruct (aw_range _ _ Hvw), (aw_range _ _ Hi).
  pose proof (aw_nonempty _ _ Hi).
  destruct (inherits_protected (w_pcm w) v range new pid (va_range i)) as (n & Hn & Hnp & Hnr & Hnn); auto;
    [apply Hi|unfold VMRange_is_superset_of; lia|].
  destruct (mem_only_modify_permissions (w_pcm w) n (va_perms v) new (pp_wf _ _ _ _ _ Hnp) w)
    as ([] & w1 & Hm & Hw1).
  assert (Hvw1 : area_wf (w_pcm w1) v) by (by rewrite Hw1).
  destruct (set_start_part w1 v (vm_end (va_range i)) Hvw1) as (v' & Hss & Hv'p); auto; [lia|].
  assert (Hk : keeps (w_pcm w) (w_pcm w1)) by (rewrite Hw1; by apply commits_refl).
  assert (Ht : tiling (w_pcm w1) v range new [n; v']).
  { eapply tiling_two; [| | |by apply Hv'p].
    - by eapply protected_part_keeps.
    - eapply part_protected; [exact Hv'p|]. simpl. lia.
    - rewrite Hnr, Hst. by destruct (va_range i). }
  pose proof (cw_ordered _ _ Hcm) as Hord. rewrite Hv in Hord.
  pose proof (areas_ordered_replace _ _ _ _ _ _ Hord (ti_ordered _ _ _ _ _ Ht)) as Hord2.
  destruct (cursor_replace_middle cm w1 pre v suf v' Hv) as (t1 & Hc1 & Ht1).
  destruct (cursor_insert_at (with_vmas cm t1) w1 (length pre) pre (v' :: suf) _ _ n Ht1 Hord2)
    as (t2 & Hc2 & Ht2); [by rewrite Hnr|]. rewrite Nat.leb_refl in Hc2.
  exists (Some (S (S (length pre)))), t2, w1, [n; v']. split_and!; auto; cycle 1.
  { exists 2%nat. split_and!; simpl; [lia..|]. by repeat constructor. }
  unfold mprotect_split. rewrite Hsub, (bind_ok _ _ _ [p] (cm, w)) by done.
  rewrite Hn, (bind_ok _ _ _ n (cm, w)) by done. rewrite (bind_ok _ _ _ tt (cm, w1)) by by apply on_world_ok.
  rewrite Hp. cbn [vm_start vm_end]. destruct (Z.eqb_spec (vm_end (va_range i)) (vm_start (va_range v))); [lia|].
  rewrite (bind_ok _ _ _ v' (cm, w1)) by by apply on_world_ok.
  by rewrite (bind_ok _ _ _ _ _ Hc1), (bind_ok _ _ _ _ _ Hc2).
Qed.

Lemma intersect_range g v range i :
  area_wf g v -> VMRange_wf range -> VMArea_intersect v range = Ok (Some i) ->
  va_range i = mkVMRange (Z.max (vm_start (va_range v)) (vm_start range))
                         (Z.min (vm_end (va_range v)) (vm_end range)).
Proof.
  intros Hv Hr Hi. destruct (VMArea_intersect_cases _ _ _ Hv Hr) as (i' & Hi' & Hir).
  rewrite Hi in Hi'. injection Hi' as <-. simpl in Hir. symmetry in Hir.
  by apply VMRange_intersect_Some in Hir as [-> _].
Qed.

Lemma mprotect_split_spec pid range new cm (w : World BV PL) pre v i suf :
  pcm_wf (w_pcm w) -> cm_wf (w_pcm w) cm -> vmas cm = pre ++ v :: suf -> owned v ->
  va_access v = Private pid -> VMRange_wf range -> VMArea_intersect v range = Ok (Some i) ->
  va_range i <> va_range v -> splits pid range new cm w pre v i suf.
Proof.
  intros Hg Hcm Hv Ho Hacc Hr Hi Hneq.
  destruct (owned_middle _ _ _ _ _ Hcm Hv Ho) as [Hvw _].
  destruct (area_cut _ _ _ _ Hvw Hr Hi) as ((Hiw & _) & _ & Hs & He & ps & Hsub & Hps).
  pose proof (intersect_range _ _ _ _ Hvw Hr Hi) as Hir.
  pose proof (aw_nonempty _ _ Hiw) as Hine. pose proof (ar_ranges _ _ _ _ Hps) as Hrs.
  assert (Hsr : VMRange_is_superset_of range (va_range i) = true)
    by (unfold VMRange_is_superset_of; rewrite Hir; simpl; lia).
  revert Hrs. destruct (Z.ltb_spec (vm_start (va_range v)) (vm_start (va_range i))) as [H1|H1],
    (Z.ltb_spec (vm_end (va_range i)) (vm_end (va_range v))) as [H2|H2];
    destruct ps as [|p [|q [|]]]; try done; intros [=].
  - assert (va_range i = range) as Hrr
      by (rewrite Hir in *; simpl in *; destruct range; simpl in *; f_equal; lia).
    eapply mprotect_split_middle; eauto; rewrite <- Hrr; lia.
  - eapply mprotect_split_right; eauto; try lia. rewrite Hir in *. simpl in *. lia.
  - eapply mprotect_split_left; eauto; try lia. rewrite Hir in *. simpl in *. lia.
  - exfalso. apply Hneq. symmetry. by apply (ar_empty _ _ _ _ Hps).
Qed.

(** Why protecting is refused at an address: a file that is not writable would
    be written back. *)
Definition denied (pid : Z) (range : VMRange) (new : VMPerms) (b : Z) (c : option Cell) : Prop :=
  b ∈ range /\ VMPerms_can_write new = true
  /\ exists p file off, c = Some (p, Private pid, Some (file, off, true)) /\ file_writable file = false
                       /\ p <> new.

(** An outcome in which the address map is updated on [rest], all of it or up to
    a refusal. *)
Definition protects (pid : Z) (range : VMRange) (new : VMPerms) cm (w : World BV PL)
    (rest : list VMArea) (out : Result unit * CState) : Prop :=
  let '(res, (cm', w')) := out in
  keeps (w_pcm w) (w_pcm w') /\ cm_wf (w_pcm w') cm' /\ cm_range cm' = cm_range cm
  /\ match res with
     | Ok _ => forall a, view (vmas cm') a
                         = updated_in rest (protect_at pid range new) (view (vmas cm)) a
     | Err e => e = EACCES /\ exists b, in_areas b rest /\ denied pid range new b (view (vmas cm) b)
                  /\ forall a, view (vmas cm') a
                      = if a <? b then updated_in rest (protect_at pid range new) (view (vmas cm)) a
                        else view (vmas cm) a
     | Panic => False
     end.

Definition protect_weight (new : VMPerms) (l : list VMArea) : nat :=
  foldr (fun v n => ((if (va_perms v =? new)%Z then 1 else 2) + n)%nat) 0%nat l.

Lemma protect_weight_app new l1 l2 :
  protect_weight new (l1 ++ l2) = (protect_weight new l1 + protect_weight new l2)%nat.
Proof. induction l1 as [|v l1 IH]; simpl; [done|]. rewrite IH. lia. Qed.

Lemma protect_weight_le new l : (protect_weight new l <= 2 * length l)%nat.
Proof. induction l as [|v l IH]; simpl; [done|]. case_match; lia. Qed.

Lemma protect_weight_done new l :
  Forall (fun p => va_perms p = new) l -> protect_weight new l = length l.
Proof. induction 1 as [|v l Hv _ IH]; simpl; [done|]. by rewrite Hv, Z.eqb_refl, IH. Qed.

Definition protects_from (pid : Z) (range : VMRange) (new : VMPerms) (fuel : nat) : Prop :=
  forall cm (w : World BV PL) pre rest,
  pcm_wf (w_pcm w) -> cm_wf (w_pcm w) cm -> vmas cm = pre ++ rest -> (protect_weight new rest < fuel)%nat ->
  protects pid range new cm w rest (mprotect_loop pid range new fuel (length pre) (cm, w)).

Lemma mprotect_skip pid range new fuel cm (w : World BV PL) pre v suf :
  protects_from pid range new fuel -> pcm_wf (w_pcm w) -> cm_wf (w_pcm w) cm ->
  vmas cm = pre ++ v :: suf -> (protect_weight new (v :: suf) < S fuel)%nat ->
  (forall a, a ∈ va_range v -> protect_at pid range new a (view (vmas cm) a) = view (vmas cm) a) ->
  protects pid range new cm w (v :: suf) (mprotect_loop pid range new fuel (S (length pre)) (cm, w)).
Proof.
  intros IH Hg Hcm Hv Hfuel Hv'. pose proof (cw_ordered _ _ Hcm) as Hord. rewrite Hv in Hord.
  assert (Hrun : protects pid range new cm w suf (mprotect_loop pid range new fuel (S (length pre)) (cm, w))).
  { rewrite <- (Nat.add_1_r (length pre)). change 1%nat with (length [v]). rewrite <- length_app.
    apply IH; auto; [by rewrite <- app_assoc|]. simpl in Hfuel. case_match; lia. }
  assert (Hu : forall a, updated_in (v :: suf) (protect_at pid range new) (view (vmas cm)) a
    = updated_in suf (protect_at pid range new) (view (vmas cm)) a).
  { intros a. apply updated_in_skip. intros Ha.
    split; [by apply (areas_ordered_disjoint _ _ _ _ _ a Hord)|by apply Hv']. }
  destruct (mprotect_loop _ _ _ _ _ _) as [res [cm' w']]. destruct Hrun as (Hk & Hcm' & Hrg & Hres).
  split_and!; auto. destruct res as [u| |]; [|destruct Hres as (-> & b & Hb & Hd & Hview)|done].
  - intros a. by rewrite Hu.
  - split; [done|]. exists b. rewrite in_areas_cons. split_and!; auto. intros a. by rewrite Hu.
Qed.

(** What remains to do after an area was replaced by its tiling. *)
Lemma protects_step pid range new cm (w w1 : World BV PL) pre v suf ps j t out :
  cm_wf (w_pcm w) cm -> vmas cm = pre ++ v :: suf -> va_access v = Private pid ->
  keeps (w_pcm w) (w_pcm w1) -> tiling (w_pcm w1) v range new ps -> rb_iter t = pre ++ ps ++ suf ->
  protects pid range new (with_vmas cm t) w1 (drop j ps ++ suf) out ->
  protects pid range new cm w (v :: suf) out.
Proof.
  intros Hcm Hv Hacc Hk Ht Hit Hout. pose proof (cw_ordered _ _ Hcm) as Hord. rewrite Hv in Hord.
  pose proof (fun a => view_tiled _ _ _ _ _ _ _ _ _ _ a (cm_wf_keeps _ _ _ Hcm Hk) Hv Hacc Ht Hit) as Hview1.
  assert (Hdrop : forall a, in_areas a (drop j ps) -> a ∈ va_range v).
  { intros a Ha. apply (ti_in _ _ _ _ _ Ht). rewrite <- (take_drop j ps), in_areas_app. by right. }
  assert (Hu : forall a, updated_in (drop j ps ++ suf) (protect_at pid range new) (view (rb_iter t)) a
    = updated_in (v :: suf) (protect_at pid range new) (view (vmas cm)) a).
  { intros a. apply updated_in_step; auto; intros Ha; rewrite Hview1.
    - rewrite bool_decide_eq_true_2 by done. split; [done|apply protect_at_idem].
    - by rewrite bool_decide_eq_false_2. }
  destruct out as [res [cm' w']]. destruct Hout as (Hk' & Hcm' & Hrg & Hres). cbn [with_vmas cm_range cm_vmas] in *.
  split_and!; auto.
  { eapply commits_ext; [|exact (commits_trans _ _ _ _ _ Hk Hk')]. done. }
  destruct res as [u| |]; [intros a; by rewrite Hres|destruct Hres as (-> & b & Hb & Hd & Hview)|done].
  destruct Hd as (Hbr & Hcw & p & file & off & Hc & Hfw & Hp).
  assert (Hbv : ~ b ∈ va_range v).
  { intros Hbv. rewrite Hview1, bool_decide_eq_true_2 in Hc by done.
    rewrite Hv, (view_middle _ _ _ _ _ _ Hord) in Hc by done. unfold protect_at, cell in Hc.
    rewrite Hacc, !bool_decide_eq_true_2 in Hc by done. simpl in Hc. congruence. }
  rewrite Hview1, bool_decide_eq_false_2 in Hc by done.
  assert (Hbs : in_areas b suf) by (apply in_areas_app in Hb as [?|?]; [by apply Hdrop in H|done]).
  split; [done|]. exists b. split_and!; [by apply in_areas_cons; right|split_and!; eauto 10|].
  intros a. rewrite Hview, Hu. destruct (Z.ltb_spec a b); [done|]. rewrite Hview1.
  apply areas_ordered_around in Hord as (_ & Hsuf & _). pose proof (areas_ordered_bound _ _ _ _ Hsuf Hbs).
  rewrite bool_decide_eq_false_2; [done|]. vmrange_unfold. lia.
Qed.

(** The whole area is protected. *)
Lemma tiling_whole g v range new :
  area_wf g v -> VMRange_is_superset_of range (va_range v) = true ->
  tiling g v range new [VMArea_set_perms v new].
Proof.
  intros Hv Hs. unfold VMRange_is_superset_of in Hs. boolprop. pose proof (aw_nonempty _ _ Hv).
  constructor; simpl; try lia.
  - constructor; [|done]. constructor; auto.
    + by destruct Hv.
    + intros a Ha. rewrite bool_decide_eq_true_2; [done|]. simpl in Ha. vmrange_unfold. lia.
  - intros a. rewrite in_areas_cons, in_areas_nil. simpl. tauto.
Qed.

Lemma mprotect_whole pid range new fuel cm (w : World BV PL) pre v suf :
  protects_from pid range new fuel -> pcm_wf (w_pcm w) -> cm_wf (w_pcm w) cm ->
  vmas cm = pre ++ v :: suf -> (protect_weight new (v :: suf) < S fuel)%nat -> owned v ->
  va_access v = Private pid -> VMRange_is_superset_of range (va_range v) = true ->
  protects pid range new cm w (v :: suf)
    ((_ ← on_world (VMArea_modify_permissions_for_committed_pages (VMArea_set_perms v new)
                      (va_perms v) new);
      _ ← cursor_replace_with (length pre) (VMArea_set_perms v new);
      mprotect_loop pid range new fuel (S (length pre))) (cm, w)).
Proof.
  intros IH Hg Hcm Hv Hfuel Ho Hacc Hs. destruct (owned_middle _ _ _ _ _ Hcm Hv Ho) as [Hvw _].
  pose proof (tiling_whole _ _ _ new Hvw Hs) as Ht.
  assert (Hpw : area_wf (w_pcm w) (VMArea_set_perms v new)) by (by destruct Hvw).
  destruct (mem_only_modify_permissions _ _ (va_perms v) new Hpw w) as ([] & w1 & Hm & Hw1).
  destruct (cursor_replace_middle cm w1 pre v suf (VMArea_set_perms v new) Hv) as (t & Hc & Hit).
  rewrite (bind_ok _ _ _ tt (cm, w1)) by by apply on_world_ok. rewrite (bind_ok _ _ _ _ _ Hc).
  eapply (protects_step pid range new cm w w1 pre v suf [VMArea_set_perms v new] 1 t); auto.
  - rewrite Hw1. by apply commits_refl.
  - by rewrite Hw1.
  - rewrite <- (Nat.add_1_r (length pre)).
    change 1%nat with (length [VMArea_set_perms v new]) at 2. rewrite <- length_app.
    apply IH; rewrite ?Hw1; auto.
    + by eapply (cm_wf_tiling _ cm pre v suf range new).
    + simpl. by rewrite Hit, <- app_assoc.
    + simpl in *. case_match; lia.
Qed.

Lemma mprotect_part pid range new fuel cm (w : World BV PL) pre v i suf :
  protects_from pid range new fuel -> pcm_wf (w_pcm w) -> cm_wf (w_pcm w) cm ->
  vmas cm = pre ++ v :: suf -> (protect_weight new (v :: suf) < S fuel)%nat -> owned v ->
  va_access v = Private pid -> va_perms v <> new -> VMRange_wf range ->
  VMArea_intersect v range = Ok (Some i) -> va_range i <> va_range v ->
  protects pid range new cm w (v :: suf)
    ((next ← mprotect_split pid range new v i (length pre);
      match next with Some c => mprotect_loop pid range new fuel c | None => ok tt end) (cm, w)).
Proof.
  intros IH Hg Hcm Hv Hfuel Ho Hacc Hp Hr Hi Hneq.
  destruct (mprotect_split_spec pid range new cm w pre v i suf) as (next & t & w1 & ps & Hrun & Hk & Ht & Hit & Hnext); auto.
  rewrite (bind_ok _ _ _ _ _ Hrun).
  pose proof (cm_wf_tiling _ _ _ _ _ _ _ _ _ (cm_wf_keeps _ _ _ Hcm Hk) Hv Ho Ht Hit) as Hcm1.
  destruct next as [k|].
  - destruct Hnext as (j & -> & Hj & Hlen & Hdone).
    eapply (protects_step pid range new cm w w1 pre v suf ps j t); auto.
    rewrite <- (length_take_le ps j) at 2 by done. rewrite <- length_app.
    apply IH; auto; [apply Hk|by simpl; rewrite Hit, <- app_assoc, (app_assoc (take j ps)), take_drop|].
    rewrite protect_weight_app, (protect_weight_done _ _ Hdone). simpl in Hfuel.
    destruct (Z.eqb_spec (va_perms v) new); [done|lia].
  - eapply (protects_step pid range new cm w w1 pre v suf ps (length ps) t); auto.
    rewrite drop_all. split_and!; auto; [apply commits_refl, Hk|]. intros a. simpl in *.
    unfold updated_in. destruct (area_at suf a) as [u|] eqn:Hat; [|done]. symmetry. apply protect_at_outside.
    apply area_at_Some in Hat as [Hu Ha]. apply (in_areas_elem _ _ a) in Hu; [|done].
    pose proof (cw_ordered _ _ Hcm) as Hord. rewrite Hv in Hord.
    apply areas_ordered_around in Hord as (_ & Hsuf & _).
    pose proof (areas_ordered_bound _ _ _ _ Hsuf Hu). vmrange_unfold. lia.
Qed.

(** A refusal leaves the areas from the cursor on as they were. *)
Lemma mprotect_refused pid range new cm (w : World BV PL) pre v i suf file off :
  pcm_wf (w_pcm w) -> cm_wf (w_pcm w) cm -> vmas cm = pre ++ v :: suf -> owned v ->
  va_access v = Private pid -> va_perms v <> new -> VMRange_wf range ->
  VMArea_intersect v range = Ok (Some i) -> VMArea_writeback_file i = Some (file, off) ->
  file_writable file = false -> VMPerms_can_write new = true ->
  protects pid range new cm w (v :: suf) (Err EACCES, (cm, w)).
Proof.
  intros Hg Hcm Hv Ho Hacc Hp Hr Hi Hwb Hfw Hcw. destruct (owned_middle _ _ _ _ _ Hcm Hv Ho) as [Hvw _].
  destruct (area_cut _ _ _ _ Hvw Hr Hi) as ((Hiw & _ & Hip & Hia & Hif) & Hin & Hs & He & _).
  pose proof (aw_nonempty _ _ Hiw). pose proof (cw_ordered _ _ Hcm) as Hord. rewrite Hv in Hord.
  set (b := vm_start (va_range i)). assert (Hb : b ∈ va_range i) by (vmrange_unfold; lia).
  apply Hin in Hb as [Hbv Hbr].
  split_and!; [by apply commits_refl|done|done|done|]. exists b. split_and!.
  - apply in_areas_cons. by left.
  - split_and!; [done..|]. rewrite Hv, (view_middle _ _ _ _ _ _ Hord) by done. unfold cell. rewrite Hacc, <- Hif.
    unfold VMArea_writeback_file, FileBacked_writeback_file in Hwb. unfold file_pos.
    destruct (va_file_backed i) as [fb|]; [|done]. destruct (fb_write_back fb); simplify_eq. eauto 10.
  - intros a. destruct (Z.ltb_spec a b) as [Hab|]; [|done]. unfold updated_in.
    destruct (area_at (v :: suf) a) as [u|] eqn:Hat; [|done]. symmetry. apply protect_at_outside.
    intros Har. apply area_at_Some in Hat as [Hu Ha]. apply (in_areas_elem _ _ a) in Hu; [|done].
    apply areas_ordered_around in Hord as (_ & Hsuf & _). apply in_areas_cons in Hu as [Hu|Hu].
    + assert (a ∈ va_range i) by (by apply Hin). vmrange_unfold. lia.
    + pose proof (areas_ordered_bound _ _ _ _ Hsuf Hu). vmrange_unfold. lia.
Qed.

Lemma protect_at_same pid range new a (c : Cell) : c.1.1 = new -> protect_at pid range new a (Some c) = Some c.
Proof. destruct c as [[p acc] f]. simpl. intros ->. by case_match. Qed.

Lemma protect_at_other pid range new a (c : Cell) :
  c.1.2 <> Private pid -> protect_at pid range new a (Some c) = Some c.
Proof. destruct c as [[p acc] f]. simpl. intros. by rewrite bool_decide_eq_false_2. Qed.

Lemma mprotect_loop_spec pid range new fuel :
  pid <> 0 -> VMRange_wf range -> protects_from pid range new fuel.
Proof.
  intros Hpid Hr. induction fuel as [|fuel IH]; intros cm w pre rest Hg Hcm Hv Hfuel; [lia|].
  cbn [mprotect_loop]. destruct rest as [|v suf].
  { rewrite app_nil_r in Hv. rewrite (bind_ok _ _ _ _ _ (cursor_get_end cm w pre Hv)).
    split_and!; auto. by apply commits_refl. }
  rewrite (bind_ok _ _ _ _ _ (cursor_get_middle cm w pre v suf Hv)).
  pose proof (cw_ordered _ _ Hcm) as Hord. rewrite Hv in Hord.
  pose proof (fun a => view_middle _ _ _ _ _ a Hord) as Hview. rewrite <- Hv in Hview.
  destruct (Z.leb_spec (vm_start (va_range v)) (vm_end range)) as [Hle|Hgt]; cbn [negb]; cycle 1.
  { split_and!; auto; [by apply commits_refl|]. intros a. unfold updated_in.
    destruct (area_at (v :: suf) a) as [u|] eqn:Hat; [|done]. symmetry. apply protect_at_outside.
    apply area_at_Some in Hat as [Hu Ha]. apply (in_areas_elem _ _ a) in Hu; [|done].
    apply areas_ordered_around in Hord as (_ & Hsuf & ?).
    apply in_areas_cons in Hu as [Hu|Hu]; [|eapply areas_ordered_bound in Hu; [|exact Hsuf]];
      vmrange_unfold; lia. }
  destruct (VMArea_belong_to v pid) eqn:Hb; cbn [negb]; cycle 1.
  { apply mprotect_skip; auto. intros a Ha. rewrite Hview by done. apply protect_at_other. simpl. intros Hacc.
    unfold VMArea_belong_to in Hb. rewrite Hacc in Hb. boolprop. lia. }
  destruct (belongs_owned _ _ v pid Hcm) as [Ho Hacc]; eauto using elem_of_middle.
  destruct (owned_middle _ _ _ _ _ Hcm Hv Ho) as [Hvw _].
  destruct (Z.eqb_spec new (va_perms v)) as [Heq|Hneq].
  { apply mprotect_skip; auto. intros a Ha. rewrite Hview by done. by apply protect_at_same. }
  destruct (VMArea_intersect_cases _ _ _ Hvw Hr) as (i & Hi & Hir).
  rewrite (bind_ok _ _ _ i (cm, w)) by (unfold lift; by rewrite Hi).
  destruct i as [i|]; cycle 1.
  { apply mprotect_skip; auto. intros a Ha. apply protect_at_outside. intros Ha'.
    pose proof (VMRange_intersect_spec _ range (aw_range _ _ Hvw) Hr) as Hspec. rewrite <- Hir in Hspec.
    destruct Hspec as [_ Hn]. by apply (Hn a). }
  rewrite (bind_ok _ _ _ _ (cm, w)) by (unfold lift; by rewrite write_denied_ok). cbn beta.
  destruct (match VMArea_writeback_file i with Some _ => _ | None => _ end) eqn:Hdeny.
  { destruct (VMArea_writeback_file i) as [[file off]|] eqn:Hwb; [|done]. boolprop.
    eapply mprotect_refused; eauto. }
  case_bool_decide as Hrr.
  - apply mprotect_whole; auto. rewrite <- Hrr, (intersect_range _ _ _ _ Hvw Hr Hi).
    unfold VMRange_is_superset_of. simpl. lia.
  - apply mprotect_part; auto.
Qed.

Lemma mprotect_protects (pid addr size : Z) (new : VMPerms) (r : VMRange) (cm : ChunkManager)
    (w : World BV PL) :
  pid <> 0 -> is_u64 addr -> is_u64 size -> pcm_wf (w_pcm w) -> cm_wf (w_pcm w) cm ->
  VMRange_new_with_size addr size = Ok r -> vm_start (cm_range cm) <= addr ->
  exists res cm' w', ChunkManager_mprotect pid addr size new (cm, w) = (res, (cm', w'))
    /\ commits (w_pcm w) (w_pcm w') (fun _ => false)
    /\ cm_wf (w_pcm w') cm' /\ cm_range cm' = cm_range cm
    /\ match res with
       | Ok _ => forall a, view (vmas cm') a = protect_at pid r new a (view (vmas cm) a)
       | Err e => e = EACCES /\ exists b, denied pid r new b (view (vmas cm) b)
           /\ forall a, view (vmas cm') a
                        = if a <? b then protect_at pid r new a (view (vmas cm) a) else view (vmas cm) a
       | Panic => False
       end.
Proof.
  intros Hpid Ha Hsz Hg Hcm Hnew Hst. unfold ChunkManager_mprotect. rewrite Hnew.
  rewrite (bind_ok _ _ _ r (cm, w)) by done. rewrite (bind_ok _ _ _ cm (cm, w)) by done.
  pose proof (VMRange_new_with_size_spec addr size Ha Hsz) as Hr. rewrite Hnew in Hr.
  destruct Hr as (Hr & Hrs & _). rewrite Hrs.
  destruct (upper_bound_split _ cm addr Hcm Hst) as (pre & v & suf & Hv & Hub & Hle & _). rewrite Hub.
  assert (Hu : forall a, updated_in (v :: suf) (protect_at pid r new) (view (vmas cm)) a
    = protect_at pid r new a (view (vmas cm) a)).
  { intros a. apply (updated_in_rest _ _ _ _ _ addr _ r _ Hcm Hv Hle); auto using protect_at_outside.
    intros. vmrange_unfold. lia. }
  pose proof (mprotect_loop_spec pid r new (2 * length (vmas cm) + 2) Hpid Hr cm w pre (v :: suf) Hg Hcm Hv) as Hout.
  destruct (mprotect_loop _ _ _ _ _ _) as [res [cm' w']]. exists res, cm', w'. split; [done|].
  destruct Hout as (Hk & Hcm' & Hrg & Hres).
  { pose proof (protect_weight_le new (v :: suf)). rewrite Hv, length_app. lia. }
  split_and!; auto. destruct res as [u|e|]; [intros a; by rewrite Hres|destruct Hres as (-> & b & _ & Hd & Hview)|done].
  split; [done|]. exists b. split; [done|]. intros a. by rewrite Hview, Hu.
Qed.

End mprotect.

Section any_platform.
Context {BF : Bitflags} {BV : BitVecs} {PL : Platform} {EN : Enclave} {EL : EnclaveLaws} {US : UserSpace}
  {RB : RBTrees}.
Abbreviation vmas cm := (rb_iter (cm_vmas cm)) (only parsing).

Lemma denied_total pid r new b c : denied (EN := total_enclave EN) pid r new b c -> denied pid r new b c.
Proof. unfold denied. by setoid_rewrite file_writable_total. Qed.

(** C27: [mprotect] sets the permissions of exactly the addresses of the range that
    the calling process has mapped. It never fails, except that it stops with
    [EACCES] before the first area that would make the write-back of a file that is
    not writable possible, and on any platform it panics only if an instruction, a
    host call or a file operation can fail. Splitting areas keeps owners, files and
    file offsets at every address, the partition of the chunk and the set of
    committed pages. *)
Theorem ChunkManager_mprotect_spec (pid addr size : Z) (new : VMPerms) (r : VMRange) (cm : ChunkManager)
    (w : World BV PL) :
  pid <> 0 -> is_u64 addr -> is_u64 size -> pcm_wf (w_pcm w) -> cm_wf (w_pcm w) cm ->
  VMRange_new_with_size addr size = Ok r -> vm_start (cm_range cm) <= addr ->
  let '(res, (cm', w')) := ChunkManager_mprotect pid addr size new (cm, w) in
  match res with
  | Ok _ =>
      commits (w_pcm w) (w_pcm w') (fun _ => false) /\ cm_wf (w_pcm w') cm' /\ cm_range cm' = cm_range cm
      /\ forall a, view (vmas cm') a = protect_at pid r new a (view (vmas cm) a)
  | Err e =>
      e = EACCES
      /\ commits (w_pcm w) (w_pcm w') (fun _ => false) /\ cm_wf (w_pcm w') cm' /\ cm_range cm' = cm_range cm
      /\ exists b, denied pid r new b (view (vmas cm) b)
         /\ forall a, view (vmas cm') a
                      = if a <? b then protect_at pid r new a (view (vmas cm) a) else view (vmas cm) a
  | Panic => platform_fault
  end.
Proof.
  intros Hpid Ha Hsz Hg Hcm Hnew Hst.
  destruct (mprotect_protects (EN := total_enclave EN) pid addr size new r cm w) as (res & cm' & w' & Hrun & Hc & Hcm' & Hr & Hres);
    auto.
  destruct (chunk_mprotect_agrees pid addr size new (cm, w)) as [Heq|[Hp HF]].
  - rewrite Heq, Hrun. destruct res as [[]|e|]; [by split_and!| |by destruct Hres]. destruct Hres as (-> & b & Hb & Hv).
    split_and!; auto. exists b. split; [by apply denied_total|done].
  - revert Hp. set (out := ChunkManager_mprotect pid addr size new (cm, w)). clearbody out. by destruct out as [res2 [cm2 w2]]; cbn; intros ->.
Qed.

End any_platform.
