(* ===== verification/ChunkMerge.v ===== *)
(** Merging the areas of a chunk: [merge_all_vmas], which [mremap] runs first,
    changes how the address map is divided into areas and not the map. *)

From S2P Require Import Prelude Errno Effects External VMRange VMMapOptions VMFreeSpace VMRemap.
From S2P Require Import VMEpc PageTracker VMArea VMAreaFacts ChunkManager PlatformChunk ChunkManagerFacts ChunkProtect.

Section merge.
Context {BF : Bitflags} {BV : BitVecs} {PL : Platform} {EN : Enclave} {US : UserSpace} {RB : RBTrees}.

Abbreviation vmas cm := (rb_iter (cm_vmas cm)) (only parsing).
Abbreviation keeps g g' := (commits g g' (fun _ => false)) (only parsing).

(** Permissions, owner and write-back file of an address. *)
Definition wb (c : Cell) : VMPerms * VMAccess * option (FileRef * Z) :=
  (c.1, match c.2 with Some (file, off, true) => Some (file, off) | _ => None end).

Definition wb_view (l : list VMArea) (a : Z) : option (VMPerms * VMAccess * option (FileRef * Z)) :=
  wb <$> view l a.

(** No two neighbours can be merged. *)
Definition merged (l : list VMArea) : Prop :=
  forall i a b, l !! i = Some a -> l !! S i = Some b -> VMArea_can_merge_vmas a b = false.

Lemma merged_snoc l a b :
  merged (l ++ [a]) -> VMArea_can_merge_vmas a b = false -> merged (l ++ [a; b]).
Proof.
  intros Hm Hab i x y Hx Hy. change [a; b] with ([a] ++ [b]) in *. rewrite app_assoc in *.
  destruct (decide (S i < length (l ++ [a]))%nat) as [Hlt|Hge].
  - rewrite lookup_app_l in Hx by lia. rewrite lookup_app_l in Hy by lia. by eapply Hm.
  - apply lookup_lt_Some in Hy as Hlen. rewrite !length_app in *. simpl in *.
    assert (i = length l) as -> by lia.
    rewrite <- app_assoc in Hx. cbn [app] in Hx. rewrite list_lookup_middle in Hx by done.
    rewrite lookup_app_r in Hy by (rewrite length_app; simpl; lia).
    rewrite length_app in Hy. simpl in Hy. replace (S (length l) - (length l + 1))%nat with 0%nat in Hy by lia.
    by simplify_eq/=.
Qed.

(** Whether the right area can be merged depends on where it starts, not on where
    it ends. *)
Lemma can_merge_ext a b b' :
  VMArea_size b <> 0 -> VMArea_size b' <> 0 -> vm_start (va_range b') = vm_start (va_range b) ->
  va_perms b' = va_perms b -> va_access b' = va_access b -> va_file_backed b' = va_file_backed b ->
  VMArea_can_merge_vmas a b' = VMArea_can_merge_vmas a b.
Proof.
  intros Hb Hb' Hs Hp Ha Hf. unfold VMArea_can_merge_vmas, VMArea_get_private_pid, VMArea_writeback_file.
  rewrite Hs, Hp, Ha, Hf. by destruct (Z.eqb_spec (VMArea_size b) 0), (Z.eqb_spec (VMArea_size b') 0).
Qed.

Lemma merged_last l a b :
  merged (l ++ [a]) -> (forall x, VMArea_can_merge_vmas x b = VMArea_can_merge_vmas x a) -> merged (l ++ [b]).
Proof.
  intros Hm Hab i x y Hx Hy. apply lookup_lt_Some in Hy as Hlen. rewrite length_app in Hlen. simpl in Hlen.
  rewrite lookup_app_l in Hx by lia.
  destruct (decide (S i < length l)%nat) as [Hlt|Hge].
  - rewrite lookup_app_l in Hy by lia. apply (Hm i); rewrite lookup_app_l by lia; done.
  - assert (S i = length l) as Hi by lia. rewrite Hi, list_lookup_middle in Hy by done. injection Hy as <-.
    rewrite Hab. apply (Hm i); [by rewrite lookup_app_l by lia|]. by rewrite Hi, list_lookup_middle.
Qed.

Lemma nonempty_owned g cm v :
  cm_wf g cm -> v ∈ vmas cm -> VMArea_size v <> 0 -> owned v /\ area_wf g v.
Proof.
  intros Hcm Hin Hne. destruct (cw_ends _ _ Hcm) as (s & l & e & Hl & [Hs _] & [He _] & Hw & Ho).
  rewrite Hl, elem_of_cons, elem_of_app, list_elem_of_singleton in Hin.
  unfold VMArea_size, VMRange_size in Hne.
  destruct Hin as [->|[Hin| ->]]; [exfalso; apply Hne; rewrite Hs; simpl; rewrite sub64_small; unfold64; lia| |
                                   exfalso; apply Hne; rewrite He; simpl; rewrite sub64_small; unfold64; lia].
  rewrite List.Forall_forall in Hw, Ho. apply list_elem_of_In in Hin. auto.
Qed.

Lemma can_merge_wb left right :
  VMArea_can_merge_vmas left right = true ->
  VMArea_size left <> 0 /\ VMArea_size right <> 0
  /\ vm_end (va_range left) = vm_start (va_range right)
  /\ (VMArea_writeback_file right = None -> VMArea_writeback_file left = None).
Proof.
  unfold VMArea_can_merge_vmas. intros Hm.
  destruct ((_ || _)) eqn:E1 in Hm; [done|]. destruct (negb _) eqn:E2 in Hm; [done|].
  destruct (negb (va_perms left =? _)) eqn:E3 in Hm; [done|].
  destruct (VMArea_get_private_pid left); [|done]. destruct (VMArea_get_private_pid right); [|done].
  destruct (negb _) in Hm; [done|]. boolprop. split_and!; auto.
  intros Hr. rewrite Hr in Hm. by destruct (VMArea_writeback_file left) as [[]|].
Qed.

Lemma wb_none v a :
  VMArea_writeback_file v = None ->
  match file_pos v a with Some (file, off, true) => Some (file, off) | _ => None end = None.
Proof.
  unfold VMArea_writeback_file, FileBacked_writeback_file, file_pos.
  destruct (va_file_backed v) as [fb|]; [|done]. by destruct (fb_write_back fb).
Qed.

(** The merged area in place of the two. *)
Lemma cm_wf_merge g cm pre left right suf v t :
  cm_wf g cm -> vmas cm = pre ++ left :: right :: suf -> owned left -> owned right ->
  area_wf g v -> owned v -> vm_end (va_range left) = vm_start (va_range right) ->
  va_range v = mkVMRange (vm_start (va_range left)) (vm_end (va_range right)) ->
  rb_iter t = pre ++ v :: suf -> cm_wf g (with_vmas cm t).
Proof.
  intros Hcm Hv Hlo Hro Hvw Hvo Hadj Hvr Ht.
  destruct (owned_middle _ _ _ _ _ Hcm Hv Hlo) as (_ & s & l1 & l2 & e & Hpre & Hsuf & Hs & He & Hw & Ho).
  destruct Hcm as [Hr Hb Hgap _ Hord Hfo Hf Hsz]. rewrite Hv in Hord.
  pose proof (areas_ordered_around _ _ _ _ _ Hord) as (H1 & H2 & ? & ?). simpl in H2.
  destruct H2 as (? & ? & H2).
  constructor; cbn [with_vmas cm_range cm_vmas cm_free_manager cm_free_size]; auto; rewrite Ht.
  - destruct l2 as [|u l2]; simplify_eq/=.
    { exfalso. destruct Hro as (p & Hp & Hne). destruct He as [_ He]. congruence. }
    exists s, (l1 ++ v :: l2), e. rewrite Forall_app, Forall_cons_iff in Hw, Ho.
    rewrite !Forall_app, !Forall_cons_iff, <- app_assoc. naive_solver.
  - apply areas_ordered_app. exists (vm_start (va_range left)). split; [done|]. simpl. rewrite Hvr. simpl.
    split_and!; [lia..|done].
  - intros a. rewrite Hf, Hv, !in_areas_app, !in_areas_cons, Hvr. vmrange_unfold.
    assert (vm_start (va_range left) <= a < vm_end (va_range right)
      <-> vm_start (va_range left) <= a < vm_end (va_range left)
          \/ vm_start (va_range right) <= a < vm_end (va_range right)) as -> by lia. tauto.
  - rewrite Hsz, Hv, !areas_size_app. simpl. rewrite Hvr. simpl. lia.
Qed.

Lemma wb_view_app l1 l2 a :
  wb_view (l1 ++ l2) a = match wb_view l1 a with Some c => Some c | None => wb_view l2 a end.
Proof. unfold wb_view. rewrite view_app. by destruct (view l1 a). Qed.

Lemma wb_view_merge v left right suf a :
  (a ∈ va_range v <-> a ∈ va_range left \/ a ∈ va_range right) ->
  (a ∈ va_range left -> wb (cell v a) = wb (cell left a)) ->
  (a ∈ va_range right -> wb (cell v a) = wb (cell right a)) ->
  wb_view (v :: suf) a = wb_view (left :: right :: suf) a.
Proof.
  intros Hin Hl Hr. unfold wb_view, view. cbn [area_at]. rewrite <- !VMRange_contains_spec in *.
  destruct (VMRange_contains (va_range v) a) eqn:Ev; destruct (VMRange_contains (va_range left) a) eqn:El;
    cbn [fmap option_fmap option_map]; [by rewrite Hl| | |].
  - destruct (VMRange_contains (va_range right) a); [by cbn; rewrite Hr|]. naive_solver.
  - naive_solver.
  - destruct (VMRange_contains (va_range right) a); [naive_solver|done].
Qed.

Lemma merge_step cm (w : World BV PL) pre left right suf :
  pcm_wf (w_pcm w) -> cm_wf (w_pcm w) cm -> vmas cm = pre ++ left :: right :: suf ->
  VMArea_can_merge_vmas left right = true ->
  exists v w' t1 t2, VMArea_set_end left (vm_end (va_range right)) w = (Ok v, w')
    /\ cursor_replace_with (length pre) v (cm, w') = (Ok tt, (with_vmas cm t1, w'))
    /\ cursor_remove (S (length pre)) (with_vmas cm t1, w') = (Ok tt, (with_vmas cm t2, w'))
    /\ keeps (w_pcm w) (w_pcm w') /\ rb_iter t2 = pre ++ v :: suf /\ cm_wf (w_pcm w') (with_vmas cm t2)
    /\ (forall x, VMArea_can_merge_vmas x v = VMArea_can_merge_vmas x left)
    /\ forall a, wb_view (rb_iter t2) a = wb_view (vmas cm) a.
Proof.
  intros Hg Hcm Hv Hm. destruct (can_merge_wb _ _ Hm) as (Hls & Hrs & Hadj & Hwb).
  assert (Hrv : vmas cm = (pre ++ [left]) ++ right :: suf) by (by rewrite <- app_assoc).
  destruct (nonempty_owned _ _ left Hcm) as [Hlo Hlw]; eauto using elem_of_middle.
  destruct (nonempty_owned _ _ right Hcm) as [Hro Hrw]; eauto using elem_of_middle.
  pose proof (cw_ordered _ _ Hcm) as Hord.
  assert (Hgap : off_gap (mkVMRange (vm_start (va_range left)) (vm_end (va_range right)))).
  { eapply off_gap_sub; [|apply Hcm]. unfold VMRange_is_superset_of. simpl.
    pose proof Hord as H1. rewrite Hv in H1. apply areas_ordered_around in H1 as (_ & _ & ? & _).
    rewrite Hrv in Hord. apply areas_ordered_around in Hord as (_ & _ & _ & ?). lia. }
  destruct (merge_areas w left right Hg Hlw Hrw Hgap Hm)
    as (v & w' & Hend & Hvw & Hk & Hin & Hp1 & Hp2 & Ha1 & Ha2 & Hfr & Hfl & Hvr & Hvf).
  destruct (cursor_replace_middle cm w' pre left (right :: suf) v Hv) as (t1 & Hc1 & Ht1).
  destruct (cursor_remove_middle (with_vmas cm t1) w' (pre ++ [v]) right suf) as (t2 & Hc2 & Ht2);
    [simpl; by rewrite Ht1, <- app_assoc|].
  rewrite length_app, Nat.add_1_r in Hc2. rewrite <- app_assoc in Ht2. simpl in Ht2.
  exists v, w', t1, t2. split_and!; auto.
  - eapply (cm_wf_merge _ cm pre left right suf v); eauto using cm_wf_keeps.
    destruct Hlo as (pid & ? & ?). exists pid. split; congruence.
  - intros x. apply can_merge_ext; auto; [|by rewrite Hvr]. unfold VMArea_size.
    rewrite VMRange_size_wf by apply Hvw. pose proof (aw_nonempty _ _ Hvw). lia.
  - intros a. rewrite Ht2, Hv, !wb_view_app.
    rewrite (wb_view_merge v left right suf a (Hin a)); [done|unfold cell; by rewrite Hp1, Ha1, Hfl|].
    intros _. destruct (VMArea_writeback_file right) as [[f o]|] eqn:Hwr.
    + unfold cell. by rewrite Hp2, Ha2, (Hfr _ _ eq_refl).
    + unfold wb, cell. simpl. rewrite Hfl, (wb_none left), (wb_none right) by auto. by rewrite Hp2, Ha2.
Qed.

Lemma merge_loop_spec fuel : forall cm (w : World BV PL) pre rest,
  pcm_wf (w_pcm w) -> cm_wf (w_pcm w) cm -> vmas cm = pre ++ rest -> (length rest < fuel)%nat ->
  merged (pre ++ take 1 rest) ->
  exists t w', merge_loop fuel (length pre) (cm, w) = (Ok tt, (with_vmas cm t, w'))
    /\ keeps (w_pcm w) (w_pcm w') /\ cm_wf (w_pcm w') (with_vmas cm t) /\ merged (rb_iter t)
    /\ forall a, wb_view (rb_iter t) a = wb_view (vmas cm) a.
Proof.
  induction fuel as [|fuel IH]; intros cm w pre rest Hg Hcm Hv Hfuel Hm; [lia|].
  cbn [merge_loop]. assert (Hid : with_vmas cm (cm_vmas cm) = cm) by (by destruct cm).
  destruct rest as [|v suf].
  { rewrite app_nil_r in Hv. rewrite (bind_ok _ _ _ _ _ (cursor_get_end cm w pre Hv)).
    exists (cm_vmas cm), w. rewrite Hid. rewrite take_nil, app_nil_r, <- Hv in Hm. split_and!; auto. by apply commits_refl. }
  rewrite (bind_ok _ _ _ _ _ (cursor_get_middle cm w pre v suf Hv)). simpl in Hfuel.
  assert (Hmove : merged (pre ++ [v] ++ take 1 suf) ->
    exists t w', merge_loop fuel (S (length pre)) (cm, w) = (Ok tt, (with_vmas cm t, w'))
      /\ keeps (w_pcm w) (w_pcm w') /\ cm_wf (w_pcm w') (with_vmas cm t) /\ merged (rb_iter t)
      /\ forall a, wb_view (rb_iter t) a = wb_view (vmas cm) a).
  { intros Hm'. rewrite <- (Nat.add_1_r (length pre)). change 1%nat with (length [v]) at 1.
    rewrite <- length_app. apply (IH cm w (pre ++ [v]) suf); auto; [by rewrite <- app_assoc|lia|].
    by rewrite <- app_assoc. }
  destruct (VMArea_size v =? 0) eqn:Hsz; boolprop.
  { apply Hmove. destruct suf as [|u suf]; [by rewrite take_nil, app_nil_r|].
    apply merged_snoc; [done|]. unfold VMArea_can_merge_vmas. by rewrite Hsz. }
  destruct (nonempty_owned _ _ v Hcm) as [Ho _]; eauto using elem_of_middle.
  destruct (owned_middle _ _ _ _ _ Hcm Hv Ho) as (_ & s & l1 & l2 & e & _ & Hsuf & _).
  destruct suf as [|u suf]; [by destruct l2|].
  assert (Hu : vmas cm = (pre ++ [v]) ++ u :: suf) by (by rewrite <- app_assoc).
  pose proof (cursor_get_middle cm w (pre ++ [v]) u suf Hu) as Hget. rewrite length_app, Nat.add_1_r in Hget.
  rewrite (bind_ok _ _ _ _ _ Hget), (bind_ok _ _ _ u (cm, w)) by done.
  destruct (VMArea_can_merge_vmas v u) eqn:Hcan; [|by apply Hmove, merged_snoc].
  destruct (merge_step cm w pre v u suf Hg Hcm Hv Hcan)
    as (v' & w1 & t1 & t2 & Hend & Hc1 & Hc2 & Hk & Ht2 & Hcm2 & Hext & Hview).
  rewrite (bind_ok _ _ _ v' (cm, w1)) by by apply on_world_ok.
  rewrite (bind_ok _ _ _ _ _ Hc1), (bind_ok _ _ _ _ _ Hc2).
  destruct (IH (with_vmas cm t2) w1 pre (v' :: suf)) as (t & w' & Hrun & Hk' & Hcm' & Hm' & Hview'); auto.
  - apply Hk.
  - simpl in *. lia.
  - by eapply merged_last.
  - exists t, w'. split_and!; auto.
    + eapply commits_ext; [|exact (commits_trans _ _ _ _ _ Hk Hk')]. done.
    + intros a. by rewrite Hview', <- Hview.
Qed.

Lemma merge_all_vmas_merges (cm : ChunkManager) (w : World BV PL) :
  pcm_wf (w_pcm w) -> cm_wf (w_pcm w) cm ->
  exists cm' w', ChunkManager_merge_all_vmas (cm, w) = (Ok tt, (cm', w'))
    /\ cm_wf (w_pcm w') cm' /\ commits (w_pcm w) (w_pcm w') (fun _ => false)
    /\ merged (vmas cm') /\ cm_range cm' = cm_range cm /\ cm_free_manager cm' = cm_free_manager cm
    /\ forall a, wb_view (vmas cm') a = wb_view (vmas cm) a.
Proof.
  intros Hg Hcm. unfold ChunkManager_merge_all_vmas. rewrite (bind_ok _ _ _ cm (cm, w)) by done.
  destruct (merge_loop_spec (S (length (vmas cm))) cm w [] (vmas cm)) as (t & w' & Hrun & Hk & Hcm' & Hm & Hview); auto.
  { simpl. intros [|i] a b Ha Hb; destruct (vmas cm); simplify_eq/=. }
  exists (with_vmas cm t), w'. by split_and!.
Qed.

(** merging all areas of a chunk terminates without a panic, leaves no two
    neighbours that could still be merged, and keeps the permissions, the owner
    and the write-back file and offset of every address, the free list and
    the set of committed pages. *)
Theorem merge_all_vmas_spec (cm : ChunkManager) (w : World BV PL) :
  pcm_wf (w_pcm w) -> cm_wf (w_pcm w) cm ->
  exists cm' w', ChunkManager_merge_all_vmas (cm, w) = (Ok tt, (cm', w'))
    /\ cm_wf (w_pcm w') cm' /\ commits (w_pcm w) (w_pcm w') (fun _ => false)
    /\ merged (vmas cm') /\ cm_range cm' = cm_range cm /\ cm_free_manager cm' = cm_free_manager cm
    /\ forall a, wb_view (vmas cm') a = wb_view (vmas cm) a.
Proof. apply merge_all_vmas_merges. Qed.

End merge.

(** * Examples *)

Section examples.
#[local] Existing Instances bitflags_bits bitvec_list example_space rbtree_list flat_platform.

(** Every file consists of bytes 171. *)
Definition file_enclave : Enclave :=
  flat_enclave_reading (fun _ _ buf => (length buf, replicate (length buf) 171)).
#[local] Existing Instance file_enclave.

Definition file_page : VMMapOptions :=
  mkVMMapOptions 4096 4096 VMPerms_DEFAULT (Need (2 ^ 28)) (InitFileBacked (mkFileBacked 7 0 false)) CommitNow.
Definition anonymous_page : VMMapOptions :=
  mkVMMapOptions 4096 4096 VMPerms_DEFAULT (Need (2 ^ 28 + 4096)) DoNothing CommitOnDemand.

(** A process maps a page of a file privately, then an anonymous page behind it,
    and touches the anonymous page. *)
Definition map_and_touch (merge : bool) : M CState unit :=
  _ ← ChunkManager_mmap 1 file_page;
  _ ← ChunkManager_mmap 1 anonymous_page;
  _ ← (if merge then ChunkManager_merge_all_vmas else ok tt);
  ChunkManager_handle_page_fault 1 0 (2 ^ 28 + 4096) 2 false.

(** What the process then reads there. *)
Definition byte_read (merge : bool) : option Z :=
  match ChunkManager_from (2 ^ 28) (2 ^ 25) (mkWorld bitvec_list flat_platform (fun _ => 0) ∅) with
  | (Ok cm, w) =>
      match map_and_touch merge (cm, w) with
      | (Ok _, (_, w')) => Some (w_mem w' (2 ^ 28 + 4096))
      | _ => None
      end
  | _ => None
  end.

(** [can_merge_vmas] compares write-back files only, so a merge can put the file
    of a private mapping behind anonymous memory. A process that maps a page of
    a file privately and an anonymous page behind it reads zeros from the
    anonymous page; when an [mremap] merged the areas of the chunk before
    the page was first touched, it reads the contents of the file. *)
Theorem merge_leaks_private_file : byte_read false = Some 0 /\ byte_read true = Some 171.
Proof. split; vm_compute; reflexivity. Qed.

End examples.
