(* ===== verification/ChunkMmap.v ===== *)
(** Making chunks and mapping memory in them: [ChunkManager::from] and [mmap]. *)

From S2P Require Import Prelude Errno Effects External VMRange VMMapOptions VMFreeSpace VMRemap.
From S2P Require Import VMEpc Platform PageTracker VMArea VMAreaFacts ChunkManager PlatformChunk ChunkManagerFacts ChunkProtect.

(** * Initialising an area *)

Section init.
Context {BF : Bitflags} {BV : BitVecs} {PL : Platform} {EN : Enclave} {REL : ReliableEnclave} {US : UserSpace}
  {RB : RBTrees}.

(** Committing all pages of an area. *)
Lemma commit_whole_spec (w : World BV PL) t :
  pcm_wf (w_pcm w) -> coherent (w_pcm w) t -> vm_start (pt_range t) < vm_end (pt_range t) ->
  pt_fully_committed t = false ->
  exists t' w', PageTracker_commit_whole t VMPerms_DEFAULT w = (Ok t', w')
    /\ commits (w_pcm w) (w_pcm w') (fun a => bool_decide (a ∈ pt_range t)).
Proof.
  intros Hg Hco Hne Hf. unfold PageTracker_commit_whole, PageTracker_is_fully_committed. rewrite Hf.
  assert (Hmem : mem_only (if PageTracker_is_reserved_only t then
         on_mem (unwrapM (UserRegionMem_commit_memory (vm_start (pt_range t)) (VMRange_size (pt_range t)) (Some VMPerms_DEFAULT)))
       else
         uncommitted_ranges ← lift (PageTracker_get_ranges t false);
         for_each (fun range => on_mem (unwrapM (UserRegionMem_commit_memory
                     (vm_start range) (VMRange_size range) (Some VMPerms_DEFAULT)))) uncommitted_ranges)).
  { apply mem_only_if; [by apply mem_only_on_mem, succeeds_unwrapM, succeeds_commit_memory|].
    destruct (get_ranges_subranges t false (co_wf _ _ Hco) Hne) as (l & Hl & _).
    apply mem_only_bind; [rewrite Hl; apply mem_only_ok|]. intros l'. apply mem_only_for_each.
    intros r _. by apply mem_only_on_mem, succeeds_unwrapM, succeeds_commit_memory. }
  destruct (Hmem w) as ([] & w1 & Hrun & Hw1). rewrite (bind_ok _ _ _ _ _ Hrun).
  destruct (set_committed_pages_for_global_tracker_spec w1 (pt_range t)) as (w2 & Hset & _ & Hg2 & Hd & Hc);
    rewrite ?Hw1; auto; [apply Hco..|].
  rewrite (bind_ok _ _ _ _ _ Hset). eexists _, w2. split; [reflexivity|]. rewrite Hw1 in *.
  split_and!; auto. intros c. apply Hd.
Qed.

(** The initializers of [mmap] system calls. *)
Definition simple_initializer (i : VMInitializer) : Prop :=
  match i with DoNothing | FillZeros | InitFileBacked _ => True | _ => False end.

(** Computations that do not panic and leave the page chunk manager alone. *)
Definition mem_safe {A} (c : M (World BV PL) A) : Prop :=
  forall w, exists r w', c w = (r, w') /\ r <> Panic /\ w_pcm w' = w_pcm w.

Lemma mem_only_safe {A} (c : M (World BV PL) A) : mem_only c -> mem_safe c.
Proof. intros H w. destruct (H w) as (a & w' & Ha & Hw). by exists (Ok a), w'. Qed.

Lemma mem_safe_bind {A B} (c : M (World BV PL) A) (k : A -> M (World BV PL) B) :
  mem_safe c -> (forall a, mem_safe (k a)) -> mem_safe (c ≫= k).
Proof.
  intros Hc Hk w. destruct (Hc w) as ([a|e|] & w' & Ha & Hp & Hw); [| |done].
  - destruct (Hk a w') as (r & w'' & Hr & ? & ?). exists r, w''.
    rewrite (bind_ok _ _ _ _ _ Ha). split_and!; auto. congruence.
  - exists (Err e), w'. unfold mbind, M_bind. by rewrite Ha.
Qed.
Lemma mem_safe_if {A} (b : bool) (c d : M (World BV PL) A) : mem_safe c -> mem_safe d -> mem_safe (if b then c else d).
Proof. by destruct b. Qed.
Lemma mem_safe_for_each {A} (f : A -> M (World BV PL) unit) l :
  (forall x, mem_safe (f x)) -> mem_safe (for_each f l).
Proof.
  intros Hf. induction l; simpl; [apply mem_only_safe, mem_only_ok|]. by apply mem_safe_bind.
Qed.
Lemma mem_safe_fail {A} e : mem_safe (@fail_with _ A e).
Proof. intros w. by exists (Err e), w. Qed.

#[local] Hint Resolve mem_safe_bind mem_safe_if mem_safe_for_each mem_safe_fail mem_only_safe mem_only_ok
  mem_only_modify_permission_force mem_only_fill_zeros : occlum.

Lemma mem_safe_init_internal v r i :
  simple_initializer i -> mem_safe (VMArea_init_memory_internal v r (Some i)).
Proof.
  intros Hi. unfold VMArea_init_memory_internal, VMArea_init_file_backed_mem.
  destruct i; try done; auto 10 with occlum.
  apply mem_safe_bind; [|auto with occlum].
  apply mem_safe_bind; [rewrite file_can_read_ok; apply mem_only_safe, mem_only_ok|]. intros readable.
  apply mem_safe_if; [auto with occlum|].
  apply mem_safe_bind; [auto using mem_only_file_len with occlum|]. intros len.
  apply mem_safe_bind; [|auto with occlum]. intros w. unfold on_mem. simpl.
  pose proof (rel_read_panic (fb_file file) (fb_offset file +64 (vm_start r -64 vm_start (va_range v)))
    (as_slice (w_mem w) r) (w_mem w)).
  destruct (file_read_at _ _ _ _) as [[]| |]; [| |done]; by eexists _, _.
Qed.

Lemma mem_safe_init_slice i r : simple_initializer i -> mem_safe (init_slice_of i r).
Proof.
  intros Hi w. unfold init_slice_of, on_mem, VMInitializer_init_slice, read_or_eacces, zero_tail.
  destruct i; try done; [by eexists _, _..|].
  pose proof (rel_read_panic (fb_file file) (fb_offset file) (as_slice (w_mem w) r) (w_mem w)) as Hp.
  pose proof (rel_read (fb_file file) (fb_offset file) (as_slice (w_mem w) r) (w_mem w)) as Hn.
  destruct (file_read_at _ _ _ _) as [[n buf]| |]; [|by eexists _, _|done].
  destruct (Hn n buf eq_refl) as [Hle _]. simpl.
  destruct (Nat.ltb_spec (length buf) n); [lia|]. by eexists _, _.
Qed.

(** Running [c] for its effect and returning [a]. *)
Definition yields {A} (a : A) (c : M (World BV PL) A) : Prop :=
  forall w, exists r w', c w = (r, w') /\ w_pcm w' = w_pcm w /\ (r = Ok a \/ exists e, r = Err e).

Lemma yields_after {A B} (a : A) (c : M (World BV PL) B) (k : B -> M (World BV PL) A) :
  mem_safe c -> (forall b, yields a (k b)) -> yields a (c ≫= k).
Proof.
  intros Hc Hk w. destruct (Hc w) as ([b|e|] & w' & Hb & Hp & Hw); [| |done].
  - destruct (Hk b w') as (r & w'' & Hr & Hw' & Hres). exists r, w''.
    rewrite (bind_ok _ _ _ _ _ Hb). split_and!; auto. congruence.
  - exists (Err e), w'. unfold mbind, M_bind. rewrite Hb. split_and!; eauto.
Qed.

Lemma yields_ok {A} (a : A) : yields a (ok a).
Proof. intros w. exists (Ok a), w. auto. Qed.

Lemma init_committed_yields g v o :
  area_wf g v -> simple_initializer (opt_initializer o) ->
  yields v
   (if VMArea_is_partially_committed v then
      pages ← VMArea_pages v;
      ranges ← lift (PageTracker_get_ranges pages true);
      _ ← for_each (fun range =>
            _ ← VMArea_init_memory_internal v range (Some (opt_initializer o)); ok tt) ranges;
      ok v
    else if VMArea_is_fully_committed v then
      _ ← init_slice_of (opt_initializer o) (va_range v);
      _ ← (if negb (VMPerms_is_default (opt_perms o))
           then VMArea_modify_permission_force v None VMPerms_DEFAULT (va_perms v)
           else ok tt);
      ok v
    else ok v).
Proof.
  intros Hv Hi. destruct (VMArea_is_partially_committed v) eqn:Hpc;
    [|destruct (VMArea_is_fully_committed v); [|apply yields_ok]].
  - unfold VMArea_is_partially_committed, VMArea_pages in *. destruct (va_pages v) as [t|] eqn:Hp; [|done].
    pose proof (aw_pages _ _ Hv) as Hpg. rewrite Hp in Hpg. destruct Hpg as (_ & Hco & Hrt & _).
    destruct (get_ranges_subranges t true (co_wf _ _ Hco)) as (l & Hl & _); [rewrite Hrt; apply Hv|].
    intros w. rewrite (bind_ok _ _ _ t w) by done. rewrite (bind_ok _ _ _ l w) by (unfold lift; by rewrite Hl).
    apply yields_after; [|intros; apply yields_ok]. apply mem_safe_for_each. intros r.
    apply mem_safe_bind; [by apply mem_safe_init_internal|auto with occlum].
  - apply yields_after; [by apply mem_safe_init_slice|]. intros _.
    apply yields_after; [auto with occlum|]. intros. apply yields_ok.
Qed.

(** A new area after [init_memory]: the same area, with pages of its own committed. *)
Lemma init_memory_spec (w : World BV PL) v o :
  pcm_wf (w_pcm w) -> area_wf (w_pcm w) v -> simple_initializer (opt_initializer o) ->
  exists res w' P, VMArea_init_memory v o w = (res, w')
    /\ commits (w_pcm w) (w_pcm w') P /\ (forall a, P a = true -> a ∈ va_range v)
    /\ match res with
       | Ok v' => area_wf (w_pcm w') v' /\ va_range v' = va_range v /\ va_perms v' = va_perms v
                  /\ va_access v' = va_access v /\ va_file_backed v' = va_file_backed v
       | Err _ => True
       | Panic => False
       end.
Proof.
  intros Hg Hv Hi. unfold VMArea_init_memory.
  assert (Hfirst : exists v1 w1 P,
    (if negb (VMArea_is_fully_committed v) && PagePolicy_is_commit_now (opt_page_policy o) then
       pages ← VMArea_pages v;
       _ ← PageTracker_commit_whole pages VMPerms_DEFAULT;
       ok (set_va_pages v None)
     else ok v) w = (Ok v1, w1)
    /\ commits (w_pcm w) (w_pcm w1) P /\ (forall a, P a = true -> a ∈ va_range v)
    /\ area_wf (w_pcm w1) v1 /\ va_range v1 = va_range v /\ va_perms v1 = va_perms v
    /\ va_access v1 = va_access v /\ va_file_backed v1 = va_file_backed v).
  { destruct (negb _ && _) eqn:Hb; cycle 1.
    { exists v, w, (fun _ => false). split_and!; auto; [by apply commits_refl|done]. }
    unfold VMArea_is_fully_committed, VMArea_pages in *. destruct (va_pages v) as [t|] eqn:Hp; [|done].
    pose proof (aw_pages _ _ Hv) as Hpg. rewrite Hp in Hpg. destruct Hpg as (Hu & Hco & Hrt & Hf).
    destruct (commit_whole_spec w t Hg Hco) as (t' & w1 & Hrun & Hc); [rewrite Hrt; apply Hv|done|].
    rewrite Hrt in Hc. exists (set_va_pages v None), w1, (fun a => bool_decide (a ∈ va_range v)).
    rewrite (bind_ok _ _ _ t w), (bind_ok _ _ _ _ _ Hrun) by done. split_and!; auto.
    - intros a Ha. by apply bool_decide_eq_true in Ha.
    - replace v with (set_va_pf_count v (va_pf_count v)) by (by destruct v).
      eapply area_wf_set_pages; [exact Hv|exact Hc|done|]. intros a Ha Hin.
      rewrite (proj2 (proj2 Hc)), bool_decide_eq_true_2, orb_true_r; auto.
      eapply VMRange_wf_u64; [apply Hv|done]. }
  destruct Hfirst as (v1 & w1 & P & Hrun & Hc & HP & Hv1 & Hr & Hpm & Ha & Hfb).
  rewrite (bind_ok _ _ _ _ _ Hrun).
  destruct (init_committed_yields _ v1 o Hv1 Hi w1) as (res & w2 & Hres & Hw2 & Hor).
  exists res, w2, P. split; [exact Hres|]. rewrite Hw2. split_and!; auto.
  destruct Hor as [->|[e ->]]; [by split_and!|done].
Qed.

End init.

(** * Mapping *)

Section mmap.
Context {BF : Bitflags} {BV : BitVecs} {PL : Platform} {EN : Enclave} {REL : ReliableEnclave} {US : UserSpace}
  {RB : RBTrees}.

Abbreviation vmas cm := (rb_iter (cm_vmas cm)) (only parsing).

(** Committing pages outside the areas of a chunk. *)
Lemma cm_wf_commits g g' cm P :
  cm_wf g cm -> commits g g' P -> (forall a, P a = true -> ~ in_areas a (vmas cm)) -> cm_wf g' cm.
Proof.
  intros [] Hk HP. constructor; auto. destruct cw_ends as (s & l & e & Hl & Hs & He & Hw & Ho).
  exists s, l, e. split_and!; auto. rewrite List.Forall_forall in *. intros v Hv.
  apply (area_wf_commits _ _ _ _ (Hw v Hv) Hk). intros a _ Ha HPa. exfalso. apply (HP a HPa).
  eapply in_areas_elem; [|exact Ha]. rewrite Hl. right. apply elem_of_app. left. by apply list_elem_of_In.
Qed.

(** Where a range that is free goes among areas. *)
Lemma gap_split lo l hi r :
  areas_ordered lo l hi -> Forall (fun v => vm_start (va_range v) < vm_end (va_range v)) l ->
  lo <= vm_start r -> vm_start r < vm_end r -> vm_end r <= hi ->
  (forall a, a ∈ r -> ~ in_areas a l) ->
  exists pre suf, l = pre ++ suf /\ areas_ordered lo pre (vm_start r) /\ areas_ordered (vm_end r) suf hi.
Proof.
  revert lo. induction l as [|v l IH]; intros lo Hord Hne Hlo Hr Hhi Hfree.
  { by exists [], []. }
  simpl in Hord. destruct Hord as (H1 & H2 & H3). apply Forall_cons_iff in Hne as [Hv Hne].
  destruct (Z_le_gt_dec (vm_end (va_range v)) (vm_start r)) as [Hle|Hgt].
  - destruct (IH _ H3 Hne Hle Hr Hhi) as (pre & suf & -> & Hp & Hs).
    { intros a Ha Hin. apply (Hfree a Ha). rewrite in_areas_cons. by right. }
    exists (v :: pre), suf. split_and!; auto. simpl. by split_and!.
  - exists [], (v :: l). split_and!; [done|simpl; lia|]. simpl. split_and!; auto.
    destruct (Z_le_gt_dec (vm_end r) (vm_start (va_range v))); [done|]. exfalso.
    apply (Hfree (Z.max (vm_start r) (vm_start (va_range v)))); [vmrange_unfold; lia|].
    rewrite in_areas_cons. left. vmrange_unfold. lia.
Qed.

(** Where a new area goes in a chunk. *)
Lemma cm_gap g cm r :
  cm_wf g cm -> vm_start r < vm_end r -> (forall a, a ∈ r -> a ∈ cm_range cm /\ ~ in_areas a (vmas cm)) ->
  exists s l1 l2 e, vmas cm = (s :: l1) ++ (l2 ++ [e])
    /\ sentry (vm_start (cm_range cm)) s /\ sentry (vm_end (cm_range cm)) e
    /\ Forall (area_wf g) (l1 ++ l2) /\ Forall owned (l1 ++ l2)
    /\ forall v, va_range v = r ->
       areas_ordered (vm_start (cm_range cm)) ((s :: l1) ++ v :: l2 ++ [e]) (vm_end (cm_range cm)).
Proof.
  intros Hcm Hne Hr. destruct (cw_ends _ _ Hcm) as (s & l & e & Hl & Hs & He & Hw & Ho).
  pose proof (cw_ordered _ _ Hcm) as Hord. rewrite Hl in Hord.
  assert (Hb : vm_start (cm_range cm) <= vm_start r /\ vm_end r <= vm_end (cm_range cm)).
  { destruct (Hr (vm_start r)) as [H1 _]; [vmrange_unfold; lia|].
    destruct (Hr (vm_end r - 1)) as [H2 _]; [vmrange_unfold; lia|]. vmrange_unfold. lia. }
  simpl in Hord. destruct Hord as (_ & _ & Hord). apply areas_ordered_app in Hord as (mid & Hord & Hemid).
  destruct Hs as [Hsr Hsa], He as [Her Hea]. rewrite Hsr in Hord. simpl in Hord, Hemid. rewrite Her in Hemid. simpl in Hemid.
  destruct (gap_split _ l (vm_end (cm_range cm)) r (areas_ordered_weaken _ _ _ _ _ (Z.le_refl _) (proj1 Hemid) Hord))
    as (l1 & l2 & -> & Hp & Hsf); [|lia|lia|lia| |].
  { eapply List.Forall_impl; [|exact Hw]. intros v Hv. apply Hv. }
  { intros a Ha Hin. apply (proj2 (Hr a Ha)). rewrite Hl, in_areas_cons, in_areas_app. auto. }
  exists s, l1, l2, e. rewrite Hl. split_and!; auto; [by simpl; rewrite <- app_assoc|by split|by split|].
  intros v Hv. simpl. rewrite Hsr. split_and!; simpl; [lia..|]. apply areas_ordered_app.
  exists (vm_start r). split; [done|]. simpl. rewrite Hv. split_and!; [lia..|].
  apply areas_ordered_app. exists (vm_end (cm_range cm)). split; [done|]. simpl. rewrite Her. simpl. lia.
Qed.

(** Inserting an area into a free range. *)
Lemma cm_insert g cm v free' :
  cm_wf g cm -> area_wf g v -> owned v ->
  (forall a, a ∈ va_range v -> in_ranges a (cm_free_manager cm)) ->
  free_ok free' -> (forall a, in_ranges a free' <-> in_ranges a (cm_free_manager cm) /\ ~ a ∈ va_range v) ->
  exists t n, rb_insert vma_key v (cm_vmas cm) = (t, n)
    /\ cm_wf g (mkChunkManager (cm_range cm) (cm_free_size cm -64 VMArea_size v) t free')
    /\ forall a, view (rb_iter t) a = if bool_decide (a ∈ va_range v) then Some (cell v a) else view (vmas cm) a.
Proof.
  intros Hcm Hv Ho Hsub Hfo Hf. pose proof (aw_nonempty _ _ Hv) as Hne.
  destruct (cm_gap g cm (va_range v) Hcm Hne) as (s & l1 & l2 & e & Hl & Hs & He & Hw & Hown & Hord).
  { intros a Ha. by apply (cw_free _ _ Hcm), Hsub. }
  specialize (Hord v eq_refl). pose proof (areas_ordered_around _ _ _ _ _ Hord) as (H1 & H2 & H3 & H4).
  destruct (rb_insert_at vma_key v (cm_vmas cm) (s :: l1) (l2 ++ [e])) as (t & Hins & Ht).
  { eapply areas_ordered_sorted, Hcm. } { done. }
  { pose proof (areas_ordered_ends _ _ _ H1) as Hends. pose proof (areas_ordered_nonneg _ _ _ H1) as Hn.
    rewrite List.Forall_forall in *. intros u Hu. specialize (Hends u Hu). specialize (Hn u Hu).
    unfold vma_key. simpl in *. lia. }
  { eapply List.Forall_impl; [|by apply (areas_ordered_starts _ _ _ (vm_end (va_range v)) H2)].
    intros u. unfold vma_key. simpl. lia. }
  exists t, (length (s :: l1)). split; [done|]. split.
  - pose proof (areas_size_bound _ _ _ Hord) as Hsz.
    constructor; cbn [cm_range cm_vmas cm_free_manager cm_free_size]; auto; try apply Hcm; rewrite Ht.
    + exists s, (l1 ++ v :: l2), e. rewrite Forall_app in Hw, Hown. rewrite !Forall_app, !Forall_cons_iff.
      simpl. rewrite <- app_assoc. naive_solver.
    + done.
    + intros a. rewrite Hf, (cw_free _ _ Hcm), Hl, !in_areas_app, !in_areas_cons, !in_areas_app, !in_areas_cons. tauto.
    + rewrite (cw_size _ _ Hcm), Hl, !areas_size_app in *. simpl in *. rewrite !areas_size_app in *.
      unfold VMArea_size. rewrite VMRange_size_wf by apply Hv. pose proof (cw_bound _ _ Hcm).
      pose proof (wf_start_nonneg _ (cw_range _ _ Hcm)). assert (addr_limit < u64_modulus) by reflexivity.
      simpl in *. rewrite sub64_small; lia.
  - intros a. rewrite Ht. case_bool_decide as Ha; [by eapply view_middle|].
    rewrite Hl, !view_app. assert (Hn : view [v] a = None).
    { apply view_None. rewrite in_areas_cons, in_areas_nil. tauto. }
    change (v :: l2 ++ [e]) with ([v] ++ (l2 ++ [e])). rewrite view_app, Hn, view_app. done.
Qed.

(** An address of the chunk at which nothing is mapped. *)
Definition free_in (cm : ChunkManager) (a : Z) : Prop := a ∈ cm_range cm /\ view (vmas cm) a = None.

Lemma free_in_spec g cm :
  cm_wf g cm -> pointwise_relation Z iff (fun a => in_ranges a (cm_free_manager cm)) (free_in cm).
Proof. intros Hcm a. unfold free_in. by rewrite (cw_free _ _ Hcm), view_None. Qed.

(** What [mmap] shows at an address [a] of a mapping that starts at [start]. *)
Definition mapped_cell (pid : Z) (o : VMMapOptions) (start a : Z) : Cell :=
  (opt_perms o, Private pid,
   match VMInitializer_backed_file (opt_initializer o) with
   | Some fb => Some (fb_file fb, fb_offset fb +64 (a -64 start), fb_write_back fb)
   | None => None
   end).

Definition mapped_range (o : VMMapOptions) (start : Z) : VMRange := mkVMRange start (start + opt_size o).

(** A new area in memory that nothing else uses. *)
Lemma fresh_area_spec pid o (w : World BV PL) r :
  pcm_wf (w_pcm w) -> simple_initializer (opt_initializer o) ->
  (forall fb, VMInitializer_backed_file (opt_initializer o) = Some fb -> is_u64 (fb_offset fb)) ->
  VMRange_wf r -> vm_start r < vm_end r -> vm_end r <= addr_limit -> off_gap r ->
  exists res w' P,
    (new_vma ← VMArea_new r (opt_perms o) (VMInitializer_backed_file (opt_initializer o)) pid;
     VMArea_init_memory new_vma o) w = (res, w')
    /\ commits (w_pcm w) (w_pcm w') P /\ (forall a, P a = true -> a ∈ r)
    /\ match res with
       | Ok v => area_wf (w_pcm w') v /\ va_range v = r
                 /\ forall a, cell v a = mapped_cell pid o (vm_start r) a
       | Err _ => True
       | Panic => False
       end.
Proof.
  intros Hg Hi Hoff Hr Hne Hlim Hgap.
  destruct (VMArea_new_spec w r (opt_perms o) (VMInitializer_backed_file (opt_initializer o)) pid)
    as (v & w1 & Hnew & _ & Hg1 & Hv & Hd & Hc & Hvr & Hvp & Hvf & Hva & _); auto.
  { unfold addr_limit, PAGE_CHUNK_UNIT, u64_modulus in *. lia. }
  destruct (init_memory_spec w1 v o Hg1 Hv Hi) as (res & w2 & P & Hinit & Hcm2 & HP & Hres).
  exists res, w2, P. rewrite Hvr in HP.
  assert (Hc1 : commits (w_pcm w) (w_pcm w1) (fun _ => false)).
  { split_and!; auto. intros. by rewrite Hc, orb_false_r. }
  split_and!; auto.
  - by rewrite (bind_ok _ _ _ _ _ Hnew).
  - eapply commits_ext; [|exact (commits_trans _ _ _ _ _ Hc1 Hcm2)]. done.
  - destruct res as [v'| |]; [|done..]. destruct Hres as (Hv' & H1 & H2 & H3 & H4).
    split_and!; auto; [congruence|].
    intros a. unfold cell, mapped_cell, file_pos. by rewrite H2, H3, H4, H1, Hvp, Hva, Hvf, Hvr.
Qed.

(** The new area after its range was allocated. *)
Lemma new_area_spec pid o cm (w : World BV PL) r :
  pcm_wf (w_pcm w) -> cm_wf (w_pcm w) cm -> pid <> 0 -> simple_initializer (opt_initializer o) ->
  (forall fb, VMInitializer_backed_file (opt_initializer o) = Some fb -> is_u64 (fb_offset fb)) ->
  VMRange_wf r -> vm_start r < vm_end r -> (forall a, a ∈ r -> free_in cm a) ->
  exists res w' P,
    attempt (new_vma ← VMArea_new r (opt_perms o) (VMInitializer_backed_file (opt_initializer o)) pid;
             VMArea_init_memory new_vma o) w = (Ok res, w')
    /\ commits (w_pcm w) (w_pcm w') P /\ (forall a, P a = true -> a ∈ r) /\ cm_wf (w_pcm w') cm
    /\ match res with
       | Ok v => area_wf (w_pcm w') v /\ va_range v = r /\ owned v
                 /\ forall a, cell v a = mapped_cell pid o (vm_start r) a
       | Err _ => True
       | Panic => False
       end.
Proof.
  intros Hg Hcm Hpid Hi Hoff Hr Hne Hfree.
  assert (Hb : vm_start (cm_range cm) <= vm_start r /\ vm_end r <= vm_end (cm_range cm)).
  { destruct (Hfree (vm_start r)) as [H1 _]; [vmrange_unfold; lia|].
    destruct (Hfree (vm_end r - 1)) as [H2 _]; [vmrange_unfold; lia|]. vmrange_unfold. lia. }
  pose proof (cw_bound _ _ Hcm) as Hlim.
  destruct (fresh_area_spec pid o w r) as (res & w' & P & Hrun & Hc & HP & Hres); auto; [lia| |].
  { eapply off_gap_sub; [|apply Hcm]. unfold VMRange_is_superset_of. lia. }
  exists res, w', P. split_and!; auto.
  - unfold attempt. rewrite Hrun. by destruct res.
  - apply (cm_wf_commits _ _ _ _ Hcm Hc). intros a Ha. apply view_None, Hfree, HP, Ha.
  - destruct res as [v| |]; [|done..]. destruct Hres as (Hv & Hvr & Hcell). split_and!; auto.
    exists pid. split; [|done]. specialize (Hcell 0). by injection Hcell.
Qed.

Definition is_force (addr : VMMapAddr) : bool := match addr with Force _ => true | _ => false end.

(** The outcome of a mapping in which nothing has to be unmapped first. *)
Definition maps (pid : Z) (o : VMMapOptions) (cm : ChunkManager) (w : World BV PL)
    (out : Result Z * CState) : Prop :=
  let '(res, (cm', w')) := out in
  cm_wf (w_pcm w') cm' /\ cm_range cm' = cm_range cm
  /\ match res with
     | Ok start =>
         fit_at (free_in cm) (opt_size o) (opt_align o) start
         /\ alloc_policy (free_in cm) (opt_size o) (opt_align o) (opt_addr o) start
         /\ (forall a, view (vmas cm') a = if bool_decide (a ∈ mapped_range o start)
                                            then Some (mapped_cell pid o start a) else view (vmas cm) a)
         /\ exists P, commits (w_pcm w) (w_pcm w') P /\ forall a, P a = true -> a ∈ mapped_range o start
     | Err _ => cm' = cm /\ exists P, commits (w_pcm w) (w_pcm w') P /\ forall a, P a = true -> free_in cm a
     | Panic => False
     end.

Lemma mmap_maps pid o cm (w : World BV PL) :
  pcm_wf (w_pcm w) -> cm_wf (w_pcm w) cm -> pid <> 0 -> simple_initializer (opt_initializer o) ->
  (forall fb, VMInitializer_backed_file (opt_initializer o) = Some fb -> is_u64 (fb_offset fb)) ->
  request_ok (opt_size o) (opt_align o) (opt_addr o) -> is_force (opt_addr o) = false ->
  maps pid o cm w (ChunkManager_mmap pid o (cm, w)).
Proof.
  intros Hg Hcm Hpid Hi Hoff Hreq Hnf. unfold ChunkManager_mmap.
  rewrite (bind_ok _ _ _ tt (cm, w)) by (by destruct (opt_addr o)).
  rewrite (bind_ok _ _ _ cm (cm, w)) by done.
  pose proof (alloc_fails_ok _ _ _ _ (cw_free_ok _ _ Hcm) Hreq) as Hfail.
  destruct (find_free_range_internal _ _ _ _) as [[r l']|e|] eqn:Hf; [| |done]; cycle 1.
  { do 3 (split; [done|]). exists (fun _ => false). split; [by apply commits_refl|done]. }
  destruct (alloc_sound _ _ _ _ _ _ (cw_free_ok _ _ Hcm) Hreq Hf) as (Hr & Hsz & He & Hlim & Hm & Hsub & Hl' & Hin).
  pose proof (alloc_policy_ok _ _ _ _ _ _ (cw_free_ok _ _ Hcm) Hreq Hf) as Hpol.
  pose proof (alloc_free_inverse _ _ _ _ _ _ (cw_free_ok _ _ Hcm) Hreq Hf) as [Hback _].
  rewrite (free_in_spec _ _ Hcm) in Hpol. pose proof (proj1 Hreq).
  assert (Hfree : forall a, a ∈ r -> free_in cm a) by (intros a Ha; by apply (free_in_spec _ _ Hcm), Hsub).
  destruct (new_area_spec pid o cm w r) as (res & w' & P & Hrun & Hc & HP & Hcm' & Hres); auto; [lia|].
  rewrite (bind_ok _ _ _ (r, l') (cm, w)) by done.
  rewrite (bind_ok _ _ _ tt (mkChunkManager (cm_range cm) (cm_free_size cm) (cm_vmas cm) l', w)) by done.
  rewrite (bind_ok _ _ _ res (mkChunkManager (cm_range cm) (cm_free_size cm) (cm_vmas cm) l', w'))
    by by apply on_world_ok.
  assert (Hmr : mapped_range o (vm_start r) = r) by (unfold mapped_range; rewrite <- He; by destruct r).
  destruct res as [v|e|]; [| |done].
  - destruct Hres as (Hv & Hvr & Ho & Hcell).
    destruct (cm_insert _ cm v l' Hcm' Hv Ho) as (t & n & Hins & Hwf & Hview); rewrite ?Hvr; auto.
    rewrite (bind_ok _ _ _ (mkChunkManager (cm_range cm) (cm_free_size cm) (cm_vmas cm) l')
      (mkChunkManager (cm_range cm) (cm_free_size cm) (cm_vmas cm) l', w')) by done.
    cbn [cm_free_size cm_free_manager]. unfold set_free, set_vmas, mbind, M_bind. cbn [cm_vmas].
    rewrite Hins. split; [exact Hwf|]. split; [done|]. split_and!; auto.
    + split; [done|]. intros x Hx. apply Hfree. vmrange_unfold. lia.
    + intros a. rewrite Hmr. cbn [cm_vmas]. rewrite Hview, Hvr. by case_bool_decide; [rewrite Hcell|].
    + rewrite Hmr. eauto.
  - rewrite new_with_size_Ok; [|apply Hr|apply Hreq|lia|].
    2: { rewrite <- He. pose proof (wf_end_u64 _ Hr). lia. }
    rewrite <- He. replace (mkVMRange (vm_start r) (vm_end r)) with r by (by destruct r).
    rewrite (bind_ok _ _ _ r (mkChunkManager (cm_range cm) (cm_free_size cm) (cm_vmas cm) l', w')) by done.
    unfold self, set_free, fail_with, mbind, M_bind. cbn [fst snd cm_range cm_free_size cm_vmas cm_free_manager].
    rewrite Hback. split; [by destruct cm|]. split; [done|]. split; [by destruct cm|]. exists P. auto.
Qed.

(** What is mapped before the new mapping is placed: [Force] unmaps its range. *)
Definition make_room (pid : Z) (o : VMMapOptions) (a : Z) (c : option Cell) : option Cell :=
  match opt_addr o with
  | Force addr => unmap_at pid (mapped_range o addr) a c
  | _ => c
  end.

(** [Force] is [Need] after an unmapping. *)
Lemma mmap_force pid o addr cm (w : World BV PL) cm1 w1 :
  opt_addr o = Force addr -> ChunkManager_munmap pid addr (opt_size o) (cm, w) = (Ok tt, (cm1, w1)) ->
  ChunkManager_mmap pid o (cm, w)
  = ChunkManager_mmap pid (mkVMMapOptions (opt_size o) (opt_align o) (opt_perms o) (Need addr)
                             (opt_initializer o) (opt_page_policy o)) (cm1, w1).
Proof.
  intros Ho Hrun. unfold ChunkManager_mmap. cbn [opt_addr opt_size opt_align opt_perms opt_initializer].
  rewrite Ho, (bind_ok _ _ _ _ _ Hrun), (bind_ok _ _ _ tt (cm1, w1)) by done.
  by rewrite !(bind_ok _ _ _ cm1 (cm1, w1)), alloc_force_eq by done.
Qed.

Lemma force_range size align addr o :
  request_ok size align (Force addr) -> opt_size o = size -> addr + size < u64_modulus ->
  VMRange_new addr (addr +64 align_up (opt_size o) PAGE_SIZE) = Ok (mapped_range o addr).
Proof.
  intros (Hs & Hsa & _ & _ & Ha & Haa) Ho Hlt. rewrite Ho. unfold mapped_range. rewrite Ho.
  assert (Hup : align_up size PAGE_SIZE = size) by (apply align_up_page_id; unfold is_u64 in *; auto; lia).
  rewrite Hup, add64_small by (unfold is_u64 in *; lia).
  unfold VMRange_new. case_if; boolprop; [|done]. unfold page_aligned in *. pages.
Qed.

Lemma mmap_in_chunk (pid : Z) (o : VMMapOptions) (cm : ChunkManager) (w : World BV PL) :
  pcm_wf (w_pcm w) -> cm_wf (w_pcm w) cm -> pid <> 0 -> simple_initializer (opt_initializer o) ->
  (forall fb, VMInitializer_backed_file (opt_initializer o) = Some fb -> is_u64 (fb_offset fb)) ->
  request_ok (opt_size o) (opt_align o) (opt_addr o) ->
  (forall a, opt_addr o = Force a -> a + opt_size o < u64_modulus) ->
  exists cm1 w1, w_pcm w1 = w_pcm w /\ cm_wf (w_pcm w1) cm1 /\ cm_range cm1 = cm_range cm
    /\ (forall a, view (vmas cm1) a = make_room pid o a (view (vmas cm) a))
    /\ maps pid o cm1 w1 (ChunkManager_mmap pid o (cm, w)).
Proof.
  intros Hg Hcm Hpid Hi Hoff Hreq Hlt. destruct (is_force (opt_addr o)) eqn:Hforce; cycle 1.
  { exists cm, w. split_and!; auto; [|by apply mmap_maps]. intros a. unfold make_room. by destruct (opt_addr o). }
  destruct (opt_addr o) as [| | |addr] eqn:Ho; try done. specialize (Hlt addr eq_refl).
  pose proof Hreq as (Hs & Hsa & Hal & Hlim & Ha & Haa).
  pose proof (force_range _ _ _ o Hreq eq_refl Hlt) as Hnew.
  destruct (munmap_unmaps pid addr (opt_size o) _ cm w Hpid Ha ltac:(lia) Hcm Hnew)
    as (cm1 & w1 & Hrun & Hw1 & Hcm1 & Hrg & Hview).
  exists cm1, w1. rewrite Hw1. split_and!; auto.
  { intros a. unfold make_room. by rewrite Ho, Hview. }
  rewrite (mmap_force _ _ _ _ _ _ _ Ho Hrun).
  pose proof (mmap_maps pid (mkVMMapOptions (opt_size o) (opt_align o) (opt_perms o) (Need addr)
    (opt_initializer o) (opt_page_policy o)) cm1 w1) as Hmaps.
  unfold maps in *. rewrite Hw1 in *. cbn [opt_addr opt_size opt_align opt_perms opt_initializer] in Hmaps.
  rewrite Ho. apply Hmaps; auto.
Qed.

End mmap.

Section any_platform.
Context {BF : Bitflags} {BV : BitVecs} {PL : Platform} {EN : Enclave} {EL : EnclaveLaws} {US : UserSpace}
  {RB : RBTrees}.
Abbreviation vmas cm := (rb_iter (cm_vmas cm)) (only parsing).


End any_platform.

(** * A new chunk *)

Section from.
Context {BF : Bitflags} {BV : BitVecs} {PL : Platform} {EN : Enclave} {US : UserSpace} {RB : RBTrees}.

Abbreviation vmas cm := (rb_iter (cm_vmas cm)) (only parsing).

(** A sentry has no pages, and making one changes nothing. *)
Lemma VMArea_new_empty (w : World BV PL) x perms file pid :
  exists v, VMArea_new (mkVMRange x x) perms file pid w = (Ok v, w)
    /\ va_range v = mkVMRange x x /\ va_access v = Private pid.
Proof.
  unfold VMArea_new, PageTracker_new_vma_tracker, VMRange_size. simpl.
  assert (x -64 x = 0) as -> by (rewrite sub64_small; unfold64; lia).
  destruct (EPCMemType_new _); eexists; (split; [reflexivity|]); done.
Qed.

(** A new chunk has no areas and is all free. *)
Lemma ChunkManager_from_spec (w : World BV PL) addr size :
  page_aligned addr -> page_aligned size -> 0 <= addr -> 0 < size -> addr + size <= addr_limit ->
  off_gap (mkVMRange addr (addr + size)) ->
  exists cm, ChunkManager_from addr size w = (Ok cm, w) /\ cm_wf (w_pcm w) cm
    /\ cm_range cm = mkVMRange addr (addr + size) /\ forall a, view (vmas cm) a = None.
Proof.
  intros Ha Hs H0 Hpos Hlim Hgap. set (r := mkVMRange addr (addr + size)).
  assert (addr_limit < u64_modulus) by reflexivity.
  assert (Hr : VMRange_wf r).
  { constructor; simpl; try lia; auto. unfold page_aligned in *. rewrite Z.add_mod, Ha, Hs by done. done. }
  assert (Hnew : VMRange_new addr (addr +64 size) = Ok r).
  { rewrite add64_small by lia. unfold VMRange_new. case_if; boolprop; [|done].
    destruct Hr as [? ? ? H1 H2]. unfold page_aligned in *. simpl in *. lia. }
  assert (He : forall x, page_aligned x -> VMRange_new_empty x = Ok (mkVMRange x x)).
  { intros x Hx. unfold VMRange_new_empty. by rewrite Hx. }
  destruct (VMArea_new_empty w addr 0 None 0) as (s & Hsrun & Hsr & Hsa).
  destruct (VMArea_new_empty w (addr + size) 0 None 0) as (e & Herun & Her & Hea).
  unfold ChunkManager_from. rewrite Hnew, (bind_ok _ _ _ r w) by done. cbv zeta. cbn [r vm_start vm_end].
  rewrite (He addr Ha), (bind_ok _ _ _ (mkVMRange addr addr) w), (bind_ok _ _ _ _ _ Hsrun) by done.
  rewrite (He (addr + size)), (bind_ok _ _ _ (mkVMRange (addr + size) (addr + size)) w),
    (bind_ok _ _ _ _ _ Herun) by (done || apply Hr).
  destruct (rb_insert_at vma_key s rb_new [] []) as (t1 & Hi1 & Ht1);
    [rewrite rb_new_law; constructor|by rewrite rb_new_law|constructor..|].
  simpl in Ht1. destruct (rb_insert_at vma_key e t1 [s] []) as (t2 & Hi2 & Ht2);
    [rewrite Ht1; repeat constructor|done| |constructor|].
  { constructor; [|done]. unfold vma_key. rewrite Hsr, Her. simpl. lia. }
  rewrite Hi1, Hi2. eexists. split; [reflexivity|]. simpl in Ht2.
  assert (Hn : forall a, ~ in_areas a [s; e]).
  { intros a. rewrite !in_areas_cons, in_areas_nil, Hsr, Her. vmrange_unfold. lia. }
  split_and!; [|done|intros a; cbn [cm_vmas]; rewrite Ht2; apply view_None, Hn].
  constructor; cbn [cm_range cm_vmas cm_free_manager cm_free_size]; auto; rewrite ?Ht2.
  - exists s, [], e. split_and!; auto; by split.
  - simpl. rewrite Hsr, Her. simpl. lia.
  - unfold FreeSpace_new. split_and!; [|by constructor|by constructor]. constructor; simpl; [lia..|constructor].
  - intros a. unfold FreeSpace_new. rewrite in_ranges_cons, in_ranges_nil. specialize (Hn a). tauto.
  - rewrite VMRange_size_wf by done. simpl. rewrite Hsr, Her. simpl. lia.
Qed.

End from.
