(* ===== verification/ChunkFault.v ===== *)
(** Page faults in a chunk, the end of a process, and the search of [mremap] for
    the area it remaps. *)

From S2P Require Import Prelude Errno Effects External VMRange VMMapOptions VMFreeSpace VMRemap.
From S2P Require Import VMEpc Platform PageTracker VMArea ChunkManager PlatformChunk VMAreaFacts ChunkManagerFacts.
From S2P Require Import ChunkProtect ChunkMerge ChunkMmap.

(** * Looking up an address *)

Section lookup.
Context {BF : Bitflags} {BV : BitVecs} {PL : Platform} {EN : Enclave} {US : UserSpace} {RB : RBTrees}.

Abbreviation vmas cm := (rb_iter (cm_vmas cm)) (only parsing).

(** The element [upper_bound] finds for an address of the chunk is the only area
    that can contain it. *)
Lemma vma_upper_bound_spec g cm a :
  cm_wf g cm -> vm_start (cm_range cm) <= a ->
  exists pre v suf, vmas cm = pre ++ v :: suf /\ vma_upper_bound cm a = Some (length pre, v)
    /\ area_at (vmas cm) a = if VMRange_contains (va_range v) a then Some v else None.
Proof.
  intros Hcm Ha. destruct (upper_bound_split g cm a Hcm Ha) as (pre & v & suf & Hv & Hub & Hle & Hgt).
  exists pre, v, suf. split; [done|]. split.
  - unfold vma_upper_bound. rewrite Hub. cbn. by rewrite Hv, list_lookup_middle.
  - pose proof (cw_ordered _ _ Hcm) as Hord. rewrite Hv in *.
    destruct (VMRange_contains (va_range v) a) eqn:Hc.
    + eapply area_at_middle; [done|]. by apply VMRange_contains_spec.
    + apply area_at_None. rewrite in_areas_app, in_areas_cons, <- VMRange_contains_spec, Hc.
      apply areas_ordered_around in Hord as (Hpre & Hsuf & ?). intros [Hin|[?|Hin]]; [|done|].
      * pose proof (areas_ordered_bound _ _ _ _ Hpre Hin). lia.
      * destruct Hin as (r & Hr & Har). apply list_elem_of_fmap in Hr as (u & -> & Hu).
        rewrite List.Forall_forall in Hgt. specialize (Hgt u ltac:(by apply list_elem_of_In)).
        vmrange_unfold. lia.
Qed.

End lookup.

(** * Page faults *)

Section fault.
Context {BF : Bitflags} {BV : BitVecs} {PL : Platform} {EN : Enclave} {EL : EnclaveLaws} {US : UserSpace}
  {RB : RBTrees}.

Abbreviation vmas cm := (rb_iter (cm_vmas cm)) (only parsing).

Lemma areas_ordered_same lo pre v v' suf hi :
  va_range v' = va_range v -> areas_ordered lo (pre ++ v :: suf) hi -> areas_ordered lo (pre ++ v' :: suf) hi.
Proof.
  intros Hr (mid & H1 & H2)%areas_ordered_app. apply areas_ordered_app. exists mid. simpl in *. by rewrite Hr.
Qed.

(** Exchanging an area for one with the same range. *)
Lemma cm_wf_update g g' cm pre v v' suf t :
  cm_wf g cm -> vmas cm = pre ++ v :: suf -> owned v -> area_wf g' v' -> owned v' ->
  va_range v' = va_range v ->
  (forall u, area_wf g u -> (forall a, a ∈ va_range u -> ~ a ∈ va_range v) -> area_wf g' u) ->
  rb_iter t = pre ++ v' :: suf -> cm_wf g' (with_vmas cm t).
Proof.
  intros Hcm Hv Hvo Hv' Ho' Hr Hother Ht.
  destruct (owned_middle _ _ _ _ _ Hcm Hv Hvo) as (_ & s & l1 & l2 & e & Hpre & Hsuf & Hs & He & Hw & Ho).
  destruct Hcm as [Hrg Hb Hgap _ Hord Hfo Hf Hsz]. rewrite Hv in Hord.
  constructor; cbn [with_vmas cm_range cm_vmas cm_free_manager cm_free_size]; auto; rewrite Ht.
  - exists s, (l1 ++ v' :: l2), e. apply Forall_app in Ho as [Ho1 Ho2]. rewrite !Forall_app, !Forall_cons_iff.
    rewrite Hpre, Hsuf, <- app_assoc. split_and!; auto;
      rewrite List.Forall_forall in Hw |- *; intros u Hu; (apply Hother; [apply Hw, in_app_iff; auto|]);
      intros a Hau Hav; pose proof (areas_ordered_disjoint _ _ _ _ _ _ Hord Hav) as [H1 H2];
      apply list_elem_of_In in Hu.
    + apply H1. apply (in_areas_elem u); [|done]. rewrite Hpre. by right.
    + apply H2. apply (in_areas_elem u); [|done]. rewrite Hsuf. apply elem_of_app. by left.
  - by eapply areas_ordered_same.
  - intros a. by rewrite Hf, Hv, !in_areas_app, !in_areas_cons, Hr.
  - rewrite Hsz, Hv, !areas_size_app. simpl. by rewrite Hr.
Qed.

Lemma view_update pre v v' suf a :
  va_range v' = va_range v -> (forall b, cell v' b = cell v b) ->
  view (pre ++ v' :: suf) a = view (pre ++ v :: suf) a.
Proof.
  intros Hr Hc. rewrite !view_app. destruct (view pre a); [done|]. unfold view. simpl. rewrite Hr.
  destruct (VMRange_contains (va_range v) a); simpl; by rewrite ?Hc.
Qed.

Lemma chunk_page_fault (pid rip pf errcd : Z) (kt : bool) (cm : ChunkManager)
    (w : World BV PL) :
  pid <> 0 -> pcm_wf (w_pcm w) -> cm_wf (w_pcm w) cm -> vm_start (cm_range cm) <= pf ->
  let out := ChunkManager_handle_page_fault pid rip pf errcd kt (cm, w) in
  match area_at (vmas cm) pf with
  | Some v =>
      if bool_decide (va_access v = Private pid) then
        if access_allowed v rip pf errcd then
          match out with
          | (Ok _, (cm', w')) =>
              cm_wf (w_pcm w') cm'
              /\ cm_range cm' = cm_range cm /\ cm_free_manager cm' = cm_free_manager cm
              /\ (forall a, view (vmas cm') a = view (vmas cm) a)
              /\ (va_epc_type v = UserRegion -> committed_in (w_pcm w') (page_of pf) = true)
              /\ commits (w_pcm w) (w_pcm w')
                   (fun a => negb (VMArea_is_fully_committed v)
                             && (if kt || (PF_NUM_THRESHOLD <=? va_pf_count v)
                                 then bool_decide (a ∈ va_range v) else bool_decide (a = page_of pf)))
          | (Err _, _) => False
          | (Panic, _) => VMArea_is_fully_committed v = false /\ commit_fault (fst <$> VMArea_backed_file v)
          end
        else out = (Err EACCES, (cm, w))
      else out = (Err ENOMEM, (cm, w))
  | None => out = (Err ENOMEM, (cm, w))
  end.
Proof.
  intros Hpid Hg Hcm Hst out. subst out. unfold ChunkManager_handle_page_fault.
  rewrite (bind_ok _ _ _ cm (cm, w)) by done.
  destruct (vma_upper_bound_spec _ cm pf Hcm Hst) as (pre & v & suf & Hv & -> & Hat). rewrite Hat.
  destruct (cw_ends _ _ Hcm) as (s & l & e & Hl & [_ Hs] & [_ He] & _ & Ho).
  assert (Hp : exists p, va_access v = Private p).
  { assert (Hin : v ∈ vmas cm) by eauto using elem_of_middle.
    rewrite Hl, elem_of_cons, elem_of_app, list_elem_of_singleton in Hin. destruct Hin as [->|[Hin| ->]]; eauto.
    rewrite List.Forall_forall in Ho. destruct (Ho v) as (p & ? & _); [by apply list_elem_of_In|eauto]. }
  destruct Hp as [p Hp]. rewrite (bind_ok _ _ _ p (cm, w)) by (unfold VMArea_pid; by rewrite Hp).
  destruct (VMRange_contains (va_range v) pf) eqn:Hc; cbn [negb]; [|by rewrite orb_true_r].
  rewrite Hp. destruct (Z.eqb_spec p pid) as [->|Hne]; cbn [negb orb]; cycle 1.
  { rewrite bool_decide_eq_false_2 by congruence. done. }
  rewrite bool_decide_eq_true_2 by done. apply VMRange_contains_spec in Hc.
  assert (Hvo : owned v) by (by exists pid). destruct (owned_middle _ _ _ _ _ Hcm Hv Hvo) as [Hvw _].
  pose proof (area_page_fault w v rip pf errcd kt Hg Hvw Hc) as Hpf.
  unfold mbind, M_bind, on_world. cbn [snd fst].
  destruct (VMArea_handle_page_fault v rip pf errcd kt w) as [[v'|err|] w']; cycle 1.
  { destruct Hpf as (-> & -> & ->). done. }
  { destruct Hpf as (-> & ? & ?). cbn. by split. }
  destruct Hpf as (-> & Hv' & Hr & Hpm & Hfb & Ha & Hpage & Hcom & Hother).
  destruct (cursor_replace_middle cm w' pre v suf v' Hv) as (t & -> & Ht).
  cbn [cm_free_manager with_vmas cm_vmas]. split_and!; auto.
  - eapply cm_wf_update; eauto. exists pid. split; congruence.
  - intros a. rewrite Ht, Hv. apply view_update; [done|]. intros b. unfold cell, file_pos.
    by rewrite Hpm, Ha, Hfb, Hr.
Qed.

(** C28: a page fault is served exactly when the faulting address is mapped by the
    calling process and its permissions allow the access; otherwise it is refused
    with [ENOMEM] or [EACCES] and changes nothing. The LibOS panics only where pages
    had to be committed and an instruction, a host call or the read of the mapped
    file failed. When the fault is served, the faulting page is committed; a user fault
    commits only that page for the first three faults of the area and all of it
    from then on, as a fault of the LibOS does at once. The address map, the
    other areas, their trackers and the free list stay as they were. *)
Theorem ChunkManager_handle_page_fault_spec (pid rip pf errcd : Z) (kt : bool) (cm : ChunkManager)
    (w : World BV PL) :
  pid <> 0 -> pcm_wf (w_pcm w) -> cm_wf (w_pcm w) cm -> vm_start (cm_range cm) <= pf ->
  let out := ChunkManager_handle_page_fault pid rip pf errcd kt (cm, w) in
  match area_at (vmas cm) pf with
  | Some v =>
      if bool_decide (va_access v = Private pid) then
        if access_allowed v rip pf errcd then
          match out with
          | (Ok _, (cm', w')) =>
              cm_wf (w_pcm w') cm'
              /\ cm_range cm' = cm_range cm /\ cm_free_manager cm' = cm_free_manager cm
              /\ (forall a, view (vmas cm') a = view (vmas cm) a)
              /\ (va_epc_type v = UserRegion -> committed_in (w_pcm w') (page_of pf) = true)
              /\ commits (w_pcm w) (w_pcm w')
                   (fun a => negb (VMArea_is_fully_committed v)
                             && (if kt || (PF_NUM_THRESHOLD <=? va_pf_count v)
                                 then bool_decide (a ∈ va_range v) else bool_decide (a = page_of pf)))
          | (Err _, _) => False
          | (Panic, _) => VMArea_is_fully_committed v = false /\ commit_fault (fst <$> VMArea_backed_file v)
          end
        else out = (Err EACCES, (cm, w))
      else out = (Err ENOMEM, (cm, w))
  | None => out = (Err ENOMEM, (cm, w))
  end.
Proof. apply chunk_page_fault. Qed.

End fault.

(** * The end of a process *)

Section clean.
Context {BF : Bitflags} {BV : BitVecs} {PL : Platform} {EN : Enclave} {REL : ReliableEnclave} {US : UserSpace}
  {RB : RBTrees}.

Abbreviation vmas cm := (rb_iter (cm_vmas cm)) (only parsing).

(** Nothing remains of an area that is cut whole. *)
Lemma area_rest_whole g v : area_wf g v -> area_rest g v v [].
Proof.
  intros Hv. pose proof (aw_nonempty _ _ Hv). constructor; simpl; auto with lia; try done.
  - by rewrite !Z.ltb_irrefl.
  - intros a. rewrite in_areas_nil. tauto.
Qed.

Lemma is_part_refl g v : area_wf g v -> is_part g v v.
Proof. intros Hv. by split_and!. Qed.

(** Removing one area of the process. *)
Lemma clean_step pid cm (w : World BV PL) pre v suf :
  cm_wf (w_pcm w) cm -> vmas cm = pre ++ v :: suf -> owned v -> va_access v = Private pid ->
  exists cm' w', (_ ← on_world (unwrapM (VMArea_flush_and_clean_memory v));
                  _ ← add_range_back (va_range v); cursor_remove (length pre)) (cm, w) = (Ok tt, (cm', w'))
    /\ w_pcm w' = w_pcm w /\ cm_wf (w_pcm w) cm' /\ cm_range cm' = cm_range cm /\ vmas cm' = pre ++ suf
    /\ forall a, view (vmas cm') a = if bool_decide (a ∈ va_range v) then None else view (vmas cm) a.
Proof.
  intros Hcm Hv Ho Hacc. destruct (owned_middle _ _ _ _ _ Hcm Hv Ho) as [Hvw _].
  destruct (mem_only_unwrapM _ (mem_only_flush_and_clean (w_pcm w) v Hvw) w) as ([] & w' & Hf & Hw').
  set (cm1 := mkChunkManager (cm_range cm) (cm_free_size cm +64 VMRange_size (va_range v)) (cm_vmas cm)
                (add_range_back_to_free_manager (cm_free_manager cm) (va_range v))).
  destruct (cursor_remove_middle cm1 w' pre v suf Hv) as (t & Hr & Ht).
  exists (with_vmas cm1 t), w'. rewrite (bind_ok _ _ _ tt (cm, w')) by by apply on_world_ok.
  rewrite (bind_ok _ _ _ tt (cm1, w')) by done. split_and!; auto.
  - eapply (cm_wf_cut (w_pcm w) cm pre v suf v [] t); eauto using is_part_refl, area_rest_whole; lia.
  - intros a. cbn [with_vmas cm_vmas]. rewrite Ht, Hv. pose proof (cw_ordered _ _ Hcm) as Hord. rewrite Hv in Hord.
    apply (view_replace _ _ _ _ _ [] a Hord). simpl. pose proof (aw_nonempty _ _ Hvw). lia.
Qed.

Lemma clean_loop_spec pid fuel : pid <> 0 -> forall cm (w : World BV PL) pre rest,
  cm_wf (w_pcm w) cm -> vmas cm = pre ++ rest -> (length rest < fuel)%nat ->
  unmaps pid (cm_range cm) (clean_vmas_loop pid fuel (length pre)) cm w rest.
Proof.
  intros Hpid. induction fuel as [|fuel IH]; intros cm w pre rest Hcm Hv Hfuel; [lia|].
  unfold unmaps. cbn [clean_vmas_loop]. destruct rest as [|v suf].
  { rewrite app_nil_r in Hv. rewrite (bind_ok _ _ _ _ _ (cursor_get_end cm w pre Hv)). by exists cm, w. }
  rewrite (bind_ok _ _ _ _ _ (cursor_get_middle cm w pre v suf Hv)). simpl in Hfuel.
  pose proof (cw_ordered _ _ Hcm) as Hord. rewrite Hv in Hord.
  pose proof (fun a => view_middle _ _ _ _ _ a Hord) as Hview. rewrite <- Hv in Hview.
  destruct (negb _ || _) eqn:Hskip.
  - destruct (IH cm w (pre ++ [v]) suf) as (cm' & w' & Hrun & Hw & Hcm' & Hrg & Hvw); auto;
      [by rewrite <- app_assoc|lia|].
    exists cm', w'. rewrite length_app, Nat.add_1_r in Hrun. split_and!; auto. intros a. rewrite Hvw.
    symmetry. apply updated_in_skip. intros Ha. split; [by apply (areas_ordered_disjoint _ _ _ _ _ a Hord)|].
    rewrite Hview by done. apply unmap_at_other. simpl. intros Hacc. apply orb_true_iff in Hskip as [Hb|Hsz].
    + unfold VMArea_belong_to in Hb. rewrite Hacc in Hb. boolprop. lia.
    + boolprop. by eapply (VMArea_size_in _ cm v); eauto using elem_of_middle.
  - apply orb_false_iff in Hskip as [Hb _]. apply negb_false_iff in Hb.
    destruct (belongs_owned _ _ v pid Hcm) as [Ho Hacc]; eauto using elem_of_middle.
    destruct (clean_step pid cm w pre v suf Hcm Hv Ho Hacc) as (cm1 & w1 & Hrun & Hw1 & Hcm1 & Hrg1 & Hv1 & Hview1).
    destruct (IH cm1 w1 pre suf) as (cm' & w' & Hrun' & Hw & Hcm' & Hrg & Hvw'); [by rewrite Hw1|done|lia|].
    exists cm', w'. rewrite Hw1, Hrg1 in *. split_and!; auto.
    + revert Hrun. unfold mbind, M_bind.
      destruct (on_world _ _) as [[[]| |] s1]; [|done..].
      destruct (add_range_back _ s1) as [[[]| |] s2]; [|done..]. by intros ->.
    + intros a. rewrite Hvw'. apply (updated_in_step v []).
      * intros Ha. rewrite Hview1, bool_decide_eq_true_2, Hview by done. simpl. rewrite Hacc.
        rewrite !bool_decide_eq_true_2; auto. apply areas_ordered_around in Hord as (_ & _ & ? & ?).
        vmrange_unfold. lia.
      * intros Ha. by rewrite Hview1, bool_decide_eq_false_2.
      * intros []%in_areas_nil.
Qed.

Lemma clean_vmas_unmaps pid cm (w : World BV PL) :
  pid <> 0 -> cm_wf (w_pcm w) cm ->
  unmaps_range pid (cm_range cm) (ChunkManager_clean_vmas_with_pid pid) cm w.
Proof.
  intros Hpid Hcm. unfold ChunkManager_clean_vmas_with_pid.
  destruct (clean_loop_spec pid (S (length (vmas cm))) Hpid cm w [] (vmas cm) Hcm eq_refl) as
    (cm' & w' & Hrun & Hw & Hcm' & Hr & Hview); [lia|].
  exists cm', w'. rewrite (bind_ok _ _ _ cm (cm, w)) by done. split_and!; auto.
  intros a. rewrite Hview. unfold updated_in.
  destruct (area_at (vmas cm) a) as [v|] eqn:Hat; [done|]. unfold view. by rewrite Hat.
Qed.

(** when a process ends, exactly its memory goes. [clean_vmas_with_pid] succeeds,
    unmaps every area of the process in the chunk, gives all of it back to the free
    list, and leaves what other processes have mapped as it was. *)
Theorem clean_vmas_with_pid_spec (pid : Z) (cm : ChunkManager) (w : World BV PL) :
  pid <> 0 -> cm_wf (w_pcm w) cm ->
  exists cm' w', ChunkManager_clean_vmas_with_pid pid (cm, w) = (Ok tt, (cm', w'))
    /\ cm_wf (w_pcm w') cm' /\ w_pcm w' = w_pcm w
    /\ forall a, view (vmas cm') a = match view (vmas cm) a with
                                     | Some (p, acc, f) => if bool_decide (acc = Private pid) then None
                                                           else Some (p, acc, f)
                                     | None => None
                                     end.
Proof.
  intros Hpid Hcm. destruct (clean_vmas_unmaps pid cm w Hpid Hcm) as (cm' & w' & Hrun & Hw & Hcm' & _ & Hview).
  exists cm', w'. rewrite Hw. split_and!; auto. intros a. rewrite Hview. unfold unmap_at.
  destruct (view (vmas cm) a) as [[[p acc] f]|] eqn:Hva; [|done]. simpl.
  assert (a ∈ cm_range cm).
  { destruct (decide (a ∈ cm_range cm)); [done|]. by rewrite (view_range _ _ _ Hcm) in Hva. }
  by rewrite (bool_decide_eq_true_2 (a ∈ cm_range cm)), andb_true_r.
Qed.

End clean.

(** * The area of an [mremap] *)

Section mremap.
Context {BF : Bitflags} {BV : BitVecs} {PL : Platform} {EN : Enclave} {US : UserSpace} {RB : RBTrees}.

Abbreviation vmas cm := (rb_iter (cm_vmas cm)) (only parsing).

(** The area is the caller's and contains the range. *)
Definition contains_for (pid : Z) (r : VMRange) (v : VMArea) : bool :=
  VMArea_belong_to v pid && VMRange_is_superset_of (va_range v) r.

Lemma find_containing_spec pid r l e :
  vm_end r < vm_start (va_range e) ->
  exists l1 u l2, l ++ [e] = l1 ++ u :: l2 /\ find_containing pid r (l ++ [e]) = Some u
    /\ Forall (fun v => contains_for pid r v = false) l1
    /\ (contains_for pid r u = true \/ vm_end r < vm_start (va_range u)).
Proof.
  intros He. induction l as [|v l IH]; simpl.
  { exists [], e, []. destruct (Z.leb_spec (vm_start (va_range e)) (vm_end r)); [lia|]. simpl. auto. }
  destruct (Z.leb_spec (vm_start (va_range v)) (vm_end r)); simpl.
  - fold (contains_for pid r v). destruct (contains_for pid r v) eqn:Hc.
    + exists [], v, (l ++ [e]). auto.
    + destruct IH as (l1 & u & l2 & Heq & Hf & Hl1 & Hu). exists (v :: l1), u, l2.
      split_and!; [by rewrite Heq|done|by constructor|done].
  - exists [], v, (l ++ [e]). auto.
Qed.

(** [mremap] in a chunk never answers [EFAULT]. The areas are merged first, and if one
    area of the caller contains the old range, that area is remapped. If none does, the
    search stops at the first area that starts above the range, whoever owns it,
    or at the end sentry, and the request is answered as if that area contained the
    old range. *)
Theorem parse_mremap_options_spec (pid : Z) (o : VMRemapOptions) (r : VMRange) (cm : ChunkManager)
    (w : World BV PL) :
  pcm_wf (w_pcm w) -> cm_wf (w_pcm w) cm ->
  VMRange_new_with_size (ro_old_addr o) (ro_old_size o) = Ok r ->
  vm_start (cm_range cm) <= vm_start r -> vm_start r < vm_end r -> vm_end r < vm_end (cm_range cm) ->
  exists cm' w' u,
    ChunkManager_parse_mremap_options pid o (cm, w)
    = (VMRemapParser_parse (ChunkManager_is_free_range cm') o (remap_vma_of u), (cm', w'))
    /\ cm_wf (w_pcm w') cm' /\ merged (vmas cm') /\ (forall a, wb_view (vmas cm') a = wb_view (vmas cm) a)
    /\ u ∈ vmas cm'
    /\ if existsb (contains_for pid r) (vmas cm') then contains_for pid r u = true
       else vm_end r < vm_start (va_range u).
Proof.
  intros Hg Hcm Hr Hst Hne Hend. unfold ChunkManager_parse_mremap_options.
  rewrite Hr, (bind_ok _ _ _ r (cm, w)) by done.
  destruct (merge_all_vmas_merges cm w Hg Hcm) as (cm' & w' & Hrun & Hcm' & _ & Hm & Hrg & _ & Hview).
  rewrite (bind_ok _ _ _ _ _ Hrun). rewrite <- Hrg in *.
  destruct (upper_bound_split _ cm' (vm_start r) Hcm' Hst) as (pre & v & suf & Hv & Hub & Hle & _).
  assert (Hcur : cursor_upper_bound (vm_start r) (cm', w') = (Ok (length pre), (cm', w')))
    by (unfold cursor_upper_bound; rewrite (bind_ok _ _ _ cm' (cm', w')) by done; by rewrite Hub).
  rewrite (bind_ok _ _ _ _ _ Hcur), (bind_ok _ _ _ cm' (cm', w')) by done.
  rewrite Hv, drop_app_length.
  destruct (cw_ends _ _ Hcm') as (s & l & e & Hl & _ & [He _] & _).
  assert (Hlast : exists mid, v :: suf = mid ++ [e]).
  { destruct (list_snoc_cases (v :: suf)) as [|(mid & e' & Heq)]; [done|]. exists mid.
    rewrite Heq in Hv. rewrite Hv, app_assoc, app_comm_cons in Hl. by apply app_inj_tail in Hl as [_ ->]. }
  destruct Hlast as [mid Hmid]. rewrite Hmid.
  destruct (find_containing_spec pid r mid e) as (l1 & u & l2 & Hlu & -> & Hl1 & Hu); [rewrite He; simpl; lia|].
  exists cm', w', u. split; [done|]. rewrite <- Hmid in Hlu. split_and!; auto.
  { rewrite Hv, Hlu. rewrite !elem_of_app, elem_of_cons. auto. }
  destruct (existsb _ _) eqn:Hex; cycle 1.
  { destruct Hu as [Hu|Hu]; [|done]. apply not_true_iff_false in Hex. exfalso. apply Hex, existsb_exists.
    exists u. split; [|done]. apply list_elem_of_In. rewrite Hv, Hlu, !elem_of_app, elem_of_cons. auto. }
  destruct Hu as [Hu|Hgt]; [done|]. exfalso.
  apply existsb_exists in Hex as (x & Hx & Hcx). pose proof (cw_ordered _ _ Hcm') as Hord.
  rewrite Hv in Hx, Hord. pose proof Hcx as Hsup. unfold contains_for, VMRange_is_superset_of in Hsup. boolprop.
  apply in_app_iff in Hx as [Hx|Hx].
  - apply areas_ordered_around in Hord as (Hpre & _). apply areas_ordered_ends in Hpre.
    rewrite List.Forall_forall in Hpre. specialize (Hpre x Hx). lia.
  - rewrite Hlu, app_assoc in Hord. rewrite Hlu in Hx. apply in_app_iff in Hx as [Hx|[<-|Hx]]; [|lia|].
    + rewrite List.Forall_forall in Hl1. specialize (Hl1 x Hx). congruence.
    + apply areas_ordered_around in Hord as (_ & Hl2 & ? & _).
      pose proof (areas_ordered_starts _ _ _ _ Hl2 (Z.le_refl _)) as Hst2.
      rewrite List.Forall_forall in Hst2. specialize (Hst2 x Hx). simpl in Hst2. lia.
Qed.

End mremap.

(** * Witnesses *)

Section witnesses.
#[local] Existing Instances bitflags_bits bitvec_list flat_platform flat_enclave example_space rbtree_list.

Abbreviation vmas cm := (rb_iter (cm_vmas cm)) (only parsing).

(** Two anonymous pages, and what the address map shows there. *)
Definition example_options : VMMapOptions :=
  mkVMMapOptions 8192 4096 VMPerms_DEFAULT (Need (2 ^ 28 + 4096)) DoNothing CommitOnDemand.
Definition example_cell : Cell := (VMPerms_DEFAULT, Private 1, None).

Lemma example_new_chunk :
  exists cm, ChunkManager_from (2 ^ 28) (2 ^ 25) empty_world = (Ok cm, empty_world)
    /\ cm_wf (w_pcm empty_world) cm /\ cm_range cm = mkVMRange (2 ^ 28) (2 ^ 28 + 2 ^ 25)
    /\ forall a, view (vmas cm) a = None.
Proof.
  apply ChunkManager_from_spec; try done.
  split; [constructor; by vm_compute|right; by vm_compute].
Qed.

Lemma example_request : request_ok 8192 4096 (Need (2 ^ 28 + 4096)).
Proof. by split_and!. Qed.

(** The flat platform does not fail. *)
Lemma flat_no_fault file : ~ commit_fault (EN := flat_enclave) file.
Proof.
  intros [[]|(f & _ & m & off & buf & e & [=])]; cbn in *; try done; [by eapply H|by eapply H|by eapply H].
Qed.


Definition example_mapped : VMRange := mkVMRange (2 ^ 28 + 4096) (2 ^ 28 + 12288).

(** A chunk in which process 1 has mapped the two pages. *)
Lemma example_chunk :
  exists (cm : ChunkManager) (w : World bitvec_list flat_platform),
    pcm_wf (w_pcm w) /\ cm_wf (w_pcm w) cm /\ cm_range cm = mkVMRange (2 ^ 28) (2 ^ 28 + 2 ^ 25)
    /\ forall a, view (vmas cm) a = if bool_decide (a ∈ example_mapped) then Some example_cell else None.
Proof.
  destruct example_new_chunk as (cm & Hfrom & Hcm & Hrg & Hnone).
  assert (Hok : match ChunkManager_from (2 ^ 28) (2 ^ 25) empty_world with
    | (Ok cm, w) => match ChunkManager_mmap 1 example_options (cm, w) with
                    | (Ok _, (cm', _)) => bool_decide (cm_range cm' = mkVMRange (2 ^ 28) (2 ^ 28 + 2 ^ 25))
                    | _ => false end
    | _ => false end = true) by (vm_compute; reflexivity).
  rewrite Hfrom in Hok.
  pose proof (mmap_maps 1 example_options cm empty_world empty_world_wf Hcm) as Hmaps.
  specialize (Hmaps ltac:(done) I ltac:(intros fb [=]) example_request eq_refl). unfold maps in Hmaps.
  destruct (ChunkManager_mmap 1 example_options (cm, empty_world)) as [[start| |] [cm' w']]; [|done..].
  destruct Hmaps as (Hcm' & _ & _ & Hpol & Hview & P & (Hg' & _) & _). simpl in Hpol. subst start.
  exists cm', w'. split_and!; auto; [by apply bool_decide_eq_true in Hok|].
  intros a. rewrite Hview, Hnone.
  assert (mapped_range example_options (2 ^ 28 + 4096) = example_mapped) as -> by (vm_compute; reflexivity).
  by destruct (bool_decide (a ∈ example_mapped)).
Qed.

Lemma ChunkManager_munmap_spec_witness :
  exists (cm cm' : ChunkManager) (w w' : World bitvec_list flat_platform),
    view (vmas cm) (2 ^ 28 + 4096) = Some example_cell
    /\ ChunkManager_munmap 1 (2 ^ 28 + 4096) 100 (cm, w) = (Ok tt, (cm', w'))
    /\ view (vmas cm') (2 ^ 28 + 4096) = None /\ view (vmas cm') (2 ^ 28 + 8192) = Some example_cell.
Proof.
  destruct example_chunk as (cm & w & Hg & Hcm & Hrg & Hview).
  destruct (ChunkManager_munmap_spec 1 (2 ^ 28 + 4096) 100 cm w) as [(cm' & w' & Hrun & _ & _ & _ & Hv')|[_ HF]];
    [done|by vm_compute|done| |destruct (flat_no_fault None); by left].
  exists cm, cm', w, w'. rewrite !Hv', !Hview. split_and!; [by vm_compute|exact Hrun|by vm_compute..].
Defined.

Lemma ChunkManager_mprotect_spec_witness :
  exists (cm cm' : ChunkManager) (w w' : World bitvec_list flat_platform),
    ChunkManager_mprotect 1 (2 ^ 28 + 8192) 4096 VMPerms_READ (cm, w) = (Ok tt, (cm', w'))
    /\ view (vmas cm') (2 ^ 28 + 8192) = Some (VMPerms_READ, Private 1, None).
Proof.
  destruct example_chunk as (cm & w & Hg & Hcm & Hrg & Hview).
  pose proof (ChunkManager_mprotect_spec 1 (2 ^ 28 + 8192) 4096 VMPerms_READ
    (mkVMRange (2 ^ 28 + 8192) (2 ^ 28 + 12288)) cm w ltac:(done) ltac:(by vm_compute) ltac:(by vm_compute) Hg Hcm
    ltac:(reflexivity) ltac:(by rewrite Hrg)) as H.
  destruct (ChunkManager_mprotect _ _ _ _ (cm, w)) as [[[]|e|] [cm' w']] eqn:Hrun.
  - exists cm, cm', w, w'. split; [exact Hrun|]. destruct H as (_ & _ & _ & Hres). rewrite Hres, Hview. by vm_compute.
  - destruct H as (_ & _ & _ & _ & b & (Hb & _ & p & file & off & Hc & _) & _). rewrite Hview in Hc.
    destruct (bool_decide (b ∈ example_mapped)); discriminate Hc.
  - destruct (flat_no_fault None). by left.
Defined.

Lemma merge_all_vmas_spec_witness :
  exists (cm cm' : ChunkManager) (w w' : World bitvec_list flat_platform),
    ChunkManager_merge_all_vmas (cm, w) = (Ok tt, (cm', w')) /\ merged (vmas cm')
    /\ wb_view (vmas cm') (2 ^ 28 + 4096) = Some (wb example_cell).
Proof.
  destruct example_chunk as (cm & w & Hg & Hcm & Hrg & Hview).
  destruct (merge_all_vmas_spec cm w Hg Hcm) as (cm' & w' & Hrun & _ & _ & Hm & _ & _ & Hv').
  exists cm, cm', w, w'. split_and!; [exact Hrun|exact Hm|]. rewrite Hv'. unfold wb_view.
  rewrite Hview. by vm_compute.
Defined.

(** A fault where nothing is mapped is refused, one in the mapped pages commits its page. *)
Lemma ChunkManager_handle_page_fault_spec_witness :
  exists (cm cm' : ChunkManager) (w w' : World bitvec_list flat_platform),
    ChunkManager_handle_page_fault 1 0 (2 ^ 28) 2 false (cm, w) = (Err ENOMEM, (cm, w))
    /\ ChunkManager_handle_page_fault 1 0 (2 ^ 28 + 5000) 2 false (cm, w) = (Ok tt, (cm', w'))
    /\ committed_in (w_pcm w') (2 ^ 28 + 4096) = true.
Proof.
  destruct example_chunk as (cm & w & Hg & Hcm & Hrg & Hview).
  pose proof (ChunkManager_handle_page_fault_spec 1 0 (2 ^ 28) 2 false cm w) as H.
  specialize (H ltac:(done) Hg Hcm ltac:(rewrite Hrg; by vm_compute)).
  pose proof (ChunkManager_handle_page_fault_spec 1 0 (2 ^ 28 + 5000) 2 false cm w) as H2.
  specialize (H2 ltac:(done) Hg Hcm ltac:(rewrite Hrg; by vm_compute)).
  pose proof (Hview (2 ^ 28)) as Hv. pose proof (Hview (2 ^ 28 + 5000)) as Hv2. unfold view in Hv, Hv2.
  rewrite bool_decide_eq_false_2 in Hv by (unfold example_mapped; vmrange_unfold; lia).
  rewrite bool_decide_eq_true_2 in Hv2 by (unfold example_mapped; vmrange_unfold; lia).
  destruct (area_at (vmas cm) (2 ^ 28)); [discriminate Hv|].
  destruct (area_at (vmas cm) (2 ^ 28 + 5000)) as [v|] eqn:Hat; [|discriminate Hv2].
  injection Hv2 as Hp Ha Hf. cbv zeta in H2.
  assert (Hin : bool_decide (va_access v = Private 1) = true) by (apply bool_decide_eq_true_2; exact Ha).
  rewrite Hin in H2.
  assert (Hacc : access_allowed v 0 (2 ^ 28 + 5000) 2 = true) by (unfold access_allowed; rewrite Hp; reflexivity).
  rewrite Hacc in H2.
  destruct (ChunkManager_handle_page_fault 1 0 (2 ^ 28 + 5000) 2 false (cm, w)) as [[[]|e|] [cm' w']] eqn:Hrun.
  - exists cm, cm', w, w'. split_and!; [exact H|exact Hrun|]. destruct H2 as (_ & _ & _ & _ & Hc & _).
    replace (2 ^ 28 + 4096) with (page_of (2 ^ 28 + 5000)) by (vm_compute; reflexivity). apply Hc.
    destruct (area_at_Some _ _ _ Hat) as [Hvin Hvpf]. apply list_elem_of_split in Hvin as (pre & suf & Hl).
    destruct (owned_middle _ _ _ _ _ Hcm Hl) as [Hvw _]; [exists 1; by split|].
    rewrite (aw_epc _ _ Hvw). unfold EPCMemType_new. cbn.
    destruct (Z.leb_spec (vm_end (va_range v)) (2 ^ 27)); [|done]. vmrange_unfold. lia.
  - destruct H2.
  - destruct H2 as [_ H2]. destruct (flat_no_fault _ H2).
Defined.

Lemma clean_vmas_with_pid_spec_witness :
  exists (cm cm' : ChunkManager) (w w' : World bitvec_list flat_platform),
    view (vmas cm) (2 ^ 28 + 4096) = Some example_cell
    /\ ChunkManager_clean_vmas_with_pid 1 (cm, w) = (Ok tt, (cm', w'))
    /\ view (vmas cm') (2 ^ 28 + 4096) = None.
Proof.
  destruct example_chunk as (cm & w & Hg & Hcm & Hrg & Hview).
  destruct (clean_vmas_with_pid_spec 1 cm w) as (cm' & w' & Hrun & _ & _ & Hv'); [done|done|].
  exists cm, cm', w, w'. rewrite Hv', !Hview. split_and!; [by vm_compute|exact Hrun|by vm_compute].
Defined.

(** Process 2 remaps an unmapped page and is not refused. *)
Lemma parse_mremap_options_spec_witness :
  exists (cm cm' : ChunkManager) (w w' : World bitvec_list flat_platform) (u : VMArea),
    ChunkManager_parse_mremap_options 2 (mkVMRemapOptions (2 ^ 28 + 65536) 4096 8192 MayMove) (cm, w)
    = (VMRemapParser_parse (ChunkManager_is_free_range cm')
         (mkVMRemapOptions (2 ^ 28 + 65536) 4096 8192 MayMove) (remap_vma_of u), (cm', w'))
    /\ view (vmas cm) (2 ^ 28 + 65536) = None.
Proof.
  destruct example_chunk as (cm & w & Hg & Hcm & Hrg & Hview).
  destruct (parse_mremap_options_spec 2 (mkVMRemapOptions (2 ^ 28 + 65536) 4096 8192 MayMove)
    (mkVMRange (2 ^ 28 + 65536) (2 ^ 28 + 69632)) cm w Hg Hcm) as (cm' & w' & u & Hrun & _);
    [reflexivity|rewrite Hrg; by vm_compute|by vm_compute|rewrite Hrg; by vm_compute|].
  exists cm, cm', w, w', u. split; [exact Hrun|]. rewrite Hview. by vm_compute.
Defined.

End witnesses.
