(* ===== verification/VMChunk.v ===== *)
(** Chunks: [src/libos/src/vm/chunk.rs], and the sets of them that the manager and
    the processes keep.

    A chunk is a range of user memory together with either one area or a chunk
    manager for many. Chunks are shared: the manager of the user space and every
    process that uses a chunk hold references to the same object. *)

From stdpp Require Import gmap.
From S2P Require Import Prelude Errno Effects External VMRange VMMapOptions VMFreeSpace VMRemap.
From S2P Require Import VMEpc PageTracker VMArea ChunkManager.

Record Chunk := mkChunk {
  ck_range : VMRange;
  ck_internal : positive;   (* the mutex around the [ChunkType] *)
}.

(** What is configured, and what depends on other threads and on hashing.
    [chunk_busy] says whether another thread holds the lock of a chunk when
    [try_lock] is called. The iteration order of a [HashSet] is unspecified:
    after an insertion it is any permutation. *)
Class VMEnv := {
  enable_posix_shm : bool;
  chunk_busy : Chunk -> bool;
  hash_order : list Chunk -> list Chunk;
  hash_order_perm l : hash_order l ≡ₚ l;
}.

#[export] Instance Chunk_eq_dec : EqDecision Chunk.
Proof. solve_decision. Defined.

Abbreviation CHUNK_DEFAULT_SIZE := (32 * 1024 * 1024 : Z).

(** [impl PartialEq] and [impl Ord]. *)
Definition Chunk_eq (self other : Chunk) : bool := bool_decide (ck_range self = ck_range other).
Definition Chunk_cmp (self other : Chunk) : comparison :=
  Z.compare (vm_start (ck_range self)) (vm_start (ck_range other)).

(** [BTreeSet<ChunkRef>], in order. *)
Fixpoint btree_insert (c : Chunk) (l : list Chunk) : list Chunk :=
  match l with
  | [] => [c]
  | d :: l' => match Chunk_cmp c d with
               | Lt => c :: l
               | Eq => l
               | Gt => d :: btree_insert c l'
               end
  end.
Definition btree_remove (c : Chunk) (l : list Chunk) : list Chunk :=
  List.filter (fun d => match Chunk_cmp c d with Eq => false | _ => true end) l.

Section chunk.
Context {BF : Bitflags} {BV : BitVecs} {PL : Platform} {EN : Enclave} {US : UserSpace} {RB : RBTrees} {VE : VMEnv}.

(** [HashSet<ChunkRef>], in iteration order. *)
Definition hash_insert (c : Chunk) (l : list Chunk) : list Chunk :=
  if existsb (Chunk_eq c) l then l else hash_order (c :: l).
Definition hash_remove (c : Chunk) (l : list Chunk) : list Chunk :=
  List.filter (fun d => negb (Chunk_eq c d)) l.

Record ChunkInternal := mkChunkInternal {
  ci_chunk_manager : ChunkManager;
  ci_process_set : gset Z;
}.

Inductive ChunkType :=
| SingleVMA (vma : VMArea)
| MultiVMA (internal : ChunkInternal).

(** [ProcessVM] of [process_vm.rs]. *)
Record ProcessVM := mkProcessVM {
  pv_elf_ranges : list VMRange;
  pv_heap_range : VMRange;
  pv_stack_range : VMRange;
  pv_brk : Z;
  pv_mem_chunks : list Chunk;
}.

Definition ProcessVM_default : ProcessVM :=
  mkProcessVM [] (mkVMRange 0 0) (mkVMRange 0 0) 0 [].

(** [InternalVMManager] of [vm_manager.rs] with the shared chunks of its
    [ShmManager] by inode; [fast_default_chunks] is never used. *)
Record InternalVMManager := mkInternalVMManager {
  im_chunks : list Chunk;
  im_free_manager : VMFreeSpaceManager;
  im_shared_chunks : gmap Z Chunk;
}.

(** The memory of the whole LibOS: the manager, the contents of the chunk mutexes,
    the processes, and the enclave. *)
Record VMState := mkVMState {
  vs_manager : InternalVMManager;
  vs_cells : gmap positive ChunkType;
  vs_next_cell : positive;
  vs_procs : gmap Z ProcessVM;
  vs_world : World BV PL;
}.

Abbreviation VS := (M VMState) (only parsing).

(** The calling thread: its process, and whether it is exiting. *)
Record Thread := mkThread { th_pid : Z; th_exited : bool }.

(** * Access to the state *)

Definition set_manager (im : InternalVMManager) : VS unit :=
  modify (fun s => mkVMState im (vs_cells s) (vs_next_cell s) (vs_procs s) (vs_world s)).
Definition set_cell (k : positive) (i : ChunkType) : VS unit :=
  modify (fun s => mkVMState (vs_manager s) (<[k := i]> (vs_cells s)) (vs_next_cell s) (vs_procs s)
                     (vs_world s)).
Definition set_world (w : World BV PL) : VS unit :=
  modify (fun s => mkVMState (vs_manager s) (vs_cells s) (vs_next_cell s) (vs_procs s) w).
Definition set_proc (pid : Z) (p : ProcessVM) : VS unit :=
  modify (fun s => mkVMState (vs_manager s) (vs_cells s) (vs_next_cell s) (<[pid := p]> (vs_procs s))
                     (vs_world s)).

Definition get_proc (s : VMState) (pid : Z) : ProcessVM := default ProcessVM_default (vs_procs s !! pid).
Definition mem_chunks (s : VMState) (pid : Z) : list Chunk := pv_mem_chunks (get_proc s pid).

Definition in_world {A} (c : M (World BV PL) A) : VS A := fun s =>
  let (r, w) := c (vs_world s) in
  (r, mkVMState (vs_manager s) (vs_cells s) (vs_next_cell s) (vs_procs s) w).

(** [self.internal()], and the object behind the lock of each kind. *)
Definition Chunk_internal (self : Chunk) : VS ChunkType := fun s =>
  (unwrap_option (vs_cells s !! ck_internal self), s).
Definition Chunk_get_vma_for_single_vma_chunk (self : Chunk) : VS VMArea :=
  internal ← Chunk_internal self;
  match internal with SingleVMA vma => ok vma | MultiVMA _ => panic end.
Definition set_vma (self : Chunk) (vma : VMArea) : VS unit := set_cell (ck_internal self) (SingleVMA vma).

(** A method of the chunk manager behind the lock of a default chunk. *)
Definition on_manager {A} (self : Chunk) (c : M CState A) : VS A :=
  internal ← Chunk_internal self;
  match internal with
  | MultiVMA i =>
      s ← get;
      let '(r, (cm, w)) := c (ci_chunk_manager i, vs_world s) in
      _ ← set_cell (ck_internal self) (MultiVMA (mkChunkInternal cm (ci_process_set i)));
      _ ← set_world w;
      lift r
  | SingleVMA _ => panic
  end.

(** [for chunk in chunks.iter()]: the elements that satisfy a test of the object
    behind the lock. *)
Fixpoint filter_chunks (f : Chunk -> VS bool) (l : list Chunk) : VS (list Chunk) :=
  match l with
  | [] => ok []
  | c :: l => b ← f c; l ← filter_chunks f l; ok (if (b : bool) then c :: l else l)
  end.

(** [ProcessVM::add_mem_chunk], [remove_mem_chunk] and [replace_mem_chunk] of the
    current process. *)
Definition set_mem_chunks (cur : Thread) (l : list Chunk) : VS unit :=
  s ← get;
  let p := get_proc s (th_pid cur) in
  set_proc (th_pid cur) (mkProcessVM (pv_elf_ranges p) (pv_heap_range p) (pv_stack_range p) (pv_brk p) l).
Definition ProcessVM_add_mem_chunk (cur : Thread) (chunk : Chunk) : VS unit :=
  s ← get; set_mem_chunks cur (hash_insert chunk (mem_chunks s (th_pid cur))).
Definition ProcessVM_remove_mem_chunk (cur : Thread) (chunk : Chunk) : VS unit :=
  s ← get; set_mem_chunks cur (hash_remove chunk (mem_chunks s (th_pid cur))).
Definition ProcessVM_replace_mem_chunk (cur : Thread) (old_chunk new_chunk : Chunk) : VS unit :=
  s ← get;
  set_mem_chunks cur (hash_insert new_chunk (hash_remove old_chunk (mem_chunks s (th_pid cur)))).

(** * [ChunkInternal] *)

Definition ChunkInternal_new (vm_range : VMRange) : M (World BV PL) ChunkInternal :=
  chunk_manager ← ChunkManager_from (vm_start vm_range) (VMRange_size vm_range);
  ok (mkChunkInternal chunk_manager ∅).

Definition ChunkInternal_add_process (self : ChunkInternal) (pid : Z) : ChunkInternal :=
  mkChunkInternal (ci_chunk_manager self) ({[pid]} ∪ ci_process_set self).

Definition ChunkInternal_is_owned_by_current_process (cur : Thread) (self : ChunkInternal) : bool :=
  bool_decide (th_pid cur ∈ ci_process_set self) && (Z.of_nat (size (ci_process_set self)) =? 1).

Definition ChunkInternal_free_size (self : ChunkInternal) : Z := cm_free_size (ci_chunk_manager self).

(** [clean_multi_vmas] of the chunk manager behind the lock; the outcome of
    [clean_vmas_with_pid] is a unit, so only a panic ends it early. *)
Definition ChunkInternal_clean_multi_vmas (cur : Thread) (self : Chunk) : VS bool :=
  _ ← on_manager self (ChunkManager_clean_vmas_with_pid (th_pid cur));
  internal ← Chunk_internal self;
  match internal with
  | MultiVMA i =>
      if ChunkManager_is_empty (ci_chunk_manager i) then
        _ ← set_cell (ck_internal self)
              (MultiVMA (mkChunkInternal (ci_chunk_manager i) (ci_process_set i ∖ {[th_pid cur]})));
        ok true
      else ok false
  | SingleVMA _ => panic
  end.

(** * [Chunk] *)

(** [Arc::new]: a chunk with a new mutex. *)
Definition new_chunk (range : VMRange) (internal : ChunkType) : VS Chunk := fun s =>
  (Ok (mkChunk range (vs_next_cell s)),
   mkVMState (vs_manager s) (<[vs_next_cell s := internal]> (vs_cells s)) (Pos.succ (vs_next_cell s))
     (vs_procs s) (vs_world s)).

Definition Chunk_new_default_chunk (vm_range : VMRange) : VS Chunk :=
  internal_manager ← in_world (ChunkInternal_new vm_range);
  new_chunk vm_range (MultiVMA internal_manager).

Definition Chunk_new_chunk_with_vma (vma : VMArea) : VS Chunk :=
  new_chunk (va_range vma) (SingleVMA vma).

Definition Chunk_new_single_vma_chunk (cur : Thread) (vm_range : VMRange) (options : VMMapOptions)
    : VS Chunk :=
  vm_area ← in_world (
    vma ← VMArea_new vm_range (opt_perms options) (VMInitializer_backed_file (opt_initializer options))
            (th_pid cur);
    VMArea_init_memory vma options);
  Chunk_new_chunk_with_vma vm_area.

Definition Chunk_free_size (self : Chunk) : VS Z :=
  internal ← Chunk_internal self;
  match internal with
  | SingleVMA _ => ok 0
  | MultiVMA i => ok (ChunkInternal_free_size i)
  end.

Definition Chunk_is_owned_by_current_process (cur : Thread) (self : Chunk) : VS bool :=
  s ← get;
  if negb (existsb (fun chunk => bool_decide (ck_range chunk = ck_range self)) (mem_chunks s (th_pid cur)))
  then ok false
  else
    internal ← Chunk_internal self;
    match internal with
    | SingleVMA _ => ok true
    | MultiVMA i => ok (ChunkInternal_is_owned_by_current_process cur i)
    end.

Definition Chunk_add_process (cur : Thread) (self : Chunk) : VS unit :=
  internal ← Chunk_internal self;
  match internal with
  | SingleVMA _ => panic
  | MultiVMA i => set_cell (ck_internal self) (MultiVMA (ChunkInternal_add_process i (th_pid cur)))
  end.

Definition Chunk_mmap (cur : Thread) (self : Chunk) (options : VMMapOptions) : VS Z :=
  on_manager self (
    cm ← ChunkManager.self;
    if cm_free_size cm <? opt_size options then fail_with ENOMEM
    else ChunkManager_mmap (th_pid cur) options).

Definition Chunk_try_mmap (cur : Thread) (self : Chunk) (options : VMMapOptions) : VS Z :=
  if chunk_busy self then fail_with EAGAIN else Chunk_mmap cur self options.

Definition Chunk_is_single_vma (self : Chunk) : VS bool :=
  internal ← Chunk_internal self;
  ok (match internal with SingleVMA _ => true | MultiVMA _ => false end).

Definition Chunk_is_single_dummy_vma (self : Chunk) : VS bool :=
  internal ← Chunk_internal self;
  ok (match internal with SingleVMA vma => VMArea_size vma =? 0 | MultiVMA _ => false end).

Definition Chunk_is_single_vma_with_conflict_size (self : Chunk) : VS bool :=
  internal ← Chunk_internal self;
  ok (match internal with
      | SingleVMA vma => negb (VMArea_size vma =? VMRange_size (ck_range self))
      | MultiVMA _ => false
      end).

Definition Chunk_is_single_vma_chunk_should_be_removed (self : Chunk) : VS bool :=
  internal ← Chunk_internal self;
  ok (match internal with
      | SingleVMA vma =>
          let vma_size := VMArea_size vma in
          (vma_size =? 0) || negb (vma_size =? VMRange_size (ck_range self))
      | MultiVMA _ => false
      end).

Definition Chunk_find_mmap_region (cur : Thread) (self : Chunk) (addr : Z) : VS VMRange :=
  internal ← Chunk_internal self;
  match internal with
  | SingleVMA vma => if VMRange_contains (va_range vma) addr then ok (va_range vma) else fail_with ESRCH
  | MultiVMA i => lift (ChunkManager_find_mmap_region (ci_chunk_manager i) (th_pid cur) addr)
  end.

Definition Chunk_handle_page_fault (cur : Thread) (self : Chunk) (rip pf_addr errcd : Z)
    (kernel_triggers : bool) : VS unit :=
  internal ← Chunk_internal self;
  match internal with
  | SingleVMA vma =>
      vma ← in_world (VMArea_handle_page_fault vma rip pf_addr errcd kernel_triggers);
      set_vma self vma
  | MultiVMA _ =>
      on_manager self (ChunkManager_handle_page_fault (th_pid cur) rip pf_addr errcd kernel_triggers)
  end.

Definition Chunk_is_free_range (self : Chunk) (request_range : VMRange) : VS bool :=
  internal ← Chunk_internal self;
  ok (match internal with
      | SingleVMA _ => false
      | MultiVMA i => ChunkManager_is_free_range (ci_chunk_manager i) request_range
      end).

Definition Chunk_is_shared (self : Chunk) : VS bool :=
  internal ← Chunk_internal self;
  ok (match internal with SingleVMA vma => VMArea_is_shared vma | MultiVMA _ => false end).

End chunk.
