(* ===== verification/ShmManager.v ===== *)
(** Shared file mappings: [src/libos/src/vm/shm_manager.rs].

    With the POSIX shared-memory feature enabled, a file mapped with [MAP_SHARED] has
    one chunk for all processes; the area in it counts the mappings of each
    process. *)

From stdpp Require Import gmap.
From S2P Require Import Prelude Errno Effects External VMRange VMMapOptions VMFreeSpace VMRemap.
From S2P Require Import VMEpc PageTracker VMArea ChunkManager VMChunk.

Inductive MmapSharedResult :=
| Success (addr : Z)
| NeedCreate
| NeedExpand (old_shared_chunk : Chunk) (expand_range : VMRange)
| NeedReplace (chunk : Chunk).

Inductive MunmapSharedResult := StillInUse | Freeable.

(** [MunmapChunkFlag] of [vm_manager.rs]. *)
Inductive MunmapChunkFlag := MunmapDefault | MunmapForce | OnProcessExit.

#[export] Instance MunmapChunkFlag_eq_dec : EqDecision MunmapChunkFlag.
Proof. solve_decision. Defined.

Section shm.
Context {BF : Bitflags} {BV : BitVecs} {PL : Platform} {EN : Enclave} {US : UserSpace} {RB : RBTrees} {VE : VMEnv}.
Abbreviation VS := (M VMState) (only parsing).

Definition set_shared_chunks (m : gmap Z Chunk) : VS unit :=
  s ← get;
  set_manager (mkInternalVMManager (im_chunks (vs_manager s)) (im_free_manager (vs_manager s)) m).

(** [file.metadata().unwrap()], also as [FileBacked::metadata] of [vm_util.rs]. *)
Definition metadata_of (file : FileRef) : VS Metadata := fun s =>
  (unwrap_result (file_metadata file (w_mem (vs_world s))), s).

Definition qualified_for_sharing (options : VMMapOptions) : VS unit :=
  if negb (VMMapOptions_is_shared options) then fail_with EINVAL else
  backed_file ← lift (unwrap_option (VMInitializer_backed_file (opt_initializer options)));
  metadata ← metadata_of (fb_file backed_file);
  if negb (md_is_file metadata) then fail_with EINVAL else ok tt.

Definition inode_id_of (vma : VMArea) : VS Z :=
  file ← lift (unwrap_option (VMArea_writeback_file vma));
  metadata ← metadata_of file.1;
  ok (md_inode metadata).

Definition apply_new_perms_if_higher (vma : VMArea) (new_perms : VMPerms)
    : M (World BV PL) VMArea :=
  let old_perms := va_perms vma in
  let perms := Z.lor new_perms old_perms in
  if perms =? old_perms then ok vma
  else
    let vma := VMArea_set_perms vma perms in
    _ ← VMArea_modify_permissions_for_committed_pages vma old_perms perms;
    ok vma.

Definition can_expand_shared_vma (lhs : VMArea) (rhs_range : VMRange) (rhs_file : FileRef)
    (rhs_file_offset : Z) (rhs_perms : VMPerms) : Result bool :=
  '(lhs_file, lhs_file_offset) ← unwrap_option (VMArea_writeback_file lhs);
  let lhs_range := va_range lhs in
  Ok (if (VMRange_size lhs_range =? 0) || (VMRange_size rhs_range =? 0) then false else
      if negb (vm_end lhs_range =? vm_start rhs_range) then false else
      if negb (va_perms lhs =? rhs_perms) then false else
      (lhs_file =? rhs_file) && (lhs_file_offset <? rhs_file_offset)
      && (rhs_file_offset -64 lhs_file_offset =? VMRange_size lhs_range)).

(** Where the request falls in the shared area, or what is to be done instead. *)
Definition shared_target (options : VMMapOptions) (shared_chunk : Chunk) (shared_vma : VMArea)
    (exclusived : bool) : Result (MmapSharedResult) :=
  backed_file ← unwrap_option (VMInitializer_backed_file (opt_initializer options));
  let offset := fb_offset backed_file in
  let sc_addr := vm_start (va_range shared_vma) in
  let sc_size := VMArea_size shared_vma in
  '(_, sc_offset) ← unwrap_option (VMArea_writeback_file shared_vma);
  let new_size := opt_size options in
  let otherwise := if exclusived then Ok (NeedReplace shared_chunk) else Err EINVAL in
  match opt_addr options with
  | Any | Hint _ =>
      if (offset =? sc_offset) && (new_size <=? sc_size) then Ok (Success sc_addr)
      else if (sc_offset <? offset) && (offset -64 sc_offset +64 new_size <=? sc_size)
      then Ok (Success (sc_addr +64 offset -64 sc_offset))
      else otherwise
  | Need addr | Force addr =>
      if (addr =? sc_addr) && (offset =? sc_offset) && (new_size <=? sc_size) then Ok (Success addr)
      else
        range ← VMRange_new_with_size addr new_size;
        '(file, file_offset) ← unwrap_option (FileBacked_writeback_file backed_file);
        expand ← can_expand_shared_vma shared_vma range file file_offset (opt_perms options);
        if (expand : bool) then Ok (NeedExpand shared_chunk range) else otherwise
  end.

Definition ShmManager_mmap_shared_chunk (cur : Thread) (options : VMMapOptions) : VS MmapSharedResult :=
  _ ← qualified_for_sharing options;
  backed_file ← lift (unwrap_option (VMInitializer_backed_file (opt_initializer options)));
  metadata ← metadata_of (fb_file backed_file);
  s ← get;
  match im_shared_chunks (vs_manager s) !! md_inode metadata with
  | None => ok NeedCreate
  | Some shared_chunk =>
      shared_vma ← Chunk_get_vma_for_single_vma_chunk shared_chunk;
      let current_pid := th_pid cur in
      let contained := VMArea_belong_to shared_vma current_pid in
      let exclusived := VMArea_exclusive_by shared_vma current_pid in
      target ← lift (shared_target options shared_chunk shared_vma exclusived);
      match target with
      | Success addr =>
          shared_vma ← in_world (apply_new_perms_if_higher shared_vma (opt_perms options));
          _ ← set_vma shared_chunk shared_vma;
          shared_vma ← lift (VMArea_attach_shared_process shared_vma current_pid);
          _ ← set_vma shared_chunk shared_vma;
          _ ← (if negb contained then ProcessVM_add_mem_chunk cur shared_chunk else ok tt);
          ok (Success addr)
      | other => ok other
      end
  end.

Definition ShmManager_munmap_shared_chunk (cur : Thread) (chunk : Chunk) (unmap_range : VMRange)
    (flag : MunmapChunkFlag) : VS MunmapSharedResult :=
  shared_vma ← Chunk_get_vma_for_single_vma_chunk chunk;
  let partial_unmap := negb (VMRange_is_superset_of unmap_range (va_range shared_vma)) in
  if bool_decide (flag = MunmapForce)
     && (partial_unmap || negb (VMArea_exclusive_by shared_vma (th_pid cur)))
  then fail_with EINVAL else
  if partial_unmap then ok StillInUse else
  let force_detach := match flag with MunmapDefault => false | MunmapForce | OnProcessExit => true end in
  '(detached, shared_vma) ← lift (VMArea_detach_shared_process shared_vma (th_pid cur) force_detach);
  _ ← set_vma chunk shared_vma;
  if (detached : bool) then
    inode ← inode_id_of shared_vma;
    s ← get;
    _ ← set_shared_chunks (delete inode (im_shared_chunks (vs_manager s)));
    ok Freeable
  else ok StillInUse.

Definition ShmManager_mprotect_shared_chunk (chunk : Chunk) (new_perms : VMPerms) : VS unit :=
  vma ← Chunk_get_vma_for_single_vma_chunk chunk;
  if negb (VMArea_is_shared vma) then fail_with EINVAL else
  denied ← lift (write_denied (VMArea_writeback_file vma) new_perms);
  if (denied : bool) then fail_with EACCES else
  vma ← in_world (apply_new_perms_if_higher vma new_perms);
  set_vma chunk vma.

Definition ShmManager_create_shared_chunk (options : VMMapOptions) (new_chunk : Chunk) : VS Z :=
  backed_file ← lift (ok_or (VMInitializer_backed_file (opt_initializer options)) EINVAL);
  new_vma ← Chunk_get_vma_for_single_vma_chunk new_chunk;
  let new_vma := VMArea_mark_shared new_vma in
  _ ← set_vma new_chunk new_vma;
  metadata ← metadata_of (fb_file backed_file);
  let inode_id := md_inode metadata in
  s ← get;
  _ ← set_shared_chunks (<[inode_id := new_chunk]> (im_shared_chunks (vs_manager s)));
  ok (vm_start (va_range new_vma)).

Definition ShmManager_replace_shared_chunk (old_shared_chunk new_chunk : Chunk) : VS unit :=
  new_vma ← Chunk_get_vma_for_single_vma_chunk new_chunk;
  _ ← Chunk_get_vma_for_single_vma_chunk old_shared_chunk;
  inode_id ← inode_id_of new_vma;
  s ← get;
  _ ← lift (unwrap_option (im_shared_chunks (vs_manager s) !! inode_id));
  set_shared_chunks (<[inode_id := new_chunk]> (im_shared_chunks (vs_manager s))).

End shm.
