(* ===== verification/VMManager.v ===== *)
(** The manager of the user space: [src/libos/src/vm/vm_manager.rs], and the
    address space of a process, [src/libos/src/vm/process_vm.rs].

    The manager divides the user space into chunks, which it hands to processes,
    and keeps the rest in a free list. Each process lists the chunks it uses. *)

From stdpp Require Import gmap.
From S2P Require Import Prelude Errno Effects External VMRange VMMapOptions VMFreeSpace VMRemap.
From S2P Require Import VMEpc PageTracker VMArea ChunkManager VMChunk ShmManager.

(** The fields of [VMManager] that never change. *)
Record VMManager := mkVMManager { vmm_range : VMRange; vmm_gap_range : option VMRange }.

Section manager.
Context {BF : Bitflags} {BV : BitVecs} {PL : Platform} {EN : Enclave} {US : UserSpace} {RB : RBTrees} {VE : VMEnv}.
Abbreviation VS := (M VMState) (only parsing).

(** * [InternalVMManager] *)

Definition InternalVMManager_init (vm_range : VMRange) (gap_range : option VMRange)
    : Result InternalVMManager :=
  let free_manager := FreeSpace_new vm_range in
  free_manager ← match gap_range with
                 | Some gap_range =>
                     p ← unwrap_result (find_free_range_internal free_manager (VMRange_size gap_range)
                                          PAGE_SIZE (Force (vm_start gap_range)));
                     Ok p.2
                 | None => Ok free_manager
                 end;
  Ok (mkInternalVMManager [] free_manager ∅).

Definition set_chunks (l : list Chunk) : VS unit :=
  s ← get;
  set_manager (mkInternalVMManager l (im_free_manager (vs_manager s)) (im_shared_chunks (vs_manager s))).
Definition chunks_insert (chunk : Chunk) : VS unit :=
  s ← get; set_chunks (btree_insert chunk (im_chunks (vs_manager s))).
Definition chunks_remove (chunk : Chunk) : VS unit :=
  s ← get; set_chunks (btree_remove chunk (im_chunks (vs_manager s))).

Definition set_free_manager (l : VMFreeSpaceManager) : VS unit :=
  s ← get;
  set_manager (mkInternalVMManager (im_chunks (vs_manager s)) l (im_shared_chunks (vs_manager s))).
Definition give_back (range : VMRange) : VS unit :=
  s ← get; set_free_manager (add_range_back_to_free_manager (im_free_manager (vs_manager s)) range).

Definition find_free_gaps (size align : Z) (addr : VMMapAddr) : VS VMRange :=
  s ← get;
  p ← lift (find_free_range_internal (im_free_manager (vs_manager s)) size align addr);
  let '(range, l) := p in
  _ ← set_free_manager l;
  ok range.

Definition mmap_chunk_default (addr : VMMapAddr) : VS Chunk :=
  free_range ← find_free_gaps CHUNK_DEFAULT_SIZE PAGE_SIZE addr;
  chunk ← Chunk_new_default_chunk free_range;
  _ ← chunks_insert chunk;
  ok chunk.

Definition new_chunk_with_options (cur : Thread) (options : VMMapOptions) : VS Chunk :=
  free_range ← find_free_gaps (opt_size options) (opt_align options) (opt_addr options);
  free_chunk ← attempt (Chunk_new_single_vma_chunk cur free_range options);
  match free_chunk with
  | Ok chunk => ok chunk
  | Err e => _ ← give_back free_range; fail_with e
  | Panic => panic
  end.

Definition mmap_chunk (cur : Thread) (options : VMMapOptions) : VS Chunk :=
  new_chunk ← new_chunk_with_options cur options;
  _ ← chunks_insert new_chunk;
  ok new_chunk.

Definition free_chunk (chunk : Chunk) : VS unit :=
  _ ← chunks_remove chunk;
  give_back (ck_range chunk).

Definition update_single_vma_chunk (cur : Thread) (old_chunk : Chunk) (new_vma : VMArea) : VS Chunk :=
  new_chunk ← Chunk_new_chunk_with_vma new_vma;
  _ ← ProcessVM_replace_mem_chunk cur old_chunk new_chunk;
  _ ← chunks_remove old_chunk;
  _ ← chunks_insert new_chunk;
  ok new_chunk.

Definition add_new_chunk (cur : Thread) (new_vma : VMArea) : VS unit :=
  new_vma_chunk ← Chunk_new_chunk_with_vma new_vma;
  _ ← chunks_insert new_vma_chunk;
  ProcessVM_add_mem_chunk cur new_vma_chunk.

Definition remove_unless_exited (cur : Thread) (chunk : Chunk) : VS unit :=
  if th_exited cur then ok tt else ProcessVM_remove_mem_chunk cur chunk.

Definition munmap_shared_chunk (cur : Thread) (chunk : Chunk) (munmap_range : VMRange)
    (flag : MunmapChunkFlag) : VS unit :=
  shared ← Chunk_is_shared chunk;
  if negb shared then fail_with EINVAL else
  if negb (VMRange_overlap_with (ck_range chunk) munmap_range) then ok tt else
  res ← ShmManager_munmap_shared_chunk cur chunk munmap_range flag;
  match res with
  | Freeable =>
      vma ← Chunk_get_vma_for_single_vma_chunk chunk;
      _ ← in_world (VMArea_flush_and_clean_memory vma);
      _ ← free_chunk chunk;
      remove_unless_exited cur chunk
  | StillInUse => ok tt
  end.

(** The part of [munmap_chunk] for the area of a chunk that is not shared. *)
Definition munmap_single_vma (cur : Thread) (chunk : Chunk) (munmap_range : VMRange) : VS unit :=
  vma ← Chunk_get_vma_for_single_vma_chunk chunk;
  inter ← lift (VMArea_intersect vma munmap_range);
  intersection_vma ← lift (unwrap_option inter);
  _ ← in_world (VMArea_flush_and_clean_memory intersection_vma);
  new_vmas ← lift (VMArea_subtract vma (va_range intersection_vma));
  match new_vmas with
  | [] =>
      _ ← free_chunk chunk;
      remove_unless_exited cur chunk
  | [updated_vma] =>
      _ ← update_single_vma_chunk cur chunk updated_vma;
      give_back (va_range intersection_vma)
  | [updated_vma; new_vma] =>
      _ ← give_back (va_range intersection_vma);
      new_vma_chunk ← Chunk_new_chunk_with_vma new_vma;
      _ ← chunks_insert new_vma_chunk;
      _ ← (if th_exited cur then ok tt else ProcessVM_add_mem_chunk cur new_vma_chunk);
      _ ← update_single_vma_chunk cur chunk updated_vma;
      ok tt
  | _ => panic
  end.

Definition munmap_chunk (cur : Thread) (chunk : Chunk) (munmap_range : option VMRange)
    (flag : MunmapChunkFlag) : VS unit :=
  internal ← Chunk_internal chunk;
  match internal with
  | MultiVMA _ =>
      is_cleaned ← ChunkInternal_clean_multi_vmas cur chunk;
      if (is_cleaned : bool) then free_chunk chunk else ok tt
  | SingleVMA _ =>
      let munmap_range := default (ck_range chunk) munmap_range in
      shared ← Chunk_is_shared chunk;
      if enable_posix_shm && shared then munmap_shared_chunk cur chunk munmap_range flag
      else munmap_single_vma cur chunk munmap_range
  end.

(** The left chunk exists, the right one is new and only lends its end. *)
Definition merge_two_single_vma_chunks (cur : Thread) (lhs rhs : Chunk) : VS Chunk :=
  lhs_vma ← Chunk_get_vma_for_single_vma_chunk lhs;
  rhs_vma ← Chunk_get_vma_for_single_vma_chunk rhs;
  new_vma ← in_world (VMArea_set_end lhs_vma (vm_end (va_range rhs_vma)));
  update_single_vma_chunk cur lhs new_vma.

Definition mmap_shared_chunk (cur : Thread) (options : VMMapOptions) : VS Z :=
  res ← ShmManager_mmap_shared_chunk cur options;
  match res with
  | Success addr => ok addr
  | NeedCreate =>
      new_chunk ← mmap_chunk cur options;
      _ ← ProcessVM_add_mem_chunk cur new_chunk;
      created ← attempt (ShmManager_create_shared_chunk options new_chunk);
      match created with
      | Ok addr => ok addr
      | Err e =>
          vma ← Chunk_get_vma_for_single_vma_chunk new_chunk;
          _ ← (if negb (VMPerms_is_default (va_perms vma))
               then in_world (VMArea_modify_permissions_for_committed_pages vma (va_perms vma)
                                VMPerms_DEFAULT)
               else ok tt);
          _ ← in_world (fill_zeros (va_range vma));
          _ ← free_chunk new_chunk;
          _ ← ProcessVM_remove_mem_chunk cur new_chunk;
          fail_with e
      | Panic => panic
      end
  | NeedExpand old_shared_chunk expand_range =>
      new_chunk ← new_chunk_with_options cur options;
      new_chunk ← merge_two_single_vma_chunks cur old_shared_chunk new_chunk;
      _ ← ShmManager_replace_shared_chunk old_shared_chunk new_chunk;
      ok (vm_start (ck_range new_chunk))
  | NeedReplace _ => fail_with EINVAL
  end.

(** The areas a partly protected area is cut into: those to add, and the rest of it,
    which takes its place. *)
Definition mprotect_pieces (cur : Thread) (containing_vma : VMArea) (protect_range : VMRange)
    (new_perms : VMPerms) (same_start same_end : bool) : M (World BV PL) (list VMArea * VMArea) :=
  let old_perms := va_perms containing_vma in
  let access := Private (th_pid cur) in
  new_vma ← lift (VMArea_inherits_file_from containing_vma protect_range new_perms access);
  _ ← VMArea_modify_permissions_for_committed_pages new_vma old_perms new_perms;
  if negb same_start && negb same_end then
    range ← lift (unwrap_result (VMRange_new (vm_end protect_range) (vm_end (va_range containing_vma))));
    remaining_old_vma ← lift (VMArea_inherits_file_from containing_vma range old_perms access);
    containing_vma ← VMArea_set_end containing_vma (vm_start protect_range);
    ok ([new_vma; remaining_old_vma], containing_vma)
  else
    containing_vma ← (if same_start then VMArea_set_start containing_vma (vm_end protect_range)
                      else VMArea_set_end containing_vma (vm_start protect_range));
    ok ([new_vma], containing_vma).

Definition mprotect_single_vma_chunk (cur : Thread) (chunk : Chunk) (protect_range : VMRange)
    (new_perms : VMPerms) : VS unit :=
  shared ← Chunk_is_shared chunk;
  if enable_posix_shm && shared then ShmManager_mprotect_shared_chunk chunk new_perms else
  containing_vma ← Chunk_get_vma_for_single_vma_chunk chunk;
  let old_perms := va_perms containing_vma in
  if old_perms =? new_perms then ok tt else
  denied ← lift (write_denied (VMArea_writeback_file containing_vma) new_perms);
  if (denied : bool) then fail_with EACCES else
  let same_start := vm_start protect_range =? vm_start (va_range containing_vma) in
  let same_end := vm_end protect_range =? vm_end (va_range containing_vma) in
  if same_start && same_end then
    let containing_vma := VMArea_set_perms containing_vma new_perms in
    _ ← set_vma chunk containing_vma;
    in_world (VMArea_modify_permissions_for_committed_pages containing_vma old_perms new_perms)
  else
    p ← in_world (mprotect_pieces cur containing_vma protect_range new_perms same_start same_end);
    let '(updated_vmas, containing_vma) := p in
    _ ← set_vma chunk containing_vma;
    _ ← update_single_vma_chunk cur chunk containing_vma;
    for_each (add_new_chunk cur) updated_vmas.

Definition clean_single_vma_chunks : VS unit :=
  s ← get;
  l ← filter_chunks (fun chunk => b ← Chunk_is_single_vma_chunk_should_be_removed chunk; ok (negb b))
        (im_chunks (vs_manager s));
  set_chunks l.

(** [find(|chunk| chunk.range().intersect(range).is_some())] *)
Definition intersects (range : VMRange) (chunk : Chunk) : bool :=
  match VMRange_intersect (ck_range chunk) range with Some _ => true | None => false end.

(** The ranges of the chunks that the target intersects and the gaps between them. *)
Fixpoint contained_ranges (intersect_ranges : list VMRange) : Result (list VMRange) :=
  match intersect_ranges with
  | [] => Panic
  | range_a :: ranges =>
      match ranges with
      | [] => Ok [range_a]
      | range_b :: _ =>
          rest ← contained_ranges ranges;
          if vm_end range_a <? vm_start range_b then
            gap ← unwrap_result (VMRange_new (vm_end range_a) (vm_start range_b));
            Ok (range_a :: gap :: rest)
          else Ok (range_a :: rest)
      end
  end.

Definition force_options (options : VMMapOptions) (range : VMRange) : Result VMMapOptions :=
  addr ← match opt_addr options with Force _ => Ok (Force (vm_start range)) | _ => Panic end;
  unwrap_result (VMMapOptionsBuilder_build
    (mkBuilder (Some (VMRange_size range)) (Some (opt_align options)) (Some (opt_perms options))
       (Some addr) (Some (opt_initializer options)) (Some (opt_page_policy options)))).

(** [mmap_with_addr] is the method that is called for each part. *)
Definition force_mmap_across_multiple_chunks
    (mmap_with_addr : VMRange -> VMMapOptions -> VS Z) (cur : Thread) (target_range : VMRange)
    (options : VMMapOptions) : VS Z :=
  if match opt_initializer options with DoNothing | FillZeros => false | _ => true end
  then fail_with ENOSYS else
  s ← get;
  let intersect_chunks := List.filter (intersects target_range) (im_chunks (vs_manager s)) in
  not_owned ← filter_chunks (fun chunk => b ← Chunk_is_owned_by_current_process cur chunk; ok (negb b))
                intersect_chunks;
  match not_owned with
  | _ :: _ => fail_with ENOMEM
  | [] =>
      intersect_ranges ← lift (map_result
        (fun chunk => unwrap_option (VMRange_intersect (ck_range chunk) target_range)) intersect_chunks);
      target_contained_ranges ← lift (contained_ranges intersect_ranges);
      new_options ← lift (map_result (force_options options) target_contained_ranges);
      _ ← for_each (fun '(range, options) => map_err ENOMEM (_ ← mmap_with_addr range options; ok tt))
            (zip target_contained_ranges new_options);
      ok (vm_start target_range)
  end.

(** The parts of a mapping across several chunks lie in one chunk or in none, so
    the recursion has two levels. *)
Fixpoint mmap_with_addr_fuel (fuel : nat) (cur : Thread) (target_range : VMRange)
    (options : VMMapOptions) : VS Z :=
  match fuel with
  | O => panic
  | S fuel =>
      let across := force_mmap_across_multiple_chunks (mmap_with_addr_fuel fuel cur) cur
                      target_range options in
      let addr := opt_addr options in
      let in_global_list :=
        new_chunk ← map_err ENOMEM (mmap_chunk cur options);
        _ ← ProcessVM_add_mem_chunk cur new_chunk;
        ok (vm_start (ck_range new_chunk)) in
      s ← get;
      match List.find (intersects target_range) (mem_chunks s (th_pid cur)) with
      | None => in_global_list
      | Some chunk =>
          internal ← Chunk_internal chunk;
          match internal with
          | MultiVMA _ =>
              if negb (VMRange_is_superset_of (ck_range chunk) target_range) && VMMapAddr_is_force addr
              then across
              else on_manager chunk (ChunkManager_mmap (th_pid cur) options)
          | SingleVMA _ =>
              match addr with
              | Hint _ | Need _ => fail_with ENOMEM
              | Force _ =>
                  if negb (VMRange_is_superset_of (ck_range chunk) target_range) then across
                  else
                    _ ← munmap_chunk cur chunk (Some target_range) MunmapForce;
                    in_global_list
              | Any => panic
              end
          end
      end
  end.

Definition mmap_with_addr (cur : Thread) (target_range : VMRange) (options : VMMapOptions) : VS Z :=
  mmap_with_addr_fuel 2 cur target_range options.

Definition mmap_file_check_permissions (mmap_options : VMMapOptions) : Result unit :=
  match opt_initializer mmap_options with
  | InitFileBacked file =>
      readable ← file_can_read (fb_file file);
      if negb readable then Err EACCES else
      denied ← write_denied (FileBacked_writeback_file file) (opt_perms mmap_options);
      if (denied : bool) then Err EACCES else Ok tt
  | _ => Ok tt
  end.

(** * [VMManager] *)

Definition VMManager_free_size (s : VMState) : Z := FreeSpace_free_size (im_free_manager (vs_manager s)).

Definition VMManager_get_precise_free_size : VS Z :=
  s ← get;
  (fix loop (acc : Z) (l : list Chunk) {struct l} : VS Z :=
     match l with
     | [] => ok (VMManager_free_size s +64 acc)
     | chunk :: l => n ← Chunk_free_size chunk; loop (acc +64 n) l
     end) 0 (im_chunks (vs_manager s)).

Definition VMManager_verified_clean_when_exit (self : VMManager) (s : VMState) : bool :=
  let gap_size := match vmm_gap_range self with Some gap => VMRange_size gap | None => 0 end in
  (Z.of_nat (length (im_chunks (vs_manager s))) =? 0)
  && (VMManager_free_size s +64 gap_size =? VMRange_size (vmm_range self)).

Definition VMManager_alloc (cur : Thread) (options : VMMapOptions) : VS (VMRange * Chunk) :=
  new_chunk ← map_err ENOMEM (mmap_chunk cur options);
  ok (ck_range new_chunk, new_chunk).

(** The loops over default chunks: the first one in which the mapping succeeds. *)
Fixpoint first_success (f : Chunk -> VS Z) (l : list Chunk) : VS (option (Chunk * Z)) :=
  match l with
  | [] => ok None
  | chunk :: l =>
      single ← Chunk_is_single_vma chunk;
      if (single : bool) then first_success f l else
      r ← attempt (f chunk);
      match r with
      | Ok start => ok (Some (chunk, start))
      | Err _ => first_success f l
      | Panic => panic
      end
  end.

(** The mapping as a chunk with one area. *)
Definition mmap_own_chunk (cur : Thread) (options : VMMapOptions) : VS Z :=
  new_chunk ← map_err ENOMEM (mmap_chunk cur options);
  _ ← ProcessVM_add_mem_chunk cur new_chunk;
  ok (vm_start (ck_range new_chunk)).

(** From the slow path on: every default chunk, then the global free list. *)
Definition mmap_slow (cur : Thread) (options : VMMapOptions) : VS Z :=
  s ← get;
  found ← first_success (fun chunk => Chunk_mmap cur chunk options) (im_chunks (vs_manager s));
  match found with
  | Some (chunk, start) =>
      _ ← Chunk_add_process cur chunk;
      _ ← ProcessVM_add_mem_chunk cur chunk;
      ok start
  | None => mmap_own_chunk cur options
  end.

(** Allocation in default chunks: those of the process, a new one, any. *)
Definition mmap_default_chunks (cur : Thread) (options : VMMapOptions) : VS Z :=
  s ← get;
  found ← first_success (fun chunk => Chunk_try_mmap cur chunk options) (mem_chunks s (th_pid cur));
  match found with
  | Some (_, start) => ok start
  | None =>
      new_chunk ← attempt (mmap_chunk_default (opt_addr options));
      match new_chunk with
      | Ok new_chunk =>
          _ ← Chunk_add_process cur new_chunk;
          _ ← ProcessVM_add_mem_chunk cur new_chunk;
          Chunk_mmap cur new_chunk options
      | Err _ => mmap_slow cur options
      | Panic => panic
      end
  end.

(** From the address request on. *)
Definition mmap_at (cur : Thread) (options : VMMapOptions) : VS Z :=
  let size := opt_size options in
  let anywhere :=
    if CHUNK_DEFAULT_SIZE <? size then mmap_own_chunk cur options
    else mmap_default_chunks cur options in
  match opt_addr options with
  | Any => anywhere
  | Hint addr =>
      target_range ← lift (VMRange_new_with_size addr size);
      ret ← attempt (mmap_with_addr cur target_range options);
      match ret with
      | Ok start => ok start
      | Err _ => anywhere
      | Panic => panic
      end
  | Need addr | Force addr =>
      target_range ← lift (VMRange_new_with_size addr size);
      mmap_with_addr cur target_range options
  end.

Definition VMManager_mmap (cur : Thread) (options : VMMapOptions) : VS Z :=
  _ ← lift (mmap_file_check_permissions options);
  if enable_posix_shm && VMMapOptions_is_shared options then
    res ← attempt (mmap_shared_chunk cur options);
    match res with
    | Ok addr => ok addr
    | Err _ => mmap_at cur options
    | Panic => panic
    end
  else mmap_at cur options.

Definition VMManager_munmap (cur : Thread) (addr size : Z) : VS unit :=
  if size =? 0 then fail_with EINVAL else
  let size := align_up size PAGE_SIZE in
  munmap_range ← lift (VMRange_new_with_size addr size);
  s ← get;
  let process_mem_chunks := mem_chunks s (th_pid cur) in
  match List.find (intersects munmap_range) process_mem_chunks with
  | None => ok tt
  | Some chunk =>
      if negb (VMRange_is_superset_of (ck_range chunk) munmap_range) then
        for_each (fun chunk =>
          internal ← Chunk_internal chunk;
          match internal with
          | SingleVMA _ => munmap_chunk cur chunk (Some munmap_range) MunmapDefault
          | MultiVMA _ => on_manager chunk (ChunkManager_munmap_range (th_pid cur) munmap_range)
          end)
          (List.filter (fun chunk => VMRange_overlap_with (ck_range chunk) munmap_range) process_mem_chunks)
      else
        internal ← Chunk_internal chunk;
        match internal with
        | MultiVMA _ => on_manager chunk (ChunkManager_munmap_range (th_pid cur) munmap_range)
        | SingleVMA _ =>
            match List.find (intersects munmap_range) process_mem_chunks with
            | Some overlapping_chunk =>
                munmap_chunk cur overlapping_chunk (Some munmap_range) MunmapDefault
            | None => ok tt
            end
        end
  end.

Definition VMManager_find_mmap_region (cur : Thread) (addr : Z) : VS VMRange :=
  s ← get;
  (fix loop (vm_range : Result VMRange) (l : list Chunk) {struct l} : VS VMRange :=
     match l with
     | [] => lift vm_range
     | chunk :: l =>
         vm_range ← attempt (Chunk_find_mmap_region cur chunk addr);
         match vm_range with Ok r => ok r | _ => loop vm_range l end
     end) (Ok (mkVMRange 0 0)) (mem_chunks s (th_pid cur)).

Definition VMManager_mprotect (cur : Thread) (addr size : Z) (perms : VMPerms) : VS unit :=
  protect_range ← lift (VMRange_new_with_size addr size);
  s ← get;
  let process_mem_chunks := mem_chunks s (th_pid cur) in
  match List.find (intersects protect_range) process_mem_chunks with
  | None => fail_with ENOMEM
  | Some chunk =>
      if negb (VMRange_is_superset_of (ck_range chunk) protect_range) then fail_with EINVAL else
      internal ← Chunk_internal chunk;
      match internal with
      | MultiVMA _ => on_manager chunk (ChunkManager_mprotect (th_pid cur) addr size perms)
      | SingleVMA _ =>
          match List.find (fun chunk => VMRange_is_superset_of (ck_range chunk) protect_range)
                  process_mem_chunks with
          | None => fail_with ENOMEM
          | Some chunk => mprotect_single_vma_chunk cur chunk protect_range perms
          end
      end
  end.

Definition VMManager_reset_memory (cur : Thread) (reset_range : VMRange) : VS unit :=
  s ← get;
  let intersect_chunks := List.filter (intersects reset_range) (im_chunks (vs_manager s)) in
  wrong ← filter_chunks (fun chunk =>
            owned ← Chunk_is_owned_by_current_process cur chunk;
            single ← Chunk_is_single_vma chunk;
            ok (negb owned || negb single)) intersect_chunks;
  match wrong with
  | _ :: _ => fail_with EINVAL
  | [] =>
      for_each (fun chunk =>
        vma ← Chunk_get_vma_for_single_vma_chunk chunk;
        inter ← lift (VMArea_intersect vma reset_range);
        _ ← match inter with
            | Some intersection_vma =>
                in_world (unwrapM (VMArea_flush_and_clean_memory intersection_vma))
            | None => ok tt
            end;
        if negb (va_perms vma =? VMPerms_DEFAULT)
        then set_vma chunk (VMArea_set_perms vma VMPerms_DEFAULT)
        else ok tt) intersect_chunks
  end.

Definition VMManager_msync (cur : Thread) (addr size : Z) : VS unit :=
  sync_range ← lift (VMRange_new_with_size addr size);
  s ← get;
  match List.find (fun chunk => VMRange_is_superset_of (ck_range chunk) sync_range)
          (mem_chunks s (th_pid cur)) with
  | None => fail_with ENOMEM
  | Some chunk =>
      internal ← Chunk_internal chunk;
      match internal with
      | MultiVMA _ => on_manager chunk (ChunkManager_msync_by_range sync_range)
      | SingleVMA vma => in_world (VMArea_flush_committed_backed_file vma)
      end
  end.

Definition VMManager_msync_by_file (cur : Thread) (sync_file : FileRef) : VS unit :=
  s ← get;
  for_each (fun chunk =>
    internal ← Chunk_internal chunk;
    match internal with
    | MultiVMA _ => on_manager chunk (ChunkManager_msync_by_file sync_file)
    | SingleVMA vma =>
        in_world (VMArea_flush_committed_backed_file_with_cond vma (fun file => file =? sync_file))
    end) (mem_chunks s (th_pid cur)).

(** ** [mremap] *)

(** [sort_unstable_by] on the starts of the ranges. *)
Fixpoint insert_by_start (c : Chunk) (l : list Chunk) : list Chunk :=
  match l with
  | [] => [c]
  | d :: l' => if vm_start (ck_range c) <=? vm_start (ck_range d) then c :: l
               else d :: insert_by_start c l'
  end.
Definition sort_by_start (l : list Chunk) : list Chunk := foldr insert_by_start [] l.

(** The loop over [windows(2)]: the left area of a pair is merged into the right one
    and left empty. *)
Fixpoint merge_windows (l : list Chunk) : VS unit :=
  match l with
  | [] => ok tt
  | chunk_a :: l' =>
      match l' with
      | [] => ok tt
      | chunk_b :: _ =>
          vma_a ← Chunk_get_vma_for_single_vma_chunk chunk_a;
          vma_b ← Chunk_get_vma_for_single_vma_chunk chunk_b;
          _ ← (if VMArea_can_merge_vmas vma_a vma_b then
                 let new_start := vm_start (va_range vma_a) in
                 vma_b ← in_world (VMArea_set_start vma_b new_start);
                 vma_a ← in_world (VMArea_set_end vma_a new_start);
                 _ ← set_vma chunk_b vma_b;
                 set_vma chunk_a vma_a
               else ok tt);
          merge_windows l'
      end
  end.

(** Chunks that did not change go back to the list; the areas of those that did are
    collected. *)
Fixpoint collect_merged (cur : Thread) (l : list Chunk) : VS (list VMArea) :=
  match l with
  | [] => ok []
  | chunk :: l =>
      dummy ← Chunk_is_single_dummy_vma chunk;
      if (dummy : bool) then collect_merged cur l else
      conflict ← Chunk_is_single_vma_with_conflict_size chunk;
      if (conflict : bool) then
        new_vma ← Chunk_get_vma_for_single_vma_chunk chunk;
        merged_vmas ← collect_merged cur l;
        ok (new_vma :: merged_vmas)
      else
        _ ← ProcessVM_add_mem_chunk cur chunk;
        collect_merged cur l
  end.

Definition is_private_single (chunk : Chunk) : VS bool :=
  single ← Chunk_is_single_vma chunk;
  shared ← Chunk_is_shared chunk;
  ok (single && negb shared).

Definition merge_all_single_vma_chunks (cur : Thread) : VS (list VMArea) :=
  s ← get;
  let chunks := mem_chunks s (th_pid cur) in
  single_vma_chunks ← filter_chunks is_private_single chunks;
  others ← filter_chunks (fun chunk => b ← is_private_single chunk; ok (negb b)) chunks;
  _ ← set_mem_chunks cur others;
  let single_vma_chunks := sort_by_start single_vma_chunks in
  _ ← merge_windows single_vma_chunks;
  collect_merged cur single_vma_chunks.

Definition VMManager_mremap (cur : Thread) (options : VMRemapOptions) : VS Z :=
  old_range ← lift (VMRange_new_with_size (ro_old_addr options) (ro_old_size options));
  merged_vmas ← merge_all_single_vma_chunks cur;
  _ ← clean_single_vma_chunks;
  _ ← for_each (add_new_chunk cur) (rev merged_vmas);
  s ← get;
  match List.find (fun chunk => VMRange_is_superset_of (ck_range chunk) old_range)
          (mem_chunks s (th_pid cur)) with
  | None => fail_with ENOMEM
  | Some chunk =>
      internal ← Chunk_internal chunk;
      remap_result_option ←
        match internal with
        | MultiVMA _ => on_manager chunk (ChunkManager_parse_mremap_options (th_pid cur) options)
        | SingleVMA vma =>
            lift (VMRemapParser_parse (FreeSpace_is_free_range (im_free_manager (vs_manager s)))
                    options (remap_vma_of vma))
        end;
      mremap_apply (VMManager_mmap cur) (VMManager_munmap cur) (ro_old_addr options) remap_result_option
  end.

(** ** Process exit and page faults *)

(** The results of [munmap_chunk] are dropped. *)
Definition VMManager_free_chunks_when_exit (cur : Thread) : VS unit :=
  s ← get;
  _ ← for_each (fun chunk => _ ← attempt (munmap_chunk cur chunk None OnProcessExit); ok tt)
        (mem_chunks s (th_pid cur));
  set_mem_chunks cur [].

(** [shm_chunk]: the answer of the System V segment manager for the address. *)
Definition VMManager_handle_page_fault (cur : Thread) (shm_chunk : option Chunk) (rip pf_addr errcd : Z)
    (kernel_triggers : bool) : VS unit :=
  s ← get;
  match List.find (fun chunk => VMRange_contains (ck_range chunk) pf_addr) (mem_chunks s (th_pid cur)) with
  | Some chunk => Chunk_handle_page_fault cur chunk rip pf_addr errcd kernel_triggers
  | None =>
      match shm_chunk with
      | Some chunk => Chunk_handle_page_fault cur chunk rip pf_addr errcd kernel_triggers
      | None => fail_with ENOMEM
      end
  end.

End manager.
