(* ===== verification/MemUtil.v ===== *)
(** Pointers that come from user programs: [src/libos/src/util/mem_util.rs].

    The user memory of all processes is one range, in which the gap between its two parts is
    included. A system call uses a pointer of the program only after the memory behind
    it is found to be inside this range. *)

From S2P Require Import Prelude Errno VMRange.

Section from_user.
(** [current.vm().get_process_range()], and the memory of the enclave, byte by byte. *)
Variables (user_range : VMRange) (memory : Z -> Z).

Definition is_inside_user_space (addr len : Z) : bool :=
  let ur_start := vm_start user_range in
  let ur_end := vm_end user_range in
  (ur_start <=? addr) && (addr <? ur_end) && (len <=? ur_end -64 addr).

(** [size] is the size of the type behind the pointer. *)
Definition check_ptr (user_ptr size : Z) : Result unit :=
  if negb (is_inside_user_space user_ptr size) then Err EFAULT else Ok tt.

Definition check_array (user_buf count size : Z) : Result unit :=
  checked_len ← (if count * size <? u64_modulus then Ok (count * size) else Err EINVAL);
  if negb (is_inside_user_space user_buf checked_len) then Err EFAULT else Ok tt.

(** [CStr::from_ptr]: the bytes up to the first zero, which is looked for at no more than
    [fuel] addresses. *)
Fixpoint cstr_from_ptr (fuel : nat) (p : Z) : option (list Z) :=
  match fuel with
  | O => None
  | S fuel =>
      if memory p =? 0 then Some [] else
      l ← cstr_from_ptr fuel (p +64 1);
      Some (memory p :: l)
  end.

(** [None]: no zero among the bytes that were read. *)
Definition clone_cstring_safely (fuel : nat) (out_ptr : Z) : option (Result (list Z)) :=
  if out_ptr =? 0 then Some (Err EINVAL) else
  match check_ptr out_ptr 1 with
  | Ok _ =>
      cstring ← cstr_from_ptr fuel out_ptr;
      Some (if negb (is_inside_user_space out_ptr (Z.of_nat (length cstring) + 1)) then Err EFAULT else Ok cstring)
  | Err e => Some (Err e)
  | Panic => Some Panic
  end.

(** A pointer, least significant byte first. *)
Definition read_ptr (p : Z) : Z :=
  foldr (fun i acc => memory (p +64 Z.of_nat i) + 256 * acc) 0 (seq 0 8).

(** The loop over an array of strings, which ends at a null pointer; [sfuel] is for one string. *)
Fixpoint clone_cstrings_loop (fuel sfuel : nat) (user_ptr : Z) (cstrings : list (list Z))
    : option (Result (list (list Z))) :=
  match fuel with
  | O => None
  | S fuel =>
      match check_ptr user_ptr 8 with
      | Ok _ =>
          let cstr_ptr := read_ptr user_ptr in
          if cstr_ptr =? 0 then Some (Ok cstrings) else
          cstring ← clone_cstring_safely sfuel cstr_ptr;
          match cstring with
          | Ok cstring => clone_cstrings_loop fuel sfuel (user_ptr +64 8) (cstrings ++ [cstring])
          | Err e => Some (Err e)
          | Panic => Some Panic
          end
      | Err e => Some (Err e)
      | Panic => Some Panic
      end
  end.

Definition clone_cstrings_safely (fuel sfuel : nat) (user_ptr : Z) : option (Result (list (list Z))) :=
  if user_ptr =? 0 then Some (Ok []) else clone_cstrings_loop fuel sfuel user_ptr [].

(** * Properties *)

Hypothesis (Hrange : VMRange_wf user_range).

(** All of [len] bytes from [p] on are user memory. *)
Definition user_bytes (p len : Z) : Prop := forall i, 0 <= i < len -> p + i ∈ user_range.

(** [s] is the string at [p], with the zero behind it. *)
Definition string_at (p : Z) (s : list Z) : Prop :=
  (forall i x, s !! i = Some x -> memory (p + Z.of_nat i) = x /\ x <> 0)
  /\ memory (p + Z.of_nat (length s)) = 0.

Lemma is_inside_spec p len :
  is_u64 p -> 0 <= len -> is_inside_user_space p len = true <-> p ∈ user_range /\ user_bytes p len.
Proof.
  intros Hp Hlen. unfold is_inside_user_space, user_bytes. destruct Hrange as [? ? ? ?]. split.
  - intros H. boolprop. rewrite sub64_small in * by (vmrange_unfold; lia). split; [|intros i Hi]; vmrange_unfold; lia.
  - intros [Hin Hb]. vmrange_unfold. rewrite sub64_small by lia.
    destruct (decide (len = 0)) as [->|Hne]; [lia|]. specialize (Hb (len - 1) ltac:(lia)). lia.
Qed.

(** A product of count and size that overflows is refused before it is used as a length. *)
Lemma check_array_spec p count size :
  is_u64 p -> 0 <= count -> 0 <= size ->
  match check_array p count size with
  | Ok _ => p ∈ user_range /\ user_bytes p (count * size)
  | Err e => (e = EINVAL /\ u64_modulus <= count * size) \/ (e = EFAULT /\ ~ (p ∈ user_range /\ user_bytes p (count * size)))
  | Panic => False
  end.
Proof.
  intros Hp Hc Hs. unfold check_array. destruct (Z.ltb_spec (count * size) u64_modulus); cbn; [|by left].
  pose proof (is_inside_spec p (count * size) Hp ltac:(lia)) as H1.
  destruct (is_inside_user_space p (count * size)); cbn; [by apply H1|]. right. split; [done|]. intros Hn. by apply H1 in Hn.
Qed.

Lemma check_ptr_spec p size :
  is_u64 p -> 0 <= size ->
  (check_ptr p size = Ok tt /\ p ∈ user_range /\ user_bytes p size)
  \/ (check_ptr p size = Err EFAULT /\ ~ (p ∈ user_range /\ user_bytes p size)).
Proof.
  intros Hp Hs. pose proof (is_inside_spec p size Hp Hs) as H. unfold check_ptr.
  destruct (is_inside_user_space p size); [left|right]; (split; [done|]); [by apply H|]. intros Hn. apply H in Hn. done.
Qed.

Hypothesis (Hbytes : forall a, 0 <= memory a < 256).

Lemma read_ptr_u64 p : is_u64 (read_ptr p).
Proof. unfold read_ptr. cbn [seq foldr]. unfold is_u64, u64_modulus. repeat match goal with |- context [memory ?a] => let H := fresh in pose proof (Hbytes a) as H; generalize dependent (memory a); intros end. lia. Qed.

Lemma cstr_some fuel : forall p s,
  is_u64 p -> cstr_from_ptr fuel p = Some s -> p + Z.of_nat (length s) < u64_modulus -> string_at p s.
Proof.
  induction fuel as [|fuel IH]; intros p s Hp Hs Hlen; [done|]. cbn in Hs.
  destruct (Z.eqb_spec (memory p) 0) as [Hz|Hnz].
  - injection Hs as <-. split; [done|]. cbn. by rewrite Z.add_0_r.
  - destruct (cstr_from_ptr fuel (p +64 1)) as [s'|] eqn:Hr; [|done]. injection Hs as <-. cbn [length] in Hlen.
    rewrite add64_small in Hr by (destruct Hp; lia).
    destruct (IH (p + 1) s') as [H1 H2]; [destruct Hp; split; lia|done|lia|]. split.
    + intros [|i] x Hx; cbn in Hx; [injection Hx as <-; by rewrite Z.add_0_r|].
      destruct (H1 i x Hx) as [<- ?]. split; [f_equal; lia|done].
    + rewrite <- H2. f_equal. cbn [length]. lia.
Qed.

Lemma cstr_none fuel : forall p,
  is_u64 p -> cstr_from_ptr fuel p = None ->
  forall i, 0 <= i < Z.of_nat fuel -> p + i < u64_modulus -> memory (p + i) <> 0.
Proof.
  induction fuel as [|fuel IH]; intros p Hp Hs i Hi Hlt; [lia|]. cbn in Hs.
  destruct (Z.eqb_spec (memory p) 0) as [Hz|Hnz]; [done|].
  destruct (decide (i = 0)) as [->|Hne]; [by rewrite Z.add_0_r|].
  destruct (cstr_from_ptr fuel (p +64 1)) as [s'|] eqn:Hr; [done|].
  rewrite add64_small in Hr by (destruct Hp; lia).
  replace (p + i) with (p + 1 + (i - 1)) by lia. apply IH; auto; [destruct Hp; split|..]; lia.
Qed.

(** A string that runs to the end of user memory. *)
Definition unterminated (q : Z) : Prop := q ∈ user_range /\ forall a, q <= a < vm_end user_range -> memory a <> 0.

(** As many addresses as there are in user memory. *)
Definition enough (fuel : nat) : Prop := vm_end user_range - vm_start user_range < Z.of_nat fuel.

Lemma clone_cstring_runs fuel q :
  is_u64 q -> enough fuel ->
  match clone_cstring_safely fuel q with
  | Some (Ok s) => string_at q s /\ user_bytes q (Z.of_nat (length s) + 1)
  | Some (Err e) => e = EFAULT \/ (e = EINVAL /\ q = 0)
  | Some Panic => False
  | None => unterminated q
  end.
Proof.
  intros Hq Hf. unfold clone_cstring_safely. destruct (Z.eqb_spec q 0) as [->|Hne]; [by right|].
  destruct (check_ptr_spec q 1 Hq ltac:(lia)) as [(-> & Hin & _)|[-> _]]; [|by left].
  destruct (cstr_from_ptr fuel q) as [s|] eqn:Hs; cbn.
  - pose proof (is_inside_spec q (Z.of_nat (length s) + 1) Hq ltac:(lia)) as H.
    destruct (is_inside_user_space _ _); cbn [negb]; [|by left]. destruct (proj1 H eq_refl) as [_ Hb].
    split; [|done]. eapply cstr_some; [done|exact Hs|]. specialize (Hb (Z.of_nat (length s)) ltac:(lia)).
    destruct Hrange. vmrange_unfold. lia.
  - split; [done|]. intros a Ha. destruct Hrange. unfold enough in Hf.
    replace a with (q + (a - q)) by lia. eapply cstr_none; [done|exact Hs|vmrange_unfold; lia..].
Qed.

(** [l] are the strings that the pointers from [p] on point to. *)
Definition strings_at (p : Z) (l : list (list Z)) : Prop :=
  forall i s, l !! i = Some s ->
    let q := read_ptr (p + 8 * Z.of_nat i) in
    user_bytes (p + 8 * Z.of_nat i) 8 /\ string_at q s /\ user_bytes q (Z.of_nat (length s) + 1).

Lemma strings_at_snoc p l s :
  strings_at p l ->
  (let u := p + 8 * Z.of_nat (length l) in
   user_bytes u 8 /\ string_at (read_ptr u) s /\ user_bytes (read_ptr u) (Z.of_nat (length s) + 1)) ->
  strings_at p (l ++ [s]).
Proof.
  intros Hl Hs i x Hx. apply lookup_app_Some in Hx as [Hx|[Hi Hx]]; [by apply Hl|].
  apply list_lookup_singleton_Some in Hx as [Hi' <-]. replace i with (length l) by lia. exact Hs.
Qed.

(** What a copy of an array of strings at [p] gives. *)
Definition cstrings_spec (p : Z) (r : option (Result (list (list Z)))) : Prop :=
  match r with
  | Some (Ok l) =>
      strings_at p l /\ user_bytes (p + 8 * Z.of_nat (length l)) 8 /\ read_ptr (p + 8 * Z.of_nat (length l)) = 0
  | Some (Err e) => e = EFAULT
  | Some Panic => False
  | None => exists q, unterminated q
  end.

Lemma clone_loop_runs p sfuel (Hsf : enough sfuel) fuel : forall acc u,
  u = p + 8 * Z.of_nat (length acc) -> is_u64 u -> strings_at p acc ->
  (0 < fuel)%nat -> (u ∈ user_range -> vm_end user_range - u < Z.of_nat fuel) ->
  cstrings_spec p (clone_cstrings_loop fuel sfuel u acc).
Proof.
  induction fuel as [|fuel IH]; intros acc u Hu Hu64 Hacc Hpos Hf; [lia|]. cbn [clone_cstrings_loop].
  destruct (check_ptr_spec u 8 Hu64 ltac:(lia)) as [(-> & Hin & Hb)|[-> _]]; [|done].
  destruct (Z.eqb_spec (read_ptr u) 0) as [Hz|Hnz]; [by subst u|].
  pose proof (clone_cstring_runs sfuel (read_ptr u) (read_ptr_u64 u) Hsf) as Hc.
  destruct (clone_cstring_safely sfuel (read_ptr u)) as [[s|e|]|]; cbn [mbind option_bind]; [|naive_solver|done|by eexists].
  pose proof (Hb 7 ltac:(lia)) as H7. specialize (Hf Hin). destruct Hrange.
  rewrite add64_small by (vmrange_unfold; unfold is_u64 in *; lia). apply IH.
  - rewrite length_app. cbn [length]. lia.
  - vmrange_unfold; unfold is_u64 in *; lia.
  - apply strings_at_snoc; [done|]. cbn. by rewrite <- Hu.
  - vmrange_unfold; lia.
  - vmrange_unfold; lia.
Qed.

(** Reading back what is there. *)
Lemma cstr_complete s : forall fuel p,
  string_at p s -> 0 <= p -> p + Z.of_nat (length s) < u64_modulus -> (length s < fuel)%nat ->
  cstr_from_ptr fuel p = Some s.
Proof.
  induction s as [|x s IH]; intros [|fuel] p [H1 H2] Hp Hlt Hf; cbn [length] in *; try lia; cbn.
  - rewrite Z.add_0_r in H2. by rewrite H2.
  - destruct (H1 0%nat x eq_refl) as [Hx Hnz]. rewrite Z.add_0_r in Hx. rewrite Hx, (proj2 (Z.eqb_neq _ _) Hnz).
    rewrite add64_small by lia. rewrite (IH fuel (p + 1)); [done| |lia..]. split.
    + intros i y Hy. destruct (H1 (S i) y Hy) as [<- ?]. split; [f_equal; lia|done].
    + rewrite <- H2. f_equal. lia.
Qed.

Lemma is_inside_bytes p len : is_u64 p -> 0 < len -> user_bytes p len -> is_inside_user_space p len = true.
Proof.
  intros Hp Hl Hb. apply is_inside_spec; [done|lia|]. split; [|done].
  specialize (Hb 0 ltac:(lia)). by rewrite Z.add_0_r in Hb.
Qed.

Lemma clone_cstring_complete fuel q s :
  is_u64 q -> q <> 0 -> string_at q s -> user_bytes q (Z.of_nat (length s) + 1) -> enough fuel ->
  clone_cstring_safely fuel q = Some (Ok s).
Proof.
  intros Hq Hne Hs Hb Hf. unfold clone_cstring_safely, check_ptr. rewrite (proj2 (Z.eqb_neq _ _) Hne).
  pose proof (Hb 0 ltac:(lia)) as H0. pose proof (Hb (Z.of_nat (length s)) ltac:(lia)) as H1. destruct Hrange.
  rewrite is_inside_bytes; [|done|lia|intros i Hi; apply Hb; lia]. cbn [negb].
  rewrite (cstr_complete s); [|done|unfold is_u64 in *; lia|vmrange_unfold; lia|unfold enough in *; vmrange_unfold; lia].
  cbn. by rewrite is_inside_bytes by (done || lia).
Qed.

Lemma clone_loop_complete p l sfuel (Hsf : enough sfuel) : forall todo done_ fuel,
  l = done_ ++ todo -> strings_at p l -> (forall i, (i < length l)%nat -> read_ptr (p + 8 * Z.of_nat i) <> 0) ->
  (forall i, (i <= length l)%nat -> is_u64 (p + 8 * Z.of_nat i) /\ is_u64 (read_ptr (p + 8 * Z.of_nat i))) ->
  user_bytes (p + 8 * Z.of_nat (length l)) 8 -> read_ptr (p + 8 * Z.of_nat (length l)) = 0 ->
  (length todo < fuel)%nat ->
  clone_cstrings_loop fuel sfuel (p + 8 * Z.of_nat (length done_)) done_ = Some (Ok l).
Proof.
  induction todo as [|s todo IH]; intros done_ [|fuel] Hl Hs Hnz H64 Hb Hend Hf; cbn [length] in Hf; try lia;
    cbn [clone_cstrings_loop]; unfold check_ptr.
  - rewrite app_nil_r in Hl. subst l. rewrite is_inside_bytes; [|by apply H64|lia|done]. cbn [negb]. by rewrite Hend.
  - assert (Hi : l !! length done_ = Some s) by (subst l; by rewrite list_lookup_middle).
    pose proof (lookup_lt_Some _ _ _ Hi) as Hlt. destruct (H64 (length done_) ltac:(lia)) as [Hu Hq].
    destruct (H64 (S (length done_)) ltac:(lia)) as [Hu' _].
    destruct (Hs _ _ Hi) as (Hb1 & Hs1 & Hb2). rewrite is_inside_bytes by (done || lia). cbn [negb].
    rewrite (proj2 (Z.eqb_neq _ _) (Hnz _ Hlt)). rewrite (clone_cstring_complete sfuel _ s) by auto. cbn [mbind option_bind].
    rewrite add64_small by (unfold is_u64 in *; lia).
    replace (p + 8 * Z.of_nat (length done_) + 8) with (p + 8 * Z.of_nat (length (done_ ++ [s])))
      by (rewrite length_app; cbn [length]; lia).
    apply IH; auto; [by rewrite <- app_assoc|lia].
Qed.

(** C33: a copy of a null-terminated array of C strings, as [execve] and [spawn] take it, from a user
    pointer (fuel: the size of user memory): it is the strings that the array points to, every pointer
    and every byte of which is in user memory, or [EFAULT]; it never panics, and the read goes past user
    memory before it is checked only if some string has no zero up to the end of user memory. *)
Theorem clone_cstrings_spec (fuel sfuel : nat) (user_ptr : Z) :
  is_u64 user_ptr -> user_ptr <> 0 -> enough fuel -> enough sfuel ->
  cstrings_spec user_ptr (clone_cstrings_safely fuel sfuel user_ptr).
Proof.
  intros Hp Hne Hf Hsf. unfold clone_cstrings_safely. rewrite (proj2 (Z.eqb_neq _ _) Hne).
  destruct Hrange. unfold enough in Hf.
  apply clone_loop_runs; [done|cbn; lia|done|done|lia|vmrange_unfold; lia].
Qed.

End from_user.

Section example.
(** An array of one string, ["ab"], at the start of two pages of user memory. *)
Definition example_memory (a : Z) : Z :=
  default 0 ((list_to_map [(4096, 32); (4097, 16); (4128, 97); (4129, 98)] : gmap Z Z) !! a).

Lemma clone_cstrings_spec_witness :
  let r := clone_cstrings_safely (mkVMRange 4096 12288) example_memory (Z.to_nat 9000) (Z.to_nat 9000) 4096 in
  cstrings_spec (mkVMRange 4096 12288) example_memory 4096 r /\ r = Some (Ok [[97; 98]]).
Proof.
  split; [|vm_compute; reflexivity]. apply clone_cstrings_spec.
  - split; vm_compute; try split; congruence.
  - intros a. unfold example_memory. destruct (_ !! a) as [x|] eqn:Hx; cbn; [|lia].
    apply elem_of_list_to_map_2 in Hx. repeat (apply elem_of_cons in Hx as [[= -> ->]|Hx]; [lia|]). by apply not_elem_of_nil in Hx.
  - unfold is_u64, u64_modulus. lia.
  - lia.
  - unfold enough. cbn [vm_start vm_end]. lia.
  - unfold enough. cbn [vm_start vm_end]. lia.
Defined.
End example.
