(* ===== verification/SysVShm.v ===== *)
(** System V shared memory: [src/libos/src/ipc/shm.rs] and [syscalls.rs].

    A segment is a chunk of user memory that the table of segments owns. Attaching records
    the process in the segment and tells it the address, which is the same for all;
    the process does not list the chunk. A segment marked for
    destruction is dropped, and its memory given back, at the last detach. *)

From stdpp Require Import gmap.
From S2P Require Import Prelude Errno Effects External VMRange VMMapOptions VMFreeSpace VMRemap.
From S2P Require Import VMEpc PageTracker VMArea ChunkManager VMChunk ShmManager VMManager MemUtil.

Abbreviation SHMMIN := (1 : Z).
Abbreviation SHMMAX := (u64_modulus - 1 - 2 ^ 24 : Z).
Abbreviation SHMMNI := (4096 : Z).
Abbreviation IPC_PRIVATE := (0 : Z).
Abbreviation IPC_RMID := (0 : Z).
Abbreviation IPC_STAT := (2 : Z).

Abbreviation SHM_DEST := (512 : Z).
Abbreviation IPC_CREAT := (512 : Z).
Abbreviation IPC_EXCL := (1024 : Z).
(** The union of the flags, and of the bits of [FileMode]. *)
Abbreviation ShmFlags_all := (2047 : Z).
Abbreviation FileMode_all := (4095 : Z).

Record ShmSegment := mkShmSegment {
  sg_shmid : Z;
  sg_key : Z;
  sg_uid : Z;
  sg_gid : Z;
  sg_cuid : Z;
  sg_cgid : Z;
  sg_mode : Z;
  sg_status : Z;
  shm_atime : Z;
  shm_dtime : Z;
  shm_ctime : Z;
  shm_cpid : Z;
  shm_lpid : Z;
  shm_nattach : Z;
  sg_chunk : Chunk;
  sg_process_set : gset Z;
}.

Record ShmIdManager := mkShmIdManager {
  used_id : gset Z;
  free_num : Z;
  last_alloc_id : Z;
}.

Definition ShmIdManager_new : ShmIdManager := mkShmIdManager ∅ SHMMNI (SHMMNI - 1).

(** What [shmctl] reports. The padding is left out. *)
Record ipc_perm_t := mkIpcPerm {
  ip_key : Z; ip_uid : Z; ip_gid : Z; ip_cuid : Z; ip_cgid : Z; ip_mode : Z;
}.
Record shmids_t := mkShmids {
  ds_perm : ipc_perm_t;
  ds_segsz : Z;
  ds_atime : Z; ds_dtime : Z; ds_ctime : Z;
  ds_cpid : Z; ds_lpid : Z;
  ds_nattach : Z;
}.
Abbreviation size_of_shmids := (112 : Z).

(** The iteration order of the table of segments is unspecified. *)
Class ShmEnv := {
  seg_order : list (Z * ShmSegment) -> list (Z * ShmSegment);
  seg_order_perm l : seg_order l ≡ₚ l;
}.

(** * Changing segments *)

Definition set_status (status : Z) (self : ShmSegment) : ShmSegment :=
  mkShmSegment (sg_shmid self) (sg_key self) (sg_uid self) (sg_gid self) (sg_cuid self) (sg_cgid self)
    (sg_mode self) status (shm_atime self) (shm_dtime self) (shm_ctime self)
    (shm_cpid self) (shm_lpid self) (shm_nattach self) (sg_chunk self) (sg_process_set self).
Definition set_times (atime dtime ctime : Z) (self : ShmSegment) : ShmSegment :=
  mkShmSegment (sg_shmid self) (sg_key self) (sg_uid self) (sg_gid self) (sg_cuid self) (sg_cgid self)
    (sg_mode self) (sg_status self) atime dtime ctime
    (shm_cpid self) (shm_lpid self) (shm_nattach self) (sg_chunk self) (sg_process_set self).
Definition set_attach (lpid nattach : Z) (process_set : gset Z) (self : ShmSegment) : ShmSegment :=
  mkShmSegment (sg_shmid self) (sg_key self) (sg_uid self) (sg_gid self) (sg_cuid self) (sg_cgid self)
    (sg_mode self) (sg_status self) (shm_atime self) (shm_dtime self) (shm_ctime self)
    (shm_cpid self) lpid nattach (sg_chunk self) process_set.
Abbreviation set_atime t self := (set_times t (shm_dtime self) (shm_ctime self) self) (only parsing).
Abbreviation set_dtime t self := (set_times (shm_atime self) t (shm_ctime self) self) (only parsing).
Abbreviation set_ctime t self := (set_times (shm_atime self) (shm_dtime self) t self) (only parsing).
Abbreviation set_lpid pid self := (set_attach pid (shm_nattach self) (sg_process_set self) self) (only parsing).
Abbreviation set_nattach n self := (set_attach (shm_lpid self) n (sg_process_set self) self) (only parsing).
Abbreviation set_processes p self := (set_attach (shm_lpid self) (shm_nattach self) p self) (only parsing).

Abbreviation shm_start self := (vm_start (ck_range (sg_chunk self))).
Abbreviation shm_size self := (VMRange_size (ck_range (sg_chunk self))).

Definition set_destruction (self : ShmSegment) : ShmSegment :=
  set_status (Z.lor (sg_status self) SHM_DEST) self.

Definition shm_add_pid (self : ShmSegment) (pid : Z) : Result ShmSegment :=
  if bool_decide (pid ∈ sg_process_set self) then Err EINVAL
  else Ok (set_processes ({[pid]} ∪ sg_process_set self) self).

Definition shm_remove_pid (self : ShmSegment) (pid : Z) : Result ShmSegment :=
  if negb (bool_decide (pid ∈ sg_process_set self)) then Err EINVAL
  else Ok (set_processes (sg_process_set self ∖ {[pid]}) self).

(** * Identifiers *)

(** The loop visits another identifier every round until the numbers are used up, so it ends
    within one round more than there are identifiers in use; [None] when it never ends. *)
Fixpoint shmid_loop (fuel : nat) (id : Z) (used_id : gset Z) : option Z :=
  match fuel with
  | O => None
  | S fuel =>
      let id := if id =? SHMMNI then 0 else id in
      if bool_decide (id ∈ used_id) then shmid_loop fuel (id + 1) used_id else Some id
  end.

Definition get_new_shmid (self : ShmIdManager) : Result (Z * ShmIdManager) :=
  if free_num self =? 0 then Err ENOSPC else
  id ← unwrap_option (shmid_loop (S (size (used_id self))) (last_alloc_id self + 1) (used_id self));
  Ok (id, mkShmIdManager (used_id self) (free_num self - 1) id).

Definition ShmIdManager_free_shmid (self : ShmIdManager) (shmid : Z) : ShmIdManager :=
  mkShmIdManager (used_id self ∖ {[shmid]}) ((free_num self + 1) mod 2 ^ 32) (last_alloc_id self).

Section sysv.
Context {BF : Bitflags} {BV : BitVecs} {PL : Platform} {EN : Enclave} {US : UserSpace} {RB : RBTrees} {VE : VMEnv} {SE : ShmEnv}.

Definition is_destruction (self : ShmSegment) : bool := bf_contains (sg_status self) SHM_DEST.

(** [SYSTEM_V_SHM_MANAGER], and the user memory it takes chunks from. *)
Record SysVState := mkSysVState {
  shm_segments : gmap Z ShmSegment;
  shmid_manager : ShmIdManager;
  sv_vm : VMState;
}.

Abbreviation SV := (M SysVState) (only parsing).

Definition set_segments (m : gmap Z ShmSegment) : SV unit :=
  modify (fun s => mkSysVState m (shmid_manager s) (sv_vm s)).
Definition set_ids (ids : ShmIdManager) : SV unit :=
  modify (fun s => mkSysVState (shm_segments s) ids (sv_vm s)).
Definition put_segment (shmid : Z) (shm : ShmSegment) : SV unit :=
  modify (fun s => mkSysVState (<[shmid := shm]> (shm_segments s)) (shmid_manager s) (sv_vm s)).
Definition in_vm {A} (c : M VMState A) : SV A := fun s =>
  let (r, vm) := c (sv_vm s) in (r, mkSysVState (shm_segments s) (shmid_manager s) vm).

Definition new_shmid : SV Z :=
  s ← get;
  p ← lift (get_new_shmid (shmid_manager s));
  _ ← set_ids p.2;
  ok p.1.
Definition free_shmid (shmid : Z) : SV unit :=
  s ← get; set_ids (ShmIdManager_free_shmid (shmid_manager s) shmid).

(** [.iter().find(..)] and [.values().find(..)] *)
Definition find_segment (p : ShmSegment -> bool) (s : SysVState) : option ShmSegment :=
  snd <$> List.find (fun x => p x.2) (seg_order (map_to_list (shm_segments s))).

(** * Segments *)

Definition to_file_mode (self : Z) : Result Z :=
  let shmflgs := bf_remove (bf_remove self IPC_CREAT) IPC_EXCL in
  unwrap_option (bf_from_bits FileMode_all (Z.land (shmflgs mod 2 ^ 16) FileMode_all)).

(** [now] is the time of the call. The users of the LibOS are all root. *)
Definition ShmSegment_new (cur : Thread) (now shmid key size mode : Z) : SV ShmSegment :=
  vm_option ← lift (VMMapOptionsBuilder_build
    (mkBuilder (Some size) None (Some (Z.lor VMPerms_READ VMPerms_WRITE)) None None None));
  chunk ← in_vm (mmap_chunk cur vm_option);
  ok (mkShmSegment shmid key 0 0 0 0 mode 0 0 0 now (th_pid cur) 0 0 chunk ∅).

(** [Drop for ShmSegment]; the result of unmapping is ignored. *)
Definition ShmSegment_drop (cur : Thread) (self : ShmSegment) : SV unit :=
  if negb (shm_nattach self =? 0) then panic else
  if negb (Z.of_nat (size (sg_process_set self)) =? 0) then panic else
  _ ← attempt (in_vm (munmap_chunk cur (sg_chunk self) None MunmapDefault));
  ok tt.

(** [HashMap::insert] and [HashMap::remove] whose results are dropped at once. *)
Definition segments_insert (cur : Thread) (shmid : Z) (shm : ShmSegment) : SV unit :=
  s ← get;
  _ ← put_segment shmid shm;
  match shm_segments s !! shmid with Some old => ShmSegment_drop cur old | None => ok tt end.
Definition segments_remove (cur : Thread) (shmid : Z) : SV unit :=
  s ← get;
  _ ← set_segments (delete shmid (shm_segments s));
  match shm_segments s !! shmid with Some old => ShmSegment_drop cur old | None => ok tt end.

Definition get_shm_chunk_containing_addr (s : SysVState) (addr pid : Z) : option Chunk :=
  sg_chunk <$> find_segment (fun shm => VMRange_contains (ck_range (sg_chunk shm)) addr
                                        && bool_decide (pid ∈ sg_process_set shm)) s.

(** * System calls *)

Definition shmctl_rmshm (cur : Thread) (now shmid : Z) : SV unit :=
  s ← get;
  match shm_segments s !! shmid with
  | Some shm =>
      let shm := set_destruction (set_ctime now shm) in
      _ ← put_segment shmid shm;
      if shm_nattach shm =? 0 then
        _ ← free_shmid (sg_shmid shm);
        segments_remove cur (sg_shmid shm)
      else ok tt
  | None => fail_with EINVAL
  end.

(** [buf] says whether the caller passed a buffer; the result is what is written to it. *)
Definition shmctl_ipcstat (shmid : Z) (buf : bool) : SV shmids_t :=
  s ← get;
  match shm_segments s !! shmid with
  | Some shm =>
      if negb buf then fail_with EFAULT else
      let shm_perm :=
        mkIpcPerm (sg_key shm) (sg_uid shm) (sg_uid shm) (sg_cuid shm) (sg_cgid shm)
          (Z.lor (sg_mode shm) (sg_status shm)) in
      ok (mkShmids shm_perm (shm_size shm) (shm_atime shm) (shm_dtime shm) (shm_ctime shm)
            (shm_cpid shm) (shm_lpid shm) (shm_nattach shm))
  | None => fail_with EINVAL
  end.

Definition create_segment (cur : Thread) (now key size mode : Z) : SV Z :=
  shmid ← new_shmid;
  shm ← ShmSegment_new cur now shmid key size mode;
  _ ← segments_insert cur (sg_shmid shm) shm;
  ok shmid.

Definition do_shmget (cur : Thread) (now key size shmflg : Z) : SV Z :=
  if bf_contains shmflg IPC_CREAT && ((size <? SHMMIN) || (SHMMAX <? size)) then fail_with EINVAL else
  mode ← lift (to_file_mode shmflg);
  s ← get;
  if key =? IPC_PRIVATE then create_segment cur now key size mode else
  match find_segment (fun shm => negb (is_destruction shm) && (sg_key shm =? key)) s with
  | Some shm =>
      if bf_contains shmflg IPC_CREAT && bf_contains shmflg IPC_EXCL then fail_with EEXIST else
      if shm_size shm <? size then fail_with EINVAL else
      ok (sg_shmid shm)
  | None =>
      if negb (bf_contains shmflg IPC_CREAT) then fail_with ENOENT else
      create_segment cur now key size mode
  end.

Definition do_shmat (cur : Thread) (now shmid addr : Z) : SV Z :=
  let pid := th_pid cur in
  s ← get;
  match shm_segments s !! shmid with
  | Some shm =>
      if negb (addr =? 0) && negb (addr =? shm_start shm) then fail_with EINVAL else
      let shm := set_atime now (set_nattach (shm_nattach shm +64 1) shm) in
      _ ← put_segment shmid shm;
      shm ← lift (shm_add_pid shm pid);
      _ ← put_segment shmid (set_lpid pid shm);
      ok (shm_start shm)
  | None => fail_with EINVAL
  end.

Definition do_shmdt (cur : Thread) (now addr : Z) : SV unit :=
  let pid := th_pid cur in
  s ← get;
  match find_segment (fun shm => shm_start shm =? addr) s with
  | Some shm =>
      let shmid := sg_shmid shm in
      let shm := set_lpid pid (set_dtime now shm) in
      _ ← put_segment shmid shm;
      shm ← lift (shm_remove_pid shm pid);
      let shm := set_nattach (shm_nattach shm -64 1) shm in
      _ ← put_segment shmid shm;
      if is_destruction shm && (shm_nattach shm =? 0) then
        _ ← free_shmid shmid;
        segments_remove cur shmid
      else ok tt
  | None => fail_with EINVAL
  end.

Definition do_shmctl (cur : Thread) (now shmid cmd : Z) (buf : bool) : SV (option shmids_t) :=
  if cmd =? IPC_RMID then _ ← shmctl_rmshm cur now shmid; ok None else
  if cmd =? IPC_STAT then ds ← shmctl_ipcstat shmid buf; ok (Some ds) else
  fail_with EINVAL.

(** [ipc/syscalls.rs]. Flags are checked before the call. *)
Definition syscall_shmget (cur : Thread) (now key size shmflg : Z) : SV Z :=
  shmflg ← lift (ok_or (bf_from_bits ShmFlags_all (shmflg mod 2 ^ 32)) EINVAL);
  do_shmget cur now key size shmflg.
Definition syscall_shmat (cur : Thread) (now shmid shmaddr shmflg : Z) : SV Z :=
  _ ← lift (ok_or (bf_from_bits ShmFlags_all (shmflg mod 2 ^ 32)) EINVAL);
  do_shmat cur now (shmid mod 2 ^ 32) shmaddr.
Definition syscall_shmctl (user_range : VMRange) (cur : Thread) (now shmid cmd buf_u : Z) : SV (option shmids_t) :=
  buf ← (if negb (buf_u =? 0) then _ ← lift (check_ptr user_range buf_u size_of_shmids); ok true else ok false);
  do_shmctl cur now (shmid mod 2 ^ 32) (cmd mod 2 ^ 32) buf.

(** * Exit *)

(** The closure of [drain_filter] for one segment, and the drop if it is taken out. *)
Definition detach_segment (cur : Thread) (shmid : Z) : SV unit :=
  s ← get;
  match shm_segments s !! shmid with
  | Some shm =>
      match shm_remove_pid shm (th_pid cur) with
      | Ok shm =>
          let shm := set_nattach (shm_nattach shm -64 1) shm in
          _ ← put_segment shmid shm;
          if is_destruction shm && (shm_nattach shm =? 0) then
            _ ← free_shmid shmid;
            segments_remove cur shmid
          else ok tt
      | _ => ok tt
      end
  | None => ok tt
  end.

Definition detach_shm_when_process_exit (cur : Thread) : SV unit :=
  s ← get;
  for_each (fun x => detach_segment cur x.1) (seg_order (map_to_list (shm_segments s))).

Definition clean_when_libos_exit (cur : Thread) : SV unit :=
  s ← get;
  _ ← set_segments ∅;
  for_each (fun x => _ ← free_shmid (sg_shmid x.2); ShmSegment_drop cur x.2)
    (seg_order (map_to_list (shm_segments s))).

(** * The rest of the LibOS *)

(** The memory of an exiting process: its chunks, then the segments it is attached to. *)
Definition exit_memory (cur : Thread) : SV unit :=
  _ ← in_vm (VMManager_free_chunks_when_exit cur);
  detach_shm_when_process_exit cur.

(** A page fault: the chunks of the process come first. *)
Definition page_fault (cur : Thread) (rip pf_addr errcd : Z) (kernel_triggers : bool) : SV unit :=
  s ← get;
  in_vm (VMManager_handle_page_fault cur (get_shm_chunk_containing_addr s pf_addr (th_pid cur))
           rip pf_addr errcd kernel_triggers).

(** The end of the LibOS, up to handing the memory back to the SDK. *)
Definition free_user_space (manager : VMManager) (cur : Thread) : SV unit :=
  _ ← clean_when_libos_exit cur;
  s ← get;
  if VMManager_verified_clean_when_exit manager (sv_vm s) then ok tt else panic.

(** The two parts of the user space around the gap. *)
Definition get_user_space_ranges (manager : VMManager) : Result (VMRange * VMRange) :=
  let total := vmm_range manager in
  match vmm_gap_range manager with
  | Some gap =>
      part_a ← unwrap_result (VMRange_new (vm_start total) (vm_start gap));
      part_b ← unwrap_result (VMRange_new (vm_end gap) (vm_end total));
      Ok (part_a, part_b)
  | None =>
      part_a ← unwrap_result (VMRange_new (vm_start total) (vm_end total));
      Ok (part_a, mkVMRange 0 0)
  end.

End sysv.
