(* ===== verification/PlatformManager.v ===== *)
(** The manager of the user space and System V shared memory on a platform that can fail,
    compared with the same code on the platform without failures. *)

From stdpp Require Import gmap.
From S2P Require Import Prelude Errno Effects External FileFlags VMRange VMMapOptions VMFreeSpace VMRemap.
From S2P Require Import VMEpc Platform PageTracker VMArea ChunkManager PlatformChunk VMChunk ShmManager VMManager.
From S2P Require Import MemUtil SysVShm.

Section platform.
Context {BF : Bitflags} {BV : BitVecs} {PL : Platform} {EN : Enclave} {US : UserSpace} {RB : RBTrees} {VE : VMEnv}.
Abbreviation TE := (total_enclave EN) (only parsing).
Abbreviation same c c' := (agrees platform_fault c c') (only parsing).

(** * Chunks *)

Lemma in_world_agrees {A} (c c' : M (World BV PL) A) : same c c' -> same (in_world c) (in_world c').
Proof.
  intros H s. unfold in_world. destruct (H (vs_world s)) as [<- |[Hp HF]]; [by left|]. right.
  by destruct (c (vs_world s)).
Qed.

Lemma on_manager_agrees {A} k (c c' : M CState A) : same c c' -> same (on_manager k c) (on_manager k c').
Proof.
  intros H. unfold on_manager. apply agrees_bind; [apply agrees_refl|]. intros [v|i]; [apply agrees_refl|].
  intros s. unfold mbind, M_bind, get. destruct (H (ci_chunk_manager i, vs_world s)) as [<- |[Hp HF]]; [by left|].
  right. destruct (c _) as [r [cm w]]. cbn in Hp. by subst.
Qed.
Ltac agree_hook ::= first [apply in_world_agrees | apply on_manager_agrees].

Lemma chunk_clean_agrees cur c :
  same (ChunkInternal_clean_multi_vmas cur c) (ChunkInternal_clean_multi_vmas (EN := TE) cur c).
Proof. unfold ChunkInternal_clean_multi_vmas. agree. Qed.

Lemma new_single_chunk_agrees cur r o :
  same (Chunk_new_single_vma_chunk cur r o) (Chunk_new_single_vma_chunk (EN := TE) cur r o).
Proof. unfold Chunk_new_single_vma_chunk. agree. Qed.

Lemma Chunk_mmap_agrees cur c o : same (Chunk_mmap cur c o) (Chunk_mmap (EN := TE) cur c o).
Proof. unfold Chunk_mmap. agree. Qed.
#[local] Hint Resolve chunk_clean_agrees new_single_chunk_agrees Chunk_mmap_agrees : agree.

Lemma Chunk_try_mmap_agrees cur c o : same (Chunk_try_mmap cur c o) (Chunk_try_mmap (EN := TE) cur c o).
Proof. unfold Chunk_try_mmap. agree. Qed.

Lemma Chunk_fault_agrees cur c rip pf errcd kt :
  same (Chunk_handle_page_fault cur c rip pf errcd kt) (Chunk_handle_page_fault (EN := TE) cur c rip pf errcd kt).
Proof. unfold Chunk_handle_page_fault. agree. Qed.
#[local] Hint Resolve Chunk_try_mmap_agrees Chunk_fault_agrees : agree.

(** * Shared file mappings *)

Lemma metadata_of_agrees file : same (metadata_of file) (metadata_of (EN := TE) file).
Proof.
  intros s. unfold metadata_of. destruct (metadata_agrees file (w_mem (vs_world s))) as [-> |[-> HF]]; [by left|by right].
Qed.
#[local] Hint Resolve metadata_of_agrees : agree.

Lemma inode_id_agrees v : same (inode_id_of v) (inode_id_of (EN := TE) v).
Proof. unfold inode_id_of. agree. Qed.
#[local] Hint Resolve inode_id_agrees : agree.

Lemma apply_perms_agrees v new :
  same (apply_new_perms_if_higher v new) (apply_new_perms_if_higher (EN := TE) v new).
Proof. unfold apply_new_perms_if_higher. agree. Qed.
#[local] Hint Resolve apply_perms_agrees : agree.

Lemma shm_mmap_agrees cur o : same (ShmManager_mmap_shared_chunk cur o) (ShmManager_mmap_shared_chunk (EN := TE) cur o).
Proof. unfold ShmManager_mmap_shared_chunk, qualified_for_sharing. agree. Qed.

Lemma shm_munmap_agrees cur c r flag :
  same (ShmManager_munmap_shared_chunk cur c r flag) (ShmManager_munmap_shared_chunk (EN := TE) cur c r flag).
Proof. unfold ShmManager_munmap_shared_chunk. agree. Qed.

Lemma shm_mprotect_agrees c new :
  same (ShmManager_mprotect_shared_chunk c new) (ShmManager_mprotect_shared_chunk (EN := TE) c new).
Proof. unfold ShmManager_mprotect_shared_chunk. agree. Qed.

Lemma shm_create_agrees o c : same (ShmManager_create_shared_chunk o c) (ShmManager_create_shared_chunk (EN := TE) o c).
Proof. unfold ShmManager_create_shared_chunk. agree. Qed.

Lemma shm_replace_agrees c d :
  same (ShmManager_replace_shared_chunk c d) (ShmManager_replace_shared_chunk (EN := TE) c d).
Proof. unfold ShmManager_replace_shared_chunk. agree. Qed.
#[local] Hint Resolve shm_mmap_agrees shm_munmap_agrees shm_mprotect_agrees shm_create_agrees shm_replace_agrees : agree.

(** * The manager *)

Lemma new_chunk_options_agrees cur o : same (new_chunk_with_options cur o) (new_chunk_with_options (EN := TE) cur o).
Proof. unfold new_chunk_with_options. agree. Qed.
#[local] Hint Resolve new_chunk_options_agrees : agree.

Lemma mmap_chunk_agrees cur o : same (mmap_chunk cur o) (mmap_chunk (EN := TE) cur o).
Proof. unfold mmap_chunk. agree. Qed.

Lemma munmap_chunk_agrees cur c r flag : same (munmap_chunk cur c r flag) (munmap_chunk (EN := TE) cur c r flag).
Proof. unfold munmap_chunk, munmap_shared_chunk, munmap_single_vma. agree. Qed.
#[local] Hint Resolve mmap_chunk_agrees munmap_chunk_agrees : agree.

Lemma mmap_shared_agrees cur o : same (mmap_shared_chunk cur o) (mmap_shared_chunk (EN := TE) cur o).
Proof. unfold mmap_shared_chunk. agree. Qed.

Lemma mprotect_single_agrees cur c r new :
  same (mprotect_single_vma_chunk cur c r new) (mprotect_single_vma_chunk (EN := TE) cur c r new).
Proof. unfold mprotect_single_vma_chunk, mprotect_pieces. agree. Qed.
#[local] Hint Resolve mmap_shared_agrees mprotect_single_agrees : agree.

Lemma mmap_across_agrees (f f' : VMRange -> VMMapOptions -> M VMState Z) cur r o :
  (forall r o, same (f r o) (f' r o)) ->
  same (force_mmap_across_multiple_chunks f cur r o) (force_mmap_across_multiple_chunks f' cur r o).
Proof. intros Hf. unfold force_mmap_across_multiple_chunks. agree. Qed.

Lemma mmap_with_addr_agrees cur r o : same (mmap_with_addr cur r o) (mmap_with_addr (EN := TE) cur r o).
Proof.
  unfold mmap_with_addr. generalize 2%nat as fuel. intros fuel. revert r o.
  induction fuel as [|fuel IH]; intros r o; simpl; [by agree|].
  pose proof (mmap_across_agrees _ _ cur r o IH). agree.
Qed.

Lemma first_success_agrees (f f' : Chunk -> M VMState Z) l :
  (forall c, same (f c) (f' c)) -> same (first_success f l) (first_success f' l).
Proof. intros Hf. induction l as [|c l IH]; simpl; agree. Qed.
Ltac agree_hook ::= first [apply in_world_agrees | apply on_manager_agrees | apply first_success_agrees; intros ?].
#[local] Hint Resolve mmap_with_addr_agrees : agree.

Lemma mmap_slow_agrees cur o : same (mmap_slow cur o) (mmap_slow (EN := TE) cur o).
Proof. unfold mmap_slow, mmap_own_chunk. agree. Qed.
#[local] Hint Resolve mmap_slow_agrees : agree.

Lemma mmap_default_agrees cur o : same (mmap_default_chunks cur o) (mmap_default_chunks (EN := TE) cur o).
Proof. unfold mmap_default_chunks. agree. Qed.
#[local] Hint Resolve mmap_default_agrees : agree.

Lemma check_permissions_agrees o :
  agrees_result platform_fault (mmap_file_check_permissions o) (mmap_file_check_permissions (EN := TE) o).
Proof. unfold mmap_file_check_permissions. agree. Qed.
#[local] Hint Resolve check_permissions_agrees : agree.

Lemma mmap_at_agrees cur o : same (mmap_at cur o) (mmap_at (EN := TE) cur o).
Proof. unfold mmap_at, mmap_own_chunk. agree. Qed.
#[local] Hint Resolve mmap_at_agrees : agree.

Lemma mmap_agrees cur o : same (VMManager_mmap cur o) (VMManager_mmap (EN := TE) cur o).
Proof. unfold VMManager_mmap. agree. Qed.

Lemma munmap_agrees cur addr size : same (VMManager_munmap cur addr size) (VMManager_munmap (EN := TE) cur addr size).
Proof. unfold VMManager_munmap. agree. Qed.

Lemma mprotect_agrees cur addr size new :
  same (VMManager_mprotect cur addr size new) (VMManager_mprotect (EN := TE) cur addr size new).
Proof. unfold VMManager_mprotect. agree. Qed.

Lemma exit_agrees cur : same (VMManager_free_chunks_when_exit cur) (VMManager_free_chunks_when_exit (EN := TE) cur).
Proof. unfold VMManager_free_chunks_when_exit. agree. Qed.

Lemma fault_agrees cur c rip pf errcd kt :
  same (VMManager_handle_page_fault cur c rip pf errcd kt) (VMManager_handle_page_fault (EN := TE) cur c rip pf errcd kt).
Proof. unfold VMManager_handle_page_fault. agree. Qed.
#[local] Hint Resolve mmap_agrees munmap_agrees mprotect_agrees exit_agrees fault_agrees : agree.

(** * System V shared memory *)

Context {SE : ShmEnv}.

Lemma in_vm_agrees {A} (c c' : M VMState A) : same c c' -> same (in_vm c) (in_vm c').
Proof.
  intros H s. unfold in_vm. destruct (H (sv_vm s)) as [<- |[Hp HF]]; [by left|]. right. by destruct (c (sv_vm s)).
Qed.
Ltac agree_hook ::= first [apply in_vm_agrees | apply in_world_agrees | apply on_manager_agrees].

Lemma segment_drop_agrees cur shm : same (ShmSegment_drop cur shm) (ShmSegment_drop (EN := TE) cur shm).
Proof. unfold ShmSegment_drop. agree. Qed.
#[local] Hint Resolve segment_drop_agrees : agree.

Lemma segments_remove_agrees cur id : same (segments_remove cur id) (segments_remove (EN := TE) cur id).
Proof. unfold segments_remove. agree. Qed.
#[local] Hint Resolve segments_remove_agrees : agree.

Lemma shmget_agrees cur now key size flg :
  same (syscall_shmget cur now key size flg) (syscall_shmget (EN := TE) cur now key size flg).
Proof. unfold syscall_shmget, do_shmget, create_segment, ShmSegment_new, segments_insert. agree. Qed.

Lemma shmdt_agrees cur now addr : same (do_shmdt cur now addr) (do_shmdt (EN := TE) cur now addr).
Proof. unfold do_shmdt. agree. Qed.

Lemma shmctl_agrees ur cur now id cmd buf :
  same (syscall_shmctl ur cur now id cmd buf) (syscall_shmctl (EN := TE) ur cur now id cmd buf).
Proof. unfold syscall_shmctl, do_shmctl, shmctl_rmshm. agree. Qed.

Lemma exit_memory_agrees cur : same (exit_memory cur) (exit_memory (EN := TE) cur).
Proof. unfold exit_memory, detach_shm_when_process_exit, detach_segment. agree. Qed.

Lemma page_fault_agrees cur rip pf errcd kt :
  same (page_fault cur rip pf errcd kt) (page_fault (EN := TE) cur rip pf errcd kt).
Proof. unfold page_fault. agree. Qed.

Lemma free_user_space_agrees m cur : same (free_user_space m cur) (free_user_space (EN := TE) m cur).
Proof. unfold free_user_space, clean_when_libos_exit. agree. Qed.

End platform.
