(* ===== verification/VMManagerFacts.v ===== *)
(** The invariant of the user space and the memory of a process.

    [vm_wf]: the chunks are disjoint, together with the free list they make up the
    managed addresses, their contents are well-formed, and the processes list chunks
    that exist. [pmap s pid a] is what process [pid] sees at address [a]:
    permissions and file position, or nothing. *)

From stdpp Require Import gmap sorting.
From S2P Require Import Prelude Errno Effects External VMRange VMMapOptions VMFreeSpace VMRemap.
From S2P Require Import VMEpc PageTracker VMArea VMAreaFacts ChunkManager PlatformChunk ChunkManagerFacts.
From S2P Require Import ChunkProtect ChunkMerge ChunkMmap ChunkFault VMChunk ShmManager VMManager.

(** * Sets of chunks *)

Lemma Forall_elem {A} (P : A -> Prop) l : Forall P l <-> forall x, x ∈ l -> P x.
Proof. rewrite List.Forall_forall. by setoid_rewrite list_elem_of_In. Qed.

Definition in_chunks (a : Z) (l : list Chunk) : Prop := exists c, c ∈ l /\ a ∈ ck_range c.

Lemma in_chunks_one a c : in_chunks a [c] <-> a ∈ ck_range c.
Proof. unfold in_chunks. setoid_rewrite list_elem_of_singleton. naive_solver. Qed.

Definition chunk_lt (c d : Chunk) : Prop := vm_start (ck_range c) < vm_start (ck_range d).

Lemma Chunk_cmp_spec c d :
  match Chunk_cmp c d with
  | Lt => chunk_lt c d
  | Eq => vm_start (ck_range c) = vm_start (ck_range d)
  | Gt => chunk_lt d c
  end.
Proof. unfold Chunk_cmp, chunk_lt. destruct (Z.compare_spec (vm_start (ck_range c)) (vm_start (ck_range d))); lia. Qed.

Lemma btree_insert_spec c l :
  StronglySorted chunk_lt l -> (forall d, d ∈ l -> vm_start (ck_range d) <> vm_start (ck_range c)) ->
  StronglySorted chunk_lt (btree_insert c l) /\ forall d, d ∈ btree_insert c l <-> d = c \/ d ∈ l.
Proof.
  induction 1 as [|d l Hl IH Hd]; intros Hne; simpl.
  - split; [repeat constructor|]. set_solver.
  - pose proof (Chunk_cmp_spec c d) as Hc. pose proof (Hne d ltac:(set_solver)) as Hcd.
    destruct (Chunk_cmp c d); [lia| |].
    + split; [|set_solver]. constructor; [by constructor|]. constructor; [done|].
      eapply List.Forall_impl; [|done]. unfold chunk_lt in *. lia.
    + destruct IH as [Hs Hin]; [set_solver|]. split; [|set_solver]. constructor; [done|].
      rewrite Forall_elem in Hd |- *. intros e He. apply Hin in He as [->|He]; auto.
Qed.

Lemma StronglySorted_filter {A} (R : A -> A -> Prop) f l :
  StronglySorted R l -> StronglySorted R (List.filter f l).
Proof.
  induction 1 as [|x l Hl IH Hx]; simpl; [constructor|]. destruct (f x); [|done].
  constructor; [done|]. rewrite List.Forall_forall in *. intros y Hy. apply List.filter_In in Hy as [Hy _]. auto.
Qed.

Lemma chunk_start_inj l c d :
  StronglySorted chunk_lt l -> c ∈ l -> d ∈ l ->
  vm_start (ck_range c) = vm_start (ck_range d) -> c = d.
Proof.
  induction 1 as [|x l Hl IH Hx]; intros Hc Hd Heq; [set_solver|].
  rewrite Forall_elem in Hx. unfold chunk_lt in Hx.
  apply elem_of_cons in Hc as [->|Hc], Hd as [->|Hd]; auto;
    [apply Hx in Hd|apply Hx in Hc]; lia.
Qed.

Lemma btree_remove_spec c l :
  StronglySorted chunk_lt l -> c ∈ l ->
  StronglySorted chunk_lt (btree_remove c l) /\ forall d, d ∈ btree_remove c l <-> d ∈ l /\ d <> c.
Proof.
  intros Hl Hc. split; [by apply StronglySorted_filter|]. intros d. unfold btree_remove.
  rewrite !list_elem_of_In, List.filter_In, <- !list_elem_of_In. pose proof (Chunk_cmp_spec c d) as Hcmp.
  split; intros [Hd H]; split; try done.
  - intros ->. unfold chunk_lt in *. destruct (Chunk_cmp c c); [done|lia|lia].
  - destruct (Chunk_cmp c d); [|done..]. destruct H. by eapply chunk_start_inj.
Qed.

Section facts.
Context {BF : Bitflags} {BV : BitVecs} {PL : Platform} {EN : Enclave} {US : UserSpace} {RB : RBTrees} {VE : VMEnv}.

Lemma hash_insert_spec c l :
  NoDup l -> (forall d, d ∈ l -> ck_range d <> ck_range c) ->
  NoDup (hash_insert c l) /\ forall d, d ∈ hash_insert c l <-> d = c \/ d ∈ l.
Proof.
  intros Hl Hne. unfold hash_insert. destruct (existsb _ l) eqn:He.
  - apply existsb_exists in He as (d & Hd & Heq). unfold Chunk_eq in Heq. boolprop.
    destruct (Hne d); [by apply list_elem_of_In|done].
  - split.
    + rewrite hash_order_perm. constructor; [|done]. intros Hc. by destruct (Hne c).
    + intros d. rewrite hash_order_perm. set_solver.
Qed.

(** Inserting a chunk that is there already changes nothing. *)
Lemma hash_insert_same c l : c ∈ l -> hash_insert c l = l.
Proof.
  intros Hc. unfold hash_insert. replace (existsb _ l) with true; [done|]. symmetry.
  apply existsb_exists. exists c. split; [by apply list_elem_of_In|]. unfold Chunk_eq.
  by rewrite bool_decide_true.
Qed.

Lemma hash_remove_spec c l :
  NoDup l -> (forall d, d ∈ l -> ck_range d = ck_range c -> d = c) ->
  NoDup (hash_remove c l) /\ forall d, d ∈ hash_remove c l <-> d ∈ l /\ d <> c.
Proof.
  intros Hl Hinj. unfold hash_remove. split.
  - rewrite NoDup_ListNoDup in *. by apply List.NoDup_filter.
  - intros d. rewrite !list_elem_of_In, List.filter_In, <- !list_elem_of_In. unfold Chunk_eq.
    case_bool_decide; simpl; naive_solver.
Qed.

(** * What a process sees *)

Abbreviation vmas cm := (rb_iter (cm_vmas cm)) (only parsing).
Abbreviation chunks s := (im_chunks (vs_manager s)) (only parsing).
Abbreviation free s := (im_free_manager (vs_manager s)) (only parsing).
Abbreviation pcm s := (w_pcm (vs_world s)) (only parsing).
Abbreviation content s c := (vs_cells s !! ck_internal c) (only parsing).

Definition PCell : Type := VMPerms * option (FileRef * Z * bool).

Definition chunk_view (pid : Z) (i : ChunkType) (a : Z) : option PCell :=
  match i with
  | SingleVMA v => if bool_decide (a ∈ va_range v) then Some (va_perms v, file_pos v a) else None
  | MultiVMA ci =>
      match view (vmas (ci_chunk_manager ci)) a with
      | Some (p, acc, f) => if bool_decide (acc = Private pid) then Some (p, f) else None
      | None => None
      end
  end.

Definition chunk_at (l : list Chunk) (a : Z) : option Chunk :=
  List.find (fun c => VMRange_contains (ck_range c) a) l.

Definition pmap (s : VMState) (pid a : Z) : option PCell :=
  c ← chunk_at (mem_chunks s pid) a;
  i ← content s c;
  chunk_view pid i a.

(** * The invariant *)

(** The addresses that are managed: below the limit, and not in the gap. *)
Definition user_ok (U : Z -> Prop) : Prop :=
  (forall a, U a -> 0 <= a < addr_limit)
  /\ forall gap, user_space_gap = Some gap ->
     VMRange_wf gap /\ vm_start gap < vm_end gap /\ forall a, a ∈ gap -> ~ U a.

Definition content_wf (g : PageChunkManager) (r : VMRange) (i : ChunkType) : Prop :=
  VMRange_wf r /\ vm_start r < vm_end r /\ vm_end r <= addr_limit
  /\ match i with
     | SingleVMA v => area_wf g v /\ va_range v = r /\ VMArea_is_shared v = false
     | MultiVMA ci => cm_wf g (ci_chunk_manager ci) /\ cm_range (ci_chunk_manager ci) = r
     end.

(** The area of a chunk that System V shared memory keeps: plain memory that can be read
    and written. *)
Definition kept_area (v : VMArea) : Prop := va_perms v = VMPerms_DEFAULT /\ va_file_backed v = None.

(** [U] is the memory there is; [K] are the chunks that no process lists, which are the
    segments of System V shared memory. *)
Record vm_wf (U : Z -> Prop) (K : Chunk -> Prop) (s : VMState) : Prop := {
  vw_user : user_ok U;
  vw_pcm : pcm_wf (pcm s);
  vw_sorted : StronglySorted chunk_lt (chunks s);
  vw_disjoint c d a : c ∈ chunks s -> d ∈ chunks s -> a ∈ ck_range c -> a ∈ ck_range d -> c = d;
  vw_content c : c ∈ chunks s -> exists i, content s c = Some i /\ content_wf (pcm s) (ck_range c) i;
  vw_cells c d : c ∈ chunks s -> d ∈ chunks s -> ck_internal c = ck_internal d -> c = d;
  vw_next c : c ∈ chunks s -> (ck_internal c < vs_next_cell s)%positive;
  vw_free_ok : free_ok (free s);
  vw_free a : in_ranges a (free s) <-> U a /\ ~ in_chunks a (chunks s);
  vw_managed a : in_chunks a (chunks s) -> U a;
  vw_mem q c : c ∈ mem_chunks s q -> c ∈ chunks s;
  vw_nodup q : NoDup (mem_chunks s q);
  vw_single p q c v :
    content s c = Some (SingleVMA v) -> c ∈ mem_chunks s p -> c ∈ mem_chunks s q -> p = q;
  vw_owner c ci q a p f :
    c ∈ chunks s -> content s c = Some (MultiVMA ci) ->
    view (vmas (ci_chunk_manager ci)) a = Some (p, Private q, f) -> c ∈ mem_chunks s q;
  vw_listed c : c ∈ chunks s -> (exists q, c ∈ mem_chunks s q) \/ K c;
  vw_kept c : K c -> c ∈ chunks s /\ (forall q, c ∉ mem_chunks s q)
              /\ exists v, content s c = Some (SingleVMA v) /\ kept_area v;
}.

Lemma chunk_at_Some l a c : chunk_at l a = Some c -> c ∈ l /\ a ∈ ck_range c.
Proof.
  unfold chunk_at. intros H. apply List.find_some in H as [Hc Ha]. split; [by apply list_elem_of_In|].
  unfold VMRange_contains in Ha. boolprop. vmrange_unfold. lia.
Qed.

Lemma chunk_at_None l a : chunk_at l a = None <-> ~ in_chunks a l.
Proof.
  unfold chunk_at, in_chunks. split.
  - intros H (c & Hc & Ha). apply List.find_none with (x := c) in H; [|by apply list_elem_of_In].
    unfold VMRange_contains in H. vmrange_unfold. lia.
  - intros H. destruct (List.find _ l) eqn:Hf; [|done]. destruct H.
    exists c. by apply chunk_at_Some.
Qed.

Section wf.
Variables (U : Z -> Prop) (K : Chunk -> Prop) (s : VMState).
Hypothesis (Hs : vm_wf U K s).

Lemma chunk_at_mem q c a : c ∈ mem_chunks s q -> a ∈ ck_range c -> chunk_at (mem_chunks s q) a = Some c.
Proof.
  intros Hc Ha. destruct (chunk_at _ a) as [d|] eqn:Hd.
  - apply chunk_at_Some in Hd as [Hd Hda]. f_equal. eapply (vw_disjoint _ _ _ Hs); eauto using vw_mem.
  - apply chunk_at_None in Hd. destruct Hd. by exists c.
Qed.

Lemma pmap_in q c a i :
  c ∈ mem_chunks s q -> a ∈ ck_range c -> content s c = Some i -> pmap s q a = chunk_view q i a.
Proof. intros Hc Ha Hi. unfold pmap. rewrite (chunk_at_mem q c a) by done. simpl. by rewrite Hi. Qed.

Lemma pmap_out q a : ~ in_chunks a (mem_chunks s q) -> pmap s q a = None.
Proof. intros H. apply chunk_at_None in H. unfold pmap. by rewrite H. Qed.

Lemma content_of c : c ∈ chunks s -> exists i, content s c = Some i /\ content_wf (pcm s) (ck_range c) i.
Proof. apply (vw_content _ _ _ Hs). Qed.

Lemma chunk_range_wf c :
  c ∈ chunks s -> VMRange_wf (ck_range c) /\ vm_start (ck_range c) < vm_end (ck_range c)
  /\ vm_end (ck_range c) <= addr_limit.
Proof. intros Hc. destruct (content_of c Hc) as (i & _ & ? & ? & ? & _). done. Qed.

Lemma mem_range_inj q c d :
  c ∈ mem_chunks s q -> d ∈ mem_chunks s q -> ck_range d = ck_range c -> d = c.
Proof.
  intros Hc Hd Heq. destruct (chunk_range_wf c) as (_ & Hne & _); [by eapply vw_mem|].
  eapply (vw_disjoint _ _ _ Hs) with (a := vm_start (ck_range c)); eauto using vw_mem;
    rewrite ?Heq; vmrange_unfold; lia.
Qed.

Lemma single_alone p c v q :
  c ∈ mem_chunks s p -> content s c = Some (SingleVMA v) -> q <> p -> c ∉ mem_chunks s q.
Proof. intros Hc Hv Hq Hcq. destruct Hq. by eapply (vw_single _ _ _ Hs). Qed.

(** Memory is private: no address is mapped by two processes. *)
Lemma pmap_private p q a : p <> q -> pmap s p a = None \/ pmap s q a = None.
Proof.
  intros Hpq. unfold pmap.
  destruct (chunk_at (mem_chunks s p) a) as [c|] eqn:Hc; [|by left].
  destruct (chunk_at (mem_chunks s q) a) as [d|] eqn:Hd; [|by right].
  apply chunk_at_Some in Hc as [Hc Hca], Hd as [Hd Hda].
  assert (d = c) as -> by (eapply (vw_disjoint _ _ _ Hs); eauto using vw_mem). simpl.
  destruct (content s c) as [[v|ci]|] eqn:Hi; simpl; [| |by left].
  - destruct Hpq. by eapply (vw_single _ _ _ Hs).
  - destruct (view _ a) as [[[perms acc] f]|]; [|by left].
    do 2 case_bool_decide; [|by auto..]. congruence.
Qed.

End wf.

(** * Exchanging chunks

    Process [pid] exchanges the chunks [old] for [news]: every operation on chunks is
    such a step. A chunk whose content changes is in both lists. *)

Record switch (pid : Z) (s s' : VMState) (old news : list Chunk) : Prop := {
  sw_commits : exists P, commits (pcm s) (pcm s') P
                 /\ forall a, P a = true -> in_chunks a news \/ in_ranges a (free s);
  sw_sorted : StronglySorted chunk_lt (chunks s');
  sw_chunks d : d ∈ chunks s' <-> (d ∈ chunks s /\ d ∉ old) \/ d ∈ news;
  sw_old d : d ∈ old -> d ∈ chunks s;
  sw_used d : d ∈ old -> exists q, d ∈ mem_chunks s q;
  sw_cells d : d ∈ chunks s -> d ∉ old -> content s' d = content s d;
  sw_news d : d ∈ news -> exists i, content s' d = Some i /\ content_wf (pcm s') (ck_range d) i;
  sw_fresh d : d ∈ news -> d ∈ old \/ (vs_next_cell s <= ck_internal d)%positive;
  sw_inj d e : d ∈ news -> e ∈ news -> ck_internal d = ck_internal e -> d = e;
  sw_next : (vs_next_cell s <= vs_next_cell s')%positive
            /\ forall d, d ∈ news -> (ck_internal d < vs_next_cell s')%positive;
  sw_space d a : d ∈ news -> a ∈ ck_range d -> in_chunks a old \/ in_ranges a (free s);
  sw_disjoint d e a : d ∈ news -> e ∈ news -> a ∈ ck_range d -> a ∈ ck_range e -> d = e;
  sw_free_ok : free_ok (free s');
  sw_free a : in_ranges a (free s')
              <-> (in_ranges a (free s) \/ in_chunks a old) /\ ~ in_chunks a news;
  sw_others q : q <> pid -> mem_chunks s' q = mem_chunks s q;
  sw_others_old q d : q <> pid -> d ∈ mem_chunks s q -> d ∈ old -> d ∈ news;
  sw_nodup : NoDup (mem_chunks s' pid);
  sw_mem d : d ∈ mem_chunks s' pid -> (d ∈ mem_chunks s pid /\ d ∉ old) \/ d ∈ news;
  sw_keep d : d ∈ mem_chunks s pid -> d ∉ old -> d ∈ mem_chunks s' pid;
  sw_single d v q : d ∈ news -> content s' d = Some (SingleVMA v) -> q <> pid -> d ∉ mem_chunks s q;
  sw_owner d ci q a p f : d ∈ news -> content s' d = Some (MultiVMA ci) ->
    view (vmas (ci_chunk_manager ci)) a = Some (p, Private q, f) -> d ∈ mem_chunks s' q;
  sw_listed d : d ∈ news -> exists q, d ∈ mem_chunks s' q;
}.

Lemma content_wf_commits g g' r i P :
  content_wf g r i -> commits g g' P -> (forall a, P a = true -> ~ a ∈ r) -> content_wf g' r i.
Proof.
  intros (? & ? & ? & Hi) Hc HP. split_and!; auto. destruct i as [v|ci].
  - destruct Hi as (Hv & Hr & Ha). split_and!; auto. eapply area_wf_commits; eauto.
    intros a _ Hav HPa. destruct (HP a HPa). by rewrite <- Hr.
  - destruct Hi as [Hcm Hr]. split; [|done]. eapply cm_wf_commits; eauto.
    intros a HPa Hin. apply (HP a HPa). rewrite <- Hr.
    by apply (areas_ordered_bound _ _ _ a (cw_ordered _ _ Hcm)).
Qed.

Section switch.
Variables (U : Z -> Prop) (K : Chunk -> Prop) (pid : Z) (s s' : VMState) (old news : list Chunk).
Hypothesis (Hs : vm_wf U K s) (Hsw : switch pid s s' old news).

Lemma news_apart c d a :
  c ∈ chunks s -> c ∉ old -> d ∈ news -> a ∈ ck_range c -> ~ a ∈ ck_range d.
Proof.
  intros Hc Hco Hd Hca Hda. destruct (sw_space _ _ _ _ _ Hsw d a Hd Hda) as [(e & He & Hea)|Hf].
  - destruct Hco. rewrite (vw_disjoint _ _ _ Hs c e a); auto. by eapply sw_old.
  - apply (vw_free _ _ _ Hs) in Hf as [_ Hf]. destruct Hf. by exists c.
Qed.

Lemma cells_apart c d :
  c ∈ chunks s -> c ∉ old -> d ∈ news -> ck_internal c <> ck_internal d.
Proof.
  intros Hc Hco Hd Heq. destruct (sw_fresh _ _ _ _ _ Hsw d Hd) as [Ho|Hn].
  - destruct Hco. rewrite (vw_cells _ _ _ Hs c d); auto. by eapply sw_old.
  - pose proof (vw_next _ _ _ Hs c Hc). lia.
Qed.

Lemma switch_mem q d : d ∈ mem_chunks s' q -> (d ∈ mem_chunks s q /\ d ∉ old) \/ d ∈ news.
Proof.
  destruct (decide (q = pid)) as [->|Hq]; [apply (sw_mem _ _ _ _ _ Hsw)|].
  rewrite (sw_others _ _ _ _ _ Hsw) by done. intros Hd. destruct (decide (d ∈ old)); [right|by left].
  by eapply sw_others_old.
Qed.

Lemma switch_keep q d : d ∈ mem_chunks s q -> d ∉ old -> d ∈ mem_chunks s' q.
Proof.
  destruct (decide (q = pid)) as [->|Hq]; [apply (sw_keep _ _ _ _ _ Hsw)|].
  by rewrite (sw_others _ _ _ _ _ Hsw).
Qed.

Lemma switch_content d :
  d ∈ chunks s' -> exists i, content s' d = Some i /\ content_wf (pcm s') (ck_range d) i.
Proof.
  intros Hd. apply (sw_chunks _ _ _ _ _ Hsw) in Hd as [[Hd Ho]|Hd]; [|by eapply sw_news].
  destruct (content_of _ _ _ Hs d Hd) as (i & Hi & Hwf). exists i.
  rewrite (sw_cells _ _ _ _ _ Hsw) by done. split; [done|].
  destruct (sw_commits _ _ _ _ _ Hsw) as (P & HP & Hin). eapply content_wf_commits; eauto.
  intros a HPa Ha. destruct (Hin a HPa) as [(e & He & Hea)|Hf]; [by eapply news_apart|].
  apply (vw_free _ _ _ Hs) in Hf as [_ Hf]. destruct Hf. by exists d.
Qed.

Lemma switch_in_chunks a :
  in_chunks a (chunks s') <-> (in_chunks a (chunks s) /\ ~ in_chunks a old) \/ in_chunks a news.
Proof.
  unfold in_chunks. split.
  - intros (d & Hd & Ha). apply (sw_chunks _ _ _ _ _ Hsw) in Hd as [[Hd Ho]|Hd]; [left|right; eauto].
    split; [eauto|]. intros (e & He & Hea). destruct Ho. rewrite (vw_disjoint _ _ _ Hs d e a); auto.
    by eapply sw_old.
  - intros [[(d & Hd & Ha) Hn]|(d & Hd & Ha)]; exists d; (split; [|done]); apply (sw_chunks _ _ _ _ _ Hsw);
      [left|by right]. split; [done|]. intros Ho. destruct Hn. eauto.
Qed.

Lemma switch_single p q d v :
  content s' d = Some (SingleVMA v) -> d ∈ mem_chunks s' p -> d ∈ mem_chunks s' q -> p = q.
Proof.
  assert (Hone : forall p q, d ∈ news -> content s' d = Some (SingleVMA v) -> p <> q ->
    q <> pid -> d ∈ mem_chunks s' q -> False).
  { intros p' q' Hd Hv _ Hq Hm. rewrite (sw_others _ _ _ _ _ Hsw) in Hm by done.
    by eapply (sw_single _ _ _ _ _ Hsw). }
  intros Hv Hp Hq. destruct (decide (p = q)) as [|Hpq]; [done|].
  destruct (decide (d ∈ news)) as [Hd|Hd].
  - destruct (decide (q = pid)) as [->|]; [|by destruct (Hone p q)]. by destruct (Hone pid p).
  - destruct (switch_mem p d Hp) as [[Hp' Ho]|]; [|done]. destruct (switch_mem q d Hq) as [[Hq' _]|]; [|done].
    rewrite (sw_cells _ _ _ _ _ Hsw) in Hv by eauto using vw_mem. by eapply (vw_single _ _ _ Hs).
Qed.

Lemma switch_wf : vm_wf U K s'.
Proof.
  pose proof (sw_commits _ _ _ _ _ Hsw) as (P & (HP & _) & _). pose proof switch_in_chunks as Hin.
  constructor.
  - apply (vw_user _ _ _ Hs).
  - done.
  - by eapply sw_sorted.
  - intros c d a Hc Hd Hca Hda.
    apply (sw_chunks _ _ _ _ _ Hsw) in Hc as [[Hc Hco]|Hc], Hd as [[Hd Hdo]|Hd].
    + by eapply (vw_disjoint _ _ _ Hs).
    + by destruct (news_apart c d a).
    + by destruct (news_apart d c a).
    + by eapply (sw_disjoint _ _ _ _ _ Hsw).
  - apply switch_content.
  - intros c d Hc Hd Heq.
    apply (sw_chunks _ _ _ _ _ Hsw) in Hc as [[Hc Hco]|Hc], Hd as [[Hd Hdo]|Hd].
    + by eapply (vw_cells _ _ _ Hs).
    + by destruct (cells_apart c d).
    + by destruct (cells_apart d c).
    + by eapply (sw_inj _ _ _ _ _ Hsw).
  - intros c Hc. destruct (sw_next _ _ _ _ _ Hsw) as [Hle Hlt].
    apply (sw_chunks _ _ _ _ _ Hsw) in Hc as [[Hc _]|Hc]; [|auto].
    pose proof (vw_next _ _ _ Hs c Hc). lia.
  - by eapply sw_free_ok.
  - intros a. rewrite (sw_free _ _ _ _ _ Hsw), (vw_free _ _ _ Hs), Hin.
    assert (in_chunks a old -> in_chunks a (chunks s)) as Ho.
    { intros (d & Hd & Ha). exists d. split; [by eapply sw_old|done]. }
    pose proof (vw_managed _ _ _ Hs a). destruct (chunk_at old a) eqn:Hat.
    + apply chunk_at_Some in Hat as [Hc Hca]. assert (in_chunks a old) by (by exists c). tauto.
    + apply chunk_at_None in Hat. tauto.
  - intros a [[Ha _]|(d & Hd & Ha)]%Hin; [by apply (vw_managed _ _ _ Hs)|].
    destruct (sw_space _ _ _ _ _ Hsw d a Hd Ha) as [(e & He & Hea)|Hf]; [|by apply (vw_free _ _ _ Hs) in Hf as [? _]].
    apply (vw_managed _ _ _ Hs). exists e. split; [by eapply sw_old|done].
  - intros q c Hc. apply (sw_chunks _ _ _ _ _ Hsw). destruct (switch_mem q c Hc) as [[Hm Ho]|]; [|by right].
    left. split; [by eapply vw_mem|done].
  - intros q. destruct (decide (q = pid)) as [->|Hq]; [by eapply sw_nodup|].
    rewrite (sw_others _ _ _ _ _ Hsw) by done. apply (vw_nodup _ _ _ Hs).
  - intros p q c v. apply switch_single.
  - intros c ci q a p f Hc Hci Hv. apply (sw_chunks _ _ _ _ _ Hsw) in Hc as [[Hc Ho]|Hc].
    + rewrite (sw_cells _ _ _ _ _ Hsw) in Hci by done. apply switch_keep; [|done].
      by eapply (vw_owner _ _ _ Hs).
    + by eapply (sw_owner _ _ _ _ _ Hsw).
  - intros c Hc. apply (sw_chunks _ _ _ _ _ Hsw) in Hc as [[Hc Ho]|Hc]; [|left; by apply (sw_listed _ _ _ _ _ Hsw)].
    destruct (vw_listed _ _ _ Hs c Hc) as [[q Hq]|]; [left|by right]. exists q. by apply switch_keep.
  - intros c Hc. destruct (vw_kept _ _ _ Hs c Hc) as (Hcc & Hno & v & Hv & Ha).
    assert (Hco : c ∉ old) by (intros Ho; destruct (sw_used _ _ _ _ _ Hsw c Ho) as [q Hq]; by destruct (Hno q)).
    split_and!.
    + apply (sw_chunks _ _ _ _ _ Hsw). by left.
    + intros q Hq. destruct (switch_mem q c Hq) as [[Hm _]|Hn]; [by destruct (Hno q)|].
      by apply (cells_apart c c Hcc Hco Hn).
    + exists v. split; [|done]. by rewrite (sw_cells _ _ _ _ _ Hsw).
Qed.

Lemma pmap_new q d a i :
  d ∈ news -> a ∈ ck_range d -> content s' d = Some i ->
  pmap s' q a = if bool_decide (d ∈ mem_chunks s' q) then chunk_view q i a else None.
Proof.
  intros Hd Ha Hi. case_bool_decide as Hm; [by eapply (pmap_in U K s' switch_wf)|].
  apply pmap_out. intros (e & He & Hea). destruct (switch_mem q e He) as [[Hem Heo]|Hen].
  - eapply news_apart; eauto using vw_mem.
  - destruct Hm. by rewrite (sw_disjoint _ _ _ _ _ Hsw d e a).
Qed.

Lemma pmap_gone q a : in_chunks a old -> ~ in_chunks a news -> pmap s' q a = None.
Proof.
  intros (c & Hc & Ha) Hn. apply pmap_out. intros (e & He & Hea).
  destruct (switch_mem q e He) as [[Hem Heo]|Hen]; [|by destruct Hn; exists e].
  destruct Heo. rewrite (vw_disjoint _ _ _ Hs e c a); eauto using vw_mem, sw_old.
Qed.

Lemma pmap_same q a : ~ in_chunks a old -> ~ in_chunks a news -> pmap s' q a = pmap s q a.
Proof.
  intros Ho Hn. destruct (chunk_at (mem_chunks s q) a) as [c|] eqn:Hc.
  - apply chunk_at_Some in Hc as [Hc Ha]. assert (c ∉ old) as Hco by (intros ?; destruct Ho; by exists c).
    destruct (content_of _ _ _ Hs c) as (i & Hi & _); [by eapply vw_mem|].
    rewrite (pmap_in _ _ _ Hs q c a i) by done. apply (pmap_in _ _ _ switch_wf) with (c := c); auto.
    + by apply switch_keep.
    + by rewrite (sw_cells _ _ _ _ _ Hsw) by eauto using vw_mem.
  - apply chunk_at_None in Hc. rewrite (pmap_out s) by done. apply pmap_out. intros (e & He & Hea).
    destruct (switch_mem q e He) as [[Hem _]|Hen]; [by destruct Hc; exists e|by destruct Hn; exists e].
Qed.

End switch.

(** * The kinds of exchange *)

(** Changing the content of a chunk, which the process may list from now on. *)
Lemma switch_update U K pid s s' c i i' P :
  vm_wf U K s -> c ∈ chunks s -> content s c = Some i ->
  vs_manager s' = vs_manager s -> vs_cells s' = <[ck_internal c := i']> (vs_cells s) ->
  vs_next_cell s' = vs_next_cell s ->
  (forall q, q <> pid -> mem_chunks s' q = mem_chunks s q) -> NoDup (mem_chunks s' pid) ->
  (forall d, d ∈ mem_chunks s' pid -> d ∈ mem_chunks s pid \/ d = c) ->
  (forall d, d ∈ mem_chunks s pid -> d <> c -> d ∈ mem_chunks s' pid) ->
  commits (pcm s) (pcm s') P -> (forall a, P a = true -> a ∈ ck_range c) ->
  content_wf (pcm s') (ck_range c) i' ->
  match i' with
  | SingleVMA _ => c ∈ mem_chunks s pid /\ exists v, i = SingleVMA v
  | MultiVMA ci => forall q a p f, view (vmas (ci_chunk_manager ci)) a = Some (p, Private q, f) ->
                   c ∈ mem_chunks s' q
  end ->
  (exists q, c ∈ mem_chunks s q) -> (exists q, c ∈ mem_chunks s' q) ->
  switch pid s s' [c] [c].
Proof.
  intros Hs Hc Hi Hm Hcells Hn Hothers Hnd Hmem Hkeep HP Hin Hwf Hk Hused Hlist.
  assert (Hci : content s' c = Some i') by (by rewrite Hcells, lookup_insert_eq).
  constructor; rewrite ?Hm, ?Hn; auto.
  - exists P. split; [done|]. intros a Ha. left. exists c. split; [set_solver|auto].
  - apply (vw_sorted _ _ _ Hs).
  - intros d. destruct (decide (d = c)) as [->|]; set_solver.
  - intros d Hd. by assert (d = c) as -> by set_solver.
  - intros d Hd. by assert (d = c) as -> by set_solver.
  - intros d Hd Hne. rewrite Hcells. apply lookup_insert_ne. intros Heq. destruct Hne.
    rewrite (vw_cells _ _ _ Hs c d); set_solver.
  - intros d Hd. assert (d = c) as -> by set_solver. eauto.
  - intros d e Hd He _. set_solver.
  - split; [lia|]. intros d Hd. assert (d = c) as -> by set_solver. by apply (vw_next _ _ _ Hs).
  - intros d a Hd Ha. left. exists d. set_solver.
  - intros d e a Hd He _ _. set_solver.
  - apply (vw_free_ok _ _ _ Hs).
  - intros a. rewrite (vw_free _ _ _ Hs). split; [|tauto]. intros [HU Hno]. split; [by left|].
    intros (d & Hd & Ha). destruct Hno. exists d. set_solver.
  - intros d Hd. destruct (Hmem d Hd) as [?| ->]; [|set_solver]. destruct (decide (d = c)); set_solver.
  - intros d Hd Hne. apply Hkeep; set_solver.
  - intros d v q Hd Hv Hq. assert (d = c) as -> by set_solver. rewrite Hci in Hv. injection Hv as ->.
    destruct Hk as [Hk (v0 & ->)]. intros Hcq. destruct Hq. by eapply (vw_single _ _ _ Hs).
  - intros d ci q a p f Hd Hdi. assert (d = c) as -> by set_solver. rewrite Hci in Hdi.
    injection Hdi as ->. apply Hk.
  - intros d Hd. by assert (d = c) as -> by set_solver.
Qed.

(** Replacing a chunk that only the process uses by chunks with one area inside it; the
    rest becomes free. *)
Lemma switch_cut U K pid s s' c news :
  vm_wf U K s -> c ∈ mem_chunks s pid -> (forall q, q <> pid -> c ∉ mem_chunks s q) ->
  commits (pcm s) (pcm s') (fun _ => false) ->
  StronglySorted chunk_lt (chunks s') ->
  (forall d, d ∈ chunks s' <-> (d ∈ chunks s /\ d <> c) \/ d ∈ news) ->
  (forall d, d ∈ chunks s -> d <> c -> content s' d = content s d) ->
  (forall d, d ∈ news -> exists p, content s' d = Some (SingleVMA p)
                               /\ content_wf (pcm s') (ck_range d) (SingleVMA p)) ->
  (forall d, d ∈ news -> (vs_next_cell s <= ck_internal d)%positive /\ (ck_internal d < vs_next_cell s')%positive) ->
  (forall d e, d ∈ news -> e ∈ news -> ck_internal d = ck_internal e -> d = e) ->
  (vs_next_cell s <= vs_next_cell s')%positive ->
  (forall d a, d ∈ news -> a ∈ ck_range d -> a ∈ ck_range c) ->
  (forall d e a, d ∈ news -> e ∈ news -> a ∈ ck_range d -> a ∈ ck_range e -> d = e) ->
  free_ok (free s') ->
  (forall a, in_ranges a (free s') <-> in_ranges a (free s) \/ (a ∈ ck_range c /\ ~ in_chunks a news)) ->
  (forall q, q <> pid -> mem_chunks s' q = mem_chunks s q) -> NoDup (mem_chunks s' pid) ->
  (forall d, d ∈ mem_chunks s' pid <-> (d ∈ mem_chunks s pid /\ d <> c) \/ d ∈ news) ->
  switch pid s s' [c] news.
Proof.
  intros Hs Hcm Hal HP Hsort Hch Hcells Hnews Hids Hinj Hn Hin Hdis Hfo Hf Hothers Hnd Hmem.
  assert (Hcc : c ∈ chunks s) by (by eapply vw_mem).
  assert (Hold : forall q d, d ∈ mem_chunks s q -> d ∈ news -> False).
  { intros q d Hd Hdn. destruct (Hids d Hdn) as [Hle _]. pose proof (vw_next _ _ _ Hs d).
    apply (vw_mem _ _ _ Hs) in Hd. specialize (H Hd). lia. }
  constructor; auto.
  - exists (fun _ => false). by split.
  - intros d. rewrite Hch. set_solver.
  - intros d Hd. by assert (d = c) as -> by set_solver.
  - intros d Hd. assert (d = c) as -> by set_solver. by exists pid.
  - intros d Hd Hne. apply Hcells; set_solver.
  - intros d Hd. destruct (Hnews d Hd) as (p & ? & ?). eauto.
  - intros d Hd. right. by apply Hids.
  - split; [done|]. intros d Hd. by apply Hids.
  - intros d a Hd Ha. left. exists c. set_solver.
  - intros a. rewrite Hf. rewrite in_chunks_one.
    assert (in_chunks a news -> ~ in_ranges a (free s)).
    { intros (d & Hd & Ha) Hfr. apply (vw_free _ _ _ Hs) in Hfr as [_ []]. exists c. eauto. }
    destruct (chunk_at news a) as [d|] eqn:Hat.
    + apply chunk_at_Some in Hat as [Hd Ha]. assert (in_chunks a news) by (by exists d). tauto.
    + apply chunk_at_None in Hat. tauto.
  - intros q d Hq Hd Hdc. assert (d = c) as -> by set_solver. by destruct (Hal q Hq).
  - intros d. rewrite Hmem. set_solver.
  - intros d Hd Hne. apply Hmem. set_solver.
  - intros d p q Hd _ _ Hdq. eauto.
  - intros d ci q a p f Hd Hdi. destruct (Hnews d Hd) as (p' & Hp & _). congruence.
  - intros d Hd. exists pid. apply Hmem. by right.
Qed.

(** A new chunk in free memory. *)
Lemma switch_add U K pid s s' c i P :
  vm_wf U K s -> ck_internal c = vs_next_cell s ->
  vs_cells s' = <[ck_internal c := i]> (vs_cells s) -> vs_next_cell s' = Pos.succ (vs_next_cell s) ->
  chunks s' = btree_insert c (chunks s) ->
  (forall a, a ∈ ck_range c -> in_ranges a (free s)) ->
  free_ok (free s') -> (forall a, in_ranges a (free s') <-> in_ranges a (free s) /\ ~ a ∈ ck_range c) ->
  (forall q, q <> pid -> mem_chunks s' q = mem_chunks s q) -> NoDup (mem_chunks s' pid) ->
  (forall d, d ∈ mem_chunks s' pid <-> d = c \/ d ∈ mem_chunks s pid) ->
  commits (pcm s) (pcm s') P -> (forall a, P a = true -> a ∈ ck_range c) ->
  content_wf (pcm s') (ck_range c) i ->
  match i with
  | SingleVMA _ => True
  | MultiVMA ci => forall q a p f, view (vmas (ci_chunk_manager ci)) a = Some (p, Private q, f) -> q = pid
  end ->
  switch pid s s' [] [c].
Proof.
  intros Hs Hid Hcells Hn Hch Hsp Hfo Hf Hothers Hnd Hmem HP Hin Hwf Hk.
  assert (Hne : forall d, d ∈ chunks s -> vm_start (ck_range d) <> vm_start (ck_range c)).
  { intros d Hd Heq. destruct Hwf as (_ & Hne & _).
    destruct (chunk_range_wf _ _ _ Hs d Hd) as (_ & Hned & _).
    destruct (proj1 (vw_free _ _ _ Hs (vm_start (ck_range c)))) as [_ []].
    { apply Hsp. vmrange_unfold. lia. } exists d. split; [done|]. vmrange_unfold. lia. }
  destruct (btree_insert_spec c (chunks s) (vw_sorted _ _ _ Hs) Hne) as [Hsort Hins].
  assert (Hcell : content s' c = Some i) by (by rewrite Hcells, lookup_insert_eq).
  assert (Hnot : forall q, c ∉ mem_chunks s q).
  { intros q Hc. apply (vw_mem _ _ _ Hs), (vw_next _ _ _ Hs) in Hc. lia. }
  constructor; rewrite ?Hch, ?Hn; auto.
  - exists P. split; [done|]. intros a Ha. left. exists c. split; [set_solver|auto].
  - intros d. rewrite Hins. set_solver.
  - set_solver.
  - set_solver.
  - intros d Hd _. rewrite Hcells. apply lookup_insert_ne. pose proof (vw_next _ _ _ Hs d Hd). lia.
  - intros d Hd. assert (d = c) as -> by set_solver. eauto.
  - intros d Hd. assert (d = c) as -> by set_solver. right. lia.
  - set_solver.
  - split; [lia|]. intros d Hd. assert (d = c) as -> by set_solver. lia.
  - intros d a Hd Ha. assert (d = c) as -> by set_solver. auto.
  - set_solver.
  - intros a. rewrite Hf. unfold in_chunks. set_solver.
  - set_solver.
  - intros d. rewrite Hmem. set_solver.
  - intros d Hd _. apply Hmem. by right.
  - intros d v q Hd _ _. by assert (d = c) as -> by set_solver.
  - intros d ci q a p f Hd Hdi Hview. assert (d = c) as -> by set_solver. rewrite Hcell in Hdi.
    injection Hdi as ->. rewrite (Hk q a p f Hview). apply Hmem. by left.
  - intros d Hd. assert (d = c) as -> by set_solver. exists pid. apply Hmem. by left.
Qed.

(** * Running the code

    The state changes that the methods are made of, as functions on the state. *)

Definition u_world (w : World BV PL) (s : VMState) : VMState :=
  mkVMState (vs_manager s) (vs_cells s) (vs_next_cell s) (vs_procs s) w.
Definition u_cell (c : Chunk) (i : ChunkType) (s : VMState) : VMState :=
  mkVMState (vs_manager s) (<[ck_internal c := i]> (vs_cells s)) (vs_next_cell s) (vs_procs s) (vs_world s).
Definition u_alloc (i : ChunkType) (s : VMState) : VMState :=
  mkVMState (vs_manager s) (<[vs_next_cell s := i]> (vs_cells s)) (Pos.succ (vs_next_cell s)) (vs_procs s)
    (vs_world s).
Definition u_chunks (f : list Chunk -> list Chunk) (s : VMState) : VMState :=
  mkVMState (mkInternalVMManager (f (chunks s)) (free s) (im_shared_chunks (vs_manager s)))
    (vs_cells s) (vs_next_cell s) (vs_procs s) (vs_world s).
Definition u_free (f : VMFreeSpaceManager -> VMFreeSpaceManager) (s : VMState) : VMState :=
  mkVMState (mkInternalVMManager (chunks s) (f (free s)) (im_shared_chunks (vs_manager s)))
    (vs_cells s) (vs_next_cell s) (vs_procs s) (vs_world s).
Definition u_mem (pid : Z) (f : list Chunk -> list Chunk) (s : VMState) : VMState :=
  let p := get_proc s pid in
  mkVMState (vs_manager s) (vs_cells s) (vs_next_cell s)
    (<[pid := mkProcessVM (pv_elf_ranges p) (pv_heap_range p) (pv_stack_range p) (pv_brk p)
                (f (pv_mem_chunks p))]> (vs_procs s)) (vs_world s).

Lemma mem_u_mem pid f s q :
  mem_chunks (u_mem pid f s) q = if decide (q = pid) then f (mem_chunks s pid) else mem_chunks s q.
Proof.
  unfold mem_chunks, u_mem, get_proc. simpl. destruct (decide (q = pid)) as [->|Hq].
  - by rewrite lookup_insert_eq.
  - by rewrite lookup_insert_ne.
Qed.

Lemma mem_u_mem_twice pid f g i s q :
  mem_chunks (u_mem pid f (u_alloc i (u_mem pid g s))) q
  = if decide (q = pid) then f (g (mem_chunks s pid)) else mem_chunks s q.
Proof.
  rewrite mem_u_mem. change (mem_chunks (u_alloc i (u_mem pid g s))) with (mem_chunks (u_mem pid g s)).
  rewrite !mem_u_mem. by destruct (decide (q = pid)); [rewrite decide_True|].
Qed.

Lemma run_internal c i s : content s c = Some i -> Chunk_internal c s = (Ok i, s).
Proof. intros H. unfold Chunk_internal. by rewrite H. Qed.

Lemma run_vma c v s :
  content s c = Some (SingleVMA v) -> Chunk_get_vma_for_single_vma_chunk c s = (Ok v, s).
Proof. intros H. unfold Chunk_get_vma_for_single_vma_chunk. by rewrite (bind_ok _ _ _ _ _ (run_internal c _ s H)). Qed.

Lemma run_in_world {A} (c : M (World BV PL) A) s r w :
  c (vs_world s) = (r, w) -> in_world c s = (r, u_world w s).
Proof. intros H. unfold in_world. by rewrite H. Qed.

Lemma run_new_chunk vma s :
  Chunk_new_chunk_with_vma vma s = (Ok (mkChunk (va_range vma) (vs_next_cell s)), u_alloc (SingleVMA vma) s).
Proof. done. Qed.

Lemma run_update_single cur c vma s :
  let n := mkChunk (va_range vma) (vs_next_cell s) in
  update_single_vma_chunk cur c vma s
  = (Ok n, u_chunks (fun l => btree_insert n (btree_remove c l))
             (u_mem (th_pid cur) (fun l => hash_insert n (hash_remove c l)) (u_alloc (SingleVMA vma) s))).
Proof. done. Qed.

Lemma run_on_manager {A} c ci (m : M CState A) s r cm w :
  content s c = Some (MultiVMA ci) -> m (ci_chunk_manager ci, vs_world s) = (r, (cm, w)) ->
  on_manager c m s = (r, u_world w (u_cell c (MultiVMA (mkChunkInternal cm (ci_process_set ci))) s)).
Proof.
  intros Hc Hm. unfold on_manager. rewrite (bind_ok _ _ _ _ _ (run_internal c _ s Hc)).
  rewrite (bind_ok _ _ _ s s) by done. rewrite Hm. by destruct r.
Qed.

Lemma multi_content U K s c ci :
  vm_wf U K s -> c ∈ chunks s -> content s c = Some (MultiVMA ci) ->
  cm_wf (pcm s) (ci_chunk_manager ci) /\ cm_range (ci_chunk_manager ci) = ck_range c.
Proof.
  intros Hs Hc Hi. destruct (content_of _ _ _ Hs c Hc) as (x & Hx & _ & _ & _ & Hwf).
  rewrite Hi in Hx. by injection Hx as <-.
Qed.

Lemma multi_listed U K s c ci :
  vm_wf U K s -> c ∈ chunks s -> content s c = Some (MultiVMA ci) -> exists q, c ∈ mem_chunks s q.
Proof.
  intros Hs Hc Hi. destruct (vw_listed _ _ _ Hs c Hc) as [|Hk]; [done|].
  destruct (vw_kept _ _ _ Hs c Hk) as (_ & _ & v & Hv & _). congruence.
Qed.

(** What a process maps in a default chunk, also if it does not list the chunk. *)
Lemma pmap_multi U K s c ci q a :
  vm_wf U K s -> c ∈ chunks s -> content s c = Some (MultiVMA ci) -> a ∈ ck_range c ->
  pmap s q a = chunk_view q (MultiVMA ci) a.
Proof.
  intros Hs Hc Hci Ha. destruct (chunk_at (mem_chunks s q) a) as [d|] eqn:Hd.
  - apply chunk_at_Some in Hd as [Hd Hda].
    assert (d = c) as -> by (apply (vw_disjoint _ _ _ Hs d c a); eauto using vw_mem).
    by apply (pmap_in U K s Hs q c a).
  - apply chunk_at_None in Hd. rewrite pmap_out by done. cbn.
    destruct (view _ a) as [[[p acc] f]|] eqn:Hv; [|done]. case_bool_decide as Hacc; [|done]. subst acc.
    destruct Hd. exists c. split; [|done]. by eapply (vw_owner _ _ _ Hs).
Qed.

(** Changing a default chunk, which the process may list from now on: the invariant and
    what the processes see. *)
Lemma multi_change U K pid s s' c ci ci' P :
  vm_wf U K s -> c ∈ chunks s -> content s c = Some (MultiVMA ci) ->
  vs_manager s' = vs_manager s -> vs_cells s' = <[ck_internal c := MultiVMA ci']> (vs_cells s) ->
  vs_next_cell s' = vs_next_cell s ->
  (forall q, q <> pid -> mem_chunks s' q = mem_chunks s q) -> NoDup (mem_chunks s' pid) ->
  (forall d, d ∈ mem_chunks s' pid -> d ∈ mem_chunks s pid \/ d = c) ->
  (forall d, d ∈ mem_chunks s pid -> d ∈ mem_chunks s' pid) ->
  commits (pcm s) (pcm s') P -> (forall a, P a = true -> a ∈ ck_range c) ->
  cm_wf (pcm s') (ci_chunk_manager ci') -> cm_range (ci_chunk_manager ci') = ck_range c ->
  (forall q a p f, view (vmas (ci_chunk_manager ci')) a = Some (p, Private q, f) ->
     (q = pid /\ c ∈ mem_chunks s' pid)
     \/ exists p0 f0, view (vmas (ci_chunk_manager ci)) a = Some (p0, Private q, f0)) ->
  switch pid s s' [c] [c]
  /\ forall q a, pmap s' q a = if bool_decide (a ∈ ck_range c) then chunk_view q (MultiVMA ci') a else pmap s q a.
Proof.
  intros Hs Hcc Hci Hm Hcells Hn Ho Hnd Hmem Hkeep HP HPc Hcm' Hr Hown.
  assert (Hci' : content s' c = Some (MultiVMA ci')) by (by rewrite Hcells, lookup_insert_eq).
  destruct (multi_listed U K s c ci Hs Hcc Hci) as [q0 Hq0].
  assert (Hsw : switch pid s s' [c] [c]).
  { eapply (switch_update U K _ s s' c _ _ P Hs Hcc Hci); try done.
    - intros d Hd _. by apply Hkeep.
    - destruct (chunk_range_wf _ _ _ Hs c Hcc) as (? & ? & ?). unfold content_wf. split_and!; auto.
    - intros q a p f Hv. destruct (Hown q a p f Hv) as [[-> ?]|(p0 & f0 & Hv0)]; [done|].
      assert (c ∈ mem_chunks s q) as Hq by (by apply (vw_owner _ _ _ Hs c ci q a p0 f0)).
      destruct (decide (q = pid)) as [->|Hne]; [by apply Hkeep|by rewrite Ho].
    - by exists q0.
    - exists q0. destruct (decide (q0 = pid)) as [->|Hne]; [by apply Hkeep|by rewrite Ho]. }
  split; [done|]. intros q a. case_bool_decide as Ha.
  - apply (pmap_multi U K s' c); auto; [by eapply switch_wf|by rewrite Hm].
  - apply (pmap_same U K _ s s' [c] [c] Hs Hsw); by rewrite in_chunks_one.
Qed.

(** A method of the manager behind a chunk that the process lists. *)
Lemma multi_update U K pid s c ci cm' (w' : World BV PL) P :
  vm_wf U K s -> c ∈ mem_chunks s pid -> content s c = Some (MultiVMA ci) ->
  commits (pcm s) (w_pcm w') P -> (forall a, P a = true -> a ∈ ck_range c) ->
  cm_wf (w_pcm w') cm' -> cm_range cm' = ck_range c ->
  (forall q a p f, view (vmas cm') a = Some (p, Private q, f) ->
     q = pid \/ exists p0 f0, view (vmas (ci_chunk_manager ci)) a = Some (p0, Private q, f0)) ->
  let i' := MultiVMA (mkChunkInternal cm' (ci_process_set ci)) in
  let s' := u_world w' (u_cell c i' s) in
  switch pid s s' [c] [c]
  /\ forall q a, pmap s' q a = if bool_decide (a ∈ ck_range c /\ c ∈ mem_chunks s q)
                              then chunk_view q i' a else pmap s q a.
Proof.
  intros Hs Hc Hci HP HPc Hcm' Hr Hown i' s'. assert (Hcc : c ∈ chunks s) by (by eapply vw_mem).
  destruct (multi_change U K pid s s' c ci (mkChunkInternal cm' (ci_process_set ci)) P) as [Hsw Hpm]; try done.
  { apply (vw_nodup _ _ _ Hs). } { by left. }
  { intros q a p f Hv. destruct (Hown q a p f Hv) as [->|?]; [by left|by right]. }
  split; [done|]. intros q a. rewrite Hpm. destruct (decide (a ∈ ck_range c)) as [Ha|Ha].
  - rewrite (bool_decide_true (a ∈ ck_range c)) by done. case_bool_decide as Hq; [done|].
    assert (c ∉ mem_chunks s' q) as Hno by (intros ?; by destruct Hq).
    rewrite <- (pmap_multi U K s' c _ q a (switch_wf U K _ s s' _ _ Hs Hsw) Hcc ltac:(cbn; by rewrite lookup_insert_eq) Ha).
    assert (Hout : ~ in_chunks a (mem_chunks s q)).
    { intros (d & Hd & Hda). destruct Hno. change (c ∈ mem_chunks s q).
      by rewrite (vw_disjoint _ _ _ Hs c d a); eauto using vw_mem. }
    by rewrite !pmap_out.
  - by rewrite !bool_decide_false by tauto.
Qed.

End facts.
