(* ===== verification/VMManagerMunmap.v ===== *)
(** [munmap] and process exit in the whole user space. *)

From stdpp Require Import gmap sorting.
From S2P Require Import Prelude Errno Effects External VMRange VMMapOptions VMFreeSpace VMRemap.
From S2P Require Import VMEpc Platform PageTracker VMArea VMAreaFacts ChunkManager PlatformChunk ChunkManagerFacts.
From S2P Require Import ChunkProtect ChunkMerge ChunkMmap ChunkFault VMChunk ShmManager VMManager.
From S2P Require Import VMManagerFacts.

Section munmap.
Context {BF : Bitflags} {BV : BitVecs} {PL : Platform} {EN : Enclave} {US : UserSpace} {RB : RBTrees} {VE : VMEnv}.
Context {RE : ReliableEnclave}.
Abbreviation vmas cm := (rb_iter (cm_vmas cm)) (only parsing).
Abbreviation chunks s := (im_chunks (vs_manager s)) (only parsing).
Abbreviation free s := (im_free_manager (vs_manager s)) (only parsing).
Abbreviation pcm s := (w_pcm (vs_world s)) (only parsing).
Abbreviation content s c := (vs_cells s !! ck_internal c) (only parsing).

(** Another chunk does not start inside a chunk. *)
Lemma start_outside U K s c d x :
  vm_wf U K s -> c ∈ chunks s -> d ∈ chunks s -> d <> c -> x ∈ ck_range c -> vm_start (ck_range d) <> x.
Proof.
  intros Hs Hc Hd Hne Hx Heq. destruct Hne. destruct (chunk_range_wf _ _ _ Hs d Hd) as (_ & ? & _).
  eapply (vw_disjoint _ _ _ Hs) with (a := x); auto. vmrange_unfold. lia.
Qed.

(** Giving back part of a chunk keeps the free list well-formed. *)
Lemma give_back_part U K s c r :
  vm_wf U K s -> c ∈ chunks s -> VMRange_wf r -> vm_start r < vm_end r ->
  (forall a, a ∈ r -> a ∈ ck_range c) ->
  let l := add_range_back_to_free_manager (free s) r in
  free_ok l /\ forall a, in_ranges a l <-> in_ranges a (free s) \/ a ∈ r.
Proof.
  intros Hs Hc Hr Hne Hsub l. destruct (chunk_range_wf _ _ _ Hs c Hc) as (_ & _ & Hlim).
  assert (Hd : ranges_disjoint r (free s)).
  { intros a Ha Hf. apply (vw_free _ _ _ Hs) in Hf as [_ []]. exists c. auto. }
  assert (vm_end r <= addr_limit).
  { assert (Hin : vm_end r - 1 ∈ r) by (vmrange_unfold; lia). apply Hsub in Hin. vmrange_unfold. lia. }
  destruct (add_back_spec (free s) r (vw_free_ok _ _ _ Hs)) as (Hco & Hl & Hin & _); auto.
  split; [exact (conj Hco Hl)|]. intros a. unfold l. rewrite Hin. tauto.
Qed.

(** ** A chunk with one area *)

(** The chunk [c] with area [v] is replaced by chunks for the parts of [v] outside [i]. *)
Definition cuts (pid : Z) (s : VMState) (c : Chunk) (v i : VMArea) (out : Result unit * VMState) : Prop :=
  exists s' news, out = (Ok tt, s') /\ switch pid s s' [c] news /\ pcm s' = pcm s
    /\ (forall d, d ∈ news -> exists p, content s' d = Some (SingleVMA p) /\ is_part (pcm s) v p
                              /\ va_range p = ck_range d /\ d ∈ mem_chunks s' pid)
    /\ forall a, in_chunks a news <-> a ∈ ck_range c /\ ~ a ∈ va_range i.

Section single.
Variables (U : Z -> Prop) (K : Chunk -> Prop) (cur : Thread) (s : VMState) (c : Chunk) (v i : VMArea) (w : World BV PL).
Hypothesis (Hs : vm_wf U K s) (Hc : c ∈ mem_chunks s (th_pid cur)) (Hv : content s c = Some (SingleVMA v)).
Hypothesis (Hcur : th_exited cur = false) (Hi : is_part (pcm s) v i).
Hypothesis (Hin : forall a, a ∈ va_range i -> a ∈ va_range v) (Hw : w_pcm w = pcm s).

Let Hcc : c ∈ chunks s := vw_mem _ _ _ Hs _ _ Hc.

Lemma single_content : area_wf (pcm s) v /\ va_range v = ck_range c /\ VMArea_is_shared v = false
  /\ vm_end (ck_range c) <= addr_limit.
Proof.
  destruct (content_of _ _ _ Hs c Hcc) as (x & Hx & _ & _ & Hlim & Hwf). rewrite Hv in Hx.
  injection Hx as <-. destruct Hwf as (? & ? & ?). done.
Qed.

Lemma part_content p :
  is_part (pcm s) v p -> (forall a, a ∈ va_range p -> a ∈ ck_range c) ->
  content_wf (w_pcm w) (va_range p) (SingleVMA p).
Proof.
  intros (Hp & _ & _ & Hacc & _) Hsub. destruct single_content as (_ & _ & Hsh & Hlim).
  pose proof (aw_nonempty _ _ Hp). rewrite Hw. split_and!; auto.
  - apply (aw_range _ _ Hp).
  - assert (Hx : vm_end (va_range p) - 1 ∈ va_range p) by (vmrange_unfold; lia).
    apply Hsub in Hx. vmrange_unfold. lia.
  - unfold VMArea_is_shared in *. by rewrite Hacc.
Qed.

Lemma cuts_all :
  va_range i = ck_range c ->
  cuts (th_pid cur) s c v i ((_ ← free_chunk c; remove_unless_exited cur c) (u_world w s)).
Proof.
  intros Hir. destruct single_content as (Hvw & Hvr & _).
  destruct (give_back_part U K s c (ck_range c) Hs Hcc) as [Hfo Hf]; auto; try by apply (chunk_range_wf _ _ _ Hs).
  destruct (btree_remove_spec c (chunks s) (vw_sorted _ _ _ Hs) Hcc) as [Hsort Hch].
  destruct (hash_remove_spec c (mem_chunks s (th_pid cur))) as [Hnd Hmem].
  { apply (vw_nodup _ _ _ Hs). } { intros d Hd. by apply (mem_range_inj _ _ _ Hs (th_pid cur)). }
  unfold remove_unless_exited. rewrite Hcur.
  exists (u_mem (th_pid cur) (hash_remove c) (u_free (fun l => add_range_back_to_free_manager l (ck_range c))
            (u_chunks (btree_remove c) (u_world w s)))), [].
  split; [done|]. split; [|split; [done|split; [set_solver|]]].
  - apply (switch_cut U K _ s _ c _ Hs Hc (fun q => single_alone _ _ _ Hs _ _ _ q Hc Hv)); cbn.
    + rewrite Hw. apply commits_refl, (vw_pcm _ _ _ Hs).
    + exact Hsort.
    + intros d. rewrite Hch. clear. set_solver.
    + done.
    + clear. set_solver.
    + clear. set_solver.
    + clear. set_solver.
    + lia.
    + clear. set_solver.
    + clear. set_solver.
    + exact Hfo.
    + intros a. rewrite Hf. assert (~ in_chunks a []) by (intros (d & Hd & _); by apply not_elem_of_nil in Hd). tauto.
    + intros q Hq. rewrite mem_u_mem. by destruct (decide (q = th_pid cur)).
    + rewrite mem_u_mem, decide_True by done. exact Hnd.
    + intros d. rewrite mem_u_mem, decide_True by done.
      change (d ∈ hash_remove c (mem_chunks s (th_pid cur)) <-> (d ∈ mem_chunks s (th_pid cur) /\ d <> c) \/ d ∈ []).
      rewrite Hmem. clear. set_solver.
  - intros a. rewrite Hir. unfold in_chunks. clear. set_solver.
Qed.

Lemma cuts_one p :
  is_part (pcm s) v p -> (forall a, a ∈ va_range p <-> a ∈ ck_range c /\ ~ a ∈ va_range i) ->
  cuts (th_pid cur) s c v i
    ((_ ← update_single_vma_chunk cur c p; give_back (va_range i)) (u_world w s)).
Proof.
  intros Hp Hpin. destruct single_content as (Hvw & Hvr & _).
  destruct Hi as (Hiw & _). pose proof (aw_nonempty _ _ (proj1 Hp)) as Hpne.
  assert (Hps : vm_start (va_range p) ∈ ck_range c) by (apply Hpin; vmrange_unfold; lia).
  destruct (give_back_part U K s c (va_range i) Hs Hcc) as [Hfo Hf];
    [apply (aw_range _ _ Hiw)|apply (aw_nonempty _ _ Hiw)|rewrite <- Hvr; auto|].
  destruct (btree_remove_spec c (chunks s) (vw_sorted _ _ _ Hs) Hcc) as [Hsort Hch].
  set (n := mkChunk (va_range p) (vs_next_cell s)).
  destruct (btree_insert_spec n (btree_remove c (chunks s)) Hsort) as [Hsort' Hch'].
  { intros d [Hd Hdc]%Hch. by apply (start_outside U K s c d). }
  destruct (hash_remove_spec c (mem_chunks s (th_pid cur))) as [Hnd Hmem].
  { apply (vw_nodup _ _ _ Hs). } { intros d Hd. by apply (mem_range_inj _ _ _ Hs (th_pid cur)). }
  destruct (hash_insert_spec n (hash_remove c (mem_chunks s (th_pid cur))) Hnd) as [Hnd' Hmem'].
  { intros d [Hd Hdc]%Hmem Heq. apply (start_outside U K s c d _ Hs Hcc (vw_mem _ _ _ Hs _ _ Hd) Hdc Hps).
    by rewrite Heq. }
  exists (u_free (fun l => add_range_back_to_free_manager l (va_range i))
           (u_chunks (fun l => btree_insert n (btree_remove c l))
             (u_mem (th_pid cur) (fun l => hash_insert n (hash_remove c l)) (u_alloc (SingleVMA p) (u_world w s))))), [n].
  split; [done|]. split; [|split; [done|split]].
  - apply (switch_cut U K _ s _ c _ Hs Hc (fun q => single_alone _ _ _ Hs _ _ _ q Hc Hv)); cbn.
    + rewrite Hw. apply commits_refl, (vw_pcm _ _ _ Hs).
    + exact Hsort'.
    + intros d. rewrite Hch', Hch, list_elem_of_singleton. tauto.
    + intros d Hd Hdc. rewrite lookup_insert_ne; [done|]. pose proof (vw_next _ _ _ Hs d Hd). lia.
    + intros d ->%list_elem_of_singleton. exists p. rewrite lookup_insert_eq. split; [done|].
      apply part_content; [done|]. intros a Ha. by apply Hpin.
    + intros d ->%list_elem_of_singleton. cbn. lia.
    + by intros d e ->%list_elem_of_singleton ->%list_elem_of_singleton.
    + lia.
    + intros d a ->%list_elem_of_singleton Ha. by apply Hpin.
    + by intros d e a ->%list_elem_of_singleton ->%list_elem_of_singleton.
    + exact Hfo.
    + intros a. rewrite Hf, in_chunks_one. cbn [ck_range n].
      rewrite Hpin. assert (a ∈ va_range i -> a ∈ ck_range c) by (rewrite <- Hvr; auto).
      destruct (decide (a ∈ va_range i)); tauto.
    + intros q Hq. change (mem_chunks (u_mem (th_pid cur) (fun l => hash_insert n (hash_remove c l)) s) q = mem_chunks s q).
      rewrite mem_u_mem. by destruct (decide (q = th_pid cur)).
    + change (NoDup (mem_chunks (u_mem (th_pid cur) (fun l => hash_insert n (hash_remove c l)) s) (th_pid cur))).
      rewrite mem_u_mem, decide_True by done. done.
    + intros d.
      change (d ∈ mem_chunks (u_mem (th_pid cur) (fun l => hash_insert n (hash_remove c l)) s) (th_pid cur)
              <-> (d ∈ mem_chunks s (th_pid cur) /\ d <> c) \/ d ∈ [n]).
      rewrite mem_u_mem, decide_True by done. rewrite Hmem', Hmem, list_elem_of_singleton. tauto.
  - intros d ->%list_elem_of_singleton. exists p. split; [by cbn; rewrite lookup_insert_eq|].
    split_and!; auto.
    change (n ∈ mem_chunks (u_mem (th_pid cur) (fun l => hash_insert n (hash_remove c l)) s) (th_pid cur)).
    rewrite mem_u_mem, decide_True by done. apply Hmem'. by left.
  - intros a. rewrite in_chunks_one. apply Hpin.
Qed.

(** The sets when chunk [c] is replaced by two chunks inside it. *)
Lemma two_pieces_sets (np nq : Chunk) :
  vm_start (ck_range np) = vm_start (ck_range c) -> vm_start (ck_range nq) ∈ ck_range c ->
  vm_start (ck_range c) < vm_start (ck_range nq) ->
  let l := btree_insert np (btree_remove c (btree_insert nq (chunks s))) in
  let m := hash_insert np (hash_remove c (hash_insert nq (mem_chunks s (th_pid cur)))) in
  StronglySorted chunk_lt l /\ (forall d, d ∈ l <-> (d ∈ chunks s /\ d <> c) \/ d ∈ [np; nq])
  /\ NoDup m /\ (forall d, d ∈ m <-> (d ∈ mem_chunks s (th_pid cur) /\ d <> c) \/ d ∈ [np; nq]).
Proof.
  intros Hnp Hnq Hlt l m.
  assert (Hpc : vm_start (ck_range np) ∈ ck_range c).
  { destruct (chunk_range_wf _ _ _ Hs c Hcc) as (_ & ? & _). vmrange_unfold. lia. }
  assert (Hnqc : nq <> c) by (intros ->; lia).
  assert (Hqc : forall d, d ∈ chunks s -> vm_start (ck_range d) <> vm_start (ck_range nq)).
  { intros d Hd. destruct (decide (d = c)) as [->|Hdc]; [lia|]. by apply (start_outside U K s c d). }
  destruct (btree_insert_spec nq (chunks s) (vw_sorted _ _ _ Hs) Hqc) as [Hsort1 Hch1].
  destruct (btree_remove_spec c (btree_insert nq (chunks s)) Hsort1) as [Hsort2 Hch2]; [apply Hch1; by right|].
  destruct (btree_insert_spec np _ Hsort2) as [Hsort3 Hch3].
  { intros d [[->|Hd]%Hch1 Hdc]%Hch2; [lia|]. by apply (start_outside U K s c d). }
  destruct (hash_insert_spec nq _ (vw_nodup _ _ _ Hs (th_pid cur))) as [Hnd1 Hm1].
  { intros d Hd Heq. apply (Hqc d (vw_mem _ _ _ Hs _ _ Hd)). by rewrite Heq. }
  destruct (hash_remove_spec c _ Hnd1) as [Hnd2 Hm2].
  { intros d [->|Hd]%Hm1 Heq; [rewrite Heq in Hlt; lia|]. by apply (mem_range_inj _ _ _ Hs (th_pid cur)). }
  destruct (hash_insert_spec np _ Hnd2) as [Hnd3 Hm3].
  { intros d [[->|Hd]%Hm1 Hdc]%Hm2 Heq; [rewrite Heq in Hlt; lia|].
    apply (start_outside U K s c d _ Hs Hcc (vw_mem _ _ _ Hs _ _ Hd) Hdc Hpc). by rewrite Heq. }
  split_and!; auto; intros d; unfold l, m.
  - rewrite Hch3, Hch2, Hch1, elem_of_cons, list_elem_of_singleton. clear -Hnqc. naive_solver.
  - rewrite Hm3, Hm2, Hm1, elem_of_cons, list_elem_of_singleton. clear -Hnqc. naive_solver.
Qed.

Lemma cuts_two p q :
  is_part (pcm s) v p -> is_part (pcm s) v q ->
  (forall a, a ∈ va_range p \/ a ∈ va_range q <-> a ∈ ck_range c /\ ~ a ∈ va_range i) ->
  vm_start (va_range p) = vm_start (ck_range c) -> vm_end (va_range p) <= vm_start (va_range q) ->
  cuts (th_pid cur) s c v i
    ((_ ← give_back (va_range i);
      new_vma_chunk ← Chunk_new_chunk_with_vma q;
      _ ← chunks_insert new_vma_chunk;
      _ ← (if th_exited cur then ok tt else ProcessVM_add_mem_chunk cur new_vma_chunk);
      _ ← update_single_vma_chunk cur c p;
      ok tt) (u_world w s)).
Proof.
  intros Hp Hq Hpin Hstart Hord. destruct single_content as (Hvw & Hvr & _). destruct Hi as (Hiw & _).
  pose proof (aw_nonempty _ _ (proj1 Hp)) as Hpne. pose proof (aw_nonempty _ _ (proj1 Hq)) as Hqne.
  destruct (give_back_part U K s c (va_range i) Hs Hcc) as [Hfo Hf];
    [apply (aw_range _ _ Hiw)|apply (aw_nonempty _ _ Hiw)|rewrite <- Hvr; auto|].
  set (nq := mkChunk (va_range q) (vs_next_cell s)).
  set (np := mkChunk (va_range p) (Pos.succ (vs_next_cell s))).
  destruct (two_pieces_sets np nq) as (Hsort & Hch & Hnd & Hm); [done| |cbn; lia|].
  { apply Hpin. right. cbn. vmrange_unfold. lia. }
  set (s' := u_chunks (fun l => btree_insert np (btree_remove c l))
               (u_mem (th_pid cur) (fun l => hash_insert np (hash_remove c l)) (u_alloc (SingleVMA p)
                 (u_mem (th_pid cur) (hash_insert nq) (u_chunks (btree_insert nq) (u_alloc (SingleVMA q)
                   (u_free (fun l => add_range_back_to_free_manager l (va_range i)) (u_world w s)))))))).
  assert (Hmem : forall r, mem_chunks s' r
    = if decide (r = th_pid cur) then hash_insert np (hash_remove c (hash_insert nq (mem_chunks s (th_pid cur))))
      else mem_chunks s r)
    by (intros r; exact (mem_u_mem_twice (th_pid cur) _ (hash_insert nq) (SingleVMA p) s r)).
  assert (Hnews : forall d, d ∈ [np; nq] <-> d = np \/ d = nq).
  { intros d. rewrite elem_of_cons, list_elem_of_singleton. done. }
  assert (Hinn : forall a, in_chunks a [np; nq] <-> a ∈ va_range p \/ a ∈ va_range q).
  { intros a. unfold in_chunks. setoid_rewrite Hnews. naive_solver. }
  assert (Hcells : forall d, d ∈ chunks s -> content s' d = content s d).
  { intros d Hd. unfold s'. cbn. pose proof (vw_next _ _ _ Hs d Hd). by rewrite !lookup_insert_ne by lia. }
  assert (content s' np = Some (SingleVMA p)) by (unfold s'; cbn; by rewrite lookup_insert_eq).
  assert (content s' nq = Some (SingleVMA q)).
  { unfold s'. cbn. rewrite lookup_insert_ne by lia. by rewrite lookup_insert_eq. }
  exists s', [np; nq]. split; [by rewrite Hcur|]. split; [|split; [done|split]].
  - apply (switch_cut U K _ s _ c _ Hs Hc (fun q => single_alone _ _ _ Hs _ _ _ q Hc Hv)).
    + change (pcm s') with (w_pcm w). rewrite Hw. apply commits_refl, (vw_pcm _ _ _ Hs).
    + exact Hsort.
    + exact Hch.
    + auto.
    + intros d [->| ->]%Hnews; [exists p|exists q]; (split; [done|]); apply part_content; auto;
        intros a Ha; apply Hpin; auto.
    + unfold s'. intros d [->| ->]%Hnews; cbn; lia.
    + intros d e [->| ->]%Hnews [->| ->]%Hnews Heq; cbn in Heq; done || lia.
    + unfold s'. cbn. lia.
    + intros d a [->| ->]%Hnews Ha; apply Hpin; auto.
    + intros d e a [->| ->]%Hnews [->| ->]%Hnews Ha1 Ha2; cbn in *; done || (vmrange_unfold; lia).
    + exact Hfo.
    + intros a. change (free s') with (add_range_back_to_free_manager (free s) (va_range i)).
      rewrite Hf, Hinn, Hpin. assert (a ∈ va_range i -> a ∈ ck_range c) by (rewrite <- Hvr; auto).
      destruct (decide (a ∈ va_range i)); tauto.
    + intros r Hr. rewrite Hmem. by destruct (decide (r = th_pid cur)).
    + rewrite Hmem, decide_True by done. done.
    + rewrite Hmem, decide_True by done. done.
  - intros d Hd. assert (Hdm : d ∈ mem_chunks s' (th_pid cur)).
    { rewrite Hmem, decide_True by done. apply Hm. by right. }
    apply Hnews in Hd as [->| ->]; eauto.
  - intros a. rewrite Hinn. apply Hpin.
Qed.

End single.

(** What [munmap] of [r] does to the part of the process that is in chunk [c]. *)
Definition unmaps_chunk (pid : Z) (s : VMState) (c : Chunk) (r : VMRange) (out : Result unit * VMState) : Prop :=
  exists s' news, out = (Ok tt, s') /\ switch pid s s' [c] news /\ pcm s' = pcm s
    /\ forall q a, pmap s' q a = if bool_decide (q = pid /\ a ∈ r /\ a ∈ ck_range c) then None else pmap s q a.

Lemma cuts_unmaps U K pid s c v i r out :
  vm_wf U K s -> c ∈ mem_chunks s pid -> content s c = Some (SingleVMA v) -> va_range v = ck_range c ->
  (forall a, a ∈ va_range i <-> a ∈ va_range v /\ a ∈ r) ->
  cuts pid s c v i out -> unmaps_chunk pid s c r out.
Proof.
  intros Hs Hc Hv Hvr Hi (s' & news & Hout & Hsw & Hpcm & Hnews & Hin).
  exists s', news. split_and!; auto. intros q a.
  destruct (decide (a ∈ ck_range c)) as [Ha|Ha].
  - assert (Hq : q <> pid -> pmap s q a = None).
    { intros Hq. apply pmap_out. intros (e & He & Hea). destruct Hq.
      rewrite (vw_disjoint _ _ _ Hs e c a) in He; eauto using vw_mem. by eapply (vw_single _ _ _ Hs). }
    destruct (chunk_at news a) as [d|] eqn:Hat.
    + apply chunk_at_Some in Hat as [Hd Hda]. destruct (Hnews d Hd) as (p & Hp & Hpart & Hpr & Hdm).
      assert (Hni : ~ a ∈ va_range i) by (apply Hin; by exists d).
      rewrite (pmap_new U K pid s s' [c] news Hs Hsw q d a _ Hd Hda Hp).
      rewrite (bool_decide_false (q = pid /\ _)) by (rewrite Hi, Hvr in Hni; tauto).
      destruct (decide (q = pid)) as [->|Hqp].
      * rewrite (pmap_in _ _ _ Hs pid c a _ Hc Ha Hv). cbn. rewrite Hpr, Hvr.
        rewrite (bool_decide_true (a ∈ ck_range d)), (bool_decide_true (a ∈ ck_range c)) by done.
        destruct Hpart as (_ & _ & -> & _ & ->).
        by rewrite bool_decide_true.
      * rewrite Hq by done. case_bool_decide; [|done]. exfalso.
        rewrite (sw_others _ _ _ _ _ Hsw) in H by done.
        by eapply (sw_single _ _ _ _ _ Hsw).
    + apply chunk_at_None in Hat as Hn. rewrite (pmap_gone U K pid s s' [c] news Hs Hsw) by (rewrite ?in_chunks_one; done).
      case_bool_decide as Hb; [done|]. destruct (decide (q = pid)) as [->|]; [|by rewrite Hq].
      rewrite Hin, Hi, Hvr in Hn. tauto.
  - rewrite (pmap_same U K pid s s' [c] news Hs Hsw).
    + by rewrite bool_decide_false by tauto.
    + by rewrite in_chunks_one.
    + rewrite Hin. tauto.
Qed.
Lemma area_rest_cases g v i ps :
  area_rest g v i ps -> area_wf g v ->
  (ps = [] /\ va_range i = va_range v)
  \/ (exists p, ps = [p] /\ is_part g v p)
  \/ (exists p q, ps = [p; q] /\ is_part g v p /\ is_part g v q
        /\ vm_start (va_range p) = vm_start (va_range v) /\ vm_end (va_range p) <= vm_start (va_range q)).
Proof.
  intros [Hp Hr Hord _ _ Hlen Hempty] Hv. destruct ps as [|p [|q [|]]]; simpl in Hlen; [| | |lia].
  - left. split; [done|]. symmetry. by apply Hempty.
  - right; left. apply Forall_cons_iff in Hp as [Hp _]. eauto.
  - right; right. rewrite !Forall_cons_iff in Hp. destruct Hp as (Hp & Hq & _).
    exists p, q. split_and!; auto.
    + simpl in Hr. destruct (_ <? _), (_ <? _); simplify_eq/=. by rewrite H.
    + simpl in Hord. lia.
Qed.

Lemma munmap_single_unmaps U K cur s c v r :
  vm_wf U K s -> c ∈ mem_chunks s (th_pid cur) -> content s c = Some (SingleVMA v) ->
  th_exited cur = false -> VMRange_wf r -> intersects r c = true ->
  unmaps_chunk (th_pid cur) s c r (munmap_single_vma cur c r s).
Proof.
  intros Hs Hc Hv Hcur Hr Hint. destruct (single_content U K cur s c v Hs Hc Hv) as (Hvw & Hvr & _).
  destruct (VMArea_intersect_cases _ v r Hvw Hr) as (o & Ho & Hor). unfold intersects in Hint.
  rewrite <- Hvr, <- Hor in Hint. destruct o as [i|]; [|done].
  destruct (area_cut _ _ _ _ Hvw Hr Ho) as (Hi & Hin & _ & _ & ps & Hps & Hrest).
  destruct (mem_only_flush_and_clean _ i (proj1 Hi) (vs_world s)) as ([] & w & Hfl & Hw).
  apply (cuts_unmaps U K _ s c v i r); auto. unfold munmap_single_vma.
  rewrite (bind_ok _ _ _ _ _ (run_vma c v s Hv)).
  rewrite (bind_ok _ _ _ _ _ (lift_ok _ _ s Ho)). rewrite (bind_ok _ _ s i s) by done.
  rewrite (bind_ok _ _ _ _ _ (run_in_world _ s _ _ Hfl)).
  rewrite (bind_ok _ _ _ _ _ (lift_ok _ _ _ Hps)).
  assert (Hiv : forall a, a ∈ va_range i -> a ∈ va_range v) by (intros a Ha; by apply Hin).
  pose proof (ar_in _ _ _ _ Hrest) as Hpin.
  destruct (area_rest_cases _ _ _ _ Hrest Hvw) as [[-> Hir]|[(p & -> & Hp)|(p & q & -> & Hp & Hq & Hst & Hle)]].
  - apply (cuts_all U K); auto; congruence.
  - apply (cuts_one U K); auto. intros a. rewrite <- Hvr, <- Hpin, in_areas_cons, in_areas_nil. tauto.
  - apply (cuts_two U K); auto; [|congruence].
    intros a. rewrite <- Hvr, <- Hpin, !in_areas_cons, in_areas_nil. tauto.
Qed.

(** ** A chunk with a manager *)

Lemma unmap_view pid r a (c : option Cell) q :
  match unmap_at pid r a c with
  | Some (p, acc, f) => if bool_decide (acc = Private q) then Some (p, f) else None
  | None => None
  end
  = if bool_decide (q = pid /\ a ∈ r) then None
    else match c with
         | Some (p, acc, f) => if bool_decide (acc = Private q) then Some (p, f) else None
         | None => None
         end.
Proof.
  unfold unmap_at. destruct c as [[[p acc] f]|]; [|by destruct (bool_decide _)]. cbn.
  destruct (decide (q = pid /\ a ∈ r)) as [[-> Ha]|Hno].
  - rewrite (bool_decide_true (pid = pid /\ a ∈ r)), (bool_decide_true (a ∈ r)) by done.
    by destruct (bool_decide (acc = Private pid)) eqn:Hacc; cbn; rewrite ?Hacc.
  - rewrite (bool_decide_false (q = pid /\ a ∈ r)) by done.
    destruct (bool_decide (acc = Private pid)) eqn:Hacc, (bool_decide (a ∈ r)) eqn:Ha; cbn; auto.
    boolprop. subst acc. rewrite bool_decide_false; [done|]. intros [= <-]. tauto.
Qed.

Lemma munmap_multi_unmaps U K cur s c ci r :
  vm_wf U K s -> th_pid cur <> 0 -> c ∈ mem_chunks s (th_pid cur) -> content s c = Some (MultiVMA ci) ->
  VMRange_wf r ->
  unmaps_chunk (th_pid cur) s c r (on_manager c (ChunkManager_munmap_range (th_pid cur) r) s).
Proof.
  intros Hs Hpid Hc Hci Hr. assert (Hcc : c ∈ chunks s) by (by eapply vw_mem).
  destruct (multi_content U K s c ci Hs Hcc Hci) as [Hcm Hcr].
  destruct (munmap_range_unmaps (th_pid cur) r (ci_chunk_manager ci) (vs_world s) Hpid Hr Hcm)
    as (cm' & w' & Hrun & Hw & Hcm' & Hrange & Hview).
  rewrite (run_on_manager _ _ _ _ _ _ _ Hci Hrun).
  destruct (multi_update U K (th_pid cur) s c ci cm' w' (fun _ => false)) as [Hsw Hpm]; try done.
  { rewrite Hw. apply commits_refl, (vw_pcm _ _ _ Hs). } { by rewrite Hw. } { congruence. }
  { intros q a p f Hv. right. rewrite Hview in Hv. unfold unmap_at in Hv.
    destruct (view _ a) as [x|]; [|done]. destruct (_ && _); simplify_eq. eauto. }
  eexists _, [c]. split_and!; [done|exact Hsw|by cbn|]. intros q a. rewrite Hpm. cbn. rewrite Hview, unmap_view.
  destruct (decide (a ∈ ck_range c /\ c ∈ mem_chunks s q)) as [[Ha Hq]|Hno].
  - rewrite (bool_decide_true (a ∈ ck_range c /\ _)) by done. rewrite (pmap_in _ _ _ Hs q c a _ Hq Ha Hci). cbn.
    by rewrite (bool_decide_ext (q = th_pid cur /\ a ∈ r) (q = th_pid cur /\ a ∈ r /\ a ∈ ck_range c)) by tauto.
  - rewrite (bool_decide_false (a ∈ ck_range c /\ _)) by done. rewrite bool_decide_false; [done|].
    intros (-> & _ & ?). tauto.
Qed.

(** ** The system call *)

Lemma overlap_intersects r c : VMRange_overlap_with (ck_range c) r = intersects r c.
Proof.
  unfold VMRange_overlap_with, intersects, VMRange_intersect.
  destruct (Z.ltb_spec (Z.max (vm_start (ck_range c)) (vm_start r)) (Z.min (vm_end (ck_range c)) (vm_end r)));
    destruct (Z.leb_spec (Z.min (vm_end (ck_range c)) (vm_end r)) (Z.max (vm_start (ck_range c)) (vm_start r)));
    lia || done.
Qed.

Lemma intersects_in r c a : a ∈ r -> a ∈ ck_range c -> intersects r c = true.
Proof.
  intros Ha Hc. rewrite <- overlap_intersects. unfold VMRange_overlap_with. vmrange_unfold. lia.
Qed.

(** One chunk, of either kind. *)
Definition munmap_in_chunk (cur : Thread) (r : VMRange) (chunk : Chunk) : M VMState unit :=
  internal ← Chunk_internal chunk;
  match internal with
  | SingleVMA _ => munmap_chunk cur chunk (Some r) MunmapDefault
  | MultiVMA _ => on_manager chunk (ChunkManager_munmap_range (th_pid cur) r)
  end.

Lemma run_munmap_single cur s c v r flag :
  content s c = Some (SingleVMA v) -> VMArea_is_shared v = false ->
  munmap_chunk cur c r flag s = munmap_single_vma cur c (default (ck_range c) r) s.
Proof.
  intros Hv Hsh. unfold munmap_chunk. rewrite (bind_ok _ _ _ _ _ (run_internal c _ s Hv)).
  rewrite (bind_ok _ _ s false s). { by rewrite andb_false_r. }
  unfold Chunk_is_shared. rewrite (bind_ok _ _ _ _ _ (run_internal c _ s Hv)). by rewrite Hsh.
Qed.

Lemma munmap_in_chunk_unmaps U K cur s c r :
  vm_wf U K s -> th_pid cur <> 0 -> th_exited cur = false -> c ∈ mem_chunks s (th_pid cur) ->
  VMRange_wf r -> intersects r c = true ->
  unmaps_chunk (th_pid cur) s c r (munmap_in_chunk cur r c s).
Proof.
  intros Hs Hpid Hcur Hc Hr Hint. assert (Hcc : c ∈ chunks s) by (by eapply vw_mem).
  destruct (content_of _ _ _ Hs c Hcc) as (x & Hx & _). unfold munmap_in_chunk.
  rewrite (bind_ok _ _ _ _ _ (run_internal c _ s Hx)). destruct x as [v|ci].
  - destruct (single_content U K cur s c v Hs Hc Hx) as (_ & _ & Hsh & _).
    rewrite (run_munmap_single cur s c v) by done. by apply (munmap_single_unmaps U K cur s c v).
  - by apply (munmap_multi_unmaps U K cur s c ci).
Qed.

(** The process loses [r], the others keep what they have. *)
Definition unmaps_memory (U : Z -> Prop) (K : Chunk -> Prop) (pid : Z) (r : VMRange) (X : Z -> Prop) `{forall a, Decision (X a)}
    (s : VMState) (out : Result unit * VMState) : Prop :=
  exists s', out = (Ok tt, s') /\ vm_wf U K s' /\ pcm s' = pcm s
    /\ forall q a, pmap s' q a = if bool_decide (q = pid /\ a ∈ r /\ X a) then None else pmap s q a.

#[local] Instance in_chunks_dec a l : Decision (in_chunks a l).
Proof.
  destruct (chunk_at l a) as [c|] eqn:H; [left|right].
  - apply chunk_at_Some in H. by exists c.
  - by apply chunk_at_None.
Defined.

Lemma munmap_all_chunks U K cur r l : forall s,
  vm_wf U K s -> th_pid cur <> 0 -> th_exited cur = false -> VMRange_wf r -> NoDup l ->
  (forall c, c ∈ l -> c ∈ mem_chunks s (th_pid cur) /\ intersects r c = true) ->
  unmaps_memory U K (th_pid cur) r (fun a => in_chunks a l) s (for_each (munmap_in_chunk cur r) l s).
Proof.
  induction l as [|c l IH]; intros s Hs Hpid Hcur Hr Hnd Hl; cbn [for_each].
  - exists s. split_and!; auto. intros q a. rewrite bool_decide_false; [done|].
    intros (_ & _ & d & Hd & _). by apply not_elem_of_nil in Hd.
  - apply list.NoDup_cons in Hnd as [Hcl Hnd]. destruct (Hl c ltac:(by left)) as [Hc Hint].
    destruct (munmap_in_chunk_unmaps U K cur s c r) as (s1 & news & Hrun & Hsw & Hp1 & Hpm1); auto.
    rewrite (bind_ok _ _ _ _ _ Hrun).
    destruct (IH s1) as (s2 & Hrun2 & Hs2 & Hp2 & Hpm2); auto.
    { by eapply switch_wf. }
    { intros d Hd. destruct (Hl d ltac:(by right)) as [Hdm Hdi]. split; [|done].
      apply (sw_keep _ _ _ _ _ Hsw); [done|]. rewrite list_elem_of_singleton. by intros ->. }
    exists s2. split_and!; auto; [congruence|]. intros q a. rewrite Hpm2, Hpm1.
    assert (in_chunks a (c :: l) <-> a ∈ ck_range c \/ in_chunks a l) as Hcons.
    { unfold in_chunks. setoid_rewrite elem_of_cons. naive_solver. }
    rewrite (bool_decide_ext (q = th_pid cur /\ a ∈ r /\ in_chunks a (c :: l))
      (q = th_pid cur /\ a ∈ r /\ (a ∈ ck_range c \/ in_chunks a l))) by (by rewrite Hcons).
    repeat case_bool_decide; tauto.
Qed.

(** Unmapping in the chunks [X] is unmapping everywhere if [X] has all of the range. *)
Lemma unmaps_memory_all U K pid r (X : Z -> Prop) `{forall a, Decision (X a)} s out :
  (forall a, a ∈ r -> in_chunks a (mem_chunks s pid) -> X a) ->
  unmaps_memory U K pid r X s out -> unmaps_memory U K pid r (fun _ => True) s out.
Proof.
  intros HX (s' & Hrun & Hs' & Hp & Hpm). exists s'. split_and!; auto. intros q a. rewrite Hpm.
  destruct (decide (q = pid /\ a ∈ r)) as [[-> Har]|Hno]; [|by rewrite !bool_decide_false by tauto].
  rewrite (bool_decide_true (pid = pid /\ a ∈ r /\ True)) by done.
  case_bool_decide as HXa; [done|]. apply pmap_out. intros Hin. apply HXa. auto.
Qed.

Lemma munmap_runs U K cur addr size r s :
  vm_wf U K s -> th_pid cur <> 0 -> th_exited cur = false -> size <> 0 ->
  VMRange_new_with_size addr (align_up size PAGE_SIZE) = Ok r -> VMRange_wf r ->
  unmaps_memory U K (th_pid cur) r (fun _ => True) s (VMManager_munmap cur addr size s).
Proof.
  intros Hs Hpid Hcur Hsz Hr Hrw. unfold VMManager_munmap.
  destruct (Z.eqb_spec size 0); [done|]. rewrite (bind_ok _ _ _ _ _ (lift_ok _ _ s Hr)).
  rewrite (bind_ok _ _ _ s s) by done. cbv zeta.
  set (m := mem_chunks s (th_pid cur)). destruct (List.find (intersects r) m) as [c|] eqn:Hf.
  - destruct (List.find_some _ _ Hf) as [Hc Hint]. apply list_elem_of_In in Hc.
    destruct (VMRange_is_superset_of (ck_range c) r) eqn:Hsup; cbn [negb].
    + pose proof (munmap_in_chunk_unmaps U K cur s c r Hs Hpid Hcur Hc Hrw Hint) as Hin.
      eapply unmaps_memory_all with (X := fun a => a ∈ ck_range c).
      { intros a Ha _. unfold VMRange_is_superset_of in Hsup. boolprop. vmrange_unfold. lia. }
      destruct Hin as (s' & news & Hrun & Hsw & Hp & Hpm). exists s'.
      split_and!; [exact Hrun|by eapply switch_wf|done|exact Hpm].
    + set (l := List.filter _ m).
      assert (Hl : forall d, d ∈ l <-> d ∈ m /\ intersects r d = true).
      { intros d. unfold l. rewrite list_elem_of_In, List.filter_In, <- list_elem_of_In.
        by rewrite overlap_intersects. }
      eapply unmaps_memory_all; [|apply (munmap_all_chunks U K cur r l s)]; auto.
      * intros a Ha (d & Hd & Hda). exists d. split; [|done]. apply Hl. eauto using intersects_in.
      * unfold l. rewrite NoDup_ListNoDup. apply List.NoDup_filter, NoDup_ListNoDup, (vw_nodup _ _ _ Hs).
      * intros d Hd. by apply Hl.
  - exists s. split_and!; auto. intros q a. case_bool_decide as Hb; [|done]. destruct Hb as (-> & Ha & _).
    apply pmap_out. intros (c & Hc & Hca). apply List.find_none with (x := c) in Hf; [|by apply list_elem_of_In].
    by rewrite (intersects_in r c a) in Hf.
Qed.

End munmap.
