(* ===== verification/VMManagerExit.v ===== *)
(** Process exit in the whole user space: [VMManager::free_chunks_when_exit]. *)

From stdpp Require Import gmap sorting.
From S2P Require Import Prelude Errno Effects External VMRange VMMapOptions VMFreeSpace VMRemap.
From S2P Require Import VMEpc Platform PageTracker VMArea VMAreaFacts ChunkManager PlatformChunk ChunkManagerFacts.
From S2P Require Import ChunkProtect ChunkMerge ChunkMmap ChunkFault VMChunk ShmManager VMManager.
From S2P Require Import VMManagerFacts VMManagerMunmap.

Section exit.
Context {BF : Bitflags} {BV : BitVecs} {PL : Platform} {EN : Enclave} {US : UserSpace} {RB : RBTrees} {VE : VMEnv}.
Context {RE : ReliableEnclave}.
Abbreviation vmas cm := (rb_iter (cm_vmas cm)) (only parsing).
Abbreviation chunks s := (im_chunks (vs_manager s)) (only parsing).
Abbreviation free s := (im_free_manager (vs_manager s)) (only parsing).
Abbreviation pcm s := (w_pcm (vs_world s)) (only parsing).
Abbreviation content s c := (vs_cells s !! ck_internal c) (only parsing).

(** The state in which the process lists only [l]. An exiting process keeps its list
    until all chunks are gone; the invariant is about the chunks still to be freed. *)
Definition trim (pid : Z) (l : list Chunk) (s : VMState) : VMState := u_mem pid (fun _ => l) s.

Lemma mem_trim pid l s q : mem_chunks (trim pid l s) q = if decide (q = pid) then l else mem_chunks s q.
Proof. apply mem_u_mem. Qed.

Lemma pmap_trim pid l s q a : q <> pid -> pmap (trim pid l s) q a = pmap s q a.
Proof. intros Hq. unfold pmap. rewrite mem_trim. by destruct (decide (q = pid)). Qed.

(** The chunk is done: the process no longer lists it, the others see what they saw. *)
Definition exits_chunk (U : Z -> Prop) (K : Chunk -> Prop) (pid : Z) (s : VMState) (c : Chunk) (l : list Chunk)
    (out : Result unit * VMState) : Prop :=
  exists s', out = (Ok tt, s') /\ vm_wf U K (trim pid l s') /\ pcm s' = pcm s
    /\ (forall d, d ∈ chunks s -> d <> c -> content s' d = content s d)
    /\ (forall q, mem_chunks s' q = mem_chunks s q)
    /\ forall q a, q <> pid -> pmap s' q a = pmap s q a.

(** Unmapping the whole of a chunk with one private area: its memory is cleared, and the chunk
    goes back to the free list. *)
Lemma run_munmap_whole cur c v flag s :
  content s c = Some (SingleVMA v) -> area_wf (pcm s) v -> va_range v = ck_range c -> VMArea_is_shared v = false ->
  exists w, w_pcm w = pcm s
    /\ munmap_chunk cur c None flag s = (_ ← free_chunk c; remove_unless_exited cur c) (u_world w s).
Proof.
  intros Hv Hvw Hvr Hsh.
  rewrite (run_munmap_single cur s c v) by done. cbn [default]. unfold munmap_single_vma.
  rewrite (bind_ok _ _ _ _ _ (run_vma c v s Hv)). rewrite <- Hvr.
  destruct (VMArea_intersect_cases _ v (va_range v) Hvw (aw_range _ _ Hvw)) as (o & Ho & Hor).
  pose proof (aw_nonempty _ _ Hvw) as Hne.
  assert (VMRange_intersect (va_range v) (va_range v) = Some (va_range v)) as Hself.
  { unfold VMRange_intersect, VMRange_from_unchecked. rewrite Z.max_id, Z.min_id.
    destruct (Z.leb_spec (vm_end (va_range v)) (vm_start (va_range v))); [lia|]. by destruct (va_range v). }
  rewrite Hself in Hor. destruct o as [i|]; [|done]. injection Hor as Hir.
  destruct (area_cut _ _ _ _ Hvw (aw_range _ _ Hvw) Ho) as (Hi & _ & _ & _ & ps & Hps & Hrest).
  destruct (mem_only_flush_and_clean _ i (proj1 Hi) (vs_world s)) as ([] & w & Hfl & Hw).
  rewrite (bind_ok _ _ _ _ _ (lift_ok _ _ s Ho)). rewrite (bind_ok _ _ s i s) by done.
  rewrite (bind_ok _ _ _ _ _ (run_in_world _ s _ _ Hfl)).
  rewrite (bind_ok _ _ _ _ _ (lift_ok _ _ _ Hps)).
  rewrite (proj2 (ar_empty _ _ _ _ Hrest)) by done. by exists w.
Qed.

Section chunk.
Variables (U : Z -> Prop) (K : Chunk -> Prop) (cur : Thread) (s : VMState) (c : Chunk) (l : list Chunk).
Abbreviation pid := (th_pid cur) (only parsing).
Hypothesis (Hs : vm_wf U K (trim pid (c :: l) s)).

Lemma exit_listed : c ∈ chunks s /\ NoDup l /\ (c ∉ l) /\ forall d, d ∈ l -> d ∈ chunks s.
Proof.
  pose proof (vw_nodup _ _ _ Hs pid) as Hnd. pose proof (vw_mem _ _ _ Hs pid) as Hm.
  rewrite mem_trim, decide_True in Hnd, Hm by done. apply list.NoDup_cons in Hnd as [? ?].
  split_and!; auto; intros; apply Hm; set_solver.
Qed.

(** Giving the whole chunk back when no other process lists it. *)
Lemma exit_free s1 :
  vs_manager s1 = vs_manager s -> vs_next_cell s1 = vs_next_cell s -> vs_procs s1 = vs_procs s ->
  pcm s1 = pcm s -> (forall d, d ∈ chunks s -> d <> c -> content s1 d = content s d) ->
  (forall q, q <> pid -> c ∉ mem_chunks s q) ->
  exits_chunk U K pid s c l (free_chunk c s1).
Proof.
  intros Hm Hn Hp Hpcm Hcells Hal. destruct exit_listed as (Hc & Hnd & Hcl & Hl).
  set (s0 := trim pid (c :: l) s) in *.
  destruct (btree_remove_spec c (chunks s) (vw_sorted _ _ _ Hs) Hc) as [Hsort Hch].
  destruct (give_back_part U K s0 c (ck_range c) Hs Hc) as [Hfo Hf];
    [apply (chunk_range_wf _ _ _ Hs c Hc)..|done|]. change (free s0) with (free s) in Hfo, Hf.
  set (s2 := u_free (fun l => add_range_back_to_free_manager l (ck_range c)) (u_chunks (btree_remove c) s1)).
  assert (Hmem : forall q, mem_chunks s2 q = mem_chunks s q).
  { intros q. unfold mem_chunks, get_proc, s2. cbn. by rewrite Hp. }
  assert (Hsw : switch pid s0 (trim pid l s2) [c] []).
  { assert (Hc0 : c ∈ mem_chunks s0 pid) by (unfold s0; rewrite mem_trim, decide_True by done; by left).
    apply (switch_cut U K pid s0 (trim pid l s2) c [] Hs Hc0); cbn; rewrite ?Hm.
    - intros q Hq. unfold s0. rewrite mem_trim. destruct (decide (q = pid)); [done|auto].
    - rewrite Hpcm. apply commits_refl, (vw_pcm _ _ _ Hs).
    - done.
    - intros d. rewrite Hch. clear. set_solver.
    - auto.
    - clear. set_solver.
    - clear. set_solver.
    - clear. set_solver.
    - rewrite Hn. lia.
    - clear. set_solver.
    - clear. set_solver.
    - exact Hfo.
    - intros a. rewrite Hf. assert (~ in_chunks a []) by (intros (d & Hd & _); by apply not_elem_of_nil in Hd). tauto.
    - intros q Hq. unfold s0. rewrite !mem_trim. by destruct (decide (q = pid)).
    - by rewrite mem_trim, decide_True.
    - intros d. unfold s0. rewrite !mem_trim, !decide_True by done. set_solver. }
  exists s2. split_and!; auto.
  - by eapply switch_wf.
  - intros q a Hq. rewrite <- (pmap_trim pid l s2), <- (pmap_trim pid (c :: l) s) by done. fold s0.
    destruct (decide (a ∈ ck_range c)) as [Ha|Ha].
    + rewrite (pmap_gone U K pid s0 _ [c] [] Hs Hsw); [|by rewrite in_chunks_one|].
      * symmetry. apply pmap_out. intros (d & Hd & Hda).
        rewrite (vw_disjoint _ _ _ Hs d c a) in Hd; eauto using vw_mem.
        unfold s0 in Hd. rewrite mem_trim in Hd. destruct (decide (q = pid)); [done|]. by apply (Hal q).
      * intros (d & Hd & _). by apply not_elem_of_nil in Hd.
    + apply (pmap_same U K pid s0 _ [c] [] Hs Hsw); [by rewrite in_chunks_one|].
      intros (d & Hd & _). by apply not_elem_of_nil in Hd.
Qed.

Hypothesis (Hpid : ~ pid = 0) (Hcur : th_exited cur = true).

Lemma exit_single v :
  content s c = Some (SingleVMA v) ->
  exits_chunk U K pid s c l (munmap_chunk cur c None OnProcessExit s).
Proof.
  intros Hv. set (s0 := trim pid (c :: l) s) in *.
  assert (Hc0 : c ∈ mem_chunks s0 pid) by (unfold s0; rewrite mem_trim, decide_True by done; by left).
  destruct (single_content U K cur s0 c v Hs Hc0 Hv) as (Hvw & Hvr & Hsh & _).
  destruct (run_munmap_whole cur c v OnProcessExit s Hv Hvw Hvr Hsh) as (w & Hw & ->).
  destruct (exit_free (u_world w s)) as (s2 & Hrun & Hrest2); auto.
  { intros q Hq. pose proof (single_alone _ _ _ Hs _ _ _ q Hc0 Hv Hq) as Hno. unfold s0 in Hno.
    rewrite mem_trim in Hno. by destruct (decide (q = pid)). }
  exists s2. rewrite (bind_ok _ _ _ _ _ Hrun). unfold remove_unless_exited. by rewrite Hcur.
Qed.

Lemma is_empty_view g cm a : cm_wf g cm -> ChunkManager_is_empty cm = true -> view (vmas cm) a = None.
Proof.
  intros Hcm He. destruct (cw_ends _ _ Hcm) as (x & k & y & Hv & Hx & Hy & _).
  unfold ChunkManager_is_empty in He. apply Z.eqb_eq in He. rewrite Hv in He.
  destruct k; [|simpl in He; rewrite length_app in He; simpl in He; lia]. apply view_None. rewrite Hv. cbn. rewrite !in_areas_cons, in_areas_nil.
  apply sentry_empty in Hx, Hy. vmrange_unfold. lia.
Qed.

Lemma nonempty_view g cm :
  cm_wf g cm -> ChunkManager_is_empty cm = false -> exists a p q f, view (vmas cm) a = Some (p, Private q, f).
Proof.
  intros Hcm He. destruct (cw_ends _ _ Hcm) as (x & k & y & Hv & Hx & Hy & Hw & Ho).
  unfold ChunkManager_is_empty in He. apply Z.eqb_neq in He. rewrite Hv in He.
  destruct k as [|v k]; [simpl in He; lia|].
  apply Forall_cons_iff in Hw as [Hvw _], Ho as [(q & Hacc & _) _].
  pose proof (aw_nonempty _ _ Hvw) as Hne. pose proof (cw_ordered _ _ Hcm) as Hord. rewrite Hv in Hord.
  exists (vm_start (va_range v)), (va_perms v), q. eexists. rewrite Hv, (view_middle _ [x] v (k ++ [y]) _ _ Hord).
  - unfold cell. by rewrite Hacc.
  - vmrange_unfold. lia.
Qed.

Lemma unmap_all g cm p0 a perms q f :
  cm_wf g cm -> unmap_at p0 (cm_range cm) a (view (vmas cm) a) = Some (perms, Private q, f) ->
  q <> p0 /\ view (vmas cm) a = Some (perms, Private q, f).
Proof.
  intros Hcm Hv. unfold unmap_at in Hv. destruct (view (vmas cm) a) as [x|] eqn:Hx; [|done].
  destruct (decide (a ∈ cm_range cm)) as [Ha|Ha]; [|by rewrite (view_range _ _ _ Hcm) in Hx].
  rewrite (bool_decide_true (a ∈ cm_range cm)), andb_true_r in Hv by done.
  case_bool_decide as Hacc; [done|]. injection Hv as ->. split; [|done]. by intros ->.
Qed.

(** Leaving a default chunk that other processes use. *)
Lemma exit_keep ci cm' (w' : World BV PL) :
  content s c = Some (MultiVMA ci) -> w_pcm w' = pcm s -> cm_wf (pcm s) cm' ->
  cm_range cm' = cm_range (ci_chunk_manager ci) -> ChunkManager_is_empty cm' = false ->
  (forall a, view (vmas cm') a
             = unmap_at pid (cm_range (ci_chunk_manager ci)) a (view (vmas (ci_chunk_manager ci)) a)) ->
  exits_chunk U K pid s c l
    (Ok tt, u_world w' (u_cell c (MultiVMA (mkChunkInternal cm' (ci_process_set ci))) s)).
Proof.
  intros Hci Hw Hcm' Hr Hne Hview. destruct exit_listed as (Hc & Hnd & Hcl & Hl).
  set (i' := MultiVMA (mkChunkInternal cm' (ci_process_set ci))). set (s1 := u_world w' (u_cell c i' s)).
  set (s0 := trim pid (c :: l) s) in *. destruct (multi_content U K s0 c ci Hs Hc Hci) as [Hcm Hcr].
  assert (Hsw : switch pid s0 (trim pid l s1) [c] [c]).
  { apply (switch_update U K pid s0 (trim pid l s1) c (MultiVMA ci) i' (fun _ => false) Hs Hc Hci); try done; cbn.
    - intros q Hq. unfold s0. rewrite !mem_trim. by destruct (decide (q = pid)).
    - by rewrite mem_trim, decide_True.
    - intros d. unfold s0. rewrite !mem_trim, !decide_True by done. set_solver.
    - intros d. unfold s0. rewrite !mem_trim, !decide_True by done. set_solver.
    - rewrite Hw. apply commits_refl, (vw_pcm _ _ _ Hs).
    - rewrite Hw. destruct (chunk_range_wf _ _ _ Hs c Hc) as (? & ? & ?).
      unfold content_wf. cbn. split_and!; auto; congruence.
    - intros q a p f Hv. rewrite Hview in Hv. apply (unmap_all _ _ _ _ _ _ _ Hcm) in Hv as [Hq Hv].
      pose proof (vw_owner _ _ _ Hs c ci q a p f Hc Hci Hv) as Hm. unfold s0 in Hm. rewrite mem_trim in Hm |- *.
      by destruct (decide (q = pid)).
    - exists pid. unfold s0. rewrite mem_trim, decide_True by done. by left.
    - destruct (nonempty_view _ _ Hcm' Hne) as (a & p & q & f & Hv). exists q. rewrite Hview in Hv.
      apply (unmap_all _ _ _ _ _ _ _ Hcm) in Hv as [Hq Hv].
      pose proof (vw_owner _ _ _ Hs c ci q a p f Hc Hci Hv) as Hm. unfold s0 in Hm. rewrite mem_trim in Hm |- *.
      by destruct (decide (q = pid)). }
  exists s1. split_and!; auto.
  - by eapply switch_wf.
  - intros d Hd Hdc. unfold s1. cbn. apply lookup_insert_ne. intros Heq. destruct Hdc. by apply (vw_cells _ _ _ Hs d c).
  - intros q a Hq. rewrite <- (pmap_trim pid l s1), <- (pmap_trim pid (c :: l) s) by done. fold s0.
    destruct (decide (a ∈ ck_range c)) as [Ha|Ha].
    + rewrite (pmap_new U K pid s0 _ [c] [c] Hs Hsw q c a i'); [|by left|done|by cbn; rewrite lookup_insert_eq].
      rewrite mem_trim. destruct (decide (q = pid)); [done|]. change (mem_chunks s1 q) with (mem_chunks s q).
      assert (Hm0 : mem_chunks s0 q = mem_chunks s q) by (unfold s0; rewrite mem_trim; by destruct (decide (q = pid))).
      case_bool_decide as Hm.
      * rewrite (pmap_in _ _ _ Hs q c a (MultiVMA ci)); [|by rewrite Hm0|done..]. cbn. rewrite Hview, unmap_view.
        by rewrite bool_decide_false by (intros [-> _]; done).
      * symmetry. apply pmap_out. rewrite Hm0. intros (d & Hd & Hda). destruct Hm.
        rewrite <- Hm0 in Hd. rewrite (vw_disjoint _ _ _ Hs c d a); eauto using vw_mem. by rewrite <- Hm0.
    + by apply (pmap_same U K pid s0 _ [c] [c] Hs Hsw); rewrite in_chunks_one.
Qed.

(** Cleaning a default chunk: freed if nothing is left in it, kept otherwise. *)
Lemma exit_multi ci :
  content s c = Some (MultiVMA ci) ->
  (forall q, q <> pid -> c ∈ mem_chunks s q ->
     exists a p f, view (vmas (ci_chunk_manager ci)) a = Some (p, Private q, f)) ->
  exits_chunk U K pid s c l (munmap_chunk cur c None OnProcessExit s).
Proof.
  intros Hci Hused. destruct exit_listed as (Hc & Hnd & Hcl & Hl). set (s0 := trim pid (c :: l) s) in *.
  destruct (multi_content U K s0 c ci Hs Hc Hci) as [Hcm Hcr].
  destruct (clean_vmas_unmaps pid (ci_chunk_manager ci) (vs_world s) Hpid Hcm)
    as (cm' & w' & Hrun & Hw & Hcm' & Hrange & Hview).
  assert (Hother : forall q a, q <> pid -> chunk_view q (MultiVMA (mkChunkInternal cm' (ci_process_set ci))) a
                               = chunk_view q (MultiVMA ci) a).
  { intros q a Hq. cbn. rewrite Hview, unmap_view. by rewrite bool_decide_false by (intros [-> _]; done). }
  unfold munmap_chunk. rewrite (bind_ok _ _ _ _ _ (run_internal c _ s Hci)).
  unfold ChunkInternal_clean_multi_vmas. rewrite bind_assoc.
  rewrite (bind_ok _ _ _ _ _ (run_on_manager _ _ _ _ _ _ _ Hci Hrun)).
  set (s1 := u_world _ _). assert (Hc1 : content s1 c = Some (MultiVMA (mkChunkInternal cm' (ci_process_set ci)))).
  { unfold s1. cbn. by rewrite lookup_insert_eq. }
  rewrite bind_assoc, (bind_ok _ _ _ _ _ (run_internal c _ s1 Hc1)). cbn [ci_chunk_manager ci_process_set].
  assert (Hcells : forall d, d ∈ chunks s -> d <> c -> content s1 d = content s d).
  { intros d Hd Hdc. unfold s1. cbn. apply lookup_insert_ne. intros Heq. destruct Hdc.
    by apply (vw_cells _ _ _ Hs d c). }
  destruct (ChunkManager_is_empty cm') eqn:Hem.
  - rewrite bind_assoc. rewrite (bind_ok _ _ s1 tt (u_cell c (MultiVMA (mkChunkInternal cm' (ci_process_set ci ∖ {[pid]}))) s1)) by done.
    rewrite (bind_ok _ _ _ true _) by done. apply exit_free; auto.
    + intros d Hd Hdc. cbn. rewrite lookup_insert_ne; [by apply Hcells|]. intros Heq. destruct Hdc.
      by apply (vw_cells _ _ _ Hs d c).
    + intros q Hq Hcq. destruct (Hused q Hq Hcq) as (a & p & f & Ha).
      specialize (Hother q a Hq). cbn in Hother. rewrite (is_empty_view _ _ a Hcm' Hem), Ha in Hother.
      by rewrite bool_decide_true in Hother.
  - rewrite (bind_ok _ _ s1 false s1) by done. by apply exit_keep with (ci := ci) (cm' := cm') (w' := w').
Qed.

End chunk.

(** Every other process that lists a default chunk of the process has memory in it. *)
Definition others_use (s : VMState) (pid : Z) (l : list Chunk) : Prop :=
  forall c ci q, c ∈ l -> content s c = Some (MultiVMA ci) -> q <> pid -> c ∈ mem_chunks s q ->
  exists a p f, view (vmas (ci_chunk_manager ci)) a = Some (p, Private q, f).

Lemma exit_all U K cur l : forall s,
  vm_wf U K (trim (th_pid cur) l s) -> th_pid cur <> 0 -> th_exited cur = true -> others_use s (th_pid cur) l ->
  exists s', for_each (fun chunk => _ ← attempt (munmap_chunk cur chunk None OnProcessExit); ok tt) l s
             = (Ok tt, s')
    /\ vm_wf U K (trim (th_pid cur) [] s') /\ pcm s' = pcm s
    /\ forall q a, q <> th_pid cur -> pmap s' q a = pmap s q a.
Proof.
  induction l as [|c l IH]; intros s Hs Hpid Hcur Huse; [by exists s|].
  destruct (exit_listed U K cur s c l Hs) as (Hc & _ & Hcl & Hl).
  assert (Hstep : exits_chunk U K (th_pid cur) s c l (munmap_chunk cur c None OnProcessExit s)).
  { destruct (content_of _ _ _ Hs c Hc) as ([v|ci] & Hi & _).
    - by apply (exit_single U K cur s c l Hs Hcur v).
    - apply (exit_multi U K cur s c l Hs Hpid Hcur ci); [done|]. intros q. apply Huse; [by left|done]. }
  destruct Hstep as (s1 & Hrun & Hs1 & Hp1 & Hcells & Hmem & Hpm).
  destruct (IH s1) as (s2 & Hrun2 & Hs2 & Hp2 & Hpm2); auto.
  { intros d ci q Hd Hci Hq Hdq. rewrite Hmem in Hdq. rewrite Hcells in Hci; [|auto|by intros ->].
    by apply (Huse d ci q); [right|..]. }
  exists s2. split_and!; auto; [|congruence|intros; by rewrite Hpm2, Hpm].
  cbn [for_each]. rewrite (bind_ok _ _ s tt s1); [exact Hrun2|].
  rewrite (bind_ok _ _ s (Ok tt) s1); [done|]. unfold attempt. by rewrite Hrun.
Qed.

Lemma vm_wf_same U K s s' :
  vm_wf U K s -> vs_manager s' = vs_manager s -> vs_cells s' = vs_cells s -> vs_next_cell s' = vs_next_cell s ->
  vs_world s' = vs_world s -> (forall q, mem_chunks s' q = mem_chunks s q) -> vm_wf U K s'.
Proof.
  intros Hs Hm Hc Hn Hw Hmem. constructor; rewrite ?Hm, ?Hc, ?Hn, ?Hw.
  - apply (vw_user _ _ _ Hs).
  - apply (vw_pcm _ _ _ Hs).
  - apply (vw_sorted _ _ _ Hs).
  - apply (vw_disjoint _ _ _ Hs).
  - apply (vw_content _ _ _ Hs).
  - apply (vw_cells _ _ _ Hs).
  - apply (vw_next _ _ _ Hs).
  - apply (vw_free_ok _ _ _ Hs).
  - apply (vw_free _ _ _ Hs).
  - apply (vw_managed _ _ _ Hs).
  - intros q c. rewrite Hmem. apply (vw_mem _ _ _ Hs).
  - intros q. rewrite Hmem. apply (vw_nodup _ _ _ Hs).
  - intros p q c v. rewrite !Hmem. apply (vw_single _ _ _ Hs).
  - intros c ci q a p f. rewrite Hmem. apply (vw_owner _ _ _ Hs).
  - intros c Hcc. setoid_rewrite Hmem. apply (vw_listed _ _ _ Hs c Hcc).
  - intros c Hcc. setoid_rewrite Hmem. apply (vw_kept _ _ _ Hs c Hcc).
Qed.

Lemma exit_runs U K cur s :
  vm_wf U K s -> th_pid cur <> 0 -> th_exited cur = true -> others_use s (th_pid cur) (mem_chunks s (th_pid cur)) ->
  exists s', VMManager_free_chunks_when_exit cur s = (Ok tt, s') /\ vm_wf U K s' /\ pcm s' = pcm s
    /\ mem_chunks s' (th_pid cur) = []
    /\ (forall a, pmap s' (th_pid cur) a = None)
    /\ forall q a, q <> th_pid cur -> pmap s' q a = pmap s q a.
Proof.
  intros Hs Hpid Hcur Huse.
  destruct (exit_all U K cur (mem_chunks s (th_pid cur)) s) as (s1 & Hrun & Hs1 & Hp & Hpm); auto.
  { apply (vm_wf_same U K s); auto. intros q. rewrite mem_trim. by destruct (decide (q = th_pid cur)) as [->|]. }
  assert (Hmem : mem_chunks (trim (th_pid cur) [] s1) (th_pid cur) = []) by (by rewrite mem_trim, decide_True).
  exists (trim (th_pid cur) [] s1). split_and!; auto.
  - unfold VMManager_free_chunks_when_exit. rewrite (bind_ok _ _ s s s) by done. by rewrite (bind_ok _ _ _ _ _ Hrun).
  - intros a. apply pmap_out. rewrite Hmem. intros (c & Hc & _). by apply not_elem_of_nil in Hc.
  - intros q a Hq. rewrite pmap_trim by done. auto.
Qed.

End exit.
