(* ===== verification/VMManagerProtect.v ===== *)
(** [mprotect] and page faults in the whole user space. *)

From stdpp Require Import gmap sorting.
From S2P Require Import Prelude Errno Effects External VMRange VMMapOptions VMFreeSpace VMRemap.
From S2P Require Import VMEpc Platform PageTracker VMArea VMAreaFacts ChunkManager PlatformChunk ChunkManagerFacts.
From S2P Require Import ChunkProtect ChunkMerge ChunkMmap ChunkFault VMChunk ShmManager VMManager.
From S2P Require Import VMManagerFacts VMManagerMunmap.

Section protect.
Context {BF : Bitflags} {BV : BitVecs} {PL : Platform} {EN : Enclave} {US : UserSpace} {RB : RBTrees} {VE : VMEnv}.
Context {RE : ReliableEnclave}.
Abbreviation vmas cm := (rb_iter (cm_vmas cm)) (only parsing).
Abbreviation chunks s := (im_chunks (vs_manager s)) (only parsing).
Abbreviation free s := (im_free_manager (vs_manager s)) (only parsing).
Abbreviation pcm s := (w_pcm (vs_world s)) (only parsing).
Abbreviation content s c := (vs_cells s !! ck_internal c) (only parsing).

(** ** Cutting a chunk into several *)

Definition areas_apart (l : list VMArea) : Prop :=
  NoDup l /\ forall p q a, p ∈ l -> q ∈ l -> a ∈ va_range p -> a ∈ va_range q -> p = q.

#[local] Instance areas_apart_perm : Proper ((≡ₚ) ==> iff) areas_apart.
Proof. intros l l' Hl. unfold areas_apart. rewrite Hl. by setoid_rewrite Hl. Qed.

Section cut.
Variables (U : Z -> Prop) (K : Chunk -> Prop) (cur : Thread) (s : VMState) (c : Chunk).
Hypothesis (Hs : vm_wf U K s) (Hc : c ∈ mem_chunks s (th_pid cur)).

Let Hcc : c ∈ chunks s := vw_mem _ _ _ Hs _ _ Hc.

(** In [t] the chunk [c] has been replaced by the chunks [news], each with one area. *)
Record replaced (news : list Chunk) (t : VMState) : Prop := {
  re_sorted : StronglySorted chunk_lt (chunks t);
  re_chunks d : d ∈ chunks t <-> (d ∈ chunks s /\ d <> c) \/ d ∈ news;
  re_cells d : d ∈ chunks s -> d <> c -> content t d = content s d;
  re_news d : d ∈ news -> exists p, content t d = Some (SingleVMA p) /\ va_range p = ck_range d;
  re_ids d : d ∈ news -> (vs_next_cell s <= ck_internal d < vs_next_cell t)%positive;
  re_inj d e : d ∈ news -> e ∈ news -> ck_internal d = ck_internal e -> d = e;
  re_next : (vs_next_cell s <= vs_next_cell t)%positive;
  re_free : free t = free s;
  re_others q : q <> th_pid cur -> mem_chunks t q = mem_chunks s q;
  re_nodup : NoDup (mem_chunks t (th_pid cur));
  re_mem d : d ∈ mem_chunks t (th_pid cur) <-> (d ∈ mem_chunks s (th_pid cur) /\ d <> c) \/ d ∈ news;
}.

(** The first piece takes the place of the chunk. *)
Lemma replaced_first t p :
  vs_manager t = vs_manager s -> vs_next_cell t = vs_next_cell s -> vs_procs t = vs_procs s ->
  (forall d, d ∈ chunks s -> d <> c -> content t d = content s d) ->
  vm_start (va_range p) ∈ ck_range c ->
  exists t', update_single_vma_chunk cur c p t = (Ok (mkChunk (va_range p) (vs_next_cell s)), t')
    /\ vs_world t' = vs_world t /\ replaced [mkChunk (va_range p) (vs_next_cell s)] t'
    /\ content t' (mkChunk (va_range p) (vs_next_cell s)) = Some (SingleVMA p).
Proof.
  intros Hm Hn Hp Hcells Hstart. set (n := mkChunk (va_range p) (vs_next_cell s)).
  destruct (btree_remove_spec c (chunks s) (vw_sorted _ _ _ Hs) Hcc) as [Hsort Hch].
  destruct (btree_insert_spec n (btree_remove c (chunks s)) Hsort) as [Hsort' Hch'].
  { intros d [Hd Hdc]%Hch. by apply (start_outside U K s c d). }
  destruct (hash_remove_spec c (mem_chunks s (th_pid cur))) as [Hnd Hmem].
  { apply (vw_nodup _ _ _ Hs). } { intros d Hd. by apply (mem_range_inj _ _ _ Hs (th_pid cur)). }
  destruct (hash_insert_spec n (hash_remove c (mem_chunks s (th_pid cur))) Hnd) as [Hnd' Hmem'].
  { intros d [Hd Hdc]%Hmem Heq. apply (start_outside U K s c d _ Hs Hcc (vw_mem _ _ _ Hs _ _ Hd) Hdc Hstart).
    by rewrite Heq. }
  eexists. rewrite run_update_single, Hn. fold n. split; [done|]. split; [done|].
  set (t' := u_chunks _ _).
  assert (Hmt : forall q, mem_chunks t' q
    = if decide (q = th_pid cur) then hash_insert n (hash_remove c (mem_chunks s (th_pid cur))) else mem_chunks s q).
  { intros q. assert (Hts : forall q, mem_chunks t q = mem_chunks s q) by (intros q'; unfold mem_chunks, get_proc; by rewrite Hp).
    rewrite <- !Hts. exact (mem_u_mem (th_pid cur) (fun l => hash_insert n (hash_remove c l)) t q). }
  assert (Hcn : content t' n = Some (SingleVMA p)) by (unfold t'; cbn; rewrite Hn; by rewrite lookup_insert_eq).
  assert (Hch2 : chunks t' = btree_insert n (btree_remove c (chunks s))) by (unfold t'; cbn; by rewrite Hm).
  assert (Hn2 : vs_next_cell t' = Pos.succ (vs_next_cell s)) by (unfold t'; cbn; by rewrite Hn).
  split; [|done]. constructor.
  - by rewrite Hch2.
  - intros d. rewrite Hch2, Hch', Hch, list_elem_of_singleton. tauto.
  - intros d Hd Hdc. unfold t'. cbn. rewrite Hn, lookup_insert_ne; [auto|].
    pose proof (vw_next _ _ _ Hs d Hd). lia.
  - intros d ->%list_elem_of_singleton. by exists p.
  - intros d ->%list_elem_of_singleton. rewrite Hn2. cbn. lia.
  - by intros d e ->%list_elem_of_singleton ->%list_elem_of_singleton.
  - rewrite Hn2. lia.
  - unfold t'. cbn. by rewrite Hm.
  - intros q Hq. rewrite Hmt. by destruct (decide (q = th_pid cur)).
  - by rewrite Hmt, decide_True.
  - intros d. rewrite Hmt, decide_True, Hmem', Hmem, list_elem_of_singleton by done. tauto.
Qed.

(** Every further piece is added. *)
Lemma replaced_next t p news :
  replaced news t -> vm_start (va_range p) ∈ ck_range c ->
  (forall d, d ∈ news -> vm_start (ck_range d) <> vm_start (va_range p)) ->
  exists t', add_new_chunk cur p t = (Ok tt, t') /\ vs_world t' = vs_world t
    /\ replaced (mkChunk (va_range p) (vs_next_cell t) :: news) t'
    /\ content t' (mkChunk (va_range p) (vs_next_cell t)) = Some (SingleVMA p)
    /\ forall d, d ∈ news -> content t' d = content t d.
Proof.
  intros Ht Hstart Hne. set (n := mkChunk (va_range p) (vs_next_cell t)).
  assert (Hout : forall d, (d ∈ chunks s /\ d <> c) \/ d ∈ news -> vm_start (ck_range d) <> vm_start (ck_range n)).
  { intros d [[Hd Hdc]|Hd]; [by apply (start_outside U K s c d)|auto]. }
  destruct (btree_insert_spec n (chunks t) (re_sorted _ _ Ht)) as [Hsort Hch].
  { intros d Hd%(re_chunks _ _ Ht). auto. }
  destruct (hash_insert_spec n (mem_chunks t (th_pid cur)) (re_nodup _ _ Ht)) as [Hnd Hmem].
  { intros d Hd%(re_mem _ _ Ht) Heq. apply (Hout d); [|by rewrite Heq].
    destruct Hd as [[Hd Hdc]|?]; [left; eauto using vw_mem|by right]. }
  exists (u_mem (th_pid cur) (hash_insert n) (u_chunks (btree_insert n) (u_alloc (SingleVMA p) t))).
  split; [done|]. split; [done|]. set (t' := u_mem _ _ _).
  assert (Hmt : forall q, mem_chunks t' q
    = if decide (q = th_pid cur) then hash_insert n (mem_chunks t (th_pid cur)) else mem_chunks t q).
  { intros q. exact (mem_u_mem (th_pid cur) (hash_insert n) t q). }
  assert (Hkeep : forall d, (ck_internal d < vs_next_cell t)%positive -> content t' d = content t d).
  { intros d Hd. unfold t'. cbn. rewrite lookup_insert_ne; [done|]. lia. }
  assert (Hcn : content t' n = Some (SingleVMA p)) by (unfold t'; cbn; by rewrite lookup_insert_eq).
  pose proof (re_next _ _ Ht) as Hle.
  split; [|split; [done|]; intros d Hd; apply Hkeep; by apply (re_ids _ _ Ht)].
  constructor.
  - exact Hsort.
  - intros d. change (chunks t') with (btree_insert n (chunks t)).
    rewrite Hch, (re_chunks _ _ Ht), elem_of_cons. tauto.
  - intros d Hd Hdc. rewrite Hkeep; [by apply (re_cells _ _ Ht)|]. pose proof (vw_next _ _ _ Hs d Hd). lia.
  - intros d [->|Hd]%elem_of_cons; [by exists p|]. rewrite Hkeep by (by apply (re_ids _ _ Ht)).
    by apply (re_news _ _ Ht).
  - change (vs_next_cell t') with (Pos.succ (vs_next_cell t)).
    intros d [->|Hd]%elem_of_cons; [cbn; lia|]. pose proof (re_ids _ _ Ht d Hd). lia.
  - intros d e [->|Hd]%elem_of_cons [->|He]%elem_of_cons Heq; auto.
    + pose proof (re_ids _ _ Ht e He) as Hid. rewrite <- Heq in Hid. cbn in Hid. lia.
    + pose proof (re_ids _ _ Ht d Hd) as Hid. rewrite Heq in Hid. cbn in Hid. lia.
    + by apply (re_inj _ _ Ht).
  - change (vs_next_cell t') with (Pos.succ (vs_next_cell t)). lia.
  - apply (re_free _ _ Ht).
  - intros q Hq. rewrite Hmt. destruct (decide (q = th_pid cur)); [done|]. by apply (re_others _ _ Ht).
  - by rewrite Hmt, decide_True.
  - intros d. rewrite Hmt, decide_True, Hmem, (re_mem _ _ Ht), elem_of_cons by done. tauto.
Qed.

(** The pieces with their chunks. *)
Definition placed (l : list (Chunk * VMArea)) (t : VMState) : Prop :=
  replaced l.*1 t /\ Forall (fun x => content t x.1 = Some (SingleVMA x.2) /\ ck_range x.1 = va_range x.2) l.

Lemma placed_all ps : forall l t,
  placed l t -> areas_apart (ps ++ l.*2) ->
  Forall (fun p => vm_start (va_range p) < vm_end (va_range p)) (ps ++ l.*2) ->
  Forall (fun p => vm_start (va_range p) ∈ ck_range c) ps ->
  exists t' l', for_each (add_new_chunk cur) ps t = (Ok tt, t') /\ vs_world t' = vs_world t
    /\ placed l' t' /\ l'.*2 ≡ₚ ps ++ l.*2.
Proof.
  induction ps as [|p ps IH]; intros l t [Hre Hl] Hap Hne Hin; [by exists t, l|].
  apply Forall_cons_iff in Hin as [Hp Hin]. pose proof Hap as [Hnd Hdis].
  destruct (replaced_next t p l.*1 Hre Hp) as (t1 & Hrun & Hw & Hre1 & Hn & Hkeep).
  { intros d Hd Heq. apply list_elem_of_fmap in Hd as ([d' q] & -> & Hdq). cbn in Heq.
    rewrite Forall_elem in Hl. destruct (Hl _ Hdq) as [_ Hr]. cbn in Hr.
    assert (q ∈ ps ++ l.*2) as Hq by (apply elem_of_app; right; apply list_elem_of_fmap; by exists (d', q)).
    rewrite Forall_elem in Hne. pose proof (Hne q ltac:(by right)). pose proof (Hne p ltac:(by left)).
    apply list.NoDup_cons in Hnd as [Hnp _]. destruct Hnp. rewrite Hr in Heq.
    rewrite (Hdis p q (vm_start (va_range p))); [done|by left|by right|..]; vmrange_unfold; lia. }
  assert (Hpm : ps ++ ((mkChunk (va_range p) (vs_next_cell t), p) :: l).*2 ≡ₚ p :: ps ++ l.*2)
    by (cbn; by rewrite Permutation_middle).
  destruct (IH ((mkChunk (va_range p) (vs_next_cell t), p) :: l) t1) as (t2 & l2 & Hrun2 & Hw2 & Hpl & Hperm).
  - split; [done|]. constructor; [done|]. rewrite Forall_elem in Hl |- *. intros [d q] Hdq.
    destruct (Hl _ Hdq) as [Hd Hr]. split; [|done]. cbn in *. rewrite Hkeep; [done|].
    apply list_elem_of_fmap. by exists (d, q).
  - by rewrite Hpm.
  - by rewrite Hpm.
  - done.
  - exists t2, l2. split_and!; auto; [|congruence|by rewrite Hperm, Hpm].
    cbn [for_each]. by rewrite (bind_ok _ _ _ _ _ Hrun).
Qed.

Lemma placed_switch l t :
  placed l t -> (forall q, q <> th_pid cur -> c ∉ mem_chunks s q) -> commits (pcm s) (pcm t) (fun _ => false) ->
  Forall (fun p => content_wf (pcm t) (va_range p) (SingleVMA p)) l.*2 -> areas_apart l.*2 ->
  (forall a, in_areas a l.*2 <-> a ∈ ck_range c) ->
  switch (th_pid cur) s t [c] l.*1.
Proof.
  intros [Hre Hl] Hal Hk Hwf [Hnd Hap] Hin. rewrite Forall_elem in Hl. rewrite Forall_elem in Hwf.
  assert (Hinl : forall a, in_chunks a l.*1 <-> a ∈ ck_range c).
  { intros a. rewrite <- Hin. unfold in_chunks, in_areas, in_ranges. split.
    - intros (d & ([d' p] & -> & Hdp)%list_elem_of_fmap & Ha). destruct (Hl _ Hdp) as [_ Hr]. cbn in *.
      exists (va_range p). split; [|by rewrite <- Hr]. apply list_elem_of_fmap. exists p. split; [done|].
      apply list_elem_of_fmap. by exists (d', p).
    - intros (r & (p & -> & ([d p'] & -> & Hdp)%list_elem_of_fmap)%list_elem_of_fmap & Ha).
      destruct (Hl _ Hdp) as [_ Hr]. exists d. cbn in *. split; [|by rewrite Hr].
      apply list_elem_of_fmap. by exists (d, p'). }
  assert (Hfst : forall d, d ∈ l.*1 -> exists p, (d, p) ∈ l /\ p ∈ l.*2).
  { intros d ([d' p] & -> & Hdp)%list_elem_of_fmap. exists p. split; [done|]. apply list_elem_of_fmap. by exists (d', p). }
  apply (switch_cut U K _ s t c _ Hs Hc Hal); auto.
  - apply (re_sorted _ _ Hre).
  - apply (re_chunks _ _ Hre).
  - apply (re_cells _ _ Hre).
  - intros d (p & Hdp & Hp)%Hfst. destruct (Hl _ Hdp) as [Hd Hr]. exists p. cbn in *. rewrite Hr. auto.
  - intros d Hd. by apply (re_ids _ _ Hre).
  - apply (re_inj _ _ Hre).
  - apply (re_next _ _ Hre).
  - intros d a Hd Ha. apply Hinl. by exists d.
  - intros d e a (p & Hdp & Hp)%Hfst (q & Heq & Hq)%Hfst Had Hae. destruct (Hl _ Hdp) as [Hd Hr], (Hl _ Heq) as [He Hr2].
    cbn in *. rewrite Hr in Had. rewrite Hr2 in Hae. assert (p = q) as -> by (by apply (Hap p q a)).
    apply list_elem_of_lookup in Hdp as [i Hi], Heq as [j Hj].
    assert (i = j) as Hij by (apply (NoDup_lookup l.*2 i j q Hnd); by rewrite list_lookup_fmap, ?Hi, ?Hj).
    rewrite Hij, Hj in Hi. by injection Hi.
  - rewrite (re_free _ _ Hre). apply (vw_free_ok _ _ _ Hs).
  - intros a. rewrite (re_free _ _ Hre), Hinl. tauto.
  - apply (re_others _ _ Hre).
  - apply (re_nodup _ _ Hre).
  - apply (re_mem _ _ Hre).
Qed.

End cut.

(** ** The pieces of a single area *)

Lemma ordered_apart lo l hi :
  areas_ordered lo l hi -> Forall (fun p => vm_start (va_range p) < vm_end (va_range p)) l -> areas_apart l.
Proof.
  revert lo. induction l as [|v l IH]; intros lo Hord Hne.
  - split; [constructor|]. intros p q a Hp. by apply not_elem_of_nil in Hp.
  - destruct Hord as (_ & _ & Hord). apply Forall_cons_iff in Hne as [Hv Hne].
    destruct (IH _ Hord Hne) as [Hnd Hap].
    assert (Hout : forall p a, p ∈ l -> a ∈ va_range p -> ~ a ∈ va_range v).
    { intros p a Hp Ha Hav. pose proof (areas_ordered_bound _ _ _ a Hord (in_areas_elem _ _ _ Hp Ha)).
      vmrange_unfold. lia. }
    split.
    + apply list.NoDup_cons. split; [|done]. intros Hin.
      apply (Hout v (vm_start (va_range v)) Hin); vmrange_unfold; lia.
    + intros p q a Hp Hq Hpa Hqa. apply elem_of_cons in Hp as [->|Hp], Hq as [->|Hq]; [done| | |by apply (Hap p q a)].
      * by destruct (Hout q a Hq Hqa).
      * by destruct (Hout p a Hp Hpa).
Qed.

(** [p] is a piece of [v], with [new] as its permissions if it is in [r]. *)
Record single_piece (g : PageChunkManager) (v : VMArea) (r : VMRange) (new : VMPerms) (p : VMArea) : Prop := {
  sp_wf : area_wf g p;
  sp_private : VMArea_is_shared p = false;
  sp_file a : file_pos p a = file_pos v a;
  sp_perms a : a ∈ va_range p -> va_perms p = if bool_decide (a ∈ r) then new else va_perms v;
}.

Lemma piece_inside g v r new pid :
  area_wf g v -> VMRange_wf r -> vm_start r < vm_end r -> VMRange_is_superset_of (va_range v) r = true ->
  exists p, VMArea_inherits_file_from v r new (Private pid) = Ok p
    /\ single_piece g v r new p /\ va_range p = r.
Proof.
  intros Hv Hr Hne Hsup.
  destruct (inherits_file_from_spec g v r new (Private pid)) as (p & Hrun & Hp & Hpr & Hpp & Hpa & _ & Hpf); auto.
  exists p. split_and!; auto. constructor; auto; [unfold VMArea_is_shared; by rewrite Hpa|].
  intros a Ha. rewrite bool_decide_eq_true_2; [done|by rewrite <- Hpr].
Qed.

Lemma piece_outside g v r new pid r' :
  area_wf g v -> VMRange_wf r' -> vm_start r' < vm_end r' -> VMRange_is_superset_of (va_range v) r' = true ->
  vm_end r' <= vm_start r \/ vm_end r <= vm_start r' ->
  exists p, VMArea_inherits_file_from v r' (va_perms v) (Private pid) = Ok p
    /\ single_piece g v r new p /\ va_range p = r'.
Proof.
  intros Hv Hr Hne Hsup Hout.
  destruct (inherits_file_from_spec g v r' (va_perms v) (Private pid)) as (p & Hrun & Hp & Hpr & Hpp & Hpa & _ & Hpf); auto.
  exists p. split_and!; auto. constructor; auto; [unfold VMArea_is_shared; by rewrite Hpa|].
  intros a Ha. rewrite bool_decide_eq_false_2; [done|]. rewrite Hpr in Ha. vmrange_unfold. lia.
Qed.

Lemma piece_left g v r new r' p :
  area_part g v r' p -> VMArea_is_shared v = false -> vm_end r' <= vm_start r \/ vm_end r <= vm_start r' ->
  single_piece g v r new p.
Proof.
  intros (Hp & Hpr & Hpp & Hpa & Hpf) Hsh Hout. constructor; auto; [unfold VMArea_is_shared in *; by rewrite Hpa|].
  intros a Ha. rewrite bool_decide_eq_false_2; [done|]. rewrite Hpr in Ha. vmrange_unfold. lia.
Qed.

Lemma single_piece_keeps g g' v r new p :
  single_piece g v r new p -> commits g g' (fun _ => false) -> single_piece g' v r new p.
Proof. intros [] Hk. constructor; auto. by eapply area_wf_keeps. Qed.

(** The pieces [ps] are [v] with the permissions of [r] changed. *)
Record pieces (g : PageChunkManager) (v : VMArea) (r : VMRange) (new : VMPerms) (ps : list VMArea) : Prop := {
  pi_each : Forall (single_piece g v r new) ps;
  pi_apart : areas_apart ps;
  pi_in a : in_areas a ps <-> a ∈ va_range v;
}.

Lemma pieces_ordered g v r new ps ps' :
  Forall (single_piece g v r new) ps -> areas_ordered (vm_start (va_range v)) ps (vm_end (va_range v)) ->
  (forall a, in_areas a ps <-> a ∈ va_range v) -> ps' ≡ₚ ps -> pieces g v r new ps'.
Proof.
  intros Hp Hord Hin Hperm. constructor.
  - by rewrite Hperm.
  - rewrite Hperm. eapply ordered_apart; [exact Hord|]. eapply List.Forall_impl; [|exact Hp].
    intros p Hpp. apply (aw_nonempty _ _ (sp_wf _ _ _ _ _ Hpp)).
  - intros a. rewrite <- Hin. unfold in_areas, in_ranges. by setoid_rewrite Hperm.
Qed.

Lemma mprotect_pieces_run cur v r new (w : World BV PL) :
  pcm_wf (w_pcm w) -> area_wf (w_pcm w) v -> VMArea_is_shared v = false ->
  VMRange_wf r -> vm_start r < vm_end r -> VMRange_is_superset_of (va_range v) r = true ->
  (vm_start r =? vm_start (va_range v)) && (vm_end r =? vm_end (va_range v)) = false ->
  exists ups v' w', mprotect_pieces cur v r new (vm_start r =? vm_start (va_range v)) (vm_end r =? vm_end (va_range v)) w
      = (Ok (ups, v'), w')
    /\ commits (w_pcm w) (w_pcm w') (fun _ => false) /\ pieces (w_pcm w') v r new (ups ++ [v']).
Proof.
  intros Hg Hv Hsh Hr Hne Hsup Hpart. pose proof Hsup as Hb. unfold VMRange_is_superset_of in Hb. boolprop.
  destruct (piece_inside (w_pcm w) v r new (th_pid cur)) as (n & Hn & Hnp & Hnr); auto.
  unfold mprotect_pieces. rewrite (bind_ok _ _ _ _ _ (lift_ok _ _ w Hn)).
  destruct (mem_only_modify_permissions (w_pcm w) n (va_perms v) new (sp_wf _ _ _ _ _ Hnp) w) as ([] & w1 & Hm & Hw1).
  rewrite (bind_ok _ _ _ _ _ Hm). rewrite <- Hw1 in Hg, Hv, Hnp |- *. clear Hm Hw1 w.
  pose proof (aw_range _ _ Hv) as Hvr. destruct (Z.eqb_spec (vm_start r) (vm_start (va_range v))) as [Es|Es]; cbn [negb andb].
  - destruct (Z.eqb_spec (vm_end r) (vm_end (va_range v))) as [Ee|Ee]; [by destruct Hpart|].
    destruct (set_start_part w1 v (vm_end r) Hv) as (v' & Hset & Hv'); [apply Hr|lia|lia|].
    rewrite (bind_ok _ _ _ _ _ Hset). exists [n], v', w1. split; [done|]. split; [by apply commits_refl|].
    pose proof Hv' as (_ & Hvr' & _). apply (pieces_ordered _ _ _ _ [n; v']); [|cbn; rewrite Hnr, Hvr'; cbn; lia| |done].
    + rewrite !Forall_cons_iff. split_and!; auto. apply (piece_left _ _ _ _ _ _ Hv' Hsh); cbn; lia.
    + intros a. rewrite !in_areas_cons, in_areas_nil, Hnr, Hvr'. vmrange_unfold. lia.
  - destruct (set_end_part w1 v (vm_start r) Hg Hv) as (v' & w2 & Hset & _ & Hk & Hv'); [apply Hr|lia|lia|].
    pose proof Hv' as (_ & Hvr' & _). apply (single_piece_keeps _ _ _ _ _ _ Hnp) in Hk as Hnp'.
    assert (Hv'p : single_piece (w_pcm w2) v r new v')
      by (apply (piece_left _ _ _ _ _ _ Hv' Hsh); cbn; lia).
    destruct (Z.eqb_spec (vm_end r) (vm_end (va_range v))) as [Ee|Ee]; cbn [negb andb].
    + rewrite (bind_ok _ _ _ _ _ Hset). exists [n], v', w2. split_and!; auto.
      apply (pieces_ordered _ _ _ _ [v'; n]); [by rewrite !Forall_cons_iff|cbn; rewrite Hnr, Hvr'; cbn; lia| |apply Permutation_swap].
      intros a. rewrite !in_areas_cons, in_areas_nil, Hnr, Hvr'. vmrange_unfold. lia.
    + set (r2 := mkVMRange (vm_end r) (vm_end (va_range v))).
      assert (Hr2 : VMRange_wf r2) by (destruct Hr, Hvr; constructor; cbn; auto; lia).
      destruct (piece_outside (w_pcm w1) v r new (th_pid cur) r2) as (o & Ho & Hop & Hor); auto; [cbn; lia|
        unfold VMRange_is_superset_of; cbn; lia|cbn; lia|].
      assert (Hnew : VMRange_new (vm_end r) (vm_end (va_range v)) = Ok r2).
      { unfold VMRange_new. destruct Hr, Hvr. case_if; boolprop; [|done]. unfold page_aligned in *. lia. }
      rewrite (bind_ok _ _ _ r2 w1) by (by rewrite Hnew).
      rewrite (bind_ok _ _ _ _ _ (lift_ok _ _ w1 Ho)), (bind_ok _ _ _ _ _ Hset).
      exists [n; o], v', w2. split_and!; auto. apply (single_piece_keeps _ _ _ _ _ _ Hop) in Hk as Hop'.
      apply (pieces_ordered _ _ _ _ [v'; n; o]); [by rewrite !Forall_cons_iff|cbn; rewrite Hnr, Hvr', Hor; cbn; lia| |].
      * intros a. rewrite !in_areas_cons, in_areas_nil, Hnr, Hvr', Hor. unfold r2. vmrange_unfold. lia.
      * apply (Permutation_app_comm [n; o] [v']).
Qed.

(** ** Protecting a range of a chunk *)

(** The process [pid] has [new] as the permissions of what it has mapped in [X]. *)
Definition repaint (pid : Z) (X : Z -> bool) (new : VMPerms) (q a : Z) (c : option PCell) : option PCell :=
  if bool_decide (q = pid) && X a then (fun x => (new, x.2)) <$> c else c.

Definition protects_memory (U : Z -> Prop) (K : Chunk -> Prop) (pid : Z) (X : Z -> bool) (new : VMPerms) (s s' : VMState) : Prop :=
  vm_wf U K s' /\ commits (pcm s) (pcm s') (fun _ => false)
  /\ forall q a, pmap s' q a = repaint pid X new q a (pmap s q a).

(** Why protecting is refused at an address: a file that is not writable would be
    written back. *)
Definition refused (pid : Z) (r : VMRange) (new : VMPerms) (s : VMState) (b : Z) : Prop :=
  b ∈ r /\ VMPerms_can_write new = true
  /\ exists p file off, pmap s pid b = Some (p, Some (file, off, true)) /\ file_writable file = false /\ p <> new.

Definition protects_out (U : Z -> Prop) (K : Chunk -> Prop) (pid : Z) (r : VMRange) (new : VMPerms) (s : VMState)
    (out : Result unit * VMState) : Prop :=
  match out.1 with
  | Ok _ => protects_memory U K pid (fun a => bool_decide (a ∈ r)) new s out.2
  | Err e => e = EACCES /\ exists b, refused pid r new s b
      /\ protects_memory U K pid (fun a => bool_decide (a ∈ r) && (a <? b)) new s out.2
  | Panic => False
  end.

Lemma repaint_same U K pid X new s :
  vm_wf U K s -> (forall a p f, X a = true -> pmap s pid a = Some (p, f) -> p = new) -> protects_memory U K pid X new s s.
Proof.
  intros Hs HX. split_and!; auto; [apply commits_refl, (vw_pcm _ _ _ Hs)|]. intros q a. unfold repaint.
  destruct (bool_decide (q = pid) && X a) eqn:H; [|done]. boolprop. subst q.
  destruct (pmap s pid a) as [[p f]|] eqn:Hp; [|done]. cbn. by rewrite (HX a p f).
Qed.

(** Another area in the place of the single area of a chunk. *)
Lemma single_update U K cur s c v v' (w' : World BV PL) P :
  vm_wf U K s -> c ∈ mem_chunks s (th_pid cur) -> content s c = Some (SingleVMA v) ->
  commits (pcm s) (w_pcm w') P -> (forall a, P a = true -> a ∈ ck_range c) ->
  area_wf (w_pcm w') v' -> va_range v' = ck_range c -> VMArea_is_shared v' = false ->
  let s' := u_world w' (u_cell c (SingleVMA v') s) in
  vm_wf U K s'
  /\ forall q a, pmap s' q a = if bool_decide (q = th_pid cur /\ a ∈ ck_range c)
                              then Some (va_perms v', file_pos v' a) else pmap s q a.
Proof.
  intros Hs Hc Hv HP HPc Hv' Hr Hsh s'. assert (Hcc : c ∈ chunks s) by (by eapply vw_mem).
  assert (Hcs : content s' c = Some (SingleVMA v')) by (unfold s'; cbn; by rewrite lookup_insert_eq).
  assert (Hsw : switch (th_pid cur) s s' [c] [c]).
  { eapply (switch_update U K _ s s' c _ (SingleVMA v') _ Hs Hcc Hv); try done.
    - apply (vw_nodup _ _ _ Hs).
    - by left.
    - destruct (chunk_range_wf _ _ _ Hs c Hcc) as (? & ? & ?). by split_and!.
    - split; [done|by exists v].
    - by exists (th_pid cur).
    - by exists (th_pid cur). }
  assert (Hs' : vm_wf U K s') by (by eapply switch_wf). split; [done|]. intros q a.
  destruct (decide (a ∈ ck_range c)) as [Ha|Ha].
  - destruct (single_content U K cur s c v Hs Hc Hv) as (_ & Hvr & _ & _).
    assert (Hold : pmap s (th_pid cur) a = Some (va_perms v, file_pos v a))
      by (rewrite (pmap_in U K s Hs _ c a _ Hc Ha Hv); cbn; rewrite Hvr; by rewrite bool_decide_true).
    assert (Hnew : pmap s' (th_pid cur) a = Some (va_perms v', file_pos v' a))
      by (rewrite (pmap_in U K s' Hs' _ c a _ Hc Ha Hcs); cbn; rewrite Hr; by rewrite bool_decide_true).
    destruct (decide (q = th_pid cur)) as [->|Hq]; [by rewrite bool_decide_true|].
    rewrite bool_decide_false by tauto.
    destruct (pmap_private U K s Hs (th_pid cur) q a), (pmap_private U K s' Hs' (th_pid cur) q a); congruence.
  - rewrite bool_decide_false by tauto. apply (pmap_same U K _ s s' [c] [c] Hs Hsw); by rewrite in_chunks_one.
Qed.

Section one_chunk.
Variables (U : Z -> Prop) (K : Chunk -> Prop) (cur : Thread) (s : VMState) (c : Chunk) (r : VMRange) (new : VMPerms).
Hypothesis (Hs : vm_wf U K s) (Hc : c ∈ mem_chunks s (th_pid cur)) (Hr : VMRange_wf r)
  (Hne : vm_start r < vm_end r) (Hsup : VMRange_is_superset_of (ck_range c) r = true).
Abbreviation pid := (th_pid cur).

Let Hcc : c ∈ chunks s := vw_mem _ _ _ Hs _ _ Hc.

Lemma range_in_chunk a : a ∈ r -> a ∈ ck_range c.
Proof. unfold VMRange_is_superset_of in Hsup. boolprop. vmrange_unfold. lia. Qed.

(** Replacing the chunk by the pieces. *)
Lemma pieces_protect v t l :
  content s c = Some (SingleVMA v) -> placed cur s c l t -> commits (pcm s) (pcm t) (fun _ => false) ->
  pieces (pcm t) v r new l.*2 -> protects_memory U K pid (fun a => bool_decide (a ∈ r)) new s t.
Proof.
  intros Hv Hpl Hk [Hp Hap Hin]. destruct (single_content U K cur s c v Hs Hc Hv) as (Hvw & Hvr & Hsh & Hlim).
  rewrite Hvr in Hin. assert (Hsw : switch pid s t [c] l.*1).
  { apply (placed_switch U K cur s c); auto.
    - intros q Hq. by apply (single_alone U K s Hs pid c v).
    - rewrite Forall_elem in Hp |- *. intros p Hpl'. destruct (Hp p Hpl') as [Hpw Hpsh _ _].
      pose proof (aw_nonempty _ _ Hpw). split_and!; auto; [apply Hpw|].
      assert (Hx : vm_end (va_range p) - 1 ∈ ck_range c)
        by (apply Hin; eapply in_areas_elem; [done|]; vmrange_unfold; lia).
      vmrange_unfold. lia. }
  assert (Ht : vm_wf U K t) by (by eapply switch_wf).
  split_and!; auto. intros q a. unfold repaint. destruct Hpl as [Hre Hl]. rewrite Forall_elem in Hl. rewrite Forall_elem in Hp.
  destruct (decide (a ∈ ck_range c)) as [Ha|Ha].
  - rewrite <- Hvr in Ha. pose proof (proj2 (bool_decide_spec _) Ha) as Hav.
    assert (Hold : pmap s pid a = Some (va_perms v, file_pos v a)).
    { rewrite (pmap_in U K s Hs pid c a _ Hc ltac:(by rewrite <- Hvr) Hv). cbn. by rewrite bool_decide_true. }
    rewrite Hvr in Ha. apply Hin in Ha as (x & (p & -> & ([d p'] & -> & Hdp)%list_elem_of_fmap)%list_elem_of_fmap & Hpa).
    destruct (Hl _ Hdp) as [Hd Hdr]. cbn in Hd, Hdr, Hpa.
    assert (Hd1 : d ∈ l.*1) by (apply list_elem_of_fmap; by exists (d, p')).
    destruct (Hp p') as [_ _ Hf Hperm]; [apply list_elem_of_fmap; by exists (d, p')|].
    assert (Hnew : pmap t pid a = Some (if bool_decide (a ∈ r) then new else va_perms v, file_pos v a)).
    { rewrite (pmap_in U K t Ht pid d a _ ltac:(apply (re_mem _ _ _ _ _ Hre); by right) ltac:(by rewrite Hdr) Hd).
      cbn. rewrite bool_decide_true by done. by rewrite Hf, (Hperm a). }
    destruct (decide (q = pid)) as [->|Hq].
    + rewrite bool_decide_true by done. rewrite Hnew, Hold. by case_bool_decide.
    + rewrite bool_decide_false by done. cbn [andb].
      destruct (pmap_private U K s Hs pid q a) as [H1|H1], (pmap_private U K t Ht pid q a) as [H2|H2]; congruence.
  - rewrite (pmap_same U K _ s t [c] l.*1 Hs Hsw).
    + rewrite (bool_decide_false (a ∈ r)) by (intros ?; by apply Ha, range_in_chunk). by rewrite andb_false_r.
    + by rewrite in_chunks_one.
    + intros (d & ([d' p] & -> & Hdp)%list_elem_of_fmap & Hda). destruct (Hl _ Hdp) as [_ Hdr]. cbn in *.
      apply Ha, Hin. eapply in_areas_elem; [apply list_elem_of_fmap; by exists (d', p)|]. cbn. by rewrite <- Hdr.
Qed.

(** The whole area: it keeps its chunk. *)
Lemma whole_protect v (w' : World BV PL) :
  content s c = Some (SingleVMA v) -> commits (pcm s) (w_pcm w') (fun _ => false) -> (forall a, a ∈ ck_range c -> a ∈ r) ->
  protects_memory U K pid (fun a => bool_decide (a ∈ r)) new s
    (u_world w' (u_cell c (SingleVMA (VMArea_set_perms v new)) s)).
Proof.
  intros Hv Hk Hall. destruct (single_content U K cur s c v Hs Hc Hv) as (Hvw & Hvr & Hsh & Hlim).
  destruct (single_update U K cur s c v (VMArea_set_perms v new) w' (fun _ => false)) as [Hs' Hpm]; try done.
  { apply (area_wf_keeps _ _ _ Hvw) in Hk as []. by constructor. }
  split_and!; [exact Hs'|done|]. intros q a. rewrite Hpm. unfold repaint.
  destruct (decide (q = pid /\ a ∈ ck_range c)) as [[-> Ha]|Hno].
  - rewrite (bool_decide_true (_ /\ _)), (bool_decide_true (pid = pid)), bool_decide_true by auto.
    rewrite (pmap_in U K s Hs pid c a _ Hc Ha Hv). cbn. rewrite Hvr. by rewrite bool_decide_true.
  - rewrite (bool_decide_false (_ /\ _)) by done. destruct (bool_decide (q = pid) && _) eqn:Hb; [|done]. boolprop.
    destruct Hno. split; [done|by apply range_in_chunk].
Qed.

Lemma single_view v a : content s c = Some (SingleVMA v) -> a ∈ r -> pmap s pid a = Some (va_perms v, file_pos v a).
Proof.
  intros Hv Ha. destruct (single_content U K cur s c v Hs Hc Hv) as (_ & Hvr & _ & _). apply range_in_chunk in Ha.
  rewrite (pmap_in U K s Hs pid c a _ Hc Ha Hv). cbn. rewrite Hvr. by rewrite bool_decide_true.
Qed.

(** A file that must not be written back: nothing changes. *)
Lemma single_refused v :
  content s c = Some (SingleVMA v) -> va_perms v <> new ->
  match VMArea_writeback_file v with
  | Some (file_ref, _) => negb (file_writable file_ref) && VMPerms_can_write new
  | None => false
  end = true ->
  protects_out U K pid r new s (Err EACCES, s).
Proof.
  intros Hv Hp Hw. split; [done|]. exists (vm_start r).
  assert (Hst : vm_start r ∈ r) by (vmrange_unfold; lia). split.
  - unfold VMArea_writeback_file in Hw. destruct (va_file_backed v) as [fb|] eqn:Hfb; [|done].
    unfold FileBacked_writeback_file in Hw. destruct (fb_write_back fb) eqn:Hwb; [|done]. boolprop.
    split_and!; auto. exists (va_perms v), (fb_file fb). eexists. split_and!; auto.
    rewrite (single_view v) by done. unfold file_pos. rewrite Hfb, Hwb. reflexivity.
  - apply repaint_same; [done|]. intros a p f Ha. boolprop. vmrange_unfold. lia.
Qed.

(** Storing the pieces: one takes the place of the chunk, the others are added. *)
Lemma pieces_run v ups v' (w' : World BV PL) :
  content s c = Some (SingleVMA v) -> pieces (w_pcm w') v r new (ups ++ [v']) ->
  exists t l, (_ ← set_vma c v'; _ ← update_single_vma_chunk cur c v'; for_each (add_new_chunk cur) ups) (u_world w' s)
      = (Ok tt, t)
    /\ vs_world t = w' /\ placed cur s c l t /\ l.*2 ≡ₚ ups ++ [v'].
Proof.
  intros Hv [Hp Hap Hin]. destruct (single_content U K cur s c v Hs Hc Hv) as (_ & Hvr & _ & _). rewrite Hvr in Hin.
  assert (Hne' : Forall (fun p => vm_start (va_range p) < vm_end (va_range p)) (ups ++ [v'])).
  { eapply List.Forall_impl; [|exact Hp]. intros p Hpp. apply (aw_nonempty _ _ (sp_wf _ _ _ _ _ Hpp)). }
  assert (Hst : forall p, p ∈ ups ++ [v'] -> vm_start (va_range p) ∈ ck_range c).
  { intros p Hpl. apply Hin. eapply in_areas_elem; [done|]. rewrite Forall_elem in Hne'.
    pose proof (Hne' p Hpl). vmrange_unfold. lia. }
  rewrite (bind_ok _ _ _ tt (u_cell c (SingleVMA v') (u_world w' s))) by done.
  set (t0 := u_cell _ _ _).
  destruct (replaced_first U K cur s c Hs Hc t0 v') as (t1 & Hrun & Hw & Hre & Hcn); try done.
  { intros d Hd Hdc. unfold t0. cbn. rewrite lookup_insert_ne; [done|]. intros Heq. destruct Hdc.
    symmetry. by apply (vw_cells _ _ _ Hs). }
  { apply Hst. apply elem_of_app. right. by left. }
  rewrite (bind_ok _ _ _ _ _ Hrun).
  destruct (placed_all U K cur s c Hs Hc ups [(mkChunk (va_range v') (vs_next_cell s), v')] t1) as (t & l & Hrun2 & Hw2 & Hpl & Hperm);
    try done.
  { split; [done|]. by rewrite Forall_cons_iff. }
  { apply Forall_elem. intros p Hpu. apply Hst. apply elem_of_app. by left. }
  exists t, l. split_and!; auto. by rewrite Hw2, Hw.
Qed.

Lemma mprotect_single_runs v :
  content s c = Some (SingleVMA v) -> protects_out U K pid r new s (mprotect_single_vma_chunk cur c r new s).
Proof.
  intros Hv. destruct (single_content U K cur s c v Hs Hc Hv) as (Hvw & Hvr & Hsh & Hlim).
  unfold mprotect_single_vma_chunk. rewrite (bind_ok _ _ s false s).
  2:{ unfold Chunk_is_shared. rewrite (bind_ok _ _ _ _ _ (run_internal c _ s Hv)). by rewrite Hsh. }
  rewrite andb_false_r, (bind_ok _ _ _ _ _ (run_vma c v s Hv)).
  destruct (Z.eqb_spec (va_perms v) new) as [Hn|Hn].
  { apply repaint_same; [done|]. intros a p f Ha. boolprop. rewrite (single_view v) by done. congruence. }
  rewrite (bind_ok _ _ s _ s) by (unfold lift; by rewrite write_denied_ok). cbn beta.
  case_match eqn:Hwb; [by apply (single_refused v)|].
  destruct ((vm_start r =? _) && _) eqn:Hwhole.
  - rewrite (bind_ok _ _ s tt (u_cell c (SingleVMA (VMArea_set_perms v new)) s)) by done.
    assert (Hsw : area_wf (pcm s) (VMArea_set_perms v new)) by (destruct Hvw; by constructor).
    destruct (mem_only_modify_permissions (pcm s) (VMArea_set_perms v new) (va_perms v) new Hsw (vs_world s)) as ([] & w' & Hm & Hw).
    rewrite (run_in_world _ (u_cell c (SingleVMA (VMArea_set_perms v new)) s) _ _ Hm). apply (whole_protect v); auto.
    + rewrite Hw. apply commits_refl, (vw_pcm _ _ _ Hs).
    + intros a. rewrite <- Hvr. boolprop. vmrange_unfold. lia.
  - destruct (mprotect_pieces_run cur v r new (vs_world s)) as (ups & v' & w' & Hm & Hk & Hp); auto;
      [apply (vw_pcm _ _ _ Hs)|by rewrite Hvr|].
    rewrite (bind_ok _ _ _ _ _ (run_in_world _ s _ _ Hm)).
    destruct (pieces_run v ups v' w' Hv Hp) as (t & l & Hrun & Hw & Hpl & Hperm).
    change (protects_out U K pid r new s ((_ ← set_vma c v'; _ ← update_single_vma_chunk cur c v';
      for_each (add_new_chunk cur) ups) (u_world w' s))). rewrite Hrun. rewrite <- Hw in Hk, Hp.
    apply (pieces_protect v t l); auto. destruct Hp as [H1 H2 H3]. constructor; [by rewrite Hperm..|].
    intros a. rewrite <- H3. unfold in_areas, in_ranges. by setoid_rewrite Hperm.
Qed.

Lemma protect_view q X a (x : option Cell) :
  match (if (X : bool) then protect_at pid r new a x else x) with
  | Some (p, acc, f) => if bool_decide (acc = Private q) then Some (p, f) else None
  | None => None
  end
  = repaint pid (fun a => bool_decide (a ∈ r) && X) new q a
      match x with
      | Some (p, acc, f) => if bool_decide (acc = Private q) then Some (p, f) else None
      | None => None
      end.
Proof.
  unfold repaint, protect_at. destruct x as [[[p acc] f]|]; [|by destruct X, (bool_decide (q = pid) && _)].
  destruct X; [|by rewrite !andb_false_r]. rewrite andb_true_r.
  destruct (decide (acc = Private pid)) as [->|Hacc]; destruct (decide (q = pid)) as [->|Hq].
  - rewrite (bool_decide_true (Private pid = _)), (bool_decide_true (pid = pid)) by done. cbn [andb].
    case_bool_decide; by rewrite !(bool_decide_true (Private pid = _)).
  - rewrite (bool_decide_true (Private pid = _)), (bool_decide_false (q = pid)) by done. cbn [andb].
    case_bool_decide; (rewrite bool_decide_false; [done|congruence]).
  - rewrite (bool_decide_false (acc = Private pid)) by done. cbn [andb].
    rewrite (bool_decide_false (acc = Private pid)) by done. by case_match.
  - by rewrite (bool_decide_false (acc = Private pid)), (bool_decide_false (q = pid)).
Qed.

Lemma mprotect_multi_runs addr size ci :
  content s c = Some (MultiVMA ci) -> pid <> 0 -> is_u64 addr -> is_u64 size ->
  VMRange_new_with_size addr size = Ok r ->
  protects_out U K pid r new s (on_manager c (ChunkManager_mprotect pid addr size new) s).
Proof.
  intros Hci Hpid Ha Hsz Hnew. destruct (multi_content U K s c ci Hs Hcc Hci) as [Hcm Hcr].
  destruct (mprotect_protects pid addr size new r (ci_chunk_manager ci) (vs_world s))
    as (res & cm' & w' & Hrun & Hk & Hcm' & Hrange & Hview); auto; [apply (vw_pcm _ _ _ Hs)| |].
  { pose proof (VMRange_new_with_size_spec addr size Ha Hsz) as H. rewrite Hnew in H. destruct H as (_ & Hst & _).
    rewrite Hcr. unfold VMRange_is_superset_of in Hsup. boolprop. lia. }
  rewrite (run_on_manager _ _ _ _ _ _ _ Hci Hrun).
  assert (Hout : forall X, (forall a, view (vmas cm') a = if (X a : bool) then protect_at pid r new a (view (vmas (ci_chunk_manager ci)) a)
                                          else view (vmas (ci_chunk_manager ci)) a) ->
    protects_memory U K pid (fun a => bool_decide (a ∈ r) && X a) new s
      (u_world w' (u_cell c (MultiVMA (mkChunkInternal cm' (ci_process_set ci))) s))).
  { intros X HX. destruct (multi_update U K pid s c ci cm' w' (fun _ => false)) as [Hsw Hpm]; try done; [congruence| |].
    { intros q a p f Hv. right. rewrite HX in Hv. unfold protect_at in Hv. destruct (X a); [|eauto].
      destruct (view _ a) as [[[p0 acc0] f0]|]; [|done]. destruct (_ && _); simplify_eq; eauto. }
    split_and!; [by eapply switch_wf|done|]. intros q a. rewrite Hpm. cbn. rewrite HX, protect_view.
    destruct (decide (a ∈ ck_range c /\ c ∈ mem_chunks s q)) as [[Hac Hq]|Hno].
    - rewrite (bool_decide_true (a ∈ ck_range c /\ _)) by done. by rewrite (pmap_in _ _ _ Hs q c a _ Hq Hac Hci).
    - rewrite (bool_decide_false (a ∈ ck_range c /\ _)) by done. unfold repaint.
      destruct (bool_decide (q = pid) && _) eqn:Hb; [|done]. boolprop. subst q. destruct Hno.
      split; [by apply range_in_chunk|done]. }
  destruct res as [u|e|]; [|destruct Hview as (-> & b & (Hb & Hw & p & file & off & Hvb & Hfw & Hp) & Hview)|done].
  - unfold protects_out. cbn [fst snd]. destruct (Hout (fun _ => true)) as (H1 & H2 & H3); [done|].
    split_and!; auto. intros q a. rewrite H3. unfold repaint. by rewrite andb_true_r.
  - split; [done|]. exists b. split; [|by apply Hout]. split_and!; auto. exists p, file, off. split_and!; auto.
    rewrite (pmap_in _ _ _ Hs pid c b _ Hc (range_in_chunk b Hb) Hci). cbn. rewrite Hvb. by rewrite bool_decide_true.
Qed.

End one_chunk.

(** The system call: a range inside one chunk of the process. *)
Lemma mprotect_runs U K cur addr size r new s :
  vm_wf U K s -> th_pid cur <> 0 -> is_u64 addr -> is_u64 size -> VMRange_new_with_size addr size = Ok r ->
  let m := mem_chunks s (th_pid cur) in
  match List.find (intersects r) m with
  | None => VMManager_mprotect cur addr size new s = (Err ENOMEM, s)
            /\ forall a, a ∈ r -> pmap s (th_pid cur) a = None
  | Some c =>
      if VMRange_is_superset_of (ck_range c) r then
        protects_out U K (th_pid cur) r new s (VMManager_mprotect cur addr size new s)
      else VMManager_mprotect cur addr size new s = (Err EINVAL, s)
  end.
Proof.
  intros Hs Hpid Ha Hsz Hr m. pose proof (VMRange_new_with_size_spec addr size Ha Hsz) as Hrw. rewrite Hr in Hrw.
  destruct Hrw as (Hrw & _). unfold VMManager_mprotect. rewrite (bind_ok _ _ _ _ _ (lift_ok _ _ s Hr)).
  rewrite (bind_ok _ _ _ s s) by done. cbv zeta. fold m.
  destruct (List.find (intersects r) m) as [c|] eqn:Hf.
  - destruct (List.find_some _ _ Hf) as [Hc Hint]. apply list_elem_of_In in Hc.
    destruct (VMRange_is_superset_of (ck_range c) r) eqn:Hsup; cbn [negb]; [|done].
    assert (Hne : vm_start r < vm_end r).
    { unfold intersects in Hint. destruct (VMRange_intersect _ r) eqn:Hi; [|done].
      apply VMRange_intersect_Some in Hi as [-> ?]. vmrange_unfold. lia. }
    assert (Hcc : c ∈ chunks s) by (by eapply vw_mem).
    destruct (content_of _ _ _ Hs c Hcc) as (x & Hx & _). rewrite (bind_ok _ _ _ _ _ (run_internal c _ s Hx)).
    destruct x as [v|ci]; [|by apply (mprotect_multi_runs U K cur s c r new Hs Hc Hsup addr size ci)].
    destruct (List.find (fun chunk => VMRange_is_superset_of (ck_range chunk) r) m) as [d|] eqn:Hf2.
    + destruct (List.find_some _ _ Hf2) as [Hd Hdsup]. apply list_elem_of_In in Hd.
      assert (d = c) as ->.
      { apply (vw_disjoint _ _ _ Hs d c (vm_start r)); [by apply (vw_mem _ _ _ Hs _ _ Hd)|done|..];
          cbv beta in Hdsup; unfold VMRange_is_superset_of in *; boolprop; vmrange_unfold; lia. }
      by apply (mprotect_single_runs U K cur s c r new) with (v := v).
    + apply List.find_none with (x := c) in Hf2; [|by apply list_elem_of_In]. congruence.
  - split; [done|]. intros a Har. apply pmap_out. intros (c & Hc & Hca).
    apply List.find_none with (x := c) in Hf; [|by apply list_elem_of_In]. by rewrite (intersects_in r c a) in Hf.
Qed.

(** ** Page faults *)

Lemma u_world_same s : u_world (vs_world s) s = s.
Proof. by destruct s. Qed.

Lemma u_cell_same c i s : content s c = Some i -> u_cell c i s = s.
Proof. intros H. destruct s. unfold u_cell, set_cell. cbn in *. by rewrite insert_id. Qed.

(** The permissions allow the access that faulted. *)
Definition perms_allow (p : VMPerms) (rip pf_addr errcd : Z) : bool :=
  negb (p =? VMPerms_NONE)
  && (if check_rw_bit errcd then bf_contains p VMPerms_WRITE else bf_contains p VMPerms_READ)
  && implb (rip =? pf_addr) (bf_contains p VMPerms_EXEC).

(** The page of an address. *)
Definition page_at (a : Z) : VMRange := mkVMRange (page_of a) (page_of a + PAGE_SIZE).

(** The file that a mapping shows. *)
Definition file_of (f : option (FileRef * Z * bool)) : option FileRef := (fun x => x.1.1) <$> f.

Lemma file_of_pos v a : file_of (file_pos v a) = fst <$> VMArea_backed_file v.
Proof. unfold file_of, file_pos, VMArea_backed_file. by destruct (va_file_backed v). Qed.

Definition fault_out (U : Z -> Prop) (K : Chunk -> Prop) (pid rip pf errcd : Z) (s : VMState) (out : Result unit * VMState) : Prop :=
  match pmap s pid pf with
  | None => out = (Err ENOMEM, s)
  | Some (p, f) =>
      if perms_allow p rip pf errcd then
        match out.1 with
        | Ok _ =>
            vm_wf U K out.2 /\ (forall q a, pmap out.2 q a = pmap s q a)
            /\ (EPCMemType_new (page_at pf) = UserRegion -> committed_in (pcm out.2) (page_of pf) = true)
            /\ exists P, commits (pcm s) (pcm out.2) P /\ forall a, P a = true -> is_Some (pmap s pid a)
        | Err _ => False
        | Panic => commit_fault (file_of f)
        end
      else out = (Err EACCES, s)
  end.

Lemma page_type g v pf :
  area_wf g v -> pf ∈ va_range v -> EPCMemType_new (page_at pf) = va_epc_type v.
Proof.
  intros Hv Hpf. destruct (page_of_in _ _ (aw_range _ _ Hv) Hpf) as [Hp Hpe].
  rewrite (aw_epc _ _ Hv). apply EPCMemType_new_sub; try apply Hv.
  - unfold page_at. cbn. unfold PAGE_SIZE. lia.
  - unfold VMRange_is_superset_of, page_at. cbn. vmrange_unfold. lia.
Qed.

(** The pages that a fault commits are in the area. *)
Lemma fault_pages g v pf (b : bool) (c : bool) a :
  area_wf g v -> pf ∈ va_range v ->
  c && (if b then bool_decide (a ∈ va_range v) else bool_decide (a = page_of pf)) = true -> a ∈ va_range v.
Proof.
  intros Hv Hpf HP. destruct (page_of_in _ _ (aw_range _ _ Hv) Hpf) as [Hp _].
  destruct c, b; boolprop; subst; done.
Qed.

Section fault.
Variables (U : Z -> Prop) (K : Chunk -> Prop) (cur : Thread) (s : VMState) (c : Chunk) (rip pf errcd : Z) (kt : bool).
Hypothesis (Hs : vm_wf U K s) (Hc : c ∈ mem_chunks s (th_pid cur)) (Hpf : pf ∈ ck_range c).

Let Hcc : c ∈ chunks s := vw_mem _ _ _ Hs _ _ Hc.

Lemma single_fault v :
  content s c = Some (SingleVMA v) ->
  fault_out U K (th_pid cur) rip pf errcd s (Chunk_handle_page_fault cur c rip pf errcd kt s).
Proof.
  intros Hv. destruct (single_content U K cur s c v Hs Hc Hv) as (Hvw & Hvr & Hsh & Hlim).
  assert (Hview : forall a, a ∈ ck_range c -> pmap s (th_pid cur) a = Some (va_perms v, file_pos v a)).
  { intros a Ha. rewrite (pmap_in U K s Hs _ c a _ Hc Ha Hv). cbn. rewrite Hvr. by rewrite bool_decide_true. }
  unfold fault_out. rewrite (Hview pf Hpf). unfold Chunk_handle_page_fault.
  rewrite (bind_ok _ _ _ _ _ (run_internal c _ s Hv)). rewrite <- Hvr in Hpf.
  pose proof (area_page_fault (vs_world s) v rip pf errcd kt (vw_pcm _ _ _ Hs) Hvw Hpf) as Hout.
  unfold access_allowed in Hout. fold (perms_allow (va_perms v) rip pf errcd) in Hout.
  unfold mbind, M_bind, in_world.
  destruct (VMArea_handle_page_fault v rip pf errcd kt (vs_world s)) as [[v'|e|] w'].
  - destruct Hout as (-> & Hv' & Hr' & Hp' & Hf' & Ha' & Hpage & Hcom & _).
    destruct (single_update U K cur s c v v' w' _ Hs Hc Hv Hcom) as [Hs' Hpm]; auto; [|congruence|
      unfold VMArea_is_shared in *; by rewrite Ha'|].
    { intros a HP. rewrite <- Hvr. by apply (fault_pages _ _ _ _ _ _ Hvw Hpf HP). }
    split_and!; [exact Hs'| | |].
    + intros q a. rewrite Hpm. case_bool_decide as Hb; [|done]. destruct Hb as [-> Ha].
      rewrite (Hview a Ha). unfold file_pos. by rewrite Hp', Hf', Hr'.
    + intros Ht. apply Hpage. by rewrite <- (page_type _ _ _ Hvw Hpf).
    + eexists. split; [exact Hcom|]. intros a HP.
      rewrite Hview; [by eexists|]. rewrite <- Hvr. by apply (fault_pages _ _ _ _ _ _ Hvw Hpf HP).
  - destruct Hout as (-> & -> & ->). f_equal. apply u_world_same.
  - destruct Hout as (-> & _ & ?). cbn. by rewrite file_of_pos.
Qed.
(** The process maps what its areas of a chunk with several areas map. *)
Lemma multi_view ci a :
  content s c = Some (MultiVMA ci) -> a ∈ ck_range c ->
  pmap s (th_pid cur) a
  = match area_at (vmas (ci_chunk_manager ci)) a with
    | Some v => if bool_decide (va_access v = Private (th_pid cur)) then Some (va_perms v, file_pos v a) else None
    | None => None
    end.
Proof.
  intros Hci Ha. rewrite (pmap_in U K s Hs _ c a _ Hc Ha Hci). cbn. unfold view.
  by destruct (area_at _ a).
Qed.

Lemma multi_fault ci :
  content s c = Some (MultiVMA ci) -> th_pid cur <> 0 ->
  fault_out U K (th_pid cur) rip pf errcd s (Chunk_handle_page_fault cur c rip pf errcd kt s).
Proof.
  intros Hci Hpid. destruct (multi_content U K s c ci Hs Hcc Hci) as [Hcm Hcr].
  unfold fault_out. rewrite (multi_view ci pf Hci Hpf). unfold Chunk_handle_page_fault.
  rewrite (bind_ok _ _ _ _ _ (run_internal c _ s Hci)).
  destruct (ChunkManager_handle_page_fault (th_pid cur) rip pf errcd kt (ci_chunk_manager ci, vs_world s))
    as [res [cm' w']] eqn:Hrun.
  rewrite (run_on_manager _ _ _ _ _ _ _ Hci Hrun).
  pose proof (chunk_page_fault (th_pid cur) rip pf errcd kt (ci_chunk_manager ci) (vs_world s) Hpid (vw_pcm _ _ _ Hs) Hcm)
    as Hout. cbv zeta in Hout. rewrite Hrun in Hout. rewrite Hcr in Hout.
  assert (Hsame : forall e, (res, (cm', w')) = (Err e, (ci_chunk_manager ci, vs_world s)) ->
    (res, u_world w' (u_cell c (MultiVMA (mkChunkInternal cm' (ci_process_set ci))) s)) = (Err e, s)).
  { intros e [= -> -> ->]. f_equal. rewrite u_cell_same; [apply u_world_same|]. by destruct ci. }
  specialize (Hout ltac:(vmrange_unfold; lia)).
  destruct (area_at (vmas (ci_chunk_manager ci)) pf) as [v|] eqn:Hat; [|by apply Hsame].
  case_bool_decide as Hacc; [|by apply Hsame]. pose proof (area_at_Some _ _ _ Hat) as [Hv Hvpf].
  assert (Hvw : area_wf (pcm s) v).
  { apply list_elem_of_split in Hv as (pre & suf & Hl). by apply (owned_middle _ _ _ _ _ Hcm Hl (ex_intro _ _ (conj Hacc Hpid))). }
  unfold access_allowed in Hout. fold (perms_allow (va_perms v) rip pf errcd) in Hout.
  destruct (perms_allow (va_perms v) rip pf errcd); [|by apply Hsame].
  destruct res as [u|e|]; [|done|destruct Hout as [_ ?]; cbn; by rewrite file_of_pos].
  destruct Hout as (Hcm' & Hr & _ & Hview & Hpage & Hcom).
  assert (Hin : forall a, negb (VMArea_is_fully_committed v) && (if kt || (PF_NUM_THRESHOLD <=? va_pf_count v)
    then bool_decide (a ∈ va_range v) else bool_decide (a = page_of pf)) = true -> a ∈ va_range v /\ a ∈ ck_range c).
  { intros a HP. apply (fault_pages _ _ _ _ _ _ Hvw Hvpf) in HP. split; [done|]. rewrite <- Hcr.
    apply (areas_ordered_bound _ _ _ a (cw_ordered _ _ Hcm)). by eapply in_areas_elem. }
  destruct (multi_update U K (th_pid cur) s c ci cm' w' _ Hs Hc Hci Hcom) as [Hsw Hpm]; auto; [by apply Hin|..].
  { intros q a p f Ha. right. rewrite Hview in Ha. eauto. }
  split_and!; [by eapply switch_wf| | |].
  - intros q a. cbn [snd]. rewrite Hpm. case_bool_decide as Hb; [|done]. destruct Hb as [Ha Hq].
    rewrite (pmap_in U K s Hs q c a _ Hq Ha Hci). cbn. by rewrite Hview.
  - intros Ht. apply Hpage. by rewrite <- (page_type _ _ _ Hvw Hvpf).
  - eexists. split; [exact Hcom|]. intros a [Ha Hac]%Hin. rewrite (multi_view ci a Hci Hac).
    apply list_elem_of_split in Hv as (pre & suf & Hl). pose proof (cw_ordered _ _ Hcm) as Hord. rewrite Hl in Hord |- *.
    rewrite (area_at_middle _ _ _ _ _ _ Hord Ha). rewrite bool_decide_true by done. by eexists.
Qed.
End fault.

(** The exception handler: a fault outside System V shared memory. *)
Lemma fault_runs U K cur rip pf errcd kt s :
  vm_wf U K s -> th_pid cur <> 0 ->
  fault_out U K (th_pid cur) rip pf errcd s (VMManager_handle_page_fault cur None rip pf errcd kt s).
Proof.
  intros Hs Hpid. unfold VMManager_handle_page_fault. rewrite (bind_ok _ _ _ s s) by done.
  fold (chunk_at (mem_chunks s (th_pid cur)) pf).
  destruct (chunk_at (mem_chunks s (th_pid cur)) pf) as [c|] eqn:Hat.
  - apply chunk_at_Some in Hat as [Hc Hpf]. destruct (content_of U K s Hs c) as (x & Hx & _); [by eapply vw_mem|].
    destruct x as [v|ci]; [by apply (single_fault U K cur s c) with (v := v)|by apply (multi_fault U K cur s c) with (ci := ci)].
  - unfold fault_out. rewrite pmap_out; [done|]. by apply chunk_at_None.
Qed.

End protect.
