(* ===== verification/VMManagerMmap.v ===== *)
(** [mmap] in the whole user space. *)

From stdpp Require Import gmap sorting.
From S2P Require Import Prelude Errno Effects External VMRange VMMapOptions VMFreeSpace VMRemap.
From S2P Require Import VMEpc Platform PageTracker VMArea VMAreaFacts ChunkManager PlatformChunk ChunkManagerFacts.
From S2P Require Import ChunkProtect ChunkMerge ChunkMmap ChunkFault VMChunk ShmManager VMManager.
From S2P Require Import VMManagerFacts VMManagerMunmap VMManagerProtect.

Section mmap.
Context {BF : Bitflags} {BV : BitVecs} {PL : Platform} {EN : Enclave} {US : UserSpace} {RB : RBTrees} {VE : VMEnv}.
Context {RE : ReliableEnclave}.
Abbreviation vmas cm := (rb_iter (cm_vmas cm)) (only parsing).
Abbreviation chunks s := (im_chunks (vs_manager s)) (only parsing).
Abbreviation free s := (im_free_manager (vs_manager s)) (only parsing).
Abbreviation pcm s := (w_pcm (vs_world s)) (only parsing).
Abbreviation content s c := (vs_cells s !! ck_internal c) (only parsing).

(** What a process sees at an address of a mapping that starts at [start]. *)
Definition mapped_pcell (o : VMMapOptions) (start a : Z) : PCell :=
  (opt_perms o,
   match VMInitializer_backed_file (opt_initializer o) with
   | Some fb => Some (fb_file fb, fb_offset fb +64 (a -64 start), fb_write_back fb)
   | None => None
   end).

(** A state with the same mappings: the invariant holds, the processes list the same
    chunks and see the same memory. *)
Definition calm (U : Z -> Prop) (K : Chunk -> Prop) (s s' : VMState) : Prop :=
  vm_wf U K s' /\ forall q a, pmap s' q a = pmap s q a.

(** The outcome of a mapping in memory that nobody uses. *)
Definition maps_memory (U : Z -> Prop) (K : Chunk -> Prop) (pid : Z) (o : VMMapOptions) (s : VMState)
    (out : Result Z * VMState) : Prop :=
  match out.1 with
  | Ok start =>
      vm_wf U K out.2
      /\ start mod opt_align o = 0
      /\ match opt_addr o with Need x | Force x => start = x | _ => True end
      /\ (forall a, a ∈ mapped_range o start -> U a)
      /\ (forall q a, a ∈ mapped_range o start -> pmap s q a = None)
      /\ forall q a, pmap out.2 q a = if bool_decide (q = pid /\ a ∈ mapped_range o start)
                                     then Some (mapped_pcell o start a) else pmap s q a
  | Err _ => calm U K s out.2
  | Panic => False
  end.

Lemma calm_trans U K s1 s2 s3 : calm U K s1 s2 -> calm U K s2 s3 -> calm U K s1 s3.
Proof. intros [_ H1] [Hs H2]. split; [done|]. intros q a. by rewrite H2. Qed.

Lemma maps_memory_calm U K pid o s s' out :
  calm U K s s' -> maps_memory U K pid o s' out -> maps_memory U K pid o s out.
Proof.
  intros [_ Hpm] Hout. unfold maps_memory in *. destruct out.1 as [start|e|]; [| |done].
  - destruct Hout as (H1 & H2 & H3 & H4 & H5 & H6). split_and!; auto.
    + intros q a Ha. rewrite <- Hpm. auto.
    + intros q a. by rewrite H6, Hpm.
  - destruct Hout as [H1 H2]. split; [done|]. intros q a. by rewrite H2.
Qed.

(** The options of a mapping that the theorems are about. *)
Record options_ok (o : VMMapOptions) : Prop := {
  oo_init : simple_initializer (opt_initializer o);
  oo_offset fb : VMInitializer_backed_file (opt_initializer o) = Some fb -> is_u64 (fb_offset fb);
  oo_request : request_ok (opt_size o) (opt_align o) (opt_addr o);
  oo_bound a : opt_addr o = Hint a \/ opt_addr o = Need a \/ opt_addr o = Force a -> a + opt_size o < u64_modulus;
}.

(** ** Free memory *)

(** Committing free pages, which a failed mapping may have done. *)
Lemma free_commits U K s (w' : World BV PL) P :
  vm_wf U K s -> commits (pcm s) (w_pcm w') P -> (forall a, P a = true -> in_ranges a (free s)) ->
  calm U K s (u_world w' s).
Proof.
  intros Hs HP Hfree. set (s' := u_world w' s).
  assert (Hsw : switch 0 s s' [] []).
  { constructor; unfold s'; cbn; try (intros; by match goal with H : _ ∈ [] |- _ => apply not_elem_of_nil in H end).
    - exists P. split; [done|]. intros a Ha. right. auto.
    - apply (vw_sorted _ _ _ Hs).
    - intros d. split; [intros Hd; left; split; [done|apply not_elem_of_nil]|].
      intros [[? _]|Hd]; [done|by apply not_elem_of_nil in Hd].
    - done.
    - split; [done|]. intros d Hd. by apply not_elem_of_nil in Hd.
    - apply (vw_free_ok _ _ _ Hs).
    - intros a. split.
      + intros Ha. split; [by left|]. intros (d & Hd & _). by apply not_elem_of_nil in Hd.
      + intros [[?|(d & Hd & _)] _]; [done|by apply not_elem_of_nil in Hd].
    - done.
    - apply (vw_nodup _ _ _ Hs).
    - intros d Hd. left. split; [done|apply not_elem_of_nil].
    - done. }
  split; [by eapply switch_wf|]. intros q a.
  apply (pmap_same U K _ s s' [] [] Hs Hsw); intros (d & Hd & _); by apply not_elem_of_nil in Hd.
Qed.

(** A range of free memory is managed and does not meet the gap. *)
Lemma free_range U K s r :
  vm_wf U K s -> VMRange_wf r -> vm_start r < vm_end r -> (forall a, a ∈ r -> in_ranges a (free s)) ->
  off_gap r /\ (forall a, a ∈ r -> U a) /\ forall q a, a ∈ r -> pmap s q a = None.
Proof.
  intros Hs Hr Hne Hin. assert (HU : forall a, a ∈ r -> U a) by (intros a Ha; by apply (vw_free _ _ _ Hs), Hin).
  split_and!; auto.
  - unfold off_gap. destruct (vw_user _ _ _ Hs) as [_ Hgap]. destruct user_space_gap as [gap|]; [|done].
    destruct (Hgap gap eq_refl) as (Hg & Hgne & Hg2). split; [done|].
    destruct (decide (vm_end r <= vm_start gap)); [by left|]. destruct (decide (vm_end gap <= vm_start r)); [by right|].
    exfalso. apply (Hg2 (Z.max (vm_start r) (vm_start gap))); [|apply HU]; vmrange_unfold; lia.
  - intros q a Ha. apply pmap_out. intros (c & Hc & Hca). apply Hin, (vw_free _ _ _ Hs) in Ha as [_ []].
    exists c. split; [by eapply vw_mem|done].
Qed.

(** ** A chunk with one area *)

(** The state with the new chunk. *)
Definition u_new (pid : Z) (c : Chunk) (i : ChunkType) (l : VMFreeSpaceManager) (w : World BV PL) (s : VMState) : VMState :=
  u_mem pid (hash_insert c) (u_chunks (btree_insert c) (u_alloc i (u_world w (u_free (fun _ => l) s)))).

Lemma new_chunk_switch U K pid s r i l (w' : World BV PL) P :
  let c := mkChunk r (vs_next_cell s) in
  let s' := u_new pid c i l w' s in
  vm_wf U K s -> (forall a, a ∈ r -> in_ranges a (free s)) ->
  free_ok l -> (forall a, in_ranges a l <-> in_ranges a (free s) /\ ~ a ∈ r) ->
  commits (pcm s) (w_pcm w') P -> (forall a, P a = true -> a ∈ r) -> content_wf (w_pcm w') r i ->
  match i with
  | SingleVMA _ => True
  | MultiVMA ci => forall q a p f, view (vmas (ci_chunk_manager ci)) a = Some (p, Private q, f) -> q = pid
  end ->
  switch pid s s' [] [c] /\ c ∈ mem_chunks s' pid
  /\ forall q a, pmap s' q a = if bool_decide (q = pid /\ a ∈ r) then chunk_view pid i a else pmap s q a.
Proof.
  intros c s' Hs Hsp Hl Hfree HP HPr Hi Hown.
  assert (Hmem : forall q, mem_chunks s' q = if decide (q = pid) then hash_insert c (mem_chunks s pid) else mem_chunks s q)
    by (intros q; exact (mem_u_mem pid (hash_insert c) (u_world w' s) q)).
  assert (Hfresh : forall d, d ∈ chunks s -> ck_range d <> r).
  { intros d Hd Heq. destruct Hi as (_ & Hne & _). destruct (vw_free _ _ _ Hs (vm_start r)) as [H _].
    destruct H as [_ []]; [apply Hsp; vmrange_unfold; lia|]. exists d. split; [done|]. rewrite Heq. vmrange_unfold. lia. }
  destruct (hash_insert_spec c (mem_chunks s pid) (vw_nodup _ _ _ Hs pid)) as [Hnd Hin].
  { intros d Hd. apply (Hfresh d). by eapply vw_mem. }
  assert (Hsw : switch pid s s' [] [c]).
  { apply (switch_add U K pid s s' c i P Hs); auto.
    - intros q Hq. rewrite Hmem. by rewrite decide_False.
    - rewrite Hmem. by rewrite decide_True.
    - intros d. rewrite Hmem, decide_True by done. apply Hin. }
  split; [done|]. split; [rewrite Hmem, decide_True by done; apply Hin; by left|].
  intros q a. assert (Hc : content s' c = Some i) by (cbn; by rewrite lookup_insert_eq).
  destruct (decide (a ∈ r)) as [Ha|Ha].
  - rewrite (pmap_new U K _ s s' [] [c] Hs Hsw q c a i ltac:(by left) Ha Hc). rewrite Hmem.
    destruct (decide (q = pid)) as [->|Hq].
    + rewrite !bool_decide_true; auto. apply Hin. by left.
    + rewrite (bool_decide_false (q = pid /\ _)) by tauto.
      rewrite bool_decide_false by (intros Hq'%(vw_mem _ _ _ Hs); by apply (Hfresh c)).
      symmetry. apply pmap_out. intros (d & Hd & Hda). apply Hsp, (vw_free _ _ _ Hs) in Ha as [_ []].
      exists d. split; [by eapply vw_mem|done].
  - rewrite bool_decide_false by tauto. apply (pmap_same U K _ s s' [] [c] Hs Hsw); [|by rewrite in_chunks_one].
    intros (d & Hd & _). by apply not_elem_of_nil in Hd.
Qed.

Lemma run_find_free_gaps size align addr s r l :
  find_free_range_internal (free s) size align addr = Ok (r, l) ->
  find_free_gaps size align addr s = (Ok r, u_free (fun _ => l) s).
Proof. intros Hf. unfold find_free_gaps. rewrite (bind_ok _ _ s s s) by done. by rewrite Hf. Qed.

Lemma run_add_mem_chunk cur c s :
  ProcessVM_add_mem_chunk cur c s = (Ok tt, u_mem (th_pid cur) (hash_insert c) s).
Proof. done. Qed.

Section one.
Variables (U : Z -> Prop) (K : Chunk -> Prop) (cur : Thread) (o : VMMapOptions).
Hypothesis (Ho : options_ok o).
Abbreviation pid := (th_pid cur).

(** The area of a new chunk. *)
Definition fresh_area (r : VMRange) : M (World BV PL) VMArea :=
  vma ← VMArea_new r (opt_perms o) (VMInitializer_backed_file (opt_initializer o)) pid;
  VMArea_init_memory vma o.

Lemma run_new_single s r res w' :
  fresh_area r (vs_world s) = (res, w') ->
  attempt (Chunk_new_single_vma_chunk cur r o) s
  = match res with
    | Ok v => (Ok (Ok (mkChunk (va_range v) (vs_next_cell s))), u_alloc (SingleVMA v) (u_world w' s))
    | Err e => (Ok (Err e), u_world w' s)
    | Panic => (Panic, u_world w' s)
    end.
Proof.
  intros Hv. unfold attempt, Chunk_new_single_vma_chunk. fold (fresh_area r). unfold mbind, M_bind.
  rewrite (run_in_world (fresh_area r) s res w' Hv). by destruct res.
Qed.

Lemma run_mmap_chunk_ok s r l v w' :
  find_free_range_internal (free s) (opt_size o) (opt_align o) (opt_addr o) = Ok (r, l) ->
  fresh_area r (vs_world s) = (Ok v, w') -> va_range v = r ->
  mmap_chunk cur o s
  = (Ok (mkChunk r (vs_next_cell s)), u_chunks (btree_insert (mkChunk r (vs_next_cell s)))
       (u_alloc (SingleVMA v) (u_world w' (u_free (fun _ => l) s)))).
Proof.
  intros Hf Hv Hr. unfold mmap_chunk, new_chunk_with_options.
  rewrite bind_assoc, (bind_ok _ _ _ _ _ (run_find_free_gaps _ _ _ _ _ _ Hf)).
  rewrite bind_assoc. erewrite bind_ok by (by apply (run_new_single (u_free (fun _ => l) s) r (Ok v) w')). by rewrite Hr.
Qed.

Lemma run_mmap_chunk_err s r l e w' :
  find_free_range_internal (free s) (opt_size o) (opt_align o) (opt_addr o) = Ok (r, l) ->
  fresh_area r (vs_world s) = (Err e, w') -> add_range_back_to_free_manager l r = free s ->
  mmap_chunk cur o s = (Err e, u_world w' s).
Proof.
  intros Hf Hv Hback. unfold mmap_chunk, new_chunk_with_options.
  rewrite bind_assoc, (bind_ok _ _ _ _ _ (run_find_free_gaps _ _ _ _ _ _ Hf)).
  rewrite bind_assoc. erewrite bind_ok by (by apply (run_new_single (u_free (fun _ => l) s) r (Err e) w')).
  change ((@Err Chunk e, u_free (fun _ => add_range_back_to_free_manager l r) (u_world w' s)) = (Err e, u_world w' s)).
  rewrite Hback. by destruct s as [[]].
Qed.

(** The outcome of making a chunk: it is in free memory, and when the process lists it, this is
    an exchange. *)
Definition makes_chunk (s : VMState) (out : Result Chunk * VMState) : Prop :=
  match out.1 with
  | Ok c =>
      let s' := u_mem pid (hash_insert c) out.2 in
      let start := vm_start (ck_range c) in
      ck_range c = mapped_range o start
      /\ start mod opt_align o = 0
      /\ match opt_addr o with Need x | Force x => start = x | _ => True end
      /\ (forall a, a ∈ ck_range c -> in_ranges a (free s))
      /\ (exists v, content out.2 c = Some (SingleVMA v)
           /\ forall a, cell v a = mapped_cell pid o start a)
      /\ vs_procs out.2 = vs_procs s
      /\ switch pid s s' [] [c]
      /\ forall q a, pmap s' q a = if bool_decide (q = pid /\ a ∈ ck_range c)
                                  then Some (mapped_pcell o start a) else pmap s q a
  | Err _ => exists w', out.2 = u_world w' s /\ calm U K s out.2
  | Panic => False
  end.

Lemma mmap_chunk_makes s : vm_wf U K s -> makes_chunk s (mmap_chunk cur o s).
Proof.
  intros Hs. pose proof (oo_request _ Ho) as Hreq. pose proof (proj1 Hreq) as Hsz0.
  pose proof (alloc_fails_ok _ _ _ _ (vw_free_ok _ _ _ Hs) Hreq) as Hfail.
  destruct (find_free_range_internal (free s) (opt_size o) (opt_align o) (opt_addr o)) as [[r l]|e|] eqn:Hf; [| |done].
  2: { assert (mmap_chunk cur o s = (Err e, s)) as ->;
         [|exists (vs_world s); split; [by rewrite u_world_same|by split]].
       unfold mmap_chunk, new_chunk_with_options, find_free_gaps, mbind, M_bind. cbn. by rewrite Hf. }
  destruct (alloc_sound _ _ _ _ _ _ (vw_free_ok _ _ _ Hs) Hreq Hf) as (Hr & Hsz & He & Hlim & Hm & Hsub & Hl & Hin).
  pose proof (alloc_policy_ok _ _ _ _ _ _ (vw_free_ok _ _ _ Hs) Hreq Hf) as Hpol.
  destruct (alloc_free_inverse _ _ _ _ _ _ (vw_free_ok _ _ _ Hs) Hreq Hf) as [Hback _].
  assert (Hne : vm_start r < vm_end r) by lia.
  destruct (free_range U K s r Hs Hr Hne Hsub) as (Hgap & HU & Hnone).
  destruct (fresh_area_spec pid o (vs_world s) r) as (res & w' & P & Hrun & HP & HPr & Hres); auto;
    [apply (vw_pcm _ _ _ Hs)|apply Ho|by apply Ho|].
  assert (Hmr : mapped_range o (vm_start r) = r) by (unfold mapped_range; rewrite <- He; by destruct r).
  destruct res as [v|e|]; [| |done].
  - destruct Hres as (Hv & Hvr & Hcell). rewrite (run_mmap_chunk_ok s r l v w' Hf Hrun Hvr).
    assert (Hacc : va_access v = Private pid) by (by injection (Hcell 0)).
    destruct (new_chunk_switch U K pid s r (SingleVMA v) l w' P) as (Hsw & _ & Hpm); auto.
    { split_and!; auto. unfold VMArea_is_shared. by rewrite Hacc. }
    unfold makes_chunk. cbn [fst snd ck_range]. split_and!; auto.
    + by destruct (opt_addr o).
    + exists v. split; [by cbn; rewrite lookup_insert_eq|done].
    + intros q a. unfold u_new in Hpm. rewrite Hpm. case_bool_decide as Hb; [|done]. destruct Hb as [_ Ha]. cbn.
      rewrite Hvr. rewrite bool_decide_true by done. f_equal. specialize (Hcell a). unfold cell, mapped_cell in Hcell.
      unfold mapped_pcell. congruence.
  - rewrite (run_mmap_chunk_err s r l e w' Hf Hrun Hback). exists w'. split; [done|].
    apply (free_commits U K s w' P); auto.
Qed.

Lemma own_chunk_maps s :
  vm_wf U K s -> maps_memory U K pid o s (mmap_own_chunk cur o s).
Proof.
  intros Hs. pose proof (mmap_chunk_makes s Hs) as Hmk. unfold mmap_own_chunk, map_err, makes_chunk in *.
  unfold mbind, M_bind. destruct (mmap_chunk cur o s) as [[c|e|] s1]; cbn [fst snd] in *; [| |done].
  - destruct Hmk as (Hr & Hal & Hpol & Hfree & _ & _ & Hsw & Hpm).
    change (maps_memory U K pid o s (Ok (vm_start (ck_range c)), u_mem pid (hash_insert c) s1)).
    unfold maps_memory. cbn [fst snd]. rewrite <- Hr. destruct (chunk_range_wf _ _ _ (switch_wf _ _ _ _ _ _ _ Hs Hsw) c) as (Hrw & Hne & _).
    { apply (sw_chunks _ _ _ _ _ Hsw). right. by left. }
    destruct (free_range U K s (ck_range c) Hs Hrw Hne Hfree) as (_ & HU & Hnone).
    split_and!; auto. by eapply switch_wf.
  - by destruct Hmk as (w' & -> & Hcalm).
Qed.
(** ** Default chunks *)

(** The outcome of trying a default chunk: the mapping is in the chunk, which the process
    may still have to list, or nothing but free pages of the chunk changed. *)
Definition tries (s : VMState) (c : Chunk) (out : Result Z * VMState) : Prop :=
  match out.1 with
  | Ok start => exists ci cm' w', content s c = Some (MultiVMA ci)
      /\ out.2 = u_world w' (u_cell c (MultiVMA (mkChunkInternal cm' (ci_process_set ci))) s)
      /\ maps pid o (ci_chunk_manager ci) (vs_world s) (Ok start, (cm', w'))
  | Err _ => exists w', out.2 = u_world w' s /\ calm U K s out.2
  | Panic => False
  end.

Lemma free_in_chunk s c ci a :
  vm_wf U K s -> c ∈ chunks s -> content s c = Some (MultiVMA ci) -> free_in (ci_chunk_manager ci) a ->
  a ∈ ck_range c /\ U a /\ forall q, pmap s q a = None.
Proof.
  intros Hs Hc Hci [Ha Hv]. destruct (multi_content U K s c ci Hs Hc Hci) as [_ Hr]. rewrite Hr in Ha.
  split_and!; auto.
  - apply (vw_managed _ _ _ Hs). by exists c.
  - intros q. rewrite (pmap_multi U K s c ci q a Hs Hc Hci Ha). cbn. by rewrite Hv.
Qed.

Lemma manager_tries s c ci res cm' w' :
  vm_wf U K s -> c ∈ chunks s -> content s c = Some (MultiVMA ci) ->
  maps pid o (ci_chunk_manager ci) (vs_world s) (res, (cm', w')) ->
  tries s c (res, u_world w' (u_cell c (MultiVMA (mkChunkInternal cm' (ci_process_set ci))) s)).
Proof.
  intros Hs Hc Hci Hm. destruct res as [start|e|]; [by exists ci, cm', w'| |by destruct Hm as (_ & _ & [])].
  destruct Hm as (Hcm' & Hr & -> & P & HP & HPf). exists w'. cbn [snd].
  rewrite u_cell_same by (by destruct ci). split; [done|].
  destruct (multi_change U K pid s (u_world w' s) c ci ci P) as [Hsw Hpm]; auto.
  - cbn. by rewrite insert_id.
  - apply (vw_nodup _ _ _ Hs).
  - intros a Ha. by apply (free_in_chunk s c ci a Hs Hc Hci), HPf.
  - by apply (multi_content U K s c ci Hs Hc Hci).
  - eauto.
  - split; [by eapply switch_wf|]. intros q a. rewrite Hpm. case_bool_decide as Ha; [|done].
    by rewrite (pmap_multi U K s c ci q a Hs Hc Hci Ha).
Qed.

(** Once the process lists the chunk, the mapping is made. *)
Lemma tries_listed s c start s1 s' :
  vm_wf U K s -> c ∈ chunks s -> tries s c (Ok start, s1) -> vs_world s' = vs_world s1 ->
  vs_manager s' = vs_manager s -> vs_next_cell s' = vs_next_cell s ->
  (exists ci ci', content s1 c = Some (MultiVMA ci) /\ ci_chunk_manager ci' = ci_chunk_manager ci
     /\ vs_cells s' = <[ck_internal c := MultiVMA ci']> (vs_cells s)) ->
  (forall q, q <> pid -> mem_chunks s' q = mem_chunks s q) -> NoDup (mem_chunks s' pid) ->
  (forall d, d ∈ mem_chunks s' pid <-> d ∈ mem_chunks s pid \/ d = c) ->
  maps_memory U K pid o s (Ok start, s').
Proof.
  intros Hs Hc (ci & cm' & w' & Hci & Hs1 & Hcm' & Hr & Hfit & Hpol & Hview & P & HP & HPin) Hw Hm Hn
    (ci1 & ci' & Hci1 & Hci' & Hcells) Ho' Hnd Hmem. cbn [snd] in Hs1. subst s1.
  cbn in Hci1. rewrite lookup_insert_eq in Hci1. injection Hci1 as <-. cbn in Hci', Hw.
  destruct (multi_content U K s c ci Hs Hc Hci) as [Hcmw Hcr]. destruct Hfit as [Hal Hfit].
  assert (Hfree : forall a, a ∈ mapped_range o start -> free_in (ci_chunk_manager ci) a).
  { intros a Ha. apply Hfit. unfold mapped_range in Ha. vmrange_unfold. lia. }
  assert (Hin : forall a, a ∈ mapped_range o start -> a ∈ ck_range c /\ U a /\ forall q, pmap s q a = None)
    by (intros a Ha; by apply (free_in_chunk s c ci a Hs Hc Hci), Hfree).
  destruct (multi_change U K pid s s' c ci ci' P) as [Hsw Hpm]; auto.
  - intros d. by rewrite Hmem.
  - intros d Hd. apply Hmem. by left.
  - by rewrite Hw.
  - intros a Ha. by apply Hin, HPin.
  - by rewrite Hw, Hci'.
  - by rewrite Hci', Hr.
  - intros q a p f Hv. rewrite Hci', Hview in Hv. case_bool_decide; [|by eauto].
    left. split; [by injection Hv|]. apply Hmem. by right.
  - unfold maps_memory. cbn [fst snd]. split_and!; auto; [by eapply switch_wf| | | |].
    + by destruct (opt_addr o).
    + intros a Ha. by apply Hin.
    + intros q a Ha. by apply Hin.
    + intros q a. rewrite Hpm. destruct (decide (a ∈ ck_range c)) as [Ha|Ha].
      * rewrite (bool_decide_true (a ∈ ck_range c)) by done. rewrite (pmap_multi U K s c ci q a Hs Hc Hci Ha). cbn.
        rewrite Hci', Hview. destruct (decide (a ∈ mapped_range o start)) as [Hm'|Hm'].
        -- rewrite (bool_decide_true (a ∈ mapped_range o start)) by done. unfold mapped_cell. cbn.
           destruct (Hfree a Hm') as [_ ->]. destruct (decide (q = pid)) as [->|Hq].
           ++ by rewrite !bool_decide_true.
           ++ rewrite !bool_decide_false; [done|tauto|congruence].
        -- by rewrite !(bool_decide_false (_ /\ _)), (bool_decide_false (a ∈ mapped_range o start)) by tauto.
      * rewrite (bool_decide_false (a ∈ ck_range c)) by done. rewrite bool_decide_false; [done|].
        intros [_ Hm']. by apply Hin in Hm' as [? _].
Qed.

Lemma chunk_mmap_tries s c ci :
  is_force (opt_addr o) = false -> pid <> 0 ->
  vm_wf U K s -> c ∈ chunks s -> content s c = Some (MultiVMA ci) -> tries s c (Chunk_mmap cur c o s).
Proof.
  intros Hnf Hpid Hs Hc Hci. destruct (multi_content U K s c ci Hs Hc Hci) as [Hcm _].
  unfold Chunk_mmap. set (m := mbind _ _).
  assert (Hm : maps pid o (ci_chunk_manager ci) (vs_world s) (m (ci_chunk_manager ci, vs_world s))).
  { unfold m. rewrite (bind_ok _ _ _ (ci_chunk_manager ci) (ci_chunk_manager ci, vs_world s)) by done.
    destruct (_ <? _).
    - do 3 (split; [done|]). exists (fun _ => false). split; [apply commits_refl, (vw_pcm _ _ _ Hs)|done].
    - apply mmap_maps; auto; [apply (vw_pcm _ _ _ Hs)|apply Ho|apply Ho|apply Ho]. }
  destruct (m (ci_chunk_manager ci, vs_world s)) as [res [cm' w']] eqn:Hrun.
  rewrite (run_on_manager _ _ _ _ _ _ _ Hci Hrun). by apply manager_tries.
Qed.

Lemma chunk_try_mmap_tries s c ci :
  is_force (opt_addr o) = false -> pid <> 0 ->
  vm_wf U K s -> c ∈ chunks s -> content s c = Some (MultiVMA ci) -> tries s c (Chunk_try_mmap cur c o s).
Proof.
  intros Hnf Hpid Hs Hc Hci. unfold Chunk_try_mmap. destruct (chunk_busy c); [|by apply (chunk_mmap_tries s c ci)].
  exists (vs_world s). cbn. by rewrite u_world_same.
Qed.

(** The loops over default chunks. *)
Lemma first_success_spec f l : forall s,
  (forall s c ci, vm_wf U K s -> c ∈ chunks s -> content s c = Some (MultiVMA ci) -> tries s c (f c s)) ->
  vm_wf U K s -> (forall c, c ∈ l -> c ∈ chunks s) ->
  match first_success f l s with
  | (Ok None, s') => exists w', s' = u_world w' s /\ calm U K s s'
  | (Ok (Some (c, start)), s') =>
      exists w1, calm U K s (u_world w1 s) /\ c ∈ l /\ tries (u_world w1 s) c (Ok start, s')
  | _ => False
  end.
Proof.
  induction l as [|c l IH]; intros s Hf Hs Hl; cbn [first_success].
  { exists (vs_world s). cbn. by rewrite u_world_same. }
  destruct (content_of U K s Hs c) as (x & Hx & _); [apply Hl; by left|].
  rewrite (bind_ok _ _ s (match x with SingleVMA _ => true | MultiVMA _ => false end) s)
    by (unfold Chunk_is_single_vma; by rewrite (bind_ok _ _ _ _ _ (run_internal c _ s Hx))).
  destruct x as [v|ci].
  { specialize (IH s Hf Hs ltac:(intros d Hd; apply Hl; by right)).
    destruct (first_success f l s) as [[[[d start]|]|e|] s']; auto.
    destruct IH as (w1 & ? & ? & ?). exists w1. split_and!; auto. by right. }
  pose proof (Hf s c ci Hs ltac:(apply Hl; by left) Hx) as Ht. unfold mbind, M_bind, attempt.
  destruct (f c s) as [[start|e|] s1]; [| |done].
  { exists (vs_world s). rewrite u_world_same. split_and!; auto; [by split|by left]. }
  unfold tries in Ht. cbn [fst snd] in Ht. destruct Ht as (w1 & -> & Hcalm).
  specialize (IH (u_world w1 s) Hf (proj1 Hcalm) ltac:(intros d Hd; apply (Hl d); by right)).
  destruct (first_success f l (u_world w1 s)) as [[[[d start]|]|e'|] s']; auto.
  - destruct IH as (w2 & Hc2 & Hd & Ht). exists w2. split_and!; [|by right|done].
    by apply (calm_trans U K s (u_world w1 s)).
Qed.

(** The process lists the chunk in which the slow path succeeded. *)
Lemma slow_listed s c start s1 :
  vm_wf U K s -> c ∈ chunks s -> tries s c (Ok start, s1) ->
  maps_memory U K pid o s ((_ ← Chunk_add_process cur c; _ ← ProcessVM_add_mem_chunk cur c; ok start) s1).
Proof.
  intros Hs Hc Ht. pose proof Ht as (ci & cm' & w' & Hci & Hs1 & _). cbn [snd] in Hs1.
  set (ci1 := mkChunkInternal cm' (ci_process_set ci)) in Hs1.
  set (ci2 := ChunkInternal_add_process ci1 pid).
  assert (Hci1 : content s1 c = Some (MultiVMA ci1)) by (rewrite Hs1; cbn; by rewrite lookup_insert_eq).
  set (s2 := u_mem pid (hash_insert c) (u_cell c (MultiVMA ci2) s1)).
  assert ((_ ← Chunk_add_process cur c; _ ← ProcessVM_add_mem_chunk cur c; ok start) s1 = (Ok start, s2)) as ->.
  { unfold Chunk_add_process. rewrite bind_assoc, (bind_ok _ _ _ _ _ (run_internal c _ s1 Hci1)). done. }
  assert (Hmem : forall q, mem_chunks s2 q = if decide (q = pid) then hash_insert c (mem_chunks s pid) else mem_chunks s q).
  { intros q. unfold s2; rewrite mem_u_mem. by rewrite Hs1. }
  assert (Hins : NoDup (hash_insert c (mem_chunks s pid))
    /\ forall d, d ∈ hash_insert c (mem_chunks s pid) <-> d ∈ mem_chunks s pid \/ d = c).
  { destruct (decide (c ∈ mem_chunks s pid)) as [Hin|Hout].
    - rewrite hash_insert_same by done. split; [apply (vw_nodup _ _ _ Hs)|]. intros d. split; [by left|]. by intros [?| ->].
    - destruct (hash_insert_spec c (mem_chunks s pid) (vw_nodup _ _ _ Hs pid)) as [Hnd Hin].
      + intros d Hd Heq. destruct Hout. assert (d = c) as <-; [|done].
        destruct (chunk_range_wf _ _ _ Hs c Hc) as (_ & Hne & _).
        apply (vw_disjoint _ _ _ Hs d c (vm_start (ck_range c))); [by eapply vw_mem|done|..]; rewrite ?Heq; vmrange_unfold; lia.
      + split; [done|]. intros d. rewrite Hin. tauto. }
  apply (tries_listed s c start s1 s2); auto.
  - unfold s2. by rewrite Hs1.
  - unfold s2. by rewrite Hs1.
  - exists ci1, ci2. split_and!; auto. unfold s2. rewrite Hs1. cbn. by rewrite insert_insert_eq.
  - intros q Hq. rewrite Hmem. by rewrite decide_False.
  - rewrite Hmem, decide_True by done. apply Hins.
  - intros d. rewrite Hmem, decide_True by done. apply Hins.
Qed.

(** The slow path: any default chunk, or a chunk of its own. *)
Lemma mmap_slow_maps s :
  is_force (opt_addr o) = false -> pid <> 0 -> vm_wf U K s -> maps_memory U K pid o s (mmap_slow cur o s).
Proof.
  intros Hnf Hpid Hs. unfold mmap_slow. rewrite (bind_ok _ _ _ s s) by done.
  pose proof (first_success_spec (fun chunk => Chunk_mmap cur chunk o) (chunks s) s
    ltac:(intros; by apply (chunk_mmap_tries _ _ ci)) Hs ltac:(done)) as Hfs.
  unfold mbind, M_bind. destruct (first_success _ _ s) as [[[[c start]|]|e|] s1]; [| |done..].
  - destruct Hfs as (w1 & Hcalm & Hc & Ht). apply (maps_memory_calm U K pid o s _ _ Hcalm).
    by apply (slow_listed (u_world w1 s) c start s1 (proj1 Hcalm)).
  - destruct Hfs as (w1 & -> & Hcalm). apply (maps_memory_calm U K pid o s _ _ Hcalm). apply own_chunk_maps, Hcalm.
Qed.

(** A chunk that the process lists already. *)
Lemma listed_maps s c out :
  vm_wf U K s -> c ∈ mem_chunks s pid -> tries s c out -> maps_memory U K pid o s out.
Proof.
  intros Hs Hc Ht. destruct out as [[start|e|] s1]; [|by destruct Ht as (w' & _ & ?)|done].
  pose proof Ht as (ci & cm' & w' & Hci & Hs1 & _). cbn [snd] in Hs1.
  assert (Hcc : c ∈ chunks s) by (by eapply vw_mem).
  apply (tries_listed s c start s1 s1); auto; try (by rewrite Hs1).
  - exists (mkChunkInternal cm' (ci_process_set ci)), (mkChunkInternal cm' (ci_process_set ci)).
    rewrite Hs1. cbn. by rewrite lookup_insert_eq.
  - rewrite Hs1. apply (vw_nodup _ _ _ Hs).
  - intros d. rewrite Hs1. change (d ∈ mem_chunks s pid <-> d ∈ mem_chunks s pid \/ d = c). split; [by left|]. by intros [?| ->].
Qed.

(** A new default chunk, which the process lists. *)
Lemma default_request addr : request_ok (opt_size o) (opt_align o) addr -> request_ok CHUNK_DEFAULT_SIZE PAGE_SIZE addr.
Proof. intros (_ & _ & _ & _ & Ha). split_and!; auto; done. Qed.

Lemma new_default_chunk s :
  vm_wf U K s ->
  match attempt (mmap_chunk_default (opt_addr o)) s with
  | (Ok (Ok c), s1) => exists s', (_ ← Chunk_add_process cur c; ProcessVM_add_mem_chunk cur c) s1 = (Ok tt, s')
      /\ calm U K s s' /\ c ∈ mem_chunks s' pid /\ exists ci, content s' c = Some (MultiVMA ci)
  | (Ok (Err _), s1) => s1 = s
  | _ => False
  end.
Proof.
  intros Hs. pose proof (default_request _ (oo_request _ Ho)) as Hreq.
  pose proof (alloc_fails_ok _ _ _ _ (vw_free_ok _ _ _ Hs) Hreq) as Hfail.
  destruct (find_free_range_internal (free s) CHUNK_DEFAULT_SIZE PAGE_SIZE (opt_addr o)) as [[r l]|e|] eqn:Hf; [| |done].
  2: { unfold mmap_chunk_default, find_free_gaps, attempt, mbind, M_bind. cbn -[CHUNK_DEFAULT_SIZE PAGE_SIZE]. by rewrite Hf. }
  destruct (alloc_sound _ _ _ _ _ _ (vw_free_ok _ _ _ Hs) Hreq Hf) as (Hr & Hsz & He & Hlim & Hm & Hsub & Hl & Hin).
  assert (0 < CHUNK_DEFAULT_SIZE) by done. assert (Hne : vm_start r < vm_end r) by lia.
  destruct (free_range U K s r Hs Hr Hne Hsub) as (Hgap & HU & Hnone).
  assert (Hrr : mkVMRange (vm_start r) (vm_start r + CHUNK_DEFAULT_SIZE) = r) by (rewrite <- He; by destruct r).
  destruct (ChunkManager_from_spec (vs_world s) (vm_start r) CHUNK_DEFAULT_SIZE) as (cm & Hfrom & Hcm & Hcr & Hview);
    rewrite ?Hrr; try done; try apply Hr; try (by rewrite <- He).
  rewrite Hrr in Hcr. set (c := mkChunk r (vs_next_cell s)).
  set (s1 := u_chunks (btree_insert c) (u_alloc (MultiVMA (mkChunkInternal cm ∅)) (u_world (vs_world s) (u_free (fun _ => l) s)))).
  assert (attempt (mmap_chunk_default (opt_addr o)) s = (Ok (Ok c), s1)) as ->.
  { unfold attempt, mmap_chunk_default. rewrite (bind_ok _ _ _ _ _ (run_find_free_gaps _ _ _ _ _ _ Hf)).
    unfold Chunk_new_default_chunk. rewrite bind_assoc.
    erewrite bind_ok; [|apply run_in_world; unfold ChunkInternal_new; rewrite Hsz;
      rewrite (bind_ok _ _ (vs_world (u_free (fun _ => l) s)) cm (vs_world s)) by exact Hfrom; reflexivity].
    done. }
  set (ci := mkChunkInternal cm ({[pid]} ∪ ∅)).
  assert (Hi : content_wf (pcm s) r (MultiVMA ci)) by (by split_and!).
  destruct (new_chunk_switch U K pid s r (MultiVMA ci) l (vs_world s) (fun _ => false)) as (Hsw & Hmem & Hpm); auto.
  { apply commits_refl, (vw_pcm _ _ _ Hs). } { done. }
  { intros q a p f Hv. cbn in Hv. by rewrite Hview in Hv. }
  fold c in Hsw, Hpm. exists (u_new pid c (MultiVMA ci) l (vs_world s) s). split_and!.
  - unfold Chunk_add_process. rewrite bind_assoc. rewrite (bind_ok _ _ _ (MultiVMA (mkChunkInternal cm ∅)) s1)
      by (apply run_internal; cbn; by rewrite lookup_insert_eq).
    unfold u_new, s1. cbn. unfold mbind, M_bind. cbn. by rewrite insert_insert_eq.
  - split; [by eapply switch_wf|]. intros q a. rewrite Hpm. case_bool_decide as Hb; [|done]. destruct Hb as [-> Ha].
    cbn. rewrite Hview. by rewrite Hnone.
  - exact Hmem.
  - exists ci. cbn. by rewrite lookup_insert_eq.
Qed.

Lemma mmap_default_maps s :
  is_force (opt_addr o) = false -> pid <> 0 -> vm_wf U K s -> maps_memory U K pid o s (mmap_default_chunks cur o s).
Proof.
  intros Hnf Hpid Hs. unfold mmap_default_chunks. rewrite (bind_ok _ _ _ s s) by done.
  pose proof (first_success_spec (fun chunk => Chunk_try_mmap cur chunk o) (mem_chunks s pid) s
    ltac:(intros; by apply (chunk_try_mmap_tries _ _ ci)) Hs ltac:(intros; by eapply vw_mem)) as Hfs.
  unfold mbind at 1, M_bind at 1. destruct (first_success _ _ s) as [[[[c start]|]|e|] s1]; [| |done..].
  { destruct Hfs as (w1 & Hcalm & Hc & Ht). apply (maps_memory_calm U K pid o s _ _ Hcalm).
    by apply (listed_maps (u_world w1 s) c _ (proj1 Hcalm)). }
  destruct Hfs as (w1 & -> & Hcalm). apply (maps_memory_calm U K pid o s _ _ Hcalm).
  pose proof (new_default_chunk (u_world w1 s) (proj1 Hcalm)) as Hnew. unfold mbind at 1, M_bind at 1.
  destruct (attempt _ _) as [[[c|e|]|e|] s1]; [| |done..].
  - destruct Hnew as (s2 & Hrun & Hcalm2 & Hc & ci & Hci). apply (maps_memory_calm U K pid o _ _ _ Hcalm2).
    rewrite <- bind_assoc, (bind_ok _ _ _ _ _ Hrun). apply (listed_maps s2 c); auto; [apply Hcalm2|].
    apply (chunk_mmap_tries s2 c ci); auto; [apply Hcalm2|eapply vw_mem; [apply Hcalm2|done]].
  - subst s1. apply mmap_slow_maps; auto. apply Hcalm.
Qed.

(** ** A requested address *)

Lemma manager_mmap_maps s c ci :
  is_force (opt_addr o) = false -> pid <> 0 -> vm_wf U K s -> c ∈ mem_chunks s pid ->
  content s c = Some (MultiVMA ci) -> maps_memory U K pid o s (on_manager c (ChunkManager_mmap pid o) s).
Proof.
  intros Hnf Hpid Hs Hc Hci. assert (Hcc : c ∈ chunks s) by (by eapply vw_mem).
  destruct (multi_content U K s c ci Hs Hcc Hci) as [Hcm _].
  assert (Hm : maps pid o (ci_chunk_manager ci) (vs_world s) (ChunkManager_mmap pid o (ci_chunk_manager ci, vs_world s)))
    by (apply mmap_maps; auto; [apply (vw_pcm _ _ _ Hs)|apply Ho|apply Ho|apply Ho]).
  destruct (ChunkManager_mmap pid o (ci_chunk_manager ci, vs_world s)) as [res [cm' w']] eqn:Hrun.
  rewrite (run_on_manager _ _ _ _ _ _ _ Hci Hrun). apply (listed_maps s c); auto. by apply manager_tries.
Qed.

(** [Hint] and [Need]. *)
Lemma with_addr_maps s r :
  pid <> 0 -> vm_wf U K s -> match opt_addr o with Hint _ | Need _ => True | _ => False end ->
  maps_memory U K pid o s (mmap_with_addr cur r o s).
Proof.
  intros Hpid Hs Hkind. assert (Hnf : is_force (opt_addr o) = false) by (by destruct (opt_addr o)).
  unfold mmap_with_addr. cbn [mmap_with_addr_fuel]. rewrite (bind_ok _ _ _ s s) by done.
  destruct (List.find (intersects r) (mem_chunks s pid)) as [c|] eqn:Hf; [|by apply own_chunk_maps].
  destruct (List.find_some _ _ Hf) as [Hc _]. apply list_elem_of_In in Hc.
  destruct (content_of U K s Hs c) as (x & Hx & _); [by eapply vw_mem|].
  rewrite (bind_ok _ _ _ _ _ (run_internal c _ s Hx)). destruct x as [v|ci].
  - destruct (opt_addr o); [done|by split..|done].
  - replace (VMMapAddr_is_force (opt_addr o)) with false by (by destruct (opt_addr o)).
    rewrite andb_false_r. by apply (manager_mmap_maps s c ci).
Qed.

(** The state between the unmapping that [Force] does first and the new mapping. *)
Definition makes_room (s s1 : VMState) (r : VMRange) : Prop :=
  vm_wf U K s1
  /\ forall q a, pmap s1 q a = if bool_decide (q = pid /\ a ∈ r) then None else pmap s q a.

Lemma force_multi s c ci x :
  opt_addr o = Force x -> pid <> 0 -> vm_wf U K s -> c ∈ mem_chunks s pid -> content s c = Some (MultiVMA ci) ->
  VMRange_is_superset_of (ck_range c) (mapped_range o x) = true ->
  exists s1, makes_room s s1 (mapped_range o x)
    /\ maps_memory U K pid o s1 (on_manager c (ChunkManager_mmap pid o) s).
Proof.
  intros Hx Hpid Hs Hc Hci Hsup. assert (Hcc : c ∈ chunks s) by (by eapply vw_mem).
  destruct (multi_content U K s c ci Hs Hcc Hci) as [Hcm Hcr].
  destruct (mmap_in_chunk pid o (ci_chunk_manager ci) (vs_world s)) as (cm1 & w1 & Hw1 & Hcm1 & Hr1 & Hv1 & Hm);
    auto; [apply (vw_pcm _ _ _ Hs)|apply Ho|apply Ho|apply Ho|intros a Ha; apply (oo_bound _ Ho); tauto|].
  destruct (ChunkManager_mmap pid o (ci_chunk_manager ci, vs_world s)) as [res [cm' w']] eqn:Hrun.
  rewrite (run_on_manager _ _ _ _ _ _ _ Hci Hrun).
  set (ci1 := mkChunkInternal cm1 (ci_process_set ci)). set (s1 := u_world w1 (u_cell c (MultiVMA ci1) s)).
  assert (Hci1 : content s1 c = Some (MultiVMA ci1)) by (cbn; by rewrite lookup_insert_eq).
  destruct (multi_change U K pid s s1 c ci ci1 (fun _ => false)) as [Hsw Hpm]; try done.
  { apply (vw_nodup _ _ _ Hs). } { by left. } { cbn. rewrite Hw1. apply commits_refl, (vw_pcm _ _ _ Hs). } { by rewrite <- Hcr. }
  { intros q a p f Hv. right. cbn in Hv. rewrite Hv1 in Hv. unfold make_room, unmap_at in Hv. rewrite Hx in Hv.
    destruct (view _ a) as [y|]; [|done]. destruct (_ && _); simplify_eq. eauto. }
  assert (Hs1 : vm_wf U K s1) by (by eapply switch_wf). exists s1. split.
  - split; [done|]. intros q a. rewrite Hpm. destruct (decide (a ∈ ck_range c)) as [Ha|Ha].
    + rewrite (bool_decide_true (a ∈ ck_range c)) by done. rewrite (pmap_multi U K s c ci q a Hs Hcc Hci Ha). cbn.
      rewrite Hv1. unfold make_room. rewrite Hx. apply unmap_view.
    + rewrite (bool_decide_false (a ∈ ck_range c)) by done. rewrite bool_decide_false; [done|]. intros [_ Hin].
      unfold VMRange_is_superset_of in Hsup. boolprop. apply Ha. vmrange_unfold. lia.
  - replace (u_world w' (u_cell c (MultiVMA (mkChunkInternal cm' (ci_process_set ci))) s))
      with (u_world w' (u_cell c (MultiVMA (mkChunkInternal cm' (ci_process_set ci1))) s1))
      by (unfold s1, u_world, u_cell; cbn; by rewrite insert_insert_eq).
    apply (listed_maps s1 c); auto. by apply manager_tries.
Qed.

Lemma force_single s c v x :
  opt_addr o = Force x -> th_exited cur = false -> vm_wf U K s -> c ∈ mem_chunks s pid ->
  content s c = Some (SingleVMA v) -> VMRange_wf (mapped_range o x) ->
  intersects (mapped_range o x) c = true -> VMRange_is_superset_of (ck_range c) (mapped_range o x) = true ->
  exists s1, makes_room s s1 (mapped_range o x)
    /\ maps_memory U K pid o s1 ((_ ← munmap_chunk cur c (Some (mapped_range o x)) MunmapForce; mmap_own_chunk cur o) s).
Proof.
  intros Hx Hcur Hs Hc Hv Hr Hint Hsup. destruct (single_content U K cur s c v Hs Hc Hv) as (_ & _ & Hsh & _).
  destruct (munmap_single_unmaps U K cur s c v (mapped_range o x)) as (s1 & news & Hrun & Hsw & _ & Hpm); auto.
  assert (Hs1 : vm_wf U K s1) by (by eapply switch_wf). exists s1. split.
  - split; [done|]. intros q a. rewrite Hpm. rewrite (bool_decide_ext (q = pid /\ a ∈ mapped_range o x)
      (q = pid /\ a ∈ mapped_range o x /\ a ∈ ck_range c)); [done|].
    split; [|tauto]. intros [-> Ha]. split_and!; auto. unfold VMRange_is_superset_of in Hsup. boolprop. vmrange_unfold. lia.
  - rewrite (bind_ok _ _ s tt s1) by (by rewrite (run_munmap_single cur s c v)). by apply own_chunk_maps.
Qed.

(** [Force], in one chunk of the process or in none. *)
Lemma with_addr_force s x :
  opt_addr o = Force x -> pid <> 0 -> th_exited cur = false -> vm_wf U K s -> VMRange_wf (mapped_range o x) ->
  (forall c, c ∈ mem_chunks s pid -> intersects (mapped_range o x) c = true ->
     VMRange_is_superset_of (ck_range c) (mapped_range o x) = true) ->
  exists s1, makes_room s s1 (mapped_range o x)
    /\ maps_memory U K pid o s1 (mmap_with_addr cur (mapped_range o x) o s).
Proof.
  intros Hx Hpid Hcur Hs Hr Hlocal. unfold mmap_with_addr. cbn [mmap_with_addr_fuel].
  rewrite (bind_ok _ _ _ s s) by done.
  destruct (List.find (intersects (mapped_range o x)) (mem_chunks s pid)) as [c|] eqn:Hf.
  - destruct (List.find_some _ _ Hf) as [Hc Hint]. apply list_elem_of_In in Hc.
    destruct (content_of U K s Hs c) as (y & Hy & _); [by eapply vw_mem|].
    rewrite (bind_ok _ _ _ _ _ (run_internal c _ s Hy)). rewrite (Hlocal c Hc Hint). cbn [negb andb].
    destruct y as [v|ci]; [|apply (force_multi s c ci); auto]. rewrite Hx. apply (force_single s c v); auto.
  - exists s. split; [|by apply own_chunk_maps]. split; [done|]. intros q a. case_bool_decide as Hb; [|done].
    destruct Hb as [-> Ha]. apply pmap_out. intros (c & Hc & Hca).
    apply List.find_none with (x := c) in Hf; [|by apply list_elem_of_In]. by rewrite (intersects_in _ c a) in Hf.
Qed.

(** What the processes see before the new mapping is placed: [Force] unmaps its range. *)
Definition roomed (m : Z -> Z -> option PCell) (q a : Z) : option PCell :=
  match opt_addr o with
  | Force x => if bool_decide (q = pid /\ a ∈ mapped_range o x) then None else m q a
  | _ => m q a
  end.

(** The outcome of [mmap]: on success the new mapping and nothing else, at an address that nobody
    used; on failure nothing but the unmapping that [Force] does first. *)
Definition mmap_out (s : VMState) (out : Result Z * VMState) : Prop :=
  match out.1 with
  | Ok start =>
      vm_wf U K out.2
      /\ start mod opt_align o = 0
      /\ match opt_addr o with Need x | Force x => start = x | _ => True end
      /\ (forall a, a ∈ mapped_range o start -> U a)
      /\ (forall q a, a ∈ mapped_range o start -> roomed (pmap s) q a = None)
      /\ forall q a, pmap out.2 q a = if bool_decide (q = pid /\ a ∈ mapped_range o start)
                                     then Some (mapped_pcell o start a) else roomed (pmap s) q a
  | Err _ => vm_wf U K out.2 /\ forall q a, pmap out.2 q a = roomed (pmap s) q a
  | Panic => False
  end.

Lemma maps_mmap_out s s1 out :
  (forall q a, pmap s1 q a = roomed (pmap s) q a) -> maps_memory U K pid o s1 out -> mmap_out s out.
Proof.
  intros Hpm Hout. unfold maps_memory, mmap_out in *. destruct out.1 as [start|e|]; [| |done].
  - destruct Hout as (H1 & H2 & H3 & H4 & H5 & H6). split_and!; auto.
    + intros q a Ha. rewrite <- Hpm. auto.
    + intros q a. by rewrite H6, Hpm.
  - destruct Hout as [H1 H2]. split; [done|]. intros q a. by rewrite H2.
Qed.

(** The request does not reach over the end of a chunk that the process uses. *)
Definition in_one_chunk (s : VMState) : Prop :=
  match opt_addr o with
  | Force x => forall c, c ∈ mem_chunks s pid -> intersects (mapped_range o x) c = true ->
                 VMRange_is_superset_of (ck_range c) (mapped_range o x) = true
  | _ => True
  end.

Lemma requested_range x :
  opt_addr o = Hint x \/ opt_addr o = Need x \/ opt_addr o = Force x ->
  VMRange_new_with_size x (opt_size o) = Ok (mapped_range o x) /\ VMRange_wf (mapped_range o x).
Proof.
  intros Hx. pose proof (oo_bound _ Ho x Hx) as Hb. destruct (oo_request _ Ho) as (Hs & Hsa & _ & _ & Ha).
  assert (is_u64 x /\ page_aligned x) as [Hxu Hxa] by (by destruct Hx as [Hx|[Hx|Hx]]; rewrite Hx in Ha).
  split; [apply new_with_size_Ok; auto; lia|]. unfold is_u64 in Hxu.
  constructor; unfold mapped_range; cbn; try lia; auto.
  unfold page_aligned in *. by rewrite Z.add_mod, Hxa, Hsa by done.
Qed.

Lemma mmap_at_out s :
  pid <> 0 -> th_exited cur = false -> vm_wf U K s -> in_one_chunk s -> mmap_out s (mmap_at cur o s).
Proof.
  intros Hpid Hcur Hs Hlocal.
  assert (Hany : forall s, is_force (opt_addr o) = false -> vm_wf U K s -> maps_memory U K pid o s
    ((if CHUNK_DEFAULT_SIZE <? opt_size o then mmap_own_chunk cur o else mmap_default_chunks cur o) s)).
  { intros s' Hnf Hs'. destruct (_ <? _); [by apply own_chunk_maps|by apply mmap_default_maps]. }
  unfold mmap_at. cbv zeta. destruct (opt_addr o) as [|x|x|x] eqn:Hx.
  - apply (maps_mmap_out s s); [by intros; unfold roomed; rewrite Hx|by apply Hany].
  - destruct (requested_range x) as [-> _]; [by left|]. rewrite (bind_ok _ _ _ (mapped_range o x) s) by done.
    pose proof (with_addr_maps s (mapped_range o x) Hpid Hs ltac:(by rewrite Hx)) as Hm.
    apply (maps_mmap_out s s); [by intros; unfold roomed; rewrite Hx|].
    unfold mbind, M_bind, attempt. destruct (mmap_with_addr _ _ _ s) as [[start|e|] s1]; [done| |done].
    apply (maps_memory_calm U K pid o s s1 _ Hm). apply Hany; [done|apply Hm].
  - destruct (requested_range x) as [-> _]; [by right; left|]. rewrite (bind_ok _ _ _ (mapped_range o x) s) by done.
    apply (maps_mmap_out s s); [by intros; unfold roomed; rewrite Hx|]. apply with_addr_maps; auto. by rewrite Hx.
  - destruct (requested_range x) as [-> Hr]; [by right; right|]. rewrite (bind_ok _ _ _ (mapped_range o x) s) by done.
    unfold in_one_chunk in Hlocal. rewrite Hx in Hlocal.
    destruct (with_addr_force s x) as (s1 & [_ Hpm] & Hm); auto.
    apply (maps_mmap_out s s1); [|done]. intros q a. unfold roomed. by rewrite Hx.
Qed.

Lemma check_permissions_ok :
  mmap_file_check_permissions o = Ok tt \/ mmap_file_check_permissions o = Err EACCES.
Proof.
  unfold mmap_file_check_permissions. destruct (opt_initializer o); auto. rewrite file_can_read_ok, write_denied_ok.
  unfold mbind, Result_bind. destruct (file_readable _); cbn; [|by right]. case_match; auto.
Qed.

Lemma mmap_runs s :
  pid <> 0 -> th_exited cur = false -> vm_wf U K s -> in_one_chunk s ->
  enable_posix_shm && VMMapOptions_is_shared o = false ->
  match mmap_file_check_permissions o with
  | Ok _ => mmap_out s (VMManager_mmap cur o s)
  | Err e => e = EACCES /\ VMManager_mmap cur o s = (Err e, s)
  | Panic => False
  end.
Proof.
  intros Hpid Hcur Hs Hlocal Hshm. unfold VMManager_mmap.
  destruct check_permissions_ok as [-> | ->]; [|done]. rewrite (bind_ok _ _ _ tt s) by done. rewrite Hshm.
  by apply mmap_at_out.
Qed.

End one.

End mmap.
