(* ===== verification/VMKept.v ===== *)
(** Chunks outside the lists of the processes: memory that System V shared memory makes,
    uses and gives back through the manager of the user space.

    Such a chunk is lent to a process for the time of one operation, so that the
    lemmas on chunks that a process lists apply to it. *)

From stdpp Require Import gmap sorting.
From S2P Require Import Prelude Errno Effects External VMRange VMMapOptions VMFreeSpace VMRemap.
From S2P Require Import VMEpc Platform PageTracker VMArea VMAreaFacts ChunkManager PlatformChunk ChunkManagerFacts.
From S2P Require Import ChunkProtect ChunkMerge ChunkMmap ChunkFault VMChunk ShmManager VMManager.
From S2P Require Import VMManagerFacts VMManagerMunmap VMManagerExit VMManagerProtect VMManagerMmap.

Section kept.
Context {BF : Bitflags} {BV : BitVecs} {PL : Platform} {EN : Enclave} {US : UserSpace} {RB : RBTrees} {VE : VMEnv}.
Context {RE : ReliableEnclave}.
Abbreviation vmas cm := (rb_iter (cm_vmas cm)) (only parsing).
Abbreviation chunks s := (im_chunks (vs_manager s)) (only parsing).
Abbreviation free s := (im_free_manager (vs_manager s)) (only parsing).
Abbreviation pcm s := (w_pcm (vs_world s)) (only parsing).
Abbreviation content s c := (vs_cells s !! ck_internal c) (only parsing).

(** The invariant depends on the set of kept chunks only. *)
Lemma vm_wf_kept U K K' s : (forall c, K c <-> K' c) -> vm_wf U K s -> vm_wf U K' s.
Proof.
  intros HK Hs. destruct Hs. constructor; auto; intros c; rewrite <- HK; auto.
Qed.

(** The chunks of [s] with other lists. *)
Lemma vm_wf_relist U K K' s pid l :
  vm_wf U K s ->
  NoDup l -> (forall c, c ∈ l -> c ∈ chunks s) ->
  (forall c v q, c ∈ l -> content s c = Some (SingleVMA v) -> q <> pid -> c ∉ mem_chunks s q) ->
  (forall c ci, c ∈ mem_chunks s pid -> content s c = Some (MultiVMA ci) -> c ∈ l) ->
  (forall c, (c ∈ mem_chunks s pid \/ K c) -> c ∈ l \/ K' c) ->
  (forall c, K' c -> c ∈ chunks s /\ (c ∉ l) /\ (forall q, q <> pid -> c ∉ mem_chunks s q)
              /\ exists v, content s c = Some (SingleVMA v) /\ kept_area v) ->
  vm_wf U K' (trim pid l s).
Proof.
  intros Hs Hnd Hl Hsingle Hmulti Hlisted Hkept.
  constructor; try apply Hs.
  - intros q c. rewrite mem_trim. destruct (decide (q = pid)); [apply Hl|apply (vw_mem _ _ _ Hs)].
  - intros q. rewrite mem_trim. destruct (decide (q = pid)); [done|apply (vw_nodup _ _ _ Hs)].
  - intros p q c v Hv. rewrite !mem_trim.
    destruct (decide (p = pid)) as [->|Hp], (decide (q = pid)) as [->|Hq]; [done|..|by apply (vw_single _ _ _ Hs _ _ _ v)].
    + intros Hc Hcq. by destruct (Hsingle c v q).
    + intros Hcp Hc. by destruct (Hsingle c v p).
  - intros c ci q a p f Hc Hci Hv. pose proof (vw_owner _ _ _ Hs c ci q a p f Hc Hci Hv) as Hm.
    rewrite mem_trim. destruct (decide (q = pid)) as [->|]; [|done]. by apply (Hmulti c ci).
  - intros c Hc. destruct (vw_listed _ _ _ Hs c Hc) as [[q Hq]|Hk].
    + destruct (decide (q = pid)) as [->|Hqp].
      * destruct (Hlisted c) as [?|?]; [by left|left; exists pid; by rewrite mem_trim, decide_True|by right].
      * left. exists q. rewrite mem_trim. by destruct (decide (q = pid)).
    + destruct (Hlisted c) as [?|?]; [by right|left; exists pid; by rewrite mem_trim, decide_True|by right].
  - intros c Hc. destruct (Hkept c Hc) as (? & ? & ? & ?). split_and!; auto.
    intros q. rewrite mem_trim. destruct (decide (q = pid)); auto.
Qed.

(** [K] with and without a chunk. *)
Definition with_kept (c : Chunk) (K : Chunk -> Prop) : Chunk -> Prop := fun d => K d \/ d = c.
Definition without_kept (c : Chunk) (K : Chunk -> Prop) : Chunk -> Prop := fun d => K d /\ d <> c.

(** A process takes a kept chunk into its list. *)
Lemma lend U K s pid c :
  vm_wf U K s -> K c -> vm_wf U (without_kept c K) (trim pid (c :: mem_chunks s pid) s).
Proof.
  intros Hs Hk. destruct (vw_kept _ _ _ Hs c Hk) as (Hc & Hno & v & Hv & Ha).
  apply (vm_wf_relist U K); auto.
  - constructor; [apply Hno|apply (vw_nodup _ _ _ Hs)].
  - intros d [->|Hd]%elem_of_cons; [done|by eapply vw_mem].
  - intros d v' q [->|Hd]%elem_of_cons Hv' Hq; [apply Hno|by apply (single_alone _ _ _ Hs pid d v')].
  - intros d ci Hd _. by right.
  - intros d Hd. destruct (decide (d = c)) as [->|Hne]; [left; by left|].
    destruct Hd as [Hd|Hd]; [left; by right|right; by split].
  - intros d [Hd Hne]. destruct (vw_kept _ _ _ Hs d Hd) as (? & Hnod & ?). split_and!; auto.
    rewrite not_elem_of_cons. auto.
Qed.

(** A process drops a chunk from its list, and the chunk is kept. *)
Lemma keep U K s pid c l v :
  vm_wf U K s -> NoDup l -> c ∉ l -> (forall d, d ∈ mem_chunks s pid <-> d = c \/ d ∈ l) ->
  content s c = Some (SingleVMA v) -> kept_area v -> vm_wf U (with_kept c K) (trim pid l s).
Proof.
  intros Hs Hnd Hcl Hmem Hv Ha. assert (Hcm : c ∈ mem_chunks s pid) by (apply Hmem; by left).
  apply (vm_wf_relist U K); auto.
  - intros d Hd. apply (vw_mem _ _ _ Hs pid), Hmem. by right.
  - intros d v' q Hd Hv' Hq. apply (single_alone _ _ _ Hs pid d v'); auto. apply Hmem. by right.
  - intros d ci Hd Hci. apply Hmem in Hd as [->|]; [congruence|done].
  - intros d [[->|Hd]%Hmem|Hd]; [by right; right|by left|by right; left].
  - intros d [Hd| ->].
    + destruct (vw_kept _ _ _ Hs d Hd) as (? & Hno & ?). split_and!; auto.
      intros Hdl. apply (Hno pid), Hmem. by right.
    + split_and!; eauto using vw_mem. intros q Hq. by apply (single_alone _ _ _ Hs pid c v).
Qed.

Lemma kept_range_free U K s c q d :
  vm_wf U K s -> K c -> d ∈ mem_chunks s q -> ck_range d <> ck_range c.
Proof.
  intros Hs Hk Hd Heq. destruct (vw_kept _ _ _ Hs c Hk) as (Hc & Hno & _).
  destruct (chunk_range_wf _ _ _ Hs c Hc) as (_ & Hne & _).
  assert (d = c) as ->; [|by apply (Hno q)].
  apply (vw_disjoint _ _ _ Hs d c (vm_start (ck_range c))); [by eapply vw_mem|done|rewrite Heq|]; vmrange_unfold; lia.
Qed.

(** No process maps memory of a kept chunk. *)
Lemma kept_private U K s c q a : vm_wf U K s -> K c -> a ∈ ck_range c -> pmap s q a = None.
Proof.
  intros Hs Hk Ha. destruct (vw_kept _ _ _ Hs c Hk) as (Hc & Hno & _).
  apply pmap_out. intros (d & Hd & Hda). apply (Hno q).
  by rewrite <- (vw_disjoint _ _ _ Hs d c a); eauto using vw_mem.
Qed.

(** What a process sees depends on the chunks it lists. *)
Lemma pmap_frame U K s s' q a :
  vm_wf U K s -> (forall q, mem_chunks s' q = mem_chunks s q) ->
  (forall d, d ∈ mem_chunks s q -> content s' d = content s d) -> pmap s' q a = pmap s q a.
Proof.
  intros Hs Hm Hcells. unfold pmap. rewrite Hm. destruct (chunk_at (mem_chunks s q) a) as [d|] eqn:Hd; [|done]. cbn.
  apply chunk_at_Some in Hd as [Hd _]. by rewrite Hcells.
Qed.

(** ** Making a chunk *)

Lemma hash_insert_drop c l :
  NoDup l -> (forall d, d ∈ l -> ck_range d <> ck_range c) ->
  NoDup (hash_insert c l) /\ (c ∉ l) /\ forall d, d ∈ hash_insert c l <-> d = c \/ d ∈ l.
Proof.
  intros Hnd Hne. destruct (hash_insert_spec c l Hnd Hne) as [? ?]. split_and!; auto.
  intros Hc. by apply (Hne c).
Qed.

(** Anonymous memory that can be read and written. *)
Definition segment_options (o : VMMapOptions) : Prop :=
  options_ok o /\ opt_perms o = VMPerms_DEFAULT /\ VMInitializer_backed_file (opt_initializer o) = None.

Lemma make_kept U K cur o s :
  vm_wf U K s -> segment_options o ->
  match mmap_chunk cur o s with
  | (Ok c, s') =>
      vm_wf U (with_kept c K) s' /\ ~ K c /\ (forall q a, pmap s' q a = pmap s q a)
      /\ (forall q, mem_chunks s' q = mem_chunks s q)
      /\ ck_range c = mapped_range o (vm_start (ck_range c))
      /\ forall a, a ∈ ck_range c -> U a /\ ~ in_chunks a (chunks s)
  | (Err _, s') => vm_wf U K s' /\ (forall q a, pmap s' q a = pmap s q a) /\ (forall q, mem_chunks s' q = mem_chunks s q)
  | (Panic, _) => False
  end.
Proof.
  intros Hs (Ho & Hperms & Hfile). pose proof (mmap_chunk_makes U K cur o Ho s Hs) as Hmk. unfold makes_chunk in Hmk.
  destruct (mmap_chunk cur o s) as [[c|e|] s1]; cbn [fst snd] in Hmk; [| |done].
  2: { destruct Hmk as (w' & -> & Hwf & Hpm). by split_and!. }
  destruct Hmk as (Hr & _ & _ & Hfree & (v & Hv & Hcell) & Hprocs & Hsw & Hpm).
  set (s2 := u_mem (th_pid cur) (hash_insert c) s1) in *. pose proof (switch_wf _ _ _ _ _ _ _ Hs Hsw) as Hs2.
  assert (Hm1 : forall q, mem_chunks s1 q = mem_chunks s q) by (intros q; unfold mem_chunks, get_proc; by rewrite Hprocs).
  assert (Hout : forall a, a ∈ ck_range c -> U a /\ ~ in_chunks a (chunks s)).
  { intros a Ha. by apply (vw_free _ _ _ Hs), Hfree. }
  assert (Hcc : c ∈ chunks s2) by (apply (sw_chunks _ _ _ _ _ Hsw); right; by left).
  destruct (chunk_range_wf _ _ _ Hs2 c Hcc) as (_ & Hne & _).
  assert (Hst : vm_start (ck_range c) ∈ ck_range c) by (vmrange_unfold; lia).
  destruct (hash_insert_drop c (mem_chunks s1 (th_pid cur))) as (Hnd & Hcl & Hin).
  { rewrite Hm1. apply (vw_nodup _ _ _ Hs). }
  { intros d Hd Heq. rewrite Hm1 in Hd. destruct (Hout _ Hst) as [_ []]. exists d. rewrite Heq.
    split; [by eapply vw_mem|done]. }
  assert (Hkc : kept_area v).
  { pose proof (Hcell 0) as Hc0. unfold cell, mapped_cell, file_pos in Hc0. rewrite Hfile in Hc0.
    split; [congruence|]. by destruct (va_file_backed v). }
  assert (Hmem2 : mem_chunks s2 (th_pid cur) = hash_insert c (mem_chunks s1 (th_pid cur)))
    by (unfold s2; by rewrite mem_u_mem, decide_True).
  assert (Hwf : vm_wf U (with_kept c K) (trim (th_pid cur) (mem_chunks s1 (th_pid cur)) s2)).
  { apply (keep U K s2 (th_pid cur) c _ v); auto.
    - rewrite Hm1. apply (vw_nodup _ _ _ Hs).
    - intros d. by rewrite Hmem2. }
  split_and!; auto.
  - eapply vm_wf_same; [exact Hwf|done..|]. intros q. rewrite mem_trim. destruct (decide (q = th_pid cur)) as [->|]; [done|].
    unfold s2. by rewrite mem_u_mem, decide_False.
  - intros Hk. destruct (vw_kept _ _ _ Hs c Hk) as (Hcs & _). destruct (Hout _ Hst) as [_ []]. by exists c.
  - intros q a. apply (pmap_frame U K s s1 q a Hs Hm1). intros d Hd.
    apply (sw_cells _ _ _ _ _ Hsw d); [by eapply vw_mem|apply not_elem_of_nil].
Qed.

(** ** Giving a chunk back *)

Lemma hash_remove_absent c l : (forall d, d ∈ l -> ck_range d <> ck_range c) -> hash_remove c l = l.
Proof.
  intros H. unfold hash_remove. induction l as [|d l IH]; [done|]. cbn. unfold Chunk_eq at 1.
  rewrite bool_decide_false by (intros Heq; apply (H d); [by left|done]). cbn. f_equal. apply IH. intros e He. apply H. by right.
Qed.

Lemma drop_kept U K cur c flag s :
  vm_wf U K s -> K c ->
  exists s', munmap_chunk cur c None flag s = (Ok tt, s')
    /\ vm_wf U (without_kept c K) s' /\ (forall q a, pmap s' q a = pmap s q a)
    /\ (forall q, mem_chunks s' q = mem_chunks s q).
Proof.
  intros Hs Hk. destruct (vw_kept _ _ _ Hs c Hk) as (Hc & Hno & v & Hv & Ha).
  destruct (content_of _ _ _ Hs c Hc) as (i & Hi & _ & _ & _ & Hwf). rewrite Hv in Hi. injection Hi as <-.
  destruct Hwf as (Hvw & Hvr & Hsh). destruct (run_munmap_whole cur c v flag s Hv Hvw Hvr Hsh) as (w & Hw & ->).
  destruct (exit_free U (without_kept c K) cur s c (mem_chunks s (th_pid cur)) (lend U K s _ c Hs Hk) (u_world w s))
    as (s2 & Hrun & Hs2 & _ & Hcells & Hmem & _); auto.
  assert (Hwf2 : vm_wf U (without_kept c K) s2).
  { apply (vm_wf_same U _ _ s2 Hs2); auto. intros q. rewrite mem_trim, Hmem. by destruct (decide (q = th_pid cur)) as [->|]. }
  assert (Hrem : hash_remove c (mem_chunks s2 (th_pid cur)) = mem_chunks s2 (th_pid cur)).
  { apply hash_remove_absent. intros d. rewrite Hmem. by apply (kept_range_free U K s c). }
  assert (Hpm : forall q a, pmap s2 q a = pmap s q a).
  { intros q a. apply (pmap_frame U K s s2 q a Hs Hmem). intros d Hd. apply Hcells; [by eapply vw_mem|].
    intros ->. by apply (Hno q). }
  rewrite (bind_ok _ _ _ _ _ Hrun). unfold remove_unless_exited. destruct (th_exited cur).
  - exists s2. by split_and!.
  - assert (Hm3 : forall q, mem_chunks (u_mem (th_pid cur) (hash_remove c) s2) q = mem_chunks s2 q).
    { intros q. rewrite mem_u_mem, Hrem. by destruct (decide (q = th_pid cur)) as [->|]. }
    exists (u_mem (th_pid cur) (hash_remove c) s2). split_and!; [done|by apply (vm_wf_same U _ s2)| |].
    + intros q a. unfold pmap. rewrite Hm3. apply Hpm.
    + intros q. by rewrite Hm3.
Qed.

(** ** Page faults *)

Lemma fault_kept U K cur c rip pf errcd kt s :
  vm_wf U K s -> K c -> pf ∈ ck_range c ->
  let out := Chunk_handle_page_fault cur c rip pf errcd kt s in
  if perms_allow VMPerms_DEFAULT rip pf errcd then
    match out.1 with
    | Ok _ => vm_wf U K out.2 /\ (forall q a, pmap out.2 q a = pmap s q a) /\ (forall q, mem_chunks out.2 q = mem_chunks s q)
        /\ (EPCMemType_new (page_at pf) = UserRegion -> committed_in (pcm out.2) (page_of pf) = true)
        /\ exists P, commits (pcm s) (pcm out.2) P /\ forall a, P a = true -> a ∈ ck_range c
    | Err _ => False
    | Panic => commit_fault None
    end
  else out = (Err EACCES, s).
Proof.
  intros Hs Hk Hpf. destruct (vw_kept _ _ _ Hs c Hk) as (Hc & Hno & v & Hv & Hperms & Hfile).
  destruct (content_of _ _ _ Hs c Hc) as (i & Hi & _ & _ & _ & Hwf). rewrite Hv in Hi. injection Hi as <-.
  destruct Hwf as (Hvw & Hvr & Hsh). cbv zeta. unfold Chunk_handle_page_fault.
  rewrite (bind_ok _ _ _ _ _ (run_internal c _ s Hv)). rewrite <- Hvr in Hpf.
  pose proof (area_page_fault (vs_world s) v rip pf errcd kt (vw_pcm _ _ _ Hs) Hvw Hpf) as Hout.
  unfold access_allowed in Hout. rewrite Hperms in Hout. fold (perms_allow VMPerms_DEFAULT rip pf errcd) in Hout.
  unfold mbind, M_bind, in_world.
  destruct (VMArea_handle_page_fault v rip pf errcd kt (vs_world s)) as [[v'|e|] w'].
  - destruct Hout as (-> & Hv' & Hr' & Hp' & Hf' & Ha' & Hpage & Hcom & _).
    assert (exists P, commits (pcm s) (w_pcm w') P /\ forall a, P a = true -> a ∈ ck_range c) as (P & HP & HPc).
    { eexists. split; [exact Hcom|]. intros a Ha. rewrite <- Hvr. exact (fault_pages _ _ _ _ _ _ Hvw Hpf Ha). }
    set (s' := u_world w' (u_cell c (SingleVMA v') s)).
    assert (Hwf' : vm_wf U K s').
    { set (s0 := trim (th_pid cur) (c :: mem_chunks s (th_pid cur)) s).
      pose proof (lend U K s (th_pid cur) c Hs Hk) as Hs0. fold s0 in Hs0.
      assert (Hm0 : mem_chunks s0 (th_pid cur) = c :: mem_chunks s (th_pid cur)) by (unfold s0; by rewrite mem_trim, decide_True).
      destruct (single_update U _ cur s0 c v v' w' _ Hs0 ltac:(rewrite Hm0; by left) Hv HP) as [Hs1 _]; auto; [congruence|
        unfold VMArea_is_shared in *; by rewrite Ha'|].
      apply (vm_wf_kept U (with_kept c (without_kept c K))).
      { intros d. unfold with_kept, without_kept. split; [by intros [[? _]| ->]|].
        intros Hd. destruct (decide (d = c)); [by right|by left]. }
      eapply vm_wf_same; [apply (keep U _ _ (th_pid cur) c (mem_chunks s (th_pid cur)) v' Hs1)|done..|].
      - apply (vw_nodup _ _ _ Hs).
      - apply Hno.
      - intros d. change (d ∈ mem_chunks s0 (th_pid cur) <-> d = c \/ d ∈ mem_chunks s (th_pid cur)). rewrite Hm0. apply elem_of_cons.
      - cbn. by rewrite lookup_insert_eq.
      - unfold kept_area. by rewrite Hp', Hf'.
      - intros q. rewrite mem_trim. destruct (decide (q = th_pid cur)) as [->|Hq]; [done|].
        change (mem_chunks s q = mem_chunks s0 q). unfold s0. by rewrite mem_trim, decide_False. }
    split_and!; [exact Hwf'| |done| |].
    + intros q a. apply (pmap_frame U K s s' q a Hs); [done|]. intros d Hd. cbn. apply lookup_insert_ne. intros Heq.
      apply (Hno q). by rewrite (vw_cells _ _ _ Hs c d); eauto using vw_mem.
    + intros Ht. apply Hpage. by rewrite <- (page_type _ _ _ Hvw Hpf).
    + by exists P.
  - destruct Hout as (-> & -> & ->). f_equal. apply u_world_same.
  - destruct Hout as (-> & _ & HF). unfold VMArea_backed_file in HF. by rewrite Hfile in HF.
Qed.

End kept.
