(* ===== verification/VMLifetime.v ===== *)
(** Chunks that outlive their release: executions of [VMManager] by several processes
    after which two of them own the same memory. *)

From stdpp Require Import gmap.
From S2P Require Import Prelude Errno Effects External VMRange VMMapOptions VMFreeSpace VMRemap.
From S2P Require Import VMEpc PageTracker VMArea VMAreaFacts ChunkManager ChunkMerge VMChunk ShmManager VMManager.

Section executions.
#[local] Existing Instances bitflags_bits bitvec_list example_space rbtree_list flat_platform file_enclave.

(** Sets are iterated in the reverse order of insertion, and no lock is contended. *)
Definition quiet_env (posix_shm : bool) : VMEnv := {|
  enable_posix_shm := posix_shm;
  chunk_busy _ := false;
  hash_order l := l;
  hash_order_perm l := Permutation_refl l;
|}.

(** The LibOS with [size] bytes of user memory from [2^28] on, before any process. *)
Definition fresh_state (size : Z) : Result VMState :=
  im ← InternalVMManager_init (mkVMRange (2 ^ 28) (2 ^ 28 + size)) None;
  Ok (mkVMState im ∅ 1 ∅ (mkWorld bitvec_list flat_platform (fun _ => 0) ∅)).

Definition run_fresh {A} (size : Z) (c : M VMState A) : Result A :=
  s ← fresh_state size; (c s).1.

Definition running (pid : Z) : Thread := mkThread pid false.
Definition exiting (pid : Z) : Thread := mkThread pid true.

Definition page : VMMapOptions := mkVMMapOptions 4096 4096 VMPerms_DEFAULT Any DoNothing CommitOnDemand.

Definition file_page_at (write_back : bool) (addr : VMMapAddr) (file : FileRef) : VMMapOptions :=
  mkVMMapOptions 4096 4096 VMPerms_DEFAULT addr (InitFileBacked (mkFileBacked file 0 write_back)) CommitNow.

Definition byte_at (a : Z) : M VMState Z := fun s => (Ok (w_mem (vs_world s) a), s).

(** * Default chunks *)

(** Processes 1 and 2 map a page each; there is room for one chunk only. Process 2
    unmaps its page, process 1 exits. Then processes 3 and 2 map a page. *)
Definition shared_default_chunk : M VMState (Z * Z) :=
  let VE := quiet_env false in
  _ ← VMManager_mmap (running 1) page;
  a ← VMManager_mmap (running 2) page;
  _ ← VMManager_munmap (running 2) a 4096;
  _ ← VMManager_free_chunks_when_exit (exiting 1);
  a3 ← VMManager_mmap (running 3) page;
  a2 ← VMManager_mmap (running 2) page;
  ok (a3, a2).

(** C9: a chunk without areas is freed when a process that uses it exits, although
    another process may still list it. Two processes share a default chunk, one
    unmaps all it has there and the other exits: the chunk goes back to the free
    list. The first process still allocates in it, and it gets the same address
    as a third process to which the memory was given anew. *)
Theorem default_chunk_use_after_free :
  run_fresh CHUNK_DEFAULT_SIZE shared_default_chunk = Ok (2 ^ 28, 2 ^ 28).
Proof. vm_compute. reflexivity. Qed.

(** * Shared file mappings *)

(** Processes 1 and 2 map file 7 shared and unmap it. Process 3 maps a page of
    file 8 privately at the address that became free, and reads it. Process 1
    exits; process 3 reads again, and process 4 asks for a page. *)
Definition shared_file_chunk : M VMState (Z * Z * Z * Z) :=
  let VE := quiet_env true in
  a ← VMManager_mmap (running 1) (file_page_at true Any 7);
  b ← VMManager_mmap (running 2) (file_page_at true Any 7);
  _ ← VMManager_munmap (running 1) a 4096;
  _ ← VMManager_munmap (running 2) b 4096;
  c ← VMManager_mmap (running 3) (file_page_at false (Need a) 8);
  before ← byte_at c;
  _ ← VMManager_free_chunks_when_exit (exiting 1);
  after ← byte_at c;
  d ← VMManager_mmap (running 4) (file_page_at false (Need a) 8);
  ok (c, before, after, d).

(** a process that unmaps a shared file while others use it keeps listing its
    chunk. When the last of the others unmaps it, the chunk is freed; when the
    first process exits, it is freed once more. Memory that a third process
    mapped there in between is filled with zeros, and a fourth
    process gets the same address. *)
Theorem shared_chunk_double_free :
  run_fresh (2 ^ 26) shared_file_chunk = Ok (2 ^ 28, 171, 0, 2 ^ 28).
Proof. vm_compute. reflexivity. Qed.

(** * Mappings across chunks *)

Definition anonymous_at (addr size : Z) : VMMapOptions :=
  mkVMMapOptions size 4096 VMPerms_DEFAULT (Force addr) DoNothing CommitOnDemand.

(** A process maps the third of four pages, then all four with [MAP_FIXED], and
    touches each of them. *)
Definition fixed_across_chunk : M VMState (Z * list (Result unit)) :=
  let VE := quiet_env false in
  let touch a := attempt (VMManager_handle_page_fault (running 1) None 0 a 0 false) in
  _ ← VMManager_mmap (running 1) (anonymous_at (2 ^ 28 + 8192) 4096);
  a ← VMManager_mmap (running 1) (anonymous_at (2 ^ 28) 16384);
  r0 ← touch (2 ^ 28);
  r1 ← touch (2 ^ 28 + 4096);
  r2 ← touch (2 ^ 28 + 8192);
  r3 ← touch (2 ^ 28 + 12288);
  ok (a, [r0; r1; r2; r3]).

(** [MAP_FIXED] over more than one chunk does not map what lies before the
    first or after the last chunk it meets. The call succeeds and returns the
    address asked for, but only the page that was a chunk before is mapped. *)
Theorem fixed_mmap_maps_part :
  run_fresh (2 ^ 26) fixed_across_chunk
  = Ok (2 ^ 28, [Err ENOMEM; Err ENOMEM; Ok tt; Err ENOMEM]).
Proof. vm_compute. reflexivity. Qed.

End executions.
