(* ===== verification/VMSystem.v ===== *)
(** The memory of all processes: sequences of system calls, page faults and exits
    refine a map from processes and addresses to what is mapped there. *)

From stdpp Require Import gmap sorting.
From S2P Require Import Prelude Errno Effects External VMRange VMMapOptions VMFreeSpace VMRemap.
From S2P Require Import VMEpc Platform PageTracker VMArea VMAreaFacts ChunkManager PlatformChunk ChunkManagerFacts.
From S2P Require Import ChunkProtect ChunkMerge ChunkMmap ChunkFault VMChunk ShmManager VMManager.
From S2P Require Import MemUtil SysVShm PlatformManager.
From S2P Require Import VMManagerFacts VMManagerMunmap VMManagerExit VMManagerProtect VMManagerMmap VMLifetime.

Section system.
Context {BF : Bitflags} {BV : BitVecs} {PL : Platform} {EN : Enclave} {US : UserSpace} {RB : RBTrees} {VE : VMEnv}.
Context {RE : ReliableEnclave}.
Abbreviation chunks s := (im_chunks (vs_manager s)) (only parsing).
Abbreviation free s := (im_free_manager (vs_manager s)) (only parsing).
Abbreviation pcm s := (w_pcm (vs_world s)) (only parsing).

(** * The initial state *)

(** The addresses that the manager hands out. *)
Definition user_memory (vm_range : VMRange) (a : Z) : Prop :=
  a ∈ vm_range /\ forall gap, user_space_gap = Some gap -> ~ a ∈ gap.

Definition layout_ok (vm_range : VMRange) : Prop :=
  VMRange_wf vm_range /\ vm_start vm_range < vm_end vm_range /\ vm_end vm_range <= addr_limit
  /\ forall gap, user_space_gap = Some gap ->
     VMRange_wf gap /\ vm_start gap < vm_end gap /\ VMRange_is_superset_of vm_range gap = true.

Definition initial_state (im : InternalVMManager) (w : World BV PL) : VMState := mkVMState im ∅ 1 ∅ w.

(** No chunk is kept outside the lists of the processes. *)
Definition no_chunks (c : Chunk) : Prop := False.

Lemma layout_user vm_range : layout_ok vm_range -> user_ok (user_memory vm_range).
Proof.
  intros (Hr & _ & Hlim & Hgap). split.
  - intros a [Ha _]. destruct Hr. vmrange_unfold. lia.
  - intros gap Hg. destruct (Hgap gap Hg) as (? & ? & _). split_and!; auto. intros a Ha [_ Hno]. by apply (Hno gap Hg).
Qed.

(** The free list at the start. *)
Lemma init_free vm_range :
  layout_ok vm_range ->
  exists l, InternalVMManager_init vm_range user_space_gap = Ok (mkInternalVMManager [] l ∅)
    /\ free_ok l /\ (forall a, in_ranges a l <-> user_memory vm_range a)
    /\ ranges_size l + match user_space_gap with Some gap => VMRange_size gap | None => 0 end = VMRange_size vm_range.
Proof.
  intros (Hr & Hne & Hlim & Hgap). unfold InternalVMManager_init, user_memory.
  assert (Hok : free_ok [vm_range]).
  { split_and!; [|by constructor..]. destruct Hr. constructor; [lia|done|constructor]. }
  assert (Hone : forall a, in_ranges a [vm_range] <-> a ∈ vm_range).
  { intros a. unfold in_ranges. split; [intros (x & Hx & Ha); by apply list_elem_of_singleton in Hx as ->|].
    intros Ha. exists vm_range. split; [by left|done]. }
  destruct user_space_gap as [gap|] eqn:Hug.
  - destruct (Hgap gap eq_refl) as (Hg & Hgne & Hsup). unfold VMRange_is_superset_of in Hsup. boolprop.
    assert (Hreq : request_ok (VMRange_size gap) PAGE_SIZE (Force (vm_start gap))).
    { rewrite VMRange_size_wf by done. destruct Hg. split_and!; try done; [lia| |unfold is_u64; lia].
      unfold page_aligned in *. rewrite Zminus_mod, wf_start_aligned, wf_end_aligned. done. }
    destruct (alloc_need [vm_range] (VMRange_size gap) PAGE_SIZE (vm_start gap) Hok) as [[_ [l Hl]]|[Hno _]].
    + exact Hreq.
    + apply Hg.
    + rewrite <- alloc_force_eq in Hl.
      destruct (alloc_sound _ _ _ _ _ _ Hok Hreq Hl) as (_ & _ & _ & _ & _ & _ & Hlok & Hin).
      destruct (alloc_free_inverse _ _ _ _ _ _ Hok Hreq Hl) as [_ Hsum].
      unfold FreeSpace_new. rewrite Hl. exists l. split; [done|]. split_and!; auto.
      * intros a. rewrite Hin, Hone. assert (Hgr : mkVMRange (vm_start gap) (vm_start gap + VMRange_size gap) = gap).
        { rewrite VMRange_size_wf by done. destruct gap as [x y]. cbn. f_equal. lia. }
        rewrite Hgr. naive_solver.
      * cbn in Hsum. lia.
    + destruct Hno. intros x Hx. rewrite VMRange_size_wf in Hx by done. apply Hone. vmrange_unfold. lia.
  - exists [vm_range]. split; [done|]. split_and!; auto; [|cbn; lia]. intros a. rewrite Hone. naive_solver.
Qed.

Lemma init_wf vm_range im (w : World BV PL) :
  layout_ok vm_range -> pcm_wf (w_pcm w) -> InternalVMManager_init vm_range user_space_gap = Ok im ->
  vm_wf (user_memory vm_range) no_chunks (initial_state im w) /\ forall q a, pmap (initial_state im w) q a = None.
Proof.
  intros Hl Hg Him. destruct (init_free vm_range Hl) as (l & Hl0 & Hlok & Hin & _). rewrite Hl0 in Him.
  injection Him as <-. set (s := initial_state _ w).
  assert (Hnil : forall c, c ∈ chunks s -> False) by (intros c Hc; by apply not_elem_of_nil in Hc).
  assert (Hmem : forall q, mem_chunks s q = []) by (intros q; unfold mem_chunks, get_proc; cbn; by rewrite lookup_empty).
  assert (Hmn : forall q c, c ∈ mem_chunks s q -> False) by (intros q c; rewrite Hmem; apply not_elem_of_nil).
  assert (Hno : forall a, ~ in_chunks a (chunks s)) by (intros a (c & Hc & _); by apply (Hnil c)).
  split.
  - constructor; auto; try (intros; by exfalso; eauto).
    + by apply layout_user.
    + constructor.
    + intros a. cbn. rewrite Hin. split; [by split|tauto].
    + intros a Ha. by destruct (Hno a).
    + intros q. rewrite Hmem. constructor.
  - intros q a. apply pmap_out. rewrite Hmem. intros (c & Hc & _). by apply not_elem_of_nil in Hc.
Qed.

(** * The abstract machine *)

(** What every process has mapped at every address. *)
Abbreviation vmap := (Z -> Z -> option PCell) (only parsing).

Inductive vm_call :=
| CMmap (o : VMMapOptions)
| CMunmap (addr size : Z)
| CMprotect (addr size : Z) (perms : VMPerms)
| CFault (rip pf_addr errcd : Z) (kernel_triggers : bool)
| CExit.

Definition unit_result (p : Result unit * VMState) : Result Z * VMState :=
  ((_ ← p.1; Ok 0), p.2).

Definition run_call (pid : Z) (c : vm_call) (s : VMState) : Result Z * VMState :=
  match c with
  | CMmap o => VMManager_mmap (running pid) o s
  | CMunmap addr size => unit_result (VMManager_munmap (running pid) addr size s)
  | CMprotect addr size perms => unit_result (VMManager_mprotect (running pid) addr size perms s)
  | CFault rip pf errcd kt => unit_result (VMManager_handle_page_fault (running pid) None rip pf errcd kt s)
  | CExit => unit_result (VMManager_free_chunks_when_exit (exiting pid) s)
  end.

(** The process [pid] loses what it has in [X]. *)
Definition drops (pid : Z) (X : Z -> Prop) `{forall a, Decision (X a)} (m m' : vmap) : Prop :=
  forall q a, m' q a = if bool_decide (q = pid /\ X a) then None else m q a.

Definition same_map (m m' : vmap) : Prop := forall q a, m' q a = m q a.

(** The new permissions of [pid] in [X]. *)
Definition repaints (pid : Z) (X : Z -> bool) (new : VMPerms) (m m' : vmap) : Prop :=
  forall q a, m' q a = repaint pid X new q a (m q a).

(** What each call may answer and what it does to the map. [U] is the memory there is. *)
Definition spec_call (U : Z -> Prop) (pid : Z) (c : vm_call) (m : vmap) (r : Result Z) (m' : vmap) : Prop :=
  match c with
  | CMmap o =>
      let m0 := roomed (running pid) o m in
      match r with
      | Ok start =>
          start mod opt_align o = 0
          /\ match opt_addr o with Need x | Force x => start = x | _ => True end
          /\ (forall a, a ∈ mapped_range o start -> U a)
          /\ (forall q a, a ∈ mapped_range o start -> m0 q a = None)
          /\ forall q a, m' q a = if bool_decide (q = pid /\ a ∈ mapped_range o start)
                                  then Some (mapped_pcell o start a) else m0 q a
      | Err _ => same_map m m' \/ same_map m0 m'
      | Panic => False
      end
  | CMunmap addr size =>
      match r with
      | Ok _ => exists r, VMRange_new_with_size addr (align_up size PAGE_SIZE) = Ok r /\ drops pid (fun a => a ∈ r) m m'
      | Err e => same_map m m' /\ (size = 0 \/ VMRange_new_with_size addr (align_up size PAGE_SIZE) = Err e)
      | Panic => False
      end
  | CMprotect addr size new =>
      match r with
      | Ok _ => exists r, VMRange_new_with_size addr size = Ok r /\ repaints pid (fun a => bool_decide (a ∈ r)) new m m'
      | Err EACCES => exists r b, VMRange_new_with_size addr size = Ok r /\ b ∈ r
          /\ (exists p file off, m pid b = Some (p, Some (file, off, true)) /\ file_writable file = false)
          /\ repaints pid (fun a => bool_decide (a ∈ r) && (a <? b)) new m m'
      | Err _ => same_map m m'
      | Panic => False
      end
  | CFault rip pf errcd _ =>
      same_map m m'
      /\ match m pid pf with
         | None => r = Err ENOMEM
         | Some (p, _) => r = if perms_allow p rip pf errcd then Ok 0 else Err EACCES
         end
  | CExit => r = Ok 0 /\ drops pid (fun _ => True) m m'
  end.

(** The calls the refinement is about: requests of [mmap] as the system call makes them, but
    no shared file mapping under the POSIX shared-memory feature and no [MAP_FIXED] that
    reaches over the end of a chunk of the process; exits while every other process that
    lists one of the default chunks has memory in it. Without these conditions the
    refinement fails: see [shared_chunk_double_free], [fixed_mmap_maps_part] and
    [default_chunk_use_after_free]. *)
Definition call_ok (pid : Z) (c : vm_call) (s : VMState) : Prop :=
  pid <> 0
  /\ match c with
     | CMmap o => options_ok o /\ in_one_chunk (running pid) o s
                  /\ enable_posix_shm && VMMapOptions_is_shared o = false
     | CMunmap addr size => is_u64 addr /\ is_u64 size
     | CMprotect addr size _ => is_u64 addr /\ is_u64 size
     | CFault _ _ _ _ => True
     | CExit => others_use s pid (mem_chunks s pid)
     end.

(** * Refinement *)

Lemma mmap_refines U K pid o s :
  vm_wf U K s -> call_ok pid (CMmap o) s ->
  vm_wf U K (run_call pid (CMmap o) s).2
  /\ spec_call U pid (CMmap o) (pmap s) (run_call pid (CMmap o) s).1 (pmap (run_call pid (CMmap o) s).2).
Proof.
  intros Hs (Hpid & Ho & Hlocal & Hshm). cbn [run_call].
  pose proof (mmap_runs U K (running pid) o Ho s Hpid eq_refl Hs Hlocal Hshm) as Hrun.
  destruct (mmap_file_check_permissions o) as [[]|e|]; [|destruct Hrun as [_ ->]|done].
  - destruct (VMManager_mmap (running pid) o s) as [[start|e|] s']; unfold mmap_out in Hrun; cbn in *; [| |done].
    + destruct Hrun as (H1 & H2 & H3 & H4 & H5 & H6). split; [done|]. by split_and!.
    + destruct Hrun as [H1 H2]. split; [done|]. by right.
  - split; [done|]. by left.
Qed.

Lemma munmap_refines U K pid addr size s :
  vm_wf U K s -> call_ok pid (CMunmap addr size) s ->
  vm_wf U K (run_call pid (CMunmap addr size) s).2
  /\ spec_call U pid (CMunmap addr size) (pmap s) (run_call pid (CMunmap addr size) s).1
       (pmap (run_call pid (CMunmap addr size) s).2).
Proof.
  intros Hs (Hpid & Ha & Hsz). cbn [run_call]. destruct (Z.eqb_spec size 0) as [->|Hne].
  { cbn. split; [done|]. split; [done|by left]. }
  assert (Hup : is_u64 (align_up size PAGE_SIZE)).
  { destruct (decide (size + PAGE_SIZE <= u64_modulus)) as [Hle|Hgt].
    - destruct (align_up_page_spec size) as [_ ?]; [apply Hsz|done|]. destruct Hsz. unfold is_u64. lia.
    - rewrite align_up_page_overflow by (auto; lia). done. }
  pose proof (VMRange_new_with_size_spec addr (align_up size PAGE_SIZE) Ha Hup) as Hr.
  destruct (VMRange_new_with_size addr (align_up size PAGE_SIZE)) as [r|e|] eqn:Hnew.
  - destruct Hr as (Hr & _).
    destruct (munmap_runs U K (running pid) addr size r s Hs Hpid eq_refl Hne Hnew Hr) as (s' & -> & Hs' & _ & Hpm).
    cbn. split; [done|]. exists r. split; [done|]. intros q a. rewrite Hpm. apply (f_equal (fun b : bool => if b then _ else _)).
    apply bool_decide_ext. cbn. tauto.
  - assert (VMManager_munmap (running pid) addr size s = (Err e, s)) as ->; [|cbn; split; [done|]; split; [done|by right]].
    unfold VMManager_munmap. destruct (Z.eqb_spec size 0); [done|]. by rewrite Hnew.
  - done.
Qed.

Lemma mprotect_refines U K pid addr size new s :
  vm_wf U K s -> call_ok pid (CMprotect addr size new) s ->
  vm_wf U K (run_call pid (CMprotect addr size new) s).2
  /\ spec_call U pid (CMprotect addr size new) (pmap s) (run_call pid (CMprotect addr size new) s).1
       (pmap (run_call pid (CMprotect addr size new) s).2).
Proof.
  intros Hs (Hpid & Ha & Hsz). cbn [run_call].
  pose proof (VMRange_new_with_size_spec addr size Ha Hsz) as Hr.
  destruct (VMRange_new_with_size addr size) as [r|e|] eqn:Hnew; [| |done]; cycle 1.
  { assert (VMManager_mprotect (running pid) addr size new s = (Err e, s)) as ->
      by (unfold VMManager_mprotect; by rewrite Hnew).
    cbn. split; [done|]. by rewrite (proj1 Hr). }
  pose proof (mprotect_runs U K (running pid) addr size r new s Hs Hpid Ha Hsz Hnew) as Hrun. cbn [th_pid running] in Hrun.
  destruct (List.find (intersects r) (mem_chunks s pid)) as [c|].
  - destruct (VMRange_is_superset_of (ck_range c) r).
    + destruct (VMManager_mprotect (running pid) addr size new s) as [[[]|e|] s']; unfold protects_out in Hrun; cbn in Hrun |- *.
      * destruct Hrun as (H1 & _ & H3). split; [done|]. exists r. by split.
      * destruct Hrun as (-> & b & (Hb & _ & p & file & off & Hpb & Hw & _) & H1 & _ & H3). split; [done|].
        exists r, b. split_and!; auto. by exists p, file, off.
      * done.
    + rewrite Hrun. cbn. by split.
  - destruct Hrun as [-> _]. cbn. by split.
Qed.

Lemma fault_refines U K pid rip pf errcd kt s :
  vm_wf U K s -> call_ok pid (CFault rip pf errcd kt) s -> (run_call pid (CFault rip pf errcd kt) s).1 <> Panic ->
  vm_wf U K (run_call pid (CFault rip pf errcd kt) s).2
  /\ spec_call U pid (CFault rip pf errcd kt) (pmap s) (run_call pid (CFault rip pf errcd kt) s).1
       (pmap (run_call pid (CFault rip pf errcd kt) s).2).
Proof.
  intros Hs (Hpid & _) Hp. cbn [run_call] in *.
  pose proof (fault_runs U K (running pid) rip pf errcd kt s Hs Hpid) as Hrun. unfold fault_out in Hrun. cbn [th_pid running] in Hrun.
  unfold spec_call. destruct (pmap s pid pf) as [[p f]|]; [|rewrite Hrun; by split_and!].
  destruct (perms_allow p rip pf errcd); [|rewrite Hrun; by split_and!].
  destruct (VMManager_handle_page_fault _ _ _ _ _ _ s) as [[[]|e|] s']; cbn in *; [|done|done].
  destruct Hrun as (H1 & H2 & _). by split_and!.
Qed.

Lemma exit_refines U K pid s :
  vm_wf U K s -> call_ok pid CExit s ->
  vm_wf U K (run_call pid CExit s).2
  /\ spec_call U pid CExit (pmap s) (run_call pid CExit s).1 (pmap (run_call pid CExit s).2).
Proof.
  intros Hs (Hpid & Huse). cbn [run_call].
  destruct (exit_runs U K (exiting pid) s Hs Hpid eq_refl Huse) as (s' & -> & Hs' & _ & _ & Hnone & Hothers).
  cbn. split; [done|]. split; [done|]. intros q a. case_bool_decide as Hb.
  - destruct Hb as [-> _]. apply Hnone.
  - apply Hothers. cbn. tauto.
Qed.

Lemma call_refines U K pid c s :
  vm_wf U K s -> call_ok pid c s -> (run_call pid c s).1 <> Panic ->
  vm_wf U K (run_call pid c s).2 /\ spec_call U pid c (pmap s) (run_call pid c s).1 (pmap (run_call pid c s).2).
Proof.
  destruct c; auto using mmap_refines, munmap_refines, mprotect_refines, fault_refines, exit_refines.
Qed.

(** The causes of a panic. *)
Definition is_fault (c : vm_call) : bool := match c with CFault _ _ _ _ => true | _ => false end.

Lemma call_panics U K pid c s :
  vm_wf U K s -> call_ok pid c s -> (run_call pid c s).1 = Panic -> is_fault c = true /\ exists file, commit_fault file.
Proof.
  intros Hs Hok Hp. assert (H : is_fault c = true \/ spec_call U pid c (pmap s) Panic (pmap (run_call pid c s).2)).
  { destruct c; [right|right|right|by left|right]; rewrite <- Hp;
      [by apply (mmap_refines U K)|by apply (munmap_refines U K)|by apply (mprotect_refines U K)|by apply (exit_refines U K)]. }
  destruct c as [o|addr size|addr size new|rip pf errcd kt|]; cbn in H;
    [by destruct H as [|[]]..| |by destruct H as [|[? _]]].
  split; [done|]. pose proof (fault_runs U K (running pid) rip pf errcd kt s Hs (proj1 Hok)) as Hrun.
  unfold fault_out in Hrun. cbn [th_pid running] in Hrun. cbn [run_call unit_result fst] in Hp.
  destruct (VMManager_handle_page_fault _ _ _ _ _ _ s) as [[[]|e|] s']; [done|done|].
  destruct (pmap s pid pf) as [[p f]|]; [|done]. destruct (perms_allow p rip pf errcd); [eexists; exact Hrun|done].
Qed.

(** A call changes the memory of its own process only. *)
Lemma spec_call_others U pid c m r m' q a : spec_call U pid c m r m' -> q <> pid -> m' q a = m q a.
Proof.
  intros Hspec Hq. assert (Hroom : forall o, roomed (running pid) o m q a = m q a).
  { intros o. unfold roomed. destruct (opt_addr o); try done. by rewrite bool_decide_false by (cbn; tauto). }
  destruct c as [o|addr size|addr size new|rip pf errcd kt|]; cbn in Hspec.
  - destruct r as [start|e|]; [|destruct Hspec as [H|H]; by rewrite H|done].
    destruct Hspec as (_ & _ & _ & _ & H). rewrite H. by rewrite bool_decide_false by tauto.
  - destruct r as [z|e|]; [|by destruct Hspec as [H _]|done].
    destruct Hspec as (x & _ & H). rewrite H. by rewrite bool_decide_false by tauto.
  - destruct r as [z|e|]; [| |done].
    + destruct Hspec as (x & _ & H). rewrite H. unfold repaint. by rewrite bool_decide_false.
    + destruct e; try apply Hspec. destruct Hspec as (x & b & _ & _ & _ & H). rewrite H. unfold repaint.
      by rewrite bool_decide_false.
  - by destruct Hspec as [H _].
  - destruct Hspec as [_ H]. rewrite H. by rewrite bool_decide_false by tauto.
Qed.

(** The specification depends on the values of the map only. *)
Lemma spec_call_ext U pid c m1 m2 r m' :
  (forall q a, m1 q a = m2 q a) -> spec_call U pid c m1 r m' -> spec_call U pid c m2 r m'.
Proof.
  intros Hm Hspec. assert (Hroom : forall o q a, roomed (running pid) o m1 q a = roomed (running pid) o m2 q a).
  { intros o q a. unfold roomed. destruct (opt_addr o); try apply Hm. by rewrite Hm. }
  destruct c as [o|addr size|addr size new|rip pf errcd kt|]; cbn in *.
  - destruct r as [start|e|]; [|destruct Hspec as [H|H]; [left|right]; intros q a; by rewrite H|done].
    destruct Hspec as (? & ? & ? & H4 & H5). split_and!; auto; intros q a; rewrite <- Hroom; auto.
  - destruct r as [z|e|]; [|destruct Hspec as [H ?]; split; [intros q a; by rewrite H|done]|done].
    destruct Hspec as (x & Hx & H). exists x. split; [done|]. intros q a. by rewrite H, Hm.
  - destruct r as [z|e|]; [| |done].
    + destruct Hspec as (x & Hx & H). exists x. split; [done|]. intros q a. by rewrite H, Hm.
    + destruct e; try (intros q a; rewrite <- Hm; apply Hspec). destruct Hspec as (x & b & Hx & Hb & Hf & H).
      exists x, b. rewrite <- Hm. split_and!; auto. intros q a. by rewrite H, Hm.
  - rewrite <- Hm. destruct Hspec as [H ?]. split; [intros q a; by rewrite H|done].
  - destruct Hspec as [? H]. split; [done|]. intros q a. by rewrite H, Hm.
Qed.

Inductive spec_executes (U : Z -> Prop) : vmap -> list (Z * vm_call * Result Z) -> vmap -> Prop :=
| spec_nil m m' : same_map m m' -> spec_executes U m [] m'
| spec_cons m pid c r m1 l m2 :
    spec_call U pid c m r m1 -> spec_executes U m1 l m2 -> spec_executes U m ((pid, c, r) :: l) m2.

Lemma spec_executes_ext U m1 m2 l m' :
  (forall q a, m1 q a = m2 q a) -> spec_executes U m1 l m' -> spec_executes U m2 l m'.
Proof.
  intros Hm H. destruct H as [m m' H|m pid c r m3 l m4 Hspec Hrest].
  - constructor. intros q a. by rewrite H.
  - econstructor; [|exact Hrest]. by eapply spec_call_ext.
Qed.

Lemma spec_executes_others U m l m' q :
  spec_executes U m l m' -> Forall (fun x => x.1.1 <> q) l -> forall a, m' q a = m q a.
Proof.
  induction 1 as [m m' H|m pid c r m1 l m2 Hspec _ IH]; intros Hl a; [apply H|].
  apply Forall_cons_iff in Hl as [Hq Hl]. rewrite (IH Hl). by eapply spec_call_others.
Qed.

(** The check of the LibOS when it shuts down: it succeeds if no chunk is left. *)
Lemma no_chunks_clean vm_range im s :
  layout_ok vm_range -> InternalVMManager_init vm_range user_space_gap = Ok im ->
  vm_wf (user_memory vm_range) no_chunks s -> (forall q, mem_chunks s q = []) ->
  VMManager_verified_clean_when_exit (mkVMManager vm_range user_space_gap) s = true
  /\ chunks s = [] /\ free s = im_free_manager im.
Proof.
  intros Hl Him Hs Hall.
  destruct (init_free vm_range Hl) as (l0 & Hl0 & Hlok & Hin & Hsize). rewrite Hl0 in Him. injection Him as <-.
  assert (Hc : chunks s = []).
  { destruct (chunks s) as [|c cs] eqn:Hcs; [done|]. destruct (vw_listed _ _ _ Hs c) as [[q Hq]|[]]; [rewrite Hcs; by left|].
    rewrite Hall in Hq. by apply not_elem_of_nil in Hq. }
  assert (Hf : free s = l0).
  { eapply coalesced_canonical; [apply (vw_free_ok _ _ _ Hs)|apply Hlok|]. intros a. rewrite (vw_free _ _ _ Hs), Hin, Hc.
    split; [tauto|]. intros HU. split; [done|]. intros (c & Hcc & _). by apply not_elem_of_nil in Hcc. }
  split_and!; auto. unfold VMManager_verified_clean_when_exit, VMManager_free_size. rewrite Hc, Hf. cbn [length vmm_gap_range vmm_range].
  rewrite free_size_eq by done. destruct Hl as (Hr & Hne & Hlim & _). rewrite add64_small.
  - rewrite Hsize. lia.
  - rewrite Hsize, VMRange_size_wf by done. destruct Hr. lia.
Qed.

End system.

(** * Executions *)

Section executions.
Context {BF : Bitflags} {BV : BitVecs} {PL : Platform} {EN : Enclave} {EL : EnclaveLaws} {US : UserSpace}
  {RB : RBTrees} {VE : VMEnv}.
Abbreviation chunks s := (im_chunks (vs_manager s)) (only parsing).
Abbreviation free s := (im_free_manager (vs_manager s)) (only parsing).

(** A sequence of calls by processes with their answers. A panic ends the LibOS. *)
Inductive executes : VMState -> list (Z * vm_call * Result Z) -> VMState -> Prop :=
| executes_nil s : executes s [] s
| executes_cons s pid c r s1 l s2 :
    run_call pid c s = (r, s1) -> r <> Panic -> executes s1 l s2 -> executes s ((pid, c, r) :: l) s2.

(** Every call of the sequence is one of those of [call_ok] in the state it is made in. *)
Fixpoint orderly (s : VMState) (l : list (Z * vm_call * Result Z)) : Prop :=
  match l with
  | [] => True
  | (pid, c, _) :: l => call_ok pid c s /\ orderly (run_call pid c s).2 l
  end.

(** ** Platforms that fail *)

Lemma unit_result_agrees (c c' : M VMState unit) :
  agrees platform_fault c c' ->
  agrees platform_fault (fun s => unit_result (c s)) (fun s => unit_result (c' s)).
Proof.
  intros H s. unfold unit_result. destruct (H s) as [-> |[Hp HF]]; [by left|]. right. by rewrite Hp.
Qed.

Lemma run_call_agrees pid c : agrees platform_fault (run_call pid c) (run_call (EN := total_enclave EN) pid c).
Proof.
  destruct c as [o|addr size|addr size new|rip pf errcd kt|]; cbn [run_call].
  - apply mmap_agrees.
  - apply (unit_result_agrees _ _ (munmap_agrees _ _ _)).
  - apply (unit_result_agrees _ _ (mprotect_agrees _ _ _ _)).
  - apply (unit_result_agrees _ _ (fault_agrees _ _ _ _ _ _)).
  - apply (unit_result_agrees _ _ (exit_agrees _)).
Qed.

Lemma spec_call_total U pid c m r m' :
  spec_call (EN := total_enclave EN) U pid c m r m' -> spec_call U pid c m r m'.
Proof.
  destruct c; try done. cbn. destruct r as [z|e|]; try done. destruct e; try done.
  intros (x & b & Hx & Hb & (p & file & off & Hm & Hw) & H). exists x, b. split_and!; auto.
  exists p, file, off. by rewrite file_writable_total in Hw.
Qed.

(** One call on any platform. *)
Lemma call_any U K pid c s :
  vm_wf U K s -> call_ok pid c s ->
  let out := run_call pid c s in
  (out.1 = Panic /\ (platform_fault \/ (is_fault c = true /\ exists file, read_fails file)))
  \/ (out.1 <> Panic /\ vm_wf U K out.2 /\ spec_call U pid c (pmap s) out.1 (pmap out.2)).
Proof.
  intros Hs Hok. cbv zeta. destruct (run_call_agrees pid c s) as [Heq|[Hp HF]]; [|by left; auto].
  pose proof (call_refines (EN := total_enclave EN) U K pid c s Hs Hok) as Hspec.
  pose proof (call_panics (EN := total_enclave EN) U K pid c s Hs Hok) as Hcause.
  rewrite Heq. destruct (run_call (EN := total_enclave EN) pid c s) as [[z|e|] s']; cbn [fst snd] in *.
  - destruct Hspec; [done|]. right. split_and!; [done|done|by apply spec_call_total].
  - destruct Hspec; [done|]. right. split_and!; [done|done|by apply spec_call_total].
  - destruct (Hcause eq_refl) as [Hf [file HF]]. left. split; [done|].
    apply commit_fault_total in HF as [HF|(f & _ & HF)]; eauto.
Qed.

Lemma executes_refines U K s l s' :
  executes s l s' -> orderly s l -> vm_wf U K s -> vm_wf U K s' /\ spec_executes U (pmap s) l (pmap s').
Proof.
  induction 1 as [|s pid c r s1 l s2 Hrun Hp _ IH]; intros Ho Hs; [split; [done|by constructor]|].
  destruct Ho as [Hok Ho]. pose proof (call_any U K pid c s Hs Hok) as H. rewrite Hrun in H, Ho.
  destruct H as [[? _]|(_ & Hs1 & Hspec)]; [done|]. destruct (IH Ho Hs1) as [Hs2 Hrest].
  split; [done|]. econstructor; [exact Hspec|done].
Qed.

Section reachable.
Variables (vm_range : VMRange) (im : InternalVMManager) (w : World BV PL).
Hypothesis (Hlayout : layout_ok vm_range) (Hpcm : pcm_wf (w_pcm w))
  (Him : InternalVMManager_init vm_range user_space_gap = Ok im).

Lemma reached_wf l s :
  executes (initial_state im w) l s -> orderly (initial_state im w) l -> vm_wf (user_memory vm_range) no_chunks s.
Proof.
  intros He Ho. destruct (init_wf vm_range im w Hlayout Hpcm Him) as [Hs0 _]. by eapply executes_refines.
Qed.





End reachable.

End executions.

(** * Examples *)

Section examples.
#[local] Existing Instances bitflags_bits bitvec_list example_space rbtree_list flat_platform flat_enclave flat_enclave_reliable.
#[local] Instance example_env : VMEnv := quiet_env false.

Definition example_range : VMRange := mkVMRange (2 ^ 26) (2 ^ 30).

Lemma example_layout : layout_ok example_range.
Proof.
  split_and!; [by constructor|done|done|]. intros gap [= <-]. split_and!; [by constructor|done|done].
Qed.

Definition example_im : InternalVMManager :=
  match InternalVMManager_init example_range user_space_gap with Ok im => im | _ => mkInternalVMManager [] [] ∅ end.

Lemma example_init : InternalVMManager_init example_range user_space_gap = Ok example_im.
Proof. reflexivity. Qed.

Definition example_s0 : VMState := initial_state example_im empty_world.

Lemma page_options : options_ok page.
Proof. split; [exact I|intros fb [=]|by split_and!|intros a [?|[?|?]]; done]. Qed.

Lemma page_ok pid s : pid <> 0 -> call_ok pid (CMmap page) s.
Proof. intros Hp. split_and!; [exact Hp|exact page_options|exact I|reflexivity]. Qed.

(** The answers to a sequence of calls, and the state after it. *)
Fixpoint answers (s : VMState) (l : list (Z * vm_call)) : list (Z * vm_call * Result Z) :=
  match l with
  | [] => []
  | (pid, c) :: l => let out := run_call pid c s in (pid, c, out.1) :: answers out.2 l
  end.
Definition vm_after (s : VMState) (l : list (Z * vm_call)) : VMState :=
  foldl (fun s x => (run_call x.1 x.2 s).2) s l.

Definition survives (x : Z * vm_call * Result Z) : bool := match x.2 with Panic => false | _ => true end.

Lemma answers_execute l : forall s, forallb survives (answers s l) = true -> executes s (answers s l) (vm_after s l).
Proof.
  induction l as [|[pid c] l IH]; intros s Hl; [constructor|]. cbn in Hl. apply andb_true_iff in Hl as [Hp Hl].
  apply (executes_cons s pid c (run_call pid c s).1 (run_call pid c s).2); [apply surjective_pairing| |by apply IH].
  intros Hr. unfold survives in Hp. cbn in Hp. by rewrite Hr in Hp.
Qed.

Lemma orderly_step s pid c l :
  call_ok pid c s -> orderly (run_call pid c s).2 (answers (run_call pid c s).2 l) ->
  orderly s (answers s ((pid, c) :: l)).
Proof. done. Qed.

(** No process has run that lists chunks. *)
Definition no_lists (s : VMState) : bool :=
  forallb (fun x => match pv_mem_chunks x.2 with [] => true | _ => false end) (map_to_list (vs_procs s)).

Lemma no_lists_spec (s : VMState) q : no_lists s = true -> mem_chunks s q = [].
Proof.
  intros H. unfold mem_chunks, get_proc. destruct (vs_procs s !! q) as [p|] eqn:Hq; [|done].
  apply elem_of_map_to_list in Hq. unfold no_lists in H. rewrite forallb_forall in H.
  specialize (H (q, p) (proj1 (list_elem_of_In _ _) Hq)). cbn in H |- *. by destruct (pv_mem_chunks p).
Qed.

(** No chunk of the process is in the list of another. *)
Definition unshared (s : VMState) (pid : Z) : bool :=
  forallb (fun x => (x.1 =? pid) || forallb (fun c => negb (bool_decide (c ∈ pv_mem_chunks x.2))) (mem_chunks s pid))
    (map_to_list (vs_procs s)).

Lemma unshared_others_use s pid : unshared s pid = true -> others_use s pid (mem_chunks s pid).
Proof.
  intros H c ci q Hc _ Hq Hcq. exfalso. unfold mem_chunks, get_proc in Hcq.
  destruct (vs_procs s !! q) as [p|] eqn:Hp; [|by apply not_elem_of_nil in Hcq].
  unfold unshared in H. rewrite forallb_forall in H.
  specialize (H (q, p) ltac:(by apply list_elem_of_In, elem_of_map_to_list)). cbn in H.
  apply orb_true_iff in H as [H|H]; [lia|]. rewrite forallb_forall in H.
  specialize (H c ltac:(by apply list_elem_of_In)). by rewrite bool_decide_true in H.
Qed.

Lemma exit_ok pid s : pid <> 0 -> unshared s pid = true -> call_ok pid CExit s.
Proof. intros Hp Hu. split; [done|by apply unshared_others_use]. Qed.
Lemma fault_ok pid rip pf errcd kt s : pid <> 0 -> call_ok pid (CFault rip pf errcd kt) s.
Proof. by split. Qed.
Lemma mprotect_ok pid addr size new s :
  pid <> 0 -> is_u64 addr -> is_u64 size -> call_ok pid (CMprotect addr size new) s.
Proof. by split. Qed.

Ltac orderly :=
  repeat first [ exact I
               | apply orderly_step;
                 [first [ apply page_ok; discriminate | apply fault_ok; discriminate
                        | apply mprotect_ok; [discriminate|split; [discriminate|reflexivity]..]
                        | apply exit_ok; [discriminate|vm_compute; reflexivity] ]|] ].

(** Processes 1 and 2 map a page each. *)
Definition both_map : list (Z * vm_call) := [(1, CMmap page); (2, CMmap page)].
Definition mapped_state : VMState := vm_after example_s0 both_map.

(** Then process 1 writes to its page, makes it read-only and exits. *)
Definition one_ends : list (Z * vm_call) :=
  [(1, CFault 0 (2 ^ 26) 6 false); (1, CMprotect (2 ^ 26) 4096 VMPerms_READ); (1, CExit)].
Definition ended_state : VMState := vm_after mapped_state one_ends.

Lemma both_orderly : orderly example_s0 (answers example_s0 both_map).
Proof. unfold both_map. orderly. Qed.

Lemma one_orderly : orderly mapped_state (answers mapped_state one_ends).
Proof. unfold one_ends. orderly. Qed.

Lemma both_executes : executes example_s0 (answers example_s0 both_map) mapped_state.
Proof. apply answers_execute. vm_compute. reflexivity. Qed.

Lemma one_executes : executes mapped_state (answers mapped_state one_ends) ended_state.
Proof. apply answers_execute. vm_compute. reflexivity. Qed.

(** All of it, and the exit of process 2. *)
Definition whole_run : list (Z * vm_call) := both_map ++ one_ends ++ [(2, CExit)].
Definition final_state : VMState := vm_after example_s0 whole_run.

Lemma whole_orderly : orderly example_s0 (answers example_s0 whole_run).
Proof. unfold whole_run, both_map, one_ends. cbn [app]. orderly. Qed.

Lemma whole_executes : executes example_s0 (answers example_s0 whole_run) final_state.
Proof. apply answers_execute. vm_compute. reflexivity. Qed.




Lemma final_lists q : mem_chunks final_state q = [].
Proof. apply no_lists_spec. vm_compute. reflexivity. Qed.


End examples.
