(* ===== verification/SysVShmFacts.v ===== *)
(** What holds of System V shared memory: the invariant of the table of segments, and what
    every operation does to it and to the memory of the processes. *)

From stdpp Require Import gmap sorting.
From S2P Require Import Prelude Errno Effects External VMRange VMMapOptions VMFreeSpace VMRemap.
From S2P Require Import VMEpc Platform PageTracker VMArea VMAreaFacts ChunkManager PlatformChunk ChunkManagerFacts.
From S2P Require Import ChunkProtect ChunkMerge ChunkMmap ChunkFault VMChunk ShmManager VMManager MemUtil SysVShm.
From S2P Require Import VMManagerFacts VMManagerMunmap VMManagerExit VMManagerProtect VMManagerMmap VMKept.

Section facts.
Context {BF : Bitflags} {BV : BitVecs} {PL : Platform} {EN : Enclave} {US : UserSpace} {RB : RBTrees} {VE : VMEnv} {SE : ShmEnv}.
Context {RE : ReliableEnclave}.

(** * The invariant *)

(** The chunks that the segments own. *)
Definition owned (m : gmap Z ShmSegment) (c : Chunk) : Prop :=
  exists id shm, m !! id = Some shm /\ sg_chunk shm = c.

(** [n] bounds the number of attachments so far. *)
Record segments_ok (n : Z) (m : gmap Z ShmSegment) : Prop := {
  so_id id shm : m !! id = Some shm -> sg_shmid shm = id;
  so_range id : is_Some (m !! id) -> 0 <= id < SHMMNI;
  so_own i j a b : m !! i = Some a -> m !! j = Some b -> sg_chunk a = sg_chunk b -> i = j;
  so_key i j a b :
    m !! i = Some a -> m !! j = Some b -> is_destruction a = false -> is_destruction b = false ->
    sg_key a = sg_key b -> sg_key a <> IPC_PRIVATE -> i = j;
  so_count id shm : m !! id = Some shm -> Z.of_nat (size (sg_process_set shm)) <= shm_nattach shm <= n;
  so_dest id shm : m !! id = Some shm -> is_destruction shm = true -> shm_nattach shm <> 0;
}.

(** Nothing is ever put into the set of used identifiers. *)
Record ids_ok (ids : ShmIdManager) (m : gmap Z ShmSegment) : Prop := {
  io_used : used_id ids = ∅;
  io_last : 0 <= last_alloc_id ids < SHMMNI;
  io_free : 0 <= free_num ids /\ free_num ids + Z.of_nat (size m) <= SHMMNI;
}.

Record shm_wf (U : Z -> Prop) (n : Z) (s : SysVState) : Prop := {
  sh_vm : vm_wf U (owned (shm_segments s)) (sv_vm s);
  sh_segments : segments_ok n (shm_segments s);
  sh_ids : ids_ok (shmid_manager s) (shm_segments s);
}.

(** The processes keep what they have mapped, and their lists. *)
Definition quiet (vm vm' : VMState) : Prop :=
  (forall q a, pmap vm' q a = pmap vm q a) /\ forall q, mem_chunks vm' q = mem_chunks vm q.

#[export] Instance quiet_refl : Reflexive quiet.
Proof. by split. Qed.
#[export] Instance quiet_trans : Transitive quiet.
Proof. intros x y z [H1 H2] [H3 H4]. split; intros; [by rewrite H3|by rewrite H4]. Qed.

(** * Finding segments *)

Lemma find_segment_Some p s shm :
  find_segment p s = Some shm -> exists id, shm_segments s !! id = Some shm /\ p shm = true.
Proof.
  unfold find_segment. destruct (List.find _ _) as [[id x]|] eqn:Hf; [|done]. intros [= <-].
  apply List.find_some in Hf as [Hin Hp]. apply list_elem_of_In in Hin.
  rewrite seg_order_perm in Hin. apply elem_of_map_to_list in Hin. eauto.
Qed.

Lemma find_segment_None p s id shm :
  find_segment p s = None -> shm_segments s !! id = Some shm -> p shm = false.
Proof.
  unfold find_segment. destruct (List.find _ _) eqn:Hf; [done|]. intros _ Hm.
  apply (List.find_none _ _ Hf (id, shm)). apply list_elem_of_In. rewrite seg_order_perm. by apply elem_of_map_to_list.
Qed.

(** Whatever the order, the segment with a property that only one has is found. *)
Lemma find_segment_unique p s id shm :
  shm_segments s !! id = Some shm -> p shm = true ->
  (forall j x, shm_segments s !! j = Some x -> p x = true -> j = id) ->
  find_segment p s = Some shm.
Proof.
  intros Hm Hp Hu. destruct (find_segment p s) as [x|] eqn:Hf.
  - apply find_segment_Some in Hf as (j & Hj & Hpj). rewrite (Hu j x Hj Hpj) in Hj. congruence.
  - rewrite (find_segment_None p s id shm Hf Hm) in Hp. done.
Qed.

(** * The table *)

Lemma owned_insert_same m id a b c :
  m !! id = Some a -> sg_chunk b = sg_chunk a -> owned (<[id := b]> m) c <-> owned m c.
Proof.
  intros Ha Hb. unfold owned. split; intros (i & x & Hi & Hx).
  - apply lookup_insert_Some in Hi as [[<- <-]|[_ Hi]]; [exists id, a; split; congruence|eauto].
  - destruct (decide (i = id)) as [->|Hne].
    + exists id, b. rewrite lookup_insert_eq. split; congruence.
    + exists i, x. by rewrite lookup_insert_ne.
Qed.

Lemma owned_insert_new m id b c :
  m !! id = None -> owned (<[id := b]> m) c <-> with_kept (sg_chunk b) (owned m) c.
Proof.
  intros Hn. unfold owned, with_kept. split.
  - intros (i & x & Hi & Hx). apply lookup_insert_Some in Hi as [[<- <-]|[_ Hi]]; eauto.
  - intros [(i & x & Hi & Hx)| ->].
    + exists i, x. rewrite lookup_insert_ne; [done|]. intros ->. congruence.
    + exists id, b. by rewrite lookup_insert_eq.
Qed.

Lemma owned_delete n m id a c :
  segments_ok n m -> m !! id = Some a -> owned (delete id m) c <-> without_kept (sg_chunk a) (owned m) c.
Proof.
  intros Hm Ha. unfold owned, without_kept. split.
  - intros (i & x & Hi & Hx). apply lookup_delete_Some in Hi as [Hne Hi]. split; [eauto|].
    intros ->. apply Hne. symmetry. by apply (so_own _ _ Hm i id x a).
  - intros [(i & x & Hi & Hx) Hne]. exists i, x. rewrite lookup_delete_ne; [done|]. intros ->. congruence.
Qed.

Lemma segments_ok_more n n' m : n <= n' -> segments_ok n m -> segments_ok n' m.
Proof. intros Hle [H1 H2 H3 H4 H5 H6]. constructor; auto. intros id shm Hm. specialize (H5 id shm Hm). lia. Qed.

(** What a call keeps of a segment. *)
Definition same_segment (a b : ShmSegment) : Prop :=
  sg_shmid b = sg_shmid a /\ sg_key b = sg_key a /\ sg_chunk b = sg_chunk a
  /\ (is_destruction b = false -> is_destruction a = false).

Lemma segments_ok_update n n' m id a b :
  segments_ok n m -> m !! id = Some a -> same_segment a b -> n <= n' ->
  Z.of_nat (size (sg_process_set b)) <= shm_nattach b <= n' ->
  (is_destruction b = true -> shm_nattach b <> 0) ->
  segments_ok n' (<[id := b]> m).
Proof.
  intros Hm Ha (Hid & Hkey & Hck & Hd) Hle Hcount Hdest.
  assert (Hback : forall i x, <[id := b]> m !! i = Some x -> exists y, m !! i = Some y /\ same_segment y x
    /\ (i <> id -> y = x)).
  { intros i x Hi. apply lookup_insert_Some in Hi as [[<- <-]|[Hne Hi]]; [exists a; by split_and!|].
    exists x. split_and!; auto. by split_and!. }
  constructor.
  - intros i x Hi. destruct (Hback i x Hi) as (y & Hy & (-> & _) & _). by apply (so_id _ _ Hm).
  - intros i [x Hi]. destruct (Hback i x Hi) as (y & Hy & _). apply (so_range _ _ Hm). by exists y.
  - intros i j x y Hi Hj Hc. destruct (Hback i x Hi) as (x' & Hi' & (_ & _ & Hxc & _) & _).
    destruct (Hback j y Hj) as (y' & Hj' & (_ & _ & Hyc & _) & _). apply (so_own _ _ Hm i j x' y'); congruence.
  - intros i j x y Hi Hj Hdx Hdy Hk Hnk. destruct (Hback i x Hi) as (x' & Hi' & (_ & Hxk & _ & Hxd) & _).
    destruct (Hback j y Hj) as (y' & Hj' & (_ & Hyk & _ & Hyd) & _). apply (so_key _ _ Hm i j x' y'); auto; congruence.
  - intros i x Hi. apply lookup_insert_Some in Hi as [[<- <-]|[Hne Hi]]; [done|].
    pose proof (so_count _ _ Hm i x Hi). lia.
  - intros i x Hi. apply lookup_insert_Some in Hi as [[<- <-]|[Hne Hi]]; [done|]. by apply (so_dest _ _ Hm i).
Qed.

Lemma segments_ok_delete n m id : segments_ok n m -> segments_ok n (delete id m).
Proof.
  intros [H1 H2 H3 H4 H5 H6]. constructor.
  - intros i x [_ Hi]%lookup_delete_Some. auto.
  - intros i [x [_ Hi]%lookup_delete_Some]. eauto.
  - intros i j x y [_ Hi]%lookup_delete_Some [_ Hj]%lookup_delete_Some. eauto.
  - intros i j x y [_ Hi]%lookup_delete_Some [_ Hj]%lookup_delete_Some. eauto.
  - intros i x [_ Hi]%lookup_delete_Some. eauto.
  - intros i x [_ Hi]%lookup_delete_Some. eauto.
Qed.

(** A new segment with its own chunk, and with a key that no other segment can be found by. *)
Lemma segments_ok_insert n m id b :
  segments_ok n m -> m !! id = None -> 0 <= n -> 0 <= id < SHMMNI -> sg_shmid b = id -> ~ owned m (sg_chunk b) ->
  (forall i x, m !! i = Some x -> is_destruction x = false -> sg_key b <> IPC_PRIVATE -> sg_key x <> sg_key b) ->
  shm_nattach b = 0 -> sg_process_set b = ∅ -> is_destruction b = false ->
  segments_ok n (<[id := b]> m).
Proof.
  intros Hm Hn Hn0 Hr Hid Hown Hkey Hna Hps Hdb.
  assert (Hinv : forall i x, <[id := b]> m !! i = Some x -> (i = id /\ x = b) \/ (i <> id /\ m !! i = Some x)).
  { intros i x Hi. apply lookup_insert_Some in Hi as [[<- <-]|[Hne Hi]]; [by left|right; by split]. }
  constructor.
  - intros i x [[-> ->]|[_ Hi]]%Hinv; [done|by apply (so_id _ _ Hm)].
  - intros i [x [[-> ->]|[_ Hi]]%Hinv]; [done|apply (so_range _ _ Hm); by exists x].
  - intros i j x y [[-> ->]|[_ Hi]]%Hinv [[-> ->]|[_ Hj]]%Hinv Hc; [done|..|by apply (so_own _ _ Hm i j x y)].
    + destruct Hown. exists j, y. by split.
    + destruct Hown. by exists i, x.
  - intros i j x y [[-> ->]|[_ Hi]]%Hinv [[-> ->]|[_ Hj]]%Hinv Hdx Hdy Hk Hnk; [done|..|by apply (so_key _ _ Hm i j x y)].
    + by destruct (Hkey j y Hj Hdy Hnk).
    + destruct (Hkey i x Hi Hdx); [by rewrite <- Hk|done].
  - intros i x [[-> ->]|[_ Hi]]%Hinv; [|by apply (so_count _ _ Hm i)]. rewrite Hna, Hps, size_empty. lia.
  - intros i x [[-> ->]|[_ Hi]]%Hinv; [congruence|by apply (so_dest _ _ Hm i)].
Qed.

Lemma ids_ok_free ids m id :
  ids_ok ids m -> is_Some (m !! id) -> ids_ok (ShmIdManager_free_shmid ids id) (delete id m).
Proof.
  intros [Hu Hl [Hf0 Hf]] Hx. assert (Hsz : size m = S (size (delete id m))).
  { rewrite (map_size_delete_Some id m Hx). destruct (size m) eqn:Hz; [|done].
    apply map_size_empty_inv in Hz. subst. by destruct Hx. }
  constructor; cbn; [rewrite Hu; set_solver|done|]. rewrite Z.mod_small by lia. lia.
Qed.

(** ** Identifiers *)

(** The identifier that the next segment gets. *)
Definition next_shmid (ids : ShmIdManager) : Z :=
  if last_alloc_id ids + 1 =? SHMMNI then 0 else last_alloc_id ids + 1.

Lemma get_new_shmid_runs ids m :
  ids_ok ids m ->
  get_new_shmid ids = if free_num ids =? 0 then Err ENOSPC
                      else Ok (next_shmid ids, mkShmIdManager ∅ (free_num ids - 1) (next_shmid ids)).
Proof.
  intros Hi. unfold get_new_shmid. destruct (free_num ids =? 0); [done|]. rewrite (io_used _ _ Hi), size_empty. cbn.
  rewrite bool_decide_false by set_solver. done.
Qed.

Lemma next_shmid_range ids m : ids_ok ids m -> 0 <= next_shmid ids < SHMMNI.
Proof. intros Hi. pose proof (io_last _ _ Hi). unfold next_shmid. destruct (Z.eqb_spec (last_alloc_id ids + 1) SHMMNI); lia. Qed.

(** ** Dropping a segment *)

Lemma run_in_vm {A} (c : M VMState A) s r vm :
  c (sv_vm s) = (r, vm) -> in_vm c s = (r, mkSysVState (shm_segments s) (shmid_manager s) vm).
Proof. intros H. unfold in_vm. by rewrite H. Qed.

Lemma drop_runs U K cur shm s :
  vm_wf U K (sv_vm s) -> K (sg_chunk shm) -> shm_nattach shm = 0 -> sg_process_set shm = ∅ ->
  exists vm, ShmSegment_drop cur shm s = (Ok tt, mkSysVState (shm_segments s) (shmid_manager s) vm)
    /\ vm_wf U (without_kept (sg_chunk shm) K) vm /\ quiet (sv_vm s) vm.
Proof.
  intros Hs Hk Hna Hps. destruct (drop_kept U K cur (sg_chunk shm) MunmapDefault _ Hs Hk) as (vm & Hrun & Hwf & Hpm & Hm).
  exists vm. split; [|by split]. unfold ShmSegment_drop. rewrite Hna, Hps, size_empty.
  change (Z.of_nat 0 =? 0) with true. cbn [Z.eqb negb].
  rewrite (bind_ok _ _ s (Ok tt) (mkSysVState (shm_segments s) (shmid_manager s) vm)); [done|].
  unfold attempt. by rewrite (run_in_vm _ _ _ _ Hrun).
Qed.

Lemma processes_empty n m id shm :
  segments_ok n m -> m !! id = Some shm -> shm_nattach shm = 0 -> sg_process_set shm = ∅.
Proof.
  intros Hm Hi Hna. pose proof (so_count _ _ Hm id shm Hi) as Hc. rewrite Hna in Hc.
  apply leibniz_equiv, size_empty_inv. lia.
Qed.

(** A segment that nobody is attached to any more is destroyed. *)
Lemma destroy_runs U n m id a b cur s :
  segments_ok n m -> m !! id = Some a -> sg_chunk b = sg_chunk a ->
  shm_segments s = <[id := b]> m -> shm_nattach b = 0 -> sg_process_set b = ∅ ->
  vm_wf U (owned m) (sv_vm s) -> ids_ok (shmid_manager s) m ->
  exists vm, (_ ← free_shmid id; segments_remove cur id) s
             = (Ok tt, mkSysVState (delete id m) (ShmIdManager_free_shmid (shmid_manager s) id) vm)
    /\ shm_wf U n (mkSysVState (delete id m) (ShmIdManager_free_shmid (shmid_manager s) id) vm)
    /\ quiet (sv_vm s) vm.
Proof.
  intros Hm Ha Hck Hsegs Hna Hps Hvm Hids.
  set (s1 := mkSysVState (delete id m) (ShmIdManager_free_shmid (shmid_manager s) id) (sv_vm s)).
  destruct (drop_runs U (owned m) cur b s1) as (vm & Hrun & Hwf & Hq); auto.
  { exists id, a. by split. }
  exists vm. split_and!; [|constructor; cbn|done].
  - unfold free_shmid, segments_remove, set_ids, set_segments, modify, get, mbind, M_bind. cbn.
    rewrite Hsegs, lookup_insert_eq, delete_insert_eq. exact Hrun.
  - apply (vm_wf_kept U (without_kept (sg_chunk b) (owned m))); [|done].
    intros c. rewrite Hck. symmetry. by apply (owned_delete n).
  - by apply segments_ok_delete.
  - apply ids_ok_free; [done|by exists a].
Qed.

(** The table after a call that changes one segment. *)
Lemma update_wf U n n' m id a b ids vm :
  segments_ok n m -> m !! id = Some a -> same_segment a b -> n <= n' ->
  Z.of_nat (size (sg_process_set b)) <= shm_nattach b <= n' ->
  (is_destruction b = true -> shm_nattach b <> 0) ->
  vm_wf U (owned m) vm -> ids_ok ids m -> shm_wf U n' (mkSysVState (<[id := b]> m) ids vm).
Proof.
  intros Hm Ha Hsame Hle Hcount Hdest Hvm Hids. constructor; cbn.
  - eapply vm_wf_kept; [|exact Hvm]. intros c. symmetry. apply (owned_insert_same m id a b); [done|apply Hsame].
  - by eapply segments_ok_update.
  - destruct Hids as [? ? ?]. constructor; auto. rewrite map_size_insert_Some by (by exists a). done.
Qed.

End facts.
