(* ===== verification/SysVShmCalls.v ===== *)
(** The system calls of System V shared memory refine operations on an abstract table:
    for every segment its key, its range, who is attached, the count of attachments and
    whether it waits for destruction. *)

From stdpp Require Import gmap sorting.
From S2P Require Import Prelude Errno Effects External VMRange VMMapOptions VMFreeSpace VMRemap.
From S2P Require Import VMEpc Platform PageTracker VMArea VMAreaFacts ChunkManager PlatformChunk ChunkManagerFacts.
From S2P Require Import ChunkProtect ChunkMerge ChunkMmap ChunkFault VMChunk ShmManager VMManager MemUtil SysVShm.
From S2P Require Import VMManagerFacts VMManagerMunmap VMManagerExit VMManagerProtect VMManagerMmap VMKept SysVShmFacts.

(** * The abstract table *)

Record ASeg := mkASeg {
  as_key : Z;
  as_range : VMRange;
  as_dest : bool;
  as_count : Z;
  as_procs : gset Z;
}.

Abbreviation atable := (gmap Z ASeg) (only parsing).

Definition a_attach (pid : Z) (x : ASeg) : ASeg :=
  mkASeg (as_key x) (as_range x) (as_dest x) (as_count x + 1) ({[pid]} ∪ as_procs x).
Definition a_detach (pid : Z) (x : ASeg) : ASeg :=
  mkASeg (as_key x) (as_range x) (as_dest x) (as_count x - 1) (as_procs x ∖ {[pid]}).
Definition a_doom (x : ASeg) : ASeg := mkASeg (as_key x) (as_range x) true (as_count x) (as_procs x).

(** A segment that waits for destruction and is not attached any more is gone. *)
Definition a_settle (id : Z) (x : ASeg) (g : atable) : atable :=
  if as_dest x && (as_count x =? 0) then delete id g else <[id := x]> g.

(** [shmat]. A second attachment by the same process fails, and is counted nevertheless. *)
Definition a_shmat (pid id addr : Z) (g : atable) : Result Z * atable :=
  match g !! id with
  | Some x =>
      if negb (addr =? 0) && negb (addr =? vm_start (as_range x)) then (Err EINVAL, g)
      else if bool_decide (pid ∈ as_procs x)
      then (Err EINVAL, <[id := mkASeg (as_key x) (as_range x) (as_dest x) (as_count x + 1) (as_procs x)]> g)
      else (Ok (vm_start (as_range x)), <[id := a_attach pid x]> g)
  | None => (Err EINVAL, g)
  end.

(** [shmdt] *)
Definition a_shmdt (pid addr : Z) (g : atable) (r : Result Z) (g' : atable) : Prop :=
  (exists id x, g !! id = Some x /\ vm_start (as_range x) = addr
     /\ if bool_decide (pid ∈ as_procs x) then r = Ok 0 /\ g' = a_settle id (a_detach pid x) g
        else r = Err EINVAL /\ g' = g)
  \/ ((forall id x, g !! id = Some x -> vm_start (as_range x) <> addr) /\ r = Err EINVAL /\ g' = g).

(** [shmctl] *)
Definition a_shmctl (id cmd : Z) (buf : bool) (g : atable) : Result Z * atable :=
  if cmd =? IPC_RMID then
    match g !! id with Some x => (Ok 0, a_settle id (a_doom x) g) | None => (Err EINVAL, g) end
  else if cmd =? IPC_STAT then
    match g !! id with Some x => (if buf then Ok 0 else Err EFAULT, g) | None => (Err EINVAL, g) end
  else (Err EINVAL, g).

(** The exit of a process, for one segment and for all. *)
Definition a_exit_one (pid : Z) (x : ASeg) : option ASeg :=
  if bool_decide (pid ∈ as_procs x) then
    let x := a_detach pid x in
    if as_dest x && (as_count x =? 0) then None else Some x
  else Some x.
Definition a_exit (pid : Z) (g : atable) : atable := omap (a_exit_one pid) g.

(** [shmget], in a system where [m] says what is mapped and [U] what memory there is. A segment
    with the key, or a new one at addresses that are not used for anything. *)
Definition a_shmget {A} (U : Z -> Prop) (m : Z -> Z -> option A) (key size : Z) (create excl : bool)
    (g : atable) (r : Result Z) (g' : atable) : Prop :=
  match r with
  | Ok id =>
      (key <> IPC_PRIVATE /\ g' = g /\ create && excl = false
       /\ exists x, g !! id = Some x /\ as_key x = key /\ as_dest x = false /\ size <= VMRange_size (as_range x))
      \/ (g !! id = None
          /\ (key <> IPC_PRIVATE -> create = true /\ forall i x, g !! i = Some x -> as_dest x = false -> as_key x <> key)
          /\ exists range, g' = <[id := mkASeg key range false 0 ∅]> g
             /\ VMRange_wf range /\ size <= VMRange_size range < size + PAGE_SIZE
             /\ forall a, a ∈ range -> U a /\ (forall q, m q a = None)
                                      /\ forall i x, g !! i = Some x -> ~ a ∈ as_range x)
  | Err _ => g' = g
  | Panic => False
  end.

Section calls.
Context {BF : Bitflags} {BV : BitVecs} {PL : Platform} {EN : Enclave} {US : UserSpace} {RB : RBTrees} {VE : VMEnv} {SE : ShmEnv}.
Context {RE : ReliableEnclave}.

Definition abs (shm : ShmSegment) : ASeg :=
  mkASeg (sg_key shm) (ck_range (sg_chunk shm)) (is_destruction shm) (shm_nattach shm) (sg_process_set shm).
Definition table (s : SysVState) : atable := abs <$> shm_segments s.

Lemma table_lookup s id : table s !! id = abs <$> (shm_segments s !! id).
Proof. apply lookup_fmap. Qed.

Lemma table_put (m : gmap Z ShmSegment) id shm : abs <$> <[id := shm]> m = <[id := abs shm]> (abs <$> m).
Proof. apply fmap_insert. Qed.

Lemma shmat_refines U n cur now id addr s :
  shm_wf U n s -> n + 1 < u64_modulus ->
  let out := do_shmat cur now id addr s in
  shm_wf U (n + 1) out.2 /\ sv_vm out.2 = sv_vm s
  /\ (out.1, table out.2) = a_shmat (th_pid cur) id addr (table s).
Proof.
  intros Hs Hn. pose proof (sh_segments _ _ _ Hs) as Hm. unfold a_shmat. rewrite table_lookup.
  assert (Hmore : shm_wf U (n + 1) s).
  { destruct Hs. constructor; auto. eapply segments_ok_more; [|done]. lia. }
  unfold do_shmat. cbv zeta. unfold mbind, M_bind, get.
  destruct (shm_segments s !! id) as [shm|] eqn:Hi; cbn [fmap option_fmap option_map]; [|by split_and!].
  cbn [as_range abs]. destruct (_ && _); [by split_and!|]. cbn [as_procs].
  pose proof (so_count _ _ Hm id shm Hi) as Hc.
  assert (Hadd : shm_nattach shm +64 1 = shm_nattach shm + 1) by (apply add64_small; lia).
  assert (Hdone : forall b, same_segment shm b -> shm_nattach b = shm_nattach shm + 1 ->
    Z.of_nat (size (sg_process_set b)) <= Z.of_nat (size (sg_process_set shm)) + 1 ->
    shm_wf U (n + 1) (mkSysVState (<[id := b]> (shm_segments s)) (shmid_manager s) (sv_vm s))).
  { intros b Hb Hna Hsz. apply (update_wf U n _ _ id shm b); auto; try apply Hs; lia. }
  unfold put_segment, modify, lift, shm_add_pid. cbn.
  case_bool_decide as Hp; cbn.
  - split_and!; [|done|].
    + apply Hdone; cbn; [by split_and!|done|lia].
    + unfold table. cbn. rewrite table_put. by rewrite <- Hadd.
  - rewrite insert_insert_eq. split_and!; [|done|].
    + apply Hdone; cbn; [by split_and!|done|]. rewrite size_union, size_singleton by set_solver. lia.
    + unfold table. cbn. rewrite table_put. unfold a_attach, abs. cbn. by rewrite <- Hadd.
Qed.

(** After a detachment or a mark for destruction. *)
Lemma settle_runs U n m id a b cur s :
  segments_ok n m -> m !! id = Some a -> same_segment a b ->
  Z.of_nat (size (sg_process_set b)) <= shm_nattach b <= n ->
  shm_segments s = <[id := b]> m -> vm_wf U (owned m) (sv_vm s) -> ids_ok (shmid_manager s) m ->
  exists s', (if is_destruction b && (shm_nattach b =? 0) then _ ← free_shmid id; segments_remove cur id else ok tt) s
             = (Ok tt, s')
    /\ shm_wf U n s' /\ quiet (sv_vm s) (sv_vm s') /\ table s' = a_settle id (abs b) (abs <$> m).
Proof.
  intros Hm Ha Hsame Hcount Hsegs Hvm Hids. unfold a_settle. cbn [as_dest as_count abs].
  destruct (is_destruction b) eqn:Hd; [destruct (Z.eqb_spec (shm_nattach b) 0) as [Hz|Hz]|]; cbn [andb].
  - destruct (destroy_runs U n m id a b cur s) as (vm & Hrun & Hwf & Hq); auto; [apply Hsame| |].
    { apply leibniz_equiv, size_empty_inv. lia. }
    eexists. split_and!; [exact Hrun|done..|]. unfold table. cbn. apply fmap_delete.
  - exists s. split_and!; [done| |done|].
    + destruct s as [segs ids vm]. cbn in *. subst segs. by apply (update_wf U n n m id a b).
    + unfold table. rewrite Hsegs. apply table_put.
  - exists s. split_and!; [done| |done|].
    + destruct s as [segs ids vm]. cbn in *. subst segs. apply (update_wf U n n m id a b); auto; intros; congruence || lia.
    + unfold table. rewrite Hsegs. apply table_put.
Qed.

Lemma doomed shm : is_destruction (set_destruction shm) = true.
Proof.
  unfold is_destruction, set_destruction. cbn. rewrite bf_contains_law. apply Z.eqb_eq.
  apply Z.bits_inj'. intros i _. rewrite Z.land_spec, Z.lor_spec. by destruct (Z.testbit (sg_status shm) i), (Z.testbit SHM_DEST i).
Qed.

(** A call that ends without a value. *)
Definition zero_result {A} (p : Result A * SysVState) : Result Z * SysVState := ((_ ← p.1; Ok 0), p.2).

Lemma shmctl_refines U n cur now id cmd buf s :
  shm_wf U n s ->
  let out := zero_result (do_shmctl cur now id cmd buf s) in
  shm_wf U n out.2 /\ quiet (sv_vm s) (sv_vm out.2) /\ (out.1, table out.2) = a_shmctl id cmd buf (table s).
Proof.
  intros Hs. pose proof (sh_segments _ _ _ Hs) as Hm. unfold a_shmctl, do_shmctl. rewrite table_lookup. cbv zeta.
  destruct (cmd =? IPC_RMID); [|destruct (cmd =? IPC_STAT)]; [..|by (split_and!; try reflexivity)].
  - destruct (shm_segments s !! id) as [shm|] eqn:Hi; cbn [fmap option_fmap option_map].
    2: { unfold shmctl_rmshm, mbind, M_bind, get. rewrite Hi. by (split_and!; try reflexivity). }
    set (b := set_destruction (set_ctime now shm)).
    assert (Hid : sg_shmid b = id) by exact (so_id _ _ Hm id shm Hi).
    set (s1 := mkSysVState (<[id := b]> (shm_segments s)) (shmid_manager s) (sv_vm s)).
    destruct (settle_runs U n (shm_segments s) id shm b cur s1) as (s' & Hrun & Hwf & Hq & Ht); auto; try apply Hs.
    { split_and!; auto. intros Hf. unfold b in Hf. by rewrite doomed in Hf. }
    { exact (so_count _ _ Hm id shm Hi). }
    assert (Habs : abs b = a_doom (abs shm)) by (unfold abs, a_doom; cbn [as_key as_range as_count as_procs]; f_equal; apply doomed).
    unfold b in Hrun at 1. rewrite doomed in Hrun. cbn [andb] in Hrun. rewrite Habs in Ht.
    assert (Hrm : shmctl_rmshm cur now id s = (Ok tt, s')).
    { unfold shmctl_rmshm. rewrite (bind_ok get _ s s s eq_refl), Hi. cbv zeta. fold b.
      rewrite (bind_ok (put_segment id b) _ s tt s1 eq_refl). by rewrite Hid. }
    unfold mbind, M_bind. rewrite Hrm. split_and!; [done|done|]. cbn. by rewrite Ht.
  - unfold shmctl_ipcstat, mbind, M_bind, get.
    destruct (shm_segments s !! id) as [shm|] eqn:Hi; cbn [fmap option_fmap option_map]; [|by (split_and!; try reflexivity)].
    destruct buf; by (split_and!; try reflexivity).
Qed.

(** Taking a process out of a segment that has it. *)
Lemma detach_one n m id shm pid :
  segments_ok n m -> m !! id = Some shm -> n < u64_modulus -> pid ∈ sg_process_set shm ->
  shm_nattach shm -64 1 = shm_nattach shm - 1
  /\ Z.of_nat (size (sg_process_set shm ∖ {[pid]})) <= shm_nattach shm - 1 <= n.
Proof.
  intros Hm Hi Hn Hp. pose proof (so_count _ _ Hm id shm Hi) as Hc.
  assert (Hsz : size (sg_process_set shm) = S (size (sg_process_set shm ∖ {[pid]}))).
  { rewrite size_difference, size_singleton by set_solver.
    pose proof (subseteq_size {[pid]} (sg_process_set shm) ltac:(set_solver)) as H1. rewrite size_singleton in H1. lia. }
  rewrite sub64_small by lia. split; [done|lia].
Qed.

Lemma table_same s id a b ids vm :
  shm_segments s !! id = Some a -> abs b = abs a -> table (mkSysVState (<[id := b]> (shm_segments s)) ids vm) = table s.
Proof.
  intros Ha Hb. unfold table. cbn [shm_segments]. rewrite table_put, Hb. apply insert_id.
  by rewrite lookup_fmap, Ha.
Qed.

Lemma shmdt_refines U n cur now addr s :
  shm_wf U n s -> n < u64_modulus ->
  let out := zero_result (do_shmdt cur now addr s) in
  shm_wf U n out.2 /\ quiet (sv_vm s) (sv_vm out.2) /\ a_shmdt (th_pid cur) addr (table s) out.1 (table out.2).
Proof.
  intros Hs Hn. pose proof (sh_segments _ _ _ Hs) as Hm. cbv zeta. unfold do_shmdt. rewrite (bind_ok get _ s s s eq_refl).
  destruct (find_segment _ s) as [shm|] eqn:Hf.
  2: { split_and!; [done|reflexivity|right]. split; [|done]. intros id x Hx. rewrite table_lookup in Hx.
       destruct (shm_segments s !! id) as [shm|] eqn:Hi; [|done]. injection Hx as <-. cbn.
       by apply Z.eqb_neq, (find_segment_None _ _ _ _ Hf Hi). }
  apply find_segment_Some in Hf as (id & Hi & Haddr). apply Z.eqb_eq in Haddr.
  pose proof (so_id _ _ Hm id shm Hi) as Hid. pose proof (so_count _ _ Hm id shm Hi) as Hc. cbv zeta. rewrite Hid.
  set (b := set_lpid (th_pid cur) (set_dtime now shm)).
  set (s1 := mkSysVState (<[id := b]> (shm_segments s)) (shmid_manager s) (sv_vm s)).
  rewrite (bind_ok (put_segment id b) _ s tt s1 eq_refl).
  assert (Hsame : same_segment shm b) by (by split_and!).
  destruct (decide (th_pid cur ∈ sg_process_set shm)) as [Hp|Hp].
  - destruct (detach_one n _ id shm _ Hm Hi Hn Hp) as [Hsub Hcount].
    set (b2 := set_processes (sg_process_set b ∖ {[th_pid cur]}) b).
    rewrite (bind_ok _ _ s1 b2 s1) by (unfold lift, shm_remove_pid; by rewrite bool_decide_true).
    set (b3 := set_nattach (shm_nattach b2 -64 1) b2).
    set (s3 := mkSysVState (<[id := b3]> (<[id := b]> (shm_segments s))) (shmid_manager s) (sv_vm s)).
    rewrite (bind_ok (put_segment id b3) _ s1 tt s3 eq_refl).
    destruct (settle_runs U n (shm_segments s) id shm b3 cur s3) as (s' & Hrun & Hwf & Hq & Ht); auto; try apply Hs.
    { cbn. by rewrite Hsub. } { cbn. apply insert_insert_eq. }
    rewrite Hrun. split_and!; [done|done|left]. exists id, (abs shm). rewrite table_lookup, Hi. split_and!; [done..|].
    cbn [as_procs abs]. rewrite bool_decide_true by done. split; [done|]. cbn [snd zero_result]. rewrite Ht. f_equal.
    unfold abs, a_detach. cbn. by rewrite Hsub.
  - unfold lift, shm_remove_pid, mbind, M_bind. rewrite bool_decide_false by done. cbn [negb].
    split_and!; [|reflexivity|left].
    + apply (update_wf U n n (shm_segments s) id shm b); auto; try apply Hs; [lia|]. exact (so_dest _ _ Hm id shm Hi).
    + exists id, (abs shm). rewrite table_lookup, Hi. split_and!; [done..|].
      cbn [as_procs abs]. rewrite bool_decide_false by done. split; [done|]. by apply (table_same s id shm b).
Qed.

Lemma settle_lookup id x g j :
  a_settle id x g !! j = if decide (j = id) then if as_dest x && (as_count x =? 0) then None else Some x else g !! j.
Proof.
  unfold a_settle. destruct (_ && _), (decide (j = id)) as [->|Hne];
    by rewrite ?lookup_delete_eq, ?lookup_insert_eq, ?lookup_delete_ne, ?lookup_insert_ne by done.
Qed.

Lemma detach_segment_runs U n cur id s :
  shm_wf U n s -> n < u64_modulus ->
  exists s', detach_segment cur id s = (Ok tt, s') /\ shm_wf U n s' /\ quiet (sv_vm s) (sv_vm s')
    /\ forall j, table s' !! j = if decide (j = id) then table s !! id ≫= a_exit_one (th_pid cur) else table s !! j.
Proof.
  intros Hs Hn. pose proof (sh_segments _ _ _ Hs) as Hm. unfold detach_segment. rewrite (bind_ok get _ s s s eq_refl).
  assert (Hsame : (table s !! id ≫= a_exit_one (th_pid cur)) = table s !! id ->
    exists s', (Ok tt, s) = (Ok tt, s') /\ shm_wf U n s' /\ quiet (sv_vm s) (sv_vm s')
    /\ forall j, table s' !! j = if decide (j = id) then table s !! id ≫= a_exit_one (th_pid cur) else table s !! j).
  { intros Heq. exists s. split_and!; [done|done|reflexivity|]. intros j. destruct (decide (j = id)) as [->|]; [by rewrite Heq|done]. }
  rewrite table_lookup in *. destruct (shm_segments s !! id) as [shm|] eqn:Hi; [|by apply Hsame].
  unfold shm_remove_pid. cbn [fmap option_fmap option_map mbind option_bind] in *. unfold a_exit_one in Hsame |- *.
  cbn [as_procs abs] in Hsame |- *.
  case_bool_decide as Hp; cbn [negb]; [|by apply Hsame].
  destruct (detach_one n _ id shm _ Hm Hi Hn Hp) as [Hsub Hcount]. cbv zeta.
  set (b := set_nattach _ _).
  set (s1 := mkSysVState (<[id := b]> (shm_segments s)) (shmid_manager s) (sv_vm s)).
  rewrite (bind_ok (put_segment id b) _ s tt s1 eq_refl).
  destruct (settle_runs U n (shm_segments s) id shm b cur s1) as (s' & Hrun & Hwf & Hq & Ht); auto; try apply Hs.
  { by split_and!. } { cbn. by rewrite Hsub. }
  exists s'. split_and!; auto. intros j. rewrite Ht, settle_lookup. fold (table s).
  assert (Habs : abs b = a_detach (th_pid cur) (abs shm)) by (unfold abs, a_detach; cbn; by rewrite Hsub).
  by rewrite Habs.
Qed.

Lemma detach_loop U n cur (l : list (Z * ShmSegment)) : forall s,
  shm_wf U n s -> n < u64_modulus -> NoDup l.*1 ->
  exists s', for_each (fun x => detach_segment cur x.1) l s = (Ok tt, s') /\ shm_wf U n s' /\ quiet (sv_vm s) (sv_vm s')
    /\ forall j, table s' !! j = if decide (j ∈ l.*1) then table s !! j ≫= a_exit_one (th_pid cur) else table s !! j.
Proof.
  induction l as [|[id shm] l IH]; intros s Hs Hn Hnd.
  - exists s. by (split_and!; try reflexivity).
  - cbn in Hnd. apply list.NoDup_cons in Hnd as [Hid Hnd].
    destruct (detach_segment_runs U n cur id s Hs Hn) as (s1 & Hrun & Hs1 & Hq1 & Ht1).
    destruct (IH s1 Hs1 Hn Hnd) as (s2 & Hrun2 & Hs2 & Hq2 & Ht2).
    exists s2. cbn [for_each fst]. rewrite (bind_ok _ _ _ _ _ Hrun). split_and!; [done|done|by etrans|].
    intros j. rewrite Ht2, Ht1. cbn.
    destruct (decide (j ∈ l.*1)) as [Hj|Hj], (decide (j ∈ id :: l.*1)) as [Hc|Hc], (decide (j = id)) as [->|Hne]; try done; set_solver.
Qed.

Lemma detach_refines U n cur s :
  shm_wf U n s -> n < u64_modulus ->
  exists s', detach_shm_when_process_exit cur s = (Ok tt, s') /\ shm_wf U n s' /\ quiet (sv_vm s) (sv_vm s')
    /\ table s' = a_exit (th_pid cur) (table s).
Proof.
  intros Hs Hn. unfold detach_shm_when_process_exit. rewrite (bind_ok get _ s s s eq_refl).
  set (l := seg_order (map_to_list (shm_segments s))).
  assert (Hl : l.*1 ≡ₚ (map_to_list (shm_segments s)).*1) by (apply fmap_Permutation, seg_order_perm).
  destruct (detach_loop U n cur l s Hs Hn) as (s' & Hrun & Hwf & Hq & Ht).
  { rewrite Hl. apply NoDup_fst_map_to_list. }
  exists s'. split_and!; auto. apply map_eq. intros j. rewrite Ht. unfold a_exit. rewrite lookup_omap.
  destruct (decide (j ∈ l.*1)) as [Hj|Hj]; [done|].
  rewrite table_lookup. destruct (shm_segments s !! j) as [shm|] eqn:Hi; [|done]. destruct Hj.
  rewrite Hl. apply list_elem_of_fmap. exists (j, shm). split; [done|]. by apply elem_of_map_to_list.
Qed.

(** ** New segments *)

Lemma segment_build len :
  is_u64 len -> len <= SHMMAX ->
  match VMMapOptionsBuilder_build (mkBuilder (Some len) None (Some (Z.lor VMPerms_READ VMPerms_WRITE)) None None None) with
  | Ok o => segment_options o /\ len <= opt_size o < len + PAGE_SIZE
  | Err _ => True
  | Panic => False
  end.
Proof.
  intros Hu Hmax. unfold VMMapOptionsBuilder_build. cbn. destruct (Z.eqb_spec len 0) as [|Hne]; [done|].
  destruct (align_up_page_spec len) as [Hal Hup]; [apply Hu|unfold PAGE_SIZE; unfold u64_modulus in *; lia|].
  split; [|done]. split_and!; [|done|done]. split; cbn; [done|intros fb [=]| |intros a [?|[?|?]]; done].
  split_and!; try done. destruct Hu. lia.
Qed.

Lemma run_new_shmid s m :
  ids_ok (shmid_manager s) m ->
  let id := next_shmid (shmid_manager s) in
  new_shmid s = if free_num (shmid_manager s) =? 0 then (Err ENOSPC, s)
                else (Ok id, mkSysVState (shm_segments s) (mkShmIdManager ∅ (free_num (shmid_manager s) - 1) id) (sv_vm s)).
Proof.
  intros Hids. cbv zeta. unfold new_shmid, mbind, M_bind, get. rewrite (get_new_shmid_runs _ _ Hids).
  by destruct (free_num (shmid_manager s) =? 0).
Qed.

Lemma run_insert_fresh cur id shm s :
  shm_segments s !! id = None ->
  segments_insert cur id shm s = (Ok tt, mkSysVState (<[id := shm]> (shm_segments s)) (shmid_manager s) (sv_vm s)).
Proof. intros Hi. unfold segments_insert, mbind, M_bind, get. cbn. by rewrite Hi. Qed.

Lemma create_runs U n cur now key len mode s :
  shm_wf U n s -> 0 <= n -> is_u64 len -> len <= SHMMAX ->
  shm_segments s !! next_shmid (shmid_manager s) = None ->
  (forall i x, shm_segments s !! i = Some x -> is_destruction x = false -> key <> IPC_PRIVATE -> sg_key x <> key) ->
  let out := create_segment cur now key len mode s in
  shm_wf U n out.2 /\ quiet (sv_vm s) (sv_vm out.2)
  /\ match out.1 with
     | Ok id => id = next_shmid (shmid_manager s)
         /\ exists c, table out.2 = <[id := mkASeg key (ck_range c) false 0 ∅]> (table s)
            /\ c ∈ im_chunks (vs_manager (sv_vm out.2))
            /\ len <= VMRange_size (ck_range c) < len + PAGE_SIZE
            /\ forall a, a ∈ ck_range c -> U a /\ ~ in_chunks a (im_chunks (vs_manager (sv_vm s)))
     | Err _ => table out.2 = table s
     | Panic => False
     end.
Proof.
  intros Hs Hn Hu Hmax Hfresh Hkey. destruct Hs as [Hvm Hm Hids]. cbv zeta. unfold create_segment.
  pose proof (next_shmid_range _ _ Hids) as Hnr. pose proof (run_new_shmid s _ Hids) as Hid. cbv zeta in Hid.
  destruct (Z.eqb_spec (free_num (shmid_manager s)) 0) as [Hz|Hz].
  { unfold mbind, M_bind. rewrite Hid. by (split_and!; try reflexivity). }
  set (id := next_shmid (shmid_manager s)) in *. set (ids := mkShmIdManager _ _ _) in Hid.
  set (s1 := mkSysVState (shm_segments s) ids (sv_vm s)) in Hid. rewrite (bind_ok _ _ _ _ _ Hid).
  assert (Hids1 : forall m', (size m' <= S (size (shm_segments s)))%nat -> ids_ok ids m').
  { intros m' Hsz. pose proof (io_free _ _ Hids). constructor; cbn; [done|done|lia]. }
  assert (Hwf1 : forall vm, vm_wf U (owned (shm_segments s)) vm -> shm_wf U n (mkSysVState (shm_segments s) ids vm)).
  { intros vm Hvm'. constructor; cbn; auto. }
  unfold ShmSegment_new. rewrite bind_assoc. pose proof (segment_build len Hu Hmax) as Hb.
  destruct (VMMapOptionsBuilder_build _) as [o|e|]; [|split_and!; [by apply Hwf1|reflexivity|done]|done].
  destruct Hb as [Ho Hsz]. rewrite (bind_ok (lift (Ok o)) _ s1 o s1 eq_refl). rewrite bind_assoc.
  pose proof (make_kept U _ cur o (sv_vm s) Hvm Ho) as Hmk.
  destruct (mmap_chunk cur o (sv_vm s)) as [[c|e|] vm] eqn:Hrun; [| |done].
  2: { destruct Hmk as (Hvm' & Hpm & Hmem). unfold mbind, M_bind. rewrite (run_in_vm _ s1 _ _ Hrun).
       split_and!; [by apply Hwf1|by split|done]. }
  destruct Hmk as (Hvm' & Hnew & Hpm & Hmem & Hr & Hout).
  rewrite (bind_ok _ _ _ _ _ (run_in_vm _ s1 _ _ Hrun)).
  set (shm := mkShmSegment id key 0 0 0 0 mode 0 0 0 now (th_pid cur) 0 0 c ∅).
  set (s2 := mkSysVState (shm_segments s1) (shmid_manager s1) vm).
  rewrite (bind_ok (ok shm) _ s2 shm s2 eq_refl).
  rewrite (bind_ok _ _ _ _ _ (run_insert_fresh cur id shm s2 Hfresh)). cbn [fst snd ok lift].
  assert (Hdest : is_destruction shm = false) by (unfold is_destruction; by rewrite bf_contains_law).
  assert (Hcc : c ∈ im_chunks (vs_manager vm)) by (apply (vw_kept _ _ _ Hvm'); by right).
  split_and!; [constructor; cbn| |done|].
  - eapply vm_wf_kept; [|exact Hvm']. intros d. symmetry. by apply (owned_insert_new _ id shm).
  - by apply segments_ok_insert.
  - apply Hids1. rewrite map_size_insert_None by done. lia.
  - by split.
  - exists c. destruct (chunk_range_wf _ _ _ Hvm' c Hcc) as (Hcr & _). split_and!; auto.
    + unfold table. cbn [shm_segments s2 s1]. rewrite table_put. unfold abs at 1. by rewrite Hdest.
    + rewrite VMRange_size_wf by done. rewrite Hr. cbn. lia.
    + rewrite VMRange_size_wf by done. rewrite Hr. cbn. lia.
Qed.

(** ** [shmget] *)

Lemma to_file_mode_ok flg : exists mode, to_file_mode flg = Ok mode.
Proof.
  unfold to_file_mode. rewrite bf_from_bits_law.
  assert (Hz : Z.ldiff (Z.land (bf_remove (bf_remove flg IPC_CREAT) IPC_EXCL mod 2 ^ 16) FileMode_all) FileMode_all = 0).
  { apply Z.bits_inj'. intros i _. rewrite Z.ldiff_spec, Z.land_spec, Z.bits_0. by destruct (Z.testbit FileMode_all i); rewrite ?andb_false_r. }
  rewrite Hz. by eexists.
Qed.

(** The memory of a segment is a chunk. *)
Lemma table_chunk U n s i x a :
  shm_wf U n s -> table s !! i = Some x -> a ∈ as_range x -> in_chunks a (im_chunks (vs_manager (sv_vm s))).
Proof.
  intros Hs Hx Ha. rewrite table_lookup in Hx. destruct (shm_segments s !! i) as [shm|] eqn:Hi; [|done].
  injection Hx as <-. exists (sg_chunk shm). split; [|done]. apply (vw_kept _ _ _ (sh_vm _ _ _ Hs)). by exists i, shm.
Qed.

Lemma unused_address U n s a :
  shm_wf U n s -> ~ in_chunks a (im_chunks (vs_manager (sv_vm s))) ->
  (forall q, pmap (sv_vm s) q a = None) /\ forall i x, table s !! i = Some x -> ~ a ∈ as_range x.
Proof.
  intros Hs Ha. split.
  - intros q. apply pmap_out. intros (c & Hc & Hca). apply Ha. exists c. split; [|done].
    by apply (vw_mem _ _ _ (sh_vm _ _ _ Hs) q).
  - intros i x Hx Hax. apply Ha. by eapply table_chunk.
Qed.

Lemma create_refines U n cur now key len mode create excl s :
  shm_wf U n s -> 0 <= n -> is_u64 len -> len <= SHMMAX ->
  shm_segments s !! next_shmid (shmid_manager s) = None ->
  (key <> IPC_PRIVATE -> create = true
     /\ forall i x, shm_segments s !! i = Some x -> is_destruction x = false -> sg_key x <> key) ->
  let out := create_segment cur now key len mode s in
  shm_wf U n out.2 /\ quiet (sv_vm s) (sv_vm out.2)
  /\ a_shmget U (pmap (sv_vm s)) key len create excl (table s) out.1 (table out.2).
Proof.
  intros Hs Hn Hu Hmax Hfresh Hkey. cbv zeta.
  destruct (create_runs U n cur now key len mode s Hs Hn Hu Hmax Hfresh) as (Hwf & Hq & Hout).
  { intros i x Hi Hd Hk. by apply (proj2 (Hkey Hk) i). }
  split_and!; [done|done|]. unfold a_shmget. destruct (create_segment _ _ _ _ _ s).1 as [id|e|]; [|done|done].
  destruct Hout as (-> & c & Ht & Hc & Hsz & Hfree). right. split_and!.
  - by rewrite table_lookup, Hfresh.
  - intros Hk. destruct (Hkey Hk) as [Hcr Hno]. split; [done|]. intros i x Hx Hd. rewrite table_lookup in Hx.
    destruct (shm_segments s !! i) as [shm|] eqn:Hi; [|done]. injection Hx as <-. by apply (Hno i).
  - exists (ck_range c). split_and!; [done| |lia|lia|].
    + by apply (chunk_range_wf _ _ _ (sh_vm _ _ _ Hwf)).
    + intros a Ha. destruct (Hfree a Ha) as [HU Hout]. split; [done|]. by apply (unused_address U n).
Qed.

Lemma shmget_refines U n cur now key len shmflg s :
  shm_wf U n s -> 0 <= n -> is_u64 len -> len <= SHMMAX ->
  shm_segments s !! next_shmid (shmid_manager s) = None ->
  let out := do_shmget cur now key len shmflg s in
  shm_wf U n out.2 /\ quiet (sv_vm s) (sv_vm out.2)
  /\ a_shmget U (pmap (sv_vm s)) key len (bf_contains shmflg IPC_CREAT) (bf_contains shmflg IPC_EXCL)
       (table s) out.1 (table out.2).
Proof.
  intros Hs Hn Hu Hmax Hfresh. cbv zeta. unfold do_shmget.
  assert (Hfail : forall e, shm_wf U n s /\ quiet (sv_vm s) (sv_vm s)
    /\ a_shmget U (pmap (sv_vm s)) key len (bf_contains shmflg IPC_CREAT) (bf_contains shmflg IPC_EXCL) (table s) (Err e) (table s))
    by (intros e; split_and!; [done|reflexivity|done]).
  destruct (bf_contains shmflg IPC_CREAT && _); [apply Hfail|].
  destruct (to_file_mode_ok shmflg) as [mode ->]. rewrite (bind_ok (lift (Ok mode)) _ s mode s eq_refl).
  rewrite (bind_ok get _ s s s eq_refl).
  destruct (Z.eqb_spec key IPC_PRIVATE) as [->|Hk]; [by apply create_refines|].
  destruct (find_segment _ s) as [shm|] eqn:Hf.
  - apply find_segment_Some in Hf as (id & Hi & Hp). boolprop.
    destruct (bf_contains shmflg IPC_CREAT && bf_contains shmflg IPC_EXCL) eqn:Hce; [apply Hfail|].
    destruct (Z.ltb_spec (VMRange_size (ck_range (sg_chunk shm))) len) as [|Hle]; [apply Hfail|].
    split_and!; [done|reflexivity|]. left. rewrite (so_id _ _ (sh_segments _ _ _ Hs) id shm Hi).
    split_and!; auto. exists (abs shm). rewrite table_lookup, Hi. by split_and!.
  - destruct (bf_contains shmflg IPC_CREAT) eqn:Hc; cbn [negb]; [|apply Hfail].
    apply create_refines; auto. intros _. split; [done|]. intros i x Hi Hd Heq.
    pose proof (find_segment_None _ _ _ _ Hf Hi) as Hno. cbn in Hno. rewrite Hd in Hno. cbn in Hno. lia.
Qed.

End calls.
