(* ===== verification/SysVShmSystem.v ===== *)
(** Processes that map memory and share segments: sequences of memory calls, page faults,
    shared-memory calls and exits refine what each process has mapped together with an
    abstract table of segments. *)

From stdpp Require Import gmap sorting.
From S2P Require Import Prelude Errno Effects External VMRange VMMapOptions VMFreeSpace VMRemap.
From S2P Require Import VMEpc Platform PageTracker VMArea VMAreaFacts ChunkManager PlatformChunk ChunkManagerFacts.
From S2P Require Import ChunkProtect ChunkMerge ChunkMmap ChunkFault VMChunk ShmManager VMManager MemUtil SysVShm PlatformManager.
From S2P Require Import VMManagerFacts VMManagerMunmap VMManagerExit VMManagerProtect VMManagerMmap VMKept.
From S2P Require Import VMLifetime VMSystem SysVShmFacts SysVShmCalls.

Section system.
Context {BF : Bitflags} {BV : BitVecs} {PL : Platform} {EN : Enclave} {US : UserSpace} {RB : RBTrees} {VE : VMEnv} {SE : ShmEnv}.
Context {RE : ReliableEnclave}.
Abbreviation chunks s := (im_chunks (vs_manager s)) (only parsing).
Abbreviation vmap := (Z -> Z -> option PCell) (only parsing).

(** * Calls *)

Inductive sys_call :=
| SVm (c : vm_call)
| SGet (now key size shmflg : Z)
| SAt (now shmid addr shmflg : Z)
| SDt (now addr : Z)
| SCtl (now shmid cmd buf_u : Z).

(** [user_range] is the range that pointers are checked against. *)
Definition run_sys (user_range : VMRange) (pid : Z) (c : sys_call) (s : SysVState) : Result Z * SysVState :=
  match c with
  | SVm (CFault rip pf errcd kt) => zero_result (page_fault (running pid) rip pf errcd kt s)
  | SVm CExit => zero_result (exit_memory (exiting pid) s)
  | SVm c => in_vm (run_call pid c) s
  | SGet now key size shmflg => syscall_shmget (running pid) now key size shmflg s
  | SAt now shmid addr shmflg => syscall_shmat (running pid) now shmid addr shmflg s
  | SDt now addr => zero_result (do_shmdt (running pid) now addr s)
  | SCtl now shmid cmd buf_u => zero_result (syscall_shmctl user_range (running pid) now shmid cmd buf_u s)
  end.

(** The segment of the process at an address. *)
Definition shared_at (g : atable) (pid a : Z) : bool :=
  existsb (fun x => bool_decide (pid ∈ as_procs x.2) && VMRange_contains (as_range x.2) a) (map_to_list g).

(** What a process can access: what it has mapped, and the segments it is attached to, for
    reading and writing. *)
Definition sees (m : vmap) (g : atable) (pid a : Z) : option PCell :=
  match m pid a with
  | Some x => Some x
  | None => if shared_at g pid a then Some (VMPerms_DEFAULT, None) else None
  end.

Definition spec_sys (U : Z -> Prop) (user_range : VMRange) (pid : Z) (c : sys_call) (m : vmap) (g : atable)
    (r : Result Z) (m' : vmap) (g' : atable) : Prop :=
  match c with
  | SVm (CFault rip pf errcd _) =>
      same_map m m' /\ g' = g
      /\ match sees m g pid pf with
         | None => r = Err ENOMEM
         | Some (p, _) => r = if perms_allow p rip pf errcd then Ok 0 else Err EACCES
         end
  | SVm CExit => r = Ok 0 /\ drops pid (fun _ => True) m m' /\ g' = a_exit pid g
  | SVm c => spec_call U pid c m r m' /\ g' = g
  | SGet _ key size shmflg =>
      same_map m m'
      /\ match bf_from_bits ShmFlags_all (shmflg mod 2 ^ 32) with
         | Some flg => a_shmget U m key size (bf_contains flg IPC_CREAT) (bf_contains flg IPC_EXCL) g r g'
         | None => r = Err EINVAL /\ g' = g
         end
  | SAt _ shmid addr shmflg =>
      same_map m m'
      /\ match bf_from_bits ShmFlags_all (shmflg mod 2 ^ 32) with
         | Some flg => (r, g') = a_shmat pid (shmid mod 2 ^ 32) addr g
         | None => r = Err EINVAL /\ g' = g
         end
  | SDt _ addr => same_map m m' /\ a_shmdt pid addr g r g'
  | SCtl _ shmid cmd buf_u =>
      same_map m m'
      /\ if negb (buf_u =? 0) && negb (is_inside_user_space user_range buf_u size_of_shmids)
         then r = Err EFAULT /\ g' = g
         else (r, g') = a_shmctl (shmid mod 2 ^ 32) (cmd mod 2 ^ 32) (negb (buf_u =? 0)) g
  end.

(** The calls the refinement is about. A new segment must be of at most [SHMMAX] bytes, which
    [shmget] checks only with [IPC_CREAT], and get an identifier that is not in
    use: nothing in the code makes sure of it. See [shmget_size_unchecked] and
    [shmids_collide]. *)
Definition shm_call_ok (pid : Z) (c : sys_call) (s : SysVState) : Prop :=
  match c with
  | SVm c => call_ok pid c (sv_vm s)
  | SGet _ _ size _ =>
      is_u64 size /\ size <= SHMMAX /\ shm_segments s !! next_shmid (shmid_manager s) = None
  | _ => True
  end.

(** * Refinement *)

Lemma quiet_map vm vm' : quiet vm vm' -> same_map (pmap vm) (pmap vm').
Proof. intros [H _] q a. apply H. Qed.

Lemma shared_at_spec g pid a :
  shared_at g pid a = true <-> exists id x, g !! id = Some x /\ pid ∈ as_procs x /\ a ∈ as_range x.
Proof.
  unfold shared_at. rewrite existsb_exists. split.
  - intros ([id x] & Hin & Hp). apply list_elem_of_In, elem_of_map_to_list in Hin. cbn in Hp. boolprop.
    exists id, x. split_and!; auto. by apply VMRange_contains_spec.
  - intros (id & x & Hi & Hp & Ha). exists (id, x). split; [by apply list_elem_of_In, elem_of_map_to_list|].
    cbn. rewrite bool_decide_true by done. by apply VMRange_contains_spec.
Qed.

(** A state of the table with the same segments and other memory. *)
Lemma shm_wf_vm U n s vm :
  shm_wf U n s -> vm_wf U (owned (shm_segments s)) vm ->
  shm_wf U n (mkSysVState (shm_segments s) (shmid_manager s) vm).
Proof. intros [? ? ?] ?. by constructor. Qed.

Lemma shm_wf_more U n n' s : n <= n' -> shm_wf U n s -> shm_wf U n' s.
Proof. intros Hle [? ? ?]. constructor; auto. by eapply segments_ok_more. Qed.

(** The calls of the memory manager other than faults and exits. *)
Lemma vm_call_refines U n pid c s :
  shm_wf U n s -> call_ok pid c (sv_vm s) ->
  match c with CMmap _ | CMunmap _ _ | CMprotect _ _ _ => True | _ => False end ->
  let out := in_vm (run_call pid c) s in
  shm_wf U n out.2 /\ out.1 <> Panic /\ table out.2 = table s
  /\ spec_call U pid c (pmap (sv_vm s)) out.1 (pmap (sv_vm out.2)).
Proof.
  intros Hs Hok Hc. pose proof (sh_vm _ _ _ Hs) as Hvm. cbv zeta. unfold in_vm.
  assert (H : vm_wf U (owned (shm_segments s)) (run_call pid c (sv_vm s)).2
    /\ spec_call U pid c (pmap (sv_vm s)) (run_call pid c (sv_vm s)).1 (pmap (run_call pid c (sv_vm s)).2))
    by (destruct c; [by apply mmap_refines|by apply munmap_refines|by apply mprotect_refines|done|done]).
  destruct (run_call pid c (sv_vm s)) as [r vm]. destruct H as [Hwf Hspec]. cbn [fst snd] in *.
  split_and!; [by apply shm_wf_vm| |done|done]. intros ->. by destruct c.
Qed.

Lemma exit_memory_refines U n pid s :
  shm_wf U n s -> n < u64_modulus -> call_ok pid CExit (sv_vm s) ->
  let out := zero_result (exit_memory (exiting pid) s) in
  shm_wf U n out.2 /\ out.1 = Ok 0 /\ table out.2 = a_exit pid (table s)
  /\ drops pid (fun _ => True) (pmap (sv_vm s)) (pmap (sv_vm out.2))
  /\ mem_chunks (sv_vm out.2) pid = [].
Proof.
  intros Hs Hn (Hpid & Huse). pose proof (sh_vm _ _ _ Hs) as Hvm. cbv zeta. unfold exit_memory.
  destruct (exit_runs U _ (exiting pid) (sv_vm s) Hvm Hpid eq_refl Huse) as (vm & Hrun & Hwf & _ & Hmem & Hnone & Hothers).
  rewrite (bind_ok _ _ _ _ _ (run_in_vm _ _ _ _ Hrun)).
  set (s1 := mkSysVState (shm_segments s) (shmid_manager s) vm).
  destruct (detach_refines U n (exiting pid) s1) as (s2 & Hrun2 & Hs2 & [Hpm Hm] & Ht); [by apply shm_wf_vm|done|].
  rewrite Hrun2. cbn [fst snd zero_result]. split_and!; [done|done|exact Ht| |].
  - intros q a. rewrite Hpm. cbn. case_bool_decide as Hb.
    + destruct Hb as [-> _]. apply Hnone.
    + apply Hothers. cbn. tauto.
  - rewrite Hm. exact Hmem.
Qed.

(** The memory of segments is in no list. *)
Lemma shared_unlisted U n s pid a :
  shm_wf U n s -> in_chunks a (mem_chunks (sv_vm s) pid) -> forall q, shared_at (table s) q a = false.
Proof.
  intros Hs (c & Hc & Ha) q. apply not_true_is_false. intros (id & x & Hx & _ & Hax)%shared_at_spec.
  rewrite table_lookup in Hx. destruct (shm_segments s !! id) as [shm|] eqn:Hi; [|done]. injection Hx as <-.
  pose proof (sh_vm _ _ _ Hs) as Hvm. destruct (vw_kept _ _ _ Hvm (sg_chunk shm)) as (Hk & Hno & _); [by exists id, shm|].
  apply (Hno pid). by rewrite <- (vw_disjoint _ _ _ Hvm c (sg_chunk shm) a); eauto using vw_mem.
Qed.

Lemma shm_chunk_at s pid a :
  match get_shm_chunk_containing_addr s a pid with
  | Some c => shared_at (table s) pid a = true /\ owned (shm_segments s) c /\ a ∈ ck_range c
  | None => shared_at (table s) pid a = false
  end.
Proof.
  unfold get_shm_chunk_containing_addr. destruct (find_segment _ s) as [shm|] eqn:Hf; cbn.
  - apply find_segment_Some in Hf as (id & Hi & Hp). boolprop. apply VMRange_contains_spec in H as Ha.
    split_and!; [|by exists id, shm|done]. apply shared_at_spec. exists id, (abs shm). by rewrite table_lookup, Hi.
  - apply not_true_is_false. intros (id & x & Hx & Hp & Ha)%shared_at_spec. rewrite table_lookup in Hx.
    destruct (shm_segments s !! id) as [shm|] eqn:Hi; [|done]. injection Hx as <-. cbn in *.
    pose proof (find_segment_None _ _ _ _ Hf Hi) as Hno. cbn in Hno.
    rewrite bool_decide_true in Hno by done. apply VMRange_contains_spec in Ha. by rewrite Ha in Hno.
Qed.

(** Every page fault is served from the chunks of the process or from a segment it is attached to. *)
Lemma page_fault_refines U n pid rip pf errcd kt s :
  shm_wf U n s -> pid <> 0 ->
  let out := zero_result (page_fault (running pid) rip pf errcd kt s) in
  (out.1 = Panic /\ exists file, commit_fault file) \/
  out.1 <> Panic /\
  shm_wf U n out.2 /\ table out.2 = table s /\ same_map (pmap (sv_vm s)) (pmap (sv_vm out.2))
  /\ match sees (pmap (sv_vm s)) (table s) pid pf with
     | None => out.1 = Err ENOMEM
     | Some (p, _) => out.1 = if perms_allow p rip pf errcd then Ok 0 else Err EACCES
     end.
Proof.
  intros Hs Hpid. pose proof (sh_vm _ _ _ Hs) as Hvm. cbv zeta. unfold page_fault. rewrite (bind_ok get _ s s s eq_refl).
  cbn [th_pid running]. unfold sees, in_vm, VMManager_handle_page_fault. rewrite (bind_ok get _ (sv_vm s) _ _ eq_refl).
  fold (chunk_at (mem_chunks (sv_vm s) (th_pid (running pid))) pf). cbn [th_pid running].
  destruct (chunk_at (mem_chunks (sv_vm s) pid) pf) as [c|] eqn:Hat.
  - pose proof (fault_runs U _ (running pid) rip pf errcd kt (sv_vm s) Hvm Hpid) as Hrun.
    unfold VMManager_handle_page_fault in Hrun. rewrite (bind_ok get _ (sv_vm s) _ _ eq_refl) in Hrun.
    fold (chunk_at (mem_chunks (sv_vm s) (th_pid (running pid))) pf) in Hrun. cbn [th_pid running] in Hrun. rewrite Hat in Hrun.
    apply chunk_at_Some in Hat. rewrite (shared_unlisted U n s pid pf Hs) by (by exists c).
    unfold fault_out in Hrun. cbn [th_pid running] in Hrun. destruct (pmap (sv_vm s) pid pf) as [[p f]|].
    + destruct (perms_allow p rip pf errcd).
      * destruct (Chunk_handle_page_fault _ _ _ _ _ _ _) as [[[]|e|] vm]; cbn in *; [|done|by left; eauto].
        destruct Hrun as (H1 & H2 & _). right. split_and!; auto. by apply shm_wf_vm.
      * rewrite Hrun. right. split_and!; [done| |done..]. by apply shm_wf_vm.
    + rewrite Hrun. right. split_and!; [done| |done..]. by apply shm_wf_vm.
  - rewrite pmap_out by (by apply chunk_at_None). pose proof (shm_chunk_at s pid pf) as Hsh.
    destruct (get_shm_chunk_containing_addr s pf pid) as [c|].
    + destruct Hsh as (-> & Hown & Hpf). pose proof (fault_kept U _ (running pid) c rip pf errcd kt (sv_vm s) Hvm Hown Hpf) as Hrun.
      cbv zeta in Hrun. destruct (perms_allow VMPerms_DEFAULT rip pf errcd).
      * destruct (Chunk_handle_page_fault _ _ _ _ _ _ _) as [[[]|e|] vm]; cbn in *; [|done|by left; eauto].
        destruct Hrun as (H1 & H2 & _). right. split_and!; auto. by apply shm_wf_vm.
      * rewrite Hrun. right. split_and!; [done| |done..]. by apply shm_wf_vm.
    + rewrite Hsh. right. split_and!; [done| |done..]. by apply shm_wf_vm.
Qed.

Lemma syscall_shmctl_refines U n user_range cur now id cmd buf_u s :
  shm_wf U n s ->
  let out := zero_result (syscall_shmctl user_range cur now id cmd buf_u s) in
  out.1 <> Panic /\ shm_wf U n out.2 /\ same_map (pmap (sv_vm s)) (pmap (sv_vm out.2))
  /\ if negb (buf_u =? 0) && negb (is_inside_user_space user_range buf_u size_of_shmids)
     then out.1 = Err EFAULT /\ table out.2 = table s
     else (out.1, table out.2) = a_shmctl (id mod 2 ^ 32) (cmd mod 2 ^ 32) (negb (buf_u =? 0)) (table s).
Proof.
  intros Hs. cbv zeta. unfold syscall_shmctl, check_ptr.
  assert (Hctl : forall b,
    let out := zero_result (do_shmctl cur now (id mod 2 ^ 32) (cmd mod 2 ^ 32) b s) in
    out.1 <> Panic /\ shm_wf U n out.2 /\ same_map (pmap (sv_vm s)) (pmap (sv_vm out.2))
    /\ (out.1, table out.2) = a_shmctl (id mod 2 ^ 32) (cmd mod 2 ^ 32) b (table s)).
  { intros b. cbv zeta.
    destruct (shmctl_refines U n cur now (id mod 2 ^ 32) (cmd mod 2 ^ 32) b s Hs) as (H1 & H2 & H3).
    split_and!; [|done|by apply quiet_map|done]. intros Hp. rewrite Hp in H3. unfold a_shmctl in H3. clear -H3.
    by repeat (case_match; simplify_eq). }
  destruct (buf_u =? 0); cbn [negb andb]; [apply Hctl|].
  destruct (is_inside_user_space user_range buf_u size_of_shmids); cbn [negb]; [apply Hctl|]. by split_and!.
Qed.

(** One call: the invariant, and the step of the abstract state. Only faults may panic, when a
    page cannot be committed. *)
Definition sys_is_fault (c : sys_call) : bool := match c with SVm c => is_fault c | _ => false end.

Lemma sys_call_refines U n user_range pid c s :
  shm_wf U n s -> 0 <= n -> n + 1 < u64_modulus -> shm_call_ok pid c s ->
  let out := run_sys user_range pid c s in
  (out.1 = Panic /\ sys_is_fault c = true /\ exists file, commit_fault file)
  \/ (out.1 <> Panic /\ shm_wf U (n + 1) out.2
      /\ spec_sys U user_range pid c (pmap (sv_vm s)) (table s) out.1 (pmap (sv_vm out.2)) (table out.2)).
Proof.
  intros Hs Hn Hn1 Hok. cbv zeta.
  assert (Hmore : forall s', shm_wf U n s' -> shm_wf U (n + 1) s') by (intros s'; apply shm_wf_more; lia).
  destruct c as [c|now key size flg|now id addr flg|now addr|now id cmd buf_u].
  - destruct c as [o|addr size|addr size new|rip pf errcd kt|].
    + destruct (vm_call_refines U n pid (CMmap o) s Hs Hok I) as (H1 & H2 & H3 & H4).
      right. by split_and!; auto.
    + destruct (vm_call_refines U n pid (CMunmap addr size) s Hs Hok I) as (H1 & H2 & H3 & H4).
      right. by split_and!; auto.
    + destruct (vm_call_refines U n pid (CMprotect addr size new) s Hs Hok I) as (H1 & H2 & H3 & H4).
      right. by split_and!; auto.
    + destruct (page_fault_refines U n pid rip pf errcd kt s Hs (proj1 Hok)) as [[Hp HF]|(Hp & H1 & H2 & H3 & H4)];
        [by left|right]. cbn. split_and!; auto.
    + destruct (exit_memory_refines U n pid s Hs ltac:(lia) Hok) as (H1 & H2 & H3 & H4 & _). cbn [run_sys spec_sys].
      right. split_and!; auto. by rewrite H2.
  - destruct Hok as (Hu & Hmax & Hfresh). cbn [run_sys spec_sys]. unfold syscall_shmget.
    destruct (bf_from_bits ShmFlags_all (flg mod 2 ^ 32)) as [f|]; cbn [ok_or].
    + rewrite (bind_ok (lift (Ok f)) _ s f s eq_refl).
      destruct (shmget_refines U n (running pid) now key size f s Hs Hn Hu Hmax Hfresh) as (H1 & H2 & H3).
      right. split_and!; auto; [intros Hp; by rewrite Hp in H3|by apply quiet_map].
    + right. by split_and!; auto.
  - cbn [run_sys spec_sys]. unfold syscall_shmat.
    destruct (bf_from_bits ShmFlags_all (flg mod 2 ^ 32)) as [f|]; cbn [ok_or].
    + rewrite (bind_ok (lift (Ok f)) _ s f s eq_refl).
      destruct (shmat_refines U n (running pid) now (id mod 2 ^ 32) addr s Hs Hn1) as (H1 & H2 & H3).
      right. split; [|by split_and!; auto; rewrite H2].
      intros Hp. rewrite Hp in H3. unfold a_shmat in H3. clear -H3. by repeat (case_match; simplify_eq).
    + right. by split_and!; auto.
  - cbn [run_sys spec_sys]. destruct (shmdt_refines U n (running pid) now addr s Hs ltac:(lia)) as (H1 & H2 & H3).
    right. split; [|by split_and!; auto; apply quiet_map].
    intros Hp. rewrite Hp in H3. destruct H3 as [(i & x & _ & _ & H3)|(_ & [=] & _)]. by case_bool_decide; destruct H3.
  - destruct (syscall_shmctl_refines U n user_range (running pid) now id cmd buf_u s Hs) as (H1 & H2 & H3 & H4).
    right. by split_and!; auto.
Qed.

(** * Executions *)

Definition sysv_start (im : InternalVMManager) (w : World BV PL) : SysVState :=
  mkSysVState ∅ ShmIdManager_new (initial_state im w).

Inductive spec_sys_executes (U : Z -> Prop) (ur : VMRange) :
    vmap -> atable -> list (Z * sys_call * Result Z) -> vmap -> atable -> Prop :=
| spec_sys_nil m g m' : same_map m m' -> spec_sys_executes U ur m g [] m' g
| spec_sys_cons m g pid c r m1 g1 l m2 g2 :
    spec_sys U ur pid c m g r m1 g1 -> spec_sys_executes U ur m1 g1 l m2 g2 ->
    spec_sys_executes U ur m g ((pid, c, r) :: l) m2 g2.

Lemma start_wf vm_range im (w : World BV PL) :
  layout_ok vm_range -> pcm_wf (w_pcm w) -> InternalVMManager_init vm_range user_space_gap = Ok im ->
  shm_wf (user_memory vm_range) 0 (sysv_start im w) /\ (forall q a, pmap (sv_vm (sysv_start im w)) q a = None)
  /\ table (sysv_start im w) = ∅.
Proof.
  intros Hl Hg Him. destruct (init_wf vm_range im w Hl Hg Him) as [Hs Hnone]. split_and!; [|done|apply fmap_empty].
  constructor; cbn.
  - eapply vm_wf_kept; [|exact Hs]. intros c. split; [done|]. intros (id & x & Hx & _). by rewrite lookup_empty in Hx.
  - constructor; try (intros *; rewrite lookup_empty; intros; done).
  - constructor; cbn; [done|lia|]. rewrite map_size_empty. lia.
Qed.

(** The specification depends on the values of the map only. *)
Lemma sees_ext m1 m2 g pid a : (forall q a, m1 q a = m2 q a) -> sees m1 g pid a = sees m2 g pid a.
Proof. intros Hm. unfold sees. by rewrite Hm. Qed.

Lemma a_shmget_ext (U : Z -> Prop) (m1 m2 : vmap) key size create excl g r g' :
  (forall q a, m1 q a = m2 q a) ->
  a_shmget U m1 key size create excl g r g' -> a_shmget U m2 key size create excl g r g'.
Proof.
  intros Hm. unfold a_shmget. destruct r as [id|e|]; [|done|done].
  intros [H|(H1 & H2 & range & H3 & H4 & H5 & H6)]; [by left|right]. split_and!; auto. exists range. split_and!; auto; [lia..|].
  intros a Ha. destruct (H6 a Ha) as (? & Hn & ?). split_and!; auto. intros q. by rewrite <- Hm.
Qed.

Lemma spec_sys_ext U ur pid c m1 m2 g r m' g' :
  (forall q a, m1 q a = m2 q a) -> spec_sys U ur pid c m1 g r m' g' -> spec_sys U ur pid c m2 g r m' g'.
Proof.
  intros Hm Hspec. assert (Hsame : same_map m1 m' -> same_map m2 m') by (intros H q a; by rewrite H).
  destruct c as [c|now key size flg|now id addr flg|now addr|now id cmd buf_u].
  - destruct c as [o|addr size|addr size new|rip pf errcd kt|]; cbn [spec_sys] in Hspec |- *.
    1-3: destruct Hspec as [H ->]; split; [by eapply (spec_call_ext _ _ _ m1)|done].
    + rewrite <- (sees_ext m1 m2) by done. destruct Hspec as (H & ? & ?). by split_and!; [apply Hsame|..].
    + destruct Hspec as (? & H & ?). split_and!; auto. intros q a. by rewrite H, Hm.
  - destruct Hspec as [H H2]. split; [by apply Hsame|]. destruct (bf_from_bits _ _); [by eapply a_shmget_ext|done].
  - destruct Hspec as [H H2]. split; [by apply Hsame|done].
  - destruct Hspec as [H H2]. split; [by apply Hsame|done].
  - destruct Hspec as [H H2]. split; [by apply Hsame|done].
Qed.

Lemma spec_sys_executes_ext U ur m1 m2 g l m' g' :
  (forall q a, m1 q a = m2 q a) -> spec_sys_executes U ur m1 g l m' g' -> spec_sys_executes U ur m2 g l m' g'.
Proof.
  intros Hm H. destruct H as [m g m' H|m g pid c r m3 g3 l m4 g4 Hspec Hrest].
  - constructor. intros q a. by rewrite H.
  - econstructor; [|exact Hrest]. by eapply spec_sys_ext.
Qed.

(** * Shutting down *)

(** Dropping segments that nobody is attached to. *)
Lemma clean_loop U cur (l : list (Z * ShmSegment)) : forall s,
  vm_wf U (fun c => exists x, x ∈ l /\ sg_chunk x.2 = c) (sv_vm s) -> NoDup (sg_chunk <$> l.*2) ->
  (forall x, x ∈ l -> shm_nattach x.2 = 0 /\ sg_process_set x.2 = ∅) -> shm_segments s = ∅ ->
  exists s', for_each (fun x => _ ← free_shmid (sg_shmid x.2); ShmSegment_drop cur x.2) l s = (Ok tt, s')
    /\ vm_wf U no_chunks (sv_vm s') /\ quiet (sv_vm s) (sv_vm s') /\ shm_segments s' = ∅.
Proof.
  induction l as [|[id shm] l IH]; intros s Hvm Hnd Hl Hempty.
  - exists s. split_and!; [done| |reflexivity|done]. eapply vm_wf_kept; [|exact Hvm].
    intros c. split; [intros (x & Hx & _); by apply not_elem_of_nil in Hx|done].
  - cbn in Hnd. apply list.NoDup_cons in Hnd as [Hno Hnd]. destruct (Hl (id, shm)) as [Hna Hps]; [by left|]. cbn in Hna, Hps.
    set (s1 := mkSysVState (shm_segments s) (ShmIdManager_free_shmid (shmid_manager s) (sg_shmid shm)) (sv_vm s)).
    destruct (drop_runs U _ cur shm s1 Hvm) as (vm & Hrun & Hwf & Hq); auto.
    { exists (id, shm). split; [by left|done]. }
    destruct (IH (mkSysVState (shm_segments s1) (shmid_manager s1) vm)) as (s2 & Hrun2 & Hwf2 & Hq2 & Hseg2); auto.
    { eapply vm_wf_kept; [|exact Hwf]. intros c. split.
      - intros [(x & [->|Hx]%elem_of_cons & <-) Hne]; [done|eauto].
      - intros (x & Hx & <-). split; [exists x; split; [by right|done]|]. intros Heq. apply Hno. rewrite <- Heq.
        rewrite <- list_fmap_compose. apply list_elem_of_fmap. by exists x. }
    { intros x Hx. apply Hl. by right. }
    exists s2. split_and!; [|done|by etrans|done]. cbn [for_each]. rewrite (bind_ok _ _ s tt (mkSysVState (shm_segments s1) (shmid_manager s1) vm)); [done|].
    rewrite (bind_ok (free_shmid (sg_shmid shm)) _ s tt s1 eq_refl). exact Hrun.
Qed.

Lemma shutdown_runs vm_range im n s (cur : Thread) :
  layout_ok vm_range -> InternalVMManager_init vm_range user_space_gap = Ok im -> shm_wf (user_memory vm_range) n s ->
  (forall q, mem_chunks (sv_vm s) q = []) -> (forall i x, table s !! i = Some x -> as_count x = 0) ->
  exists s', free_user_space (mkVMManager vm_range user_space_gap) cur s = (Ok tt, s')
    /\ shm_segments s' = ∅ /\ chunks (sv_vm s') = []
    /\ im_free_manager (vs_manager (sv_vm s')) = im_free_manager im.
Proof.
  intros Hlayout Him Hs Hlists Hcounts. pose proof (sh_segments _ _ _ Hs) as Hm.
  set (ls := seg_order (map_to_list (shm_segments s))).
  assert (Hls : forall i x, (i, x) ∈ ls <-> shm_segments s !! i = Some x).
  { intros i x. unfold ls. rewrite seg_order_perm. apply elem_of_map_to_list. }
  set (s0 := mkSysVState ∅ (shmid_manager s) (sv_vm s)).
  destruct (clean_loop (user_memory vm_range) cur ls s0) as (s1 & Hrun & Hvm & [_ Hmem] & Hempty).
  - eapply vm_wf_kept; [|exact (sh_vm _ _ _ Hs)]. intros c. unfold owned. split.
    + intros (i & x & Hi & <-). exists (i, x). split; [by apply Hls|done].
    + intros ([i x] & Hx & <-). exists i, x. split; [by apply Hls|done].
  - rewrite <- list_fmap_compose. apply NoDup_fmap_2_strong.
    + intros [i x] [j y] Hx%Hls Hy%Hls Heq. cbn in Heq. pose proof (so_own _ _ Hm i j x y Hx Hy Heq) as ->. congruence.
    + unfold ls. rewrite seg_order_perm. apply NoDup_map_to_list.
  - intros [i x] Hx. apply Hls in Hx. cbn.
    assert (Hz : shm_nattach x = 0) by (apply (Hcounts i (abs x)); by rewrite table_lookup, Hx).
    split; [done|]. by apply (processes_empty _ _ _ _ Hm Hx).
  - done.
  - exists s1. destruct (no_chunks_clean vm_range im (sv_vm s1) Hlayout Him Hvm) as (Hclean & Hch & Hfree).
    { intros q. rewrite Hmem. apply Hlists. }
    split_and!; auto. unfold free_user_space, clean_when_libos_exit.
    rewrite bind_assoc, (bind_ok get _ s s s eq_refl), bind_assoc, (bind_ok (set_segments ∅) _ s tt s0 eq_refl).
    rewrite (bind_ok _ _ _ _ _ Hrun), (bind_ok get _ s1 s1 s1 eq_refl). by rewrite Hclean.
Qed.

End system.

Section executions.
Context {BF : Bitflags} {BV : BitVecs} {PL : Platform} {EN : Enclave} {EL : EnclaveLaws} {US : UserSpace}
  {RB : RBTrees} {VE : VMEnv} {SE : ShmEnv}.
Abbreviation chunks s := (im_chunks (vs_manager s)) (only parsing).

(** A sequence of calls with their answers. A panic ends the LibOS. *)
Inductive sys_executes (ur : VMRange) : SysVState -> list (Z * sys_call * Result Z) -> SysVState -> Prop :=
| sys_nil s : sys_executes ur s [] s
| sys_cons s pid c r s1 l s2 :
    run_sys ur pid c s = (r, s1) -> r <> Panic -> sys_executes ur s1 l s2 ->
    sys_executes ur s ((pid, c, r) :: l) s2.

(** Every call of the sequence is one of those of [shm_call_ok] in the state it is made in. *)
Fixpoint sys_orderly (ur : VMRange) (s : SysVState) (l : list (Z * sys_call * Result Z)) : Prop :=
  match l with
  | [] => True
  | (pid, c, _) :: l => shm_call_ok pid c s /\ sys_orderly ur (run_sys ur pid c s).2 l
  end.

(** ** Platforms that fail *)

Lemma zero_result_agrees {A} (c c' : M SysVState A) :
  agrees platform_fault c c' ->
  agrees platform_fault (fun s => zero_result (c s)) (fun s => zero_result (c' s)).
Proof.
  intros H s. unfold zero_result. destruct (H s) as [-> |[Hp HF]]; [by left|]. right. by rewrite Hp.
Qed.

Lemma run_sys_agrees ur pid c : agrees platform_fault (run_sys ur pid c) (run_sys (EN := total_enclave EN) ur pid c).
Proof.
  destruct c as [c|now key size flg|now id addr flg|now addr|now id cmd buf_u]; cbn [run_sys].
  - destruct c; try apply in_vm_agrees, run_call_agrees.
    + apply (zero_result_agrees _ _ (page_fault_agrees _ _ _ _ _)).
    + apply (zero_result_agrees _ _ (exit_memory_agrees _)).
  - apply shmget_agrees.
  - apply agrees_refl.
  - apply (zero_result_agrees _ _ (shmdt_agrees _ _ _)).
  - apply (zero_result_agrees _ _ (shmctl_agrees _ _ _ _ _ _)).
Qed.

Lemma spec_sys_total U ur pid c m g r m' g' :
  spec_sys (EN := total_enclave EN) U ur pid c m g r m' g' -> spec_sys U ur pid c m g r m' g'.
Proof.
  destruct c as [c| | | |]; try done. destruct c; try done; intros [H ?]; (split; [by apply spec_call_total|done]).
Qed.

(** One call on any platform. *)
Lemma sys_call_any U n ur pid c s :
  shm_wf U n s -> 0 <= n -> n + 1 < u64_modulus -> shm_call_ok pid c s ->
  let out := run_sys ur pid c s in
  (out.1 = Panic /\ (platform_fault \/ (sys_is_fault c = true /\ exists file, read_fails file)))
  \/ (out.1 <> Panic /\ shm_wf U (n + 1) out.2
      /\ spec_sys U ur pid c (pmap (sv_vm s)) (table s) out.1 (pmap (sv_vm out.2)) (table out.2)).
Proof.
  intros Hs Hn Hn1 Hok. cbv zeta. destruct (run_sys_agrees ur pid c s) as [Heq|[Hp HF]]; [|by left; auto].
  pose proof (sys_call_refines (EN := total_enclave EN) U n ur pid c s Hs Hn Hn1 Hok) as Hspec. cbv zeta in Hspec.
  rewrite Heq. destruct Hspec as [(Hp & Hf & file & HF)|(Hp & Hwf & Hspec)].
  - left. split; [done|]. apply commit_fault_total in HF as [HF|(f & _ & HF)]; eauto.
  - right. split_and!; [done|done|by apply spec_sys_total].
Qed.

Lemma sys_executes_refines U ur s l s' :
  sys_executes ur s l s' -> sys_orderly ur s l ->
  forall n, shm_wf U n s -> 0 <= n -> n + Z.of_nat (length l) < u64_modulus ->
  shm_wf U (n + Z.of_nat (length l)) s'
  /\ spec_sys_executes U ur (pmap (sv_vm s)) (table s) l (pmap (sv_vm s')) (table s').
Proof.
  induction 1 as [s|s pid c r s1 l s2 Hrun Hp _ IH]; intros Ho n Hs Hn Hl.
  - cbn in *. rewrite Z.add_0_r. split; [done|by constructor].
  - destruct Ho as [Hok Ho]. cbn [length] in *.
    pose proof (sys_call_any U n ur pid c s Hs Hn ltac:(lia) Hok) as Hstep. rewrite Hrun in Hstep, Ho.
    destruct Hstep as [[? _]|(_ & Hs1 & Hspec)]; [done|].
    destruct (IH Ho (n + 1) Hs1 ltac:(lia) ltac:(lia)) as [Hs2 Hrest].
    split; [|by econstructor]. replace (n + Z.of_nat (S (length l))) with (n + 1 + Z.of_nat (length l)) by lia. done.
Qed.

Section reachable.
Variables (vm_range ur : VMRange) (im : InternalVMManager) (w : World BV PL).
Variables (l : list (Z * sys_call * Result Z)) (s : SysVState).
Hypothesis (Hlayout : layout_ok vm_range) (Hpcm : pcm_wf (w_pcm w))
  (Him : InternalVMManager_init vm_range user_space_gap = Ok im)
  (Hexec : sys_executes ur (sysv_start im w) l s) (Horderly : sys_orderly ur (sysv_start im w) l)
  (Hshort : Z.of_nat (length l) < u64_modulus).

Lemma reachable_wf : shm_wf (user_memory vm_range) (Z.of_nat (length l)) s.
Proof.
  destruct (start_wf vm_range im w Hlayout Hpcm Him) as (H0 & _ & _).
  by destruct (sys_executes_refines _ _ _ _ _ Hexec Horderly 0 H0) as [H _].
Qed.





End reachable.

End executions.
