(* ===== verification/SysVShmRuns.v ===== *)
(** Executions of System V shared memory: the hypotheses of its theorems hold in a run of two
    processes, and runs in which the table of segments goes wrong. *)

From stdpp Require Import gmap sorting.
From S2P Require Import Prelude Errno Effects External VMRange VMMapOptions VMFreeSpace VMRemap.
From S2P Require Import VMEpc Platform PageTracker VMArea VMAreaFacts ChunkManager PlatformChunk ChunkManagerFacts.
From S2P Require Import ChunkProtect ChunkMerge ChunkMmap ChunkFault VMChunk ShmManager VMManager MemUtil SysVShm.
From S2P Require Import VMManagerFacts VMManagerMunmap VMManagerExit VMManagerProtect VMManagerMmap VMKept.
From S2P Require Import VMLifetime VMSystem SysVShmFacts SysVShmCalls SysVShmSystem.

Section runs.
#[local] Existing Instances bitflags_bits bitvec_list example_space rbtree_list flat_platform flat_enclave flat_enclave_reliable.
#[local] Instance example_env : VMEnv := quiet_env false.
#[local] Instance example_shm : ShmEnv := {| seg_order l := l; seg_order_perm l := Permutation_refl l |}.

Definition shm_s0 : SysVState := sysv_start example_im empty_world.
Definition create_flags : Z := Z.lor IPC_CREAT 438.

(** The state after some calls. *)
Definition after (l : list (Z * sys_call)) : SysVState :=
  foldl (fun s x => (run_sys example_range x.1 x.2 s).2) shm_s0 l.

(** Two processes share a page; it is removed while both are attached, and they exit. *)
Definition shared_calls : list (Z * sys_call) :=
  [(1, SGet 0 7 4096 create_flags); (1, SAt 0 0 0 0); (2, SAt 0 0 0 0); (1, SVm (CFault 0 (2 ^ 26) 6 false))].
Definition ending_calls : list (Z * sys_call) :=
  [(2, SCtl 0 0 IPC_RMID 0); (2, SDt 0 (2 ^ 26)); (1, SVm CExit)].

(** The answers to a sequence of calls. *)
Fixpoint sys_answers (s : SysVState) (l : list (Z * sys_call)) : list (Z * sys_call * Result Z) :=
  match l with
  | [] => []
  | (pid, c) :: l => let out := run_sys example_range pid c s in (pid, c, out.1) :: sys_answers out.2 l
  end.

Definition sys_survives (x : Z * sys_call * Result Z) : bool := match x.2 with Panic => false | _ => true end.

Lemma sys_answers_execute l : forall s, forallb sys_survives (sys_answers s l) = true ->
  sys_executes example_range s (sys_answers s l) (foldl (fun s x => (run_sys example_range x.1 x.2 s).2) s l).
Proof.
  induction l as [|[pid c] l IH]; intros s Hl; [constructor|]. cbn in Hl. apply andb_true_iff in Hl as [Hp Hl].
  apply (sys_cons _ s pid c (run_sys example_range pid c s).1 (run_sys example_range pid c s).2);
    [apply surjective_pairing| |by apply IH].
  intros Hr. unfold sys_survives in Hp. cbn in Hp. by rewrite Hr in Hp.
Qed.

Lemma sys_orderly_step s pid c l :
  shm_call_ok pid c s ->
  sys_orderly example_range (run_sys example_range pid c s).2 (sys_answers (run_sys example_range pid c s).2 l) ->
  sys_orderly example_range s (sys_answers s ((pid, c) :: l)).
Proof. done. Qed.

Lemma shared_executes : sys_executes example_range shm_s0 (sys_answers shm_s0 shared_calls) (after shared_calls).
Proof. apply sys_answers_execute. vm_compute. reflexivity. Qed.

Lemma ending_executes :
  sys_executes example_range shm_s0 (sys_answers shm_s0 (shared_calls ++ ending_calls))
    (after (shared_calls ++ ending_calls)).
Proof. apply sys_answers_execute. vm_compute. reflexivity. Qed.

Lemma exit_call_ok pid s : pid <> 0 -> no_lists (sv_vm s) = true -> shm_call_ok pid (SVm CExit) s.
Proof.
  intros Hp Hno. split; [done|]. intros c ci q Hc. rewrite no_lists_spec in Hc by done. destruct (not_elem_of_nil _ Hc).
Qed.

Ltac sys_orderly :=
  repeat first [ exact I
               | apply sys_orderly_step;
                 [first [ exact I | apply fault_ok; discriminate
                        | split_and!; [split; [discriminate|reflexivity]|discriminate|vm_compute; reflexivity]
                        | apply exit_call_ok; [discriminate|vm_compute; reflexivity] ]|] ].

Lemma shared_orderly : sys_orderly example_range shm_s0 (sys_answers shm_s0 shared_calls).
Proof. unfold shared_calls. sys_orderly. Qed.

Lemma ending_orderly : sys_orderly example_range shm_s0 (sys_answers shm_s0 (shared_calls ++ ending_calls)).
Proof. unfold shared_calls, ending_calls. cbn [app]. sys_orderly. Qed.





(** * Runs that go wrong *)

(** Process 1 attaches a segment twice, detaches it, removes it and exits. *)
Definition attach_twice : list (Z * sys_call) :=
  [(1, SGet 0 7 4096 create_flags); (1, SAt 0 0 0 0); (1, SAt 0 0 0 0); (1, SDt 0 (2 ^ 26));
   (1, SCtl 0 0 IPC_RMID 0); (1, SVm CExit)].

(** C40: an attachment that fails is counted for ever. [do_shmat] counts the attachment before it finds
    that the process is attached already, so after a second [shmat], which fails with
    [EINVAL], a detach, a removal and the exit of the only process the segment
    is still there, and the shutdown of the LibOS panics. *)
Theorem shmat_twice_leaks :
  (run_sys example_range 1 (SAt 0 0 0 0) (after (take 2 attach_twice))).1 = Err EINVAL
  /\ (exists x, table (after attach_twice) !! 0 = Some x /\ as_procs x = ∅ /\ as_count x = 1)
  /\ (free_user_space (mkVMManager example_range user_space_gap) (running 1) (after attach_twice)).1 = Panic.
Proof. split_and!; [vm_compute; reflexivity|eexists; split_and!; vm_compute; reflexivity|vm_compute; reflexivity]. Qed.

Definition bad_call : Z * sys_call := (2, SGet 0 IPC_PRIVATE 0 0).

(** Process 1 creates a segment; process 2 creates and removes one and calls [shmget] with no size
    4094 times. *)
Definition wrap_ids : list (Z * sys_call) :=
  [(1, SGet 0 7 4096 create_flags); (1, SAt 0 0 0 0); (2, SGet 0 IPC_PRIVATE 4096 create_flags); (2, SCtl 0 1 IPC_RMID 0)]
  ++ repeat bad_call (Z.to_nat 4094).

(** identifiers are not unique. [get_new_shmid] never records an identifier as used and a failed
    [shmget] keeps its number: after 4096 calls with an invalid size nobody can create
    a segment ([ENOSPC]), and a process that wraps the counter around makes the
    next [shmget] replace, and panic on, the attached segment of another. *)
Theorem shmids_collide :
  (run_sys example_range 1 (SGet 0 7 4096 create_flags) (after (repeat bad_call (Z.to_nat 4096)))).1 = Err ENOSPC
  /\ next_shmid (shmid_manager (after wrap_ids)) = 0
  /\ (as_procs <$> table (after wrap_ids) !! 0) = Some {[1]}
  /\ (run_sys example_range 2 (SGet 0 IPC_PRIVATE 4096 create_flags) (after wrap_ids)).1 = Panic.
Proof. split_and!; vm_compute; reflexivity. Qed.

(** without [IPC_CREAT] the size of a private segment is not checked: rounding it up to pages
    overflows to zero, the segment is empty, and removing it panics. *)
Theorem shmget_size_unchecked :
  let s := after [(1, SGet 0 IPC_PRIVATE (u64_modulus - 1) 438)] in
  (run_sys example_range 1 (SGet 0 IPC_PRIVATE (u64_modulus - 1) 438) shm_s0).1 = Ok 0
  /\ (run_sys example_range 1 (SCtl 0 0 IPC_RMID 0) s).1 = Panic.
Proof. split; vm_compute; reflexivity. Qed.

End runs.
