(* ===== verification/RangeLock.v ===== *)
(** POSIX advisory record locks: [src/libos/src/fs/locks/range_lock/].

    A file has a list of locks, each with an owner, a type, a byte range and the
    threads that wait for it. The model keeps the list and the queues and returns
    the threads that each operation wakes. The theorems give the meaning of the
    list as a map from owner and offset to lock type, the invariant of the list,
    that two processes never hold conflicting locks, and that no thread is left
    asleep once the lock it waits for is gone. *)

From stdpp Require Import base list gmap.
From S2P Require Import Prelude Errno FileFlags.

(** * Ranges of a file *)

Abbreviation OFFSET_MAX := (i64_max : Z).

Record FileRange := mkFileRange { fr_start : Z; fr_end : Z }.

Inductive FileRangeChange := RangeSame | RangeExpanded | RangeShrinked.

Inductive OverlapWith := ToLeft | ToRight | InMiddle | Includes.

Inductive RangeLockWhence := SEEK_SET | SEEK_CUR | SEEK_END.

Definition RangeLockWhence_from_u16 (whence : Z) : Result RangeLockWhence :=
  match whence with
  | 0 => Ok SEEK_SET
  | 1 => Ok SEEK_CUR
  | 2 => Ok SEEK_END
  | _ => Err EINVAL
  end.

Definition FileRange_new (start end_ : Z) : Result FileRange :=
  if end_ <=? start then Err EINVAL else Ok (mkFileRange start end_).

Abbreviation FileRange_len self := (fr_end self -64 fr_start self).

Definition FileRange_set_start (self : FileRange) (new_start : Z)
    : Result (FileRange * FileRangeChange) :=
  if fr_end self <=? new_start then Err EINVAL
  else
    let old_start := fr_start self in
    let change := if old_start <? new_start then RangeShrinked
                  else if new_start <? old_start then RangeExpanded
                  else RangeSame in
    Ok (mkFileRange new_start (fr_end self), change).

Definition FileRange_set_end (self : FileRange) (new_end : Z)
    : Result (FileRange * FileRangeChange) :=
  if new_end <=? fr_start self then Err EINVAL
  else
    let old_end := fr_end self in
    let change := if new_end <? old_end then RangeShrinked
                  else if old_end <? new_end then RangeExpanded
                  else RangeSame in
    Ok (mkFileRange (fr_start self) new_end, change).

Definition FileRange_overlap_with (self other : FileRange) : option OverlapWith :=
  if (fr_end other <=? fr_start self) || (fr_end self <=? fr_start other) then None
  else Some
    (if (fr_start self <=? fr_start other) && (fr_end self <? fr_end other) then ToLeft
     else if (fr_start other <? fr_start self) && (fr_end self <? fr_end other) then InMiddle
     else if (fr_start other <? fr_start self) && (fr_end other <=? fr_end self) then ToRight
     else Includes).

Definition FileRange_merge (self other : FileRange) : Result (FileRange * FileRangeChange) :=
  if (fr_end self <? fr_start other) || (fr_end other <? fr_start self) then Err EINVAL
  else
    let (self, change) :=
      if fr_start other <? fr_start self
      then (mkFileRange (fr_start other) (fr_end self), RangeExpanded)
      else (self, RangeSame) in
    let (self, change) :=
      if fr_end self <? fr_end other
      then (mkFileRange (fr_start self) (fr_end other), RangeExpanded)
      else (self, change) in
    Ok (self, change).

(** * Locks *)

Inductive RangeLockType := F_RDLCK | F_WRLCK | F_UNLCK.

#[export] Instance RangeLockType_eq_dec : EqDecision RangeLockType.
Proof. solve_decision. Defined.

Definition RangeLockType_as_u16 (t : RangeLockType) : Z :=
  match t with F_RDLCK => 0 | F_WRLCK => 1 | F_UNLCK => 2 end.

Definition RangeLockType_from_u16 (_type : Z) : Result RangeLockType :=
  match _type with
  | 0 => Ok F_RDLCK
  | 1 => Ok F_WRLCK
  | 2 => Ok F_UNLCK
  | _ => Err EINVAL
  end.

Record c_flock := mk_c_flock {
  l_type : Z; l_whence : Z; l_start : Z; l_len : Z; l_pid : Z;
}.

(** A waiting thread, by the identity of its [Waiter]. *)
Abbreviation WaiterId := Z (only parsing).

Record RangeLock := mkRangeLock {
  rl_owner : Z;
  rl_type : RangeLockType;
  rl_range : FileRange;
  rl_waiters : option (list WaiterId);
}.

Abbreviation RangeLock_start self := (fr_start (rl_range self)).
Abbreviation RangeLock_end self := (fr_end (rl_range self)).

Definition RangeLock_set_range (self : RangeLock) (range : FileRange) : RangeLock :=
  mkRangeLock (rl_owner self) (rl_type self) range (rl_waiters self).

Definition RangeLock_set_type (self : RangeLock) (type_ : RangeLockType) : RangeLock :=
  mkRangeLock (rl_owner self) type_ (rl_range self) (rl_waiters self).

Definition RangeLock_overlap_with (self other : RangeLock) : option OverlapWith :=
  FileRange_overlap_with (rl_range self) (rl_range other).

Definition RangeLock_conflict_with (self other : RangeLock) : bool :=
  if rl_owner self =? rl_owner other then false
  else match RangeLock_overlap_with self other with
  | None => false
  | Some _ => bool_decide (rl_type self = F_WRLCK) || bool_decide (rl_type other = F_WRLCK)
  end.

Definition RangeLock_clone (self : RangeLock) : RangeLock :=
  mkRangeLock (rl_owner self) (rl_type self) (rl_range self) None.

Definition RangeLock_enqueue_waiter (self : RangeLock) (waiter : WaiterId) : RangeLock :=
  let waiters := default [] (rl_waiters self) in
  mkRangeLock (rl_owner self) (rl_type self) (rl_range self) (Some (waiters ++ [waiter])).

(** The lock with its queue emptied, and the threads woken, in queue order. *)
Definition RangeLock_dequeue_and_wake_all_waiters (self : RangeLock) : RangeLock * list WaiterId :=
  match rl_waiters self with
  | Some ws => (mkRangeLock (rl_owner self) (rl_type self) (rl_range self) (Some []), ws)
  | None => (self, [])
  end.

(** [Drop for RangeLock]: the threads woken. *)
Definition RangeLock_drop (self : RangeLock) : list WaiterId :=
  (RangeLock_dequeue_and_wake_all_waiters self).2.

(** [set_start] and [set_end]: a shrunk lock wakes its waiters. *)
Definition RangeLock_wake_if_shrinked (self : RangeLock) (change : FileRangeChange)
    : RangeLock * list WaiterId :=
  match change with
  | RangeShrinked => RangeLock_dequeue_and_wake_all_waiters self
  | _ => (self, [])
  end.

Definition RangeLock_set_start (self : RangeLock) (new_start : Z) : Result (RangeLock * list WaiterId) :=
  '(range, change) ← unwrap_result (FileRange_set_start (rl_range self) new_start);
  Ok (RangeLock_wake_if_shrinked (RangeLock_set_range self range) change).

Definition RangeLock_set_end (self : RangeLock) (new_end : Z) : Result (RangeLock * list WaiterId) :=
  '(range, change) ← unwrap_result (FileRange_set_end (rl_range self) new_end);
  Ok (RangeLock_wake_if_shrinked (RangeLock_set_range self range) change).

Definition RangeLock_merge_with (self other : RangeLock) : Result RangeLock :=
  '(range, _) ← unwrap_result (FileRange_merge (rl_range self) (rl_range other));
  Ok (RangeLock_set_range self range).

Definition copy_from_range_lock (self : c_flock) (lock : RangeLock) : c_flock :=
  let type_ := RangeLockType_as_u16 (rl_type lock) in
  if bool_decide (rl_type lock = F_UNLCK)
  then mk_c_flock type_ (l_whence self) (l_start self) (l_len self) (l_pid self)
  else mk_c_flock type_ 0 (as_i64 (RangeLock_start lock))
         (if RangeLock_end lock =? OFFSET_MAX then 0 else as_i64 (FileRange_len (rl_range lock)))
         (rl_owner lock).

(** The first [start] of [from_c_flock_and_file]; [file.position()?] and
    [file.metadata()?.size] are the arguments. *)
Definition flock_start (lock : c_flock) (position : Result Z) (size : Result Z) : Result Z :=
  whence ← RangeLockWhence_from_u16 (l_whence lock);
  match whence with
  | SEEK_SET => Ok (l_start lock)
  | SEEK_CUR => pos ← position; ok_or (checked_add_i64 pos (l_start lock)) EOVERFLOW
  | SEEK_END => size ← size; ok_or (checked_add_i64 (as_i64 size) (l_start lock)) EOVERFLOW
  end.

Definition from_c_flock_and_file (lock : c_flock) (position : Result Z) (size : Result Z)
    : Result FileRange :=
  start ← flock_start lock position size;
  if start <? 0 then Err EINVAL
  else if 0 <? l_len lock then
    end_ ← ok_or (checked_add_i64 start (l_len lock)) EOVERFLOW;
    Ok (mkFileRange start end_)
  else if l_len lock =? 0 then Ok (mkFileRange start OFFSET_MAX)
  else
    let end_ := start in
    let new_start := as_i64 (start + l_len lock) in
    if new_start <? 0 then Err EINVAL else Ok (mkFileRange new_start end_).

Record RangeLockBuilder := mkRangeLockBuilder {
  rb_type : option RangeLockType;
  rb_range : option FileRange;
  rb_owner : option Z;
  rb_waiters : option (list WaiterId);
}.

(** [current_pid] is [current!().process().pid()]. *)
Definition RangeLockBuilder_build (self : RangeLockBuilder) (current_pid : Z) : Result RangeLock :=
  let owner := default current_pid (rb_owner self) in
  type_ ← ok_or (rb_type self) EINVAL;
  range ← ok_or (rb_range self) EINVAL;
  Ok (mkRangeLock owner type_ range (rb_waiters self)).

(** * The list of locks *)

(** [RangeLockList], under its lock. *)
Abbreviation RangeLockList := (list RangeLock) (only parsing).

(** Going on in a loop after a step that may panic. *)
Definition and_then {A B} (r : Result A) (k : A -> option (Result B)) : option (Result B) :=
  match r with
  | Ok a => k a
  | Err e => Some (Err e)
  | Panic => Some Panic
  end.

Definition test_lock (self : RangeLockList) (lock : RangeLock) : RangeLock :=
  match List.find (RangeLock_conflict_with lock) self with
  | Some existing_lock =>
      mkRangeLock (rl_owner existing_lock) (rl_type existing_lock) (rl_range existing_lock)
                  (rl_waiters lock)
  | None => RangeLock_set_type lock F_UNLCK
  end.

(** The [loop] of [insert_lock_into_list]: the list and the threads woken so far;
    [None] when the fuel is used up. *)
Fixpoint insert_loop (fuel : nat) (lst : RangeLockList) (pre_idx next_idx : nat)
    (woken : list WaiterId) : option (Result (RangeLockList * list WaiterId)) :=
  match fuel with
  | O => None
  | S fuel =>
    if (length lst <=? next_idx)%nat then Some (Ok (lst, woken))
    else match lst !! pre_idx, lst !! next_idx with
    | Some list_pre, Some list_next =>
      let pre_lock := RangeLock_clone list_pre in
      let next_lock := RangeLock_clone list_next in
      if negb (rl_owner next_lock =? rl_owner pre_lock) then Some (Ok (lst, woken))
      else if bool_decide (rl_type next_lock = rl_type pre_lock) then
        if RangeLock_end pre_lock <? RangeLock_start next_lock then Some (Ok (lst, woken))
        else if RangeLock_end next_lock <? RangeLock_start pre_lock then
          insert_loop fuel (vec_swap pre_idx next_idx lst) (pre_idx + 1) (next_idx + 1) woken
        else
          and_then (RangeLock_merge_with list_next pre_lock) (fun merged =>
          insert_loop fuel (vec_remove pre_idx (<[next_idx := merged]> lst)) pre_idx next_idx
            (woken ++ RangeLock_drop list_pre))
      else
        if RangeLock_end pre_lock <=? RangeLock_start next_lock then Some (Ok (lst, woken))
        else if RangeLock_end next_lock <=? RangeLock_start pre_lock then
          insert_loop fuel (vec_swap pre_idx next_idx lst) (pre_idx + 1) (next_idx + 1) woken
        else
          and_then (unwrap_option (RangeLock_overlap_with pre_lock next_lock)) (fun overlap_with =>
          match overlap_with with
          | ToLeft =>
              and_then (RangeLock_set_start list_next (RangeLock_end pre_lock)) (fun '(lk, ws) =>
              Some (Ok (<[next_idx := lk]> lst, woken ++ ws)))
          | InMiddle =>
              and_then (RangeLock_set_start next_lock (RangeLock_end pre_lock)) (fun '(right_lk, _) =>
              and_then (RangeLock_set_end list_next (RangeLock_start pre_lock)) (fun '(lk, ws) =>
              let lst := vec_swap pre_idx next_idx (<[next_idx := lk]> lst) in
              Some (Ok (vec_insert (next_idx + 1) right_lk lst, woken ++ ws))))
          | ToRight =>
              and_then (RangeLock_set_end list_next (RangeLock_start pre_lock)) (fun '(lk, ws) =>
              insert_loop fuel (vec_swap pre_idx next_idx (<[next_idx := lk]> lst))
                (pre_idx + 1) (next_idx + 1) (woken ++ ws))
          | Includes =>
              insert_loop fuel (vec_remove next_idx lst) pre_idx next_idx
                (woken ++ RangeLock_drop list_next)
          end)
    | _, _ => Some Panic
    end
  end.

Definition insert_lock_into_list (fuel : nat) (lst : RangeLockList) (lock : RangeLock)
    : option (Result (RangeLockList * list WaiterId)) :=
  match position (fun lk => rl_owner lk =? rl_owner lock) lst with
  | None => Some (Ok (RangeLock_clone lock :: lst, []))
  | Some first_same_owner_idx =>
      let lst := vec_insert first_same_owner_idx (RangeLock_clone lock) lst in
      let pre_idx := first_same_owner_idx in
      let next_idx := (pre_idx + 1)%nat in
      insert_loop fuel lst pre_idx next_idx []
  end.

(** The [loop] of [unlock]. *)
Fixpoint unlock_loop (fuel : nat) (lst : RangeLockList) (lock : RangeLock) (skipped : nat)
    (woken : list WaiterId) : option (Result (RangeLockList * list WaiterId)) :=
  match fuel with
  | O => None
  | S fuel =>
    match position (fun lk => rl_owner lk =? rl_owner lock) (drop skipped lst) with
    | None => Some (Ok (lst, woken))
    | Some i =>
      let idx := (i + skipped)%nat in
      match lst !! idx with
      | None => Some Panic
      | Some existing_lock =>
        match RangeLock_overlap_with lock existing_lock with
        | None => unlock_loop fuel lst lock (idx + 1) woken
        | Some ToLeft =>
            and_then (RangeLock_set_start existing_lock (RangeLock_end lock)) (fun '(lk, ws) =>
            Some (Ok (<[idx := lk]> lst, woken ++ ws)))
        | Some InMiddle =>
            and_then (RangeLock_set_start (RangeLock_clone existing_lock) (RangeLock_end lock))
              (fun '(right_lk, _) =>
            and_then (RangeLock_set_end existing_lock (RangeLock_start lock)) (fun '(lk, ws) =>
            Some (Ok (vec_insert (idx + 1) right_lk (<[idx := lk]> lst), woken ++ ws))))
        | Some ToRight =>
            and_then (RangeLock_set_end existing_lock (RangeLock_start lock)) (fun '(lk, ws) =>
            unlock_loop fuel (<[idx := lk]> lst) lock (idx + 1) (woken ++ ws))
        | Some Includes =>
            unlock_loop fuel (vec_remove idx lst) lock idx (woken ++ RangeLock_drop existing_lock)
        end
      end
    end
  end.

Definition unlock (fuel : nat) (lst : RangeLockList) (lock : RangeLock)
    : option (Result (RangeLockList * list WaiterId)) :=
  unlock_loop fuel lst lock 0 [].

(** One round of the [loop] of [set_lock]: up to where the thread returns or
    sleeps. [waiter] is the fresh [Waiter] it would sleep on. *)
Inductive SetLockRound :=
| LockSet (lst : RangeLockList) (woken : list WaiterId)

| LockWaits (lst : RangeLockList).

Definition set_lock_round (fuel : nat) (lst : RangeLockList) (lock : RangeLock)
    (is_nonblocking : bool) (waiter : WaiterId) : option (Result SetLockRound) :=
  match position (fun l => RangeLock_conflict_with l lock) lst with
  | Some i =>
      if is_nonblocking then Some (Err EAGAIN)
      else match lst !! i with
      | Some conflict_lock =>
          Some (Ok (LockWaits (<[i := RangeLock_enqueue_waiter conflict_lock waiter]> lst)))
      | None => Some Panic
      end
  | None =>
      match insert_lock_into_list fuel lst lock with
      | Some (Ok (lst, woken)) => Some (Ok (LockSet lst woken))
      | Some (Err e) => Some (Err e)
      | Some Panic => Some Panic
      | None => None
      end
  end.

(** * The loops as recursion on the list *)

(** The ranges a request can have: bytes below [OFFSET_MAX], or the empty range at [OFFSET_MAX] that
    "to the end of the file" gives there. *)
Definition range_ok (l : RangeLock) : Prop :=
  RangeLock_start l < RangeLock_end l <= OFFSET_MAX
  \/ (RangeLock_start l = OFFSET_MAX /\ RangeLock_end l = OFFSET_MAX).

Definition queue (l : RangeLock) : list WaiterId := default [] (rl_waiters l).

(** A lock cut down to [start, end), its waiters woken. *)
Definition cut (l : RangeLock) (start end_ : Z) : RangeLock :=
  (RangeLock_dequeue_and_wake_all_waiters (RangeLock_set_range l (mkFileRange start end_))).1.

(** What [insert_loop] makes of the list from [pre_idx] on. *)
Fixpoint adjust (pre : RangeLock) (rest : list RangeLock) : list RangeLock * list WaiterId :=
  match rest with
  | [] => ([pre], [])
  | next :: tl =>
    if negb (rl_owner next =? rl_owner pre) then (pre :: rest, [])
    else if bool_decide (rl_type next = rl_type pre) then
      if RangeLock_end pre <? RangeLock_start next then (pre :: rest, [])
      else if RangeLock_end next <? RangeLock_start pre then
        (next :: (adjust pre tl).1, (adjust pre tl).2)
      else
        let merged := RangeLock_set_range next
          (mkFileRange (RangeLock_start next `min` RangeLock_start pre)
                       (RangeLock_end next `max` RangeLock_end pre)) in
        ((adjust merged tl).1, queue pre ++ (adjust merged tl).2)
    else if RangeLock_end pre <=? RangeLock_start next then (pre :: rest, [])
    else if RangeLock_end next <=? RangeLock_start pre then
      (next :: (adjust pre tl).1, (adjust pre tl).2)
    else
      let left := cut next (RangeLock_start next) (RangeLock_start pre) in
      if RangeLock_end pre <? RangeLock_end next then
        if RangeLock_start pre <=? RangeLock_start next
        then (pre :: cut next (RangeLock_end pre) (RangeLock_end next) :: tl, queue next)
        else (left :: pre :: cut (RangeLock_clone next) (RangeLock_end pre) (RangeLock_end next) :: tl,
              queue next)
      else if RangeLock_start next <? RangeLock_start pre
      then (left :: (adjust pre tl).1, queue next ++ (adjust pre tl).2)
      else ((adjust pre tl).1, queue next ++ (adjust pre tl).2)
  end.

Lemma drop_queue l : RangeLock_drop l = queue l.
Proof. destruct l as [? ? ? [ws|]]; done. Qed.

Lemma set_start_cut l s :
  RangeLock_start l < s -> s < RangeLock_end l ->
  RangeLock_set_start l s = Ok (cut l s (RangeLock_end l), queue l).
Proof.
  intros H1 H2. unfold RangeLock_set_start, FileRange_set_start in *.
  destruct (Z.leb_spec (fr_end (rl_range l)) s); [lia|]. simpl.
  destruct (Z.ltb_spec (fr_start (rl_range l)) s); [|lia].
  destruct l as [? ? ? [ws|]]; done.
Qed.

Lemma set_end_cut l e :
  RangeLock_start l < e -> e < RangeLock_end l ->
  RangeLock_set_end l e = Ok (cut l (RangeLock_start l) e, queue l).
Proof.
  intros H1 H2. unfold RangeLock_set_end, FileRange_set_end in *.
  destruct (Z.leb_spec e (fr_start (rl_range l))); [lia|]. simpl.
  destruct (Z.ltb_spec e (fr_end (rl_range l))); [|lia].
  destruct l as [? ? ? [ws|]]; done.
Qed.

Lemma merge_with_eq l o :
  RangeLock_start o <= RangeLock_end l -> RangeLock_start l <= RangeLock_end o ->
  RangeLock_merge_with l o = Ok (RangeLock_set_range l
    (mkFileRange (RangeLock_start l `min` RangeLock_start o) (RangeLock_end l `max` RangeLock_end o))).
Proof.
  intros H1 H2. unfold RangeLock_merge_with, FileRange_merge in *.
  destruct l as [? ? [ls le] ?], o as [? ? [os oe] ?]; simpl in *.
  destruct (Z.ltb_spec le os), (Z.ltb_spec oe ls); try lia; simpl.
  destruct (Z.ltb_spec os ls); simpl; destruct (Z.ltb_spec le oe); simpl; unfold RangeLock_set_range;
    simpl; repeat f_equal; lia.
Qed.

Lemma clone_start l : RangeLock_start (RangeLock_clone l) = RangeLock_start l.
Proof. done. Qed.
Lemma clone_end l : RangeLock_end (RangeLock_clone l) = RangeLock_end l.
Proof. done. Qed.

Lemma overlap_clone_eq l o :
  RangeLock_start l < RangeLock_end o -> RangeLock_start o < RangeLock_end l ->
  RangeLock_overlap_with l o =
  Some (if RangeLock_end l <? RangeLock_end o
        then if RangeLock_start l <=? RangeLock_start o then ToLeft else InMiddle
        else if RangeLock_start o <? RangeLock_start l then ToRight else Includes).
Proof.
  unfold RangeLock_overlap_with, FileRange_overlap_with.
  intros H1 H2. rewrite (proj2 (Z.leb_gt _ _) H1), (proj2 (Z.leb_gt _ _) H2). simpl. f_equal.
  repeat case_if; boolprop; try done; lia.
Qed.

(** The indexed loop and the recursion agree, and the loop ends: each round
    drops an element or moves past one. *)
Lemma insert_loop_adjust fuel l1 pre rest w :
  range_ok pre -> Forall range_ok rest -> (length rest < fuel)%nat ->
  insert_loop fuel (l1 ++ pre :: rest) (length l1) (length l1 + 1) w =
  Some (Ok (l1 ++ (adjust pre rest).1, w ++ (adjust pre rest).2)).
Proof.
  revert l1 pre w fuel. induction rest as [|next tl IH]; intros l1 pre w fuel Hp Hr Hf;
    (destruct fuel as [|fuel]; [simpl in Hf; lia|]).
  { simpl. rewrite length_app. simpl. destruct (Nat.leb_spec (length l1 + 1) (length l1 + 1)); [|lia].
    by rewrite app_nil_r. }
  apply Forall_cons_iff in Hr as [Hn Hr]. cbn [length] in Hf.
  assert (Hnext : forall x w', insert_loop fuel (l1 ++ x :: pre :: tl) (length l1 + 1)
      (length l1 + 1 + 1) w' = Some (Ok (l1 ++ x :: (adjust pre tl).1, w' ++ (adjust pre tl).2))).
  { intros x w'. replace (l1 ++ x :: pre :: tl) with ((l1 ++ [x]) ++ pre :: tl) by (rewrite <- app_assoc; done).
    replace (length l1 + 1)%nat with (length (l1 ++ [x])) by (rewrite length_app; done).
    rewrite IH by (auto; lia). by rewrite <- app_assoc. }
  cbn [insert_loop adjust]. rewrite length_app. cbn [length].
  destruct (Nat.leb_spec (length l1 + S (S (length tl))) (length l1 + 1)); [lia|].
  rewrite lookup_first, lookup_second. rewrite !clone_start, !clone_end.
  cbn [rl_owner rl_type RangeLock_clone].
  destruct (negb (rl_owner next =? rl_owner pre)); [by rewrite app_nil_r|].
  unfold range_ok in *.
  destruct (bool_decide (rl_type next = rl_type pre)).
  - destruct (Z.ltb_spec (RangeLock_end pre) (RangeLock_start next)); [by rewrite app_nil_r|].
    destruct (Z.ltb_spec (RangeLock_end next) (RangeLock_start pre)).
    { by rewrite swap_neighbours, Hnext. }
    rewrite merge_with_eq, !clone_start, !clone_end by (rewrite ?clone_start, ?clone_end; lia).
    cbn [and_then]. rewrite insert_second, remove_first, drop_queue.
    rewrite IH; [by rewrite <- app_assoc| |done|lia].
    unfold range_ok in *. simpl. lia.
  - destruct (Z.leb_spec (RangeLock_end pre) (RangeLock_start next)); [by rewrite app_nil_r|].
    destruct (Z.leb_spec (RangeLock_end next) (RangeLock_start pre)).
    { by rewrite swap_neighbours, Hnext. }
    rewrite overlap_clone_eq by (rewrite ?clone_start, ?clone_end; lia).
    rewrite !clone_start, !clone_end. cbn [unwrap_option and_then].
    destruct (Z.ltb_spec (RangeLock_end pre) (RangeLock_end next));
      [destruct (Z.leb_spec (RangeLock_start pre) (RangeLock_start next))|
       destruct (Z.ltb_spec (RangeLock_start next) (RangeLock_start pre))].
    + rewrite set_start_cut by lia. cbn [and_then]. by rewrite insert_second.
    + rewrite set_start_cut by (rewrite ?clone_start, ?clone_end; lia). cbn [and_then].
      rewrite set_end_cut by lia. cbn [and_then]. by rewrite insert_second, swap_neighbours, insert_third.
    + rewrite set_end_cut by lia. cbn [and_then]. rewrite insert_second, swap_neighbours, Hnext.
      by rewrite <- app_assoc.
    + rewrite remove_second, drop_queue, IH by (auto; lia). by rewrite <- app_assoc.
Qed.

(** * The invariant of the list *)

(** Locks of one owner do not overlap, are in order, and touch only if their
    types differ or the second is empty. *)
Definition before (x y : RangeLock) : Prop :=
  rl_owner x = rl_owner y ->
  RangeLock_end x <= RangeLock_start y /\
  (rl_type x = rl_type y -> RangeLock_end x < RangeLock_start y \/ RangeLock_start y = RangeLock_end y).

(** The locks of one owner are next to each other. *)
Definition grouped (x : RangeLock) (l : list RangeLock) : Prop :=
  match l with
  | [] => True
  | y :: _ => rl_owner y = rl_owner x \/ Forall (fun z => rl_owner z <> rl_owner x) l
  end.

Inductive list_ok : list RangeLock -> Prop :=
| list_ok_nil : list_ok []
| list_ok_cons x l :
    range_ok x -> Forall (before x) l -> grouped x l -> list_ok l -> list_ok (x :: l).
#[export] Hint Constructors list_ok : occlum.

Ltac lock_unfold :=
  unfold before, range_ok, cut, RangeLock_set_range, RangeLock_clone, RangeLock_dequeue_and_wake_all_waiters in *.

(** The fields of a cut lock. *)
Lemma cut_fields l s e :
  rl_owner (cut l s e) = rl_owner l /\ rl_type (cut l s e) = rl_type l /\
  RangeLock_start (cut l s e) = s /\ RangeLock_end (cut l s e) = e /\ queue (cut l s e) = [].
Proof. destruct l as [? ? ? [ws|]]; done. Qed.

Ltac cut_simpl :=
  repeat match goal with
  | |- context [cut ?l ?s ?e] =>
      let x := fresh "x" in let H := fresh "H" in
      pose proof (cut_fields l s e) as H; set (x := cut l s e) in *; clearbody x;
      destruct H as (? & ? & ? & ? & ?)
  end.

(** Properties that survive cutting and merging hold of the whole result. *)
Record survives (P : RangeLock -> Prop) : Prop := {
  survives_cut l s e : P l -> RangeLock_start l <= s -> s < e -> e <= RangeLock_end l -> P (cut l s e);
  survives_clone l : P l -> P (RangeLock_clone l);
  survives_merge n p : P n -> P p -> range_ok n -> range_ok p -> rl_owner n = rl_owner p -> rl_type n = rl_type p ->
    P (RangeLock_set_range n
         (mkFileRange (RangeLock_start n `min` RangeLock_start p)
                      (RangeLock_end n `max` RangeLock_end p)));
}.

Lemma adjust_Forall P pre rest :
  survives P -> range_ok pre -> Forall range_ok rest -> P pre -> Forall P rest ->
  Forall P (adjust pre rest).1.
Proof.
  intros [Hcut Hclone Hmerge]. revert pre.
  induction rest as [|next tl IH]; intros pre Hp Hr HP HPr; [by constructor|].
  apply Forall_cons_iff in Hr as [Hn Hr]. pose proof HPr as [HPn HPt]%Forall_cons_iff. simpl.
  destruct (Z.eqb_spec (rl_owner next) (rl_owner pre)) as [Ho|]; simpl; [|by constructor].
  case_bool_decide; repeat case_if; boolprop; simpl; repeat constructor; auto.
  all: try (apply IH; auto; lock_unfold; simpl; lia).
  all: apply Hcut; auto; rewrite ?clone_start, ?clone_end; lia.
Qed.

Lemma survives_before x : survives (before x).
Proof.
  constructor.
  - intros l s e Hl ? ? ?. unfold before in *. cut_simpl. intros Hxo.
    destruct Hl as [Hl1 Hl2]; [congruence|]. split; [lia|].
    intros Ht. specialize (Hl2 ltac:(congruence)). lia.
  - intros l Hl. exact Hl.
  - intros n p Hn Hp Hrn Hrp Ho Ht. unfold before, range_ok in *. simpl.
    rewrite Ho, Ht in *. intros Hx. destruct (Hn Hx) as [Hn1 Hn2], (Hp Hx) as [Hp1 Hp2]. split; [lia|].
    intros Htx. specialize (Hn2 Htx). specialize (Hp2 Htx). lia.
Qed.

Lemma survives_owner (P : Z -> Prop) : survives (fun l => P (rl_owner l)).
Proof. constructor; auto. intros l s e Hl _ _ _. cut_simpl. congruence. Qed.

Definition nonempty (l : RangeLock) : Prop := RangeLock_start l < RangeLock_end l.

Lemma survives_nonempty : survives nonempty.
Proof.
  unfold nonempty. constructor; cbn; [|done|lia]. intros l s e _ _ ? _. cut_simpl. lia.
Qed.

Lemma list_ok_ranges l : list_ok l -> Forall range_ok l.
Proof. induction 1; by constructor. Qed.

Lemma adjust_head pre rest :
  exists y l, (adjust pre rest).1 = y :: l /\ rl_owner y = rl_owner pre.
Proof.
  revert pre. induction rest as [|next tl IH]; intros pre; simpl; [eauto|].
  destruct (Z.eqb_spec (rl_owner next) (rl_owner pre)) as [Ho|]; simpl; [|eauto].
  case_bool_decide; repeat case_if; simpl; eauto.
  - destruct (IH (RangeLock_set_range next
      (mkFileRange (RangeLock_start next `min` RangeLock_start pre)
         (RangeLock_end next `max` RangeLock_end pre)))) as (y & l & Hy & Hyo). simpl in Hyo. rewrite Hy.
    exists y, l. split; [done|congruence].
  - do 2 eexists. split; [done|]. cut_simpl. congruence.
  - do 2 eexists. split; [done|]. cut_simpl. congruence.
Qed.

(** Everything after [next] is after whatever ends before it. *)
Lemma before_trans x n tl :
  rl_owner x = rl_owner n -> range_ok n -> RangeLock_end x <= RangeLock_start n -> Forall range_ok tl ->
  Forall (before n) tl -> Forall (before x) tl.
Proof.
  intros Ho Hn Hle Hr Hb. eapply Forall_impl; [|exact (Forall_and Hr Hb)].
  intros z [Hrz Hz] Hxz. destruct Hz as [Hz _]; [congruence|]. unfold range_ok in Hn, Hrz. split; [lia|intros _; lia].
Qed.

(** A shorter lock that ends earlier is strictly before what follows. *)
Lemma before_shorter x n tl :
  rl_owner x = rl_owner n -> RangeLock_end x < RangeLock_end n ->
  Forall (before n) tl -> Forall (before x) tl.
Proof.
  intros Ho Hlt. apply Forall_impl. intros z Hz Hxz.
  destruct Hz as [Hz _]; [congruence|]. split; [lia|intros _; lia].
Qed.

(** A lock that ends where [n] ends is before what follows [n]. *)
Lemma before_same_end x n tl :
  rl_owner x = rl_owner n -> rl_type x = rl_type n -> RangeLock_end x = RangeLock_end n ->
  Forall (before n) tl -> Forall (before x) tl.
Proof.
  intros Ho Ht He. apply Forall_impl. intros z Hz. unfold before in *. by rewrite Ho, Ht, He.
Qed.

Lemma grouped_owner x n tl : rl_owner x = rl_owner n -> grouped n tl -> grouped x tl.
Proof. unfold grouped. by intros ->. Qed.

Lemma list_ok_pass y pre tl :
  range_ok y -> range_ok pre -> rl_owner y = rl_owner pre -> before y pre ->
  Forall range_ok tl -> Forall (before y) tl -> list_ok (adjust pre tl).1 ->
  list_ok (y :: (adjust pre tl).1).
Proof.
  intros Hy Hp Ho Hb Hr Htl Hok. constructor; auto.
  - by apply adjust_Forall; auto using survives_before.
  - destruct (adjust_head pre tl) as (h & t & -> & Hh). left. congruence.
Qed.

Lemma list_ok_break pre n tl :
  range_ok pre -> rl_owner n = rl_owner pre -> before pre n -> list_ok (n :: tl) ->
  list_ok (pre :: n :: tl).
Proof.
  intros Hp Ho Hb Hok. inversion Hok as [|? ? Hn Hbn Hg Htl]; subst. constructor; auto; [|by left].
  constructor; [done|]. apply before_trans with n; auto; [by apply Hb|by apply list_ok_ranges].
Qed.

Lemma list_ok_adjust pre rest :
  range_ok pre -> list_ok rest -> grouped pre rest -> list_ok (adjust pre rest).1.
Proof.
  intros Hp Hr. revert pre Hp. induction Hr as [|n tl Hn Hb Hgr Htl IH]; intros pre Hp Hg; simpl.
  { constructor; auto with occlum. }
  pose proof (list_ok_ranges _ Htl) as Hrt.
  destruct (Z.eqb_spec (rl_owner n) (rl_owner pre)) as [Ho|Ho]; simpl.
  2:{ destruct Hg as [|Hg]; [done|]. constructor; auto with occlum; [|by right].
      eapply Forall_impl; [|exact Hg]. intros z Hz ?. congruence. }
  assert (Hgp : grouped pre tl) by (by eapply grouped_owner; [|exact Hgr]).
  assert (Hntl : list_ok (n :: tl)) by by constructor.
  unfold range_ok in Hp, Hn.
  case_bool_decide as Hty; repeat case_if; boolprop; simpl.
  - apply list_ok_break; auto. split; [lia|intros _; lia].
  - apply list_ok_pass; auto. split; [lia|intros _; lia].
  - apply IH; [lock_unfold; simpl; lia|done].
  - apply list_ok_break; auto. split; [lia|congruence].
  - apply list_ok_pass; auto. split; [lia|congruence].
  - pose proof (cut_fields n (RangeLock_end pre) (RangeLock_end n)) as (? & ? & ? & ? & _).
    apply list_ok_break; auto; [congruence|split; [lia|congruence]|].
    constructor; auto; [unfold range_ok; lia| |by eapply grouped_owner; [|exact Hgr]].
    by eapply before_same_end; [..|exact Hb].
  - pose proof (cut_fields n (RangeLock_start n) (RangeLock_start pre)) as (? & ? & ? & ? & _).
    pose proof (cut_fields (RangeLock_clone n) (RangeLock_end pre) (RangeLock_end n)) as (? & ? & ? & ? & _).
    apply list_ok_break; [unfold range_ok; lia|congruence|split; [lia|congruence]|].
    apply list_ok_break; auto; [split; [lia|simpl in *; congruence]|].
    refine (list_ok_cons _ _ _ _ _ Htl); [unfold range_ok; lia| |by eapply grouped_owner; [|exact Hgr]].
    by eapply before_same_end; [..|exact Hb].
  - pose proof (cut_fields n (RangeLock_start n) (RangeLock_start pre)) as (? & ? & ? & ? & _).
    apply list_ok_pass; auto; [unfold range_ok; lia|congruence|split; [lia|congruence]|].
    by eapply before_shorter; [..|exact Hb]; lia.
  - by apply IH.
Qed.

(** * The meaning of the list *)

Definition covers (l : RangeLock) (owner off : Z) : Prop :=
  rl_owner l = owner /\ RangeLock_start l <= off < RangeLock_end l.

#[export] Instance covers_dec l owner off : Decision (covers l owner off).
Proof. unfold covers. apply _. Defined.

(** [owner] holds a lock of type [t] on the byte at [off]. *)
Definition held (l : list RangeLock) (owner off : Z) (t : RangeLockType) : Prop :=
  exists x, x ∈ l /\ covers x owner off /\ rl_type x = t.

Lemma held_nil owner off t : held [] owner off t <-> False.
Proof. unfold held. set_solver. Qed.

Lemma held_cons x l owner off t :
  held (x :: l) owner off t <-> (covers x owner off /\ rl_type x = t) \/ held l owner off t.
Proof. unfold held. set_solver. Qed.

Lemma held_app l1 l2 owner off t :
  held (l1 ++ l2) owner off t <-> held l1 owner off t \/ held l2 owner off t.
Proof. unfold held. set_solver. Qed.

Lemma held_after x l owner off t :
  Forall (before x) l -> held l owner off t -> rl_owner x = owner -> RangeLock_end x <= off.
Proof.
  intros Hb (z & Hz & [Ho Hr] & _) Hx. apply list_elem_of_In in Hz.
  rewrite Forall_forall in Hb. destruct (Hb z Hz) as [? _]; [congruence|lia].
Qed.

Lemma held_owner l owner off t :
  Forall (fun z => rl_owner z <> owner) l -> ~ held l owner off t.
Proof.
  intros Hb (z & Hz & [Ho Hr] & _). apply list_elem_of_In in Hz.
  rewrite Forall_forall in Hb. by apply (Hb z Hz).
Qed.

(** The holder's lock is unique, so the list is a map. *)
Lemma held_unique l owner off t1 t2 :
  list_ok l -> held l owner off t1 -> held l owner off t2 -> t1 = t2.
Proof.
  induction 1 as [|x l Hx Hb Hg Hok IH]; rewrite ?held_nil, ?held_cons; [done|].
  intros [[[Ho Hr] <-]|H1] [[[Ho' Hr'] <-]|H2]; auto.
  - pose proof (held_after _ _ _ _ _ Hb H2 Ho). lia.
  - pose proof (held_after _ _ _ _ _ Hb H1 Ho'). lia.
Qed.

Lemma covers_cut l s e owner off :
  covers (cut l s e) owner off <-> rl_owner l = owner /\ s <= off < e.
Proof. unfold covers. destruct (cut_fields l s e) as (-> & _ & -> & -> & _). done. Qed.

Lemma type_cut l s e : rl_type (cut l s e) = rl_type l.
Proof. apply cut_fields. Qed.

Lemma covers_set_range l r owner off :
  covers (RangeLock_set_range l r) owner off <-> rl_owner l = owner /\ fr_start r <= off < fr_end r.
Proof. done. Qed.

Ltac held_simpl :=
  cbn [fst snd];
  rewrite ?held_app, ?held_cons, ?held_nil, ?covers_cut, ?covers_set_range, ?type_cut;
  cbn [rl_owner rl_type fr_start fr_end RangeLock_clone RangeLock_set_range].

Lemma held_adjust_other pre rest owner off t :
  owner <> rl_owner pre -> held (adjust pre rest).1 owner off t <-> held rest owner off t.
Proof.
  revert pre. induction rest as [|n tl IH]; intros pre Ho; simpl.
  { held_simpl. unfold covers. intuition congruence. }
  destruct (Z.eqb_spec (rl_owner n) (rl_owner pre)) as [Hno|]; simpl.
  2:{ held_simpl. unfold covers. intuition congruence. }
  case_bool_decide; repeat case_if; held_simpl; rewrite ?IH by (simpl; congruence);
    unfold covers; intuition congruence.
Qed.

(** The new lock wins on its range, the rest is as before. *)
Lemma held_adjust pre rest owner off t :
  range_ok pre -> list_ok rest -> grouped pre rest ->
  held (adjust pre rest).1 owner off t <->
  (covers pre owner off /\ rl_type pre = t) \/ (~ covers pre owner off /\ held rest owner off t).
Proof.
  intros Hp Hr Hg. destruct (decide (owner = rl_owner pre)) as [->|Ho].
  2:{ rewrite held_adjust_other by done. unfold covers. intuition congruence. }
  revert pre Hp Hg. induction Hr as [|n tl Hn Hb Hgr Htl IH]; intros pre Hp Hg.
  { simpl. held_simpl. tauto. }
  simpl.
  destruct (Z.eqb_spec (rl_owner n) (rl_owner pre)) as [Ho|Ho]; simpl.
  2:{ destruct Hg as [|Hg]; [done|]. apply (held_owner _ _ off t) in Hg. rewrite held_cons. tauto. }
  assert (Hgp : grouped pre tl) by (by eapply grouped_owner; [|exact Hgr]).
  assert (Hafter : held tl (rl_owner pre) off t -> RangeLock_end n <= off)
    by (intros; by eapply held_after).
  unfold range_ok in Hp, Hn. unfold covers at 1 2.
  case_bool_decide as Hty; repeat case_if; boolprop; held_simpl; rewrite ?IH by (unfold range_ok; auto);
    unfold covers.
  all: try (intuition (congruence || lia)).
  - set (m := RangeLock_set_range n _).
    destruct (IH m) as [IH1 IH2]; [unfold range_ok in *; simpl; lia| |].
    { by eapply grouped_owner; [|exact Hgr]. }
    replace (rl_owner m) with (rl_owner pre) in IH1, IH2 by done.
    replace (rl_type m) with (rl_type n) in IH1, IH2 by done.
    unfold m in IH1, IH2. rewrite covers_set_range in IH1, IH2. cbn [fr_start fr_end] in IH1, IH2.
    fold m in IH1, IH2.
    assert (Hu : RangeLock_start n `min` RangeLock_start pre <= off < RangeLock_end n `max` RangeLock_end pre
      <-> (RangeLock_start pre <= off < RangeLock_end pre) \/ (RangeLock_start n <= off < RangeLock_end n))
      by lia.
    rewrite Hu in IH1, IH2. clear Hu. split.
    + intros H. apply IH1 in H as [[[_ Hin] Ht]|[Hout H]].
      * destruct (decide (RangeLock_start pre <= off < RangeLock_end pre)); [left; split; [done|congruence]|].
        right. split; [tauto|]. left. split; [|done]. tauto.
      * right. split; [tauto|by right].
    + intros [[[_ Hin] Ht]|[Hout [[[_ Hin] Ht]|H]]]; apply IH2.
      * left. split; [tauto|congruence].
      * left. tauto.
      * right. split; [|done]. specialize (Hafter H). intros [_ [?|?]]; [tauto|lia].
  - destruct (decide (RangeLock_start pre <= off < RangeLock_end pre)) as [Hi|Hi].
    + assert (~ RangeLock_start n <= off < RangeLock_start pre) by lia.
      assert (~ RangeLock_end pre <= off < RangeLock_end n) by lia.
      assert (~ held tl (rl_owner pre) off t) by (intros H'; specialize (Hafter H'); lia). tauto.
    + assert (Hu : RangeLock_start n <= off < RangeLock_end n <->
        RangeLock_start n <= off < RangeLock_start pre \/ RangeLock_end pre <= off < RangeLock_end n) by lia.
      rewrite Hu. tauto.
Qed.

(** * Waiting threads *)

(** Thread [w], asking for [r], sleeps on a lock that conflicts with [r]. *)
Definition waits (l : list RangeLock) (w : WaiterId) (r : RangeLock) : Prop :=
  exists x, x ∈ l /\ w ∈ queue x /\ RangeLock_conflict_with x r = true.

Lemma waits_cons x l w r :
  waits (x :: l) w r <-> (w ∈ queue x /\ RangeLock_conflict_with x r = true) \/ waits l w r.
Proof. unfold waits. set_solver. Qed.

Lemma waits_app l1 l2 w r : waits (l1 ++ l2) w r <-> waits l1 w r \/ waits l2 w r.
Proof. unfold waits. set_solver. Qed.

Lemma conflict_with_spec x r :
  RangeLock_conflict_with x r = true <->
  rl_owner x <> rl_owner r /\ RangeLock_start x < RangeLock_end r /\
  RangeLock_start r < RangeLock_end x /\ (rl_type x = F_WRLCK \/ rl_type r = F_WRLCK).
Proof.
  unfold RangeLock_conflict_with, RangeLock_overlap_with, FileRange_overlap_with.
  destruct (Z.eqb_spec (rl_owner x) (rl_owner r)); [split; [done|tauto]|].
  destruct ((fr_end (rl_range r) <=? fr_start (rl_range x)) || _) eqn:Hov.
  - split; [done|]. lia.
  - rewrite orb_true_iff, !bool_decide_eq_true. split; [|tauto]. intros ?. split_and!; [done|lia|lia|done].
Qed.

(** A thread is either still in the queue of a conflicting lock, or woken. *)
Definition keeps_waiters (l : list RangeLock) (res : list RangeLock * list WaiterId) : Prop :=
  forall w r, waits l w r -> waits res.1 w r \/ w ∈ res.2.

Lemma keeps_pass x l res :
  keeps_waiters l res -> keeps_waiters (x :: l) (x :: res.1, res.2).
Proof.
  intros H w r. simpl. rewrite !waits_cons. intros [?|?]; [tauto|]. destruct (H w r); auto.
Qed.

(** An element that is dropped or cut, with its waiters woken. *)
Lemma keeps_drop x l res :
  keeps_waiters l res -> keeps_waiters (x :: l) (res.1, queue x ++ res.2).
Proof.
  intros H w r. simpl. rewrite waits_cons, elem_of_app. intros [[? _]|?]; [tauto|]. destruct (H w r); auto.
Qed.

Lemma keeps_more x l res : keeps_waiters l res -> keeps_waiters l (x :: res.1, res.2).
Proof. intros H w r Hw. simpl. rewrite waits_cons. destruct (H w r Hw); auto. Qed.

Lemma keeps_swap x y l res : keeps_waiters (x :: y :: l) res -> keeps_waiters (y :: x :: l) res.
Proof. intros H w r Hw. apply H. rewrite !waits_cons in *. tauto. Qed.

Lemma keeps_refl l : keeps_waiters l (l, []).
Proof. intros w r Hw. by left. Qed.

Lemma keeps_cut n x tl : keeps_waiters (n :: tl) (x :: tl, queue n).
Proof. intros w r. simpl. rewrite !waits_cons. tauto. Qed.

Lemma keeps_merge pre n tl res m :
  rl_owner m = rl_owner n -> rl_type m = rl_type n -> queue m = queue n ->
  RangeLock_start m <= RangeLock_start n -> RangeLock_end n <= RangeLock_end m ->
  keeps_waiters (m :: tl) res -> keeps_waiters (pre :: n :: tl) (res.1, queue pre ++ res.2).
Proof.
  intros Ho Ht Hq Hs He H w r. rewrite !waits_cons. simpl. rewrite elem_of_app.
  intros [[? _]|Hw]; [tauto|]. destruct (H w r); [|tauto..]. rewrite waits_cons.
  destruct Hw as [[Hw Hc]|?]; [|tauto]. left. split; [congruence|].
  apply conflict_with_spec in Hc. apply conflict_with_spec. rewrite Ho, Ht. intuition lia.
Qed.

Lemma keeps_adjust pre rest : keeps_waiters (pre :: rest) (adjust pre rest).
Proof.
  revert pre. induction rest as [|n tl IH]; intros pre; simpl; [apply keeps_refl|].
  destruct (negb (rl_owner n =? rl_owner pre)); [apply keeps_refl|].
  case_bool_decide; repeat case_if; try apply keeps_refl.
  - apply keeps_swap, keeps_pass, IH.
  - eapply keeps_merge; [..|apply IH]; try done; simpl; lia.
  - apply keeps_swap, keeps_pass, IH.
  - apply (keeps_pass pre (n :: tl) (_ :: tl, queue n)), keeps_cut.
  - apply (keeps_more _ (pre :: n :: tl) (pre :: _ :: tl, queue n)),
      (keeps_pass pre (n :: tl) (_ :: tl, queue n)), keeps_cut.
  - apply keeps_swap, (keeps_more _ _ ((adjust pre tl).1, queue n ++ (adjust pre tl).2)), keeps_drop, IH.
  - apply keeps_swap, keeps_drop, IH.
Qed.

(** * Inserting a lock *)

Lemma list_ok_app_r l1 l2 : list_ok (l1 ++ l2) -> list_ok l2.
Proof. induction l1 as [|y l1 IH]; [done|]. inversion 1; subst. auto. Qed.

Lemma list_ok_app_adjust l1 pre x l2 :
  range_ok pre -> rl_owner x = rl_owner pre -> Forall (fun y => rl_owner y <> rl_owner pre) l1 ->
  list_ok (l1 ++ x :: l2) -> list_ok (l1 ++ (adjust pre (x :: l2)).1).
Proof.
  intros Hp Hx. induction l1 as [|y l1 IH]; intros Ho Hok.
  { apply list_ok_adjust; auto. by left. }
  apply Forall_cons_iff in Ho as [Hy Ho]. cbn [app] in *.
  inversion Hok as [|? ? Hry Hb Hg Hok']; subst.
  apply Forall_app in Hb as [Hb1 Hb2].
  pose proof (list_ok_ranges _ (list_ok_app_r _ _ Hok')) as Hr.
  constructor; auto.
  - apply Forall_app. split; [done|]. apply adjust_Forall; auto using survives_before.
    intros ?. congruence.
  - destruct l1 as [|z l1]; cbn [app grouped] in *.
    + destruct Hg as [|Hg]; [congruence|].
      assert (Hall : Forall (fun z => rl_owner z <> rl_owner y) (adjust pre (x :: l2)).1).
      { apply (adjust_Forall (fun z => rl_owner z <> rl_owner y)); auto.
        apply (survives_owner (fun o => o <> rl_owner y)). }
      destruct (adjust pre (x :: l2)).1; [done|]. by right.
    + destruct Hg as [|Hg]; [by left|]. right.
      rewrite app_comm_cons in *. apply Forall_app in Hg as [Hg1 Hg2]. apply Forall_app. split; [done|].
      apply (adjust_Forall (fun z => rl_owner z <> rl_owner y)); auto.
      apply (survives_owner (fun o => o <> rl_owner y)).
Qed.

Lemma held_clone lock owner off : covers (RangeLock_clone lock) owner off <-> covers lock owner off.
Proof. done. Qed.

(** [l'] is [l] with [t] on the bytes of the lock. *)
Definition overridden (l l' : list RangeLock) (lock : RangeLock) : Prop :=
  forall owner off t, held l' owner off t <->
    (covers lock owner off /\ rl_type lock = t) \/ (~ covers lock owner off /\ held l owner off t).

Lemma keeps_app l1 l res : keeps_waiters l res -> keeps_waiters (l1 ++ l) (l1 ++ res.1, res.2).
Proof.
  intros H. induction l1 as [|x l1 IH]; [by destruct res|]. apply (keeps_pass x _ (l1 ++ res.1, res.2) IH).
Qed.

Lemma keeps_new x l res : keeps_waiters (x :: l) res -> keeps_waiters l res.
Proof. intros H w r Hw. apply H. rewrite waits_cons. by right. Qed.

Lemma insert_ok fuel l lock :
  list_ok l -> range_ok lock -> (length l < fuel)%nat ->
  exists l' w, insert_lock_into_list fuel l lock = Some (Ok (l', w)) /\
    list_ok l' /\ overridden l l' lock /\ keeps_waiters l (l', w) /\ (Forall nonempty (lock :: l) -> Forall nonempty l').
Proof.
  intros Hok Hr Hf. unfold insert_lock_into_list.
  destruct (position _ l) as [i|] eqn:Hpos.
  - apply position_Some in Hpos as (l1 & x & l2 & -> & <- & Hx & Hl1).
    assert (Ho1 : Forall (fun y => rl_owner y <> rl_owner lock) l1)
      by (eapply Forall_impl; [|exact Hl1]; simpl; intros; lia).
    apply Z.eqb_eq in Hx. pose proof (list_ok_app_r _ _ Hok) as Hok2.
    rewrite vec_insert_middle, insert_loop_adjust;
      [|done|by apply list_ok_ranges|rewrite length_app in Hf; simpl in *; lia].
    do 2 eexists. split; [done|]. split_and!.
    + by apply list_ok_app_adjust.
    + intros owner off t. rewrite held_app, held_adjust by (try done; by left).
      rewrite held_clone, held_app. cbn [rl_type RangeLock_clone].
      destruct (decide (covers lock owner off)) as [Hc|Hc]; [|tauto].
      assert (~ held l1 owner off t) by (destruct Hc as [<- _]; by apply held_owner). tauto.
    + apply (keeps_app l1 (x :: l2) (adjust (RangeLock_clone lock) (x :: l2))).
      eapply keeps_new, keeps_adjust.
    + rewrite Forall_cons_iff, !Forall_app. intros [Hne [Hn1 Hn2]]. split; [done|].
      apply adjust_Forall; auto using survives_nonempty. by apply list_ok_ranges.
  - apply position_None in Hpos.
    assert (Ho : Forall (fun y => rl_owner y <> rl_owner lock) l)
      by (eapply Forall_impl; [|exact Hpos]; simpl; intros; lia).
    do 2 eexists. split; [done|]. split_and!.
    + constructor; auto; [|destruct l; [done|by right]].
      eapply Forall_impl; [|exact Ho]. simpl. intros z Hz Heq. simpl in Heq. congruence.
    + intros owner off t. rewrite held_cons, held_clone. cbn [rl_type RangeLock_clone].
      destruct (decide (covers lock owner off)) as [Hc|Hc]; [|tauto].
      assert (~ held l owner off t) by (destruct Hc as [<- _]; by apply held_owner). tauto.
    + apply (keeps_more _ l (l, [])), keeps_refl.
    + rewrite !Forall_cons_iff. tauto.
Qed.

(** * Releasing a range *)

(** What [unlock_loop] makes of the list from [skipped] on. *)
Fixpoint release (lock : RangeLock) (l : list RangeLock) : list RangeLock * list WaiterId :=
  match l with
  | [] => ([], [])
  | x :: tl =>
    if negb (rl_owner x =? rl_owner lock) then (x :: (release lock tl).1, (release lock tl).2)
    else match RangeLock_overlap_with lock x with
    | None => (x :: (release lock tl).1, (release lock tl).2)
    | Some ToLeft => (cut x (RangeLock_end lock) (RangeLock_end x) :: tl, queue x)
    | Some InMiddle =>
        (cut x (RangeLock_start x) (RangeLock_start lock)
         :: cut (RangeLock_clone x) (RangeLock_end lock) (RangeLock_end x) :: tl, queue x)
    | Some ToRight =>
        (cut x (RangeLock_start x) (RangeLock_start lock) :: (release lock tl).1,
         queue x ++ (release lock tl).2)
    | Some Includes => ((release lock tl).1, queue x ++ (release lock tl).2)
    end
  end.

Lemma release_skip lock l1 l :
  Forall (fun y => (rl_owner y =? rl_owner lock) = false) l1 ->
  release lock (l1 ++ l) = (l1 ++ (release lock l).1, (release lock l).2).
Proof.
  induction 1 as [|y l1 Hy Hl1 IH]; simpl; [by destruct (release lock l)|]. by rewrite Hy, IH.
Qed.

Lemma overlap_spec l o :
  range_ok o ->
  match RangeLock_overlap_with l o with
  | None => RangeLock_end o <= RangeLock_start l \/ RangeLock_end l <= RangeLock_start o
  | Some ToLeft => RangeLock_start l <= RangeLock_start o /\
                   RangeLock_start o < RangeLock_end l < RangeLock_end o
  | Some InMiddle => RangeLock_start o < RangeLock_start l /\ RangeLock_end l < RangeLock_end o
                     /\ RangeLock_start l < RangeLock_end o /\ RangeLock_start o < RangeLock_end l
  | Some ToRight => RangeLock_start o < RangeLock_start l < RangeLock_end o /\
                    RangeLock_end o <= RangeLock_end l
  | Some Includes => RangeLock_start l <= RangeLock_start o /\ RangeLock_end o <= RangeLock_end l
  end.
Proof.
  unfold range_ok, RangeLock_overlap_with, FileRange_overlap_with.
  intros Ho. repeat case_if; boolprop; try lia.
Qed.

Lemma unlock_loop_release fuel l1 lock l w :
  Forall range_ok l -> (length l < fuel)%nat ->
  unlock_loop fuel (l1 ++ l) lock (length l1) w =
  Some (Ok (l1 ++ (release lock l).1, w ++ (release lock l).2)).
Proof.
  revert l1 l w. induction fuel as [|fuel IH]; intros l1 l w Hr Hf; [lia|].
  cbn [unlock_loop]. rewrite drop_app_length.
  destruct (position _ l) as [i|] eqn:Hpos.
  2:{ apply position_None in Hpos. pose proof (release_skip lock l [] Hpos) as Hs.
      rewrite app_nil_r in Hs. rewrite Hs. simpl. by rewrite !app_nil_r. }
  apply position_Some in Hpos as (l0 & x & l2 & -> & <- & Hx & Hl0).
  rewrite release_skip by done. simpl. rewrite Hx. simpl.
  rewrite length_app in Hf. cbn [length] in Hf.
  apply Forall_app in Hr as [_ [Hrx Hr2]%Forall_cons_iff].
  replace (length l0 + length l1)%nat with (length (l1 ++ l0)) by (rewrite length_app; lia).
  rewrite app_assoc. rewrite list_lookup_middle by done.
  pose proof (overlap_spec lock x Hrx) as Hov.
  assert (Hnext : forall y w', unlock_loop fuel ((l1 ++ l0) ++ y :: l2) lock (length (l1 ++ l0) + 1) w' =
    Some (Ok (l1 ++ l0 ++ y :: (release lock l2).1, w' ++ (release lock l2).2))).
  { intros y w'.
    replace ((l1 ++ l0) ++ y :: l2) with (((l1 ++ l0) ++ [y]) ++ l2) by (rewrite <- app_assoc; done).
    replace (length (l1 ++ l0) + 1)%nat with (length ((l1 ++ l0) ++ [y]))
      by (rewrite !length_app; simpl; lia).
    rewrite IH by (auto; lia). by rewrite <- !app_assoc. }
  destruct (RangeLock_overlap_with lock x) as [[| | |]|]; simpl.
  - rewrite set_start_cut by lia. simpl. by rewrite list_insert_middle, <- app_assoc.
  - rewrite set_end_cut by lia. simpl. rewrite list_insert_middle, Hnext, <- app_assoc. done.
  - rewrite set_start_cut by (rewrite ?clone_start, ?clone_end; lia). simpl.
    rewrite set_end_cut by lia. simpl. rewrite list_insert_middle.
    set (lx := cut x _ _). set (rx := cut (RangeLock_clone x) _ _).
    replace ((l1 ++ l0) ++ lx :: l2) with (((l1 ++ l0) ++ [lx]) ++ l2) by (rewrite <- app_assoc; done).
    replace (length (l1 ++ l0) + 1)%nat with (length ((l1 ++ l0) ++ [lx]))
      by (rewrite !length_app; simpl; lia).
    by rewrite vec_insert_middle, <- !app_assoc.
  - rewrite vec_remove_middle, drop_queue.
    rewrite IH by (auto; lia). by rewrite <- !app_assoc.
  - by rewrite Hnext.
Qed.

Lemma release_Forall P lock l :
  survives P -> Forall range_ok l -> range_ok lock -> Forall P l -> Forall P (release lock l).1.
Proof.
  intros [Hcut Hclone _] Hr Hlk HP. induction l as [|x tl IH]; simpl; [done|].
  apply Forall_cons_iff in Hr as [Hx Hr], HP as [HPx HP].
  pose proof (overlap_spec lock x Hx) as Hov. specialize (IH Hr HP).
  unfold range_ok in *. case_if; simpl; [by constructor|].
  destruct (RangeLock_overlap_with lock x) as [[| | |]|]; simpl; repeat constructor; auto;
    apply Hcut; auto; rewrite ?clone_start, ?clone_end; lia.
Qed.

Lemma grouped_Forall x l :
  (Forall (fun z => rl_owner z <> rl_owner x) l) -> grouped x l.
Proof. destruct l; [done|]. by right. Qed.

Lemma grouped_release x lock l :
  range_ok lock -> list_ok l -> grouped x l -> grouped x (release lock l).1.
Proof.
  intros Hlk Hok. revert x. induction Hok as [|n tl Hn Hb Hg Hok IH]; intros x Hx; [done|].
  destruct Hx as [Ho|Hx].
  2:{ apply grouped_Forall, (release_Forall (fun z => rl_owner z <> rl_owner x)); auto.
      - apply (survives_owner (fun o => o <> rl_owner x)).
      - constructor; [done|]. by apply list_ok_ranges. }
  simpl. case_if; [by left|].
  destruct (RangeLock_overlap_with lock n) as [[| | |]|]; simpl; rewrite ?(proj1 (cut_fields _ _ _));
    try (by left). apply IH. by eapply grouped_owner; [|exact Hg].
Qed.

Lemma list_ok_release lock l : range_ok lock -> list_ok l -> list_ok (release lock l).1.
Proof.
  intros Hlk Hok. induction Hok as [|x tl Hx Hb Hg Hok IH]; [constructor|].
  pose proof (list_ok_ranges _ Hok) as Hr. pose proof (overlap_spec lock x Hx) as Hov.
  assert (Hkeep : list_ok (x :: (release lock tl).1)).
  { constructor; auto using grouped_release, release_Forall, survives_before. }
  pose proof Hx as Hx'. pose proof Hlk as Hlk'. unfold range_ok in Hx', Hlk'. simpl. case_if; [done|].
  destruct (RangeLock_overlap_with lock x) as [[| | |]|]; simpl; [| | |done|done].
  - destruct (cut_fields x (RangeLock_end lock) (RangeLock_end x)) as (? & ? & ? & ? & _).
    constructor; auto; [unfold range_ok; lia|by eapply before_same_end; [..|exact Hb]|].
    by eapply grouped_owner; [|exact Hg].
  - destruct (cut_fields x (RangeLock_start x) (RangeLock_start lock)) as (? & ? & ? & ? & _).
    constructor; auto; [unfold range_ok; lia| |].
    + apply release_Forall; auto using survives_before.
      by eapply before_shorter; [..|exact Hb]; lia.
    + apply grouped_release; auto. by eapply grouped_owner; [|exact Hg].
  - destruct (cut_fields x (RangeLock_start x) (RangeLock_start lock)) as (? & ? & ? & ? & _).
    destruct (cut_fields (RangeLock_clone x) (RangeLock_end lock) (RangeLock_end x)) as (? & ? & ? & ? & _).
    cbn [rl_owner rl_type RangeLock_clone] in *. apply list_ok_break; [unfold range_ok; lia|congruence|split; intros; lia|].
    refine (list_ok_cons _ _ _ _ _ Hok); [unfold range_ok; lia| |by eapply grouped_owner; [|exact Hg]].
    by eapply before_same_end; [..|exact Hb].
Qed.

Lemma held_release lock l owner off t :
  range_ok lock -> list_ok l ->
  held (release lock l).1 owner off t <-> ~ covers lock owner off /\ held l owner off t.
Proof.
  intros Hlk Hok. induction Hok as [|x tl Hx Hb Hg Hok IH]; simpl; [rewrite held_nil; tauto|].
  pose proof (overlap_spec lock x Hx) as Hov. unfold range_ok in Hlk, Hx.
  assert (Hafter : held tl owner off t -> rl_owner x = owner -> RangeLock_end x <= off)
    by (intros; by eapply held_after).
  destruct (Z.eqb_spec (rl_owner x) (rl_owner lock)) as [Ho|Ho]; simpl.
  2:{ rewrite !held_cons, IH. unfold covers.
      destruct (decide (rl_owner lock = owner)); [|tauto].
      assert (rl_owner x <> owner) by congruence. tauto. }
  destruct (decide (rl_owner lock = owner)) as [Hlo|Hlo].
  2:{ assert (rl_owner x <> owner) by congruence.
      destruct (RangeLock_overlap_with lock x) as [[| | |]|]; held_simpl; rewrite ?IH; unfold covers; tauto. }
  assert (Hxo : rl_owner x = owner) by congruence.
  specialize (fun H => Hafter H Hxo).
  destruct (RangeLock_overlap_with lock x) as [[| | |]|]; held_simpl; rewrite ?IH; unfold covers;
    destruct (decide (RangeLock_start lock <= off < RangeLock_end lock)) as [Hi|Hi].
  all: try (assert (~ held tl owner off t \/ RangeLock_end x <= off) by lia).
  all: intuition (try congruence; try lia).
  destruct (decide (off < RangeLock_start lock)); [left|right; left]; intuition lia.
Qed.

Lemma keeps_release lock l : keeps_waiters l (release lock l).
Proof.
  induction l as [|x tl IH]; simpl; [apply keeps_refl|].
  case_if; [by apply keeps_pass|].
  destruct (RangeLock_overlap_with lock x) as [[| | |]|].
  - apply keeps_cut.
  - apply (keeps_more _ _ ((release lock tl).1, queue x ++ (release lock tl).2)), keeps_drop, IH.
  - apply (keeps_more _ _ (_ :: tl, queue x)), keeps_cut.
  - apply keeps_drop, IH.
  - by apply keeps_pass.
Qed.

(** [l'] is [l] without what the owner held on the bytes of the lock. *)
Definition released (l l' : list RangeLock) (lock : RangeLock) : Prop :=
  forall owner off t, held l' owner off t <-> ~ covers lock owner off /\ held l owner off t.

Lemma unlock_ok fuel l lock :
  list_ok l -> range_ok lock -> (length l < fuel)%nat ->
  exists l' w, unlock fuel l lock = Some (Ok (l', w)) /\
    list_ok l' /\ released l l' lock /\ keeps_waiters l (l', w).
Proof.
  intros Hok Hr Hf. unfold unlock.
  pose proof (unlock_loop_release fuel [] lock l [] (list_ok_ranges _ Hok) Hf) as Hu.
  cbn [app length] in Hu. rewrite Hu.
  do 2 eexists. split; [done|]. cbn [app]. split_and!.
  - by apply list_ok_release.
  - intros owner off t. by apply held_release.
  - rewrite <- surjective_pairing. apply keeps_release.
Qed.

(** * Threads and locks together *)

(** The lock list of a file and the threads asleep in [set_lock], each with the
    lock it asks for. *)
Record LockSys := mkLockSys { ls_list : RangeLockList; ls_asleep : gmap WaiterId RangeLock }.

Definition wake (ws : list WaiterId) (A : gmap WaiterId RangeLock) : gmap WaiterId RangeLock :=
  foldr delete A ws.

Definition request_valid (lock : RangeLock) : Prop := range_ok lock /\ rl_type lock <> F_UNLCK.

Definition enough (l : RangeLockList) : nat := S (length l).

(** The ranges of [fcntl] calls, with any arguments. Closing a file releases the range of [l_start = 0] and
    [l_len = 0]. *)
Definition from_flock (range : FileRange) : Prop :=
  exists c position size, is_i64 (l_start c) /\ is_i64 (l_len c) /\ (forall p, position = Ok p -> is_i64 p) /\
    from_c_flock_and_file c position size = Ok range.

Lemma checked_add_range x y e z : ok_or (checked_add_i64 x y) e = Ok z -> z = x + y /\ is_i64 z.
Proof.
  unfold checked_add_i64, is_i64. destruct (_ && _) eqn:He; [|done]. intros [= <-]. boolprop. by split_and!.
Qed.

Lemma from_flock_ok l : from_flock (rl_range l) -> range_ok l.
Proof.
  intros (c & position & size & Hs & Hl & Hp & H). unfold from_c_flock_and_file in H.
  apply bind_Ok_inv in H as (start & Hstart & H).
  assert (Hi : is_i64 start).
  { unfold flock_start in Hstart. apply bind_Ok_inv in Hstart as (wh & _ & Hstart). destruct wh.
    - by injection Hstart as <-.
    - apply bind_Ok_inv in Hstart as (p & _ & Hstart). by apply checked_add_range in Hstart as [_ ?].
    - apply bind_Ok_inv in Hstart as (p & _ & Hstart). by apply checked_add_range in Hstart as [_ ?]. }
  unfold range_ok. destruct (start <? 0) eqn:Hneg; [done|]. unfold is_i64 in *.
  destruct (0 <? l_len c) eqn:Hpos.
  { apply bind_Ok_inv in H as (end_ & Hend & [= <-]). apply checked_add_range in Hend as [-> Hend].
    unfold is_i64 in Hend. cbn. boolprop. lia. }
  destruct (l_len c =? 0) eqn:Hz; [injection H as <-; cbn; boolprop; lia|].
  unfold i64_min, i64_max in *. rewrite as_i64_id in H by (unfold is_i64, i64_min, i64_max; lia).
  destruct (start + l_len c <? 0) eqn:Hn; [done|]. injection H as <-. cbn. boolprop. lia.
Qed.

(** A thread runs one round of [set_lock] (again after each wake-up, with a new
    waiter), gives up when interrupted, or releases a range. *)
Inductive lock_step : LockSys -> LockSys -> Prop :=
| step_set l A lock nb w l' woken :
    from_flock (rl_range lock) -> rl_type lock <> F_UNLCK ->
    set_lock_round (enough l) l lock nb w = Some (Ok (LockSet l' woken)) ->
    lock_step (mkLockSys l A) (mkLockSys l' (wake woken A))
| step_sleep l A lock w l' :
    from_flock (rl_range lock) -> rl_type lock <> F_UNLCK -> A !! w = None ->
    set_lock_round (enough l) l lock false w = Some (Ok (LockWaits l')) ->
    lock_step (mkLockSys l A) (mkLockSys l' (<[w := lock]> A))
| step_interrupt l A w :
    lock_step (mkLockSys l A) (mkLockSys l (delete w A))
| step_unlock l A lock l' woken :
    from_flock (rl_range lock) ->
    unlock (enough l) l lock = Some (Ok (l', woken)) ->
    lock_step (mkLockSys l A) (mkLockSys l' (wake woken A)).

Inductive lock_reachable : LockSys -> Prop :=
| reach_init : lock_reachable (mkLockSys [] ∅)
| reach_step s s' : lock_reachable s -> lock_step s s' -> lock_reachable s'.

(** No two owners hold conflicting locks on a byte. *)
Definition exclusive (l : list RangeLock) : Prop :=
  forall o1 o2 off t1 t2, o1 <> o2 -> held l o1 off t1 -> held l o2 off t2 ->
  t1 = F_RDLCK /\ t2 = F_RDLCK.

Definition no_unlck (l : list RangeLock) : Prop :=
  forall owner off t, held l owner off t -> t <> F_UNLCK.

Record sys_ok (s : LockSys) : Prop := {
  sys_list : list_ok (ls_list s);
  sys_exclusive : exclusive (ls_list s);
  sys_no_unlck : no_unlck (ls_list s);
  sys_asleep : forall w r, ls_asleep s !! w = Some r -> waits (ls_list s) w r;
}.

Lemma lookup_wake ws A w r : wake ws A !! w = Some r -> A !! w = Some r /\ w ∉ ws.
Proof.
  induction ws as [|v ws IH]; simpl; [intros; split; [done|set_solver]|].
  rewrite lookup_delete_Some. intros [? H]. apply IH in H as [? ?]. split; [done|set_solver].
Qed.

Lemma keeps_asleep l l' ws A :
  keeps_waiters l (l', ws) -> (forall w r, A !! w = Some r -> waits l w r) ->
  forall w r, wake ws A !! w = Some r -> waits l' w r.
Proof.
  intros Hk HA w r [Hw Hn]%lookup_wake. destruct (Hk w r (HA _ _ Hw)); [done|]. by destruct Hn.
Qed.

(** Same lock, whatever its queue. *)
Definition same_lock (x y : RangeLock) : Prop :=
  rl_owner x = rl_owner y /\ rl_type x = rl_type y /\ rl_range x = rl_range y.

Lemma Forall_same P l l' :
  (forall x y, same_lock x y -> P x -> P y) -> Forall2 same_lock l l' -> Forall P l -> Forall P l'.
Proof.
  intros HP. induction 1 as [|x y l l' Hs Hss IH]; [done|].
  rewrite !Forall_cons_iff. intros [? ?]. split; [by eapply HP|auto].
Qed.

Lemma list_ok_same l l' : Forall2 same_lock l l' -> list_ok l -> list_ok l'.
Proof.
  induction 1 as [|x y l l' Hs Hss IH]; [done|].
  destruct Hs as (Ho & Ht & Hr). intros Hok. inversion Hok as [|? ? Hx Hb Hg Hok']; subst.
  assert (Hbefore : forall z, before x z -> before y z).
  { unfold before. by rewrite Ho, Ht, Hr. }
  constructor; [|..|auto].
  - unfold range_ok in *. by rewrite <- Hr.
  - eapply Forall_same; [|exact Hss|eapply Forall_impl; [exact Hbefore|exact Hb]].
    intros a b (Hao & Hat & Har). unfold before. by rewrite Hao, Hat, Har.
  - destruct l' as [|b l']; [done|]. inversion Hss as [|a ? l0 ? Hab Hss']; subst.
    destruct Hg as [Hg|Hg]; [left; destruct Hab; congruence|right].
    rewrite <- Ho. eapply Forall_same; [|exact Hss|exact Hg]. simpl. intros c d (Hc & _). congruence.
Qed.

Lemma held_same l l' owner off t :
  Forall2 same_lock l l' -> held l' owner off t -> held l owner off t.
Proof.
  induction 1 as [|x y l l' (Ho & Ht & Hr) Hss IH]; [done|]. rewrite !held_cons.
  unfold covers. rewrite Ho, Ht, Hr. tauto.
Qed.

Lemma same_enqueue l1 x l2 w :
  Forall2 same_lock (l1 ++ x :: l2) (l1 ++ RangeLock_enqueue_waiter x w :: l2).
Proof.
  assert (Hrefl : forall l, Forall2 same_lock l l) by (induction l; by constructor).
  apply Forall2_app; [|constructor; [done|]]; apply Hrefl.
Qed.

Lemma exclusive_insert l l' lock :
  exclusive l -> no_unlck l -> request_valid lock ->
  Forall (fun x => RangeLock_conflict_with x lock = false) l ->
  overridden l l' lock -> exclusive l' /\ no_unlck l'.
Proof.
  intros Hex Hnu [_ Hty] Hnc Hov.
  (* what the others hold on the new lock's bytes is compatible *)
  assert (Hother : forall o off t, o <> rl_owner lock -> covers lock (rl_owner lock) off ->
    held l o off t -> t = F_RDLCK /\ rl_type lock = F_RDLCK).
  { intros o off t Ho [_ Hc] Hh. pose proof (Hnu _ _ _ Hh) as Ht.
    destruct Hh as (x & Hx & [Hxo Hxr] & Hxt).
    rewrite Forall_forall in Hnc. apply list_elem_of_In, Hnc in Hx.
    apply not_true_iff_false in Hx. rewrite conflict_with_spec in Hx.
    assert (Hw : ~ (rl_type x = F_WRLCK \/ rl_type lock = F_WRLCK)).
    { intros Hw. apply Hx. split_and!; [congruence|lia|lia|done]. }
    rewrite Hxt in Hw. destruct t, (rl_type lock); tauto. }
  split.
  - intros o1 o2 off t1 t2 Hne H1 H2. apply Hov in H1, H2.
    destruct H1 as [[Hc1 <-]|[Hc1 H1]], H2 as [[Hc2 <-]|[Hc2 H2]].
    + destruct Hc1, Hc2. congruence.
    + destruct Hc1 as [<- Hc1]. by destruct (Hother o2 off t2).
    + destruct Hc2 as [<- Hc2]. by destruct (Hother o1 off t1).
    + by eapply Hex.
  - intros o off t Hh. apply Hov in Hh as [[_ <-]|[_ Hh]]; [done|by eapply Hnu].
Qed.

Lemma exclusive_released l l' lock :
  exclusive l -> no_unlck l -> released l l' lock -> exclusive l' /\ no_unlck l'.
Proof.
  intros Hex Hnu Hrel. split.
  - intros o1 o2 off t1 t2 Hne H1 H2. apply Hrel in H1 as [_ H1], H2 as [_ H2]. by eapply Hex.
  - intros o off t Hh. apply Hrel in Hh as [_ Hh]. by eapply Hnu.
Qed.

Lemma sleep_ok l lock w l' :
  list_ok l -> set_lock_round (enough l) l lock false w = Some (Ok (LockWaits l')) ->
  Forall2 same_lock l l' /\ waits l' w lock /\ (forall v r, waits l v r -> waits l' v r).
Proof.
  intros Hok. unfold set_lock_round.
  destruct (position _ l) as [i|] eqn:Hpos.
  - apply position_Some in Hpos as (l1 & x & l2 & -> & <- & Hx & _).
    rewrite list_lookup_middle by done. intros [= <-]. rewrite list_insert_middle.
    split_and!; [apply same_enqueue| |].
    + rewrite waits_app, waits_cons. right. left. split; [|done]. unfold queue. simpl. set_solver.
    + intros v r. rewrite !waits_app, !waits_cons. intros [?|[[Hv Hc]|?]]; [tauto| |tauto].
      right. left. split; [|done]. unfold queue in *. simpl. set_solver.
  - destruct (insert_lock_into_list _ _ _) as [[[]| |]|]; done.
Qed.

Lemma lock_step_ok s s' : sys_ok s -> lock_step s s' -> sys_ok s'.
Proof.
  intros [Hok Hex Hnu HA] Hstep. destruct Hstep as [l A lock nb w l' woken Hfl Hty Hr|l A lock w l' _ _ Hw Hr
    |l A w|l A lock l' woken Hlk%from_flock_ok Hr]; simpl in *.
  - unfold set_lock_round in Hr. destruct (position _ l) as [i|] eqn:Hpos.
    { destruct nb; [done|]. by destruct (l !! i). }
    apply position_None in Hpos. assert (Hv : request_valid lock) by (split; [by apply from_flock_ok|done]).
    destruct (insert_ok (enough l) l lock) as (l2 & w2 & Hi & Hok2 & Hov & Hk & _);
      [done|apply Hv|unfold enough; lia|].
    rewrite Hi in Hr. injection Hr as -> ->.
    destruct (exclusive_insert _ _ _ Hex Hnu Hv Hpos Hov). constructor; simpl; auto.
    by apply (keeps_asleep l l').
  - destruct (sleep_ok _ _ _ _ Hok Hr) as (Hs & Hwait & Hmono). constructor; simpl.
    + by eapply list_ok_same.
    + intros o1 o2 off t1 t2 Hne H1 H2. eapply Hex; [done|by eapply held_same..].
    + intros o off t Hh. eapply Hnu. by eapply held_same.
    + intros v r. rewrite lookup_insert_Some. intros [[<- <-]|[_ Hv']]; auto.
  - constructor; simpl; auto. intros v r. rewrite lookup_delete_Some. intros [_ ?]. auto.
  - destruct (unlock_ok (enough l) l lock) as (l2 & w2 & Hu & Hok2 & Hrel & Hk);
      [done|done|unfold enough; lia|].
    rewrite Hu in Hr. injection Hr as -> ->.
    destruct (exclusive_released _ _ _ Hex Hnu Hrel). constructor; simpl; auto.
    by apply (keeps_asleep l l').
Qed.

(** * The file interface *)

(** [inode.ext()] and the lock list in it: [None] when the file system has no
    extension, [Some None] when no lock was ever set. *)
Abbreviation InodeExt := (option (option RangeLockList)) (only parsing).

Definition check_advisory_lock_with_access_mode (mode : AccessMode) (lock : RangeLock) : Result unit :=
  match rl_type lock with
  | F_RDLCK => if negb (AccessMode_readable mode) then Err EBADF else Ok tt
  | F_WRLCK => if negb (AccessMode_writable mode) then Err EBADF else Ok tt
  | _ => Ok tt
  end.

Definition test_advisory_lock (ext : InodeExt) (lock : RangeLock) : RangeLock :=
  match ext with
  | None => RangeLock_set_type lock F_UNLCK
  | Some None => RangeLock_set_type lock F_UNLCK
  | Some (Some range_lock_list) => test_lock range_lock_list lock
  end.

Definition unlock_range_lock (fuel : nat) (ext : InodeExt) (lock : RangeLock)
    : option (Result (InodeExt * list WaiterId)) :=
  match ext with
  | None => Some (Ok (None, []))
  | Some None => Some (Ok (Some None, []))
  | Some (Some range_lock_list) =>
      match unlock fuel range_lock_list lock with
      | Some r => Some ('(l, woken) ← r; Ok (Some (Some l), woken))
      | None => None
      end
  end.

(** One round of [set_advisory_lock]; the [bool] tells whether the thread sleeps. *)
Definition set_advisory_lock (fuel : nat) (mode : AccessMode) (ext : InodeExt) (lock : RangeLock)
    (is_nonblocking : bool) (waiter : WaiterId)
    : option (Result (InodeExt * list WaiterId * bool)) :=
  if bool_decide (rl_type lock = F_UNLCK) then
    match unlock_range_lock fuel ext lock with
    | Some r => Some ('(ext, woken) ← r; Ok (ext, woken, false))
    | None => None
    end
  else
    and_then (check_advisory_lock_with_access_mode mode lock) (fun _ =>
    match ext with
    | None => Some (Ok (None, [], false))
    | Some range_lock_list =>
        let l := default [] range_lock_list in
        match set_lock_round fuel l lock is_nonblocking waiter with
        | Some (Ok (LockSet l woken)) => Some (Ok (Some (Some l), woken, false))
        | Some (Ok (LockWaits l)) => Some (Ok (Some (Some l), [], true))
        | Some (Err e) => Some (Err e)
        | Some Panic => Some Panic
        | None => None
        end
    end).

(** Closing a descriptor: everything the process holds on the file. *)
Definition release_advisory_locks (fuel : nat) (ext : InodeExt) (current_pid : Z)
    : option (Result (InodeExt * list WaiterId)) :=
  and_then (range ← unwrap_result (FileRange_new 0 OFFSET_MAX);
            unwrap_result (RangeLockBuilder_build
              (mkRangeLockBuilder (Some F_UNLCK) (Some range) None None) current_pid))
    (fun range_lock => unlock_range_lock fuel ext range_lock).

(** * Theorems *)

(** C30: One round of [set_lock]. If another process holds a conflicting lock
    the caller gets [EAGAIN] or goes to sleep in that lock's queue. Otherwise the
    loop that places the lock ends (within one round per existing lock), does
    not panic, keeps the list invariant (grouped by owner, sorted, disjoint,
    merged but for empty ranges, and makes none of those), gives the caller the requested type on exactly the requested bytes,
    changes nothing else that anyone holds, and every thread that waited on a
    replaced or shrunk lock is woken or still waits on a conflicting lock. *)
Theorem set_lock_spec (fuel : nat) (l : RangeLockList) (lock : RangeLock) (nb : bool) (w : WaiterId) :
  list_ok l -> request_valid lock -> (length l < fuel)%nat ->
  match set_lock_round fuel l lock nb w with
  | Some (Ok (LockSet l' woken)) =>
      Forall (fun x => RangeLock_conflict_with x lock = false) l /\
      list_ok l' /\ overridden l l' lock /\ keeps_waiters l (l', woken) /\
      (Forall nonempty (lock :: l) -> Forall nonempty l')
  | Some (Ok (LockWaits l')) => nb = false /\ waits l' w lock /\ Forall2 same_lock l l'
  | Some (Err e) => e = EAGAIN /\ nb = true /\ Exists (fun x => RangeLock_conflict_with x lock = true) l
  | Some Panic | None => False
  end.
Proof.
  intros Hok [Hr Ht] Hf. unfold set_lock_round. destruct (position _ l) as [i|] eqn:Hpos.
  - apply position_Some in Hpos as (l1 & x & l2 & -> & <- & Hx & _). destruct nb.
    + split_and!; [done|done|]. apply Exists_app. right. by left.
    + rewrite list_lookup_middle, list_insert_middle by done. split_and!; [done| |apply same_enqueue].
      rewrite waits_app, waits_cons. right. left. split; [|done]. unfold queue. simpl. set_solver.
  - apply position_None in Hpos.
    destruct (insert_ok fuel l lock) as (l' & ws & -> & ? & ? & ? & ?); [done..|]. by split_and!.
Qed.

(** Owner 1 has a read lock on bytes 0 to 99. *)
Definition example_locks : RangeLockList := [mkRangeLock 1 F_RDLCK (mkFileRange 0 100) (Some [7])].

Lemma example_locks_ok : list_ok example_locks.
Proof. repeat constructor; by vm_compute. Qed.

(** It takes a write lock in the middle: the read lock is split and thread 7 woken. *)
Lemma set_lock_spec_witness :
  exists l', set_lock_round 2 example_locks (mkRangeLock 1 F_WRLCK (mkFileRange 40 60) None) true 8
    = Some (Ok (LockSet l' [7])) /\ length l' = 3%nat /\ list_ok l'.
Proof.
  eexists. split; [vm_compute; reflexivity|]. split; [reflexivity|].
  refine (proj1 (proj2 (set_lock_spec 2 example_locks
    (mkRangeLock 1 F_WRLCK (mkFileRange 40 60) None) true 8 _ _ _))).
  - exact example_locks_ok.
  - split; [left; by vm_compute|done].
  - simpl. lia.
Defined.

(** [unlock] ends, does not panic, keeps the list invariant, and removes
    exactly what the owner held on the given bytes; the waiters of every lock
    that was removed or shrunk are woken. *)
Theorem unlock_spec (fuel : nat) (l : RangeLockList) (lock : RangeLock) :
  list_ok l -> range_ok lock -> (length l < fuel)%nat ->
  exists l' woken, unlock fuel l lock = Some (Ok (l', woken)) /\
    list_ok l' /\ released l l' lock /\ keeps_waiters l (l', woken).
Proof. apply unlock_ok. Qed.

Lemma unlock_spec_witness :
  exists l' woken, unlock 2 example_locks (mkRangeLock 1 F_UNLCK (mkFileRange 0 OFFSET_MAX) None)
    = Some (Ok (l', woken)) /\ l' = [] /\ woken = [7].
Proof.
  destruct (unlock_spec 2 example_locks (mkRangeLock 1 F_UNLCK (mkFileRange 0 OFFSET_MAX) None))
    as (l' & woken & H & _).
  - exact example_locks_ok.
  - left. by vm_compute.
  - simpl. lia.
  - exists l', woken. split; [exact H|]. vm_compute in H. by injection H as <- <-.
Defined.

(** C10: In every reachable state of the locks of a file, with any number of
    processes locking, waiting, being interrupted and unlocking in any order, with any range [fcntl] accepts,
    the empty one at [OFFSET_MAX] included:
    the list is grouped by owner, in order and disjoint; two processes never hold locks on the same byte
    unless both are read locks; every thread asleep in [F_SETLKW] is in the
    queue of a lock that does conflict with its request, so no wake-up is lost; and the next request
    neither panics nor loops: a lock is placed, waits or is refused with [EAGAIN], a range is released. *)
Theorem range_lock_safe (s : LockSys) :
  lock_reachable s ->
  let l := ls_list s in
  list_ok l /\ exclusive l /\
  (forall w r, ls_asleep s !! w = Some r ->
    exists x, x ∈ l /\ w ∈ queue x /\ RangeLock_conflict_with x r = true) /\
  forall lock, from_flock (rl_range lock) ->
    (exists p, unlock (enough l) l lock = Some (Ok p)) /\
    (rl_type lock <> F_UNLCK -> forall nb w,
       (exists p, set_lock_round (enough l) l lock nb w = Some (Ok p))
       \/ (nb = true /\ set_lock_round (enough l) l lock nb w = Some (Err EAGAIN))).
Proof.
  intros Hr l. assert (Hs : sys_ok s).
  { induction Hr as [|s s' Hr IH Hstep]; [|by eapply lock_step_ok].
    constructor; simpl; [constructor|..].
    - intros o1 o2 off t1 t2 _ H. by rewrite held_nil in H.
    - intros o off t H. by rewrite held_nil in H.
    - intros w r. by rewrite lookup_empty. }
  destruct Hs as [Hok Hex Hnu HA]. split_and!; [done..|]. intros lock Hlk%from_flock_ok. fold l in Hok. split.
  - destruct (unlock_ok (enough l) l lock) as (l' & ws & -> & _); [done|done|unfold enough; lia|]. eauto.
  - intros Hty nb w. unfold set_lock_round. destruct (position _ l) as [i|] eqn:Hpos.
    + apply position_Some in Hpos as (l1 & x & l2 & Heq & <- & _). destruct nb; [by right|left].
      rewrite Heq, list_lookup_middle by done. eauto.
    + left. destruct (insert_ok (enough l) l lock) as (l' & ws & -> & _); [done|done|unfold enough; lia|]. eauto.
Qed.

(** Process 1 locks for writing, process 2 waits to read, process 1 also takes the empty range. *)
Lemma range_lock_safe_witness :
  exists s, lock_reachable s /\ is_Some (ls_asleep s !! 7) /\ length (ls_list s) = 2%nat /\ exclusive (ls_list s).
Proof.
  pose (lk1 := mkRangeLock 1 F_WRLCK (mkFileRange 0 100) None).
  pose (lk2 := mkRangeLock 2 F_RDLCK (mkFileRange 50 200) None).
  pose (lk3 := mkRangeLock 1 F_WRLCK (mkFileRange OFFSET_MAX OFFSET_MAX) None).
  pose (waited := mkRangeLock 1 F_WRLCK (mkFileRange 0 100) (Some [7])).
  assert (Hfl : forall c range, is_i64 (l_start c) -> is_i64 (l_len c) ->
    from_c_flock_and_file c (Ok 0) (Ok 0) = Ok range -> from_flock range).
  { intros c range H1 H2 H. exists c, (Ok 0), (Ok 0). split_and!; [done|done| |done]. by intros p [= <-]. }
  assert (Hreach : lock_reachable (mkLockSys [waited; lk3] (wake [] (<[7 := lk2]> ∅)))).
  { eapply reach_step; [eapply reach_step; [eapply reach_step; [apply reach_init|]|]|].
    - apply (step_set [] ∅ lk1 true 0 [lk1] []); [|done|reflexivity].
      by apply (Hfl (mk_c_flock 1 0 0 100 0)).
    - apply (step_sleep [lk1] ∅ lk2 7 [waited]); [|done|apply lookup_empty|reflexivity].
      by apply (Hfl (mk_c_flock 0 0 50 150 0)).
    - apply (step_set [waited] (<[7 := lk2]> ∅) lk3 true 0 [waited; lk3] []); [|done|reflexivity].
      by apply (Hfl (mk_c_flock 1 0 OFFSET_MAX 0 0)). }
  eexists. split; [exact Hreach|]. split; [by eexists|]. split; [reflexivity|].
  exact (proj1 (proj2 (range_lock_safe _ Hreach))).
Defined.

Lemma conflict_sym x y : RangeLock_conflict_with x y = RangeLock_conflict_with y x.
Proof. apply eq_true_iff_eq. rewrite !conflict_with_spec. intuition congruence. Qed.

(** [F_GETLK] agrees with [F_SETLK]: [test_lock] answers [F_UNLCK] exactly
    when [set_lock] would place the lock, and otherwise reports the owner, type
    and range of an existing lock that conflicts, which is also the lock the
    request would wait for. *)
Theorem test_lock_spec (l : RangeLockList) (lock : RangeLock) (fuel : nat) (w : WaiterId) :
  list_ok l -> request_valid lock -> no_unlck l -> (length l < fuel)%nat ->
  let r := test_lock l lock in
  if bool_decide (rl_type r = F_UNLCK)
  then exists l' woken, set_lock_round fuel l lock true w = Some (Ok (LockSet l' woken))
  else set_lock_round fuel l lock true w = Some (Err EAGAIN) /\
       exists x, x ∈ l /\ RangeLock_conflict_with x lock = true /\ same_lock x r.
Proof.
  intros Hok [Hr Ht] Hnu Hf r. unfold r, test_lock.
  destruct (List.find _ l) as [x|] eqn:Hfind.
  - apply find_some in Hfind as [Hin Hc]. rewrite conflict_sym in Hc.
    assert (Hx : range_ok x).
    { pose proof (list_ok_ranges _ Hok) as Hall. rewrite Forall_forall in Hall. auto. }
    apply list_elem_of_In in Hin. pose proof (proj1 (conflict_with_spec x lock) Hc) as (_ & Hc1 & Hc2 & _).
    rewrite bool_decide_eq_false_2.
    2:{ apply (Hnu (rl_owner x) (RangeLock_start x)). exists x. unfold covers, range_ok in *.
        split_and!; auto; lia. }
    split; [|by exists x]. unfold set_lock_round. destruct (position _ l) as [i|] eqn:Hpos; [done|].
    apply position_None in Hpos. rewrite Forall_forall in Hpos.
    apply list_elem_of_In, Hpos in Hin. congruence.
  - rewrite bool_decide_eq_true_2 by done. unfold set_lock_round.
    destruct (position _ l) as [i|] eqn:Hpos.
    + apply position_Some in Hpos as (l1 & x & l2 & -> & _ & Hx & _).
      apply (find_none _ _ ) with (x := x) in Hfind; [|rewrite in_app_iff; simpl; tauto].
      rewrite conflict_sym in Hfind. congruence.
    + destruct (insert_ok fuel l lock) as (l' & ws & -> & _); [done..|]. eauto.
Qed.

Lemma test_lock_spec_witness :
  rl_owner (test_lock example_locks (mkRangeLock 2 F_WRLCK (mkFileRange 10 20) None)) = 1 /\
  set_lock_round 2 example_locks (mkRangeLock 2 F_WRLCK (mkFileRange 10 20) None) true 8
    = Some (Err EAGAIN).
Proof.
  split; [reflexivity|].
  refine (proj1 (test_lock_spec example_locks (mkRangeLock 2 F_WRLCK (mkFileRange 10 20) None) 2 8
    example_locks_ok _ _ _)).
  - split; [left; by vm_compute|done].
  - intros o off t. unfold example_locks. rewrite held_cons, held_nil. intros [[_ <-]|[]]. done.
  - simpl. lia.
Defined.

(** The byte that [l_start] is relative to. *)
Definition flock_base (whence pos size : Z) : Z :=
  if whence =? 0 then 0 else if whence =? 1 then pos else as_i64 size.

Lemma flock_start_eq lock pos size :
  is_i64 (l_start lock) -> 0 <= l_whence lock <= 2 ->
  flock_start lock (Ok pos) (Ok size) =
  ok_or (checked_add_i64 (flock_base (l_whence lock) pos size) (l_start lock)) EOVERFLOW.
Proof.
  intros Hs Hw. unfold flock_start, flock_base, RangeLockWhence_from_u16.
  assert (l_whence lock = 0 \/ l_whence lock = 1 \/ l_whence lock = 2) as [->|[->| ->]] by lia;
    [|done|done].
  unfold checked_add_i64, is_i64 in *. simpl. case_if; [done|]. lia.
Qed.

(** The range of a [struct flock]. With [base] the start, the file position
    or the file size by [l_whence], the bytes are [base + l_start] and the
    [l_len] that follow, all that follow for [l_len = 0], or the [-l_len] before;
    a negative start is [EINVAL] and a sum beyond [off_t] is [EOVERFLOW]. The
    range is within [0, OFFSET_MAX] and not empty, except that "to the end of
    the file" from [OFFSET_MAX] itself is accepted as an empty range. *)
Theorem from_c_flock_spec (lock : c_flock) (pos size : Z) :
  is_i64 (l_start lock) -> is_i64 (l_len lock) -> is_i64 pos -> 0 <= l_whence lock <= 2 ->
  let start := flock_base (l_whence lock) pos size + l_start lock in
  match from_c_flock_and_file lock (Ok pos) (Ok size) with
  | Ok r =>
      0 <= fr_start r <= fr_end r /\ fr_end r <= OFFSET_MAX /\
      (fr_start r = fr_end r <-> l_len lock = 0 /\ start = OFFSET_MAX) /\
      forall off, off < OFFSET_MAX ->
        fr_start r <= off < fr_end r <->
        (if 0 <? l_len lock then start <= off < start + l_len lock
         else if l_len lock =? 0 then start <= off
         else start + l_len lock <= off < start)
  | Err EINVAL => start < 0 \/ start + l_len lock < 0
  | Err EOVERFLOW => i64_max < start \/ start < i64_min \/ i64_max < start + l_len lock
  | _ => False
  end.
Proof.
  intros Hs Hl Hp Hw start. unfold from_c_flock_and_file. rewrite flock_start_eq by done.
  assert (Hb : is_i64 (flock_base (l_whence lock) pos size)).
  { unfold flock_base. repeat case_if; [done|done|apply as_i64_range]. }
  unfold checked_add_i64. fold start.
  destruct ((i64_min <=? start) && (start <=? i64_max)) eqn:Hr; simpl; [|lia].
  destruct (start <? 0) eqn:Hneg; [lia|]. unfold is_i64, i64_min, i64_max in *.
  destruct (0 <? l_len lock) eqn:Hpos.
  - unfold i64_min, i64_max. case_if; simpl; [|lia].
    split_and!; lia.
  - destruct (l_len lock =? 0) eqn:Hz; simpl.
    + split_and!; lia.
    + rewrite as_i64_id by (unfold is_i64, i64_min, i64_max; lia).
      case_if; [lia|]. simpl. split_and!; lia.
Qed.

Lemma from_c_flock_spec_witness :
  exists r, from_c_flock_and_file (mk_c_flock 1 2 (-10) 30 0) (Ok 5) (Ok 100) = Ok r /\
    0 <= fr_start r <= fr_end r /\ r = mkFileRange 90 120.
Proof.
  eexists. split; [reflexivity|]. split; [|reflexivity].
  refine (proj1 (from_c_flock_spec (mk_c_flock 1 2 (-10) 30 0) 5 100 _ _ _ _));
    unfold is_i64, i64_min, i64_max; simpl; lia.
Defined.

(** What [F_GETLK] writes back denotes the lock it reports: reading the
    [struct flock] again, whatever the file's position and size, gives the same
    range, and owner and type are those of the lock. *)
Theorem copy_from_range_lock_roundtrip (c : c_flock) (lock : RangeLock) (position size : Result Z) :
  rl_type lock <> F_UNLCK -> 0 <= RangeLock_start lock -> range_ok lock ->
  RangeLock_end lock <= OFFSET_MAX ->
  let c' := copy_from_range_lock c lock in
  from_c_flock_and_file c' position size = Ok (rl_range lock) /\
  RangeLockType_from_u16 (l_type c') = Ok (rl_type lock) /\ l_pid c' = rl_owner lock.
Proof.
  intros Ht Hs Hr He c'. subst c'. unfold copy_from_range_lock. rewrite bool_decide_eq_false_2 by done.
  cbn [l_type l_pid l_start l_len]. split_and!; [|by destruct (rl_type lock)|done].
  unfold from_c_flock_and_file, flock_start. simpl.
  unfold range_ok, i64_max in *.
  rewrite as_i64_id by (unfold is_i64, i64_min, i64_max; lia).
  destruct (rl_range lock) as [s e]; simpl in *.
  destruct (Z.ltb_spec s 0); [lia|]. destruct (Z.eqb_spec e (2 ^ 63 - 1)) as [->|Hne]; simpl.
  - done.
  - rewrite sub64_small by (unfold u64_modulus; lia).
    rewrite as_i64_id by (unfold is_i64, i64_min, i64_max; lia).
    destruct (Z.ltb_spec 0 (e - s)); [|lia]. unfold checked_add_i64, i64_min, i64_max.
    replace (s + (e - s)) with e by lia.
    by replace ((- 2 ^ 63 <=? e) && (e <=? 2 ^ 63 - 1)) with true by lia.
Qed.

Lemma copy_from_range_lock_roundtrip_witness :
  from_c_flock_and_file
    (copy_from_range_lock (mk_c_flock 0 1 3 4 0) (mkRangeLock 9 F_WRLCK (mkFileRange 40 60) None))
    (Err EINVAL) (Err EINVAL) = Ok (mkFileRange 40 60).
Proof.
  refine (proj1 (copy_from_range_lock_roundtrip (mk_c_flock 0 1 3 4 0)
    (mkRangeLock 9 F_WRLCK (mkFileRange 40 60) None) (Err EINVAL) (Err EINVAL) _ _ _ _)).
  - done.
  - simpl. lia.
  - left. by vm_compute.
  - unfold i64_max. simpl. lia.
Defined.

(** The empty range of [from_c_flock_spec] is placed as a lock, and closing the
    file, which releases [0, OFFSET_MAX), leaves it in the list. *)
Theorem empty_lock_not_released :
  exists range l,
    from_c_flock_and_file (mk_c_flock 1 0 OFFSET_MAX 0 0) (Ok 0) (Ok 0) = Ok range /\
    set_advisory_lock 2 O_RDWR (Some None) (mkRangeLock 1 F_WRLCK range None) true 7
      = Some (Ok (Some (Some [l]), [], false)) /\
    release_advisory_locks 2 (Some (Some [l])) 1 = Some (Ok (Some (Some [l]), [])).
Proof. do 2 eexists. split; [reflexivity|]. split; reflexivity. Qed.
