(* ===== verification/FileTable.v ===== *)
(** The table of open files of a process: [src/libos/src/fs/file_table.rs], and
    the descriptor operations of [fs/file_ops/dup.rs].

    The table is a vector of optional entries with a count of the used ones. The
    theorems read it as a partial map from descriptors to entries: new
    descriptors are the lowest free ones, each operation changes the slots it
    names and nothing else, and the count stays right. *)

From stdpp Require Import base list.
From S2P Require Import Prelude Errno External.

(** * The table *)

(** [FileDesc = u32] *)
Definition wrap32 (x : Z) : Z := x mod 2 ^ 32.

Record FileTableEntry := mkEntry { fte_file : Z; fte_close_on_spawn : bool }.

Record FileTable := mkFileTable { ft_table : list (option FileTableEntry); ft_num_fds : Z }.

(** [FileTableEvent::Del] *)
Inductive FileTableEvent := Del (fd : Z).

Definition is_none {A} (o : option A) : bool := match o with None => true | Some _ => false end.
Definition is_some {A} (o : option A) : bool := negb (is_none o).

Definition FileTable_new : FileTable := mkFileTable [] 0.

Definition FileTable_get_entry (self : FileTable) (fd : Z) : Result FileTableEntry :=
  match ft_table self !! Z.to_nat fd with
  | None => Err EBADF
  | Some None => Err EBADF
  | Some (Some table_entry) => Ok table_entry
  end.

Definition FileTable_get (self : FileTable) (fd : Z) : Result Z :=
  entry ← FileTable_get_entry self fd; Ok (fte_file entry).

(** [get_entry_mut(fd)?.set_close_on_spawn(b)], as [fcntl(F_SETFD)] does. *)
Definition FileTable_set_close_on_spawn (self : FileTable) (fd : Z) (close_on_spawn : bool)
    : Result FileTable :=
  entry ← FileTable_get_entry self fd;
  Ok (mkFileTable (<[Z.to_nat fd := Some (mkEntry (fte_file entry) close_on_spawn)]> (ft_table self))
                  (ft_num_fds self)).

(** The new table and the file that was at [fd]. *)
Definition FileTable_put_at (self : FileTable) (fd : Z) (file : Z) (close_on_spawn : bool)
    : FileTable * option Z :=
  let table := ft_table self in
  let i := Z.to_nat fd in
  let table := if (length table <=? i)%nat then table ++ replicate (S i - length table) None
               else table in
  let table_entry := mjoin (table !! i) in
  let table := <[i := Some (mkEntry file close_on_spawn)]> table in
  let num_fds := if is_none table_entry then ft_num_fds self +64 1 else ft_num_fds self in
  (mkFileTable table num_fds, fte_file <$> table_entry).

Definition FileTable_put (self : FileTable) (file : Z) (close_on_spawn : bool)
    : Result (FileTable * Z) :=
  let table := ft_table self in
  '(table, min_free_fd) ←
    (if ft_num_fds self <? Z.of_nat (length table)
     then i ← unwrap_option (position is_none table); Ok (table, i)
     else Ok (table ++ [None], length table));
  let table := <[min_free_fd := Some (mkEntry file close_on_spawn)]> table in
  Ok (mkFileTable table (ft_num_fds self +64 1), wrap32 (Z.of_nat min_free_fd)).

Definition FileTable_dup (self : FileTable) (fd min_fd : Z) (close_on_spawn : bool)
    : Result (FileTable * Z) :=
  file_ref ← FileTable_get self fd;
  let min_fd := Z.to_nat min_fd in
  let table := ft_table self in
  let table := if (length table <=? min_fd)%nat
               then table ++ replicate (min_fd - length table + 1) None else table in
  let '(table, min_free_fd) :=
    match position is_none (drop min_fd table) with
    | Some i => (table, (min_fd + i)%nat)
    | None => (table ++ [None], length table)
    end in
  let min_free_fd := wrap32 (Z.of_nat min_free_fd) in
  let self := mkFileTable table (ft_num_fds self) in
  Ok ((FileTable_put_at self min_free_fd file_ref close_on_spawn).1, min_free_fd).

Definition FileTable_fds (self : FileTable) : list Z :=
  (fun p => wrap32 (Z.of_nat p.1)) <$>
    filter (fun p => is_some p.2 = true) (zip (seq 0 (length (ft_table self))) (ft_table self)).

(** The file and the event broadcast, with the new table. *)
Definition FileTable_del (self : FileTable) (fd : Z) : Result (FileTable * Z * list FileTableEvent) :=
  let table := ft_table self in
  match table !! Z.to_nat fd with
  | None => Err EBADF
  | Some del_table_entry =>
      match del_table_entry with
      | Some entry =>
          Ok (mkFileTable (<[Z.to_nat fd := None]> table) (ft_num_fds self -64 1),
              fte_file entry, [Del fd])
      | None => Err EBADF
      end
  end.

(** The loop of [del_all]: the used entries are numbered after [filter]. *)
Definition FileTable_del_all (self : FileTable) : FileTable * list Z * list FileTableEvent :=
  let used := omap id (ft_table self) in
  let deleted_files := fte_file <$> used in
  let deleted_fds := (fun fd => wrap32 (Z.of_nat fd)) <$> seq 0 (length used) in
  (mkFileTable (replicate (length (ft_table self)) None) 0, deleted_files, Del <$> deleted_fds).

(** The loop of [close_on_spawn] from index [fd] on: the table, the count, the
    files and the descriptors deleted. *)
Fixpoint close_on_spawn_loop (table : list (option FileTableEntry)) (fd : nat) (num_fds : Z)
    : list (option FileTableEntry) * Z * list Z * list Z :=
  match table with
  | [] => ([], num_fds, [], [])
  | entry :: rest =>
      let need_close := match entry with Some e => fte_close_on_spawn e | None => false end in
      match entry, need_close with
      | Some e, true =>
          let '(t, n, files, fds) := close_on_spawn_loop rest (S fd) (num_fds -64 1) in
          (None :: t, n, fte_file e :: files, wrap32 (Z.of_nat fd) :: fds)
      | _, _ =>
          let '(t, n, files, fds) := close_on_spawn_loop rest (S fd) num_fds in
          (entry :: t, n, files, fds)
      end
  end.

Definition FileTable_close_on_spawn (self : FileTable) : FileTable * list Z * list FileTableEvent :=
  let '(t, n, files, fds) := close_on_spawn_loop (ft_table self) 0 (ft_num_fds self) in
  (mkFileTable t n, files, Del <$> fds).

(** [fs/file_ops/dup.rs]; [soft_rlimit_nofile] is the soft limit on descriptors.
    The second result is the file whose advisory locks are released. *)
Definition do_dup (files : FileTable) (old_fd : Z) : Result (FileTable * Z) :=
  file ← FileTable_get files old_fd;
  FileTable_put files file false.

Definition do_dup2 (files : FileTable) (old_fd new_fd soft_rlimit_nofile : Z)
    : Result (FileTable * option Z * Z) :=
  file ← FileTable_get files old_fd;
  if soft_rlimit_nofile <=? new_fd then Err EBADF
  else if negb (old_fd =? new_fd) then
    let (files, old_file) := FileTable_put_at files new_fd file false in
    Ok (files, old_file, new_fd)
  else Ok (files, None, new_fd).

(** [CreationFlags] of [fs/file_ops/file_flags.rs]. *)
Abbreviation O_CREAT := (2 ^ 6 : Z).
Abbreviation O_EXCL := (2 ^ 7 : Z).
Abbreviation O_NOCTTY := (2 ^ 8 : Z).
Abbreviation O_TRUNC := (2 ^ 9 : Z).
Abbreviation O_DIRECTORY := (2 ^ 16 : Z).
Abbreviation O_NOFOLLOW := (2 ^ 17 : Z).
Abbreviation O_CLOEXEC := (2 ^ 19 : Z).
Abbreviation O_TMPFILE := (2 ^ 22 : Z).

Definition CreationFlags_all : Z :=
  Z.lor O_CREAT (Z.lor O_EXCL (Z.lor O_NOCTTY (Z.lor O_TRUNC (Z.lor O_DIRECTORY
    (Z.lor O_NOFOLLOW (Z.lor O_CLOEXEC O_TMPFILE)))))).

Definition must_close_on_spawn `{BF : Bitflags} (self : Z) : bool := bf_contains self O_CLOEXEC.

Definition do_dup3 `{BF : Bitflags} (files : FileTable) (old_fd new_fd flags soft_rlimit_nofile : Z)
    : Result (FileTable * option Z * Z) :=
  let creation_flags := bf_from_bits_truncate CreationFlags_all flags in
  file ← FileTable_get files old_fd;
  if soft_rlimit_nofile <=? new_fd then Err EBADF
  else if old_fd =? new_fd then Err EINVAL
  else
    let (files, old_file) := FileTable_put_at files new_fd file (must_close_on_spawn creation_flags) in
    Ok (files, old_file, new_fd).

(** * The table as a map *)

(** The entry of a descriptor. *)
Definition slot (t : FileTable) (i : nat) : option FileTableEntry := mjoin (ft_table t !! i).

Definition used (l : list (option FileTableEntry)) : nat := length (omap id l).

Definition ft_ok (t : FileTable) : Prop :=
  ft_num_fds t = Z.of_nat (used (ft_table t)) /\ Z.of_nat (length (ft_table t)) < 2 ^ 32.

Definition b2n {A} (o : option A) : nat := if is_some o then 1%nat else 0%nat.

Lemma used_cons o l : used (o :: l) = (b2n o + used l)%nat.
Proof. unfold used. by destruct o. Qed.

Lemma used_app l1 l2 : used (l1 ++ l2) = (used l1 + used l2)%nat.
Proof. unfold used. by rewrite omap_app, length_app. Qed.

Lemma used_replicate n : used (replicate n None) = 0%nat.
Proof. induction n as [|n IH]; [done|]. simpl. by rewrite used_cons. Qed.

Lemma used_le l : (used l <= length l)%nat.
Proof. induction l as [|[e|] l IH]; [done|..]; rewrite used_cons; simpl; unfold b2n; simpl; lia. Qed.

Lemma used_insert l i o o' :
  l !! i = Some o -> (used (<[i := o']> l) + b2n o = used l + b2n o')%nat.
Proof.
  intros Hi. destruct (list_lookup_split _ _ _ Hi) as (l1 & l2 & -> & <-).
  rewrite list_insert_middle, !used_app, !used_cons. lia.
Qed.

Lemma used_full (l : list (option FileTableEntry)) : position is_none l = None -> used l = length l.
Proof.
  induction l as [|[e|] l IH]; simpl; [done| |done].
  destruct (position is_none l); [done|]. intros _. rewrite used_cons. unfold b2n. simpl. auto.
Qed.

Lemma position_none_lookup (l : list (option FileTableEntry)) i :
  position is_none l = Some i ->
  l !! i = Some None /\ (forall j, (j < i)%nat -> exists e, l !! j = Some (Some e)).
Proof.
  intros (l1 & x & l2 & -> & <- & Hx & Hl1)%position_Some.
  destruct x; [done|]. split; [by apply list_lookup_middle|].
  intros j Hj. rewrite lookup_app_l by done.
  destruct (lookup_lt_is_Some_2 l1 j Hj) as [o Ho].
  pose proof (Forall_lookup_1 _ _ _ _ Hl1 Ho) as Hn. simpl in Hn. destruct o; [eauto|done].
Qed.

Lemma slot_insert t i o n j :
  (i < length (ft_table t))%nat ->
  slot (mkFileTable (<[i := o]> (ft_table t)) n) j = if decide (i = j) then o else slot t j.
Proof.
  intros Hi. unfold slot. simpl. destruct (decide (i = j)) as [->|].
  - rewrite list_lookup_insert_eq by done. by destruct o.
  - by rewrite list_lookup_insert_ne.
Qed.

(** Growing the vector with free slots changes no descriptor. *)
Lemma slot_grow l n k i : slot (mkFileTable (l ++ replicate k None) n) i = slot (mkFileTable l n) i.
Proof.
  unfold slot. simpl. destruct (decide (i < length l)%nat).
  - by rewrite lookup_app_l.
  - rewrite lookup_app_r, (lookup_ge_None_2 l) by lia.
    destruct (replicate k None !! (i - length l)%nat) as [o|] eqn:Ho; [|done].
    by apply lookup_replicate in Ho as [-> _].
Qed.

Lemma slot_num l n n' i : slot (mkFileTable l n) i = slot (mkFileTable l n') i.
Proof. done. Qed.

Lemma slot_lookup t i : (i < length (ft_table t))%nat -> ft_table t !! i = Some (slot t i).
Proof. intros [o Ho]%lookup_lt_is_Some_2. unfold slot. by rewrite Ho; destruct o. Qed.

Lemma slot_beyond t i : (length (ft_table t) <= i)%nat -> slot t i = None.
Proof. intros Hi. unfold slot. by rewrite lookup_ge_None_2. Qed.

Lemma get_entry_slot t fd :
  FileTable_get_entry t fd = match slot t (Z.to_nat fd) with Some e => Ok e | None => Err EBADF end.
Proof. unfold FileTable_get_entry, slot. by destruct (ft_table t !! Z.to_nat fd) as [[e|]|]. Qed.

Lemma wrap32_small x : 0 <= x < 2 ^ 32 -> wrap32 x = x.
Proof. intros. by apply Z.mod_small. Qed.

Lemma num_fds_incr t : ft_ok t -> ft_num_fds t +64 1 = ft_num_fds t + 1.
Proof.
  intros [Hn Hl]. apply add64_small. pose proof (used_le (ft_table t)). unfold u64_modulus. lia.
Qed.

Lemma num_fds_decr t : ft_ok t -> 0 < ft_num_fds t -> ft_num_fds t -64 1 = ft_num_fds t - 1.
Proof.
  intros [Hn Hl] Hpos. apply sub64_small. pose proof (used_le (ft_table t)). unfold u64_modulus. lia.
Qed.

(** [put_at], in terms of the map. *)
Lemma put_at_spec t fd file c :
  ft_ok t -> 0 <= fd < 2 ^ 32 - 1 ->
  let t' := (FileTable_put_at t fd file c).1 in
  ft_ok t' /\
  (forall j, slot t' j = if decide (Z.to_nat fd = j) then Some (mkEntry file c) else slot t j) /\
  (FileTable_put_at t fd file c).2 = fte_file <$> slot t (Z.to_nat fd).
Proof.
  intros Hok Hfd t'. subst t'. unfold FileTable_put_at.
  set (i := Z.to_nat fd) in *.
  set (tbl := if (length (ft_table t) <=? i)%nat then _ else _).
  assert (Htbl : exists k, tbl = ft_table t ++ replicate k None /\ (i < length tbl)%nat /\
    Z.of_nat (length tbl) < 2 ^ 32).
  { unfold tbl. destruct Hok as [_ Hl]. destruct (Nat.leb_spec (length (ft_table t)) i).
    - eexists. split; [done|]. rewrite length_app, length_replicate. lia.
    - exists 0%nat. rewrite app_nil_r. split; [done|]. lia. }
  destruct Htbl as (k & Heq & Hi & Hlen). clearbody tbl.
  assert (Hslot : forall j n, slot (mkFileTable tbl n) j = slot t j).
  { intros j n. rewrite Heq. apply slot_grow. }
  assert (Hused : used tbl = used (ft_table t)).
  { rewrite Heq, used_app, used_replicate. lia. }
  pose proof (slot_lookup (mkFileTable tbl 0) i Hi) as Hlk. rewrite Hslot in Hlk. simpl in Hlk.
  rewrite Hlk. simpl. destruct (slot t i) as [e|] eqn:He; simpl.
  all: split_and!; [split; simpl|intros j|done].
  1,4: pose proof (used_insert tbl i _ (Some (mkEntry file c)) Hlk) as Hu; unfold b2n in Hu; simpl in Hu;
    rewrite ?num_fds_incr by done; destruct Hok as [Hn _]; simpl in *; lia.
  1,3: by rewrite length_insert.
  all: rewrite (slot_insert (mkFileTable tbl 0)) by done; by rewrite Hslot.
Qed.

(** * Theorems *)

(** [fd] is the lowest descriptor from [lo] on that is not open. *)
Definition lowest_free (t : FileTable) (lo fd : nat) : Prop :=
  (lo <= fd)%nat /\ slot t fd = None /\ forall j, (lo <= j < fd)%nat -> slot t j <> None.

(** C37: A new file gets the lowest free descriptor. [put] never panics: when the
    count says there is a hole there is one. No other descriptor changes, and the
    count stays the number of open descriptors. *)
Theorem FileTable_put_spec (t : FileTable) (file : Z) (c : bool) :
  ft_ok t -> Z.of_nat (length (ft_table t)) < 2 ^ 32 - 1 ->
  exists t' fd, FileTable_put t file c = Ok (t', fd) /\ 0 <= fd /\ ft_ok t' /\
    lowest_free t 0 (Z.to_nat fd) /\
    forall j, slot t' j = if decide (Z.to_nat fd = j) then Some (mkEntry file c) else slot t j.
Proof.
  intros Hok Hlen. unfold FileTable_put. rewrite num_fds_incr by done.
  pose proof Hok as [Hn _]. pose proof (used_le (ft_table t)) as Hle.
  destruct (Z.ltb_spec (ft_num_fds t) (Z.of_nat (length (ft_table t)))) as [Hlt|Hge].
  - destruct (position is_none (ft_table t)) as [i|] eqn:Hpos; [|apply used_full in Hpos; lia].
    apply position_none_lookup in Hpos as [Hi Hbelow]. pose proof (lookup_lt_Some _ _ _ Hi) as Hil.
    simpl. do 2 eexists. split; [done|]. rewrite wrap32_small by lia. rewrite Nat2Z.id.
    split_and!; [lia|split; simpl|split_and!|].
    + pose proof (used_insert _ _ _ (Some (mkEntry file c)) Hi) as Hu. unfold b2n in Hu. simpl in Hu. lia.
    + rewrite length_insert. lia.
    + lia.
    + unfold slot. by rewrite Hi.
    + intros j [_ Hj]. destruct (Hbelow j Hj) as [e He]. unfold slot. by rewrite He.
    + intros j. by rewrite slot_insert.
  - simpl. do 2 eexists. split; [done|]. rewrite wrap32_small by lia. rewrite Nat2Z.id.
    assert (Hfull : used (ft_table t) = length (ft_table t)) by lia.
    rewrite list_insert_middle.
    split_and!; [lia|split; simpl|split_and!|].
    + rewrite used_app. simpl. unfold b2n. simpl. change (used [Some (mkEntry file c)]) with 1%nat. lia.
    + rewrite length_app. simpl. lia.
    + lia.
    + by apply slot_beyond.
    + intros j [_ Hj] Hnone. pose proof (slot_lookup t j Hj) as Hl. rewrite Hnone in Hl.
      pose proof (used_insert _ _ _ (Some (mkEntry file c)) Hl) as Hu. unfold b2n in Hu. simpl in Hu.
      pose proof (used_le (<[j:=Some (mkEntry file c)]> (ft_table t))) as Hle'.
      rewrite length_insert in Hle'. lia.
    + intros j. unfold slot. simpl. case_decide as Hj; [subst j; by rewrite list_lookup_middle|].
      destruct (decide (j < length (ft_table t))%nat); [by rewrite lookup_app_l|].
      rewrite !lookup_ge_None_2; [done|lia|rewrite length_app; simpl; lia].
Qed.

(** Descriptors 0 and 2 are open. *)
Definition example_table : FileTable :=
  mkFileTable [Some (mkEntry 10 false); None; Some (mkEntry 12 true)] 2.

Lemma FileTable_put_spec_witness :
  exists t' fd, FileTable_put example_table 11 false = Ok (t', fd) /\
    lowest_free example_table 0 (Z.to_nat fd) /\ fd = 1.
Proof.
  destruct (FileTable_put_spec example_table 11 false) as (t' & fd & H & _ & _ & Hl & _).
  - split; [reflexivity|simpl; lia].
  - simpl. lia.
  - exists t', fd. split; [exact H|]. split; [exact Hl|]. vm_compute in H. by injection H as _ <-.
Defined.

(** The slot [dup] picks, in a vector that was only extended with free slots. *)
Lemma dup_pick t k m :
  let tbl := ft_table t ++ replicate k None in
  (m < length tbl)%nat -> Z.of_nat (length tbl) < 2 ^ 32 - 1 ->
  exists k' i,
    match position is_none (drop m tbl) with
    | Some i => (tbl, (m + i)%nat)
    | None => (tbl ++ [None], length tbl)
    end = (ft_table t ++ replicate k' None, i) /\
    (Nat.max i m < length (ft_table t ++ replicate k' None))%nat /\
    Z.of_nat (length (ft_table t ++ replicate k' None)) < 2 ^ 32 /\ lowest_free t m i.
Proof.
  intros tbl Hm Hl.
  assert (Hslot : forall j, slot (mkFileTable tbl 0) j = slot t j) by (intros; apply slot_grow).
  destruct (position is_none (drop m tbl)) as [i|] eqn:Hpos.
  - apply position_none_lookup in Hpos as [Hi Hbelow]. rewrite lookup_drop in Hi.
    pose proof (lookup_lt_Some _ _ _ Hi). exists k, (m + i)%nat. fold tbl.
    split_and!; [done|lia|lia|]. split_and!; [lia|rewrite <- Hslot; unfold slot; simpl; by rewrite Hi|].
    intros j Hj. destruct (Hbelow (j - m)%nat) as [e' He']; [lia|]. rewrite lookup_drop in He'.
    replace (m + (j - m))%nat with j in He' by lia. rewrite <- Hslot. unfold slot. simpl. by rewrite He'.
  - apply position_None in Hpos. exists (k + 1)%nat, (length tbl).
    rewrite replicate_add, app_assoc. fold tbl. simpl. rewrite length_app. simpl.
    split_and!; [done|lia|lia|]. split_and!; [lia|rewrite <- Hslot; by apply slot_beyond|].
    intros j Hj Hnone. rewrite <- Hslot in Hnone.
    pose proof (slot_lookup (mkFileTable tbl 0) j ltac:(simpl; lia)) as Hlk. rewrite Hnone in Hlk.
    simpl in Hlk. replace j with (m + (j - m))%nat in Hlk by lia. rewrite <- lookup_drop in Hlk.
    by pose proof (Forall_lookup_1 _ _ _ _ Hpos Hlk).
Qed.

Lemma ft_ok_grow t k :
  ft_ok t -> Z.of_nat (length (ft_table t ++ replicate k None)) < 2 ^ 32 ->
  ft_ok (mkFileTable (ft_table t ++ replicate k None) (ft_num_fds t)).
Proof. intros [Hn _] Hl. split; simpl; [|done]. rewrite used_app, used_replicate. lia. Qed.

Lemma length_put_at t fd file c :
  (length (ft_table t) <= length (ft_table (FileTable_put_at t fd file c).1))%nat.
Proof.
  unfold FileTable_put_at. simpl. rewrite length_insert. case_if; [|done].
  rewrite length_app. lia.
Qed.

(** [fcntl(F_DUPFD)]: a closed descriptor is [EBADF]; otherwise the same
    file gets the lowest free descriptor at or above [min_fd], with the flag that
    was asked for, and nothing else changes. The vector is first extended to
    [min_fd], whatever the limit on open files. *)
Theorem FileTable_dup_spec (t : FileTable) (fd min_fd : Z) (c : bool) :
  ft_ok t -> 0 <= fd -> 0 <= min_fd < 2 ^ 32 - 2 -> Z.of_nat (length (ft_table t)) < 2 ^ 32 - 2 ->
  match slot t (Z.to_nat fd) with
  | None => FileTable_dup t fd min_fd c = Err EBADF
  | Some e =>
      exists t' new_fd, FileTable_dup t fd min_fd c = Ok (t', new_fd) /\ 0 <= new_fd /\ ft_ok t' /\
        lowest_free t (Z.to_nat min_fd) (Z.to_nat new_fd) /\
        (forall j, slot t' j = if decide (Z.to_nat new_fd = j) then Some (mkEntry (fte_file e) c)
                               else slot t j) /\
        min_fd < Z.of_nat (length (ft_table t'))
  end.
Proof.
  intros Hok Hfd Hmin Hlen. unfold FileTable_dup, FileTable_get. rewrite get_entry_slot.
  destruct (slot t (Z.to_nat fd)) as [e|]; [|done]. cbn [mbind Result_bind].
  set (m := Z.to_nat min_fd).
  assert (exists k, (if (length (ft_table t) <=? m)%nat
      then ft_table t ++ replicate (m - length (ft_table t) + 1) None else ft_table t)
      = ft_table t ++ replicate k None /\ (m < length (ft_table t ++ replicate k None))%nat /\
      Z.of_nat (length (ft_table t ++ replicate k (None (A := FileTableEntry)))) < 2 ^ 32 - 1)
    as (k & -> & Hm & Hl).
  { destruct (Nat.leb_spec (length (ft_table t)) m).
    - eexists. split; [done|]. rewrite length_app, length_replicate. lia.
    - exists 0%nat. rewrite app_nil_r. split; [done|]. lia. }
  destruct (dup_pick t k m Hm Hl) as (k' & i & -> & Hi & Hl' & Hlow).
  rewrite wrap32_small by lia. set (t1 := mkFileTable (ft_table t ++ replicate k' None) (ft_num_fds t)).
  destruct (put_at_spec t1 (Z.of_nat i) (fte_file e) c) as (Hok' & Hsl & _);
    [by apply ft_ok_grow|lia|]. rewrite Nat2Z.id in Hsl.
  do 2 eexists. split; [done|]. rewrite Nat2Z.id. split_and!; [lia|done|done| |].
  - intros j. rewrite Hsl. unfold t1. by rewrite (slot_grow (ft_table t)).
  - pose proof (length_put_at t1 (Z.of_nat i) (fte_file e) c). simpl in *. lia.
Qed.

Lemma FileTable_dup_spec_witness :
  exists t' new_fd, FileTable_dup example_table 2 0 false = Ok (t', new_fd) /\
    slot t' 1 = Some (mkEntry 12 false) /\ lowest_free example_table 0 1.
Proof.
  destruct (FileTable_dup_spec example_table 2 0 false) as (t' & fd & H & _ & _ & Hl & Hs & _).
  - split; [reflexivity|simpl; lia].
  - lia.
  - lia.
  - simpl. lia.
  - exists t', fd. split; [exact H|]. vm_compute in H. injection H as <- <-.
    split; [exact (Hs 1%nat)|exact Hl].
Defined.

(** [close] removes exactly the descriptor it is given, returns its file,
    announces it once, and keeps the count right; a descriptor that is not open
    is [EBADF], also the second time. *)
Theorem FileTable_del_spec (t : FileTable) (fd : Z) :
  ft_ok t -> 0 <= fd ->
  match slot t (Z.to_nat fd) with
  | None => FileTable_del t fd = Err EBADF
  | Some e =>
      exists t', FileTable_del t fd = Ok (t', fte_file e, [Del fd]) /\ ft_ok t' /\
        (forall j, slot t' j = if decide (Z.to_nat fd = j) then None else slot t j) /\
        FileTable_del t' fd = Err EBADF
  end.
Proof.
  intros Hok Hfd. unfold FileTable_del.
  destruct (ft_table t !! Z.to_nat fd) as [o|] eqn:Hl; unfold slot at 1; rewrite Hl; simpl; [|done].
  destruct o as [e|]; [|done]. pose proof (lookup_lt_Some _ _ _ Hl) as Hi.
  eexists. split; [done|].
  pose proof (used_insert _ _ _ None Hl) as Hu. unfold b2n in Hu. simpl in Hu.
  pose proof Hok as [Hn Hlen]. rewrite num_fds_decr by (done || lia). split_and!.
  - split; simpl; [lia|by rewrite length_insert].
  - intros j. by rewrite slot_insert.
  - simpl. by rewrite list_lookup_insert_eq.
Qed.

Lemma FileTable_del_spec_witness :
  exists t', FileTable_del example_table 2 = Ok (t', 12, [Del 2]) /\ ft_ok t'.
Proof.
  destruct (FileTable_del_spec example_table 2) as (t' & H & Hok & _).
  - split; [reflexivity|simpl; lia].
  - lia.
  - exists t'. split; [exact H|exact Hok].
Defined.

(** ** Closing many descriptors *)

Definition closes (o : option FileTableEntry) : bool :=
  match o with Some e => fte_close_on_spawn e | None => false end.

(** The descriptors from [base] on whose entry satisfies [p], in order. *)
Fixpoint indices (p : option FileTableEntry -> bool) (base : nat) (l : list (option FileTableEntry))
    : list Z :=
  match l with
  | [] => []
  | o :: l => (if p o then [Z.of_nat base] else []) ++ indices p (S base) l
  end.

Lemma close_on_spawn_loop_eq l base n :
  Z.of_nat (used l) <= n < u64_modulus -> Z.of_nat (base + length l) < 2 ^ 32 ->
  close_on_spawn_loop l base n =
  ((fun o => if closes o then None else o) <$> l,
   n - Z.of_nat (length (indices closes base l)),
   omap (fun o => if closes o then fte_file <$> o else None) l,
   indices closes base l).
Proof.
  revert base n. induction l as [|[e|] l IH]; intros base n Hn Hlen; cbn [close_on_spawn_loop].
  - simpl. by rewrite Z.sub_0_r.
  - rewrite used_cons in Hn. unfold b2n in Hn. simpl in Hn, Hlen.
    destruct (fte_close_on_spawn e) eqn:Hc; simpl; rewrite Hc; simpl.
    + rewrite sub64_small by lia. rewrite IH by lia. rewrite wrap32_small by lia. simpl.
      do 3 f_equal. lia.
    + by rewrite IH by lia.
  - rewrite used_cons in Hn. simpl in Hn, Hlen. by rewrite IH by lia.
Qed.

Lemma used_close l base :
  (used ((fun o => if closes o then None else o) <$> l) + length (indices closes base l))%nat = used l.
Proof.
  revert base. induction l as [|o l IH]; intros base; [done|].
  rewrite fmap_cons, !used_cons. simpl. rewrite length_app, <- (IH (S base)).
  destruct o as [e|]; simpl; [|lia]. destruct (fte_close_on_spawn e); unfold b2n; simpl; lia.
Qed.

Lemma elem_indices p base l fd :
  fd ∈ indices p base l <->
  exists i o, fd = Z.of_nat (base + i) /\ l !! i = Some o /\ p o = true.
Proof.
  revert base. induction l as [|o l IH]; intros base; simpl; [set_solver|].
  rewrite elem_of_app, IH. split.
  - intros [H|(i & o' & -> & Hi & Hp)].
    + destruct (p o) eqn:Hp; [|set_solver]. apply list_elem_of_singleton in H as ->.
      exists 0%nat, o. split_and!; [lia|done|done].
    + exists (S i), o'. split_and!; [lia|done|done].
  - intros ([|i] & o' & -> & Hi & Hp); simplify_eq/=.
    + left. rewrite Hp. rewrite Nat.add_0_r. set_solver.
    + right. exists i, o'. split_and!; [lia|done|done].
Qed.

(** On [spawn], exactly the close-on-spawn descriptors are closed: each of
    them is announced, in order, the others keep their entries, and the count is
    right afterwards. *)
Theorem FileTable_close_on_spawn_spec (t : FileTable) :
  ft_ok t ->
  let '(t', files, events) := FileTable_close_on_spawn t in
  ft_ok t' /\
  (forall j, slot t' j = match slot t j with
                         | Some e => if fte_close_on_spawn e then None else Some e
                         | None => None
                         end) /\
  events = Del <$> indices closes 0 (ft_table t) /\
  (forall fd, Del fd ∈ events <->
     exists i e, fd = Z.of_nat i /\ slot t i = Some e /\ fte_close_on_spawn e = true) /\
  files = omap (fun o => if closes o then fte_file <$> o else None) (ft_table t).
Proof.
  intros [Hn Hlen]. unfold FileTable_close_on_spawn.
  pose proof (used_le (ft_table t)) as Hle.
  rewrite close_on_spawn_loop_eq by (unfold u64_modulus; simpl; lia).
  split_and!; [split; simpl| |done| |done].
  - pose proof (used_close (ft_table t) 0). lia.
  - by rewrite length_fmap.
  - intros j. unfold slot. simpl. rewrite list_lookup_fmap.
    destruct (ft_table t !! j) as [[e|]|]; simpl; [|done..]. by destruct (fte_close_on_spawn e).
  - intros fd. rewrite list_elem_of_fmap. split.
    + intros (fd' & [= <-] & Hin). apply elem_indices in Hin as (i & [e|] & -> & Hi & Hc); [|done].
      exists i, e. unfold slot. by rewrite Hi.
    + intros (i & e & -> & Hs & Hc). exists (Z.of_nat i). split; [done|]. apply elem_indices.
      exists i, (Some e). split_and!; [done| |done]. unfold slot in Hs.
      destruct (ft_table t !! i) as [o|]; [|done]. simpl in Hs. by rewrite Hs.
Qed.

Lemma FileTable_close_on_spawn_spec_witness :
  let '(t', files, events) := FileTable_close_on_spawn example_table in
  ft_ok t' /\ files = [12] /\ events = [Del 2].
Proof.
  assert (Hok : ft_ok example_table) by (split; [reflexivity|simpl; lia]).
  pose proof (FileTable_close_on_spawn_spec example_table Hok) as H.
  vm_compute FileTable_close_on_spawn in H |- *. split; [apply H|]. split; reflexivity.
Defined.

Lemma used_zero l i o : used l = 0%nat -> l !! i = Some o -> o = None.
Proof.
  intros Hu Hi. destruct o as [e|]; [|done].
  pose proof (used_insert _ _ _ None Hi) as H. unfold b2n in H. simpl in H. lia.
Qed.

Lemma used_all l : (forall i, (i < length l)%nat -> mjoin (l !! i) <> None) -> used l = length l.
Proof.
  intros Hall. apply used_full. destruct (position is_none l) as [i|] eqn:Hpos; [|done].
  apply position_none_lookup in Hpos as [Hi _]. destruct (Hall i).
  - by eapply lookup_lt_Some.
  - by rewrite Hi.
Qed.

(** With no hole, the open descriptors are the first ones. *)
Lemma no_hole t i :
  (forall j, (j < used (ft_table t))%nat -> slot t j <> None) ->
  slot t i <> None -> (i < used (ft_table t))%nat.
Proof.
  intros Hfirst Hi. set (n := used (ft_table t)) in *.
  destruct (decide (i < n)%nat) as [|Hge]; [done|]. destruct Hi.
  assert (Hsplit : used (take n (ft_table t)) = n).
  { pose proof (used_le (ft_table t)). rewrite used_all; rewrite length_take; [lia|].
    intros j Hj. rewrite lookup_take_lt by lia. apply Hfirst. lia. }
  assert (Hrest : used (drop n (ft_table t)) = 0%nat).
  { pose proof (used_app (take n (ft_table t)) (drop n (ft_table t))) as H.
    rewrite take_drop, Hsplit in H. unfold n in *. lia. }
  unfold slot. destruct (ft_table t !! i) as [o|] eqn:Ho; [|done]. simpl.
  apply (used_zero (drop n (ft_table t)) (i - n)); [done|]. rewrite lookup_drop.
  by replace (n + (i - n))%nat with i by lia.
Qed.

(** [del_all] empties the table and returns every open file, but it numbers
    the descriptors it announces after dropping the free slots: the events name
    [0 .. n-1] for [n] open descriptors. They name the descriptors that were open
    exactly when the table has no hole below an open descriptor. *)
Theorem FileTable_del_all_spec (t : FileTable) :
  ft_ok t ->
  let '(t', files, events) := FileTable_del_all t in
  ft_ok t' /\ (forall j, slot t' j = None) /\ files = omap (fmap fte_file) (ft_table t) /\
  events = (fun fd => Del (Z.of_nat fd)) <$> seq 0 (used (ft_table t)) /\
  ((forall fd, Del fd ∈ events <-> exists i e, fd = Z.of_nat i /\ slot t i = Some e)
   <-> forall i, (i < used (ft_table t))%nat -> slot t i <> None).
Proof.
  intros [Hn Hlen]. unfold FileTable_del_all. pose proof (used_le (ft_table t)) as Hle.
  assert (Hev : (Del <$> ((fun fd => wrap32 (Z.of_nat fd)) <$> seq 0 (length (omap id (ft_table t)))))
    = (fun fd => Del (Z.of_nat fd)) <$> seq 0 (used (ft_table t))).
  { change (length (omap id (ft_table t))) with (used (ft_table t)).
    rewrite <- list_fmap_compose. apply list_fmap_ext. intros k fd Hk. apply lookup_seq in Hk as [-> Hk].
    simpl. rewrite wrap32_small; [done|]. lia. }
  rewrite Hev. split_and!; [split; simpl|..].
  - by rewrite used_replicate.
  - by rewrite length_replicate.
  - intros j. unfold slot. simpl. destruct (_ !! j) as [o|] eqn:Ho; [|done].
    by apply lookup_replicate in Ho as [-> _].
  - clear. induction (ft_table t) as [|[e|] l IH]; [done| |done]. simpl. by f_equal.
  - done.
  - split.
    + intros Hall i Hi Hnone. assert (Hin : Del (Z.of_nat i) ∈
        ((fun fd => Del (Z.of_nat fd)) <$> seq 0 (used (ft_table t)))).
      { apply list_elem_of_fmap. exists i. split; [done|]. apply elem_of_seq. lia. }
      apply Hall in Hin as (i' & e & Heq & Hs). apply Nat2Z.inj in Heq as <-. congruence.
    + intros Hfirst fd. rewrite list_elem_of_fmap. split.
      * intros (i & [= ->] & Hi). apply elem_of_seq in Hi.
        destruct (slot t i) as [e|] eqn:He; [eauto|]. exfalso. apply (Hfirst i); [lia|done].
      * intros (i & e & -> & Hs). exists i. split; [done|]. apply elem_of_seq.
        pose proof (no_hole t i Hfirst). rewrite Hs in *. naive_solver lia.
Qed.

(** With a hole at 1, closing 0 and 2 announces 0 and 1. *)
Lemma FileTable_del_all_spec_witness :
  let '(t', files, events) := FileTable_del_all example_table in
  events = [Del 0; Del 1] /\ ft_ok t' /\
  ~ (forall fd, Del fd ∈ events <-> exists i e, fd = Z.of_nat i /\ slot example_table i = Some e).
Proof.
  assert (Hok : ft_ok example_table) by (split; [reflexivity|simpl; lia]).
  pose proof (FileTable_del_all_spec example_table Hok) as H. simpl in H |- *.
  destruct H as (Hok' & _ & _ & _ & Hiff). split_and!; [reflexivity|exact Hok'|].
  intros Hall. apply (proj1 Hiff Hall 1%nat); [vm_compute; lia|reflexivity].
Defined.

Lemma cloexec_truncate `{BF : Bitflags} flags :
  must_close_on_spawn (bf_from_bits_truncate CreationFlags_all flags) = Z.testbit flags 19.
Proof.
  unfold must_close_on_spawn. rewrite bf_contains_law, bf_from_bits_truncate_law, <- Z.land_assoc.
  change (Z.land CreationFlags_all O_CLOEXEC) with O_CLOEXEC.
  destruct (Z.testbit flags 19) eqn:Hb.
  - apply Z.eqb_eq, Z.bits_inj'. intros n Hn. rewrite Z.land_spec, Z.pow2_bits_eqb by lia.
    destruct (Z.eqb_spec 19 n) as [<-|]; [by rewrite Hb|by rewrite andb_false_r].
  - apply Z.eqb_neq. intros H. apply (f_equal (fun x => Z.testbit x 19)) in H.
    rewrite Z.land_spec, Hb in H. done.
Qed.

(** [dup2] and [dup3]: a closed [old_fd], and a [new_fd] at or beyond the
    limit on open files, are [EBADF]; on equal descriptors [dup2] does nothing and
    [dup3] is [EINVAL]. Otherwise [new_fd] refers to the file of [old_fd], with
    close-on-exec exactly if [dup3] was given [O_CLOEXEC], nothing else changes,
    and the file that was at [new_fd] is the one whose locks are released. *)
Theorem do_dup2_dup3_spec `{BF : Bitflags} (t : FileTable) (old_fd new_fd flags limit : Z) :
  ft_ok t -> 0 <= old_fd -> 0 <= new_fd < 2 ^ 32 - 1 ->
  let r2 := do_dup2 t old_fd new_fd limit in
  let r3 := do_dup3 t old_fd new_fd flags limit in
  match slot t (Z.to_nat old_fd) with
  | None => r2 = Err EBADF /\ r3 = Err EBADF
  | Some e =>
      if limit <=? new_fd then r2 = Err EBADF /\ r3 = Err EBADF
      else if old_fd =? new_fd then r2 = Ok (t, None, new_fd) /\ r3 = Err EINVAL
      else
        let replaced c t' := ft_ok t' /\ forall j, slot t' j =
          if decide (Z.to_nat new_fd = j) then Some (mkEntry (fte_file e) c) else slot t j in
        let closed := fte_file <$> slot t (Z.to_nat new_fd) in
        exists t2 t3, r2 = Ok (t2, closed, new_fd) /\ r3 = Ok (t3, closed, new_fd) /\
          replaced false t2 /\ replaced (Z.testbit flags 19) t3
  end.
Proof.
  intros Hok Hold Hnew r2 r3. subst r2 r3. unfold do_dup2, do_dup3, FileTable_get.
  rewrite get_entry_slot. destruct (slot t (Z.to_nat old_fd)) as [e|]; [|done]. cbn [mbind Result_bind].
  destruct (limit <=? new_fd); [done|]. destruct (old_fd =? new_fd); [done|]. cbn [negb].
  rewrite cloexec_truncate.
  destruct (put_at_spec t new_fd (fte_file e) false Hok Hnew) as (Hok2 & Hs2 & Hc2).
  destruct (put_at_spec t new_fd (fte_file e) (Z.testbit flags 19) Hok Hnew) as (Hok3 & Hs3 & Hc3).
  destruct (FileTable_put_at t new_fd (fte_file e) false) as [t2 o2].
  destruct (FileTable_put_at t new_fd (fte_file e) (Z.testbit flags 19)) as [t3 o3].
  simpl in *. subst o2 o3. by exists t2, t3.
Qed.

Lemma do_dup2_dup3_spec_witness :
  exists t2 t3, do_dup2 example_table 0 2 1024 = Ok (t2, Some 12, 2) /\
    do_dup3 (BF := bitflags_bits) example_table 0 2 O_CLOEXEC 1024 = Ok (t3, Some 12, 2) /\
    slot t3 2 = Some (mkEntry 10 true).
Proof.
  destruct (do_dup2_dup3_spec (BF := bitflags_bits) example_table 0 2 O_CLOEXEC 1024)
    as (t2 & t3 & H2 & H3 & _ & _ & Hs).
  - split; reflexivity.
  - lia.
  - lia.
  - exists t2, t3. split; [exact H2|]. split; [exact H3|]. rewrite Hs. reflexivity.
Defined.
