(* ===== verification/SigSet.v ===== *)
(** Signal numbers, signal sets, masks, actions and stacks: [src/libos/src/signal/]
    ([sig_num.rs], [constants.rs], [sig_set.rs], [do_sigprocmask.rs],
    [sig_action.rs], [sig_dispositions.rs], [do_sigaction.rs], [sig_stack.rs],
    [do_sigaltstack.rs]).

    A signal set is a 64-bit word; the theorems relate the bit operations to
    sets of signal numbers and show that [SIGKILL] and [SIGSTOP] can neither be
    blocked by [sigprocmask] nor given a handler. *)

From stdpp Require Import base list list_numbers.
From S2P Require Import Prelude Errno External.

(** * Signal numbers *)

Abbreviation MIN_STD_SIG_NUM := (1 : Z).
Abbreviation MAX_STD_SIG_NUM := (31 : Z).
Abbreviation MIN_RT_SIG_NUM := (32 : Z).
Abbreviation MAX_RT_SIG_NUM := (64 : Z).
Definition COUNT_STD_SIGS : nat := 31.
Definition COUNT_RT_SIGS : nat := 33.
Abbreviation COUNT_ALL_SIGS := (64 : nat).

(** [SigNum { num: u8 }] *)
Abbreviation SigNum := Z (only parsing).

Abbreviation SIGHUP := (1 : SigNum).
Abbreviation SIGINT := (2 : SigNum).
Abbreviation SIGQUIT := (3 : SigNum).
Abbreviation SIGILL := (4 : SigNum).
Abbreviation SIGTRAP := (5 : SigNum).
Abbreviation SIGABRT := (6 : SigNum).
Abbreviation SIGBUS := (7 : SigNum).
Abbreviation SIGFPE := (8 : SigNum).
Abbreviation SIGKILL := (9 : SigNum).
Abbreviation SIGUSR1 := (10 : SigNum).
Abbreviation SIGSEGV := (11 : SigNum).
Abbreviation SIGUSR2 := (12 : SigNum).
Abbreviation SIGPIPE := (13 : SigNum).
Abbreviation SIGALRM := (14 : SigNum).
Abbreviation SIGTERM := (15 : SigNum).
Abbreviation SIGSTKFLT := (16 : SigNum).
Abbreviation SIGCHLD := (17 : SigNum).
Abbreviation SIGCONT := (18 : SigNum).
Abbreviation SIGSTOP := (19 : SigNum).
Abbreviation SIGTSTP := (20 : SigNum).
Abbreviation SIGTTIN := (21 : SigNum).
Abbreviation SIGTTOU := (22 : SigNum).
Abbreviation SIGURG := (23 : SigNum).
Abbreviation SIGXCPU := (24 : SigNum).
Abbreviation SIGXFSZ := (25 : SigNum).
Abbreviation SIGVTALRM := (26 : SigNum).
Abbreviation SIGPROF := (27 : SigNum).
Abbreviation SIGWINCH := (28 : SigNum).
Abbreviation SIGIO := (29 : SigNum).
Abbreviation SIGPWR := (30 : SigNum).
Abbreviation SIGSYS := (31 : SigNum).

Definition SigNum_from_u8 (num : Z) : Result SigNum :=
  if (num <? MIN_STD_SIG_NUM) || (MAX_RT_SIG_NUM <? num) then Err EINVAL else Ok num.

Abbreviation SigNum_is_std self := (self <=? MAX_STD_SIG_NUM).

(** What [from_u8] checks. *)
Definition signum_ok (n : SigNum) : Prop := MIN_STD_SIG_NUM <= n <= MAX_RT_SIG_NUM.

(** * Signal sets *)

(** [SigSet { bits: u64 }] *)
Abbreviation SigSet := Z (only parsing).

(** [1_u64 << idx]; the shift count is taken modulo 64. *)
Definition shl1_64 (idx : Z) : Z := Z.shiftl 1 (idx mod 64).

(** [(num.as_u8() - MIN_STD_SIG_NUM) as usize], a subtraction on [u8]. *)
Definition num_to_idx (num : SigNum) : Z := (num - MIN_STD_SIG_NUM) mod 256.

Abbreviation idx_to_num idx := ((idx + 1) mod 256).

Abbreviation SigSet_from_c bits := (bits) (only parsing).
Abbreviation SigSet_to_c self := (self) (only parsing).
Abbreviation SigSet_new_empty := (SigSet_from_c 0 : SigSet).
Abbreviation SigSet_new_full := (SigSet_from_c (not64 0) : SigSet).
Abbreviation SigSet_empty self := (self =? 0).

(** [u64::count_ones] *)
Definition count_ones (x : Z) : nat :=
  length (filter (fun i => Z.testbit x i = true) (seqZ 0 64)).

Abbreviation SigSet_count self := (count_ones self).

Definition SigSet_contains (self : SigSet) (signum : SigNum) : bool :=
  negb (Z.land self (shl1_64 (num_to_idx signum)) =? 0).

(** [self += signum] and [self -= signum] *)
Definition SigSet_add (self : SigSet) (rhs : SigNum) : SigSet :=
  Z.lor self (shl1_64 (num_to_idx rhs)).
Definition SigSet_sub (self : SigSet) (rhs : SigNum) : SigSet :=
  Z.land self (not64 (shl1_64 (num_to_idx rhs))).

Definition SigSet_not (self : SigSet) : SigSet := SigSet_from_c (not64 self).
Definition SigSet_bitor (self rhs : SigSet) : SigSet := Z.lor self rhs.
Definition SigSet_bitand (self rhs : SigSet) : SigSet := Z.land self rhs.
Definition SigSet_from_signum (signum : SigNum) : SigSet := SigSet_add SigSet_new_empty signum.

(** The [while] loop of [SigSetIter::next]. *)
Fixpoint iter_skip (fuel : nat) (bits : SigSet) (next_idx : Z) : Z :=
  match fuel with
  | O => next_idx
  | S fuel =>
      if (next_idx <? 64) && (Z.land bits (shl1_64 next_idx) =? 0)
      then iter_skip fuel bits (next_idx + 1)
      else next_idx
  end.

(** [SigSetIter::next]: the item and the next index; 64 rounds are enough. *)
Definition SigSetIter_next (bits : SigSet) (next_idx : Z) : option SigNum * Z :=
  let next_idx := iter_skip 64 bits next_idx in
  if next_idx =? 64 then (None, next_idx)
  else (Some (idx_to_num next_idx), next_idx + 1).

(** Calling [next] until it returns [None]. *)
Fixpoint iter_collect (fuel : nat) (bits : SigSet) (next_idx : Z) : list SigNum :=
  match fuel with
  | O => []
  | S fuel =>
      match SigSetIter_next bits next_idx with
      | (None, _) => []
      | (Some item, next_idx) => item :: iter_collect fuel bits next_idx
      end
  end.

Definition SigSet_iter (self : SigSet) : list SigNum := iter_collect 65 self 0.

(** * The mask of a thread *)

Inductive MaskOp := Block | Unblock | SetMask.

Definition MaskOp_from_u32 (raw : Z) : Result MaskOp :=
  match raw with
  | 0 => Ok Block
  | 1 => Ok Unblock
  | 2 => Ok SetMask
  | _ => Err EINVAL
  end.

(** The old mask, and the new one. *)
Definition do_rt_sigprocmask (sig_mask : SigSet) (op_and_set : option (MaskOp * SigSet))
    : Result SigSet * SigSet :=
  let old_mask := sig_mask in
  let sig_mask :=
    match op_and_set with
    | Some (op, set) =>
        let set := SigSet_sub (SigSet_sub set SIGKILL) SIGSTOP in
        match op with
        | Block => SigSet_bitor sig_mask set
        | Unblock => SigSet_bitand sig_mask (SigSet_not set)
        | SetMask => set
        end
    | None => sig_mask
    end in
  (Ok old_mask, sig_mask).

(** * Actions *)

Record sigaction_t := mk_sigaction { sa_handler : Z; sa_flags : Z; sa_restorer : Z; sa_mask : Z }.

Abbreviation SIG_DFL := (0 : Z).
Abbreviation SIG_IGN := (1 : Z).

Abbreviation SA_NOCLDSTOP := (1 : Z).
Abbreviation SA_NOCLDWAIT := (2 : Z).
Abbreviation SA_SIGINFO := (4 : Z).
Abbreviation SA_ONSTACK := (0x08000000 : Z).
Abbreviation SA_RESTART := (0x10000000 : Z).
Abbreviation SA_NODEFER := (0x40000000 : Z).
Abbreviation SA_RESETHAND := (0x80000000 : Z).
Abbreviation SA_RESTORER := (0x04000000 : Z).

(** The union of the declared flags. *)
Definition SigActionFlags_all : Z :=
  Z.lor SA_NOCLDSTOP (Z.lor SA_NOCLDWAIT (Z.lor SA_SIGINFO (Z.lor SA_ONSTACK
    (Z.lor SA_RESTART (Z.lor SA_NODEFER (Z.lor SA_RESETHAND SA_RESTORER)))))).

Inductive SigAction :=
| Dfl
| Ign
| User (handler_addr flags restorer_addr : Z) (mask : SigSet).

#[export] Instance SigAction_eq_dec : EqDecision SigAction.
Proof. solve_decision. Defined.

Section action.
Context {BF : Bitflags}.

Definition SigActionFlags_from_u32 (bits : Z) : Result Z :=
  ok_or (bf_from_bits SigActionFlags_all bits) EINVAL.

Definition SigAction_from_c (sa_c : sigaction_t) : Result SigAction :=
  if sa_handler sa_c =? SIG_DFL then Ok Dfl
  else if sa_handler sa_c =? SIG_IGN then Ok Ign
  else
    flags ← SigActionFlags_from_u32 (sa_flags sa_c);
    let mask := SigSet_sub (SigSet_sub (SigSet_from_c (sa_mask sa_c)) SIGKILL) SIGSTOP in
    Ok (User (sa_handler sa_c) flags (sa_restorer sa_c) mask).
End action.

Definition SigAction_to_c (self : SigAction) : sigaction_t :=
  match self with
  | Dfl => mk_sigaction SIG_DFL 0 0 0
  | Ign => mk_sigaction SIG_IGN 0 0 0
  | User handler_addr flags restorer_addr mask =>
      mk_sigaction handler_addr flags restorer_addr (SigSet_to_c mask)
  end.

Inductive SigDefaultAction := ActTerm | ActIgn | ActCore | ActStop | ActCont.

Definition SigDefaultAction_from_signum (num : SigNum) : SigDefaultAction :=
  if existsb (Z.eqb num) [SIGABRT; SIGBUS; SIGFPE; SIGILL; SIGQUIT; SIGSEGV; SIGSYS; SIGTRAP;
                          SIGXCPU; SIGXFSZ] then ActCore
  else if existsb (Z.eqb num) [SIGCHLD; SIGURG; SIGWINCH] then ActIgn
  else if num =? SIGCONT then ActCont
  else if existsb (Z.eqb num) [SIGSTOP; SIGTSTP; SIGTTIN; SIGTTOU] then ActStop
  else ActTerm.

(** [SigDispositions { map: [SigAction; 64] }] *)
Abbreviation SigDispositions := (list SigAction) (only parsing).

Definition SigDispositions_new : SigDispositions := replicate COUNT_ALL_SIGS Dfl.

Definition SigDispositions_get (self : SigDispositions) (num : SigNum) : Result SigAction :=
  unwrap_option (self !! Z.to_nat (num_to_idx num)).

(** Indexing panics outside of the array. *)
Definition SigDispositions_set (self : SigDispositions) (num : SigNum) (sa : SigAction)
    : Result SigDispositions :=
  let idx := Z.to_nat (num_to_idx num) in
  if (idx <? length self)%nat then Ok (<[idx := sa]> self) else Panic.

Definition SigDispositions_inherit (self : SigDispositions) : SigDispositions :=
  (fun sigaction => match sigaction with User _ _ _ _ => Dfl | _ => sigaction end) <$> self.

(** The old action and the new dispositions. *)
Definition do_rt_sigaction (sig_dispositions : SigDispositions) (signum : SigNum)
    (new_sa : option SigAction) : Result (SigAction * SigDispositions) :=
  if ((signum =? SIGKILL) || (signum =? SIGSTOP)) && bool_decide (is_Some new_sa) then Err EINVAL
  else
    old_sa ← SigDispositions_get sig_dispositions signum;
    match new_sa with
    | Some new_sa =>
        sig_dispositions ← SigDispositions_set sig_dispositions signum new_sa;
        Ok (old_sa, sig_dispositions)
    | None => Ok (old_sa, sig_dispositions)
    end.

(** * The alternate stack *)

Abbreviation MINSIGSTKSZ := (2048 : Z).

Inductive SigStackFlags := SS_EMPTY | SS_ONSTACK | SS_DISABLE | SS_AUTODISARM.

#[export] Instance SigStackFlags_eq_dec : EqDecision SigStackFlags.
Proof. solve_decision. Defined.

Definition SigStackFlags_from_u32 (bits : Z) : Result SigStackFlags :=
  if (2 <? bits) && negb (bits =? 2 ^ 31) then Err EINVAL
  else Ok (if bits =? 0 then SS_EMPTY else if bits =? 1 then SS_ONSTACK
           else if bits =? 2 then SS_DISABLE else SS_AUTODISARM).

Record SigStack := mkSigStack { ss_sp : Z; ss_flags : SigStackFlags; ss_size : Z }.

Abbreviation SigStack_default := (mkSigStack 0 SS_DISABLE 0 : SigStack).

Definition SigStack_contains (self : SigStack) (addr : Z) : bool :=
  (ss_sp self <=? addr) && (addr -64 ss_sp self <? ss_size self).

(** The old stack as reported, and the new one. *)
Definition do_sigaltstack (sig_stack : option SigStack) (new_ss : option SigStack) (rsp : Z)
    : Result (SigStack * option SigStack) :=
  old_ss ← match sig_stack with
           | Some sig_stack =>
               if bool_decide (is_Some new_ss) && SigStack_contains sig_stack rsp then Err EPERM
               else
                 let flags := if SigStack_contains sig_stack rsp then SS_ONSTACK else SS_EMPTY in
                 Ok (mkSigStack (ss_sp sig_stack) flags (ss_size sig_stack))
           | None => Ok SigStack_default
           end;
  match new_ss with
  | Some new_ss =>
      if bool_decide (ss_flags new_ss = SS_DISABLE) then Ok (old_ss, None)
      else if ss_size new_ss <? MINSIGSTKSZ then Err ENOMEM
      else Ok (old_ss, Some new_ss)
  | None => Ok (old_ss, sig_stack)
  end.

(** * Sets as sets of numbers *)

(** [n] is in the set. *)
Definition sig_in (n : SigNum) (s : SigSet) : Prop := Z.testbit s (n - 1) = true.

Lemma shl1_64_eq n : signum_ok n -> shl1_64 (num_to_idx n) = 2 ^ (n - 1).
Proof.
  unfold signum_ok, shl1_64, num_to_idx. intros.
  rewrite (Z.mod_small (n - 1)), Z.mod_small by lia. rewrite Z.shiftl_1_l. done.
Qed.

Lemma testbit_pow2 i j : 0 <= i -> Z.testbit (2 ^ i) j = (i =? j).
Proof.
  intros Hi. destruct (Z.eqb_spec i j) as [<-|Hne]; [by apply Z.pow2_bits_true|].
  by apply Z.pow2_bits_false.
Qed.

Lemma land_pow2_zero x i : 0 <= i -> (Z.land x (2 ^ i) =? 0) = negb (Z.testbit x i).
Proof.
  intros Hi. destruct (Z.testbit x i) eqn:Hb; simpl.
  - apply Z.eqb_neq. intros H0. assert (Ht : Z.testbit (Z.land x (2 ^ i)) i = false) by by rewrite H0, Z.bits_0.
    rewrite Z.land_spec, Hb, testbit_pow2, Z.eqb_refl in Ht by done. done.
  - apply Z.eqb_eq, Z.bits_inj'. intros j Hj. rewrite Z.land_spec, testbit_pow2, Z.bits_0 by done.
    destruct (Z.eqb_spec i j) as [<-|]; [by rewrite Hb|]. apply andb_false_r.
Qed.

Lemma contains_iff s n : signum_ok n -> SigSet_contains s n = true <-> sig_in n s.
Proof.
  intros Hn. unfold SigSet_contains, sig_in. rewrite shl1_64_eq, land_pow2_zero by (done || unfold signum_ok in *; lia).
  by rewrite negb_involutive.
Qed.

Lemma sig_in_add s n m :
  signum_ok n -> signum_ok m -> sig_in m (SigSet_add s n) <-> m = n \/ sig_in m s.
Proof.
  intros Hn Hm. unfold sig_in, SigSet_add. rewrite shl1_64_eq, Z.lor_spec by done.
  unfold signum_ok in *. rewrite testbit_pow2, orb_true_iff, Z.eqb_eq by lia.
  assert (n - 1 = m - 1 <-> m = n) by lia. tauto.
Qed.

Lemma sig_in_sub s n m :
  signum_ok n -> signum_ok m -> sig_in m (SigSet_sub s n) <-> sig_in m s /\ m <> n.
Proof.
  intros Hn Hm. unfold sig_in, SigSet_sub. rewrite shl1_64_eq, Z.land_spec by done.
  unfold signum_ok in *.
  rewrite not64_spec, testbit_pow2, andb_true_iff by lia.
  destruct (Z.eqb_spec (n - 1) (m - 1)); simpl; intuition lia.
Qed.

Lemma sig_in_not s n : signum_ok n -> sig_in n (SigSet_not s) <-> ~ sig_in n s.
Proof.
  unfold sig_in, SigSet_not, signum_ok. intros.
  rewrite not64_spec by lia. by destruct (Z.testbit s (n - 1)).
Qed.

Lemma sig_in_or s1 s2 n : sig_in n (SigSet_bitor s1 s2) <-> sig_in n s1 \/ sig_in n s2.
Proof. unfold sig_in, SigSet_bitor. by rewrite Z.lor_spec, orb_true_iff. Qed.

Lemma sig_in_and s1 s2 n : sig_in n (SigSet_bitand s1 s2) <-> sig_in n s1 /\ sig_in n s2.
Proof. unfold sig_in, SigSet_bitand. by rewrite Z.land_spec, andb_true_iff. Qed.

Lemma sig_in_empty n : ~ sig_in n SigSet_new_empty.
Proof. unfold sig_in. by rewrite Z.bits_0. Qed.

(** Every signal constant is a valid signal number. *)
Ltac signum_const := unfold signum_ok; lia.

(** ** Iteration *)

Lemma iter_skip_spec fuel bits i :
  0 <= i <= 64 -> 64 - i <= Z.of_nat fuel ->
  let j := iter_skip fuel bits i in
  i <= j <= 64 /\ (forall k, i <= k < j -> Z.testbit bits k = false) /\
  (j < 64 -> Z.testbit bits j = true).
Proof.
  revert i. induction fuel as [|fuel IH]; intros i Hi Hf; simpl.
  { split_and!; intros; lia. }
  unfold shl1_64. destruct (Z.ltb_spec i 64) as [Hlt|]; simpl; [|split_and!; intros; lia].
  rewrite Z.mod_small, Z.shiftl_1_l, land_pow2_zero by lia.
  destruct (Z.testbit bits i) eqn:Hb; simpl; [split_and!; intros; auto; lia|].
  destruct (IH (i + 1)) as (H1 & H2 & H3); [lia|lia|]. split_and!; [lia|lia| |done].
  intros k Hk. destruct (decide (k = i)) as [->|]; [done|]. apply H2. lia.
Qed.

Lemma filter_seqZ_none bits i n :
  (forall k, i <= k < i + n -> Z.testbit bits k = false) ->
  filter (fun k => Z.testbit bits k = true) (seqZ i n) = [].
Proof.
  intros H.
  destruct (filter _ _) as [|k l] eqn:Hf; [done|].
  assert (Hk : k ∈ filter (fun k => Z.testbit bits k = true) (seqZ i n)) by (rewrite Hf; set_solver).
  apply list_elem_of_filter in Hk as [Hk Hin]. apply elem_of_seqZ in Hin. rewrite H in Hk by lia. done.
Qed.

Lemma iter_collect_eq fuel bits i :
  0 <= i <= 64 -> 64 - i < Z.of_nat fuel ->
  iter_collect fuel bits i = Z.succ <$> filter (fun k => Z.testbit bits k = true) (seqZ i (64 - i)).
Proof.
  revert i. induction fuel as [|fuel IH]; intros i Hi Hf; [lia|].
  cbn [iter_collect]. unfold SigSetIter_next.
  destruct (iter_skip_spec 64 bits i) as (Hr & Hlow & Hat); [lia|lia|].
  set (j := iter_skip 64 bits i) in *. clearbody j.
  destruct (Z.eqb_spec j 64) as [->|Hne].
  { by rewrite filter_seqZ_none by (intros; apply Hlow; lia). }
  rewrite IH by lia. rewrite Z.mod_small by lia.
  replace (64 - i) with ((j - i) + (64 - j)) by lia.
  rewrite seqZ_app, list.filter_app by lia. rewrite (filter_seqZ_none bits i (j - i)) by (intros; apply Hlow; lia).
  replace (i + (j - i)) with j by lia. rewrite (seqZ_cons j (64 - j)) by lia.
  rewrite filter_cons_True by (apply Hat; lia).
  replace (Z.pred (64 - j)) with (64 - (j + 1)) by lia. simpl. by replace (Z.succ j) with (j + 1) by lia.
Qed.

(** * Theorems *)

(** The bit operations of [SigSet] are the set operations on signal
    numbers 1 to 64: membership, adding and removing a signal, complement, union
    and intersection. *)
Theorem SigSet_ops_spec (s t : SigSet) (n m : SigNum) :
  signum_ok n -> signum_ok m ->
  (SigSet_contains s n = true <-> sig_in n s) /\
  (sig_in m (SigSet_add s n) <-> m = n \/ sig_in m s) /\
  (sig_in m (SigSet_sub s n) <-> sig_in m s /\ m <> n) /\
  (sig_in n (SigSet_not s) <-> ~ sig_in n s) /\
  (sig_in n (SigSet_bitor s t) <-> sig_in n s \/ sig_in n t) /\
  (sig_in n (SigSet_bitand s t) <-> sig_in n s /\ sig_in n t) /\
  (~ sig_in n SigSet_new_empty) /\ sig_in n SigSet_new_full /\
  (SigSet_sub (SigSet_add s n) n = SigSet_sub s n).
Proof.
  intros Hn Hm. split_and!; auto using contains_iff, sig_in_add, sig_in_sub, sig_in_not, sig_in_or,
    sig_in_and, sig_in_empty.
  - apply (sig_in_not 0 n Hn), sig_in_empty.
  - unfold SigSet_sub, SigSet_add. rewrite shl1_64_eq by done.
    unfold signum_ok in *.
    rewrite Z.land_lor_distr_l. replace (Z.land (2 ^ (n - 1)) (not64 (2 ^ (n - 1)))) with 0;
      [by rewrite Z.lor_0_r|].
    symmetry. apply Z.bits_inj'. intros j Hj. rewrite Z.land_spec, Z.bits_0, testbit_pow2 by lia.
    destruct (Z.eqb_spec (n - 1) j) as [<-|]; [|done].
    by rewrite not64_spec, testbit_pow2, Z.eqb_refl by lia.
Qed.

Lemma SigSet_ops_spec_witness :
  SigSet_contains (SigSet_add (SigSet_add 0 SIGINT) SIGKILL) SIGKILL = true /\
  sig_in SIGKILL (SigSet_add 2 SIGKILL).
Proof.
  split; [reflexivity|].
  apply (proj1 (proj2 (SigSet_ops_spec 2 0 SIGKILL SIGKILL ltac:(signum_const) ltac:(signum_const)))).
  by left.
Defined.

(** Iterating over a set ends and yields exactly its signals, once each and
    in increasing order; [count] is how many there are. *)
Theorem SigSet_iter_spec (s : SigSet) :
  SigSet_iter s = Z.succ <$> filter (fun k => Z.testbit s k = true) (seqZ 0 64) /\
  (forall n, n ∈ SigSet_iter s <-> signum_ok n /\ sig_in n s) /\
  SigSet_count s = length (SigSet_iter s).
Proof.
  assert (Heq : SigSet_iter s = Z.succ <$> filter (fun k => Z.testbit s k = true) (seqZ 0 64))
    by (apply iter_collect_eq; lia).
  rewrite Heq. split_and!; [done| |by rewrite length_fmap].
  intros n. rewrite list_elem_of_fmap. unfold signum_ok, sig_in. split.
  - intros (k & -> & Hk). apply list_elem_of_filter in Hk as [Hb Hk]. apply elem_of_seqZ in Hk.
    replace (Z.succ k - 1) with k by lia. split; [lia|done].
  - intros [Hn Hb]. exists (n - 1). split; [lia|]. apply list_elem_of_filter. split; [done|].
    apply elem_of_seqZ. lia.
Qed.

(** [sigprocmask] returns the old mask and blocks, unblocks or replaces
    exactly the signals of the set, except that [SIGKILL] and [SIGSTOP] are never
    touched by the set: a mask without them stays without them. *)
Theorem do_rt_sigprocmask_spec (mask set : SigSet) (op : MaskOp) (n : SigNum) :
  signum_ok n ->
  let set' m := sig_in m set /\ m <> SIGKILL /\ m <> SIGSTOP in
  let '(res, mask') := do_rt_sigprocmask mask (Some (op, set)) in
  res = Ok mask /\ do_rt_sigprocmask mask None = (Ok mask, mask) /\
  (sig_in n mask' <->
     match op with
     | Block => sig_in n mask \/ set' n
     | Unblock => sig_in n mask /\ ~ set' n
     | SetMask => set' n
     end) /\
  (~ sig_in SIGKILL mask -> ~ sig_in SIGKILL mask') /\
  (~ sig_in SIGSTOP mask -> ~ sig_in SIGSTOP mask').
Proof.
  intros Hn set'. unfold do_rt_sigprocmask.
  assert (Hset : forall m, signum_ok m ->
    sig_in m (SigSet_sub (SigSet_sub set SIGKILL) SIGSTOP) <-> set' m).
  { intros m Hm. unfold set'. rewrite !sig_in_sub by (done || signum_const). tauto. }
  assert (Hk : signum_ok SIGKILL) by signum_const. assert (Hst : signum_ok SIGSTOP) by signum_const.
  split_and!; [done|done| | |]; destruct op;
    rewrite ?sig_in_or, ?sig_in_and, ?sig_in_not, ?Hset by done; unfold set'; tauto.
Qed.

Lemma do_rt_sigprocmask_spec_witness :
  (do_rt_sigprocmask 0 (Some (SetMask, SigSet_new_full))).1 = Ok 0 /\
  ~ sig_in SIGKILL (do_rt_sigprocmask 0 (Some (SetMask, SigSet_new_full))).2.
Proof.
  split; [reflexivity|].
  refine (proj1 (proj2 (proj2 (proj2 (do_rt_sigprocmask_spec 0 SigSet_new_full SetMask SIGKILL _)))) _).
  - signum_const.
  - apply sig_in_empty.
Defined.

(** Removing [SIGKILL] and [SIGSTOP] twice is removing them once. *)
Lemma SigSet_sub_idem s n : SigSet_sub (SigSet_sub s n) n = SigSet_sub s n.
Proof. unfold SigSet_sub. by rewrite <- Z.land_assoc, Z.land_diag. Qed.

Lemma SigSet_sub_comm s n m : SigSet_sub (SigSet_sub s n) m = SigSet_sub (SigSet_sub s m) n.
Proof. unfold SigSet_sub. rewrite <- !Z.land_assoc. f_equal. apply Z.land_comm. Qed.

(** Reading a [struct sigaction] and writing it back. An accepted action
    is written back as it was read, except that [SIGKILL] and [SIGSTOP] are taken
    out of the mask of a handler and the unused fields of [SIG_DFL] and [SIG_IGN]
    are zero; reading that again gives the same action. Flags outside the known
    ones are [EINVAL]. *)
Theorem SigAction_roundtrip `{BF : Bitflags} (sa_c : sigaction_t) :
  match SigAction_from_c sa_c with
  | Ok sa =>
      SigAction_from_c (SigAction_to_c sa) = Ok sa /\
      match sa with
      | Dfl => sa_handler sa_c = SIG_DFL
      | Ign => sa_handler sa_c = SIG_IGN
      | User h f r mask =>
          SigAction_to_c sa = mk_sigaction (sa_handler sa_c) (sa_flags sa_c) (sa_restorer sa_c) mask /\
          (forall n, signum_ok n -> sig_in n mask <-> sig_in n (sa_mask sa_c) /\ n <> SIGKILL /\ n <> SIGSTOP)
      end
  | Err e => e = EINVAL /\ Z.ldiff (sa_flags sa_c) SigActionFlags_all <> 0
  | Panic => False
  end.
Proof.
  unfold SigAction_from_c, SigActionFlags_from_u32. rewrite bf_from_bits_law.
  destruct (sa_handler sa_c =? SIG_DFL) eqn:Hd; [boolprop; by split|].
  destruct (sa_handler sa_c =? SIG_IGN) eqn:Hi; [boolprop; by split|].
  destruct (Z.ldiff (sa_flags sa_c) SigActionFlags_all =? 0) eqn:Hf; simpl; [|split; [done|lia]].
  rewrite Hd, Hi. rewrite bf_from_bits_law, Hf. simpl. split_and!.
  - rewrite (SigSet_sub_comm _ SIGSTOP SIGKILL).
    by rewrite !SigSet_sub_idem.
  - done.
  - intros n Hn. rewrite !sig_in_sub by (done || signum_const). tauto.
Qed.

(** [sigaction] on a table of 64 actions: the actions of [SIGKILL] and
    [SIGSTOP] cannot be changed ([EINVAL]); otherwise the old action is returned,
    the new one is what a later lookup finds, and no other signal is affected. A
    spawned process keeps ignored signals ignored and gets the default action for
    every handler. No access is out of range. *)
Theorem do_rt_sigaction_spec (d : SigDispositions) (n : SigNum) (new_sa : option SigAction) :
  length d = COUNT_ALL_SIGS -> signum_ok n ->
  match do_rt_sigaction d n new_sa with
  | Ok (old, d') =>
      SigDispositions_get d n = Ok old /\ length d' = COUNT_ALL_SIGS /\
      (new_sa <> None -> n <> SIGKILL /\ n <> SIGSTOP) /\
      (forall m, signum_ok m ->
         SigDispositions_get d' m =
           (if m =? n then match new_sa with Some sa => Ok sa | None => Ok old end
            else SigDispositions_get d m) /\
         SigDispositions_get (SigDispositions_inherit d') m =
           (sa ← SigDispositions_get d' m; Ok (match sa with Ign => Ign | _ => Dfl end)))
  | Err e => e = EINVAL /\ new_sa <> None /\ (n = SIGKILL \/ n = SIGSTOP)
  | Panic => False
  end.
Proof.
  intros Hlen Hn.
  assert (Hidx : forall m, signum_ok m -> num_to_idx m = m - 1).
  { unfold signum_ok, num_to_idx. intros. apply Z.mod_small. lia. }
  assert (Hget : forall (d' : list SigAction) m, length d' = COUNT_ALL_SIGS -> signum_ok m ->
    exists sa, d' !! Z.to_nat (num_to_idx m) = Some sa).
  { intros d' m Hd Hm. apply lookup_lt_is_Some_2. rewrite Hidx, Hd by done.
    unfold signum_ok in *. lia. }
  assert (Hinh : forall (d' : list SigAction) m, SigDispositions_get (SigDispositions_inherit d') m =
    (sa ← SigDispositions_get d' m; Ok (match sa with Ign => Ign | _ => Dfl end))).
  { intros d' m. unfold SigDispositions_get, SigDispositions_inherit. rewrite list_lookup_fmap.
    by destruct (d' !! _) as [[]|]. }
  unfold do_rt_sigaction, SigDispositions_set. destruct (Hget d n Hlen Hn) as [old Hold].
  assert (Hgo : SigDispositions_get d n = Ok old) by (unfold SigDispositions_get; by rewrite Hold).
  pose proof (lookup_lt_Some _ _ _ Hold) as Hlt.
  destruct new_sa as [sa|]; simpl.
  - rewrite andb_true_r.
    destruct ((n =? SIGKILL) || (n =? SIGSTOP)) eqn:Hk; boolprop; [split_and!; [done|done|lia]|].
    rewrite Hgo. simpl. destruct (Nat.ltb_spec (Z.to_nat (num_to_idx n)) (length d)); [|lia]. simpl.
    split_and!; [done|by rewrite length_insert|intros _; lia|].
    intros m Hm. split; [|apply Hinh]. unfold SigDispositions_get.
    destruct (Z.eqb_spec m n) as [->|Hne]; [by rewrite list_lookup_insert_eq|].
    rewrite list_lookup_insert_ne; [done|]. rewrite !Hidx by done.
    unfold signum_ok in *. lia.
  - rewrite andb_false_r, Hgo. simpl.
    split_and!; [done|done|done|]. intros m Hm. split; [|apply Hinh].
    destruct (Z.eqb_spec m n) as [->|]; done.
Qed.

Lemma do_rt_sigaction_spec_witness :
  exists d', do_rt_sigaction SigDispositions_new SIGINT (Some Ign) = Ok (Dfl, d') /\
    SigDispositions_get d' SIGINT = Ok Ign.
Proof.
  eexists. split; [reflexivity|].
  refine (proj1 (proj2 (proj2 (proj2 (do_rt_sigaction_spec SigDispositions_new SIGINT (Some Ign)
    eq_refl _))) SIGINT _)); unfold signum_ok; lia.
Defined.

(** [sigaltstack]: a thread on its alternate stack cannot replace it
    ([EPERM]), a stack below the minimum is [ENOMEM], [SS_DISABLE] removes the
    stack, and otherwise the new stack is installed; the old stack is reported
    with whether the thread is on it, as disabled if there was none. *)
Theorem do_sigaltstack_spec (cur new_ss : option SigStack) (rsp : Z) :
  let on_stack := match cur with Some ss => SigStack_contains ss rsp | None => false end in
  match do_sigaltstack cur new_ss rsp with
  | Ok (old, cur') =>
      (new_ss <> None -> on_stack = false) /\
      match cur with
      | Some ss => ss_sp old = ss_sp ss /\ ss_size old = ss_size ss /\
                   ss_flags old = if on_stack then SS_ONSTACK else SS_EMPTY
      | None => old = SigStack_default
      end /\
      cur' = match new_ss with
             | None => cur
             | Some ss => if bool_decide (ss_flags ss = SS_DISABLE) then None else Some ss
             end /\
      (forall ss, cur' = Some ss -> new_ss = Some ss -> MINSIGSTKSZ <= ss_size ss)
  | Err EPERM => new_ss <> None /\ on_stack = true
  | Err ENOMEM => on_stack = false /\ exists ss, new_ss = Some ss /\ ss_size ss < MINSIGSTKSZ
  | _ => False
  end.
Proof.
  intros on_stack. unfold do_sigaltstack.
  destruct cur as [ss|], new_ss as [ns|]; simpl in *; subst on_stack.
  - destruct (SigStack_contains ss rsp) eqn:Hc; [done|].
    simpl. case_bool_decide; simpl; [split_and!; try done; congruence|].
    destruct (Z.ltb_spec (ss_size ns) MINSIGSTKSZ); [eauto|]. simpl.
    split_and!; try done. congruence.
  - by destruct (SigStack_contains ss rsp).
  - case_bool_decide; simpl; [split_and!; try done; congruence|].
    destruct (Z.ltb_spec (ss_size ns) MINSIGSTKSZ); [eauto|]. simpl. split_and!; try done. congruence.
  - done.
Qed.

Lemma SigAction_roundtrip_witness :
  SigAction_from_c (BF := bitflags_bits) (mk_sigaction 4096 SA_SIGINFO 8192 (not64 0))
    = Ok (User 4096 SA_SIGINFO 8192 (SigSet_sub (SigSet_sub (not64 0) SIGKILL) SIGSTOP)) /\
  SigAction_from_c (BF := bitflags_bits)
    (SigAction_to_c (User 4096 SA_SIGINFO 8192 (SigSet_sub (SigSet_sub (not64 0) SIGKILL) SIGSTOP)))
    = Ok (User 4096 SA_SIGINFO 8192 (SigSet_sub (SigSet_sub (not64 0) SIGKILL) SIGSTOP)).
Proof.
  split; [reflexivity|].
  exact (proj1 (SigAction_roundtrip (BF := bitflags_bits) (mk_sigaction 4096 SA_SIGINFO 8192 (not64 0)))).
Defined.
