(* ===== verification/TermStatus.v ===== *)
(** [process/term_status.rs]: how a process or thread ended, and the order to end
    that only the first caller gives. *)

From S2P Require Import Prelude Errno SigSet.

Inductive TermStatus :=
| Exited (status : Z)
| Killed (signum : SigNum).

Record ForcedExitStatus := mkForcedExitStatus { fe_exited : bool; fe_status : option TermStatus }.

Definition ForcedExitStatus_new : ForcedExitStatus := mkForcedExitStatus false None.

Definition force_exit (self : ForcedExitStatus) (status : TermStatus) : ForcedExitStatus :=
  mkForcedExitStatus true (match fe_status self with Some s => Some s | None => Some status end).

Definition TermStatus_as_u32 (self : TermStatus) : Z :=
  match self with
  | Exited status => Z.shiftl status 8
  | Killed signum => signum
  end.
