(* ===== verification/SigQueues.v ===== *)
(** Pending signals: [src/libos/src/signal/sig_queues.rs], and the operations on
    the queues of a thread and its process in [do_sigpending.rs] and
    [do_sigtimedwait.rs].

    The theorems read the two vectors as one queue per signal number and show
    which signal is delivered next, that real-time signals are delivered in the
    order they were sent, and that nothing is lost or delivered twice. *)

From stdpp Require Import base list list_numbers.
From S2P Require Import Prelude Errno External SigSet.

(** * The queues *)

(** [Box<dyn Signal>]: its number and what [to_info] returns. *)
Record Signal := mkSignal { sig_num : SigNum; sig_info : Z }.

Record SigQueues := mkSigQueues {
  sq_count : Z;
  sq_std : list (option Signal);
  sq_rt : list (list Signal);
}.

Definition ORDERED_STD_SIGS : list SigNum :=
  [SIGKILL; SIGTERM; SIGSTOP; SIGCONT; SIGSEGV; SIGILL; SIGHUP; SIGINT; SIGQUIT; SIGTRAP;
   SIGABRT; SIGBUS; SIGFPE; SIGUSR1; SIGUSR2; SIGPIPE; SIGALRM; SIGSTKFLT; SIGCHLD; SIGTSTP;
   SIGTTIN; SIGTTOU; SIGURG; SIGXCPU; SIGXFSZ; SIGVTALRM; SIGPROF; SIGWINCH; SIGIO; SIGPWR;
   SIGSYS].

Definition SigQueues_new : SigQueues :=
  mkSigQueues 0 (replicate COUNT_STD_SIGS None) (replicate COUNT_RT_SIGS []).

Abbreviation SigQueues_empty self := (sq_count self =? 0).

Definition std_idx (signum : SigNum) : nat := Z.to_nat ((signum - MIN_STD_SIG_NUM) mod 256).
Definition rt_idx (signum : SigNum) : nat := Z.to_nat ((signum - MIN_RT_SIG_NUM) mod 256).

Definition get_std_queue (self : SigQueues) (signum : SigNum) : Result (option Signal) :=
  unwrap_option (sq_std self !! std_idx signum).

Definition get_rt_queue (self : SigQueues) (signum : SigNum) : Result (list Signal) :=
  unwrap_option (sq_rt self !! rt_idx signum).

(** The new queues, and the numbers broadcast to the observers. *)
Definition SigQueues_enqueue (self : SigQueues) (signal : Signal) : Result (SigQueues * list SigNum) :=
  let signum := sig_num signal in
  if SigNum_is_std signum then
    queue ← get_std_queue self signum;
    match queue with
    | Some _ => Ok (self, [])
    | None =>
        Ok (mkSigQueues (sq_count self +64 1) (<[std_idx signum := Some signal]> (sq_std self))
                        (sq_rt self), [signum])
    end
  else
    queue ← get_rt_queue self signum;
    Ok (mkSigQueues (sq_count self +64 1) (sq_std self)
                    (<[rt_idx signum := queue ++ [signal]]> (sq_rt self)), [signum]).

(** The loop over [ORDERED_STD_SIGS]. *)
Fixpoint dequeue_std (self : SigQueues) (blocked : SigSet) (order : list SigNum)
    : Result (option (Signal * SigQueues)) :=
  match order with
  | [] => Ok None
  | signum :: order =>
      if SigSet_contains blocked signum then dequeue_std self blocked order
      else
        queue ← get_std_queue self signum;
        match queue with
        | Some signal =>
            Ok (Some (signal, mkSigQueues (sq_count self -64 1)
                                (<[std_idx signum := None]> (sq_std self)) (sq_rt self)))
        | None => dequeue_std self blocked order
        end
  end.

(** The loop over [MIN_RT_SIG_NUM..=MAX_RT_SIG_NUM]. *)
Fixpoint dequeue_rt (self : SigQueues) (blocked : SigSet) (order : list SigNum)
    : Result (option (Signal * SigQueues)) :=
  match order with
  | [] => Ok None
  | signum :: order =>
      if SigSet_contains blocked signum then dequeue_rt self blocked order
      else
        queue ← get_rt_queue self signum;
        match queue with
        | signal :: queue =>
            Ok (Some (signal, mkSigQueues (sq_count self -64 1) (sq_std self)
                                (<[rt_idx signum := queue]> (sq_rt self))))
        | [] => dequeue_rt self blocked order
        end
  end.

Definition RT_SIGS : list SigNum := seqZ MIN_RT_SIG_NUM (Z.of_nat COUNT_RT_SIGS).

(** The signal, if any, and the new queues. *)
Definition SigQueues_dequeue (self : SigQueues) (blocked : SigSet)
    : Result (option Signal * SigQueues) :=
  if SigQueues_empty self then Ok (None, self)
  else
    r ← dequeue_std self blocked ORDERED_STD_SIGS;
    match r with
    | Some (signal, self) => Ok (Some signal, self)
    | None =>
        r ← dequeue_rt self blocked RT_SIGS;
        match r with
        | Some (signal, self) => Ok (Some signal, self)
        | None => Ok (None, self)
        end
    end.

(** The two loops of [pending]. *)
Fixpoint pending_loop (get : SigNum -> Result bool) (nums : list SigNum) (acc : SigSet) : Result SigSet :=
  match nums with
  | [] => Ok acc
  | signum :: nums =>
      p ← get signum;
      pending_loop get nums (if p : bool then SigSet_add acc signum else acc)
  end.

Definition SigQueues_pending (self : SigQueues) : Result SigSet :=
  pending_sigs ← pending_loop
    (fun signum => queue ← get_std_queue self signum; Ok (bool_decide (is_Some queue)))
    (seqZ MIN_STD_SIG_NUM (Z.of_nat COUNT_STD_SIGS)) SigSet_new_empty;
  pending_loop
    (fun signum => queue ← get_rt_queue self signum; Ok (negb (bool_decide (queue = []))))
    RT_SIGS pending_sigs.

(** * A thread and its process *)

(** [do_sigpending]: [blocked] is the mask of the thread. *)
Definition do_sigpending (thread process : SigQueues) (blocked : SigSet) : Result SigSet :=
  t ← SigQueues_pending thread;
  p ← SigQueues_pending process;
  Ok (SigSet_bitand (SigSet_bitor t p) blocked).

Definition has_interest_signal (interest : SigSet) (thread process : SigQueues) : Result bool :=
  p ← SigQueues_pending process;
  t ← SigQueues_pending thread;
  Ok (negb (SigSet_empty (SigSet_bitand (SigSet_bitor p t) interest))).

(** The process queue first, then the thread queue. *)
Definition dequeue_pending_signal (interest : SigSet) (thread process : SigQueues)
    : Result (option Signal * SigQueues * SigQueues) :=
  let blocked := SigSet_not interest in
  '(signal, process) ← SigQueues_dequeue process blocked;
  match signal with
  | Some signal => Ok (Some signal, thread, process)
  | None =>
      '(signal, thread) ← SigQueues_dequeue thread blocked;
      Ok (signal, thread, process)
  end.

(** * One queue per signal *)

Definition olist {A} (o : option A) : list A := match o with Some x => [x] | None => [] end.

Definition queue_of (q : SigQueues) (n : SigNum) : list Signal :=
  if n <=? MAX_STD_SIG_NUM then olist (mjoin (sq_std q !! std_idx n))
  else default [] (sq_rt q !! rt_idx n).

Definition total (q : SigQueues) : nat :=
  (length (omap id (sq_std q)) + sum_list_with length (sq_rt q))%nat.

Record sq_ok (q : SigQueues) : Prop := {
  sq_std_len : length (sq_std q) = COUNT_STD_SIGS;
  sq_rt_len : length (sq_rt q) = COUNT_RT_SIGS;
  sq_count_ok : sq_count q = Z.of_nat (total q);
  sq_count_u64 : sq_count q < u64_modulus - 1;
  sq_nums n : signum_ok n -> Forall (fun s => sig_num s = n) (queue_of q n);
}.

Ltac sig_lia :=
  unfold signum_ok, COUNT_STD_SIGS, COUNT_RT_SIGS in *; lia.

Lemma std_idx_eq n : 1 <= n <= 31 -> std_idx n = Z.to_nat (n - 1).
Proof. intros. unfold std_idx. rewrite Z.mod_small; lia. Qed.

Lemma rt_idx_eq n : 32 <= n <= 64 -> rt_idx n = Z.to_nat (n - 32).
Proof. intros. unfold rt_idx. rewrite Z.mod_small; lia. Qed.

(** Reading a queue. *)
Lemma get_std_eq q n :
  sq_ok q -> 1 <= n <= 31 ->
  exists o, sq_std q !! std_idx n = Some o /\ get_std_queue q n = Ok o /\ queue_of q n = olist o.
Proof.
  intros Hq Hn. destruct (lookup_lt_is_Some_2 (sq_std q) (std_idx n)) as [o Ho].
  { rewrite std_idx_eq, (sq_std_len _ Hq) by done. sig_lia. }
  exists o. unfold get_std_queue, queue_of. rewrite Ho.
  destruct (Z.leb_spec n MAX_STD_SIG_NUM); [|sig_lia]. done.
Qed.

Lemma get_rt_eq q n :
  sq_ok q -> 32 <= n <= 64 ->
  sq_rt q !! rt_idx n = Some (queue_of q n) /\ get_rt_queue q n = Ok (queue_of q n).
Proof.
  intros Hq Hn. destruct (lookup_lt_is_Some_2 (sq_rt q) (rt_idx n)) as [l Hl].
  { rewrite rt_idx_eq, (sq_rt_len _ Hq) by done. sig_lia. }
  unfold get_rt_queue, queue_of. destruct (Z.leb_spec n MAX_STD_SIG_NUM); [sig_lia|]. by rewrite Hl.
Qed.

(** Writing a queue. *)
Lemma queue_of_set_std q n o c m :
  sq_ok q -> 1 <= n <= 31 -> signum_ok m ->
  queue_of (mkSigQueues c (<[std_idx n := o]> (sq_std q)) (sq_rt q)) m =
  if decide (m = n) then olist o else queue_of q m.
Proof.
  intros Hq Hn Hm. unfold queue_of. simpl. destruct (decide (m = n)) as [->|Hne].
  - destruct (Z.leb_spec n MAX_STD_SIG_NUM); [|sig_lia].
    rewrite list_lookup_insert_eq; [done|]. rewrite std_idx_eq, (sq_std_len _ Hq) by done. sig_lia.
  - destruct (Z.leb_spec m MAX_STD_SIG_NUM); [|done].
    rewrite list_lookup_insert_ne; [done|]. rewrite !std_idx_eq by sig_lia. sig_lia.
Qed.

Lemma queue_of_set_rt q n l c m :
  sq_ok q -> 32 <= n <= 64 -> signum_ok m ->
  queue_of (mkSigQueues c (sq_std q) (<[rt_idx n := l]> (sq_rt q))) m =
  if decide (m = n) then l else queue_of q m.
Proof.
  intros Hq Hn Hm. unfold queue_of. simpl. destruct (decide (m = n)) as [->|Hne].
  - destruct (Z.leb_spec n MAX_STD_SIG_NUM); [sig_lia|].
    rewrite list_lookup_insert_eq; [done|]. rewrite rt_idx_eq, (sq_rt_len _ Hq) by done. sig_lia.
  - destruct (Z.leb_spec m MAX_STD_SIG_NUM); [done|].
    rewrite list_lookup_insert_ne; [done|]. rewrite !rt_idx_eq by sig_lia. sig_lia.
Qed.

Lemma total_set_std q n o o' c :
  sq_std q !! std_idx n = Some o ->
  (total (mkSigQueues c (<[std_idx n := o']> (sq_std q)) (sq_rt q)) + length (olist o)
   = total q + length (olist o'))%nat.
Proof.
  intros Ho. unfold total. simpl.
  destruct (list_lookup_split _ _ _ Ho) as (l1 & l2 & -> & <-).
  rewrite list_insert_middle, !omap_app, !length_app. simpl. destruct o, o'; simpl; lia.
Qed.

Lemma total_set_rt q n l l' c :
  sq_rt q !! rt_idx n = Some l ->
  (total (mkSigQueues c (sq_std q) (<[rt_idx n := l']> (sq_rt q))) + length l
   = total q + length l')%nat.
Proof.
  intros Hl. unfold total. simpl.
  destruct (list_lookup_split _ _ _ Hl) as (l1 & l2 & -> & <-).
  rewrite list_insert_middle, !sum_list_with_app. simpl. lia.
Qed.

(** [s] leaves the front of queue [n]. *)
Definition pops (q : SigQueues) (n : SigNum) (s : Signal) (q' : SigQueues) : Prop :=
  sq_ok q' /\ sq_count q' = sq_count q - 1 /\ queue_of q n = s :: queue_of q' n /\
  forall m, signum_ok m -> m <> n -> queue_of q' m = queue_of q m.

Lemma pops_std q n s :
  sq_ok q -> 1 <= n <= 31 -> queue_of q n = [s] -> sq_std q !! std_idx n = Some (Some s) ->
  pops q n s (mkSigQueues (sq_count q -64 1) (<[std_idx n := None]> (sq_std q)) (sq_rt q)).
Proof.
  intros Hq Hn Hs Ho. pose proof (total_set_std q n (Some s) None (sq_count q -64 1) Ho) as Ht.
  simpl in Ht. destruct Hq as [H1 H2 H3 H4 H5] eqn:Heq.
  rewrite sub64_small in Ht |- * by lia.
  assert (Hset := queue_of_set_std q n None (sq_count q - 1)). clear Heq.
  split_and!.
  - constructor; simpl; [by rewrite length_insert|done|lia|lia|].
    intros m Hm. rewrite Hset by done. case_decide; [constructor|auto].
  - done.
  - rewrite Hset by (done || sig_lia). rewrite decide_True by done. done.
  - intros m Hm Hne. rewrite Hset by done. by rewrite decide_False.
Qed.

Lemma pops_rt q n s l :
  sq_ok q -> 32 <= n <= 64 -> queue_of q n = s :: l ->
  pops q n s (mkSigQueues (sq_count q -64 1) (sq_std q) (<[rt_idx n := l]> (sq_rt q))).
Proof.
  intros Hq Hn Hs. destruct (get_rt_eq q n Hq Hn) as [Hl _]. rewrite Hs in Hl.
  pose proof (total_set_rt q n (s :: l) l (sq_count q -64 1) Hl) as Ht. simpl in Ht.
  assert (Hset := queue_of_set_rt q n l (sq_count q - 1)).
  destruct Hq as [H1 H2 H3 H4 H5] eqn:Heq. clear Heq.
  rewrite sub64_small in Ht |- * by lia.
  split_and!.
  - constructor; simpl; [done|by rewrite length_insert|lia|lia|].
    intros m Hm. rewrite Hset by done. case_decide as Hd; [|auto]. subst m.
    pose proof (H5 n ltac:(sig_lia)) as Hall. rewrite Hs in Hall. by apply Forall_cons_iff in Hall as [_ ?].
  - done.
  - rewrite Hset by (done || sig_lia). by rewrite decide_True.
  - intros m Hm Hne. rewrite Hset by done. by rewrite decide_False.
Qed.

(** ** Dequeueing *)

(** [n] cannot be delivered now. *)
Definition quiet (q : SigQueues) (blocked : SigSet) (n : SigNum) : Prop :=
  sig_in n blocked \/ queue_of q n = [].

(** The first signal of [order] that can be delivered. *)
Definition picks (q : SigQueues) (blocked : SigSet) (order : list SigNum)
    (r : option (Signal * SigQueues)) : Prop :=
  match r with
  | None => Forall (quiet q blocked) order
  | Some (s, q') => exists l1 n l2, order = l1 ++ n :: l2 /\ ~ sig_in n blocked /\
                      Forall (quiet q blocked) l1 /\ pops q n s q'
  end.

Lemma picks_skip q blocked n order r :
  quiet q blocked n -> picks q blocked order r -> picks q blocked (n :: order) r.
Proof.
  intros Hn. destruct r as [[s q']|]; simpl; [|by constructor].
  intros (l1 & m & l2 & -> & ? & ? & ?). exists (n :: l1), m, l2. split_and!; auto.
Qed.

Lemma picks_here q blocked n order s q' :
  ~ sig_in n blocked -> pops q n s q' -> picks q blocked (n :: order) (Some (s, q')).
Proof. intros Hn Hp. exists [], n, order. by split_and!. Qed.

Lemma dequeue_std_spec q blocked order :
  sq_ok q -> Forall (fun n => 1 <= n <= 31) order ->
  exists r, dequeue_std q blocked order = Ok r /\ picks q blocked order r.
Proof.
  intros Hq. induction 1 as [|n order Hn Ho IH]; [exists None; split; [done|constructor]|]. cbn [dequeue_std].
  destruct IH as (r & Hr & Hp).
  destruct (SigSet_contains blocked n) eqn:Hb.
  { exists r. split; [done|]. apply picks_skip; [|done]. left. apply contains_iff; [sig_lia|done]. }
  destruct (get_std_eq q n Hq Hn) as (o & Hlk & -> & Hqo). simpl. destruct o as [s|].
  - eexists. split; [done|]. apply picks_here; [|by apply pops_std].
    rewrite <- contains_iff by sig_lia. congruence.
  - exists r. split; [done|]. apply picks_skip; [by right|done].
Qed.

Lemma dequeue_rt_spec q blocked order :
  sq_ok q -> Forall (fun n => 32 <= n <= 64) order ->
  exists r, dequeue_rt q blocked order = Ok r /\ picks q blocked order r.
Proof.
  intros Hq. induction 1 as [|n order Hn Ho IH]; [exists None; split; [done|constructor]|]. cbn [dequeue_rt].
  destruct IH as (r & Hr & Hp).
  destruct (SigSet_contains blocked n) eqn:Hb.
  { exists r. split; [done|]. apply picks_skip; [|done]. left. apply contains_iff; [sig_lia|done]. }
  destruct (get_rt_eq q n Hq Hn) as (_ & ->). simpl. destruct (queue_of q n) as [|s l] eqn:Hqo.
  - exists r. split; [done|]. apply picks_skip; [by right|done].
  - eexists. split; [done|]. apply picks_here; [|by apply pops_rt].
    rewrite <- contains_iff by sig_lia. congruence.
Qed.

(** The order of delivery: every signal is in it. *)
Definition DELIVERY_ORDER : list SigNum := ORDERED_STD_SIGS ++ RT_SIGS.

Lemma ordered_std_range : Forall (fun n => 1 <= n <= 31) ORDERED_STD_SIGS.
Proof. apply (bool_decide_unpack _). vm_compute. exact I. Qed.

Lemma rt_range : Forall (fun n => 32 <= n <= 64) RT_SIGS.
Proof.
  apply Forall_forall. intros n Hn. apply list_elem_of_In, elem_of_seqZ in Hn. sig_lia.
Qed.

Lemma delivery_complete n : signum_ok n -> n ∈ DELIVERY_ORDER.
Proof.
  intros Hn. unfold DELIVERY_ORDER. rewrite elem_of_app.
  destruct (decide (n <= 31)).
  - left. assert (Hall : forallb (fun m => existsb (Z.eqb m) ORDERED_STD_SIGS) (seqZ 1 31) = true)
      by (vm_compute; reflexivity).
    rewrite forallb_forall in Hall. specialize (Hall n).
    rewrite existsb_exists in Hall. destruct Hall as (m & Hm & Heq).
    { apply list_elem_of_In, elem_of_seqZ. sig_lia. }
    apply Z.eqb_eq in Heq as ->. by apply list_elem_of_In.
  - right. apply elem_of_seqZ. sig_lia.
Qed.

Lemma total_zero q n : sq_ok q -> total q = 0%nat -> signum_ok n -> queue_of q n = [].
Proof.
  intros Hq Ht Hn. unfold total in Ht.
  destruct (decide (n <= 31)).
  - destruct (get_std_eq q n Hq) as (o & Ho & _ & ->); [sig_lia|]. destruct o as [s|]; [|done].
    apply list_lookup_split in Ho as (l1 & l2 & Heq & _). rewrite Heq, omap_app, length_app in Ht.
    simpl in Ht. lia.
  - destruct (get_rt_eq q n Hq) as (Hl & _); [sig_lia|]. destruct (queue_of q n) as [|s l]; [done|].
    apply list_lookup_split in Hl as (l1 & l2 & Heq & _). rewrite Heq, sum_list_with_app in Ht.
    simpl in Ht. lia.
Qed.

Lemma picks_app_l q blocked o1 o2 s q' :
  picks q blocked o1 (Some (s, q')) -> picks q blocked (o1 ++ o2) (Some (s, q')).
Proof.
  intros (l1 & n & l2 & -> & ?). exists l1, n, (l2 ++ o2). by rewrite <- app_assoc.
Qed.

Lemma picks_app_r q blocked o1 o2 r :
  picks q blocked o1 None -> picks q blocked o2 r -> picks q blocked (o1 ++ o2) r.
Proof. intros H1 H2. induction H1; [done|]. simpl. by apply picks_skip. Qed.

Lemma dequeue_picks q blocked :
  sq_ok q ->
  exists r, SigQueues_dequeue q blocked =
      Ok (match r with Some (s, q') => (Some s, q') | None => (None, q) end) /\
    picks q blocked DELIVERY_ORDER r.
Proof.
  intros Hq. unfold SigQueues_dequeue.
  destruct (sq_count q =? 0) eqn:Hc.
  { exists None. split; [done|]. apply Forall_forall. intros n Hn. right.
    apply total_zero; [done| |].
    - pose proof (sq_count_ok q Hq). lia.
    - apply list_elem_of_In in Hn. unfold DELIVERY_ORDER in Hn. apply elem_of_app in Hn as [Hn|Hn].
      + pose proof ordered_std_range as Hr. rewrite Forall_forall in Hr.
        apply list_elem_of_In, Hr in Hn. sig_lia.
      + pose proof rt_range as Hr. rewrite Forall_forall in Hr.
        apply list_elem_of_In, Hr in Hn. sig_lia. }
  destruct (dequeue_std_spec q blocked ORDERED_STD_SIGS Hq ordered_std_range) as (r1 & -> & Hp1). cbn [mbind Result_bind].
  destruct r1 as [[s q']|].
  { exists (Some (s, q')). split; [done|]. by apply picks_app_l. }
  destruct (dequeue_rt_spec q blocked RT_SIGS Hq rt_range) as (r2 & -> & Hp2). cbn [mbind Result_bind].
  exists r2. split; [by destruct r2 as [[]|]|]. by apply picks_app_r.
Qed.

(** ** Enqueueing *)

Lemma enqueue_ok q s :
  sq_ok q -> signum_ok (sig_num s) -> sq_count q < u64_modulus - 2 ->
  exists q' told, SigQueues_enqueue q s = Ok (q', told) /\ sq_ok q' /\
    queue_of q' (sig_num s) =
      (if SigNum_is_std (sig_num s) && negb (bool_decide (queue_of q (sig_num s) = []))
       then queue_of q (sig_num s) else queue_of q (sig_num s) ++ [s]) /\
    (forall m, signum_ok m -> m <> sig_num s -> queue_of q' m = queue_of q m) /\
    told = (if SigNum_is_std (sig_num s) && negb (bool_decide (queue_of q (sig_num s) = []))
            then [] else [sig_num s]).
Proof.
  intros Hq Hn Hc. unfold SigQueues_enqueue. set (n := sig_num s) in *.
  destruct (Z.leb_spec n MAX_STD_SIG_NUM) as [Hstd|Hrt]; simpl.
  - destruct (get_std_eq q n Hq) as (o & Ho & Hg & Hqo); [sig_lia|]. rewrite Hg. simpl.
    rewrite Hqo. destruct o as [s0|]; simpl.
    { do 2 eexists. split; [done|]. split_and!; try done. }
    assert (Hcount : sq_count q +64 1 = sq_count q + 1) by (apply add64_small; destruct Hq; lia).
    rewrite Hcount. do 2 eexists. split; [done|].
    pose proof (total_set_std q n None (Some s) (sq_count q + 1) Ho) as Ht. simpl in Ht.
    assert (Hset := queue_of_set_std q n (Some s) (sq_count q + 1)).
    split_and!; [|rewrite Hset by (done || sig_lia); by rewrite decide_True
                 |intros; rewrite Hset by (done || sig_lia); by rewrite decide_False|done].
    destruct Hq as [H1 H2 H3 H4 H5]. constructor; simpl; [by rewrite length_insert|done|lia|lia|].
    intros m Hm. rewrite Hset by (done || sig_lia). case_decide as Hd; [|auto]. subst m. by constructor.
  - destruct (get_rt_eq q n Hq) as (Hl & Hg); [sig_lia|]. rewrite Hg. simpl.
    assert (Hcount : sq_count q +64 1 = sq_count q + 1) by (apply add64_small; destruct Hq; lia).
    rewrite Hcount. do 2 eexists. split; [done|].
    pose proof (total_set_rt q n _ (queue_of q n ++ [s]) (sq_count q + 1) Hl) as Ht.
    rewrite length_app in Ht. simpl in Ht.
    assert (Hset := queue_of_set_rt q n (queue_of q n ++ [s]) (sq_count q + 1)).
    split_and!; [|rewrite Hset by (done || sig_lia); by rewrite decide_True
                 |intros; rewrite Hset by (done || sig_lia); by rewrite decide_False|done].
    destruct Hq as [H1 H2 H3 H4 H5]. constructor; simpl; [done|by rewrite length_insert|lia|lia|].
    intros m Hm. rewrite Hset by (done || sig_lia). case_decide as Hd; [|auto]. subst m.
    apply Forall_app. split; [auto|by constructor].
Qed.

(** ** Pending signals *)

Lemma pending_loop_spec get (b : SigNum -> bool) nums acc :
  Forall signum_ok nums -> (forall n, n ∈ nums -> get n = Ok (b n)) ->
  exists s, pending_loop get nums acc = Ok s /\
    forall m, signum_ok m -> sig_in m s <-> sig_in m acc \/ (m ∈ nums /\ b m = true).
Proof.
  intros Hn. revert acc. induction Hn as [|n nums Hn Hns IH]; intros acc Hg; simpl.
  { exists acc. split; [done|]. intros m _. split; [tauto|]. intros [?|[? _]]; [done|set_solver]. }
  rewrite Hg by set_solver. cbn [mbind Result_bind].
  destruct (IH (if b n then SigSet_add acc n else acc)) as (s & -> & Hs).
  { intros m Hm. apply Hg. set_solver. }
  exists s. split; [done|]. intros m Hm. rewrite Hs by done. rewrite elem_of_cons.
  destruct (b n) eqn:Hb; [rewrite sig_in_add by done|]; intuition congruence.
Qed.

Lemma pending_ok q :
  sq_ok q -> exists s, SigQueues_pending q = Ok s /\
    forall n, signum_ok n -> sig_in n s <-> queue_of q n <> [].
Proof.
  intros Hq. unfold SigQueues_pending.
  destruct (pending_loop_spec
    (fun signum => queue ← get_std_queue q signum; Ok (bool_decide (is_Some queue)))
    (fun n => negb (bool_decide (queue_of q n = []))) (seqZ MIN_STD_SIG_NUM (Z.of_nat COUNT_STD_SIGS))
    SigSet_new_empty) as (s1 & -> & Hs1).
  { apply Forall_forall. intros n Hn. apply list_elem_of_In, elem_of_seqZ in Hn. sig_lia. }
  { intros n Hn. apply elem_of_seqZ in Hn.
    destruct (get_std_eq q n Hq) as (o & _ & -> & ->); [sig_lia|]. by destruct o. }
  cbn [mbind Result_bind].
  destruct (pending_loop_spec
    (fun signum => queue ← get_rt_queue q signum; Ok (negb (bool_decide (queue = []))))
    (fun n => negb (bool_decide (queue_of q n = []))) RT_SIGS s1) as (s2 & -> & Hs2).
  { eapply Forall_impl; [|exact rt_range]. simpl. intros. sig_lia. }
  { intros n Hn. pose proof rt_range as Hr. rewrite Forall_forall in Hr.
    apply list_elem_of_In, Hr in Hn. by destruct (get_rt_eq q n Hq Hn) as (_ & ->). }
  exists s2. split; [done|]. intros n Hn. rewrite Hs2, Hs1 by done.
  rewrite negb_true_iff, bool_decide_eq_false, elem_of_seqZ. unfold RT_SIGS. rewrite elem_of_seqZ.
  assert (~ sig_in n SigSet_new_empty) by apply sig_in_empty.
  assert ((MIN_STD_SIG_NUM <= n < MIN_STD_SIG_NUM + Z.of_nat COUNT_STD_SIGS)
    \/ (MIN_RT_SIG_NUM <= n < MIN_RT_SIG_NUM + Z.of_nat COUNT_RT_SIGS)) by sig_lia.
  tauto.
Qed.

Lemma pops_total q n s q' : sq_ok q -> pops q n s q' -> (total q' < total q)%nat.
Proof. intros Hq (Hq' & Hc & _). rewrite (sq_count_ok q Hq), (sq_count_ok q' Hq') in Hc. lia. Qed.

(** A dequeued signal carries the number of its queue. *)
Lemma pops_num q n s q' : sq_ok q -> signum_ok n -> pops q n s q' -> sig_num s = n.
Proof.
  intros Hq Hn (_ & _ & Hs & _). pose proof (sq_nums q Hq n Hn) as Hall. rewrite Hs in Hall.
  by apply Forall_cons_iff in Hall as [? _].
Qed.

(** What is queued after a signal left was queued before. *)
Lemma pops_queued q n s q' s' :
  pops q n s q' -> signum_ok (sig_num s') -> s' ∈ queue_of q' (sig_num s') -> s' ∈ queue_of q (sig_num s').
Proof.
  intros (_ & _ & Hs & Ho) Hn Hin. destruct (decide (sig_num s' = n)) as [<-|Hne]; [|by rewrite <- Ho].
  rewrite Hs. by right.
Qed.

Lemma delivery_range n : n ∈ DELIVERY_ORDER -> signum_ok n.
Proof.
  unfold DELIVERY_ORDER. rewrite elem_of_app. intros [Hn|Hn].
  - pose proof ordered_std_range as Hr. rewrite Forall_forall in Hr.
    apply list_elem_of_In, Hr in Hn. sig_lia.
  - pose proof rt_range as Hr. rewrite Forall_forall in Hr. apply list_elem_of_In, Hr in Hn. sig_lia.
Qed.

(** One dequeue from a queue. *)
Lemma dequeue_total q blocked :
  sq_ok q ->
  exists o q', SigQueues_dequeue q blocked = Ok (o, q') /\ sq_ok q' /\
    match o with
    | Some s => signum_ok (sig_num s) /\ ~ sig_in (sig_num s) blocked /\ (total q' < total q)%nat
                /\ pops q (sig_num s) s q'
    | None => q' = q /\ forall n, signum_ok n -> quiet q blocked n
    end.
Proof.
  intros Hq. destruct (dequeue_picks q blocked Hq) as (r & -> & Hp).
  destruct r as [[s q']|].
  - destruct Hp as (l1 & n & l2 & Heq & Hb & _ & Hpop).
    assert (Hn : signum_ok n) by (apply delivery_range; rewrite Heq; set_solver).
    do 2 eexists. split; [done|]. split; [apply Hpop|].
    rewrite (pops_num q n s q') by done. split_and!; [done|done|by eapply pops_total|done].
  - do 2 eexists. split; [done|]. split; [done|]. split; [done|]. intros n Hn.
    simpl in Hp. rewrite Forall_forall in Hp. apply Hp, list_elem_of_In. by apply delivery_complete.
Qed.

(** A pending, unblocked [SIGKILL] is the next signal. *)
Lemma dequeue_sigkill q blocked :
  sq_ok q -> ~ sig_in SIGKILL blocked -> queue_of q SIGKILL <> [] ->
  exists s q', SigQueues_dequeue q blocked = Ok (Some s, q') /\ sig_num s = SIGKILL.
Proof.
  intros Hq Hb Hne. destruct (dequeue_picks q blocked Hq) as (r & -> & Hp). destruct r as [[s q']|].
  - destruct Hp as (l1 & n & l2 & Heq & _ & Hl1 & Hpop). exists s, q'. split; [done|].
    apply (f_equal head) in Heq. destruct l1 as [|x l1]; injection Heq as <-.
    + eapply pops_num; [done|sig_lia|done].
    + apply Forall_cons_iff in Hl1 as [[?|?] _]; done.
  - apply Forall_cons_iff in Hp as [[?|?] _]; done.
Qed.

(** * Theorems *)

Lemma sigset_nonempty s mask :
  is_u64 mask -> SigSet_bitand s mask <> 0 <-> exists n, signum_ok n /\ sig_in n (SigSet_bitand s mask).
Proof.
  intros Hm. split.
  - intros Hne. unfold SigSet_bitand in *. set (x := Z.land s mask) in *.
    assert (Hx : 0 < x) by (assert (0 <= x) by (apply Z.land_nonneg; right; apply Hm); lia).
    pose proof (Z.bit_log2 x Hx) as Hb. exists (Z.log2 x + 1). unfold sig_in.
    replace (Z.log2 x + 1 - 1) with (Z.log2 x) by lia. split; [|done].
    assert (Z.testbit mask (Z.log2 x) = true) as Hmb.
    { unfold x at 1 in Hb. rewrite Z.land_spec, andb_true_iff in Hb. tauto. }
    pose proof (Z.log2_nonneg x). assert (Z.log2 x < 64); [|sig_lia].
    destruct (Z_lt_ge_dec (Z.log2 x) 64) as [|Hge]; [done|].
    rewrite (testbit_u64_high mask) in Hmb; [done|done|lia].
  - intros (n & _ & Hn) H0. rewrite H0 in Hn. by apply sig_in_empty in Hn.
Qed.

(** Sending a signal. A real-time signal goes to the end of its queue. A
    standard signal is recorded only if none of its kind is pending, and the first
    one is kept. No other queue changes, observers are told exactly when
    something was added, the count stays the number of pending signals, and the
    fixed-size vectors are never indexed out of range. *)
Theorem SigQueues_enqueue_spec (q : SigQueues) (s : Signal) :
  sq_ok q -> signum_ok (sig_num s) -> sq_count q < u64_modulus - 2 ->
  let n := sig_num s in
  let dropped := SigNum_is_std n && negb (bool_decide (queue_of q n = [])) in
  exists q' told, SigQueues_enqueue q s = Ok (q', told) /\ sq_ok q' /\
    queue_of q' n = (if dropped then queue_of q n else queue_of q n ++ [s]) /\
    (forall m, signum_ok m -> m <> n -> queue_of q' m = queue_of q m) /\
    told = (if dropped then [] else [n]).
Proof. apply enqueue_ok. Qed.

Lemma new_queue n : queue_of SigQueues_new n = [].
Proof.
  unfold queue_of, SigQueues_new. cbn [sq_std sq_rt]. case_if;
    (destruct (_ !! _) as [o|] eqn:Ho; [|done]); by apply lookup_replicate in Ho as [-> _].
Qed.

Lemma SigQueues_new_ok : sq_ok SigQueues_new.
Proof.
  constructor; try (vm_compute; reflexivity). intros n Hn. rewrite new_queue. constructor.
Qed.

Lemma SigQueues_enqueue_spec_witness :
  exists q told, SigQueues_enqueue SigQueues_new (mkSignal 34 5) = Ok (q, told) /\
    queue_of q 34 = [mkSignal 34 5] /\ told = [34].
Proof.
  destruct (SigQueues_enqueue_spec SigQueues_new (mkSignal 34 5)) as (q & told & H & _ & Hq & _ & Ht).
  - exact SigQueues_new_ok.
  - simpl. sig_lia.
  - vm_compute. reflexivity.
  - exists q, told. split; [exact H|]. split; [exact Hq|exact Ht].
Defined.

(** Dequeueing under a mask. The signal delivered is the oldest of the
    first non-empty, unblocked queue in the order [SIGKILL], [SIGTERM], ..., then
    real-time signals by number; exactly it leaves its queue. Nothing is delivered
    exactly when every pending signal is blocked, and every one of the 64 signals
    has its place in the order. *)
Theorem SigQueues_dequeue_spec (q : SigQueues) (blocked : SigSet) :
  sq_ok q ->
  (forall n, signum_ok n -> n ∈ DELIVERY_ORDER) /\
  exists o q', SigQueues_dequeue q blocked = Ok (o, q') /\ sq_ok q' /\
    match o with
    | None => q' = q /\ forall n, signum_ok n -> sig_in n blocked \/ queue_of q n = []
    | Some s =>
        let n := sig_num s in
        ~ sig_in n blocked /\ queue_of q n = s :: queue_of q' n /\
        (forall m, signum_ok m -> m <> n -> queue_of q' m = queue_of q m) /\
        exists l1 l2, DELIVERY_ORDER = l1 ++ n :: l2 /\
          Forall (fun m => sig_in m blocked \/ queue_of q m = []) l1
    end.
Proof.
  intros Hq. split; [exact delivery_complete|].
  destruct (dequeue_picks q blocked Hq) as (r & -> & Hp). destruct r as [[s q']|].
  - destruct Hp as (l1 & n & l2 & Heq & Hb & Hl1 & Hpop).
    assert (Hn : signum_ok n) by (apply delivery_range; rewrite Heq; set_solver).
    pose proof (pops_num q n s q' Hq Hn Hpop) as Hnum. destruct Hpop as (Hq' & _ & Hs & Ho).
    do 2 eexists. split; [done|]. split; [done|]. simpl. rewrite Hnum. split_and!; auto. eauto.
  - do 2 eexists. split; [done|]. split; [done|]. split; [done|]. intros n Hn.
    simpl in Hp. rewrite Forall_forall in Hp. apply Hp, list_elem_of_In. by apply delivery_complete.
Qed.

Lemma SigQueues_dequeue_spec_witness :
  exists q o q', SigQueues_enqueue SigQueues_new (mkSignal 34 5) = Ok (q, [34]) /\
    SigQueues_dequeue q 0 = Ok (o, q') /\ sq_ok q' /\ o = Some (mkSignal 34 5).
Proof.
  assert (Hnew : exists q, SigQueues_enqueue SigQueues_new (mkSignal 34 5) = Ok (q, [34]) /\ sq_ok q).
  { destruct (enqueue_ok SigQueues_new (mkSignal 34 5)) as (q & told & H & Hok & _ & _ & ->);
      [exact SigQueues_new_ok|simpl; sig_lia|vm_compute; reflexivity|]. exists q. split; [exact H|exact Hok]. }
  destruct Hnew as (q & He & Hok).
  destruct (SigQueues_dequeue_spec q 0 Hok) as (_ & o & q' & Hd & Hok' & _).
  exists q, o, q'. split; [exact He|]. split; [exact Hd|]. split; [exact Hok'|].
  vm_compute in He. injection He as <-. vm_compute in Hd. by injection Hd as <- _.
Defined.

(** The set reported as pending is the set of signals with a non-empty
    queue; [sigpending] reports those blocked by the thread, its own and its
    process's, and the test of [sigsuspend] is whether any of the signals of
    interest is pending in either. *)
Theorem pending_spec (thread process : SigQueues) (mask : SigSet) :
  sq_ok thread -> sq_ok process -> is_u64 mask ->
  let pending n := queue_of thread n <> [] \/ queue_of process n <> [] in
  exists tp pp s b,
    SigQueues_pending thread = Ok tp /\ SigQueues_pending process = Ok pp /\
    do_sigpending thread process mask = Ok s /\ has_interest_signal mask thread process = Ok b /\
    (forall n, signum_ok n ->
       (sig_in n tp <-> queue_of thread n <> []) /\ (sig_in n s <-> pending n /\ sig_in n mask)) /\
    (b = true <-> exists n, signum_ok n /\ sig_in n mask /\ pending n).
Proof.
  intros Ht Hp Hm pending. unfold do_sigpending, has_interest_signal.
  destruct (pending_ok thread Ht) as (tp & -> & Htp). destruct (pending_ok process Hp) as (pp & -> & Hpp).
  do 4 eexists. split_and!; try done.
  - intros n Hn. split; [auto|]. rewrite sig_in_and, sig_in_or, Htp, Hpp by done. done.
  - rewrite negb_true_iff. rewrite Z.eqb_neq, (sigset_nonempty _ _ Hm).
    apply exist_proper. intros n. split; intros (Hn & H); (split; [done|]);
      rewrite !sig_in_and, sig_in_or, Htp, Hpp in * by done; unfold pending in *; tauto.
Qed.

Lemma pending_spec_witness :
  exists tp pp s b,
    SigQueues_pending SigQueues_new = Ok tp /\ SigQueues_pending SigQueues_new = Ok pp /\
    do_sigpending SigQueues_new SigQueues_new 512 = Ok s /\
    has_interest_signal 512 SigQueues_new SigQueues_new = Ok b.
Proof.
  destruct (pending_spec SigQueues_new SigQueues_new 512) as (tp & pp & s & b & H1 & H2 & H3 & H4 & _).
  - exact SigQueues_new_ok.
  - exact SigQueues_new_ok.
  - unfold is_u64, u64_modulus. lia.
  - exists tp, pp, s, b. split; [exact H1|]. split; [exact H2|]. split; [exact H3|exact H4].
Defined.

(** * Histories *)

(** The operations on a queue, and a run of them: the signals dequeued, in order. *)
Inductive SigOp := Send (signal : Signal) | Dequeue (blocked : SigSet).

Fixpoint run (ops : list SigOp) (q : SigQueues) : Result (SigQueues * list Signal) :=
  match ops with
  | [] => Ok (q, [])
  | Send s :: ops => '(q, _) ← SigQueues_enqueue q s; run ops q
  | Dequeue b :: ops =>
      '(o, q) ← SigQueues_dequeue q b;
      '(q, l) ← run ops q;
      Ok (q, olist o ++ l)
  end.

Definition of_num (n : SigNum) (l : list Signal) : list Signal := filter (fun s => sig_num s = n) l.

(** The signals sent, in order. *)
Definition sent (ops : list SigOp) : list Signal :=
  omap (fun op => match op with Send s => Some s | Dequeue _ => None end) ops.

Lemma dequeue_history q blocked :
  sq_ok q ->
  exists o q', SigQueues_dequeue q blocked = Ok (o, q') /\ sq_ok q' /\ sq_count q' <= sq_count q /\
    forall n, signum_ok n -> queue_of q n = of_num n (olist o) ++ queue_of q' n.
Proof.
  intros Hq. destruct (dequeue_picks q blocked Hq) as (r & -> & Hp). destruct r as [[s q']|].
  2:{ do 2 eexists. split; [done|]. split; [done|]. split; [lia|done]. }
  destruct Hp as (l1 & n & l2 & Heq & Hb & Hl1 & Hpop).
  assert (Hn : signum_ok n) by (apply delivery_range; rewrite Heq; set_solver).
  pose proof (pops_num q n s q' Hq Hn Hpop) as Hnum. destruct Hpop as (Hq' & Hc & Hs & Ho).
  do 2 eexists. split; [done|]. split; [done|]. split; [lia|]. intros m Hm. unfold of_num. simpl.
  rewrite filter_cons, filter_nil, Hnum. destruct (decide (n = m)) as [->|Hne]; [done|].
  simpl. symmetry. apply Ho; congruence.
Qed.

Lemma enqueue_count q s q' told :
  SigQueues_enqueue q s = Ok (q', told) -> 0 <= sq_count q < u64_modulus - 2 ->
  sq_count q' <= sq_count q + 1.
Proof.
  unfold SigQueues_enqueue. intros H Hc. destruct (SigNum_is_std (sig_num s)).
  - apply bind_Ok_inv in H as (o & _ & H). destruct o; simplify_eq; [lia|].
    simpl. rewrite add64_small; lia.
  - apply bind_Ok_inv in H as (l & _ & H). simplify_eq. simpl. rewrite add64_small; lia.
Qed.

Lemma enqueue_history q s :
  sq_ok q -> signum_ok (sig_num s) -> sq_count q < u64_modulus - 2 ->
  exists q' told, SigQueues_enqueue q s = Ok (q', told) /\ sq_ok q' /\ sq_count q' <= sq_count q + 1 /\
    forall n, signum_ok n ->
      queue_of q' n `sublist_of` queue_of q n ++ of_num n [s] /\
      (SigNum_is_std n = false -> queue_of q' n = queue_of q n ++ of_num n [s]).
Proof.
  intros Hq Hs Hc. destruct (enqueue_ok q s Hq Hs Hc) as (q' & told & He & Hq' & Hsame & Hother & _).
  exists q', told. split_and!; try done.
  { eapply enqueue_count; [done|]. rewrite (sq_count_ok q Hq) in *. lia. }
  intros n Hn. unfold of_num. rewrite filter_cons, filter_nil.
  destruct (decide (sig_num s = n)) as [<-|Hne].
  - rewrite Hsame. destruct (SigNum_is_std (sig_num s)); simpl; [|done].
    split; [|done]. case_if; [by apply sublist_inserts_r|done].
  - rewrite app_nil_r, Hother by congruence. done.
Qed.

Lemma run_history ops q :
  sq_ok q -> Forall (fun s => signum_ok (sig_num s)) (sent ops) ->
  sq_count q + Z.of_nat (length ops) < u64_modulus - 2 ->
  exists q' out, run ops q = Ok (q', out) /\ sq_ok q' /\
    forall n, signum_ok n ->
      of_num n out ++ queue_of q' n `sublist_of` queue_of q n ++ of_num n (sent ops) /\
      (SigNum_is_std n = false -> of_num n out ++ queue_of q' n = queue_of q n ++ of_num n (sent ops)).
Proof.
  revert q. induction ops as [|[s|b] ops IH]; intros q Hq Hs Hc; cbn [run length] in *.
  - do 2 eexists. split; [done|]. split; [done|]. intros n Hn. simpl. by rewrite app_nil_r.
  - apply Forall_cons_iff in Hs as [Hs Hss].
    destruct (enqueue_history q s Hq Hs) as (q1 & told & -> & Hq1 & Hc1 & He); [lia|]. cbn [mbind Result_bind].
    destruct (IH q1 Hq1 Hss) as (q' & out & -> & Hq' & Hh); [lia|].
    do 2 eexists. split; [done|]. split; [done|]. intros n Hn.
    destruct (He n Hn) as [He1 He2], (Hh n Hn) as [Hh1 Hh2].
    change (sent (Send s :: ops)) with ([s] ++ sent ops). unfold of_num in *. rewrite list.filter_app, app_assoc.
    split; [etrans; [exact Hh1|by apply sublist_app]|]. intros Hrt. by rewrite Hh2, He2.
  - destruct (dequeue_history q b Hq) as (o & q1 & -> & Hq1 & Hc1 & He). cbn [mbind Result_bind].
    destruct (IH q1 Hq1 Hs) as (q' & out & -> & Hq' & Hh); [lia|]. cbn [mbind Result_bind].
    do 2 eexists. split; [done|]. split; [done|]. intros n Hn. rewrite (He n Hn).
    destruct (Hh n Hn) as [Hh1 Hh2]. unfold of_num in *. rewrite list.filter_app, <- !app_assoc.
    split; [by apply sublist_app|]. intros Hrt. by rewrite Hh2.
Qed.

(** C32: Over any sequence of sends and dequeues, the real-time signals of each
    number come out in the order they were sent, none lost and none twice: what
    was sent is what was dequeued, then what is still queued. Of a standard
    signal, a subsequence of what was sent comes out. *)
Theorem signals_fifo (ops : list SigOp) (n : SigNum) :
  Forall (fun s => signum_ok (sig_num s)) (sent ops) -> signum_ok n ->
  Z.of_nat (length ops) < u64_modulus - 2 ->
  exists q out, run ops SigQueues_new = Ok (q, out) /\ sq_ok q /\
    of_num n out ++ queue_of q n `sublist_of` of_num n (sent ops) /\
    (SigNum_is_std n = false -> of_num n out ++ queue_of q n = of_num n (sent ops)).
Proof.
  intros Hs Hn Hlen. destruct (run_history ops SigQueues_new) as (q & out & H & Hq & Hh); auto.
  { exact SigQueues_new_ok. }
  exists q, out. destruct (Hh n Hn) as [Hh1 Hh2]. rewrite new_queue in Hh1, Hh2 by done. done.
Qed.

Lemma signals_fifo_witness :
  exists q out,
    run [Send (mkSignal 40 1); Send (mkSignal 40 2); Dequeue 0; Send (mkSignal 40 3); Dequeue 0] SigQueues_new
      = Ok (q, out) /\
    of_num 40 out ++ queue_of q 40 = [mkSignal 40 1; mkSignal 40 2; mkSignal 40 3].
Proof.
  destruct (signals_fifo
    [Send (mkSignal 40 1); Send (mkSignal 40 2); Dequeue 0; Send (mkSignal 40 3); Dequeue 0] 40)
    as (q & out & H & _ & _ & Hf).
  - repeat constructor; simpl; discriminate.
  - sig_lia.
  - vm_compute. reflexivity.
  - exists q, out. split; [exact H|]. exact (Hf eq_refl).
Defined.
