(* ===== verification/SigDelivery.v ===== *)
(** Signal delivery: [src/libos/src/signal/do_sigreturn.rs], with the CPU context
    and the floating-point areas of [src/libos/src/syscall/mod.rs] and the forced
    exit of [src/libos/src/process/term_status.rs].

    A thread delivers its signals at the end of a system call: it dequeues, acts
    on the disposition, and for a user handler builds a frame on the user stack
    that [rt_sigreturn] later undoes. Kernel buffers are a map from address to
    bytes; a raw pointer outside of it is undefined behaviour, which the model
    makes a panic and the theorems exclude. The user stack is a map from
    address to the object written there. *)

From stdpp Require Import base list list_numbers gmap.
From S2P Require Import Prelude Errno External SigSet SigQueues TermStatus.

(** * CPU context *)

Inductive ExtraContext := Fpregs | XsaveOnStack | XsaveOnHeap.

Record CpuContext := mkCpuContext {
  r8 : Z; r9 : Z; r10 : Z; r11 : Z; r12 : Z; r13 : Z; r14 : Z; r15 : Z;
  rdi : Z; rsi : Z; rbp : Z; rbx : Z; rdx : Z; rax : Z; rcx : Z; rsp : Z; rip : Z; rflags : Z;
  extra_context : ExtraContext;
  extra_context_ptr : Z;
  extra_context_size : Z;
}.

Definition set_extra (c : CpuContext) (e : ExtraContext) (ptr size : Z) : CpuContext :=
  mkCpuContext (r8 c) (r9 c) (r10 c) (r11 c) (r12 c) (r13 c) (r14 c) (r15 c)
    (rdi c) (rsi c) (rbp c) (rbx c) (rdx c) (rax c) (rcx c) (rsp c) (rip c) (rflags c) e ptr size.

Definition set_call (c : CpuContext) (rsp rip rdi rsi rdx : Z) : CpuContext :=
  mkCpuContext (r8 c) (r9 c) (r10 c) (r11 c) (r12 c) (r13 c) (r14 c) (r15 c)
    rdi rsi (rbp c) (rbx c) rdx (rax c) (rcx c) rsp rip (rflags c)
    (extra_context c) (extra_context_ptr c) (extra_context_size c).

(** * Kernel buffers *)

Abbreviation KMem := (gmap Z (list Z)) (only parsing).

(** [slice::from_raw_parts(ptr, size)]. *)
Definition slice_at (k : KMem) (ptr size : Z) : Result (list Z) :=
  match k !! ptr with
  | Some bytes => if size <=? Z.of_nat (length bytes) then Ok (take (Z.to_nat size) bytes) else Panic
  | None => Panic
  end.

(** [slice::from_raw_parts_mut(ptr, size)[..n].copy_from_slice(src)]: the lengths must agree. *)
Definition copy_to_slice (k : KMem) (ptr size n : Z) (src : list Z) : Result KMem :=
  match k !! ptr with
  | Some bytes =>
      if (size <=? Z.of_nat (length bytes)) && (n <=? size) && (n =? Z.of_nat (length src))
      then Ok (<[ptr := src ++ drop (length src) bytes]> k) else Panic
  | None => Panic
  end.

(** The allocator of the enclave heap gives fresh, non-null addresses, or fails. *)
Class KernelHeap := {
  heap_alloc : KMem -> nat -> option Z;
  heap_alloc_fresh k n p : heap_alloc k n = Some p -> k !! p = None /\ 0 < p < u64_modulus;
}.

Definition size_of_FpRegs : Z := 512.
Abbreviation FXSAVE_AREA_LEN := (512 : Z).
Abbreviation XSAVE_ALIGNMENT := (64 : Z).

(** [Layout::from_size_align]: the size rounded up to the alignment fits [isize]. *)
Definition Layout_from_size_align (size align : Z) : Result unit :=
  if is_power_of_two align && (size <=? i64_max - (align - 1)) then Ok tt else Panic.

(** [FpRegs::from_slice]. *)
Definition FpRegs_from_slice (src : list Z) : Result (list Z) :=
  if Z.of_nat (length src) =? size_of_FpRegs then Ok src else Panic.

Section with_heap.
Context {KH : KernelHeap}.

(** [Box::into_raw(Box::new(..))]. *)
Definition box_new (k : KMem) (bytes : list Z) : Result (Z * KMem) :=
  match heap_alloc k (length bytes) with
  | Some p => Ok (p, <[p := bytes]> k)
  | None => Panic
  end.

(** [BoxXsaveArea::new_with_slice]: the pointer of the area. *)
Definition BoxXsaveArea_new_with_slice (k : KMem) (slice : list Z) : Result (Z * KMem) :=
  _ ← Layout_from_size_align (Z.of_nat (length slice)) XSAVE_ALIGNMENT;
  match heap_alloc k (length slice) with
  | Some p => Ok (p, <[p := slice]> k)
  | None => Panic
  end.

(** [BoxXsaveArea::from_raw]: a pointer and a size. *)
Definition BoxXsaveArea_from_raw (raw_ptr size : Z) : Result (Z * Z) :=
  if raw_ptr =? 0 then Panic
  else _ ← Layout_from_size_align size XSAVE_ALIGNMENT; Ok (raw_ptr, size).

Definition BoxXsaveArea_get_fpregs (k : KMem) (area : Z * Z) : Result (list Z) :=
  xsave_slice ← slice_at k area.1 area.2;
  if FXSAVE_AREA_LEN <=? area.2 then FpRegs_from_slice (take (Z.to_nat FXSAVE_AREA_LEN) xsave_slice)
  else Panic.

Definition BoxXsaveArea_set_fpregs_area (k : KMem) (area : Z * Z) (fpregs : list Z) : Result KMem :=
  copy_to_slice k area.1 area.2 FXSAVE_AREA_LEN fpregs.

(** * The user stack *)

Record Stack := mkStack { st_pointer : Z; st_bottom : Z }.

Definition Stack_new (stack_top stack_size : Z) : Result Stack :=
  if stack_top <=? stack_size then Err EINVAL else Ok (mkStack stack_top (stack_top -64 stack_size)).

(** [do_alloc_aligned::<T>], for a type of size [size] and alignment [align_of]:
    the address of the object. *)
Definition do_alloc_aligned (self : Stack) (size align_of align : Z) : Result (Z * Stack) :=
  let align := Z.max align_of align in
  let pointer := st_pointer self in
  if pointer <? size then Err ENOMEM
  else
    let pointer := pointer -64 size in
    let pointer := align_down pointer align in
    if pointer <? st_bottom self then Err ENOMEM
    else Ok (pointer, mkStack pointer (st_bottom self)).

Definition Stack_alloc (self : Stack) (size align_of : Z) : Result (Z * Stack) :=
  do_alloc_aligned self size align_of 1.

Definition Stack_alloc_aligned (self : Stack) (size align_of align : Z) : Result (Z * Stack) :=
  if negb (is_power_of_two align) then Err EINVAL else do_alloc_aligned self size align_of align.

Definition size_of_siginfo_t : Z := 128.
Definition size_of_stack_t : Z := 24.
Definition size_of_CpuContext : Z := 21 * 8.
Definition size_of_mcontext_t : Z := size_of_CpuContext + 2 * 8 + 8 + 8 * 8.
Definition size_of_ucontext_t : Z := 8 + 8 + size_of_stack_t + size_of_mcontext_t + 8 + 64 * 8.
Definition size_of_usize : Z := 8.
Definition align_of_word : Z := 8.

(** [ucontext_t], without the fields that stay zero. *)
Record ucontext_t := mkUcontext {
  uc_mcontext : CpuContext;
  uc_sigmask : Z;
  uc_fpregs : list Z;
}.

Record UserMem := mkUserMem {
  um_info : gmap Z Signal;
  um_ucontext : gmap Z ucontext_t;
  um_usize : gmap Z Z;
}.

(** * Saved contexts *)

Record ExtraCtx := mkExtraCtx { ec_type : ExtraContext; ec_ptr : Z; ec_size : Z }.
Record RestoreContext := mkRestoreContext { rc_ucontext : Z; rc_extra_context : ExtraCtx }.

Record CpuContextStack := mkCpuContextStack {
  cs_stack : list (option RestoreContext);
  cs_count : Z;
}.

Definition CpuContextStack_default : CpuContextStack := mkCpuContextStack (replicate 32 None) 0.

Definition CpuContextStack_full (self : CpuContextStack) : bool :=
  cs_count self =? Z.of_nat (length (cs_stack self)).

Definition CpuContextStack_empty (self : CpuContextStack) : bool := cs_count self =? 0.

Definition CpuContextStack_push (self : CpuContextStack) (c : RestoreContext) : Result CpuContextStack :=
  if CpuContextStack_full self then Err ENOMEM
  else match cs_stack self !! Z.to_nat (cs_count self) with
       | Some _ => Ok (mkCpuContextStack (<[Z.to_nat (cs_count self) := Some c]> (cs_stack self))
                                         (cs_count self +64 1))
       | None => Panic
       end.

Definition CpuContextStack_pop (self : CpuContextStack)
    : Result (option RestoreContext * CpuContextStack) :=
  if CpuContextStack_empty self then Ok (None, self)
  else
    let count := cs_count self -64 1 in
    c ← unwrap_option (cs_stack self !! Z.to_nat count);
    Ok (c, mkCpuContextStack (<[Z.to_nat count := None]> (cs_stack self)) count).

Inductive ThreadStatus := ThInit | ThRunning | ThExited | ThToStop | ThStopped.
#[export] Instance ThreadStatus_eq_dec : EqDecision ThreadStatus.
Proof. solve_decision. Defined.

(** * A thread *)

(** What delivery reads and writes of a thread ([t_]), its process ([p_]), the
    processor's floating-point registers and memory. *)
Record Thread := mkThread {
  t_sig_queues : SigQueues;
  t_sig_mask : SigSet;
  t_sig_tmp_mask : SigSet;
  t_sig_stack : option SigStack;
  t_status : ThreadStatus;
  t_pre_ucontexts : CpuContextStack;
  p_sig_queues : SigQueues;
  p_sig_dispositions : SigDispositions;
  p_forced_exit : ForcedExitStatus;
  cpu_fpregs : list Z;
  kmem : KMem;
  umem : UserMem;
}.

Definition set_queues (t : Thread) (tq pq : SigQueues) : Thread :=
  mkThread tq (t_sig_mask t) (t_sig_tmp_mask t) (t_sig_stack t) (t_status t) (t_pre_ucontexts t)
    pq (p_sig_dispositions t) (p_forced_exit t) (cpu_fpregs t) (kmem t) (umem t).

Definition set_masks (t : Thread) (mask tmp : SigSet) : Thread :=
  mkThread (t_sig_queues t) mask tmp (t_sig_stack t) (t_status t) (t_pre_ucontexts t)
    (p_sig_queues t) (p_sig_dispositions t) (p_forced_exit t) (cpu_fpregs t) (kmem t) (umem t).

Definition set_forced_exit (t : Thread) (s : TermStatus) : Thread :=
  mkThread (t_sig_queues t) (t_sig_mask t) (t_sig_tmp_mask t) (t_sig_stack t) (t_status t)
    (t_pre_ucontexts t) (p_sig_queues t) (p_sig_dispositions t) (force_exit (p_forced_exit t) s)
    (cpu_fpregs t) (kmem t) (umem t).

Definition set_frames (t : Thread) (pre : CpuContextStack) (k : KMem) (u : UserMem) : Thread :=
  mkThread (t_sig_queues t) (t_sig_mask t) (t_sig_tmp_mask t) (t_sig_stack t) (t_status t) pre
    (p_sig_queues t) (p_sig_dispositions t) (p_forced_exit t) (cpu_fpregs t) k u.

Context {BF : Bitflags}.

(** The mask update of [handle_signals_by_user]: the old mask and the new one. *)
Definition handler_mask (sigmask new_sigmask : SigSet) (flags : Z) (signum : SigNum) : SigSet * SigSet :=
  let old_sigmask := sigmask in
  let sigmask := new_sigmask in
  let sigmask := if negb (bf_contains flags SA_NODEFER) then SigSet_add sigmask signum else sigmask in
  (old_sigmask, sigmask).

Abbreviation BIG_ENOUGH_GAP := (1024 : Z).
Abbreviation BIG_ENOUGH_SIZE := (4096 : Z).

(** [get_stack_top]. *)
Definition get_stack_top (t : Thread) (flags : Z) (ctxt : CpuContext) : Z :=
  let default := rsp ctxt -64 BIG_ENOUGH_GAP in
  if bf_contains flags SA_ONSTACK then
    match t_sig_stack t with
    | Some stack =>
        if negb (SigStack_contains stack (rsp ctxt)) then ss_sp stack +64 ss_size stack else default
    | None => default
    end
  else default.

(** The floating-point part of step 2: the extra context to restore, the
    registers shown to the handler, and the kernel buffers. *)
Definition save_extra_context (k : KMem) (fpu : list Z) (ctxt : CpuContext)
    : Result (ExtraCtx * list Z * KMem) :=
  if extra_context_ptr ctxt =? 0 then
    match extra_context ctxt with
    | Fpregs =>
        '(fpregs_raw_ptr, k) ← box_new k fpu;
        Ok (mkExtraCtx Fpregs fpregs_raw_ptr size_of_FpRegs, fpu, k)
    | XsaveOnStack | XsaveOnHeap => Panic
    end
  else
    match extra_context ctxt with
    | Fpregs =>
        fpregs ← slice_at k (extra_context_ptr ctxt) size_of_FpRegs;
        Ok (mkExtraCtx Fpregs (extra_context_ptr ctxt) size_of_FpRegs, fpregs, k)
    | XsaveOnStack =>
        let xsave_size := extra_context_size ctxt in
        slice ← slice_at k (extra_context_ptr ctxt) xsave_size;
        '(xsave_area, k) ← BoxXsaveArea_new_with_slice k slice;
        fpregs_area ← BoxXsaveArea_get_fpregs k (xsave_area, xsave_size);
        Ok (mkExtraCtx XsaveOnHeap xsave_area xsave_size, fpregs_area, k)
    | XsaveOnHeap =>
        xsave_area ← BoxXsaveArea_from_raw (extra_context_ptr ctxt) (extra_context_size ctxt);
        fpregs_area ← BoxXsaveArea_get_fpregs k xsave_area;
        Ok (mkExtraCtx XsaveOnHeap xsave_area.1 (extra_context_size ctxt), fpregs_area, k)
    end.

Definition handle_signals_by_user (signal : Signal) (t : Thread) (handler_addr flags restorer_addr : Z)
    (new_sigmask : SigSet) (ctxt : CpuContext) : Result (Thread * CpuContext) :=
  let (old_sigmask, sigmask) := handler_mask (t_sig_mask t) new_sigmask flags (sig_num signal) in
  let t := set_masks t sigmask (t_sig_tmp_mask t) in
  user_stack ← Stack_new (get_stack_top t flags ctxt) BIG_ENOUGH_SIZE;
  '(info, user_stack) ← Stack_alloc user_stack size_of_siginfo_t align_of_word;
  '(ucontext, user_stack) ← Stack_alloc_aligned user_stack size_of_ucontext_t align_of_word 16;
  '(extra_ctx, fpregs, k) ← save_extra_context (kmem t) (cpu_fpregs t) ctxt;
  let uc := mkUcontext (set_extra ctxt (extra_context ctxt) 0 0) (SigSet_to_c old_sigmask) fpregs in
  let ctxt := set_extra ctxt (extra_context ctxt) 0 0 in
  '(handler_stack_top, _) ← Stack_alloc user_stack size_of_usize align_of_word;
  let u := mkUserMem (<[info := signal]> (um_info (umem t))) (<[ucontext := uc]> (um_ucontext (umem t)))
                     (<[handler_stack_top := restorer_addr]> (um_usize (umem t))) in
  let ctxt := set_call ctxt handler_stack_top handler_addr (sig_num signal) info ucontext in
  match CpuContextStack_push (t_pre_ucontexts t) (mkRestoreContext ucontext extra_ctx) with
  | Ok pre => Ok (set_frames t pre k u, ctxt)
  | Err _ | Panic => Panic
  end.

(** [handle_signal]; the boolean is [continue_handling]. *)
Definition handle_signal (signal : Signal) (t : Thread) (ctxt : CpuContext)
    : Result (bool * Thread * CpuContext) :=
  if CpuContextStack_full (t_pre_ucontexts t) then Panic
  else
    action ← SigDispositions_get (p_sig_dispositions t) (sig_num signal);
    match action with
    | Ign => Ok (true, t, ctxt)
    | Dfl =>
        match SigDefaultAction_from_signum (sig_num signal) with
        | ActIgn | ActStop | ActCont => Ok (true, t, ctxt)
        | ActTerm | ActCore => Ok (false, set_forced_exit t (Killed (sig_num signal)), ctxt)
        end
    | User handler_addr flags restorer_addr mask =>
        match handle_signals_by_user signal t handler_addr flags restorer_addr mask ctxt with
        | Ok (t, ctxt) => Ok (false, t, ctxt)
        | Err _ | Panic => Panic
        end
    end.

(** One dequeue of [do_deliver_signal]: the process queue, then the thread queue. *)
Definition deliver_dequeue (t : Thread) : Result (option Signal * Thread) :=
  let sig_mask := SigSet_bitor (t_sig_mask t) (t_sig_tmp_mask t) in
  '(signal_opt, process) ← SigQueues_dequeue (p_sig_queues t) sig_mask;
  let t := set_queues t (t_sig_queues t) process in
  match signal_opt with
  | Some signal => Ok (Some signal, t)
  | None =>
      '(signal_opt, thread) ← SigQueues_dequeue (t_sig_queues t) sig_mask;
      Ok (signal_opt, set_queues t thread process)
  end.

(** The loop of [do_deliver_signal]; [None] when the fuel is used up. *)
Fixpoint do_deliver_signal (fuel : nat) (t : Thread) (ctxt : CpuContext)
    : option (Result (Thread * CpuContext)) :=
  match fuel with
  | O => None
  | S fuel =>
      if SigQueues_empty (p_sig_queues t) && SigQueues_empty (t_sig_queues t)
      then Some (Ok (t, ctxt))
      else match deliver_dequeue t with
      | Ok (None, t) => Some (Ok (t, ctxt))
      | Ok (Some signal, t) =>
          match handle_signal signal t ctxt with
          | Ok (continue_handling, t, ctxt) =>
              if negb continue_handling then Some (Ok (t, ctxt)) else do_deliver_signal fuel t ctxt
          | Err e => Some (Err e)
          | Panic => Some Panic
          end
      | Err e => Some (Err e)
      | Panic => Some Panic
      end
  end.

Definition deliver_signal (fuel : nat) (t : Thread) (ctxt : CpuContext)
    : option (Result (Thread * CpuContext)) :=
  let clear t := set_masks t (t_sig_mask t) SigSet_new_empty in
  if negb (fe_exited (p_forced_exit t)) && negb (bool_decide (t_status t = ThToStop))
     && negb (bool_decide (t_status t = ThStopped))
  then match do_deliver_signal fuel t ctxt with
       | Some (Ok (t, ctxt)) => Some (Ok (clear t, ctxt))
       | r => r
       end
  else Some (Ok (clear t, ctxt)).

Definition force_signal (signal : Signal) (t : Thread) (ctxt : CpuContext)
    : Result (Thread * CpuContext) :=
  '(_, t, ctxt) ← handle_signal signal t ctxt;
  Ok (set_masks t (t_sig_mask t) SigSet_new_full, ctxt).

(** [do_rt_sigreturn]; the error of the system call is a value, since the
    process has changed by then. *)
Definition do_rt_sigreturn (t : Thread) (ctxt : CpuContext)
    : Result (option Errno * Thread * CpuContext) :=
  '(last_context, pre) ← CpuContextStack_pop (t_pre_ucontexts t);
  let t := set_frames t pre (kmem t) (umem t) in
  match last_context with
  | None => Ok (Some EINVAL, set_forced_exit t (Killed SIGKILL), ctxt)
  | Some last_context =>
      last_ucontext ← unwrap_option (um_ucontext (umem t) !! rc_ucontext last_context);
      let extra := rc_extra_context last_context in
      let t := set_masks t (SigSet_from_c (uc_sigmask last_ucontext)) (t_sig_tmp_mask t) in
      let ctxt := set_extra (uc_mcontext last_ucontext) (ec_type extra) (ec_ptr extra) (ec_size extra) in
      k ← match extra_context ctxt with
          | Fpregs =>
              copy_to_slice (kmem t) (extra_context_ptr ctxt) (extra_context_size ctxt)
                (extra_context_size ctxt) (uc_fpregs last_ucontext)
          | XsaveOnHeap =>
              latest_fpregs ← FpRegs_from_slice (uc_fpregs last_ucontext);
              xsave_area ← BoxXsaveArea_from_raw (extra_context_ptr ctxt) (extra_context_size ctxt);
              BoxXsaveArea_set_fpregs_area (kmem t) xsave_area latest_fpregs
          | XsaveOnStack => Panic
          end;
      Ok (None, set_frames t pre k (umem t), ctxt)
  end.

(** * Frames on the user stack *)

Lemma alloc_ok p b size align k :
  is_u64 p -> 0 <= b -> 0 <= k < 64 -> Z.max 8 align = 2 ^ k -> 0 <= size -> b + size + 2 ^ k <= p ->
  exists q, do_alloc_aligned (mkStack p b) size 8 align = Ok (q, mkStack q b) /\
    q mod 2 ^ k = 0 /\ p - size - 2 ^ k < q <= p - size.
Proof.
  intros Hp Hb Hk Hmax Hsz Hfit. unfold do_alloc_aligned. cbn [st_pointer st_bottom]. rewrite Hmax.
  assert (0 < 2 ^ k) by (apply Z.pow_pos_nonneg; lia).
  rewrite (proj2 (Z.ltb_ge p size)), sub64_small by (unfold is_u64 in Hp; lia).
  destruct (align_down_spec (p - size) k) as (Hm & Hle & Hgt); [unfold is_u64 in *; lia|done|].
  exists (align_down (p - size) (2 ^ k)). rewrite (proj2 (Z.ltb_ge _ b)) by lia.
  split; [done|]. split; [exact Hm|]. lia.
Qed.

Definition frame_fits (top : Z) : Prop := BIG_ENOUGH_SIZE < top < u64_modulus.

(** The three objects of a frame, from the top of the stack down: the signal's
    information, the saved context, the return address. *)
Definition frame_at (top info ucontext ret : Z) : Prop :=
  info + size_of_siginfo_t <= top /\ ucontext + size_of_ucontext_t <= info /\
  ret + size_of_usize = ucontext /\ top - BIG_ENOUGH_SIZE <= ret /\
  info mod 8 = 0 /\ ucontext mod 16 = 0.

Lemma frame_layout top :
  frame_fits top ->
  exists s1 s2 s3 s4 info uc ret,
    Stack_new top BIG_ENOUGH_SIZE = Ok s1 /\
    Stack_alloc s1 size_of_siginfo_t align_of_word = Ok (info, s2) /\
    Stack_alloc_aligned s2 size_of_ucontext_t align_of_word 16 = Ok (uc, s3) /\
    Stack_alloc s3 size_of_usize align_of_word = Ok (ret, s4) /\
    frame_at top info uc ret.
Proof.
  unfold frame_fits. intros Hf. unfold Stack_new, Stack_alloc, Stack_alloc_aligned.
  rewrite (proj2 (Z.leb_gt _ _)), sub64_small by lia.
  destruct (alloc_ok top (top - 4096) 128 1 3) as (info & H1 & Hi & Hir); try (unfold is_u64; simpl; lia).
  change (2 ^ 3) with 8 in *.
  destruct (alloc_ok info (top - 4096) 816 16 4) as (uc & H2 & Hu & Hur); try (unfold is_u64; simpl; lia).
  change (2 ^ 4) with 16 in *.
  destruct (alloc_ok uc (top - 4096) 8 1 3) as (ret & H3 & Hr & Hrr); try (unfold is_u64; simpl; lia).
  change (2 ^ 3) with 8 in *.
  do 7 eexists. split; [done|]. split; [exact H1|]. split; [exact H2|]. split; [exact H3|].
  unfold frame_at, size_of_usize.
  change size_of_siginfo_t with 128. change size_of_ucontext_t with 816.
  assert (ret = uc - 8).
  { apply Z.mod_divide in Hu as [a ->]; [|done]. apply Z.mod_divide in Hr as [c ->]; [|done]. lia. }
  lia.
Qed.

(** * Floating-point state *)

(** The registers the thread returns to user space with: those saved in the extra
    context of the CPU context, or those of the processor. *)
Definition fp_state (k : KMem) (fpu : list Z) (c : CpuContext) : list Z :=
  if extra_context_ptr c =? 0 then fpu
  else match k !! extra_context_ptr c with
       | Some bytes => take (Z.to_nat FXSAVE_AREA_LEN) bytes
       | None => []
       end.

(** A buffer that holds an extra context of type [e] and size [size]. *)
Definition area_ok (k : KMem) (e : ExtraContext) (ptr size : Z) : Prop :=
  ptr <> 0 /\ exists bytes, k !! ptr = Some bytes /\ Z.of_nat (length bytes) = size /\
    FXSAVE_AREA_LEN <= size <= i64_max - 63 /\ (e = Fpregs -> size = size_of_FpRegs).

Definition extra_ok (k : KMem) (c : CpuContext) : Prop :=
  if extra_context_ptr c =? 0 then extra_context c = Fpregs
  else area_ok k (extra_context c) (extra_context_ptr c) (extra_context_size c).

Lemma layout_ok size : size <= i64_max - 63 -> Layout_from_size_align size XSAVE_ALIGNMENT = Ok tt.
Proof.
  intros H. unfold Layout_from_size_align.
  replace (is_power_of_two 64) with true by done. rewrite (proj2 (Z.leb_le _ _)) by lia. done.
Qed.

Lemma slice_at_ok k ptr bytes size :
  k !! ptr = Some bytes -> size <= Z.of_nat (length bytes) ->
  slice_at k ptr size = Ok (take (Z.to_nat size) bytes).
Proof. intros Hk Hs. unfold slice_at. by rewrite Hk, (proj2 (Z.leb_le _ _)). Qed.

Lemma get_fpregs_ok k ptr bytes :
  k !! ptr = Some bytes -> FXSAVE_AREA_LEN <= Z.of_nat (length bytes) ->
  BoxXsaveArea_get_fpregs k (ptr, Z.of_nat (length bytes)) = Ok (take (Z.to_nat FXSAVE_AREA_LEN) bytes).
Proof.
  intros Hk Hs. unfold BoxXsaveArea_get_fpregs. cbn [fst snd].
  rewrite (slice_at_ok k ptr bytes), Nat2Z.id, firstn_all by (done || lia). cbn [mbind Result_bind].
  rewrite (proj2 (Z.leb_le _ _)) by done. unfold FpRegs_from_slice.
  rewrite length_take, (proj2 (Z.eqb_eq _ _)); [done|]. unfold size_of_FpRegs in *. lia.
Qed.

(** Saving keeps every buffer, shows the handler the registers, and leaves them
    in a buffer of the kernel's own; it fails only for want of heap. *)
Lemma save_extra_cases t c :
  length (cpu_fpregs t) = 512%nat -> extra_ok (kmem t) c ->
  let fp := fp_state (kmem t) (cpu_fpregs t) c in
  (save_extra_context (kmem t) (cpu_fpregs t) c = Panic /\ exists n, heap_alloc (kmem t) n = None) \/
  exists ec k, save_extra_context (kmem t) (cpu_fpregs t) c = Ok (ec, fp, k) /\ kmem t ⊆ k /\
    area_ok k (ec_type ec) (ec_ptr ec) (ec_size ec) /\ ec_type ec <> XsaveOnStack /\
    take (Z.to_nat FXSAVE_AREA_LEN) <$> k !! ec_ptr ec = Some fp /\ length fp = 512%nat.
Proof.
  intros Hfpu Hx fp. subst fp. unfold extra_ok, fp_state, save_extra_context in *.
  destruct (extra_context_ptr c =? 0) eqn:Hp.
  - rewrite Hx. unfold box_new. destruct (heap_alloc (kmem t) (length (cpu_fpregs t))) as [p|] eqn:Hall; [right|left; eauto].
    apply heap_alloc_fresh in Hall as [Hfresh Hr]. cbn [mbind Result_bind].
    do 2 eexists. split; [done|]. split; [by apply insert_subseteq|]. cbn [ec_type ec_ptr ec_size].
    rewrite lookup_insert_eq. split; [|split; [done|split; [|done]]].
    + split; [lia|]. exists (cpu_fpregs t). rewrite lookup_insert_eq, Hfpu. unfold size_of_FpRegs, i64_max. split_and!; try done; lia.
    + cbn. by rewrite take_ge by (rewrite Hfpu; done).
  - destruct Hx as (Hnz & bytes & Hk & Hlen & Hsz & Hf). rewrite Hk.
    assert (Hl : length (take (Z.to_nat FXSAVE_AREA_LEN) bytes) = 512%nat)
      by (rewrite length_take; lia).
    destruct (extra_context c).
    + right. rewrite (slice_at_ok _ _ bytes) by (done || rewrite Hlen, Hf; done). cbn [mbind Result_bind].
      do 2 eexists. split; [done|]. split; [done|]. cbn [ec_type ec_ptr ec_size]. rewrite Hk.
      split; [|done]. split; [done|]. exists bytes. rewrite <- Hf by done. done.
    + rewrite (slice_at_ok _ _ bytes) by (done || lia). cbn [mbind Result_bind].
      rewrite take_ge by lia. unfold BoxXsaveArea_new_with_slice. rewrite layout_ok by lia.
      cbn [mbind Result_bind]. destruct (heap_alloc (kmem t) (length bytes)) as [p|] eqn:Hall; [right|left; eauto].
      apply heap_alloc_fresh in Hall as [Hfresh Hr]. rewrite <- Hlen. cbn [mbind Result_bind].
      rewrite (get_fpregs_ok _ p bytes) by (apply lookup_insert_eq || lia). cbn [mbind Result_bind].
      do 2 eexists. split; [done|]. split; [by apply insert_subseteq|]. cbn [ec_type ec_ptr ec_size].
      rewrite lookup_insert_eq. split; [|done]. split; [lia|]. exists bytes. rewrite lookup_insert_eq. split_and!; try done; lia.
    + right. unfold BoxXsaveArea_from_raw. rewrite Hp, layout_ok by lia. cbn [mbind Result_bind].
      rewrite <- Hlen, (get_fpregs_ok _ _ bytes) by (done || lia). cbn [mbind Result_bind].
      do 2 eexists. split; [done|]. split; [done|]. cbn [ec_type ec_ptr ec_size fst]. rewrite Hk.
      split; [|done]. split; [done|]. exists bytes. split; [done|]. split; [done|]. split; [lia|done].
Qed.

(** * The stack of saved contexts *)

Record cs_ok (s : CpuContextStack) : Prop := {
  cs_len : length (cs_stack s) = 32%nat;
  cs_range : 0 <= cs_count s <= 32;
  cs_used i : Z.of_nat i < cs_count s -> exists c, cs_stack s !! i = Some (Some c);
  cs_free i : cs_count s <= Z.of_nat i < 32 -> cs_stack s !! i = Some None;
}.

Lemma push_ok s c :
  cs_ok s -> cs_count s < 32 ->
  exists s', CpuContextStack_push s c = Ok s' /\ cs_ok s' /\ cs_count s' = cs_count s + 1 /\
    CpuContextStack_pop s' = Ok (Some c, s).
Proof.
  intros [Hl Hr Hu Hf] Hlt. unfold CpuContextStack_push, CpuContextStack_full.
  rewrite (proj2 (Z.eqb_neq _ _)) by (rewrite Hl; lia). rewrite Hf by lia.
  rewrite add64_small by (unfold u64_modulus; lia). eexists. split; [done|].
  set (i := Z.to_nat (cs_count s)). assert (Hi : (i < length (cs_stack s))%nat) by (unfold i; lia). split.
  { constructor; cbn [cs_stack cs_count].
    - by rewrite length_insert.
    - lia.
    - intros j Hj. destruct (decide (j = i)) as [->|Hne]; [rewrite list_lookup_insert_eq; eauto|].
      rewrite list_lookup_insert_ne by done. apply Hu. lia.
    - intros j Hj. rewrite list_lookup_insert_ne by lia. apply Hf. lia. }
  split; [done|]. unfold CpuContextStack_pop, CpuContextStack_empty. cbn [cs_stack cs_count].
  rewrite (proj2 (Z.eqb_neq _ _)), sub64_small by (unfold u64_modulus; lia).
  replace (cs_count s + 1 - 1) with (cs_count s) by lia. fold i.
  rewrite list_lookup_insert_eq by done. cbn. rewrite list_insert_insert_eq, list_insert_id by (apply Hf; lia).
  by destruct s.
Qed.

(** * Building a frame and returning from it *)

(** What the kernel needs to call a handler: room for another saved context, heap,
    an intact floating-point area, and a stack pointer that leaves room below. *)
Record can_call (t : Thread) (flags : Z) (c : CpuContext) : Prop := {
  cc_stack : cs_ok (t_pre_ucontexts t);
  cc_room : cs_count (t_pre_ucontexts t) < 32;
  cc_fpu : length (cpu_fpregs t) = 512%nat;
  cc_extra : extra_ok (kmem t) c;
  cc_heap n : is_Some (heap_alloc (kmem t) n);
  cc_top : frame_fits (get_stack_top t flags c);
}.

(** The state after a call: [ec] is the kernel's copy of the extra context. *)
Definition called (signal : Signal) (t : Thread) (h f r : Z) (m : SigSet) (c : CpuContext)
    (ec : ExtraCtx) (t' : Thread) (c' : CpuContext) : Prop :=
  let uc := mkUcontext (set_extra c (extra_context c) 0 0) (t_sig_mask t)
                       (fp_state (kmem t) (cpu_fpregs t) c) in
  frame_at (get_stack_top t f c) (rsi c') (rdx c') (rsp c') /\
  c' = set_call (set_extra c (extra_context c) 0 0) (rsp c') h (sig_num signal) (rsi c') (rdx c') /\
  um_info (umem t') !! rsi c' = Some signal /\
  um_ucontext (umem t') !! rdx c' = Some uc /\
  um_usize (umem t') !! rsp c' = Some r /\
  t_sig_mask t' = (handler_mask (t_sig_mask t) m f (sig_num signal)).2 /\
  CpuContextStack_pop (t_pre_ucontexts t')
    = Ok (Some (mkRestoreContext (rdx c') ec), t_pre_ucontexts t) /\
  cs_ok (t_pre_ucontexts t') /\ kmem t ⊆ kmem t' /\
  area_ok (kmem t') (ec_type ec) (ec_ptr ec) (ec_size ec) /\ ec_type ec <> XsaveOnStack /\
  t' = set_frames (set_masks t (t_sig_mask t') (t_sig_tmp_mask t)) (t_pre_ucontexts t') (kmem t') (umem t').

(** What holds of every thread when it delivers: its stack of saved contexts is well formed, and its
    floating-point state is where its context says. *)
Record context_ok (t : Thread) (c : CpuContext) : Prop := {
  co_stack : cs_ok (t_pre_ucontexts t);
  co_fpu : length (cpu_fpregs t) = 512%nat;
  co_extra : extra_ok (kmem t) c;
}.

(** A stack that is not high enough, or a heap that is exhausted. *)
Definition no_frame (t : Thread) (f : Z) (c : CpuContext) : Prop :=
  get_stack_top t f c <= BIG_ENOUGH_SIZE \/ exists n, heap_alloc (kmem t) n = None.

Lemma get_stack_top_range t f c : 0 <= get_stack_top t f c < u64_modulus.
Proof. unfold get_stack_top. repeat case_match; unfold64; apply Z.mod_pos_bound; lia. Qed.

(** With room for another saved context the handler is called, or there is no frame for it. *)
Lemma call_cases signal t h f r m c :
  context_ok t c -> cs_count (t_pre_ucontexts t) < 32 ->
  (exists ec t' c', handle_signals_by_user signal t h f r m c = Ok (t', c') /\ called signal t h f r m c ec t' c')
  \/ ((forall p, handle_signals_by_user signal t h f r m c <> Ok p) /\ no_frame t f c).
Proof.
  intros [Hcs Hfpu Hx] Hroom. unfold handle_signals_by_user, handler_mask.
  change (get_stack_top (set_masks t _ _) f c) with (get_stack_top t f c).
  destruct (Z.le_gt_cases (get_stack_top t f c) BIG_ENOUGH_SIZE) as [Hlow|Htop].
  { right. unfold Stack_new. rewrite (proj2 (Z.leb_le _ _)) by done. split; [done|by left]. }
  destruct (frame_layout (get_stack_top t f c)) as (s1 & s2 & s3 & s4 & info & uc & ret & H1 & H2 & H3 & H4 & Hfr).
  { split; [done|apply get_stack_top_range]. }
  rewrite H1. cbn [mbind Result_bind]. rewrite H2. cbn [mbind Result_bind]. rewrite H3.
  cbn [mbind Result_bind]. cbn [set_masks kmem cpu_fpregs umem t_pre_ucontexts].
  destruct (save_extra_cases t c Hfpu Hx) as [[-> Hn]|(ec & k & Hsave & Hsub & Harea & Hns & _ & _)].
  { right. split; [done|by right]. }
  destruct (push_ok (t_pre_ucontexts t) (mkRestoreContext uc ec) Hcs Hroom) as (pre & Hpush & Hpre & _ & Hpop).
  left. rewrite Hsave. cbn [mbind Result_bind]. rewrite H4. cbn [mbind Result_bind]. rewrite Hpush.
  exists ec. do 2 eexists. split; [done|].
  unfold called. cbn. rewrite !lookup_insert_eq. split_and!; try done.
Qed.

Lemma can_call_context t f c : can_call t f c -> context_ok t c.
Proof. intros []. by constructor. Qed.

Lemma call_ok signal t h f r m c :
  can_call t f c ->
  exists ec t' c', handle_signals_by_user signal t h f r m c = Ok (t', c') /\
    called signal t h f r m c ec t' c'.
Proof.
  intros Hc. destruct (call_cases signal t h f r m c (can_call_context _ _ _ Hc) (cc_room _ _ _ Hc)) as [?|[_ [Hlow|[n Hn]]]]; [done|..].
  - destruct (cc_top _ _ _ Hc). lia.
  - destruct (cc_heap _ _ _ Hc n). congruence.
Qed.

(** [sigreturn] after a call, from any state in which the frame's context and
    the kernel's copy of the extra context are intact. *)
Lemma sigreturn_ok signal t h f r m c ec t' c' t2 c2 :
  length (fp_state (kmem t) (cpu_fpregs t) c) = 512%nat ->
  called signal t h f r m c ec t' c' ->
  t_pre_ucontexts t2 = t_pre_ucontexts t' ->
  um_ucontext (umem t2) !! rdx c' = um_ucontext (umem t') !! rdx c' ->
  kmem t2 !! ec_ptr ec = kmem t' !! ec_ptr ec ->
  exists k, do_rt_sigreturn t2 c2 =
      Ok (None, set_frames (set_masks t2 (t_sig_mask t) (t_sig_tmp_mask t2)) (t_pre_ucontexts t) k (umem t2),
          set_extra c (ec_type ec) (ec_ptr ec) (ec_size ec)) /\
    extra_ok k (set_extra c (ec_type ec) (ec_ptr ec) (ec_size ec)) /\
    fp_state k (cpu_fpregs t2) (set_extra c (ec_type ec) (ec_ptr ec) (ec_size ec))
      = fp_state (kmem t) (cpu_fpregs t) c.
Proof.
  intros Hlen (_ & _ & _ & Huc & _ & _ & Hpop & _ & _ & Harea & Hns & _) Hpre Hu Hk.
  set (fp := fp_state (kmem t) (cpu_fpregs t) c) in *.
  destruct Harea as (Hnz & bytes & Hb & Hl & Hsz & Hf). rewrite Hb in Hk. rewrite Huc in Hu.
  unfold do_rt_sigreturn. rewrite Hpre, Hpop. cbn [mbind Result_bind].
  cbn [set_frames set_masks umem kmem rc_ucontext rc_extra_context].
  rewrite Hu. cbn [unwrap_option mbind Result_bind].
  cbn [uc_mcontext uc_sigmask uc_fpregs set_extra extra_context extra_context_ptr extra_context_size].
  set (k := <[ec_ptr ec := fp ++ drop (length fp) bytes]> (kmem t2)).
  assert (Hcopy : forall n, n = 512 ->
    copy_to_slice (kmem t2) (ec_ptr ec) (ec_size ec) n fp = Ok k).
  { intros n ->. unfold copy_to_slice. rewrite Hk, Hlen.
    rewrite (proj2 (Z.leb_le _ _)), (proj2 (Z.leb_le _ _)) by lia. unfold k. rewrite Hlen. done. }
  exists k. split.
  - destruct (ec_type ec); [|done|].
    + rewrite Hcopy by (by rewrite Hf). done.
    + unfold FpRegs_from_slice, BoxXsaveArea_from_raw, BoxXsaveArea_set_fpregs_area. rewrite Hlen.
      rewrite (proj2 (Z.eqb_neq _ _)), layout_ok by lia.
      change (Z.of_nat 512 =? size_of_FpRegs) with true. cbn [mbind Result_bind fst snd].
      rewrite Hcopy by done. done.
  - unfold extra_ok, fp_state, area_ok. cbn [set_extra extra_context extra_context_ptr extra_context_size].
    rewrite (proj2 (Z.eqb_neq _ _)) by done. unfold k. rewrite lookup_insert_eq.
    split.
    + split; [done|]. eexists. split; [done|]. rewrite length_app, length_drop. split_and!; try done; lia.
    + rewrite take_app_le, take_ge by (rewrite Hlen; done). done.
Qed.

(** * The delivery loop *)

Definition th_ok (t : Thread) : Prop :=
  sq_ok (t_sig_queues t) /\ sq_ok (p_sig_queues t) /\ length (p_sig_dispositions t) = COUNT_ALL_SIGS.

Definition pending_count (t : Thread) : nat := (total (t_sig_queues t) + total (p_sig_queues t))%nat.

Definition blocked_now (t : Thread) : SigSet := SigSet_bitor (t_sig_mask t) (t_sig_tmp_mask t).

(** Nothing is pending but blocked signals. *)
Definition all_blocked (t : Thread) : Prop :=
  forall n, signum_ok n ->
    sig_in n (blocked_now t) \/ (queue_of (p_sig_queues t) n = [] /\ queue_of (t_sig_queues t) n = []).

(** The signal waits in a queue and is not blocked. *)
Definition deliverable (t : Thread) (s : Signal) : Prop :=
  signum_ok (sig_num s) /\ ~ sig_in (sig_num s) (blocked_now t) /\
  (s ∈ queue_of (p_sig_queues t) (sig_num s) \/ s ∈ queue_of (t_sig_queues t) (sig_num s)).

Lemma set_queues_same t : set_queues t (t_sig_queues t) (p_sig_queues t) = t.
Proof. by destruct t. Qed.

Lemma deliver_dequeue_ok t :
  th_ok t ->
  exists o tq pq, deliver_dequeue t = Ok (o, set_queues t tq pq) /\ th_ok (set_queues t tq pq) /\
    match o with
    | Some s => deliverable t s /\ (pending_count (set_queues t tq pq) < pending_count t)%nat /\
        (forall s', deliverable (set_queues t tq pq) s' -> deliverable t s')
    | None => set_queues t tq pq = t /\ all_blocked t
    end.
Proof.
  intros (Ht & Hp & Hd). unfold deliver_dequeue, all_blocked. fold (blocked_now t).
  destruct (dequeue_total (p_sig_queues t) (blocked_now t) Hp) as (o & p' & -> & Hp' & Ho).
  cbn [mbind Result_bind]. destruct o as [s|].
  { do 3 eexists. split; [done|]. split; [done|]. destruct Ho as (? & ? & ? & Hpop).
    split_and!.
    - split; [done|]. split; [done|]. left. destruct Hpop as (_ & _ & -> & _). by left.
    - unfold pending_count. simpl. lia.
    - intros s' (Hn & Hb & [Hs|Hs]); (split; [done|split; [done|]]); [left; by eapply pops_queued|by right]. }
  destruct Ho as [-> Hquiet]. rewrite set_queues_same.
  destruct (dequeue_total (t_sig_queues t) (blocked_now t) Ht) as (o & t' & -> & Ht' & Ho).
  cbn [mbind Result_bind]. do 3 eexists. split; [done|]. split; [done|]. destruct o as [s|].
  - destruct Ho as (? & ? & ? & Hpop). split_and!.
    + split; [done|]. split; [done|]. right. destruct Hpop as (_ & _ & -> & _). by left.
    + unfold pending_count. simpl. lia.
    + intros s' (Hn & Hb & [Hs|Hs]); (split; [done|split; [done|]]); [by left|right; by eapply pops_queued].
  - destruct Ho as [-> Hq2]. split; [apply set_queues_same|]. intros n Hn.
    destruct (Hquiet n Hn), (Hq2 n Hn); auto.
Qed.

(** How one call to [handle_signal] ends. *)
Definition handled (t : Thread) (c : CpuContext) (go_on : bool) (t' : Thread) (c' : CpuContext) : Prop :=
  if go_on then t' = t /\ c' = c
  else (exists n, t' = set_forced_exit t (Killed n) /\ c' = c) \/
       (exists s h f r m ec, called s t h f r m c ec t' c').

(** Why the kernel panics on a signal: 32 handlers are running already, or the signal has a handler and
    there is no frame for it. *)
Definition cannot_handle (t : Thread) (c : CpuContext) (s : Signal) : Prop :=
  cs_count (t_pre_ucontexts t) = 32 \/
  exists h f r m, SigDispositions_get (p_sig_dispositions t) (sig_num s) = Ok (User h f r m) /\ no_frame t f c.

Lemma full_iff t c : context_ok t c -> CpuContextStack_full (t_pre_ucontexts t) = (cs_count (t_pre_ucontexts t) =? 32).
Proof. intros [[Hl _ _ _] _ _]. unfold CpuContextStack_full. by rewrite Hl. Qed.

Lemma handle_signal_cases s t c :
  th_ok t -> signum_ok (sig_num s) -> context_ok t c ->
  (exists b t' c', handle_signal s t c = Ok (b, t', c') /\ handled t c b t' c')
  \/ (handle_signal s t c = Panic /\ cannot_handle t c s).
Proof.
  intros (_ & _ & Hd) Hn Hc. unfold handle_signal. rewrite (full_iff t c Hc).
  destruct (Z.eqb_spec (cs_count (t_pre_ucontexts t)) 32) as [Hfull|Hroom]; [right; split; [done|by left]|].
  unfold cannot_handle, SigDispositions_get.
  destruct (lookup_lt_is_Some_2 (p_sig_dispositions t) (Z.to_nat (num_to_idx (sig_num s)))) as [a Ha].
  { rewrite Hd. unfold num_to_idx. rewrite Z.mod_small; sig_lia. }
  rewrite Ha. cbn [unwrap_option mbind Result_bind]. destruct a as [| |h f r m].
  - left. destruct (SigDefaultAction_from_signum (sig_num s)); do 3 eexists; (split; [done|]);
      first [done | left; eauto].
  - left. do 3 eexists. done.
  - destruct (call_cases s t h f r m c Hc) as [(ec & t' & c' & -> & Hcalled)|[Hno Hwhy]].
    + pose proof (cs_range _ (co_stack _ _ Hc)). lia.
    + left. do 3 eexists. split; [done|]. right. by exists s, h, f, r, m, ec.
    + right. split; [|right; by eauto 6]. destruct (handle_signals_by_user s t h f r m c); [by destruct (Hno a)|done..].
Qed.

(** How delivery ends: the last signal handled, if any, from a state that differs
    from the first one by what was dequeued. *)
Definition delivered (t : Thread) (c : CpuContext) (t' : Thread) (c' : CpuContext) : Prop :=
  exists tq pq, let t1 := set_queues t tq pq in th_ok t1 /\
    ((t' = t1 /\ c' = c /\ all_blocked t1) \/ handled t1 c false t' c').

Lemma set_queues_twice t tq pq tq' pq' :
  set_queues (set_queues t tq pq) tq' pq' = set_queues t tq' pq'.
Proof. done. Qed.

Lemma context_ok_set_queues t tq pq c : context_ok t c -> context_ok (set_queues t tq pq) c.
Proof. intros [? ? ?]. by constructor. Qed.

Lemma do_deliver_cases fuel t c :
  th_ok t -> context_ok t c -> (pending_count t < fuel)%nat ->
  (exists t' c', do_deliver_signal fuel t c = Some (Ok (t', c')) /\ delivered t c t' c')
  \/ (do_deliver_signal fuel t c = Some Panic /\ exists s, deliverable t s /\ cannot_handle t c s).
Proof.
  revert t. induction fuel as [|fuel IH]; intros t Hok Hc Hf; [lia|]. simpl.
  destruct (SigQueues_empty (p_sig_queues t) && SigQueues_empty (t_sig_queues t)) eqn:He.
  { left. do 2 eexists. split; [done|]. exists (t_sig_queues t), (p_sig_queues t). rewrite set_queues_same.
    split; [done|]. left. split_and!; try done. intros n Hn. right. boolprop.
    destruct Hok as (Ht & Hp & _). pose proof (sq_count_ok _ Ht). pose proof (sq_count_ok _ Hp).
    split; apply total_zero; auto; lia. }
  destruct (deliver_dequeue_ok t Hok) as (o & tq & pq & -> & Hok' & Ho). destruct o as [s|].
  2:{ left. do 2 eexists. split; [done|]. exists tq, pq. split; [done|]. left. destruct Ho as [-> ?]. done. }
  destruct Ho as (Hd & Hlt & Hmono). pose proof (context_ok_set_queues t tq pq c Hc) as Hc'.
  destruct (handle_signal_cases s (set_queues t tq pq) c Hok' (proj1 Hd) Hc') as [(b & t' & c' & -> & Hh)|[-> Hwhy]];
    [|right; split; [done|by exists s]].
  destruct b; simpl.
  - destruct Hh as [-> ->].
    destruct (IH (set_queues t tq pq)) as [(t' & c' & -> & tq' & pq' & Hdel)|[-> (s' & Hs' & Hwhy)]]; auto.
    { lia. }
    + left. do 2 eexists. split; [done|]. exists tq', pq'. by rewrite set_queues_twice in Hdel.
    + right. split; [done|]. exists s'. auto.
  - left. do 2 eexists. split; [done|]. exists tq, pq. split; [done|]. by right.
Qed.

(** 32 handlers: the first signal that can be delivered makes the kernel panic. *)
Lemma do_deliver_full fuel t c s :
  th_ok t -> context_ok t c -> cs_count (t_pre_ucontexts t) = 32 -> deliverable t s ->
  do_deliver_signal (S fuel) t c = Some Panic.
Proof.
  intros Hok Hc Hfull (Hn & Hb & Hq). cbn [do_deliver_signal].
  assert (Hne : forall q, sq_ok q -> s ∈ queue_of q (sig_num s) -> SigQueues_empty q = false).
  { intros q Hsq Hin. apply Z.eqb_neq. intros H0. rewrite (sq_count_ok _ Hsq) in H0.
    rewrite (total_zero q (sig_num s)) in Hin by (done || lia). set_solver. }
  assert (SigQueues_empty (p_sig_queues t) && SigQueues_empty (t_sig_queues t) = false) as ->.
  { destruct Hok as (Ht & Hp & _). destruct Hq as [Hq|Hq]; [by rewrite (Hne _ Hp Hq)|]. rewrite (Hne _ Ht Hq). apply andb_false_r. }
  destruct (deliver_dequeue_ok t Hok) as (o & tq & pq & -> & Hok' & Ho). destruct o as [s'|].
  - unfold handle_signal. rewrite (full_iff _ c) by by apply context_ok_set_queues.
    cbn [set_queues t_pre_ucontexts]. by rewrite Hfull.
  - destruct Ho as [_ Hall]. destruct (Hall _ Hn) as [?|[H1 H2]]; [done|]. rewrite H1, H2 in Hq. set_solver.
Qed.

(** * Theorems *)

(** C29: Calling a handler and returning from it. When the thread can call a
    handler, the frame lies below the stack pointer within 4096 bytes, its three
    objects are disjoint and aligned for a call, and the handler gets the signal,
    its information and the saved context. If the handler returns with the saved
    context and the kernel's buffer intact, [sigreturn] restores the mask, every
    register, the stack of saved contexts and the floating-point state. *)
Theorem signal_roundtrip (signal : Signal) (t : Thread) (h f r : Z) (m : SigSet) (c : CpuContext) :
  can_call t f c ->
  exists ec t' c', handle_signals_by_user signal t h f r m c = Ok (t', c') /\
    called signal t h f r m c ec t' c' /\
    forall t2 c2,
      t_pre_ucontexts t2 = t_pre_ucontexts t' ->
      um_ucontext (umem t2) !! rdx c' = um_ucontext (umem t') !! rdx c' ->
      kmem t2 !! ec_ptr ec = kmem t' !! ec_ptr ec ->
      exists t3 c3, do_rt_sigreturn t2 c2 = Ok (None, t3, c3) /\
        t_sig_mask t3 = t_sig_mask t /\ t_pre_ucontexts t3 = t_pre_ucontexts t /\
        set_extra c3 Fpregs 0 0 = set_extra c Fpregs 0 0 /\ extra_ok (kmem t3) c3 /\
        fp_state (kmem t3) (cpu_fpregs t3) c3 = fp_state (kmem t) (cpu_fpregs t) c.
Proof.
  intros Hc. destruct (call_ok signal t h f r m c Hc) as (ec & t' & c' & Hh & Hcalled).
  exists ec, t', c'. split; [done|]. split; [done|]. intros t2 c2 Hpre Hu Hk.
  destruct (save_extra_cases t c (cc_fpu _ _ _ Hc) (cc_extra _ _ _ Hc)) as [[_ [n Hn]]|(? & ? & _ & _ & _ & _ & _ & Hlen)].
  { destruct (cc_heap _ _ _ Hc n). congruence. }
  destruct (sigreturn_ok signal t h f r m c ec t' c' t2 c2 Hlen Hcalled Hpre Hu Hk) as (k & -> & Hx & Hfp).
  do 2 eexists. split; [done|]. split_and!; done.
Qed.

(** The mask while a handler runs is the mask of its action, with the signal
    itself unless [SA_NODEFER]; the mask of the thread before the call plays no role
    but is what the frame saves. *)
Theorem handler_mask_spec (old sa_mask : SigSet) (flags : Z) (num n : SigNum) :
  signum_ok num -> signum_ok n ->
  let (saved, mask) := handler_mask old sa_mask flags num in
  saved = old /\
  (sig_in n mask <-> sig_in n sa_mask \/ (n = num /\ Z.land flags SA_NODEFER <> SA_NODEFER)).
Proof.
  intros Hnum Hn. unfold handler_mask. split; [done|]. rewrite bf_contains_law.
  destruct (Z.land flags SA_NODEFER =? SA_NODEFER) eqn:He; boolprop; simpl.
  - intuition.
  - rewrite sig_in_add by done. intuition.
Qed.

(** C35: Delivery terminates: as many rounds as signals are pending, and one, are enough, for a thread with
    well-formed queues, dispositions, saved contexts and floating-point areas. It clears the temporary mask
    and ends with everything pending blocked, or with the process forced to exit, or with one handler
    called. Or it panics, only when a signal that can be delivered cannot be handled: 32 handlers are running
    already - in that state any signal that can be delivered does it -, or it has a handler
    and the stack to run it on does not begin above address 4096 or the kernel heap is exhausted. A thread
    that is forced to exit or to stop delivers nothing. *)
Theorem deliver_signal_terminates (fuel : nat) (t : Thread) (c : CpuContext) :
  th_ok t -> context_ok t c -> (pending_count t < fuel)%nat ->
  let acts := negb (fe_exited (p_forced_exit t)) && negb (bool_decide (t_status t = ThToStop))
              && negb (bool_decide (t_status t = ThStopped)) in
  ((exists t' c', deliver_signal fuel t c = Some (Ok (t', c')) /\ t_sig_tmp_mask t' = SigSet_new_empty /\
      if acts then exists t1, delivered t c t1 c' /\ t' = set_masks t1 (t_sig_mask t1) SigSet_new_empty
      else t' = set_masks t (t_sig_mask t) SigSet_new_empty /\ c' = c)
   \/ (deliver_signal fuel t c = Some Panic /\ acts = true /\ exists s, deliverable t s /\ cannot_handle t c s))
  /\ (acts = true -> cs_count (t_pre_ucontexts t) = 32 -> forall s, deliverable t s -> deliver_signal fuel t c = Some Panic).
Proof.
  intros Hok Hc Hf acts. unfold deliver_signal. fold acts. split.
  - destruct acts; [|left; do 2 eexists; by split_and!].
    destruct (do_deliver_cases fuel t c Hok Hc Hf) as [(t1 & c1 & -> & Hd)|[-> Hwhy]]; [left|by right].
    do 2 eexists. split; [done|]. split; [done|]. eauto.
  - intros -> Hfull s Hs. destruct fuel as [|fuel]; [lia|]. by rewrite (do_deliver_full fuel t c s).
Qed.

(** C36: [SIGKILL] sent to a process kills it: when it is pending and not blocked,
    it is the first signal a running thread delivers, before any handler is called,
    and the process is forced to exit as killed by it unless it already exits. The exception is a thread
    with 32 handlers running: there the kernel panics before it looks at the disposition. *)
Theorem sigkill_kills (fuel : nat) (t : Thread) (c : CpuContext) :
  th_ok t -> cs_ok (t_pre_ucontexts t) ->
  fe_exited (p_forced_exit t) = false -> t_status t = ThRunning ->
  SigDispositions_get (p_sig_dispositions t) SIGKILL = Ok Dfl ->
  ~ sig_in SIGKILL (blocked_now t) -> queue_of (p_sig_queues t) SIGKILL <> [] ->
  if cs_count (t_pre_ucontexts t) =? 32 then deliver_signal (S fuel) t c = Some Panic
  else exists t', deliver_signal (S fuel) t c = Some (Ok (t', c)) /\
    fe_exited (p_forced_exit t') = true /\
    (fe_status (p_forced_exit t) = None -> fe_status (p_forced_exit t') = Some (Killed SIGKILL)).
Proof.
  intros (Ht & Hp & Hd) Hcs He Hs Hdfl Hb Hq. unfold deliver_signal. rewrite He, Hs. cbn [negb andb].
  rewrite !bool_decide_false by done. cbn [negb andb do_deliver_signal].
  assert (SigQueues_empty (p_sig_queues t) = false) as ->.
  { apply Z.eqb_neq. intros H0. apply Hq. apply total_zero; [done| |sig_lia].
    rewrite (sq_count_ok _ Hp) in H0. lia. }
  cbn [andb]. unfold deliver_dequeue. fold (blocked_now t).
  destruct (dequeue_sigkill _ _ Hp Hb Hq) as (s & pq & -> & Hnum). cbn [mbind Result_bind].
  unfold handle_signal, CpuContextStack_full. cbn [set_queues t_pre_ucontexts p_sig_dispositions].
  rewrite (cs_len _ Hcs). change (Z.of_nat 32) with 32. case_if; [done|]. rewrite Hnum, Hdfl.
  cbn. eexists. split; [done|]. split; [done|]. simpl. by intros ->.
Qed.

(** [sigreturn] takes the mask from the user's memory as it is. A handler that
    adds [SIGKILL] to the saved mask blocks it: the thread never dequeues it
    again. *)
Theorem sigreturn_blocks_sigkill (t t' : Thread) (c c' : CpuContext) rc pre uc :
  CpuContextStack_pop (t_pre_ucontexts t) = Ok (Some rc, pre) ->
  um_ucontext (umem t) !! rc_ucontext rc = Some uc ->
  do_rt_sigreturn t c = Ok (None, t', c') ->
  t_sig_mask t' = uc_sigmask uc /\
  (th_ok t' -> sig_in SIGKILL (uc_sigmask uc) ->
   forall s t'', deliver_dequeue t' = Ok (Some s, t'') -> sig_num s <> SIGKILL).
Proof.
  intros Hpop Hu Hret. unfold do_rt_sigreturn in Hret. rewrite Hpop in Hret. cbn [mbind Result_bind] in Hret.
  cbn [set_frames umem] in Hret. rewrite Hu in Hret. cbn [unwrap_option mbind Result_bind] in Hret.
  assert (Hm : t_sig_mask t' = uc_sigmask uc).
  { apply bind_Ok_inv in Hret as (k & _ & ?). by simplify_eq. }
  split; [done|]. intros Hok Hin s t'' Hd.
  destruct (deliver_dequeue_ok t' Hok) as (o & tq & pq & Heq & _ & Ho). rewrite Heq in Hd. simplify_eq.
  destruct Ho as ((_ & Hnb & _) & _). intros Hnum. apply Hnb. rewrite Hnum. unfold blocked_now.
  rewrite sig_in_or, Hm. by left.
Qed.

(** A user stack pointer within 4096 bytes of the gap makes the delivery to a handler
    panic instead of killing the process. *)
Theorem small_stack_panics (s : Signal) (t : Thread) (c : CpuContext) h f r m :
  SigDispositions_get (p_sig_dispositions t) (sig_num s) = Ok (User h f r m) ->
  t_sig_stack t = None -> BIG_ENOUGH_GAP <= rsp c <= BIG_ENOUGH_GAP + BIG_ENOUGH_SIZE ->
  handle_signal s t c = Panic.
Proof.
  intros Ha Hss Hrsp. unfold handle_signal. case_if; [done|]. rewrite Ha. cbn [mbind Result_bind].
  unfold handle_signals_by_user, handler_mask, get_stack_top. cbn [set_masks t_sig_stack]. rewrite Hss.
  replace (if bf_contains f SA_ONSTACK then rsp c -64 BIG_ENOUGH_GAP else rsp c -64 BIG_ENOUGH_GAP)
    with (rsp c -64 BIG_ENOUGH_GAP) by (by case_if).
  unfold Stack_new in *.
  rewrite sub64_small, (proj2 (Z.leb_le _ _)) by (unfold u64_modulus; lia). done.
Qed.
End with_heap.

(** * Examples *)

(** A bump allocator. *)
Definition bump_alloc (k : KMem) (n : nat) : option Z :=
  let p := 4096 + map_fold (fun q bytes m => Z.max m (q + Z.of_nat (length bytes))) 0 k in
  if bool_decide (k !! p = None /\ 0 < p < u64_modulus) then Some p else None.

Lemma bump_alloc_fresh k n p : bump_alloc k n = Some p -> k !! p = None /\ 0 < p < u64_modulus.
Proof.
  unfold bump_alloc. set (q := 4096 + _). destruct (bool_decide _) eqn:He; [|done].
  intros [= <-]. by apply bool_decide_eq_true in He.
Qed.

Definition bump_heap : KernelHeap := {| heap_alloc := bump_alloc; heap_alloc_fresh := bump_alloc_fresh |}.

Definition example_context : CpuContext :=
  mkCpuContext 8 9 10 11 12 13 14 15 1 2 3 4 5 6 7 100000 4194304 514 Fpregs 0 0.

Definition example_thread (pq : SigQueues) : Thread :=
  mkThread SigQueues_new 16 0 None ThRunning CpuContextStack_default pq
    (replicate COUNT_ALL_SIGS Dfl) ForcedExitStatus_new (replicate 512 0) ∅ (mkUserMem ∅ ∅ ∅).

Lemma cs_default_ok : cs_ok CpuContextStack_default.
Proof.
  constructor; cbn [CpuContextStack_default cs_count cs_stack]; try (done || lia).
  intros i Hi. apply lookup_replicate. split; [done|lia].
Qed.

Lemma example_can_call pq f : can_call (KH := bump_heap) (BF := bitflags_bits) (example_thread pq) f example_context.
Proof.
  constructor.
  - exact cs_default_ok.
  - done.
  - done.
  - done.
  - intros n. by eexists.
  - unfold frame_fits, get_stack_top. simpl. by destruct (_ =? _).
Qed.

Lemma signal_roundtrip_witness :
  exists t' c',
    handle_signals_by_user (KH := bump_heap) (BF := bitflags_bits) (mkSignal 10 0)
      (example_thread SigQueues_new) 5000 SA_SIGINFO 6000 0 example_context = Ok (t', c') /\
    exists t3 c3, do_rt_sigreturn t' c' = Ok (None, t3, c3) /\ t_sig_mask t3 = 16.
Proof.
  destruct (signal_roundtrip (KH := bump_heap) (BF := bitflags_bits) (mkSignal 10 0) (example_thread SigQueues_new)
    5000 SA_SIGINFO 6000 0 example_context (example_can_call _ _)) as (ec & t' & c' & H & _ & Hret).
  exists t', c'. split; [exact H|].
  destruct (Hret t' c' eq_refl eq_refl eq_refl) as (t3 & c3 & H3 & Hm & _).
  exists t3, c3. split; [exact H3|exact Hm].
Defined.

Lemma handler_mask_spec_witness :
  let (saved, mask) := handler_mask (BF := bitflags_bits) 16 2 0 10 in
  saved = 16 /\ (sig_in 10 mask <-> sig_in 10 2 \/ (10 = 10 /\ Z.land 0 SA_NODEFER <> SA_NODEFER)).
Proof. apply (handler_mask_spec (BF := bitflags_bits) 16 2 0 10 10); sig_lia. Defined.

Definition enqueued (q : SigQueues) (s : Signal) : SigQueues :=
  match SigQueues_enqueue q s with Ok (q', _) => q' | _ => q end.

Lemma enqueued_ok q s : sq_ok q -> signum_ok (sig_num s) -> sq_count q < u64_modulus - 2 -> sq_ok (enqueued q s).
Proof.
  intros Hq Hn Hc. destruct (enqueue_ok q s Hq Hn Hc) as (q' & told & H & Hok & _). unfold enqueued. by rewrite H.
Qed.

(** A signal that is ignored by default and one with a handler are pending. *)
Definition two_queues : SigQueues := enqueued (enqueued SigQueues_new (mkSignal 17 0)) (mkSignal 40 0).

Definition two_pending (pre : CpuContextStack) : Thread :=
  mkThread SigQueues_new 16 0 None ThRunning pre two_queues
    (<[39%nat := User 5000 SA_SIGINFO 6000 0]> (replicate COUNT_ALL_SIGS Dfl)) ForcedExitStatus_new (replicate 512 0) ∅
    (mkUserMem ∅ ∅ ∅).

Lemma two_pending_ok pre : th_ok (two_pending pre).
Proof.
  split; [exact SigQueues_new_ok|]. split; [|reflexivity].
  apply enqueued_ok; [apply enqueued_ok; [exact SigQueues_new_ok|..]|..]; try (cbn; sig_lia); vm_compute; reflexivity.
Qed.

Lemma two_pending_context pre : cs_ok pre -> context_ok (two_pending pre) example_context.
Proof. intros Hpre. by constructor. Qed.

(** A thread in its 32nd nested handler. *)
Definition full_contexts : CpuContextStack :=
  mkCpuContextStack (replicate 32 (Some (mkRestoreContext 90000 (mkExtraCtx Fpregs 4096 512)))) 32.

Lemma full_contexts_ok : cs_ok full_contexts.
Proof.
  constructor; cbn [full_contexts cs_count cs_stack]; try (done || lia).
  intros i Hi. eexists. apply lookup_replicate. split; [done|lia].
Qed.

Lemma deliver_signal_terminates_witness :
  (exists t' c', deliver_signal (KH := bump_heap) (BF := bitflags_bits) 3 (two_pending CpuContextStack_default) example_context
     = Some (Ok (t', c')) /\ t_sig_tmp_mask t' = SigSet_new_empty /\ rip c' = 5000 /\ pending_count t' = 0%nat)
  /\ deliver_signal (KH := bump_heap) (BF := bitflags_bits) 3 (two_pending full_contexts) example_context = Some Panic.
Proof.
  split.
  - destruct (deliver_signal_terminates (KH := bump_heap) (BF := bitflags_bits) 3 (two_pending CpuContextStack_default)
      example_context (two_pending_ok _) (two_pending_context _ cs_default_ok)) as [[(t' & c' & H & Hm & _)|(H & _)] _].
    + vm_compute. lia.
    + exists t', c'. split; [exact H|]. split; [exact Hm|]. vm_compute in H. injection H as <- <-. split; reflexivity.
    + vm_compute in H. discriminate H.
  - apply (deliver_signal_terminates (KH := bump_heap) (BF := bitflags_bits) 3 (two_pending full_contexts)
      example_context (two_pending_ok _) (two_pending_context _ full_contexts_ok)) with (s := mkSignal 17 0).
    + vm_compute. lia.
    + reflexivity.
    + reflexivity.
    + split; [cbn; sig_lia|]. split; [vm_compute; discriminate|]. left. vm_compute. left.
Defined.

Definition killed_queues : SigQueues := enqueued SigQueues_new (mkSignal SIGKILL 0).

Lemma killed_queues_ok : sq_ok killed_queues.
Proof. apply enqueued_ok; [exact SigQueues_new_ok|cbn; sig_lia|vm_compute; reflexivity]. Qed.

Lemma sigkill_kills_witness :
  (exists t', deliver_signal (KH := bump_heap) (BF := bitflags_bits) 1 (example_thread killed_queues) example_context
    = Some (Ok (t', example_context)) /\ fe_status (p_forced_exit t') = Some (Killed SIGKILL))
  /\ deliver_signal (KH := bump_heap) (BF := bitflags_bits) 1
       (set_frames (example_thread killed_queues) full_contexts ∅ (mkUserMem ∅ ∅ ∅)) example_context = Some Panic.
Proof.
  assert (Hok : th_ok (example_thread killed_queues)).
  { split; [exact SigQueues_new_ok|]. split; [exact killed_queues_ok|reflexivity]. }
  split.
  - destruct (sigkill_kills (KH := bump_heap) (BF := bitflags_bits) 0 (example_thread killed_queues) example_context Hok
      cs_default_ok eq_refl eq_refl eq_refl) as (t' & H & _ & Hs).
    + vm_compute. discriminate.
    + vm_compute. discriminate.
    + exists t'. split; [exact H|]. apply Hs. reflexivity.
  - apply (sigkill_kills (KH := bump_heap) (BF := bitflags_bits) 0
      (set_frames (example_thread killed_queues) full_contexts ∅ (mkUserMem ∅ ∅ ∅)) example_context Hok
      full_contexts_ok eq_refl eq_refl eq_refl).
    + vm_compute. discriminate.
    + vm_compute. discriminate.
Defined.

(** A thread in a handler whose saved mask has every signal in it. *)
Definition tampered_thread : Thread :=
  set_frames (example_thread killed_queues)
    (mkCpuContextStack (<[0%nat := Some (mkRestoreContext 90000 (mkExtraCtx Fpregs 4096 512))]> (replicate 32 None)) 1)
    {[4096 := replicate 512 0]}
    (mkUserMem ∅ {[90000 := mkUcontext example_context (not64 0) (replicate 512 0)]} ∅).

Lemma sigreturn_blocks_sigkill_witness :
  exists t' c', do_rt_sigreturn tampered_thread example_context = Ok (None, t', c') /\
    t_sig_mask t' = not64 0 /\
    forall s t'', deliver_dequeue t' = Ok (Some s, t'') -> sig_num s <> SIGKILL.
Proof.
  destruct (do_rt_sigreturn tampered_thread example_context) as [[[o t'] c']| |] eqn:H;
    [|vm_compute in H; discriminate H|vm_compute in H; discriminate H].
  assert (Ho : o = None) by (vm_compute in H; by injection H as <- _ _). subst o.
  assert (Hok : th_ok t').
  { vm_compute in H. injection H as <- _.
    split; [exact SigQueues_new_ok|]. split; [exact killed_queues_ok|reflexivity]. }
  destruct (sigreturn_blocks_sigkill tampered_thread t' example_context c'
    (mkRestoreContext 90000 (mkExtraCtx Fpregs 4096 512)) CpuContextStack_default
    (mkUcontext example_context (not64 0) (replicate 512 0))) as [Hm Hd].
  - vm_compute. reflexivity.
  - reflexivity.
  - exact H.
  - exists t', c'. split; [reflexivity|]. split; [exact Hm|]. apply Hd; [exact Hok|vm_compute; reflexivity].
Defined.
