(* ===== verification/Process.v ===== *)
(** Processes, threads and process groups: [process/process/], [process/thread/],
    [process/table.rs], [process/pgrp.rs], [process/wait.rs],
    [process/do_wait4.rs], [process/do_exit.rs], [process/do_exec.rs],
    [process/do_clone.rs], the building of a process in [process/do_spawn/mod.rs]
    and the children of [process/do_vfork.rs] that exit at once.

    A reference ([Arc]) to a process, a thread, a group or a waiter is the
    address of the object in a store. What the functions do to other parts of
    the system (host events, futexes, files, memory) is recorded in order in
    [ps_log]. *)

From stdpp Require Import base list gmap numbers.
From S2P Require Import Prelude Errno Effects SigSet SigQueues TermStatus.

Abbreviation pid_t := Z (only parsing).
Abbreviation ProcessRef := positive (only parsing).
Abbreviation ThreadRef := positive (only parsing).
Abbreviation ProcessGrpRef := positive (only parsing).
Abbreviation WaiterRef := positive (only parsing).

(** * Thread identifiers *)

Record IdAlloc := mkIdAlloc { next_id : Z; used_ids : gset Z }.

Abbreviation IdAlloc_new := (mkIdAlloc 0 ∅ : IdAlloc).

(** The loop of [alloc]; [None] when it has not ended after [fuel] rounds. *)
Fixpoint alloc_loop (fuel : nat) (next_id : Z) (used_ids : gset Z) : option Z :=
  match fuel with
  | O => None
  | S fuel =>
      let next_id := (next_id + 1) mod 2 ^ 32 in
      let next_id := if next_id =? 0 then 1 else next_id in
      if bool_decide (next_id ∈ used_ids) then alloc_loop fuel next_id used_ids else Some next_id
  end.

(** One round more than there are identifiers in use; [None] when the loop
    never ends. *)
Definition IdAlloc_alloc (self : IdAlloc) : option (Z * IdAlloc) :=
  new_id ← alloc_loop (S (size (used_ids self))) (next_id self) (used_ids self);
  Some (new_id, mkIdAlloc new_id ({[new_id]} ∪ used_ids self)).

Definition IdAlloc_free (self : IdAlloc) (id : Z) : option Z * IdAlloc :=
  if bool_decide (id ∈ used_ids self)
  then (Some id, mkIdAlloc (next_id self) (used_ids self ∖ {[id]})) else (None, self).

(** * Data *)

Inductive ProcessFilter := WithAnyPid | WithPid (pid : pid_t) | WithPgid (pgid : pid_t).

Inductive LiveStatus := Running | Stopped.

Inductive ProcessInner :=
| Live (status : LiveStatus) (children : list ProcessRef) (waiting_children : list WaiterRef)
    (threads : list ThreadRef)
| Zombie (term_status : TermStatus).

(** The path, the start time, the mask for new files and the signal dispositions
    play no part here. *)
Record Process := mkProcess {
  pr_pid : pid_t;
  pr_parent : option ProcessRef;
  pr_pgrp : option ProcessGrpRef;
  pr_inner : ProcessInner;
  pr_sig_queues : SigQueues;
  pr_forced_exit_status : ForcedExitStatus;
}.

Inductive ThreadInner := TInit | TRunning | TExited (term_status : TermStatus) | TToStop | TStopped.

Record Thread := mkThread {
  th_tid : pid_t;
  th_clear_ctid : option Z;
  th_inner : ThreadInner;
  th_process : ProcessRef;
}.

Record ProcessGrp := mkProcessGrp {
  pg_pgid : pid_t;
  pg_process_group : gmap pid_t ProcessRef;
  pg_leader_process : option ProcessRef;
}.

(** [WaiterInner], with the thread that sleeps on it. *)
Record Waiter := mkWaiter {
  wt_thread : ThreadRef;
  wt_is_woken : bool;
  wt_data : ProcessFilter;
  wt_result : option pid_t;
}.

(** A futex is an address of user memory, or the address of a process. *)
Inductive FutexAddr := UserFutex (addr : Z) | ProcessFutex (process : ProcessRef).

(** Calls to other parts of the system. *)
Inductive Effect :=
| SetEvent (thread : ThreadRef)
| SchedAttach (tid : pid_t)
| SchedDetach (tid : pid_t)
| StoreUser (addr val : Z)
| FutexWake (futex_addr : FutexAddr) (max_count : Z)
| WakeRobustList (tid : pid_t)
| CloseAllFiles (pid : pid_t)
| FreeChunksWhenExit (pid : pid_t)
| DetachShmWhenProcessExit (pid : pid_t)
| ExecThreadAsync (tid : pid_t)
| BroadcastInterrupts.

Record PState := mkPState {
  ps_processes : gmap ProcessRef Process;
  ps_threads : gmap ThreadRef Thread;
  ps_pgrps : gmap ProcessGrpRef ProcessGrp;
  ps_waiters : gmap WaiterRef Waiter;
  ps_next : positive; (* the next address *)
  PROCESS_TABLE : gmap pid_t ProcessRef;
  THREAD_TABLE : gmap pid_t ThreadRef;
  PROCESSGRP_TABLE : gmap pid_t ProcessGrpRef;
  THREAD_ID_ALLOC : IdAlloc;
  THREAD_NOTIFIERS : gset pid_t;
  NEW_THREAD_TABLE : gmap pid_t ThreadRef;
  EXIT_CHILDREN_STATUS : gmap pid_t (list (pid_t * TermStatus));
  ps_log : list Effect;
}.

Abbreviation PS := (M PState) (only parsing).

(** Updates of one part of the state. *)
Definition u_processes f s := mkPState (f (ps_processes s)) (ps_threads s) (ps_pgrps s) (ps_waiters s) (ps_next s)
  (PROCESS_TABLE s) (THREAD_TABLE s) (PROCESSGRP_TABLE s) (THREAD_ID_ALLOC s) (THREAD_NOTIFIERS s) (NEW_THREAD_TABLE s)
  (EXIT_CHILDREN_STATUS s) (ps_log s).
Definition u_threads f s := mkPState (ps_processes s) (f (ps_threads s)) (ps_pgrps s) (ps_waiters s) (ps_next s)
  (PROCESS_TABLE s) (THREAD_TABLE s) (PROCESSGRP_TABLE s) (THREAD_ID_ALLOC s) (THREAD_NOTIFIERS s) (NEW_THREAD_TABLE s)
  (EXIT_CHILDREN_STATUS s) (ps_log s).
Definition u_pgrps f s := mkPState (ps_processes s) (ps_threads s) (f (ps_pgrps s)) (ps_waiters s) (ps_next s)
  (PROCESS_TABLE s) (THREAD_TABLE s) (PROCESSGRP_TABLE s) (THREAD_ID_ALLOC s) (THREAD_NOTIFIERS s) (NEW_THREAD_TABLE s)
  (EXIT_CHILDREN_STATUS s) (ps_log s).
Definition u_waiters f s := mkPState (ps_processes s) (ps_threads s) (ps_pgrps s) (f (ps_waiters s)) (ps_next s)
  (PROCESS_TABLE s) (THREAD_TABLE s) (PROCESSGRP_TABLE s) (THREAD_ID_ALLOC s) (THREAD_NOTIFIERS s) (NEW_THREAD_TABLE s)
  (EXIT_CHILDREN_STATUS s) (ps_log s).
Definition u_next s := mkPState (ps_processes s) (ps_threads s) (ps_pgrps s) (ps_waiters s) (Pos.succ (ps_next s))
  (PROCESS_TABLE s) (THREAD_TABLE s) (PROCESSGRP_TABLE s) (THREAD_ID_ALLOC s) (THREAD_NOTIFIERS s) (NEW_THREAD_TABLE s)
  (EXIT_CHILDREN_STATUS s) (ps_log s).
Definition u_process_table f s := mkPState (ps_processes s) (ps_threads s) (ps_pgrps s) (ps_waiters s) (ps_next s)
  (f (PROCESS_TABLE s)) (THREAD_TABLE s) (PROCESSGRP_TABLE s) (THREAD_ID_ALLOC s) (THREAD_NOTIFIERS s) (NEW_THREAD_TABLE s)
  (EXIT_CHILDREN_STATUS s) (ps_log s).
Definition u_thread_table f s := mkPState (ps_processes s) (ps_threads s) (ps_pgrps s) (ps_waiters s) (ps_next s)
  (PROCESS_TABLE s) (f (THREAD_TABLE s)) (PROCESSGRP_TABLE s) (THREAD_ID_ALLOC s) (THREAD_NOTIFIERS s) (NEW_THREAD_TABLE s)
  (EXIT_CHILDREN_STATUS s) (ps_log s).
Definition u_pgrp_table f s := mkPState (ps_processes s) (ps_threads s) (ps_pgrps s) (ps_waiters s) (ps_next s)
  (PROCESS_TABLE s) (THREAD_TABLE s) (f (PROCESSGRP_TABLE s)) (THREAD_ID_ALLOC s) (THREAD_NOTIFIERS s) (NEW_THREAD_TABLE s)
  (EXIT_CHILDREN_STATUS s) (ps_log s).
Definition u_ids i s := mkPState (ps_processes s) (ps_threads s) (ps_pgrps s) (ps_waiters s) (ps_next s)
  (PROCESS_TABLE s) (THREAD_TABLE s) (PROCESSGRP_TABLE s) i (THREAD_NOTIFIERS s) (NEW_THREAD_TABLE s)
  (EXIT_CHILDREN_STATUS s) (ps_log s).
Definition u_notifiers f s := mkPState (ps_processes s) (ps_threads s) (ps_pgrps s) (ps_waiters s) (ps_next s)
  (PROCESS_TABLE s) (THREAD_TABLE s) (PROCESSGRP_TABLE s) (THREAD_ID_ALLOC s) (f (THREAD_NOTIFIERS s)) (NEW_THREAD_TABLE s)
  (EXIT_CHILDREN_STATUS s) (ps_log s).
Definition u_new_threads f s := mkPState (ps_processes s) (ps_threads s) (ps_pgrps s) (ps_waiters s) (ps_next s)
  (PROCESS_TABLE s) (THREAD_TABLE s) (PROCESSGRP_TABLE s) (THREAD_ID_ALLOC s) (THREAD_NOTIFIERS s) (f (NEW_THREAD_TABLE s))
  (EXIT_CHILDREN_STATUS s) (ps_log s).
Definition u_vforked f s := mkPState (ps_processes s) (ps_threads s) (ps_pgrps s) (ps_waiters s) (ps_next s)
  (PROCESS_TABLE s) (THREAD_TABLE s) (PROCESSGRP_TABLE s) (THREAD_ID_ALLOC s) (THREAD_NOTIFIERS s) (NEW_THREAD_TABLE s)
  (f (EXIT_CHILDREN_STATUS s)) (ps_log s).
Definition u_log e s := mkPState (ps_processes s) (ps_threads s) (ps_pgrps s) (ps_waiters s) (ps_next s)
  (PROCESS_TABLE s) (THREAD_TABLE s) (PROCESSGRP_TABLE s) (THREAD_ID_ALLOC s) (THREAD_NOTIFIERS s) (NEW_THREAD_TABLE s)
  (EXIT_CHILDREN_STATUS s) (ps_log s ++ [e]).

(** Reading an object, replacing it, and a new one. *)
Definition read_process (r : ProcessRef) : PS Process := fun s => (unwrap_option (ps_processes s !! r), s).
Definition read_thread (t : ThreadRef) : PS Thread := fun s => (unwrap_option (ps_threads s !! t), s).
Definition read_pgrp (g : ProcessGrpRef) : PS ProcessGrp := fun s => (unwrap_option (ps_pgrps s !! g), s).
Definition set_process (r : ProcessRef) (p : Process) : PS unit := modify (u_processes <[r := p]>).
Definition set_thread (t : ThreadRef) (th : Thread) : PS unit := modify (u_threads <[t := th]>).
Definition set_pgrp (g : ProcessGrpRef) (grp : ProcessGrp) : PS unit := modify (u_pgrps <[g := grp]>).
Definition new_address : PS positive := fun s => (Ok (ps_next s), u_next s).
Definition log (e : Effect) : PS unit := modify (u_log e).

(** A call whose result is not looked at. *)
Definition ignore {S A} (c : M S A) : M S unit := _ ← attempt c; ok tt.

Definition is_err {A} (r : Result A) : bool := match r with Ok _ => false | _ => true end.

Definition set_inner (p : Process) (i : ProcessInner) : Process :=
  mkProcess (pr_pid p) (pr_parent p) (pr_pgrp p) i (pr_sig_queues p) (pr_forced_exit_status p).
Definition set_parent (p : Process) (r : ProcessRef) : Process :=
  mkProcess (pr_pid p) (Some r) (pr_pgrp p) (pr_inner p) (pr_sig_queues p) (pr_forced_exit_status p).
Definition set_pgrp_of (p : Process) (g : option ProcessGrpRef) : Process :=
  mkProcess (pr_pid p) (pr_parent p) g (pr_inner p) (pr_sig_queues p) (pr_forced_exit_status p).
Definition set_queues_of (p : Process) (q : SigQueues) : Process :=
  mkProcess (pr_pid p) (pr_parent p) (pr_pgrp p) (pr_inner p) q (pr_forced_exit_status p).
Definition set_forced (p : Process) (f : ForcedExitStatus) : Process :=
  mkProcess (pr_pid p) (pr_parent p) (pr_pgrp p) (pr_inner p) (pr_sig_queues p) f.

(** [Vec::swap_remove] *)
Definition swap_remove {A} (i : nat) (l : list A) : list A :=
  match list.last l with
  | Some z => take (length l - 1) (<[i := z]> l)
  | None => l
  end.

(** The idle process is the second object built, after its group. *)
Definition IDLE : ProcessRef := 2%positive.

(** * Tables *)

Definition Table_get {I} (self : gmap pid_t I) (id : pid_t) : Result I := ok_or (self !! id) ESRCH.
Definition Table_add {I} (self : gmap pid_t I) (id : pid_t) (item : I) : Result (gmap pid_t I) :=
  if bool_decide (is_Some (self !! id)) then Err EEXIST else Ok (<[id := item]> self).
Definition Table_del {I} (self : gmap pid_t I) (id : pid_t) : Result (I * gmap pid_t I) :=
  item ← ok_or (self !! id) ENOENT; Ok (item, delete id self).

Definition get_process (pid : pid_t) : PS ProcessRef := fun s => (Table_get (PROCESS_TABLE s) pid, s).
Definition get_pgrp (pgid : pid_t) : PS ProcessGrpRef := fun s => (Table_get (PROCESSGRP_TABLE s) pgid, s).

Definition add_process (process : ProcessRef) : PS unit :=
  p ← read_process process; s ← get;
  t ← lift (Table_add (PROCESS_TABLE s) (pr_pid p) process);
  modify (u_process_table (fun _ => t)).
Definition add_thread (thread : ThreadRef) : PS unit :=
  th ← read_thread thread; s ← get;
  t ← lift (Table_add (THREAD_TABLE s) (th_tid th) thread);
  modify (u_thread_table (fun _ => t)).
Definition add_pgrp (pgrp : ProcessGrpRef) : PS unit :=
  g ← read_pgrp pgrp; s ← get;
  t ← lift (Table_add (PROCESSGRP_TABLE s) (pg_pgid g) pgrp);
  modify (u_pgrp_table (fun _ => t)).
Definition del_process (pid : pid_t) : PS ProcessRef :=
  s ← get; '(r, t) ← lift (Table_del (PROCESS_TABLE s) pid);
  _ ← modify (u_process_table (fun _ => t)); ok r.
Definition del_thread (tid : pid_t) : PS ThreadRef :=
  s ← get; '(r, t) ← lift (Table_del (THREAD_TABLE s) tid);
  _ ← modify (u_thread_table (fun _ => t)); ok r.
Definition del_pgrp (pgid : pid_t) : PS ProcessGrpRef :=
  s ← get; '(r, t) ← lift (Table_del (PROCESSGRP_TABLE s) pgid);
  _ ← modify (u_pgrp_table (fun _ => t)); ok r.

(** * Process groups *)

Definition Process_pgrp (process : ProcessRef) : PS ProcessGrpRef :=
  p ← read_process process; lift (unwrap_option (pr_pgrp p)).
Definition update_pgrp (process : ProcessRef) (g : option ProcessGrpRef) : PS unit :=
  p ← read_process process; set_process process (set_pgrp_of p g).

Definition add_new_process (self : ProcessGrpRef) (process : ProcessRef) : PS unit :=
  g ← read_pgrp self; p ← read_process process;
  set_pgrp self (mkProcessGrp (pg_pgid g) (<[pr_pid p := process]> (pg_process_group g)) (pg_leader_process g)).

Definition ProcessGrp_new (process : ProcessRef) : PS ProcessGrpRef :=
  p ← read_process process;
  self ← new_address;
  _ ← set_pgrp self (mkProcessGrp (pr_pid p) {[pr_pid p := process]} (Some process));
  ok self.

Definition remove_process (self : ProcessGrpRef) (process : ProcessRef) : PS Z :=
  g ← read_pgrp self;
  p ← read_process process;
  let pgrp_process_num := size (pg_process_group g) in
  if (pgrp_process_num <? 1)%nat then fail_with EINVAL else
  leader_process_pid ← match pg_leader_process g with
                       | Some l => lp ← read_process l; ok (Some (pr_pid lp))
                       | None => ok None
                       end;
  _ ← if (pgrp_process_num =? 1)%nat then ignore (del_pgrp (pg_pgid g)) else ok tt;
  match pg_process_group g !! pr_pid p with
  | None => fail_with EINVAL
  | Some _ =>
      _ ← set_pgrp self (mkProcessGrp (pg_pgid g) (delete (pr_pid p) (pg_process_group g))
            (if bool_decide (leader_process_pid = Some (pr_pid p)) then None else pg_leader_process g));
      ok 0
  end.

Definition clean_pgrp_when_exit (process : ProcessRef) : PS unit :=
  pgrp_ref ← Process_pgrp process;
  _ ← ignore (remove_process pgrp_ref process);
  update_pgrp process None.

Definition current_pid (cur : ThreadRef) : PS pid_t :=
  t ← read_thread cur; p ← read_process (th_process t); ok (pr_pid p).

Definition do_getpgid (pid : pid_t) : PS pid_t :=
  process ← map_err ESRCH (get_process pid);
  g ← Process_pgrp process; grp ← read_pgrp g; ok (pg_pgid grp).

Definition do_setpgid (cur : ThreadRef) (pid pgid : pid_t) (is_executing : bool) : PS Z :=
  me ← current_pid cur;
  let pid := if pid =? 0 then me else pid in
  let pgid := if pgid =? 0 then pid else pgid in
  process ← get_process pid;
  target ← attempt (get_pgrp pgid);
  if negb (pgid =? pid) && is_err target then fail_with EPERM else
  if negb (me =? pid) && is_executing then fail_with EACCES else
  match target with
  | Ok pgrp =>
      pgrp_ref ← Process_pgrp process;
      _ ← ignore (remove_process pgrp_ref process);
      _ ← update_pgrp process (Some pgrp);
      _ ← add_new_process pgrp process;
      ok 0
  | _ =>
      _ ← if is_executing then
            pgrp_ref ← Process_pgrp process; ignore (remove_process pgrp_ref process)
          else ok tt;
      leader_process ← get_process pid;
      pgrp_ref ← ProcessGrp_new leader_process;
      _ ← update_pgrp process (Some pgrp_ref);
      _ ← ignore (add_pgrp pgrp_ref);
      ok 0
  end.

Definition ProcessInner_children (self : ProcessInner) : option (list ProcessRef) :=
  match self with Live _ children _ _ => Some children | Zombie _ => None end.

(** The system call [setpgid]; negative numbers are casts of an [i32]. *)
Definition syscall_setpgid (cur : ThreadRef) (pid pgid : Z) : PS Z :=
  if pgid <? 0 then fail_with EINVAL else
  let pid := pid mod 2 ^ 32 in
  me ← current_pid cur;
  s ← get;
  t ← read_thread cur;
  p ← read_process (th_process t);
  let is_child_of := match ProcessInner_children (pr_inner p) with
                     | Some children => bool_decide (Some pid ∈ (fun r => pr_pid <$> ps_processes s !! r) <$> children)
                     | None => false
                     end in
  if negb (pid =? 0) && negb (pid =? me) && negb is_child_of then fail_with ESRCH
  else do_setpgid cur pid pgid true.

(** [None] when the attribute is not given. *)
Definition get_spawn_attribute_pgrp (process_group : option pid_t) : PS (option pid_t) :=
  match process_group with
  | Some pgid =>
      target ← attempt (get_pgrp pgid);
      if negb (pgid =? 0) && is_err target then fail_with EPERM else ok (Some pgid)
  | None => ok None
  end.

Definition update_pgrp_for_new_process (new_process_ref : ProcessRef) (pgid : option pid_t) : PS unit :=
  match pgid with
  | Some pgid =>
      if pgid =? 0 then
        pgrp_ref ← ProcessGrp_new new_process_ref;
        _ ← update_pgrp new_process_ref (Some pgrp_ref);
        ignore (add_pgrp pgrp_ref)
      else
        pgrp ← unwrapM (get_pgrp pgid);
        _ ← update_pgrp new_process_ref (Some pgrp);
        add_new_process pgrp new_process_ref
  | None =>
      pgrp_ref ← Process_pgrp new_process_ref;
      add_new_process pgrp_ref new_process_ref
  end.

(** * Building threads and processes *)

(** [ThreadId::new]; a call that never returns is a panic of the model. *)
Definition ThreadId_new : PS Z :=
  s ← get;
  '(tid, ids) ← lift (unwrap_option (IdAlloc_alloc (THREAD_ID_ALLOC s)));
  _ ← modify (u_ids ids); ok tid.

Definition ThreadId_drop (tid : Z) : PS unit :=
  if tid =? 0 then ok tt
  else modify (fun s => u_ids (IdAlloc_free (THREAD_ID_ALLOC s) tid).2 s).

Definition ProcessInner_new : ProcessInner := Live Running [] [] [].

(** [eventfd] is what the host answers to the creation of the thread's event
    descriptor; on failure the identifier is dropped. *)
Definition ThreadBuilder_build (eventfd : Result unit) (tid : option Z) (process : ProcessRef)
    (clear_ctid : option Z) : PS ThreadRef :=
  tid ← match tid with Some tid => ok tid | None => ThreadId_new end;
  match eventfd with
  | Ok _ =>
      new_thread ← new_address;
      _ ← set_thread new_thread (mkThread tid clear_ctid TInit process);
      p ← read_process process;
      match pr_inner p with
      | Live status children waiting_children threads =>
          _ ← set_process process (set_inner p (Live status children waiting_children (threads ++ [new_thread])));
          ok new_thread
      | Zombie _ => panic
      end
  | Err e => _ ← ThreadId_drop tid; fail_with e
  | Panic => panic
  end.

Definition push_child (parent child : ProcessRef) : PS unit :=
  p ← read_process parent;
  match pr_inner p with
  | Live status children waiting_children threads =>
      set_process parent (set_inner p (Live status (children ++ [child]) waiting_children threads))
  | Zombie _ => panic
  end.

Definition ProcessBuilder_build (eventfd : Result unit) (tid : option Z) (parent : option ProcessRef)
    (no_parent : bool) (pgrp : ProcessGrpRef) : PS ProcessRef :=
  tid ← match tid with Some tid => ok tid | None => ThreadId_new end;
  if negb (Bool.eqb no_parent (bool_decide (parent = None))) then
    _ ← ThreadId_drop tid; fail_with EINVAL
  else
  new_process ← new_address;
  _ ← set_process new_process
        (mkProcess tid parent (Some pgrp) ProcessInner_new SigQueues_new ForcedExitStatus_new);
  main_thread ← ThreadBuilder_build eventfd (Some tid) new_process None;
  _ ← match parent with Some parent => push_child parent new_process | None => ok tt end;
  g ← read_pgrp pgrp;
  _ ← if negb (bool_decide (is_Some (pg_leader_process g))) && (pg_pgid g =? 0)
      then set_pgrp pgrp (mkProcessGrp tid (pg_process_group g) (Some new_process))
      else ok tt;
  ok new_process.

Definition empty_state : PState := mkPState ∅ ∅ ∅ ∅ 1 ∅ ∅ ∅ IdAlloc_new ∅ ∅ ∅ [].

Definition main_thread (self : ProcessRef) : PS (option ThreadRef) :=
  p ← read_process self;
  match pr_inner p with
  | Live _ _ _ (leader :: _) =>
      t ← read_thread leader;
      ok (if th_tid t =? pr_pid p then Some leader else None)
  | _ => ok None
  end.

Definition create_idle_thread (eventfd : Result unit) : PS ThreadRef :=
  dummy_pgrp ← new_address;
  _ ← set_pgrp dummy_pgrp (mkProcessGrp 0 ∅ None);
  idle_process ← ProcessBuilder_build eventfd (Some 0) None true dummy_pgrp;
  idle_thread ← main_thread idle_process;
  idle_thread ← lift (unwrap_option idle_thread);
  g ← Process_pgrp idle_process;
  _ ← ignore (add_pgrp g);
  ok idle_thread.

(** From the process group attribute to the new process in [new_process_common]:
    the ELF files, the memory and the open files of the process are built before. *)
Definition new_process_common (eventfd : Result unit) (cur : ThreadRef) (process_group : option pid_t)
    (reuse_tid : option Z) (parent_process : option ProcessRef) : PS ProcessRef :=
  t ← read_thread cur;
  let process_ref := th_process t in
  new_pgid ← get_spawn_attribute_pgrp process_group;
  pgrp_ref ← Process_pgrp process_ref;
  let parent := default process_ref parent_process in
  new_process ← ProcessBuilder_build eventfd reuse_tid (Some parent) false pgrp_ref;
  _ ← update_pgrp_for_new_process new_process new_pgid;
  ok new_process.

Definition new_process (eventfd : Result unit) (cur : ThreadRef) (process_group : option pid_t)
    : PS ProcessRef :=
  new_process_ref ← new_process_common eventfd cur process_group None None;
  _ ← ignore (add_process new_process_ref);
  main ← main_thread new_process_ref;
  main ← lift (unwrap_option main);
  _ ← ignore (add_thread main);
  ok new_process_ref.

Definition enqueue (new_thread : ThreadRef) : PS unit :=
  t ← read_thread new_thread;
  s ← get;
  _ ← modify (u_new_threads <[th_tid t := new_thread]>);
  if bool_decide (is_Some (NEW_THREAD_TABLE s !! th_tid t)) then panic else ok tt.

(** The host starts the thread; if it does not, the LibOS stops. *)
Definition enqueue_and_exec (new_thread : ThreadRef) : PS unit :=
  t ← read_thread new_thread;
  _ ← enqueue new_thread;
  log (ExecThreadAsync (th_tid t)).

Definition do_spawn_common (eventfd : Result unit) (cur : ThreadRef) (process_group : option pid_t)
    (exec_now : bool) : PS pid_t :=
  new_process_ref ← new_process eventfd cur process_group;
  main ← main_thread new_process_ref;
  new_main_thread ← lift (unwrap_option main);
  _ ← if exec_now then enqueue_and_exec new_main_thread else enqueue new_main_thread;
  p ← read_process new_process_ref; ok (pr_pid p).

Definition dequeue (libos_tid : pid_t) : PS ThreadRef :=
  s ← get;
  t ← lift (ok_or (NEW_THREAD_TABLE s !! libos_tid) ESRCH);
  _ ← modify (u_new_threads (delete libos_tid)); ok t.

(** The thread begins to run, unless it has been told to stop before. *)
Definition Thread_start (self : ThreadRef) : PS unit :=
  t ← read_thread self;
  _ ← log (SchedAttach (th_tid t));
  _ ← match th_inner t with
      | TToStop | TStopped => ok tt
      | _ => set_thread self (mkThread (th_tid t) (th_clear_ctid t) TRunning (th_process t))
      end;
  s ← get;
  _ ← modify (u_notifiers (fun n => {[th_tid t]} ∪ n));
  if bool_decide (th_tid t ∈ THREAD_NOTIFIERS s) then panic else ok tt.

(** [task::exec] up to the entry into user code. *)
Definition exec_task (libos_tid : pid_t) : PS ThreadRef :=
  this_thread ← dequeue libos_tid;
  _ ← Thread_start this_thread; ok this_thread.

(** ** [clone] *)

Abbreviation MANDATORY_FLAGS := (* VM, FS, FILES, SIGHAND, THREAD, SYSVSEM, SETTLS *)
  (Z.lor 0x100 (Z.lor 0x200 (Z.lor 0x400 (Z.lor 0x800 (Z.lor 0x10000 (Z.lor 0x40000 0x80000))))) : Z).
Abbreviation UNSUPPORTED_FLAGS := (* VFORK, NEWCGROUP, NEWIPC, NEWNET, NEWNS, NEWPID, NEWUSER, NEWUTS, PIDFD, PTRACE, UNTRACED *)
  (Z.lor 0x4000 (Z.lor 0x02000000 (Z.lor 0x08000000 (Z.lor 0x40000000 (Z.lor 0x20000 (Z.lor 0x20000000
  (Z.lor 0x10000000 (Z.lor 0x04000000 (Z.lor 0x1000 (Z.lor 0x2000 0x00800000))))))))) : Z).

Definition flags_contain (flags other : Z) : bool := Z.land flags other =? other.

Definition check_clone_flags (flags : Z) : Result unit :=
  if negb (flags_contain flags MANDATORY_FLAGS) then Err EINVAL
  else if flags_contain flags UNSUPPORTED_FLAGS then Err EINVAL
  else Ok tt.

Definition check_clone_args (flags : Z) (ptid ctid : option Z) : Result unit :=
  _ ← check_clone_flags flags;
  let need_ptid := flags_contain flags 0x00100000 in
  if negb (Bool.eqb need_ptid (bool_decide (is_Some ptid))) then Err EINVAL else
  let need_ctid := flags_contain flags 0x01000000 || flags_contain flags 0x00200000 in
  if negb (Bool.eqb need_ctid (bool_decide (is_Some ctid))) then Err EINVAL else Ok tt.

(** [task] is the outcome of finding the stack of the new thread and building
    its task. *)
Definition do_clone (eventfd : Result unit) (cur : ThreadRef) (flags : Z) (ptid ctid : option Z)
    (task : Result unit) : PS pid_t :=
  _ ← lift (check_clone_args flags ptid ctid);
  _ ← lift task;
  t ← read_thread cur;
  new_thread_ref ← ThreadBuilder_build eventfd None (th_process t) ctid;
  nt ← read_thread new_thread_ref;
  let new_tid := th_tid nt in
  _ ← ignore (add_thread new_thread_ref);
  _ ← if flags_contain flags 0x00100000
      then p ← lift (unwrap_option ptid); log (StoreUser p new_tid) else ok tt;
  _ ← if flags_contain flags 0x01000000
      then c ← lift (unwrap_option ctid); log (StoreUser c new_tid) else ok tt;
  _ ← enqueue_and_exec new_thread_ref;
  ok new_tid.

(** * Waiting for children *)

(** The position of the first waiter that [cond] accepts; it is marked as woken. *)
Fixpoint wake_position (cond : ProcessFilter -> Result (option pid_t)) (i : nat) (waiters : list WaiterRef)
    : PS (option (nat * Waiter)) :=
  match waiters with
  | [] => ok None
  | w :: waiters =>
      s ← get;
      waiter_inner ← lift (unwrap_option (ps_waiters s !! w));
      r ← lift (cond (wt_data waiter_inner));
      match r with
      | Some waiter_result =>
          _ ← modify (u_waiters <[w := mkWaiter (wt_thread waiter_inner) true (wt_data waiter_inner)
                                         (Some waiter_result)]>);
          ok (Some (i, waiter_inner))
      | None => wake_position cond (S i) waiters
      end
  end.

Definition del_and_wake_one_waiter (waiters : list WaiterRef) (cond : ProcessFilter -> Result (option pid_t))
    : PS (list WaiterRef) :=
  waiter_i ← wake_position cond O waiters;
  match waiter_i with
  | None => ok waiters
  | Some (del_waiter_i, del_waiter) =>
      _ ← log (SetEvent (wt_thread del_waiter));
      ok (swap_remove del_waiter_i waiters)
  end.

Definition del_and_wake_all_waiters (waiters : list WaiterRef) : PS (list WaiterRef) :=
  _ ← for_each (fun w =>
        s ← get;
        waiter_inner ← lift (unwrap_option (ps_waiters s !! w));
        _ ← modify (u_waiters <[w := mkWaiter (wt_thread waiter_inner) true (wt_data waiter_inner) None]>);
        log (SetEvent (wt_thread waiter_inner))) waiters;
  ok [].

(** Children of a vforking process that exit without [execve]. *)
Definition record_exit_child (parent_pid child_pid : pid_t) (child_exit_status : TermStatus) : PS unit :=
  modify (u_vforked (fun m =>
    <[parent_pid := default [] (m !! parent_pid) ++ [(child_pid, child_exit_status)]]> m)).

Definition wait4_exit_child_created_with_vfork (parent_pid : pid_t) (child_filter : ProcessFilter)
    : PS (option (pid_t * Z)) :=
  s ← get;
  match EXIT_CHILDREN_STATUS s !! parent_pid with
  | None => ok None
  | Some children =>
      unwaited_child_idx ←
        match child_filter, children with
        | WithAnyPid, _ => ok (position (fun _ => true) children)
        | WithPid pid, _ => ok (position (fun child : pid_t * TermStatus => pid =? child.1) children)
        | WithPgid _, [] => ok None
        | WithPgid _, _ :: _ => panic (* todo!() *)
        end;
      match unwaited_child_idx with
      | None => ok None
      | Some child_idx =>
          child ← lift (unwrap_option (children !! child_idx));
          let children := vec_remove child_idx children in
          _ ← modify (u_vforked (fun m =>
                match children with [] => delete parent_pid m | _ => <[parent_pid := children]> m end));
          ok (Some (child.1, TermStatus_as_u32 child.2))
      end
  end.

Definition reap_zombie_child_created_with_vfork (parent_pid : pid_t) : PS (option (list pid_t)) :=
  s ← get;
  _ ← modify (u_vforked (delete parent_pid));
  ok (option_map (map fst) (EXIT_CHILDREN_STATUS s !! parent_pid)).

Definition remove_zombie_child (self : ProcessRef) (zombie_pid : pid_t) : PS ProcessRef :=
  s ← get;
  p ← read_process self;
  match pr_inner p with
  | Zombie _ => panic
  | Live status children waiting_children threads =>
      zombie_i ← lift (unwrap_option
        (position (fun child => bool_decide (pr_pid <$> ps_processes s !! child = Some zombie_pid)) children));
      zombie ← lift (unwrap_option (children !! zombie_i));
      _ ← set_process self (set_inner p (Live status (swap_remove zombie_i children) waiting_children threads));
      ok zombie
  end.

Definition free_zombie_child (parent : ProcessRef) (zombie_pid : pid_t) : PS Z :=
  _ ← unwrapM (del_thread zombie_pid);
  _ ← unwrapM (del_process zombie_pid);
  zombie ← remove_zombie_child parent zombie_pid;
  _ ← clean_pgrp_when_exit zombie;
  z ← read_process zombie;
  match pr_inner z with
  | Zombie term_status => ok (TermStatus_as_u32 term_status)
  | Live _ _ _ _ => panic
  end.

Definition is_zombie (s : PState) (r : ProcessRef) : bool :=
  match pr_inner <$> ps_processes s !! r with Some (Zombie _) => true | _ => false end.

(** The filter of [wait4], on the waiting side and on the exiting side. *)
Definition filter_matches (s : PState) (child_filter : ProcessFilter) (child : ProcessRef) : Result bool :=
  p ← unwrap_option (ps_processes s !! child);
  match child_filter with
  | WithAnyPid => Ok true
  | WithPid required_pid => Ok (pr_pid p =? required_pid)
  | WithPgid required_pgid =>
      g ← unwrap_option (pr_pgrp p);
      grp ← unwrap_option (ps_pgrps s !! g);
      Ok (pg_pgid grp =? required_pgid)
  end.

Fixpoint filter_result {A} (f : A -> Result bool) (l : list A) : Result (list A) :=
  match l with
  | [] => Ok []
  | x :: l => b ← f x; l' ← filter_result f l; Ok (if b : bool then x :: l' else l')
  end.

Inductive WaitOutcome := Answer (pid : pid_t) (exit_status : Z) | Asleep (waiter : WaiterRef).

Abbreviation WNOHANG := (0x1 : Z).

(** [do_wait4] up to its return or to the sleep, with the lock of the process. *)
Definition do_wait4 (cur : ThreadRef) (child_filter : ProcessFilter) (options : Z) : PS WaitOutcome :=
  s ← get;
  thread ← read_thread cur;
  let process := th_process thread in
  p ← read_process process;
  match pr_inner p with
  | Zombie _ => panic
  | Live status children waiting_children threads =>
      unwaited_children ← lift (filter_result (filter_matches s child_filter) children);
      match List.find (is_zombie s) unwaited_children with
      | Some zombie_child =>
          z ← read_process zombie_child;
          let zombie_pid := pr_pid z in
          exit_status ← free_zombie_child process zombie_pid;
          ok (Answer zombie_pid exit_status)
      | None =>
          child_status ← wait4_exit_child_created_with_vfork (pr_pid p) child_filter;
          match child_status with
          | Some (pid, exit_status) => ok (Answer pid exit_status)
          | None =>
              if (length unwaited_children =? 0)%nat then fail_with ECHILD
              else if flags_contain options WNOHANG then ok (Answer 0 0)
              else
                waiter ← new_address;
                _ ← modify (u_waiters <[waiter := mkWaiter cur false child_filter None]>);
                _ ← set_process process
                      (set_inner p (Live status children (waiting_children ++ [waiter]) threads));
                ok (Asleep waiter)
          end
      end
  end.

(** [do_wait4] from the end of the sleep on: the waiter has been woken. *)
Definition do_wait4_woken (cur : ThreadRef) (waiter : WaiterRef) : PS (pid_t * Z) :=
  s ← get;
  thread ← read_thread cur;
  waiter_inner ← lift (unwrap_option (ps_waiters s !! waiter));
  match wt_result waiter_inner with
  | Some zombie_pid =>
      exit_status ← free_zombie_child (th_process thread) zombie_pid;
      ok (zombie_pid, exit_status)
  | None => fail_with EINTR
  end.

(** The filter of the system call [wait4] from its [i32] argument. *)
Definition wait4_filter (cur : ThreadRef) (pid : Z) : PS ProcessFilter :=
  if pid <? -1 then ok (WithPgid ((- pid) mod 2 ^ 32))
  else if pid =? -1 then ok WithAnyPid
  else if pid =? 0 then
    t ← read_thread cur; g ← Process_pgrp (th_process t); grp ← read_pgrp g; ok (WithPgid (pg_pgid grp))
  else ok (WithPid pid).

(** The system call; [exit_status_ptr] is the outcome of the check of the pointer. *)
Definition syscall_wait4 (cur : ThreadRef) (exit_status_ptr : Result unit) (pid options : Z) : PS WaitOutcome :=
  _ ← lift exit_status_ptr;
  child_process_filter ← wait4_filter cur pid;
  if negb (Z.ldiff options 0xf =? 0) then fail_with EINVAL
  else do_wait4 cur child_process_filter options.

(** The loop of [idle_reap_zombie_children]; a round removes a child. *)
Fixpoint reap_loop (fuel : nat) (zombie_pids : list pid_t) : PS (list pid_t) :=
  match fuel with
  | O => panic
  | S fuel =>
      s ← get;
      idle ← read_process IDLE;
      children ← lift (unwrap_option (ProcessInner_children (pr_inner idle)));
      match List.find (is_zombie s) children with
      | Some zombie_child =>
          z ← read_process zombie_child;
          _ ← free_zombie_child IDLE (pr_pid z);
          reap_loop fuel (zombie_pids ++ [pr_pid z])
      | None => ok zombie_pids
      end
  end.

Definition idle_reap_zombie_children : PS (list pid_t) :=
  idle ← read_process IDLE;
  children ← lift (unwrap_option (ProcessInner_children (pr_inner idle)));
  reap_loop (S (length children)) [].

(** * Exit *)

Definition Thread_exit (self : ThreadRef) (term_status : TermStatus) : PS nat :=
  t ← read_thread self;
  s ← get;
  _ ← if bool_decide (th_tid t ∈ THREAD_NOTIFIERS s) then ok tt else panic;
  _ ← modify (u_notifiers (fun n => n ∖ {[th_tid t]}));
  _ ← log (SchedDetach (th_tid t));
  p ← read_process (th_process t);
  match pr_inner p with
  | Zombie _ => panic
  | Live status children waiting_children threads =>
      thread_i ← lift (unwrap_option
        (position (fun u => bool_decide (th_tid <$> ps_threads s !! u = Some (th_tid t))) threads));
      let threads := swap_remove thread_i threads in
      _ ← set_process (th_process t) (set_inner p (Live status children waiting_children threads));
      _ ← set_thread self (mkThread (th_tid t) (th_clear_ctid t) (TExited term_status) (th_process t));
      ok (length threads)
  end.

(** [ProcessInner::exit]: the children go to the new parent. *)
Definition ProcessInner_exit (self : ProcessRef) (term_status : TermStatus) (new_parent_ref : ProcessRef)
    : PS unit :=
  p ← read_process self;
  children ← lift (unwrap_option (ProcessInner_children (pr_inner p)));
  _ ← for_each (fun child =>
        c ← read_process child;
        _ ← lift (unwrap_option (pr_parent c));
        _ ← set_process child (set_parent c new_parent_ref);
        push_child new_parent_ref child) children;
  p ← read_process self;
  set_process self (set_inner p (Zombie term_status)).

Definition send_sigchld_to (parent : ProcessRef) : PS unit :=
  p ← read_process parent;
  '(q, _) ← lift (SigQueues_enqueue (pr_sig_queues p) (mkSignal SIGCHLD 0));
  set_process parent (set_queues_of p q).

Definition exit_process (thread : ThreadRef) (term_status : TermStatus) : PS unit :=
  t ← read_thread thread;
  let process := th_process t in
  p ← read_process process;
  let pid := pr_pid p in
  parent ← lift (unwrap_option (pr_parent p));
  pp ← read_process parent;
  _ ← log (FreeChunksWhenExit pid);
  _ ← log (DetachShmWhenProcessExit pid);
  if pr_pid pp =? 0 then
    _ ← unwrapM (del_thread pid);
    _ ← unwrapM (del_process pid);
    _ ← clean_pgrp_when_exit process;
    _ ← ProcessInner_exit process term_status IDLE;
    _ ← reap_zombie_child_created_with_vfork pid;
    _ ← remove_zombie_child IDLE pid;
    ok tt
  else
    _ ← ProcessInner_exit process term_status IDLE;
    _ ← reap_zombie_child_created_with_vfork pid;
    _ ← send_sigchld_to parent;
    pp ← read_process parent;
    match pr_inner pp with
    | Zombie _ => panic
    | Live status children waiting_children threads =>
        s ← get;
        waiting_children ← del_and_wake_one_waiter waiting_children (fun waiter_data =>
          b ← filter_matches s waiter_data process; Ok (if b : bool then Some pid else None));
        pp ← read_process parent;
        set_process parent (set_inner pp (Live status children waiting_children threads))
    end.

Definition exit_thread (cur : ThreadRef) (term_status : TermStatus) : PS unit :=
  t ← read_thread cur;
  match th_inner t with
  | TExited _ => ok tt
  | _ =>
      num_remaining_threads ← Thread_exit cur term_status;
      _ ← match th_clear_ctid t with
          | Some ctid_ptr =>
              _ ← log (StoreUser ctid_ptr 0); log (FutexWake (UserFutex ctid_ptr) 1)
          | None => ok tt
          end;
      t ← read_thread cur;
      _ ← set_thread cur (mkThread (th_tid t) None (th_inner t) (th_process t));
      _ ← log (WakeRobustList (th_tid t));
      p ← read_process (th_process t);
      _ ← if negb (th_tid t =? pr_pid p) then _ ← unwrapM (del_thread (th_tid t)); ok tt else ok tt;
      _ ← if (num_remaining_threads =? 0)%nat then
            _ ← log (CloseAllFiles (pr_pid p)); exit_process cur term_status
          else ok tt;
      log (FutexWake (ProcessFutex (th_process t)) 1)
  end.

Definition do_exit (cur : ThreadRef) (status : Z) : PS unit := exit_thread cur (Exited (status mod 2 ^ 8)).

(** [exit_group] of a process that is not the child of a [vfork]. *)
Definition do_exit_group (cur : ThreadRef) (status : Z) : PS Z :=
  let term_status := Exited (status mod 2 ^ 8) in
  t ← read_thread cur;
  p ← read_process (th_process t);
  let p := set_forced p (force_exit (pr_forced_exit_status p) term_status) in
  _ ← set_process (th_process t) p;
  match pr_inner p with
  | Zombie _ => panic
  | Live lstatus children waiting_children threads =>
      waiting_children ← del_and_wake_all_waiters waiting_children;
      _ ← set_process (th_process t) (set_inner p (Live lstatus children waiting_children threads));
      _ ← exit_thread cur term_status;
      ok 0
  end.

Definition handle_force_exit (cur : ThreadRef) : PS unit :=
  t ← read_thread cur;
  p ← read_process (th_process t);
  if fe_exited (pr_forced_exit_status p)
  then term_status ← lift (unwrap_option (fe_status (pr_forced_exit_status p))); exit_thread cur term_status
  else ok tt.

(** ** [execve] of a process that is not the child of a [vfork] *)

Definition exit_process_for_execve (thread : ThreadRef) (new_parent_ref : ProcessRef)
    (term_status : TermStatus) : PS unit :=
  t ← read_thread thread;
  let process := th_process t in
  p ← read_process process;
  parent ← lift (unwrap_option (pr_parent p));
  pp ← read_process parent;
  _ ← log (FreeChunksWhenExit (pr_pid p));
  _ ← ProcessInner_exit process term_status new_parent_ref;
  _ ← remove_zombie_child (if pr_pid pp =? 0 then IDLE else parent) (pr_pid p);
  ok tt.

Definition exit_old_process_for_execve (cur : ThreadRef) (term_status : TermStatus)
    (new_parent_ref : ProcessRef) : PS unit :=
  _ ← Thread_exit cur term_status;
  t ← read_thread cur;
  p ← read_process (th_process t);
  _ ← if negb (th_tid t =? pr_pid p) then _ ← unwrapM (del_thread (th_tid t)); ok tt else ok tt;
  exit_process_for_execve cur new_parent_ref term_status.

(** A [ThreadId] with the number of the process is made and dropped at the end. *)
Definition new_process_for_exec (eventfd : Result unit) (cur : ThreadRef) (reuse_tid : option Z)
    (parent_process : option ProcessRef) : PS ProcessRef :=
  tid ← current_pid cur;
  new_process_ref ← attempt (new_process_common eventfd cur None reuse_tid parent_process);
  _ ← ThreadId_drop tid;
  lift new_process_ref.

(** [do_exec] up to the wait for the other threads of the process. *)
Definition do_exec (eventfd : Result unit) (cur : ThreadRef) : PS ProcessRef :=
  t ← read_thread cur;
  p ← read_process (th_process t);
  parent ← lift (unwrap_option (pr_parent p));
  new_process_ref ← new_process_for_exec eventfd cur (Some (pr_pid p)) (Some parent);
  main ← main_thread new_process_ref;
  _ ← lift (unwrap_option main);
  p ← read_process (th_process t);
  _ ← set_process (th_process t) (set_forced p (force_exit (pr_forced_exit_status p) (Exited 0)));
  _ ← log BroadcastInterrupts;
  ok new_process_ref.

(** [do_exec] from the exit of the last other thread on. *)
Definition do_exec_alone (cur : ThreadRef) (new_process_ref : ProcessRef) : PS Z :=
  main ← main_thread new_process_ref;
  new_main_thread ← lift (unwrap_option main);
  _ ← exit_old_process_for_execve cur (Exited 0) new_process_ref;
  np ← read_process new_process_ref;
  _ ← ignore (del_process (pr_pid np));
  _ ← ignore (add_process new_process_ref);
  main ← main_thread new_process_ref;
  main ← lift (unwrap_option main);
  _ ← ignore (del_thread (pr_pid np));
  _ ← ignore (add_thread main);
  _ ← enqueue_and_exec new_main_thread;
  ok 0.
