(* ===== verification/ProcessTree.v ===== *)
(** The invariants of the process tables, one per aspect: the tree of processes,
    the process groups, the threads. Each is about the part of the objects it
    needs, and comes with the changes the system calls make to it. *)

From stdpp Require Import base list gmap numbers.
From S2P Require Import Prelude Errno Effects SigSet SigQueues TermStatus Process.

(** * [swap_remove] *)

Lemma swap_remove_perm {A} (l : list A) i x :
  l !! i = Some x -> l ≡ₚ x :: swap_remove i l.
Proof.
  intros Hi. unfold swap_remove. destruct (list.last l) as [z|] eqn:Hl; [|by apply last_None in Hl as ->].
  apply last_Some in Hl as [l' ->].
  rewrite length_app. simpl. replace (length l' + 1 - 1)%nat with (length l') by lia.
  destruct (decide (i < length l')%nat) as [Hlt|Hge].
  - rewrite lookup_app_l in Hi by done. rewrite insert_app_l, take_app_length' by (rewrite ?length_insert; lia).
    destruct (list_lookup_split l' i x Hi) as (l1 & l2 & -> & <-).
    rewrite list_insert_middle, <- app_assoc. solve_Permutation.
  - pose proof (lookup_lt_Some _ _ _ Hi) as Hb. rewrite length_app in Hb. simpl in Hb.
    assert (i = length l') as -> by lia.
    rewrite lookup_app_r, Nat.sub_diag in Hi by done. injection Hi as ->.
    rewrite insert_app_r_alt, Nat.sub_diag, take_app_length by done.
    apply Permutation_sym, Permutation_cons_append.
Qed.

(** * The tree *)

Record Node := mkNode { nd_pid : Z; nd_parent : option positive; nd_children : option (list positive) }.

Definition node (p : Process) : Node := mkNode (pr_pid p) (pr_parent p) (ProcessInner_children (pr_inner p)).

Section tree.
Implicit Types (P : gmap positive Node) (T : gmap Z positive).

(** The processes of the table, and the idle process. *)
Definition listed T (r : positive) : Prop := exists pid, T !! pid = Some r.
Definition present T (r : positive) : Prop := r = IDLE \/ listed T r.

Definition kids P (r : positive) : option (list positive) := P !! r ≫= nd_children.
Definition parent P (r : positive) : option positive := P !! r ≫= nd_parent.

Record tree_ok P T : Prop := {
  tr_idle : exists cs, P !! IDLE = Some (mkNode 0 None (Some cs));
  tr_table : forall pid r, T !! pid = Some r ->
    0 < pid /\ nd_pid <$> P !! r = Some pid /\
    exists par, parent P r = Some par /\ present T par /\ is_Some (kids P par) /\ (par < r)%positive;
  tr_kids : forall r cs, present T r -> kids P r = Some cs ->
    NoDup cs /\ forall c, c ∈ cs <-> listed T c /\ parent P c = Some r;
}.

Lemma kids_insert P r n x : kids (<[r := n]> P) x = if decide (x = r) then nd_children n else kids P x.
Proof. unfold kids. case_decide; [subst; by rewrite lookup_insert_eq|by rewrite lookup_insert_ne]. Qed.

Lemma parent_insert P r n x : parent (<[r := n]> P) x = if decide (x = r) then nd_parent n else parent P x.
Proof. unfold parent. case_decide; [subst; by rewrite lookup_insert_eq|by rewrite lookup_insert_ne]. Qed.

Lemma listed_insert T pid r x : T !! pid = None -> listed (<[pid := r]> T) x <-> listed T x \/ x = r.
Proof.
  intros HN. split.
  - intros [q Hq]. apply lookup_insert_Some in Hq as [[_ <-]|[_ Hq]]; [by right|left; by exists q].
  - intros [[q Hq]| ->]; [exists q; rewrite lookup_insert_ne; congruence|exists pid; apply lookup_insert_eq].
Qed.

Section ok.
Variables (P : gmap positive Node) (T : gmap Z positive).
Hypothesis Hok : tree_ok P T.

(** Distinct identifiers of the table are distinct processes. *)
Lemma table_inj pid pid' r : T !! pid = Some r -> T !! pid' = Some r -> pid = pid'.
Proof.
  intros H1%(tr_table _ _ Hok) H2%(tr_table _ _ Hok). destruct H1 as (_ & H1 & _), H2 as (_ & H2 & _). congruence.
Qed.

Lemma idle_not_listed : ~ listed T IDLE.
Proof.
  intros [pid Hp]. destruct (tr_table _ _ Hok _ _ Hp) as (Hpos & Hpid & _), (tr_idle _ _ Hok) as [cs Hi].
  rewrite Hi in Hpid. simpl in Hpid. simplify_eq. lia.
Qed.

Lemma listed_stored r : listed T r -> is_Some (P !! r).
Proof. intros [pid Hp]. destruct (tr_table _ _ Hok _ _ Hp) as (_ & Hpid & _). by destruct (P !! r). Qed.

Lemma present_stored r : present T r -> is_Some (P !! r).
Proof. intros [->|H]; [|by apply listed_stored]. destruct (tr_idle _ _ Hok) as [cs ->]. by eexists. Qed.

Lemma listed_delete pid r x : T !! pid = Some r -> listed (delete pid T) x <-> listed T x /\ x <> r.
Proof.
  intros Hr. split.
  - intros [q Hq]. apply lookup_delete_Some in Hq as [Hne Hq]. split; [by exists q|]. intros ->.
    by apply Hne, (table_inj pid q r).
  - intros [[q Hq] Hne]. exists q. rewrite lookup_delete_ne; congruence.
Qed.

(** A process that no table lists is not part of the tree. *)
Lemma tree_unlisted r n : ~ present T r -> tree_ok (<[r := n]> P) T.
Proof.
  intros Hr. assert (Hne : forall x, present T x -> x <> r) by (intros x Hx ->; done).
  split.
  - rewrite lookup_insert_ne by (symmetry; apply Hne; by left). apply Hok.
  - intros pid x Hx. destruct (tr_table _ _ Hok _ _ Hx) as (Hpos & Hpid & par & Hpar & Hpp & Hk & Hlt).
    assert (x <> r) by (apply Hne; right; by exists pid). pose proof (Hne _ Hpp).
    rewrite lookup_insert_ne by done. split_and!; [done..|]. exists par.
    rewrite parent_insert, kids_insert, !decide_False by done. done.
  - intros x cs Hx. rewrite kids_insert, decide_False by eauto. intros Hcs.
    destruct (tr_kids _ _ Hok _ _ Hx Hcs) as [Hnd Hc]. split; [done|]. intros c. rewrite Hc, parent_insert.
    case_decide; [|done]. subst. split; intros [? _]; destruct Hr; by right.
Qed.

Lemma parent_present c r : listed T c -> parent P c = Some r ->
  present T r /\ is_Some (kids P r) /\ (r < c)%positive.
Proof.
  intros [pid Hc] Hr. destruct (tr_table _ _ Hok _ _ Hc) as (_ & _ & par & Hpar & ? & ? & ?).
  rewrite Hr in Hpar. by simplify_eq.
Qed.

Lemma idle_first r : listed T r -> (IDLE < r)%positive.
Proof.
  intros Hl. assert (r <> IDLE) by (intros ->; by apply idle_not_listed). destruct Hl as [pid Hp].
  destruct (tr_table _ _ Hok _ _ Hp) as (_ & _ & par & _ & _ & _ & ?). unfold IDLE in *. lia.
Qed.

(** A leaf enters the table under a live parent. *)
Section add.
Variables (r par : positive) (pid : Z) (n : Node) (cs : list positive).
Hypotheses (Hr : ~ present T r) (Hpid : T !! pid = None) (Hpos : 0 < pid) (Hlt : (par < r)%positive)
  (HPr : P !! r = Some (mkNode pid (Some par) (Some []))) (Hpar : present T par) (Hn : P !! par = Some n)
  (Hcs : nd_children n = Some cs).

Abbreviation P' := (<[par := mkNode (nd_pid n) (nd_parent n) (Some (cs ++ [r]))]> P) (only parsing).
Abbreviation T' := (<[pid := r]> T) (only parsing).

Lemma add_parent x : parent P' x = parent P x.
Proof. rewrite parent_insert. case_decide; [|done]. subst. unfold parent. by rewrite Hn. Qed.

Lemma add_listed x : listed T' x <-> listed T x \/ x = r.
Proof. by apply listed_insert. Qed.

Lemma add_kids x cx : present T' x -> kids P' x = Some cx ->
  NoDup cx /\ forall c, c ∈ cx <-> listed T' c /\ parent P' c = Some x.
Proof.
  intros Hx Hk. setoid_rewrite add_listed. setoid_rewrite add_parent. rewrite kids_insert in Hk.
  unfold present in Hx. rewrite add_listed in Hx. simpl in Hk.
  assert (Hprr : parent P r = Some par) by (unfold parent; by rewrite HPr).
  assert (HTr : ~ listed T r) by (intros ?; apply Hr; by right).
  destruct (decide (x = r)) as [->|Hxr].
  { rewrite decide_False in Hk by lia. unfold kids in Hk. rewrite HPr in Hk. simplify_eq/=.
    split; [apply NoDup_nil_2|]. intros c. rewrite elem_of_nil. split; [done|]. intros [[Hc| ->] Hp]; [|simplify_eq; lia].
    by apply Hr, (parent_present c). }
  assert (Hx' : present T x) by (destruct Hx as [|[|]]; [by left|by right|done]). clear Hx.
  case_decide as Hxp; [subst x; injection Hk as <-|].
  - destruct (tr_kids _ _ Hok par cs Hx') as [Hnd Hc]; [unfold kids; by rewrite Hn|]. split.
    + apply list.NoDup_app. split_and!; [done| |apply NoDup_singleton]. intros c Hin ->%list_elem_of_singleton.
      apply Hc in Hin. tauto.
    + intros c. rewrite elem_of_app, list_elem_of_singleton, Hc. split; [|tauto]. intros [| ->]; tauto.
  - destruct (tr_kids _ _ Hok _ _ Hx' Hk) as [Hnd Hc]. split; [done|]. intros c. rewrite Hc.
    split; [tauto|]. intros [[| ->] ?]; [tauto|congruence].
Qed.

Lemma tree_add : tree_ok P' T'.
Proof.
  split; [| |exact add_kids].
  - destruct (tr_idle _ _ Hok) as [cs0 Hi]. destruct (decide (par = IDLE)) as [->|Hne].
    + rewrite lookup_insert_eq. simplify_eq. simpl. by eexists.
    + rewrite lookup_insert_ne by done. by eexists.
  - intros q x Hx. setoid_rewrite add_parent. setoid_rewrite kids_insert. unfold present. setoid_rewrite add_listed.
    assert (Hsome : forall y, is_Some (kids P y) -> is_Some (if decide (y = par) then Some (cs ++ [r]) else kids P y))
      by (intros y Hy; case_decide; [by eexists|done]).
    apply lookup_insert_Some in Hx as [[<- <-]|[Hne Hx]].
    + rewrite lookup_insert_ne by lia. rewrite HPr. split_and!; [done..|]. exists par. unfold parent. rewrite HPr.
      split_and!; [done|destruct Hpar; tauto| |done]. apply Hsome. unfold kids. rewrite Hn; simpl; by rewrite Hcs.
    + destruct (tr_table _ _ Hok _ _ Hx) as (Hq & Hqx & px & Hpx & Hpp & Hk & Hltx). split_and!; [done| |].
      * destruct (decide (x = par)) as [->|]; [rewrite lookup_insert_eq; by rewrite Hn in Hqx|by rewrite lookup_insert_ne].
      * exists px. split_and!; [done|destruct Hpp; tauto|by apply Hsome|done].
Qed.

End add.

(** A process without children leaves the table and the list of its parent. *)
Lemma tree_reap r pid par n cs cs' :
  T !! pid = Some r -> kids P r = None -> present T par -> P !! par = Some n -> nd_children n = Some cs ->
  cs ≡ₚ r :: cs' ->
  tree_ok (<[par := mkNode (nd_pid n) (nd_parent n) (Some cs')]> P) (delete pid T).
Proof.
  intros Hr Hz Hpar Hn Hcs Hperm.
  assert (Hpr : forall x, parent (<[par := mkNode (nd_pid n) (nd_parent n) (Some cs')]> P) x = parent P x).
  { intros x. rewrite parent_insert. case_decide; [|done]. subst. unfold parent. by rewrite Hn. }
  assert (Hkp : kids P par = Some cs) by (unfold kids; by rewrite Hn).
  assert (Hpne : par <> r) by congruence.
  destruct (tr_kids _ _ Hok _ _ Hpar Hkp) as [Hnd Hc]. rewrite Hperm in Hnd. apply list.NoDup_cons in Hnd as [Hnin Hnd].
  setoid_rewrite Hperm in Hc. setoid_rewrite elem_of_cons in Hc.
  split.
  - destruct (tr_idle _ _ Hok) as [cs0 Hi]. destruct (decide (par = IDLE)) as [->|Hne].
    + rewrite lookup_insert_eq. simplify_eq. simpl. by eexists.
    + rewrite lookup_insert_ne by done. by eexists.
  - intros q x [Hne Hx]%lookup_delete_Some. setoid_rewrite Hpr. setoid_rewrite kids_insert. unfold present.
    setoid_rewrite (listed_delete pid r); [|done].
    destruct (tr_table _ _ Hok _ _ Hx) as (Hq & Hqx & px & Hpx & Hpp & Hk & Hltx). split_and!; [done| |].
    + destruct (decide (x = par)) as [->|]; [rewrite lookup_insert_eq; by rewrite Hn in Hqx|by rewrite lookup_insert_ne].
    + exists px. assert (px <> r) by (intros ->; rewrite Hz in Hk; by destruct Hk).
      split_and!; [done|destruct Hpp; tauto|by case_decide|done].
  - intros x cx Hx Hk. rewrite kids_insert in Hk. setoid_rewrite Hpr. unfold present in Hx.
    rewrite (listed_delete pid r) in Hx by done. setoid_rewrite (listed_delete pid r); [|done].
    assert (Hx' : present T x) by (destruct Hx as [|[]]; [by left|by right]). case_decide as Hxp; simplify_eq/=.
    + split; [done|]. intros c. split.
      * intros Hin. specialize (Hc c). split_and!; [tauto| |tauto]. by intros ->.
      * intros [[Hl Hne] Hp]. destruct (Hc c) as [_ [|]]; [done| |]; done.
    + destruct (tr_kids _ _ Hok _ _ Hx' Hk) as [Hnd' Hc']. split; [done|]. intros c. rewrite Hc'.
      split; [|tauto]. intros [Hl Hp]. split_and!; [done| |done]. intros ->.
      assert (parent P r = Some par) by (by apply Hc; left). congruence.
Qed.

(** A process becomes a zombie; the idle process adopts its children. *)
Lemma tree_exit r n cs nI csI P' :
  listed T r -> P !! r = Some n -> nd_children n = Some cs -> P !! IDLE = Some nI -> nd_children nI = Some csI ->
  (forall x, P' !! x =
     if decide (x = r) then Some (mkNode (nd_pid n) (nd_parent n) None)
     else if decide (x = IDLE) then Some (mkNode (nd_pid nI) (nd_parent nI) (Some (csI ++ cs)))
     else if decide (x ∈ cs) then (fun m => mkNode (nd_pid m) (Some IDLE) (nd_children m)) <$> P !! x
     else P !! x) ->
  tree_ok P' T.
Proof.
  intros Hr Hn Hcs HI HcI HP'.
  pose proof idle_not_listed as HnI. assert (HrI : r <> IDLE) by (intros ->; done).
  assert (Hkr : kids P r = Some cs) by (unfold kids; by rewrite Hn).
  assert (HkI : kids P IDLE = Some csI) by (unfold kids; by rewrite HI).
  destruct (tr_kids _ _ Hok r cs) as [Hnd Hc]; [by right|done|].
  destruct (tr_kids _ _ Hok IDLE csI) as [HndI HcsI]; [by left|done|].
  assert (Hpid : forall x, nd_pid <$> P' !! x = nd_pid <$> P !! x).
  { intros x. rewrite HP'. repeat case_decide; subst; rewrite ?Hn, ?HI; try done. by destruct (P !! x). }
  assert (Hpar : forall x, listed T x -> parent P' x = if decide (x ∈ cs) then Some IDLE else parent P x).
  { intros x Hx. unfold parent. rewrite HP'. destruct (decide (x = r)) as [->|].
    - rewrite decide_False, Hn; [done|]. intros Hin%Hc. destruct (parent_present r r) as (_ & _ & ?); [tauto..|lia].
    - rewrite decide_False by (intros ->; done). case_decide; [|done].
      destruct (listed_stored x Hx) as [m ->]. done. }
  assert (Hk : forall x, present T x -> kids P' x = if decide (x = r) then None else
    if decide (x = IDLE) then Some (csI ++ cs) else kids P x).
  { intros x Hx. unfold kids. rewrite HP'. repeat case_decide; try done. by destruct (P !! x). }
  split.
  - destruct (tr_idle _ _ Hok) as [cs0 Hi]. rewrite HP', decide_False, decide_True by done. simplify_eq. simpl. by eexists.
  - intros q x Hx. destruct (tr_table _ _ Hok _ _ Hx) as (Hq & Hqx & px & Hpx & Hpp & Hkx & Hltx).
    assert (Hlx : listed T x) by (by exists q). rewrite Hpid, Hpar by done. split_and!; [done..|].
    case_decide as Hin.
    + exists IDLE. split_and!; [done|by left|rewrite Hk, decide_False, decide_True by (done || by left); by eexists|by apply idle_first].
    + exists px. assert (px <> r) by (intros ->; apply Hin, Hc; by split).
      split_and!; [done..| |done]. rewrite Hk, decide_False by done. by case_decide; [eexists|].
  - intros x cx Hx Hkx. rewrite Hk in Hkx by done. case_decide as Hxr; [done|]. case_decide as HxI; simplify_eq.
    + split.
      * apply list.NoDup_app. split_and!; [done| |done]. intros c Hi%HcsI Hi'%Hc. destruct Hi, Hi'. congruence.
      * intros c. rewrite elem_of_app, HcsI, Hc. split.
        -- intros [[Hl Hp]|[Hl Hp]]; (split; [done|]); rewrite Hpar by done; case_decide as Hin; try done. destruct Hin. by apply Hc.
        -- intros [Hl Hp]. rewrite Hpar in Hp by done. case_decide as Hin; [right; by apply Hc|by left].
    + destruct (tr_kids _ _ Hok _ _ Hx Hkx) as [Hnd' Hc']. split; [done|]. intros c. rewrite Hc'. split.
      * intros [Hl Hp]. split; [done|]. rewrite Hpar by done. case_decide as Hin; [|done]. apply Hc in Hin as [_ ?]. congruence.
      * intros [Hl Hp]. rewrite Hpar in Hp by done. case_decide; [congruence|done].
Qed.

End ok.
End tree.

(** * Groups *)

(** What the groups need of a process: its identifier and its group. *)
Definition member (p : Process) : Z * option positive := (pr_pid p, pr_pgrp p).

Section groups.
Implicit Types (P : gmap positive (Z * option positive)) (T : gmap Z positive)
  (G : gmap positive ProcessGrp) (GT : gmap Z positive).

Definition group_of P (r : positive) : option positive := P !! r ≫= snd.

Record groups_ok P T G GT : Prop := {
  gr_idle : exists g, group_of P IDLE = Some g /\ is_Some (G !! g);
  gr_group : forall pid r, T !! pid = Some r ->
    exists g grp, group_of P r = Some g /\ G !! g = Some grp /\ pg_process_group grp !! pid = Some r;
  gr_members : forall g grp pid r, G !! g = Some grp -> pg_process_group grp !! pid = Some r ->
    T !! pid = Some r /\ group_of P r = Some g;
  gr_leader : forall g grp l, G !! g = Some grp -> pg_leader_process grp = Some l -> is_Some (P !! l);
  gr_table : forall id g, GT !! id = Some g -> exists grp, G !! g = Some grp /\ pg_pgid grp = id;
}.

Lemma group_of_insert P r m x : group_of (<[r := m]> P) x = if decide (x = r) then m.2 else group_of P x.
Proof. unfold group_of. case_decide; [subst; by rewrite lookup_insert_eq|by rewrite lookup_insert_ne]. Qed.

Section ok.
Variables (P : gmap positive (Z * option positive)) (T : gmap Z positive) (G : gmap positive ProcessGrp)
  (GT : gmap Z positive).
Hypothesis Hok : groups_ok P T G GT.

(** A process that is not listed is in no group. *)
Lemma groups_unlisted r m : ~ present T r -> groups_ok (<[r := m]> P) T G GT.
Proof.
  intros Hr. assert (Hne : forall pid x, T !! pid = Some x -> x <> r) by (intros pid x Hx ->; apply Hr; right; by exists pid).
  split.
  - rewrite group_of_insert, decide_False by (intros <-; apply Hr; by left). apply Hok.
  - intros pid x Hx. rewrite group_of_insert, decide_False by eauto. by apply Hok.
  - intros g grp pid x Hg Hx. destruct (gr_members _ _ _ _ Hok _ _ _ _ Hg Hx). split; [done|].
    rewrite group_of_insert, decide_False by eauto. done.
  - intros g grp l Hg Hl. apply lookup_insert_is_Some'. right. by eapply gr_leader.
  - apply Hok.
Qed.

(** A new group without members. *)
Lemma groups_new g id : G !! g = None -> groups_ok P T (<[g := mkProcessGrp id ∅ None]> G) GT.
Proof.
  intros HN. assert (Hne : forall x grp, G !! x = Some grp -> (<[g := mkProcessGrp id ∅ None]> G) !! x = Some grp)
    by (intros x grp Hx; rewrite lookup_insert_ne; congruence).
  split.
  - destruct (gr_idle _ _ _ _ Hok) as (x & Hx & [grp Hg]). exists x. split; [done|]. eexists. by apply Hne.
  - intros pid r Hr. destruct (gr_group _ _ _ _ Hok _ _ Hr) as (x & grp & ? & ? & ?). exists x, grp. auto.
  - intros x grp pid r [[<- <-]|[_ Hx]]%lookup_insert_Some Hr; [simpl in Hr; by rewrite lookup_empty in Hr|]. by eapply gr_members.
  - intros x grp l [[<- <-]|[_ Hx]]%lookup_insert_Some Hl; [done|]. by eapply gr_leader.
  - intros i x Hx. destruct (gr_table _ _ _ _ Hok _ _ Hx) as (grp & ? & ?). exists grp. auto.
Qed.

(** A process enters the table and a group. *)
Lemma groups_join r pid g grp leader :
  T !! pid = None -> r <> IDLE -> ~ listed T r -> G !! g = Some grp ->
  (forall l, leader = Some l -> l = r \/ is_Some (P !! l)) ->
  groups_ok (<[r := (pid, Some g)]> P) (<[pid := r]> T)
    (<[g := mkProcessGrp (pg_pgid grp) (<[pid := r]> (pg_process_group grp)) leader]> G) GT.
Proof.
  intros Hpid HrI Hr Hg Hl.
  assert (Hne : forall q x, T !! q = Some x -> x <> r) by (intros q x Hx ->; apply Hr; by exists q).
  assert (Hfree : forall x gx, G !! x = Some gx -> pg_process_group gx !! pid = None).
  { intros x gx Hx. destruct (pg_process_group gx !! pid) eqn:E; [|done].
    destruct (gr_members _ _ _ _ Hok _ _ _ _ Hx E). congruence. }
  split.
  - rewrite group_of_insert, decide_False by done. destruct (gr_idle _ _ _ _ Hok) as (x & Hx & Hs). exists x.
    split; [done|]. apply lookup_insert_is_Some'. by right.
  - intros q x [[<- <-]|[Hq Hx]]%lookup_insert_Some.
    + rewrite group_of_insert, decide_True by done. eexists _, _. rewrite !lookup_insert_eq. split_and!; [done..|].
      simpl. apply lookup_insert_eq.
    + rewrite group_of_insert, decide_False by eauto. destruct (gr_group _ _ _ _ Hok _ _ Hx) as (y & gy & ? & Hy & ?).
      destruct (decide (y = g)) as [->|]; [|exists y, gy; by rewrite lookup_insert_ne].
      simplify_eq. eexists g, _. rewrite lookup_insert_eq. split_and!; [done..|]. simpl. by rewrite lookup_insert_ne.
  - assert (Hold : forall y gy q x, G !! y = Some gy -> pg_process_group gy !! q = Some x ->
      <[pid := r]> T !! q = Some x /\ group_of (<[r := (pid, Some g)]> P) x = Some y).
    { intros y gy q x Hy Hx. destruct (gr_members _ _ _ _ Hok _ _ _ _ Hy Hx) as [HT Hgr].
      rewrite lookup_insert_ne by congruence. rewrite group_of_insert, decide_False by eauto. done. }
    intros y gy q x [[<- <-]|[_ Hy]]%lookup_insert_Some; simpl; [|eauto].
    intros [[<- <-]|[_ Hx]]%lookup_insert_Some; [|eauto]. rewrite lookup_insert_eq, group_of_insert, decide_True by done. done.
  - intros y gy l Hy Hlead. apply lookup_insert_is_Some'. apply lookup_insert_Some in Hy as [[<- <-]|[_ Hy]]; simpl in Hlead.
    + destruct (Hl _ Hlead); [by left|by right].
    + right. by eapply gr_leader.
  - intros i y Hy. destruct (gr_table _ _ _ _ Hok _ _ Hy) as (gy & Hgy & <-).
    destruct (decide (y = g)) as [->|]; [|exists gy; by rewrite lookup_insert_ne]. simplify_eq.
    eexists. by rewrite lookup_insert_eq.
Qed.

(** A process leaves the table and its group. *)
Lemma groups_leave r pid g grp leader GT' :
  T !! pid = Some r -> (forall q, T !! q = Some r -> q = pid) -> r <> IDLE ->
  group_of P r = Some g -> G !! g = Some grp ->
  (leader = None \/ leader = pg_leader_process grp) -> GT' ⊆ GT ->
  groups_ok P (delete pid T)
    (<[g := mkProcessGrp (pg_pgid grp) (delete pid (pg_process_group grp)) leader]> G) GT'.
Proof.
  intros Hr Hinj HrI Hgr Hg Hl HGT.
  assert (Hrg : pg_process_group grp !! pid = Some r).
  { destruct (gr_group _ _ _ _ Hok _ _ Hr) as (y & gy & ? & ? & ?). by simplify_eq. }
  split.
  - destruct (gr_idle _ _ _ _ Hok) as (x & Hx & Hs). exists x. split; [done|]. apply lookup_insert_is_Some'. by right.
  - intros q x [Hq Hx]%lookup_delete_Some. destruct (gr_group _ _ _ _ Hok _ _ Hx) as (y & gy & ? & Hy & ?).
    destruct (decide (y = g)) as [->|]; [|exists y, gy; by rewrite lookup_insert_ne].
    simplify_eq. eexists g, _. rewrite lookup_insert_eq. split_and!; [done..|]. simpl. by rewrite lookup_delete_ne.
  - intros y gy q x [[<- <-]|[Hyg Hy]]%lookup_insert_Some; simpl.
    + intros [Hq Hx]%lookup_delete_Some. destruct (gr_members _ _ _ _ Hok _ _ _ _ Hg Hx). by rewrite lookup_delete_ne.
    + intros Hx. destruct (gr_members _ _ _ _ Hok _ _ _ _ Hy Hx). rewrite lookup_delete_ne; [done|]. intros <-. by simplify_eq.
  - intros y gy l Hy Hlead. apply lookup_insert_Some in Hy as [[<- <-]|[_ Hy]]; [|by eapply gr_leader]. simpl in Hlead.
    destruct Hl as [-> | ->]; [done|]. by eapply gr_leader.
  - intros i y Hy. destruct (gr_table _ _ _ _ Hok i y) as (gy & Hgy & <-); [by eapply lookup_weaken|].
    destruct (decide (y = g)) as [->|]; [|exists gy; by rewrite lookup_insert_ne]. simplify_eq.
    eexists. by rewrite lookup_insert_eq.
Qed.

Lemma groups_register g grp : G !! g = Some grp -> groups_ok P T G (<[pg_pgid grp := g]> GT).
Proof.
  intros Hg. split; try apply Hok. intros i y [[<- <-]|[_ Hy]]%lookup_insert_Some; [by exists grp|by apply Hok].
Qed.

End ok.
End groups.

(** * Threads *)

(** What the threads need of a process: the list of its threads while it lives. *)
Definition threads_in (p : Process) : option (list positive) :=
  match pr_inner p with Live _ _ _ threads => Some threads | Zombie _ => None end.

Section threads.
Implicit Types (H : gmap positive (option (list positive))) (Th : gmap positive Thread)
  (T TT NW : gmap Z positive) (N U : gset Z).

Definition threads_of H (r : positive) : option (list positive) := mjoin (H !! r).

Definition in_process H (t : positive) (th : Thread) : Prop :=
  exists ts, threads_of H (th_process th) = Some ts /\ t ∈ ts.

(** A thread that a process lists has not exited. *)
Definition alive (th : Thread) : Prop := th_inner th = TInit \/ th_inner th = TRunning.

(** A thread of the table is new and waits for the host to run it, runs, or is
    the main thread of a process and has exited. *)
Record thread_ok H T TT N NW U (t : positive) (th : Thread) : Prop := {
  tk_table : TT !! th_tid th = Some t;
  tk_process : listed T (th_process th);
  tk_id : 0 < th_tid th /\ th_tid th ∈ U;
  tk_inner : match th_inner th with
    | TInit | TRunning => in_process H t th
    | TExited _ => T !! th_tid th = Some (th_process th)
    | _ => False
    end;
  tk_notifier : th_tid th ∈ N <-> th_inner th = TRunning;
  tk_new : NW !! th_tid th = match th_inner th with TInit => Some t | _ => None end;
}.

Record threads_ok H Th T TT N NW U : Prop := {
  td_list : forall r ts, listed T r -> threads_of H r = Some ts ->
    ts <> [] /\ NoDup ts /\ forall t, t ∈ ts -> exists th, Th !! t = Some th /\ th_process th = r /\ TT !! th_tid th = Some t /\ alive th;
  td_main : forall pid r, T !! pid = Some r ->
    exists t th, TT !! pid = Some t /\ Th !! t = Some th /\ th_process th = r;
  td_table : forall tid t, TT !! tid = Some t -> exists th, Th !! t = Some th /\ th_tid th = tid /\ thread_ok H T TT N NW U t th;
  td_notifiers : forall tid, tid ∈ N -> is_Some (TT !! tid);
  td_pending : forall tid t, NW !! tid = Some t -> is_Some (TT !! tid);
}.

Lemma threads_of_insert H r o x : threads_of (<[r := o]> H) x = if decide (x = r) then o else threads_of H x.
Proof. unfold threads_of. case_decide; [subst; by rewrite lookup_insert_eq|by rewrite lookup_insert_ne]. Qed.

Section ok.
Variables (H : gmap positive (option (list positive))) (Th : gmap positive Thread)
  (T TT NW : gmap Z positive) (N U : gset Z).
Hypothesis Hok : threads_ok H Th T TT N NW U.

Lemma thread_at tid t th : TT !! tid = Some t -> Th !! t = Some th -> th_tid th = tid /\ thread_ok H T TT N NW U t th.
Proof. intros Ht Hth. destruct (td_table _ _ _ _ _ _ _ Hok _ _ Ht) as (th' & ? & ? & ?). by simplify_eq. Qed.

(** A thread keeps its place in other tables that say the same about it. *)
Lemma thread_ok_mono H' T' TT' N' NW' U' t th :
  thread_ok H T TT N NW U t th -> TT' !! th_tid th = Some t -> listed T' (th_process th) -> th_tid th ∈ U' ->
  (in_process H t th -> in_process H' t th) ->
  (T !! th_tid th = Some (th_process th) -> T' !! th_tid th = Some (th_process th)) ->
  (th_tid th ∈ N' <-> th_tid th ∈ N) -> NW' !! th_tid th = NW !! th_tid th ->
  thread_ok H' T' TT' N' NW' U' t th.
Proof.
  intros [? ? [? ?] Hi HN HNW] ? ? ? Hp Hx HN' HNW'. split; try done.
  - destruct (th_inner th); try done; auto.
  - by rewrite HN'.
  - by rewrite HNW'.
Qed.

(** Processes that no table lists. *)
Lemma threads_unlisted r o : ~ listed T r -> threads_ok (<[r := o]> H) Th T TT N NW U.
Proof.
  intros Hr. assert (Hsame : forall x, listed T x -> threads_of (<[r := o]> H) x = threads_of H x)
    by (intros x Hx; rewrite threads_of_insert, decide_False by (intros ->; done); done).
  destruct Hok as [Hl Hm Ht Hn Hp]. split; [|done| |done..].
  - intros x ts Hx. rewrite Hsame by done. by apply Hl.
  - intros tid t Htt. destruct (Ht _ _ Htt) as (th & ? & ? & Hk). exists th. split_and!; [done..|].
    apply (thread_ok_mono _ _ _ _ _ _ _ _ Hk); try done; try apply Hk.
    unfold in_process. rewrite Hsame; [done|apply Hk].
Qed.

(** A new thread of a process, with a fresh identifier; the process may be new
    too, and then takes the identifier of the thread. *)
Section add.
Variables (r t : positive) (tid : Z) (ctid : option Z) (ts : list positive) (T' : gmap Z positive).
Hypotheses (Hth : Th !! t = None) (Htid : TT !! tid = None) (Hpos : 0 < tid)
  (Hr : T' = T /\ listed T r /\ threads_of H r = Some ts \/ ~ listed T r /\ T !! tid = None /\ T' = <[tid := r]> T /\ ts = []).

Abbreviation H' := (<[r := Some (ts ++ [t])]> H) (only parsing).
Abbreviation Th' := (<[t := mkThread tid ctid TInit r]> Th) (only parsing).
Abbreviation TT' := (<[tid := t]> TT) (only parsing).

Lemma add_T q x : T !! q = Some x -> T' !! q = Some x.
Proof. intros Hq. destruct Hr as [(-> & _)|(Hnl & HN & -> & _)]; [done|]. rewrite lookup_insert_ne; congruence. Qed.

Lemma add_old u th : Th !! u = Some th -> TT !! th_tid th = Some u -> Th' !! u = Some th /\ TT' !! th_tid th = Some u.
Proof. intros Hu Htu. split; (rewrite lookup_insert_ne; congruence). Qed.

Lemma add_list x tx : listed T' x -> threads_of H' x = Some tx ->
  tx <> [] /\ NoDup tx /\ forall u, u ∈ tx -> exists th, Th' !! u = Some th /\ th_process th = x /\ TT' !! th_tid th = Some u /\ alive th.
Proof.
  intros Hx. pose proof (td_list _ _ _ _ _ _ _ Hok) as Hl. rewrite threads_of_insert. case_decide as Hxr.
  - intros [= <-]. subst x.
    assert (Hin : NoDup ts /\ forall u, u ∈ ts -> exists th, Th !! u = Some th /\ th_process th = r /\ TT !! th_tid th = Some u /\ alive th).
    { destruct Hr as [(_ & ? & Hts)|(_ & _ & _ & ->)]; [by apply Hl|]. split; [apply NoDup_nil_2|]. intros u []%not_elem_of_nil. }
    destruct Hin as [Hnd Hin]. split_and!; [by destruct ts| |].
    + apply list.NoDup_app. split_and!; [done| |apply NoDup_singleton].
      intros u Hu ->%list_elem_of_singleton. destruct (Hin _ Hu) as (? & ? & _); congruence.
    + intros u [Hu| ->%list_elem_of_singleton]%elem_of_app.
      * destruct (Hin _ Hu) as (th & ? & ? & ? & ?). exists th. destruct (add_old u th) as [-> ->]; done.
      * eexists. rewrite lookup_insert_eq. split_and!; [done..|simpl; apply lookup_insert_eq|by left].
  - intros Htx. assert (Hlx : listed T x).
    { destruct Hr as [(E & _)|(_ & HN & E & _)]; rewrite E in Hx; [done|]. by apply listed_insert in Hx as [|]. }
    destruct (Hl _ _ Hlx Htx) as (? & ? & Ht'). split_and!; [done..|].
    intros u Hu. destruct (Ht' _ Hu) as (th & ? & ? & ? & ?). exists th. destruct (add_old u th) as [-> ->]; done.
Qed.

Lemma add_in_process u th : listed T (th_process th) -> in_process H u th -> in_process H' u th.
Proof.
  intros Hl (tx & Htx & Hu). unfold in_process. rewrite threads_of_insert. case_decide as Hpr; [|by exists tx].
  eexists. split; [done|]. destruct Hr as [(_ & _ & Hts)|(Hnl & _)]; [|destruct Hnl; by rewrite <- Hpr].
  rewrite Hpr, Hts in Htx. simplify_eq. apply elem_of_app. by left.
Qed.

Lemma threads_add : threads_ok H' Th' T' TT' N (<[tid := t]> NW) ({[tid]} ∪ U).
Proof.
  pose proof Hok as [Hl Hm Ht Hn Hp]. assert (HtidN : tid ∉ N) by (intros [? ?]%Hn; congruence).
  split; [exact add_list| | | |].
  - intros q x Hq. assert (Hcase : T !! q = Some x \/ q = tid /\ x = r).
    { destruct Hr as [(E & _)|(_ & _ & E & _)]; rewrite E in Hq; [by left|]. apply lookup_insert_Some in Hq. naive_solver. }
    destruct Hcase as [Hq'|[-> ->]]; [|eexists t, _; by rewrite !lookup_insert_eq].
    destruct (Hm _ _ Hq') as (u & th & Hu & ? & ?). exists u, th. rewrite !lookup_insert_ne; [done|congruence..].
  - intros q u [[<- <-]|[Hne Hu]]%lookup_insert_Some.
    + eexists. rewrite lookup_insert_eq. split_and!; [done..|]. split; simpl; try done.
      * apply lookup_insert_eq.
      * destruct Hr as [(-> & ? & _)|(_ & _ & -> & _)]; [done|]. exists tid. apply lookup_insert_eq.
      * split; [done|set_solver].
      * exists (ts ++ [t]). rewrite threads_of_insert, decide_True by done. split; [done|]. apply elem_of_app. right. by left.
      * apply lookup_insert_eq.
    + destruct (Ht _ _ Hu) as (th & Hth' & <- & Hk). exists th. rewrite lookup_insert_ne by congruence. split_and!; [done..|].
      apply (thread_ok_mono _ _ _ _ _ _ _ _ Hk).
      * by rewrite lookup_insert_ne.
      * destruct (tk_process _ _ _ _ _ _ _ _ Hk) as [pq Hpq]. exists pq. by apply add_T.
      * destruct Hk as [_ _ [? ?] _ _ _]. set_solver.
      * apply add_in_process, Hk.
      * apply add_T.
      * done.
      * by rewrite lookup_insert_ne.
  - intros q Hq. apply lookup_insert_is_Some'. right. by apply Hn.
  - intros q u [[<- <-]|[Hne Hu]]%lookup_insert_Some; apply lookup_insert_is_Some'; [by left|right; by eapply Hp].
Qed.

End add.

(** A new thread begins to run. *)
Lemma threads_start t th :
  TT !! th_tid th = Some t -> Th !! t = Some th -> th_inner th = TInit ->
  threads_ok H (<[t := mkThread (th_tid th) (th_clear_ctid th) TRunning (th_process th)]> Th) T TT
    ({[th_tid th]} ∪ N) (delete (th_tid th) NW) U.
Proof.
  intros Htt Hth Hi. destruct (thread_at _ _ _ Htt Hth) as [_ Hk].
  assert (Hinj : forall q u thu, TT !! q = Some u -> Th !! u = Some thu -> u <> t -> th_tid thu <> th_tid th).
  { intros q u thu Hu Hthu Hne Heq. destruct (thread_at _ _ _ Hu Hthu). congruence. }
  pose proof Hok as [Hl Hm Ht Hn Hp].
  assert (Hst : forall u thu, Th !! u = Some thu -> exists thu', <[t := mkThread (th_tid th) (th_clear_ctid th) TRunning (th_process th)]> Th !! u = Some thu' /\ th_process thu' = th_process thu /\ th_tid thu' = th_tid thu /\ (alive thu -> alive thu')).
  { intros u thu Hu. destruct (decide (u = t)) as [->|]; [rewrite lookup_insert_eq; simplify_eq; eexists; split_and!; try done; by right|].
    rewrite lookup_insert_ne by done. by exists thu. }
  split.
  - intros r ts Hr Hts. destruct (Hl _ _ Hr Hts) as (? & ? & Hin). split_and!; [done..|]. intros u Hu.
    destruct (Hin _ Hu) as (thu & Hthu & <- & ? & Hal). destruct (Hst _ _ Hthu) as (thu' & ? & ? & Htid & Hal'). exists thu'. rewrite Htid. auto.
  - intros pid r Hr. destruct (Hm _ _ Hr) as (u & thu & ? & Hthu & <-). destruct (Hst _ _ Hthu) as (thu' & ? & ? & ? & _). by exists u, thu'.
  - intros q u Hu. destruct (decide (u = t)) as [->|Hne].
    + destruct (Ht _ _ Hu) as (th' & ? & Hq & _). simplify_eq. eexists. rewrite lookup_insert_eq. split_and!; [done..|].
      destruct Hk as [? ? ? Hin _ _]. rewrite Hi in Hin. split; simpl; try done; [set_solver|by rewrite lookup_delete_eq].
    + destruct (Ht _ _ Hu) as (thu & Hthu & <- & Hku). exists thu. rewrite lookup_insert_ne by done. split_and!; [done..|].
      pose proof (Hinj _ _ _ Hu Hthu Hne). apply (thread_ok_mono _ _ _ _ _ _ _ _ Hku); try done; try apply Hku.
      * set_solver.
      * by rewrite lookup_delete_ne.
  - intros q [Hq%elem_of_singleton|Hq]%elem_of_union; [subst; by rewrite Htt|by apply Hn].
  - intros q u [_ Hu]%lookup_delete_Some. by eapply Hp.
Qed.

(** A running thread exits. The process keeps the other threads, or is a zombie
    when there is none. A main thread stays in the table. *)
Section exit.
Variables (t : positive) (th : Thread) (ts ts' : list positive) (ctid : option Z) (st : TermStatus) (pid : Z).
Hypotheses (Htt : TT !! th_tid th = Some t) (Hth : Th !! t = Some th) (Hi : th_inner th = TRunning)
  (Hts : threads_of H (th_process th) = Some ts) (Hperm : ts ≡ₚ t :: ts') (Hpid : T !! pid = Some (th_process th))
  (Hinj : forall q, T !! q = Some (th_process th) -> q = pid).

Abbreviation H' := (<[th_process th := match ts' with [] => None | _ => Some ts' end]> H) (only parsing).
Abbreviation Th' := (<[t := mkThread (th_tid th) ctid (TExited st) (th_process th)]> Th) (only parsing).
Abbreviation TT' := (if th_tid th =? pid then TT else delete (th_tid th) TT) (only parsing).

Lemma exit_TT q u : TT !! q = Some u -> u <> t -> TT' !! q = Some u.
Proof. intros Hq Hne. destruct (Z.eqb_spec (th_tid th) pid); [done|]. rewrite lookup_delete_ne; congruence. Qed.

Lemma exit_TT_inv q u : TT' !! q = Some u -> TT !! q = Some u /\ (u = t -> th_tid th = pid).
Proof.
  destruct (Z.eqb_spec (th_tid th) pid); [done|]. intros [Hne Hq]%lookup_delete_Some. split; [done|]. intros ->.
  destruct (thread_at _ _ _ Hq Hth). congruence.
Qed.

Lemma exit_list r tr : listed T r -> threads_of H' r = Some tr ->
  tr <> [] /\ NoDup tr /\ forall u, u ∈ tr -> exists thu, Th' !! u = Some thu /\ th_process thu = r /\ TT' !! th_tid thu = Some u /\ alive thu.
Proof.
  pose proof (td_list _ _ _ _ _ _ _ Hok) as Hl. intros Hr. rewrite threads_of_insert.
  destruct (Hl _ _ (ex_intro _ pid Hpid) Hts) as (_ & Hnd & Hin). rewrite Hperm in Hnd. apply list.NoDup_cons in Hnd as [Hnin Hnd].
  case_decide as Hrp; [subst r|].
  - intros Htr. assert (ts' <> [] /\ tr = ts') as [Hne ->] by (destruct ts'; by simplify_eq). split_and!; [done..|].
    intros u Hu. destruct (Hin u) as (thu & ? & ? & ? & ?); [rewrite Hperm; by right|]. exists thu.
    assert (u <> t) by congruence. rewrite lookup_insert_ne by done. split_and!; [done..|by apply exit_TT|done].
  - intros Htr. destruct (Hl _ _ Hr Htr) as (? & ? & Hin'). split_and!; [done..|]. intros u Hu.
    destruct (Hin' _ Hu) as (thu & ? & ? & ? & ?). exists thu. assert (u <> t) by congruence.
    rewrite lookup_insert_ne by done. split_and!; [done..|by apply exit_TT|done].
Qed.

Lemma exit_in_process u thu : Th !! u = Some thu -> u <> t -> in_process H u thu -> in_process H' u thu.
Proof.
  intros Hu Hne (tx & Htx & Hin). unfold in_process. rewrite threads_of_insert. case_decide as Hp; [|by exists tx].
  rewrite Hp, Hts in Htx. simplify_eq. rewrite Hperm in Hin. apply elem_of_cons in Hin as [|Hin]; [done|].
  exists ts'. split; [|done]. destruct ts'; [by apply not_elem_of_nil in Hin|done].
Qed.

Lemma threads_exit : threads_ok H' Th' T TT' (N ∖ {[th_tid th]}) NW U.
Proof.
  pose proof Hok as [_ Hm Ht Hn Hp]. destruct (thread_at _ _ _ Htt Hth) as [_ Hk].
  split; [exact exit_list| | | |].
  - intros q r Hq. destruct (Hm _ _ Hq) as (u & thu & Hu & Hthu & <-). destruct (decide (u = t)) as [->|Hne].
    + simplify_eq. destruct (thread_at _ _ _ Hu Hth) as [Htid _]. pose proof (Hinj _ Hq) as ->.
      eexists t, _. rewrite Htid, Z.eqb_refl, lookup_insert_eq. done.
    + exists u, thu. rewrite lookup_insert_ne by done. split_and!; [by apply exit_TT|done..].
  - intros q u Hu. apply exit_TT_inv in Hu as [Hu Hut]. destruct (decide (u = t)) as [->|Hne].
    + destruct (thread_at _ _ _ Hu Hth) as [<- _]. eexists. rewrite lookup_insert_eq. split_and!; [done..|].
      pose proof (Hut eq_refl) as Heq. destruct (Z.eqb_spec (th_tid th) pid) as [_|]; [|done].
      destruct Hk as [? ? ? _ _ HNW]. rewrite Hi in HNW. split; simpl; try done; [by rewrite Heq|set_solver].
    + destruct (Ht _ _ Hu) as (thu & Hthu & <- & Hku). exists thu. rewrite lookup_insert_ne by done. split_and!; [done..|].
      assert (th_tid thu <> th_tid th) by congruence.
      apply (thread_ok_mono _ _ _ _ _ _ _ _ Hku); try done; try apply Hku.
      * by apply exit_TT.
      * by apply exit_in_process.
      * set_solver.
  - intros q [Hq Hne]%elem_of_difference. destruct (Hn _ Hq) as [u Hu]. exists u. apply exit_TT; [done|]. intros ->.
    destruct (thread_at _ _ _ Hu Hth). set_solver.
  - intros q u Hu. destruct (Hp _ _ Hu) as [v Hv]. exists v. apply exit_TT; [done|]. intros ->.
    destruct (thread_at _ _ _ Hv Hth) as [<- _]. destruct Hk as [_ _ _ _ _ HNW]. rewrite Hi in HNW. congruence.
Qed.

End exit.

(** A zombie leaves the tables. *)
Lemma threads_reap r pid :
  T !! pid = Some r -> (forall q, T !! q = Some r -> q = pid) -> threads_of H r = None ->
  threads_ok H Th (delete pid T) (delete pid TT) N NW U.
Proof.
  intros Hr Hinj Hz. pose proof Hok as [Hl Hm Ht Hn Hp].
  assert (Hlist : forall x, listed (delete pid T) x <-> listed T x /\ x <> r).
  { intros x. split.
    - intros [q [Hq Hx]%lookup_delete_Some]. split; [by exists q|]. intros ->. apply Hq. symmetry. by apply Hinj.
    - intros [[q Hq] Hne]. exists q. rewrite lookup_delete_ne; congruence. }
  assert (Hkeep : forall q u th, TT !! q = Some u -> Th !! u = Some th -> th_process th <> r -> q <> pid).
  { intros q u th Hu Hth Hne ->. destruct (Hm _ _ Hr) as (v & thv & ? & ? & ?). congruence. }
  assert (Hgone : forall q u th, TT !! q = Some u -> Th !! u = Some th -> q <> pid -> th_process th <> r).
  { intros q u th Hu Hth Hne Hpr. destruct (thread_at _ _ _ Hu Hth) as [Hq Hk].
    destruct Hk as [_ _ _ Hi _ _]. unfold in_process in Hi. rewrite Hpr, Hz in Hi.
    destruct (th_inner th); try (by destruct Hi as (? & ? & _)); [|done..]. rewrite Hq in Hi. by apply Hne, Hinj. }
  assert (Hmain : forall u th, TT !! pid = Some u -> Th !! u = Some th -> th_inner th <> TRunning /\ th_inner th <> TInit).
  { intros u th Hu Hth. destruct (Hm _ _ Hr) as (v & thv & Hv & Hthv & Hpv). simplify_eq. destruct (thread_at _ _ _ Hu Hth) as [_ Hk].
    destruct Hk as [_ _ _ Hi _ _]. unfold in_process in Hi. rewrite Hz in Hi. split; intros E; rewrite E in Hi; by destruct Hi as (? & ? & _). }
  split.
  - intros x ts Hx Hts. apply Hlist in Hx as [Hx Hne]. destruct (Hl _ _ Hx Hts) as (? & ? & Hin). split_and!; [done..|].
    intros u Hu. destruct (Hin _ Hu) as (th & ? & <- & ? & ?). exists th. split_and!; [done..| |done]. rewrite lookup_delete_ne; [done|]. symmetry. by eapply Hkeep.
  - intros q x [Hq Hx]%lookup_delete_Some. destruct (Hm _ _ Hx) as (u & th & ? & ? & ?). exists u, th. by rewrite lookup_delete_ne.
  - intros q u [Hq Hu]%lookup_delete_Some. destruct (Ht _ _ Hu) as (th & Hth & <- & Hk). exists th. split_and!; [done..|].
    apply (thread_ok_mono _ _ _ _ _ _ _ _ Hk); try done; try apply Hk.
    + by rewrite lookup_delete_ne.
    + apply Hlist. split; [apply Hk|]. by eapply Hgone.
    + by rewrite lookup_delete_ne.
  - intros q Hq. destruct (Hn _ Hq) as [u Hu]. exists u. rewrite lookup_delete_ne; [done|]. intros <-.
    destruct (Ht _ _ Hu) as (th & Hth & Htid & Hk). destruct (Hmain _ _ Hu Hth) as [Hr' _]. apply Hr', Hk. by rewrite Htid.
  - intros q v Hv. destruct (Hp _ _ Hv) as [u Hu]. exists u. rewrite lookup_delete_ne; [done|]. intros <-.
    destruct (Ht _ _ Hu) as (th & Hth & <- & Hk). destruct (Hmain _ _ Hu Hth) as [_ Hr']. destruct Hk as [_ _ _ _ _ HNW]. rewrite Hv in HNW. by destruct (th_inner th).
Qed.

(** An identifier that no table has is given back. *)
Lemma threads_drop tid : TT !! tid = None -> threads_ok H Th T TT N NW (U ∖ {[tid]}).
Proof.
  intros Hn. pose proof Hok as [? ? Ht ? ?]. split; [done|done| |done..]. intros q u Hu.
  destruct (Ht _ _ Hu) as (th & ? & ? & Hk). exists th. split_and!; [done..|].
  apply (thread_ok_mono _ _ _ _ _ _ _ _ Hk); try done; try apply Hk.
  destruct Hk as [? _ [_ ?] _ _ _]. assert (th_tid th <> tid) by congruence. set_solver.
Qed.

End ok.
End threads.
