(* ===== verification/ProcessFacts.v ===== *)
(** The invariant of the process tables and what the functions of [Process] do to
    it: allocation of identifiers, spawning, threads, reaping, exit, groups. *)

From stdpp Require Import base list gmap numbers.
From S2P Require Import Prelude Errno Effects SigSet SigQueues TermStatus Process ProcessTree.

(** * Identifiers *)

Definition MAX_ID : Z := 2 ^ 32 - 1.

(** The identifier tried in round [i]. *)
Definition candidate (next : Z) (i : nat) : Z := (next + Z.of_nat i) mod MAX_ID + 1.

Lemma candidate_range next i : 1 <= candidate next i <= MAX_ID.
Proof. unfold candidate. pose proof (Z.mod_pos_bound (next + Z.of_nat i) MAX_ID). unfold MAX_ID in *. lia. Qed.

Lemma candidate_first next : 0 <= next <= MAX_ID ->
  (if (next + 1) mod 2 ^ 32 =? 0 then 1 else (next + 1) mod 2 ^ 32) = candidate next 0.
Proof.
  intros Hn. unfold candidate. rewrite Z.add_0_r. destruct (decide (next = MAX_ID)) as [->|].
  - reflexivity.
  - unfold MAX_ID in *. rewrite !Z.mod_small by lia. destruct (Z.eqb_spec (next + 1) 0); lia.
Qed.

Lemma candidate_next next i : candidate (candidate next 0) i = candidate next (S i).
Proof.
  unfold candidate. f_equal. rewrite Z.add_0_r, <- Z.add_assoc, Z.add_mod_idemp_l by done. f_equal. lia.
Qed.

Lemma candidate_inj next i j : Z.of_nat i < MAX_ID -> Z.of_nat j < MAX_ID -> candidate next i = candidate next j -> i = j.
Proof.
  unfold candidate. intros Hi Hj Heq.
  assert (Hm : (next + Z.of_nat i) mod MAX_ID = (next + Z.of_nat j) mod MAX_ID) by lia.
  rewrite !(Z.mod_eq _ MAX_ID) in Hm by done.
  assert (Z.of_nat i - Z.of_nat j = MAX_ID * ((next + Z.of_nat i) / MAX_ID - (next + Z.of_nat j) / MAX_ID)) by lia.
  unfold MAX_ID in *. nia.
Qed.

Lemma alloc_loop_spec fuel next used : 0 <= next <= MAX_ID ->
  match alloc_loop fuel next used with
  | Some id => exists i, (i < fuel)%nat /\ id = candidate next i /\ (id ∉ used) /\
      (forall j, (j < i)%nat -> candidate next j ∈ used)
  | None => forall j, (j < fuel)%nat -> candidate next j ∈ used
  end.
Proof.
  revert next. induction fuel as [|fuel IH]; intros next Hn; [simpl; lia|].
  cbn [alloc_loop]. cbv zeta. rewrite (candidate_first next Hn). case_bool_decide as Hin.
  - pose proof (candidate_range next 0). specialize (IH (candidate next 0) ltac:(lia)).
    destruct (alloc_loop _ _ _) as [id|]; setoid_rewrite candidate_next in IH.
    + destruct IH as (i & Hi & -> & Hid & Hall). exists (S i). split_and!; [lia|done..|].
      intros [|j] Hj; [done|apply Hall; lia].
    + intros [|j] Hj; [done|apply IH; lia].
  - exists 0%nat. split_and!; [lia|done..|]. lia.
Qed.

(** The candidates of [n] rounds are [n] identifiers. *)
Lemma candidates_size next n (used : gset Z) : Z.of_nat n <= MAX_ID ->
  (forall j, (j < n)%nat -> candidate next j ∈ used) -> (n <= size used)%nat.
Proof.
  intros Hn Hall. rewrite <- (length_seq n 0), <- (length_fmap (candidate next)).
  rewrite <- (size_list_to_set (C := gset Z)).
  - apply subseteq_size. intros x Hx%elem_of_list_to_set. apply list_elem_of_fmap in Hx as (j & -> & Hj%elem_of_seq).
    apply Hall. lia.
  - apply NoDup_fmap_2_strong; [|apply NoDup_seq]. intros i j Hi%elem_of_seq Hj%elem_of_seq. apply candidate_inj; lia.
Qed.

(** The allocator returns the next identifier after the last one, in cyclic
    order, that is not in use, as long as there is one; otherwise it never
    returns. *)
Lemma alloc_fresh ids : 0 <= next_id ids <= MAX_ID -> Z.of_nat (size (used_ids ids)) < MAX_ID ->
  exists i, let id := candidate (next_id ids) i in
    IdAlloc_alloc ids = Some (id, mkIdAlloc id ({[id]} ∪ used_ids ids)) /\ (id ∉ used_ids ids) /\ 1 <= id <= MAX_ID /\
    forall j, (j < i)%nat -> candidate (next_id ids) j ∈ used_ids ids.
Proof.
  intros Hn Hs. pose proof (alloc_loop_spec (S (size (used_ids ids))) _ (used_ids ids) Hn) as Hl.
  unfold IdAlloc_alloc. destruct (alloc_loop _ _ _) as [id|].
  - destruct Hl as (i & _ & -> & Hid & Hall). exists i. split_and!; [done..| | |done]; apply candidate_range.
  - apply candidates_size in Hl; lia.
Qed.

(** * The invariant *)

(** The signals pending at a process. In this model only [SIGCHLD] is sent, and
    it is pending at most once. *)
Definition chld_pending : SigQueues :=
  match SigQueues_enqueue SigQueues_new (mkSignal SIGCHLD 0) with Ok (q, _) => q | _ => SigQueues_new end.
Definition quiet (q : SigQueues) : Prop := q = SigQueues_new \/ q = chld_pending.

Lemma quiet_new : quiet SigQueues_new.
Proof. by left. Qed.

Lemma quiet_enqueue q : quiet q -> exists told, SigQueues_enqueue q (mkSignal SIGCHLD 0) = Ok (chld_pending, told).
Proof. intros [->| ->]; eexists; vm_compute; reflexivity. Qed.

Definition waiting_in (p : Process) : list positive :=
  match pr_inner p with Live _ _ waiting_children _ => waiting_children | Zombie _ => [] end.

Record wf (s : PState) : Prop := {
  wf_tree : tree_ok (node <$> ps_processes s) (PROCESS_TABLE s);
  wf_groups : groups_ok (member <$> ps_processes s) (PROCESS_TABLE s) (ps_pgrps s) (PROCESSGRP_TABLE s);
  wf_threads : threads_ok (threads_in <$> ps_processes s) (ps_threads s) (PROCESS_TABLE s) (THREAD_TABLE s)
    (THREAD_NOTIFIERS s) (NEW_THREAD_TABLE s) (used_ids (THREAD_ID_ALLOC s));
  wf_ids : 0 <= next_id (THREAD_ID_ALLOC s) <= MAX_ID;
  wf_waiters : forall r p w, ps_processes s !! r = Some p -> w ∈ waiting_in p -> is_Some (ps_waiters s !! w);
  wf_fresh : forall x, (ps_next s <= x)%positive ->
    ps_processes s !! x = None /\ ps_threads s !! x = None /\ ps_pgrps s !! x = None /\ ps_waiters s !! x = None;
  wf_queues : forall r p, ps_processes s !! r = Some p -> quiet (pr_sig_queues p);
  wf_zero : forall g grp, ps_pgrps s !! g = Some grp -> pg_pgid grp = 0 -> pg_leader_process grp = Some IDLE;
}.

(** A change of an object that the view [f] does not see. *)
Lemma fmap_same {A B} (f : A -> B) (m : gmap positive A) r x y :
  m !! r = Some x -> f y = f x -> f <$> <[r := y]> m = f <$> m.
Proof. intros Hr Hf. rewrite fmap_insert, Hf, insert_id; [done|]. by rewrite lookup_fmap, Hr. Qed.

Lemma stored_below s r p : wf s -> ps_processes s !! r = Some p -> (r < ps_next s)%positive.
Proof.
  intros Hwf Hr. destruct (decide (r < ps_next s)%positive); [done|].
  destruct (wf_fresh _ Hwf r) as [HN _]; [lia|congruence].
Qed.

(** The start of the system. *)
Definition boot : PState := (create_idle_thread (Ok tt) empty_state).2.

(** * Running the functions *)

Section run.
Context {A B : Type}.
Implicit Types (s : PState).

Lemma run_get (k : PState -> PS B) s : (get ≫= k) s = k s s.
Proof. done. Qed.
Lemma run_ok (a : A) (k : A -> PS B) s : (ok a ≫= k) s = k a s.
Proof. done. Qed.
Lemma run_lift (a : A) (k : A -> PS B) s : (lift (Ok a) ≫= k) s = k a s.
Proof. done. Qed.
Lemma run_modify f (k : unit -> PS B) s : (modify f ≫= k) s = k tt (f s).
Proof. done. Qed.
Lemma run_set_process r p (k : unit -> PS B) s : (set_process r p ≫= k) s = k tt (u_processes <[r := p]> s).
Proof. done. Qed.
Lemma run_set_thread t th (k : unit -> PS B) s : (set_thread t th ≫= k) s = k tt (u_threads <[t := th]> s).
Proof. done. Qed.
Lemma run_set_pgrp g grp (k : unit -> PS B) s : (set_pgrp g grp ≫= k) s = k tt (u_pgrps <[g := grp]> s).
Proof. done. Qed.
Lemma run_new_address (k : positive -> PS B) s : (new_address ≫= k) s = k (ps_next s) (u_next s).
Proof. done. Qed.
Lemma run_log e (k : unit -> PS B) s : (log e ≫= k) s = k tt (u_log e s).
Proof. done. Qed.
Lemma run_read_process r p (k : Process -> PS B) s :
  ps_processes s !! r = Some p -> (read_process r ≫= k) s = k p s.
Proof. intros H. apply bind_ok. unfold read_process. by rewrite H. Qed.
Lemma run_read_thread t th (k : Thread -> PS B) s :
  ps_threads s !! t = Some th -> (read_thread t ≫= k) s = k th s.
Proof. intros H. apply bind_ok. unfold read_thread. by rewrite H. Qed.
Lemma run_read_pgrp g grp (k : ProcessGrp -> PS B) s :
  ps_pgrps s !! g = Some grp -> (read_pgrp g ≫= k) s = k grp s.
Proof. intros H. apply bind_ok. unfold read_pgrp. by rewrite H. Qed.
Lemma run_ignore (c : PS A) (k : unit -> PS B) s : (c s).1 <> Panic -> (ignore c ≫= k) s = k tt (c s).2.
Proof.
  intros H. unfold ignore, attempt, mbind, M_bind, ok, lift. destruct (c s) as [[a|e|] s']; [done..|]. by destruct H.
Qed.

End run.

Ltac look := simpl; repeat (first
  [ rewrite lookup_insert_eq
  | rewrite lookup_insert_ne by (lia || congruence) ]); eassumption || reflexivity.

(** Runs the next primitives of a computation. *)
Ltac run1 := first
  [ rewrite bind_assoc | rewrite run_get | rewrite run_ok | rewrite run_lift | rewrite run_modify | rewrite run_set_process | rewrite run_set_thread
  | rewrite run_set_pgrp | rewrite run_new_address | rewrite run_log
  | erewrite run_read_process by look | erewrite run_read_thread by look | erewrite run_read_pgrp by look ]; cbv beta.
Ltac run := repeat run1.

Lemma run_thread_build s tid r ctid p st cs ws ts :
  ps_processes s !! r = Some p -> pr_inner p = Live st cs ws ts ->
  ThreadBuilder_build (Ok tt) (Some tid) r ctid s =
  (Ok (ps_next s), u_processes <[r := set_inner p (Live st cs ws (ts ++ [ps_next s]))]>
     (u_threads <[ps_next s := mkThread tid ctid TInit r]> (u_next s))).
Proof.
  intros Hp Hi. unfold ThreadBuilder_build. run. rewrite Hi. run. reflexivity.
Qed.

Lemma run_push_child s par r p st cs ws ts :
  ps_processes s !! par = Some p -> pr_inner p = Live st cs ws ts ->
  push_child par r s = (Ok tt, u_processes <[par := set_inner p (Live st (cs ++ [r]) ws ts)]> s).
Proof. intros Hp Hi. unfold push_child. run. rewrite Hi. reflexivity. Qed.

(** The state with a new process [r] built and listed among the children. *)
Definition built s tid par p st cs ws ts g :=
  u_processes <[par := set_inner p (Live st (cs ++ [ps_next s]) ws ts)]>
  (u_processes <[ps_next s := mkProcess tid (Some par) (Some g) (Live Running [] [] [Pos.succ (ps_next s)]) SigQueues_new ForcedExitStatus_new]>
  (u_threads <[Pos.succ (ps_next s) := mkThread tid None TInit (ps_next s)]> (u_next (u_next
  (u_processes <[ps_next s := mkProcess tid (Some par) (Some g) ProcessInner_new SigQueues_new ForcedExitStatus_new]> s))))).

Lemma run_process_build s tid par p st cs ws ts g grp :
  (par < ps_next s)%positive ->
  ps_processes s !! par = Some p -> pr_inner p = Live st cs ws ts -> ps_pgrps s !! g = Some grp ->
  (pg_leader_process grp <> None \/ pg_pgid grp <> 0) ->
  ProcessBuilder_build (Ok tt) (Some tid) (Some par) false g s = (Ok (ps_next s), built s tid par p st cs ws ts g).
Proof.
  intros Hlt Hp Hi Hg Hlead. unfold ProcessBuilder_build. run. rewrite bool_decide_eq_false_2 by done. cbn [Bool.eqb negb]. run.
  erewrite bind_ok; [|eapply run_thread_build; [look|reflexivity]].
  erewrite bind_ok; [|eapply run_push_child; [look|exact Hi]]. run.
  replace (_ && _) with false; [run; reflexivity|]. symmetry. apply andb_false_iff.
  destruct (pg_leader_process grp); [left; by rewrite bool_decide_eq_true_2|right; apply Z.eqb_neq; naive_solver].
Qed.
