(* ===== verification/ProcessSpawn.v ===== *)
(** Spawning processes, creating and starting threads: what [do_spawn_common],
    [do_clone] and [exec_task] do, and that they keep the invariant. *)

From stdpp Require Import base list gmap numbers.
From S2P Require Import Prelude Errno Effects SigSet SigQueues TermStatus Process ProcessTree ProcessFacts.

(** * Spawning *)

Lemma new_not_present s : wf s -> ~ present (PROCESS_TABLE s) (ps_next s).
Proof.
  intros Hwf Hx%(present_stored _ _ (wf_tree _ Hwf)). rewrite lookup_fmap in Hx. destruct (wf_fresh _ Hwf (ps_next s)) as [HN' _]; [lia|].
  rewrite HN' in Hx. by destruct Hx.
Qed.

Lemma unused_thread s pid : wf s -> pid ∉ used_ids (THREAD_ID_ALLOC s) -> THREAD_TABLE s !! pid = None.
Proof.
  intros Hwf Hpid.
  destruct (THREAD_TABLE s !! pid) as [u|] eqn:E; [|done].
  destruct (td_table _ _ _ _ _ _ _ (wf_threads _ Hwf) _ _ E) as (th & _ & <- & Hk). destruct Hk as [_ _ [_ ?] _ _ _]. done.
Qed.

Lemma unused_process s pid : wf s -> pid ∉ used_ids (THREAD_ID_ALLOC s) -> PROCESS_TABLE s !! pid = None.
Proof.
  intros Hwf Hpid.
  destruct (PROCESS_TABLE s !! pid) as [u|] eqn:E; [|done].
  destruct (td_main _ _ _ _ _ _ _ (wf_threads _ Hwf) _ _ E) as (v & th & Hv & _). by rewrite unused_thread in Hv by done.
Qed.

Lemma unused_pending s pid : wf s -> pid ∉ used_ids (THREAD_ID_ALLOC s) -> NEW_THREAD_TABLE s !! pid = None.
Proof.
  intros Hwf Hpid.
  destruct (NEW_THREAD_TABLE s !! pid) as [u|] eqn:E; [|done].
  destruct (td_pending _ _ _ _ _ _ _ (wf_threads _ Hwf) _ _ E) as [v Hv]. by rewrite unused_thread in Hv by done.
Qed.

Section spawn.
Variables (s s' : PState) (par r t : positive) (p : Process) (st : LiveStatus) (cs ws ts : list positive) (pid : Z)
  (ids : IdAlloc) (g : positive).
Hypotheses (Hwf : wf s) (Hpar : present (PROCESS_TABLE s) par) (Hp : ps_processes s !! par = Some p)
  (Hi : pr_inner p = Live st cs ws ts) (Hr : r = ps_next s) (Ht : t = Pos.succ (ps_next s))
  (Hpid : pid ∉ used_ids (THREAD_ID_ALLOC s)) (Hrange : 1 <= pid <= MAX_ID).

Definition new_proc : Process :=
  mkProcess pid (Some par) (Some g) (Live Running [] [] [t]) SigQueues_new ForcedExitStatus_new.
Definition new_parent : Process := set_inner p (Live st (cs ++ [r]) ws ts).

Hypotheses (HP : ps_processes s' = <[r := new_proc]> (<[par := new_parent]> (ps_processes s)))
  (HTh : ps_threads s' = <[t := mkThread pid None TInit r]> (ps_threads s))
  (HW : ps_waiters s' = ps_waiters s)
  (HT : PROCESS_TABLE s' = <[pid := r]> (PROCESS_TABLE s))
  (HTT : THREAD_TABLE s' = <[pid := t]> (THREAD_TABLE s))
  (HN : THREAD_NOTIFIERS s' = THREAD_NOTIFIERS s)
  (HNW : NEW_THREAD_TABLE s' = <[pid := t]> (NEW_THREAD_TABLE s))
  (Hids : THREAD_ID_ALLOC s' = mkIdAlloc pid ({[pid]} ∪ used_ids (THREAD_ID_ALLOC s)))
  (Hnext : (t < ps_next s')%positive) (HG : forall x, (ps_next s' <= x)%positive -> ps_pgrps s' !! x = None)
  (Hgr : groups_ok (<[r := (pid, Some g)]> (member <$> ps_processes s)) (<[pid := r]> (PROCESS_TABLE s)) (ps_pgrps s') (PROCESSGRP_TABLE s'))
  (Hz : forall g grp, ps_pgrps s' !! g = Some grp -> pg_pgid grp = 0 -> pg_leader_process grp = Some IDLE).

Lemma wf_spawned : wf s'.
Proof.
  pose proof (stored_below _ _ _ Hwf Hp) as Hlt. pose proof (new_not_present _ Hwf) as Hnp. rewrite <- Hr in Hnp.
  assert (Hpr : par <> r) by lia.
  assert (Hnd : node <$> ps_processes s' = <[par := mkNode (pr_pid p) (pr_parent p) (Some (cs ++ [r]))]>
    (<[r := mkNode pid (Some par) (Some [])]> (node <$> ps_processes s))).
  { rewrite HP, !fmap_insert, insert_insert_ne by done. done. }
  assert (Hnp' : (node <$> ps_processes s) !! par = Some (node p)) by (by rewrite lookup_fmap, Hp).
  split.
  - rewrite Hnd, HT. apply (tree_add _ _ (tree_unlisted _ _ (wf_tree _ Hwf) r _ Hnp) r par pid (node p) cs).
    + done.
    + by apply unused_process.
    + lia.
    + lia.
    + apply lookup_insert_eq.
    + done.
    + by rewrite lookup_insert_ne.
    + simpl. by rewrite Hi.
  - rewrite HT, HP, !fmap_insert. replace (<[par := member new_parent]> (member <$> ps_processes s)) with (member <$> ps_processes s); [done|].
    symmetry. apply insert_id. by rewrite lookup_fmap, Hp.
  - rewrite HP, !fmap_insert, HTh, HT, HTT, HN, HNW, Hids.
    rewrite (insert_id (threads_in <$> ps_processes s)) by (rewrite lookup_fmap, Hp; unfold threads_in; simpl; by rewrite Hi).
    change (threads_in new_proc) with (Some ([] ++ [t])).
    apply (threads_add _ _ _ _ _ _ _ (wf_threads _ Hwf)).
    + apply (wf_fresh _ Hwf). lia.
    + by apply unused_thread.
    + lia.
    + right. split_and!; [|by apply unused_process|done..]. intros Hl. apply Hnp. by right.
  - rewrite Hids. simpl. lia.
  - intros x px w. rewrite HP, HW. intros [[<- <-]|[_ [[<- <-]|[_ Hx]]%lookup_insert_Some]]%lookup_insert_Some Hw.
    + by apply not_elem_of_nil in Hw.
    + apply (wf_waiters _ Hwf par p); [done|]. unfold waiting_in. by rewrite Hi.
    + by eapply wf_waiters.
  - intros x Hx. destruct (wf_fresh _ Hwf x) as (? & ? & ? & ?); [lia|]. rewrite HP, HTh, HW, !lookup_insert_ne by lia. auto.
  - intros x px. rewrite HP. intros [[<- <-]|[_ [[<- <-]|[_ Hx]]%lookup_insert_Some]]%lookup_insert_Some.
    + apply quiet_new.
    + apply (wf_queues _ Hwf par p Hp).
    + by eapply wf_queues.
  - done.
Qed.

End spawn.

(** The group the new process joins: its entry and the table afterwards. *)
Inductive joins (s : PState) (r : positive) (pid : Z) (own : positive) :
    option Z -> positive -> gmap positive ProcessGrp -> gmap Z positive -> positive -> Prop :=
| join_own grp : ps_pgrps s !! own = Some grp ->
    joins s r pid own None own
      (<[own := mkProcessGrp (pg_pgid grp) (<[pid := r]> (pg_process_group grp)) (pg_leader_process grp)]> (ps_pgrps s))
      (PROCESSGRP_TABLE s) (Pos.succ (Pos.succ (ps_next s)))
| join_given id g grp : id <> 0 -> PROCESSGRP_TABLE s !! id = Some g -> ps_pgrps s !! g = Some grp ->
    joins s r pid own (Some id) g
      (<[g := mkProcessGrp (pg_pgid grp) (<[pid := r]> (pg_process_group grp)) (pg_leader_process grp)]> (ps_pgrps s))
      (PROCESSGRP_TABLE s) (Pos.succ (Pos.succ (ps_next s)))
| join_new GT' : (GT' = PROCESSGRP_TABLE s \/ GT' = <[pid := Pos.succ (Pos.succ (ps_next s))]> (PROCESSGRP_TABLE s)) ->
    joins s r pid own (Some 0) (Pos.succ (Pos.succ (ps_next s)))
      (<[Pos.succ (Pos.succ (ps_next s)) := mkProcessGrp pid {[pid := r]} (Some r)]> (ps_pgrps s))
      GT' (Pos.succ (Pos.succ (Pos.succ (ps_next s)))).

Section joins.
Variables (s : PState) (pid : Z).
Hypotheses (Hwf : wf s) (Hpid : pid ∉ used_ids (THREAD_ID_ALLOC s)) (Hpos : 1 <= pid).

Definition joined (g : positive) (G' : gmap positive ProcessGrp) (GT' : gmap Z positive) (n' : positive) : Prop :=
  groups_ok (<[ps_next s := (pid, Some g)]> (member <$> ps_processes s)) (<[pid := ps_next s]> (PROCESS_TABLE s)) G' GT' /\
  (forall x, (n' <= x)%positive -> G' !! x = None) /\
  (forall g grp, G' !! g = Some grp -> pg_pgid grp = 0 -> pg_leader_process grp = Some IDLE) /\
  (Pos.succ (ps_next s) < n')%positive.

Lemma joins_fresh g grp leader n' : ps_pgrps s !! g = Some grp \/ ps_pgrps s !! g = None /\ grp = mkProcessGrp pid ∅ None ->
  (leader = pg_leader_process grp \/ leader = Some (ps_next s) /\ pg_pgid grp <> 0) -> (g < n')%positive ->
  (Pos.succ (ps_next s) < n')%positive ->
  joined g (<[g := mkProcessGrp (pg_pgid grp) (<[pid := ps_next s]> (pg_process_group grp)) leader]> (ps_pgrps s)) (PROCESSGRP_TABLE s) n'.
Proof.
  intros Hg Hlead Hlt Hn.
  pose proof (new_not_present _ Hwf) as Hnp.
  assert (HnI : ps_next s <> IDLE) by (intros E; apply Hnp; by left).
  assert (Hnl : ~ listed (PROCESS_TABLE s) (ps_next s)) by (intros Hl; apply Hnp; by right).
  pose proof (unused_process _ _ Hwf Hpid) as HTp.
  split_and!; [| | |done].
  - assert (Hok : groups_ok (member <$> ps_processes s) (PROCESS_TABLE s) (<[g := grp]> (ps_pgrps s)) (PROCESSGRP_TABLE s)).
    { destruct Hg as [Hg|[Hg ->]]; [rewrite insert_id by done; apply Hwf|by apply groups_new, Hg; apply Hwf]. }
    pose proof (groups_join _ _ _ _ Hok (ps_next s) pid g grp leader) as Hj. rewrite insert_insert_eq in Hj.
    apply Hj; try done; [apply lookup_insert_eq|]. intros l Hl. destruct Hlead as [->|[-> _]]; [right|left; congruence].
    eapply (gr_leader _ _ _ _ Hok g); [apply lookup_insert_eq|done].
  - intros x Hx. rewrite lookup_insert_ne by lia. apply (wf_fresh _ Hwf). lia.
  - intros g1 grp1 [[<- <-]|[_ Hg1]]%lookup_insert_Some; simpl; [|by apply (wf_zero _ Hwf g1)]. intros H0.
    destruct Hlead as [->|[_ ?]]; [|done]. destruct Hg as [Hg|[Hg ->]]; [by apply (wf_zero _ Hwf g)|simpl in H0; lia].
Qed.

Lemma joins_groups own a g G' GT' n' : joins s (ps_next s) pid own a g G' GT' n' -> joined g G' GT' n'.
Proof.
  assert (Hfr : forall g grp, ps_pgrps s !! g = Some grp -> (g < ps_next s)%positive).
  { intros g0 grp Hg. destruct (decide (g0 < ps_next s)%positive); [done|].
    destruct (wf_fresh _ Hwf g0) as (_ & _ & HN & _); [lia|congruence]. }
  destruct 1 as [grp Hg|id g grp Hid HGT Hg|GT' HGT'].
  - pose proof (Hfr _ _ Hg). apply joins_fresh; [by left|by left|lia..].
  - pose proof (Hfr _ _ Hg). apply joins_fresh; [by left|by left|lia..].
  - set (n' := Pos.succ (Pos.succ (ps_next s))).
    assert (Hj : joined n' (<[n' := mkProcessGrp pid {[pid := ps_next s]} (Some (ps_next s))]> (ps_pgrps s)) (PROCESSGRP_TABLE s) (Pos.succ n')).
    { apply (joins_fresh n' (mkProcessGrp pid ∅ None)); [|right; split; [done|simpl; lia]|unfold n'; lia..].
      right. split; [|done]. apply (wf_fresh _ Hwf). unfold n'. lia. }
    destruct HGT' as [-> | ->]; [done|]. destruct Hj as (Hok & ? & ? & ?). split_and!; [|done..].
    apply (groups_register _ _ _ _ Hok n' (mkProcessGrp pid {[pid := ps_next s]} (Some (ps_next s)))). apply lookup_insert_eq.
Qed.

End joins.

Lemma run_ThreadId_new {B} (k : Z -> PS B) s tid ids :
  IdAlloc_alloc (THREAD_ID_ALLOC s) = Some (tid, ids) -> (ThreadId_new ≫= k) s = k tid (u_ids ids s).
Proof. intros H. apply bind_ok. unfold ThreadId_new. run. by rewrite H. Qed.

Lemma build_fresh_id eventfd par b g s tid ids :
  IdAlloc_alloc (THREAD_ID_ALLOC s) = Some (tid, ids) ->
  ProcessBuilder_build eventfd None par b g s = ProcessBuilder_build eventfd (Some tid) par b g (u_ids ids s).
Proof. intros H. unfold ProcessBuilder_build. rewrite (run_ThreadId_new _ _ _ _ H). by rewrite run_ok. Qed.

Lemma run_add_new_process s g grp r p : ps_pgrps s !! g = Some grp -> ps_processes s !! r = Some p ->
  add_new_process g r s = (Ok tt, u_pgrps <[g := mkProcessGrp (pg_pgid grp) (<[pr_pid p := r]> (pg_process_group grp)) (pg_leader_process grp)]> s).
Proof. intros Hg Hp. unfold add_new_process. run. reflexivity. Qed.

Lemma run_add_pgrp s g grp : ps_pgrps s !! g = Some grp ->
  add_pgrp g s = match PROCESSGRP_TABLE s !! pg_pgid grp with
                 | Some _ => (Err EEXIST, s)
                 | None => (Ok tt, u_pgrp_table (fun _ => <[pg_pgid grp := g]> (PROCESSGRP_TABLE s)) s)
                 end.
Proof.
  intros Hg. unfold add_pgrp. run. unfold Table_add. destruct (PROCESSGRP_TABLE s !! pg_pgid grp) eqn:E.
  - by rewrite bool_decide_eq_true_2.
  - rewrite bool_decide_eq_false_2 by (by intros []). reflexivity.
Qed.

Lemma run_unwrap_get_pgrp {B} (k : positive -> PS B) s id g : PROCESSGRP_TABLE s !! id = Some g ->
  (unwrapM (get_pgrp id) ≫= k) s = k g s.
Proof. intros Hg. apply bind_ok. unfold unwrapM, get_pgrp, Table_get. by rewrite Hg. Qed.

Lemma run_add_process s r p : ps_processes s !! r = Some p -> PROCESS_TABLE s !! pr_pid p = None ->
  add_process r s = (Ok tt, u_process_table (fun _ => <[pr_pid p := r]> (PROCESS_TABLE s)) s).
Proof. intros Hp HN. unfold add_process. run. unfold Table_add. rewrite HN, bool_decide_eq_false_2 by (by intros []). reflexivity. Qed.

Lemma run_add_thread s t th : ps_threads s !! t = Some th -> THREAD_TABLE s !! th_tid th = None ->
  add_thread t s = (Ok tt, u_thread_table (fun _ => <[th_tid th := t]> (THREAD_TABLE s)) s).
Proof. intros Hp HN. unfold add_thread. run. unfold Table_add. rewrite HN, bool_decide_eq_false_2 by (by intros []). reflexivity. Qed.

Lemma run_enqueue s t th : ps_threads s !! t = Some th -> NEW_THREAD_TABLE s !! th_tid th = None ->
  enqueue t s = (Ok tt, u_new_threads <[th_tid th := t]> s).
Proof. intros Hp HN. unfold enqueue. run. rewrite HN, bool_decide_eq_false_2 by (by intros []). reflexivity. Qed.

Lemma run_main_thread s r p st cs ws t ts th : ps_processes s !! r = Some p -> pr_inner p = Live st cs ws (t :: ts) ->
  ps_threads s !! t = Some th -> th_tid th = pr_pid p -> main_thread r s = (Ok (Some t), s).
Proof. intros Hp Hi Ht Htid. unfold main_thread. run. rewrite Hi. run. rewrite Htid, Z.eqb_refl. reflexivity. Qed.

(** What building a process leaves alone. *)
Definition tables (s : PState) :=
  (PROCESS_TABLE s, THREAD_TABLE s, NEW_THREAD_TABLE s, (ps_waiters s, THREAD_NOTIFIERS s, EXIT_CHILDREN_STATUS s)).

Section spawn_run.
Variables (s : PState) (par : positive) (p : Process) (st : LiveStatus) (cs ws ts : list positive) (pid : Z)
  (ids : IdAlloc) (own : positive) (ogrp : ProcessGrp).
Hypotheses (Hwf : wf s) (Hpar : present (PROCESS_TABLE s) par) (Hp : ps_processes s !! par = Some p)
  (Hi : pr_inner p = Live st cs ws ts) (Hown : pr_pgrp p = Some own) (Hogrp : ps_pgrps s !! own = Some ogrp)
  (Halloc : IdAlloc_alloc (THREAD_ID_ALLOC s) = Some (pid, ids)) (Hpid : pid ∉ used_ids (THREAD_ID_ALLOC s)).

Abbreviation r := (ps_next s) (only parsing).
Abbreviation t := (Pos.succ (ps_next s)) (only parsing).
Abbreviation b := (built (u_ids ids s) pid par p st cs ws ts own) (only parsing).

Lemma built_lookup : ps_processes b !! r = Some (new_proc par t pid own).
Proof. pose proof (stored_below _ _ _ Hwf Hp). simpl. rewrite lookup_insert_ne by lia. apply lookup_insert_eq. Qed.

(** The new process in its group. *)
Definition in_group (s1 : PState) (a : option Z) : Prop := exists g,
  ps_processes s1 = <[r := new_proc par t pid g]> (<[par := new_parent r p st cs ws ts]> (ps_processes s)) /\
  ps_threads s1 = <[t := mkThread pid None TInit r]> (ps_threads s) /\ THREAD_ID_ALLOC s1 = ids /\ tables s1 = tables s /\
  joins s r pid own a g (ps_pgrps s1) (PROCESSGRP_TABLE s1) (ps_next s1) /\ ps_log s1 = ps_log s.

(** [update_pgrp_for_new_process] puts the new process into its group. *)
Lemma update_pgrp_runs a : (forall id, a = Some id -> id <> 0 -> is_Some (PROCESSGRP_TABLE s !! id)) ->
  exists s1, update_pgrp_for_new_process r a b = (Ok tt, s1) /\ in_group s1 a.
Proof.
  intros Ha. pose proof built_lookup as Hr. pose proof (stored_below _ _ _ Hwf Hp) as Hlt.
  assert (HP : forall x y z : Process, <[r := x]> (<[par := y]> (<[r := new_proc par t pid own]> (<[r := z]> (ps_processes s)))) =
    <[r := x]> (<[par := y]> (ps_processes s))).
  { intros x y z. apply map_eq. intros q. destruct (decide (q = r)) as [->|]; [by rewrite !lookup_insert_eq|].
    destruct (decide (q = par)) as [->|]; [by rewrite !(lookup_insert_ne _ r), !lookup_insert_eq by lia|]. by rewrite !lookup_insert_ne by done. }
  destruct a as [id|]; [destruct (decide (id = 0)) as [->|Hid]|].
  - unfold update_pgrp_for_new_process. cbn [Z.eqb]. unfold ProcessGrp_new.
    rewrite bind_assoc, (run_read_process _ _ _ _ Hr). run. unfold update_pgrp. run.
    unfold ignore, attempt. unfold mbind at 1, M_bind at 1. erewrite run_add_pgrp by look.
    simpl. destruct (PROCESSGRP_TABLE s !! pid) eqn:E; (eexists; split; [reflexivity|]); exists (Pos.succ t); simpl;
      (split_and!; [apply HP|done..| |done]); constructor; auto.
  - destruct (Ha id eq_refl Hid) as [g Hg]. destruct (gr_table _ _ _ _ (wf_groups _ Hwf) _ _ Hg) as (grp & Hgrp & _).
    unfold update_pgrp_for_new_process. rewrite (proj2 (Z.eqb_neq id 0) Hid).
    erewrite run_unwrap_get_pgrp by look. unfold update_pgrp. rewrite bind_assoc. erewrite run_read_process by look. run.
    erewrite run_add_new_process by look. eexists; split; [reflexivity|]. exists g. simpl. split_and!; [apply HP|done..| |done].
    by constructor.
  - unfold update_pgrp_for_new_process, Process_pgrp. rewrite bind_assoc, (run_read_process _ _ _ _ Hr).
    change (unwrap_option (pr_pgrp (new_proc par t pid own))) with (Ok own). run.
    rewrite (run_add_new_process b own ogrp r _ Hogrp Hr). eexists; split; [reflexivity|]. exists own. simpl. split_and!; try done.
    + rewrite insert_insert_eq, insert_insert_ne by lia. done.
    + by constructor.
Qed.

(** A successful [spawn], up to the log. *)
Definition spawned (s' : PState) (a : option Z) : Prop := exists g,
  ps_processes s' = <[r := new_proc par t pid g]> (<[par := new_parent r p st cs ws ts]> (ps_processes s)) /\
  ps_threads s' = <[t := mkThread pid None TInit r]> (ps_threads s) /\ THREAD_ID_ALLOC s' = ids /\
  PROCESS_TABLE s' = <[pid := r]> (PROCESS_TABLE s) /\ THREAD_TABLE s' = <[pid := t]> (THREAD_TABLE s) /\
  NEW_THREAD_TABLE s' = <[pid := t]> (NEW_THREAD_TABLE s) /\ ps_waiters s' = ps_waiters s /\
  THREAD_NOTIFIERS s' = THREAD_NOTIFIERS s /\ EXIT_CHILDREN_STATUS s' = EXIT_CHILDREN_STATUS s /\
  joins s r pid own a g (ps_pgrps s') (PROCESSGRP_TABLE s') (ps_next s').

Lemma attribute_runs a : (forall id, a = Some id -> id <> 0 -> is_Some (PROCESSGRP_TABLE s !! id)) ->
  get_spawn_attribute_pgrp a s = (Ok a, s).
Proof.
  intros Ha. unfold get_spawn_attribute_pgrp. destruct a as [id|]; [|done].
  assert (Hg : attempt (get_pgrp id) s = (Ok (Table_get (PROCESSGRP_TABLE s) id), s)).
  { unfold attempt, get_pgrp, Table_get. by destruct (PROCESSGRP_TABLE s !! id). }
  rewrite (bind_ok _ _ _ _ _ Hg). destruct (Z.eqb_spec id 0); [done|].
  destruct (Ha id eq_refl) as [x Hx]; [done|]. unfold Table_get. by rewrite Hx.
Qed.

Lemma common_runs cur th a : ps_threads s !! cur = Some th -> th_process th = par ->
  (forall id, a = Some id -> id <> 0 -> is_Some (PROCESSGRP_TABLE s !! id)) ->
  exists s1, new_process_common (Ok tt) cur a None None s = (Ok r, s1) /\ in_group s1 a.
Proof.
  intros Hcur Hth Ha. pose proof (stored_below _ _ _ Hwf Hp) as Hlt.
  destruct (update_pgrp_runs a Ha) as (s1 & Hup & Hin). exists s1. split; [|done].
  unfold new_process_common. run. rewrite (bind_ok _ _ _ _ _ (attribute_runs a Ha)). cbv beta.
  unfold Process_pgrp. rewrite bind_assoc, Hth, (run_read_process _ _ _ _ Hp), Hown. cbn [unwrap_option default]. run.
  erewrite bind_ok; [|rewrite (build_fresh_id _ _ _ _ _ _ _ Halloc); eapply (run_process_build (u_ids ids s)); try done].
  - rewrite (bind_ok _ _ _ _ _ Hup). reflexivity.
  - destruct (decide (pg_pgid ogrp = 0)) as [H0|]; [left; by rewrite (wf_zero _ Hwf _ _ Hogrp H0)|by right].
Qed.

Lemma spawn_runs cur th a exec_now : ps_threads s !! cur = Some th -> th_process th = par ->
  (forall id, a = Some id -> id <> 0 -> is_Some (PROCESSGRP_TABLE s !! id)) ->
  exists s', do_spawn_common (Ok tt) cur a exec_now s = (Ok pid, s') /\ spawned s' a.
Proof.
  intros Hcur Hth Ha. destruct (common_runs cur th a Hcur Hth Ha) as (s1 & Hc & g & HP & HTh & Hids & Htab & Hj & _).
  unfold tables in Htab. injection Htab as HT HTT HNW HW HN HV.
  assert (Hr1 : ps_processes s1 !! r = Some (new_proc par t pid g)) by (rewrite HP; apply lookup_insert_eq).
  assert (Ht1 : ps_threads s1 !! t = Some (mkThread pid None TInit r)) by (rewrite HTh; apply lookup_insert_eq).
  pose proof (unused_process _ _ Hwf Hpid). pose proof (unused_thread _ _ Hwf Hpid). pose proof (unused_pending _ _ Hwf Hpid).
  set (s2 := u_process_table (fun _ => <[pid := r]> (PROCESS_TABLE s1)) s1).
  set (s3 := u_thread_table (fun _ => <[pid := t]> (THREAD_TABLE s1)) s2).
  assert (Hn : new_process (Ok tt) cur a s = (Ok r, s3)).
  { unfold new_process. rewrite (bind_ok _ _ _ _ _ Hc). cbv beta.
    pose proof (run_add_process s1 r _ Hr1) as Hadd. rewrite run_ignore; rewrite Hadd by (simpl; congruence); [|done]. cbn [fst snd].
    rewrite (bind_ok _ _ _ _ _ (run_main_thread s2 r _ _ _ _ _ _ _ Hr1 eq_refl Ht1 eq_refl)). cbn [unwrap_option]. run.
    pose proof (run_add_thread s2 t _ Ht1) as Hadd2. rewrite run_ignore; rewrite Hadd2 by (simpl; congruence); done. }
  set (s4 := u_new_threads <[pid := t]> s3).
  assert (Hen : enqueue t s3 = (Ok tt, s4)) by (apply (run_enqueue s3 t _ Ht1); simpl; congruence).
  unfold do_spawn_common. rewrite (bind_ok _ _ _ _ _ Hn). cbv beta.
  rewrite (bind_ok _ _ _ _ _ (run_main_thread s3 r _ _ _ _ _ _ _ Hr1 eq_refl Ht1 eq_refl)). cbn [unwrap_option]. run.
  exists (if exec_now then u_log (ExecThreadAsync pid) s4 else s4). split.
  - destruct exec_now.
    + unfold enqueue_and_exec. rewrite bind_assoc, (run_read_thread _ _ _ s3 Ht1), bind_assoc, (bind_ok _ _ _ _ _ Hen). run. reflexivity.
    + rewrite (bind_ok _ _ _ _ _ Hen). cbv beta. by erewrite run_read_process by exact Hr1.
  - exists g. destruct exec_now; simpl; rewrite HT, HTT, HNW; done.
Qed.

Lemma spawn_wf s' a : 1 <= pid <= MAX_ID -> ids = mkIdAlloc pid ({[pid]} ∪ used_ids (THREAD_ID_ALLOC s)) -> spawned s' a -> wf s'.
Proof.
  intros Hrange Hids (g & HP & HTh & Hi' & HT & HTT & HNW & HW & HN & _ & Hj).
  destruct (joins_groups s pid Hwf Hpid ltac:(lia) _ _ _ _ _ _ Hj) as (Hgr & HG & Hz & Hlt).
  eapply (wf_spawned s s' par r t p st cs ws ts pid g); try done. congruence.
Qed.

End spawn_run.

(** A process object that nothing lists, and an identifier that was taken and
    dropped again, do not matter. *)
Lemma wf_unlisted s r pr tid : wf s -> ~ present (PROCESS_TABLE s) r -> (r < ps_next s)%positive ->
  waiting_in pr = [] -> quiet (pr_sig_queues pr) -> 0 <= tid <= MAX_ID ->
  wf (u_processes <[r := pr]> (u_ids (mkIdAlloc tid (used_ids (THREAD_ID_ALLOC s))) s)).
Proof.
  intros Hwf Hr Hlt Hw Hq Htid. assert (Hl : ~ listed (PROCESS_TABLE s) r) by (intros ?; apply Hr; by right).
  split; simpl; rewrite ?fmap_insert.
  - by apply tree_unlisted, Hr; apply Hwf.
  - by apply groups_unlisted, Hr; apply Hwf.
  - by apply threads_unlisted, Hl; apply Hwf.
  - done.
  - intros x p w [[<- <-]|[_ Hx]]%lookup_insert_Some; [rewrite Hw; by intros ?%not_elem_of_nil|by eapply wf_waiters].
  - intros x Hx. rewrite lookup_insert_ne by lia. by apply Hwf.
  - intros x p [[<- <-]|[_ Hx]]%lookup_insert_Some; [done|by eapply wf_queues].
  - apply Hwf.
Qed.

Lemma wf_next s : wf s -> wf (u_next s).
Proof. intros Hwf. split; simpl; try apply Hwf. intros x Hx. apply (wf_fresh _ Hwf). lia. Qed.

(** The host refuses the event descriptor: the error is returned and no table changes. *)
Section spawn_fails.
Variables (s : PState) (par : positive) (p : Process) (pid : Z) (ids : IdAlloc) (own : positive) (e : Errno).
Hypotheses (Hwf : wf s) (Hp : ps_processes s !! par = Some p) (Hown : pr_pgrp p = Some own)
  (Halloc : IdAlloc_alloc (THREAD_ID_ALLOC s) = Some (pid, ids)) (Hpid : pid ∉ used_ids (THREAD_ID_ALLOC s))
  (Hids : ids = mkIdAlloc pid ({[pid]} ∪ used_ids (THREAD_ID_ALLOC s))) (Hrange : 1 <= pid <= MAX_ID).

Lemma free_fresh : (IdAlloc_free ids pid).2 = mkIdAlloc pid (used_ids (THREAD_ID_ALLOC s)).
Proof. rewrite Hids. unfold IdAlloc_free. simpl. rewrite bool_decide_eq_true_2 by set_solver. simpl. f_equal. set_solver. Qed.

Lemma spawn_fails cur th a exec_now : ps_threads s !! cur = Some th -> th_process th = par ->
  (forall id, a = Some id -> id <> 0 -> is_Some (PROCESSGRP_TABLE s !! id)) ->
  do_spawn_common (Err e) cur a exec_now s = (Err e,
    u_processes <[ps_next s := mkProcess pid (Some par) (Some own) ProcessInner_new SigQueues_new ForcedExitStatus_new]>
      (u_ids (mkIdAlloc pid (used_ids (THREAD_ID_ALLOC s))) (u_next s))).
Proof.
  intros Hcur Hth Ha.
  assert (Hc : new_process_common (Err e) cur a None None s = (Err e,
    u_processes <[ps_next s := mkProcess pid (Some par) (Some own) ProcessInner_new SigQueues_new ForcedExitStatus_new]>
      (u_ids (mkIdAlloc pid (used_ids (THREAD_ID_ALLOC s))) (u_next s)))).
  { unfold new_process_common. run. rewrite (bind_ok _ _ _ _ _ (attribute_runs s a Ha)). cbv beta.
    unfold Process_pgrp. rewrite bind_assoc, Hth, (run_read_process _ _ _ _ Hp), Hown. cbn [unwrap_option default]. run.
    unfold mbind, M_bind. rewrite (build_fresh_id _ _ _ _ _ _ _ Halloc). unfold ProcessBuilder_build. run.
    rewrite bool_decide_eq_false_2 by done. cbn [Bool.eqb negb]. run. unfold ThreadBuilder_build. run. unfold ThreadId_drop.
    rewrite (proj2 (Z.eqb_neq pid 0)) by lia. run. unfold mbind, M_bind, fail_with, lift. simpl. rewrite free_fresh. reflexivity. }
  unfold do_spawn_common, new_process, mbind, M_bind. by rewrite Hc.
Qed.

Lemma spawn_fails_wf : wf (u_processes <[ps_next s := mkProcess pid (Some par) (Some own) ProcessInner_new SigQueues_new ForcedExitStatus_new]>
      (u_ids (mkIdAlloc pid (used_ids (THREAD_ID_ALLOC s))) (u_next s))).
Proof.
  apply (wf_unlisted (u_next s)); [by apply wf_next|exact (new_not_present s Hwf)|simpl; lia|done|apply quiet_new|lia].
Qed.

End spawn_fails.

(** * Threads *)

(** The thread runs user code of a process of the table. *)
Definition runs (s : PState) (t : positive) (th : Thread) : Prop :=
  ps_threads s !! t = Some th /\ THREAD_TABLE s !! th_tid th = Some t /\ th_inner th = TRunning.

(** A running thread belongs to a live process of the table, which lists it. *)
Lemma runs_process s t th : wf s -> runs s t th ->
  listed (PROCESS_TABLE s) (th_process th) /\
  exists p st cs ws ts, ps_processes s !! th_process th = Some p /\ pr_inner p = Live st cs ws ts /\ t ∈ ts.
Proof.
  intros Hwf (Ht & Htt & Hi). destruct (thread_at _ _ _ _ _ _ _ (wf_threads _ Hwf) _ _ _ Htt Ht) as [_ [_ Hl _ Hin _ _]].
  split; [done|]. rewrite Hi in Hin. destruct Hin as (ts & Hts & Hin). unfold threads_of in Hts. rewrite lookup_fmap in Hts.
  destruct (ps_processes s !! th_process th) as [p|] eqn:E; [|done]. unfold threads_in in Hts. simpl in Hts.
  destruct (pr_inner p) as [st cs ws ts0|] eqn:Hpi; simplify_eq/=. by exists p, st, cs, ws, ts.
Qed.

Section clone.
Variables (s : PState) (cur : positive) (th : Thread) (p : Process) (st : LiveStatus) (cs ws ts : list positive) (tid : Z) (ids : IdAlloc).
Hypotheses (Hwf : wf s) (Hl : listed (PROCESS_TABLE s) (th_process th)) (Hcur : ps_threads s !! cur = Some th)
  (Hp : ps_processes s !! th_process th = Some p) (Hi : pr_inner p = Live st cs ws ts)
  (Halloc : IdAlloc_alloc (THREAD_ID_ALLOC s) = Some (tid, ids)) (Htid : tid ∉ used_ids (THREAD_ID_ALLOC s))
  (Hids : ids = mkIdAlloc tid ({[tid]} ∪ used_ids (THREAD_ID_ALLOC s))) (Hrange : 1 <= tid <= MAX_ID).

(** A successful [clone], up to the log. *)
Definition cloned (s' : PState) (ctid : option Z) : Prop :=
  ps_processes s' = <[th_process th := set_inner p (Live st cs ws (ts ++ [ps_next s]))]> (ps_processes s) /\
  ps_threads s' = <[ps_next s := mkThread tid ctid TInit (th_process th)]> (ps_threads s) /\ THREAD_ID_ALLOC s' = ids /\
  THREAD_TABLE s' = <[tid := ps_next s]> (THREAD_TABLE s) /\ NEW_THREAD_TABLE s' = <[tid := ps_next s]> (NEW_THREAD_TABLE s) /\
  ps_next s' = Pos.succ (ps_next s) /\ PROCESS_TABLE s' = PROCESS_TABLE s /\
  (ps_pgrps s', PROCESSGRP_TABLE s', ps_waiters s', THREAD_NOTIFIERS s', EXIT_CHILDREN_STATUS s')
  = (ps_pgrps s, PROCESSGRP_TABLE s, ps_waiters s, THREAD_NOTIFIERS s, EXIT_CHILDREN_STATUS s).

Lemma clone_runs flags ptid ctid : check_clone_args flags ptid ctid = Ok tt ->
  exists s', do_clone (Ok tt) cur flags ptid ctid (Ok tt) s = (Ok tid, s') /\ cloned s' ctid.
Proof.
  intros Hargs. unfold do_clone. rewrite Hargs. run.
  set (s1 := u_processes <[th_process th := set_inner p (Live st cs ws (ts ++ [ps_next s]))]>
     (u_threads <[ps_next s := mkThread tid ctid TInit (th_process th)]> (u_next (u_ids ids s)))).
  assert (Hb : ThreadBuilder_build (Ok tt) None (th_process th) ctid s = (Ok (ps_next s), s1)).
  { pose proof (run_thread_build (u_ids ids s) tid (th_process th) ctid p st cs ws ts Hp Hi) as Hb.
    unfold ThreadBuilder_build in *. rewrite (run_ThreadId_new _ _ _ _ Halloc). rewrite run_ok in Hb. exact Hb. }
  rewrite (bind_ok _ _ _ _ _ Hb). cbv beta.
  assert (Ht1 : ps_threads s1 !! ps_next s = Some (mkThread tid ctid TInit (th_process th))) by apply lookup_insert_eq.
  rewrite (run_read_thread _ _ _ _ Ht1). cbv beta zeta. cbn [th_tid].
  set (s2 := u_thread_table (fun _ => <[tid := ps_next s]> (THREAD_TABLE s)) s1).
  assert (Hadd : add_thread (ps_next s) s1 = (Ok tt, s2)) by (apply (run_add_thread s1 _ _ Ht1); simpl; by apply unused_thread).
  rewrite run_ignore; rewrite Hadd; [|done]. cbn [snd].
  assert (Hlogs : forall (c : bool) (o : option Z) sx, (c = true -> is_Some o) -> exists sy,
    (if c then q ← lift (unwrap_option o); log (StoreUser q tid) else ok tt) sx = (Ok tt, sy) /\ (sy = sx \/ exists e, sy = u_log e sx)).
  { intros c o sx Hc. destruct c; [|exists sx; auto]. destruct (Hc eq_refl) as [q ->]. cbn [unwrap_option]. rewrite run_lift.
    eexists. split; [reflexivity|]. right. by eexists. }
  unfold check_clone_args in Hargs. apply bind_Ok in Hargs as (_ & _ & Hargs). cbv zeta in Hargs.
  destruct (negb _) eqn:E1 in Hargs; [done|]. destruct (negb _) eqn:E2 in Hargs; [done|]. clear Hargs.
  apply negb_false_iff, Bool.eqb_prop in E1, E2.
  destruct (Hlogs (flags_contain flags 0x00100000) ptid s2) as (s3 & Hs3 & Hl3).
  { rewrite E1. intros ?%bool_decide_eq_true. done. }
  rewrite (bind_ok _ _ _ _ _ Hs3). cbv beta.
  destruct (Hlogs (flags_contain flags 0x01000000) ctid s3) as (s4 & Hs4 & Hl4).
  { intros Hf. rewrite Hf in E2. simpl in E2. symmetry in E2. by apply bool_decide_eq_true in E2. }
  rewrite (bind_ok _ _ _ _ _ Hs4). cbv beta.
  pose proof (unused_pending _ _ Hwf Htid) as HNW.
  assert (Hen : enqueue (ps_next s) s4 = (Ok tt, u_new_threads <[tid := ps_next s]> s4) /\ ps_threads s4 !! ps_next s = Some (mkThread tid ctid TInit (th_process th))).
  { destruct Hl4 as [->|[? ->]], Hl3 as [->|[? ->]]; (split; [apply (run_enqueue _ _ (mkThread tid ctid TInit (th_process th))); done|done]). }
  destruct Hen as [Hen Ht4]. unfold enqueue_and_exec. rewrite bind_assoc, (run_read_thread _ _ _ _ Ht4), bind_assoc, (bind_ok _ _ _ _ _ Hen). run.
  eexists. split; [reflexivity|]. unfold cloned.
  destruct Hl4 as [->|[? ->]], Hl3 as [->|[? ->]]; simpl; done.
Qed.

Lemma clone_wf s' ctid : cloned s' ctid -> wf s'.
Proof.
  intros (HP & HTh & Hi' & HTT & HNW & Hn & HT & Htab). injection Htab as HG HGT HW HN HV.
  split; rewrite ?HG, ?HGT, ?HW, ?HN, ?HT, ?HTT, ?HNW, ?HTh, ?Hi'.
  - rewrite HP. rewrite (fmap_same node _ _ p); [apply Hwf|done|]. unfold node. simpl. by rewrite Hi.
  - rewrite HP. rewrite (fmap_same member _ _ p); [apply Hwf|done|done].
  - rewrite HP, fmap_insert, Hids. apply (threads_add _ _ _ _ _ _ _ (wf_threads _ Hwf)).
    + apply (wf_fresh _ Hwf). lia.
    + by apply unused_thread.
    + lia.
    + left. split_and!; [done..|]. unfold threads_of. rewrite lookup_fmap, Hp. simpl. unfold threads_in. by rewrite Hi.
  - rewrite Hids. simpl. lia.
  - rewrite HP. intros x px w [[<- <-]|[_ Hx]]%lookup_insert_Some; [|by eapply wf_waiters].
    intros Hw. apply (wf_waiters _ Hwf (th_process th) p); [done|]. unfold waiting_in. by rewrite Hi.
  - rewrite Hn, HP. intros x Hx. pose proof (stored_below _ _ _ Hwf Hp). rewrite !lookup_insert_ne by lia. apply Hwf. lia.
  - rewrite HP. intros x px [[<- <-]|[_ Hx]]%lookup_insert_Some; [exact (wf_queues _ Hwf _ p Hp)|by eapply wf_queues].
  - apply Hwf.
Qed.

End clone.

(** [exec_task] starts a pending thread, once. *)
Lemma exec_task_runs s tid : wf s ->
  match NEW_THREAD_TABLE s !! tid with
  | None => exec_task tid s = (Err ESRCH, s)
  | Some t => exists th, ps_threads s !! t = Some th /\ th_tid th = tid /\ th_inner th = TInit /\ THREAD_TABLE s !! tid = Some t /\
      exec_task tid s = (Ok t, u_notifiers (fun n => {[tid]} ∪ n) (u_threads <[t := mkThread tid (th_clear_ctid th) TRunning (th_process th)]>
        (u_log (SchedAttach tid) (u_new_threads (delete tid) s))))
  end.
Proof.
  intros Hwf. destruct (NEW_THREAD_TABLE s !! tid) as [t|] eqn:E.
  - destruct (td_pending _ _ _ _ _ _ _ (wf_threads _ Hwf) _ _ E) as [u Hu].
    destruct (td_table _ _ _ _ _ _ _ (wf_threads _ Hwf) _ _ Hu) as (th & Hth & Htid & [_ _ _ _ HN HNW]).
    rewrite Htid, E in HNW. assert (th_inner th = TInit /\ u = t) as [Hi ->] by (destruct (th_inner th); by simplify_eq).
    exists th. split_and!; [done..|]. unfold exec_task, dequeue. run. rewrite E. cbn [ok_or]. run. unfold Thread_start. run.
    rewrite Hi. run. rewrite Htid in *. simpl. rewrite bool_decide_eq_false_2; [reflexivity|]. rewrite HN, Hi. done.
  - unfold exec_task, dequeue, mbind, M_bind, get, lift. by rewrite E.
Qed.

Lemma exec_task_wf s tid t th : wf s -> ps_threads s !! t = Some th -> th_tid th = tid -> th_inner th = TInit -> THREAD_TABLE s !! tid = Some t ->
  wf (u_notifiers (fun n => {[tid]} ∪ n) (u_threads <[t := mkThread tid (th_clear_ctid th) TRunning (th_process th)]>
        (u_log (SchedAttach tid) (u_new_threads (delete tid) s)))).
Proof.
  intros Hwf Hth <- Hi Htt. split; simpl; try apply Hwf.
  - by apply (threads_start _ _ _ _ _ _ _ (wf_threads _ Hwf)).
  - intros x Hx. destruct (wf_fresh _ Hwf x Hx) as (? & HN & ? & ?). split_and!; [done| |done..].
    rewrite lookup_insert_ne; [done|congruence].
Qed.
