(* ===== verification/ProcessReap.v ===== *)
(** Reaping: removing a zombie from its parent, its group and the tables, and
    [wait4] of a process whose child has exited. *)

From stdpp Require Import base list gmap numbers.
From S2P Require Import Prelude Errno Effects SigSet SigQueues TermStatus Process ProcessTree ProcessFacts ProcessSpawn.

Lemma position_lookup {A} (p : A -> bool) l i : position p l = Some i -> exists x, l !! i = Some x /\ p x = true.
Proof.
  intros (l1 & x & l2 & -> & <- & Hx & _)%position_Some. exists x. split; [|done]. by apply list_lookup_middle.
Qed.

(** * Leaving a group *)

(** The group without the process, and the table of groups afterwards. *)
Definition left_group (s : PState) (pid : Z) (grp : ProcessGrp) (leader' : option positive) (GT' : gmap Z positive) : Prop :=
  (leader' = pg_leader_process grp \/
   leader' = None /\ exists l lp, pg_leader_process grp = Some l /\ ps_processes s !! l = Some lp /\ pr_pid lp = pid) /\
  (GT' = PROCESSGRP_TABLE s \/ GT' = delete (pg_pgid grp) (PROCESSGRP_TABLE s)).

Lemma remove_process_runs s g grp r p :
  ps_processes s !! r = Some p -> ps_pgrps s !! g = Some grp -> pg_process_group grp !! pr_pid p = Some r ->
  (forall l, pg_leader_process grp = Some l -> is_Some (ps_processes s !! l)) ->
  exists leader' GT', left_group s (pr_pid p) grp leader' GT' /\
  remove_process g r s = (Ok 0, u_pgrps <[g := mkProcessGrp (pg_pgid grp) (delete (pr_pid p) (pg_process_group grp)) leader']>
    (u_pgrp_table (fun _ => GT') s)).
Proof.
  intros Hp Hg Hin Hl. unfold remove_process. run.
  assert (Hsize : (size (pg_process_group grp) <> 0)%nat) by (intros H0%map_size_empty_iff; rewrite H0 in Hin; by rewrite lookup_empty in Hin).
  destruct (Nat.ltb_spec (size (pg_process_group grp)) 1); [lia|].
  assert (Hlead : exists o, (match pg_leader_process grp with
      | Some l => lp ← read_process l; ok (Some (pr_pid lp)) | None => ok None end) s = (Ok o, s) /\
      (o = Some (pr_pid p) -> exists l lp, pg_leader_process grp = Some l /\ ps_processes s !! l = Some lp /\ pr_pid lp = pr_pid p)).
  { destruct (pg_leader_process grp) as [l|]; [|by exists None].
    destruct (Hl l eq_refl) as [lp Hlp]. exists (Some (pr_pid lp)). rewrite (run_read_process _ _ _ _ Hlp). split; [done|].
    intros [= Heq]. eauto. }
  destruct Hlead as (o & Ho & Hoq). rewrite (bind_ok _ _ _ _ _ Ho). cbv beta.
  assert (Hdel : exists GT', (if (size (pg_process_group grp) =? 1)%nat then ignore (del_pgrp (pg_pgid grp)) else ok tt) s
      = (Ok tt, u_pgrp_table (fun _ => GT') s) /\ (GT' = PROCESSGRP_TABLE s \/ GT' = delete (pg_pgid grp) (PROCESSGRP_TABLE s))).
  { destruct (size (pg_process_group grp) =? 1)%nat.
    - unfold ignore, attempt, del_pgrp, Table_del, mbind, M_bind, get, lift, ok_or. destruct (PROCESSGRP_TABLE s !! pg_pgid grp) eqn:E; simpl; rewrite ?E.
      + eexists. split; [reflexivity|by right].
      + exists (PROCESSGRP_TABLE s). split; [|by left]. by destruct s.
    - exists (PROCESSGRP_TABLE s). split; [|by left]. by destruct s. }
  destruct Hdel as (GT' & Hdel & HGT'). rewrite (bind_ok _ _ _ _ _ Hdel). cbv beta. rewrite Hin. run.
  exists (if bool_decide (o = Some (pr_pid p)) then None else pg_leader_process grp), GT'. split; [|done]. split; [|done].
  case_bool_decide; [right; eauto|by left].
Qed.

(** * Reaping *)

Section reap.
Variables (s : PState) (par r : positive) (pid : Z) (p z : Process) (st : LiveStatus) (cs ws ts : list positive) (term : TermStatus).
Hypotheses (Hwf : wf s) (Hpar : present (PROCESS_TABLE s) par) (Hp : ps_processes s !! par = Some p)
  (Hi : pr_inner p = Live st cs ws ts) (Hr : r ∈ cs) (Hz : ps_processes s !! r = Some z) (Hpid : pr_pid z = pid)
  (Hzi : pr_inner z = Zombie term).

(** The state after the child is reaped. *)
Definition reaped (s' : PState) : Prop := exists cs' g grp leader' GT',
  cs ≡ₚ r :: cs' /\ pr_pgrp z = Some g /\ ps_pgrps s !! g = Some grp /\ left_group s pid grp leader' GT' /\
  s' = u_processes <[r := set_pgrp_of z None]>
    (u_pgrps <[g := mkProcessGrp (pg_pgid grp) (delete pid (pg_process_group grp)) leader']> (u_pgrp_table (fun _ => GT')
    (u_processes <[par := set_inner p (Live st cs' ws ts)]> (u_process_table (fun _ => delete pid (PROCESS_TABLE s))
    (u_thread_table (fun _ => delete pid (THREAD_TABLE s)) s))))).

Lemma child_listed : PROCESS_TABLE s !! pid = Some r /\ par <> r.
Proof.
  assert (Hk : kids (node <$> ps_processes s) par = Some cs) by (unfold kids; rewrite lookup_fmap, Hp; simpl; by rewrite Hi).
  destruct (tr_kids _ _ (wf_tree _ Hwf) _ _ Hpar Hk) as [_ Hc]. apply Hc in Hr as [[q Hq] _].
  destruct (tr_table _ _ (wf_tree _ Hwf) _ _ Hq) as (_ & Hq' & _). rewrite lookup_fmap, Hz in Hq'. simplify_eq/=. split; [done|].
  intros <-. congruence.
Qed.

Lemma child_group : exists g grp, pr_pgrp z = Some g /\ ps_pgrps s !! g = Some grp /\ pg_process_group grp !! pid = Some r.
Proof.
  destruct child_listed as [HT _]. destruct (gr_group _ _ _ _ (wf_groups _ Hwf) _ _ HT) as (g & grp & Hg & ? & ?).
  exists g, grp. split_and!; [|done..]. unfold group_of in Hg. by rewrite lookup_fmap, Hz in Hg.
Qed.

(** Only the zombie has its identifier among the children. *)
Lemma position_child (P : gmap positive Process) : (forall x, pr_pid <$> P !! x = pr_pid <$> ps_processes s !! x) ->
  exists i, position (fun child => bool_decide (pr_pid <$> P !! child = Some pid)) cs = Some i /\ cs !! i = Some r.
Proof.
  intros HP. destruct (position _ cs) as [i|] eqn:E.
  - exists i. split; [done|]. apply position_lookup in E as (x & Hx & Hb). rewrite Hx. f_equal.
    apply bool_decide_eq_true in Hb. rewrite HP in Hb. destruct child_listed as [HT _].
    assert (Hk : kids (node <$> ps_processes s) par = Some cs) by (unfold kids; rewrite lookup_fmap, Hp; simpl; by rewrite Hi).
    destruct (tr_kids _ _ (wf_tree _ Hwf) _ _ Hpar Hk) as [_ Hc].
    apply list_elem_of_lookup_2, Hc in Hx as [[q Hq] _]. destruct (tr_table _ _ (wf_tree _ Hwf) _ _ Hq) as (_ & Hq' & _).
    rewrite lookup_fmap in Hq'. destruct (ps_processes s !! x); simplify_eq/=. congruence.
  - apply position_None in E. rewrite Forall_forall in E. apply list_elem_of_In in Hr. apply E in Hr.
    apply bool_decide_eq_false in Hr. destruct Hr. rewrite HP, Hz. simpl. congruence.
Qed.

Lemma remove_zombie_child_runs s1 : (forall x, pr_pid <$> ps_processes s1 !! x = pr_pid <$> ps_processes s !! x) ->
  ps_processes s1 !! par = Some p ->
  exists cs', cs ≡ₚ r :: cs' /\
  remove_zombie_child par pid s1 = (Ok r, u_processes <[par := set_inner p (Live st cs' ws ts)]> s1).
Proof.
  intros HP Hp1. destruct (position_child (ps_processes s1) HP) as (i & Hpos & Hx).
  exists (swap_remove i cs). split; [by apply swap_remove_perm|].
  unfold remove_zombie_child. run. rewrite Hi, Hpos. cbn [unwrap_option]. run. rewrite Hx. cbn [unwrap_option]. run. done.
Qed.

Lemma free_zombie_child_runs : exists s', free_zombie_child par pid s = (Ok (TermStatus_as_u32 term), s') /\ reaped s'.
Proof.
  destruct child_listed as [HT Hne]. destruct child_group as (g & grp & Hg & Hgrp & Hin).
  destruct (td_main _ _ _ _ _ _ _ (wf_threads _ Hwf) _ _ HT) as (t & th & HTT & _).
  set (s1 := u_process_table (fun _ => delete pid (PROCESS_TABLE s)) (u_thread_table (fun _ => delete pid (THREAD_TABLE s)) s)).
  destruct (remove_zombie_child_runs s1) as (cs' & Hperm & Hrem); [done|done|].
  set (s2 := u_processes <[par := set_inner p (Live st cs' ws ts)]> s1) in *.
  assert (Hz2 : ps_processes s2 !! r = Some z) by (simpl; by rewrite lookup_insert_ne).
  rewrite <- Hpid in Hin. destruct (remove_process_runs s2 g grp r z Hz2 Hgrp Hin) as (leader' & GT' & Hleft & Hrp).
  { intros l Hl. destruct (gr_leader _ _ _ _ (wf_groups _ Hwf) _ _ _ Hgrp Hl) as [m Hm]. rewrite lookup_fmap in Hm.
    apply lookup_insert_is_Some'. right. simpl. destruct (ps_processes s !! l); [by eexists|done]. }
  exists (u_processes <[r := set_pgrp_of z None]>
    (u_pgrps <[g := mkProcessGrp (pg_pgid grp) (delete (pr_pid z) (pg_process_group grp)) leader']> (u_pgrp_table (fun _ => GT') s2))). split.
  - unfold free_zombie_child.
    assert (H1 : unwrapM (del_thread pid) s = (Ok t, u_thread_table (fun _ => delete pid (THREAD_TABLE s)) s)).
    { unfold unwrapM, del_thread. rewrite run_get. unfold Table_del. rewrite HTT. done. }
    rewrite (bind_ok _ _ _ _ _ H1). cbv beta.
    assert (H2 : unwrapM (del_process pid) (u_thread_table (fun _ => delete pid (THREAD_TABLE s)) s) = (Ok r, s1)).
    { unfold unwrapM, del_process. rewrite run_get. unfold Table_del. simpl. rewrite HT. done. }
    rewrite (bind_ok _ _ _ _ _ H2), (bind_ok _ _ _ _ _ Hrem). cbv beta. unfold clean_pgrp_when_exit, Process_pgrp. run.
    rewrite Hg. cbn [unwrap_option]. run. rewrite run_ignore; rewrite Hrp; [|done]. cbn [snd]. unfold update_pgrp. run.
    cbn [set_pgrp_of pr_inner]. rewrite Hzi. done.
  - exists cs', g, grp, leader', GT'. rewrite Hpid in *. split_and!; [done..| |done].
    destruct Hleft as [Hl HG]. split; [|done]. destruct Hl as [|(? & l & lp & ? & Hlp & Hlpid)]; [by left|right]. split; [done|].
    simpl in Hlp. apply lookup_insert_Some in Hlp as [[<- <-]|[_ Hlp]]; [|by exists l, lp]. by exists par, p.
Qed.

Lemma reaped_wf s' : reaped s' -> wf s'.
Proof.
  intros (cs' & g & grp & leader' & GT' & Hperm & Hg & Hgrp & [Hl HGT] & ->).
  destruct child_listed as [HT Hne].
  assert (HrI : r <> IDLE) by (intros ->; apply (idle_not_listed _ _ (wf_tree _ Hwf)); by exists pid).
  assert (Hinj : forall q, PROCESS_TABLE s !! q = Some r -> q = pid) by (intros q Hq; by apply (table_inj _ _ (wf_tree _ Hwf) q pid r)).
  assert (Hnl : ~ listed (delete pid (PROCESS_TABLE s)) r) by (rewrite (listed_delete _ _ (wf_tree _ Hwf) pid r r HT); tauto).
  assert (Hnp : ~ present (delete pid (PROCESS_TABLE s)) r) by (intros [|]; done).
  split; simpl.
  - rewrite !fmap_insert. apply tree_unlisted; [|done].
    eapply (tree_reap _ _ (wf_tree _ Hwf) r pid par (node p) cs cs'); try done.
    + unfold kids. rewrite lookup_fmap, Hz. simpl. by rewrite Hzi.
    + by rewrite lookup_fmap, Hp.
    + simpl. by rewrite Hi.
  - rewrite !fmap_insert. apply groups_unlisted; [|done].
    rewrite (insert_id (member <$> _)) by (by rewrite lookup_fmap, Hp).
    eapply (groups_leave _ _ _ _ (wf_groups _ Hwf) r); try done.
    + unfold group_of. by rewrite lookup_fmap, Hz.
    + destruct Hl as [|[? _]]; auto.
    + destruct HGT as [-> | ->]; [done|apply delete_subseteq].
  - rewrite !fmap_insert. rewrite (insert_id (threads_in <$> _) par) by (rewrite lookup_fmap, Hp; unfold threads_in; simpl; by rewrite Hi).
    rewrite (insert_id (threads_in <$> _) r) by (rewrite lookup_fmap, Hz; done).
    apply (threads_reap _ _ _ _ _ _ _ (wf_threads _ Hwf) r); try done. unfold threads_of. rewrite lookup_fmap, Hz. simpl. unfold threads_in. by rewrite Hzi.
  - apply Hwf.
  - intros x px w [[<- <-]|[_ [[<- <-]|[_ Hx]]%lookup_insert_Some]]%lookup_insert_Some Hw.
    + apply (wf_waiters _ Hwf r z); done.
    + apply (wf_waiters _ Hwf par p); [done|]. unfold waiting_in. by rewrite Hi.
    + by eapply wf_waiters.
  - intros x Hx. destruct (wf_fresh _ Hwf x Hx) as (? & ? & ? & ?). rewrite !lookup_insert_ne by congruence. done.
  - intros x px [[<- <-]|[_ [[<- <-]|[_ Hx]]%lookup_insert_Some]]%lookup_insert_Some;
      [exact (wf_queues _ Hwf r z Hz)|exact (wf_queues _ Hwf par p Hp)|by eapply wf_queues].
  - intros g1 grp1 [[<- <-]|[_ Hg1]]%lookup_insert_Some; simpl; [|by apply (wf_zero _ Hwf g1)]. intros H0.
    pose proof (wf_zero _ Hwf _ _ Hgrp H0) as HI. destruct Hl as [->|(_ & l & lp & Hl & Hlp & Hlpid)]; [done|].
    destruct (tr_idle _ _ (wf_tree _ Hwf)) as [cI HnI]. rewrite HI in Hl. simplify_eq. rewrite lookup_fmap, Hlp in HnI. injection HnI as HnI _ _.
    destruct (tr_table _ _ (wf_tree _ Hwf) _ _ HT) as (? & _). lia.
Qed.

End reap.
