(* ===== verification/ProcessExit.v ===== *)
(** The exit of threads and processes: the last thread makes the process a
    zombie, gives its children to the idle process, and wakes a thread of the
    parent that waits for it. *)

From stdpp Require Import base list gmap numbers.
From S2P Require Import Prelude Errno Effects SigSet SigQueues TermStatus Process ProcessTree ProcessFacts ProcessSpawn ProcessReap.

(** * The exit of a thread *)

Section thread.
Variables (s : PState) (t : positive) (th : Thread) (p : Process) (st : LiveStatus) (cs ws ts : list positive) (term : TermStatus).
Hypotheses (Hwf : wf s) (Ht : runs s t th) (Hp : ps_processes s !! th_process th = Some p) (Hi : pr_inner p = Live st cs ws ts).

Definition thread_exited (ts' : list positive) : PState :=
  u_threads <[t := mkThread (th_tid th) (th_clear_ctid th) (TExited term) (th_process th)]>
  (u_processes <[th_process th := set_inner p (Live st cs ws ts')]> (u_log (SchedDetach (th_tid th))
  (u_notifiers (fun n => n ∖ {[th_tid th]}) s))).

Lemma listed_thread u : u ∈ ts -> exists thu, ps_threads s !! u = Some thu /\ THREAD_TABLE s !! th_tid thu = Some u.
Proof.
  intros Hu. destruct (runs_process _ _ _ Hwf Ht) as [Hl _].
  destruct (td_list _ _ _ _ _ _ _ (wf_threads _ Hwf) (th_process th) ts Hl) as (_ & _ & Hin).
  - unfold threads_of. rewrite lookup_fmap, Hp. simpl. unfold threads_in. by rewrite Hi.
  - destruct (Hin _ Hu) as (thu & ? & _ & ? & _). eauto.
Qed.

Lemma Thread_exit_runs : exists ts', ts ≡ₚ t :: ts' /\ Thread_exit t term s = (Ok (length ts'), thread_exited ts').
Proof.
  destruct Ht as (Hth & Htt & Hin). destruct (runs_process _ _ _ Hwf Ht) as (_ & p' & st' & cs' & ws' & ts0 & Hp' & Hi' & Hmem).
  rewrite Hp in Hp'. injection Hp' as <-. rewrite Hi in Hi'. injection Hi' as <- <- <- <-.
  destruct (thread_at _ _ _ _ _ _ _ (wf_threads _ Hwf) _ _ _ Htt Hth) as [_ [_ _ _ _ HN _]].
  assert (Hpos : exists i, position (fun u => bool_decide (th_tid <$> ps_threads s !! u = Some (th_tid th))) ts = Some i /\ ts !! i = Some t).
  { destruct (position _ ts) as [i|] eqn:E.
    - exists i. split; [done|]. apply position_lookup in E as (x & Hx & Hb%bool_decide_eq_true). rewrite Hx. f_equal.
      apply list_elem_of_lookup_2, listed_thread in Hx as (thx & Hthx & Httx). rewrite Hthx in Hb. simplify_eq/=. congruence.
    - apply position_None in E. rewrite Forall_forall in E. apply list_elem_of_In in Hmem. apply E in Hmem.
      apply bool_decide_eq_false in Hmem. destruct Hmem. by rewrite Hth. }
  destruct Hpos as (i & Hpos & Hx). exists (swap_remove i ts). split; [by apply swap_remove_perm|].
  unfold Thread_exit. run. rewrite bool_decide_eq_true_2 by (by apply HN). run. rewrite Hi, Hpos. cbn [unwrap_option]. run. done.
Qed.

End thread.

(** * Adoption *)

Section adopt.
Variables (np : positive) (pI : Process) (stI : LiveStatus) (csI wsI tsI : list positive).

(** The processes after [np] adopted [cs]. *)
Definition adopted (P P' : gmap positive Process) (cs : list positive) : Prop := forall x,
  P' !! x = if decide (x = np) then Some (set_inner pI (Live stI (csI ++ cs) wsI tsI))
            else if decide (x ∈ cs) then (fun c => set_parent c np) <$> P !! x else P !! x.

Lemma adopt_runs done todo P s : adopted P (ps_processes s) done -> np ∉ todo -> NoDup (done ++ todo) ->
  (forall c, c ∈ todo -> exists pc par, P !! c = Some pc /\ pr_parent pc = Some par) ->
  exists P', for_each (fun child =>
        c ← read_process child;
        _ ← lift (unwrap_option (pr_parent c));
        _ ← set_process child (set_parent c np);
        push_child np child) todo s = (Ok tt, u_processes (fun _ => P') s) /\ adopted P P' (done ++ todo).
Proof.
  revert done s. induction todo as [|c todo IH]; intros done s Had Hnp Hnd Hc.
  - exists (ps_processes s). rewrite app_nil_r. split; [by destruct s|done].
  - apply not_elem_of_cons in Hnp as [Hcnp Hnp]. destruct (Hc c) as (pc & par & Hpc & Hparc); [by left|].
    assert (Hcd : c ∉ done).
    { apply list.NoDup_app in Hnd as (_ & Hd & _). intros Hin. apply (Hd c Hin). by left. }
    assert (Hcs : ps_processes s !! c = Some pc) by (rewrite (Had c), !decide_False by done; done).
    assert (Hnps : ps_processes s !! np = Some (set_inner pI (Live stI (csI ++ done) wsI tsI))) by (by rewrite (Had np), decide_True).
    cbn [for_each]. rewrite bind_assoc, (run_read_process _ _ _ _ Hcs), bind_assoc, Hparc. cbn [unwrap_option]. rewrite run_lift, bind_assoc, run_set_process.
    erewrite bind_ok; [|apply (run_push_child _ np c (set_inner pI (Live stI (csI ++ done) wsI tsI)) stI (csI ++ done) wsI tsI); [simpl; by rewrite lookup_insert_ne|done]].
    destruct (IH (done ++ [c]) (u_processes <[np := set_inner (set_inner pI (Live stI (csI ++ done) wsI tsI)) (Live stI ((csI ++ done) ++ [c]) wsI tsI)]>
      (u_processes <[c := set_parent pc np]> s))) as (P' & Hrun & Had').
    + intros x. simpl. destruct (decide (x = np)) as [->|Hx]; [rewrite lookup_insert_eq, <- app_assoc; done|]. rewrite lookup_insert_ne by done.
      destruct (decide (x = c)) as [->|Hxc].
      * rewrite lookup_insert_eq, decide_True, Hpc by (apply elem_of_app; right; by left). done.
      * rewrite lookup_insert_ne, (Had x), decide_False by done. destruct (decide (x ∈ done)) as [Hin|Hin].
        -- rewrite decide_True; [done|]. apply elem_of_app. by left.
        -- rewrite decide_False; [done|]. rewrite elem_of_app, list_elem_of_singleton. tauto.
    + done.
    + by rewrite <- app_assoc.
    + intros x Hx. apply Hc. by right.
    + exists P'. rewrite <- app_assoc in Had'. split; [|done]. rewrite Hrun. by destruct s.
Qed.

End adopt.

(** A process object changed in a way that the tree, the groups and the threads do not see. *)
Lemma wf_process s r p p' W' V' L' : wf s -> ps_processes s !! r = Some p ->
  node p' = node p -> member p' = member p -> threads_in p' = threads_in p -> quiet (pr_sig_queues p') ->
  (forall w, is_Some (ps_waiters s !! w) -> is_Some (W' !! w)) ->
  (forall w, w ∈ waiting_in p' -> is_Some (W' !! w)) -> (forall w, (ps_next s <= w)%positive -> W' !! w = None) ->
  wf (mkPState (<[r := p']> (ps_processes s)) (ps_threads s) (ps_pgrps s) W' (ps_next s) (PROCESS_TABLE s) (THREAD_TABLE s)
    (PROCESSGRP_TABLE s) (THREAD_ID_ALLOC s) (THREAD_NOTIFIERS s) (NEW_THREAD_TABLE s) V' L').
Proof.
  intros Hwf Hp Hn Hm Ht Hq HW Hw Hfr. pose proof (stored_below _ _ _ Hwf Hp). split; simpl.
  - rewrite (fmap_same node _ _ p) by done. apply Hwf.
  - rewrite (fmap_same member _ _ p) by done. apply Hwf.
  - rewrite (fmap_same threads_in _ _ p) by done. apply Hwf.
  - apply Hwf.
  - intros x px w [[<- <-]|[_ Hx]]%lookup_insert_Some Hin; [by apply Hw|]. apply HW. by eapply wf_waiters.
  - intros x Hx. destruct (wf_fresh _ Hwf x Hx) as (? & ? & ? & ?). rewrite lookup_insert_ne by lia. auto.
  - intros x px [[<- <-]|[_ Hx]]%lookup_insert_Some; [done|by eapply wf_queues].
  - apply Hwf.
Qed.

(** The log does not matter. *)
Definition with_log (s : PState) (L' : list Effect) : PState :=
  mkPState (ps_processes s) (ps_threads s) (ps_pgrps s) (ps_waiters s) (ps_next s) (PROCESS_TABLE s) (THREAD_TABLE s)
    (PROCESSGRP_TABLE s) (THREAD_ID_ALLOC s) (THREAD_NOTIFIERS s) (NEW_THREAD_TABLE s) (EXIT_CHILDREN_STATUS s) L'.

Lemma wf_log s L' : wf s -> wf (with_log s L').
Proof. intros Hs. by split; apply Hs. Qed.

(** * The state after the exit of a thread *)

Section exited.
Variables (s : PState) (t : positive) (th : Thread) (p : Process) (st : LiveStatus) (cs ws ts ts' : list positive) (term : TermStatus) (ctid : option Z).
Hypotheses (Hwf : wf s) (Ht : runs s t th) (Hp : ps_processes s !! th_process th = Some p) (Hi : pr_inner p = Live st cs ws ts)
  (Hperm : ts ≡ₚ t :: ts').

Abbreviation r := (th_process th) (only parsing).
Abbreviation Th' := (<[t := mkThread (th_tid th) ctid (TExited term) (th_process th)]> (ps_threads s)) (only parsing).
Abbreviation N' := (THREAD_NOTIFIERS s ∖ {[th_tid th]}) (only parsing).

Lemma process_listed : PROCESS_TABLE s !! pr_pid p = Some r /\ (forall q, PROCESS_TABLE s !! q = Some r -> q = pr_pid p) /\ r <> IDLE.
Proof.
  destruct (runs_process _ _ _ Hwf Ht) as [[q Hq] _]. destruct (tr_table _ _ (wf_tree _ Hwf) _ _ Hq) as (_ & Hq' & _).
  rewrite lookup_fmap, Hp in Hq'. simplify_eq/=. split_and!; [done| |].
  - intros q' Hq'. by apply (table_inj _ _ (wf_tree _ Hwf) q' (pr_pid p) r).
  - intros Heq. apply (idle_not_listed _ _ (wf_tree _ Hwf)). rewrite <- Heq. by eexists.
Qed.

(** Other threads remain. *)
Lemma wf_thread_exited V' L' : ts' <> [] ->
  wf (mkPState (<[r := set_inner p (Live st cs ws ts')]> (ps_processes s)) Th' (ps_pgrps s) (ps_waiters s) (ps_next s) (PROCESS_TABLE s)
    (if th_tid th =? pr_pid p then THREAD_TABLE s else delete (th_tid th) (THREAD_TABLE s))
    (PROCESSGRP_TABLE s) (THREAD_ID_ALLOC s) N' (NEW_THREAD_TABLE s) V' L').
Proof.
  intros Hts'. destruct process_listed as (HT & Hinj & HI). pose proof Ht as (Hth & Htt & Hin).
  pose proof (stored_below _ _ _ Hwf Hp). split; simpl.
  - rewrite (fmap_same node _ _ p); [apply Hwf|done|]. unfold node. simpl. by rewrite Hi.
  - rewrite (fmap_same member _ _ p); [apply Hwf|done|done].
  - rewrite fmap_insert. replace (threads_in (set_inner p (Live st cs ws ts'))) with (match ts' with [] => None | _ => Some ts' end) by (by destruct ts').
    apply (threads_exit _ _ _ _ _ _ _ (wf_threads _ Hwf) t th ts); try done.
    unfold threads_of. rewrite lookup_fmap, Hp. simpl. unfold threads_in. by rewrite Hi.
  - apply Hwf.
  - intros x px w [[<- <-]|[_ Hx]]%lookup_insert_Some Hw; [|by eapply wf_waiters].
    apply (wf_waiters _ Hwf r p); [done|]. unfold waiting_in. by rewrite Hi.
  - intros x Hx. destruct (wf_fresh _ Hwf x Hx) as (? & ? & ? & ?). rewrite !lookup_insert_ne by (lia || congruence). done.
  - intros x px [[<- <-]|[_ Hx]]%lookup_insert_Some; [exact (wf_queues _ Hwf r p Hp)|by eapply wf_queues].
  - apply Hwf.
Qed.

(** It was the last one: a zombie whose children the idle process has adopted. *)
Lemma wf_zombie pI stI csI wsI tsI P' V' L' : ts' = [] ->
  ps_processes s !! IDLE = Some pI -> pr_inner pI = Live stI csI wsI tsI ->
  adopted IDLE pI stI csI wsI tsI (<[r := set_inner p (Live st cs ws [])]> (ps_processes s)) P' cs ->
  wf (mkPState (<[r := set_inner p (Zombie term)]> P') Th' (ps_pgrps s) (ps_waiters s) (ps_next s) (PROCESS_TABLE s)
    (if th_tid th =? pr_pid p then THREAD_TABLE s else delete (th_tid th) (THREAD_TABLE s))
    (PROCESSGRP_TABLE s) (THREAD_ID_ALLOC s) N' (NEW_THREAD_TABLE s) V' L').
Proof.
  intros Hts' HpI HiI Had. destruct process_listed as (HT & Hinj & HrI). pose proof Ht as (Hth & Htt & Hin).
  assert (Hl : listed (PROCESS_TABLE s) r) by (by eexists).
  assert (HP' : forall x, (<[r := set_inner p (Zombie term)]> P') !! x = if decide (x = r) then Some (set_inner p (Zombie term)) else
     if decide (x = IDLE) then Some (set_inner pI (Live stI (csI ++ cs) wsI tsI)) else
     if decide (x ∈ cs) then (fun c => set_parent c IDLE) <$> ps_processes s !! x else ps_processes s !! x).
  { intros x. destruct (decide (x = r)) as [->|Hx]; [by rewrite lookup_insert_eq|]. rewrite lookup_insert_ne, (Had x) by done.
    repeat case_decide; try done; by rewrite lookup_insert_ne. }
  assert (Hsame : forall (f : Process -> Z * option positive), (forall q i, f (set_inner q i) = f q) -> (forall q x, f (set_parent q x) = f q) ->
    f <$> <[r := set_inner p (Zombie term)]> P' = f <$> ps_processes s).
  { intros f Hf1 Hf2. apply map_eq. intros x. rewrite !lookup_fmap, HP'. repeat case_decide; subst; rewrite ?Hp, ?HpI; simpl; rewrite ?Hf1; try done.
    destruct (ps_processes s !! x); simpl; by rewrite ?Hf2. }
  split; simpl.
  - apply (tree_exit _ _ (wf_tree _ Hwf) r (node p) cs (node pI) csI); try done; try (by rewrite lookup_fmap, ?Hp, ?HpI); try (simpl; by rewrite ?Hi, ?HiI).
    intros x. rewrite !lookup_fmap, HP'. repeat case_decide; try done. by destruct (ps_processes s !! x).
  - rewrite Hsame by done. apply Hwf.
  - replace (threads_in <$> <[r := set_inner p (Zombie term)]> P') with (<[r := match ts' with [] => None | _ => Some ts' end]> (threads_in <$> ps_processes s)).
    { apply (threads_exit _ _ _ _ _ _ _ (wf_threads _ Hwf) t th ts); try done.
      unfold threads_of. rewrite lookup_fmap, Hp. simpl. unfold threads_in. by rewrite Hi. }
    rewrite Hts'. apply map_eq. intros x. rewrite lookup_fmap, HP'. case_decide; [subst; by rewrite lookup_insert_eq|].
    rewrite lookup_insert_ne, lookup_fmap by done. case_decide; [subst; rewrite HpI; unfold threads_in; simpl; by rewrite HiI|].
    case_decide; [|done]. by destruct (ps_processes s !! x).
  - apply Hwf.
  - intros x px w. rewrite HP'. repeat case_decide; intros Hx Hw; simplify_eq.
    + by apply not_elem_of_nil in Hw.
    + apply (wf_waiters _ Hwf IDLE pI); [done|]. unfold waiting_in. by rewrite HiI.
    + apply fmap_Some in Hx as (q & Hq & ->). by apply (wf_waiters _ Hwf x q).
    + by eapply wf_waiters.
  - intros x Hx. destruct (wf_fresh _ Hwf x Hx) as (Hnone & ? & ? & ?). split_and!; [|rewrite lookup_insert_ne; congruence|done..].
    rewrite HP', !decide_False by congruence. by case_decide; rewrite ?Hnone.
  - intros x px. rewrite HP'. repeat case_decide; intros Hx; simplify_eq;
      [exact (wf_queues _ Hwf r p Hp)|exact (wf_queues _ Hwf IDLE pI HpI)| |by eapply wf_queues].
    apply fmap_Some in Hx as (q & Hq & ->). exact (wf_queues _ Hwf x q Hq).
  - apply Hwf.
Qed.

End exited.

(** * Waking a waiter *)

(** The first waiter that [g] accepts, at position [i]. *)
Definition first_waiter (W : gmap positive Waiter) (ws : list positive) (g : ProcessFilter -> option Z) (i : nat) (w : positive)
    (wt : Waiter) (pid : Z) : Prop :=
  ws !! i = Some w /\ W !! w = Some wt /\ g (wt_data wt) = Some pid /\
  forall j x wx, (j < i)%nat -> ws !! j = Some x -> W !! x = Some wx -> g (wt_data wx) = None.

Definition woken (wt : Waiter) (pid : Z) : Waiter := mkWaiter (wt_thread wt) true (wt_data wt) (Some pid).

Lemma wake_position_runs cond g ws s k : (forall w, w ∈ ws -> exists wt, ps_waiters s !! w = Some wt /\ cond (wt_data wt) = Ok (g (wt_data wt))) ->
  (exists i w wt pid, first_waiter (ps_waiters s) ws g i w wt pid /\
     wake_position cond k ws s = (Ok (Some ((k + i)%nat, wt)), u_waiters <[w := woken wt pid]> s)) \/
  ((forall w wt, w ∈ ws -> ps_waiters s !! w = Some wt -> g (wt_data wt) = None) /\ wake_position cond k ws s = (Ok None, s)).
Proof.
  revert k. induction ws as [|w ws IH]; intros k Hw.
  - right. split; [|done]. by intros ? ? ?%not_elem_of_nil.
  - destruct (Hw w) as (wt & Hwt & Hc); [by left|]. cbn [wake_position]. run. rewrite Hwt. cbn [unwrap_option]. run. rewrite Hc. run.
    destruct (g (wt_data wt)) as [pid|] eqn:E.
    + left. exists 0%nat, w, wt, pid. split; [split_and!; [done..|intros; lia]|]. run. by rewrite Nat.add_0_r.
    + destruct (IH (S k)) as [(i & x & wx & pid & (Hx & HWx & Hg & Hfirst) & Hrun)|[Hall Hrun]].
      * intros x Hx. apply Hw. by right.
      * left. exists (S i), x, wx, pid. split; [|by rewrite <- Nat.add_succ_comm]. split_and!; [done..|].
        intros [|j] y wy Hj Hy Hwy; simplify_eq/=; [done|]. eapply (Hfirst j); [lia|done..].
      * right. split; [|done]. intros x wx [->|Hx]%elem_of_cons Hwx; [by simplify_eq|by eapply Hall].
Qed.

(** * The exit of a process *)

Lemma ProcessInner_exit_runs s r p st cs ws ts np pI stI csI wsI tsI term :
  ps_processes s !! r = Some p -> pr_inner p = Live st cs ws ts -> ps_processes s !! np = Some pI -> pr_inner pI = Live stI csI wsI tsI ->
  r <> np -> np ∉ cs -> r ∉ cs -> NoDup cs ->
  (forall c, c ∈ cs -> exists pc par, ps_processes s !! c = Some pc /\ pr_parent pc = Some par) ->
  exists P', ProcessInner_exit r term np s = (Ok tt, u_processes (fun _ => <[r := set_inner p (Zombie term)]> P') s) /\
    adopted np pI stI csI wsI tsI (ps_processes s) P' cs.
Proof.
  intros Hr Hi Hnp HI Hne Hnpc Hrc Hnd Hc.
  destruct (adopt_runs np pI stI csI wsI tsI [] cs (ps_processes s) s) as (P' & Hrun & Had); [|done..|].
  - intros x. rewrite (decide_False (P := x ∈ [])) by apply not_elem_of_nil. rewrite app_nil_r.
    destruct (decide (x = np)) as [->|]; [|done]. rewrite Hnp. f_equal. destruct pI. simpl in *. by subst.
  - exists P'. split; [|done]. unfold ProcessInner_exit. run. rewrite Hi. cbn [ProcessInner_children unwrap_option]. run.
    rewrite (bind_ok _ _ _ _ _ Hrun). cbv beta.
    rewrite (run_read_process r p); [done|]. simpl. rewrite (Had r), !decide_False by done. done.
Qed.

Lemma filter_runs s f r p g grp : ps_processes s !! r = Some p -> pr_pgrp p = Some g -> ps_pgrps s !! g = Some grp ->
  exists b, filter_matches s f r = Ok b.
Proof.
  intros Hp Hg Hgrp. unfold filter_matches. rewrite Hp. simpl. destruct f; [by eexists..|]. rewrite Hg. simpl. rewrite Hgrp. by eexists.
Qed.

(** The filter sees the identifier of a process and its group. *)
Lemma filter_same s s' f r p p' : ps_processes s !! r = Some p -> ps_processes s' !! r = Some p' -> member p' = member p ->
  (forall g, pg_pgid <$> ps_pgrps s' !! g = pg_pgid <$> ps_pgrps s !! g) -> filter_matches s' f r = filter_matches s f r.
Proof.
  intros Hp Hp' [= Hpid Hg] HG. unfold filter_matches. rewrite Hp, Hp'. simpl. destruct f; [done|by rewrite Hpid|]. rewrite Hg.
  destruct (pr_pgrp p) as [g|]; [|done]. simpl. specialize (HG g). destruct (ps_pgrps s' !! g), (ps_pgrps s !! g); simplify_eq/=; congruence.
Qed.

Lemma send_sigchld_runs s r p : ps_processes s !! r = Some p -> quiet (pr_sig_queues p) ->
  send_sigchld_to r s = (Ok tt, u_processes <[r := set_queues_of p chld_pending]> s).
Proof. intros Hp Hq. destruct (quiet_enqueue _ Hq) as [told He]. unfold send_sigchld_to. run. rewrite He. run. done. Qed.

Lemma clean_runs s r p g grp : ps_processes s !! r = Some p -> pr_pgrp p = Some g -> ps_pgrps s !! g = Some grp ->
  pg_process_group grp !! pr_pid p = Some r -> (forall l, pg_leader_process grp = Some l -> is_Some (ps_processes s !! l)) ->
  exists leader' GT', left_group s (pr_pid p) grp leader' GT' /\
  clean_pgrp_when_exit r s = (Ok tt, u_processes <[r := set_pgrp_of p None]>
    (u_pgrps <[g := mkProcessGrp (pg_pgid grp) (delete (pr_pid p) (pg_process_group grp)) leader']> (u_pgrp_table (fun _ => GT') s))).
Proof.
  intros Hp Hg Hgrp Hin Hl. destruct (remove_process_runs s g grp r p Hp Hgrp Hin Hl) as (leader' & GT' & Hleft & Hrp).
  exists leader', GT'. split; [done|]. unfold clean_pgrp_when_exit, Process_pgrp. run. rewrite Hg. cbn [unwrap_option]. run.
  rewrite run_ignore; rewrite Hrp; [|done]. cbn [snd]. unfold update_pgrp. run. done.
Qed.

Section exit.
Variables (s : PState) (t : positive) (th : Thread) (p : Process) (st : LiveStatus) (cs ws ts : list positive) (term : TermStatus).
Hypotheses (Hwf : wf s) (Ht : runs s t th) (Hp : ps_processes s !! th_process th = Some p) (Hi : pr_inner p = Live st cs ws ts).

Abbreviation r := (th_process th) (only parsing).
Abbreviation pid := (pr_pid p) (only parsing).
Abbreviation Th1 := (<[t := mkThread (th_tid th) None (TExited term) (th_process th)]> (ps_threads s)) (only parsing).
Abbreviation TT1 := (if th_tid th =? pr_pid p then THREAD_TABLE s else delete (th_tid th) (THREAD_TABLE s)) (only parsing).
Abbreviation N1 := (THREAD_NOTIFIERS s ∖ {[th_tid th]}) (only parsing).

(** The state when the process may have to exit. *)
Definition exit_base (ts' : list positive) (L : list Effect) : PState :=
  mkPState (<[r := set_inner p (Live st cs ws ts')]> (ps_processes s)) Th1 (ps_pgrps s) (ps_waiters s) (ps_next s) (PROCESS_TABLE s) TT1
    (PROCESSGRP_TABLE s) (THREAD_ID_ALLOC s) N1 (NEW_THREAD_TABLE s) (EXIT_CHILDREN_STATUS s) L.

Lemma exit_prefix : exists ts' L, ts ≡ₚ t :: ts' /\
  exit_thread t term s =
  (_ ← (if (length ts' =? 0)%nat then _ ← log (CloseAllFiles pid); exit_process t term else ok tt);
   log (FutexWake (ProcessFutex r) 1)) (exit_base ts' L).
Proof.
  destruct (Thread_exit_runs s t th p st cs ws ts term Hwf Ht Hp Hi) as (ts' & Hperm & Hrun). exists ts'.
  pose proof Ht as (Hth & Htt & Hin). unfold exit_thread. run. rewrite Hin, (bind_ok _ _ _ _ _ Hrun). cbv beta.
  set (s1 := thread_exited s t th p st cs ws term ts').
  assert (Hlog : exists L, (match th_clear_ctid th with
    | Some ctid_ptr => _ ← log (StoreUser ctid_ptr 0); log (FutexWake (UserFutex ctid_ptr) 1) | None => ok tt end) s1
    = (Ok tt, mkPState (ps_processes s1) (ps_threads s1) (ps_pgrps s1) (ps_waiters s1) (ps_next s1) (PROCESS_TABLE s1) (THREAD_TABLE s1)
        (PROCESSGRP_TABLE s1) (THREAD_ID_ALLOC s1) (THREAD_NOTIFIERS s1) (NEW_THREAD_TABLE s1) (EXIT_CHILDREN_STATUS s1) L)).
  { destruct (th_clear_ctid th); eexists; reflexivity. }
  destruct Hlog as [L Hlog]. rewrite (bind_ok _ _ _ _ _ Hlog). cbv beta. clear Hlog.
  erewrite run_read_thread by (simpl; apply lookup_insert_eq). run. cbn [th_tid th_process th_inner].
  exists (L ++ [WakeRobustList (th_tid th)]). split; [done|].
  assert (Hdel : forall sx, THREAD_TABLE sx !! th_tid th = Some t ->
    (if negb (th_tid th =? pid) then _ ← unwrapM (del_thread (th_tid th)); ok tt else ok tt) sx
    = (Ok tt, u_thread_table (fun _ => if th_tid th =? pid then THREAD_TABLE sx else delete (th_tid th) (THREAD_TABLE sx)) sx)).
  { intros sx Hsx. destruct (th_tid th =? pid); cbn [negb]; [by destruct sx|].
    unfold unwrapM, del_thread, mbind, M_bind, get, lift, Table_del. rewrite Hsx. done. }
  cbn [pr_pid set_inner]. erewrite bind_ok; [|apply Hdel; exact Htt]. cbv beta.
  unfold exit_base, u_thread_table, u_log, u_threads. simpl. rewrite insert_insert_eq. reflexivity.
Qed.

(** The children, the parent [par] and the idle process. *)
Record kin (par : positive) (pp pI : Process) (stP : LiveStatus) (csP wsP tsP : list positive) (stI : LiveStatus) (csI wsI tsI : list positive) : Prop := {
  kn_parent : pr_parent p = Some par;
  kn_stored : ps_processes s !! par = Some pp;
  kn_live : pr_inner pp = Live stP csP wsP tsP;
  kn_ne : par <> r;
  kn_par_cs : par ∉ cs;
  kn_zero : pr_pid pp = 0 <-> par = IDLE;
  kn_in : r ∈ csP;
  kn_present : present (PROCESS_TABLE s) par;
  kn_idle : ps_processes s !! IDLE = Some pI;
  kn_idle_live : pr_inner pI = Live stI csI wsI tsI;
  kn_idle_cs : IDLE ∉ cs;
  kn_self_cs : r ∉ cs;
  kn_self : r <> IDLE;
  kn_nodup : NoDup cs;
  kn_cs : forall c, c ∈ cs -> exists pc q, ps_processes s !! c = Some pc /\ pr_parent pc = Some q;
}.

Lemma family : exists par pp pI stP csP wsP tsP stI csI wsI tsI, kin par pp pI stP csP wsP tsP stI csI wsI tsI.
Proof.
  destruct (process_listed s t th p Hwf Ht Hp) as (HT & _ & HrI). pose proof (wf_tree _ Hwf) as Htree.
  destruct (tr_table _ _ Htree _ _ HT) as (Hpos & _ & par & Hpar & Hpres & [csP HkP] & Hlt).
  unfold parent in Hpar. rewrite lookup_fmap, Hp in Hpar. simpl in Hpar.
  assert (Hlive : forall x cx, kids (node <$> ps_processes s) x = Some cx -> exists px stx wsx tsx, ps_processes s !! x = Some px /\ pr_inner px = Live stx cx wsx tsx).
  { intros x cx Hk. unfold kids in Hk. rewrite lookup_fmap in Hk. destruct (ps_processes s !! x) as [px|]; [|done]. simpl in Hk.
    destruct (pr_inner px) as [a b c d|] eqn:E; simplify_eq/=. by exists px, a, c, d. }
  destruct (Hlive _ _ HkP) as (pp & stP & wsP & tsP & Hpp & HiP).
  destruct (tr_idle _ _ Htree) as [csI HnI].
  assert (HkI : kids (node <$> ps_processes s) IDLE = Some csI) by (unfold kids; by rewrite HnI).
  destruct (Hlive _ _ HkI) as (pI & stI & wsI & tsI & HpI & HiI).
  destruct (tr_kids _ _ Htree r cs) as [Hnd Hc]; [right; by eexists|unfold kids; rewrite lookup_fmap, Hp; simpl; by rewrite Hi|].
  destruct (tr_kids _ _ Htree par csP) as [_ HcP]; [done..|].
  assert (Hafter : forall c, c ∈ cs -> (r < c)%positive) by (intros c [Hlc Hpc]%Hc; by apply (parent_present _ _ Htree)).
  pose proof (idle_first _ _ Htree r ltac:(by eexists)) as HIr.
  exists par, pp, pI, stP, csP, wsP, tsP, stI, csI, wsI, tsI. split; try done.
  - intros ->. lia.
  - intros Hin%Hafter. lia.
  - split; [|intros ->; rewrite lookup_fmap, Hpp in HnI; injection HnI; auto].
    intros H0. destruct Hpres as [|[q Hq]]; [done|]. destruct (tr_table _ _ Htree _ _ Hq) as (? & Hq' & _). rewrite lookup_fmap, Hpp in Hq'. simplify_eq/=. lia.
  - apply HcP. split; [by eexists|]. unfold parent. by rewrite lookup_fmap, Hp.
  - intros Hin%Hafter. lia.
  - intros Hin%Hafter. lia.
  - intros c Hin. apply Hc in Hin as [Hlc Hpc]. unfold parent in Hpc. rewrite lookup_fmap in Hpc. destruct (ps_processes s !! c) as [pc|]; [|done]. eauto.
Qed.

Section kin.
Variables (par : positive) (pp pI : Process) (stP : LiveStatus) (csP wsP tsP : list positive) (stI : LiveStatus) (csI wsI tsI : list positive).
Hypotheses (K : kin par pp pI stP csP wsP tsP stI csI wsI tsI) (Hone : ts ≡ₚ [t]).

Abbreviation P1 := (<[r := set_inner p (Live st cs ws [])]> (ps_processes s)) (only parsing).

Lemma inner_exit_runs sx : ps_processes sx = P1 ->
  exists P', ProcessInner_exit r term IDLE sx = (Ok tt, u_processes (fun _ => <[r := set_inner p (Zombie term)]> P') sx) /\
    adopted IDLE pI stI csI wsI tsI P1 P' cs.
Proof.
  intros Hsx. destruct (ProcessInner_exit_runs sx r (set_inner p (Live st cs ws [])) st cs ws [] IDLE pI stI csI wsI tsI term) as (P' & Hrun & Had);
    rewrite ?Hsx; try apply K; try done.
  - apply lookup_insert_eq.
  - rewrite lookup_insert_ne by apply K. apply K.
  - intros c Hc. rewrite lookup_insert_ne; [by apply K|]. intros <-. by apply (kn_self_cs _ _ _ _ _ _ _ _ _ _ _ K).
  - exists P'. by rewrite Hsx in Had.
Qed.

(** The process [q] wants the exit of the process: the answer of its filter. *)
Definition wants (f : ProcessFilter) : option Z := match filter_matches s f r with Ok true => Some pid | _ => None end.

(** The parent lives on: it gets [SIGCHLD] and a waiter of it may be woken. *)
Definition exited_to_parent (s' : PState) : Prop := exists P' wsP' W' L',
  adopted IDLE pI stI csI wsI tsI P1 P' cs /\
  ((exists i w wt q, first_waiter (ps_waiters s) wsP wants i w wt q /\ W' = <[w := woken wt q]> (ps_waiters s) /\ wsP' = swap_remove i wsP) \/
   (forall w wt, w ∈ wsP -> ps_waiters s !! w = Some wt -> wants (wt_data wt) = None) /\ W' = ps_waiters s /\ wsP' = wsP) /\
  s' = mkPState (<[par := set_inner (set_queues_of pp chld_pending) (Live stP csP wsP' tsP)]> (<[r := set_inner p (Zombie term)]> P')) Th1
    (ps_pgrps s) W' (ps_next s) (PROCESS_TABLE s) TT1 (PROCESSGRP_TABLE s) (THREAD_ID_ALLOC s) N1 (NEW_THREAD_TABLE s)
    (delete pid (EXIT_CHILDREN_STATUS s)) L'.

Lemma last_prefix : exists L, exit_thread t term s =
  (_ ← (_ ← log (CloseAllFiles pid); exit_process t term); log (FutexWake (ProcessFutex r) 1)) (exit_base [] L).
Proof.
  destruct exit_prefix as (ts' & L & Hperm & ->). rewrite Hone in Hperm. apply Permutation_cons_inv, Permutation_nil in Hperm as ->. by exists L.
Qed.

(** [exit_process] up to the choice by the parent. *)
Lemma process_prefix : exists L, exit_thread t term s =
  (_ ← (if pr_pid pp =? 0 then
          _ ← unwrapM (del_thread pid);
          _ ← unwrapM (del_process pid);
          _ ← clean_pgrp_when_exit r;
          _ ← ProcessInner_exit r term IDLE;
          _ ← reap_zombie_child_created_with_vfork pid;
          _ ← remove_zombie_child IDLE pid;
          ok tt
        else
          _ ← ProcessInner_exit r term IDLE;
          _ ← reap_zombie_child_created_with_vfork pid;
          _ ← send_sigchld_to par;
          pp ← read_process par;
          match pr_inner pp with
          | Zombie _ => panic
          | Live status children waiting_children threads =>
              s ← get;
              waiting_children ← del_and_wake_one_waiter waiting_children (fun waiter_data =>
                b ← filter_matches s waiter_data r; Ok (if b : bool then Some pid else None));
              pp ← read_process par;
              set_process par (set_inner pp (Live status children waiting_children threads))
          end);
   log (FutexWake (ProcessFutex r) 1)) (exit_base [] L).
Proof.
  destruct last_prefix as [L ->]. run.
  set (s1 := u_log (CloseAllFiles pid) (exit_base [] L)).
  assert (Hr1 : ps_processes s1 !! r = Some (set_inner p (Live st cs ws []))) by apply lookup_insert_eq.
  assert (Ht1 : ps_threads s1 !! t = Some (mkThread (th_tid th) None (TExited term) r)) by apply lookup_insert_eq.
  assert (Hpp1 : ps_processes s1 !! par = Some pp) by (simpl; rewrite lookup_insert_ne by (symmetry; apply K); apply K).
  unfold exit_process. rewrite bind_assoc, (run_read_thread _ _ _ _ Ht1). cbv zeta. cbn [th_process].
  rewrite bind_assoc, (run_read_process _ _ _ _ Hr1). cbn [pr_pid pr_parent set_inner].
  rewrite (kn_parent _ _ _ _ _ _ _ _ _ _ _ K). cbn [unwrap_option]. run.
  eexists. reflexivity.
Qed.

Lemma exit_to_parent_runs : par <> IDLE -> exists s', exit_thread t term s = (Ok tt, s') /\ exited_to_parent s'.
Proof.
  intros HpI. destruct process_prefix as [L ->]. pose proof K as [_ Hpp HiP Hne Hpcs H0 _ _ _ _ _ _ _ _ _].
  destruct (Z.eqb_spec (pr_pid pp) 0) as [E|_]; [by apply H0 in E|].
  set (s2 := exit_base [] L).
  destruct (inner_exit_runs s2 eq_refl) as (P' & Hrun & Had). rewrite bind_assoc, (bind_ok _ _ _ _ _ Hrun). cbv beta.
  unfold reap_zombie_child_created_with_vfork. run.
  set (s3 := u_vforked _ _).
  assert (Hpp3 : ps_processes s3 !! par = Some pp).
  { simpl. rewrite lookup_insert_ne, (Had par), !decide_False by done. by rewrite lookup_insert_ne. }
  rewrite (bind_ok _ _ _ _ _ (send_sigchld_runs s3 par pp Hpp3 (wf_queues _ Hwf _ _ Hpp))). cbv beta.
  set (s4 := u_processes <[par := set_queues_of pp chld_pending]> s3).
  assert (Hpp4 : ps_processes s4 !! par = Some (set_queues_of pp chld_pending)) by apply lookup_insert_eq.
  rewrite bind_assoc, (run_read_process _ _ _ _ Hpp4). cbn [pr_inner set_queues_of]. rewrite HiP. run.
  match goal with |- context [del_and_wake_one_waiter wsP ?c] => set (cond := c) end.
  assert (Hcond : forall w, w ∈ wsP -> exists wt, ps_waiters s4 !! w = Some wt /\ cond (wt_data wt) = Ok (wants (wt_data wt))).
  { intros w Hw. unfold cond. destruct (wf_waiters _ Hwf par pp w Hpp) as [wt Hwt]; [unfold waiting_in; by rewrite HiP|]. exists wt. split; [done|].
    destruct (process_listed s t th p Hwf Ht Hp) as (HT & _). destruct (gr_group _ _ _ _ (wf_groups _ Hwf) _ _ HT) as (g & grp & Hg & Hgrp & _).
    unfold group_of in Hg. rewrite lookup_fmap, Hp in Hg. destruct (filter_runs s (wt_data wt) r p g grp Hp Hg Hgrp) as [b Hb].
    rewrite (filter_same s s4 _ r p (set_inner p (Zombie term)) Hp); [|simpl; by rewrite lookup_insert_ne, lookup_insert_eq|done|done].
    unfold wants. rewrite Hb. by destruct b. }
  unfold del_and_wake_one_waiter.
  destruct (wake_position_runs cond wants wsP s4 0 Hcond) as [(i & w & wt & q & Hfirst & Hwake)|[Hnone Hwake]];
    rewrite bind_assoc, (bind_ok _ _ _ _ _ Hwake); cbv beta iota; run;
    eexists; (split; [reflexivity|]); eexists P', _, _, _;
    (split; [exact Had|]); (split; [|unfold u_log, u_processes; simpl; rewrite insert_insert_eq; reflexivity]).
  - left. by exists i, w, wt, q.
  - by right.
Qed.

Lemma adopted_parent P' : adopted IDLE pI stI csI wsI tsI P1 P' cs -> par <> IDLE -> (<[r := set_inner p (Zombie term)]> P') !! par = Some pp.
Proof.
  intros Had HpI. rewrite lookup_insert_ne by (symmetry; apply K). rewrite (Had par), !decide_False by (done || apply K).
  rewrite lookup_insert_ne by (symmetry; apply K). apply K.
Qed.

Lemma exited_to_parent_wf s' : par <> IDLE -> exited_to_parent s' -> wf s'.
Proof.
  intros HpI (P' & wsP' & W' & L' & Had & Hwake & ->).
  pose proof (wf_zombie s t th p st cs ws ts [] term None Hwf Ht Hp Hi Hone pI stI csI wsI tsI P' (EXIT_CHILDREN_STATUS s) []
    eq_refl (kn_idle _ _ _ _ _ _ _ _ _ _ _ K) (kn_idle_live _ _ _ _ _ _ _ _ _ _ _ K) Had) as Hz.
  assert (HW : (forall w, is_Some (ps_waiters s !! w) -> is_Some (W' !! w)) /\ (forall w, (ps_next s <= w)%positive -> W' !! w = None) /\ forall w, w ∈ wsP' -> w ∈ wsP).
  { destruct Hwake as [(i & w & wt & q & (Hi' & Hw & _) & -> & ->)|(_ & -> & ->)]; [|split_and!; [done|intros; by apply Hwf|done]].
    split_and!.
    - intros x Hx. apply lookup_insert_is_Some'. by right.
    - intros x Hx. destruct (wf_fresh _ Hwf x Hx) as (_ & _ & _ & HN). rewrite lookup_insert_ne by congruence. done.
    - intros x Hx. rewrite (swap_remove_perm wsP i w Hi'). by right. }
  destruct HW as (HW1 & HW2 & HW3).
  apply (wf_process _ par pp _ W' (delete pid (EXIT_CHILDREN_STATUS s)) L' Hz (adopted_parent P' Had HpI)); try done.
  - unfold node. simpl. by rewrite (kn_live _ _ _ _ _ _ _ _ _ _ _ K).
  - unfold threads_in. simpl. by rewrite (kn_live _ _ _ _ _ _ _ _ _ _ _ K).
  - by right.
  - intros w Hw. apply HW1, (wf_waiters _ Hwf par pp); [apply K|]. unfold waiting_in. rewrite (kn_live _ _ _ _ _ _ _ _ _ _ _ K). by apply HW3.
Qed.

(** The state in which the process is a zombie child of the idle process. *)
Definition zombie_state (P' : gmap positive Process) : PState :=
  mkPState (<[r := set_inner p (Zombie term)]> P') Th1 (ps_pgrps s) (ps_waiters s) (ps_next s) (PROCESS_TABLE s) TT1
    (PROCESSGRP_TABLE s) (THREAD_ID_ALLOC s) N1 (NEW_THREAD_TABLE s) (delete pid (EXIT_CHILDREN_STATUS s)) [].

(** The parent is the idle process: the process disappears at once. *)
Definition exited_to_idle (s' : PState) : Prop := exists P' L' s1,
  adopted IDLE pI stI csI wsI tsI P1 P' cs /\
  reaped (zombie_state P') IDLE r pid (set_inner pI (Live stI (csI ++ cs) wsI tsI)) (set_inner p (Zombie term)) stI (csI ++ cs) wsI tsI s1 /\
  s' = with_log s1 L'.

Section idle.
Variable (P' : gmap positive Process).
Hypotheses (HpI : par = IDLE) (Had : adopted IDLE pI stI csI wsI tsI P1 P' cs).

Lemma zombie_wf : wf (zombie_state P').
Proof.
  exact (wf_zombie s t th p st cs ws ts [] term None Hwf Ht Hp Hi Hone pI stI csI wsI tsI P' (delete pid (EXIT_CHILDREN_STATUS s)) []
    eq_refl (kn_idle _ _ _ _ _ _ _ _ _ _ _ K) (kn_idle_live _ _ _ _ _ _ _ _ _ _ _ K) Had).
Qed.

Lemma zombie_idle : ps_processes (zombie_state P') !! IDLE = Some (set_inner pI (Live stI (csI ++ cs) wsI tsI)).
Proof. simpl. rewrite lookup_insert_ne by apply K. by rewrite (Had IDLE), decide_True. Qed.

Lemma zombie_child : r ∈ csI ++ cs.
Proof.
  apply elem_of_app. left. pose proof K as [_ Hpp HiP _ _ _ Hin _ HI HiI _ _ _ _ _]. rewrite HpI, HI in Hpp. simplify_eq.
  rewrite HiI in HiP. by simplify_eq.
Qed.

End idle.

Lemma exited_to_idle_wf s' : par = IDLE -> exited_to_idle s' -> wf s'.
Proof.
  intros HpI (P' & L' & s1 & Had & Hr & ->). apply wf_log. revert Hr.
  apply (reaped_wf _ IDLE r pid _ _ stI (csI ++ cs) wsI tsI term (zombie_wf P' Had)); try done; [by left|by apply zombie_idle|by apply (zombie_child P')|].
  apply lookup_insert_eq.
Qed.

Lemma main_in_table : is_Some (TT1 !! pid).
Proof.
  destruct (process_listed s t th p Hwf Ht Hp) as (HT & _). destruct (td_main _ _ _ _ _ _ _ (wf_threads _ Hwf) _ _ HT) as (u & _ & Hu & _).
  exists u. destruct (Z.eqb_spec (th_tid th) pid); [done|]. by rewrite lookup_delete_ne.
Qed.

Lemma own_group : exists g grp, pr_pgrp p = Some g /\ ps_pgrps s !! g = Some grp /\ pg_process_group grp !! pid = Some r /\
  forall l, pg_leader_process grp = Some l -> is_Some (ps_processes s !! l).
Proof.
  destruct (process_listed s t th p Hwf Ht Hp) as (HT & _). destruct (gr_group _ _ _ _ (wf_groups _ Hwf) _ _ HT) as (g & grp & Hg & Hgrp & Hin).
  exists g, grp. unfold group_of in Hg. rewrite lookup_fmap, Hp in Hg. split_and!; [done..|]. intros l Hl.
  destruct (gr_leader _ _ _ _ (wf_groups _ Hwf) _ _ _ Hgrp Hl) as [m Hm]. rewrite lookup_fmap in Hm. destruct (ps_processes s !! l); [by eexists|done].
Qed.

Lemma exit_to_idle_runs : par = IDLE -> exists s', exit_thread t term s = (Ok tt, s') /\ exited_to_idle s'.
Proof.
  intros HpI. destruct process_prefix as [L ->]. pose proof K as [_ Hpp HiP Hne Hpcs H0 HinP Hpres HI HiI HIcs Hrcs HrI Hnd Hcs].
  destruct (Z.eqb_spec (pr_pid pp) 0) as [_|E]; [|by apply H0 in HpI].
  set (s2 := exit_base [] L).
  destruct main_in_table as [u Hu]. destruct own_group as (g & grp & Hg & Hgrp & Hin & Hlead).
  assert (H1 : unwrapM (del_thread pid) s2 = (Ok u, u_thread_table (fun _ => delete pid TT1) s2)).
  { unfold unwrapM, del_thread. rewrite run_get. unfold Table_del. simpl. rewrite Hu. done. }
  rewrite bind_assoc, (bind_ok _ _ _ _ _ H1). cbv beta. set (s3 := u_thread_table _ _).
  assert (H2 : unwrapM (del_process pid) s3 = (Ok r, u_process_table (fun _ => delete pid (PROCESS_TABLE s)) s3)).
  { unfold unwrapM, del_process. rewrite run_get. unfold Table_del. simpl. rewrite (proj1 (process_listed s t th p Hwf Ht Hp)). done. }
  rewrite bind_assoc, (bind_ok _ _ _ _ _ H2). cbv beta. set (s4 := u_process_table _ _).
  assert (Hr4 : ps_processes s4 !! r = Some (set_inner p (Live st cs ws []))) by apply lookup_insert_eq.
  destruct (clean_runs s4 r _ g grp Hr4 Hg Hgrp Hin) as (leader' & GT' & Hleft & Hclean).
  { intros l Hl. simpl. apply lookup_insert_is_Some'. right. by apply Hlead. }
  rewrite bind_assoc, (bind_ok _ _ _ _ _ Hclean). cbv beta. set (s5 := u_processes _ _).
  destruct (ProcessInner_exit_runs s5 r (set_pgrp_of (set_inner p (Live st cs ws [])) None) st cs ws [] IDLE pI stI csI wsI tsI term) as (P' & Hexit & Had); try done.
  { apply lookup_insert_eq. }
  { simpl. by rewrite !lookup_insert_ne. }
  { intros c Hc. simpl. rewrite !lookup_insert_ne by congruence. by apply Hcs. }
  rewrite bind_assoc, (bind_ok _ _ _ _ _ Hexit). cbv beta. unfold reap_zombie_child_created_with_vfork. run. set (s6 := u_vforked _ _).
  set (P2 := <[r := set_inner p (Live st cs ws [])]> P').
  assert (Had2 : adopted IDLE pI stI csI wsI tsI P1 P2 cs).
  { intros x. unfold P2. destruct (decide (x = r)) as [->|Hx]; [by rewrite lookup_insert_eq, !decide_False, lookup_insert_eq by done|].
    rewrite lookup_insert_ne, (Had x) by done. simpl. by rewrite !lookup_insert_ne by done. }
  destruct (remove_zombie_child_runs (zombie_state P2) IDLE r pid (set_inner pI (Live stI (csI ++ cs) wsI tsI)) (set_inner p (Zombie term)) stI (csI ++ cs) wsI tsI term
    (zombie_wf P2 Had2) (or_introl eq_refl) (zombie_idle P2 Had2) eq_refl (zombie_child P2 HpI Had2) (lookup_insert_eq _ _ _) eq_refl eq_refl s6) as (cs' & Hperm & Hrem).
  { intros x. simpl. destruct (decide (x = r)) as [->|Hx]; [by rewrite !lookup_insert_eq|]. unfold P2. by rewrite !lookup_insert_ne. }
  { simpl. rewrite lookup_insert_ne by done. by rewrite (Had IDLE), decide_True. }
  rewrite (bind_ok _ _ _ _ _ Hrem). cbv beta. run.
  eexists. split; [reflexivity|]. eexists P2, (L ++ [FutexWake (ProcessFutex r) 1]), _. split; [done|]. split; [exists cs', g, grp, leader', GT'; split_and!; [done|done|done| |reflexivity]|].
  - destruct Hleft as [Hl HG]. split; [|done]. destruct Hl as [|(? & l & lp & ? & Hlp & Hlpid)]; [by left|right]. split; [done|].
    exists l. simpl in Hlp |- *. unfold P2. destruct (decide (l = r)) as [->|Hlr].
    + eexists. rewrite lookup_insert_eq. split_and!; [done..|]. done.
    + rewrite lookup_insert_ne in Hlp by done. rewrite !lookup_insert_ne by done.
      rewrite (Had l). simpl. rewrite !(lookup_insert_ne _ r) by done. case_decide; [subst|case_decide].
      * eexists. split_and!; [done..|]. simpl in Hlp. rewrite HI in Hlp. by simplify_eq.
      * rewrite Hlp. eexists. done.
      * by exists lp.
  - unfold with_log, u_log, u_processes. simpl. f_equal. apply map_eq. intros x. unfold P2. destruct (decide (x = r)) as [->|Hxr].
    + by rewrite (lookup_insert_ne _ IDLE), !lookup_insert_eq by done.
    + rewrite (lookup_insert_ne _ r) by done. destruct (decide (x = IDLE)) as [->|HxI]; [by rewrite !lookup_insert_eq|].
      by rewrite !lookup_insert_ne by done.
Qed.

End kin.

End exit.
