(* ===== verification/ProcessGroup.v ===== *)
(** [setpgid]: a process moves itself to another group. *)

From stdpp Require Import base list gmap numbers.
From S2P Require Import Prelude Errno Effects SigSet SigQueues TermStatus Process ProcessTree ProcessFacts ProcessSpawn ProcessReap ProcessExit.

Section regroup.
Variables (s : PState) (r : positive) (p : Process) (g : positive) (grp : ProcessGrp).
Hypotheses (Hwf : wf s) (HT : PROCESS_TABLE s !! pr_pid p = Some r) (Hp : ps_processes s !! r = Some p)
  (Hg : pr_pgrp p = Some g) (Hgrp : ps_pgrps s !! g = Some grp).

Abbreviation pid := (pr_pid p) (only parsing).

(** The process moved from its group to [g2], which exists after it left or is new. *)
Definition moved (s' : PState) (g2 : positive) : Prop := exists leader' GT' G1 grp2 leader2 GT2,
  left_group s pid grp leader' GT' /\
  G1 = <[g := mkProcessGrp (pg_pgid grp) (delete pid (pg_process_group grp)) leader']> (ps_pgrps s) /\
  (G1 !! g2 = Some grp2 /\ leader2 = pg_leader_process grp2 /\ ps_next s' = ps_next s /\ GT2 = GT' \/
   g2 = ps_next s /\ grp2 = mkProcessGrp pid ∅ None /\ leader2 = Some r /\ ps_next s' = Pos.succ (ps_next s) /\
   (GT2 = GT' \/ GT2 = <[pid := g2]> GT')) /\
  ps_processes s' = <[r := set_pgrp_of p (Some g2)]> (ps_processes s) /\
  ps_pgrps s' = <[g2 := mkProcessGrp (pg_pgid grp2) (<[pid := r]> (pg_process_group grp2)) leader2]> G1 /\
  PROCESSGRP_TABLE s' = GT2 /\ ps_threads s' = ps_threads s /\ THREAD_ID_ALLOC s' = THREAD_ID_ALLOC s /\ tables s' = tables s.

Lemma own_members : pg_process_group grp !! pid = Some r /\ forall l, pg_leader_process grp = Some l -> is_Some (ps_processes s !! l).
Proof.
  destruct (gr_group _ _ _ _ (wf_groups _ Hwf) _ _ HT) as (g' & grp' & Hg' & Hgrp' & Hin). unfold group_of in Hg'. rewrite lookup_fmap, Hp in Hg'.
  simpl in Hg'. rewrite Hg in Hg'. simplify_eq. split; [done|]. intros l Hl.
  destruct (gr_leader _ _ _ _ (wf_groups _ Hwf) _ _ _ Hgrp Hl) as [m Hm]. rewrite lookup_fmap in Hm. destruct (ps_processes s !! l); [by eexists|done].
Qed.

Lemma not_idle : r <> IDLE /\ 0 < pid /\ forall q, PROCESS_TABLE s !! q = Some r -> q = pid.
Proof.
  split_and!.
  - intros ->. apply (idle_not_listed _ _ (wf_tree _ Hwf)). by eexists.
  - by apply (tr_table _ _ (wf_tree _ Hwf) _ _ HT).
  - intros q Hq. by apply (table_inj _ _ (wf_tree _ Hwf) q pid r).
Qed.

(** The groups when the process has left and not yet joined. *)
Lemma between_wf leader' GT' G1 : left_group s pid grp leader' GT' ->
  G1 = <[g := mkProcessGrp (pg_pgid grp) (delete pid (pg_process_group grp)) leader']> (ps_pgrps s) ->
  groups_ok (member <$> ps_processes s) (delete pid (PROCESS_TABLE s)) G1 GT' /\
  (forall x grp1, G1 !! x = Some grp1 -> pg_pgid grp1 = 0 -> pg_leader_process grp1 = Some IDLE) /\
  (forall x, (ps_next s <= x)%positive -> G1 !! x = None).
Proof.
  intros [Hl HGT] ->. destruct not_idle as (HrI & Hpos & Hinj). split_and!.
  - eapply (groups_leave _ _ _ _ (wf_groups _ Hwf) r); try done.
    + unfold group_of. by rewrite lookup_fmap, Hp.
    + destruct Hl as [|[? _]]; auto.
    + destruct HGT as [-> | ->]; [done|apply delete_subseteq].
  - intros x grp1 [[<- <-]|[_ Hx]]%lookup_insert_Some; simpl; [|by apply (wf_zero _ Hwf x)]. intros H0.
    pose proof (wf_zero _ Hwf _ _ Hgrp H0) as HI. destruct Hl as [->|(_ & l & lp & Hl & Hlp & Hlpid)]; [done|].
    destruct (tr_idle _ _ (wf_tree _ Hwf)) as [cI HnI]. rewrite HI in Hl. simplify_eq. rewrite lookup_fmap, Hlp in HnI. injection HnI as HnI _ _. lia.
  - intros x Hx. destruct (wf_fresh _ Hwf x Hx) as (_ & _ & HN & _). rewrite lookup_insert_ne by congruence. done.
Qed.

Lemma moved_wf s' g2 : moved s' g2 -> wf s'.
Proof.
  intros (leader' & GT' & G1 & grp2 & leader2 & GT2 & Hleft & HG1 & Hg2 & HP & HG & HGT & HTh & Hids & Htab).
  unfold tables in Htab. injection Htab as HT' HTT HNW HW HN HV. destruct not_idle as (HrI & Hpos & Hinj).
  destruct (between_wf _ _ _ Hleft HG1) as (Hok & Hzero & Hfresh).
  assert (Hnl : ~ listed (delete pid (PROCESS_TABLE s)) r).
  { rewrite (listed_delete _ _ (wf_tree _ Hwf) pid r r HT). tauto. }
  assert (Hjoined : groups_ok (<[r := (pid, Some g2)]> (member <$> ps_processes s)) (PROCESS_TABLE s) (ps_pgrps s') GT').
  { rewrite HG, <- (insert_delete_id (PROCESS_TABLE s) pid r HT).
    destruct Hg2 as [(H2 & -> & _)|(-> & -> & -> & _)].
    - apply (groups_join _ _ _ _ Hok); try done; [apply lookup_delete_eq|]. intros l Hl. right. by eapply (gr_leader _ _ _ _ Hok).
    - assert (HN2 : G1 !! ps_next s = None) by (apply Hfresh; lia).
      pose proof (groups_join _ _ _ _ (groups_new _ _ _ _ Hok _ pid HN2) r pid (ps_next s) (mkProcessGrp pid ∅ None) (Some r)) as Hj.
      rewrite insert_insert_eq in Hj. apply Hj; try done; [apply lookup_delete_eq|apply lookup_insert_eq|]. intros l [= <-]. by left. }
  assert (Hg2s : ps_pgrps s' !! g2 = Some (mkProcessGrp (pg_pgid grp2) (<[pid := r]> (pg_process_group grp2)) leader2)) by (rewrite HG; apply lookup_insert_eq).
  assert (Hnext : (ps_next s <= ps_next s')%positive) by (destruct Hg2 as [(_ & _ & -> & _)|(_ & _ & _ & -> & _)]; lia).
  split; rewrite ?HT', ?HTh, ?HTT, ?HN, ?HNW, ?HW, ?Hids; try apply Hwf.
  - rewrite HP, (fmap_same node _ _ p) by done. apply Hwf.
  - rewrite HP, fmap_insert, HGT. destruct Hg2 as [(_ & _ & _ & ->)|(_ & -> & _ & _ & [->| ->])]; [done..|].
    exact (groups_register _ _ _ _ Hjoined g2 _ Hg2s).
  - rewrite HP, (fmap_same threads_in _ _ p) by done. apply Hwf.
  - rewrite HP. intros x px w [[<- <-]|[_ Hx]]%lookup_insert_Some Hw; [by apply (wf_waiters _ Hwf r p)|by eapply wf_waiters].
  - intros x Hx. destruct (wf_fresh _ Hwf x) as (HNx & ? & ? & ?); [lia|]. rewrite HP, HG, (lookup_insert_ne _ r) by congruence. split_and!; try done.
    rewrite lookup_insert_ne; [by apply Hfresh; lia|]. destruct Hg2 as [(H2 & _)|(-> & _ & _ & Hn & _)]; [|lia]. intros <-. rewrite Hfresh in H2 by lia. done.
  - rewrite HP. intros x px [[<- <-]|[_ Hx]]%lookup_insert_Some; [exact (wf_queues _ Hwf r p Hp)|by eapply wf_queues].
  - rewrite HG. intros x grp1 [[<- <-]|[_ Hx]]%lookup_insert_Some; [|by apply (Hzero x)]. simpl.
    destruct Hg2 as [(H2 & -> & _)|(_ & -> & _)]; [by apply (Hzero g2)|simpl; lia].
Qed.

End regroup.

(** Every outcome of [do_setpgid] for a running process. *)
Section setpgid.
Variables (s : PState) (cur : positive) (th : Thread) (p : Process) (g : positive) (grp : ProcessGrp).
Hypotheses (Hwf : wf s) (Hth : ps_threads s !! cur = Some th) (Hp : ps_processes s !! th_process th = Some p)
  (HT : PROCESS_TABLE s !! pr_pid p = Some (th_process th)) (Hg : pr_pgrp p = Some g) (Hgrp : ps_pgrps s !! g = Some grp).

Lemma current_pid_runs : current_pid cur s = (Ok (pr_pid p), s).
Proof. unfold current_pid. run. done. Qed.

(** The caller asks for itself, with the group [pgid]. *)
Lemma setpgid_self pgid : pgid <> 0 ->
  (pgid <> pr_pid p /\ PROCESSGRP_TABLE s !! pgid = None /\ do_setpgid cur (pr_pid p) pgid true s = (Err EPERM, s)) \/
  (exists g2 s', do_setpgid cur (pr_pid p) pgid true s = (Ok 0, s') /\ moved s (th_process th) p g grp s' g2).
Proof.
  intros Hpgid. destruct (not_idle s (th_process th) p Hwf HT Hp) as (_ & Hpos & _).
  destruct (own_members s (th_process th) p g grp Hwf HT Hp Hg Hgrp) as [Hin Hlead].
  destruct (remove_process_runs s g grp (th_process th) p Hp Hgrp Hin Hlead) as (leader' & GT' & Hleft & Hrp).
  set (s1 := u_pgrps _ _) in Hrp.
  unfold do_setpgid. rewrite (bind_ok _ _ _ _ _ current_pid_runs). cbv zeta.
  rewrite (proj2 (Z.eqb_neq (pr_pid p) 0)), (proj2 (Z.eqb_neq pgid 0)) by lia.
  assert (Hget : get_process (pr_pid p) s = (Ok (th_process th), s)) by (unfold get_process, Table_get; by rewrite HT).
  rewrite (bind_ok _ _ _ _ _ Hget). cbv beta.
  assert (Htarget : attempt (get_pgrp pgid) s = (Ok (Table_get (PROCESSGRP_TABLE s) pgid), s)).
  { unfold attempt, get_pgrp, Table_get. by destruct (PROCESSGRP_TABLE s !! pgid). }
  rewrite (bind_ok _ _ _ _ _ Htarget). cbv beta. unfold Table_get. rewrite Z.eqb_refl. cbn [negb andb].
  assert (Hleave : forall B (k : unit -> PS B), (pgrp_ref ← Process_pgrp (th_process th); ignore (remove_process pgrp_ref (th_process th)) ≫= k) s = k tt s1).
  { intros B k. unfold Process_pgrp. run. rewrite Hg. cbn [unwrap_option]. run. rewrite run_ignore; rewrite Hrp; done. }
  assert (Hp1 : ps_processes s1 !! th_process th = Some p) by done.
  destruct (PROCESSGRP_TABLE s !! pgid) as [g2|] eqn:Eg.
  - right. cbn [ok_or is_err]. rewrite andb_false_r. cbv iota. rewrite Hleave.
    destruct (gr_table _ _ _ _ (wf_groups _ Hwf) _ _ Eg) as (grp0 & Hgrp0 & _).
    assert (exists grp2, ps_pgrps s1 !! g2 = Some grp2) as [grp2 Hgrp2].
    { simpl. destruct (decide (g2 = g)) as [->|]; [rewrite lookup_insert_eq; by eexists|rewrite lookup_insert_ne by done; by eexists]. }
    unfold update_pgrp. run. erewrite bind_ok; [|eapply (run_add_new_process _ g2 grp2); [exact Hgrp2|simpl; apply lookup_insert_eq]].
    eexists g2, _. split; [reflexivity|]. exists leader', GT', (ps_pgrps s1), grp2, (pg_leader_process grp2), GT'. split_and!; try done. by left.
  - cbn [ok_or is_err]. rewrite andb_true_r. destruct (Z.eqb_spec pgid (pr_pid p)) as [->|Hne]; cbn [negb]; [|left; done].
    right. rewrite bind_assoc, Hleave.
    assert (Hget1 : get_process (pr_pid p) s1 = (Ok (th_process th), s1)) by (unfold get_process, Table_get; simpl; by rewrite HT).
    rewrite (bind_ok _ _ _ _ _ Hget1). cbv beta. unfold ProcessGrp_new. run. unfold update_pgrp. run.
    assert (Hadd : forall (k : unit -> PS Z) sx, ps_pgrps sx !! ps_next s = Some (mkProcessGrp (pr_pid p) {[pr_pid p := th_process th]} (Some (th_process th))) ->
      exists GT2, (ignore (add_pgrp (ps_next s)) ≫= k) sx = k tt (u_pgrp_table (fun _ => GT2) sx) /\
        (GT2 = PROCESSGRP_TABLE sx \/ GT2 = <[pr_pid p := ps_next s]> (PROCESSGRP_TABLE sx))).
    { intros k sx Hsx. pose proof (run_add_pgrp sx _ _ Hsx) as Hadd. simpl in Hadd. destruct (PROCESSGRP_TABLE sx !! pr_pid p).
      - exists (PROCESSGRP_TABLE sx). rewrite run_ignore; rewrite Hadd; [|done]. split; [by destruct sx|by left].
      - eexists. rewrite run_ignore; rewrite Hadd; [|done]. split; [reflexivity|by right]. }
    change (ps_next s1) with (ps_next s). match goal with |- context [(ignore (add_pgrp _) ≫= ?k) ?sx] => destruct (Hadd k sx) as (GT2 & -> & HGT2); [simpl; apply lookup_insert_eq|] end.
    eexists _, _. split; [reflexivity|]. exists leader', GT', (ps_pgrps s1), (mkProcessGrp (pr_pid p) ∅ None), (Some (th_process th)), GT2.
    split_and!; try done. right. done.
Qed.

End setpgid.
