(* ===== verification/ProcessWait.v ===== *)
(** [wait4], its filters, the waking of all waiters in [exit_group], and the
    reaping of zombies by the idle process. *)

From stdpp Require Import base list gmap numbers.
From S2P Require Import Prelude Errno Effects SigSet SigQueues TermStatus Process ProcessTree ProcessFacts ProcessSpawn ProcessReap ProcessExit ProcessGroup.

(** The child [c] of [r] is a zombie with the status [term]. *)
Definition zombie_child_of (s : PState) (r c : positive) (pc : Process) (term : TermStatus) : Prop :=
  listed (PROCESS_TABLE s) c /\ ps_processes s !! c = Some pc /\ pr_inner pc = Zombie term /\ pr_parent pc = Some r.

Lemma filter_result_ok {A} (f : A -> Result bool) (g : A -> bool) l : (forall x, x ∈ l -> f x = Ok (g x)) ->
  filter_result f l = Ok (List.filter g l).
Proof.
  induction l as [|x l IH]; intros Hf; [done|]. simpl. rewrite (Hf x) by (by left). simpl. rewrite IH by (intros y Hy; apply Hf; by right). done.
Qed.

(** Whether the filter accepts a process; it always has an answer for a listed one. *)
Definition accepts (s : PState) (f : ProcessFilter) (c : positive) : bool :=
  match filter_matches s f c with Ok b => b | _ => false end.

Lemma accepts_listed s f c : wf s -> listed (PROCESS_TABLE s) c -> filter_matches s f c = Ok (accepts s f c).
Proof.
  intros Hwf [pid Hc]. destruct (gr_group _ _ _ _ (wf_groups _ Hwf) _ _ Hc) as (g & grp & Hg & Hgrp & _). unfold group_of in Hg.
  rewrite lookup_fmap in Hg. destruct (ps_processes s !! c) as [pc|] eqn:E; [|done]. unfold accepts.
  destruct (filter_runs s f c pc g grp E Hg Hgrp) as [b ->]. done.
Qed.

Section wait.
Variables (s : PState) (cur : positive) (th : Thread) (p : Process) (st : LiveStatus) (cs ws ts : list positive) (f : ProcessFilter) (options : Z).
Hypotheses (Hwf : wf s) (Hcur : ps_threads s !! cur = Some th) (Hl : listed (PROCESS_TABLE s) (th_process th))
  (Hp : ps_processes s !! th_process th = Some p) (Hi : pr_inner p = Live st cs ws ts) (HV : EXIT_CHILDREN_STATUS s = ∅).

Abbreviation r := (th_process th) (only parsing).

Lemma wait_children c : c ∈ cs <-> listed (PROCESS_TABLE s) c /\ exists pc, ps_processes s !! c = Some pc /\ pr_parent pc = Some r.
Proof.
  destruct (tr_kids _ _ (wf_tree _ Hwf) r cs) as [_ Hc]; [by right|unfold kids; rewrite lookup_fmap, Hp; simpl; by rewrite Hi|].
  rewrite Hc. unfold parent. rewrite lookup_fmap. destruct (ps_processes s !! c) as [pc|]; naive_solver.
Qed.

(** The outcomes of [wait4]. *)
Inductive wait_out : Result WaitOutcome -> PState -> Prop :=
| wait_reaps c pc term s' : zombie_child_of s r c pc term -> accepts s f c = true ->
    reaped s r c (pr_pid pc) p pc st cs ws ts s' ->
    wait_out (Ok (Answer (pr_pid pc) (TermStatus_as_u32 term))) s'
| wait_echild : (forall c, c ∈ cs -> accepts s f c = false) -> wait_out (Err ECHILD) s
| wait_nohang : (forall c pc term, zombie_child_of s r c pc term -> accepts s f c = false) ->
    (exists c, c ∈ cs /\ accepts s f c = true) -> flags_contain options WNOHANG = true -> wait_out (Ok (Answer 0 0)) s
| wait_sleeps : (forall c pc term, zombie_child_of s r c pc term -> accepts s f c = false) ->
    (exists c, c ∈ cs /\ accepts s f c = true) -> flags_contain options WNOHANG = false ->
    wait_out (Ok (Asleep (ps_next s)))
      (u_processes <[r := set_inner p (Live st cs (ws ++ [ps_next s]) ts)]> (u_waiters <[ps_next s := mkWaiter cur false f None]> (u_next s))).

Lemma wait_runs : exists o s', do_wait4 cur f options s = (o, s') /\ wait_out o s'.
Proof.
  unfold do_wait4. run. cbv zeta. run. rewrite Hi.
  rewrite (filter_result_ok _ (accepts s f)) by (intros c Hc; apply accepts_listed; [done|by apply wait_children in Hc as [? _]]). run.
  destruct (List.find (is_zombie s) (List.filter (accepts s f) cs)) as [z|] eqn:Ez.
  - apply List.find_some in Ez as [[Hz Ha]%List.filter_In Hzom]. apply list_elem_of_In in Hz. apply wait_children in Hz as (Hlz & pz & Hpz & Hpar).
    unfold is_zombie in Hzom. rewrite Hpz in Hzom. simpl in Hzom. destruct (pr_inner pz) as [|term] eqn:Hiz; [done|].
    rewrite (run_read_process _ _ _ _ Hpz). cbv zeta.
    destruct (free_zombie_child_runs s r z (pr_pid pz) p pz st cs ws ts term) as (s' & Hrun & Hreap); try done; [by right|apply wait_children; eauto|].
    rewrite (bind_ok _ _ _ _ _ Hrun). eexists _, _. split; [reflexivity|]. by eapply (wait_reaps z).
  - assert (Hnone : forall c pc term, zombie_child_of s r c pc term -> accepts s f c = false).
    { intros c pc term (Hlc & Hpc & Hic & Hparc). destruct (accepts s f c) eqn:Ha; [|done].
      apply (List.find_none _ _ Ez c) in Hic as Hz || idtac. exfalso. assert (Hin : List.In c (List.filter (accepts s f) cs)).
      { apply List.filter_In. split; [|done]. apply list_elem_of_In, wait_children. eauto. }
      apply (List.find_none _ _ Ez) in Hin. unfold is_zombie in Hin. rewrite Hpc in Hin. simpl in Hin. by rewrite Hic in Hin. }
    assert (Hv : wait4_exit_child_created_with_vfork (pr_pid p) f s = (Ok None, s)).
    { unfold wait4_exit_child_created_with_vfork. rewrite run_get, HV, lookup_empty. done. }
    rewrite (bind_ok _ _ _ _ _ Hv). cbv beta iota.
    destruct (Nat.eqb_spec (length (List.filter (accepts s f) cs)) 0) as [H0|H0].
    { eexists _, _. split; [reflexivity|]. apply wait_echild. intros c Hc. destruct (accepts s f c) eqn:Ha; [|done].
      apply length_zero_iff_nil in H0. assert (Hin : List.In c (List.filter (accepts s f) cs)) by (apply List.filter_In; split; [by apply list_elem_of_In|done]).
      by rewrite H0 in Hin. }
    assert (Hex : exists c, c ∈ cs /\ accepts s f c = true).
    { destruct (List.filter (accepts s f) cs) as [|c l] eqn:E; [done|]. exists c.
      assert (Hin : List.In c (List.filter (accepts s f) cs)) by (rewrite E; by left). apply List.filter_In in Hin as [Hin ?]. split; [by apply list_elem_of_In|done]. }
    destruct (flags_contain options WNOHANG) eqn:Ew; [eexists _, _; split; [reflexivity|by apply wait_nohang]|].
    run. eexists _, _. split; [reflexivity|]. by apply wait_sleeps.
Qed.

(** The sleeping thread's waiter is new. *)
Lemma sleeps_wf :
  wf (u_processes <[r := set_inner p (Live st cs (ws ++ [ps_next s]) ts)]> (u_waiters <[ps_next s := mkWaiter cur false f None]> (u_next s))).
Proof.
  apply (wf_process (u_next s) r p (set_inner p (Live st cs (ws ++ [ps_next s]) ts)) (<[ps_next s := mkWaiter cur false f None]> (ps_waiters s))
    (EXIT_CHILDREN_STATUS s) (ps_log s) (wf_next _ Hwf) Hp); try done.
  - unfold node. simpl. by rewrite Hi.
  - unfold threads_in. simpl. by rewrite Hi.
  - exact (wf_queues _ Hwf r p Hp).
  - intros w Hw. apply lookup_insert_is_Some'. by right.
  - intros w [Hw| ->%list_elem_of_singleton]%elem_of_app; apply lookup_insert_is_Some'; [right|by left].
    apply (wf_waiters _ Hwf r p); [done|]. unfold waiting_in. by rewrite Hi.
  - simpl. intros w Hw. rewrite lookup_insert_ne by lia. apply (wf_fresh _ Hwf). lia.
Qed.

End wait.

(** * Waking everybody *)

Lemma wake_all_runs ws s : (forall w, w ∈ ws -> is_Some (ps_waiters s !! w)) ->
  exists W' L', del_and_wake_all_waiters ws s = (Ok [], mkPState (ps_processes s) (ps_threads s) (ps_pgrps s) W' (ps_next s) (PROCESS_TABLE s)
    (THREAD_TABLE s) (PROCESSGRP_TABLE s) (THREAD_ID_ALLOC s) (THREAD_NOTIFIERS s) (NEW_THREAD_TABLE s) (EXIT_CHILDREN_STATUS s) L') /\
  forall w, W' !! w = if decide (w ∈ ws) then (fun wt => mkWaiter (wt_thread wt) true (wt_data wt) None) <$> ps_waiters s !! w else ps_waiters s !! w.
Proof.
  intros Hw. unfold del_and_wake_all_waiters.
  assert (Hloop : exists W' L', for_each (fun w => s ← get; waiter_inner ← lift (unwrap_option (ps_waiters s !! w));
        _ ← modify (u_waiters <[w := mkWaiter (wt_thread waiter_inner) true (wt_data waiter_inner) None]>);
        log (SetEvent (wt_thread waiter_inner))) ws s = (Ok tt, mkPState (ps_processes s) (ps_threads s) (ps_pgrps s) W' (ps_next s) (PROCESS_TABLE s)
    (THREAD_TABLE s) (PROCESSGRP_TABLE s) (THREAD_ID_ALLOC s) (THREAD_NOTIFIERS s) (NEW_THREAD_TABLE s) (EXIT_CHILDREN_STATUS s) L') /\
    forall w, W' !! w = if decide (w ∈ ws) then (fun wt => mkWaiter (wt_thread wt) true (wt_data wt) None) <$> ps_waiters s !! w else ps_waiters s !! w).
  { revert s Hw. induction ws as [|w ws IH]; intros s Hw.
    - exists (ps_waiters s), (ps_log s). split; [by destruct s|]. intros w. by rewrite decide_False by apply not_elem_of_nil.
    - destruct (Hw w) as [wt Hwt]; [by left|]. cbn [for_each]. run. rewrite Hwt. cbn [unwrap_option]. run.
      destruct (IH (u_log (SetEvent (wt_thread wt)) (u_waiters <[w := mkWaiter (wt_thread wt) true (wt_data wt) None]> s))) as (W' & L' & Hrun & HW').
      { intros x Hx. simpl. apply lookup_insert_is_Some'. right. apply Hw. by right. }
      exists W', L'. split; [exact Hrun|]. intros x. rewrite HW'. simpl. destruct (decide (x = w)) as [->|Hx].
      + rewrite lookup_insert_eq, Hwt. rewrite (decide_True (P := w ∈ w :: ws)) by (by left). by case_decide.
      + rewrite lookup_insert_ne by done. destruct (decide (x ∈ ws)) as [Hin|Hin]; [rewrite decide_True by (by right)|rewrite decide_False]; try done.
        rewrite elem_of_cons. tauto. }
  destruct Hloop as (W' & L' & Hrun & HW'). exists W', L'. by rewrite (bind_ok _ _ _ _ _ Hrun).
Qed.
