(* ===== verification/ProcessSleep.v ===== *)
(** The threads asleep in [wait4]: what holds of them and of their waiters in
    every state, and the changes of the processes that keep it. *)

From stdpp Require Import base list gmap numbers.
From S2P Require Import Prelude Errno Effects SigSet SigQueues TermStatus Process ProcessTree ProcessFacts ProcessSpawn ProcessReap ProcessExit ProcessGroup ProcessWait.

(** A child of [r] that the filter accepts by its identifier. *)
Definition awaits (f : ProcessFilter) (pid : Z) : Prop := match f with WithPid q => pid = q | _ => True end.

Definition child_of (s : PState) (r c : positive) (pc : Process) : Prop :=
  listed (PROCESS_TABLE s) c /\ ps_processes s !! c = Some pc /\ pr_parent pc = Some r.

(** The thread [t] sleeps on the waiter [w]. When it is woken with a result, the
    result is a zombie child. When it is not, no zombie child matches, the child
    it waits for is there, and the waiter is the one its process lists. *)
Definition call_ok (s : PState) (t w : positive) : Prop := exists th wt,
  runs s t th /\ ps_waiters s !! w = Some wt /\ wt_thread wt = t /\
  if wt_is_woken wt then
    forall pid, wt_result wt = Some pid -> exists c pc term, zombie_child_of s (th_process th) c pc term /\ pr_pid pc = pid
  else
    (forall c pc term, zombie_child_of s (th_process th) c pc term -> accepts s (wt_data wt) c = false) /\
    (exists c pc, child_of s (th_process th) c pc /\ awaits (wt_data wt) (pr_pid pc)) /\
    (exists p, ps_processes s !! th_process th = Some p /\ waiting_in p = [w]).

(** The waiters that the process [r] lists. *)
Definition listing_ok (s : PState) (calls : gmap positive positive) (r : positive) : Prop := forall p,
  ps_processes s !! r = Some p ->
  waiting_in p = [] \/ exists t w th wt, calls !! t = Some w /\ runs s t th /\ th_process th = r /\
    ps_waiters s !! w = Some wt /\ wt_is_woken wt = false /\ waiting_in p = [w].

(** A process that was told to exit knows its status. *)
Definition forced_ok (p : Process) : Prop :=
  fe_exited (pr_forced_exit_status p) = true -> is_Some (fe_status (pr_forced_exit_status p)).

Definition IDLE_THREAD : positive := 3.

Record sys_ok (s : PState) (calls : gmap positive positive) : Prop := {
  so_wf : wf s;
  so_vfork : EXIT_CHILDREN_STATUS s = ∅;
  so_idle : exists th, ps_threads s !! IDLE_THREAD = Some th /\ th_process th = IDLE;
  so_forced : forall r p, ps_processes s !! r = Some p -> forced_ok p;
  so_call : forall t w, calls !! t = Some w -> call_ok s t w;
  so_one : forall t1 t2 w1 w2 th1 th2, calls !! t1 = Some w1 -> calls !! t2 = Some w2 ->
    ps_threads s !! t1 = Some th1 -> ps_threads s !! t2 = Some th2 -> th_process th1 = th_process th2 -> t1 = t2;
  so_list : forall r, present (PROCESS_TABLE s) r -> listing_ok s calls r;
  so_running : forall t th, ps_threads s !! t = Some th -> th_inner th = TRunning -> runs s t th;
}.

(** * What the other calls leave alone *)

(** [own] are the processes whose children or waiters change. *)
Definition same_zombie (p p' : Process) : Prop :=
  (forall term, pr_inner p' = Zombie term <-> pr_inner p = Zombie term) /\ (forall term, pr_inner p = Zombie term -> pr_pgrp p' = pr_pgrp p).

Definition obj (own : positive -> Prop) (x : positive) (p p' : Process) : Prop :=
  pr_pid p' = pr_pid p /\ (forced_ok p -> forced_ok p') /\ (own x \/ waiting_in p' = waiting_in p) /\
  ((forall q, pr_parent p = Some q -> own q) /\ (forall q, pr_parent p' = Some q -> own q) \/
   pr_parent p' = pr_parent p /\ same_zombie p p').

Lemma obj_refl own x p : obj own x p p.
Proof. split_and!; [done..|by right|]. right. by repeat split. Qed.

Record frame (out own : positive -> Prop) (woke : option positive) (s s' : PState) : Prop := {
  fr_vfork : EXIT_CHILDREN_STATUS s = ∅ -> EXIT_CHILDREN_STATUS s' = ∅;
  fr_stored : forall u th, ps_threads s !! u = Some th -> exists th', ps_threads s' !! u = Some th' /\ th_process th' = th_process th;
  fr_runs : forall u th, ~ out u -> runs s u th -> runs s' u th;
  fr_waiters : forall w wt, woke <> Some w -> ps_waiters s !! w = Some wt -> ps_waiters s' !! w = Some wt;
  fr_objects : forall x p, ps_processes s !! x = Some p -> exists p', ps_processes s' !! x = Some p' /\ obj own x p p';
  fr_new : forall x p', ps_processes s' !! x = Some p' -> ps_processes s !! x = None ->
    waiting_in p' = [] /\ (forall term, pr_inner p' <> Zombie term) /\ forced_ok p';
  fr_listed : forall x p, listed (PROCESS_TABLE s) x -> ps_processes s !! x = Some p ->
    listed (PROCESS_TABLE s') x \/ exists q, pr_parent p = Some q /\ own q;
  fr_unlisted : forall x, listed (PROCESS_TABLE s') x -> listed (PROCESS_TABLE s) x \/ ps_processes s !! x = None;
  fr_pgid : forall g grp, ps_pgrps s !! g = Some grp -> pg_pgid <$> ps_pgrps s' !! g = Some (pg_pgid grp);
  fr_running : forall u th', ps_threads s' !! u = Some th' -> th_inner th' = TRunning ->
    THREAD_TABLE s' !! th_tid th' = Some u \/ (ps_threads s !! u = Some th' /\ ~ out u);
}.

Section frame.
Variables (out own : positive -> Prop) (woke : option positive) (s s' : PState).
Hypotheses (Hfr : frame out own woke s s') (Hwf : wf s) (Hwf' : wf s').

Lemma frame_child r c pc : ~ own r -> child_of s r c pc -> exists pc', child_of s' r c pc' /\ obj own c pc pc'.
Proof.
  intros Hr (Hl & Hc & Hpar). destruct (fr_objects _ _ _ _ _ Hfr _ _ Hc) as (pc' & Hc' & Hobj). exists pc'. split; [|done].
  split_and!; [|done|].
  - destruct (fr_listed _ _ _ _ _ Hfr _ _ Hl Hc) as [?|(q & Hq & ?)]; [done|]. rewrite Hpar in Hq. by simplify_eq.
  - destruct Hobj as (_ & _ & _ & [[Ho _]|[-> _]]); [|done]. by destruct Hr; apply Ho.
Qed.

Lemma frame_zombie r c pc term : ~ own r -> zombie_child_of s r c pc term -> exists pc', zombie_child_of s' r c pc' term /\ pr_pid pc' = pr_pid pc.
Proof.
  intros Hr (Hl & Hc & Hz & Hpar). destruct (frame_child r c pc Hr) as (pc' & (Hl' & Hc' & Hpar') & Hpid & _ & _ & Hzom); [done|].
  exists pc'. split; [|done]. split_and!; [done..| |done]. destruct Hzom as [[Ho _]|[_ [Hz' _]]]; [by destruct Hr; apply Ho|by apply Hz'].
Qed.

(** The group number of a listed process is found in the same way afterwards. *)
Lemma frame_accepts f c pc pc' : listed (PROCESS_TABLE s) c -> ps_processes s !! c = Some pc -> ps_processes s' !! c = Some pc' ->
  member pc' = member pc -> accepts s' f c = accepts s f c.
Proof.
  intros Hl Hc Hc' [= Hpid Hg]. unfold accepts, filter_matches. rewrite Hc, Hc'. simpl. destruct f; [done|by rewrite Hpid|]. rewrite Hg.
  destruct Hl as [pid Hl]. destruct (gr_group _ _ _ _ (wf_groups _ Hwf) _ _ Hl) as (g & grp & Hgo & Hgrp & _). unfold group_of in Hgo.
  rewrite lookup_fmap, Hc in Hgo. simpl in Hgo. rewrite Hgo. simpl. pose proof (fr_pgid _ _ _ _ _ Hfr _ _ Hgrp) as Hg'. rewrite Hgrp.
  destruct (ps_pgrps s' !! g); by simplify_eq/=; rewrite ?Hg'; congruence.
Qed.

Lemma frame_zombie_back r c pc' term : ~ own r -> zombie_child_of s' r c pc' term ->
  exists pc, zombie_child_of s r c pc term /\ forall f, accepts s' f c = accepts s f c.
Proof.
  intros Hr (Hl' & Hc' & Hz' & Hpar'). destruct (ps_processes s !! c) as [pc|] eqn:Hc.
  - destruct (fr_unlisted _ _ _ _ _ Hfr _ Hl') as [Hl|]; [|congruence].
    destruct (fr_objects _ _ _ _ _ Hfr _ _ Hc) as (pc1 & Hc1 & Hpid & _ & _ & Hzom). rewrite Hc' in Hc1. simplify_eq.
    destruct Hzom as [[_ Ho]|[Hpp [Hzz Hzg]]]; [by destruct Hr; apply Ho|]. apply Hzz in Hz' as Hz.
    exists pc. split; [split_and!; try done; congruence|]. intros f. eapply frame_accepts; try done. unfold member. by rewrite Hpid, (Hzg _ Hz).
  - destruct (fr_new _ _ _ _ _ Hfr _ _ Hc' Hc) as (_ & Hnz & _). by destruct (Hnz term).
Qed.

Lemma frame_call t w : call_ok s t w -> woke <> Some w -> ~ out t -> (forall th, runs s t th -> ~ own (th_process th)) -> call_ok s' t w.
Proof.
  intros (th & wt & Hruns & Hw & Hwt & Hok) Hwoke Hout Hown. specialize (Hown _ Hruns). exists th, wt.
  split_and!; [by eapply fr_runs|by eapply fr_waiters|done|]. destruct (wt_is_woken wt).
  - intros pid Hpid. destruct (Hok _ Hpid) as (c & pc & term & Hz & <-). destruct (frame_zombie _ _ _ _ Hown Hz) as (pc' & ? & ?). eauto.
  - destruct Hok as (Hno & (c & pc & Hc & Haw) & p & Hp & Hws). split_and!.
    + intros x px term Hx. destruct (frame_zombie_back _ _ _ _ Hown Hx) as (px0 & Hx0 & ->). by eapply Hno.
    + destruct (frame_child _ _ _ Hown Hc) as (pc' & Hc' & Hpid & _). exists c, pc'. by rewrite Hpid.
    + destruct (fr_objects _ _ _ _ _ Hfr _ _ Hp) as (p' & Hp' & _ & _ & [?|Hw'] & _); [done|]. exists p'. by rewrite Hw'.
Qed.

Lemma sys_ok_frame calls : sys_ok s calls ->
  (forall t w, calls !! t = Some w -> (woke <> Some w /\ ~ out t /\ (forall th, runs s t th -> ~ own (th_process th))) \/ call_ok s' t w) ->
  (forall r, present (PROCESS_TABLE s') r -> own r -> listing_ok s' calls r) ->
  (forall t w, calls !! t = Some w -> woke = Some w -> forall th, runs s t th -> own (th_process th)) ->
  (forall t w, calls !! t = Some w -> ~ out t) ->
  sys_ok s' calls.
Proof.
  intros [_ HV (thI & HI & HpI) Hfo Hcall Hone Hlist Hrunning] Hcalls Hlown Hwown Hout. split; [done|by eapply fr_vfork| | | | | |].
  - destruct (fr_stored _ _ _ _ _ Hfr _ _ HI) as (th' & ? & ?). exists th'. by split; congruence.
  - intros r p' Hp'. destruct (ps_processes s !! r) as [p|] eqn:Hp.
    + destruct (fr_objects _ _ _ _ _ Hfr _ _ Hp) as (p1 & Hp1 & _ & Hf & _). rewrite Hp' in Hp1. simplify_eq. eapply Hf, Hfo, Hp.
    + destruct (fr_new _ _ _ _ _ Hfr _ _ Hp' Hp) as (_ & _ & ?). done.
  - intros t w Htw. destruct (Hcalls _ _ Htw) as [(? & ? & ?)|?]; [|done]. by apply frame_call; [apply Hcall|..].
  - intros t1 t2 w1 w2 th1 th2 H1 H2 Ht1 Ht2 Heq.
    assert (Hback : forall t w th', calls !! t = Some w -> ps_threads s' !! t = Some th' -> exists th, ps_threads s !! t = Some th /\ th_process th = th_process th').
    { intros t w th' Htw Ht'. destruct (Hcall _ _ Htw) as (th & _ & (Ht & _) & _). destruct (fr_stored _ _ _ _ _ Hfr _ _ Ht) as (th0 & Ht0 & ?). exists th. split; [done|congruence]. }
    destruct (Hback _ _ _ H1 Ht1) as (? & ? & ?), (Hback _ _ _ H2 Ht2) as (? & ? & ?). eapply (Hone t1 t2); try done. congruence.
  - intros r Hpres p' Hp'. destruct (ps_processes s !! r) as [p|] eqn:Hp; [|left; by eapply fr_new].
    destruct (fr_objects _ _ _ _ _ Hfr _ _ Hp) as (p1 & Hp1 & _ & _ & Hw & _). rewrite Hp' in Hp1. simplify_eq.
    destruct Hw as [Ho|Hw]; [by eapply Hlown|]. rewrite Hw.
    assert (Hps : present (PROCESS_TABLE s) r).
    { destruct Hpres as [->|Hl]; [by left|right]. destruct (fr_unlisted _ _ _ _ _ Hfr _ Hl); [done|congruence]. }
    destruct (Hlist _ Hps _ Hp) as [?|(t & w & th & wt & Ht & Hru & Hr & Hwt & Hnw & Hws)]; [by left|].
    destruct (decide (woke = Some w)) as [Hwk|Hwk].
    { rewrite <- Hw. rewrite <- Hr in *. eapply (Hlown (th_process th) Hpres); [by eapply Hwown|done]. }
    right. exists t, w, th, wt. split_and!; try done; [exact (fr_runs _ _ _ _ _ Hfr _ _ (Hout _ _ Ht) Hru)|by eapply fr_waiters].
  - intros u th' Hu Hr. destruct (fr_running _ _ _ _ _ Hfr _ _ Hu Hr) as [?|[Hu0 Ho]]; [done|].
    apply (fr_runs _ _ _ _ _ Hfr); [done|]. by apply Hrunning.
Qed.

End frame.

(** The usual case: nobody is woken, no running thread stops, and the processes
    whose children change have no sleeping thread and no waiter. *)
Lemma sys_ok_step own s s' calls : frame (fun _ => False) own None s s' -> sys_ok s calls -> wf s' ->
  (forall t w th, calls !! t = Some w -> runs s t th -> ~ own (th_process th)) ->
  (forall r p', own r -> ps_processes s' !! r = Some p' -> exists p, present (PROCESS_TABLE s) r /\ ps_processes s !! r = Some p /\ waiting_in p' = waiting_in p) ->
  sys_ok s' calls.
Proof.
  intros Hfr Hok Hwf' Hown Hws. apply (sys_ok_frame _ _ _ _ _ Hfr (so_wf _ _ Hok) Hwf' _ Hok); try done; try (by intros ? ? ? ?).
  - intros t w Htw. left. split_and!; [done|by intros ?|]. intros th Hth. by eapply Hown.
  - intros r _ Hr p' Hp'. destruct (Hws _ _ Hr Hp') as (p & Hpres & Hp & ->).
    destruct (so_list _ _ Hok _ Hpres _ Hp) as [?|(t & w & th & wt & Ht & Hru & Hrr & _)]; [by left|]. destruct (Hown _ _ _ Ht Hru). by rewrite Hrr.
Qed.
