(* ===== verification/ProcessCalls.v ===== *)
(** What each call changes for the threads asleep in [wait4]. *)

From stdpp Require Import base list gmap numbers.
From S2P Require Import Prelude Errno Effects SigSet SigQueues TermStatus Process ProcessTree ProcessFacts ProcessSpawn ProcessReap ProcessExit ProcessGroup ProcessWait ProcessSleep.

Abbreviation nobody := (fun _ : positive => False).

Lemma pgid_insert (G : gmap positive ProcessGrp) g grp' : (forall grp, G !! g = Some grp -> pg_pgid grp' = pg_pgid grp) ->
  forall x gx, G !! x = Some gx -> pg_pgid <$> <[g := grp']> G !! x = Some (pg_pgid gx).
Proof.
  intros Hg x gx Hx. destruct (decide (x = g)) as [->|]; [rewrite lookup_insert_eq; simpl; by rewrite (Hg _ Hx)|]. by rewrite lookup_insert_ne, Hx.
Qed.

(** A live process whose children and threads change. *)
Lemma obj_live own x p st cs ws ts st' cs' ts' : pr_inner p = Live st cs ws ts -> obj own x p (set_inner p (Live st' cs' ws ts')).
Proof.
  intros Hi. split_and!; [done..| |]; [right; unfold waiting_in; by rewrite Hi|right]. split; [done|]. split; intros term; simpl; rewrite Hi; done.
Qed.

Lemma obj_group own x p st cs ws ts g : pr_inner p = Live st cs ws ts -> obj own x p (set_pgrp_of p g).
Proof. intros Hi. split_and!; [done..|by right|right]. split; [done|]. split; [done|]. intros term. by rewrite Hi. Qed.

Lemma objects_insert own (P : gmap positive Process) r p p' : P !! r = Some p -> obj own r p p' ->
  forall x q, P !! x = Some q -> exists q', <[r := p']> P !! x = Some q' /\ obj own x q q'.
Proof.
  intros Hr Ho x q Hx. destruct (decide (x = r)) as [->|].
  - rewrite lookup_insert_eq. exists p'. by simplify_eq.
  - rewrite lookup_insert_ne by done. exists q. split; [done|apply obj_refl].
Qed.

(** * Spawning and cloning *)

Lemma spawned_frame s par p st cs ws ts pid ids own s' a : wf s -> ps_processes s !! par = Some p -> pr_inner p = Live st cs ws ts ->
  pid ∉ used_ids (THREAD_ID_ALLOC s) -> spawned s par p st cs ws ts pid ids own s' a -> frame nobody nobody None s s'.
Proof.
  intros Hwf Hp Hi Hpid (g & HP & HTh & _ & HT & HTT & _ & HW & _ & HV & Hj).
  pose proof (stored_below _ _ _ Hwf Hp) as Hlt.
  assert (Hfr : forall x, (ps_next s <= x)%positive -> ps_processes s !! x = None /\ ps_threads s !! x = None /\ ps_pgrps s !! x = None).
  { intros x Hx. by destruct (wf_fresh _ Hwf x Hx) as (? & ? & ? & _). }
  pose proof (unused_process _ _ Hwf Hpid) as HTn. pose proof (unused_thread _ _ Hwf Hpid) as HTTn.
  assert (Hne : forall u th, ps_threads s !! u = Some th -> Pos.succ (ps_next s) <> u).
  { intros u th Hu <-. destruct (Hfr (Pos.succ (ps_next s))) as (_ & HN & _); [lia|congruence]. }
  split.
  - by rewrite HV.
  - intros u th Hu. rewrite HTh, lookup_insert_ne by (by eapply Hne). eauto.
  - intros u th _ (Hu & Htt & Hr). unfold runs. rewrite HTh, HTT, lookup_insert_ne by (by eapply Hne). rewrite lookup_insert_ne by congruence. done.
  - by rewrite HW.
  - intros x q Hx. rewrite HP, lookup_insert_ne by (intros <-; destruct (Hfr (ps_next s)) as [HN _]; [lia|congruence]).
    revert x q Hx. apply (objects_insert _ _ _ _ _ Hp). by apply (obj_live _ _ _ st cs ws ts).
  - rewrite HP. intros x p' [[<- <-]|[_ [[<- <-]|[_ Hx]]%lookup_insert_Some]]%lookup_insert_Some HN; [by split_and!|congruence..].
  - intros x q Hx _. left. rewrite HT. apply listed_insert; auto.
  - rewrite HT. intros x [?| ->]%listed_insert; [by left|right; apply Hfr; lia|done].
  - destruct Hj; apply pgid_insert; intros grp0 Hg0; [by simplify_eq..|].
    destruct (Hfr (Pos.succ (Pos.succ (ps_next s)))) as (_ & _ & HN); [lia|congruence].
  - rewrite HTh. intros u th' [[<- <-]|[_ Hu]]%lookup_insert_Some Hr; [done|]. right. split; [done|by intros []].
Qed.

(** A process that is built and never listed, after which the call fails. *)
Lemma unlisted_frame s q n : wf s -> pr_inner q = ProcessInner_new -> pr_forced_exit_status q = ForcedExitStatus_new ->
  frame nobody nobody None s (u_processes <[ps_next s := q]> (u_ids n (u_next s))).
Proof.
  intros Hwf Hi Hf. assert (HN : ps_processes s !! ps_next s = None) by (apply (wf_fresh _ Hwf); lia).
  split; simpl; try done; try (by eauto).
  - intros x p Hx. rewrite lookup_insert_ne by congruence. exists p. split; [done|apply obj_refl].
  - intros x p' [[<- <-]|[_ Hx]]%lookup_insert_Some Hxn; [|congruence]. unfold waiting_in, forced_ok. rewrite Hi, Hf. by split_and!.
  - intros g grp ->. done.
Qed.

(** Only the identifiers change. *)
Lemma ids_frame s n : frame nobody nobody None s (u_ids n s).
Proof.
  split; simpl; try done; try (by eauto); [intros x p Hx; exists p; split; [done|apply obj_refl]|congruence|by intros g grp ->].
Qed.

Lemma cloned_frame s th p st cs ws ts tid ids s' ctid : wf s -> ps_processes s !! th_process th = Some p -> pr_inner p = Live st cs ws ts ->
  tid ∉ used_ids (THREAD_ID_ALLOC s) -> cloned s th p st cs ws ts tid ids s' ctid -> frame nobody nobody None s s'.
Proof.
  intros Hwf Hp Hi Htid (HP & HTh & _ & HTT & _ & _ & HT & Htab). injection Htab as HG _ HW _ HV.
  pose proof (unused_thread _ _ Hwf Htid) as HTTn.
  assert (Hne : forall u thu, ps_threads s !! u = Some thu -> ps_next s <> u).
  { intros u thu Hu <-. destruct (wf_fresh _ Hwf (ps_next s)) as (_ & HN & _); [lia|congruence]. }
  split; rewrite ?HV, ?HT, ?HG, ?HW; try done.
  - intros u thu Hu. rewrite HTh, lookup_insert_ne by (by eapply Hne). eauto.
  - intros u thu _ (Hu & Htt & Hr). unfold runs. rewrite HTh, HTT, lookup_insert_ne by (by eapply Hne). rewrite lookup_insert_ne by congruence. done.
  - rewrite HP. apply (objects_insert _ _ _ _ _ Hp). by apply (obj_live _ _ _ st cs ws ts).
  - rewrite HP. intros x p' [[<- <-]|[_ Hx]]%lookup_insert_Some HN; congruence.
  - by left.
  - by left.
  - by intros g grp ->.
  - rewrite HTh. intros u th' [[<- <-]|[_ Hu]]%lookup_insert_Some Hr; [done|]. right. split; [done|by intros []].
Qed.

(** A pending thread starts to run. *)
Lemma started_frame s tid t th : ps_threads s !! t = Some th -> th_tid th = tid -> th_inner th = TInit -> THREAD_TABLE s !! tid = Some t ->
  frame nobody nobody None s (u_notifiers (fun n => {[tid]} ∪ n) (u_threads <[t := mkThread tid (th_clear_ctid th) TRunning (th_process th)]>
        (u_log (SchedAttach tid) (u_new_threads (delete tid) s)))).
Proof.
  intros Ht Htid Hi HTT. split; simpl; try done.
  - intros u thu Hu. destruct (decide (u = t)) as [->|]; [rewrite lookup_insert_eq; simplify_eq; by eexists|rewrite lookup_insert_ne by done; eauto].
  - intros u thu _ (Hu & Htt & Hr). unfold runs. simpl. rewrite lookup_insert_ne; [done|]. intros ->. congruence.
  - intros x p Hx. exists p. split; [done|apply obj_refl].
  - congruence.
  - by left.
  - by left.
  - by intros g grp ->.
  - intros u th' [[<- <-]|[_ Hu]]%lookup_insert_Some Hr; [by left|]. right. split; [done|by intros []].
Qed.

(** * Process groups *)

Lemma moved_frame s r p g grp s' g2 st cs ws ts : wf s -> ps_processes s !! r = Some p -> pr_inner p = Live st cs ws ts ->
  ps_pgrps s !! g = Some grp -> moved s r p g grp s' g2 -> frame nobody nobody None s s'.
Proof.
  intros Hwf Hp Hi Hgrp (leader' & GT' & G1 & grp2 & leader2 & GT2 & _ & HG1 & Hg2 & HP & HG & _ & HTh & _ & Htab).
  unfold tables in Htab. injection Htab as HT HTT _ HW _ HV. split; rewrite ?HV, ?HT, ?HW, ?HTh; try done.
  - by eauto.
  - intros u th _ (Hu & Htt & Hr). unfold runs. rewrite HTh, HTT. done.
  - rewrite HP. apply (objects_insert _ _ _ _ _ Hp). by apply (obj_group _ _ _ st cs ws ts).
  - rewrite HP. intros x p' [[<- <-]|[_ Hx]]%lookup_insert_Some HN; congruence.
  - by left.
  - by left.
  - intros x gx Hx. assert (H1 : pg_pgid <$> G1 !! x = Some (pg_pgid gx)).
    { rewrite HG1. revert x gx Hx. apply pgid_insert. intros ? ?. by simplify_eq. }
    destruct (G1 !! x) as [gx1|] eqn:Ex; [|done]. simpl in H1. injection H1 as H1. rewrite HG, <- H1.
    apply (pgid_insert G1); [|done]. intros grp1 Hg1. destruct Hg2 as [(H2 & _)|(-> & _)]; [simpl; congruence|]. rewrite HG1 in Hg1.
    destruct (wf_fresh _ Hwf (ps_next s)) as (_ & _ & HN & _); [lia|]. apply lookup_insert_Some in Hg1 as [[Heq _]|[_ Hg1]]; congruence.
  - intros u th' Hu _. right. split; [done|by intros []].
Qed.

(** * Reaping *)

Lemma reaped_frame s par r pid p z st cs ws ts term s' : wf s -> present (PROCESS_TABLE s) par -> ps_processes s !! par = Some p ->
  pr_inner p = Live st cs ws ts -> r ∈ cs -> ps_processes s !! r = Some z -> pr_pid z = pid -> pr_inner z = Zombie term ->
  reaped s par r pid p z st cs ws ts s' -> frame nobody (eq par) None s s'.
Proof.
  intros Hwf Hpar Hp Hi Hr Hz Hpid Hzi (cs' & g & grp & leader' & GT' & Hperm & Hg & Hgrp & _ & ->).
  destruct (child_listed s par r pid p z st cs ws ts term Hwf Hpar Hp Hi Hr Hz Hpid Hzi) as [HT Hne].
  assert (Hzpar : pr_parent z = Some par).
  { destruct (tr_kids _ _ (wf_tree _ Hwf) par cs Hpar) as [_ Hc]; [unfold kids; rewrite lookup_fmap, Hp; simpl; by rewrite Hi|].
    apply Hc in Hr as [_ Hpz]. unfold parent in Hpz. by rewrite lookup_fmap, Hz in Hpz. }
  split; simpl; try done; try (by eauto).
  - intros u th _ (Hu & Htt & Hru). split_and!; try done. simpl. rewrite lookup_delete_ne; [done|]. intros Heq.
    destruct (runs_process s u th Hwf) as (Hlu & pu & stu & csu & wsu & tsu & Hpu & Hiu & _); [done|].
    destruct (td_main _ _ _ _ _ _ _ (wf_threads _ Hwf) _ _ HT) as (t & th' & Ht & Hth & Hproc). rewrite Heq, Htt in Ht. simplify_eq. congruence.
  - intros x q Hx. destruct (decide (x = r)) as [->|Hxr].
    + rewrite lookup_insert_eq. eexists. split; [done|]. simplify_eq. split_and!; [done..|by right|left]. simpl. split; intros q; congruence.
    + rewrite lookup_insert_ne by done. revert x q Hx Hxr. intros x q Hx Hxr. apply (objects_insert _ _ _ p); [done| |done]. by apply (obj_live _ _ _ st cs ws ts).
  - intros x p' [[<- <-]|[_ [[<- <-]|[_ Hx]]%lookup_insert_Some]]%lookup_insert_Some HN; congruence.
  - intros x q Hl Hx. destruct (decide (x = r)) as [->|]; [right; exists par; by simplify_eq|left].
    by apply (listed_delete _ _ (wf_tree _ Hwf) pid r x HT).
  - intros x Hl. left. by apply (listed_delete _ _ (wf_tree _ Hwf) pid r x HT) in Hl as [? _].
  - apply pgid_insert. intros ? ?. by simplify_eq.
Qed.

(** * Going to sleep *)

Lemma sleeper_process s calls t w th : sys_ok s calls -> calls !! t = Some w -> ps_threads s !! t = Some th ->
  runs s t th /\ listed (PROCESS_TABLE s) (th_process th) /\ th_process th <> IDLE.
Proof.
  intros Hok Ht Hth. destruct (so_call _ _ Hok _ _ Ht) as (th' & wt & Hru & _). pose proof Hru as (Hth' & _). simplify_eq.
  destruct (runs_process _ _ _ (so_wf _ _ Hok) Hru) as [Hl _]. split_and!; [done..|]. intros E. rewrite E in Hl.
  by apply (idle_not_listed _ _ (wf_tree _ (so_wf _ _ Hok))).
Qed.

(** A process without a sleeping thread lists no waiter. *)
Lemma no_waiter s calls r p : sys_ok s calls -> present (PROCESS_TABLE s) r -> ps_processes s !! r = Some p ->
  (forall t w th, calls !! t = Some w -> runs s t th -> th_process th <> r) -> waiting_in p = [].
Proof.
  intros Hok Hpres Hp Hno. destruct (so_list _ _ Hok _ Hpres _ Hp) as [?|(t & w & th & wt & Ht & Hru & Hr & _)]; [done|]. by destruct (Hno _ _ _ Ht Hru).
Qed.

Lemma idle_no_waiter s calls pI : sys_ok s calls -> ps_processes s !! IDLE = Some pI -> waiting_in pI = [].
Proof.
  intros Hok HI. eapply (no_waiter s calls IDLE); [done|by left|done|]. intros t w th Ht (Hth & _). by apply (sleeper_process _ _ _ _ _ Hok Ht Hth).
Qed.

Section sleep.
Variables (s : PState) (calls : gmap positive positive) (cur : positive) (th : Thread) (p : Process) (st : LiveStatus)
  (cs ws ts : list positive) (f : ProcessFilter).
Hypotheses (Hok : sys_ok s calls) (Hru : runs s cur th) (Hcur : calls !! cur = None)
  (Hp : ps_processes s !! th_process th = Some p) (Hi : pr_inner p = Live st cs ws ts)
  (Hno : forall t w thu, calls !! t = Some w -> runs s t thu -> th_process thu <> th_process th)
  (Hz : forall c pc term, zombie_child_of s (th_process th) c pc term -> accepts s f c = false)
  (Hacc : exists c, c ∈ cs /\ accepts s f c = true).

Abbreviation s' := (u_processes <[th_process th := set_inner p (Live st cs (ws ++ [ps_next s]) ts)]>
    (u_waiters <[ps_next s := mkWaiter cur false f None]> (u_next s))) (only parsing).

Lemma sleep_nobody : listed (PROCESS_TABLE s) (th_process th) /\ ws = [] /\ ps_waiters s !! ps_next s = None.
Proof.
  destruct (runs_process _ _ _ (so_wf _ _ Hok) Hru) as [Hl _]. split_and!; [done| |].
  - pose proof (no_waiter s calls _ p Hok ltac:(by right) Hp Hno) as E. unfold waiting_in in E. by rewrite Hi in E.
  - apply (wf_fresh _ (so_wf _ _ Hok)). lia.
Qed.

Lemma sleep_obj : obj (eq (th_process th)) (th_process th) p (set_inner p (Live st cs (ws ++ [ps_next s]) ts)).
Proof. split_and!; [done..|by left|right]. split; [done|]. split; intros term; simpl; by rewrite Hi. Qed.

Lemma sleep_frame : frame nobody (eq (th_process th)) None s s'.
Proof.
  destruct sleep_nobody as (_ & _ & HWn). split; simpl; try done; try (by eauto).
  - intros w wt _ Hw. rewrite lookup_insert_ne by congruence. done.
  - apply (objects_insert _ _ _ p); [done|apply sleep_obj].
  - intros x p' [[<- <-]|[_ Hx]]%lookup_insert_Some HN; congruence.
  - by intros g grp ->.
Qed.

Lemma sleep_call : call_ok s' cur (ps_next s).
Proof.
  destruct sleep_nobody as (Hl & Hws & _).
  assert (Hsame : forall x, accepts s' f x = accepts s f x).
  { intros x. unfold accepts, filter_matches. simpl. destruct (decide (x = th_process th)) as [->|]; [by rewrite lookup_insert_eq, Hp|by rewrite lookup_insert_ne]. }
  exists th, (mkWaiter cur false f None). split_and!; [done|apply lookup_insert_eq|done|]. simpl. split_and!.
  - intros x px term (Hlx & Hx & Hxi & Hxp). rewrite Hsame. simpl in Hx. apply lookup_insert_Some in Hx as [[<- <-]|[_ Hx]]; [done|]. by eapply Hz.
  - destruct Hacc as (c & Hc & Hac). apply (wait_children s th p st cs ws ts (so_wf _ _ Hok) Hl Hp Hi) in Hc as (Hlc & pc & Hpc & Hpar).
    destruct (objects_insert _ _ _ _ _ Hp sleep_obj _ _ Hpc) as (pc' & Hpc' & Hpid & _). exists c, pc'. split; [split_and!; [done..|]|].
    + simpl in Hpc'. apply lookup_insert_Some in Hpc' as [[<- <-]|[_ ?]]; by simplify_eq.
    + rewrite Hpid. unfold accepts, filter_matches in Hac. rewrite Hpc in Hac. simpl in Hac. destruct f; [done| |done]. simpl. lia.
  - eexists. split; [apply lookup_insert_eq|]. unfold waiting_in. simpl. by rewrite Hws.
Qed.

(** No other thread of the process sleeps. *)
Lemma sleep_alone t w tht : <[cur := ps_next s]> calls !! t = Some w -> t <> cur -> ps_threads s !! t = Some tht -> th_process tht <> th_process th.
Proof.
  intros Ht Hne Htht. rewrite lookup_insert_ne in Ht by done. eapply Hno; [done|]. by apply (sleeper_process _ _ _ _ _ Hok Ht Htht).
Qed.

Lemma asleep_ok : sys_ok s' (<[cur := ps_next s]> calls).
Proof.
  pose proof (so_wf _ _ Hok) as Hwf. destruct sleep_nobody as (Hl & Hws & HWn). pose proof Hru as (Hth & _). split; [by apply sleeps_wf|apply Hok|apply Hok|..].
  - simpl. intros r q [[<- <-]|[_ Hq]]%lookup_insert_Some; [exact (so_forced _ _ Hok _ _ Hp)|exact (so_forced _ _ Hok _ _ Hq)].
  - intros t w [[<- <-]|[Hne Ht]]%lookup_insert_Some; [apply sleep_call|].
    apply (frame_call _ _ _ _ _ sleep_frame Hwf t w); [by apply Hok|done|by intros ?|]. intros thu Hthu Heq. by destruct (Hno _ _ _ Ht Hthu).
  - intros t1 t2 w1 w2 th1 th2 H1 H2 Ht1 Ht2 Heq. simpl in Ht1, Ht2. destruct (decide (t1 = cur)) as [->|N1], (decide (t2 = cur)) as [->|N2]; [done|..].
    + simplify_eq. by destruct (sleep_alone _ _ _ H2 N2 Ht2).
    + simplify_eq. by destruct (sleep_alone _ _ _ H1 N1 Ht1).
    + rewrite lookup_insert_ne in H1, H2 by done. by eapply (so_one _ _ Hok t1 t2).
  - intros r Hpres q Hq. simpl in Hq. apply lookup_insert_Some in Hq as [[<- <-]|[Hne Hq]].
    + right. exists cur, (ps_next s), th, (mkWaiter cur false f None). split_and!; [apply lookup_insert_eq|done..|apply lookup_insert_eq|done|].
      unfold waiting_in. simpl. by rewrite Hws.
    + destruct (so_list _ _ Hok r Hpres q Hq) as [?|(t & w & tht & wt & Ht & Hrt & Hr & Hwt & Hnw & Hlist)]; [by left|]. right.
      exists t, w, tht, wt. rewrite lookup_insert_ne by congruence. split_and!; try done. simpl. rewrite lookup_insert_ne by congruence. done.
  - exact (so_running _ _ Hok).
Qed.

End sleep.

(** A thread that was woken is not asleep any more. *)
Lemma awake_ok s calls t w wt : sys_ok s calls -> calls !! t = Some w -> ps_waiters s !! w = Some wt -> wt_is_woken wt = true -> sys_ok s (delete t calls).
Proof.
  intros Hok Ht Hw Hwk. split; try apply Hok.
  - intros t' w' [_ Ht']%lookup_delete_Some. by apply Hok.
  - intros t1 t2 w1 w2 th1 th2 [_ H1]%lookup_delete_Some [_ H2]%lookup_delete_Some. by eapply (so_one _ _ Hok).
  - intros r Hr p Hp. destruct (so_list _ _ Hok r Hr p Hp) as [?|(t' & w' & th' & wt' & Ht' & ? & ? & Hw' & Hnw & ?)]; [by left|right].
    exists t', w', th', wt'. split_and!; try done. apply lookup_delete_Some. split; [|done]. intros ->. congruence.
Qed.
