(* ===== verification/ProcessWake.v ===== *)
(** The exit of a thread and the threads asleep in [wait4]: a thread of the
    parent that waits for the process is woken with its identifier. *)

From stdpp Require Import base list gmap numbers.
From S2P Require Import Prelude Errno Effects SigSet SigQueues TermStatus Process ProcessTree ProcessFacts ProcessSpawn ProcessReap ProcessExit ProcessGroup ProcessWait ProcessSleep ProcessCalls.

Lemma obj_trans own x p p1 p2 : obj own x p p1 -> obj own x p1 p2 -> obj own x p p2.
Proof.
  intros (Ha1 & Hb1 & Hc1 & Hd1) (Ha2 & Hb2 & Hc2 & Hd2). split_and!; [congruence|auto| |].
  - destruct Hc1 as [|Hc1]; [by left|]. destruct Hc2 as [|Hc2]; [by left|right; congruence].
  - destruct Hd1 as [[Ho Ho1]|[He [Hz Hg]]], Hd2 as [[Ho1' Ho2]|[He2 [Hz2 Hg2]]].
    + by left.
    + left. split; [done|]. rewrite He2. done.
    + left. split; [|done]. rewrite <- He. done.
    + right. split; [congruence|]. split; intros term; [by rewrite Hz2|]. intros Ht. rewrite (Hg2 term), (Hg term); [done..|by apply Hz].
Qed.

Lemma obj_mono (own own' : positive -> Prop) x p p' : (forall q, own q -> own' q) -> obj own x p p' -> obj own' x p p'.
Proof. intros Hm (? & ? & Hc & Hd). split_and!; [done..|naive_solver|naive_solver]. Qed.

Lemma frame_trans out (own own2 : positive -> Prop) s s1 s2 : wf s -> (forall q, own2 q -> own q) ->
  (forall x, ps_processes s !! x = None -> ps_processes s1 !! x = None) ->
  frame out own None s s1 -> frame nobody own2 None s1 s2 -> frame out own None s s2.
Proof.
  intros Hwf Hm Hdom H1 H2. split.
  - intros HV. by apply (fr_vfork _ _ _ _ _ H2), (fr_vfork _ _ _ _ _ H1).
  - intros u th Hu. destruct (fr_stored _ _ _ _ _ H1 _ _ Hu) as (th1 & Hu1 & <-). by apply (fr_stored _ _ _ _ _ H2).
  - intros u th Ho Hu. apply (fr_runs _ _ _ _ _ H2); [by intros ?|]. by apply (fr_runs _ _ _ _ _ H1).
  - intros w wt Hw Hwt. by apply (fr_waiters _ _ _ _ _ H2), (fr_waiters _ _ _ _ _ H1).
  - intros x p Hx. destruct (fr_objects _ _ _ _ _ H1 _ _ Hx) as (p1 & Hx1 & Ho1). destruct (fr_objects _ _ _ _ _ H2 _ _ Hx1) as (p2 & Hx2 & Ho2).
    exists p2. split; [done|]. eapply obj_trans; [done|]. by eapply obj_mono.
  - intros x p2 Hx2 Hx. by apply (fr_new _ _ _ _ _ H2 x p2 Hx2), Hdom.
  - intros x p Hl Hx. destruct (fr_listed _ _ _ _ _ H1 _ _ Hl Hx) as [Hl1|]; [|by right].
    destruct (fr_objects _ _ _ _ _ H1 _ _ Hx) as (p1 & Hx1 & _ & _ & _ & Hpar).
    destruct (fr_listed _ _ _ _ _ H2 _ _ Hl1 Hx1) as [Hl2|(q & Hq & Hoq)]; [by left|right].
    destruct Hl as [pid Hl]. destruct (tr_table _ _ (wf_tree _ Hwf) _ _ Hl) as (_ & _ & par & Hp & _). unfold parent in Hp.
    rewrite lookup_fmap, Hx in Hp. simpl in Hp. exists par. split; [done|]. destruct Hpar as [[Ho _]|[He _]]; [by apply Ho|]. apply Hm. congruence.
  - intros x Hl2. destruct (fr_unlisted _ _ _ _ _ H2 _ Hl2) as [Hl1|HN]; [by apply (fr_unlisted _ _ _ _ _ H1)|right].
    destruct (ps_processes s !! x) eqn:E; [|done]. destruct (fr_objects _ _ _ _ _ H1 _ _ E) as (? & ? & _). congruence.
  - intros g grp Hg. pose proof (fr_pgid _ _ _ _ _ H1 _ _ Hg) as Hg1. destruct (ps_pgrps s1 !! g) as [grp1|] eqn:E; [|done].
    simpl in Hg1. injection Hg1 as <-. by apply (fr_pgid _ _ _ _ _ H2).
  - intros u th' Hu Hr. destruct (fr_running _ _ _ _ _ H2 _ _ Hu Hr) as [?|[Hu1 _]]; [by left|].
    destruct (fr_running _ _ _ _ _ H1 _ _ Hu1 Hr) as [Htt|?]; [left|by right].
    by apply (fr_runs _ _ _ _ _ H2 u th'); [intros []|].
Qed.

Lemma log_frame s L' : frame nobody nobody None s (with_log s L').
Proof.
  split; simpl; try done; try (by eauto); [intros x p Hx; exists p; split; [done|apply obj_refl]|congruence|by intros g grp ->].
Qed.

Section exit.
Variables (s : PState) (t : positive) (th : Thread) (p : Process) (st : LiveStatus) (cs ws ts : list positive) (term : TermStatus).
Hypotheses (Hwf : wf s) (Ht : runs s t th) (Hp : ps_processes s !! th_process th = Some p) (Hi : pr_inner p = Live st cs ws ts).

Abbreviation r := (th_process th) (only parsing).
Abbreviation Th1 := (<[t := mkThread (th_tid th) None (TExited term) (th_process th)]> (ps_threads s)) (only parsing).
Abbreviation TT1 := (if th_tid th =? pr_pid p then THREAD_TABLE s else delete (th_tid th) (THREAD_TABLE s)) (only parsing).
Abbreviation P1 := (<[r := set_inner p (Live st cs ws [])]> (ps_processes s)) (only parsing).

(** The other threads run on. *)
Lemma exit_threads s' : ps_threads s' = Th1 -> THREAD_TABLE s' = TT1 ->
  (forall u thu, ps_threads s !! u = Some thu -> exists th', ps_threads s' !! u = Some th' /\ th_process th' = th_process thu) /\
  (forall u thu, t <> u -> runs s u thu -> runs s' u thu) /\
  (forall u th', ps_threads s' !! u = Some th' -> th_inner th' = TRunning ->
    THREAD_TABLE s' !! th_tid th' = Some u \/ (ps_threads s !! u = Some th' /\ t <> u)).
Proof.
  intros HTh HTT. pose proof Ht as (Hth & Htt & _). split_and!.
  - intros u thu Hu. rewrite HTh. destruct (decide (u = t)) as [->|]; [rewrite lookup_insert_eq; simplify_eq; by eexists|rewrite lookup_insert_ne by done; eauto].
  - intros u thu Hne (Hu & Hut & Hr). unfold runs. rewrite HTh, HTT, lookup_insert_ne by done. split_and!; try done.
    destruct (th_tid th =? pr_pid p); [done|]. rewrite lookup_delete_ne; [done|]. congruence.
  - rewrite HTh. intros u th' [[<- <-]|[? Hu]]%lookup_insert_Some Hr; [done|by right].
Qed.

Lemma exit_thread_frame ts' L : frame (eq t) nobody None s (exit_base s t th p st cs ws term ts' L).
Proof.
  destruct (exit_threads (exit_base s t th p st cs ws term ts' L) eq_refl eq_refl) as (H1 & H2 & H3). split; simpl; try done.
  - apply (objects_insert _ _ _ p); [done|]. by apply (obj_live _ _ _ st cs ws ts).
  - intros x p' [[<- <-]|[_ Hx]]%lookup_insert_Some HN; congruence.
  - by left.
  - by left.
  - by intros g grp ->.
Qed.

Section kin.
Variables (par : positive) (pp pI : Process) (stP : LiveStatus) (csP wsP tsP : list positive) (stI : LiveStatus) (csI wsI tsI : list positive).
Hypotheses (K : kin s th p cs par pp pI stP csP wsP tsP stI csI wsI tsI).

(** The processes whose children or waiters change. *)
Definition touched (x : positive) : Prop := x = r \/ x = IDLE \/ x = par.

Lemma adopted_lookup P' x : adopted IDLE pI stI csI wsI tsI P1 P' cs -> x <> r -> x <> IDLE -> x ∉ cs ->
  (<[r := set_inner p (Zombie term)]> P') !! x = ps_processes s !! x.
Proof. intros Had Hr HI Hcs. rewrite lookup_insert_ne by done. rewrite (Had x), !decide_False by done. by rewrite lookup_insert_ne. Qed.

Lemma adopted_objects P' : adopted IDLE pI stI csI wsI tsI P1 P' cs ->
  (forall x q, ps_processes s !! x = Some q -> exists q', (<[r := set_inner p (Zombie term)]> P') !! x = Some q' /\ obj touched x q q') /\
  (forall x, ps_processes s !! x = None -> (<[r := set_inner p (Zombie term)]> P') !! x = None).
Proof.
  intros Had. pose proof K as [Hpar _ _ _ _ _ _ _ HI HiI _ _ _ _ _].
  destruct (runs_process _ _ _ Hwf Ht) as [Hl _]. split.
  - intros x q Hx. destruct (decide (x = r)) as [->|Hxr]; [|destruct (decide (x = IDLE)) as [->|HxI]; [|destruct (decide (x ∈ cs)) as [Hxc|Hxc]]].
    + rewrite lookup_insert_eq. eexists. split; [done|]. simplify_eq. split_and!; [done..|left; by left|left].
      simpl. split; intros q Hq; right; right; congruence.
    + rewrite lookup_insert_ne by done. rewrite (Had IDLE), decide_True by done. eexists. split; [done|]. simplify_eq. by apply (obj_live _ _ _ stI csI wsI tsI).
    + rewrite lookup_insert_ne by done. rewrite (Had x), decide_False, decide_True by done. rewrite lookup_insert_ne, Hx by done. eexists. split; [done|].
      apply (wait_children s th p st cs ws ts Hwf Hl Hp Hi) in Hxc as (_ & pc & Hpc & Hpc'). rewrite Hx in Hpc. simplify_eq.
      split_and!; [done..|by right|left]. simpl. split; intros z Hz; simplify_eq; [by left|right; by left].
    + rewrite adopted_lookup by done. exists q. split; [done|apply obj_refl].
  - intros x Hx. rewrite lookup_insert_ne by congruence. rewrite (Had x). rewrite decide_False by congruence.
    destruct (decide (x ∈ cs)); rewrite lookup_insert_ne by congruence; by rewrite Hx.
Qed.

(** The state after the exit, with the waiters of the parent and their states. *)
Definition to_parent (P' : gmap positive Process) (wsP' : list positive) (W' : gmap positive Waiter) (L' : list Effect) : PState :=
  mkPState (<[par := set_inner (set_queues_of pp chld_pending) (Live stP csP wsP' tsP)]> (<[r := set_inner p (Zombie term)]> P')) Th1
    (ps_pgrps s) W' (ps_next s) (PROCESS_TABLE s) TT1 (PROCESSGRP_TABLE s) (THREAD_ID_ALLOC s) (THREAD_NOTIFIERS s ∖ {[th_tid th]}) (NEW_THREAD_TABLE s)
    (delete (pr_pid p) (EXIT_CHILDREN_STATUS s)) L'.

Lemma to_parent_frame P' wsP' W' L' woke : par <> IDLE -> adopted IDLE pI stI csI wsI tsI P1 P' cs ->
  (forall w wt, woke <> Some w -> ps_waiters s !! w = Some wt -> W' !! w = Some wt) ->
  frame (eq t) touched woke s (to_parent P' wsP' W' L').
Proof.
  intros HpI Had HW. destruct (exit_threads (to_parent P' wsP' W' L') eq_refl eq_refl) as (H1 & H2 & H3). destruct (adopted_objects P' Had) as [Ho Hn].
  pose proof (adopted_parent s th p st cs ws term par pp pI stP csP wsP tsP stI csI wsI tsI K P' Had HpI) as Hpar. split; simpl; try done.
  - intros ->. apply delete_empty.
  - intros x q Hx. destruct (decide (x = par)) as [->|Hne]; [|rewrite lookup_insert_ne by done; by apply Ho].
    rewrite lookup_insert_eq. eexists. split; [done|]. rewrite (kn_stored _ _ _ _ _ _ _ _ _ _ _ _ _ _ _ K) in Hx. simplify_eq. split_and!; [done..|left; right; by right|right].
    split; [done|]. split; intros z; simpl; by rewrite (kn_live _ _ _ _ _ _ _ _ _ _ _ _ _ _ _ K).
  - intros x q Hx HN. rewrite lookup_insert_ne in Hx; [by rewrite Hn in Hx|]. intros <-. pose proof (kn_stored _ _ _ _ _ _ _ _ _ _ _ _ _ _ _ K). congruence.
  - by left.
  - by left.
  - by intros g grp ->.
Qed.

(** The zombie children of the parent: the old ones and the process. *)
Lemma to_parent_children P' wsP' W' L' c : par <> IDLE -> adopted IDLE pI stI csI wsI tsI P1 P' cs -> c <> r ->
  forall pc, child_of (to_parent P' wsP' W' L') par c pc <-> child_of s par c pc.
Proof.
  intros HpI Had Hc pc. unfold child_of. simpl. pose proof K as [Hpar Hpp HiP Hne Hpcs _ _ _ HI _ HIcs _ _ _ _].
  assert (Hlt : forall x px q, listed (PROCESS_TABLE s) x -> ps_processes s !! x = Some px -> pr_parent px = Some q -> x <> q).
  { intros x px q [pid Hx] Hpx Hq ->. destruct (tr_table _ _ (wf_tree _ Hwf) _ _ Hx) as (_ & _ & y & Hy & _ & _ & Hlt).
    unfold parent in Hy. rewrite lookup_fmap, Hpx in Hy. simpl in Hy. simplify_eq. lia. }
  destruct (runs_process _ _ _ Hwf Ht) as [Hl _].
  destruct (decide (c = par)) as [->|Hcp].
  { rewrite lookup_insert_eq, Hpp. split; intros (Hlc & Hx & Hq); simplify_eq; by destruct (Hlt _ _ _ Hlc Hpp Hq). }
  rewrite lookup_insert_ne by done.
  destruct (decide (c = IDLE)) as [->|HcI].
  { split; intros (Hlc & _); by destruct (idle_not_listed _ _ (wf_tree _ Hwf)). }
  destruct (decide (c ∈ cs)) as [Hin|Hin]; [|by rewrite adopted_lookup].
  rewrite lookup_insert_ne by done. rewrite (Had c), decide_False, decide_True by done. rewrite lookup_insert_ne by done.
  apply (wait_children s th p st cs ws ts Hwf Hl Hp Hi) in Hin as (_ & pc' & -> & Hpc'). simpl. split; intros (_ & Hx & Hq); simplify_eq/=; congruence.
Qed.

(** The process itself is now a zombie child of the parent. *)
Lemma to_parent_self P' wsP' W' L' : zombie_child_of (to_parent P' wsP' W' L') par r (set_inner p (Zombie term)) term.
Proof.
  pose proof K as [Hpar _ _ Hnep _ _ _ _ _ _ _ _ _ _ _]. destruct (runs_process _ _ _ Hwf Ht) as [Hl _].
  split_and!; [done| |done..]. simpl. by rewrite lookup_insert_ne, lookup_insert_eq.
Qed.

Lemma to_parent_zombies P' wsP' W' L' c pc z : par <> IDLE -> adopted IDLE pI stI csI wsI tsI P1 P' cs -> c <> r ->
  zombie_child_of (to_parent P' wsP' W' L') par c pc z <-> zombie_child_of s par c pc z.
Proof.
  intros HpI Had Hc. pose proof (to_parent_children P' wsP' W' L' c HpI Had Hc pc) as Hch. unfold zombie_child_of. unfold child_of in Hch. simpl in *. tauto.
Qed.

(** The waiters of the parent after the exit. *)
Definition wakes (wsP' : list positive) (W' : gmap positive Waiter) : Prop :=
  (exists i w wt q, first_waiter (ps_waiters s) wsP (wants s th p) i w wt q /\ W' = <[w := woken wt q]> (ps_waiters s) /\ wsP' = swap_remove i wsP) \/
  (forall w wt, w ∈ wsP -> ps_waiters s !! w = Some wt -> wants s th p (wt_data wt) = None) /\ W' = ps_waiters s /\ wsP' = wsP.

Lemma wants_accepts f : wants s th p f = if accepts s f r then Some (pr_pid p) else None.
Proof. unfold wants, accepts. by destruct (filter_matches s f r) as [[]| |]. Qed.

Section calls.
Variables (calls : gmap positive positive) (P' : gmap positive Process) (wsP' : list positive) (W' : gmap positive Waiter) (L' : list Effect).
Hypotheses (Hok : sys_ok s calls) (HpI : par <> IDLE) (Had : adopted IDLE pI stI csI wsI tsI P1 P' cs) (Hwake : wakes wsP' W').

(** The one waiter that the parent can list. *)
Lemma parent_waiter w : w ∈ wsP -> exists t0 th0 wt0, wsP = [w] /\ calls !! t0 = Some w /\ runs s t0 th0 /\ th_process th0 = par /\
  ps_waiters s !! w = Some wt0 /\ wt_is_woken wt0 = false.
Proof.
  intros Hw. pose proof K as [_ Hpp HiP _ _ _ _ Hpres _ _ _ _ _ _ _]. destruct (so_list _ _ Hok par Hpres pp Hpp) as [Hnil|(t0 & w0 & th0 & wt0 & ? & ? & ? & ? & ? & Hlist)];
    unfold waiting_in in *; rewrite HiP in *; [rewrite Hnil in Hw; by apply not_elem_of_nil in Hw|].
  rewrite Hlist in Hw. apply list_elem_of_singleton in Hw as ->. by exists t0, th0, wt0.
Qed.

(** A thread of the parent that was woken before. *)
Lemma call_woken t0 w0 th0 wt0 : calls !! t0 = Some w0 -> runs s t0 th0 -> th_process th0 = par -> t <> t0 ->
  ps_waiters s !! w0 = Some wt0 -> wt_is_woken wt0 = true -> wt_thread wt0 = t0 ->
  (forall pid, wt_result wt0 = Some pid -> exists c pc term, zombie_child_of s par c pc term /\ pr_pid pc = pid) ->
  call_ok (to_parent P' wsP' W' L') t0 w0.
Proof.
  intros Ht0 Hru0 Hpr0 Hne Hw0 Hwk Hwt Hres. exists th0, wt0. rewrite Hwk, Hpr0. split_and!.
  - by apply (exit_threads (to_parent P' wsP' W' L') eq_refl eq_refl).
  - simpl. destruct Hwake as [(i & w & wt & q & (Hwi & _) & -> & _)|(_ & -> & _)]; [|done].
    destruct (parent_waiter w) as (_ & _ & wt' & _ & _ & _ & _ & Hw' & Hnw); [by eapply list_elem_of_lookup_2|]. rewrite lookup_insert_ne; [done|]. intros ->. congruence.
  - done.
  - intros pid Hpid. destruct (Hres _ Hpid) as (c & pc & z & Hz & <-). exists c, pc, z. split; [|done]. apply to_parent_zombies; try done.
    intros ->. destruct Hz as (_ & Hc & Hzi & _). congruence.
Qed.

(** A thread of the parent that is asleep. *)
Lemma call_asleep t0 w0 th0 wt0 : calls !! t0 = Some w0 -> runs s t0 th0 -> th_process th0 = par -> t <> t0 ->
  ps_waiters s !! w0 = Some wt0 -> wt_thread wt0 = t0 -> wsP = [w0] -> wt_is_woken wt0 = false ->
  (forall c pc term, zombie_child_of s par c pc term -> accepts s (wt_data wt0) c = false) ->
  (exists c pc, child_of s par c pc /\ awaits (wt_data wt0) (pr_pid pc)) ->
  call_ok (to_parent P' wsP' W' L') t0 w0.
Proof.
  intros Ht0 Hru0 Hpr0 Hne Hw0 Hwt Hws Hwk Hno (c & pc & Hc & Haw).
  pose proof (to_parent_self P' wsP' W' L') as Hself.
  assert (Hru' : runs (to_parent P' wsP' W' L') t0 th0) by (by apply (exit_threads (to_parent P' wsP' W' L') eq_refl eq_refl)).
  destruct Hwake as [(i & w & wt & q & (Hwi & Hww & Hwants & _) & HW' & _)|(Hnone & HW' & Hws')].
  - rewrite Hws in Hwi. apply list_lookup_singleton_Some in Hwi as [-> <-]. rewrite Hw0 in Hww. injection Hww as <-.
    rewrite wants_accepts in Hwants. destruct (accepts s (wt_data wt0) r); [|done]. injection Hwants as <-.
    exists th0, (woken wt0 (pr_pid p)). rewrite Hpr0. split_and!; [done|simpl; rewrite HW'; apply lookup_insert_eq|done|]. simpl.
    intros pid [= <-]. by exists r, (set_inner p (Zombie term)), term.
  - exists th0, wt0. rewrite Hwk, Hpr0. split_and!; [done|simpl; by rewrite HW'|done|..].
    + intros x px z Hx. pose proof (to_parent_frame P' wsP' W' L' None HpI Had) as Hfr. destruct (decide (x = r)) as [->|Hxr].
      * assert (Hacc : accepts s (wt_data wt0) r = false).
        { pose proof (Hnone w0 wt0 ltac:(rewrite Hws; by left) Hw0) as E. rewrite wants_accepts in E. by destruct (accepts s (wt_data wt0) r). }
        rewrite <- Hacc. destruct Hself as (Hl & Hr' & _). eapply (frame_accepts (eq t) touched None); [apply Hfr; by rewrite HW'|done|done|exact Hp|exact Hr'|done].
      * apply to_parent_zombies in Hx as Hx0; try done. rewrite <- (Hno _ _ _ Hx0). destruct Hx as (_ & Hx & _), Hx0 as (Hl & Hx0 & _).
        eapply (frame_accepts (eq t) touched None); [apply Hfr; by rewrite HW'|done..].
    + destruct (decide (c = r)) as [->|Hcr]; [|exists c, pc; split; [by apply to_parent_children|done]].
      exists r, (set_inner p (Zombie term)). destruct Hself as (? & ? & _ & ?), Hc as (_ & Hc & _). simplify_eq. done.
    + eexists. split; [simpl; apply lookup_insert_eq|]. simpl. by rewrite Hws', Hws.
Qed.

(** The waiters that the three processes list. *)
Lemma to_parent_listing x : (forall t0 w0, calls !! t0 = Some w0 -> t <> t0) -> touched x -> listing_ok (to_parent P' wsP' W' L') calls x.
Proof.
  intros Hout. pose proof K as [_ Hpp HiP Hnep Hpcs _ _ Hpres HI HiI HIcs _ HrI _ _].
  destruct (decide (x = par)) as [->|Hxp]; intros Hx q Hq; simpl in Hq.
  - rewrite lookup_insert_eq in Hq. injection Hq as <-. unfold waiting_in. simpl.
    destruct Hwake as [(i & w & wt & z & (Hwi & _) & _ & ->)|(_ & HW' & ->)].
    + destruct (parent_waiter w) as (_ & _ & _ & Hws & _); [by eapply list_elem_of_lookup_2|]. left. rewrite Hws in *. by apply list_lookup_singleton_Some in Hwi as [-> _].
    + assert (Hd : forall l : list positive, l = [] \/ exists w, w ∈ l) by (intros [|w l]; [by left|right; exists w; by left]).
      destruct (Hd wsP) as [?|[w Hw]]; [by left|right]. destruct (parent_waiter w Hw) as (t0 & th0 & wt0 & ? & ? & ? & ? & ? & ?).
      exists t0, w, th0, wt0. split_and!; try done; [|simpl; by rewrite HW']. apply (exit_threads (to_parent P' wsP W' L') eq_refl eq_refl); [by eapply Hout|done].
  - left. rewrite lookup_insert_ne in Hq by done. destruct Hx as [->|[->|]]; [..|done].
    + rewrite lookup_insert_eq in Hq. by injection Hq as <-.
    + rewrite lookup_insert_ne in Hq by done. rewrite (Had IDLE), decide_True in Hq by done. injection Hq as <-.
      pose proof (idle_no_waiter _ _ _ Hok HI) as Hn. unfold waiting_in in *. by rewrite HiI in Hn.
Qed.

Lemma to_parent_ok : (forall t0 w0, calls !! t0 = Some w0 -> t <> t0) -> (forall t0 w0 th0, calls !! t0 = Some w0 -> runs s t0 th0 -> th_process th0 <> r) ->
  wf (to_parent P' wsP' W' L') -> sys_ok (to_parent P' wsP' W' L') calls.
Proof.
  intros Hout Hr Hwf'.
  assert (exists woke, (forall w wt, woke <> Some w -> ps_waiters s !! w = Some wt -> W' !! w = Some wt) /\ forall w, woke = Some w -> w ∈ wsP) as (woke & HW & Hwoke).
  { destruct Hwake as [(i & w & wt & z & (Hwi & _) & -> & _)|(_ & -> & _)]; [|by exists None].
    exists (Some w). split; [|intros ? [= <-]; by eapply list_elem_of_lookup_2]. intros x wx Hx Hwx. rewrite lookup_insert_ne by congruence. done. }
  assert (Hpar : forall t0 w0 th0, calls !! t0 = Some w0 -> woke = Some w0 -> runs s t0 th0 -> th_process th0 = par).
  { intros t0 w0 th0 Ht0 Hwk (Hth0 & _). destruct (parent_waiter _ (Hwoke _ Hwk)) as (t1 & th1 & wt1 & _ & Ht1 & (Hth1 & _) & Hp1 & Hwt1 & _).
    destruct (so_call _ _ Hok _ _ Ht0) as (? & ? & _ & Hw0 & E0 & _), (so_call _ _ Hok _ _ Ht1) as (? & ? & _ & Hw1 & E1 & _). congruence. }
  apply (sys_ok_frame _ _ _ _ _ (to_parent_frame P' wsP' W' L' woke HpI Had HW) Hwf Hwf' calls Hok).
  - intros t0 w0 Ht0. destruct (so_call _ _ Hok _ _ Ht0) as (th0 & wt0 & Hru0 & Hw0 & Hwt0 & Hcase).
    destruct (decide (th_process th0 = par)) as [Hp0|Hp0].
    + right. rewrite Hp0 in Hcase. destruct (wt_is_woken wt0) eqn:Hwk; [eapply call_woken; eauto|].
      destruct Hcase as (Hno & Haw & pp' & Hpp' & Hws). pose proof K as [_ Hpp HiP _ _ _ _ _ _ _ _ _ _ _ _].
      eapply call_asleep; eauto. unfold waiting_in in Hws. rewrite Hpp in Hpp'. injection Hpp' as <-. by rewrite HiP in Hws.
    + left. split_and!; [intros E; by destruct Hp0; eapply Hpar|by eapply Hout|]. intros th0' Hru0' Hto. pose proof Hru0 as (E1 & _). pose proof Hru0' as (E2 & _). rewrite E1 in E2. injection E2 as <-.
      destruct Hto as [?|[?|?]]; [by eapply Hr| |done]. by destruct (sleeper_process _ _ _ _ _ Hok Ht0 E1) as (_ & _ & ?).
  - intros x _. by apply to_parent_listing.
  - intros t0 w0 Ht0 Hwk th0 Hru0. right. right. by eapply Hpar.
  - intros t0 w0 Ht0 <-. by eapply Hout.
Qed.

End calls.

(** The exit of a child of the idle process. *)
Lemma zombie_frame P' : adopted IDLE pI stI csI wsI tsI P1 P' cs -> frame (eq t) touched None s (zombie_state s t th p term P').
Proof.
  intros Had. destruct (exit_threads (zombie_state s t th p term P') eq_refl eq_refl) as (H1 & H2 & H3). destruct (adopted_objects P' Had) as [Ho Hn].
  split; simpl; try done.
  - intros ->. apply delete_empty.
  - intros x q Hx HN. by rewrite Hn in Hx.
  - by left.
  - by left.
  - by intros g grp ->.
Qed.

Lemma to_idle_ok calls s' : sys_ok s calls -> par = IDLE -> ts ≡ₚ [t] -> exited_to_idle s t th p st cs ws term pI stI csI wsI tsI s' ->
  (forall t0 w0, calls !! t0 = Some w0 -> t <> t0) -> (forall t0 w0 th0, calls !! t0 = Some w0 -> runs s t0 th0 -> th_process th0 <> r) ->
  sys_ok s' calls.
Proof.
  intros Hok HpI Hone Hex Hout Hr.
  pose proof (exited_to_idle_wf s t th p st cs ws ts term Hwf Ht Hp Hi par pp pI stP csP wsP tsP stI csI wsI tsI K Hone s' HpI Hex) as Hwf'.
  destruct Hex as (P' & L' & s1 & Had & Hreap & ->). pose proof K as [_ _ _ Hnep _ _ _ _ HI HiI _ _ HrI _ _].
  pose proof (zombie_wf s t th p st cs ws ts term Hwf Ht Hp Hi par pp pI stP csP wsP tsP stI csI wsI tsI K Hone P' Had) as Hzwf.
  pose proof (zombie_idle s t th p st cs ws term par pp pI stP csP wsP tsP stI csI wsI tsI K P' Had) as HzI.
  assert (Hfr : frame (eq t) touched None s (with_log s1 L')).
  { destruct (adopted_objects P' Had) as [_ Hn].
    eapply (frame_trans _ _ (eq IDLE) s (zombie_state s t th p term P')); [done|intros q <-; right; by left|exact Hn|by apply zombie_frame|].
    eapply (frame_trans _ _ nobody _ s1); [exact Hzwf|by intros ? []| | |apply log_frame].
    - destruct Hreap as (cs' & g & grp & leader' & GT' & _ & _ & _ & _ & ->). simpl. intros x Hx.
      rewrite lookup_insert_ne, lookup_insert_ne; [done|intros <-; simpl in HzI; congruence|intros <-; by rewrite lookup_insert_eq in Hx].
    - eapply (reaped_frame _ IDLE r _ _ _ _ _ _ _ term); try exact Hreap; try done; [by left| |apply lookup_insert_eq].
      eapply (zombie_child s th p st cs ws par pp pI stP csP wsP tsP stI csI wsI tsI K P' HpI); done. }
  assert (Hidle : waiting_in pI = []) by (by eapply idle_no_waiter).
  apply (sys_ok_frame _ _ _ _ _ Hfr Hwf Hwf' calls Hok); try done.
  - intros t0 w0 Ht0. left. split_and!; [done|by eapply Hout|]. intros th0 Hru0 Hto. pose proof Hru0 as (E1 & _).
    destruct (sleeper_process _ _ _ _ _ Hok Ht0 E1) as (_ & _ & ?). destruct Hto as [?|[?|?]]; [by eapply Hr|done|congruence].
  - intros x _ Hx q Hq. left. destruct Hreap as (cs' & g & grp & leader' & GT' & _ & _ & _ & _ & ->). simpl in Hq.
    apply lookup_insert_Some in Hq as [[<- <-]|[Hxr Hq]]; [done|].
    assert (x = IDLE) as -> by (destruct Hx as [?|[?|?]]; congruence). rewrite lookup_insert_eq in Hq. injection Hq as <-. unfold waiting_in in *. by rewrite HiI in Hidle.
Qed.

End kin.
End exit.

(** Every exit of a running thread succeeds and keeps the invariant. *)
Lemma exit_thread_ok s calls t th term : sys_ok s calls -> runs s t th -> calls !! t = None ->
  exists s', exit_thread t term s = (Ok tt, s') /\ sys_ok s' calls.
Proof.
  intros Hok Ht Hcur. pose proof (so_wf _ _ Hok) as Hwf.
  destruct (runs_process _ _ _ Hwf Ht) as (Hl & p & st & cs & ws & ts & Hp & Hi & Hin).
  assert (Hout : forall t0 w0, calls !! t0 = Some w0 -> t <> t0) by congruence.
  destruct (exit_prefix s t th p st cs ws ts term Hwf Ht Hp Hi) as (ts' & L & Hperm & Hrun).
  destruct ts' as [|t2 ts'].
  - assert (Hr : forall t0 w0 th0, calls !! t0 = Some w0 -> runs s t0 th0 -> th_process th0 <> th_process th).
    { intros t0 w0 th0 Ht0 Hru0 Heq. destruct (runs_process _ _ _ Hwf Hru0) as (_ & p0 & ? & ? & ? & ts0 & Hp0 & Hi0 & Hin0). rewrite Heq, Hp in Hp0. injection Hp0 as <-.
      rewrite Hi in Hi0. simplify_eq. rewrite Hperm in Hin0. apply list_elem_of_singleton in Hin0. congruence. }
    destruct (family s t th p st cs ws ts Hwf Ht Hp Hi) as (par & pp & pI & stP & csP & wsP & tsP & stI & csI & wsI & tsI & K).
    destruct (decide (par = IDLE)) as [HpI|HpI].
    + destruct (exit_to_idle_runs s t th p st cs ws ts term Hwf Ht Hp Hi par pp pI stP csP wsP tsP stI csI wsI tsI K Hperm HpI) as (s' & Hs' & Hex).
      exists s'. split; [done|]. by eapply to_idle_ok.
    + destruct (exit_to_parent_runs s t th p st cs ws ts term Hwf Ht Hp Hi par pp pI stP csP wsP tsP stI csI wsI tsI K Hperm HpI) as (s' & Hs' & Hex).
      exists s'. split; [done|]. pose proof (exited_to_parent_wf s t th p st cs ws ts term Hwf Ht Hp Hi par pp pI stP csP wsP tsP stI csI wsI tsI K Hperm s' HpI Hex) as Hwf'.
      destruct Hex as (P' & wsP' & W' & L' & Had & Hwake & ->). by eapply to_parent_ok.
  - exists (exit_base s t th p st cs ws term (t2 :: ts') (L ++ [FutexWake (ProcessFutex (th_process th)) 1])). split; [by rewrite Hrun|].
    apply (sys_ok_frame _ _ _ _ _ (exit_thread_frame s t th p st cs ws ts term Ht Hp Hi _ _) Hwf) with (calls := calls); try done.
    + by apply (wf_thread_exited s t th p st cs ws ts (t2 :: ts') term None Hwf Ht Hp Hi Hperm).
    + intros t0 w0 Ht0. left. split_and!; [done|by eapply Hout|]. by intros ? ? ?.
Qed.

(** * [exit_group] *)

Section group.
Variables (s : PState) (calls : gmap positive positive) (cur : positive) (th : Thread) (p : Process) (st : LiveStatus) (cs ws ts : list positive)
  (term : TermStatus) (W' : gmap positive Waiter) (L' : list Effect).
Hypotheses (Hok : sys_ok s calls) (Hru : runs s cur th) (Hp : ps_processes s !! th_process th = Some p) (Hi : pr_inner p = Live st cs ws ts)
  (HW : forall w, W' !! w = if decide (w ∈ ws) then (fun wt => mkWaiter (wt_thread wt) true (wt_data wt) None) <$> ps_waiters s !! w else ps_waiters s !! w).

(** The process is told to exit and its sleeping thread is woken without a result. *)
Definition told : PState :=
  mkPState (<[th_process th := set_inner (set_forced p (force_exit (pr_forced_exit_status p) term)) (Live st cs [] ts)]> (ps_processes s))
    (ps_threads s) (ps_pgrps s) W' (ps_next s) (PROCESS_TABLE s) (THREAD_TABLE s) (PROCESSGRP_TABLE s) (THREAD_ID_ALLOC s) (THREAD_NOTIFIERS s)
    (NEW_THREAD_TABLE s) (EXIT_CHILDREN_STATUS s) L'.

Lemma told_wf : wf told.
Proof.
  pose proof (so_wf _ _ Hok) as Hwf. apply (wf_process s (th_process th) p); try done; try (unfold node, threads_in; simpl; by rewrite Hi).
  - exact (wf_queues _ Hwf _ _ Hp).
  - intros w [wt Hw]. rewrite HW, Hw. case_decide; by eexists.
  - simpl. by intros w ?%not_elem_of_nil.
  - intros w Hw. destruct (wf_fresh _ Hwf w Hw) as (_ & _ & _ & HN). rewrite HW, HN. by case_decide.
Qed.

(** The waiter of the process, if it lists one. *)
Lemma told_waiter w : w ∈ ws -> ws = [w] /\ exists t0 th0 wt0, calls !! t0 = Some w /\ runs s t0 th0 /\ th_process th0 = th_process th /\
  ps_waiters s !! w = Some wt0 /\ wt_is_woken wt0 = false.
Proof.
  intros Hw. destruct (runs_process _ _ _ (so_wf _ _ Hok) Hru) as (Hl & _).
  destruct (so_list _ _ Hok _ (or_intror Hl) _ Hp) as [Hnil|(t0 & w0 & th0 & wt0 & Hrest)]; unfold waiting_in in *; rewrite Hi in *.
  - rewrite Hnil in Hw. by apply not_elem_of_nil in Hw.
  - destruct Hrest as (? & ? & ? & ? & ? & Hlist). rewrite Hlist in Hw. apply list_elem_of_singleton in Hw as ->. split; [done|]. by exists t0, th0, wt0.
Qed.

Lemma told_frame : frame nobody (eq (th_process th)) (head ws) s told.
Proof.
  split; simpl; try done; try (by eauto).
  - intros w wt Hw Hwt. rewrite HW, decide_False; [done|]. intros Hin. destruct (told_waiter w Hin) as [E _]. by rewrite E in Hw.
  - apply (objects_insert _ _ _ p); [done|]. split_and!; [done| |by left|right].
    + unfold forced_ok. simpl. intros _ _. destruct (fe_status _); by eexists.
    + split; [done|]. split; intros z; simpl; by rewrite Hi.
  - intros x p' [[<- <-]|[_ Hx]]%lookup_insert_Some HN; congruence.
  - by intros g grp ->.
Qed.

Lemma told_call t0 w0 th0 : calls !! t0 = Some w0 -> runs s t0 th0 -> th_process th0 = th_process th -> call_ok told t0 w0.
Proof.
  intros Ht0 Hru0 Hpr0. destruct (so_call _ _ Hok _ _ Ht0) as (th0' & wt0 & Hru0' & Hw0 & Hwt0 & Hcase).
  pose proof Hru0 as (E1 & _). pose proof Hru0' as (E2 & _). rewrite E1 in E2. injection E2 as <-.
  destruct (decide (w0 ∈ ws)) as [Hin|Hin].
  { exists th0, (mkWaiter (wt_thread wt0) true (wt_data wt0) None). split_and!; [done| |done|done]. simpl. by rewrite HW, decide_True, Hw0. }
  exists th0, wt0. split_and!; [done|simpl; by rewrite HW, decide_False|done|]. destruct (wt_is_woken wt0).
  - intros pid Hpid. destruct (Hcase _ Hpid) as (c & pc & z & (Hl & Hc & Hz & Hpar) & <-). exists c, pc, z. split; [|done]. split_and!; try done.
    simpl. rewrite lookup_insert_ne; [done|]. intros <-. congruence.
  - destruct Hcase as (_ & _ & q & Hq & Hlist). rewrite Hpr0, Hp in Hq. injection Hq as <-. unfold waiting_in in Hlist. rewrite Hi in Hlist.
    destruct Hin. rewrite Hlist. by left.
Qed.

Lemma told_ok : sys_ok told calls.
Proof.
  apply (sys_ok_frame _ _ _ _ _ told_frame (so_wf _ _ Hok) told_wf calls Hok); try (by intros ? ? ? ?).
  - intros t0 w0 Ht0. destruct (so_call _ _ Hok _ _ Ht0) as (th0 & _ & Hru0 & _). destruct (decide (th_process th0 = th_process th)) as [Heq|Hne].
    + right. by eapply told_call.
    + left. pose proof Hru0 as (E1 & _). split_and!; [|by intros ?|intros th0' (E2 & _); congruence]. intros Hh. destruct (told_waiter w0) as (_ & t1 & th1 & wt1 & Ht1 & (E2 & _) & Hp1 & Hw1 & _).
      { destruct ws; simplify_eq/=. by left. }
      destruct (so_call _ _ Hok _ _ Ht0) as (? & ? & _ & ? & ? & _), (so_call _ _ Hok _ _ Ht1) as (? & ? & _ & ? & ? & _). congruence.
  - intros x _ <- q Hq. simpl in Hq. rewrite lookup_insert_eq in Hq. left. by injection Hq as <-.
  - intros t0 w0 Ht0 Hh th0 (E1 & _). destruct (told_waiter w0) as (_ & t1 & th1 & wt1 & Ht1 & (E2 & _) & Hp1 & Hw1 & _).
    { destruct ws; simplify_eq/=. by left. }
    destruct (so_call _ _ Hok _ _ Ht0) as (? & ? & _ & ? & ? & _), (so_call _ _ Hok _ _ Ht1) as (? & ? & _ & ? & ? & _). congruence.
Qed.

End group.

Lemma exit_group_ok s calls cur th status : sys_ok s calls -> runs s cur th -> calls !! cur = None ->
  exists s', do_exit_group cur status s = (Ok 0, s') /\ sys_ok s' calls.
Proof.
  intros Hok Hru Hcur. pose proof (so_wf _ _ Hok) as Hwf. pose proof Hru as (Hth & _).
  destruct (runs_process _ _ _ Hwf Hru) as (Hl & p & st & cs & ws & ts & Hp & Hi & Hin).
  set (term := Exited (status mod 2 ^ 8)). set (p1 := set_forced p (force_exit (pr_forced_exit_status p) term)).
  destruct (wake_all_runs ws (u_processes <[th_process th := p1]> s)) as (W' & L' & Hrun & HW').
  { intros w Hw. apply (wf_waiters _ Hwf (th_process th) p); [done|]. unfold waiting_in. by rewrite Hi. }
  destruct (exit_thread_ok (told s th p st cs ts term W' L') calls cur th term) as (s' & Hs' & Hok'); [by eapply told_ok|done..|].
  exists s'. split; [|done]. unfold do_exit_group. run. cbv zeta. fold term p1. run. change (pr_inner p1) with (pr_inner p). rewrite Hi.
  rewrite (bind_ok _ _ _ _ _ Hrun). cbv beta. run. simpl. unfold u_processes. simpl. rewrite insert_insert_eq.
  by rewrite (bind_ok _ _ _ _ _ Hs').
Qed.
