(* ===== verification/ProcessSystem.v ===== *)
(** Processes running: the calls of the threads as steps of a system, with the
    threads asleep in [wait4] beside the tables.

    A step is a whole call, or the part of [wait4] before or after its sleep, or the part of [execve]
    before or after it waits for the other threads: calls come one after another, they do not overlap
    while they run. [vfork] is not among the steps. [orderly] is what the theorems ask of a run. *)

From stdpp Require Import base list gmap numbers.
From S2P Require Import Prelude Errno Effects SigSet SigQueues TermStatus Process ProcessTree ProcessFacts ProcessSpawn ProcessReap ProcessExit ProcessGroup ProcessWait ProcessSleep ProcessCalls ProcessWake.

(** * The calls *)

Inductive Call :=
| Spawn (eventfd : Result unit) (cur : ThreadRef) (process_group : option pid_t) (exec_now : bool)
| Clone (eventfd : Result unit) (cur : ThreadRef) (flags : Z) (ptid ctid : option Z) (task : Result unit)
| Start (libos_tid : pid_t)
| Wait (cur : ThreadRef) (exit_status_ptr : Result unit) (pid options : Z)
| WakeUp (cur : ThreadRef)
| Exit (cur : ThreadRef) (status : Z)
| ExitGroup (cur : ThreadRef) (status : Z)
| ForceExit (cur : ThreadRef)
| Setpgid (cur : ThreadRef) (pid pgid : Z)
| DropId (tid : Z)
| Reap
| Exec (eventfd : Result unit) (cur : ThreadRef)
| ExecAlone (cur : ThreadRef).

(** The tables, the threads asleep in [wait4] with their waiters, and the threads in [execve] with the
    process they have built. *)
Record Sys := mkSys { sy_state : PState; sy_calls : gmap ThreadRef WaiterRef; sy_execs : gmap ThreadRef ProcessRef }.

Definition Sys_new : Sys := mkSys boot ∅ ∅.

(** A call as a step: its result, without the value, and the system after it. *)
Definition as_step {A} (c : PS A) (after : Result A -> gmap ThreadRef WaiterRef -> gmap ThreadRef WaiterRef) (y : Sys) : Result unit * Sys :=
  let '(r, s') := c (sy_state y) in ((_ ← r; Ok tt), mkSys s' (after r (sy_calls y)) (sy_execs y)).

Definition perform (c : Call) (y : Sys) : Result unit * Sys :=
  let same {A} := fun (_ : Result A) (calls : gmap ThreadRef WaiterRef) => calls in
  match c with
  | Spawn eventfd cur group exec_now => as_step (do_spawn_common eventfd cur group exec_now) same y
  | Clone eventfd cur flags ptid ctid task => as_step (do_clone eventfd cur flags ptid ctid task) same y
  | Start libos_tid => as_step (exec_task libos_tid) same y
  | Wait cur ptr pid options => as_step (syscall_wait4 cur ptr pid options)
      (fun r calls => match r with Ok (Asleep w) => <[cur := w]> calls | _ => calls end) y
  | WakeUp cur => match sy_calls y !! cur with
                  | Some w => as_step (do_wait4_woken cur w) (fun _ calls => delete cur calls) y
                  | None => (Ok tt, y)
                  end
  | Exit cur status => as_step (do_exit cur status) same y
  | ExitGroup cur status => as_step (do_exit_group cur status) same y
  | ForceExit cur => as_step (handle_force_exit cur) same y
  | Setpgid cur pid pgid => as_step (syscall_setpgid cur pid pgid) same y
  | DropId tid => as_step (ThreadId_drop tid) same y
  | Reap => as_step idle_reap_zombie_children same y
  | Exec eventfd cur =>
      let '(r, s') := do_exec eventfd cur (sy_state y) in
      ((_ ← r; Ok tt), mkSys s' (sy_calls y) (match r with Ok new => <[cur := new]> (sy_execs y) | _ => sy_execs y end))
  | ExecAlone cur =>
      match sy_execs y !! cur with
      | Some new_process_ref =>
          let '(r, s') := do_exec_alone cur new_process_ref (sy_state y) in
          ((_ ← r; Ok tt), mkSys s' (sy_calls y) (delete cur (sy_execs y)))
      | None => (Ok tt, y)
      end
  end.

(** The thread runs and is neither asleep nor waits in [execve]. *)
Definition awake (y : Sys) (cur : ThreadRef) : Prop :=
  sy_calls y !! cur = None /\ sy_execs y !! cur = None
  /\ exists th, ps_threads (sy_state y) !! cur = Some th /\ th_inner th = TRunning.

Definition ids_left (y : Sys) : Prop := Z.of_nat (size (used_ids (THREAD_ID_ALLOC (sy_state y)))) < MAX_ID.

(** When a call can be made. The host may refuse a descriptor; the idle thread
    only spawns; an identifier is dropped when its thread has left the table. *)
Definition enabled (y : Sys) (c : Call) : Prop :=
  match c with
  | Spawn eventfd cur _ _ => (awake y cur \/ cur = IDLE_THREAD) /\ eventfd <> Panic /\ ids_left y
  | Clone eventfd cur _ _ _ task => awake y cur /\ eventfd <> Panic /\ task <> Panic /\ ids_left y
  | Start _ => True
  | Wait cur ptr _ _ => awake y cur /\ ptr <> Panic
  | WakeUp cur => exists w wt, sy_calls y !! cur = Some w /\ ps_waiters (sy_state y) !! w = Some wt /\ wt_is_woken wt = true
  | Exit cur _ | ExitGroup cur _ | ForceExit cur | Setpgid cur _ _ => awake y cur
  | DropId tid => THREAD_TABLE (sy_state y) !! tid = None
  | Reap => True
  | Exec eventfd cur => awake y cur /\ eventfd <> Panic
  | ExecAlone cur => exists new_process_ref th p st cs ws, sy_execs y !! cur = Some new_process_ref /\
      ps_threads (sy_state y) !! cur = Some th /\ ps_processes (sy_state y) !! th_process th = Some p /\ pr_inner p = Live st cs ws [cur]
  end.

(** What the theorems ask of the calls of a run. *)
Definition no_execve (y : Sys) (c : Call) : Prop := match c with Exec _ _ | ExecAlone _ => False | _ => True end.

(** A thread calls [wait4] only when no other thread of its process sleeps in it. *)
Definition one_waiter (y : Sys) (c : Call) : Prop :=
  match c with
  | Wait cur _ _ _ =>
      forall t w th thu, sy_calls y !! t = Some w -> ps_threads (sy_state y) !! t = Some thu -> ps_threads (sy_state y) !! cur = Some th ->
        th_process thu <> th_process th
  | _ => True
  end.

Definition orderly (y : Sys) (c : Call) : Prop := no_execve y c /\ one_waiter y c.

(** In an orderly run such a thread is in the thread table. *)
Lemma awake_runs y cur : sys_ok (sy_state y) (sy_calls y) -> awake y cur -> sy_calls y !! cur = None /\ exists th, runs (sy_state y) cur th.
Proof. intros Hok (Hc & _ & th & Hth & Hr). split; [done|]. exists th. by apply (so_running _ _ Hok). Qed.

(** * Each call *)

Abbreviation good s s' := (wf s' /\ frame nobody nobody None s s') (only parsing).

Lemma quiet_step s s' calls : sys_ok s calls -> wf s' -> frame nobody nobody None s s' -> sys_ok s' calls.
Proof. intros Hok Hwf Hfr. apply (sys_ok_step _ s s' calls Hfr Hok Hwf); [by intros ? ? ? ? ? []|by intros ? ? []]. Qed.

Lemma same_frame s : frame nobody nobody None s s.
Proof.
  split; try done; try (by eauto); [intros x p Hx; exists p; split; [done|apply obj_refl]|congruence|by intros g grp ->].
Qed.

(** A process that is the idle one or listed, live, with its group. *)
Definition host (s : PState) (r : positive) (p : Process) (st : LiveStatus) (cs ws ts : list positive) (g : positive) (grp : ProcessGrp) : Prop :=
  present (PROCESS_TABLE s) r /\ ps_processes s !! r = Some p /\ pr_inner p = Live st cs ws ts /\ pr_pgrp p = Some g /\ ps_pgrps s !! g = Some grp.

Lemma runs_host s t th : wf s -> runs s t th -> exists p st cs ws ts g grp, host s (th_process th) p st cs ws ts g grp /\ PROCESS_TABLE s !! pr_pid p = Some (th_process th).
Proof.
  intros Hwf Hru. destruct (runs_process _ _ _ Hwf Hru) as (Hl & p & st & cs & ws & ts & Hp & Hi & _). pose proof Hl as [pid HT].
  destruct (tr_table _ _ (wf_tree _ Hwf) _ _ HT) as (_ & Hpid & _). rewrite lookup_fmap, Hp in Hpid. simpl in Hpid. injection Hpid as Hpid.
  destruct (gr_group _ _ _ _ (wf_groups _ Hwf) _ _ HT) as (g & grp & Hg & Hgrp & _). unfold group_of in Hg. rewrite lookup_fmap, Hp in Hg.
  exists p, st, cs, ws, ts, g, grp. rewrite Hpid. split; [|done]. split_and!; try done. by right.
Qed.

Lemma idle_host s : wf s -> exists p st cs ws ts g grp, host s IDLE p st cs ws ts g grp.
Proof.
  intros Hwf. destruct (tr_idle _ _ (wf_tree _ Hwf)) as [cs HI]. rewrite lookup_fmap in HI. destruct (ps_processes s !! IDLE) as [p|] eqn:Hp; [|done].
  injection HI as _ _ Hcs. destruct (pr_inner p) as [st cs' ws ts|] eqn:Hi; [|done]. injection Hcs as ->.
  destruct (gr_idle _ _ _ _ (wf_groups _ Hwf)) as (g & Hg & [grp Hgrp]). unfold group_of in Hg. rewrite lookup_fmap, Hp in Hg.
  exists p, st, cs, ws, ts, g, grp. split_and!; try done. by left.
Qed.

Lemma attribute_fails s id : id <> 0 -> PROCESSGRP_TABLE s !! id = None -> get_spawn_attribute_pgrp (Some id) s = (Err EPERM, s).
Proof.
  intros Hid HN. unfold get_spawn_attribute_pgrp.
  assert (Hg : attempt (get_pgrp id) s = (Ok (Err ESRCH), s)) by (unfold attempt, get_pgrp, Table_get; by rewrite HN).
  rewrite (bind_ok _ _ _ _ _ Hg). by rewrite (proj2 (Z.eqb_neq id 0) Hid).
Qed.

Lemma spawn_step s cur th p st cs ws ts g grp eventfd a exec_now : wf s -> ps_threads s !! cur = Some th ->
  host s (th_process th) p st cs ws ts g grp -> eventfd <> Panic -> Z.of_nat (size (used_ids (THREAD_ID_ALLOC s))) < MAX_ID ->
  exists o s', do_spawn_common eventfd cur a exec_now s = (o, s') /\ o <> Panic /\ good s s'.
Proof.
  intros Hwf Hth (Hpres & Hp & Hi & Hg & Hgrp) Hev Hids.
  destruct (alloc_fresh _ (wf_ids _ Hwf) Hids) as (i & Halloc & Hpid & Hrange & _). set (pid := candidate _ _) in *.
  assert (Hattr : (exists id, a = Some id /\ id <> 0 /\ PROCESSGRP_TABLE s !! id = None) \/
    forall id, a = Some id -> id <> 0 -> is_Some (PROCESSGRP_TABLE s !! id)).
  { destruct a as [id|]; [|by right]. destruct (decide (id = 0)); [right; by intros ? [= <-]|].
    destruct (PROCESSGRP_TABLE s !! id) eqn:E; [right; intros ? [= <-] _; rewrite E; by eexists|left; eauto]. }
  destruct Hattr as [(id & -> & Hid & HN)|Ha].
  - exists (Err EPERM), s. split_and!; [|done|done|apply same_frame]. unfold do_spawn_common, new_process, new_process_common.
    unfold mbind, M_bind, read_thread, get, lift. rewrite Hth. cbn [unwrap_option]. by rewrite (attribute_fails _ _ Hid HN).
  - destruct eventfd as [[]|e|]; [| |done].
    + destruct (spawn_runs s (th_process th) p st cs ws ts pid _ g grp Hwf Hp Hi Hg Hgrp Halloc Hpid cur th a exec_now Hth eq_refl Ha) as (s' & Hrun & Hsp).
      exists (Ok pid), s'. split_and!; [done..| |].
      * eapply (spawn_wf s (th_process th) p st cs ws ts pid); eauto.
      * by eapply spawned_frame.
    + eexists _, _. split; [exact (spawn_fails s (th_process th) p pid _ g e Hwf Hp Hg Halloc Hpid eq_refl Hrange cur th a exec_now Hth eq_refl Ha)|].
      split_and!; [done| |by apply unlisted_frame]. eapply (spawn_fails_wf s (th_process th) pid); try done.
Qed.

Lemma build_thread_fails s r ctid e tid ids : IdAlloc_alloc (THREAD_ID_ALLOC s) = Some (tid, ids) -> tid <> 0 ->
  ThreadBuilder_build (Err e) None r ctid s = (Err e, u_ids (IdAlloc_free ids tid).2 s).
Proof.
  intros Ha Hne. unfold ThreadBuilder_build. rewrite (run_ThreadId_new _ _ _ _ Ha). unfold ThreadId_drop. rewrite (proj2 (Z.eqb_neq tid 0) Hne). by run.
Qed.

Lemma wf_ids_next s next : wf s -> 0 <= next <= MAX_ID -> wf (u_ids (mkIdAlloc next (used_ids (THREAD_ID_ALLOC s))) s).
Proof. intros Hwf Hn. split; simpl; try apply Hwf. lia. Qed.

Lemma clone_step s cur th p st cs ws ts g grp eventfd flags ptid ctid task : wf s -> runs s cur th ->
  host s (th_process th) p st cs ws ts g grp -> listed (PROCESS_TABLE s) (th_process th) -> eventfd <> Panic -> task <> Panic ->
  Z.of_nat (size (used_ids (THREAD_ID_ALLOC s))) < MAX_ID ->
  exists o s', do_clone eventfd cur flags ptid ctid task s = (o, s') /\ o <> Panic /\ good s s'.
Proof.
  intros Hwf Hru (Hpres & Hp & Hi & Hg & Hgrp) Hl Hev Htask Hids. pose proof Hru as (Hth & _).
  destruct (alloc_fresh _ (wf_ids _ Hwf) Hids) as (i & Halloc & Hpid & Hrange & _). set (tid := candidate _ _) in *.
  assert (Hargs : check_clone_args flags ptid ctid = Ok tt \/ check_clone_args flags ptid ctid = Err EINVAL).
  { unfold check_clone_args, check_clone_flags. repeat case_match; auto. }
  destruct Hargs as [Hargs|Hargs]; cycle 1.
  { exists (Err EINVAL), s. split_and!; [|done|done|apply same_frame]. unfold do_clone. by rewrite Hargs. }
  destruct task as [[]|e|]; [|exists (Err e), s; split_and!; [|done|done|apply same_frame]; unfold do_clone; by rewrite Hargs|done].
  destruct eventfd as [[]|e|]; [| |done].
  - destruct (clone_runs s cur th p st cs ws ts tid _ Hwf Hth Hp Hi Halloc Hpid flags ptid ctid Hargs) as (s' & Hrun & Hcl).
    exists (Ok tid), s'. split_and!; [done..| |].
    + eapply (clone_wf s th p st cs ws ts tid); eauto.
    + by eapply cloned_frame.
  - exists (Err e), (u_ids (mkIdAlloc tid (used_ids (THREAD_ID_ALLOC s))) s). split_and!; [|done|apply wf_ids_next; [done|lia]|apply ids_frame].
    unfold do_clone. rewrite Hargs. run. unfold mbind, M_bind. rewrite (build_thread_fails _ _ _ _ _ _ Halloc) by lia.
    rewrite (free_fresh s (th_process th) p tid _ g Hwf Hp Hg Halloc Hpid eq_refl Hrange). done.
Qed.

Lemma start_step s tid : wf s -> exists o s', exec_task tid s = (o, s') /\ o <> Panic /\ good s s'.
Proof.
  intros Hwf. pose proof (exec_task_runs s tid Hwf) as Hrun. destruct (NEW_THREAD_TABLE s !! tid) as [t|].
  - destruct Hrun as (th & Hth & Htid & Hi & HT & Hrun). eexists _, _. split_and!; [exact Hrun|done|by apply exec_task_wf|by apply started_frame].
  - eexists _, _. split_and!; [exact Hrun|done|done|apply same_frame].
Qed.

(** [setpgid] for another process: the caller has already executed. *)
Lemma setpgid_other s cur q pgid me : current_pid cur s = (Ok me, s) -> q <> 0 -> q <> me ->
  exists e, do_setpgid cur q pgid true s = (Err e, s).
Proof.
  intros Hme Hq Hne. unfold do_setpgid. rewrite (bind_ok _ _ _ _ _ Hme). cbv zeta. rewrite (proj2 (Z.eqb_neq q 0) Hq).
  destruct (PROCESS_TABLE s !! q) as [x|] eqn:Ex; [|exists ESRCH; unfold mbind, M_bind, get_process, Table_get; by rewrite Ex].
  assert (Hget : get_process q s = (Ok x, s)) by (unfold get_process, Table_get; by rewrite Ex). rewrite (bind_ok _ _ _ _ _ Hget). cbv beta.
  set (id := if pgid =? 0 then q else pgid).
  assert (Htarget : attempt (get_pgrp id) s = (Ok (Table_get (PROCESSGRP_TABLE s) id), s)).
  { unfold attempt, get_pgrp, Table_get. by destruct (PROCESSGRP_TABLE s !! id). }
  rewrite (bind_ok _ _ _ _ _ Htarget). destruct (_ && _); [by exists EPERM|]. rewrite (proj2 (Z.eqb_neq me q)) by done. by exists EACCES.
Qed.

(** [setpgid]: an error without an effect, or a move of the caller. *)
Lemma setpgid_step s cur th p st cs ws ts g grp pid pgid : wf s -> runs s cur th -> host s (th_process th) p st cs ws ts g grp ->
  PROCESS_TABLE s !! pr_pid p = Some (th_process th) ->
  exists o s', syscall_setpgid cur pid pgid s = (o, s') /\ o <> Panic /\ good s s'.
Proof.
  intros Hwf Hru (Hpres & Hp & Hi & Hg & Hgrp) HT. pose proof Hru as (Hth & _). destruct (not_idle s _ p Hwf HT Hp) as (_ & Hpos & _).
  pose proof (current_pid_runs s cur th p Hth Hp) as Hme.
  assert (Hself : forall q, q <> 0 -> exists o s', do_setpgid cur (pr_pid p) q true s = (o, s') /\ o <> Panic /\ good s s').
  { intros q Hq. destruct (setpgid_self s cur th p g grp Hwf Hth Hp HT Hg Hgrp q Hq) as [(_ & _ & Hrun)|(g2 & s' & Hrun & Hm)].
    - eexists _, _. split_and!; [exact Hrun|done|done|apply same_frame].
    - exists (Ok 0), s'. split_and!; [done|done|by eapply moved_wf|by eapply moved_frame]. }
  assert (Hsame : forall q, (q = 0 \/ q = pr_pid p) -> do_setpgid cur q pgid true s = do_setpgid cur (pr_pid p) (if pgid =? 0 then pr_pid p else pgid) true s).
  { intros q Hq. unfold do_setpgid. rewrite !(bind_ok _ _ _ _ _ Hme). cbv zeta. rewrite (proj2 (Z.eqb_neq (pr_pid p) 0)) by lia.
    assert ((if q =? 0 then pr_pid p else q) = pr_pid p) as -> by (destruct Hq as [->| ->]; [done|by destruct (_ =? _)]).
    destruct (Z.eqb_spec pgid 0) as [->|]; [by rewrite (proj2 (Z.eqb_neq (pr_pid p) 0)) by lia|by rewrite (proj2 (Z.eqb_neq pgid 0))]. }
  unfold syscall_setpgid. destruct (pgid <? 0); [exists (Err EINVAL), s; split_and!; try done; apply same_frame|]. cbv zeta.
  rewrite (bind_ok _ _ _ _ _ Hme). cbv beta. run. set (q := pid mod 2 ^ 32).
  destruct (negb (q =? 0) && _ && _); [exists (Err ESRCH), s; split_and!; try done; apply same_frame|].
  destruct (decide (q = 0 \/ q = pr_pid p)) as [Hq|Hq].
  - rewrite (Hsame _ Hq). apply Hself. destruct (Z.eqb_spec pgid 0); lia.
  - destruct (setpgid_other s cur q pgid (pr_pid p) Hme) as [e He]; [tauto..|]. exists (Err e), s. split_and!; try done. apply same_frame.
Qed.

Lemma drop_step s tid : wf s -> THREAD_TABLE s !! tid = None -> exists s', ThreadId_drop tid s = (Ok tt, s') /\ good s s'.
Proof.
  intros Hwf Htt. unfold ThreadId_drop. destruct (tid =? 0); [exists s; split_and!; try done; apply same_frame|].
  eexists. split_and!; [reflexivity| |apply ids_frame]. pose proof (threads_drop _ _ _ _ _ _ _ (wf_threads _ Hwf) tid Htt) as Hd.
  unfold IdAlloc_free. simpl. case_bool_decide; [|by split; apply Hwf]. split; simpl; try apply Hwf. done.
Qed.

(** * Waiting *)

Section wait.
Variables (s : PState) (calls : gmap ThreadRef WaiterRef) (cur : positive) (th : Thread) (p : Process) (st : LiveStatus) (cs ws ts : list positive).
Hypotheses (Hok : sys_ok s calls) (Hru : runs s cur th) (Hp : ps_processes s !! th_process th = Some p) (Hi : pr_inner p = Live st cs ws ts)
  (Hno : forall t w thu, calls !! t = Some w -> runs s t thu -> th_process thu <> th_process th).

(** The caller reaps a zombie child. *)
Lemma reap_ok c pc term s' : zombie_child_of s (th_process th) c pc term ->
  reaped s (th_process th) c (pr_pid pc) p pc st cs ws ts s' -> sys_ok s' calls.
Proof.
  intros (Hl & Hc & Hz & Hpar) Hreap. pose proof (so_wf _ _ Hok) as Hwf. destruct (runs_process _ _ _ Hwf Hru) as [Hlr _].
  assert (Hin : c ∈ cs) by (apply (wait_children s th p st cs ws ts Hwf Hlr Hp Hi); eauto).
  assert (Hpres : present (PROCESS_TABLE s) (th_process th)) by (by right).
  apply (sys_ok_step (eq (th_process th)) s s' calls); [by eapply reaped_frame|done|by eapply reaped_wf|by intros t w thu Ht Hthu Heq; destruct (Hno _ _ _ Ht Hthu)|].
  intros x p' <- Hx. exists p. split_and!; try done. destruct Hreap as (cs' & g & grp & leader' & GT' & _ & _ & _ & _ & ->). simpl in Hx.
  destruct (child_listed s (th_process th) c (pr_pid pc) p pc st cs ws ts term Hwf Hpres Hp Hi Hin Hc eq_refl Hz) as [_ Hne].
  rewrite lookup_insert_ne, lookup_insert_eq in Hx by done. injection Hx as <-. unfold waiting_in. by rewrite Hi.
Qed.

Lemma wait_ok f options : calls !! cur = None ->
  exists o s', do_wait4 cur f options s = (o, s') /\ o <> Panic /\
    sys_ok s' (match o with Ok (Asleep w) => <[cur := w]> calls | _ => calls end).
Proof.
  intros Hcur. pose proof (so_wf _ _ Hok) as Hwf. destruct (runs_process _ _ _ Hwf Hru) as [Hlr _]. pose proof Hru as (Hth & _).
  destruct (wait_runs s cur th p st cs ws ts f options Hwf Hth Hlr Hp Hi (so_vfork _ _ Hok)) as (o & s' & Hrun & Hout).
  exists o, s'. split; [done|]. destruct Hout as [c pc term s' Hz _ Hreap| | |Hno0 Hex _]; (split; [done|]); [by eapply reap_ok|done|done|]. by apply asleep_ok.
Qed.

End wait.

Lemma filter_ok s cur th p g grp pid : ps_threads s !! cur = Some th -> ps_processes s !! th_process th = Some p -> pr_pgrp p = Some g ->
  ps_pgrps s !! g = Some grp -> exists f, wait4_filter cur pid s = (Ok f, s).
Proof.
  intros Hth Hp Hg Hgrp. unfold wait4_filter. destruct (pid <? -1); [by eexists|]. destruct (pid =? -1); [by eexists|]. destruct (pid =? 0); [|by eexists].
  run. unfold Process_pgrp. run. rewrite Hg. cbn [unwrap_option]. run. by eexists.
Qed.

Lemma syscall_wait_ok s calls cur th p st cs ws ts g grp ptr pid options : sys_ok s calls -> runs s cur th -> calls !! cur = None ->
  host s (th_process th) p st cs ws ts g grp -> (forall t w thu, calls !! t = Some w -> runs s t thu -> th_process thu <> th_process th) -> ptr <> Panic ->
  exists o s', syscall_wait4 cur ptr pid options s = (o, s') /\ o <> Panic /\
    sys_ok s' (match o with Ok (Asleep w) => <[cur := w]> calls | _ => calls end).
Proof.
  intros Hok Hru Hcur (Hpres & Hp & Hi & Hg & Hgrp) Hno Hptr. pose proof Hru as (Hth & _). unfold syscall_wait4.
  destruct ptr as [[]|e|]; [|by exists (Err e), s|done]. run. destruct (filter_ok s cur th p g grp pid Hth Hp Hg Hgrp) as [f Hf].
  rewrite (bind_ok _ _ _ _ _ Hf). destruct (negb _); [by exists (Err EINVAL), s|]. by eapply wait_ok.
Qed.

(** The rest of [wait4] after the sleep. *)
Lemma woken_ok s calls cur w wt : sys_ok s calls -> calls !! cur = Some w -> ps_waiters s !! w = Some wt -> wt_is_woken wt = true ->
  exists o s', do_wait4_woken cur w s = (o, s') /\ sys_ok s' (delete cur calls) /\
    match wt_result wt with
    | Some pid => exists th c pc term, ps_threads s !! cur = Some th /\ zombie_child_of s (th_process th) c pc term /\ pr_pid pc = pid /\
        o = Ok (pid, TermStatus_as_u32 term)
    | None => o = Err EINTR
    end.
Proof.
  intros Hok Hcur Hw Hwk. pose proof (so_wf _ _ Hok) as Hwf. destruct (so_call _ _ Hok _ _ Hcur) as (th & wt' & Hru & Hw' & _ & Hcase).
  rewrite Hw in Hw'. injection Hw' as <-. rewrite Hwk in Hcase. pose proof (awake_ok _ _ _ _ _ Hok Hcur Hw Hwk) as Hok'. pose proof Hru as (Hth & _).
  unfold do_wait4_woken. run. rewrite Hw. cbn [unwrap_option]. run. destruct (wt_result wt) as [pid|]; [|by exists (Err EINTR), s].
  destruct (Hcase pid eq_refl) as (c & pc & term & Hz & Hpid). destruct (runs_process _ _ _ Hwf Hru) as (Hl & p & st & cs & ws & ts & Hp & Hi & _).
  pose proof Hz as (Hlc & Hc & Hzi & Hpar).
  destruct (free_zombie_child_runs s (th_process th) c pid p pc st cs ws ts term) as (s' & Hrun & Hreap); try done; [by right|apply (wait_children s th p st cs ws ts Hwf Hl Hp Hi); eauto|].
  rewrite (bind_ok _ _ _ _ _ Hrun). eexists _, _. split_and!; [reflexivity| |by exists th, c, pc, term].
  rewrite <- Hpid in Hreap. eapply (reap_ok s (delete cur calls)); try done.
  intros t w' thu [Hne Ht]%lookup_delete_Some (Hthu & _) Heq. apply Hne. symmetry. by eapply (so_one _ _ Hok).
Qed.

(** * The idle process *)

Lemma idle_reap_ok s calls p st cs ws ts c pc term s' : sys_ok s calls -> ps_processes s !! IDLE = Some p -> pr_inner p = Live st cs ws ts ->
  c ∈ cs -> ps_processes s !! c = Some pc -> pr_inner pc = Zombie term -> reaped s IDLE c (pr_pid pc) p pc st cs ws ts s' -> sys_ok s' calls.
Proof.
  intros Hok Hp Hi Hc Hpc Hz Hreap. pose proof (so_wf _ _ Hok) as Hwf. assert (Hpres : present (PROCESS_TABLE s) IDLE) by (by left).
  apply (sys_ok_step (eq IDLE) s s' calls); [by eapply reaped_frame|done|by eapply reaped_wf| |].
  - intros t w thu Ht (Hthu & _) Heq. by destruct (sleeper_process _ _ _ _ _ Hok Ht Hthu) as (_ & _ & []).
  - intros x p' <- Hx. exists p. split_and!; try done. destruct Hreap as (cs' & g & grp & leader' & GT' & _ & _ & _ & _ & ->). simpl in Hx.
    destruct (child_listed s IDLE c (pr_pid pc) p pc st cs ws ts term Hwf Hpres Hp Hi Hc Hpc eq_refl Hz) as [_ Hne].
    rewrite lookup_insert_ne, lookup_insert_eq in Hx by done. injection Hx as <-. unfold waiting_in. by rewrite Hi.
Qed.

(** The loop ends, and the idle process has no zombie child any more. *)
Lemma reap_loop_ok fuel : forall s calls acc p st cs ws ts, sys_ok s calls -> ps_processes s !! IDLE = Some p -> pr_inner p = Live st cs ws ts ->
  (length cs < fuel)%nat -> exists pids s', reap_loop fuel acc s = (Ok pids, s') /\ sys_ok s' calls /\ forall c pc term, ~ zombie_child_of s' IDLE c pc term.
Proof.
  induction fuel as [|fuel IH]; intros s calls acc p st cs ws ts Hok Hp Hi Hlen; [lia|]. pose proof (so_wf _ _ Hok) as Hwf.
  assert (Hpres : present (PROCESS_TABLE s) IDLE) by (by left).
  destruct (tr_kids _ _ (wf_tree _ Hwf) IDLE cs Hpres) as [_ Hkids]; [unfold kids; rewrite lookup_fmap, Hp; simpl; by rewrite Hi|].
  cbn [reap_loop]. run. rewrite Hi. cbn [ProcessInner_children unwrap_option]. run. destruct (List.find (is_zombie s) cs) as [z|] eqn:Ez.
  - apply List.find_some in Ez as [Hz Hzom]. apply list_elem_of_In in Hz. unfold is_zombie in Hzom.
    destruct (ps_processes s !! z) as [pz|] eqn:Hpz; [|done]. simpl in Hzom. destruct (pr_inner pz) as [|term] eqn:Hiz; [done|].
    rewrite (run_read_process _ _ _ _ Hpz).
    destruct (free_zombie_child_runs s IDLE z (pr_pid pz) p pz st cs ws ts term Hwf Hpres Hp Hi Hz Hpz eq_refl Hiz) as (s1 & Hrun & Hreap).
    rewrite (bind_ok _ _ _ _ _ Hrun). cbv beta. pose proof (idle_reap_ok _ _ _ _ _ _ _ _ _ _ _ Hok Hp Hi Hz Hpz Hiz Hreap) as Hok1.
    destruct (child_listed s IDLE z (pr_pid pz) p pz st cs ws ts term Hwf Hpres Hp Hi Hz Hpz eq_refl Hiz) as [_ Hne].
    destruct Hreap as (cs' & g & grp & leader' & GT' & Hperm & _ & _ & _ & ->). apply Permutation_length in Hperm. simpl in Hperm.
    eapply (IH _ _ _ (set_inner p (Live st cs' ws ts)) st cs' ws ts Hok1); [|done|lia]. simpl. by rewrite lookup_insert_ne, lookup_insert_eq.
  - eexists _, s. split_and!; [reflexivity|done|]. intros c pc term (Hl & Hc & Hz & Hpar).
    assert (Hin : c ∈ cs) by (apply Hkids; split; [done|]; unfold parent; by rewrite lookup_fmap, Hc).
    apply list_elem_of_In, (List.find_none _ _ Ez) in Hin. unfold is_zombie in Hin. rewrite Hc in Hin. simpl in Hin. by rewrite Hz in Hin.
Qed.

Lemma idle_reaps s calls : sys_ok s calls -> exists pids s', idle_reap_zombie_children s = (Ok pids, s') /\ sys_ok s' calls /\
  forall c pc term, ~ zombie_child_of s' IDLE c pc term.
Proof.
  intros Hok. destruct (idle_host s (so_wf _ _ Hok)) as (p & st & cs & ws & ts & g & grp & _ & Hp & Hi & _).
  unfold idle_reap_zombie_children. run. rewrite Hi. cbn [ProcessInner_children unwrap_option]. run. eapply reap_loop_ok; [done..|lia].
Qed.

Lemma force_exit_ok s calls cur th : sys_ok s calls -> runs s cur th -> calls !! cur = None ->
  exists s', handle_force_exit cur s = (Ok tt, s') /\ sys_ok s' calls.
Proof.
  intros Hok Hru Hcur. pose proof Hru as (Hth & _). destruct (runs_process _ _ _ (so_wf _ _ Hok) Hru) as (_ & p & st & cs & ws & ts & Hp & _).
  unfold handle_force_exit. run. destruct (fe_exited _) eqn:E; [|by exists s]. destruct (so_forced _ _ Hok _ _ Hp E) as [term ->]. cbn [unwrap_option]. run.
  by eapply exit_thread_ok.
Qed.

(** * The start *)

Definition idle_process : Process := mkProcess 0 None (Some 1%positive) (Live Running [] [] [3%positive]) SigQueues_new ForcedExitStatus_new.

Lemma boot_eq : boot = mkPState {[2%positive := idle_process]} {[3%positive := mkThread 0 None TInit 2]}
  {[1%positive := mkProcessGrp 0 ∅ (Some 2%positive)]} ∅ 4 ∅ ∅ {[0 := 1%positive]} IdAlloc_new ∅ ∅ ∅ [].
Proof. vm_compute. reflexivity. Qed.

Lemma boot_wf : wf boot.
Proof.
  assert (Hnl : forall x, ~ listed ∅ x) by (intros x [pid Hx]; by rewrite lookup_empty in Hx).
  rewrite boot_eq. split; simpl; try rewrite map_fmap_singleton.
  - split; [by eexists; apply lookup_singleton_eq|by intros pid r Hr; rewrite lookup_empty in Hr|].
    intros r cs [->|Hl]; [|by destruct (Hnl r)]. intros [= <-]. split; [constructor|]. intros c. split; [by intros ?%not_elem_of_nil|by intros [?%Hnl _]].
  - split; [by eexists 1%positive; split; [reflexivity|rewrite lookup_singleton_eq; eexists]|by intros pid r Hr; rewrite lookup_empty in Hr|..].
    + intros g grp pid r [<- <-]%lookup_singleton_Some. simpl. by rewrite lookup_empty.
    + intros g grp l [<- <-]%lookup_singleton_Some [= <-]. rewrite lookup_singleton_eq. by eexists.
    + intros id g [<- <-]%lookup_singleton_Some. by eexists; split; [apply lookup_singleton_eq|].
  - split; [by intros r ts ?%Hnl|by intros pid r Hr; rewrite lookup_empty in Hr..|by intros tid Hin%not_elem_of_empty|by intros tid t Hr; rewrite lookup_empty in Hr].
  - unfold MAX_ID. lia.
  - intros r p w [<- <-]%lookup_singleton_Some. by intros ?%not_elem_of_nil.
  - intros x Hx. rewrite !lookup_singleton_ne, lookup_empty by lia. done.
  - intros r p [<- <-]%lookup_singleton_Some. apply quiet_new.
  - by intros g grp [<- <-]%lookup_singleton_Some.
Qed.

Lemma boot_ok : sys_ok boot ∅.
Proof.
  split; [exact boot_wf|done|by eexists|..]; try (by intros t w Ht; rewrite lookup_empty in Ht).
  - rewrite boot_eq. simpl. by intros r p [<- <-]%lookup_singleton_Some.
  - intros t1 t2 w1 w2 th1 th2 Ht. by rewrite lookup_empty in Ht.
  - rewrite boot_eq. unfold listing_ok. simpl. intros r _ p [<- <-]%lookup_singleton_Some. by left.
  - rewrite boot_eq. simpl. by intros t th [<- <-]%lookup_singleton_Some.
Qed.

(** * The system *)

(** The states that calls with the property [R] lead to. *)
Inductive reachable (R : Sys -> Call -> Prop) : Sys -> Prop :=
| reach_new : reachable R Sys_new
| reach_step y c : reachable R y -> enabled y c -> R y c -> reachable R (perform c y).2.

Lemma as_step_ok {A} (m : PS A) after y :
  (exists o s', m (sy_state y) = (o, s') /\ o <> Panic /\ sys_ok s' (after o (sy_calls y))) ->
  (as_step m after y).1 <> Panic /\ sys_ok (sy_state (as_step m after y).2) (sy_calls (as_step m after y).2).
Proof. intros (o & s' & Hm & Ho & Hok). unfold as_step. rewrite Hm. simpl. split; [by destruct o|done]. Qed.

(** Every orderly call that can be made ends without a panic and keeps the invariant. *)
Lemma perform_ok c y : sys_ok (sy_state y) (sy_calls y) -> enabled y c -> orderly y c ->
  (perform c y).1 <> Panic /\ sys_ok (sy_state (perform c y).2) (sy_calls (perform c y).2).
Proof.
  intros Hok He Hord. pose proof (so_wf _ _ Hok) as Hwf.
  assert (Hq : forall A (m : PS A), (exists o s', m (sy_state y) = (o, s') /\ o <> Panic /\ good (sy_state y) s') ->
    exists o s', m (sy_state y) = (o, s') /\ o <> Panic /\ sys_ok s' (sy_calls y)).
  { intros A m (o & s' & ? & ? & ? & ?). exists o, s'. split_and!; try done. by eapply quiet_step. }
  assert (Ht : forall A (m : PS A) o, (exists s', m (sy_state y) = (o, s') /\ sys_ok s' (sy_calls y)) -> o <> Panic ->
    exists o s', m (sy_state y) = (o, s') /\ o <> Panic /\ sys_ok s' (sy_calls y)) by (intros A m o (s' & ? & ?) ?; by exists o, s').
  destruct c; cbn [perform]; cbn [enabled] in He; destruct Hord as [Hne Hord]; cbn [no_execve] in Hne; cbn [one_waiter] in Hord.
  - destruct He as (Hcur & Hev & Hids). apply as_step_ok, Hq. destruct Hcur as [(_ & th & Hru)%(awake_runs y)| ->]; [|done|].
    + destruct (runs_host _ _ _ Hwf Hru) as (p & st & cs & ws & ts & g & grp & Hh & _). eapply (spawn_step _ _ th); try done. apply Hru.
    + destruct (so_idle _ _ Hok) as (th & Hth & Hpr). destruct (idle_host _ Hwf) as (p & st & cs & ws & ts & g & grp & Hh). rewrite <- Hpr in Hh. by eapply spawn_step.
  - destruct He as ((_ & th & Hru)%(awake_runs y) & Hev & Htask & Hids); [|done]. apply as_step_ok, Hq. destruct (runs_host _ _ _ Hwf Hru) as (p & st & cs & ws & ts & g & grp & Hh & HT).
    eapply clone_step; try done. by eexists.
  - apply as_step_ok, Hq. by apply start_step.
  - destruct He as ((Hcur & th & Hru)%(awake_runs y) & Hptr); [|done]. apply as_step_ok. destruct (runs_host _ _ _ Hwf Hru) as (p & st & cs & ws & ts & g & grp & Hh & HT).
    eapply syscall_wait_ok; try done. intros t w thu Htw (Hthu & _). eapply Hord; try done. apply Hru.
  - destruct He as (w & wt & Hcur & Hw & Hwk). rewrite Hcur. apply as_step_ok. destruct (woken_ok _ _ _ _ _ Hok Hcur Hw Hwk) as (o & s' & Hrun & Hok' & Ho).
    exists o, s'. split_and!; try done. destruct (wt_result wt); [destruct Ho as (? & ? & ? & ? & _ & _ & _ & ->)|subst]; done.
  - destruct (awake_runs _ _ Hok He) as (Hcur & th & Hru). apply as_step_ok. eapply Ht; [by eapply exit_thread_ok|done].
  - destruct (awake_runs _ _ Hok He) as (Hcur & th & Hru). apply as_step_ok. eapply Ht; [by eapply exit_group_ok|done].
  - destruct (awake_runs _ _ Hok He) as (Hcur & th & Hru). apply as_step_ok. eapply Ht; [by eapply force_exit_ok|done].
  - destruct (awake_runs _ _ Hok He) as (_ & th & Hru). apply as_step_ok, Hq. destruct (runs_host _ _ _ Hwf Hru) as (p & st & cs & ws & ts & g & grp & Hh & HT). by eapply setpgid_step.
  - apply as_step_ok, Hq. destruct (drop_step _ _ Hwf He) as (s' & ? & ?). by exists (Ok tt), s'.
  - apply as_step_ok. destruct (idle_reaps _ _ Hok) as (pids & s' & ? & ? & _). by exists (Ok pids), s'.
  - done.
  - done.
Qed.

Lemma reachable_ok y : reachable orderly y -> sys_ok (sy_state y) (sy_calls y).
Proof. induction 1 as [|y c _ IH He Hord]; [exact boot_ok|]. by apply perform_ok. Qed.

(** No thread is in [execve]. *)
Lemma no_execs y : reachable orderly y -> sy_execs y = ∅.
Proof.
  induction 1 as [|y c _ IH _ [Hord _]]; [done|]. destruct c; cbn [perform]; try done; unfold as_step; repeat case_match; done.
Qed.

(** ** Progress *)

(** The system is not stuck: a thread can be started, can be woken, or is awake. *)
Definition can_go_on (y : Sys) : Prop :=
  (exists tid, is_Some (NEW_THREAD_TABLE (sy_state y) !! tid)) \/ (exists t, enabled y (WakeUp t)) \/ (exists t, awake y t).

Lemma child_goes_on y t w th : sys_ok (sy_state y) (sy_calls y) -> sy_execs y = ∅ ->
  (forall t w wt, sy_calls y !! t = Some w -> ps_waiters (sy_state y) !! w = Some wt -> wt_is_woken wt = false -> forall g, wt_data wt <> WithPgid g) ->
  sy_calls y !! t = Some w -> ps_threads (sy_state y) !! t = Some th ->
  can_go_on y \/ exists u w' thu, sy_calls y !! u = Some w' /\ ps_threads (sy_state y) !! u = Some thu /\ (th_process th < th_process thu < ps_next (sy_state y))%positive.
Proof.
  intros Hok Hex Hng Ht Hth. pose proof (so_wf _ _ Hok) as Hwf. destruct (so_call _ _ Hok _ _ Ht) as (th' & wt & Hru & Hw & _ & Hcase).
  pose proof Hru as (Hth' & _). rewrite Hth in Hth'. injection Hth' as <-.
  destruct (wt_is_woken wt) eqn:Hwk; [left; right; left; exists t, w, wt; done|].
  destruct Hcase as (Hno & (c & pc & (Hl & Hc & Hpar) & Haw) & _). pose proof Hl as [pid HT].
  destruct (tr_table _ _ (wf_tree _ Hwf) _ _ HT) as (_ & _ & q & Hq & _ & _ & Hlt). unfold parent in Hq. rewrite lookup_fmap, Hc in Hq. simpl in Hq.
  rewrite Hpar in Hq. injection Hq as <-.
  assert (Hlive : forall term, pr_inner pc <> Zombie term).
  { intros term Hz. assert (Hacc : accepts (sy_state y) (wt_data wt) c = true); [|by rewrite (Hno c pc term) in Hacc].
    unfold accepts, filter_matches. rewrite Hc. simpl. destruct (wt_data wt) as [|q|g] eqn:Ed; [done| |by destruct (Hng t w wt Ht Hw Hwk g)].
    simpl in Haw. subst q. apply Z.eqb_refl. }
  destruct (pr_inner pc) as [st cs ws ts|term] eqn:Hi; [|by destruct (Hlive term)].
  destruct (td_list _ _ _ _ _ _ _ (wf_threads _ Hwf) c ts Hl) as (Hne & _ & Hin).
  { unfold threads_of. rewrite lookup_fmap, Hc. simpl. unfold threads_in. by rewrite Hi. }
  destruct ts as [|u ts]; [done|]. destruct (Hin u) as (thu & Hu & Hpu & Htt & Hal); [by left|].
  destruct (td_table _ _ _ _ _ _ _ (wf_threads _ Hwf) _ _ Htt) as (thu' & Hu' & _ & Hk). rewrite Hu in Hu'. injection Hu' as <-.
  destruct Hal as [Hi'|Hi'].
  - left. left. exists (th_tid thu). rewrite (tk_new _ _ _ _ _ _ _ _ Hk), Hi'. by eexists.
  - destruct (sy_calls y !! u) as [w'|] eqn:Hcu; [|left; right; right; exists u; split; [done|split; [by rewrite Hex|by exists thu]]].
    right. exists u, w', thu. rewrite Hpu. split_and!; try done. by eapply stored_below.
Qed.

Lemma sleepers_go_on n : forall y t w th, sys_ok (sy_state y) (sy_calls y) -> sy_execs y = ∅ ->
  (forall t w wt, sy_calls y !! t = Some w -> ps_waiters (sy_state y) !! w = Some wt -> wt_is_woken wt = false -> forall g, wt_data wt <> WithPgid g) ->
  sy_calls y !! t = Some w -> ps_threads (sy_state y) !! t = Some th ->
  (Pos.to_nat (ps_next (sy_state y)) - Pos.to_nat (th_process th) <= n)%nat -> can_go_on y.
Proof.
  induction n as [|n IH]; intros y t w th Hok Hex Hng Ht Hth Hn; destruct (child_goes_on y t w th Hok Hex Hng Ht Hth) as [?|(u & w' & thu & Hu & Hthu & Hlt)]; try done; [lia|].
  eapply (IH y u w' thu); try done. lia.
Qed.
