(* ===== verification/ProcessRaces.v ===== *)
(** Executions in which the processes do not behave as they should: two threads
    of a process in [wait4], [execve] while the parent waits, [spawn] into a group that
    is left meanwhile, [setpgid] to the own group, and the flags of [clone]. *)

From stdpp Require Import base list gmap numbers.
From S2P Require Import Prelude Errno Effects TermStatus Process ProcessSleep.

(** The first process with two threads. *)
Definition two_threads : PS (ThreadRef * ThreadRef) :=
  _ ← create_idle_thread (Ok tt);
  pid ← do_spawn_common (Ok tt) IDLE_THREAD None false;
  t1 ← exec_task pid;
  tid2 ← do_clone (Ok tt) t1 MANDATORY_FLAGS None None (Ok tt);
  t2 ← exec_task tid2;
  ok (t1, t2).

(** The result of a call, a panic too. *)
Definition outcome {A} (c : PS A) : PS (Result A) := fun s => let '(r, s') := c s in (Ok r, s').

(** A child that runs, with its thread. *)
Definition child (parent : ThreadRef) : PS (pid_t * ThreadRef) :=
  pid ← do_spawn_common (Ok tt) parent None true;
  t ← exec_task pid;
  ok (pid, t).

(** Both threads wait for the same child, which exits. *)
Definition two_waiters : PS (pid_t * Z * option Waiter * option ProcessRef) :=
  '(t1, t2) ← two_threads;
  '(pid, c) ← child t1;
  w1 ← do_wait4 t1 (WithPid pid) 0;
  w2 ← do_wait4 t2 (WithPid pid) 0;
  _ ← do_exit c 7;
  match w1, w2 with
  | Asleep w1, Asleep w2 =>
      '(reaped, status) ← do_wait4_woken t1 w1;
      s ← get; ok (reaped, status, ps_waiters s !! w2, PROCESS_TABLE s !! pid)
  | _, _ => panic
  end.

(** One thread sleeps; between the exit and its return the other one waits too. *)
Definition sibling_reaps : PS (WaitOutcome * Result (pid_t * Z)) :=
  '(t1, t2) ← two_threads;
  '(pid, c) ← child t1;
  w1 ← do_wait4 t1 WithAnyPid 0;
  _ ← do_exit c 7;
  r2 ← do_wait4 t2 WithAnyPid 0;
  match w1 with
  | Asleep w1 => r1 ← outcome (do_wait4_woken t1 w1); ok (r2, r1)
  | Answer _ _ => panic
  end.

(** The process [b] calls [execve]; meanwhile its parent reaps the older child
    [a]. Afterwards the parent waits for [b], whose new program runs. *)
Definition execve_meets_wait4 : PS (WaitOutcome * WaitOutcome * option ProcessRef * option ThreadInner) :=
  '(t1, _) ← two_threads;
  '(a, ta) ← child t1;
  '(b, tb) ← child t1;
  _ ← do_exit ta 3;
  new_process ← do_exec (Ok tt) tb;
  r1 ← do_wait4 t1 (WithPid a) 0;
  _ ← do_exec_alone tb new_process;
  new_thread ← exec_task b;
  r2 ← do_wait4 t1 (WithPid b) 0;
  s ← get;
  ok (r1, r2, PROCESS_TABLE s !! b, th_inner <$> ps_threads s !! new_thread).

(** The same without the wait in between; the last one does not block. *)
Definition execve_alone : PS (WaitOutcome * option ThreadInner) :=
  '(t1, _) ← two_threads;
  '(a, ta) ← child t1;
  '(b, tb) ← child t1;
  _ ← do_exit ta 3;
  new_process ← do_exec (Ok tt) tb;
  _ ← do_exec_alone tb new_process;
  new_thread ← exec_task b;
  r2 ← do_wait4 t1 (WithPid b) WNOHANG;
  s ← get;
  ok (r2, th_inner <$> ps_threads s !! new_thread).

(** A process calls [execve] and its new program runs. When the allocator comes
    back to its number, after all the others, it is given to a new process. *)
Definition execve_id_reused : PS (pid_t * pid_t * Result ThreadRef) :=
  '(t1, _) ← two_threads;
  '(b, tb) ← child t1;
  new_process ← do_exec (Ok tt) tb;
  _ ← do_exec_alone tb new_process;
  _ ← exec_task b;
  _ ← modify (fun s => u_ids (mkIdAlloc (b - 1) (used_ids (THREAD_ID_ALLOC s))) s);
  pid ← do_spawn_common (Ok tt) t1 None true;
  r ← outcome (exec_task pid);
  ok (b, pid, r).

(** [new_process_common] after its look at the process group attribute. *)
Definition spawn_rest (eventfd : Result unit) (cur : ThreadRef) (reuse_tid : option Z) (parent_process : option ProcessRef)
    (new_pgid : option pid_t) : PS ProcessRef :=
  t ← read_thread cur;
  let process_ref := th_process t in
  pgrp_ref ← Process_pgrp process_ref;
  let parent := default process_ref parent_process in
  new_process ← ProcessBuilder_build eventfd reuse_tid (Some parent) false pgrp_ref;
  _ ← update_pgrp_for_new_process new_process new_pgid;
  ok new_process.

Lemma spawn_in_two_parts eventfd cur process_group reuse_tid parent_process s th :
  ps_threads s !! cur = Some th ->
  new_process_common eventfd cur process_group reuse_tid parent_process s
  = (new_pgid ← get_spawn_attribute_pgrp process_group; spawn_rest eventfd cur reuse_tid parent_process new_pgid) s.
Proof.
  intros Hth. unfold new_process_common, spawn_rest, mbind, M_bind, read_thread. rewrite Hth. cbn [unwrap_option].
  assert (Hs : forall r s', get_spawn_attribute_pgrp process_group s = (r, s') -> s' = s).
  { intros r s'. unfold get_spawn_attribute_pgrp. destruct process_group as [pgid|]; [|by intros [= _ <-]].
    unfold mbind, M_bind, attempt, get_pgrp. destruct (Table_get _ _); cbn; try (by intros [= _ <-]);
      case_match; by intros [= _ <-]. }
  destruct (get_spawn_attribute_pgrp process_group s) as [r s'] eqn:E. rewrite (Hs _ _ eq_refl). destruct r; try done.
  by rewrite Hth.
Qed.

(** A thread spawns into the group of a child; after its look at the group the child exits and another thread
    waits for it. *)
Definition spawn_race : PS (Result ProcessRef) :=
  '(t1, t2) ← two_threads;
  '(pid, c) ← child t1;
  _ ← syscall_setpgid c 0 0;
  new_pgid ← get_spawn_attribute_pgrp (Some pid);
  _ ← do_exit c 0;
  _ ← do_wait4 t2 (WithPid pid) 0;
  outcome (spawn_rest (Ok tt) t1 None None new_pgid).

(** [setpgid(0, 0)] twice: the group that the process leads, in the table. *)
Definition setpgid_twice : PS (option ProcessGrpRef * option ProcessGrpRef * pid_t) :=
  '(t1, _) ← two_threads;
  _ ← syscall_setpgid t1 0 0;
  s1 ← get;
  _ ← syscall_setpgid t1 0 0;
  s2 ← get;
  pgid ← do_getpgid 1;
  ok (PROCESSGRP_TABLE s1 !! 1, PROCESSGRP_TABLE s2 !! 1, pgid).

(** A child of a [vfork] has exited, and the parent waits for a group. *)
Definition vfork_group_wait : PS WaitOutcome :=
  '(t1, _) ← two_threads;
  _ ← record_exit_child 1 9 (Exited 0);
  _ ← child t1;
  do_wait4 t1 (WithPgid 0) 0.

(** Two threads of a process in [wait4]. When both sleep for one child, the
    second one sleeps for ever although the child is gone. When a second thread
    reaps the child that the first one was woken for, the first one panics. *)
Theorem wait4_siblings :
  (two_waiters empty_state).1 = Ok (3, 0x700, Some (mkWaiter 6 false (WithPid 3) None), None) /\
  (sibling_reaps empty_state).1 = Ok (Answer 3 0x700, Panic).
Proof. split; vm_compute; reflexivity. Qed.

(** [execve] puts a second process with the same number into the children of
    the parent and later removes the first child with this number. If the parent
    reaps another child in between, the new process is removed and the old one
    stays: [wait4] then reports the exit of a process whose program runs, and
    takes it out of the process table. *)
Theorem execve_removes_new_process :
  (execve_meets_wait4 empty_state).1 = Ok (Answer 3 0x300, Answer 4 0, None, Some TRunning) /\
  (execve_alone empty_state).1 = Ok (Answer 0 0, Some TRunning).
Proof. split; vm_compute; reflexivity. Qed.

(** After [execve] the number of the process is free in the allocator although
    the process uses it. A later process can get the same number; its thread
    then stops the LibOS when it starts. *)
Theorem execve_frees_id : (execve_id_reused empty_state).1 = Ok (3, 3, Panic).
Proof. vm_compute. reflexivity. Qed.

(** [setpgid] to the group that the process already leads succeeds and removes
    the group from the table, although the process is still in it. *)
Theorem setpgid_own_group_lost : exists g, (setpgid_twice empty_state).1 = Ok (Some g, None, 1).
Proof. eexists. vm_compute. reflexivity. Qed.

Definition unsupported_flags : list Z :=
  [0x4000; 0x02000000; 0x08000000; 0x40000000; 0x20000; 0x20000000; 0x10000000; 0x04000000; 0x1000; 0x2000; 0x00800000].

(** Each unsupported flag alone is accepted: only all of them together are
    refused. *)
Theorem clone_accepts_unsupported f : f ∈ unsupported_flags ->
  check_clone_flags (Z.lor MANDATORY_FLAGS f) = Ok tt /\ flags_contain UNSUPPORTED_FLAGS f = true.
Proof.
  intros Hf. assert (Hall : forallb (fun f => match check_clone_flags (Z.lor MANDATORY_FLAGS f) with Ok _ => flags_contain UNSUPPORTED_FLAGS f | _ => false end) unsupported_flags = true)
    by (vm_compute; reflexivity).
  rewrite forallb_forall in Hall. specialize (Hall f). rewrite <- list_elem_of_In in Hall. specialize (Hall Hf).
  destruct (check_clone_flags _) as [[]| |]; by rewrite ?Hall.
Qed.

(** A group wait of a process with an exited child of a [vfork] panics. *)
Theorem vfork_group_wait_panics : (vfork_group_wait empty_state).1 = Panic.
Proof. vm_compute. reflexivity. Qed.

Lemma clone_accepts_unsupported_witness : check_clone_flags (Z.lor MANDATORY_FLAGS 0x20000000) = Ok tt /\ flags_contain UNSUPPORTED_FLAGS 0x20000000 = true.
Proof. apply (clone_accepts_unsupported 0x20000000). vm_compute. do 5 right. left. Defined.
