(* ===== verification/ProcessGuarantees.v ===== *)
(** What the processes promise in orderly runs - calls one after another, no [execve] or [vfork], one thread of
    a process in [wait4] -: the tables stay consistent, no call panics, no
    exit is missed by a thread that waits for it, and waiting threads do not
    block the system. Without each of these conditions there is a run that panics. *)

From stdpp Require Import base list gmap numbers.
From S2P Require Import Prelude Errno Effects SigSet SigQueues TermStatus Process ProcessTree ProcessFacts ProcessSpawn ProcessReap ProcessExit ProcessGroup ProcessWait ProcessSleep ProcessCalls ProcessWake ProcessSystem ProcessRaces.

(** * Running calls *)

(** [enabled], evaluated. *)
Definition runningb (s : PState) (t : positive) : bool :=
  match ps_threads s !! t with Some th => match th_inner th with TRunning => true | _ => false end | None => false end.

Definition awakeb (y : Sys) (cur : ThreadRef) : bool :=
  bool_decide (sy_calls y !! cur = None) && bool_decide (sy_execs y !! cur = None) && runningb (sy_state y) cur.

Definition aloneb (s : PState) (cur : ThreadRef) : bool :=
  match ps_threads s !! cur with
  | Some th => match pr_inner <$> ps_processes s !! th_process th with Some (Live _ _ _ [t]) => bool_decide (t = cur) | _ => false end
  | None => false
  end.

Definition not_panic {A} (r : Result A) : bool := match r with Panic => false | _ => true end.

Definition ids_leftb (y : Sys) : bool := Z.of_nat (size (used_ids (THREAD_ID_ALLOC (sy_state y)))) <? MAX_ID.

Definition enabledb (y : Sys) (c : Call) : bool :=
  let s := sy_state y in
  match c with
  | Spawn eventfd cur _ _ => (awakeb y cur || bool_decide (cur = IDLE_THREAD)) && not_panic eventfd && ids_leftb y
  | Clone eventfd cur _ _ _ task => awakeb y cur && not_panic eventfd && not_panic task && ids_leftb y
  | Start _ | Reap => true
  | Wait cur ptr _ _ => awakeb y cur && not_panic ptr
  | WakeUp cur => match sy_calls y !! cur with
                  | Some w => match ps_waiters s !! w with Some wt => wt_is_woken wt | None => false end
                  | None => false
                  end
  | Exit cur _ | ExitGroup cur _ | ForceExit cur | Setpgid cur _ _ => awakeb y cur
  | DropId tid => bool_decide (THREAD_TABLE s !! tid = None)
  | Exec eventfd cur => awakeb y cur && not_panic eventfd
  | ExecAlone cur => bool_decide (is_Some (sy_execs y !! cur)) && aloneb s cur
  end.

Definition no_execveb (y : Sys) (c : Call) : bool := match c with Exec _ _ | ExecAlone _ => false | _ => true end.

Definition one_waiterb (y : Sys) (c : Call) : bool :=
  match c with
  | Wait cur _ _ _ =>
      forallb (fun tw : ThreadRef * WaiterRef =>
          negb (bool_decide (th_process <$> ps_threads (sy_state y) !! tw.1 = th_process <$> ps_threads (sy_state y) !! cur)))
        (map_to_list (sy_calls y))
  | _ => true
  end.

Definition orderlyb (y : Sys) (c : Call) : bool := no_execveb y c && one_waiterb y c.

Lemma awakeb_sound y cur : awakeb y cur = true -> awake y cur.
Proof.
  unfold awakeb, runningb. intros [[Hc%bool_decide_eq_true He%bool_decide_eq_true]%andb_true_iff Hr]%andb_true_iff. split_and!; [done..|].
  destruct (ps_threads _ !! cur) as [th|] eqn:Hth; [|done]. exists th. split; [done|]. by destruct (th_inner th).
Qed.

Lemma not_panic_sound {A} (r : Result A) : not_panic r = true -> r <> Panic.
Proof. by destruct r. Qed.

Lemma aloneb_sound s t : aloneb s t = true ->
  exists th p st cs ws, ps_threads s !! t = Some th /\ ps_processes s !! th_process th = Some p /\ pr_inner p = Live st cs ws [t].
Proof.
  unfold aloneb. destruct (ps_threads s !! t) as [th|] eqn:Hth; [|done].
  destruct (ps_processes s !! th_process th) as [p|] eqn:Hp; [|done]. simpl.
  destruct (pr_inner p) as [st cs ws [|u [|]]|] eqn:Hi; try done. intros ->%bool_decide_eq_true. by exists th, p, st, cs, ws.
Qed.

Lemma enabledb_sound y c : enabledb y c = true -> enabled y c.
Proof.
  destruct c; cbn [enabledb enabled]; rewrite ?andb_true_iff, ?orb_true_iff; unfold ids_leftb, ids_left; rewrite ?Z.ltb_lt;
    try (intros (((Ha & Hb) & Hc) & Hd)); try (intros ((Ha & Hb) & Hc)); try (intros (Ha & Hb)); try done; rewrite ?bool_decide_eq_true in *.
  - split_and!; [|by apply not_panic_sound|done]. destruct Ha; [left; by apply awakeb_sound|by right].
  - split_and!; [by apply awakeb_sound|by apply not_panic_sound..|done].
  - split_and!; [by apply awakeb_sound|by apply not_panic_sound].
  - destruct (sy_calls y !! cur) as [w|]; [|done]. destruct (ps_waiters _ !! w) as [wt|] eqn:E; [|done]. intros Hw. by exists w, wt.
  - apply awakeb_sound.
  - apply awakeb_sound.
  - apply awakeb_sound.
  - apply awakeb_sound.
  - done.
  - split_and!; [by apply awakeb_sound|by apply not_panic_sound].
  - destruct Ha as [new Hnew]. destruct (aloneb_sound _ _ Hb) as (th & p & st & cs & ws & ? & ? & ?). by exists new, th, p, st, cs, ws.
Qed.

Lemma no_execveb_sound y c : no_execveb y c = true -> no_execve y c.
Proof. by destruct c. Qed.

Lemma one_waiterb_sound y c : one_waiterb y c = true -> one_waiter y c.
Proof.
  destruct c; cbn [one_waiterb one_waiter]; try done. intros Hc t w th thu Ht Hthu Hth Heq.
  rewrite forallb_forall in Hc. specialize (Hc (t, w)). rewrite <- list_elem_of_In, elem_of_map_to_list in Hc. specialize (Hc Ht).
  simpl in Hc. rewrite Hthu, Hth in Hc. simpl in Hc. rewrite bool_decide_eq_true_2 in Hc; [done|congruence].
Qed.

Lemma orderlyb_sound y c : orderlyb y c = true -> orderly y c.
Proof. intros [? ?]%andb_true_iff. split; [by apply no_execveb_sound|by apply one_waiterb_sound]. Qed.

(** The system after a list of calls, all of which can be made and have the property. *)
Fixpoint after (cs : list Call) (y : Sys) : Sys := match cs with [] => y | c :: cs => after cs (perform c y).2 end.
Fixpoint all_enabled (R : Sys -> Call -> bool) (cs : list Call) (y : Sys) : bool :=
  match cs with [] => true | c :: cs => enabledb y c && R y c && all_enabled R cs (perform c y).2 end.

Lemma reachable_after (Rb : Sys -> Call -> bool) (R : Sys -> Call -> Prop) cs :
  (forall y c, Rb y c = true -> R y c) -> all_enabled Rb cs Sys_new = true -> reachable R (after cs Sys_new).
Proof.
  intros HR. assert (H : forall y, reachable R y -> all_enabled Rb cs y = true -> reachable R (after cs y)); [|by apply H; constructor].
  induction cs as [|c cs IH]; intros y Hy; [done|]. simpl. intros [[Hc Hr]%andb_true_iff Hcs]%andb_true_iff.
  apply IH; [|done]. constructor; [done|by apply enabledb_sound|by apply HR].
Qed.

(** A run whose last call panics. *)
Lemma run_panics (Rb : Sys -> Call -> bool) (R : Sys -> Call -> Prop) cs c :
  (forall y c, Rb y c = true -> R y c) -> all_enabled Rb (cs ++ [c]) Sys_new = true -> (perform c (after cs Sys_new)).1 = Panic ->
  exists y c, reachable R y /\ enabled y c /\ R y c /\ (perform c y).1 = Panic.
Proof.
  intros HR Hall Hp. exists (after cs Sys_new), c.
  assert (Hsplit : forall y, all_enabled Rb (cs ++ [c]) y = true ->
    all_enabled Rb cs y = true /\ enabledb (after cs y) c = true /\ Rb (after cs y) c = true).
  { clear Hall Hp. induction cs as [|d cs IH]; intros y; simpl.
    - intros [[? ?]%andb_true_iff _]%andb_true_iff. done.
    - intros [Hd Hcs]%andb_true_iff. destruct (IH _ Hcs) as (H1 & H2 & H3). by rewrite Hd, H1. }
  destruct (Hsplit _ Hall) as (H1 & H2 & H3). split_and!; auto using enabledb_sound. by eapply reachable_after.
Qed.

(** * A wait that ends *)

Section wakes.
Variables (s : PState) (calls : gmap ThreadRef WaiterRef) (t0 w0 : positive) (wt0 : Waiter) (th0 : Thread) (u : positive) (thu : Thread) (p : Process)
  (st : LiveStatus) (cs ws : list positive) (term : TermStatus).
Hypotheses (Hok : sys_ok s calls) (Ht0 : calls !! t0 = Some w0) (Hw0 : ps_waiters s !! w0 = Some wt0) (Hnw : wt_is_woken wt0 = false)
  (Hth0 : ps_threads s !! t0 = Some th0) (Hu : runs s u thu) (Hcu : calls !! u = None) (Hp : ps_processes s !! th_process thu = Some p)
  (Hpar : pr_parent p = Some (th_process th0)) (Hi : pr_inner p = Live st cs ws [u]) (Hacc : accepts s (wt_data wt0) (th_process thu) = true).

(** The exit wakes the thread and leaves the process as its zombie child. *)
Lemma exit_wakes : exists s', exit_thread u term s = (Ok tt, s') /\ sys_ok s' calls /\ ps_waiters s' !! w0 = Some (woken wt0 (pr_pid p)) /\
  zombie_child_of s' (th_process th0) (th_process thu) (set_inner p (Zombie term)) term /\ ps_threads s' !! t0 = Some th0.
Proof.
  pose proof (so_wf _ _ Hok) as Hwf. destruct (family s u thu p st cs ws [u] Hwf Hu Hp Hi) as (par & pp & pI & stP & csP & wsP & tsP & stI & csI & wsI & tsI & K).
  assert (par = th_process th0) as -> by (pose proof (kn_parent _ _ _ _ _ _ _ _ _ _ _ _ _ _ _ K); congruence).
  destruct (sleeper_process _ _ _ _ _ Hok Ht0 Hth0) as (Hru0 & _ & HnI).
  destruct (exit_to_parent_runs s u thu p st cs ws [u] term Hwf Hu Hp Hi _ pp pI stP csP wsP tsP stI csI wsI tsI K (reflexivity _) HnI) as (s' & Hs' & P' & wsP' & W' & L' & Had & Hwake & ->).
  destruct (exit_thread_ok s calls u thu term Hok Hu Hcu) as (s' & Hs'' & Hok'). rewrite Hs' in Hs''. injection Hs'' as <-.
  eexists. split; [exact Hs'|]. split; [exact Hok'|]. split_and!.
  - simpl. destruct (so_call _ _ Hok _ _ Ht0) as (th' & wt' & (Hth' & _) & Hw' & _ & Hcase). rewrite Hw0 in Hw'. injection Hw' as <-. rewrite Hth0 in Hth'. injection Hth' as <-.
    rewrite Hnw in Hcase. destruct Hcase as (_ & _ & pp' & Hpp' & Hlist). rewrite (kn_stored _ _ _ _ _ _ _ _ _ _ _ _ _ _ _ K) in Hpp'. injection Hpp' as <-.
    unfold waiting_in in Hlist. rewrite (kn_live _ _ _ _ _ _ _ _ _ _ _ _ _ _ _ K) in Hlist.
    destruct Hwake as [(i & w & wt & q & (Hwi & Hww & Hwants & _) & -> & _)|(Hnone & _)].
    + rewrite Hlist in Hwi. apply list_lookup_singleton_Some in Hwi as [-> <-]. rewrite Hw0 in Hww. injection Hww as <-.
      rewrite wants_accepts, Hacc in Hwants. injection Hwants as <-. apply lookup_insert_eq.
    + specialize (Hnone w0 wt0). rewrite wants_accepts, Hacc in Hnone. discriminate (Hnone ltac:(rewrite Hlist; by left) Hw0).
  - exact (to_parent_self s u thu p cs term Hwf Hu _ pp pI stP csP wsP tsP stI csI wsI tsI K P' wsP' W' L').
  - simpl. rewrite lookup_insert_ne; [done|congruence].
Qed.

(** The woken thread gets the identifier and the status of the process. *)
Lemma woken_answer s' : sys_ok s' calls -> ps_waiters s' !! w0 = Some (woken wt0 (pr_pid p)) -> ps_threads s' !! t0 = Some th0 ->
  zombie_child_of s' (th_process th0) (th_process thu) (set_inner p (Zombie term)) term ->
  (do_wait4_woken t0 w0 s').1 = Ok (pr_pid p, TermStatus_as_u32 term).
Proof.
  intros Hok' Hw' Hth' Hz. destruct (woken_ok s' calls t0 w0 _ Hok' Ht0 Hw' eq_refl) as (o & s2 & Hrun & _ & Ho). rewrite Hrun. simpl in *.
  destruct Ho as (th1 & c & pc & z & Hth1 & Hzc & Hpid & ->). rewrite Hth' in Hth1. injection Hth1 as <-. do 3 f_equal.
  assert (Ht : forall x px tx, zombie_child_of s' (th_process th0) x px tx -> PROCESS_TABLE s' !! pr_pid px = Some x).
  { intros x px tx ([q Hq] & Hx & _). destruct (tr_table _ _ (wf_tree _ (so_wf _ _ Hok')) _ _ Hq) as (_ & Hpx & _). rewrite lookup_fmap, Hx in Hpx.
    injection Hpx as Hpx. simpl in Hpx. by rewrite Hpx. }
  pose proof (Ht _ _ _ Hz) as H1. pose proof (Ht _ _ _ Hzc) as H2. simpl in H1. rewrite Hpid, H1 in H2. injection H2 as <-.
  destruct Hz as (_ & Hx & _), Hzc as (_ & Hx2 & Hz2 & _). rewrite Hx in Hx2. injection Hx2 as <-. by injection Hz2.
Qed.

End wakes.

(** * The theorems *)

(** C19: In every state that calls one after another lead to, without [execve] and [vfork] and with at most one
    thread of a process in [wait4], the tables of the processes, threads and groups agree: a
    number of the process table leads to a process with this number, whose
    parent is live, lists it as a child, and is older; its group is stored and
    has it as a member; its main thread is in the thread table. *)
Theorem process_tables_sound y pid r : reachable orderly y -> PROCESS_TABLE (sy_state y) !! pid = Some r ->
  let s := sy_state y in
  exists p q pq st cs ws ts g grp t th,
    ps_processes s !! r = Some p /\ pr_pid p = pid /\
    pr_parent p = Some q /\ ps_processes s !! q = Some pq /\ pr_inner pq = Live st cs ws ts /\ r ∈ cs /\ (q < r)%positive /\
    pr_pgrp p = Some g /\ ps_pgrps s !! g = Some grp /\ pg_process_group grp !! pid = Some r /\
    THREAD_TABLE s !! pid = Some t /\ ps_threads s !! t = Some th /\ th_tid th = pid /\ th_process th = r.
Proof.
  intros Hy HT s. pose proof (so_wf _ _ (reachable_ok y Hy)) as Hwf. destruct (tr_table _ _ (wf_tree _ Hwf) _ _ HT) as (_ & Hpid & q & Hq & Hpres & [cs Hcs] & Hlt).
  rewrite lookup_fmap in Hpid. destruct (ps_processes (sy_state y) !! r) as [p|] eqn:Hp; [|done]. injection Hpid as Hpid.
  unfold parent in Hq. rewrite lookup_fmap, Hp in Hq. pose proof Hcs as Hk. unfold kids in Hk. rewrite lookup_fmap in Hk.
  destruct (ps_processes (sy_state y) !! q) as [pq|] eqn:Hpq; [|done]. simpl in Hk. destruct (pr_inner pq) as [st cs' ws ts|] eqn:Hi; [|done]. injection Hk as ->.
  destruct (gr_group _ _ _ _ (wf_groups _ Hwf) _ _ HT) as (g & grp & Hg & Hgrp & Hin). unfold group_of in Hg. rewrite lookup_fmap, Hp in Hg.
  destruct (td_main _ _ _ _ _ _ _ (wf_threads _ Hwf) _ _ HT) as (t & th & Ht & Hth & Hpr).
  destruct (thread_at _ _ _ _ _ _ _ (wf_threads _ Hwf) _ _ _ Ht Hth) as [Htid _].
  exists p, q, pq, st, cs, ws, ts, g, grp, t, th. split_and!; try done.
  apply (tr_kids _ _ (wf_tree _ Hwf) q cs Hpres Hcs). split; [by exists pid|]. unfold parent. by rewrite lookup_fmap, Hp.
Qed.

(** Two threads of a process wait for the same child: the second one reaps it, the first one was woken for it. *)
Definition second_waiter_calls : list Call :=
  [Spawn (Ok tt) IDLE_THREAD None false; Start 1; Clone (Ok tt) 5%positive MANDATORY_FLAGS None None (Ok tt); Start 2;
   Spawn (Ok tt) 5%positive None true; Start 3; Wait 5%positive (Ok tt) (-1) 0; Exit 8%positive 7; Wait 6%positive (Ok tt) (-1) 0].

(** A child calls [execve]; while it waits for its threads the parent reaps another child, so that [execve] removes the
    new process from the parent's children; the parent exits. *)
Definition execve_calls : list Call :=
  [Spawn (Ok tt) IDLE_THREAD None false; Start 1; Spawn (Ok tt) 5%positive None true; Start 2; Spawn (Ok tt) 5%positive None true;
   Start 3; Exit 7%positive 3; Exec (Ok tt) 9%positive; Wait 5%positive (Ok tt) 2 0; ExecAlone 9%positive; Start 3;
   Wait 5%positive (Ok tt) 3 0; Exit 5%positive 0].

(** C18: When calls come one after another, without [execve] and [vfork], and a thread calls [wait4] only when no other thread
    of its process sleeps in it, no call panics: every [unwrap], [expect] and [panic!] in them is safe.
    Each condition but the one on [vfork], which is not modelled, is shown to be needed. With a second thread in [wait4], the thread that was woken for a child that the other one has
    reaped panics. With [execve], the exit of the new program can panic. And when calls overlap, a [spawn] panics
    whose process group is left by its last process after the look at it. *)
Theorem process_calls_no_panic :
  (forall y c, reachable orderly y -> enabled y c -> orderly y c -> (perform c y).1 <> Panic)
  /\ (exists y c, reachable no_execve y /\ enabled y c /\ no_execve y c /\ (perform c y).1 = Panic)
  /\ (exists y c, reachable one_waiter y /\ enabled y c /\ one_waiter y c /\ (perform c y).1 = Panic)
  /\ (spawn_race empty_state).1 = Ok Panic.
Proof.
  split_and!.
  - intros y c Hy He Hc. by apply perform_ok; [apply reachable_ok|..].
  - apply (run_panics no_execveb _ second_waiter_calls (WakeUp 5%positive)); [exact no_execveb_sound|vm_compute; reflexivity..].
  - apply (run_panics one_waiterb _ execve_calls (Exit 11%positive 0)); [exact one_waiterb_sound|vm_compute; reflexivity..].
  - vm_compute. reflexivity.
Qed.

(** C20: A thread asleep in [wait4] misses no exit, in runs of calls one after another, without [execve] and [vfork]
    and with at most one thread of a process in [wait4]: while it has not been woken, no child it waits for is a zombie;
    if it has been woken for a child, the child is a zombie it can reap. *)
Theorem wait4_misses_no_exit y t w wt th : reachable orderly y -> sy_calls y !! t = Some w -> ps_waiters (sy_state y) !! w = Some wt ->
  ps_threads (sy_state y) !! t = Some th ->
  if wt_is_woken wt
  then forall pid, wt_result wt = Some pid -> exists c pc term, zombie_child_of (sy_state y) (th_process th) c pc term /\ pr_pid pc = pid
  else forall c pc term, zombie_child_of (sy_state y) (th_process th) c pc term -> accepts (sy_state y) (wt_data wt) c = false.
Proof.
  intros Hy Ht Hw Hth. destruct (so_call _ _ (reachable_ok y Hy) _ _ Ht) as (th' & wt' & (Hth' & _) & Hw' & _ & Hcase).
  rewrite Hw in Hw'. injection Hw' as <-. rewrite Hth in Hth'. injection Hth' as <-. destruct (wt_is_woken wt); [done|]. by destruct Hcase as [? _].
Qed.

(** C21: When the last thread of an awaited child exits, in a state that calls one after another lead to, without
    [execve] and [vfork] and with at most one thread of a process in [wait4], the sleeping thread can go
    on and [wait4] returns the number of the child and its status. *)
Theorem wait4_returns_exit_status y t w wt th u thu p st cs ws status : reachable orderly y ->
  sy_calls y !! t = Some w -> ps_waiters (sy_state y) !! w = Some wt -> wt_is_woken wt = false -> ps_threads (sy_state y) !! t = Some th ->
  awake y u -> ps_threads (sy_state y) !! u = Some thu -> ps_processes (sy_state y) !! th_process thu = Some p ->
  pr_parent p = Some (th_process th) -> pr_inner p = Live st cs ws [u] -> accepts (sy_state y) (wt_data wt) (th_process thu) = true ->
  let y' := (perform (Exit u status) y).2 in
  enabled y' (WakeUp t) /\ (do_wait4_woken t w (sy_state y')).1 = Ok (pr_pid p, Z.shiftl (status mod 2 ^ 8) 8).
Proof.
  intros Hy Ht Hw Hnw Hth Hu Hthu Hp Hpar Hi Hacc y'. pose proof (reachable_ok y Hy) as Hok.
  destruct (awake_runs _ _ Hok Hu) as (Hcu & thu' & Hru). pose proof Hru as (Hthu' & _). rewrite Hthu in Hthu'. injection Hthu' as <-.
  clear Hu. rename Hru into Hu.
  destruct (exit_wakes (sy_state y) (sy_calls y) t w wt th u thu p st cs ws (Exited (status mod 2 ^ 8)) Hok Ht Hw Hnw Hth Hu Hcu Hp Hpar Hi Hacc)
    as (s' & Hs' & Hok' & Hw' & Hz & Hth').
  assert (y' = mkSys s' (sy_calls y) (sy_execs y)) as -> by (unfold y', perform, as_step, do_exit; by rewrite Hs').
  split; [by exists w, (woken wt (pr_pid p))|]. by eapply (woken_answer (sy_calls y) t w wt th thu p (Exited (status mod 2 ^ 8))).
Qed.

(** C22: Threads asleep in [wait4] never block the whole system, in runs of calls one after another without [execve] and
    [vfork], with at most one thread of a process in [wait4], and when none waits for
    a process group: a thread can be started, a sleeping thread has been woken,
    or a thread is awake. *)
Theorem wait4_no_deadlock y : reachable orderly y -> sy_calls y <> ∅ ->
  (forall t w wt, sy_calls y !! t = Some w -> ps_waiters (sy_state y) !! w = Some wt -> wt_is_woken wt = false -> forall g, wt_data wt <> WithPgid g) ->
  can_go_on y.
Proof.
  intros Hy Hne Hng. pose proof (reachable_ok y Hy) as Hok. destruct (map_choose _ Hne) as (t & w & Ht).
  destruct (so_call _ _ Hok _ _ Ht) as (th & wt & (Hth & _) & _). by eapply (sleepers_go_on _ y t w th); [| |done..|]; [done|by apply no_execs|].
Qed.

(** [IdAlloc::alloc] returns the first number after the last one given that is
    not in use, as long as there is one. *)
Theorem alloc_first_free ids : 0 <= next_id ids <= MAX_ID -> Z.of_nat (size (used_ids ids)) < MAX_ID ->
  exists i, let id := candidate (next_id ids) i in
    IdAlloc_alloc ids = Some (id, mkIdAlloc id ({[id]} ∪ used_ids ids)) /\ (id ∉ used_ids ids) /\ 1 <= id <= MAX_ID /\
    forall j, (j < i)%nat -> candidate (next_id ids) j ∈ used_ids ids.
Proof. apply alloc_fresh. Qed.

(** The idle process reaps all its zombie children. *)
Theorem idle_reaps_all y : reachable orderly y -> exists pids s', idle_reap_zombie_children (sy_state y) = (Ok pids, s') /\
  forall c pc term, ~ zombie_child_of s' IDLE c pc term.
Proof. intros Hy. destruct (idle_reaps _ _ (reachable_ok y Hy)) as (pids & s' & ? & _ & ?). by exists pids, s'. Qed.

(** * Witnesses *)

(** The first process (thread 5) spawns a child (thread 7), and waits for it. *)
Definition waiting_calls : list Call := [Spawn (Ok tt) IDLE_THREAD None false; Start 1; Spawn (Ok tt) 5%positive None true; Start 2; Wait 5%positive (Ok tt) (-1) 0].
Definition waiting_sys : Sys := after waiting_calls Sys_new.

Lemma waiting_reachable : reachable orderly waiting_sys.
Proof. apply (reachable_after orderlyb); [exact orderlyb_sound|vm_compute; reflexivity]. Qed.

(** The child has exited with status 7. *)
Definition exited_sys : Sys := (perform (Exit 7%positive 7) waiting_sys).2.

Lemma exited_reachable : reachable orderly exited_sys.
Proof. apply reach_step; [apply waiting_reachable|apply enabledb_sound; vm_compute; reflexivity|apply orderlyb_sound; vm_compute; reflexivity]. Qed.

Lemma process_tables_sound_witness : exists p, ps_processes (sy_state waiting_sys) !! 6%positive = Some p /\ pr_pid p = 2 /\ pr_parent p = Some 4%positive.
Proof.
  destruct (process_tables_sound waiting_sys 2 6%positive waiting_reachable eq_refl) as (p & q & pq & st & cs & ws & ts & g & grp & t & th & Hp & Hpid & Hq & _).
  exists p. split; [exact Hp|]. split; [exact Hpid|]. rewrite Hq. revert Hp Hq. vm_compute. intros [= <-] [= <-]. reflexivity.
Defined.

Lemma process_calls_no_panic_witness : (perform (Exit 7%positive 7) waiting_sys).1 <> Panic.
Proof.
  apply (proj1 process_calls_no_panic waiting_sys (Exit 7%positive 7));
    [apply waiting_reachable|apply enabledb_sound; vm_compute; reflexivity|apply orderlyb_sound; vm_compute; reflexivity].
Defined.

Lemma wait4_misses_no_exit_witness : exists c pc term, zombie_child_of (sy_state exited_sys) 4%positive c pc term /\ pr_pid pc = 2.
Proof.
  pose proof (wait4_misses_no_exit exited_sys 5%positive 8%positive (mkWaiter 5%positive true WithAnyPid (Some 2)) (mkThread 1 None TRunning 4%positive)
    exited_reachable eq_refl ltac:(vm_compute; reflexivity) ltac:(vm_compute; reflexivity)) as H. exact (H 2 eq_refl).
Defined.

Lemma wait4_returns_exit_status_witness : enabled exited_sys (WakeUp 5%positive) /\
  (do_wait4_woken 5%positive 8%positive (sy_state exited_sys)).1 = Ok (2, 0x700).
Proof.
  apply (wait4_returns_exit_status waiting_sys 5%positive 8%positive (mkWaiter 5%positive false WithAnyPid None) (mkThread 1 None TRunning 4%positive)
    7%positive (mkThread 2 None TRunning 6%positive)
    (mkProcess 2 (Some 4%positive) (Some 1%positive) (Live Running [] [] [7%positive]) SigQueues_new ForcedExitStatus_new) Running [] [] 7
    waiting_reachable); try (vm_compute; reflexivity).
  apply awakeb_sound. vm_compute. reflexivity.
Defined.

Lemma wait4_no_deadlock_witness : sy_calls waiting_sys <> ∅ /\ can_go_on waiting_sys.
Proof.
  assert (Hc : sy_calls waiting_sys = {[5%positive := 8%positive]}) by (vm_compute; reflexivity).
  assert (Hne : sy_calls waiting_sys <> ∅) by (rewrite Hc; apply map_non_empty_singleton).
  split; [exact Hne|]. apply (wait4_no_deadlock waiting_sys waiting_reachable Hne). rewrite Hc.
  intros t w wt [<- <-]%lookup_singleton_Some. vm_compute. by intros [= <-].
Defined.

Definition one_id : IdAlloc := mkIdAlloc 0 {[1]}.

Lemma alloc_first_free_witness : exists i, IdAlloc_alloc one_id = Some (candidate 0 i, mkIdAlloc (candidate 0 i) ({[candidate 0 i]} ∪ used_ids one_id)).
Proof.
  destruct (alloc_first_free one_id) as (i & H & _); [unfold MAX_ID; simpl; lia|vm_compute; reflexivity|]. exists i. exact H.
Defined.

Lemma idle_reaps_all_witness : exists pids s', idle_reap_zombie_children (sy_state exited_sys) = (Ok pids, s') /\
  forall c pc term, ~ zombie_child_of s' IDLE c pc term.
Proof. apply (idle_reaps_all exited_sys exited_reachable). Defined.
