(* ===== verification/Futex.v ===== *)
(** Futexes: [src/libos/src/process/do_futex.rs].

    Waiting threads are queued in hash buckets; a wake or a requeue holds the locks
    of the buckets it works on, so each is one step, and a wait is a step that
    enqueues followed by one that returns. The host, which a thread sleeps in, may
    end a wait with an error at any time. The theorems give wake and requeue as
    operations on the queue of each address and show that a sleeping thread that
    was not woken is always in the queue of its address. *)

From stdpp Require Import base list list_numbers gmap.
From S2P Require Import Prelude Errno External.

(** * Operations and flags *)

Inductive FutexOp :=
| FUTEX_WAIT | FUTEX_WAKE | FUTEX_FD | FUTEX_REQUEUE | FUTEX_CMP_REQUEUE | FUTEX_WAKE_OP
| FUTEX_LOCK_PI | FUTEX_UNLOCK_PI | FUTEX_TRYLOCK_PI | FUTEX_WAIT_BITSET | FUTEX_WAKE_BITSET.

Abbreviation FUTEX_OP_MASK := (0x0000000F : Z).
Abbreviation FUTEX_FLAGS_MASK := (0xFFFFFFF0 : Z).
Abbreviation FUTEX_PRIVATE := (128 : Z).
Abbreviation FUTEX_CLOCK_REALTIME := (256 : Z).
Definition FutexFlags_all : Z := Z.lor FUTEX_PRIVATE FUTEX_CLOCK_REALTIME.
Abbreviation FUTEX_BITSET_MATCH_ANY := (0xFFFFFFFF : Z).

Definition FutexOp_from_u32 (bits : Z) : Result FutexOp :=
  match bits with
  | 0 => Ok FUTEX_WAIT
  | 1 => Ok FUTEX_WAKE
  | 2 => Ok FUTEX_FD
  | 3 => Ok FUTEX_REQUEUE
  | 4 => Ok FUTEX_CMP_REQUEUE
  | 5 => Ok FUTEX_WAKE_OP
  | 6 => Ok FUTEX_LOCK_PI
  | 7 => Ok FUTEX_UNLOCK_PI
  | 8 => Ok FUTEX_TRYLOCK_PI
  | 9 => Ok FUTEX_WAIT_BITSET
  | 10 => Ok FUTEX_WAKE_BITSET
  | _ => Err EINVAL
  end.

Definition FutexFlags_from_u32 `{BF : Bitflags} (bits : Z) : Result Z :=
  ok_or (bf_from_bits FutexFlags_all bits) EINVAL.

Definition futex_op_and_flags_from_u32 `{BF : Bitflags} (bits : Z) : Result (FutexOp * Z) :=
  op ← FutexOp_from_u32 (Z.land bits FUTEX_OP_MASK);
  flags ← FutexFlags_from_u32 (Z.land bits FUTEX_FLAGS_MASK);
  Ok (op, flags).

(** * Items and buckets *)

(** [FutexItem]: its [Arc<Waiter>] is the address of the waiter and the thread the
    waiter was made by; [is_woken] is in the state below. *)
Record FutexItem := mkFutexItem {
  fi_key : Z;
  fi_bitset : Z;
  fi_waiter : Z;
  fi_thread : Z;
}.

(** [PartialEq] of [FutexItem]: waiters are compared by their threads. *)
Definition FutexItem_eq (a b : FutexItem) : bool :=
  (fi_key a =? fi_key b) && (fi_bitset a =? fi_bitset b) && (fi_thread a =? fi_thread b).

Abbreviation FutexBucket := (list FutexItem) (only parsing).

Abbreviation enqueue_item self item := (self ++ [item]).

Definition dequeue_item (self : FutexBucket) (futex_item : FutexItem) : option FutexItem * FutexBucket :=
  match position (fun item => FutexItem_eq item futex_item) self with
  | None => (None, self)
  | Some item_i => (self !! item_i, vec_remove item_i self)
  end.

(** The [retain] of [dequeue_and_wake_items]: the items kept, those to wake, and
    the count. *)
Fixpoint wake_loop (queue : FutexBucket) (key max_count bitset count : Z)
    : FutexBucket * list FutexItem * Z :=
  match queue with
  | [] => ([], [], count)
  | item :: rest =>
      if (max_count <=? count) || negb (key =? fi_key item) || (Z.land bitset (fi_bitset item) =? 0)
      then let '(kept, items_to_wake, count) := wake_loop rest key max_count bitset count in
           (item :: kept, items_to_wake, count)
      else let '(kept, items_to_wake, count) := wake_loop rest key max_count bitset (count +64 1) in
           (kept, item :: items_to_wake, count)
  end.

Fixpoint update_loop (queue : FutexBucket) (key new_key max_count count : Z) : FutexBucket :=
  match queue with
  | [] => []
  | item :: rest =>
      if count =? max_count then item :: rest
      else if fi_key item =? key
      then mkFutexItem new_key (fi_bitset item) (fi_waiter item) (fi_thread item)
             :: update_loop rest key new_key max_count (count +64 1)
      else item :: update_loop rest key new_key max_count count
  end.

Definition update_item_keys (self : FutexBucket) (key new_key max_count : Z) : FutexBucket :=
  update_loop self key new_key max_count 0.

(** The [retain] of [requeue_items_to_another_bucket]. *)
Fixpoint requeue_loop (queue : FutexBucket) (key : Z) (another : FutexBucket)
    (new_key max_nrequeues count : Z) : FutexBucket * FutexBucket :=
  match queue with
  | [] => ([], another)
  | item :: rest =>
      if (max_nrequeues <=? count) || negb (key =? fi_key item)
      then let (kept, another) := requeue_loop rest key another new_key max_nrequeues count in
           (item :: kept, another)
      else
        let new_item := mkFutexItem new_key (fi_bitset item) (fi_waiter item) (fi_thread item) in
        requeue_loop rest key (enqueue_item another new_item) new_key max_nrequeues (count +64 1)
  end.

Definition requeue_items_to_another_bucket (self : FutexBucket) (key : Z) (another : FutexBucket)
    (new_key max_nrequeues : Z) : FutexBucket * FutexBucket :=
  requeue_loop self key another new_key max_nrequeues 0.

(** * The state *)

(** The buckets, and [is_woken] of every waiter. *)
Record FutexState := mkFutexState {
  fs_buckets : list (list FutexItem);
  fs_woken : gmap Z bool;
}.

(** [Waiter::batch_wake]: marks the waiters, and the threads whose events it sets. *)
Fixpoint batch_wake (items : list FutexItem) (woken : gmap Z bool) : gmap Z bool * list Z :=
  match items with
  | [] => (woken, [])
  | item :: items =>
      let was_woken := default false (woken !! fi_waiter item) in
      let (woken, threads) := batch_wake items (<[fi_waiter item := true]> woken) in
      (woken, if was_woken then threads else fi_thread item :: threads)
  end.

Section buckets.
(** The number of processors, and [DefaultHasher] on a [usize]. *)
Variable NCORES : Z.
Variable hash : Z -> Z.

Definition next_power_of_two (x : Z) : Z := 2 ^ Z.log2_up x.
Definition BUCKET_COUNT : Z := next_power_of_two (2 ^ 8 * NCORES).
Definition BUCKET_MASK : Z := BUCKET_COUNT - 1.

Definition FutexBucketVec_new (size : Z) : list (list FutexItem) := replicate (Z.to_nat size) [].

Definition futex_init : FutexState := mkFutexState (FutexBucketVec_new BUCKET_COUNT) ∅.

Definition bucket_idx (key : Z) : Z := Z.land BUCKET_MASK (hash (Z.shiftr key 2)).

(** [get_bucket] and the lock: an index out of range panics. *)
Definition get_bucket (st : FutexState) (key : Z) : Result (Z * FutexBucket) :=
  let idx := bucket_idx key in
  bucket ← unwrap_option (fs_buckets st !! Z.to_nat idx);
  Ok (idx, bucket).

Definition set_bucket (st : FutexState) (idx : Z) (bucket : FutexBucket) : FutexState :=
  mkFutexState (<[Z.to_nat idx := bucket]> (fs_buckets st)) (fs_woken st).

(** [dequeue_and_wake_items] on the bucket at [idx]. *)
Definition dequeue_and_wake_items (st : FutexState) (idx : Z) (bucket : FutexBucket)
    (key max_count bitset : Z) : FutexState * Z * list Z :=
  let '(kept, items_to_wake, count) := wake_loop bucket key max_count bitset 0 in
  let (woken, threads) := batch_wake items_to_wake (fs_woken st) in
  (mkFutexState (<[Z.to_nat idx := kept]> (fs_buckets st)) woken, count, threads).

(** [futex_wait_bitset] up to the release of the lock; [val] is what
    [futex_key.load_val()] reads, [waiter] the address of the new [Waiter]. *)
Definition futex_wait_enqueue (st : FutexState) (val : Z) (futex_addr futex_val bitset waiter thread : Z)
    : Result (FutexState * FutexItem) :=
  '(idx, futex_bucket) ← get_bucket st futex_addr;
  if negb (val =? futex_val) then Err EAGAIN
  else
    let futex_item := mkFutexItem futex_addr bitset waiter thread in
    Ok (mkFutexState (<[Z.to_nat idx := enqueue_item futex_bucket futex_item]> (fs_buckets st))
                     (<[waiter := false]> (fs_woken st)), futex_item).

(** [Waiter::wait_timeout] when the host returned an error. *)
Definition wait_timeout_error (st : FutexState) (item : FutexItem) : FutexState :=
  mkFutexState (fs_buckets st) (<[fi_waiter item := true]> (fs_woken st)).

(** The error branch of [FutexItem::wait]. *)
Definition wait_cleanup (st : FutexState) (item : FutexItem) : Result FutexState :=
  '(idx, futex_bucket) ← get_bucket st (fi_key item);
  Ok (set_bucket st idx (dequeue_item futex_bucket item).2).

(** The state, the count, and the threads whose events are set. *)
Definition futex_wake_bitset (st : FutexState) (futex_addr max_count bitset : Z)
    : Result (FutexState * Z * list Z) :=
  '(idx, futex_bucket) ← get_bucket st futex_addr;
  Ok (dequeue_and_wake_items st idx futex_bucket futex_addr max_count bitset).

Definition futex_wake (st : FutexState) (futex_addr max_count : Z) : Result (FutexState * Z * list Z) :=
  futex_wake_bitset st futex_addr max_count FUTEX_BITSET_MATCH_ANY.

Definition futex_requeue (st : FutexState) (futex_addr max_nwakes max_nrequeues futex_new_addr : Z)
    : Result (FutexState * Z * list Z) :=
  if futex_new_addr =? futex_addr then futex_wake st futex_addr max_nwakes
  else
    '(idx, futex_bucket) ← get_bucket st futex_addr;
    '(new_idx, futex_new_bucket) ← get_bucket st futex_new_addr;
    let '(st, nwakes, threads) :=
      dequeue_and_wake_items st idx futex_bucket futex_addr max_nwakes FUTEX_BITSET_MATCH_ANY in
    futex_bucket ← unwrap_option (fs_buckets st !! Z.to_nat idx);
    if negb (idx =? new_idx) then
      let (kept, new_bucket) :=
        requeue_items_to_another_bucket futex_bucket futex_addr futex_new_bucket futex_new_addr
          max_nrequeues in
      Ok (set_bucket (set_bucket st idx kept) new_idx new_bucket, nwakes, threads)
    else
      Ok (set_bucket st idx (update_item_keys futex_bucket futex_addr futex_new_addr max_nrequeues),
          nwakes, threads).

(** * The loops *)

(** [it] waits at [key] and is selected by [bitset]. *)
Definition selected (key bitset : Z) (it : FutexItem) : Prop :=
  fi_key it = key /\ Z.land bitset (fi_bitset it) <> 0.

#[export] Instance selected_dec key bitset it : Decision (selected key bitset it).
Proof. unfold selected. apply _. Defined.

Definition rekey (new_key : Z) (it : FutexItem) : FutexItem :=
  mkFutexItem new_key (fi_bitset it) (fi_waiter it) (fi_thread it).

Lemma wake_test key bitset max_count count it :
  (max_count <=? count) || negb (key =? fi_key it) || (Z.land bitset (fi_bitset it) =? 0)
  = negb (bool_decide (count < max_count /\ selected key bitset it)).
Proof.
  unfold selected. case_bool_decide as H; simpl; rewrite ?orb_true_iff, ?orb_false_iff, ?negb_true_iff,
    ?negb_false_iff, ?Z.leb_le, ?Z.leb_gt, ?Z.eqb_eq, ?Z.eqb_neq; lia.
Qed.

(** The first items that are selected leave the queue, up to the count; all others
    keep their order. *)
Lemma wake_loop_spec queue key max_count bitset count :
  0 <= count -> count + Z.of_nat (length queue) < u64_modulus ->
  let n := Z.to_nat (max_count - count) in
  let '(kept, w, c) := wake_loop queue key max_count bitset count in
  w = take n (filter (selected key bitset) queue) /\ c = count + Z.of_nat (length w) /\
  filter (selected key bitset) kept = drop n (filter (selected key bitset) queue) /\
  kept ++ w ≡ₚ queue /\
  forall (Q : FutexItem -> Prop) (HQ : forall it, Decision (Q it)),
    (forall it, Q it -> ~ selected key bitset it) -> filter Q kept = filter Q queue.
Proof.
  revert count. induction queue as [|it queue IH]; intros count Hc Hlen; cbn [wake_loop length] in *.
  { rewrite filter_nil, take_nil, drop_nil. split_and!; try done. simpl. lia. }
  rewrite wake_test. case_bool_decide as Hs; cbn [negb].
  - destruct Hs as [Hlt Hs]. rewrite add64_small by lia.
    specialize (IH (count + 1)). destruct (wake_loop queue key max_count bitset (count + 1)) as [[kept w] c].
    destruct IH as (-> & -> & Hk & Hperm & HQ); [lia|lia|].
    rewrite filter_cons_True by done.
    replace (Z.to_nat (max_count - count)) with (S (Z.to_nat (max_count - (count + 1)))) by lia.
    split_and!; [done|simpl; lia|done| |].
    + rewrite <- Permutation_middle. by f_equiv.
    + intros Q HQd Hdis. rewrite filter_cons_False; [by apply HQ|]. intros HQi. by apply (Hdis it).
  - specialize (IH count). destruct (wake_loop queue key max_count bitset count) as [[kept w] c].
    destruct IH as (-> & -> & Hk & Hperm & HQ); [lia|lia|].
    split_and!; [|lia| |simpl; by f_equiv|].
    + rewrite filter_cons. case_decide; [|done]. assert (~ count < max_count) by tauto.
      by replace (Z.to_nat (max_count - count)) with 0%nat by lia.
    + rewrite !filter_cons. case_decide; [|done]. assert (~ count < max_count) by tauto.
      replace (Z.to_nat (max_count - count)) with 0%nat in * by lia. by rewrite Hk.
    + intros Q HQd Hdis. rewrite !filter_cons. case_decide; [f_equal|]; by apply HQ.
Qed.

Definition at_key (key : Z) (it : FutexItem) : Prop := fi_key it = key.
#[export] Instance at_key_dec key it : Decision (at_key key it).
Proof. unfold at_key. apply _. Defined.

Lemma requeue_loop_spec queue key another new_key max count :
  0 <= count -> count + Z.of_nat (length queue) < u64_modulus ->
  let n := Z.to_nat (max - count) in
  let (kept, another') := requeue_loop queue key another new_key max count in
  another' = another ++ (rekey new_key <$> take n (filter (at_key key) queue)) /\
  filter (at_key key) kept = drop n (filter (at_key key) queue) /\
  kept ++ take n (filter (at_key key) queue) ≡ₚ queue /\
  forall k, k <> key -> filter (at_key k) kept = filter (at_key k) queue.
Proof.
  revert count another. induction queue as [|it queue IH]; intros count another Hc Hlen;
    cbn [requeue_loop length] in *.
  { rewrite filter_nil, take_nil, drop_nil, app_nil_r. by split_and!. }
  destruct ((max <=? count) || negb (key =? fi_key it)) eqn:Ht.
  - specialize (IH count another). destruct (requeue_loop queue key another new_key max count) as [kept another'].
    destruct IH as (-> & Hk & Hperm & HQ); [lia|lia|]. rewrite !filter_cons. unfold at_key at 1 3 5.
    assert (fi_key it = key -> Z.to_nat (max - count) = 0%nat).
    { intros <-. rewrite Z.eqb_refl in Ht. boolprop. destruct Ht; [boolprop; lia|done]. }
    split_and!.
    + case_decide; [|done]. by rewrite H.
    + case_decide; [|done]. rewrite Hk, H by done. done.
    + case_decide; [rewrite H in * by done|]; simpl; by f_equiv.
    + intros k Hne. rewrite !filter_cons. case_decide; [f_equal|]; by apply HQ.
  - boolprop. rewrite add64_small by lia. subst key.
    specialize (IH (count + 1) (enqueue_item another (rekey new_key it))). unfold rekey at 1 in IH.
    destruct (requeue_loop queue (fi_key it) _ new_key max (count + 1)) as [kept another'].
    destruct IH as (-> & Hk & Hperm & HQ); [lia|lia|].
    rewrite filter_cons_True by done.
    replace (Z.to_nat (max - count)) with (S (Z.to_nat (max - (count + 1)))) by lia.
    split_and!; [|done| |].
    + by rewrite <- app_assoc.
    + simpl. rewrite <- Permutation_middle. by f_equiv.
    + intros k Hne. rewrite filter_cons_False by (unfold at_key; congruence). by apply HQ.
Qed.

(** Who waits, whatever the address. *)
Definition ident (it : FutexItem) : Z * Z * Z := (fi_bitset it, fi_waiter it, fi_thread it).

Lemma ident_rekey new_key it : ident (rekey new_key it) = ident it.
Proof. done. Qed.

Lemma ident_rekeys new_key (l : list FutexItem) : ident <$> (rekey new_key <$> l) = ident <$> l.
Proof. rewrite <- list_fmap_compose. by apply list_fmap_ext. Qed.

(** In one bucket, the first items at [key] get the new key in place. *)
Lemma update_loop_spec queue key new_key max count :
  key <> new_key -> 0 <= count <= max -> count + Z.of_nat (length queue) < u64_modulus ->
  let moved := rekey new_key <$> take (Z.to_nat (max - count)) (filter (at_key key) queue) in
  let q := update_loop queue key new_key max count in
  filter (at_key key) q = drop (Z.to_nat (max - count)) (filter (at_key key) queue) /\
  filter (at_key new_key) q ≡ₚ filter (at_key new_key) queue ++ moved /\
  filter (at_key new_key) queue `sublist_of` filter (at_key new_key) q /\
  moved `sublist_of` filter (at_key new_key) q /\
  (forall k, k <> key -> k <> new_key -> filter (at_key k) q = filter (at_key k) queue) /\
  ident <$> q = ident <$> queue.
Proof.
  intros Hne. revert count. induction queue as [|it queue IH]; intros count Hc Hlen; cbn [update_loop length] in *.
  { rewrite !filter_nil, take_nil, drop_nil. by split_and!. }
  destruct (Z.eqb_spec count max) as [->|Hcm].
  { rewrite Z.sub_diag. simpl. rewrite app_nil_r. split_and!; try done. apply sublist_nil_l. }
  destruct (Z.eqb_spec (fi_key it) key) as [Hk|Hk].
  - rewrite add64_small by lia. specialize (IH (count + 1)). simpl in IH.
    destruct IH as (H1 & H2 & H3 & H4 & H5 & H6); [lia|lia|].
    replace (Z.to_nat (max - count)) with (S (Z.to_nat (max - (count + 1)))) by lia.
    fold (rekey new_key it).
    rewrite (filter_cons_False (at_key key) (rekey new_key it)) by (unfold at_key; simpl; congruence).
    rewrite (filter_cons_True (at_key key) it) by done.
    rewrite (filter_cons_True (at_key new_key) (rekey new_key it)) by done.
    rewrite (filter_cons_False (at_key new_key) it) by (unfold at_key; congruence).
    split_and!; [done| | | | |].
    + simpl. rewrite H2. by rewrite Permutation_middle.
    + by apply sublist_cons.
    + simpl. by apply sublist_skip.
    + intros k Hk1 Hk2. rewrite !filter_cons_False by (unfold at_key; simpl; congruence). by apply H5.
    + by rewrite !fmap_cons, H6.
  - specialize (IH count). simpl in IH. destruct IH as (H1 & H2 & H3 & H4 & H5 & H6); [lia|lia|].
    rewrite (filter_cons_False (at_key key) it), (filter_cons_False (at_key key) it) by done.
    rewrite !(filter_cons (at_key new_key)).
    split_and!; [done| | | | |by rewrite !fmap_cons, H6].
    + case_decide; [simpl; by rewrite H2|done].
    + case_decide; [by apply sublist_skip|done].
    + case_decide; [by apply sublist_cons|done].
    + intros k Hk1 Hk2. rewrite !filter_cons. case_decide; [f_equal|]; by apply H5.
Qed.

(** * Buckets as one queue per address *)

(** The items at an address, in the order they wait. *)
Definition queue_at (st : FutexState) (key : Z) : list FutexItem :=
  filter (at_key key) (default [] (fs_buckets st !! Z.to_nat (bucket_idx key))).

Definition items (st : FutexState) : list FutexItem := concat (fs_buckets st).

(** Every item is in the bucket of its key, and there is a bucket for every key. *)
Record placed (st : FutexState) : Prop := {
  placed_len : Z.of_nat (length (fs_buckets st)) = BUCKET_COUNT;
  placed_at i b it : fs_buckets st !! i = Some b -> it ∈ b ->
    Z.to_nat (bucket_idx (fi_key it)) = i;
  placed_small : Z.of_nat (length (items st)) < u64_modulus;
}.

Lemma bucket_count_pow : exists k, 0 <= k /\ BUCKET_COUNT = 2 ^ k.
Proof. exists (Z.log2_up (2 ^ 8 * NCORES)). split; [apply Z.log2_up_nonneg|done]. Qed.

Lemma bucket_idx_range key : 0 <= bucket_idx key < BUCKET_COUNT.
Proof.
  destruct bucket_count_pow as (k & Hk & Heq). unfold bucket_idx, BUCKET_MASK. rewrite Heq.
  replace (2 ^ k - 1) with (Z.ones k) by (rewrite Z.ones_equiv; lia).
  rewrite Z.land_comm, Z.land_ones by done. apply Z.mod_pos_bound. by apply Z.pow_pos_nonneg.
Qed.

Lemma get_bucket_ok st key :
  placed st -> exists b, fs_buckets st !! Z.to_nat (bucket_idx key) = Some b /\
    get_bucket st key = Ok (bucket_idx key, b) /\
    queue_at st key = filter (at_key key) b.
Proof.
  intros [Hl _ _]. pose proof (bucket_idx_range key).
  destruct (lookup_lt_is_Some_2 (fs_buckets st) (Z.to_nat (bucket_idx key))) as [b Hb]; [lia|].
  exists b. split; [done|]. unfold get_bucket, queue_at. rewrite Hb. done.
Qed.

Lemma concat_insert (l : list (list FutexItem)) i b b' :
  l !! i = Some b -> concat (<[i := b']> l) ++ b ≡ₚ concat l ++ b'.
Proof.
  intros Hi. destruct (list_lookup_split _ _ _ Hi) as (l1 & l2 & -> & <-).
  rewrite list_insert_middle, !concat_app. simpl. solve_Permutation.
Qed.

Lemma bucket_length st i b : fs_buckets st !! i = Some b -> (length b <= length (items st))%nat.
Proof.
  intros Hi. pose proof (Permutation_length (concat_insert _ _ _ [] Hi)) as Hl.
  rewrite !length_app in Hl. unfold items. simpl in Hl. lia.
Qed.

Lemma queue_at_insert st i b w k :
  (i < length (fs_buckets st))%nat ->
  queue_at (mkFutexState (<[i := b]> (fs_buckets st)) w) k
  = if decide (Z.to_nat (bucket_idx k) = i) then filter (at_key k) b else queue_at st k.
Proof.
  intros Hi. unfold queue_at. simpl. destruct (decide _) as [<-|Hne].
  - by rewrite list_lookup_insert_eq.
  - by rewrite list_lookup_insert_ne.
Qed.

(** Replacing a bucket by one whose items belong there. *)
Lemma placed_insert st i b' w :
  placed st -> (i < length (fs_buckets st))%nat ->
  (forall it, it ∈ b' -> Z.to_nat (bucket_idx (fi_key it)) = i) ->
  Z.of_nat (length (items (mkFutexState (<[i := b']> (fs_buckets st)) w))) < u64_modulus ->
  placed (mkFutexState (<[i := b']> (fs_buckets st)) w).
Proof.
  intros [Hl Hat _] Hi Hb' Hsmall. constructor; simpl; [by rewrite length_insert| |done].
  intros j b it Hj Hit. destruct (decide (i = j)) as [<-|Hne].
  - rewrite list_lookup_insert_eq in Hj by done. simplify_eq. by apply Hb'.
  - rewrite list_lookup_insert_ne in Hj by done. eauto.
Qed.

(** Items at an address are all in its bucket. *)
Lemma queue_at_items st it : placed st -> it ∈ items st <-> it ∈ queue_at st (fi_key it).
Proof.
  intros Hp. destruct (get_bucket_ok st (fi_key it) Hp) as (b & Hb & _ & ->).
  rewrite list_elem_of_filter. unfold items. split.
  - intros Hit. apply list_elem_of_In, in_concat in Hit as (b' & Hb' & Hit).
    apply list_elem_of_In, list_elem_of_lookup in Hb' as [j Hj]. apply list_elem_of_In in Hit.
    pose proof (placed_at st Hp j b' it Hj Hit) as <-. split; [done|]. by simplify_eq.
  - intros [_ Hit]. apply list_elem_of_In, in_concat. exists b. split; [|by apply list_elem_of_In].
    apply list_elem_of_In. by apply list_elem_of_lookup_2 in Hb.
Qed.

(** * Waking *)

(** The waiters of the items are marked, and no others. *)
Lemma batch_wake_woken l m x :
  (batch_wake l m).1 !! x = if decide (x ∈ fi_waiter <$> l) then Some true else m !! x.
Proof.
  revert m. induction l as [|it l IH]; intros m; cbn [batch_wake].
  { by rewrite decide_False by (simpl; set_solver). }
  specialize (IH (<[fi_waiter it := true]> m)).
  destruct (batch_wake l (<[fi_waiter it := true]> m)) as [m' ths]. simpl in *. rewrite IH.
  destruct (decide (x = fi_waiter it)) as [->|Hne].
  - rewrite lookup_insert_eq, (decide_True (P := _ ∈ _ :: _)) by set_solver. by case_decide.
  - rewrite lookup_insert_ne by done. apply decide_ext. set_solver.
Qed.

(** One wake: [w] are the items woken. *)
Record wakes (st : FutexState) (addr max_count bitset : Z) (st' : FutexState) (w : list FutexItem) : Prop := {
  wakes_first : w = take (Z.to_nat max_count) (filter (selected addr bitset) (queue_at st addr));
  wakes_rest : filter (selected addr bitset) (queue_at st' addr)
    = drop (Z.to_nat max_count) (filter (selected addr bitset) (queue_at st addr));
  wakes_unselected : filter (fun it => ~ selected addr bitset it) (queue_at st' addr)
    = filter (fun it => ~ selected addr bitset it) (queue_at st addr);
  wakes_others k : k <> addr -> queue_at st' k = queue_at st k;
  wakes_flags x : fs_woken st' !! x = if decide (x ∈ fi_waiter <$> w) then Some true else fs_woken st !! x;
  wakes_items : items st' ++ w ≡ₚ items st;
}.

Lemma selected_at key bitset (b : list FutexItem) :
  filter (selected key bitset) (filter (at_key key) b) = filter (selected key bitset) b.
Proof. apply list_filter_filter_l. by intros x [? _]. Qed.

Lemma wake_items_ok st addr b max_count bitset :
  placed st -> fs_buckets st !! Z.to_nat (bucket_idx addr) = Some b ->
  exists st' w ths,
    dequeue_and_wake_items st (bucket_idx addr) b addr max_count bitset = (st', Z.of_nat (length w), ths) /\
    placed st' /\ wakes st addr max_count bitset st' w.
Proof.
  intros Hp Hb. unfold dequeue_and_wake_items.
  pose proof (bucket_length st _ _ Hb) as Hlen. pose proof (placed_small st Hp) as Hsmall.
  pose proof (wake_loop_spec b addr max_count bitset 0) as Hloop.
  destruct (wake_loop b addr max_count bitset 0) as [[kept w] c].
  destruct Hloop as (Hw & -> & Hrest & Hperm & HQ); [lia|lia|]. rewrite Z.sub_0_r in *.
  pose proof (batch_wake_woken w (fs_woken st)) as Hmark.
  destruct (batch_wake w (fs_woken st)) as [m ths]. simpl in Hmark.
  assert (Hi : (Z.to_nat (bucket_idx addr) < length (fs_buckets st))%nat) by by eapply lookup_lt_Some.
  assert (Hitems : items (mkFutexState (<[Z.to_nat (bucket_idx addr) := kept]> (fs_buckets st)) m) ++ w
                   ≡ₚ items st).
  { apply (Permutation_app_inv_r b). unfold items. simpl.
    pose proof (concat_insert _ _ _ kept Hb) as Hc. rewrite <- app_assoc, (Permutation_app_comm w b), app_assoc, Hc.
    rewrite <- app_assoc. by rewrite Hperm. }
  assert (Hq : queue_at st addr = filter (at_key addr) b) by (unfold queue_at; by rewrite Hb).
  do 3 eexists. split; [done|]. split.
  - apply placed_insert; [done|done| |].
    + intros it Hit. eapply (placed_at st Hp); [done|]. rewrite <- Hperm. set_solver.
    + apply Permutation_length in Hitems. rewrite length_app in Hitems. lia.
  - constructor; [..|done|done].
    + by rewrite Hq, selected_at.
    + rewrite queue_at_insert, decide_True, Hq, !selected_at by done. done.
    + rewrite queue_at_insert, decide_True, Hq by done. rewrite !list_filter_filter. apply HQ. tauto.
    + intros k Hk. rewrite queue_at_insert by done. case_decide as Hki; [|done].
      unfold queue_at. rewrite Hki, Hb. apply HQ. intros it Hat [Ha _]. unfold at_key in Hat. congruence.
Qed.

Lemma wake_ok st addr max_count bitset :
  placed st ->
  exists st' w ths, futex_wake_bitset st addr max_count bitset = Ok (st', Z.of_nat (length w), ths) /\
    placed st' /\ wakes st addr max_count bitset st' w.
Proof.
  intros Hp. unfold futex_wake_bitset. destruct (get_bucket_ok st addr Hp) as (b & Hb & -> & _).
  cbn [mbind Result_bind]. destruct (wake_items_ok st addr b max_count bitset Hp Hb) as (st' & w & ths & -> & H).
  by exists st', w, ths.
Qed.

(** * Requeueing *)

(** The first [n] items at [addr] wait at [new] afterwards: behind those that wait
    there already when the buckets differ, and among them, in order, when the two
    addresses share a bucket. *)
Record moves (st : FutexState) (addr n new : Z) (st' : FutexState) : Prop := {
  moves_rest : queue_at st' addr = drop (Z.to_nat n) (queue_at st addr);
  moves_new : queue_at st' new ≡ₚ queue_at st new ++ (rekey new <$> take (Z.to_nat n) (queue_at st addr));
  moves_old_order : queue_at st new `sublist_of` queue_at st' new;
  moves_order : rekey new <$> take (Z.to_nat n) (queue_at st addr) `sublist_of` queue_at st' new;
  moves_behind : bucket_idx addr <> bucket_idx new ->
    queue_at st' new = queue_at st new ++ (rekey new <$> take (Z.to_nat n) (queue_at st addr));
  moves_others k : k <> addr -> k <> new -> queue_at st' k = queue_at st k;
  moves_flags : fs_woken st' = fs_woken st;
  moves_items : ident <$> items st' ≡ₚ ident <$> items st;
}.

Lemma items_length_ident st st' : ident <$> items st' ≡ₚ ident <$> items st -> length (items st') = length (items st).
Proof. intros H%Permutation_length. by rewrite !length_fmap in H. Qed.

Lemma move_same_ok st addr b n new :
  placed st -> addr <> new -> 0 <= n -> bucket_idx addr = bucket_idx new ->
  fs_buckets st !! Z.to_nat (bucket_idx addr) = Some b ->
  let st' := set_bucket st (bucket_idx addr) (update_item_keys b addr new n) in
  placed st' /\ moves st addr n new st'.
Proof.
  intros Hp Hne Hn Hidx Hb st'. pose proof (bucket_length st _ _ Hb) as Hlen.
  pose proof (placed_small st Hp) as Hsmall.
  destruct (update_loop_spec b addr new n 0) as (H1 & H2 & H3 & H4 & H5 & H6); [done|lia|lia|].
  fold (update_item_keys b addr new n) in *. rewrite Z.sub_0_r in *.
  assert (Hi : (Z.to_nat (bucket_idx addr) < length (fs_buckets st))%nat) by by eapply lookup_lt_Some.
  assert (Hq : forall k, bucket_idx k = bucket_idx addr -> queue_at st k = filter (at_key k) b).
  { intros k Hk. unfold queue_at. by rewrite Hk, Hb. }
  assert (Hq' : forall k, bucket_idx k = bucket_idx addr ->
                  queue_at st' k = filter (at_key k) (update_item_keys b addr new n)).
  { intros k Hk. unfold st', set_bucket. by rewrite queue_at_insert, Hk, decide_True. }
  assert (Hitems : ident <$> items st' ≡ₚ ident <$> items st).
  { apply (Permutation_app_inv_r (ident <$> b)). unfold items, st', set_bucket. simpl.
    rewrite <- !fmap_app, (concat_insert _ _ _ _ Hb), !fmap_app, H6. done. }
  split.
  - apply placed_insert; [done|done| |].
    + intros it Hit. destruct (decide (fi_key it = new)) as [->|Hk]; [by rewrite Hidx|].
      destruct (decide (fi_key it = addr)) as [->|Hk2]; [done|].
      eapply (placed_at st Hp); [done|].
      assert (Hf : it ∈ filter (at_key (fi_key it)) (update_item_keys b addr new n)) by by apply list_elem_of_filter.
      rewrite H5 in Hf by done. by apply list_elem_of_filter in Hf as [_ ?].
    + fold (set_bucket st (bucket_idx addr) (update_item_keys b addr new n)). fold st'.
      by rewrite (items_length_ident st).
  - constructor; rewrite ?Hq', ?Hq by done; try done.
    intros k Hk1 Hk2. unfold st', set_bucket. rewrite queue_at_insert by done. case_decide as Hki; [|done].
    unfold queue_at. rewrite Hki, Hb. by apply H5.
Qed.

Lemma queue_at_two st i bi j bj k :
  (Z.to_nat i < length (fs_buckets st))%nat -> (Z.to_nat j < length (fs_buckets st))%nat ->
  queue_at (set_bucket (set_bucket st i bi) j bj) k =
  if decide (Z.to_nat (bucket_idx k) = Z.to_nat j) then filter (at_key k) bj
  else if decide (Z.to_nat (bucket_idx k) = Z.to_nat i) then filter (at_key k) bi else queue_at st k.
Proof.
  intros Hi Hj. unfold set_bucket at 1. rewrite queue_at_insert by (simpl; by rewrite length_insert).
  case_decide; [done|]. unfold set_bucket. by rewrite queue_at_insert.
Qed.

Lemma placed_two st i bi j bj :
  placed st ->
  (forall it, it ∈ bi -> Z.to_nat (bucket_idx (fi_key it)) = Z.to_nat i) ->
  (forall it, it ∈ bj -> Z.to_nat (bucket_idx (fi_key it)) = Z.to_nat j) ->
  Z.of_nat (length (items (set_bucket (set_bucket st i bi) j bj))) < u64_modulus ->
  placed (set_bucket (set_bucket st i bi) j bj).
Proof.
  intros [Hl Hat _] Hi Hj Hsmall. constructor; [simpl; by rewrite !length_insert| |done].
  simpl. intros k b it Hk Hit. apply list_lookup_insert_Some in Hk as [(<- & <- & _)|(_ & Hk)]; [by apply Hj|].
  apply list_lookup_insert_Some in Hk as [(<- & <- & _)|(_ & Hk)]; [by apply Hi|eauto].
Qed.

Lemma items_two st i bi bi' j bj bj' :
  Z.to_nat i <> Z.to_nat j ->
  fs_buckets st !! Z.to_nat i = Some bi -> fs_buckets st !! Z.to_nat j = Some bj ->
  items (set_bucket (set_bucket st i bi') j bj') ++ bi ++ bj ≡ₚ items st ++ bi' ++ bj'.
Proof.
  intros Hij Hi Hj. unfold items, set_bucket. simpl.
  assert (Hj' : <[Z.to_nat i := bi']> (fs_buckets st) !! Z.to_nat j = Some bj)
    by (by rewrite list_lookup_insert_ne).
  rewrite (Permutation_app_comm bi bj), app_assoc, (concat_insert _ _ _ bj' Hj').
  rewrite <- app_assoc, (Permutation_app_comm bj' bi), app_assoc, (concat_insert _ _ _ bi' Hi).
  by rewrite <- app_assoc.
Qed.

Lemma filter_rekey k new (l : list FutexItem) :
  filter (at_key k) (rekey new <$> l) = if decide (k = new) then rekey new <$> l else [].
Proof.
  induction l as [|it l IH]; [by case_decide|]. rewrite fmap_cons, filter_cons, IH.
  unfold at_key. simpl. repeat case_decide; congruence.
Qed.

Lemma move_other_ok st addr b new_b n new :
  placed st -> addr <> new -> 0 <= n -> bucket_idx addr <> bucket_idx new ->
  fs_buckets st !! Z.to_nat (bucket_idx addr) = Some b ->
  fs_buckets st !! Z.to_nat (bucket_idx new) = Some new_b ->
  exists kept new_b', requeue_items_to_another_bucket b addr new_b new n = (kept, new_b') /\
    forall st', st' = set_bucket (set_bucket st (bucket_idx addr) kept) (bucket_idx new) new_b' ->
    placed st' /\ moves st addr n new st'.
Proof.
  intros Hp Hne Hn Hidx Hb Hnb. pose proof (bucket_length st _ _ Hb) as Hlen.
  pose proof (placed_small st Hp) as Hsmall.
  pose proof (requeue_loop_spec b addr new_b new n 0) as Hloop.
  unfold requeue_items_to_another_bucket. destruct (requeue_loop b addr new_b new n 0) as [kept new_b'].
  destruct Hloop as (-> & Hrest & Hperm & HQ); [lia|lia|]. rewrite Z.sub_0_r in *.
  assert (Hqa : queue_at st addr = filter (at_key addr) b) by (unfold queue_at; by rewrite Hb).
  assert (Hqn : queue_at st new = filter (at_key new) new_b) by (unfold queue_at; by rewrite Hnb).
  rewrite <- Hqa in *. set (moved := take (Z.to_nat n) (queue_at st addr)) in *.
  do 2 eexists. split; [done|]. intros st' Hst'.
  pose proof (lookup_lt_Some _ _ _ Hb) as Hi. pose proof (lookup_lt_Some _ _ _ Hnb) as Hj.
  pose proof (bucket_idx_range addr). pose proof (bucket_idx_range new).
  assert (Hij : Z.to_nat (bucket_idx addr) <> Z.to_nat (bucket_idx new)) by lia.
  assert (Hq := fun k => queue_at_two st _ kept _ (new_b ++ (rekey new <$> moved)) k Hi Hj).
  rewrite <- Hst' in Hq.
  assert (Hnew : queue_at st' new = queue_at st new ++ (rekey new <$> moved)).
  { rewrite Hq, decide_True, list.filter_app, filter_rekey, decide_True, Hqn by done. done. }
  assert (Hitems : ident <$> items st' ≡ₚ ident <$> items st).
  { pose proof (items_two st _ _ kept _ _ (new_b ++ (rekey new <$> moved)) Hij Hb Hnb) as Hit.
    rewrite <- Hst' in Hit. apply (fmap_Permutation ident) in Hit. rewrite <- Hperm, !fmap_app, ident_rekeys in Hit.
    apply (Permutation_app_inv_r ((ident <$> kept) ++ (ident <$> moved) ++ (ident <$> new_b))).
    rewrite <- app_assoc in Hit. rewrite Hit. solve_Permutation. }
  split; [|constructor; rewrite ?Hnew; try done].
  - assert (Hl : Z.of_nat (length (items st')) < u64_modulus) by by rewrite (items_length_ident st).
    rewrite Hst' in Hl |- *. apply placed_two; [done| | |done].
    + intros it Hit. eapply (placed_at st Hp); [done|]. rewrite <- Hperm. set_solver.
    + intros it [Hit|Hit]%elem_of_app; [by eapply (placed_at st Hp)|].
      by apply list_elem_of_fmap in Hit as (x & -> & _).
  - rewrite Hq, decide_False, decide_True by done. done.
  - by apply sublist_inserts_r.
  - by apply sublist_inserts_l.
  - intros k Hk1 Hk2. rewrite Hq. case_decide as Hkn.
    + rewrite list.filter_app, filter_rekey, decide_False, app_nil_r by done. unfold queue_at. by rewrite Hkn, Hnb.
    + case_decide as Hka; [|done]. unfold queue_at. rewrite Hka, Hb. by apply HQ.
  - by rewrite Hst'.
Qed.

Lemma requeue_ok st addr nw nr new :
  placed st -> addr <> new -> 0 <= nr ->
  exists st1 st' w ths, futex_requeue st addr nw nr new = Ok (st', Z.of_nat (length w), ths) /\
    placed st1 /\ wakes st addr nw FUTEX_BITSET_MATCH_ANY st1 w /\ moves st1 addr nr new st' /\ placed st'.
Proof.
  intros Hp Hne Hnr. unfold futex_requeue. rewrite (proj2 (Z.eqb_neq _ _)) by congruence.
  destruct (get_bucket_ok st addr Hp) as (b & Hb & -> & _). cbn [mbind Result_bind].
  destruct (get_bucket_ok st new Hp) as (nb & Hnb & -> & _). cbn [mbind Result_bind].
  destruct (wake_items_ok st addr b nw FUTEX_BITSET_MATCH_ANY Hp Hb) as (st1 & w & ths & Hdq & Hp1 & Hw).
  rewrite Hdq. destruct (get_bucket_ok st1 addr Hp1) as (b1 & Hb1 & _ & _). rewrite Hb1.
  cbn [unwrap_option mbind Result_bind]. destruct (Z.eqb_spec (bucket_idx addr) (bucket_idx new)) as [Heq|Hd]; cbn [negb].
  - destruct (move_same_ok st1 addr b1 nr new Hp1 Hne Hnr Heq Hb1) as [Hp' Hm].
    by exists st1, (set_bucket st1 (bucket_idx addr) (update_item_keys b1 addr new nr)), w, ths.
  - assert (Hnb1 : fs_buckets st1 !! Z.to_nat (bucket_idx new) = Some nb).
    { unfold dequeue_and_wake_items in Hdq. destruct (wake_loop b addr nw _ 0) as [[kept w'] c'].
      destruct (batch_wake w' (fs_woken st)). simplify_eq. simpl.
      pose proof (bucket_idx_range addr). pose proof (bucket_idx_range new).
      by rewrite list_lookup_insert_ne by lia. }
    destruct (move_other_ok st1 addr b1 nb nr new Hp1 Hne Hnr Hd Hb1 Hnb1) as (kept & nb' & -> & Hm).
    destruct (Hm _ eq_refl) as [Hp' Hm']. exists st1. do 3 eexists. split; [done|]. done.
Qed.

(** * Threads *)

(** A thread inside [futex_item.wait]: asleep, or with an error from the host and
    still to remove its item. The item is the thread's own copy. *)
Inductive FutexThread :=
| Sleeping (item : FutexItem)
| Failed (item : FutexItem).

Record FutexSys := mkFutexSys { fx_state : FutexState; fx_threads : gmap Z FutexThread }.

Definition own_item (t : FutexThread) : FutexItem := match t with Sleeping it | Failed it => it end.

(** An address that [Arc::new] can return for a new waiter. *)
Definition waiter_free (s : FutexSys) (waiter : Z) : Prop :=
  0 < waiter < u64_modulus /\ ~ waiter ∈ (fi_waiter <$> items (fx_state s)) /\
  forall tid t, fx_threads s !! tid = Some t -> fi_waiter (own_item t) <> waiter.

(** The steps of any number of threads. User memory may change at any time, so the
    value read by a wait is arbitrary. *)
Inductive futex_step : FutexSys -> FutexSys -> Prop :=
| step_wait s tid val addr futex_val bitset waiter st item :
    fx_threads s !! tid = None -> waiter_free s waiter ->
    futex_wait_enqueue (fx_state s) val addr futex_val bitset waiter tid = Ok (st, item) ->
    futex_step s (mkFutexSys st (<[tid := Sleeping item]> (fx_threads s)))
| step_return s tid item :
    fx_threads s !! tid = Some (Sleeping item) -> fs_woken (fx_state s) !! fi_waiter item = Some true ->
    futex_step s (mkFutexSys (fx_state s) (delete tid (fx_threads s)))
| step_error s tid item :
    fx_threads s !! tid = Some (Sleeping item) ->
    futex_step s (mkFutexSys (wait_timeout_error (fx_state s) item) (<[tid := Failed item]> (fx_threads s)))
| step_cleanup s tid item st :
    fx_threads s !! tid = Some (Failed item) -> wait_cleanup (fx_state s) item = Ok st ->
    futex_step s (mkFutexSys st (delete tid (fx_threads s)))
| step_wake s addr max_count bitset st count threads :
    futex_wake_bitset (fx_state s) addr max_count bitset = Ok (st, count, threads) ->
    futex_step s (mkFutexSys st (fx_threads s))
| step_requeue s addr max_nwakes max_nrequeues new_addr st count threads :
    0 <= max_nrequeues ->
    futex_requeue (fx_state s) addr max_nwakes max_nrequeues new_addr = Ok (st, count, threads) ->
    futex_step s (mkFutexSys st (fx_threads s)).

Inductive futex_reachable : FutexSys -> Prop :=
| reach_init : futex_reachable (mkFutexSys futex_init ∅)
| reach_step s s' : futex_reachable s -> futex_step s s' -> futex_reachable s'.

Record futex_ok (s : FutexSys) : Prop := {
  fx_placed : placed (fx_state s);
  fx_nodup : NoDup (fi_waiter <$> items (fx_state s));
  fx_addrs w : w ∈ fi_waiter <$> items (fx_state s) -> 0 < w < u64_modulus;
  fx_own tid t : fx_threads s !! tid = Some t -> fi_thread (own_item t) = tid;
  fx_sleep tid item : fx_threads s !! tid = Some (Sleeping item) ->
    fs_woken (fx_state s) !! fi_waiter item = Some true \/ ident item ∈ ident <$> items (fx_state s);
}.

(** Distinct addresses are fewer than [2^64]. *)
Lemma nodup_bound (l : list Z) :
  NoDup l -> (forall w, w ∈ l -> 0 < w < u64_modulus) -> Z.of_nat (length l) < u64_modulus.
Proof.
  intros Hnd Hr. assert (Hle : (length l <= length (seqZ 1 (u64_modulus - 1)))%nat).
  { apply submseteq_length, NoDup_submseteq; [done|]. intros w Hw. apply elem_of_seqZ.
    specialize (Hr w Hw). lia. }
  rewrite length_seqZ in Hle. unfold u64_modulus in *. lia.
Qed.

(** [ident] keeps the waiter. *)
Lemma waiters_ident (l : list FutexItem) : fi_waiter <$> l = (fun i => i.1.2) <$> (ident <$> l).
Proof. rewrite <- list_fmap_compose. by apply list_fmap_ext. Qed.

(** Steps that take items out of the buckets, or change their keys. *)
Lemma futex_ok_shrink s st' T' removed :
  futex_ok s -> placed st' -> (ident <$> items st') ++ removed ≡ₚ ident <$> items (fx_state s) ->
  (forall tid t, T' !! tid = Some t -> exists t0, fx_threads s !! tid = Some t0 /\
     own_item t0 = own_item t /\ (forall it, t = Sleeping it -> t0 = Sleeping it)) ->
  (forall w, fs_woken (fx_state s) !! w = Some true -> fs_woken st' !! w = Some true) ->
  (forall tid it, T' !! tid = Some (Sleeping it) -> ident it ∈ removed ->
     fs_woken st' !! fi_waiter it = Some true) ->
  futex_ok (mkFutexSys st' T').
Proof.
  intros [Hp Hnd Hr Hown Hsl] Hp' Hperm HT Hmono Hrem.
  assert (Hw : (fi_waiter <$> items st') ++ ((fun i => i.1.2) <$> removed) ≡ₚ fi_waiter <$> items (fx_state s)).
  { rewrite !waiters_ident, <- fmap_app. by apply fmap_Permutation. }
  constructor; simpl; [done| | | |].
  - rewrite <- Hw in Hnd. by apply list.NoDup_app in Hnd as [? _].
  - intros w Hin. apply Hr. rewrite <- Hw. set_solver.
  - intros tid t Ht. destruct (HT tid t Ht) as (t0 & H0 & <- & _). by apply (Hown tid).
  - intros tid it Ht. destruct (HT tid _ Ht) as (t0 & H0 & _ & Hs). rewrite (Hs it eq_refl) in H0.
    destruct (Hsl tid it H0) as [Hf|Hin]; [left; by apply Hmono|].
    rewrite <- Hperm in Hin. apply elem_of_app in Hin as [Hin|Hin]; [by right|left; eauto].
Qed.

Lemma wake_flags_mono st addr n bs st' w x :
  wakes st addr n bs st' w -> fs_woken st !! x = Some true -> fs_woken st' !! x = Some true.
Proof. intros H Hx. rewrite (wakes_flags _ _ _ _ _ _ H). by case_decide. Qed.

Lemma wake_keeps_ok s addr n bs st' w :
  futex_ok s -> placed st' -> wakes (fx_state s) addr n bs st' w ->
  futex_ok (mkFutexSys st' (fx_threads s)).
Proof.
  intros Hok Hp' Hw. apply (futex_ok_shrink s st' _ (ident <$> w)); [done|done| | | |].
  - rewrite <- fmap_app. apply fmap_Permutation, (wakes_items _ _ _ _ _ _ Hw).
  - intros tid t Ht. by exists t.
  - intros x. by apply (wake_flags_mono _ _ _ _ _ _ _ Hw).
  - intros tid it _ Hin. rewrite (wakes_flags _ _ _ _ _ _ Hw), decide_True; [done|].
    apply list_elem_of_fmap in Hin as (x & Heq & Hx). apply list_elem_of_fmap. exists x.
    split; [|done]. by inversion Heq.
Qed.

Lemma move_keeps_ok s addr n new st' :
  futex_ok s -> placed st' -> moves (fx_state s) addr n new st' -> futex_ok (mkFutexSys st' (fx_threads s)).
Proof.
  intros Hok Hp' Hm. apply (futex_ok_shrink s st' _ []); [done|done| | | |].
  - rewrite app_nil_r. apply (moves_items _ _ _ _ _ Hm).
  - intros tid t Ht. by exists t.
  - intros x. by rewrite (moves_flags _ _ _ _ _ Hm).
  - intros tid it _ Hin. by apply not_elem_of_nil in Hin.
Qed.

Lemma cleanup_ok st item :
  placed st ->
  exists st', wait_cleanup st item = Ok st' /\ placed st' /\ fs_woken st' = fs_woken st /\
    exists removed, (ident <$> items st') ++ removed ≡ₚ ident <$> items st /\
      Forall (fun i => i.2 = fi_thread item) removed.
Proof.
  intros Hp. unfold wait_cleanup. destruct (get_bucket_ok st (fi_key item) Hp) as (b & Hb & -> & _).
  cbn [mbind Result_bind]. eexists. split; [done|]. unfold dequeue_item.
  destruct (position (fun it => FutexItem_eq it item) b) as [i|] eqn:Hpos; simpl.
  - apply position_Some in Hpos as (l1 & x & l2 & -> & <- & Hx & _). rewrite vec_remove_middle.
    assert (Hit : items (set_bucket st (bucket_idx (fi_key item)) (l1 ++ l2)) ++ [x] ≡ₚ items st).
    { apply (Permutation_app_inv_r (l1 ++ l2)). unfold items, set_bucket. simpl.
      pose proof (concat_insert _ _ _ (l1 ++ l2) Hb) as Hc. rewrite <- Hc. solve_Permutation. }
    split; [|split; [done|]].
    + apply placed_insert; [done|by eapply lookup_lt_Some| |].
      * intros it Hin. eapply (placed_at st Hp); [done|]. set_solver.
      * apply Permutation_length in Hit. rewrite length_app in Hit. pose proof (placed_small st Hp).
        unfold set_bucket in Hit. lia.
    + exists [ident x]. split; [change [ident x] with (ident <$> [x]); by rewrite <- fmap_app, Hit|].
      constructor; [|done]. unfold FutexItem_eq in Hx. boolprop. done.
  - unfold set_bucket. rewrite list_insert_id by done. split; [by destruct st|]. split; [done|].
    exists []. rewrite app_nil_r. split; [by destruct st|done].
Qed.

Lemma wait_enqueue_ok s tid val addr fval bs waiter st item :
  futex_ok s -> fx_threads s !! tid = None -> waiter_free s waiter ->
  futex_wait_enqueue (fx_state s) val addr fval bs waiter tid = Ok (st, item) ->
  futex_ok (mkFutexSys st (<[tid := Sleeping item]> (fx_threads s))).
Proof.
  intros [Hp Hnd Hr Hown Hsl] Htid (Hwr & Hfree & Hth) He. unfold futex_wait_enqueue in He.
  destruct (get_bucket_ok (fx_state s) addr Hp) as (b & Hb & Hg & _). rewrite Hg in He. cbn [mbind Result_bind] in He.
  case_in He. set (it := mkFutexItem addr bs waiter tid) in *.
  assert (Hit : items (mkFutexState (<[Z.to_nat (bucket_idx addr) := enqueue_item b it]> (fs_buckets (fx_state s)))
                   (<[waiter := false]> (fs_woken (fx_state s)))) ≡ₚ it :: items (fx_state s)).
  { apply (Permutation_app_inv_r b). unfold items. simpl. rewrite (concat_insert _ _ _ _ Hb).
   solve_Permutation. }
  set (st := mkFutexState _ _) in *.
  assert (Hnd' : NoDup (fi_waiter <$> items st)) by (rewrite Hit, fmap_cons; by constructor).
  assert (Hr' : forall w, w ∈ fi_waiter <$> items st -> 0 < w < u64_modulus).
  { intros w. rewrite Hit, fmap_cons. intros [->|?]%elem_of_cons; [done|by apply Hr]. }
  constructor; cbn [fx_state fx_threads]; [|done|done| |].
  - apply placed_insert; [done|by eapply lookup_lt_Some| |].
    + intros x [Hx| ->%list_elem_of_singleton]%elem_of_app; [by eapply (placed_at _ Hp)|done].
    + fold st. rewrite <- (length_fmap fi_waiter). by apply nodup_bound.
  - intros tid' t Ht. destruct (decide (tid = tid')) as [<-|Hne].
    + rewrite lookup_insert_eq in Ht. by simplify_eq.
    + rewrite lookup_insert_ne in Ht by done. eauto.
  - intros tid' x Ht. rewrite Hit, fmap_cons. destruct (decide (tid = tid')) as [<-|Hne].
    + rewrite lookup_insert_eq in Ht. simplify_eq. right. apply elem_of_cons. by left.
    + rewrite lookup_insert_ne in Ht by done. simpl. rewrite lookup_insert_ne by (by apply not_eq_sym, (Hth tid' _ Ht)).
      destruct (Hsl tid' x Ht); [by left|right; apply elem_of_cons; by right].
Qed.

Lemma step_wake_ok s addr n bs st c ths :
  futex_ok s -> futex_wake_bitset (fx_state s) addr n bs = Ok (st, c, ths) ->
  futex_ok (mkFutexSys st (fx_threads s)).
Proof.
  intros Hok He. destruct (wake_ok (fx_state s) addr n bs (fx_placed s Hok)) as (st' & w & ths' & Heq & Hp' & Hw).
  rewrite Heq in He. injection He as <- _ _. by eapply wake_keeps_ok.
Qed.

Lemma step_requeue_ok s addr nw nr new st c ths :
  futex_ok s -> 0 <= nr -> futex_requeue (fx_state s) addr nw nr new = Ok (st, c, ths) ->
  futex_ok (mkFutexSys st (fx_threads s)).
Proof.
  intros Hok Hnr He. destruct (decide (addr = new)) as [->|Hne].
  { unfold futex_requeue in He. rewrite Z.eqb_refl in He. by eapply step_wake_ok. }
  destruct (requeue_ok (fx_state s) addr nw nr new (fx_placed s Hok) Hne Hnr)
    as (st1 & st' & w & ths' & Heq & Hp1 & Hw & Hm & Hp').
  rewrite Heq in He. injection He as <- _ _.
  apply (move_keeps_ok (mkFutexSys st1 (fx_threads s)) addr nr new); [|done|done]. by eapply wake_keeps_ok.
Qed.

Lemma step_cleanup_ok s tid item st :
  futex_ok s -> fx_threads s !! tid = Some (Failed item) -> wait_cleanup (fx_state s) item = Ok st ->
  futex_ok (mkFutexSys st (delete tid (fx_threads s))).
Proof.
  intros Hok Htid He. destruct (cleanup_ok (fx_state s) item (fx_placed s Hok))
    as (st' & Heq & Hp' & Hfl & removed & Hperm & Hrem).
  rewrite Heq in He. injection He as <-. apply (futex_ok_shrink s _ _ removed); [done|done|done| |by rewrite Hfl|].
  - intros tid' t Ht. apply lookup_delete_Some in Ht as [_ Ht]. by exists t.
  - intros tid' it Ht Hin. apply lookup_delete_Some in Ht as [Hne Ht].
    rewrite Forall_forall in Hrem. apply list_elem_of_In, Hrem in Hin. simpl in Hin.
    pose proof (fx_own s Hok tid' _ Ht). pose proof (fx_own s Hok tid _ Htid). simpl in *. congruence.
Qed.

Lemma futex_step_ok s s' : futex_ok s -> futex_step s s' -> futex_ok s'.
Proof.
  intros Hok Hstep. destruct Hstep as [| |s tid item Htid| | |];
    eauto using wait_enqueue_ok, step_cleanup_ok, step_wake_ok, step_requeue_ok; pose proof (fx_placed s Hok) as Hp.
  - apply (futex_ok_shrink s _ _ []); [done|done|by rewrite app_nil_r| |done|intros ? ? _ []%not_elem_of_nil].
    intros tid' t Ht. apply lookup_delete_Some in Ht as [_ Ht]. by exists t.
  - apply (futex_ok_shrink s _ _ []); [done| |by rewrite app_nil_r| | |intros ? ? _ []%not_elem_of_nil].
    + by destruct Hp; constructor.
    + intros tid' t Ht. apply lookup_insert_Some in Ht as [[<- <-]|[_ Ht]]; [|by exists t].
      by exists (Sleeping item).
    + intros w Hw. simpl. destruct (decide (w = fi_waiter item)) as [->|]; [by rewrite lookup_insert_eq|].
      by rewrite lookup_insert_ne.
Qed.

Lemma items_init : items futex_init = [].
Proof.
  unfold items, futex_init, FutexBucketVec_new. simpl. induction (Z.to_nat BUCKET_COUNT); [done|]. simpl. done.
Qed.

Lemma placed_init : placed futex_init.
Proof.
  constructor.
  - simpl. unfold FutexBucketVec_new. rewrite length_replicate. pose proof (bucket_idx_range 0). lia.
  - intros i b it Hb Hit. apply lookup_replicate in Hb as [-> _]. by apply not_elem_of_nil in Hit.
  - rewrite items_init. done.
Qed.

Lemma futex_reachable_ok s : futex_reachable s -> futex_ok s.
Proof.
  induction 1 as [|s s' _ IH Hs]; [|by eapply futex_step_ok].
  constructor; simpl; [exact placed_init| | |done|done]; rewrite items_init; [constructor|].
  intros w Hw. by apply not_elem_of_nil in Hw.
Qed.

Definition not_woken (m : gmap Z bool) (it : FutexItem) : Prop :=
  default false (m !! fi_waiter it) = false.
#[local] Instance not_woken_dec m it : Decision (not_woken m it).
Proof. unfold not_woken. apply _. Defined.

Lemma filter_not_woken_insert x b m (l : list FutexItem) :
  ~ x ∈ (fi_waiter <$> l) -> filter (not_woken (<[x := b]> m)) l = filter (not_woken m) l.
Proof.
  induction l as [|it l IH]; [done|]. rewrite fmap_cons, not_elem_of_cons. intros [Hne Hni].
  rewrite !filter_cons, IH by done.
  assert (not_woken (<[x := b]> m) it <-> not_woken m it) by (unfold not_woken; by rewrite lookup_insert_ne).
  repeat case_decide; tauto.
Qed.

(** The events set are those of the waiters that were not marked yet. *)
Lemma batch_wake_threads l m :
  NoDup (fi_waiter <$> l) -> (batch_wake l m).2 = fi_thread <$> filter (not_woken m) l.
Proof.
  revert m. induction l as [|it l IH]; intros m Hnd; [done|]. rewrite fmap_cons in Hnd.
  apply list.NoDup_cons in Hnd as [Hni Hnd]. cbn [batch_wake]. specialize (IH (<[fi_waiter it := true]> m) Hnd).
  rewrite filter_not_woken_insert in IH by done.
  destruct (batch_wake l (<[fi_waiter it := true]> m)) as [m' ths]. simpl in *. subst ths.
  rewrite filter_cons. case_decide as Hw; unfold not_woken in Hw; by destruct (default false (m !! fi_waiter it)).
Qed.

Lemma wake_threads st addr max_count bitset st' w c ths :
  futex_wake_bitset st addr max_count bitset = Ok (st', c, ths) ->
  wakes st addr max_count bitset st' w -> placed st -> NoDup (fi_waiter <$> items st) ->
  ths = fi_thread <$> filter (not_woken (fs_woken st)) w.
Proof.
  intros He Hw Hp Hnd. unfold futex_wake_bitset in He.
  destruct (get_bucket_ok st addr Hp) as (b & Hb & Hg & Hq). rewrite Hg in He. cbn [mbind Result_bind] in He.
  unfold dequeue_and_wake_items in He. pose proof (bucket_length st _ _ Hb). pose proof (placed_small st Hp).
  pose proof (wake_loop_spec b addr max_count bitset 0) as Hloop.
  destruct (wake_loop b addr max_count bitset 0) as [[kept w'] c'].
  destruct Hloop as (Hw' & _); [lia|lia|].
  assert (w' = w) as ->.
  { rewrite Hw', (wakes_first _ _ _ _ _ _ Hw), Hq, selected_at. by rewrite Z.sub_0_r. }
  rewrite <- (wakes_items _ _ _ _ _ _ Hw), fmap_app in Hnd. apply list.NoDup_app in Hnd as (_ & _ & Hnd).
  pose proof (batch_wake_threads w (fs_woken st) Hnd) as Ht. destruct (batch_wake w (fs_woken st)).
  simpl in Ht. congruence.
Qed.

(** * Theorems *)

(** C12: No wake-up is lost. In every reachable state of any number of threads
    waiting, being woken, requeued, interrupted and timing out in any order, a
    thread that sleeps was marked as woken, or an item of it is in the queue of
    some address, the one it waits at or was requeued to; and a wake at that
    address which reaches that far and whose bits meet the thread's marks it. *)
Theorem futex_no_lost_wakeup (s : FutexSys) (tid : Z) (item : FutexItem) :
  futex_reachable s -> fx_threads s !! tid = Some (Sleeping item) ->
  fs_woken (fx_state s) !! fi_waiter item = Some true \/
  exists it, it ∈ queue_at (fx_state s) (fi_key it) /\ ident it = ident item /\
    forall max_count bitset,
      Z.land bitset (fi_bitset item) <> 0 ->
      Z.of_nat (length (queue_at (fx_state s) (fi_key it))) <= max_count ->
      exists st' count threads,
        futex_wake_bitset (fx_state s) (fi_key it) max_count bitset = Ok (st', count, threads) /\
        fs_woken st' !! fi_waiter item = Some true.
Proof.
  intros Hr Ht. pose proof (futex_reachable_ok s Hr) as Hok.
  destruct (fx_sleep s Hok tid item Ht) as [Hf|Hin]; [by left|right].
  apply list_elem_of_fmap in Hin as (it & Heq & Hit). exists it.
  pose proof (fx_placed s Hok) as Hp. pose proof (proj1 (queue_at_items _ it Hp) Hit) as Hq.
  split; [done|]. split; [done|]. intros n bs Hbits Hn.
  destruct (wake_ok (fx_state s) (fi_key it) n bs Hp) as (st' & w & ths & He & _ & Hw).
  exists st', (Z.of_nat (length w)), ths. split; [done|].
  inversion Heq as [[Hb Hwt Hth]]. rewrite (wakes_flags _ _ _ _ _ _ Hw), Hwt, decide_True; [done|].
  apply list_elem_of_fmap. exists it. split; [done|]. rewrite (wakes_first _ _ _ _ _ _ Hw).
  rewrite take_ge; [apply list_elem_of_filter; split; [split; [done|congruence]|done]|].
  pose proof (length_filter (selected (fi_key it) bs) (queue_at (fx_state s) (fi_key it))). lia.
Qed.

(** A wake takes the first waiters of the address whose bits match, in the
    order they came and no more than asked for, and returns how many; the others
    keep their order, other addresses are not touched. Exactly the waiters taken are
    marked, and the events set are those of the ones not marked before. *)
Theorem futex_wake_spec (st : FutexState) (addr max_count bitset : Z) :
  placed st -> NoDup (fi_waiter <$> items st) ->
  exists st' w threads,
    futex_wake_bitset st addr max_count bitset = Ok (st', Z.of_nat (length w), threads) /\
    placed st' /\ wakes st addr max_count bitset st' w /\
    threads = fi_thread <$> filter (not_woken (fs_woken st)) w.
Proof.
  intros Hp Hnd. destruct (wake_ok st addr max_count bitset Hp) as (st' & w & ths & He & Hp' & Hw).
  exists st', w, ths. split_and!; try done. by eapply wake_threads.
Qed.

(** A requeue is a wake followed by a move: the first waiters at the address
    are woken, the next ones wait at the new address afterwards, everyone else
    stays. They queue behind those already there when the two addresses hash to
    different buckets; in a shared bucket they keep their place, so that they can
    come before. No thread is lost or duplicated. *)
Theorem futex_requeue_spec (st : FutexState) (addr max_nwakes max_nrequeues new_addr : Z) :
  placed st -> addr <> new_addr -> 0 <= max_nrequeues ->
  exists st1 st' w threads,
    futex_requeue st addr max_nwakes max_nrequeues new_addr = Ok (st', Z.of_nat (length w), threads) /\
    placed st' /\ wakes st addr max_nwakes FUTEX_BITSET_MATCH_ANY st1 w /\
    moves st1 addr max_nrequeues new_addr st' /\
    (ident <$> items st') ++ (ident <$> w) ≡ₚ ident <$> items st.
Proof.
  intros Hp Hne Hn. destruct (requeue_ok st addr max_nwakes max_nrequeues new_addr Hp Hne Hn)
    as (st1 & st' & w & ths & He & Hp1 & Hw & Hm & Hp').
  exists st1, st', w, ths. split_and!; try done.
  rewrite (moves_items _ _ _ _ _ Hm), <- fmap_app. by rewrite (wakes_items _ _ _ _ _ _ Hw).
Qed.
End buckets.

(** * Examples *)

(** One processor (256 buckets), addresses hashed to themselves: thread 1 waits
    at 4096, is requeued to 4100, and its wait ends with an error; then thread 2
    waits at 4100. *)
Definition ex_hash (x : Z) : Z := x.
Definition ex_item1 : FutexItem := mkFutexItem 4096 FUTEX_BITSET_MATCH_ANY 1000 1.
Definition ex_item2 : FutexItem := mkFutexItem 4100 FUTEX_BITSET_MATCH_ANY 2000 2.

Definition ex_asleep1 : gmap Z FutexThread := <[1 := Sleeping ex_item1]> ∅.
Definition ex_failed1 : gmap Z FutexThread := <[1 := Failed ex_item1]> ex_asleep1.
Definition ex_asleep2 : gmap Z FutexThread := <[2 := Sleeping ex_item2]> ∅.

Definition ok_state {A} (r : Result (FutexState * A)) : FutexState :=
  match r with Ok (st, _) => st | _ => futex_init 1 end.

Definition ex_waiting : FutexState :=
  ok_state (futex_wait_enqueue 1 ex_hash (futex_init 1) 7 4096 7 FUTEX_BITSET_MATCH_ANY 1000 1).
Definition ex_requeued : FutexState :=
  match futex_requeue 1 ex_hash ex_waiting 4096 0 1 4100 with Ok (st, _, _) => st | _ => futex_init 1 end.
Definition ex_failed : FutexState := wait_timeout_error ex_requeued ex_item1.
Definition ex_cleaned : FutexState :=
  match wait_cleanup 1 ex_hash ex_failed ex_item1 with Ok st => st | _ => futex_init 1 end.
Definition ex_second : FutexState :=
  ok_state (futex_wait_enqueue 1 ex_hash ex_cleaned 7 4100 7 FUTEX_BITSET_MATCH_ANY 2000 2).

Lemma ex_waiting_reachable :
  futex_reachable 1 ex_hash (mkFutexSys ex_waiting ex_asleep1).
Proof.
  eapply reach_step; [apply reach_init|].
  apply (step_wait 1 ex_hash (mkFutexSys (futex_init 1) ∅) 1 7 4096 7 FUTEX_BITSET_MATCH_ANY 1000).
  - done.
  - split; [unfold u64_modulus; lia|]. split; [|done]. cbn [fx_state]. rewrite items_init. apply not_elem_of_nil.
  - vm_compute. reflexivity.
Qed.

Lemma ex_cleaned_reachable : futex_reachable 1 ex_hash (mkFutexSys ex_cleaned (delete 1 ex_failed1)).
Proof.
  assert (H1 : futex_reachable 1 ex_hash (mkFutexSys ex_requeued ex_asleep1)).
  { eapply reach_step; [apply ex_waiting_reachable|].
    apply (step_requeue 1 ex_hash (mkFutexSys ex_waiting ex_asleep1) 4096 0 1 4100 ex_requeued 0 []); [lia|].
    vm_compute. reflexivity. }
  assert (H2 : futex_reachable 1 ex_hash (mkFutexSys ex_failed ex_failed1)).
  { eapply reach_step; [apply H1|].
    apply (step_error 1 ex_hash (mkFutexSys ex_requeued ex_asleep1) 1 ex_item1). done. }
  eapply reach_step; [apply H2|].
  apply (step_cleanup 1 ex_hash (mkFutexSys ex_failed ex_failed1) 1 ex_item1); [done|].
  vm_compute. reflexivity.
Qed.

(** A wait that ends with an error after a requeue leaves its item behind,
    because it looks for it under the old address. The item then takes a wake-up
    meant for another thread: here a thread waits alone at an address, a wake of
    one thread there reports that it woke one, but sets no event and the thread is
    not marked. *)
Theorem futex_stale_item :
  exists s tid item st',
    futex_reachable 1 ex_hash s /\ fx_threads s = <[tid := Sleeping item]> ∅ /\
    fs_woken (fx_state s) !! fi_waiter item = Some false /\
    futex_wake 1 ex_hash (fx_state s) (fi_key item) 1 = Ok (st', 1, []) /\
    fs_woken st' !! fi_waiter item = Some false.
Proof.
  exists (mkFutexSys ex_second ex_asleep2), 2, ex_item2. eexists. split_and!.
  - replace ex_asleep2 with (<[2 := Sleeping ex_item2]> (delete 1 ex_failed1)) by (vm_compute; reflexivity).
    eapply reach_step; [apply ex_cleaned_reachable|].
    refine (step_wait 1 ex_hash (mkFutexSys ex_cleaned (delete 1 ex_failed1)) 2 7 4100 7 FUTEX_BITSET_MATCH_ANY 2000
      ex_second ex_item2 _ _ _).
    + done.
    + split; [unfold u64_modulus; lia|]. split; [|done]. vm_compute. intros H. apply list_elem_of_In in H.
      simpl in H. lia.
    + vm_compute. reflexivity.
  - done.
  - vm_compute. reflexivity.
  - vm_compute. reflexivity.
  - vm_compute. reflexivity.
Qed.

Lemma futex_no_lost_wakeup_witness :
  fs_woken ex_waiting !! 1000 = Some true \/
  exists it, it ∈ queue_at 1 ex_hash ex_waiting (fi_key it) /\ ident it = ident ex_item1.
Proof.
  destruct (futex_no_lost_wakeup 1 ex_hash (mkFutexSys ex_waiting ex_asleep1) 1 ex_item1)
    as [H|(it & H1 & H2 & _)].
  - exact ex_waiting_reachable.
  - reflexivity.
  - left. exact H.
  - right. exists it. split; [exact H1|exact H2].
Defined.

Lemma ex_waiting_placed : placed 1 ex_hash ex_waiting.
Proof. exact (fx_placed _ _ _ (futex_reachable_ok _ _ _ ex_waiting_reachable)). Qed.

Lemma futex_wake_spec_witness :
  exists st' w threads,
    futex_wake_bitset 1 ex_hash ex_waiting 4096 1 FUTEX_BITSET_MATCH_ANY = Ok (st', Z.of_nat (length w), threads) /\
    w = [ex_item1] /\ threads = [1].
Proof.
  destruct (futex_wake_spec 1 ex_hash ex_waiting 4096 1 FUTEX_BITSET_MATCH_ANY ex_waiting_placed)
    as (st' & w & ths & H & _ & Hw & Ht).
  - exact (fx_nodup _ _ _ (futex_reachable_ok _ _ _ ex_waiting_reachable)).
  - exists st', w, ths. split; [exact H|]. pose proof (wakes_first _ _ _ _ _ _ _ _ Hw) as Hf.
    assert (w = [ex_item1]) as ->; [rewrite Hf; vm_compute; reflexivity|].
    split; [reflexivity|]. rewrite Ht. vm_compute. reflexivity.
Defined.

Lemma futex_requeue_spec_witness :
  exists st1 st' (w : list FutexItem) threads,
    futex_requeue 1 ex_hash ex_waiting 4096 0 1 4100 = Ok (st', Z.of_nat (length w), threads) /\
    moves 1 ex_hash st1 4096 1 4100 st'.
Proof.
  destruct (futex_requeue_spec 1 ex_hash ex_waiting 4096 0 1 4100 ex_waiting_placed)
    as (st1 & st' & w & ths & H & _ & _ & Hm & _).
  - discriminate.
  - lia.
  - exists st1, st', w, ths. split; [exact H|exact Hm].
Defined.
