(* ===== verification/RwLock.v ===== *)
(** The readers-writer lock of the LibOS, [src/libos/src/util/sync/rw_lock/inner.rs], over the
    futexes of [Futex.v].

    The lock is one [i32] that is changed by compare-and-exchange and a count of waiters. Every
    atomic access is one step, so that the calls of any number of threads interleave as
    they can in the code; memory orderings weaker than sequential consistency are
    not modelled. *)

From stdpp Require Import gmap.
From S2P Require Import Prelude Errno Effects External Futex.

(** * Status *)

Abbreviation i32_max := (2 ^ 31 - 1)%Z.
Definition wrap32 (x : Z) : Z := (x + 2 ^ 31) mod 2 ^ 32 - 2 ^ 31.

Inductive RwLockStatus :=
| Free
| ReaderLocked (num : Z)
| Waiting (num : Z)
| WriterLocked.

Definition as_i32 (self : RwLockStatus) : Z :=
  match self with
  | Free => 0
  | ReaderLocked num => num
  | WriterLocked => i32_max
  | Waiting num => num
  end.

Definition RwLockStatus_eq (self other : RwLockStatus) : bool := as_i32 self =? as_i32 other.

Definition RwLockStatus_try_from (v : Z) : Result RwLockStatus :=
  if v =? as_i32 Free then Ok Free else
  if v =? as_i32 WriterLocked then Ok WriterLocked else
  if (as_i32 Free <? v) && (v <? as_i32 WriterLocked) then Ok (ReaderLocked v) else
  if v <? as_i32 Free then Ok (Waiting v) else
  Err EINVAL.

Abbreviation max_read_lock_holder_num := (i32_max - 1).

Definition get_locker (self : RwLockStatus) : RwLockStatus :=
  let num := Z.land (as_i32 self) 0x7FFFFFFF in
  if num =? 0 then Free else
  if num =? i32_max then WriterLocked else
  ReaderLocked num.

Definition get_lock_holder_num (self : RwLockStatus) : Result Z :=
  match get_locker self with
  | Free => Ok 0
  | WriterLocked => Ok 1
  | ReaderLocked num => Ok num
  | Waiting _ => Panic
  end.

Definition get_waking_num (self : RwLockStatus) : Result Z :=
  match get_locker self with
  | WriterLocked => Ok (as_i32 WriterLocked)
  | ReaderLocked num => Ok num
  | _ => Panic
  end.

Definition is_waiting (self : RwLockStatus) : bool := match self with Waiting _ => true | _ => false end.

(** The literal [0x8000_0000] is [i32::MIN]. *)
Definition set_waiting (self : RwLockStatus) : RwLockStatus := Waiting (Z.lor (as_i32 self) (- 2 ^ 31)).

(** * Atomic operations *)

Record RwLockInner := mkRwLockInner {
  rw_status : Z;
  rw_waiters : Z;
}.

Definition RwLockInner_new : RwLockInner := mkRwLockInner (as_i32 Free) 0.

Abbreviation RW := (M RwLockInner) (only parsing).

Definition compare_exchange (current new : Z) : RW bool :=
  self ← get;
  if rw_status self =? current then _ ← put (mkRwLockInner new (rw_waiters self)); ok true else ok false.

Definition try_add_one_reader (current_status : RwLockStatus) : RW unit :=
  let status_raw := as_i32 current_status in
  b ← compare_exchange status_raw (wrap32 (status_raw + 1));
  if b : bool then ok tt else fail_with EAGAIN.

Definition try_set_writer_locked : RW unit :=
  b ← compare_exchange (as_i32 Free) (as_i32 WriterLocked);
  if b : bool then ok tt else fail_with EBUSY.

Definition try_set_new_status (current_status new_status : RwLockStatus) : RW unit :=
  b ← compare_exchange (as_i32 current_status) (as_i32 new_status);
  if b : bool then ok tt else fail_with EAGAIN.

(** [fetch_add] on the count of waiters, and [fetch_sub] with a negative number. *)
Definition waiters_add (n : Z) : RW unit :=
  modify (fun self => mkRwLockInner (rw_status self) (wrap32 (rw_waiters self + n))).

Definition RwLockInner_status : RW RwLockStatus :=
  self ← get;
  lift (unwrap_result (RwLockStatus_try_from (rw_status self))).

(** * Futexes

    What the lock needs of the futexes: at its address threads wait in the order they came, and
    leave the queue by being woken or because the host reported an error. *)

Class FutexAt := {
  fstate : Type;
  fwf : fstate -> Prop;
  (** The queue of the address, and the threads whose waiter is marked. *)
  waiting : fstate -> list Z;
  woken : fstate -> Z -> bool;
  (** [futex_wait] up to the sleep: the value read, the value expected, the thread. *)
  wait_at : fstate -> Z -> Z -> Z -> Result fstate;
  wake_at : fstate -> Z -> Result fstate;
  (** The two halves of a failed wait: the mark, and the removal from the queue. *)
  fail_at : fstate -> Z -> fstate;
  leave_at : fstate -> Z -> Result fstate;
  wait_law st val expected t : fwf st -> t ∉ waiting st -> Z.of_nat (length (waiting st)) < i32_max ->
    if val =? expected
    then exists st', wait_at st val expected t = Ok st' /\ fwf st' /\ waiting st' = waiting st ++ [t]
           /\ (forall x, woken st' x = if x =? t then false else woken st x)
    else wait_at st val expected t = Err EAGAIN;
  wake_law st n : fwf st -> 0 <= n ->
    exists st', wake_at st n = Ok st' /\ fwf st' /\ waiting st' = drop (Z.to_nat n) (waiting st)
      /\ (forall x, woken st' x = bool_decide (x ∈ take (Z.to_nat n) (waiting st)) || woken st x);
  fail_law st t : fwf st ->
    fwf (fail_at st t) /\ waiting (fail_at st t) = waiting st
    /\ (forall x, woken (fail_at st t) x = (x =? t) || woken st x);
  leave_law st t : fwf st -> NoDup (waiting st) ->
    exists st', leave_at st t = Ok st' /\ fwf st' /\ waiting st' = filter (fun x => x <> t) (waiting st)
      /\ (forall x, woken st' x = woken st x);
}.

(** * Calls *)

Abbreviation SPIN_COUNT := (1000%nat).

Inductive Kind := Read | Write.

(** Where an attempt to take the lock is made: in [try_read] or [try_write], in [read] or [write]
    before the loop, or in the loop. *)
Inductive Attempt := Once | First | Again.

(** The next atomic access of a thread. *)
Inductive Pc :=
| ReadLoad (a : Attempt)
| ReadCas (a : Attempt) (current_status : RwLockStatus)
| WriteCas (a : Attempt)
| Spin (k : Kind) (spins : nat)
| SpinWaiters (k : Kind) (spins : nat)
| CheckStatus (k : Kind)
| AddWaiter (k : Kind) (current_status : RwLockStatus)
| SetWaiting (k : Kind) (current_status : RwLockStatus)
| FutexWait (k : Kind) (val : Z)
| Asleep (k : Kind)
| Interrupted (k : Kind) (e : Errno)
| SubWaiter (k : Kind) (ret : Result unit)
| Holding (k : Kind)
| UnlockLoad (k : Kind)
| UnlockCas (k : Kind) (status new_status : RwLockStatus)
| UnlockWaiters (status new_status : RwLockStatus)
| UnlockWake (wake_num : Z).

(** A thread goes on, or its call returns without the lock. *)
Inductive Next := Go (pc : Pc) | Done (ret : Result unit).

Definition attempt_of (k : Kind) (a : Attempt) : Pc := match k with Read => ReadLoad a | Write => WriteCas a end.

(** What follows an attempt: [read] gives up with [EAGAIN] when there are too many readers. *)
Definition tried (k : Kind) (a : Attempt) (ret : Result unit) : Next :=
  match ret with
  | Ok _ => Go (Holding k)
  | Panic => Done Panic
  | Err e =>
      let gives_up := match k, e with Read, EAGAIN => true | _, _ => false end in
      match a with
      | Once => Done ret
      | First => if gives_up then Done ret else Go (Spin k SPIN_COUNT)
      | Again => if gives_up then Done ret else Go (CheckStatus k)
      end
  end.

Definition try_read_load (a : Attempt) : RW Next :=
  current_status ← RwLockInner_status;
  match get_locker current_status with
  | Free => ok (Go (ReadCas a current_status))
  | WriterLocked => ok (tried Read a (Err EBUSY))
  | ReaderLocked cnt =>
      if cnt =? max_read_lock_holder_num then ok (tried Read a (Err EAGAIN))
      else ok (Go (ReadCas a current_status))
  | Waiting _ => panic
  end.

Definition try_read_cas (a : Attempt) (current_status : RwLockStatus) : RW Next :=
  r ← attempt (try_add_one_reader current_status);
  match r with
  | Ok _ => ok (tried Read a (Ok tt))
  | _ => ok (Go (ReadLoad a))
  end.

Definition try_write (a : Attempt) : RW Next :=
  r ← attempt try_set_writer_locked;
  match r with
  | Ok _ => ok (tried Write a (Ok tt))
  | _ => ok (tried Write a (Err EBUSY))
  end.

(** The loops that spin while the lock is held and nobody waits. *)
Definition spin (k : Kind) (spins : nat) : RW Next :=
  self ← get;
  match spins with
  | O => ok (Go (attempt_of k Again))
  | S _ => if negb (rw_status self =? as_i32 Free) then ok (Go (SpinWaiters k spins)) else ok (Go (attempt_of k Again))
  end.
Definition spin_waiters (k : Kind) (spins : nat) : RW Next :=
  self ← get;
  if rw_waiters self =? 0 then ok (Go (Spin k (pred spins))) else ok (Go (attempt_of k Again)).

(** After a failed attempt in the loop. *)
Definition check_status (k : Kind) : RW Next :=
  current_status ← RwLockInner_status;
  match k with
  | Read =>
      match get_locker current_status with
      | Free | ReaderLocked _ => ok (Go (ReadLoad Again))
      | _ => ok (Go (AddWaiter k current_status))
      end
  | Write =>
      if RwLockStatus_eq current_status Free then ok (Go (WriteCas Again))
      else ok (Go (AddWaiter k current_status))
  end.

Definition set_waiting_status (k : Kind) (current_status : RwLockStatus) : RW Next :=
  let new_status := set_waiting current_status in
  _ ← attempt (try_set_new_status current_status new_status);
  ok (Go (FutexWait k (as_i32 new_status))).

Definition sub_waiter (k : Kind) (ret : Result unit) : RW Next :=
  _ ← waiters_add (-1);
  match ret with
  | Err ECANCELED => ok (Done ret)
  | _ => ok (Go (attempt_of k Again))
  end.

(** [rw_unlock] *)
Definition unlock_load (k : Kind) : RW Next :=
  status ← RwLockInner_status;
  num ← lift (get_lock_holder_num status);
  new_status ← (if num =? 1 then ok Free
                else lift (unwrap_result (RwLockStatus_try_from (wrap32 (as_i32 status - 1)))));
  ok (Go (UnlockCas k status new_status)).

Definition unlock_cas (k : Kind) (status new_status : RwLockStatus) : RW Next :=
  r ← attempt (try_set_new_status status new_status);
  match r with
  | Ok _ => ok (Go (UnlockWaiters status new_status))
  | _ => ok (Go (UnlockLoad k))
  end.

Definition unlock_waiters (status new_status : RwLockStatus) : RW Next :=
  self ← get;
  if RwLockStatus_eq new_status Free && (negb (rw_waiters self =? 0) || is_waiting status) then
    wake_num ← lift (get_waking_num status);
    ok (Go (UnlockWake wake_num))
  else ok (Done (Ok tt)).

(** * Threads *)

Section threads.
Context {FA : FutexAt}.

Record RwSys := mkRwSys {
  rs_lock : RwLockInner;
  rs_futex : fstate;
  rs_threads : gmap Z Pc;
}.

Definition rw_init (st : fstate) : RwSys := mkRwSys RwLockInner_new st ∅.

Definition in_lock (c : RW Next) (s : RwSys) : Result Next * RwLockInner * fstate :=
  let (r, lk) := c (rs_lock s) in (r, lk, rs_futex s).

(** The next access of thread [t]; [host] is an error of the host while it sleeps. A thread that
    sleeps and is not woken has none. *)
Definition thread_step (t : Z) (pc : Pc) (host : option Errno) (s : RwSys)
    : option (Result Next * RwLockInner * fstate) :=
  match pc with
  | ReadLoad a => Some (in_lock (try_read_load a) s)
  | ReadCas a current_status => Some (in_lock (try_read_cas a current_status) s)
  | WriteCas a => Some (in_lock (try_write a) s)
  | Spin k spins => Some (in_lock (spin k spins) s)
  | SpinWaiters k spins => Some (in_lock (spin_waiters k spins) s)
  | CheckStatus k => Some (in_lock (check_status k) s)
  | AddWaiter k cur => Some (in_lock (_ ← waiters_add 1; ok (Go (SetWaiting k cur))) s)
  | SetWaiting k cur => Some (in_lock (set_waiting_status k cur) s)
  | FutexWait k val =>
      Some (match wait_at (rs_futex s) (rw_status (rs_lock s)) val t with
            | Ok st => (Ok (Go (Asleep k)), rs_lock s, st)
            | Err e => (Ok (Go (SubWaiter k (Err e))), rs_lock s, rs_futex s)
            | Panic => (Panic, rs_lock s, rs_futex s)
            end)
  | Asleep k =>
      match host with
      | Some e => Some (Ok (Go (Interrupted k e)), rs_lock s, fail_at (rs_futex s) t)
      | None => if woken (rs_futex s) t then Some (Ok (Go (SubWaiter k (Ok tt))), rs_lock s, rs_futex s) else None
      end
  | Interrupted k e =>
      Some (match leave_at (rs_futex s) t with
            | Ok st => (Ok (Go (SubWaiter k (Err e))), rs_lock s, st)
            | _ => (Panic, rs_lock s, rs_futex s)
            end)
  | SubWaiter k ret => Some (in_lock (sub_waiter k ret) s)
  | Holding _ => None
  | UnlockLoad k => Some (in_lock (unlock_load k) s)
  | UnlockCas k status new_status => Some (in_lock (unlock_cas k status new_status) s)
  | UnlockWaiters status new_status => Some (in_lock (unlock_waiters status new_status) s)
  | UnlockWake wake_num =>
      Some (match wake_at (rs_futex s) wake_num with
            | Ok st => (Ok (Done (Ok tt)), rs_lock s, st)
            | _ => (Panic, rs_lock s, rs_futex s)
            end)
  end.

Definition go_on (t : Z) (n : Next) (threads : gmap Z Pc) : gmap Z Pc :=
  match n with Go pc => <[t := pc]> threads | Done _ => delete t threads end.

(** Steps of any threads: a thread that is not in a call starts one, one that holds the lock
    releases it, or one makes its next access. [cancel] says whether the host may
    report [ECANCELED]. There are fewer than [2^31 - 1] threads. *)
Inductive rw_step (cancel : bool) : RwSys -> RwSys -> Prop :=
| rw_call s t k a :
    rs_threads s !! t = None -> Z.of_nat (size (rs_threads s)) < i32_max - 1 -> a <> Again ->
    rw_step cancel s (mkRwSys (rs_lock s) (rs_futex s) (<[t := attempt_of k a]> (rs_threads s)))
| rw_release s t k :
    rs_threads s !! t = Some (Holding k) ->
    rw_step cancel s (mkRwSys (rs_lock s) (rs_futex s) (<[t := UnlockLoad k]> (rs_threads s)))
| rw_access s t pc host n lk st :
    rs_threads s !! t = Some pc -> (host = Some ECANCELED -> cancel = true) ->
    thread_step t pc host s = Some (Ok n, lk, st) ->
    rw_step cancel s (mkRwSys lk st (go_on t n (rs_threads s))).

Inductive rw_reachable (cancel : bool) : RwSys -> Prop :=
| rw_start st : fwf st -> waiting st = [] -> rw_reachable cancel (rw_init st)
| rw_steps s s' : rw_reachable cancel s -> rw_step cancel s s' -> rw_reachable cancel s'.

End threads.

(** * Counting threads *)

Section count.
Context {A : Type}.
Implicit Types (f : A -> bool) (m : gmap Z A).

Definition count f m : Z := Z.of_nat (size (filter (fun x : Z * A => f x.2 = true) m)).

Lemma count_delete f m t a : m !! t = Some a -> count f (delete t m) = count f m - Z.b2z (f a).
Proof.
  intros Ht. unfold count. rewrite map_filter_delete. destruct (f a) eqn:Ha; cbn [Z.b2z].
  - assert (Hf : filter (fun x : Z * A => f x.2 = true) m !! t = Some a) by (by apply map_lookup_filter_Some_2).
    rewrite map_size_delete, Hf. pose proof (map_size_ne_0_lookup_2 _ t ltac:(by eexists)) as Hne. lia.
  - rewrite delete_id; [lia|]. apply map_lookup_filter_None_2. right. intros x Hx. cbn. congruence.
Qed.

Lemma count_insert_new f m t b : m !! t = None -> count f (<[t := b]> m) = count f m + Z.b2z (f b).
Proof.
  intros Ht. unfold count. destruct (f b) eqn:Hb; cbn [Z.b2z].
  - rewrite map_filter_insert_True by done. rewrite map_size_insert_None; [lia|].
    apply map_lookup_filter_None_2. by left.
  - rewrite map_filter_insert_False by (cbn; congruence). rewrite delete_id by done. lia.
Qed.

Lemma count_insert f m t a b :
  m !! t = Some a -> count f (<[t := b]> m) = count f m - Z.b2z (f a) + Z.b2z (f b).
Proof.
  intros Ht. rewrite <- insert_delete_eq, count_insert_new by apply lookup_delete_eq. by rewrite (count_delete f m t a).
Qed.

Lemma count_bounds f m : 0 <= count f m <= Z.of_nat (size m).
Proof. unfold count. pose proof (map_size_filter (fun x : Z * A => f x.2 = true) m). lia. Qed.

Lemma count_in f m t a : m !! t = Some a -> f a = true -> 0 < count f m.
Proof.
  intros Ht Ha. pose proof (count_delete f m t a Ht) as H. rewrite Ha in H.
  pose proof (count_bounds f (delete t m)). cbn in H. lia.
Qed.

Lemma count_witness f m : 0 < count f m -> exists t a, m !! t = Some a /\ f a = true.
Proof.
  intros Hc. unfold count in Hc. destruct (map_choose (filter (fun x : Z * A => f x.2 = true) m)) as (t & a & Ha).
  - intros He. rewrite He, map_size_empty in Hc. lia.
  - apply map_lookup_filter_Some in Ha as [Ha Hf]. eauto.
Qed.

Lemma count_two f m t a u b :
  m !! t = Some a -> f a = true -> m !! u = Some b -> f b = true -> t <> u -> 2 <= count f m.
Proof.
  intros Ht Ha Hu Hb Hne. pose proof (count_delete f m t a Ht) as H. rewrite Ha in H.
  assert (Hd : delete t m !! u = Some b) by (by rewrite lookup_delete_ne).
  pose proof (count_in f (delete t m) u b Hd Hb). cbn in H. lia.
Qed.

End count.

(** * The status *)

Ltac mod_lia := Z.to_euclidean_division_equations; lia.

(** The bits below the flag: how many hold the lock, or [i32_max] for a writer. *)
Definition num (v : Z) : Z := v mod 2 ^ 31.
Definition is_i32 (v : Z) : Prop := - 2 ^ 31 <= v < 2 ^ 31.

Lemma num_range v : 0 <= num v <= i32_max.
Proof. unfold num. pose proof (Z.mod_pos_bound v (2 ^ 31)). lia. Qed.

Lemma locker_spec st :
  get_locker st = if num (as_i32 st) =? 0 then Free else if num (as_i32 st) =? i32_max then WriterLocked
                  else ReaderLocked (num (as_i32 st)).
Proof. unfold get_locker, num. change 0x7FFFFFFF with (Z.ones 31). by rewrite Z.land_ones. Qed.

Lemma set_waiting_eq st : as_i32 (set_waiting st) = num (as_i32 st) - 2 ^ 31.
Proof.
  unfold set_waiting, num. cbn [as_i32]. generalize (as_i32 st). intros x.
  assert (H : Z.lor x (- 2 ^ 31) = Z.lnot (Z.lnot x mod 2 ^ 31)).
  { rewrite <- Z.land_ones, Z.lnot_land, Z.lnot_involutive by lia. done. }
  rewrite H. unfold Z.lnot, Z.pred. mod_lia.
Qed.

Lemma set_waiting_num st : num (as_i32 (set_waiting st)) = num (as_i32 st).
Proof. rewrite set_waiting_eq. unfold num. mod_lia. Qed.

Lemma try_from_ok v : is_i32 v -> exists st, RwLockStatus_try_from v = Ok st /\ as_i32 st = v.
Proof.
  intros Hv. unfold is_i32 in Hv. unfold RwLockStatus_try_from. cbn [as_i32].
  repeat case_if; boolprop; try (eexists; split; [reflexivity|cbn; lia]); lia.
Qed.

Lemma wrap32_id x : is_i32 x -> wrap32 x = x.
Proof. unfold is_i32, wrap32. intros. mod_lia. Qed.

(** What [rw_unlock] makes of a status. *)
Definition unlocks (st new : RwLockStatus) : Prop :=
  ((num (as_i32 st) = 1 \/ num (as_i32 st) = i32_max) /\ as_i32 new = 0)
  \/ (1 < num (as_i32 st) < i32_max /\ as_i32 new = as_i32 st - 1).

Lemma waking_num_pos st new :
  unlocks st new -> exists n, get_waking_num st = Ok n /\ 0 < n.
Proof.
  intros Hu. unfold get_waking_num. rewrite locker_spec. pose proof (num_range (as_i32 st)).
  unfold unlocks in Hu. destruct (Z.eqb_spec (num (as_i32 st)) 0); [lia|].
  case_if; eexists; (split; [done|]); cbn [as_i32]; lia.
Qed.

(** * The invariant *)

Section invariant.
Context {FA : FutexAt}.

Definition holds (k : Kind) (p : Pc) : bool :=
  match p, k with
  | (Holding Read | UnlockLoad Read | UnlockCas Read _ _), Read => true
  | (Holding Write | UnlockLoad Write | UnlockCas Write _ _), Write => true
  | _, _ => false
  end.

(** Between [fetch_add] and [fetch_sub]. *)
Definition counted (p : Pc) : bool :=
  match p with
  | SetWaiting _ _ | FutexWait _ _ | Asleep _ | Interrupted _ _ | SubWaiter _ _ => true
  | _ => false
  end.

(** What a thread knows about the values it has read. *)
Definition pc_ok (p : Pc) : Prop :=
  match p with
  | ReadCas _ cur => num (as_i32 cur) < max_read_lock_holder_num
  | AddWaiter _ cur | SetWaiting _ cur => num (as_i32 cur) <> 0
  | FutexWait _ v => num v <> 0
  | UnlockCas _ st new | UnlockWaiters st new => unlocks st new
  | UnlockWake n => 0 < n
  | _ => True
  end.

(** The lock with [r] readers and [w] writers that hold it and [c] threads that are counted. *)
Record lock_ok (lk : RwLockInner) (r w c : Z) : Prop := {
  lo_range : is_i32 (rw_status lk);
  lo_free : num (rw_status lk) = 0 -> rw_status lk = 0;
  lo_holders : (w = 0 /\ r = num (rw_status lk) /\ num (rw_status lk) < i32_max)
               \/ (w = 1 /\ r = 0 /\ num (rw_status lk) = i32_max);
  lo_waiters : rw_waiters lk = c;
  lo_count : 0 <= c < i32_max;
}.

Record rw_inv (s : RwSys) : Prop := {
  ri_lock : lock_ok (rs_lock s) (count (holds Read) (rs_threads s)) (count (holds Write) (rs_threads s))
              (count counted (rs_threads s));
  ri_size : Z.of_nat (size (rs_threads s)) < i32_max;
  ri_pcs t p : rs_threads s !! t = Some p -> pc_ok p;
  ri_fwf : fwf (rs_futex s);
  ri_nodup : NoDup (waiting (rs_futex s));
  ri_queue t : t ∈ waiting (rs_futex s) ->
    exists k, rs_threads s !! t = Some (Asleep k) \/ exists e, rs_threads s !! t = Some (Interrupted k e);
  ri_sleep t k : rs_threads s !! t = Some (Asleep k) -> woken (rs_futex s) t = false <-> t ∈ waiting (rs_futex s);
}.

Definition next_weight (f : Pc -> bool) (n : Next) : Z := match n with Go q => Z.b2z (f q) | Done _ => 0 end.
Definition next_ok (n : Next) : Prop := match n with Go q => pc_ok q | Done _ => True end.

Lemma count_go_on f t p n (m : gmap Z Pc) :
  m !! t = Some p -> count f (go_on t n m) = count f m - Z.b2z (f p) + next_weight f n.
Proof.
  intros Ht. destruct n as [q|r]; cbn [go_on next_weight]; [by apply count_insert|]. rewrite (count_delete f m t p Ht). lia.
Qed.

Lemma go_on_lookup t n (m : gmap Z Pc) u :
  go_on t n m !! u = if decide (u = t) then match n with Go q => Some q | Done _ => None end else m !! u.
Proof.
  destruct n; cbn; case_decide as Hu; subst; rewrite ?lookup_insert_eq, ?lookup_delete_eq, ?lookup_insert_ne, ?lookup_delete_ne by done; done.
Qed.

Lemma go_on_size t p n (m : gmap Z Pc) : m !! t = Some p -> (size (go_on t n m) <= size m)%nat.
Proof.
  intros Ht. destruct n; cbn.
  - rewrite map_size_insert_Some; [done|by eexists].
  - rewrite map_size_delete, Ht. lia.
Qed.

(** ** Accesses to the lock alone *)

Definition in_queue (p : Pc) : bool := match p with Asleep _ | Interrupted _ _ => true | _ => false end.
Definition next_in_queue (n : Next) : bool := match n with Go q => in_queue q | Done _ => false end.

(** A thread that will look at the lock or wake others before it sleeps or ends. *)
Definition busy (p : Pc) : bool :=
  match p with
  | Holding _ | Asleep _ => false
  | UnlockWaiters _ new => RwLockStatus_eq new Free
  | _ => true
  end.
Definition next_busy (n : Next) : bool := match n with Go q => busy q | Done _ => false end.

(** The lock, what the thread does next, and why nobody is forgotten. *)
Record access_ok (lk : RwLockInner) (r w c : Z) (p : Pc) (n : Next) (lk' : RwLockInner) : Prop := {
  ao_lock : lock_ok lk' (r - Z.b2z (holds Read p) + next_weight (holds Read) n)
              (w - Z.b2z (holds Write p) + next_weight (holds Write) n)
              (c - Z.b2z (counted p) + next_weight counted n);
  ao_next : next_ok n;
  ao_queue : next_in_queue n = false;
  ao_live : num (rw_status lk') <> 0 \/ next_busy n = true \/ c = 0 \/ (lk' = lk /\ busy p = false)
            \/ n = Done (Err ECANCELED);
}.

Section accesses.
Variables (lk : RwLockInner) (r w c : Z).
Hypothesis (Hlk : lock_ok lk r w c).

Lemma status_runs : exists st, RwLockInner_status lk = (Ok st, lk) /\ as_i32 st = rw_status lk.
Proof.
  destruct (try_from_ok _ (lo_range _ _ _ _ Hlk)) as (st & Hst & Heq). exists st. split; [|done].
  unfold RwLockInner_status. by rewrite (bind_ok get _ lk lk lk eq_refl), Hst.
Qed.

Lemma cas_runs cur new :
  compare_exchange cur new lk =
  if rw_status lk =? cur then (Ok true, mkRwLockInner new (rw_waiters lk)) else (Ok false, lk).
Proof. unfold compare_exchange. rewrite (bind_ok get _ lk lk lk eq_refl). by case_if. Qed.

(** Steps that only look at the lock. *)
Lemma look_ok p n :
  holds Read p = false -> holds Write p = false -> counted p = false ->
  next_weight (holds Read) n = 0 -> next_weight (holds Write) n = 0 -> next_weight counted n = 0 ->
  next_ok n -> next_in_queue n = false ->
  num (rw_status lk) <> 0 \/ next_busy n = true \/ c = 0 \/ busy p = false ->
  access_ok lk r w c p n lk.
Proof.
  intros H1 H2 H3 H4 H5 H6 H7 H8 H9. constructor; auto.
  - rewrite H1, H2, H3, H4, H5, H6. cbn. by rewrite !Z.sub_0_r, !Z.add_0_r.
  - destruct H9 as [?|[?|[?|?]]]; auto 6.
Qed.

(** A failed attempt while the lock is held. *)
Lemma tried_ok k a e :
  num (rw_status lk) <> 0 -> access_ok lk r w c (attempt_of k a) (tried k a (Err e)) lk.
Proof. 
  intros Hn. unfold tried. destruct a; cbn; [|destruct (match k with Read => _ | Write => _ end)..]; apply look_ok;
    destruct k; (done || by left).
Qed.

Lemma try_read_load_ok a : exists n, try_read_load a lk = (Ok n, lk) /\ access_ok lk r w c (ReadLoad a) n lk.
Proof.
  unfold try_read_load. destruct status_runs as (st & Hst & Heq). rewrite (bind_ok _ _ _ _ _ Hst), locker_spec, Heq.
  destruct (Z.eqb_spec (num (rw_status lk)) 0) as [H0|H0];
    [|destruct (Z.eqb_spec (num (rw_status lk)) i32_max) as [Hm|Hm];
      [|destruct (Z.eqb_spec (num (rw_status lk)) max_read_lock_holder_num) as [Hx|Hx]]].
  - eexists. split; [done|]. apply look_ok; cbn; auto. cbn. rewrite Heq. lia.
  - eexists. split; [done|]. by apply (tried_ok Read).
  - eexists. split; [done|]. by apply (tried_ok Read).
  - eexists. split; [done|]. apply look_ok; cbn; auto. cbn. rewrite Heq. pose proof (num_range (rw_status lk)). lia.
Qed.

Lemma num_succ v : num v < i32_max -> num (v + 1) = num v + 1.
Proof. unfold num. intros. mod_lia. Qed.
Lemma num_pred v : num v <> 0 -> num (v - 1) = num v - 1.
Proof. unfold num. intros. mod_lia. Qed.
Lemma num_free : num 0 = 0. Proof. done. Qed.
Lemma num_writer : num i32_max = i32_max. Proof. done. Qed.

(** A status with [num] below the writer's and its flag. *)
Lemma i32_num v : is_i32 v -> v = num v \/ v = num v - 2 ^ 31.
Proof. unfold is_i32, num. intros. mod_lia. Qed.

Lemma try_read_cas_ok a cur :
  pc_ok (ReadCas a cur) ->
  exists n lk', try_read_cas a cur lk = (Ok n, lk') /\ access_ok lk r w c (ReadCas a cur) n lk'.
Proof.
  cbn. intros Hcur. unfold try_read_cas, try_add_one_reader. unfold attempt, mbind, M_bind. rewrite cas_runs.
  destruct Hlk as [Hrg Hf Hh Hws Hc].
  destruct (Z.eqb_spec (rw_status lk) (as_i32 cur)) as [Heq|Hne]; cbn.
  - do 2 eexists. split; [done|]. rewrite <- Heq in *. destruct (i32_num _ Hrg) as [Hv|Hv];
    rewrite wrap32_id by (unfold is_i32; pose proof (num_range (rw_status lk)); lia).
    all: constructor; cbn; auto; [constructor; cbn; auto|]; rewrite ?num_succ by lia; unfold is_i32;
      pose proof (num_range (rw_status lk)); lia.
  - do 2 eexists. split; [done|]. apply look_ok; cbn; auto.
Qed.

Lemma try_write_ok a : exists n lk', try_write a lk = (Ok n, lk') /\ access_ok lk r w c (WriteCas a) n lk'.
Proof.
  unfold try_write, try_set_writer_locked. unfold attempt, mbind, M_bind. rewrite cas_runs. cbn [as_i32].
  destruct (Z.eqb_spec (rw_status lk) 0) as [Heq|Hne]; cbn.
  - do 2 eexists. split; [done|]. destruct Hlk as [Hrg Hf Hh Hws Hc]. rewrite Heq, num_free in Hh.
    constructor; cbn; auto. constructor; cbn; auto; unfold is_i32; rewrite ?num_writer; lia.
  - do 2 eexists. split; [done|]. apply (tried_ok Write). intros H0. by apply Hne, (lo_free _ _ _ _ Hlk).
Qed.

Lemma spin_ok k n0 : exists n, spin k n0 lk = (Ok n, lk) /\ access_ok lk r w c (Spin k n0) n lk.
Proof.
  unfold spin. rewrite (bind_ok get _ lk lk lk eq_refl).
  destruct n0 as [|n0]; [|case_if]; (eexists; split; [done|]); apply look_ok; destruct k; cbn; auto.
Qed.

Lemma spin_waiters_ok k n0 : exists n, spin_waiters k n0 lk = (Ok n, lk) /\ access_ok lk r w c (SpinWaiters k n0) n lk.
Proof.
  unfold spin_waiters. rewrite (bind_ok get _ lk lk lk eq_refl).
  case_if; (eexists; split; [done|]); apply look_ok; destruct k; cbn; auto.
Qed.

Lemma check_status_ok k : exists n, check_status k lk = (Ok n, lk) /\ access_ok lk r w c (CheckStatus k) n lk.
Proof.
  unfold check_status. destruct status_runs as (st & Hst & Heq). rewrite (bind_ok _ _ _ _ _ Hst).
  destruct k; [rewrite locker_spec, Heq|].
  - destruct (Z.eqb_spec (num (rw_status lk)) 0) as [H0|H0]; [|case_if];
      (eexists; split; [done|]); apply look_ok; cbn; auto. cbn. by rewrite Heq.
  - unfold RwLockStatus_eq. rewrite Heq. cbn [as_i32]. destruct (Z.eqb_spec (rw_status lk) 0) as [H0|H0];
      (eexists; split; [done|]); apply look_ok; cbn; auto. cbn. rewrite Heq. intros H1. by apply H0, (lo_free _ _ _ _ Hlk).
Qed.

Lemma add_waiter_ok k cur :
  pc_ok (AddWaiter k cur) -> c + 1 < i32_max ->
  exists n lk', (_ ← waiters_add 1; ok (Go (SetWaiting k cur))) lk = (Ok n, lk') /\ access_ok lk r w c (AddWaiter k cur) n lk'.
Proof.
  intros Hcur Hc1. do 2 eexists. split; [done|]. destruct Hlk as [Hrg Hf Hh Hws Hc].
  constructor; cbn; auto. rewrite wrap32_id by (unfold is_i32; lia). constructor; cbn; auto; lia.
Qed.

Lemma set_waiting_ok k cur :
  pc_ok (SetWaiting k cur) -> 0 < c ->
  exists n lk', set_waiting_status k cur lk = (Ok n, lk') /\ access_ok lk r w c (SetWaiting k cur) n lk'.
Proof.
  intros Hcur Hc0. cbn in Hcur. unfold set_waiting_status, try_set_new_status. unfold attempt, mbind, M_bind. rewrite cas_runs.
  assert (Hn : num (as_i32 (set_waiting cur)) <> 0) by by rewrite set_waiting_num.
  destruct Hlk as [Hrg Hf Hh Hws Hc].
  destruct (Z.eqb_spec (rw_status lk) (as_i32 cur)) as [Heq|Hne]; cbn -[set_waiting]; do 2 eexists; (split; [done|]).
  - constructor; cbn -[set_waiting]; auto. constructor; cbn -[set_waiting]; auto; [|done|rewrite set_waiting_num, <- Heq; lia|lia..].
    rewrite set_waiting_eq. unfold is_i32. pose proof (num_range (as_i32 cur)). lia.
  - constructor; cbn -[set_waiting]; auto. constructor; cbn; auto; lia.
Qed.

Lemma sub_waiter_ok k ret :
  0 < c -> exists n lk', sub_waiter k ret lk = (Ok n, lk') /\ access_ok lk r w c (SubWaiter k ret) n lk'.
Proof.
  intros Hc0. unfold sub_waiter. set (lk' := mkRwLockInner (rw_status lk) (wrap32 (rw_waiters lk + -1))).
  rewrite (bind_ok (waiters_add (-1)) _ lk tt lk' eq_refl).
  assert (Hn : exists n, (match ret with Err ECANCELED => ok (Done ret) | _ => ok (Go (attempt_of k Again)) end) lk'
                         = (Ok n, lk') /\ (n = Done (Err ECANCELED) \/ n = Go (attempt_of k Again))).
  { destruct ret as [|[]|]; eexists; (split; [done|]); auto. }
  destruct Hn as (n & Hrun & Hn). exists n, lk'. split; [exact Hrun|]. destruct Hlk as [Hrg Hf Hh Hws Hc].
  assert (Hwt : wrap32 (rw_waiters lk + -1) = c - 1) by (rewrite wrap32_id; unfold is_i32; lia).
  constructor; destruct Hn as [->| ->]; destruct k; cbn; auto 6; constructor; cbn; auto; lia.
Qed.

Ltac holder_lia k Hkr Hkw := destruct k; cbn; [specialize (Hkr eq_refl)|specialize (Hkw eq_refl)]; lia.

Lemma holder_num k : (k = Read -> 0 < r) -> (k = Write -> 0 < w) -> num (rw_status lk) <> 0.
Proof.
  intros Hkr Hkw. pose proof (lo_holders _ _ _ _ Hlk). destruct k; [specialize (Hkr eq_refl)|specialize (Hkw eq_refl)]; lia.
Qed.

Lemma unlock_load_ok k :
  (k = Read -> 0 < r) -> (k = Write -> 0 < w) ->
  exists n lk', unlock_load k lk = (Ok n, lk') /\ access_ok lk r w c (UnlockLoad k) n lk'.
Proof.
  intros Hkr Hkw. unfold unlock_load. destruct status_runs as (st & Hst & Heq). rewrite (bind_ok _ _ _ _ _ Hst).
  assert (Hn0 : num (rw_status lk) <> 0) by (by eapply holder_num).
  assert (Hgo : forall new, unlocks st new -> access_ok lk r w c (UnlockLoad k) (Go (UnlockCas k st new)) lk).
  { intros new Hu. constructor; cbn; auto. rewrite !Z.sub_add. done. }
  unfold get_lock_holder_num. rewrite locker_spec, Heq, (proj2 (Z.eqb_neq _ _) Hn0). pose proof (num_range (rw_status lk)) as Hrg.
  destruct (Z.eqb_spec (num (rw_status lk)) i32_max) as [Hm|Hm];
    [|destruct (Z.eqb_spec (num (rw_status lk)) 1) as [H1|H1]].
  - do 2 eexists. split; [done|]. apply Hgo. left. rewrite Heq. auto.
  - exists (Go (UnlockCas k st Free)), lk. split; [by rewrite H1|]. apply Hgo. left. rewrite Heq. auto.
  - assert (Hp : is_i32 (rw_status lk - 1)).
    { pose proof (lo_range _ _ _ _ Hlk) as Hi. destruct (i32_num _ Hi); unfold is_i32 in *; lia. }
    destruct (try_from_ok _ Hp) as (new & Hnew & Hv). exists (Go (UnlockCas k st new)), lk. split.
    + rewrite (bind_ok (lift (Ok _)) _ lk _ lk eq_refl). rewrite (proj2 (Z.eqb_neq _ _) H1), wrap32_id, Hnew by done. done.
    + apply Hgo. right. rewrite Heq, Hv. lia.
Qed.

Lemma unlock_cas_ok k st new :
  pc_ok (UnlockCas k st new) -> (k = Read -> 0 < r) -> (k = Write -> 0 < w) ->
  exists n lk', unlock_cas k st new lk = (Ok n, lk') /\ access_ok lk r w c (UnlockCas k st new) n lk'.
Proof.
  cbn. intros Hu Hkr Hkw. unfold unlock_cas, try_set_new_status. unfold attempt, mbind, M_bind. rewrite cas_runs.
  destruct Hlk as [Hrg Hf Hh Hws Hc].
  assert (Hn0 : num (rw_status lk) <> 0) by (by eapply holder_num).
  destruct (Z.eqb_spec (rw_status lk) (as_i32 st)) as [Heq|Hne]; cbn; do 2 eexists; (split; [done|]).
  - destruct Hu as [[Hn Hnew]|[Hn Hnew]]; rewrite <- Heq in *; constructor; cbn; auto.
    + rewrite Hnew. constructor; cbn; rewrite ?num_free; auto; [unfold is_i32; lia|by holder_lia k Hkr Hkw|holder_lia k Hkr Hkw..].
    + by left; rewrite <- Heq.
    + right. left. unfold RwLockStatus_eq. by rewrite Hnew.
    + rewrite Hnew. pose proof (num_pred _ Hn0) as Hp. constructor; cbn; rewrite ?Hp; auto; [|lia|holder_lia k Hkr Hkw..].
      destruct (i32_num _ Hrg); unfold is_i32 in *; lia.
    + right. by rewrite <- Heq.
    + left. rewrite Hnew, num_pred by done. lia.
  - constructor; cbn; auto. rewrite !Z.sub_add. by constructor.
Qed.

Lemma unlock_waiters_ok st new :
  pc_ok (UnlockWaiters st new) ->
  exists n lk', unlock_waiters st new lk = (Ok n, lk') /\ access_ok lk r w c (UnlockWaiters st new) n lk'.
Proof.
  intros Hu. unfold unlock_waiters. rewrite (bind_ok get _ lk lk lk eq_refl). case_if.
  - destruct (waking_num_pos st new Hu) as (n & Hn & Hpos). rewrite Hn. do 2 eexists. split; [done|]. apply look_ok; cbn; auto.
  - do 2 eexists. split; [done|]. apply look_ok; cbn; auto. boolprop. cbn. destruct Heqb as [Hn|Hn]; [auto|]. boolprop.
    right. right. left. by rewrite <- (lo_waiters _ _ _ _ Hlk).
Qed.

End accesses.

(** ** Preservation *)

Abbreviation readers s := (count (holds Read) (rs_threads s)).
Abbreviation writers s := (count (holds Write) (rs_threads s)).
Abbreviation waiters s := (count counted (rs_threads s)).

Definition lock_only (p : Pc) : bool :=
  match p with
  | FutexWait _ _ | Asleep _ | Interrupted _ _ | Holding _ | UnlockWake _ => false
  | _ => true
  end.

(** A thread that is not counted leaves room for one more. *)
Lemma room s t p : rw_inv s -> rs_threads s !! t = Some p -> counted p = false -> waiters s + 1 < i32_max.
Proof.
  intros Hs Ht Hp. pose proof (count_delete counted _ t p Ht) as H. rewrite Hp in H. cbn in H.
  pose proof (count_bounds counted (delete t (rs_threads s))) as Hb. rewrite map_size_delete, Ht in Hb.
  pose proof (ri_size s Hs). lia.
Qed.

Lemma lock_access s t p host :
  rw_inv s -> rs_threads s !! t = Some p -> lock_only p = true ->
  exists n lk, thread_step t p host s = Some (Ok n, lk, rs_futex s)
    /\ access_ok (rs_lock s) (readers s) (writers s) (waiters s) p n lk.
Proof.
  intros Hs Ht Hp. pose proof (ri_lock s Hs) as Hlk. pose proof (ri_pcs s Hs t p Ht) as Hok.
  assert (Hc : counted p = true -> 0 < waiters s) by (intros; by eapply count_in).
  assert (Hkr : holds Read p = true -> 0 < readers s) by (intros; by eapply count_in).
  assert (Hkw : holds Write p = true -> 0 < writers s) by (intros; by eapply count_in).
  assert (Hin : forall c n lk, c (rs_lock s) = (Ok n, lk) -> in_lock c s = (Ok n, lk, rs_futex s)).
  { intros c n lk Hc'. unfold in_lock. by rewrite Hc'. }
  destruct p; try done; cbn [thread_step].
  - destruct (try_read_load_ok _ _ _ _ Hlk a) as (n & Hrun & Ha). exists n, (rs_lock s). by rewrite (Hin _ _ _ Hrun).
  - destruct (try_read_cas_ok _ _ _ _ Hlk a _ Hok) as (n & lk & Hrun & Ha). exists n, lk. by rewrite (Hin _ _ _ Hrun).
  - destruct (try_write_ok _ _ _ _ Hlk a) as (n & lk & Hrun & Ha). exists n, lk. by rewrite (Hin _ _ _ Hrun).
  - destruct (spin_ok _ _ _ _ Hlk k spins) as (n & Hrun & Ha). exists n, (rs_lock s). by rewrite (Hin _ _ _ Hrun).
  - destruct (spin_waiters_ok _ _ _ _ Hlk k spins) as (n & Hrun & Ha). exists n, (rs_lock s). by rewrite (Hin _ _ _ Hrun).
  - destruct (check_status_ok _ _ _ _ Hlk k) as (n & Hrun & Ha). exists n, (rs_lock s). by rewrite (Hin _ _ _ Hrun).
  - destruct (add_waiter_ok _ _ _ _ Hlk k _ Hok (room s t _ Hs Ht eq_refl)) as (n & lk & Hrun & Ha).
    exists n, lk. by rewrite (Hin _ _ _ Hrun).
  - destruct (set_waiting_ok _ _ _ _ Hlk k _ Hok (Hc eq_refl)) as (n & lk & Hrun & Ha). exists n, lk. by rewrite (Hin _ _ _ Hrun).
  - destruct (sub_waiter_ok _ _ _ _ Hlk k ret (Hc eq_refl)) as (n & lk & Hrun & Ha). exists n, lk. by rewrite (Hin _ _ _ Hrun).
  - destruct (unlock_load_ok _ _ _ _ Hlk k) as (n & lk & Hrun & Ha); [intros ->; by apply Hkr|intros ->; by apply Hkw|].
    exists n, lk. by rewrite (Hin _ _ _ Hrun).
  - destruct (unlock_cas_ok _ _ _ _ Hlk k _ _ Hok) as (n & lk & Hrun & Ha); [intros ->; by apply Hkr|intros ->; by apply Hkw|].
    exists n, lk. by rewrite (Hin _ _ _ Hrun).
  - destruct (unlock_waiters_ok _ _ _ _ Hlk _ _ Hok) as (n & lk & Hrun & Ha). exists n, lk. by rewrite (Hin _ _ _ Hrun).
Qed.

(** A step of thread [t] from [p] to [n], with the lock and the futexes as they are afterwards. *)
Lemma step_inv s t p n lk st :
  rw_inv s -> rs_threads s !! t = Some p ->
  lock_ok lk (readers s - Z.b2z (holds Read p) + next_weight (holds Read) n)
    (writers s - Z.b2z (holds Write p) + next_weight (holds Write) n)
    (waiters s - Z.b2z (counted p) + next_weight counted n) ->
  next_ok n -> fwf st -> NoDup (waiting st) ->
  (forall u, u ∈ waiting st -> (u = t /\ next_in_queue n = true) \/ (u <> t /\ u ∈ waiting (rs_futex s))) ->
  (forall u, u <> t -> (woken (rs_futex s) u = false <-> u ∈ waiting (rs_futex s)) ->
     (woken st u = false <-> u ∈ waiting st)) ->
  (forall k, n = Go (Asleep k) -> woken st t = false /\ t ∈ waiting st) ->
  rw_inv (mkRwSys lk st (go_on t n (rs_threads s))).
Proof.
  intros Hs Ht Hlk Hn Hst Hnd Hq1 Hq2 Hasleep. destruct Hs as [Hl Hsz Hpcs Hf Hnd0 Hq Hsl].
  constructor; cbn [rs_lock rs_futex rs_threads]; auto.
  - by rewrite !(count_go_on _ t p n).
  - pose proof (go_on_size t p n _ Ht). lia.
  - intros u q. rewrite go_on_lookup. case_decide; [|by apply Hpcs]. destruct n; [|done]. by intros [= <-].
  - intros u Hu. rewrite go_on_lookup. destruct (Hq1 u Hu) as [[-> Hin]|[Hne Hin]].
    + rewrite decide_True by done. destruct n as [[]|]; try done; eauto.
    + rewrite decide_False by done. by apply Hq.
  - intros u k. rewrite go_on_lookup. case_decide as Hut; [subst u|].
    + destruct n as [q|]; [|done]. intros [= ->]. destruct (Hasleep k eq_refl). tauto.
    + intros Hu. apply Hq2; auto. by eapply Hsl.
Qed.

Lemma quiet_inv s t p n lk :
  rw_inv s -> rs_threads s !! t = Some p -> in_queue p = false ->
  access_ok (rs_lock s) (readers s) (writers s) (waiters s) p n lk ->
  rw_inv (mkRwSys lk (rs_futex s) (go_on t n (rs_threads s))).
Proof.
  intros Hs Ht Hp [Hlk Hn Hq _]. apply (step_inv s t p); auto; try apply Hs.
  - intros u Hu. right. split; [|done]. intros ->. destruct (ri_queue s Hs t Hu) as (k & [Hk|(e & Hk)]);
      rewrite Hk in Ht; by injection Ht as <-.
  - intros k ->. done.
Qed.

(** ** Accesses to the futex *)

(** The threads of a state after an access of thread [t], with the futexes as they are then. *)
Abbreviation goes s t n st := (mkRwSys (rs_lock s) st (go_on t n (rs_threads s))).

Section futex_steps.
Variables (s : RwSys) (t : Z).
Hypothesis (Hs : rw_inv s).

Lemma not_queued p : rs_threads s !! t = Some p -> in_queue p = false -> t ∉ waiting (rs_futex s).
Proof.
  intros Ht Hq Hin. destruct (ri_queue s Hs t Hin) as (k & [Hk|(e & Hk)]); rewrite Hk in Ht; by injection Ht as <-.
Qed.

Lemma queue_short : Z.of_nat (length (waiting (rs_futex s))) < i32_max.
Proof.
  pose proof (ri_size s Hs) as Hsz. rewrite <- (size_dom (D := gset Z)) in Hsz.
  assert (Hle : (length (waiting (rs_futex s)) <= size (dom (rs_threads s) : gset Z))%nat).
  { rewrite <- (size_list_to_set (C := gset Z)) by apply Hs. apply subseteq_size. intros u Hu%elem_of_list_to_set.
    apply elem_of_dom. destruct (ri_queue s Hs u Hu) as (k & [Hk|(e & Hk)]); by eexists. }
  lia.
Qed.

(** Steps that leave the lock alone. *)
Lemma same_lock p n st :
  rs_threads s !! t = Some p ->
  next_weight (holds Read) n = Z.b2z (holds Read p) -> next_weight (holds Write) n = Z.b2z (holds Write p) ->
  next_weight counted n = Z.b2z (counted p) -> next_ok n -> fwf st -> NoDup (waiting st) ->
  (forall u, u ∈ waiting st -> (u = t /\ next_in_queue n = true) \/ (u <> t /\ u ∈ waiting (rs_futex s))) ->
  (forall u, u <> t -> (woken (rs_futex s) u = false <-> u ∈ waiting (rs_futex s)) ->
     (woken st u = false <-> u ∈ waiting st)) ->
  (forall k, n = Go (Asleep k) -> woken st t = false /\ t ∈ waiting st) ->
  rw_inv (goes s t n st).
Proof.
  intros Ht Hr Hw Hc. apply (step_inv s t p n (rs_lock s) st Hs Ht). rewrite Hr, Hw, Hc, !Z.sub_add. apply Hs.
Qed.

Lemma wait_inv k val :
  rs_threads s !! t = Some (FutexWait k val) ->
  if rw_status (rs_lock s) =? val
  then exists st, wait_at (rs_futex s) (rw_status (rs_lock s)) val t = Ok st /\ rw_inv (goes s t (Go (Asleep k)) st)
         /\ forall u, u <> t -> woken st u = woken (rs_futex s) u
  else wait_at (rs_futex s) (rw_status (rs_lock s)) val t = Err EAGAIN
       /\ rw_inv (goes s t (Go (SubWaiter k (Err EAGAIN))) (rs_futex s)).
Proof.
  intros Ht. pose proof (not_queued _ Ht eq_refl) as Hnq.
  pose proof (wait_law (rs_futex s) (rw_status (rs_lock s)) val t (ri_fwf s Hs) Hnq queue_short) as Hw.
  destruct (rw_status (rs_lock s) =? val).
  - destruct Hw as (st & Hrun & Hf & Hq & Hwk). exists st.
    assert (Hwn : forall u, u <> t -> woken st u = woken (rs_futex s) u).
    { intros u Hu. by rewrite Hwk, (proj2 (Z.eqb_neq _ _) Hu). }
    split_and!; [done| |done]. eapply same_lock; [exact Ht|done..| | | |].
    + rewrite Hq. apply list.NoDup_app. split_and!; [apply Hs|set_solver|apply NoDup_singleton].
    + intros u. rewrite Hq. destruct (decide (u = t)); set_solver.
    + intros u Hu. rewrite Hwn, Hq by done. set_solver.
    + intros _ _. rewrite Hwk, Hq, Z.eqb_refl. set_solver.
  - split; [done|]. eapply same_lock; [exact Ht|done..|apply Hs|apply Hs| |done|done].
    intros u Hu. right. split; [|done]. by intros ->.
Qed.

Lemma fail_inv k e :
  rs_threads s !! t = Some (Asleep k) -> rw_inv (goes s t (Go (Interrupted k e)) (fail_at (rs_futex s) t)).
Proof.
  intros Ht. destruct (fail_law (rs_futex s) t (ri_fwf s Hs)) as (Hf & Hq & Hwk).
  eapply same_lock; [exact Ht|done..|rewrite Hq; apply Hs| | |done].
  - intros u Hu. rewrite Hq in Hu. destruct (decide (u = t)); auto.
  - intros u Hu. rewrite Hwk, Hq, (proj2 (Z.eqb_neq _ _) Hu). done.
Qed.

Lemma woken_inv k :
  rs_threads s !! t = Some (Asleep k) -> woken (rs_futex s) t = true ->
  rw_inv (goes s t (Go (SubWaiter k (Ok tt))) (rs_futex s)).
Proof.
  intros Ht Hwt. eapply same_lock; [exact Ht|done..|apply Hs|apply Hs| |done|done].
  intros u Hu. right. split; [|done]. intros ->. apply (ri_sleep s Hs t k Ht) in Hu. congruence.
Qed.

Lemma leave_inv k e :
  rs_threads s !! t = Some (Interrupted k e) ->
  exists st, leave_at (rs_futex s) t = Ok st /\ rw_inv (goes s t (Go (SubWaiter k (Err e))) st)
    /\ forall u, woken st u = woken (rs_futex s) u.
Proof.
  intros Ht. destruct (leave_law (rs_futex s) t (ri_fwf s Hs) (ri_nodup s Hs)) as (st & Hrun & Hf & Hq & Hwk).
  exists st. split_and!; [done| |done]. eapply same_lock; [exact Ht|done..| | | |done]; rewrite Hq.
  - apply list.NoDup_filter, Hs.
  - intros u [? ?]%list_elem_of_filter. auto.
  - intros u Hu. rewrite Hwk, list_elem_of_filter. tauto.
Qed.

(** A wake takes the first of the queue out of it, if there is one. *)
Lemma wake_inv n :
  rs_threads s !! t = Some (UnlockWake n) ->
  exists st, wake_at (rs_futex s) n = Ok st /\ rw_inv (goes s t (Done (Ok tt)) st)
    /\ (forall u, woken (rs_futex s) u = true -> woken st u = true)
    /\ (waiting (rs_futex s) <> [] -> exists u, u ∈ waiting (rs_futex s) /\ woken st u = true).
Proof.
  intros Ht. pose proof (not_queued _ Ht eq_refl) as Hnq. pose proof (ri_pcs s Hs t _ Ht) as Hn. cbn in Hn.
  destruct (wake_law (rs_futex s) n (ri_fwf s Hs) ltac:(lia)) as (st & Hrun & Hf & Hq & Hwk).
  pose proof (ri_nodup s Hs) as Hnd. set (m := Z.to_nat n) in *.
  rewrite <- (take_drop m (waiting (rs_futex s))) in Hnd. apply list.NoDup_app in Hnd as (Hnd1 & Hnd2 & Hnd3).
  exists st. split_and!; [done| | |].
  - eapply same_lock; [exact Ht|done..| | | |done]; rewrite Hq; [done| |].
    + intros u Hu. assert (Hin : u ∈ waiting (rs_futex s)) by (rewrite <- (take_drop m (waiting _)); set_solver).
      right. split; [|done]. by intros ->.
    + intros u Hu. rewrite Hwk, orb_false_iff, bool_decide_eq_false. rewrite <- (take_drop m (waiting (rs_futex s))) at 1. set_solver.
  - intros u Hu. rewrite Hwk, Hu. apply orb_true_r.
  - intros Hne. destruct (waiting (rs_futex s)) as [|u l]; [done|]. exists u. split; [left|].
    assert (exists m', m = S m') as [m' ->] by (exists (pred m); lia). rewrite Hwk, bool_decide_true by (cbn; left). done.
Qed.

End futex_steps.

(** ** Nobody is forgotten *)

Definition asleep (s : RwSys) (u : Z) : Prop :=
  exists k, rs_threads s !! u = Some (Asleep k) /\ woken (rs_futex s) u = false.
Definition active (s : RwSys) (u : Z) : Prop :=
  exists q, rs_threads s !! u = Some q /\ (busy q = true \/ ((exists k, q = Asleep k) /\ woken (rs_futex s) u = true)).
Definition rw_live (s : RwSys) : Prop :=
  (exists u, asleep s u) -> num (rw_status (rs_lock s)) <> 0 \/ exists u, active s u.

Definition is_asleep (n : Next) : bool := match n with Go (Asleep _) => true | _ => false end.

Lemma live_keep s t p n lk st :
  rs_threads s !! t = Some p -> rw_live s -> (forall u, u <> t -> woken (rs_futex s) u = true -> woken st u = true) ->
  let s' := mkRwSys lk st (go_on t n (rs_threads s)) in
  num (rw_status lk) <> 0 \/ next_busy n = true
  \/ (is_asleep n = false /\ ((forall u, ~ asleep s u) \/ (lk = rs_lock s /\ ~ active s t) \/ exists u, active s' u)) ->
  rw_live s'.
Proof.
  intros Ht Hl Hwk s' Hwhy [u (k & Hu & Hwu)]. cbn in Hu, Hwu. rewrite go_on_lookup in Hu.
  destruct Hwhy as [?|[Hb|(Hn & Hwhy)]]; [by left| |].
  - right. exists t. destruct n as [q|]; [|done]. exists q. unfold s'. cbn. rewrite lookup_insert_eq. auto.
  - assert (Hut : u <> t) by (intros ->; rewrite decide_True in Hu by done; destruct n as [[]|]; done).
    rewrite decide_False in Hu by done.
    assert (Has : asleep s u).
    { exists k. split; [done|]. destruct (woken (rs_futex s) u) eqn:Hw; [|done]. rewrite (Hwk u Hut Hw) in Hwu. done. }
    destruct Hwhy as [Hno|[[-> Hna]|Hact]]; [by destruct (Hno u)| |by right].
    destruct (Hl (ex_intro _ u Has)) as [?|(v & q & Hv & Hq)]; [by left|right].
    exists v, q. assert (Hvt : v <> t) by (intros ->; apply Hna; by exists q).
    unfold s'. cbn. rewrite go_on_lookup, decide_False by done. split; [done|].
    destruct Hq as [?|[? ?]]; [by left|right; auto].
Qed.

Lemma quiet_live s t p n lk :
  rs_threads s !! t = Some p -> in_queue p = false -> rw_live s ->
  access_ok (rs_lock s) (readers s) (writers s) (waiters s) p n lk -> n <> Done (Err ECANCELED) ->
  rw_live (mkRwSys lk (rs_futex s) (go_on t n (rs_threads s))).
Proof.
  intros Ht Hp Hl [_ _ Hq Hwhy] Hn. apply (live_keep s t p); [done|done|done|].
  assert (Hna : is_asleep n = false) by (by destruct n as [[]|]).
  destruct Hwhy as [?|[?|[Hc|[[-> Hb]|?]]]]; [by left|by right; left|right; right; split; [done|]..|done].
  - left. intros u (k & Hu & _). pose proof (count_in counted _ u _ Hu eq_refl). lia.
  - right. left. split; [done|]. intros (q & Hq' & [Hq''|[[k ->] _]]); rewrite Hq' in Ht; injection Ht as <-; [congruence|done].
Qed.

(** Where a cancelled wait shows. *)
Definition uncancelled (p : Pc) : Prop :=
  match p with Interrupted _ e => e <> ECANCELED | SubWaiter _ ret => ret <> Err ECANCELED | _ => True end.

Lemma access_runs s t p host r lk st :
  rw_inv s -> rs_threads s !! t = Some p -> thread_step t p host s = Some (r, lk, st) ->
  exists n, r = Ok n /\ rw_inv (mkRwSys lk st (go_on t n (rs_threads s)))
    /\ (rw_live s -> n <> Done (Err ECANCELED) -> rw_live (mkRwSys lk st (go_on t n (rs_threads s)))).
Proof.
  intros Hs Ht Hstep. destruct (lock_only p) eqn:Hp.
  { destruct (lock_access s t p host Hs Ht Hp) as (n & lk' & Hrun & Ha). rewrite Hrun in Hstep. injection Hstep as <- <- <-.
    assert (Hq : in_queue p = false) by (by destruct p).
    exists n. split_and!; [done|by eapply quiet_inv|]. intros Hl Hn. by eapply quiet_live. }
  destruct p; try done; cbn [thread_step] in Hstep.
  - pose proof (wait_inv s t Hs k val Ht) as Hw. pose proof (ri_pcs s Hs t _ Ht) as Hn0. cbn in Hn0.
    destruct (Z.eqb_spec (rw_status (rs_lock s)) val) as [Hv|Hv].
    + destruct Hw as (st' & Hrun & Hinv & Hwk). rewrite Hrun in Hstep. injection Hstep as <- <- <-. eexists. split_and!; [done..|].
      intros Hl _. eapply live_keep; [done|done|intros u Hu; by rewrite Hwk|]. left. by rewrite Hv.
    + destruct Hw as [Hrun Hinv]. rewrite Hrun in Hstep. injection Hstep as <- <- <-. eexists. split_and!; [done..|].
      intros Hl _. eapply live_keep; eauto.
  - destruct host as [e|].
    + injection Hstep as <- <- <-. eexists. split_and!; [done|by apply fail_inv|]. intros Hl _.
      destruct (fail_law (rs_futex s) t (ri_fwf s Hs)) as (_ & _ & Hwk).
      eapply live_keep; [done|done| |by right; left]. intros u Hu Hw. rewrite Hwk, Hw. apply orb_true_r.
    + destruct (woken (rs_futex s) t) eqn:Hwt; [|done]. injection Hstep as <- <- <-. eexists. split_and!; [done|by apply woken_inv|].
      intros Hl _. eapply live_keep; eauto.
  - destruct (leave_inv s t Hs k e Ht) as (st' & Hrun & Hinv & Hwk). rewrite Hrun in Hstep. injection Hstep as <- <- <-.
    eexists. split_and!; [done..|]. intros Hl _. eapply live_keep; [done|done|intros u Hu; by rewrite Hwk|by right; left].
  - destruct (wake_inv s t Hs wake_num Ht) as (st' & Hrun & Hinv & Hmono & Hwake). rewrite Hrun in Hstep. injection Hstep as <- <- <-.
    eexists. split_and!; [done..|]. intros Hl _. eapply live_keep; [done|done|auto|]. right. right. split; [done|].
    destruct (waiting (rs_futex s)) as [|x l] eqn:Hq.
    + left. intros u (k & Hu & Hw). apply (ri_sleep s Hs u k Hu) in Hw. rewrite Hq in Hw. by apply not_elem_of_nil in Hw.
    + right. right. destruct Hwake as (u & Hin & Hw); [done|]. exists u.
      rewrite <- Hq in Hin. assert (Hut : u <> t) by (intros ->; by eapply (not_queued s t Hs _ Ht)).
      destruct (ri_queue s Hs u Hin) as (k & [Hk|(e & Hk)]); eexists; cbn; rewrite lookup_delete_ne by done; (split; [exact Hk|]); eauto.
Qed.

(** ** Reachable states *)

Lemma reachable_inv cancel s : rw_reachable cancel s -> rw_inv s.
Proof.
  induction 1 as [st Hf Hq|s s' _ Hs Hstep].
  - constructor; cbn; rewrite ?Hq; auto; try done; try by constructor.
    + assert (Hc : forall f, count f (∅ : gmap Z Pc) = 0) by (intros f; unfold count; by rewrite map_filter_empty).
      rewrite !Hc. constructor; cbn; unfold is_i32; rewrite ?num_free; auto; lia.
    + by intros t ?%not_elem_of_nil.
  - destruct Hstep as [s t k a Ht Hsz Ha|s t k Ht|s t pc host n lk st Ht _ Hrun].
    + destruct Hs as [Hl Hsz' Hpcs Hf Hnd Hq Hsl]. assert (Hw : forall f, f (attempt_of k a) = false ->
        count f (<[t := attempt_of k a]> (rs_threads s)) = count f (rs_threads s)).
      { intros f Hfa. rewrite count_insert_new, Hfa by done. cbn. lia. }
      constructor; cbn; auto.
      * rewrite !Hw by (by destruct k). done.
      * rewrite map_size_insert_None by done. lia.
      * intros u p [[<- <-]|[_ Hu]]%lookup_insert_Some; [by destruct k|eauto].
      * intros u Hu. destruct (decide (u = t)) as [->|Hne]; [|rewrite lookup_insert_ne by done; auto].
        destruct (Hq t Hu) as (k' & [Hk|(e & Hk)]); congruence.
      * intros u k' [[<- Hk]|[_ Hu]]%lookup_insert_Some; [by destruct k|eauto].
    + apply (quiet_inv s t (Holding k) (Go (UnlockLoad k)) (rs_lock s)); auto.
      constructor; cbn; auto. rewrite !Z.sub_add. apply Hs.
    + destruct (access_runs s t pc host _ _ _ Hs Ht Hrun) as (n' & [= <-] & Hinv & _). done.
Qed.

Definition next_uncancelled (n : Next) : Prop :=
  match n with Go q => uncancelled q | Done ret => ret <> Err ECANCELED end.

Lemma lock_uncancelled s t p host n lk st :
  uncancelled p -> lock_only p = true -> thread_step t p host s = Some (Ok n, lk, st) -> next_uncancelled n.
Proof.
  intros Hu Hp Hstep. assert (Hat : forall k a, next_uncancelled (Go (attempt_of k a))) by by intros [].
  destruct p; try done; cbn [thread_step] in Hstep; injection Hstep as Hstep; unfold in_lock in Hstep;
    unfold try_read_load, try_read_cas, try_write, spin, spin_waiters, check_status, set_waiting_status, sub_waiter,
      unlock_load, unlock_cas, unlock_waiters in Hstep;
    cbv [mbind M_bind get lift ok panic attempt] in Hstep;
    repeat case_match; simplify_eq; try done; try (by destruct a); auto.
Qed.

Lemma access_uncancelled s t p host n lk st :
  rw_inv s -> rs_threads s !! t = Some p -> uncancelled p -> host <> Some ECANCELED ->
  thread_step t p host s = Some (Ok n, lk, st) -> next_uncancelled n.
Proof.
  intros Hs Ht Hu Hh Hstep. destruct (lock_only p) eqn:Hp; [by eapply lock_uncancelled|].
  destruct p; try done; cbn [thread_step] in Hstep.
  - pose proof (wait_inv s t Hs k val Ht) as Hw. destruct (_ =? val) in Hw.
    + destruct Hw as (st' & Hrun & _). rewrite Hrun in Hstep. by injection Hstep as <- <- <-.
    + destruct Hw as [Hrun _]. rewrite Hrun in Hstep. by injection Hstep as <- <- <-.
  - destruct host as [e|]; [|case_match; [|done]]; injection Hstep as <- <- <-; [|done]. cbn. congruence.
  - case_match; simplify_eq. cbn in *. congruence.
  - case_match; simplify_eq. done.
Qed.

Lemma reachable_live s :
  rw_reachable false s -> rw_live s /\ forall t p, rs_threads s !! t = Some p -> uncancelled p.
Proof.
  induction 1 as [st Hf Hq|s s' Hr [Hl Hu] Hstep]; [split; [|done]; intros (u & k & Hk & _); done|].
  pose proof (reachable_inv _ _ Hr) as Hs.
  destruct Hstep as [s t k a Ht Hsz Ha|s t k Ht|s t pc host n lk st Ht Hh Hrun].
  - split.
    + intros (u & k' & Hu' & Hw). cbn in *. right. exists t, (attempt_of k a). cbn. rewrite lookup_insert_eq. by destruct k; auto.
    + cbn. intros u p [[<- <-]|[_ Hp]]%lookup_insert_Some; [by destruct k|eauto].
  - split.
    + intros _. right. exists t, (UnlockLoad k). cbn. rewrite lookup_insert_eq. auto.
    + cbn. intros u p [[<- <-]|[_ Hp]]%lookup_insert_Some; [done|eauto].
  - assert (Hn : next_uncancelled n).
    { eapply access_uncancelled; eauto. intros ->. by specialize (Hh eq_refl). }
    destruct (access_runs s t pc host _ _ _ Hs Ht Hrun) as (n' & [= <-] & _ & Hlive). split.
    + apply Hlive; [done|]. intros ->. done.
    + intros u p. cbn. rewrite go_on_lookup. case_decide; [|by apply Hu]. destruct n; [|done]. by intros [= <-].
Qed.

(** C13: the readers-writer lock excludes. In every state that any number of threads reach with
    [read], [write], [try_read], [try_write] and unlocking, interleaved at every atomic
    access and with any errors of the host, a thread that holds the lock for writing
    is the only one that holds it, the status counts the readers, and
    no access panics. *)
Theorem rw_lock_exclusive (cancel : bool) (s : RwSys) :
  rw_reachable cancel s ->
  (forall t u k, rs_threads s !! t = Some (Holding Write) -> rs_threads s !! u = Some (Holding k) -> u = t)
  /\ (forall t, rs_threads s !! t = Some (Holding Read) -> num (rw_status (rs_lock s)) = readers s)
  /\ (forall t p host r lk st, rs_threads s !! t = Some p -> thread_step t p host s = Some (r, lk, st) ->
        exists n, r = Ok n).
Proof.
  intros Hr. pose proof (reachable_inv _ _ Hr) as Hs. pose proof (lo_holders _ _ _ _ (ri_lock s Hs)) as Hh. split_and!.
  - intros t u k Ht Hu. pose proof (count_in (holds Write) _ t _ Ht eq_refl).
    destruct (decide (u = t)) as [|Hne]; [done|exfalso]. destruct k.
    + pose proof (count_in (holds Read) _ u _ Hu eq_refl). lia.
    + pose proof (count_two (holds Write) _ t _ u _ Ht eq_refl Hu eq_refl ltac:(done)). lia.
  - intros t Ht. pose proof (count_in (holds Read) _ t _ Ht eq_refl). lia.
  - intros t p host r lk st Ht Hstep. destruct (access_runs s t p host r lk st Hs Ht Hstep) as (n & -> & _). by exists n.
Qed.

(** C14: no wake-up of the readers-writer lock is lost. While a thread sleeps in [read] or [write], the
    lock is held, or another thread is awake inside a call and will look at the
    lock or wake sleepers before it sleeps or returns; if no call is under way and nobody
    holds the lock, nobody sleeps. The host does not cancel waits. *)
Theorem rw_lock_no_lost_wakeup (s : RwSys) (u : Z) :
  rw_reachable false s -> asleep s u ->
  (exists t p, rs_threads s !! t = Some p /\ (holds Read p || holds Write p) = true)
  \/ (exists t p, rs_threads s !! t = Some p /\ active s t /\ thread_step t p None s <> None).
Proof.
  intros Hr Hu. pose proof (reachable_inv _ _ Hr) as Hs. destruct (reachable_live s Hr) as [Hl _].
  destruct (Hl (ex_intro _ u Hu)) as [Hn|(t & q & Ht & Hq)].
  - left. pose proof (lo_holders _ _ _ _ (ri_lock s Hs)) as Hh. pose proof (num_range (rw_status (rs_lock s))).
    assert (Hc : 0 < readers s \/ 0 < writers s) by lia.
    destruct Hc as [Hc|Hc]; apply count_witness in Hc as (t & p & Ht & Hp); exists t, p; (split; [done|]); rewrite Hp; [done|apply orb_true_r].
  - right. exists t, q. split_and!; [done|by exists q|]. destruct Hq as [Hb|[[k ->] Hw]]; [by destruct q|]. cbn. by rewrite Hw.
Qed.

End invariant.
