(* ===== verification/RwLockFutex.v ===== *)
(** The futexes of [Futex.v] are what the readers-writer lock needs, and a run of two threads. *)

From stdpp Require Import gmap.
From S2P Require Import Prelude Errno Effects External Futex RwLock.

Lemma filter_id {A} (P : A -> Prop) `{forall x, Decision (P x)} (l : list A) : (forall x, x ∈ l -> P x) -> filter P l = l.
Proof.
  induction l as [|x l IH]; intros Hl; [done|]. rewrite filter_cons_True by (apply Hl; left). f_equal. apply IH.
  intros y Hy. apply Hl. by right.
Qed.

Section instance.
Variables (NCORES : Z) (hash : Z -> Z) (addr : Z).
Abbreviation queue st := (queue_at NCORES hash st addr).

(** The item of a thread that waits at the address. A thread has one [Waiter] at a time, whose
    address is named by the thread. *)
Definition lock_item (t : Z) : FutexItem := mkFutexItem addr FUTEX_BITSET_MATCH_ANY t t.

(** The queue of the address is the lock's alone; there is room in the buckets. *)
Record lock_futex (st : FutexState) : Prop := {
  lf_placed : placed NCORES hash st;
  lf_items it : it ∈ queue st -> it = lock_item (fi_thread it);
  lf_room : Z.of_nat (length (items st)) - Z.of_nat (length (queue st)) < 2 ^ 63;
}.

Definition futex_wait_at (st : FutexState) (val expected t : Z) : Result FutexState :=
  p ← futex_wait_enqueue NCORES hash st val addr expected FUTEX_BITSET_MATCH_ANY t t; Ok p.1.
Definition futex_wake_at (st : FutexState) (n : Z) : Result FutexState :=
  p ← futex_wake NCORES hash st addr n; Ok p.1.1.
Definition futex_woken (st : FutexState) (t : Z) : bool := default false (fs_woken st !! t).
Definition queued (st : FutexState) : list Z := fi_thread <$> queue st.

Lemma lock_selected st it : lock_futex st -> it ∈ queue st -> selected addr FUTEX_BITSET_MATCH_ANY it.
Proof. intros Hst Hit. rewrite (lf_items st Hst it Hit). by split. Qed.

Lemma filter_selected st : lock_futex st -> filter (selected addr FUTEX_BITSET_MATCH_ANY) (queue st) = queue st.
Proof. intros Hst. apply filter_id. intros it. by apply lock_selected. Qed.

(** A bucket that is replaced by one with [n] items more at the address and no others. *)
Lemma replace_bucket st b b' w :
  lock_futex st -> fs_buckets st !! Z.to_nat (bucket_idx NCORES hash addr) = Some b ->
  (forall it, it ∈ b' -> it ∈ b \/ fi_key it = addr) ->
  (forall it, it ∈ filter (at_key addr) b' -> it = lock_item (fi_thread it)) ->
  Z.of_nat (length b') - Z.of_nat (length b) = Z.of_nat (length (filter (at_key addr) b')) - Z.of_nat (length (queue st)) ->
  Z.of_nat (length (filter (at_key addr) b')) < 2 ^ 63 \/ (length b' <= length b)%nat ->
  let st' := mkFutexState (<[Z.to_nat (bucket_idx NCORES hash addr) := b']> (fs_buckets st)) w in
  lock_futex st' /\ queue st' = filter (at_key addr) b'.
Proof.
  intros [Hp Hit Hroom] Hb Hin Hown Hlen Hshort st'. pose proof (lookup_lt_Some _ _ _ Hb) as Hi.
  assert (Hq : queue st' = filter (at_key addr) b') by (unfold st'; by rewrite queue_at_insert, decide_True).
  assert (Hitems : (length (items st') + length b = length (items st) + length b')%nat).
  { rewrite <- !length_app. apply Permutation_length. apply (concat_insert _ _ _ b' Hb). }
  split; [|done]. constructor.
  - apply placed_insert; [done|done| |].
    + intros it Hx. destruct (Hin it Hx) as [Hx'| ->]; [|done]. by eapply (placed_at _ _ st Hp).
    + fold st'. pose proof (placed_small _ _ st Hp). unfold u64_modulus in *. lia.
  - intros it Hx. rewrite Hq in Hx. by apply Hown.
  - rewrite Hq. lia.
Qed.

Lemma wait_at_law st val expected t :
  lock_futex st -> t ∉ queued st -> Z.of_nat (length (queued st)) < i32_max ->
  if val =? expected
  then exists st', futex_wait_at st val expected t = Ok st' /\ lock_futex st' /\ queued st' = queued st ++ [t]
         /\ (forall x, futex_woken st' x = if x =? t then false else futex_woken st x)
  else futex_wait_at st val expected t = Err EAGAIN.
Proof.
  intros Hst Ht Hshort. destruct (get_bucket_ok NCORES hash st addr (lf_placed st Hst)) as (b & Hb & Hget & Hq).
  unfold futex_wait_at, futex_wait_enqueue. rewrite Hget. cbn [mbind Result_bind].
  destruct (val =? expected); cbn [negb]; [|done].
  exists (mkFutexState (<[Z.to_nat (bucket_idx NCORES hash addr) := b ++ [lock_item t]]> (fs_buckets st)) (<[t := false]> (fs_woken st))).
  split; [done|].
  unfold queued in Hshort. rewrite length_fmap in Hshort.
  assert (Hf : filter (at_key addr) (b ++ [lock_item t]) = queue st ++ [lock_item t]).
  { rewrite list.filter_app, <- Hq. by rewrite filter_cons_True. }
  edestruct (replace_bucket st b (b ++ [lock_item t]) (<[t := false]> (fs_woken st)) Hst Hb) as [Hst' Hq'].
  - intros it [?|Hx]%elem_of_app; [by left|]. apply list_elem_of_singleton in Hx as ->. by right.
  - intros it. rewrite Hf. intros [Hx|Hx]%elem_of_app; [by apply (lf_items st Hst)|]. by apply list_elem_of_singleton in Hx as ->.
  - rewrite Hf, !length_app. cbn. lia.
  - left. rewrite Hf, length_app. cbn. lia.
  - split_and!; [exact Hst'| |].
    + unfold queued. rewrite Hq', Hf, fmap_app. done.
    + intros x. unfold futex_woken. cbn. destruct (Z.eqb_spec x t) as [->|Hne]; [by rewrite lookup_insert_eq|by rewrite lookup_insert_ne].
Qed.

Lemma wake_at_law st n :
  lock_futex st -> 0 <= n ->
  exists st', futex_wake_at st n = Ok st' /\ lock_futex st' /\ queued st' = drop (Z.to_nat n) (queued st)
    /\ (forall x, futex_woken st' x = bool_decide (x ∈ take (Z.to_nat n) (queued st)) || futex_woken st x).
Proof.
  intros Hst Hn. destruct (wake_ok NCORES hash st addr n FUTEX_BITSET_MATCH_ANY (lf_placed st Hst)) as (st' & w & ths & Hrun & Hp & Hw).
  destruct Hw as [Hfirst Hrest Hun Hoth Hflags Hitems]. rewrite (filter_selected st Hst) in Hfirst, Hrest.
  assert (Hq : queue st' = drop (Z.to_nat n) (queue st)).
  { rewrite <- Hrest. symmetry. apply filter_id. intros it Hit.
    destruct (decide (selected addr FUTEX_BITSET_MATCH_ANY it)) as [|Hns]; [done|exfalso].
    assert (Hx : it ∈ filter (fun it => ~ selected addr FUTEX_BITSET_MATCH_ANY it) (queue st')) by (by apply list_elem_of_filter).
    rewrite Hun in Hx. apply list_elem_of_filter in Hx as [_ Hx]. by apply Hns, lock_selected with st. }
  exists st'. unfold futex_wake_at, futex_wake. rewrite Hrun. split_and!; [done| | |].
  - constructor; [done| |].
    + intros it Hit. rewrite Hq in Hit. apply (lf_items st Hst). rewrite <- (take_drop (Z.to_nat n) (queue st)). set_solver.
    + apply Permutation_length in Hitems. rewrite length_app in Hitems. pose proof (lf_room st Hst).
      rewrite Hq, length_drop. subst w. rewrite length_take in Hitems. lia.
  - unfold queued. by rewrite Hq, fmap_drop.
  - intros x. unfold futex_woken, queued. rewrite Hflags, <- fmap_take, <- Hfirst.
    assert (Hsame : fi_waiter <$> w = fi_thread <$> w).
    { apply list_fmap_ext. intros i it Hi. rewrite (lf_items st Hst it); [done|]. subst w.
      apply list_elem_of_lookup_2 in Hi. rewrite <- (take_drop (Z.to_nat n) (queue st)). set_solver. }
    rewrite Hsame. case_decide; [by rewrite bool_decide_true|by rewrite bool_decide_false].
Qed.

Lemma dequeue_own b t :
  (forall it, it ∈ filter (at_key addr) b -> it = lock_item (fi_thread it)) -> NoDup (fi_thread <$> filter (at_key addr) b) ->
  let b' := (dequeue_item b (lock_item t)).2 in
  filter (at_key addr) b' = filter (fun it => fi_thread it <> t) (filter (at_key addr) b)
  /\ (forall it, it ∈ b' -> it ∈ b)
  /\ Z.of_nat (length b') - Z.of_nat (length b)
     = Z.of_nat (length (filter (at_key addr) b')) - Z.of_nat (length (filter (at_key addr) b)).
Proof.
  intros Hown Hnd. unfold dequeue_item.
  destruct (position (fun item => FutexItem_eq item (lock_item t)) b) as [i|] eqn:Hpos; cbn [snd].
  - apply position_Some in Hpos as (l1 & x & l2 & -> & <- & Hx & Hl1). rewrite vec_remove_middle.
    assert (Hxe : fi_key x = addr /\ fi_thread x = t).
    { unfold FutexItem_eq in Hx. boolprop. done. }
    destruct Hxe as [Hk <-]. rewrite list.filter_app, filter_cons_True, fmap_app, fmap_cons in Hnd by done.
    apply list.NoDup_app in Hnd as (Hn1 & Hn2 & Hn3). apply list.NoDup_cons in Hn3 as [Hn3 Hn4].
    assert (Hf : filter (at_key addr) (l1 ++ x :: l2) = filter (at_key addr) l1 ++ x :: filter (at_key addr) l2)
      by (by rewrite list.filter_app, filter_cons_True).
    assert (Hout : forall l : list FutexItem, fi_thread x ∉ fi_thread <$> filter (at_key addr) l ->
       filter (fun it => fi_thread it <> fi_thread x) (filter (at_key addr) l) = filter (at_key addr) l).
    { intros l Hl. apply filter_id. intros it Hit Heq. apply Hl. rewrite <- Heq. by apply list_elem_of_fmap_2. }
    split_and!.
    + rewrite Hf, !list.filter_app, filter_cons_False by (by intros []). rewrite !Hout; [done|done|].
      intros Hin. apply (Hn2 _ Hin). left.
    + intros it. set_solver.
    + rewrite Hf, !list.filter_app, !length_app. cbn. lia.
  - split_and!; [|done|lia]. symmetry. apply filter_id. intros it Hit Heq.
    apply list_elem_of_filter in Hit as Hit'. destruct Hit' as [_ Hin].
    apply position_None in Hpos. rewrite list.Forall_forall in Hpos. specialize (Hpos it Hin). rewrite (Hown it Hit), Heq in Hpos. unfold FutexItem_eq in Hpos. cbn in Hpos.
    rewrite !Z.eqb_refl in Hpos. done.
Qed.

Definition futex_leave_at (st : FutexState) (t : Z) : Result FutexState := wait_cleanup NCORES hash st (lock_item t).

Lemma leave_at_law st t :
  lock_futex st -> NoDup (queued st) ->
  exists st', futex_leave_at st t = Ok st' /\ lock_futex st' /\ queued st' = filter (fun x => x <> t) (queued st)
    /\ (forall x, futex_woken st' x = futex_woken st x).
Proof.
  intros Hst Hnd. destruct (get_bucket_ok NCORES hash st addr (lf_placed st Hst)) as (b & Hb & Hget & Hq).
  unfold queued in *. pose proof (lf_items st Hst) as Hown. pose proof (lf_room st Hst) as Hroom. rewrite Hq in *.
  destruct (dequeue_own b t Hown Hnd) as (Hf & Hin & Hlen).
  unfold futex_leave_at, wait_cleanup. change (fi_key (lock_item t)) with addr. rewrite Hget. cbn [mbind Result_bind].
  set (b' := (dequeue_item b (lock_item t)).2) in *.
  assert (Hle : (length (filter (at_key addr) b') <= length (filter (at_key addr) b))%nat)
    by (rewrite Hf; apply length_filter).
  edestruct (replace_bucket st b b' (fs_woken st) Hst Hb) as [Hst' Hq']; auto.
  - intros it. rewrite Hf. intros [_ ?]%list_elem_of_filter. auto.
  - by rewrite Hq.
  - right. lia.
  - exists (set_bucket st (bucket_idx NCORES hash addr) b'). split; [done|]. split_and!; [exact Hst'| |done].
    unfold set_bucket. rewrite Hq', Hf. clear.
    induction (filter (at_key addr) b) as [|x l IH]; [done|]. rewrite filter_cons, fmap_cons, filter_cons.
    case_decide; cbn; by rewrite IH.
Qed.

Lemma fail_at_law st t :
  lock_futex st ->
  lock_futex (wait_timeout_error st (lock_item t)) /\ queued (wait_timeout_error st (lock_item t)) = queued st
  /\ (forall x, futex_woken (wait_timeout_error st (lock_item t)) x = (x =? t) || futex_woken st x).
Proof.
  intros [Hp Hit Hroom]. split_and!; [|done|].
  - constructor; [|done|done]. by destruct Hp.
  - intros x. unfold futex_woken. cbn. destruct (Z.eqb_spec x t) as [->|Hne]; [by rewrite lookup_insert_eq|by rewrite lookup_insert_ne].
Qed.

#[export, refine] Instance futex_at : FutexAt := {|
  fstate := FutexState;
  fwf := lock_futex;
  waiting := queued;
  woken := futex_woken;
  wait_at := futex_wait_at;
  wake_at := futex_wake_at;
  fail_at st t := wait_timeout_error st (lock_item t);
  leave_at := futex_leave_at;
|}.
Proof. exact wait_at_law. exact wake_at_law. exact fail_at_law. exact leave_at_law. Defined.

End instance.

(** * A run *)

Section run.
Context {FA : FutexAt}.

(** At most [n] accesses of one thread, without errors of the host. *)
Fixpoint run_thread (n : nat) (t : Z) (s : RwSys) : RwSys :=
  match n with
  | O => s
  | S n =>
      match rs_threads s !! t with
      | Some pc =>
          match thread_step t pc None s with
          | Some (Ok next, lk, st) => run_thread n t (mkRwSys lk st (go_on t next (rs_threads s)))
          | _ => s
          end
      | None => s
      end
  end.

Lemma run_reachable cancel n t : forall s, rw_reachable cancel s -> rw_reachable cancel (run_thread n t s).
Proof.
  induction n as [|n IH]; intros s Hs; [done|]. cbn. destruct (rs_threads s !! t) as [pc|] eqn:Ht; [|done].
  destruct (thread_step t pc None s) as [[[[next| |] lk] st]|] eqn:Hstep; try done.
  apply IH. eapply rw_steps; [exact Hs|]. eapply rw_access; [exact Ht| |exact Hstep]. discriminate.
Qed.

Definition call (t : Z) (k : Kind) (s : RwSys) : RwSys :=
  mkRwSys (rs_lock s) (rs_futex s) (<[t := attempt_of k First]> (rs_threads s)).

Lemma call_reachable cancel t k s :
  rw_reachable cancel s -> rs_threads s !! t = None -> Z.of_nat (size (rs_threads s)) < i32_max - 1 ->
  rw_reachable cancel (call t k s).
Proof. intros Hs Ht Hsz. eapply rw_steps; [exact Hs|]. by apply (rw_call cancel s t k First). Qed.

End run.

Section example.
#[local] Instance example_futex : FutexAt := futex_at 1 ex_hash 4096.

(** Thread 1 takes the lock for writing; thread 2 wants to read, spins and falls asleep. *)
Definition rw_held : RwSys := run_thread 5 1 (call 1 Write (rw_init (futex_init 1))).
Definition rw_blocked : RwSys := run_thread 3000 2 (call 2 Read rw_held).

Lemma rw_blocked_reachable : rw_reachable false rw_blocked.
Proof.
  apply run_reachable, call_reachable; [|vm_compute; reflexivity|vm_compute; reflexivity].
  apply run_reachable, call_reachable; [|vm_compute; reflexivity|vm_compute; reflexivity].
  apply rw_start; [|reflexivity]. constructor.
  - apply (placed_init 1 ex_hash).
  - intros it Hit. destruct (not_elem_of_nil _ Hit).
  - reflexivity.
Qed.

Lemma rw_lock_exclusive_witness :
  rs_threads rw_blocked !! 1 = Some (Holding Write)
  /\ forall u k, rs_threads rw_blocked !! u = Some (Holding k) -> u = 1.
Proof.
  split; [vm_compute; reflexivity|]. intros u k Hu.
  destruct (rw_lock_exclusive false rw_blocked rw_blocked_reachable) as (H & _ & _).
  exact (H 1 u k ltac:(vm_compute; reflexivity) Hu).
Defined.

Lemma rw_lock_no_lost_wakeup_witness :
  (exists t p, rs_threads rw_blocked !! t = Some p /\ (holds Read p || holds Write p) = true)
  \/ (exists t p, rs_threads rw_blocked !! t = Some p /\ active rw_blocked t /\ thread_step t p None rw_blocked <> None).
Proof.
  apply (rw_lock_no_lost_wakeup rw_blocked 2 rw_blocked_reachable). exists Read. split; vm_compute; reflexivity.
Defined.

End example.
