(* ===== verification/Events.v ===== *)
(** Waking threads and notifying observers: [src/libos/src/events], the waiter queue and the
    notifier.

    A waiter is named by a number that no other waiter has; its flag [is_woken] is a member of a
    set. A thread sleeps on the host until the flag of its waiter is set. *)

From stdpp Require Import gmap.
From S2P Require Import Prelude Errno.

(** * [WaiterQueue] *)

(** The wakers in their order, and the waiters whose flag is set. Their number is kept beside the
    wakers, under the same lock. *)
Definition reset_and_enqueue (waiter : Z) (q : list Z * gset Z) : list Z * gset Z :=
  (q.1 ++ [waiter], q.2 ∖ {[waiter]}).

Definition dequeue_and_wake_nr (max_count : Z) (q : list Z * gset Z) : Z * (list Z * gset Z) :=
  match q.1 with
  | [] => (0, q)
  | _ =>
      let max_count := Z.min max_count (Z.of_nat (length q.1)) in
      let to_wake := take (Z.to_nat max_count) q.1 in
      (Z.of_nat (length to_wake), (drop (Z.to_nat max_count) q.1, q.2 ∪ list_to_set to_wake))
  end.

Definition dequeue_and_wake_one (q : list Z * gset Z) : Z * (list Z * gset Z) := dequeue_and_wake_nr 1 q.

Definition dequeue_and_wake_all (q : list Z * gset Z) : list Z * gset Z :=
  (dequeue_and_wake_nr (u64_modulus - 1) q).2.

Lemma wake_all_spec q :
  Z.of_nat (length q.1) < u64_modulus -> dequeue_and_wake_all q = ([], q.2 ∪ list_to_set q.1).
Proof.
  intros Hq. unfold dequeue_and_wake_all, dequeue_and_wake_nr. destruct q as [[|w l] woken]; cbn [fst snd] in *.
  - cbn. f_equal. set_solver.
  - rewrite Z.min_r by lia. rewrite Nat2Z.id, firstn_all, drop_all. done.
Qed.

(** * [Notifier] *)

Section notifier.
Context {Ev Filter : Type}.
(** [EventFilter::filter]. *)
Variable accepts : Filter -> Ev -> bool.

Record Subscriber := mkSubscriber {
  sub_observer : Z;
  sub_filter : option Filter;
}.

Definition register (observer : Z) (filter : option Filter) (subscribers : list Subscriber) : list Subscriber :=
  subscribers ++ [mkSubscriber observer filter].

Definition unregister (observer : Z) (subscribers : list Subscriber) : list Subscriber :=
  filter (fun s => sub_observer s <> observer) subscribers.

(** The observers whose [on_event] is called, in order; [alive] says whether the weak reference of
    an observer can be upgraded. *)
Fixpoint broadcast (alive : Z -> bool) (event : Ev) (subscribers : list Subscriber) : list Z :=
  match subscribers with
  | [] => []
  | s :: rest =>
      if match sub_filter s with Some f => negb (accepts f event) | None => false end
      then broadcast alive event rest
      else if negb (alive (sub_observer s)) then []
      else sub_observer s :: broadcast alive event rest
  end.

Definition interested (event : Ev) (s : Subscriber) : Prop :=
  match sub_filter s with Some f => accepts f event = true | None => True end.

#[local] Instance interested_dec event s : Decision (interested event s).
Proof. unfold interested. destruct (sub_filter s); apply _. Defined.

Lemma skip_test event s :
  match sub_filter s with Some f => negb (accepts f event) | None => false end
  = if decide (interested event s) then false else true.
Proof.
  case_decide as Hi; unfold interested in Hi; destruct (sub_filter s) as [f|]; [by rewrite Hi|done|by destruct (accepts f event)|done].
Qed.

(** While all interested observers are alive, each of them is notified once per registration. *)
Lemma broadcast_all alive event l :
  (forall s, s ∈ l -> interested event s -> alive (sub_observer s) = true) ->
  broadcast alive event l = sub_observer <$> filter (interested event) l.
Proof.
  induction l as [|s l IH]; intros Hl; [done|]. cbn [broadcast]. rewrite filter_cons.
  specialize (IH (fun x Hx => Hl x (list_elem_of_further _ _ _ Hx))).
  pose proof (Hl s (list_elem_of_here _ _)) as Hs. rewrite skip_test.
  destruct (decide (interested event s)) as [Hi|Hi]; cbn [negb]; [|done]. rewrite Hs by done. cbn. by rewrite IH.
Qed.

(** An interested observer that was freed without being unregistered hides all that
    registered after it. *)
Lemma broadcast_stops alive event l1 s l2 :
  interested event s -> alive (sub_observer s) = false ->
  broadcast alive event (l1 ++ s :: l2) = broadcast alive event (l1 ++ [s]).
Proof.
  intros Hs Ha. induction l1 as [|x l1 IH]; cbn.
  - by rewrite skip_test, decide_True, Ha.
  - by rewrite IH.
Qed.

End notifier.
