(* ===== verification/Channel.v ===== *)
(** Channels: [src/libos/src/fs/channel.rs], the one-way byte streams behind pipes and Unix sockets.

    Any number of threads push and pop on the two end points of a channel, change its flags and shut
    it down. A step is one access to what they share: taking or releasing the lock of an end point,
    the transfer of one slice to or from the ring buffer, a flag, a queue of waiters. The two
    end points have locks of their own, so pops come between the slices of a push. *)

From stdpp Require Import gmap.
From S2P Require Import Prelude Errno Events.

(** The [ringbuf] crate: what fits is put in at the end, what is there is taken from the front. *)
Class RingBuffers := {
  ring : Type;
  ring_new : nat -> ring;
  ring_items : ring -> list Z;
  ring_capacity : ring -> nat;
  ring_push_slice : ring -> list Z -> nat * ring;
  ring_pop_slice : ring -> nat -> list Z * ring;
  ring_new_law n : ring_items (ring_new n) = [] /\ ring_capacity (ring_new n) = n;
  ring_bound_law r : (length (ring_items r) <= ring_capacity r)%nat;
  ring_push_law r l :
    let n := Nat.min (length l) (ring_capacity r - length (ring_items r)) in
    (ring_push_slice r l).1 = n /\ ring_items (ring_push_slice r l).2 = ring_items r ++ take n l
    /\ ring_capacity (ring_push_slice r l).2 = ring_capacity r;
  ring_pop_law r n :
    (ring_pop_slice r n).1 = take n (ring_items r) /\ ring_items (ring_pop_slice r n).2 = drop n (ring_items r)
    /\ ring_capacity (ring_pop_slice r n).2 = ring_capacity r;
}.

(** * State *)

Record EndPoint := mkEndPoint {
  ep_shutdown : bool;
  ep_nonblocking : bool;
  ep_waiters : list Z;
  ep_lock : option Z;
}.

Definition EndPoint_new : EndPoint := mkEndPoint false false [] None.

Inductive Side := Producer | Consumer.
#[export] Instance Side_eq_dec : EqDecision Side.
Proof. solve_decision. Defined.

Definition peer (d : Side) : Side := match d with Producer => Consumer | Consumer => Producer end.

(** What a thread wants: the slices to push, or the sizes of the slices to fill. *)
Inductive Job := Push (item_slices : list (list Z)) | Pop (lens : list nat).

Definition job_side (j : Job) : Side := match j with Push _ => Producer | Pop _ => Consumer end.

(** The next access of a thread; [waiter] is there from the second attempt on. A transfer goes through
    the slices: [i] is the next one, [moved] what was put in or taken out before. *)
Inductive Pc :=
| Lock (j : Job) (waiter : option Z)
| PeerCheck (j : Job) (waiter : option Z)
| Transfer (j : Job) (waiter : option Z) (i : nat) (moved : list Z)
| Unlock (j : Job) (moved : list Z)
| EofCheck (j : Job) (waiter : option Z)
| NonblockCheck (j : Job) (waiter : option Z)
| Enqueue (j : Job) (waiter : Z)
| Wait (j : Job) (waiter : Z)
| Notify (d : Side) (ret : Result (list Z))
| ShutSet (d : Side)
| ShutNotify (d : Side)
| ShutWake (d : Side)
| NonblockSet (d : Side) (nonblocking : bool)
| NonblockWake (d : Side).

(** A thread goes on, or its call returns: a pop with the items it got, a push with as many zeros as
    it put in. *)
Inductive Next := Go (pc : Pc) | Done (ret : Result (list Z)).

Section channel.
Context {RB : RingBuffers}.

(** The end points, the ring buffer, the waiters whose flag is set, and the number of the next
    waiter. [sent] and [received] are what went into the ring buffer and came out. *)
Record Channel := mkChannel {
  ch_producer : EndPoint;
  ch_consumer : EndPoint;
  ch_ring : ring;
  ch_woken : gset Z;
  ch_next_waiter : Z;
  ch_sent : list Z;
  ch_received : list Z;
}.

Definition Channel_new (capacity : nat) : Channel :=
  mkChannel EndPoint_new EndPoint_new (ring_new capacity) ∅ 0 [] [].

Definition end_point (d : Side) (c : Channel) : EndPoint :=
  match d with Producer => ch_producer c | Consumer => ch_consumer c end.

Definition set_end_point (d : Side) (e : EndPoint) (c : Channel) : Channel :=
  match d with
  | Producer => mkChannel e (ch_consumer c) (ch_ring c) (ch_woken c) (ch_next_waiter c) (ch_sent c) (ch_received c)
  | Consumer => mkChannel (ch_producer c) e (ch_ring c) (ch_woken c) (ch_next_waiter c) (ch_sent c) (ch_received c)
  end.

Abbreviation is_shutdown d c := (ep_shutdown (end_point d c)).
Abbreviation is_nonblocking d c := (ep_nonblocking (end_point d c)).
Abbreviation waiter_queue d c := (ep_waiters (end_point d c)).
Abbreviation held d c := (ep_lock (end_point d c)).

Definition set_lock (d : Side) (l : option Z) (c : Channel) : Channel :=
  let e := end_point d c in set_end_point d (mkEndPoint (ep_shutdown e) (ep_nonblocking e) (ep_waiters e) l) c.
Definition set_shutdown (d : Side) (c : Channel) : Channel :=
  let e := end_point d c in set_end_point d (mkEndPoint true (ep_nonblocking e) (ep_waiters e) (ep_lock e)) c.
Definition set_nonblocking (d : Side) (b : bool) (c : Channel) : Channel :=
  let e := end_point d c in set_end_point d (mkEndPoint (ep_shutdown e) b (ep_waiters e) (ep_lock e)) c.
Definition set_queue (d : Side) (q : list Z * gset Z) (c : Channel) : Channel :=
  let e := end_point d c in
  let c := set_end_point d (mkEndPoint (ep_shutdown e) (ep_nonblocking e) q.1 (ep_lock e)) c in
  mkChannel (ch_producer c) (ch_consumer c) (ch_ring c) q.2 (ch_next_waiter c) (ch_sent c) (ch_received c).
Definition set_ring (r : ring) (sent received : list Z) (c : Channel) : Channel :=
  mkChannel (ch_producer c) (ch_consumer c) r (ch_woken c) (ch_next_waiter c) (ch_sent c ++ sent) (ch_received c ++ received).

(** The observer of an end point, which its notifier calls on every event. *)
Definition wake_waiters (d : Side) (c : Channel) : Channel :=
  set_queue d (dequeue_and_wake_all (waiter_queue d c, ch_woken c)) c.

(** * Calls *)

(** [push_slices] and [pop_slices]: nothing is done for no items. *)
Definition start_job (j : Job) : Next :=
  let len := match j with Push l => length (concat l) | Pop l => list_sum l end in
  if (len =? 0)%nat then Done (Ok []) else Go (Lock j None).

(** Back to the caller without the lock. *)
Definition leave (d : Side) (n : Next) (c : Channel) : Next * Channel := (n, set_lock d None c).

(** After the loop over the slices: [total_count] is the length of [moved]. *)
Definition transferred (j : Job) (waiter : option Z) (moved : list Z) : Next :=
  if (0 <? length moved)%nat then Go (Unlock j moved)
  else Go (match j with Push _ => NonblockCheck j waiter | Pop _ => EofCheck j waiter end).

(** One round of the loop: it stops at the first slice that does not fit or is not filled. *)
Definition transfer (j : Job) (waiter : option Z) (i : nat) (moved : list Z) (c : Channel) : Next * Channel :=
  match j with
  | Push l =>
      match l !! i with
      | Some items =>
          let (count, r) := ring_push_slice (ch_ring c) items in
          let c := set_ring r (take count items) [] c in
          let moved := moved ++ take count items in
          ((if (count <? length items)%nat then transferred j waiter moved
            else Go (Transfer j waiter (S i) moved)), c)
      | None => (transferred j waiter moved, c)
      end
  | Pop l =>
      match l !! i with
      | Some len =>
          let (items, r) := ring_pop_slice (ch_ring c) len in
          let c := set_ring r [] items c in
          let moved := moved ++ items in
          ((if (length items <? len)%nat then transferred j waiter moved
            else Go (Transfer j waiter (S i) moved)), c)
      | None => (transferred j waiter moved, c)
      end
  end.

(** The answer of a call that moved something. *)
Definition answer (j : Job) (moved : list Z) : Result (list Z) :=
  Ok match j with Push _ => replicate (length moved) 0 | Pop _ => moved end.

(** The next access of thread [t]; [host] is an error of the host while it sleeps. *)
Definition thread_step (t : Z) (pc : Pc) (host : option Errno) (c : Channel) : option (Next * Channel) :=
  match pc with
  | Lock j w =>
      let d := job_side j in
      match held d c with
      | Some _ => None
      | None =>
          if is_shutdown d c then Some (Done (Err EPIPE), c)
          else
            let c := set_lock d (Some t) c in
            Some (Go (match j with Push _ => PeerCheck j w | Pop _ => Transfer j w 0 [] end), c)
      end
  | PeerCheck j w =>
      if is_shutdown (peer (job_side j)) c then Some (leave (job_side j) (Done (Err EPIPE)) c)
      else Some (Go (Transfer j w 0 []), c)
  | Transfer j w i moved => Some (transfer j w i moved c)
  | Unlock j moved => Some (leave (job_side j) (Go (Notify (peer (job_side j)) (answer j moved))) c)
  | EofCheck j w =>
      if is_shutdown (peer (job_side j)) c then Some (leave (job_side j) (Done (Ok [])) c)
      else Some (Go (NonblockCheck j w), c)
  | NonblockCheck j w =>
      let d := job_side j in
      if is_nonblocking d c then Some (leave d (Done (Err EAGAIN)) c)
      else
        match w with
        | Some w => Some (leave d (Go (Wait j w)) c)
        | None =>
            let w := ch_next_waiter c in
            let c := mkChannel (ch_producer c) (ch_consumer c) (ch_ring c) (ch_woken c) (w + 1) (ch_sent c) (ch_received c) in
            Some (leave d (Go (Enqueue j w)) c)
        end
  | Enqueue j w =>
      let d := job_side j in
      Some (Go (Lock j (Some w)), set_queue d (reset_and_enqueue w (waiter_queue d c, ch_woken c)) c)
  | Wait j w =>
      match host with
      | Some e => Some (Done (Err e), c)
      | None => if decide (w ∈ ch_woken c) then Some (Go (Enqueue j w), c) else None
      end
  | Notify d ret => Some (Done ret, wake_waiters d c)
  | ShutSet d =>
      match held d c with
      | Some _ => None
      | None => if is_shutdown d c then Some (Done (Ok []), c) else Some (Go (ShutNotify d), set_shutdown d c)
      end
  | ShutNotify d => Some (Go (ShutWake d), wake_waiters (peer d) c)
  | ShutWake d => Some (Done (Ok []), wake_waiters d c)
  | NonblockSet d b => Some (if b then Go (NonblockWake d) else Done (Ok []), set_nonblocking d b c)
  | NonblockWake d => Some (Done (Ok []), wake_waiters d c)
  end.

(** [poll] of the two end points: the event for which it waits, and the end of the other side. *)
Definition poll (d : Side) (c : Channel) : bool * bool :=
  let items := length (ring_items (ch_ring c)) in
  let ready := match d with Producer => (items <? ring_capacity (ch_ring c))%nat | Consumer => negb (items =? 0)%nat end in
  (ready || is_shutdown d c, is_shutdown (peer d) c).

(** * Threads *)

Record ChannelSys := mkChannelSys { cs_channel : Channel; cs_threads : gmap Z Pc }.

Definition go_on (t : Z) (n : Next) (threads : gmap Z Pc) : gmap Z Pc :=
  match n with Go pc => <[t := pc]> threads | Done _ => delete t threads end.

(** The calls a thread can make. *)
Definition is_call (n : Next) : Prop :=
  (exists j, n = start_job j) \/ (exists d, n = Go (ShutSet d)) \/ (exists d b, n = Go (NonblockSet d b)).

(** A queue has fewer than [2^64] elements. *)
Definition queues_fit (c : Channel) : Prop := forall d, Z.of_nat (length (waiter_queue d c)) < u64_modulus.

Inductive channel_step : ChannelSys -> ChannelSys -> Prop :=
| ch_call s t n :
    cs_threads s !! t = None -> is_call n -> channel_step s (mkChannelSys (cs_channel s) (go_on t n (cs_threads s)))
| ch_access s t pc host n c :
    cs_threads s !! t = Some pc -> queues_fit (cs_channel s) -> thread_step t pc host (cs_channel s) = Some (n, c) ->
    channel_step s (mkChannelSys c (go_on t n (cs_threads s))).

Inductive channel_reachable (capacity : nat) : ChannelSys -> Prop :=
| ch_start : channel_reachable capacity (mkChannelSys (Channel_new capacity) ∅)
| ch_steps s s' : channel_reachable capacity s -> channel_step s s' -> channel_reachable capacity s'.

(** * The ring buffer *)

Abbreviation items c := (ring_items (ch_ring c)).
Abbreviation capacity c := (ring_capacity (ch_ring c)).

(** Pushing a slice: what goes in is its first part, all of it or until the buffer is full. *)
Lemma push_slice_cases r l :
  let (count, r') := ring_push_slice r l in
  ring_items r' = ring_items r ++ take count l /\ ring_capacity r' = ring_capacity r
  /\ (count <= length l)%nat /\ ((count < length l)%nat -> length (ring_items r') = ring_capacity r)
  /\ (length (ring_items r) = ring_capacity r -> count = 0%nat).
Proof.
  pose proof (ring_push_law r l) as (Hn & Hi & Hc). pose proof (ring_bound_law r) as Hb.
  destruct (ring_push_slice r l) as [count r']. cbn [fst snd] in *. split_and!; [|done|lia| |lia].
  - by rewrite Hi, Hn.
  - intros Hlt. rewrite Hi, length_app, length_take. lia.
Qed.

(** Filling a slice: what comes out is the first part of what is there. *)
Lemma pop_slice_cases r n :
  let (got, r') := ring_pop_slice r n in
  ring_items r = got ++ ring_items r' /\ ring_capacity r' = ring_capacity r
  /\ (length got <= n)%nat /\ ((length got < n)%nat -> ring_items r' = []).
Proof.
  pose proof (ring_pop_law r n) as (Hg & Hi & Hc). destruct (ring_pop_slice r n) as [got r']. cbn [fst snd] in *.
  rewrite Hg, Hi, length_take. split_and!; [by rewrite take_drop|done|lia|]. intros Hlt. apply drop_ge. lia.
Qed.

Lemma concat_take_S {A} (l : list (list A)) i x : l !! i = Some x -> concat (take (S i) l) = concat (take i l) ++ x.
Proof. intros Hi. rewrite (take_S_r _ _ x) by done. rewrite concat_app. cbn. by rewrite app_nil_r. Qed.

Lemma suffix_both {A} (l1 l2 k : list A) : l1 `suffix_of` l2 -> l1 ++ k `suffix_of` l2 ++ k.
Proof. intros [p ->]. exists p. by rewrite app_assoc. Qed.

Lemma concat_take_prefix {A} (l : list (list A)) i : concat (take i l) `prefix_of` concat l.
Proof. rewrite <- (take_drop i l) at 2. rewrite concat_app. by apply prefix_app_r. Qed.

Lemma sum_take_S l i x : l !! i = Some x -> list_sum (take (S i) l) = (list_sum (take i l) + x)%nat.
Proof. intros Hi. rewrite (take_S_r _ _ x) by done. rewrite list_sum_app. cbn. lia. Qed.

(** * The invariant *)

Definition job_len (j : Job) : nat := match j with Push l => length (concat l) | Pop l => list_sum l end.

Definition pc_job (pc : Pc) : option Job :=
  match pc with
  | Lock j _ | PeerCheck j _ | Transfer j _ _ _ | Unlock j _ | EofCheck j _ | NonblockCheck j _ | Enqueue j _
  | Wait j _ => Some j
  | _ => None
  end.

(** The waiter of a thread, and the one it has put into a queue since it last slept. *)
Definition pc_waiter (pc : Pc) : option Z :=
  match pc with
  | Lock _ w | PeerCheck _ w | Transfer _ w _ _ | EofCheck _ w | NonblockCheck _ w => w
  | Enqueue _ w | Wait _ w => Some w
  | _ => None
  end.
Definition armed (pc : Pc) : option (Job * Z) :=
  match pc with
  | Lock j (Some w) | PeerCheck j (Some w) | Transfer j (Some w) _ _ | EofCheck j (Some w) | NonblockCheck j (Some w)
  | Wait j w => Some (j, w)
  | _ => None
  end.

Definition locked (pc : Pc) : option Side :=
  match pc with
  | PeerCheck j _ | Transfer j _ _ _ | Unlock j _ | EofCheck j _ | NonblockCheck j _ => Some (job_side j)
  | _ => None
  end.

(** A push finds the ring buffer full, a pop finds it empty. *)
Definition blocked (j : Job) (c : Channel) : Prop :=
  match j with Push _ => length (items c) = capacity c | Pop _ => items c = [] end.

(** What a thread has seen since it entered the queue. *)
Definition known (pc : Pc) (c : Channel) : Prop :=
  match pc with
  | Transfer (Push _) _ _ _ => is_shutdown Consumer c = false
  | EofCheck j _ => blocked j c
  | NonblockCheck j _ => blocked j c /\ is_shutdown (peer (job_side j)) c = false
  | Wait j _ =>
      blocked j c /\ is_shutdown (peer (job_side j)) c = false
      /\ is_shutdown (job_side j) c = false /\ is_nonblocking (job_side j) c = false
  | _ => True
  end.

(** The thread is about to wake all that wait at an end point: nothing but the rest of its transfer
    and the release of its lock can come before. *)
Definition wakes (d : Side) (pc : Pc) : bool :=
  match pc with
  | Transfer j _ _ moved => (0 <? length moved)%nat && bool_decide (peer (job_side j) = d)
  | Unlock j _ => bool_decide (peer (job_side j) = d)
  | Notify d' _ | ShutWake d' | NonblockWake d' => bool_decide (d' = d)
  | ShutNotify _ => true
  | _ => false
  end.
Definition next_wakes (d : Side) (n : Next) : bool := match n with Go pc => wakes d pc | Done _ => false end.
Definition wake_pending (d : Side) (threads : gmap Z Pc) : Prop :=
  exists t pc, threads !! t = Some pc /\ wakes d pc = true.

(** What a thread has moved since it took the lock: the last bytes that went in are the first of its slices,
    or the last that came out are in its slices. *)
Definition moved_ok (pc : Pc) (c : Channel) : Prop :=
  match pc with
  | Transfer (Push l) _ i moved => moved = concat (take i l) /\ moved `suffix_of` ch_sent c
  | Transfer (Pop l) _ i moved => length moved = list_sum (take i l) /\ moved `suffix_of` ch_received c
  | Unlock (Push l) moved => moved `prefix_of` concat l /\ moved `suffix_of` ch_sent c
  | Unlock (Pop l) moved => (length moved <= list_sum l)%nat /\ moved `suffix_of` ch_received c
  | _ => True
  end.

Record channel_inv (cap : nat) (s : ChannelSys) : Prop := {
  ci_sent : ch_sent (cs_channel s) = ch_received (cs_channel s) ++ items (cs_channel s);
  ci_capacity : capacity (cs_channel s) = cap;
  ci_jobs t pc j : cs_threads s !! t = Some pc -> pc_job pc = Some j -> job_len j <> 0%nat;
  ci_locked t pc d : cs_threads s !! t = Some pc -> locked pc = Some d ->
    held d (cs_channel s) = Some t /\ is_shutdown d (cs_channel s) = false;
  ci_waiters t pc w : cs_threads s !! t = Some pc -> pc_waiter pc = Some w -> w < ch_next_waiter (cs_channel s);
  ci_unique t pc u pc' w : cs_threads s !! t = Some pc -> cs_threads s !! u = Some pc' ->
    pc_waiter pc = Some w -> pc_waiter pc' = Some w -> t = u;
  ci_armed t pc j w : cs_threads s !! t = Some pc -> armed pc = Some (j, w) ->
    w ∈ ch_woken (cs_channel s)
    \/ (w ∈ waiter_queue (job_side j) (cs_channel s)
        /\ (known pc (cs_channel s) \/ wake_pending (job_side j) (cs_threads s)));
  ci_moved t pc : cs_threads s !! t = Some pc -> moved_ok pc (cs_channel s);
}.

Lemma armed_waiter pc j w : armed pc = Some (j, w) -> pc_waiter pc = Some w /\ pc_job pc = Some j.
Proof. destruct pc as [? []|? []|? []| |? []|? []|?|?|?|?|?|?|?|?]; cbn; intros [= <- <-]; done. Qed.

Lemma channel_go_on_lookup t n (m : gmap Z Pc) u :
  go_on t n m !! u = if decide (u = t) then match n with Go q => Some q | Done _ => None end else m !! u.
Proof.
  destruct n; cbn; case_decide as Hu; subst;
    rewrite ?lookup_insert_eq, ?lookup_delete_eq, ?lookup_insert_ne, ?lookup_delete_ne by done; done.
Qed.

(** What threads look at. *)
Definition view (c : Channel) : list Z * nat * (bool * bool) * (bool * bool) :=
  (items c, capacity c, (is_shutdown Producer c, is_shutdown Consumer c),
   (is_nonblocking Producer c, is_nonblocking Consumer c)).

Lemma view_eq c c' :
  view c = view c' -> items c = items c' /\ capacity c = capacity c'
  /\ (forall d, is_shutdown d c = is_shutdown d c') /\ (forall d, is_nonblocking d c = is_nonblocking d c').
Proof. intros [= Hi Hc Hp Hs Hn Hm]. split_and!; [done|done|by intros []..]. Qed.

Lemma known_view pc c c' : view c = view c' -> known pc c -> known pc c'.
Proof.
  intros (Hi & Hc & Hs & Hn)%view_eq.
  assert (Hb : forall j, blocked j c -> blocked j c') by (intros []; cbn; congruence).
  destruct pc as [| |[]| | | | | | | | | | |]; cbn -[end_point]; rewrite ?Hs, ?Hn; naive_solver.
Qed.

(** The effect of an access of thread [t] on the others. *)
Record effect (s : ChannelSys) (t : Z) (pc : Pc) (n : Next) (c : Channel) : Prop := {
  ef_woken w : w ∈ ch_woken (cs_channel s) -> pc_waiter pc <> Some w -> w ∈ ch_woken c;
  ef_queue d w : w ∈ waiter_queue d (cs_channel s) -> pc_waiter pc <> Some w ->
    w ∈ waiter_queue d c \/ w ∈ ch_woken c;
  ef_wakes d : wakes d pc = true ->
    next_wakes d n = true \/ forall w, w ∈ waiter_queue d (cs_channel s) -> w ∈ ch_woken c;
  ef_known pc' j : pc_job pc' = Some j -> known pc' (cs_channel s) ->
    next_wakes (job_side j) n = true \/ known pc' c;
  ef_lock d u : u <> t -> held d (cs_channel s) = Some u -> is_shutdown d (cs_channel s) = false ->
    held d c = Some u /\ is_shutdown d c = false;
  ef_next : ch_next_waiter (cs_channel s) <= ch_next_waiter c;
  ef_sent : ch_sent c = ch_sent (cs_channel s) \/ locked pc = Some Producer;
  ef_received : ch_received c = ch_received (cs_channel s) \/ locked pc = Some Consumer;
}.

(** What holds of the thread itself afterwards. *)
Record next_ok (s : ChannelSys) (t : Z) (pc q : Pc) (c : Channel) : Prop := {
  no_job j : pc_job q = Some j -> job_len j <> 0%nat;
  no_locked d : locked q = Some d -> held d c = Some t /\ is_shutdown d c = false;
  no_waiter w : pc_waiter q = Some w ->
    w < ch_next_waiter c /\ (pc_waiter pc = Some w \/ ch_next_waiter (cs_channel s) <= w);
  no_armed j w : armed q = Some (j, w) ->
    w ∈ ch_woken c \/ (w ∈ waiter_queue (job_side j) c
      /\ (known q c \/ wake_pending (job_side j) (<[t := q]> (cs_threads s))));
  no_moved : moved_ok q c;
}.

(** A transfer starts with nothing moved. *)
Lemma moved_ok_start j w c : moved_ok (Transfer j w 0 []) c.
Proof. destruct j; cbn; auto using suffix_nil. Qed.

(** A thread that holds the other lock sees what it moved. *)
Lemma moved_ok_others pc c c' :
  (locked pc = Some Producer -> ch_sent c' = ch_sent c) -> (locked pc = Some Consumer -> ch_received c' = ch_received c) ->
  moved_ok pc c -> moved_ok pc c'.
Proof. intros Hs Hr. destruct pc as [| |[]|[]| | | | | | | | | |]; cbn in *; try done; by rewrite ?Hs, ?Hr. Qed.

Lemma pending_go_on s t pc n d :
  cs_threads s !! t = Some pc -> wake_pending d (cs_threads s) ->
  wakes d pc = true \/ wake_pending d (go_on t n (cs_threads s)).
Proof.
  intros Ht (v & pv & Hv & Hw). destruct (decide (v = t)) as [->|Hne]; [left; congruence|right].
  exists v, pv. by rewrite channel_go_on_lookup, decide_False.
Qed.

Lemma next_pending s t n d : next_wakes d n = true -> wake_pending d (go_on t n (cs_threads s)).
Proof. intros Hn. destruct n as [q|]; [|done]. exists t, q. by rewrite channel_go_on_lookup, decide_True. Qed.

Lemma effect_inv cap s t pc n c :
  channel_inv cap s -> cs_threads s !! t = Some pc -> effect s t pc n c ->
  ch_sent c = ch_received c ++ items c -> capacity c = cap ->
  (forall q, n = Go q -> next_ok s t pc q c) ->
  channel_inv cap (mkChannelSys c (go_on t n (cs_threads s))).
Proof.
  intros Hs Ht He Hsent Hcap Hn.
  assert (Hlook : forall u q, go_on t n (cs_threads s) !! u = Some q ->
    (u = t /\ n = Go q) \/ (u <> t /\ cs_threads s !! u = Some q)).
  { intros u q. rewrite channel_go_on_lookup. case_decide; [|auto]. destruct n; [|done]. intros [= ->]. auto. }
  constructor; cbn [cs_channel cs_threads]; auto.
  - intros u q j Hu Hj. destruct (Hlook u q Hu) as [[-> Hq]|[_ Hu']]; [by eapply (no_job _ _ _ _ _ (Hn q Hq))|].
    by eapply (ci_jobs cap s Hs).
  - intros u q d Hu Hd. destruct (Hlook u q Hu) as [[-> Hq]|[Hne Hu']]; [by apply (no_locked _ _ _ _ _ (Hn q Hq))|].
    destruct (ci_locked cap s Hs u q d Hu' Hd). by apply (ef_lock _ _ _ _ _ He).
  - intros u q w Hu Hw. destruct (Hlook u q Hu) as [[-> Hq]|[Hne Hu']]; [by apply (no_waiter _ _ _ _ _ (Hn q Hq))|].
    pose proof (ci_waiters cap s Hs u q w Hu' Hw). pose proof (ef_next _ _ _ _ _ He). lia.
  - intros u q v q' w Hu Hv Hw Hw'.
    assert (Hown : forall x qx, n = Go qx -> cs_threads s !! x = Some q' \/ cs_threads s !! x = Some q -> x <> t ->
      pc_waiter qx = Some w -> False).
    { intros x qx Hqx Hx Hxt Hwx. destruct (no_waiter _ _ _ _ _ (Hn qx Hqx) w Hwx) as [_ [Hpw|Hge]].
      - apply Hxt. destruct Hx; by eapply (ci_unique cap s Hs).
      - destruct Hx as [Hx|Hx]; [pose proof (ci_waiters cap s Hs x q' w Hx Hw')|pose proof (ci_waiters cap s Hs x q w Hx Hw)]; lia. }
    destruct (Hlook u q Hu) as [[-> Hq]|[Hne Hu']], (Hlook v q' Hv) as [[-> Hq']|[Hne' Hv']]; auto.
    + by destruct (Hown v q Hq (or_introl Hv') Hne' Hw).
    + by destruct (Hown u q' Hq' (or_intror Hu') Hne Hw').
    + by eapply (ci_unique cap s Hs).
  - intros u q j w Hu Ha. destruct (Hlook u q Hu) as [[-> Hq]|[Hne Hu']].
    { destruct (no_armed _ _ _ _ _ (Hn q Hq) j w Ha) as [?|[? Hk]]; [by left|right]. subst n. done. }
    destruct (armed_waiter q j w Ha) as [Hw Hj].
    assert (Hnw : pc_waiter pc <> Some w) by (intros Hpw; apply Hne; symmetry; by eapply (ci_unique cap s Hs)).
    destruct (ci_armed cap s Hs u q j w Hu' Ha) as [Hwo|[Hqu Hk]]; [left; by eapply (ef_woken _ _ _ _ _ He)|].
    destruct (ef_queue _ _ _ _ _ He _ w Hqu Hnw) as [Hqu'|?]; [|by left].
    destruct Hk as [Hk|Hp].
    + right. split; [done|]. destruct (ef_known _ _ _ _ _ He q j Hj Hk) as [Hnx|?]; [|by left]. right. by apply next_pending.
    + destruct (pending_go_on s t pc n _ Ht Hp) as [Hwk|Hp']; [|by auto].
      destruct (ef_wakes _ _ _ _ _ He _ Hwk) as [Hnx|Hall]; [|by left; apply Hall].
      right. split; [done|]. right. by apply next_pending.
  - intros u q Hu. destruct (Hlook u q Hu) as [[-> Hq]|[Hne Hu']]; [by apply (no_moved _ _ _ _ _ (Hn q Hq))|].
    assert (Hother : forall d, locked q = Some d -> locked pc <> Some d).
    { intros d Hd Hpd. destruct (ci_locked cap s Hs u q d Hu' Hd) as [H1 _], (ci_locked cap s Hs t pc d Ht Hpd) as [H2 _].
      congruence. }
    eapply moved_ok_others; [| |by apply (ci_moved cap s Hs u q Hu')]; intros Hd.
    + destruct (ef_sent _ _ _ _ _ He) as [?|Hl]; [done|]. by destruct (Hother _ Hd).
    + destruct (ef_received _ _ _ _ _ He) as [?|Hl]; [done|]. by destruct (Hother _ Hd).
Qed.

(** ** Changing the channel *)

Lemma held_set_lock d l c d' : held d' (set_lock d l c) = if decide (d' = d) then l else held d' c.
Proof. by destruct d, d'. Qed.

(** Steps that change at most the lock of an end point and the number of waiters. *)
Lemma quiet_effect s t pc n c :
  (forall d, wakes d pc = true -> next_wakes d n = true) -> ch_woken c = ch_woken (cs_channel s) ->
  (forall d, waiter_queue d c = waiter_queue d (cs_channel s)) -> view (cs_channel s) = view c ->
  (forall d u, u <> t -> held d (cs_channel s) = Some u -> held d c = Some u) ->
  ch_next_waiter (cs_channel s) <= ch_next_waiter c -> ch_sent c = ch_sent (cs_channel s) ->
  ch_received c = ch_received (cs_channel s) -> effect s t pc n c.
Proof.
  intros Hw Hwo Hq Hv Hl Hn Hse Hre. constructor; auto.
  - by rewrite Hwo.
  - intros d w. rewrite Hq. auto.
  - intros pc' j _ Hk. right. by eapply known_view.
  - intros d u Hu Hh Hs. split; [auto|]. apply view_eq in Hv as (_ & _ & Hs' & _). by rewrite <- Hs'.
Qed.

(** A wake of the waiters of [d]. *)
Lemma wake_effect s t pc n d :
  queues_fit (cs_channel s) -> pc_waiter pc = None ->
  (forall d', wakes d' pc = true -> d' = d \/ next_wakes d' n = true) ->
  effect s t pc n (wake_waiters d (cs_channel s)).
Proof.
  intros Hfit Hpc Hw. unfold wake_waiters. set (c := cs_channel s) in *.
  pose proof (wake_all_spec (waiter_queue d c, ch_woken c) (Hfit d)) as Heq. cbn [fst snd] in Heq. rewrite Heq. clear Heq.
  assert (Hv : view c = view (set_queue d ([], ch_woken c ∪ list_to_set (waiter_queue d c)) c)) by by destruct d.
  constructor; fold c.
  - intros w Hwo _. destruct d; cbn; set_solver.
  - intros d' w Hq _. destruct (decide (d' = d)) as [->|Hne]; [right; destruct d; cbn in *; set_solver|left; destruct d, d'; done].
  - intros d' Hd'. destruct (Hw d' Hd') as [->|?]; [right|by left]. intros w Hq. destruct d; cbn in *; set_solver.
  - intros pc' j _ Hk. right. by eapply known_view.
  - intros d' u _ Hh Hs. by destruct d, d'.
  - by destruct d.
  - left. by destruct d.
  - left. by destruct d.
Qed.

Lemma wake_data d c :
  ch_sent (wake_waiters d c) = ch_sent c /\ ch_received (wake_waiters d c) = ch_received c /\ ch_ring (wake_waiters d c) = ch_ring c.
Proof. by destruct d. Qed.

(** A transfer: the ring buffer stays full or empty for those who wait for the other, and
    the other side is woken if something moved. *)
Lemma ring_effect s t pc n c :
  (forall d, wakes d pc = true -> next_wakes d n = true) -> ch_woken c = ch_woken (cs_channel s) ->
  (forall d, waiter_queue d c = waiter_queue d (cs_channel s)) ->
  (forall d, is_shutdown d c = is_shutdown d (cs_channel s)) ->
  (forall d, is_nonblocking d c = is_nonblocking d (cs_channel s)) ->
  (forall d u, u <> t -> held d (cs_channel s) = Some u -> held d c = Some u) ->
  ch_next_waiter (cs_channel s) = ch_next_waiter c ->
  (forall j, blocked j (cs_channel s) -> next_wakes (job_side j) n = true \/ blocked j c) ->
  (ch_sent c = ch_sent (cs_channel s) \/ locked pc = Some Producer) ->
  (ch_received c = ch_received (cs_channel s) \/ locked pc = Some Consumer) -> effect s t pc n c.
Proof.
  intros Hw Hwo Hq Hs Hn Hl Hnw Hb Hse Hre. constructor; auto.
  - by rewrite Hwo.
  - intros d w. rewrite Hq. auto.
  - intros pc' j Hj Hk. pose proof (Hb j) as Hbj.
    destruct pc' as [| |[]| | | | | | | | | | |]; cbn -[end_point] in *; simplify_eq; rewrite ?Hs, ?Hn; naive_solver.
  - intros d u Hu Hh Hsh. split; [auto|]. by rewrite Hs.
  - lia.
Qed.

(** ** Preservation *)

Section accesses.
Variables (cap : nat) (s : ChannelSys) (t : Z).
Hypothesis (Hs : channel_inv cap s) (Hfit : queues_fit (cs_channel s)).
Abbreviation c0 := (cs_channel s).
Abbreviation goes c n := (mkChannelSys c (go_on t n (cs_threads s))).

(** What the thread knew is still so, or a wake is pending. *)
Lemma stays_armed pc q j w :
  cs_threads s !! t = Some pc -> armed pc = Some (j, w) -> wakes (job_side j) pc = false ->
  (forall c : Channel, ch_woken c = ch_woken c0 -> waiter_queue (job_side j) c = waiter_queue (job_side j) c0 ->
   (known pc c0 -> known q c) ->
   w ∈ ch_woken c \/ (w ∈ waiter_queue (job_side j) c
      /\ (known q c \/ wake_pending (job_side j) (<[t := q]> (cs_threads s))))).
Proof.
  intros Ht Ha Hw c Hwo Hq Hk. rewrite Hwo, Hq.
  destruct (ci_armed cap s Hs t pc j w Ht Ha) as [?|[? [?|Hp]]]; [auto..|]. right. split; [done|right].
  destruct (pending_go_on s t pc (Go q) _ Ht Hp) as [Hx|Hx]; [by rewrite Hw in Hx|done].
Qed.

Lemma no_wakes pc n : (forall d, wakes d pc = false) -> forall d, wakes d pc = true -> next_wakes d n = true.
Proof. intros H d Hd. by rewrite H in Hd. Qed.

(** A thread with its job, its lock and its waiter unchanged in a channel that looks the same. *)
Lemma step_quiet pc q c :
  cs_threads s !! t = Some pc -> (forall d, wakes d pc = false) -> ch_woken c = ch_woken c0 ->
  (forall d, waiter_queue d c = waiter_queue d c0) -> view c0 = view c ->
  (forall d u, u <> t -> held d c0 = Some u -> held d c = Some u) ->
  ch_next_waiter c0 = ch_next_waiter c -> ch_sent c = ch_sent c0 -> ch_received c = ch_received c0 ->
  pc_job q = pc_job pc -> pc_waiter q = pc_waiter pc -> (armed q = armed pc \/ armed q = None) ->
  (forall d, locked q = Some d -> held d c = Some t /\ is_shutdown d c0 = false) -> (known pc c0 -> known q c0) ->
  moved_ok q c -> channel_inv cap (goes c (Go q)).
Proof.
  intros Ht Hw Hwo Hq Hv Hl Hnx Hse Hre Hj Hpw Ha Hlk Hk Hmo. pose proof (view_eq _ _ Hv) as (Hi & Hc & Hsh & _).
  apply (effect_inv cap s t pc); auto.
  - apply quiet_effect; eauto using no_wakes; lia.
  - rewrite Hse, Hre, <- Hi. apply (ci_sent cap s Hs).
  - rewrite <- Hc. apply (ci_capacity cap s Hs).
  - intros q' [= <-]. constructor.
    + intros j. rewrite Hj. by eapply (ci_jobs cap s Hs).
    + intros d Hd. rewrite <- Hsh. auto.
    + intros w. rewrite Hpw. intros Hw'. split; [|by left]. rewrite <- Hnx. by eapply (ci_waiters cap s Hs).
    + intros j w Hj'. destruct Ha as [Ha|Ha]; [|congruence]. rewrite Ha in Hj'.
      eapply stays_armed; eauto. intros Hkn. eapply known_view; eauto.
    + done.
Qed.

Lemma step_done pc r c :
  cs_threads s !! t = Some pc -> (forall d, wakes d pc = false) -> ch_woken c = ch_woken c0 ->
  (forall d, waiter_queue d c = waiter_queue d c0) -> view c0 = view c ->
  (forall d u, u <> t -> held d c0 = Some u -> held d c = Some u) ->
  ch_next_waiter c0 = ch_next_waiter c -> ch_sent c = ch_sent c0 -> ch_received c = ch_received c0 ->
  channel_inv cap (goes c (Done r)).
Proof.
  intros Ht Hw Hwo Hq Hv Hl Hnx Hse Hre. pose proof (view_eq _ _ Hv) as (Hi & Hc & _ & _).
  apply (effect_inv cap s t pc); auto.
  - apply quiet_effect; eauto using no_wakes; lia.
  - rewrite Hse, Hre, <- Hi. apply (ci_sent cap s Hs).
  - rewrite <- Hc. apply (ci_capacity cap s Hs).
  - done.
Qed.

(** The lock of the thread's own end point. *)
Lemma unlock_others pc d l :
  cs_threads s !! t = Some pc -> locked pc = Some d ->
  forall d' u, u <> t -> held d' c0 = Some u -> held d' (set_lock d l c0) = Some u.
Proof.
  intros Ht Hd d' u Hu Hh. rewrite held_set_lock. case_decide as He; [subst d'|done].
  destruct (ci_locked cap s Hs t pc d Ht Hd) as [Hh' _]. congruence.
Qed.

Ltac quiet j := try done; try (by destruct j); try (by intros []; destruct j); auto.

Lemma lock_inv j w n c :
  cs_threads s !! t = Some (Lock j w) -> thread_step t (Lock j w) None c0 = Some (n, c) -> channel_inv cap (goes c n).
Proof.
  intros Ht Hstep. cbn [thread_step] in Hstep. destruct (held (job_side j) c0) as [|] eqn:Hh; [done|].
  destruct (is_shutdown (job_side j) c0) eqn:Hsh; injection Hstep as <- <-; [by apply (step_done (Lock j w))|].
  assert (Ho : forall d u, u <> t -> held d c0 = Some u -> held d (set_lock (job_side j) (Some t) c0) = Some u).
  { intros d u Hu Hd. rewrite held_set_lock. case_decide; [congruence|done]. }
  apply (step_quiet (Lock j w)); quiet j; [left; by destruct j, w|destruct j; [done|apply moved_ok_start]].
Qed.

Lemma peer_inv j w n c :
  cs_threads s !! t = Some (PeerCheck j w) -> thread_step t (PeerCheck j w) None c0 = Some (n, c) -> channel_inv cap (goes c n).
Proof.
  intros Ht Hstep. cbn [thread_step] in Hstep. pose proof (unlock_others _ (job_side j) None Ht eq_refl) as Ho.
  destruct (is_shutdown (peer (job_side j)) c0) eqn:Hsh; injection Hstep as <- <-.
  - apply (step_done (PeerCheck j w)); quiet j.
  - apply (step_quiet (PeerCheck j w)); quiet j; first [apply moved_ok_start|left; by destruct w|intros d Hd; by apply (ci_locked cap s Hs t (PeerCheck j w))].
Qed.

Lemma eof_inv j w n c :
  cs_threads s !! t = Some (EofCheck j w) -> thread_step t (EofCheck j w) None c0 = Some (n, c) -> channel_inv cap (goes c n).
Proof.
  intros Ht Hstep. cbn [thread_step] in Hstep. pose proof (unlock_others _ (job_side j) None Ht eq_refl) as Ho.
  destruct (is_shutdown (peer (job_side j)) c0) eqn:Hsh; injection Hstep as <- <-.
  - apply (step_done (EofCheck j w)); quiet j.
  - apply (step_quiet (EofCheck j w)); quiet j; first [left; by destruct w|intros d Hd; by apply (ci_locked cap s Hs t (EofCheck j w))].
Qed.

Lemma nonblock_inv j w n c :
  cs_threads s !! t = Some (NonblockCheck j w) -> thread_step t (NonblockCheck j w) None c0 = Some (n, c) ->
  channel_inv cap (goes c n).
Proof.
  intros Ht Hstep. cbn [thread_step] in Hstep. pose proof (unlock_others _ (job_side j) None Ht eq_refl) as Ho.
  destruct (ci_locked cap s Hs t _ (job_side j) Ht eq_refl) as [_ Hsh].
  destruct (is_nonblocking (job_side j) c0) eqn:Hnb; [|destruct w as [w|]]; injection Hstep as <- <-.
  - apply (step_done (NonblockCheck j w)); quiet j.
  - apply (step_quiet (NonblockCheck j (Some w))); quiet j.
  - apply (effect_inv cap s t (NonblockCheck j None)); auto.
    + apply quiet_effect; [by apply no_wakes; intros []|..]; quiet j; first [destruct j; cbn; lia|intros d u Hu Hd; rewrite <- (Ho d u Hu Hd); by destruct j, d].
    + destruct j; apply (ci_sent cap s Hs).
    + destruct j; apply (ci_capacity cap s Hs).
    + intros q [= <-]. constructor; [|done| |done|done].
      * intros j'. apply (ci_jobs cap s Hs t (NonblockCheck j None) j' Ht).
      * intros w [= <-]. destruct j; cbn; lia.
Qed.

Lemma enqueue_inv j w n c :
  cs_threads s !! t = Some (Enqueue j w) -> thread_step t (Enqueue j w) None c0 = Some (n, c) -> channel_inv cap (goes c n).
Proof.
  intros Ht [= <- <-]. unfold reset_and_enqueue. cbn [fst snd].
  set (c := set_queue _ _ _). assert (Hv : view c0 = view c) by by destruct j.
  assert (Hq : forall d, waiter_queue d c = if decide (d = job_side j) then waiter_queue d c0 ++ [w] else waiter_queue d c0)
    by by intros []; destruct j.
  apply (effect_inv cap s t (Enqueue j w)); auto.
  - constructor.
    + intros w' Hw Hne. destruct j; cbn in *; set_solver.
    + intros d w' Hw _. left. rewrite Hq. case_decide; set_solver.
    + done.
    + intros pc' j' _ Hk. right. by eapply known_view.
    + intros d u _ Hh Hsh. by destruct j, d.
    + by destruct j.
    + left. by destruct j.
    + left. by destruct j.
  - destruct j; apply (ci_sent cap s Hs).
  - destruct j; apply (ci_capacity cap s Hs).
  - intros q [= <-]. constructor; [|done| | |done].
    + intros j'. apply (ci_jobs cap s Hs t (Enqueue j w) j' Ht).
    + intros w' [= <-]. split; [|by left]. pose proof (ci_waiters cap s Hs t _ w Ht eq_refl). by destruct j.
    + intros j' w' [= <- <-]. right. split; [|by left]. rewrite Hq, decide_True by done. set_solver.
Qed.

(** A round of a transfer in which [m'] is what the thread has moved now. *)
Lemma transfer_inv j w i m m' r put got n :
  let c := set_ring r put got c0 in
  cs_threads s !! t = Some (Transfer j w i m) -> ch_sent c = ch_received c ++ items c -> ring_capacity (ch_ring c) = cap ->
  match j with Push _ => got = [] | Pop _ => put = [] end -> (m' = [] -> m = []) ->
  (forall j', blocked j' c0 -> (m' <> [] /\ job_side j' = peer (job_side j)) \/ blocked j' c) ->
  (n = Go (Transfer j w (S i) m') \/ (n = transferred j w m' /\ (m' = [] -> blocked j c))) ->
  (forall q, n = Go q -> moved_ok q c) -> channel_inv cap (goes c n).
Proof.
  intros c Ht Hse Hcap Hother Hnil Hb Hn Hmo.
  assert (Hwk : m' <> [] -> next_wakes (peer (job_side j)) n = true).
  { intros Hm. destruct m' as [|x m']; [done|]. destruct Hn as [->|[-> _]]; cbn; by destruct j. }
  apply (effect_inv cap s t (Transfer j w i m)); auto.
  - apply ring_effect; try done; try (by intros []).
    + intros d Hd. cbn in Hd. boolprop. subst d. apply Hwk. intros E. rewrite (Hnil E) in *. cbn in *. lia.
    + intros j' Hj'. destruct (Hb j' Hj') as [[Hm ->]|?]; auto.
    + destruct j; [by right|left]. cbn. by rewrite Hother, app_nil_r.
    + destruct j; [left|by right]. cbn. by rewrite Hother, app_nil_r.
  - intros q Hq. specialize (Hmo q Hq).
    assert (Hcase : q = Unlock j m' \/ (pc_job q = Some j /\ locked q = Some (job_side j) /\ pc_waiter q = w
        /\ armed q = armed (Transfer j w i m) /\ (known (Transfer j w i m) c0 -> known q c))).
    { destruct Hn as [->|[-> Hbl]]; [right; injection Hq as <-; split_and!; try done; by destruct j|].
      unfold transferred in Hq. destruct m' as [|x m']; [|left; by injection Hq].
      right. cbn in Hq. injection Hq as <-. specialize (Hbl eq_refl). by destruct j. }
    destruct Hcase as [->|(Hj & Hl & Hw & Ha & Hk)]; (constructor; [| | | |done]); try done.
    + intros j'. apply (ci_jobs cap s Hs t _ j' Ht).
    + intros d. apply (ci_locked cap s Hs t _ d Ht).
    + intros j'. rewrite Hj. apply (ci_jobs cap s Hs t _ j' Ht).
    + intros d. rewrite Hl. apply (ci_locked cap s Hs t _ d Ht).
    + intros w'. rewrite Hw. intros Hw'. split; [|by left]. by apply (ci_waiters cap s Hs t _ w' Ht).
    + intros j' w' Hj'. rewrite Ha in Hj'. assert (j' = j) as -> by (destruct w; by simplify_eq/=).
      eapply stays_armed; [exact Ht|done|destruct j; cbn; by rewrite andb_false_r|done..].
Qed.

(** The end of the loop, with all slices moved. *)
Lemma transfer_end j w i m :
  cs_threads s !! t = Some (Transfer j w i m) -> m <> [] -> moved_ok (Unlock j m) c0 ->
  channel_inv cap (goes c0 (transferred j w m)).
Proof.
  intros Ht Hm Hok. assert (Hsame : set_ring (ch_ring c0) [] [] c0 = c0).
  { unfold set_ring. rewrite !app_nil_r. by destruct (cs_channel s). }
  rewrite <- Hsame. apply (transfer_inv j w i m m); rewrite ?Hsame; auto.
  - apply (ci_sent cap s Hs).
  - apply (ci_capacity cap s Hs).
  - by destruct j.
  - right. split; [done|]. by intros ->.
  - intros q. destruct m; [done|]. by intros [= <-].
Qed.

(** A round of the loop over the slices of a push. *)
Lemma push_inv l w i m n c :
  cs_threads s !! t = Some (Transfer (Push l) w i m) -> transfer (Push l) w i m c0 = (n, c) -> channel_inv cap (goes c n).
Proof.
  intros Ht. unfold transfer. pose proof (ci_sent cap s Hs) as Hsent. pose proof (ci_capacity cap s Hs) as Hcap.
  pose proof (ci_jobs cap s Hs t _ _ Ht eq_refl) as Hj. cbn in Hj.
  destruct (ci_moved cap s Hs t _ Ht) as [Hm Hsuf].
  destruct (l !! i) as [x|] eqn:Hx.
  - pose proof (push_slice_cases (ch_ring c0) x) as Hp. destruct (ring_push_slice (ch_ring c0) x) as [k r].
    destruct Hp as (Hi & Hc & Hk & Hfull & Hz). intros [= <- <-].
    apply (transfer_inv (Push l) w i m (m ++ take k x)); auto.
    + cbn. by rewrite Hi, Hsent, app_nil_r, app_assoc.
    + cbn. congruence.
    + intros ?%app_eq_nil. naive_solver.
    + intros [l'|l'] Hb.
      * right. cbn in *. rewrite Hc, Hi, (Hz Hb). cbn. by rewrite app_nil_r.
      * destruct (take k x) eqn:E; [right|left]; cbn in *.
        -- by rewrite Hi, app_nil_r.
        -- split; [|done]. intros ?%app_eq_nil. naive_solver.
    + destruct (Nat.ltb_spec k (length x)); [right|by left]. split; [done|]. intros _. cbn. rewrite Hc. auto.
    + assert (Hsx : m ++ take k x `suffix_of` ch_sent c0 ++ take k x) by by apply suffix_both.
      intros q. destruct (Nat.ltb_spec k (length x)) as [Hlt|Hge].
      * unfold transferred. case_if; intros [= <-]; [|done]. cbn. split; [|done].
        rewrite Hm. etrans; [|apply (concat_take_prefix l (S i))]. rewrite (concat_take_S l i x Hx).
        apply prefix_app, prefix_take.
      * intros [= <-]. cbn. rewrite (concat_take_S l i x Hx), <- Hm, (take_ge x k) by lia. split; [done|].
        by rewrite take_ge in Hsx by lia.
  - intros [= <- <-]. apply lookup_ge_None in Hx. rewrite (take_ge l i) in Hm by lia.
    apply (transfer_end (Push l) w i m); [done| |].
    + intros ->. by rewrite <- Hm in Hj.
    + cbn. split; [by rewrite Hm|done].
Qed.

(** A round of the loop over the slices of a pop. *)
Lemma pop_inv l w i m n c :
  cs_threads s !! t = Some (Transfer (Pop l) w i m) -> transfer (Pop l) w i m c0 = (n, c) -> channel_inv cap (goes c n).
Proof.
  intros Ht. unfold transfer. pose proof (ci_sent cap s Hs) as Hsent. pose proof (ci_capacity cap s Hs) as Hcap.
  pose proof (ci_jobs cap s Hs t _ _ Ht eq_refl) as Hj. cbn in Hj.
  destruct (ci_moved cap s Hs t _ Ht) as [Hm Hsuf].
  destruct (l !! i) as [x|] eqn:Hx.
  - pose proof (pop_slice_cases (ch_ring c0) x) as Hp. destruct (ring_pop_slice (ch_ring c0) x) as [got r].
    destruct Hp as (Hi & Hc & Hk & Hempty). intros [= <- <-].
    apply (transfer_inv (Pop l) w i m (m ++ got)); auto.
    + cbn. by rewrite Hsent, Hi, app_nil_r, app_assoc.
    + cbn. congruence.
    + intros ?%app_eq_nil. naive_solver.
    + intros [l'|l'] Hb.
      * destruct got; [right|left]; cbn in *; [congruence|]. split; [|done]. intros ?%app_eq_nil. naive_solver.
      * right. cbn in *. rewrite Hb in Hi. symmetry in Hi. apply app_eq_nil in Hi. naive_solver.
    + destruct (Nat.ltb_spec (length got) x); [right; split; [done|intros _; by apply Hempty]|by left].
    + assert (Hsx : m ++ got `suffix_of` ch_received c0 ++ got) by by apply suffix_both.
      assert (Hle : (list_sum (take (S i) l) <= list_sum l)%nat).
      { rewrite <- (take_drop (S i) l) at 2. rewrite list_sum_app. lia. }
      rewrite (sum_take_S l i x Hx) in Hle.
      intros q. destruct (Nat.ltb_spec (length got) x) as [Hlt|Hge].
      * unfold transferred. case_if; intros [= <-]; [|done]. cbn. split; [|done]. rewrite length_app. lia.
      * intros [= <-]. cbn -[take]. rewrite (sum_take_S l i x Hx), length_app. split; [lia|done].
  - intros [= <- <-]. apply lookup_ge_None in Hx. rewrite (take_ge l i) in Hm by lia.
    apply (transfer_end (Pop l) w i m); [done| |].
    + intros ->. cbn in Hm. lia.
    + cbn. split; [lia|done].
Qed.

(** The release of the lock after a transfer. *)
Lemma unlocked_inv j m :
  cs_threads s !! t = Some (Unlock j m) ->
  channel_inv cap (goes (set_lock (job_side j) None c0) (Go (Notify (peer (job_side j)) (answer j m)))).
Proof.
  intros Ht. pose proof (unlock_others _ (job_side j) None Ht eq_refl) as Ho. apply (effect_inv cap s t (Unlock j m)); auto.
  - apply quiet_effect; try done; try (by destruct j); by intros []; destruct j.
  - destruct j; apply (ci_sent cap s Hs).
  - destruct j; apply (ci_capacity cap s Hs).
  - intros q [= <-]. by constructor.
Qed.

(** A call that wakes the waiters of [d] and ends, or goes on with [q]. *)
Lemma wake_step_inv pc n d :
  cs_threads s !! t = Some pc -> pc_waiter pc = None ->
  (forall d', wakes d' pc = true -> d' = d \/ next_wakes d' n = true) ->
  match n with Go q => pc_job q = None /\ locked q = None /\ pc_waiter q = None /\ armed q = None
                 /\ forall c, moved_ok q c | Done _ => True end ->
  channel_inv cap (goes (wake_waiters d c0) n).
Proof.
  intros Ht Hpc Hw Hn. destruct (wake_data d c0) as (Hse & Hre & Hri). apply (effect_inv cap s t pc); auto.
  - by apply wake_effect.
  - rewrite Hse, Hre, Hri. apply (ci_sent cap s Hs).
  - rewrite Hri. apply (ci_capacity cap s Hs).
  - intros q ->. destruct Hn as (H1 & H2 & H3 & H4 & H5). constructor; congruence || auto.
Qed.

Lemma shut_inv d n c :
  cs_threads s !! t = Some (ShutSet d) -> thread_step t (ShutSet d) None c0 = Some (n, c) -> channel_inv cap (goes c n).
Proof.
  intros Ht Hstep. cbn [thread_step] in Hstep. destruct (held d c0) as [|] eqn:Hh; [done|].
  destruct (is_shutdown d c0) eqn:Hsh; injection Hstep as <- <-; [by apply (step_done (ShutSet d))|].
  apply (effect_inv cap s t (ShutSet d)); auto.
  - constructor.
    + by destruct d.
    + intros d' w Hw _. left. by destruct d, d'.
    + done.
    + intros pc' j _ _. by left.
    + intros d' u _ Hu Hd. destruct d, d'; cbn in *; try done; congruence.
    + by destruct d.
    + left. by destruct d.
    + left. by destruct d.
  - destruct d; apply (ci_sent cap s Hs).
  - destruct d; apply (ci_capacity cap s Hs).
  - intros q [= <-]. by constructor.
Qed.

Lemma nonblock_set_inv d b n c :
  cs_threads s !! t = Some (NonblockSet d b) -> thread_step t (NonblockSet d b) None c0 = Some (n, c) ->
  channel_inv cap (goes c n).
Proof.
  intros Ht [= <- <-]. apply (effect_inv cap s t (NonblockSet d b)); auto.
  - constructor.
    + by destruct d.
    + intros d' w Hw _. left. by destruct d, d'.
    + done.
    + intros pc' j Hj Hk. destruct (decide (d = job_side j /\ b = true)) as [[Hd ->]|Hne];
        [left; cbn; by rewrite bool_decide_true|right].
      destruct pc' as [| |[]| | | | | | | | | | |]; cbn -[end_point] in *; simplify_eq; try done;
        repeat match goal with x : Job |- _ => destruct x end; destruct d, b; cbn in *; tauto.
    + intros d' u _ Hu Hd. by destruct d, d'.
    + by destruct d.
    + left. by destruct d.
    + left. by destruct d.
  - destruct d; apply (ci_sent cap s Hs).
  - destruct d; apply (ci_capacity cap s Hs).
  - intros q Hq. destruct b; [|done]. injection Hq as <-. by constructor.
Qed.

(** Every access keeps the invariant. *)
Lemma access_inv pc host n c :
  cs_threads s !! t = Some pc -> thread_step t pc host c0 = Some (n, c) -> channel_inv cap (goes c n).
Proof.
  intros Ht Hstep. destruct pc.
  - by eapply lock_inv.
  - by eapply peer_inv.
  - destruct j; injection Hstep as Hstep; [by eapply push_inv|by eapply pop_inv].
  - injection Hstep as <- <-. by apply unlocked_inv.
  - by eapply eof_inv.
  - by eapply nonblock_inv.
  - by eapply enqueue_inv.
  - cbn [thread_step] in Hstep. destruct host; [|case_decide; [|done]]; injection Hstep as <- <-.
    + by apply (step_done (Wait j waiter)).
    + apply (step_quiet (Wait j waiter)); auto; done.
  - injection Hstep as <- <-. apply (wake_step_inv _ _ _ Ht); [done| |done]. intros d' ?%bool_decide_eq_true. auto.
  - by eapply shut_inv.
  - injection Hstep as <- <-. apply (wake_step_inv _ _ _ Ht); [done| |done].
    intros d' _. destruct d, d'; cbn; auto.
  - injection Hstep as <- <-. apply (wake_step_inv _ _ _ Ht); [done| |done]. intros d' ?%bool_decide_eq_true. auto.
  - by eapply nonblock_set_inv.
  - injection Hstep as <- <-. apply (wake_step_inv _ _ _ Ht); [done| |done]. intros d' ?%bool_decide_eq_true. auto.
Qed.

End accesses.

Lemma call_inv cap s t n :
  channel_inv cap s -> cs_threads s !! t = None -> is_call n ->
  channel_inv cap (mkChannelSys (cs_channel s) (go_on t n (cs_threads s))).
Proof.
  intros Hs Ht Hn.
  assert (Hq : forall q, n = Go q -> pc_waiter q = None /\ armed q = None /\ locked q = None
     /\ forall j, pc_job q = Some j -> job_len j <> 0%nat).
  { intros q ->. destruct Hn as [(j & Hj)|[(d & [= ->])|(d & b & [= ->])]]; [|done..].
    unfold start_job in Hj. fold (job_len j) in Hj. destruct (Nat.eqb_spec (job_len j) 0); [done|].
    injection Hj as ->. split_and!; [done..|]. by intros ? [= <-]. }
  assert (Hlook : forall u q, go_on t n (cs_threads s) !! u = Some q -> n = Go q \/ cs_threads s !! u = Some q).
  { intros u q. rewrite channel_go_on_lookup. case_decide; [|auto]. destruct n; [|done]. intros [= ->]. auto. }
  assert (Hpend : forall d, wake_pending d (cs_threads s) -> wake_pending d (go_on t n (cs_threads s))).
  { intros d (v & pv & Hv & Hw). exists v, pv. rewrite channel_go_on_lookup, decide_False by congruence. done. }
  destruct Hs as [H1 H2 H3 H4 H5 H6 H7 H8]. constructor; cbn [cs_channel cs_threads]; auto.
  - intros u q j Hu Hj. destruct (Hlook u q Hu) as [Hg|Hu']; [by eapply (Hq q Hg)|eauto].
  - intros u q d Hu Hd. destruct (Hlook u q Hu) as [Hg|Hu']; [|eauto]. destruct (Hq q Hg) as (_ & _ & Hl & _). congruence.
  - intros u q w Hu Hw. destruct (Hlook u q Hu) as [Hg|Hu']; [|eauto]. destruct (Hq q Hg) as (Hl & _). congruence.
  - intros u q v q' w Hu Hv Hw Hw'. destruct (Hlook u q Hu) as [Hg|Hu']; [destruct (Hq q Hg) as (Hl & _); congruence|].
    destruct (Hlook v q' Hv) as [Hg|Hv']; [destruct (Hq q' Hg) as (Hl & _); congruence|]. eauto.
  - intros u q j w Hu Ha. destruct (Hlook u q Hu) as [Hg|Hu']; [destruct (Hq q Hg) as (_ & Hl & _); congruence|].
    destruct (H7 u q j w Hu' Ha) as [?|[? [?|?]]]; auto.
  - intros u q Hu. destruct (Hlook u q Hu) as [Hg|Hu']; [|eauto]. destruct (Hq q Hg) as (_ & _ & Hl & _).
    by destruct q as [| |[]|[]| | | | | | | | | |].
Qed.

Lemma channel_reachable_inv cap s : channel_reachable cap s -> channel_inv cap s.
Proof.
  induction 1 as [|s s' _ Hs Hstep].
  - destruct (ring_new_law cap) as [Hi Hc]. constructor; cbn; try done; by rewrite Hi.
  - destruct Hstep as [s t n Ht Hn|s t pc host n c Ht Hfit Hrun]; [by apply call_inv|by eapply access_inv].
Qed.

(** How a loop over slices ends: not before a slice that did not fit, or was not filled. *)
Lemma push_stops l w i m n c c' :
  transfer (Push l) w i m c = (n, c') ->
  n = Go (Transfer (Push l) w (S i) (m ++ default [] (l !! i)))
  \/ (length l <= i)%nat \/ length (items c') = ring_capacity (ch_ring c).
Proof.
  unfold transfer. destruct (l !! i) as [x|] eqn:Hx; [|by apply lookup_ge_None in Hx; auto].
  pose proof (push_slice_cases (ch_ring c) x) as Hp. destruct (ring_push_slice (ch_ring c) x) as [k r].
  destruct Hp as (_ & _ & Hk & Hfull & _). destruct (Nat.ltb_spec k (length x)); intros [= <- <-]; [by right; right; apply Hfull|].
  left. by rewrite take_ge by lia.
Qed.

Lemma pop_stops l w i m n c c' :
  transfer (Pop l) w i m c = (n, c') ->
  (exists got, length got = default 0%nat (l !! i) /\ n = Go (Transfer (Pop l) w (S i) (m ++ got)))
  \/ (length l <= i)%nat \/ items c' = [].
Proof.
  unfold transfer. destruct (l !! i) as [x|] eqn:Hx; [|by apply lookup_ge_None in Hx; auto].
  pose proof (pop_slice_cases (ch_ring c) x) as Hp. destruct (ring_pop_slice (ch_ring c) x) as [got r].
  destruct Hp as (_ & _ & Hk & Hempty). destruct (Nat.ltb_spec (length got) x); intros [= <- <-]; [by right; right; apply Hempty|].
  left. exists got. split; [cbn; lia|done].
Qed.

(** C15: a channel is a reliable byte stream. In every state that any number of threads reach by pushing,
    popping, changing flags and shutting down, interleaved at every access - in particular between
    two slices of one call -
    - the bytes that came out are those that went in, in order, without loss or duplication, and
      the rest is in the ring buffer, which never holds more than its capacity;
    - a push has put in a first part of its slices, with nothing of another call in between, and ends its loop
      only with all slices in or the buffer full; it then answers the number of these bytes;
    - a pop has in its slices the last bytes that came out, and ends its loop only with all slices
      filled or the buffer empty; it then answers these bytes. *)
Theorem channel_fifo (cap : nat) (s : ChannelSys) :
  channel_reachable cap s ->
  let c := cs_channel s in
  ch_sent c = ch_received c ++ items c /\ (length (items c) <= cap)%nat
  /\ (forall t l w i moved, cs_threads s !! t = Some (Transfer (Push l) w i moved) ->
        moved = concat (take i l) /\ moved `suffix_of` ch_sent c
        /\ forall n c', thread_step t (Transfer (Push l) w i moved) None c = Some (n, c') ->
             n = Go (Transfer (Push l) w (S i) (moved ++ default [] (l !! i)))
             \/ (length l <= i)%nat \/ length (items c') = cap)
  /\ (forall t l moved, cs_threads s !! t = Some (Unlock (Push l) moved) ->
        moved = take (length moved) (concat l) /\ moved `suffix_of` ch_sent c
        /\ exists c', thread_step t (Unlock (Push l) moved) None c
             = Some (Go (Notify Consumer (Ok (replicate (length moved) 0))), c'))
  /\ (forall t l w i moved, cs_threads s !! t = Some (Transfer (Pop l) w i moved) ->
        length moved = list_sum (take i l) /\ moved `suffix_of` ch_received c
        /\ forall n c', thread_step t (Transfer (Pop l) w i moved) None c = Some (n, c') ->
             (exists got, length got = default 0%nat (l !! i) /\ n = Go (Transfer (Pop l) w (S i) (moved ++ got)))
             \/ (length l <= i)%nat \/ items c' = [])
  /\ (forall t l moved, cs_threads s !! t = Some (Unlock (Pop l) moved) ->
        (length moved <= list_sum l)%nat /\ moved `suffix_of` ch_received c
        /\ exists c', thread_step t (Unlock (Pop l) moved) None c = Some (Go (Notify Producer (Ok moved)), c')).
Proof.
  intros Hr c. pose proof (channel_reachable_inv cap s Hr) as Hs. pose proof (ci_capacity cap s Hs) as Hc. fold c in Hc. split_and!.
  - apply (ci_sent cap s Hs).
  - rewrite <- Hc. apply ring_bound_law.
  - intros t l w i m Ht. destruct (ci_moved cap s Hs t _ Ht) as [Hm Hsuf]. split_and!; [done..|].
    intros n c' Hn. injection Hn as Hn. rewrite <- Hc.
    by eapply push_stops.
  - intros t l m Ht. destruct (ci_moved cap s Hs t _ Ht) as [[k Hk] Hsuf]. split_and!; [|done|by eexists].
    by rewrite Hk, take_app_length.
  - intros t l w i m Ht. destruct (ci_moved cap s Hs t _ Ht) as [Hm Hsuf]. split_and!; [done..|].
    intros n c' Hn. injection Hn as Hn. by eapply pop_stops.
  - intros t l m Ht. destruct (ci_moved cap s Hs t _ Ht) as [Hle Hsuf]. split_and!; [done..|by eexists].
Qed.

(** C16: no wake-up of a channel is lost. In every reachable state a thread that sleeps in a push or a pop has
    reason to: the buffer is full or empty, neither end point is shut down and its own is
    blocking; or a thread that changed this is about to wake everyone who waits at this
    end point, with at most the rest of its own transfer before, and can go on at once. *)
Theorem channel_no_lost_wakeup (cap : nat) (s : ChannelSys) (t : Z) (j : Job) (w : Z) :
  channel_reachable cap s -> cs_threads s !! t = Some (Wait j w) -> w ∉ ch_woken (cs_channel s) ->
  let c := cs_channel s in let d := job_side j in
  (match j with Push _ => length (items c) = cap | Pop _ => items c = [] end
   /\ is_shutdown (peer d) c = false /\ is_shutdown d c = false /\ is_nonblocking d c = false)
  \/ (exists u pc, cs_threads s !! u = Some pc /\ wakes d pc = true /\ thread_step u pc None c <> None).
Proof.
  intros Hr Ht Hw c d. pose proof (channel_reachable_inv cap s Hr) as Hs.
  destruct (ci_armed cap s Hs t _ j w Ht eq_refl) as [?|[_ [Hk|(u & pc & Hu & Hwk)]]]; [done|left|right].
  - pose proof (ci_capacity cap s Hs) as Hc. cbn -[end_point] in Hk. destruct Hk as (Hb & H1 & H2 & H3). split_and!; auto.
    destruct j; [|done]. cbn in Hb. by rewrite Hc in Hb.
  - exists u, pc. split_and!; [done..|]. by destruct pc.
Qed.

(** * Runs *)

Definition queues_fitb (c : Channel) : bool :=
  (Z.of_nat (length (waiter_queue Producer c)) <? u64_modulus) && (Z.of_nat (length (waiter_queue Consumer c)) <? u64_modulus).

(** At most [n] accesses of one thread, without errors of the host. *)
Fixpoint run_thread (n : nat) (t : Z) (s : ChannelSys) : ChannelSys :=
  match n with
  | O => s
  | S n =>
      match cs_threads s !! t with
      | Some pc =>
          match thread_step t pc None (cs_channel s) with
          | Some (next, c) =>
              if queues_fitb (cs_channel s) then run_thread n t (mkChannelSys c (go_on t next (cs_threads s))) else s
          | None => s
          end
      | None => s
      end
  end.

Lemma channel_run_reachable cap n t : forall s, channel_reachable cap s -> channel_reachable cap (run_thread n t s).
Proof.
  induction n as [|n IH]; intros s Hs; [done|]. cbn [run_thread]. destruct (cs_threads s !! t) as [pc|] eqn:Ht; [|done].
  destruct (thread_step t pc None (cs_channel s)) as [[next c]|] eqn:Hstep; [|done].
  destruct (queues_fitb (cs_channel s)) eqn:Hf; [|done]. apply IH. eapply ch_steps; [exact Hs|].
  eapply ch_access; [done| |done]. unfold queues_fitb in Hf. boolprop. by intros [].
Qed.

Definition call (t : Z) (n : Next) (s : ChannelSys) : ChannelSys :=
  mkChannelSys (cs_channel s) (go_on t n (cs_threads s)).

Lemma channel_call_reachable cap t n s :
  channel_reachable cap s -> cs_threads s !! t = None -> is_call n -> channel_reachable cap (call t n s).
Proof. intros Hs Ht Hn. eapply ch_steps; [exact Hs|]. by apply ch_call. Qed.

End channel.

Section example.
Abbreviation items c := (ring_items (ch_ring c)).

(** A ring buffer as a list. *)
#[local, refine] Instance ring_list : RingBuffers := {|
  ring := nat * list Z;
  ring_new n := (n, []);
  ring_items r := take r.1 r.2;
  ring_capacity r := r.1;
  ring_push_slice r l :=
    let n := Nat.min (length l) (r.1 - length (take r.1 r.2)) in (n, (r.1, take r.1 r.2 ++ take n l));
  ring_pop_slice r n := (take n (take r.1 r.2), (r.1, drop n (take r.1 r.2)));
|}.
Proof.
  - intros n. cbn. by rewrite take_nil.
  - intros [n l]. cbn. rewrite length_take. lia.
  - intros [n l] l'. cbn. split_and!; [done| |done]. apply take_ge. rewrite length_app, !length_take. lia.
  - intros [n l] k. cbn. split_and!; [done| |done]. apply take_ge. rewrite length_drop, length_take. lia.
Defined.

(** A pop on an empty channel: the thread sleeps. *)
Definition pop_asleep : ChannelSys := run_thread 20 1 (call 1 (start_job (Pop [8%nat])) (mkChannelSys (Channel_new 16) ∅)).

Lemma pop_asleep_reachable : channel_reachable 16 pop_asleep.
Proof. apply channel_run_reachable, channel_call_reachable; [apply ch_start|reflexivity|left; by eexists]. Qed.

Lemma channel_no_lost_wakeup_witness :
  items (cs_channel pop_asleep) = []
  \/ (exists u pc, cs_threads pop_asleep !! u = Some pc /\ wakes Consumer pc = true
        /\ thread_step u pc None (cs_channel pop_asleep) <> None).
Proof.
  destruct (channel_no_lost_wakeup 16 pop_asleep 1 (Pop [8%nat]) 0 pop_asleep_reachable) as [(H & _)|H].
  - vm_compute. reflexivity.
  - vm_compute. intros H. inversion H.
  - left. exact H.
  - right. exact H.
Defined.

(** A push of two slices to a buffer of three bytes: after the first slice another thread takes a byte out,
    and part of the second slice fits. *)
Definition push_2_slices : Job := Push [[7; 8]; [9; 10; 11]].

Definition interleaved : ChannelSys :=
  let s := run_thread 3 2 (call 2 (start_job push_2_slices) (mkChannelSys (Channel_new 3) ∅)) in
  run_thread 1 2 (run_thread 20 1 (call 1 (start_job (Pop [1%nat])) s)).

Lemma interleaved_reachable : channel_reachable 3 interleaved.
Proof.
  apply channel_run_reachable, channel_run_reachable, channel_call_reachable; [|vm_compute; reflexivity|left; by eexists].
  apply channel_run_reachable, channel_call_reachable; [apply ch_start|reflexivity|left; by eexists].
Qed.

Lemma channel_fifo_witness :
  cs_threads interleaved !! 2 = Some (Unlock push_2_slices [7; 8; 9; 10])
  /\ [7; 8; 9; 10] `suffix_of` ch_sent (cs_channel interleaved)
  /\ ch_sent (cs_channel interleaved) = ch_received (cs_channel interleaved) ++ items (cs_channel interleaved)
  /\ ch_received (cs_channel interleaved) = [7] /\ items (cs_channel interleaved) = [8; 9; 10].
Proof.
  assert (Ht : cs_threads interleaved !! 2 = Some (Unlock push_2_slices [7; 8; 9; 10])) by (vm_compute; reflexivity).
  destruct (channel_fifo 3 interleaved interleaved_reachable) as (Hfifo & _ & _ & Hpush & _).
  split_and!; [exact Ht|apply (Hpush _ _ _ Ht)|exact Hfifo|vm_compute; reflexivity..].
Defined.

(** A pop that found the buffer empty and has not yet looked at the other end point; then a byte is
    pushed and the producer is shut down. *)
Definition pop_stale : ChannelSys :=
  let s := run_thread 2 1 (call 1 (start_job (Pop [8%nat])) (mkChannelSys (Channel_new 16) ∅)) in
  let s := run_thread 20 2 (call 2 (start_job (Push [[7]])) s) in
  run_thread 20 2 (call 2 (Go (ShutSet Producer)) s).

(** C17: a pop can report the end of the stream while there are bytes in it. The two end points have locks of
    their own, so a push and the shutdown of the producer can come between the attempt of
    a pop, which finds nothing, and its look at the producer. *)
Theorem pop_eof_before_data :
  channel_reachable 16 pop_stale /\ items (cs_channel pop_stale) = [7]
  /\ cs_threads pop_stale !! 1 = Some (EofCheck (Pop [8%nat]) None)
  /\ fst <$> thread_step 1 (EofCheck (Pop [8%nat]) None) None (cs_channel pop_stale) = Some (Done (Ok [])).
Proof.
  split_and!; [|vm_compute; reflexivity..].
  apply channel_run_reachable, channel_call_reachable; [|vm_compute; reflexivity|right; left; by eexists].
  apply channel_run_reachable, channel_call_reachable; [|vm_compute; reflexivity|left; by eexists].
  apply channel_run_reachable, channel_call_reachable; [apply ch_start|reflexivity|left; by eexists].
Qed.

End example.
