(* ===== verification/InitStack.v ===== *)
(** The stack a program starts with: [src/libos/src/process/do_spawn/init_stack.rs] and
    [aux_vec.rs].

    The stack is filled from its top down: the strings of the environment and of the arguments, 16
    random bytes, and the table of 64-bit words that the C library reads at the stack pointer. *)

From stdpp Require Import gmap.
From S2P Require Import Prelude Errno Effects VMRange MemUtil.

(** * The auxiliary vector *)

Inductive AuxKey :=
| AT_NULL | AT_IGNORE | AT_EXECFD | AT_PHDR | AT_PHENT | AT_PHNUM | AT_PAGESZ | AT_BASE | AT_FLAGS | AT_ENTRY
| AT_NOTELF | AT_UID | AT_EUID | AT_GID | AT_EGID | AT_PLATFORM | AT_HWCAP | AT_CLKTCK
| AT_SECURE | AT_BASE_PLATFORM | AT_RANDOM | AT_HWCAP2 | AT_EXECFN | AT_SYSINFO | AT_OCCLUM_ENTRY.

Definition AuxKey_code (k : AuxKey) : Z :=
  match k with
  | AT_NULL => 0 | AT_IGNORE => 1 | AT_EXECFD => 2 | AT_PHDR => 3 | AT_PHENT => 4 | AT_PHNUM => 5 | AT_PAGESZ => 6
  | AT_BASE => 7 | AT_FLAGS => 8 | AT_ENTRY => 9 | AT_NOTELF => 10 | AT_UID => 11 | AT_EUID => 12 | AT_GID => 13
  | AT_EGID => 14 | AT_PLATFORM => 15 | AT_HWCAP => 16 | AT_CLKTCK => 17 | AT_SECURE => 23 | AT_BASE_PLATFORM => 24
  | AT_RANDOM => 25 | AT_HWCAP2 => 26 | AT_EXECFN => 31 | AT_SYSINFO => 32 | AT_OCCLUM_ENTRY => 48
  end.

#[export] Instance AuxKey_eq_dec : EqDecision AuxKey.
Proof. solve_decision. Defined.

(** A hash map, by the codes of its keys. *)
Abbreviation AuxVec := (gmap Z Z) (only parsing).

Definition AuxVec_set (self : AuxVec) (key : AuxKey) (val : Z) : Result AuxVec :=
  if bool_decide (key = AT_NULL) || bool_decide (key = AT_IGNORE) then Err EINVAL
  else Ok (<[AuxKey_code key := val]> self).
Definition AuxVec_get (self : AuxVec) (key : AuxKey) : option Z := self !! AuxKey_code key.
Definition AuxVec_del (self : AuxVec) (key : AuxKey) : option Z * AuxVec :=
  (self !! AuxKey_code key, delete (AuxKey_code key) self).

(** * The buffer *)

Record StackBuf := mkStackBuf {
  stack_top : Z;
  stack_bottom : Z;
  stack_pos : Z;
}.

(** The buffer and the memory, byte by byte. *)
Record StackState := mkStackState {
  ss_buf : StackBuf;
  ss_mem : Z -> Z;
}.

Abbreviation SS := (M StackState) (only parsing).

Definition StackBuf_new (top stack_size : Z) : Result StackBuf :=
  if negb (top mod 16 =? 0) || (stack_size =? 0) || (top <? stack_size) then Err EINVAL
  else Ok (mkStackBuf top (top -64 stack_size) top).

Definition get_pos : SS Z := s ← get; ok (stack_pos (ss_buf s)).

Definition StackBuf_alloc (size align : Z) : SS Z :=
  s ← get;
  let buf := ss_buf s in
  let new_pos := align_down (stack_pos buf -64 size) align in
  if new_pos <? stack_bottom buf then fail_with ENOMEM else
  _ ← put (mkStackState (mkStackBuf (stack_top buf) (stack_bottom buf) new_pos) (ss_mem s));
  ok new_pos.

(** Writing bytes at an address. *)
Definition write_bytes (p : Z) (l : list Z) : SS unit :=
  modify (fun s => mkStackState (ss_buf s) (fun a =>
    if (p <=? a) && (a <? p + Z.of_nat (length l)) then default 0 (l !! Z.to_nat (a - p)) else ss_mem s a)).

Definition le_bytes (v : Z) : list Z := (fun i => Z.land (Z.shiftr v (8 * Z.of_nat i)) 255) <$> seq 0 8.

Definition put_u64 (val : Z) : SS Z :=
  val_ptr ← StackBuf_alloc 8 8;
  _ ← write_bytes val_ptr (le_bytes val);
  ok val_ptr.

(** [put_slice] of bytes. *)
Definition put_slice (vals : list Z) : SS Z :=
  if (length vals =? 0)%nat then get_pos else
  base_ptr ← StackBuf_alloc (Z.of_nat (length vals)) 1;
  _ ← write_bytes base_ptr vals;
  ok base_ptr.

Definition put_cstr (cstr : list Z) : SS Z := put_slice (cstr ++ [0]).

(** * The stack *)

Fixpoint clone_loop (cstrings : list (list Z)) (cloned : list Z) : SS (list Z) :=
  match cstrings with
  | [] => ok cloned
  | cs :: rest => p ← put_cstr cs; clone_loop rest (cloned ++ [p])
  end.
Definition clone_cstrings_on_stack (cstrings : list (list Z)) : SS (list Z) :=
  cloned ← clone_loop (reverse cstrings) [];
  ok (reverse cloned).

(** The random bytes, or an error of their source. *)
Definition generate_random_on_stack (random : Result (list Z)) : SS Z :=
  rand ← lift random;
  put_slice rand.

Definition calc_auxtbl_size_on_stack (auxtbl : AuxVec) : Z := (Z.of_nat (size auxtbl) + 1) * 16.
Definition calc_cstrptrs_size_on_stack (strptrs : list Z) : Z := (Z.of_nat (length strptrs) + 1) * 8.

Definition adjust_alignment (auxtbl : AuxVec) (envp argv : list Z) : SS unit :=
  _ ← put_u64 0;
  current_pos ← get_pos;
  let to_alloc_size :=
    calc_auxtbl_size_on_stack auxtbl +64 calc_cstrptrs_size_on_stack envp +64 calc_cstrptrs_size_on_stack argv +64 8 in
  if negb ((current_pos -64 to_alloc_size) mod 16 =? 0) then _ ← put_u64 0; ok tt else ok tt.

(** The iteration order of the table is unspecified. *)
Class AuxOrder := {
  aux_order : list (Z * Z) -> list (Z * Z);
  aux_order_perm l : aux_order l ≡ₚ l;
}.

Section init.
Context {AO : AuxOrder}.

Definition dump_auxtbl_on_stack (auxtbl : AuxVec) : SS unit :=
  _ ← put_u64 0;
  _ ← put_u64 (AuxKey_code AT_NULL);
  for_each (fun kv => _ ← put_u64 kv.2; _ ← put_u64 kv.1; ok tt) (aux_order (map_to_list auxtbl)).

Definition dump_cstrptrs_on_stack (strptrs : list Z) : SS unit :=
  _ ← put_u64 0;
  for_each (fun sp => _ ← put_u64 sp; ok tt) (reverse strptrs).

(** On the buffer of the call; the error of an illegal key is ignored. *)
Definition init_stack (argv envp : list (list Z)) (auxtbl : AuxVec) (random : Result (list Z)) : SS (Z * AuxVec) :=
  envp_cloned ← clone_cstrings_on_stack envp;
  argv_cloned ← clone_cstrings_on_stack argv;
  rand_val_ptr ← generate_random_on_stack random;
  let auxtbl := match AuxVec_set auxtbl AT_RANDOM rand_val_ptr with Ok t => t | _ => auxtbl end in
  _ ← adjust_alignment auxtbl envp_cloned argv_cloned;
  _ ← dump_auxtbl_on_stack auxtbl;
  _ ← dump_cstrptrs_on_stack envp_cloned;
  _ ← dump_cstrptrs_on_stack argv_cloned;
  _ ← put_u64 (Z.of_nat (length argv));
  pos ← get_pos;
  ok (pos, auxtbl).

(** The stack pointer, the table as it is left, and the memory. *)
Definition do_init (mem : Z -> Z) (top init_area_size : Z) (argv envp : list (list Z)) (auxtbl : AuxVec)
    (random : Result (list Z)) : Result (Z * AuxVec * (Z -> Z)) :=
  stack_buf ← StackBuf_new top init_area_size;
  let (r, s) := init_stack argv envp auxtbl random (mkStackState stack_buf mem) in
  p ← r;
  Ok (p.1, p.2, ss_mem s).

End init.

(** * Words in memory *)

Lemma read_ptr_ext m m' p :
  0 <= p -> p + 8 <= u64_modulus -> (forall i, 0 <= i < 8 -> m (p + i) = m' (p + i)) -> read_ptr m p = read_ptr m' p.
Proof.
  intros Hp Hp8 H. unfold read_ptr. cbn [seq foldr]. rewrite !add64_small by lia.
  by rewrite !H by lia.
Qed.

Lemma le_bytes_sum v : is_u64 v -> foldr (fun b acc => b + 256 * acc) 0 (le_bytes v) = v.
Proof.
  intros Hv. unfold le_bytes. cbn [seq fmap list_fmap foldr].
  change 255 with (Z.ones 8).
  rewrite !Z.land_ones, !Z.shiftr_div_pow2 by lia. unfold is_u64, u64_modulus in Hv.
  repeat match goal with |- context [2 ^ ?e] => let x := eval vm_compute in (2 ^ e) in change (2 ^ e) with x end.
  pose proof (Z.div_mod v 256 ltac:(lia)).
  assert (Hs : forall k k', 0 < k -> k' = k * 256 -> v / k = 256 * (v / k') + (v / k) mod 256).
  { intros k k' Hk ->. rewrite <- Z.div_div by lia. apply Z.div_mod. lia. }
  pose proof (Hs 256 65536 eq_refl eq_refl). pose proof (Hs 65536 16777216 eq_refl eq_refl).
  pose proof (Hs 16777216 4294967296 eq_refl eq_refl). pose proof (Hs 4294967296 1099511627776 eq_refl eq_refl).
  pose proof (Hs 1099511627776 281474976710656 eq_refl eq_refl).
  pose proof (Hs 281474976710656 72057594037927936 eq_refl eq_refl).
  pose proof (Hs 72057594037927936 18446744073709551616 eq_refl eq_refl). clear Hs. rewrite Z.div_1_r.
  assert (v / 18446744073709551616 = 0) by (apply Z.div_small; lia).
  repeat match goal with |- context [?x mod 256] => generalize dependent (x mod 256); intros end.
  repeat match goal with H : context [v / ?k] |- _ => generalize dependent (v / k); intros end. lia.
Qed.

Definition words_at (m : Z -> Z) (p : Z) (l : list Z) : Prop :=
  forall i v, l !! i = Some v -> read_ptr m (p + 8 * Z.of_nat i) = v.

Lemma words_at_eq m p q l : p = q -> words_at m p l -> words_at m q l.
Proof. by intros ->. Qed.

Lemma words_at_app m p l1 l2 :
  words_at m p (l1 ++ l2) <-> words_at m p l1 /\ words_at m (p + 8 * Z.of_nat (length l1)) l2.
Proof.
  split.
  - intros H. split; intros i v Hi; [by apply H, lookup_app_l_Some|].
    rewrite <- (H (length l1 + i)%nat v) by (rewrite lookup_app_r by lia; rewrite <- Hi; f_equal; lia). f_equal. lia.
  - intros [H1 H2] i v Hi. apply lookup_app_Some in Hi as [Hi|[Hle Hi]]; [by apply H1|].
    rewrite <- (H2 _ _ Hi). f_equal. lia.
Qed.

Lemma words_at_singleton m p v : words_at m p [v] <-> read_ptr m p = v.
Proof.
  split; [intros H; specialize (H 0%nat v eq_refl); by rewrite Z.add_0_r in H|].
  intros H i x Hx. apply list_lookup_singleton_Some in Hx as [-> <-]. by rewrite Z.add_0_r.
Qed.

(** * Filling the buffer *)

Definition buf_ok (s : StackState) : Prop :=
  0 <= stack_bottom (ss_buf s) <= stack_pos (ss_buf s) /\ stack_pos (ss_buf s) <= stack_top (ss_buf s) < u64_modulus.

Abbreviation pos s := (stack_pos (ss_buf s)).

(** Bytes are only written between the new position and the old one. *)
Record extends (s s' : StackState) : Prop := {
  ext_ok : buf_ok s';
  ext_top : stack_top (ss_buf s') = stack_top (ss_buf s);
  ext_bottom : stack_bottom (ss_buf s') = stack_bottom (ss_buf s);
  ext_pos : pos s' <= pos s;
  ext_mem a : a < pos s' \/ pos s <= a -> ss_mem s' a = ss_mem s a;
}.

Lemma extends_refl s : buf_ok s -> extends s s.
Proof. by split. Qed.

Lemma extends_trans s1 s2 s3 : extends s1 s2 -> extends s2 s3 -> extends s1 s3.
Proof.
  intros [? ? ? ? Hm1] [? ? ? ? Hm2]. split; [done|congruence|congruence|lia|].
  intros a Ha. rewrite Hm2 by lia. apply Hm1. lia.
Qed.

Lemma words_at_extends s s' p l :
  extends s s' -> pos s <= p -> p + 8 * Z.of_nat (length l) <= u64_modulus ->
  words_at (ss_mem s) p l -> words_at (ss_mem s') p l.
Proof.
  intros [Hok _ _ Hpos Hm] Hp Hle H i v Hi. rewrite <- (H i v Hi). pose proof (lookup_lt_Some _ _ _ Hi).
  destruct Hok. apply read_ptr_ext; [lia..|]. intros j Hj. apply Hm. lia.
Qed.

(** [c] takes at most [n] bytes and ends in [Q], or there are not [n] bytes left. *)
Definition run_at {A} (s : StackState) (c : SS A) (n : Z) (Q : A -> StackState -> Prop) : Prop :=
  match c s with
  | (Ok a, s') => extends s s' /\ pos s - n <= pos s' /\ Q a s'
  | (Err e, _) => e = ENOMEM /\ pos s - n < stack_bottom (ss_buf s)
  | (Panic, _) => False
  end.

Lemma run_at_ok {A} s (a : A) (Q : A -> StackState -> Prop) : buf_ok s -> Q a s -> run_at s (ok a) 0 Q.
Proof. intros Hs HQ. cbn. split_and!; [by apply extends_refl|lia|done]. Qed.

Lemma run_bind {A B} s (c : SS A) (k : A -> SS B) n m Q R :
  run_at s c n Q -> n + m <= pos s ->
  (forall a s1, extends s s1 -> m <= pos s1 -> Q a s1 ->
     run_at s1 (k a) m (fun b s2 => extends s1 s2 -> extends s s2 -> R b s2)) ->
  0 <= m -> run_at s (c ≫= k) (n + m) R.
Proof.
  intros Hc Hn Hk Hm. unfold run_at, mbind, M_bind in *. destruct (c s) as [[a|e|] s1]; [|destruct Hc; split; [done|lia]|done].
  destruct Hc as (He & Hp & HQ). specialize (Hk a s1 He ltac:(lia) HQ).
  destruct (k a s1) as [[b|e|] s2]; [|destruct Hk; split; [done|]; destruct He; lia|done].
  destruct Hk as (He2 & Hp2 & HR). pose proof (extends_trans _ _ _ He He2). split_and!; [done|lia|by apply HR].
Qed.

Lemma run_weaken {A} s (c : SS A) n n' (Q Q' : A -> StackState -> Prop) :
  run_at s c n Q -> n <= n' -> (forall a s', extends s s' -> Q a s' -> Q' a s') -> run_at s c n' Q'.
Proof.
  unfold run_at. destruct (c s) as [[a|e|] s']; intros H Hn HQ; [|destruct H; split; [done|lia]|done].
  destruct H as (? & ? & ?). split_and!; auto; lia.
Qed.

Lemma align_down_1 x : is_u64 x -> align_down x 1 = x.
Proof. intros Hx. change 1 with (2 ^ 0). rewrite align_down_eq by (done || lia). rewrite Z.div_1_r. lia. Qed.

Lemma align_down_8 x : is_u64 x -> x - 7 <= align_down x 8 <= x /\ align_down x 8 mod 8 = 0.
Proof.
  intros Hx. pose proof (align_down_eq x 3 Hx ltac:(lia)) as H. change (2 ^ 3) with 8 in H. rewrite H.
  rewrite Z.mod_mul by lia. pose proof (Z.div_mod x 8 ltac:(lia)). pose proof (Z.mod_pos_bound x 8 ltac:(lia)). lia.
Qed.

(** [alloc] and a write of [l] there. *)
Definition put_bytes (l : list Z) (align : Z) : SS Z :=
  p ← StackBuf_alloc (Z.of_nat (length l)) align; _ ← write_bytes p l; ok p.

Definition bytes_at (m : Z -> Z) (p : Z) (l : list Z) : Prop := forall i x, l !! i = Some x -> m (p + Z.of_nat i) = x.

Lemma put_bytes_run s l align :
  buf_ok s -> Z.of_nat (length l) <= pos s ->
  let p := align_down (pos s - Z.of_nat (length l)) align in
  pos s - Z.of_nat (length l) - 7 <= p <= pos s - Z.of_nat (length l) ->
  run_at s (put_bytes l align) (pos s - p) (fun q s' => q = p /\ pos s' = p /\ bytes_at (ss_mem s') p l).
Proof.
  intros [Hb Ht] Hlen p Hp. unfold run_at, put_bytes, StackBuf_alloc.
  unfold mbind, M_bind, get. cbn -[sub64 align_down Z.ltb]. rewrite sub64_small by lia. fold p. destruct (Z.ltb_spec p (stack_bottom (ss_buf s))); cbn; [split; [done|lia]|].
  split_and!; [|lia|done|done|].
  - split; cbn; [split; cbn; lia|done|done|lia|]. intros a Ha.
    destruct (Z.leb_spec p a), (Z.ltb_spec a (p + Z.of_nat (length l))); cbn; try done. lia.
  - intros i x Hi. cbn. pose proof (lookup_lt_Some _ _ _ Hi). rewrite (proj2 (Z.leb_le _ _)), (proj2 (Z.ltb_lt _ _)) by lia.
    cbn. replace (Z.to_nat (p + Z.of_nat i - p)) with i by lia. by rewrite Hi.
Qed.

Lemma read_bytes_at m p v : 0 <= p -> p + 8 <= u64_modulus -> is_u64 v -> bytes_at m p (le_bytes v) -> read_ptr m p = v.
Proof.
  intros Hp Hp8 Hv H. rewrite <- (le_bytes_sum v Hv) at 1. unfold read_ptr. cbn [seq foldr]. rewrite !add64_small by lia.
  rewrite (H 0%nat _ eq_refl), (H 1%nat _ eq_refl), (H 2%nat _ eq_refl), (H 3%nat _ eq_refl), (H 4%nat _ eq_refl),
    (H 5%nat _ eq_refl), (H 6%nat _ eq_refl), (H 7%nat _ eq_refl). reflexivity.
Qed.

(** The words [l], pushed one after the other. *)
Definition pushed (s s' : StackState) (l : list Z) : Prop :=
  pos s' = pos s - 8 * Z.of_nat (length l) /\ words_at (ss_mem s') (pos s') (reverse l).

Lemma pushed_app s1 s2 s3 l1 l2 :
  buf_ok s1 -> extends s1 s2 -> extends s2 s3 -> pushed s1 s2 l1 -> pushed s2 s3 l2 -> pushed s1 s3 (l1 ++ l2).
Proof.
  intros [? ?] He1 He2 [Hp1 Hw1] [Hp2 Hw2]. pose proof (ext_pos _ _ He2).
  pose proof (ext_top _ _ He1). split; [rewrite length_app; lia|].
  rewrite reverse_app. apply words_at_app. split; [done|].
  replace (pos s3 + _) with (pos s2) by (rewrite length_reverse; lia).
  eapply words_at_extends; [done|lia| |done]. rewrite length_reverse. lia.
Qed.

Lemma put_u64_aligned s v :
  buf_ok s -> 8 <= pos s -> pos s mod 8 = 0 -> is_u64 v -> run_at s (put_u64 v) 8 (fun _ s' => pushed s s' [v]).
Proof.
  intros Hs Hp Ha Hv. assert (Hal : align_down (pos s - 8) 8 = pos s - 8).
  { destruct Hs. pose proof (align_down_8 (pos s - 8) ltac:(unfold is_u64; lia)). Z.div_mod_to_equations; lia. }
  eapply run_weaken; [apply (put_bytes_run s (le_bytes v) 8 Hs); change (Z.of_nat (length (le_bytes v))) with 8; lia| |].
  - change (Z.of_nat (length (le_bytes v))) with 8. lia.
  - intros q s' He. change (Z.of_nat (length (le_bytes v))) with 8. rewrite Hal. intros (_ & Hp' & Hb).
    destruct Hs, He as [[? ?] ? ?]. split; [cbn [length]; lia|]. apply words_at_singleton. rewrite Hp'. apply read_bytes_at; [lia..|done|done].
Qed.

Lemma put_u64_any s v :
  buf_ok s -> 15 <= pos s -> run_at s (put_u64 v) 15 (fun _ s' => pos s' mod 8 = 0).
Proof.
  intros Hs Hp. assert (Hal : pos s - 15 <= align_down (pos s - 8) 8 <= pos s - 8 /\ align_down (pos s - 8) 8 mod 8 = 0).
  { destruct Hs. pose proof (align_down_8 (pos s - 8) ltac:(unfold is_u64; lia)). Z.div_mod_to_equations; lia. }
  eapply run_weaken; [apply (put_bytes_run s (le_bytes v) 8 Hs); change (Z.of_nat (length (le_bytes v))) with 8; lia| |].
  - change (Z.of_nat (length (le_bytes v))) with 8. lia.
  - intros q s' He. change (Z.of_nat (length (le_bytes v))) with 8. intros (_ & -> & _). apply Hal.
Qed.

Lemma put_slice_run s l :
  buf_ok s -> l <> [] -> Z.of_nat (length l) <= pos s ->
  run_at s (put_slice l) (Z.of_nat (length l))
    (fun q s' => q = pos s' /\ pos s' = pos s - Z.of_nat (length l) /\ bytes_at (ss_mem s') q l).
Proof.
  intros Hs Hne Hlen. unfold put_slice. destruct (Nat.eqb_spec (length l) 0) as [H0|_]; [by destruct l|].
  assert (Hal : align_down (pos s - Z.of_nat (length l)) 1 = pos s - Z.of_nat (length l)).
  { destruct Hs. apply align_down_1. unfold is_u64. lia. }
  eapply run_weaken; [apply (put_bytes_run s l 1 Hs Hlen); lia|lia|].
  intros q s' He (-> & Hp & Hb). rewrite Hal in *. split_and!; [lia|lia|done].
Qed.

(** The string [cs] at [p], between [lo] and [hi]. *)
Definition placed (s : StackState) (hi p : Z) (cs : list Z) : Prop :=
  pos s <= p /\ p + Z.of_nat (length cs) + 1 <= hi /\ string_at (ss_mem s) p cs.

Lemma placed_extends s s' hi hi' p cs :
  extends s s' -> hi <= hi' -> placed s hi p cs -> placed s' hi' p cs.
Proof.
  intros [Hok _ _ Hpos Hm] Hhi (Hlo & Hle & H1 & H2). split_and!; [lia|lia|]. split.
  - intros i x Hx. pose proof (lookup_lt_Some _ _ _ Hx). rewrite Hm by lia. by apply H1.
  - by rewrite Hm by lia.
Qed.

Lemma placed_all_extends s s' hi hi' ps css :
  extends s s' -> hi <= hi' -> Forall2 (placed s hi) ps css -> Forall2 (placed s' hi') ps css.
Proof. intros He Hhi. apply Forall2_impl. intros p cs. by apply placed_extends. Qed.

(** The bytes a string takes. *)
Definition cstrs_size (l : list (list Z)) : Z := foldr (fun cs acc => Z.of_nat (length cs) + 1 + acc) 0 l.

Definition nonzero (cs : list Z) : Prop := Forall (fun x => x <> 0) cs.

Lemma cstrs_size_cons cs l : cstrs_size (cs :: l) = Z.of_nat (length cs) + 1 + cstrs_size l.
Proof. reflexivity. Qed.

Lemma cstrs_size_nonneg l : 0 <= cstrs_size l.
Proof. induction l as [|cs l IH]; [done|]. rewrite cstrs_size_cons. lia. Qed.

Lemma cstrs_size_app l1 l2 : cstrs_size (l1 ++ l2) = cstrs_size l1 + cstrs_size l2.
Proof. induction l1 as [|cs l IH]; [done|]. cbn [app]. rewrite !cstrs_size_cons, IH. lia. Qed.

Lemma cstrs_size_reverse l : cstrs_size (reverse l) = cstrs_size l.
Proof. induction l as [|cs l IH]; [done|]. rewrite reverse_cons, cstrs_size_app, IH, !cstrs_size_cons. cbn. lia. Qed.

Lemma put_cstr_run s cs :
  buf_ok s -> nonzero cs -> Z.of_nat (length cs) + 1 <= pos s ->
  run_at s (put_cstr cs) (Z.of_nat (length cs) + 1) (fun p s' => placed s' (pos s) p cs).
Proof.
  intros Hs Hnz Hlen. assert (Hl : Z.of_nat (length (cs ++ [0])) = Z.of_nat (length cs) + 1) by (rewrite length_app; cbn; lia).
  eapply run_weaken; [apply put_slice_run; [done|by destruct cs|lia]|lia|].
  intros p s' He (-> & Hp & Hb). rewrite Hl in Hp. split_and!; [lia|lia|]. split.
  - intros i x Hx. split; [apply Hb; by apply lookup_app_l_Some|]. unfold nonzero in Hnz. rewrite Forall_lookup in Hnz. eauto.
  - apply Hb. by rewrite list_lookup_middle.
Qed.

Lemma clone_loop_run : forall cstrings done_ ps s hi,
  buf_ok s -> Forall nonzero cstrings -> cstrs_size cstrings <= pos s -> pos s <= hi ->
  Forall2 (placed s hi) ps done_ ->
  run_at s (clone_loop cstrings ps) (cstrs_size cstrings) (fun ps' s' => Forall2 (placed s' hi) ps' (done_ ++ cstrings)).
Proof.
  induction cstrings as [|cs rest IH]; intros done_ ps s hi Hs Hnz Hlen Hhi Hps.
  - apply run_at_ok; [done|]. by rewrite app_nil_r.
  - apply list.Forall_cons in Hnz as [Hcs Hrest]. pose proof (cstrs_size_nonneg rest). rewrite cstrs_size_cons in *. cbn [clone_loop].
    eapply run_bind; [apply put_cstr_run; [done|done|lia]|lia| |done].
    intros p s1 He Hm Hp. eapply run_weaken; [apply (IH (done_ ++ [cs]) (ps ++ [p]) s1 hi)|done|].
    + apply He.
    + done.
    + done.
    + destruct He. lia.
    + apply Forall2_app; [eapply placed_all_extends; [exact He|reflexivity|exact Hps]|]. apply list.Forall2_cons. split; [|done].
      eapply placed_extends; [apply extends_refl, He| |exact Hp]. lia.
    + cbn. intros ps' s' _ Hf _ _. by rewrite <- app_assoc in Hf.
Qed.

Lemma clone_cstrings_run s l :
  buf_ok s -> Forall nonzero l -> cstrs_size l <= pos s ->
  run_at s (clone_cstrings_on_stack l) (cstrs_size l) (fun ps s' => Forall2 (placed s' (pos s)) ps l).
Proof.
  intros Hs Hnz Hlen. unfold clone_cstrings_on_stack. rewrite <- (Z.add_0_r (cstrs_size l)).
  eapply run_bind; [eapply run_weaken; [apply (clone_loop_run (reverse l) [] [] s (pos s))|..]|lia| |lia].
  - done.
  - by apply Forall_reverse.
  - by rewrite cstrs_size_reverse.
  - lia.
  - done.
  - by rewrite cstrs_size_reverse.
  - intros a s' _ H. exact H.
  - intros ps s1 He _ Hf. apply run_at_ok; [apply He|]. intros _ _. rewrite <- (reverse_involutive l). by apply Forall2_reverse.
Qed.

(** A loop that pushes the words [g x] for every [x]. *)
Lemma for_each_run {A} (f : A -> SS unit) (g : A -> list Z) (l : list A) : forall s,
  (forall x s, x ∈ l -> buf_ok s -> 8 * Z.of_nat (length (g x)) <= pos s -> pos s mod 8 = 0 ->
     run_at s (f x) (8 * Z.of_nat (length (g x))) (fun _ s' => pushed s s' (g x))) ->
  buf_ok s -> 8 * Z.of_nat (length (l ≫= g)) <= pos s -> pos s mod 8 = 0 ->
  run_at s (for_each f l) (8 * Z.of_nat (length (l ≫= g))) (fun _ s' => pushed s s' (l ≫= g)).
Proof.
  induction l as [|x l IH]; intros s Hf Hs Hlen Ha.
  - apply run_at_ok; [done|]. split; [cbn; lia|]. intros i v Hi. done.
  - change ((x :: l) ≫= g) with (g x ++ (l ≫= g)) in *. rewrite length_app, Nat2Z.inj_add, Z.mul_add_distr_l in *. cbn [for_each].
    eapply run_bind; [apply Hf; [left|done|lia|done]|lia| |lia].
    intros u s1 He Hm Hp. eapply run_weaken; [apply IH|done|].
    + intros y s2 Hy. apply Hf. by right.
    + apply He.
    + done.
    + rewrite (proj1 Hp). Z.div_mod_to_equations; lia.
    + intros w s2 He2 Hp2 _ _. by eapply pushed_app.
Qed.

(** Two pushes in a row. *)
Lemma push_then {A} s (v : Z) (c : SS A) (l : list Z) :
  buf_ok s -> 8 + 8 * Z.of_nat (length l) <= pos s -> pos s mod 8 = 0 -> is_u64 v ->
  (forall s1, buf_ok s1 -> 8 * Z.of_nat (length l) <= pos s1 -> pos s1 mod 8 = 0 ->
     run_at s1 c (8 * Z.of_nat (length l)) (fun a s2 => pushed s1 s2 l)) ->
  run_at s (put_u64 v ≫= fun _ => c) (8 * Z.of_nat (length (v :: l))) (fun _ s' => pushed s s' (v :: l)).
Proof.
  intros Hs Hlen Ha Hv Hc. replace (8 * Z.of_nat (length (v :: l))) with (8 + 8 * Z.of_nat (length l)) by (cbn [length]; lia).
  eapply run_bind; [apply put_u64_aligned; [done|lia|done|done]|lia| |lia].
  intros u s1 He Hm Hp. eapply run_weaken; [apply Hc|done|].
  - apply He.
  - done.
  - rewrite (proj1 Hp). cbn [length]. Z.div_mod_to_equations; lia.
  - intros a s2 He2 Hp2 _ _. change (v :: l) with ([v] ++ l). by eapply pushed_app.
Qed.

Lemma push_done s (v : Z) :
  buf_ok s -> 8 <= pos s -> pos s mod 8 = 0 -> is_u64 v ->
  run_at s (put_u64 v ≫= fun _ => ok tt) 8 (fun _ s' => pushed s s' [v]).
Proof.
  intros Hs Hp Ha Hv. apply (push_then s v (ok tt) [] Hs ltac:(cbn; lia) Ha Hv).
  intros s1 Hs1 _ _. apply run_at_ok; [done|]. split; [cbn; lia|]. intros i x Hi. done.
Qed.

Lemma run_get_pos {A} s (k : Z -> SS A) n Q : run_at s (k (pos s)) n Q -> run_at s (get_pos ≫= k) n Q.
Proof. exact id. Qed.

Lemma sub64_mod16 x y : (x -64 y) mod 16 = (x - y) mod 16.
Proof. unfold sub64, wrap64. apply Z.mod_mod_divide. by exists (2 ^ 60). Qed.

Section runs.
Context {AO : AuxOrder}.

Definition aux_puts (t : AuxVec) : list Z := 0 :: 0 :: (aux_order (map_to_list t) ≫= fun kv => [kv.2; kv.1]).
Definition ptr_puts (ps : list Z) : list Z := 0 :: reverse ps.

Lemma length_pairs (l : list (Z * Z)) : length (l ≫= fun kv => [kv.2; kv.1]) = (2 * length l)%nat.
Proof. induction l as [|kv l IH]; [done|]. cbn in *. lia. Qed.

Lemma length_aux_puts t : 8 * Z.of_nat (length (aux_puts t)) = calc_auxtbl_size_on_stack t.
Proof.
  unfold aux_puts, calc_auxtbl_size_on_stack. cbn [length]. rewrite length_pairs, (Permutation_length (aux_order_perm _)).
  rewrite length_map_to_list. lia.
Qed.

Lemma length_ptr_puts ps : 8 * Z.of_nat (length (ptr_puts ps)) = calc_cstrptrs_size_on_stack ps.
Proof. unfold ptr_puts, calc_cstrptrs_size_on_stack. cbn [length]. rewrite length_reverse. lia. Qed.

Definition aux_u64 (t : AuxVec) : Prop := map_Forall (fun k v => is_u64 k /\ is_u64 v) t.

Lemma u64_0 : is_u64 0.
Proof. unfold is_u64, u64_modulus. lia. Qed.

Lemma dump_auxtbl_run s t :
  buf_ok s -> calc_auxtbl_size_on_stack t <= pos s -> pos s mod 8 = 0 -> aux_u64 t ->
  run_at s (dump_auxtbl_on_stack t) (calc_auxtbl_size_on_stack t) (fun _ s' => pushed s s' (aux_puts t)).
Proof.
  intros Hs Hlen Ha Ht. rewrite <- length_aux_puts in *. unfold dump_auxtbl_on_stack.
  apply (push_then s 0 _ _); [done|cbn [aux_puts length] in *; lia|done|apply u64_0|].
  intros s1 Hs1 Hl1 Ha1. apply (push_then s1 0 _ _); [done|cbn [length] in *; lia|done|apply u64_0|].
  intros s2 Hs2 Hl2 Ha2. apply for_each_run; [|done..]. intros [k v] s3 Hin Hs3 Hl3 Ha3.
  rewrite (aux_order_perm _) in Hin. apply elem_of_map_to_list in Hin. destruct (Ht k v Hin) as [Hk Hv]. cbn [fst snd].
  apply (push_then s3 v _ [k]); [done|cbn [length] in *; lia|done|done|].
  intros s4 Hs4 Hl4 Ha4. apply push_done; [done|cbn [length] in *; lia|done|done].
Qed.

Lemma dump_cstrptrs_run s ps :
  buf_ok s -> calc_cstrptrs_size_on_stack ps <= pos s -> pos s mod 8 = 0 -> Forall is_u64 ps ->
  run_at s (dump_cstrptrs_on_stack ps) (calc_cstrptrs_size_on_stack ps) (fun _ s' => pushed s s' (ptr_puts ps)).
Proof.
  intros Hs Hlen Ha Hps. rewrite <- length_ptr_puts in *. unfold dump_cstrptrs_on_stack.
  apply (push_then s 0 _ _); [done|cbn [ptr_puts length] in *; lia|done|apply u64_0|].
  intros s1 Hs1 Hl1 Ha1. pose proof (for_each_run (fun sp => _ ← put_u64 sp; ok tt) (fun p => [p]) (reverse ps) s1) as H.
  (assert (Hb : forall l : list Z, l ≫= (fun p => [p]) = l) by (induction l as [|? ? IH]; [done|]; cbn in *; by rewrite IH); rewrite Hb in H).
  apply H; [|done..]. intros p s2 Hin Hs2 Hl2 Ha2. rewrite elem_of_reverse in Hin.
  rewrite list.Forall_forall in Hps. apply push_done; [done|cbn [length] in *; lia|done|by apply Hps].
Qed.

(** The words behind the alignment end at a multiple of 16. *)
Lemma adjust_alignment_run s t envp argv :
  let n := calc_auxtbl_size_on_stack t + calc_cstrptrs_size_on_stack envp + calc_cstrptrs_size_on_stack argv + 8 in
  buf_ok s -> 23 + n <= pos s ->
  run_at s (adjust_alignment t envp argv) 23 (fun _ s' => pos s' mod 8 = 0 /\ (pos s' - n) mod 16 = 0).
Proof.
  intros n Hs Hlen. unfold adjust_alignment. assert (Hn : 0 <= calc_auxtbl_size_on_stack t /\ 0 <= calc_cstrptrs_size_on_stack envp /\ 0 <= calc_cstrptrs_size_on_stack argv /\ n mod 8 = 0).
  { unfold n, calc_auxtbl_size_on_stack, calc_cstrptrs_size_on_stack. Z.div_mod_to_equations; lia. }
  change 23 with (15 + 8). eapply run_bind; [apply put_u64_any; [done|lia]|lia| |lia].
  intros u s1 He Hm Ha. pose proof (ext_ok _ _ He) as [? ?]. pose proof (ext_top _ _ He). destruct Hs as [? ?].
  cbn beta in Ha. apply run_get_pos. rewrite (add64_small (calc_auxtbl_size_on_stack t)) by lia.
  do 2 rewrite add64_small with (x := _ + _) by lia. rewrite sub64_mod16. fold n.
  destruct (Z.eqb_spec ((pos s1 - n) mod 16) 0) as [Hz|Hnz]; cbn [negb].
  - eapply run_weaken; [apply (run_at_ok s1 tt (fun _ s2 => s2 = s1)); done|lia|]. intros w s2 _ -> _ _. done.
  - eapply run_weaken; [apply push_done; [done|lia|done|apply u64_0]|lia|]. intros w s2 _ [-> _] _ _. cbn [length].
    Z.div_mod_to_equations; lia.
Qed.

(** The table, from the stack pointer up. *)
Definition table_words (argc : Z) (argv envp : list Z) (l : list (Z * Z)) : list Z :=
  [argc] ++ (argv ++ [0]) ++ (envp ++ [0]) ++ (l ≫= fun kv => [kv.1; kv.2]) ++ [0; 0].

Lemma reverse_pairs (l : list (Z * Z)) :
  reverse (l ≫= fun kv => [kv.2; kv.1]) = reverse l ≫= fun kv => [kv.1; kv.2].
Proof.
  induction l as [|kv l IH]; [done|]. rewrite reverse_cons, bind_app, <- IH.
  change ((kv :: l) ≫= _) with ([kv.2; kv.1] ++ (l ≫= fun kv => [kv.2; kv.1])). by rewrite reverse_app.
Qed.

Lemma table_reverse argc argv envp t :
  reverse (aux_puts t ++ ptr_puts envp ++ ptr_puts argv ++ [argc])
  = table_words argc argv envp (reverse (aux_order (map_to_list t))).
Proof.
  unfold table_words, aux_puts, ptr_puts. rewrite !reverse_app, !reverse_cons, !reverse_involutive, reverse_pairs.
  by rewrite <- !app_assoc.
Qed.

Definition table_size (n argc envc : nat) : Z :=
  (Z.of_nat n + 1) * 16 + (Z.of_nat envc + 1) * 8 + (Z.of_nat argc + 1) * 8 + 8.

Definition init_table (t : AuxVec) (envp argv : list Z) (argc : Z) : SS (Z * AuxVec) :=
  _ ← adjust_alignment t envp argv;
  _ ← dump_auxtbl_on_stack t;
  _ ← dump_cstrptrs_on_stack envp;
  _ ← dump_cstrptrs_on_stack argv;
  _ ← put_u64 argc;
  pos ← get_pos;
  ok (pos, t).

(** The pushes behind the alignment. *)
Lemma init_dump_run s t envp argv argc :
  let n := table_size (size t) (length argv) (length envp) in
  buf_ok s -> n <= pos s -> pos s mod 8 = 0 -> aux_u64 t -> Forall is_u64 envp -> Forall is_u64 argv -> is_u64 argc ->
  run_at s (_ ← dump_auxtbl_on_stack t; _ ← dump_cstrptrs_on_stack envp; _ ← dump_cstrptrs_on_stack argv;
            _ ← put_u64 argc; pos ← get_pos; ok (pos, t)) n
    (fun r s' => r = (pos s', t) /\ pushed s s' (aux_puts t ++ ptr_puts envp ++ ptr_puts argv ++ [argc])).
Proof.
  intros n Hs Hn Ha Ht He Hv Hc.
  assert (H8 : forall s s' l, pushed s s' l -> pos s mod 8 = 0 -> pos s' mod 8 = 0)
    by (intros s1 s2 l [-> _]; Z.div_mod_to_equations; lia).
  assert (Hlen : n = calc_auxtbl_size_on_stack t + (calc_cstrptrs_size_on_stack envp + (calc_cstrptrs_size_on_stack argv + 8)))
    by (unfold n, table_size, calc_auxtbl_size_on_stack, calc_cstrptrs_size_on_stack; lia).
  assert (Hnn : 0 <= calc_auxtbl_size_on_stack t /\ 0 <= calc_cstrptrs_size_on_stack envp /\ 0 <= calc_cstrptrs_size_on_stack argv)
    by (unfold calc_auxtbl_size_on_stack, calc_cstrptrs_size_on_stack; lia).
  rewrite Hlen. clearbody n. subst n.
  eapply run_bind; [apply dump_auxtbl_run; [done|lia|done|done]|lia| |lia]. intros u1 s1 E1 L1 P1. pose proof (H8 _ _ _ P1 Ha) as A1.
  eapply run_bind; [apply dump_cstrptrs_run; [apply E1|lia|done|done]|lia| |lia]. intros u2 s2 E2 L2 P2. pose proof (H8 _ _ _ P2 A1) as A2.
  eapply run_bind; [apply dump_cstrptrs_run; [apply E2|lia|done|done]|lia| |lia]. intros u3 s3 E3 L3 P3. pose proof (H8 _ _ _ P3 A2) as A3.
  rewrite <- (Z.add_0_r 8) at 1. eapply run_bind; [apply put_u64_aligned; [apply E3|lia|done|done]|lia| |lia].
  intros u4 s4 E4 L4 P4; cbn beta in P4. apply run_get_pos, run_at_ok; [apply E4|]. intros. split; [done|].
  eapply pushed_app; [done|exact E1|done|done|]. eapply pushed_app; [apply E1|exact E2|by eapply extends_trans|done|].
  eapply pushed_app; [apply E2|exact E3|done|done|done].
Qed.

Lemma init_table_run s t envp argv argc :
  let n := 23 + table_size (size t) (length argv) (length envp) in
  buf_ok s -> n <= pos s -> aux_u64 t -> Forall is_u64 envp -> Forall is_u64 argv -> is_u64 argc ->
  run_at s (init_table t envp argv argc) n (fun r s' =>
    r = (pos s', t) /\ pos s' mod 16 = 0 /\ pos s' + 8 * (Z.of_nat (length argv) + Z.of_nat (length envp) + 3) <= pos s
    /\ words_at (ss_mem s') (pos s') (table_words argc argv envp (reverse (aux_order (map_to_list t))))).
Proof.
  intros n Hs Hn Ht He Hv Hc.
  assert (Hsz : table_size (size t) (length argv) (length envp)
    = calc_auxtbl_size_on_stack t + calc_cstrptrs_size_on_stack envp + calc_cstrptrs_size_on_stack argv + 8) by done.
  assert (Hnn : 8 <= table_size (size t) (length argv) (length envp)) by (unfold table_size; lia).
  unfold init_table. eapply run_bind; [apply adjust_alignment_run; [done|lia]|lia| |lia].
  intros u s1 E1 L1 [A1 A2]. eapply run_weaken; [apply init_dump_run; [apply E1|done..]|done|].
  intros r s2 E2 [-> [Hp Hw]] _ _. rewrite table_reverse in Hw.
  rewrite !length_app, !Nat2Z.inj_add, !Z.mul_add_distr_l, length_aux_puts, !length_ptr_puts in Hp. cbn [length] in Hp.
  destruct E1. split_and!; [done| |unfold table_size in *; lia|done].
  replace (pos s2) with (pos s1 - table_size (size t) (length argv) (length envp)) by lia. by rewrite Hsz.
Qed.

(** The bytes the stack takes at most. *)
Definition needed (argv envp : list (list Z)) (auxtbl : AuxVec) : Z :=
  cstrs_size envp + (cstrs_size argv + (16 + (23 + table_size (size auxtbl + 1) (length argv) (length envp)))).

Lemma placed_u64 s hi ps css : buf_ok s -> hi < u64_modulus -> Forall2 (placed s hi) ps css -> Forall is_u64 ps.
Proof.
  intros [? ?] Hhi HF. eapply Forall2_Forall_l; [exact HF|]. apply list.Forall_forall. intros cs _ p (? & ? & _).
  unfold is_u64. lia.
Qed.

Lemma bytes_at_extends s s' p l : extends s s' -> pos s <= p -> bytes_at (ss_mem s) p l -> bytes_at (ss_mem s') p l.
Proof. intros [_ _ _ _ Hm] Hp H i x Hx. rewrite Hm by lia. by apply H. Qed.

(** What the call leaves, with the pointers to the strings. *)
Definition init_post (argv envp : list (list Z)) (auxtbl : AuxVec) (rand : list Z) (s : StackState) (r : Z * AuxVec) (s' : StackState) : Prop :=
  exists s1 ptr envp_cloned argv_cloned,
    r = (pos s', <[AuxKey_code AT_RANDOM := ptr]> auxtbl)
    /\ extends s1 s' /\ pos s' + 8 * (Z.of_nat (length argv) + Z.of_nat (length envp) + 3) <= pos s1 /\ pos s1 <= pos s
    /\ pos s' mod 16 = 0 /\ bytes_at (ss_mem s') ptr rand
    /\ Forall2 (placed s1 (pos s)) envp_cloned envp /\ Forall2 (placed s1 (pos s)) argv_cloned argv
    /\ words_at (ss_mem s') (pos s')
         (table_words (Z.of_nat (length argv)) argv_cloned envp_cloned (reverse (aux_order (map_to_list r.2)))).

Lemma generate_random_run s rand :
  buf_ok s -> 16 <= pos s -> length rand = 16%nat ->
  run_at s (generate_random_on_stack (Ok rand)) 16 (fun q s' => q = pos s' /\ pos s' = pos s - 16 /\ bytes_at (ss_mem s') q rand).
Proof.
  intros Hs Hp Hr. change 16 with (Z.of_nat 16) in *. rewrite <- Hr in *. apply (put_slice_run s rand Hs); [by destruct rand|done].
Qed.

Lemma size_insert_le (t : AuxVec) k v : (size (<[k := v]> t) <= size t + 1)%nat.
Proof. destruct (t !! k) eqn:E; [rewrite map_size_insert_Some by eauto|rewrite map_size_insert_None by done]; lia. Qed.

Lemma init_stack_run s argv envp auxtbl rand :
  buf_ok s -> needed argv envp auxtbl <= pos s -> Forall nonzero argv -> Forall nonzero envp ->
  length rand = 16%nat -> aux_u64 auxtbl ->
  run_at s (init_stack argv envp auxtbl (Ok rand)) (needed argv envp auxtbl) (init_post argv envp auxtbl rand s).
Proof.
  intros Hs Hn Hav Hev Hr Ht. unfold needed in *. pose proof (cstrs_size_nonneg argv). pose proof (cstrs_size_nonneg envp).
  set (n := table_size _ _ _) in *. assert (16 <= n) by (subst n; unfold table_size; lia).
  unfold init_stack. eapply run_bind; [apply clone_cstrings_run; [done|done|lia]|lia| |lia]. intros ec s1 E1 L1 P1.
  eapply run_bind; [apply clone_cstrings_run; [apply E1|done|lia]|lia| |lia]. intros ac s2 E2 L2 P2.
  eapply run_bind; [apply generate_random_run; [apply E2|lia|done]|lia| |lia].
  intros ptr s3 E3 L3 (-> & Hp3 & Hb3). set (t := <[AuxKey_code AT_RANDOM := pos s3]> auxtbl : AuxVec).
  pose proof (placed_all_extends _ _ (pos s) (pos s) _ _ (extends_trans _ _ _ E2 E3) ltac:(lia) P1) as Q1.
  pose proof (placed_all_extends _ _ (pos s1) (pos s) _ _ E3 (ext_pos _ _ E1) P2) as Q2.
  pose proof (list.Forall2_length _ _ _ Q1) as N1. pose proof (list.Forall2_length _ _ _ Q2) as N2.
  pose proof (size_insert_le auxtbl (AuxKey_code AT_RANDOM) (pos s3)) as Hsz. destruct Hs as [Hs1 Hs2].
  pose proof (ext_ok _ _ E3) as B3. pose proof (ext_top _ _ E3). pose proof (ext_top _ _ E2). pose proof (ext_top _ _ E1).
  match goal with |- run_at _ _ _ ?Q => change (run_at s3 (init_table t ec ac (Z.of_nat (length argv))) (23 + n) Q) end.
  eapply run_weaken; [apply (init_table_run s3 t ec ac (Z.of_nat (length argv)) B3)| |].
  - rewrite N1, N2. unfold n, table_size in *. subst t. cbn in *. lia.
  - apply map_Forall_insert_2; [|done]. destruct B3. split; [unfold is_u64, u64_modulus; cbn; lia|unfold is_u64; lia].
  - eapply placed_u64; [exact B3| |exact Q1]. lia.
  - eapply placed_u64; [exact B3| |exact Q2]. lia.
  - unfold is_u64. unfold n, table_size in *. lia.
  - rewrite N1, N2. unfold n, table_size in *. subst t. cbn in *. lia.
  - intros r s4 E4 (-> & A4 & Hlt & Hw) _ _ _ _ _ _ . exists s3, (pos s3), ec, ac. rewrite N1, N2 in Hlt.
    destruct E1, E2, E3. split_and!; try done; try lia. by eapply bytes_at_extends.
Qed.
End runs.

(** * The stack as the program reads it *)

(** A null-terminated array of strings is read back by the copy that system calls make. *)
Lemma strings_read_back ur s lo hi p ps css fuel sfuel :
  VMRange_wf ur -> (forall a, lo <= a < hi -> a ∈ ur) -> enough ur fuel -> enough ur sfuel ->
  0 <= lo < p -> hi < u64_modulus -> p + 8 * (Z.of_nat (length ps) + 1) <= hi ->
  words_at (ss_mem s) p (ps ++ [0]) ->
  Forall2 (fun q cs => lo < q /\ q + Z.of_nat (length cs) + 1 <= hi /\ string_at (ss_mem s) q cs) ps css ->
  clone_cstrings_safely ur (ss_mem s) fuel sfuel p = Some (Ok css).
Proof.
  intros Hwf Hin Hf Hsf Hp Hhi Hle Hw Hps. apply words_at_app in Hw as [Hw H0]. apply words_at_singleton in H0.
  pose proof (list.Forall2_length _ _ _ Hps) as Hlen. unfold clone_cstrings_safely. rewrite (proj2 (Z.eqb_neq p 0)) by lia.
  assert (Hq : forall i, (i < length css)%nat -> exists q cs, css !! i = Some cs /\ read_ptr (ss_mem s) (p + 8 * Z.of_nat i) = q
    /\ lo < q /\ q + Z.of_nat (length cs) + 1 <= hi /\ string_at (ss_mem s) q cs).
  { intros i Hi. destruct (lookup_lt_is_Some_2 css i Hi) as [cs Hcs]. destruct (list.Forall2_lookup_r _ _ _ _ _ Hps Hcs) as (q & Hq & H).
    exists q, cs. rewrite (Hw i q Hq). tauto. }
  pose proof (clone_loop_complete ur (ss_mem s) Hwf p css sfuel Hsf css [] fuel eq_refl) as H.
  cbn [length] in H. rewrite Z.mul_0_r, Z.add_0_r in H. apply H; clear H.
  - intros i cs Hi. pose proof (lookup_lt_Some _ _ _ Hi) as Hlt. destruct (Hq i Hlt) as (q & cs' & Hcs & -> & H1 & H2 & H3).
    rewrite Hi in Hcs. injection Hcs as <-. split_and!; [|done|]; intros j Hj; apply Hin; lia.
  - intros i Hi. destruct (Hq i Hi) as (q & cs' & _ & -> & H1 & _). lia.
  - intros i Hi. split; [unfold is_u64; lia|]. destruct (decide (i = length css)) as [->|Hne].
    + rewrite <- Hlen, H0. apply u64_0.
    + destruct (Hq i ltac:(lia)) as (q & cs' & _ & -> & H1 & H2 & _). unfold is_u64. lia.
  - intros j Hj. apply Hin. lia.
  - by rewrite <- Hlen.
  - destruct Hwf. unfold enough in Hf. pose proof (Hin lo ltac:(lia)) as I1. pose proof (Hin (hi - 1) ltac:(lia)) as I2. vmrange_unfold. lia.
Qed.

(** A program that starts with the stack pointer [sp] and the memory [m']. *)
Record initial_stack (m : Z -> Z) (top bottom : Z) (argv envp : list (list Z)) (auxtbl : AuxVec) (rand : list Z)
    (sp : Z) (tbl : AuxVec) (m' : Z -> Z) : Prop := {
  init_area : bottom <= sp < top /\ sp mod 16 = 0;
  init_frame a : a < sp \/ top <= a -> m' a = m a;
  init_argc : read_ptr m' sp = Z.of_nat (length argv);
  init_strings ur fuel sfuel :
    VMRange_wf ur -> (forall a, sp <= a < top -> a ∈ ur) -> enough ur fuel -> enough ur sfuel ->
    clone_cstrings_safely ur m' fuel sfuel (sp + 8) = Some (Ok argv)
    /\ clone_cstrings_safely ur m' fuel sfuel (sp + 8 * (Z.of_nat (length argv) + 2)) = Some (Ok envp);
  init_auxv : exists ptr l,
    tbl = <[AuxKey_code AT_RANDOM := ptr]> auxtbl /\ bytes_at m' ptr rand /\ l ≡ₚ map_to_list tbl
    /\ words_at m' (sp + 8 * (Z.of_nat (length argv) + Z.of_nat (length envp) + 3)) ((l ≫= fun kv => [kv.1; kv.2]) ++ [0; 0]);
}.

Section theorem.
Context {AO : AuxOrder}.

Lemma placed_read s1 s' hi ps css :
  extends s1 s' -> pos s' < pos s1 -> Forall2 (placed s1 hi) ps css ->
  Forall2 (fun q cs => pos s' < q /\ q + Z.of_nat (length cs) + 1 <= hi /\ string_at (ss_mem s') q cs) ps css.
Proof.
  intros He Hlt. apply Forall2_impl. intros q cs Hq. destruct (placed_extends _ _ hi hi _ _ He ltac:(lia) Hq) as (? & ? & ?).
  destruct Hq. split_and!; [lia|done|done].
Qed.

Lemma init_post_stack s argv envp auxtbl rand r s' :
  buf_ok s -> pos s = stack_top (ss_buf s) -> extends s s' -> init_post argv envp auxtbl rand s r s' ->
  initial_stack (ss_mem s) (stack_top (ss_buf s)) (stack_bottom (ss_buf s)) argv envp auxtbl rand r.1 r.2 (ss_mem s').
Proof.
  intros [B1 B2] Htop E (s1 & ptr & ec & ac & -> & E1 & Hlt & Hle & A & Hb & Pe & Pa & Hw). cbn [fst snd] in *.
  pose proof (list.Forall2_length _ _ _ Pe) as Ne. pose proof (list.Forall2_length _ _ _ Pa) as Na.
  destruct E as [[B1' B2'] Et Eb Ep Em]. pose proof (ext_top _ _ E1) as Et1. unfold table_words in Hw.
  apply words_at_app in Hw as [Hc Hw]. apply words_at_app in Hw as [Ha Hw]. apply words_at_app in Hw as [He Hw].
  apply words_at_singleton in Hc. rewrite ?length_app, ?Ne, ?Na in *. cbn [length] in *. split; [split; [lia|done]|..].
  - intros a Ha'. apply Em. lia.
  - done.
  - intros ur fuel sfuel Hwf Hin Hf Hsf. rewrite <- Htop in Hin. pose proof (placed_read s1 s' _ _ _ E1 ltac:(lia) Pe) as Qe.
    pose proof (placed_read s1 s' _ _ _ E1 ltac:(lia) Pa) as Qa. pose proof (strings_read_back ur s' (pos s') (pos s)) as H.
    split; (eapply H; [done|done|done|done| | | | |done]); try lia.
    + done.
    + eapply words_at_eq; [|exact He]. lia.
  - exists ptr. eexists. split_and!; [done|done| |].
    2: { eapply words_at_eq; [|exact Hw]. lia. }
    by rewrite reverse_Permutation, aux_order_perm.
Qed.

(** C34: the stack of a new program, for arguments and variables without zero bytes whose size does not
    exceed the address of the stack's top: the call fails with [EINVAL] exactly when the area is not
    valid and with [ENOMEM] only when the area is too small; otherwise the stack pointer is a multiple
    of 16 in the area, only bytes from it to the top are written, the count is at the pointer, both
    arrays are read back as the strings given, by the copy that system calls make, and behind them are
    the pairs of the auxiliary table, in which [AT_RANDOM] points to the random bytes, and its end. *)
Theorem do_init_spec m top init_area_size argv envp auxtbl rand :
  is_u64 top -> 0 <= init_area_size -> needed argv envp auxtbl <= top ->
  Forall nonzero argv -> Forall nonzero envp -> length rand = 16%nat -> aux_u64 auxtbl ->
  match do_init m top init_area_size argv envp auxtbl (Ok rand) with
  | Ok (sp, tbl, m') => initial_stack m top (top - init_area_size) argv envp auxtbl rand sp tbl m'
  | Err e =>
      let valid := top mod 16 = 0 /\ 0 < init_area_size <= top in
      (e = EINVAL /\ ~ valid) \/ (e = ENOMEM /\ valid /\ init_area_size < needed argv envp auxtbl)
  | Panic => False
  end.
Proof.
  intros Htop Harea Hn Hav Hev Hr Ht. unfold do_init, StackBuf_new.
  destruct (Z.eqb_spec (top mod 16) 0), (Z.eqb_spec init_area_size 0), (Z.ltb_spec top init_area_size); cbn -[init_stack];
    try (left; split; [done|lia]). unfold is_u64 in Htop. rewrite sub64_small by lia.
  set (s := mkStackState _ m). assert (Hs : buf_ok s) by (split; cbn; lia).
  pose proof (init_stack_run s argv envp auxtbl rand Hs Hn Hav Hev Hr Ht) as Hrun. unfold run_at in Hrun.
  destruct (init_stack argv envp auxtbl (Ok rand) s) as [[[sp tbl]|err|] s']; cbn.
  - destruct Hrun as (E & _ & Hpost). apply (init_post_stack s _ _ _ _ (sp, tbl) s' Hs eq_refl E Hpost).
  - right. destruct Hrun as [-> Hlt]. cbn in Hlt. split_and!; [done|done|lia|lia|lia].
  - done.
Qed.
End theorem.

Section example.
#[local] Instance insertion_order : AuxOrder := {| aux_order l := l; aux_order_perm l := Permutation_refl l |}.

(** One argument, ["ab"], one variable, ["c"], and the page size in the table. *)
Lemma do_init_spec_witness :
  let r := do_init (fun _ => 0) 65536 4096 [[97; 98]] [[99]] {[ 6 := 4096 ]} (Ok (replicate 16 7)) in
  match r with
  | Ok (sp, tbl, m') =>
      initial_stack (fun _ => 0) 65536 61440 [[97; 98]] [[99]] {[ 6 := 4096 ]} (replicate 16 7) sp tbl m'
      /\ sp = 65408 /\ tbl = {[ 6 := 4096; 25 := 65515 ]}
  | _ => False
  end.
Proof.
  pose proof (do_init_spec (fun _ => 0) 65536 4096 [[97; 98]] [[99]] {[ 6 := 4096 ]} (replicate 16 7)) as H.
  assert (E : match do_init (fun _ => 0) 65536 4096 [[97; 98]] [[99]] {[ 6 := 4096 ]} (Ok (replicate 16 7)) with
    | Ok r => Some r.1 | _ => None end = Some (65408, {[ 6 := 4096; 25 := 65515 ]})) by (vm_compute; reflexivity).
  cbv zeta. destruct (do_init _ _ _ _ _ _ _) as [[[sp tbl] m']|e|]; [|discriminate E..].
  split; [apply H|by injection E as -> ->].
  - unfold is_u64, u64_modulus. lia.
  - lia.
  - vm_compute. discriminate.
  - repeat constructor; discriminate.
  - repeat constructor; discriminate.
  - reflexivity.
  - apply map_Forall_singleton. unfold is_u64, u64_modulus. lia.
Defined.
End example.
