(* ===== verification/Flock.v ===== *)
(** Whole-file locks: [src/libos/src/fs/locks/flock.rs] and [fs/file_ops/flock.rs].

    The locks of a file are a list; its owners are open files. Any number of threads lock and unlock
    through any open files. A step is what one thread does while it holds the list, a wake-up, or
    the drop of a replaced lock, which comes after the list has been released. *)

From stdpp Require Import gmap.
From S2P Require Import Prelude Errno External Events.

(** * Operations of the system call *)

Section ops.
Context {BF : Bitflags}.

Abbreviation LOCK_SH := 1.
Abbreviation LOCK_EX := 2.
Abbreviation LOCK_NB := 4.
Abbreviation LOCK_UN := 8.

Definition FlockOps_from_i32 (bits : Z) : Result Z :=
  ops ← ok_or (bf_from_bits 15 bits) EINVAL;
  if bf_contains ops LOCK_SH then
    if bf_contains ops LOCK_EX || bf_contains ops LOCK_UN then Err EINVAL else Ok ops
  else if bf_contains ops LOCK_EX then
    if bf_contains ops LOCK_UN then Err EINVAL else Ok ops
  else if negb (bf_contains ops LOCK_UN) then Err EINVAL
  else Ok ops.

Inductive FlockType := SH_LOCK | EX_LOCK.

#[export] Instance FlockType_eq_dec : EqDecision FlockType.
Proof. solve_decision. Defined.

Definition FlockType_from (ops : Z) : Result FlockType :=
  if bf_contains ops LOCK_EX then Ok EX_LOCK
  else if bf_contains ops LOCK_SH then Ok SH_LOCK
  else Panic.

(** What [flock] does with its operation: unlock, or lock with a type, blocking or not. *)
Inductive FlockCall := Unlock | SetLock (type_ : FlockType) (is_nonblocking : bool).

Definition do_flock (operation : Z) : Result FlockCall :=
  ops ← FlockOps_from_i32 operation;
  if bf_contains ops LOCK_UN then Ok Unlock else
  type_ ← FlockType_from ops;
  Ok (SetLock type_ (bf_contains ops LOCK_NB)).

(** The operations are the two types, each with or without [LOCK_NB], and [LOCK_UN] with or without it;
    nothing else is accepted and the conversion to a type never panics. *)
Lemma do_flock_spec operation :
  0 <= operation < 2 ^ 31 ->
  do_flock operation =
    match operation with
    | 1 => Ok (SetLock SH_LOCK false) | 5 => Ok (SetLock SH_LOCK true)
    | 2 => Ok (SetLock EX_LOCK false) | 6 => Ok (SetLock EX_LOCK true)
    | 8 | 12 => Ok Unlock
    | _ => Err EINVAL
    end.
Proof.
  intros Hop. unfold do_flock, FlockOps_from_i32, FlockType_from. rewrite bf_from_bits_law.
  destruct (decide (operation < 16)) as [Hlt|Hge].
  - assert (Hin : operation ∈ [0; 1; 2; 3; 4; 5; 6; 7; 8; 9; 10; 11; 12; 13; 14; 15]) by (rewrite !elem_of_cons; lia).
    repeat (apply elem_of_cons in Hin as [->|Hin]; [unfold mbind, Result_bind; cbn; repeat (rewrite bf_contains_law; cbv -[bf_contains]); reflexivity|]). by apply not_elem_of_nil in Hin.
  - assert (Hnz : Z.ldiff operation 15 <> 0).
    { intros Hz. change 15 with (Z.ones 4) in Hz. rewrite Z.ldiff_ones_r in Hz by lia.
      rewrite Z.shiftr_div_pow2, Z.shiftl_mul_pow2 in Hz by lia. change (2 ^ 4) with 16 in Hz. pose proof (Z.div_le_lower_bound operation 16 1 ltac:(lia) ltac:(lia)). lia. }
    rewrite (proj2 (Z.eqb_neq _ _) Hnz). cbn. destruct operation as [|p|p]; try lia; do 4 (destruct p as [p|p|]; try done; try lia).
Qed.
End ops.

(** * Locks *)

Record Flock := mkFlock {
  fl_owner : Z;
  fl_type : FlockType;
  fl_waiters : option (list Z);
}.

Definition Flock_new (owner : Z) (type_ : FlockType) : Flock := mkFlock owner type_ None.

Definition same_owner_with (self other : Flock) : bool := fl_owner self =? fl_owner other.

Definition conflict_with (self other : Flock) : bool :=
  if same_owner_with self other then false
  else bool_decide (fl_type self = EX_LOCK) || bool_decide (fl_type other = EX_LOCK).

Definition enqueue_waiter (self : Flock) (waiter : Z) (woken : gset Z) : Flock * gset Z :=
  let q := reset_and_enqueue waiter (default [] (fl_waiters self), woken) in
  (mkFlock (fl_owner self) (fl_type self) (Some q.1), q.2).

Definition dequeue_and_wake_all_waiters (self : Flock) (woken : gset Z) : gset Z :=
  match fl_waiters self with Some q => (dequeue_and_wake_all (q, woken)).2 | None => woken end.

(** * Calls *)

Inductive Pc :=
| TryLock (owner : Z) (type_ : FlockType) (is_nonblocking : bool)
| Wait (owner : Z) (type_ : FlockType) (is_nonblocking : bool) (waiter : Z)
| DropLock (lock : Flock).

Inductive Next := Go (pc : Pc) | Done (ret : Result unit).

(** The list of a file, the flags of waiters, the number of the next waiter. *)
Record FlockList := mkFlockList {
  fk_list : list Flock;
  fk_woken : gset Z;
  fk_next : Z;
}.

(** A round of [set_lock]. *)
Definition set_lock (owner : Z) (type_ : FlockType) (is_nonblocking : bool) (s : FlockList) : Next * FlockList :=
  let req_lock := Flock_new owner type_ in
  match list_find (fun l => conflict_with req_lock l = true) (fk_list s) with
  | Some (i, conflict_lock) =>
      if is_nonblocking then (Done (Err EAGAIN), s) else
      let waiter := fk_next s in
      let (lock, woken) := enqueue_waiter conflict_lock waiter (fk_woken s) in
      (Go (Wait owner type_ is_nonblocking waiter), mkFlockList (<[i := lock]> (fk_list s)) woken (waiter + 1))
  | None =>
      match list_find (fun l => same_owner_with req_lock l = true) (fk_list s) with
      | Some (idx, old) => (Go (DropLock old), mkFlockList (<[idx := req_lock]> (fk_list s)) (fk_woken s) (fk_next s))
      | None => (Done (Ok tt), mkFlockList (req_lock :: fk_list s) (fk_woken s) (fk_next s))
      end
  end.

(** The next step of a thread; [host] is an error of the host while it sleeps. *)
Definition thread_step (pc : Pc) (host : option Errno) (s : FlockList) : option (Next * FlockList) :=
  match pc with
  | TryLock owner type_ nb => Some (set_lock owner type_ nb s)
  | Wait owner type_ nb w =>
      match host with
      | Some e => Some (Done (Err e), s)
      | None => if decide (w ∈ fk_woken s) then Some (Go (TryLock owner type_ nb), s) else None
      end
  | DropLock old =>
      Some (Done (Ok tt), mkFlockList (fk_list s) (dequeue_and_wake_all_waiters old (fk_woken s)) (fk_next s))
  end.

(** [retain]: a lock that goes is dropped at once; [alive] says whether an open file still exists. *)
Fixpoint unlock_loop (alive : Z -> bool) (req_owner : Z) (l : list Flock) (woken : gset Z) : list Flock * gset Z :=
  match l with
  | [] => ([], woken)
  | lock :: rest =>
      if alive (fl_owner lock) && negb (fl_owner lock =? req_owner) then
        let (kept, woken) := unlock_loop alive req_owner rest woken in (lock :: kept, woken)
      else unlock_loop alive req_owner rest (dequeue_and_wake_all_waiters lock woken)
  end.

Definition unlock (alive : Z -> bool) (req_owner : Z) (s : FlockList) : FlockList :=
  let (l, woken) := unlock_loop alive req_owner (fk_list s) (fk_woken s) in mkFlockList l woken (fk_next s).

(** * Threads *)

Record FlockSys := mkFlockSys { fs_file : FlockList; fs_threads : gmap Z Pc; fs_closed : gset Z }.

Definition go_on (t : Z) (n : Next) (threads : gmap Z Pc) : gmap Z Pc :=
  match n with Go pc => <[t := pc]> threads | Done _ => delete t threads end.

Definition is_alive (closed : gset Z) (owner : Z) : bool := negb (bool_decide (owner ∈ closed)).

(** A queue has fewer than [2^64] elements. *)
Definition queue_fits (l : Flock) : Prop := forall q, fl_waiters l = Some q -> Z.of_nat (length q) < u64_modulus.

(** A thread starts to lock, one makes its next step, an open file unlocks, or one is closed. *)
Inductive flock_step : FlockSys -> FlockSys -> Prop :=
| fk_call s t owner type_ nb :
    fs_threads s !! t = None ->
    flock_step s (mkFlockSys (fs_file s) (<[t := TryLock owner type_ nb]> (fs_threads s)) (fs_closed s))
| fk_access s t pc host n f :
    fs_threads s !! t = Some pc -> (forall l, pc = DropLock l -> queue_fits l) ->
    thread_step pc host (fs_file s) = Some (n, f) ->
    flock_step s (mkFlockSys f (go_on t n (fs_threads s)) (fs_closed s))
| fk_unlock s owner :
    Forall queue_fits (fk_list (fs_file s)) ->
    flock_step s (mkFlockSys (unlock (is_alive (fs_closed s)) owner (fs_file s)) (fs_threads s) (fs_closed s))
| fk_close s owner : flock_step s (mkFlockSys (fs_file s) (fs_threads s) ({[owner]} ∪ fs_closed s)).

Inductive flock_reachable : FlockSys -> Prop :=
| fk_start : flock_reachable (mkFlockSys (mkFlockList [] ∅ 0) ∅ ∅)
| fk_steps s s' : flock_reachable s -> flock_step s s' -> flock_reachable s'.

(** * The invariant *)

(** No two locks are of one owner, and none conflict. *)
Definition compatible (l : list Flock) : Prop :=
  NoDup (fl_owner <$> l) /\ forall a b, a ∈ l -> b ∈ l -> conflict_with a b = false.

Definition queued (w : Z) (l : Flock) : Prop := exists q, fl_waiters l = Some q /\ w ∈ q.

(** A thread that wants a lock of this type waits for a lock that conflicts with it. *)
Definition waits_for (owner : Z) (type_ : FlockType) (w : Z) (l : list Flock) : Prop :=
  exists lock, lock ∈ l /\ conflict_with (Flock_new owner type_) lock = true /\ queued w lock.
(** The lock it waited for is about to be dropped. *)
Definition will_wake (w : Z) (threads : gmap Z Pc) : Prop :=
  exists u lock, threads !! u = Some (DropLock lock) /\ queued w lock.

Record flock_inv (s : FlockSys) : Prop := {
  ki_compatible : compatible (fk_list (fs_file s));
  ki_next t owner type_ nb w : fs_threads s !! t = Some (Wait owner type_ nb w) -> w < fk_next (fs_file s);
  ki_waits t owner type_ nb w : fs_threads s !! t = Some (Wait owner type_ nb w) ->
    w ∈ fk_woken (fs_file s) \/ waits_for owner type_ w (fk_list (fs_file s)) \/ will_wake w (fs_threads s);
}.

(** ** The list *)

(** Owner and type are all that conflicts depend on. *)
Definition same_lock (a b : Flock) : Prop := fl_owner a = fl_owner b /\ fl_type a = fl_type b.

Lemma conflict_same a b a' b' : same_lock a a' -> same_lock b b' -> conflict_with a b = conflict_with a' b'.
Proof. intros [H1 H2] [H3 H4]. unfold conflict_with, same_owner_with. by rewrite H1, H2, H3, H4. Qed.

Lemma flock_conflict_sym a b : conflict_with a b = conflict_with b a.
Proof. unfold conflict_with, same_owner_with. rewrite Z.eqb_sym. case_match; [done|]. apply orb_comm. Qed.

(** A dropped lock wakes all that wait for it. *)
Lemma drop_wakes lock woken :
  queue_fits lock ->
  woken ⊆ dequeue_and_wake_all_waiters lock woken
  /\ forall w, queued w lock -> w ∈ dequeue_and_wake_all_waiters lock woken.
Proof.
  intros Hq. unfold dequeue_and_wake_all_waiters, queued. destruct (fl_waiters lock) as [q|] eqn:Eq.
  - rewrite wake_all_spec by (by apply Hq). cbn. split; [set_solver|]. intros w (q' & [= <-] & Hin). set_solver.
  - split; [done|]. by intros w (q' & Hq' & _).
Qed.

(** What [retain] keeps. *)
Lemma unlock_loop_spec alive owner l : forall woken,
  Forall queue_fits l ->
  let r := unlock_loop alive owner l woken in
  r.1 = filter (fun lock => alive (fl_owner lock) && negb (fl_owner lock =? owner) = true) l
  /\ woken ⊆ r.2 /\ forall w lock, lock ∈ l -> queued w lock -> lock ∈ r.1 \/ w ∈ r.2.
Proof.
  induction l as [|lock l IH]; intros woken Hf; cbn [unlock_loop].
  - split_and!; [done|done|]. intros w lock Hin. by apply not_elem_of_nil in Hin.
  - apply list.Forall_cons in Hf as [Hq Hf]. rewrite filter_cons.
    destruct (alive (fl_owner lock) && negb (fl_owner lock =? owner)); cbn.
    + specialize (IH woken Hf). destruct (unlock_loop alive owner l woken) as [kept wk]. cbn in *. destruct IH as (-> & H2 & H3).
      split_and!; [done|done|]. intros w x Hx Hqx. apply elem_of_cons in Hx as [->|Hx]; [left; left|].
      destruct (H3 w x Hx Hqx); [left; by right|by right].
    + destruct (IH (dequeue_and_wake_all_waiters lock woken) Hf) as (H1 & H2 & H3).
      destruct (drop_wakes lock woken Hq) as [Hw1 Hw2]. split_and!; [done|set_solver|].
      intros w x Hx Hqx. apply elem_of_cons in Hx as [->|Hx]; [right; by apply H2, Hw2|by apply H3].
Qed.

Lemma compatible_filter (P : Flock -> Prop) `{forall x, Decision (P x)} l : compatible l -> compatible (filter P l).
Proof.
  intros [Hn Hc]. split.
  - eapply sublist_NoDup; [exact Hn|]. apply fmap_sublist, sublist_filter.
  - intros a b [_ Ha]%list_elem_of_filter [_ Hb]%list_elem_of_filter. by apply Hc.
Qed.

Lemma elem_of_insert_inv (l : list Flock) i x y : x ∈ <[i := y]> l -> x = y \/ x ∈ l.
Proof.
  intros (j & Hj)%list_elem_of_lookup. apply list_lookup_insert_Some in Hj as [(_ & <- & _)|[_ Hj]]; [by left|right].
  by eapply list_elem_of_lookup_2.
Qed.

Lemma elem_of_insert_keep (l : list Flock) i x y : x ∈ l -> x ∈ <[i := y]> l \/ l !! i = Some x.
Proof.
  intros (j & Hj)%list_elem_of_lookup. destruct (decide (i = j)) as [->|Hne]; [by right|left].
  eapply list_elem_of_lookup_2. by rewrite list_lookup_insert_ne.
Qed.

Lemma compatible_insert l i old new :
  compatible l -> l !! i = Some old -> fl_owner new = fl_owner old -> (forall b, b ∈ l -> conflict_with new b = false) ->
  compatible (<[i := new]> l).
Proof.
  intros [Hn Hc] Hi Ho Hnew. split.
  - rewrite list_fmap_insert, Ho. rewrite list_insert_id; [done|]. by rewrite list_lookup_fmap, Hi.
  - assert (Hself : forall b, fl_owner b = fl_owner new -> conflict_with new b = false).
    { intros b Hb. unfold conflict_with, same_owner_with. by rewrite Hb, Z.eqb_refl. }
    intros a b [->|Ha]%elem_of_insert_inv [->|Hb]%elem_of_insert_inv; [by apply Hself|by apply Hnew| |by apply Hc].
    rewrite flock_conflict_sym. by apply Hnew.
Qed.

(** ** Steps *)

Lemma flock_go_on_lookup t n (m : gmap Z Pc) u :
  go_on t n m !! u = if decide (u = t) then match n with Go q => Some q | Done _ => None end else m !! u.
Proof.
  destruct n; cbn; case_decide as Hu; subst;
    rewrite ?lookup_insert_eq, ?lookup_delete_eq, ?lookup_insert_ne, ?lookup_delete_ne by done; done.
Qed.

(** The effect of a step of thread [t] on sleepers: those it does not wake still wait for a lock or
    for a lock that is dropped. *)
Lemma others_kept s t pc n f :
  flock_inv s -> fs_threads s !! t = Some pc -> compatible (fk_list f) -> fk_next (fs_file s) <= fk_next f ->
  (forall w, w < fk_next (fs_file s) -> w ∈ fk_woken (fs_file s) -> w ∈ fk_woken f) ->
  (forall owner type_ w, w < fk_next (fs_file s) -> waits_for owner type_ w (fk_list (fs_file s)) ->
     waits_for owner type_ w (fk_list f) \/ exists l, n = Go (DropLock l) /\ queued w l) ->
  (forall w l, pc = DropLock l -> queued w l -> w ∈ fk_woken f) ->
  (forall owner type_ nb w, n = Go (Wait owner type_ nb w) -> w < fk_next f /\ waits_for owner type_ w (fk_list f)) ->
  flock_inv (mkFlockSys f (go_on t n (fs_threads s)) (fs_closed s)).
Proof.
  intros [_ Hx Hw] Ht Hc Hnext Hwoken Hlist Hdrop Hnew. split; cbn; [done| |].
  - intros u owner type_ nb w Hu. rewrite flock_go_on_lookup in Hu. case_decide.
    + destruct n as [q|]; [|done]. injection Hu as ->. by edestruct Hnew.
    + specialize (Hx _ _ _ _ _ Hu). lia.
  - intros u owner type_ nb w Hu. rewrite flock_go_on_lookup in Hu. case_decide as Hut.
    + destruct n as [q|]; [|done]. injection Hu as ->. right. left. by edestruct Hnew.
    + pose proof (Hx _ _ _ _ _ Hu) as Hlt. destruct (Hw _ _ _ _ _ Hu) as [H|[H|(v & l & Hv & Hq)]]; [left; by apply Hwoken| |].
      * destruct (Hlist _ _ _ Hlt H) as [?|(l & -> & Hq)]; [by right; left|]. right. right. exists t, l. split; [|done].
        by rewrite flock_go_on_lookup, decide_True.
      * destruct (decide (v = t)) as [->|Hvt]; [left; rewrite Ht in Hv; injection Hv as ->; by eapply Hdrop|].
        right. right. exists v, l. split; [|done]. by rewrite flock_go_on_lookup, decide_False.
Qed.

(** The request waits at the first lock that conflicts. *)
Lemma flock_wait_inv s t owner type_ i conf woken :
  flock_inv s -> fs_threads s !! t = Some (TryLock owner type_ false) -> fk_list (fs_file s) !! i = Some conf ->
  conflict_with (Flock_new owner type_) conf = true ->
  let w := fk_next (fs_file s) in
  let l := mkFlock (fl_owner conf) (fl_type conf) (Some (default [] (fl_waiters conf) ++ [w])) in
  woken = fk_woken (fs_file s) ∖ {[w]} ->
  flock_inv (mkFlockSys (mkFlockList (<[i := l]> (fk_list (fs_file s))) woken (w + 1))
    (go_on t (Go (Wait owner type_ false w)) (fs_threads s)) (fs_closed s)).
Proof.
  intros Hs Ht Hi Hconf w l ->. pose proof (ki_compatible s Hs) as Hc.
  assert (Hsame : same_lock conf l) by done. assert (Hself : forall a, same_lock a a) by done.
  assert (Hin : l ∈ <[i := l]> (fk_list (fs_file s))) by (apply list_elem_of_insert; by eapply lookup_lt_Some).
  eapply others_kept; [done|done| |cbn; lia| | |done|].
  - eapply compatible_insert; [done|exact Hi|done|]. intros b Hb. rewrite <- (conflict_same conf b l b) by done.
    apply Hc; [by eapply list_elem_of_lookup_2|done].
  - cbn. intros v Hlt Hv. apply elem_of_difference. split; [done|]. rewrite elem_of_singleton. lia.
  - intros o ty v Hlt (x & Hx & Hxc & q & Hq & Hvq). left. destruct (elem_of_insert_keep _ i _ l Hx) as [Hk|Hk].
    + exists x. split_and!; [done|done|by exists q].
    + rewrite Hi in Hk. injection Hk as <-. exists l. split_and!; [done|by rewrite <- (conflict_same _ conf _ l (Hself _) Hsame)|].
      exists (q ++ [w]). cbn. rewrite Hq. split; [done|]. apply elem_of_app. by left.
  - intros o ty nb v [= <- <- <- <-]. split; [cbn; lia|]. exists l.
    split_and!; [done|by rewrite <- (conflict_same _ conf _ l (Hself _) Hsame)|].
    eexists. split; [done|]. apply elem_of_app. right. by apply list_elem_of_singleton.
Qed.

Lemma compatible_cons l new :
  compatible l -> (forall b, b ∈ l -> conflict_with new b = false /\ fl_owner new <> fl_owner b) -> compatible (new :: l).
Proof.
  intros [Hn Hc] Hnew. split.
  - cbn. apply list.NoDup_cons. split; [|done]. intros (b & Hb & Hin)%list_elem_of_fmap. by destruct (Hnew b Hin).
  - intros a b Ha Hb. apply elem_of_cons in Ha as [->|Ha]; apply elem_of_cons in Hb as [->|Hb].
    + unfold conflict_with, same_owner_with. by rewrite Z.eqb_refl.
    + by apply Hnew.
    + rewrite flock_conflict_sym. by apply Hnew.
    + by apply Hc.
Qed.

Lemma set_lock_inv s t owner type_ nb n f :
  flock_inv s -> fs_threads s !! t = Some (TryLock owner type_ nb) -> set_lock owner type_ nb (fs_file s) = (n, f) ->
  flock_inv (mkFlockSys f (go_on t n (fs_threads s)) (fs_closed s)).
Proof.
  intros Hs Ht Hrun. pose proof (ki_compatible s Hs) as Hc. unfold set_lock in Hrun.
  destruct (list_find (fun l => conflict_with _ l = true) (fk_list (fs_file s))) as [[i conf]|] eqn:Hfind.
  { apply list_find_Some in Hfind as (Hi & Hconf & _). destruct nb; injection Hrun as <- <-; [|by apply flock_wait_inv].
    eapply others_kept; [done|done|done|cbn; lia|done| |done|done]. intros o ty w _ Hw. by left. }
  apply list_find_None in Hfind. rewrite list.Forall_forall in Hfind.
  assert (Hno : forall b, b ∈ fk_list (fs_file s) -> conflict_with (Flock_new owner type_) b = false)
    by (intros b Hb; apply not_true_is_false; by apply Hfind).
  destruct (list_find _ (fk_list (fs_file s))) as [[i old]|] eqn:Hown.
  - apply list_find_Some in Hown as (Hi & Hsame & _). injection Hrun as <- <-. unfold same_owner_with in Hsame. cbn in Hsame.
    eapply others_kept; [done|done| |cbn; lia|done| |done|done].
    + eapply compatible_insert; [done|exact Hi|cbn; lia|done].
    + intros o ty w _ (x & Hx & Hxc & Hq). destruct (elem_of_insert_keep _ i _ (Flock_new owner type_) Hx) as [Hk|Hk].
      * left. by exists x.
      * right. rewrite Hi in Hk. injection Hk as <-. by exists old.
  - apply list_find_None in Hown. rewrite list.Forall_forall in Hown. injection Hrun as <- <-.
    eapply others_kept; [done|done| |cbn; lia|done| |done|done].
    + apply compatible_cons; [done|]. intros b Hb. split; [by apply Hno|]. specialize (Hown b Hb).
      unfold same_owner_with in Hown. cbn in Hown |- *. lia.
    + intros o ty w _ (x & Hx & Hxc & Hq). left. exists x. split_and!; [by right|done|done].
Qed.

Lemma access_kept s t pc host n f :
  flock_inv s -> fs_threads s !! t = Some pc -> (forall l, pc = DropLock l -> queue_fits l) ->
  thread_step pc host (fs_file s) = Some (n, f) ->
  flock_inv (mkFlockSys f (go_on t n (fs_threads s)) (fs_closed s)).
Proof.
  intros Hs Ht Hfit Hrun. pose proof (ki_compatible s Hs) as Hc. destruct pc as [owner type_ nb|owner type_ nb w|old]; cbn in Hrun.
  - injection Hrun as Hrun. by eapply set_lock_inv.
  - assert (Hf : f = fs_file s /\ ((exists e, n = Done e) \/ n = Go (TryLock owner type_ nb)))
      by (destruct host; [|case_decide]; simplify_eq; eauto).
    destruct Hf as [-> Hn]. eapply others_kept; [done|done|done|lia|done| |done|].
    + intros o ty v _ Hv. by left.
    + intros o ty nb' v ->. by destruct Hn as [[? ?]|?].
  - injection Hrun as <- <-. destruct (drop_wakes old (fk_woken (fs_file s)) (Hfit old eq_refl)) as [Hw1 Hw2].
    eapply others_kept; [done|done|done|cbn; lia|cbn; set_solver| | |done].
    + intros o ty v _ Hv. by left.
    + intros w l [= <-]. apply Hw2.
Qed.

Lemma unlock_inv s owner :
  flock_inv s -> Forall queue_fits (fk_list (fs_file s)) ->
  flock_inv (mkFlockSys (unlock (is_alive (fs_closed s)) owner (fs_file s)) (fs_threads s) (fs_closed s)).
Proof.
  intros [Hc Hx Hw] Hf. unfold unlock.
  pose proof (unlock_loop_spec (is_alive (fs_closed s)) owner _ (fk_woken (fs_file s)) Hf) as H.
  destruct (unlock_loop _ _ _ _) as [l woken]. cbn in H. destruct H as (-> & Hwk & Hq). split; cbn.
  - by apply compatible_filter.
  - done.
  - intros t o ty nb w Ht. destruct (Hw _ _ _ _ _ Ht) as [?|[(x & Hin & Hxc & Hqx)|?]]; [left; set_solver| |by right; right].
    destruct (Hq w x Hin Hqx) as [Hk|Hk]; [right; left; by exists x|by left].
Qed.

Lemma flock_reachable_inv s : flock_reachable s -> flock_inv s.
Proof.
  induction 1 as [|s s' _ Hs Hstep]; [split; cbn; [split; [constructor|]| |]; try done; intros a b Ha; by apply not_elem_of_nil in Ha|].
  destruct Hstep as [s t owner type_ nb Ht|s t pc host n f Ht Hfit Hrun|s owner Hf|s owner].
  - destruct Hs as [Hc Hx Hw]. split; cbn; [done| |]; intros u o ty b w Hu; apply lookup_insert_Some in Hu as [[_ ?]|[Hne Hu]]; try done.
    + by eapply Hx.
    + destruct (Hw _ _ _ _ _ Hu) as [?|[?|(v & l & Hv & Hq)]]; [by left|by right; left|]. right. right. exists v, l.
      split; [|done]. rewrite lookup_insert_ne; [done|]. intros ->. by rewrite Ht in Hv.
  - by eapply access_kept.
  - by apply unlock_inv.
  - by destruct Hs.
Qed.

(** C11: whole-file locks exclude, and nobody waits without reason. In every state that any number of threads
    reach by locking, unlocking and closing, an open file has at most one lock, a lock of one file and an
    exclusive lock of another are never held together, and a thread that sleeps waits at a lock that
    conflicts with its request, or a thread that replaced such a lock is about to wake it. *)
Theorem flock_safe (s : FlockSys) :
  flock_reachable s ->
  let l := fk_list (fs_file s) in
  NoDup (fl_owner <$> l)
  /\ (forall a b, a ∈ l -> b ∈ l -> fl_owner a <> fl_owner b -> fl_type a = SH_LOCK /\ fl_type b = SH_LOCK)
  /\ (forall t owner type_ nb w,
        fs_threads s !! t = Some (Wait owner type_ nb w) -> w ∉ fk_woken (fs_file s) ->
        (exists lock q, lock ∈ l /\ fl_owner lock <> owner /\ (type_ = EX_LOCK \/ fl_type lock = EX_LOCK)
           /\ fl_waiters lock = Some q /\ w ∈ q)
        \/ exists u lock q, fs_threads s !! u = Some (DropLock lock) /\ fl_waiters lock = Some q /\ w ∈ q).
Proof.
  intros Hr l. destruct (flock_reachable_inv s Hr) as [[Hn Hc] _ Hw]. split_and!; [done| |].
  - intros a b Ha Hb Hne. specialize (Hc a b Ha Hb). unfold conflict_with, same_owner_with in Hc.
    rewrite (proj2 (Z.eqb_neq _ _) Hne) in Hc. by destruct (fl_type a), (fl_type b).
  - intros t owner type_ nb w Ht Hnw. destruct (Hw _ _ _ _ _ Ht) as [?|[(x & Hx & Hxc & q & Hq & Hin)|(u & x & Hu & q & Hq & Hin)]]; [done|left|right; by exists u, x, q].
    exists x, q. unfold conflict_with, same_owner_with in Hxc. cbn in Hxc. destruct (Z.eqb_spec owner (fl_owner x)); [done|].
    split_and!; [done|congruence| |done|done]. apply orb_true_iff in Hxc as [H|H]; apply bool_decide_eq_true in H; auto.
Qed.

Section example.
(** File 10 holds an exclusive lock and file 20 waits for a shared one. *)
Definition one_waits : FlockSys :=
  mkFlockSys (mkFlockList [mkFlock 10 EX_LOCK (Some [0])] ∅ 1) {[ 2 := Wait 20 SH_LOCK false 0 ]} ∅.

Lemma one_waits_reachable : flock_reachable one_waits.
Proof.
  pose (s0 := mkFlockSys (mkFlockList [] ∅ 0) ∅ ∅).
  pose (s1 := mkFlockSys (mkFlockList [] ∅ 0) {[ 1 := TryLock 10 EX_LOCK false ]} ∅).
  pose (s2 := mkFlockSys (mkFlockList [mkFlock 10 EX_LOCK None] ∅ 0) ∅ ∅).
  pose (s3 := mkFlockSys (mkFlockList [mkFlock 10 EX_LOCK None] ∅ 0) {[ 2 := TryLock 20 SH_LOCK false ]} ∅).
  apply (fk_steps s3); [apply (fk_steps s2); [apply (fk_steps s1); [apply (fk_steps s0); [apply fk_start|]|]|]|].
  - by apply (fk_call s0 1 10 EX_LOCK false).
  - by apply (fk_access s1 1 (TryLock 10 EX_LOCK false) None (Done (Ok tt)) (fs_file s2)).
  - by apply (fk_call s2 2 20 SH_LOCK false).
  - by apply (fk_access s3 2 (TryLock 20 SH_LOCK false) None (Go (Wait 20 SH_LOCK false 0)) (fs_file one_waits)).
Qed.

Lemma flock_safe_witness :
  NoDup (fl_owner <$> fk_list (fs_file one_waits))
  /\ exists lock q, lock ∈ fk_list (fs_file one_waits) /\ fl_owner lock <> 20 /\ fl_waiters lock = Some q /\ 0 ∈ q.
Proof.
  destruct (flock_safe one_waits one_waits_reachable) as (H1 & _ & H3). split; [exact H1|].
  destruct (H3 2 20 SH_LOCK false 0 eq_refl) as [(lock & q & ? & ? & _ & ? & ?)|(u & lock & q & Hu & _)].
  - apply not_elem_of_empty.
  - by exists lock, q.
  - cbn in Hu. apply lookup_singleton_Some in Hu as [_ ?]. done.
Defined.
End example.
