(* ===== verification/Rlimit.v ===== *)
(** Resource limits: [src/libos/src/misc/rlimit.rs]. *)

From S2P Require Import Prelude Errno.

Record rlimit_t := mkrlimit { rl_cur : Z; rl_max : Z }.

Definition rlimit_new (cur : Z) : rlimit_t := mkrlimit cur (u64_modulus - 1).
Definition rlimit_default : rlimit_t := mkrlimit (u64_modulus - 1) (u64_modulus - 1).

Inductive resource_t :=
| RLIMIT_CPU | RLIMIT_FSIZE | RLIMIT_DATA | RLIMIT_STACK | RLIMIT_CORE | RLIMIT_RSS | RLIMIT_NPROC | RLIMIT_NOFILE
| RLIMIT_MEMLOCK | RLIMIT_AS | RLIMIT_LOCKS | RLIMIT_SIGPENDING | RLIMIT_MSGQUEUE | RLIMIT_NICE | RLIMIT_RTPRIO | RLIMIT_RTTIME.

#[export] Instance resource_eq_dec : EqDecision resource_t.
Proof. solve_decision. Defined.

(** [resource as usize] *)
Definition resource_index (r : resource_t) : nat :=
  match r with
  | RLIMIT_CPU => 0 | RLIMIT_FSIZE => 1 | RLIMIT_DATA => 2 | RLIMIT_STACK => 3 | RLIMIT_CORE => 4 | RLIMIT_RSS => 5
  | RLIMIT_NPROC => 6 | RLIMIT_NOFILE => 7 | RLIMIT_MEMLOCK => 8 | RLIMIT_AS => 9 | RLIMIT_LOCKS => 10
  | RLIMIT_SIGPENDING => 11 | RLIMIT_MSGQUEUE => 12 | RLIMIT_NICE => 13 | RLIMIT_RTPRIO => 14 | RLIMIT_RTTIME => 15
  end%nat.

Definition resource_from_u32 (bits : Z) : Result resource_t :=
  match bits with
  | 0 => Ok RLIMIT_CPU | 1 => Ok RLIMIT_FSIZE | 2 => Ok RLIMIT_DATA | 3 => Ok RLIMIT_STACK
  | 4 => Ok RLIMIT_CORE | 5 => Ok RLIMIT_RSS | 6 => Ok RLIMIT_NPROC | 7 => Ok RLIMIT_NOFILE
  | 8 => Ok RLIMIT_MEMLOCK | 9 => Ok RLIMIT_AS | 10 => Ok RLIMIT_LOCKS | 11 => Ok RLIMIT_SIGPENDING
  | 12 => Ok RLIMIT_MSGQUEUE | 13 => Ok RLIMIT_NICE | 14 => Ok RLIMIT_RTPRIO | 15 => Ok RLIMIT_RTTIME
  | _ => Err EINVAL
  end.

(** An array of 16; the index is always in it. *)
Abbreviation ResourceLimits := (list rlimit_t) (only parsing).

Definition rlimits_get (self : ResourceLimits) (r : resource_t) : rlimit_t :=
  default rlimit_default (self !! resource_index r).
Definition rlimits_set (self : ResourceLimits) (r : resource_t) (l : rlimit_t) : ResourceLimits :=
  <[resource_index r := l]> self.

Definition ResourceLimits_default (cfg_heap_size cfg_stack_size cfg_mmap_size : Z) : ResourceLimits :=
  let rlimits := replicate 16 rlimit_default in
  let rlimits := rlimits_set rlimits RLIMIT_DATA (rlimit_new cfg_heap_size) in
  let rlimits := rlimits_set rlimits RLIMIT_STACK (rlimit_new cfg_stack_size) in
  let rlimits := rlimits_set rlimits RLIMIT_AS (rlimit_new (cfg_heap_size +64 cfg_stack_size +64 cfg_mmap_size)) in
  rlimits_set rlimits RLIMIT_NOFILE (rlimit_new 1024).

(** On the limits of the process that was found: the result, the old limit if it is asked for, which is
    written also when the call then fails, and the limits. *)
Definition do_prlimit (rlimits : ResourceLimits) (resource : resource_t) (new_limit : option rlimit_t) (wants_old : bool)
    : Result unit * option rlimit_t * ResourceLimits :=
  let old_limit := if wants_old then Some (rlimits_get rlimits resource) else None in
  match new_limit with
  | None => (Ok tt, old_limit, rlimits)
  | Some new_limit =>
      if rl_max new_limit <? rl_cur new_limit then (Err EINVAL, old_limit, rlimits) else
      let cur r := match r, resource with
        | RLIMIT_DATA, RLIMIT_DATA | RLIMIT_STACK, RLIMIT_STACK | RLIMIT_AS, RLIMIT_AS => rl_cur new_limit
        | _, _ => rl_cur (rlimits_get rlimits r) end in
      if u64_modulus <=? cur RLIMIT_DATA + cur RLIMIT_STACK then (Err EOVERFLOW, old_limit, rlimits) else
      if cur RLIMIT_AS <=? cur RLIMIT_DATA + cur RLIMIT_STACK then (Err EINVAL, old_limit, rlimits) else
      (Ok tt, old_limit, rlimits_set rlimits resource new_limit)
  end.

(** * Properties *)

Lemma resource_roundtrip r : resource_from_u32 (Z.of_nat (resource_index r)) = Ok r.
Proof. by destruct r. Qed.

(** No soft limit is above its hard limit, and data and stack leave room in the address space. *)
Record limits_ok (l : ResourceLimits) : Prop := {
  lo_length : length l = 16%nat;
  lo_soft r : rl_cur (rlimits_get l r) <= rl_max (rlimits_get l r);
  lo_space : rl_cur (rlimits_get l RLIMIT_DATA) + rl_cur (rlimits_get l RLIMIT_STACK) < rl_cur (rlimits_get l RLIMIT_AS);
}.

Lemma get_set l r r' x :
  length l = 16%nat -> rlimits_get (rlimits_set l r x) r' = if decide (r = r') then x else rlimits_get l r'.
Proof.
  intros Hl. unfold rlimits_get, rlimits_set. destruct (decide (resource_index r = resource_index r')) as [Hi|Hi].
  - assert (r = r') as -> by (by destruct r, r'). rewrite decide_True by done.
    rewrite list_lookup_insert_eq; [done|]. destruct r'; cbn; lia.
  - rewrite list_lookup_insert_ne by done. case_decide; [by subst|done].
Qed.

(** What [prlimit] leaves alone when it fails, and the limits it does not set. *)
Lemma do_prlimit_spec l resource new_limit wants_old :
  limits_ok l ->
  let '(r, old, l') := do_prlimit l resource new_limit wants_old in
  limits_ok l' /\ old = (if wants_old then Some (rlimits_get l resource) else None)
  /\ match r with
     | Ok _ => forall r', rlimits_get l' r' = match new_limit with
                 | Some x => if decide (resource = r') then x else rlimits_get l r' | None => rlimits_get l r' end
     | Err e => l' = l /\ (e = EINVAL \/ e = EOVERFLOW)
     | Panic => False
     end.
Proof.
  intros Hl. unfold do_prlimit. destruct new_limit as [x|]; [|done].
  destruct (Z.ltb_spec (rl_max x) (rl_cur x)); [by auto|]. cbv zeta.
  destruct (u64_modulus <=? _); [by auto|]. destruct (_ <=? _) eqn:Has; [by auto|].
  destruct Hl as [Hlen Hsoft Hspace]. split_and!; [|done|by intros r'; apply get_set]. split.
  - unfold rlimits_set. by rewrite length_insert.
  - intros r. rewrite get_set by done. by case_decide.
  - rewrite !get_set by done. apply Z.leb_gt in Has. destruct resource; cbn in *; exact Has || exact Hspace.
Qed.

(** The limits a LibOS starts with. *)
Lemma default_limits_ok heap stack mmap :
  0 <= heap -> 0 <= stack -> 0 < mmap -> heap + stack + mmap < u64_modulus ->
  limits_ok (ResourceLimits_default heap stack mmap).
Proof.
  intros Hh Hs Hm Hlt. unfold ResourceLimits_default. rewrite !add64_small by (rewrite ?add64_small; lia).
  split; [done| |cbn; lia]. intros []; cbn; unfold u64_modulus in *; lia.
Qed.
